(* ===== verification/_CoqProject ===== *)
-Q . S2P
Prelude.v
Octets.v
AesTables.v
AesSpec.v
AesCore.v
AesCorrect.v
AesModes.v
AesModesCorrect.v
AesStreamCorrect.v
MdStream.v
Sha256.v
Md5.v
Md.v
Padding.v
Cipher.v
CipherCorrect.v
Cmac.v
Vfs.v
AesUtil.v
EncryptionLayers.v
KernelObject.v
HandleTable.v
BitUtil.v
ProcessCapability.v
ProcessCapabilityCorrect.v
MultiLevelQueue.v
PageHeap.v
PageBitmap.v
PageHeapCorrect.v
PageHeapSpec.v
MemoryManager.v
MemoryState.v
MemoryBlockManager.v
MemoryBlockCorrect.v
ResourceLimit.v
AddressSpace.v
PageTable.v
PageTableInit.v
PageTableRanges.v
PageTableFrames.v
PageTableIsolation.v
PageTableAlias.v
RingBuffer.v
Uint128.v
CoreTimingUtil.v
WallClock.v
CoreTiming.v
CoreTimingCorrect.v
CoreTimingThread.v
StringUtil.v
ParamPackage.v
VfsConcat.v
PartitionFilesystem.v
NcaPatch.v
SlabHeap.v
MacroInterpreter.v
IpsLayer.v
Scheduler.v
SchedulerQueues.v
SchedulerCorrect.v
SchedulerSelect.v
Mutex.v
MutexCorrect.v
MutexSpec.v
AddressArbiter.v
AddressArbiterCorrect.v
Synchronization.v
SynchronizationCorrect.v
MacroMachine.v
