(* ===== verification/Prelude.v ===== *)
(** * A verified core of the emulator

    The repository is a Nintendo Switch emulator.  This development models
    its core and proves it correct: the kernel that hands out handles and
    memory, schedules threads and lets them wait for mutexes, addresses and
    events; core timing, which fires the events of the emulated machine; the
    content formats and the cryptography that open a game, from the files of the emulator down to
    the block cipher of the library it vendors; and the interpreter of the
    macros of the graphics processor.

    ** Parts and files

    Shared: [Prelude] (machine integers as [Z] with their casts, C arrays as
    lists, notations of [c_scope], loops, tactics), [Octets] (octets and
    words), [BitUtil] ([src/src/common/bit_util.h], [alignment.h]).

    Kernel ([src/src/core/hle/kernel]):
    - [KernelObject], [HandleTable]: [object.h], [handle_table.cpp].  The table
      is the record of its two arrays, size, generation counter and free-list
      head; [Create], [Close], [Duplicate], [Clear], [SetSize] and the lookups
      are functions on it.
    - [ProcessCapability] (definitions), [ProcessCapabilityCorrect] (proofs):
      [process_capability.cpp], the parser of the descriptors that say what a
      process may use.
    - [PageHeap] (definitions), [PageBitmap], [PageHeapCorrect] and
      [PageHeapSpec] (proofs): [memory/page_heap.h] and [.cpp].  A heap has
      seven blocks, one per block size, each with a bitmap of up to four levels
      of 64-bit words.
    - [MemoryManager]: [memory/memory_manager.cpp], [page_linked_list.h], a
      client of [PageHeap].
    - [MemoryState]: the states, permissions and attributes of
      [memory/memory_block.h]; [MemoryBlockManager] (definitions),
      [MemoryBlockCorrect] (proofs): [memory/memory_block_manager.cpp], the
      blocks that describe an address space.
    - [ResourceLimit]: [resource_limit.cpp].
    - [AddressSpace]: [memory/address_space_info.cpp], [system_control.cpp],
      the table of regions and the random numbers that place them.
    - [PageTable] and [PageTableInit] (definitions): [memory/page_table.cpp],
      with the functions of [src/src/core/memory.cpp] that write the entries
      of [Common::PageTable].  An operation is a computation in a state and
      error monad over the page table, the pools of the memory manager and
      the resource limit of the process.  [PageTableInit] also has the proofs
      on the layout; [PageTableRanges] (blocks of a range,
      [CheckMemoryState]), [PageTableFrames] (entries as a map from pages to
      frames), [PageTableIsolation] (the invariant of all three parts) and
      [PageTableAlias] ([Map] and [Unmap]) are proofs.
    - [SlabHeap]: [memory/slab_heap.h], as functions and as threads that
      interleave at every access to the list of free objects.
    - [MultiLevelQueue]: [src/src/common/multi_level_queue.h], the queue of the
      scheduler.
    - [Scheduler] (definitions), [SchedulerQueues], [SchedulerCorrect] and
      [SchedulerSelect] (proofs): [scheduler.cpp] and the part of [thread.cpp]
      that changes status, activity, priority and affinity.  The global
      scheduler is the record of its threads and of two queues per core.
    - [Mutex] (definitions), [MutexCorrect] and [MutexSpec] (proofs):
      [mutex.cpp], the priority inheritance of [thread.cpp] and the condition
      variable lists of [process.cpp], over [Scheduler].  [TryAcquire] is two
      steps, before and after the wait.
    - [AddressArbiter] (definitions), [AddressArbiterCorrect] (proofs):
      [address_arbiter.cpp], [time_manager.cpp] and two system calls.
      [Synchronization] (definitions), [SynchronizationCorrect] (proofs):
      [synchronization.cpp], [synchronization_object.cpp],
      [readable_event.cpp].  A call that sleeps, or that runs without the
      scheduler lock, is a sequence of steps, and its place is part of the
      state.

    Timing and threads ([src/src/core], [src/src/common]):
    - [Uint128], [CoreTimingUtil]: [uint128.cpp], [core_timing_util.cpp], the
      arithmetic of times and cycles.  [WallClock]: [wall_clock.cpp],
      [x64/native_clock.cpp], the host clocks over their raw readings.
    - [CoreTiming] (definitions), [CoreTimingCorrect] (proofs):
      [core_timing.cpp].  The class [HeapContract] is what the C++ standard
      says of the heap algorithms, [Host] what the clock and the shared
      pointers provide; the proofs use nothing else, and an instance shows that
      the contract can be met.  [Advance] takes the callbacks as a function.
    - [CoreTimingThread]: [ThreadLoop], [Pause], [SyncPause] and [Shutdown] as
      two threads, a step per access to a shared flag, over the [Event] of
      [thread.h]; its state space is finite and its invariant is checked on
      all of it.
    - [RingBuffer]: [ring_buffer.h], as functions and as two threads.

    Content ([src/src/core/crypto], [src/src/core/file_sys], [src/src/common]):
    - [Vfs]: the reading interface of files ([vfs.cpp], [vfs_offset.cpp],
      [vfs_vector.cpp]); the class [Trimming] says what a file promises to the
      layers above it and both file types are instances.
    - [VfsConcat]: [vfs_concat.cpp], [vfs_static.h], files put together from
      other files with filler in between.
    - [PartitionFilesystem]: [partition_filesystem.cpp], the PFS0 and HFS0
      containers.
    - [NcaPatch]: [nca_patch.cpp], archives patched by relocation and
      subsection tables.
    - [IpsLayer]: [ips_layer.cpp], binary patches of executables.
    - [StringUtil], [ParamPackage]: [string_util.cpp], [hex_util.cpp],
      [param_package.cpp].
    - [AesUtil]: [aes_util.cpp], the wrapper of the library.
    - [EncryptionLayers]: [ctr_encryption_layer.cpp],
      [xts_encryption_layer.cpp], files that decrypt another file.

    Graphics ([src/src/video_core/macro]):
    - [MacroInterpreter]: [macro_interpreter.cpp], [macro.h].  The class of
      the 3D engine is what the interpreter calls.  [MacroMachine]: the
      machine that it implements, specified apart from the code, and the
      refinement.

    Library ([src/externals/mbedtls]):
    - [AesTables], [AesCore], [AesModes]: [aes.c]; [AesSpec] is FIPS-197;
      [AesCorrect], [AesModesCorrect], [AesStreamCorrect] the proofs.
    - [Padding], [Cipher], [CipherCorrect]: [cipher.c], [cipher_wrap.c].
    - [Cmac]: [cmac.c].  [MdStream], [Sha256], [Md5], [Md]: the common
      streaming code, [sha256.c], [md5.c], and the digest layer with HMAC
      ([md.c], [md_wrap.c]).

    The parts are stacked as in the code: the layers read through the
    interface of [Vfs] and call [AesUtil], which calls [Cipher], which calls
    [AesModes] and [AesCore], and so does [NcaPatch]; [PageTable] calls
    [MemoryBlockManager], [MemoryManager] and [ResourceLimit], and
    [MemoryManager] calls [PageHeap]; [Mutex], [AddressArbiter] and
    [Synchronization] call [Scheduler], which calls [MultiLevelQueue].

    ** What the theorems show

    - Handle table: every reachable table is a finite map from handles to
      objects with the exact error conditions; a handle names its object until
      it is closed, even when its slot is reused; the free list visits each
      empty slot once.
    - Process capabilities: a list of descriptors, none of which names all 64
      priorities, is accepted exactly when its descriptors are well-formed and do not conflict, and grants exactly the
      system calls, interrupts, cores, priorities and limits they name.
    - Page heap: every reachable heap is a set of free pages; each free page
      is in one free block, the assertions hold, the count is right; an
      allocation succeeds whenever an aligned run of free pages exists; the
      bitmaps fit in the metadata reserved for them.
    - Memory manager: an allocation succeeds exactly when enough pages are
      free, and otherwise gives everything back; freeing undoes it.
    - Memory block manager: the tree is the unique merged description of the
      properties of the pages, [Update] changes the pages of its range and no
      other, [FindFreeArea] finds the lowest suitable area.
    - Page table: the regions of a new address space never overlap, whatever
      the random numbers; [CheckMemoryState] is exact, page by page;
      [QueryInfo] describes every address.  Through the operations that map,
      grow, allocate, free and protect memory, the block list, the entries and
      the heap agree: a page is unmapped exactly when its block is free, the
      frame behind a page is allocated, and two pages never share one; this
      leaves out a [MapPhysicalMemory] that runs out of memory, a
      [SetHeapSize] to the size that the heap has and ranges that reach the
      last page ([allowed] of [PageTableIsolation]).  [Map] makes an alias and [Unmap] restores everything.
    - Resource limits: no resource goes over its limit, a release undoes a
      reservation.
    - Slab heap: with one allocating thread at a time and any number of
      freeing ones the free list has exactly the objects that nobody uses.
    - Multi-level queue: the word of used priorities is exact, [size] counts
      the elements, and a loop over the queue visits them in order, or is
      undefined, exactly when an element has priority 63.
    - Scheduler, for priorities 0 to 62 and processors 0 to 3: in every
      reachable state a thread is queued exactly where its state, priority,
      core and affinity say, once; every operation returns; the selection
      gives every core the first of its runnable threads, moves threads to
      idle cores only, and leaves a core idle only when a thread of a priority
      below 2 runs or every thread that may run there runs on another core.
    - Mutexes, without a deadlock of the guest and for the same priorities: in
      every reachable state a thread runs with the best priority of the
      threads that wait for it, directly or not; the recursion that passes
      priorities on terminates; [Unlock] hands a mutex to the first waiting
      thread and the others wait for that one.
    - Address arbiters: a sleeping thread is in the list of its address and
      has its time event, a time event never wakes another wait, a signal
      wakes exactly the first threads and updates the word by its rule; the
      overflows of the signed words are the only undefined cases.
    - Synchronisation objects: no wake-up is lost; a thread sleeps on a
      signaled object only while a signal is on its way to wake it.
    - Core timing: in every interleaving events fire in order, on time, once,
      and none is lost; [Advance] terminates and fires exactly what is due;
      [Idle] always reaches the next event; the conversions are exact
      quotients; the native clock never goes back.  Pausing through
      [SyncPause] really stops the timer thread, and neither it nor
      [Shutdown] waits forever.
    - Ring buffer: a bounded queue, also while its two threads interleave, and
      free of data races.
    - File formats: a concatenated file reads as its layout; a partition file
      system gives back the files of its image; a patched archive reads as the
      patched file, at any alignment; an IPS patch changes what its records
      say, up to one whose offset reads as the mark of the end; a parameter package survives serialisation.
    - Macro interpreter: it computes what the machine of [MacroMachine] does,
      instruction by instruction, until the macro ends or does something
      invalid.
    - Encryption layers: any sequence of reads, at any offsets, returns the
      plaintext; the wrapper computes AES, and XTS transcoding round-trips.
    - AES: key schedules and block routines are FIPS-197, the computed tables
      are the stored ones, decryption inverts encryption; CBC, XTS (with
      ciphertext stealing), CTR (with random access), CFB and OFB round-trip.
    - Cipher layer: messages in any pieces, with each padding, round-trip.
    - Digests: SHA-256, SHA-224, MD5, HMAC and CMAC in any pieces are their
      standards.

    Lemmas that show where the code departs from its comments or reaches
    undefined behaviour: [ctr_layer_overreports], [handle_sign_bit_ignored],
    [SetSize_negative], [incr_undefined], [decr_to_first_level],
    [AllocateContinuous_huge], [share_twice], [update_to_the_end],
    [make_mask_all_undefined], [map_physical_memory_frees_twice],
    [set_heap_size_empty_block], [set_heap_size_shrink],
    [sync_pause_returns_early], [push_vector_overreads],
    [MultiplyAndDivide64_inexact], [ms_to_cycles_negative],
    [hex_little_endian_ignored], [hex_odd_length], [empty_value_lost],
    [single_file_not_padded], [many_entries_never_end], [name_past_the_end],
    [bucket_count_unchecked], [two_allocators_hand_out_twice],
    [mask_of_31_bits], [shift_by_register_undefined],
    [ips_offset_past_the_end], [ips_crossing_records],
    [affinity_shift_negative], [create_accepts_processor_4],
    [lowest_priority_undefined], [decrement_without_test],
    [decrement_undefined], [cleared_signal_wakes_nobody],
    [modify_overflow_undefined], [deadlock_keeps_priority],
    [all_priorities_undefined], [ips_record_at_mark].

    ** Bounds and fuel

    Unsigned arithmetic wraps where the code's does ([to_u8] to [to_u64], the
    operators [+!], [-!], [*!], [<<!]); the theorems bound addresses (heaps
    of at most 2^23 pages below page 2^49, address spaces below 2^48 for the
    area search, pieces below 2^32 octets and messages below 2^61 for the
    digests, times and ticks below 2^61 to 2^63) so that the results are exact.
    Loops that are not structural carry fuel: a heap loop frees at least one
    page per round and is given the number of pages, a coalescing chain climbs
    one of seven sizes per round, an update visits each block once, the loops
    of the page table handle at least one page per round, a CTR read splits
    once and an XTS read twice, a round of [Advance] removes one due event and
    is given the length of the queue, a loop over a queue of the scheduler
    visits each thread once, the loop over idle cores clears a bit of four per
    round, a priority is passed along a chain of owners that has as many
    threads as there are, a record of an IPS patch has an octet at least and
    the loop is given the size of the patch.  A random number is accepted or the next one
    is drawn: the draws are a list, and the theorem on the layout asks for
    four that are accepted.  The theorems prove that the result is
    there, never that it is right if it is there.  [None] stands for undefined
    behaviour (an index out of range, a dereference of [end()], a shift by the
    width) or spent fuel.  [ASSERT] only logs in this code base: it is left
    out, or recorded in a flag that the invariants show stays true.

    ** Not modelled

    Locks and threads of the kernel (each operation runs alone, the ones of
    the scheduler, of mutexes and of waits under the scheduler lock; the threads of core
    timing, of the ring buffer and of the slab heap are sequentially
    consistent, as their atomics are by default, and a section under a lock is
    one step), context switches and host fibers, host pointers, the hardware
    back ends of AES, the other algorithms of the library, and the rest of the
    emulator: the life cycle of processes, sessions and ports, most system
    calls, services, the key manager (which needs the big numbers of the
    library), the other container formats, CPU recompilers, GPU, audio, input,
    user interfaces, host I/O.  They are glue over host and guest interfaces,
    generated tables or third-party code, or follow the pattern of a component
    that is modelled here. *)

From stdpp Require Export base list numbers.
From Stdlib Require Export ZArith Lia Bool Btauto ZifyNat.

#[export] Set Default Goal Selector "!".
Open Scope Z_scope.

(** ** Machine integers

    A C unsigned integer of width [w] is a [Z] in [[0, 2^w)]; a cast to such
    a type keeps the low [w] bits. *)

Definition to_u8 (x : Z) : Z := Z.land x 0xFF.
Definition to_u16 (x : Z) : Z := Z.land x 0xFFFF.
Definition to_u32 (x : Z) : Z := Z.land x 0xFFFFFFFF.
Definition to_u64 (x : Z) : Z := Z.land x 0xFFFFFFFFFFFFFFFF.

Definition is_byte (x : Z) : Prop := 0 <= x < 256.
Definition is_u16 (x : Z) : Prop := 0 <= x < 2 ^ 16.
Definition is_u32 (x : Z) : Prop := 0 <= x < 2 ^ 32.
Definition is_u64 (x : Z) : Prop := 0 <= x < 2 ^ 64.

(** Signed 64-bit values, and the conversion to them. *)
Definition is_s64 (x : Z) : Prop := - 2 ^ 63 <= x < 2 ^ 63.
Definition to_s64 (x : Z) : Z := let u := to_u64 x in if u <? 2 ^ 63 then u else u - 2 ^ 64.

(** Signed addition; an overflow is undefined. *)
Definition add_s64 (x y : Z) : option Z :=
  if (- 2 ^ 63 <=? x + y) && (x + y <? 2 ^ 63) then Some (x + y) else None.

#[export] Instance is_byte_dec x : Decision (is_byte x).
Proof. unfold is_byte. apply _. Defined.
#[export] Instance is_u32_dec x : Decision (is_u32 x).
Proof. unfold is_u32. apply _. Defined.

(** A buffer of octets. *)
Abbreviation bytes := (Forall is_byte).
(** A buffer of 32-bit words. *)
Abbreviation words := (Forall is_u32).

(** ** C arrays

    A read past the end of a buffer yields 0 here and a write past the end is
    lost; the theorems carry the length hypotheses under which neither
    happens. *)

Declare Scope c_scope.
Delimit Scope c_scope with c.
Open Scope c_scope.

Definition rd (a : list Z) (i : Z) : Z := nth (Z.to_nat i) a 0.
Definition upd (a : list Z) (i v : Z) : list Z := <[Z.to_nat i := v]> a.

Notation "a .[ i ]" := (rd a i) (at level 1, left associativity, format "a .[ i ]") : c_scope.
Notation "a '.^' b" := (Z.lxor a b) (at level 50, left associativity) : c_scope.
Notation "a '<<' b" := (Z.shiftl a b) (at level 45, left associativity) : c_scope.
Notation "a '>>' b" := (Z.shiftr a b) (at level 45, left associativity) : c_scope.
Notation "a '.&' b" := (Z.land a b) (at level 48, left associativity) : c_scope.
Notation "a '.|' b" := (Z.lor a b) (at level 52, left associativity) : c_scope.

(** [for( i = lo; ...; i++ ) s = body i s], run [n] times. *)
Fixpoint for_up {S : Type} (n : nat) (i : Z) (body : Z -> S -> S) (s : S) : S :=
  match n with
  | O => s
  | Datatypes.S n => for_up n (i + 1) body (body i s)
  end.

(** The [i]-th block of [n] octets read through a pointer. *)
Definition slice (off n : nat) (l : list Z) : list Z := take n (drop off l).

(** [for( i = 0; i < n; i++ ) out[i] = a[i] ^ b[i]]. *)
Definition xor_bytes (a b : list Z) : list Z := zip_with Z.lxor a b.

(** ** Automation *)

Create HintDb widths.
Create HintDb bufs.

(** [lia] with quotients and remainders opened. *)
Ltac zlia := Z.div_mod_to_equations; lia.

(** Evaluates reads at literal indices of literal lists. *)
Ltac run_idx := cbv [rd nth Z.to_nat Pos.to_nat Pos.iter_op Nat.add].

(** Equality of two [lxor]/[land]/[lor] combinations of the same atoms. *)
Ltac bool_ext :=
  apply Z.bits_inj'; intros ? ?;
  repeat first [ rewrite Z.lxor_spec | rewrite Z.land_spec | rewrite Z.lor_spec
               | rewrite Z.ldiff_spec | rewrite Z.bits_0 ]; btauto.

(** Equality of two literal lists, element by element. *)
Tactic Notation "cons_ext" tactic3(tac) :=
  repeat (apply (f_equal2 (@cons Z)); [tac|]); reflexivity.

(** ** Bit-level lemmas *)

Lemma testbit_high w x n : 0 <= x < 2 ^ w -> w <= n -> Z.testbit x n = false.
Proof.
  intros Hx Hn. destruct (Z.neg_nonneg_cases w).
  { rewrite Z.pow_neg_r in Hx by done. lia. }
  rewrite <- (Z.mod_small x (2 ^ w)) by done.
  rewrite Z.mod_pow2_bits_high; lia.
Qed.

(** A nonnegative number whose bits vanish from [w] on is below [2^w]. *)
Lemma range_of_bits w x :
  0 <= w -> 0 <= x -> (forall n, w <= n -> Z.testbit x n = false) -> 0 <= x < 2 ^ w.
Proof.
  intros Hw Hx Hb. split; [done|].
  rewrite <- (Z.mod_small x (2 ^ (Z.max w (Z.log2 x + 1)))).
  2: { split; [done|]. destruct (Z.eq_dec x 0) as [->|]; [apply Z.pow_pos_nonneg; lia|].
       apply Z.log2_lt_pow2; lia. }
  assert (x = x mod 2 ^ w) as E.
  { apply Z.bits_inj'. intros n Hn. destruct (Z.lt_ge_cases n w).
    - by rewrite Z.mod_pow2_bits_low.
    - rewrite Z.mod_pow2_bits_high by lia. by apply Hb. }
  rewrite E, Z.mod_small.
  - apply Z.mod_pos_bound, Z.pow_pos_nonneg; lia.
  - pose proof (Z.mod_pos_bound x (2 ^ w) ltac:(apply Z.pow_pos_nonneg; lia)).
    assert (2 ^ w <= 2 ^ Z.max w (Z.log2 (x mod 2 ^ w) + 1)) by (apply Z.pow_le_mono_r; lia).
    lia.
Qed.

Lemma lxor_range w a b :
  0 <= w -> 0 <= a < 2 ^ w -> 0 <= b < 2 ^ w -> 0 <= Z.lxor a b < 2 ^ w.
Proof.
  intros Hw Ha Hb. apply range_of_bits; [done|apply Z.lxor_nonneg; lia|].
  intros n Hn. rewrite Z.lxor_spec, !(testbit_high w) by done. done.
Qed.

Lemma lor_range w a b :
  0 <= w -> 0 <= a < 2 ^ w -> 0 <= b < 2 ^ w -> 0 <= Z.lor a b < 2 ^ w.
Proof.
  intros Hw Ha Hb. apply range_of_bits; [done|apply Z.lor_nonneg; lia|].
  intros n Hn. rewrite Z.lor_spec, !(testbit_high w) by done. done.
Qed.

Lemma land_ones_range w a : 0 <= w -> 0 <= Z.land a (Z.ones w) < 2 ^ w.
Proof. intros Hw. rewrite Z.land_ones by done. apply Z.mod_pos_bound, Z.pow_pos_nonneg; lia. Qed.

Lemma to_u8_mod x : to_u8 x = x mod 256.
Proof. apply (Z.land_ones x 8). lia. Qed.
Lemma to_u16_mod x : to_u16 x = x mod 2 ^ 16.
Proof. apply (Z.land_ones x 16). lia. Qed.
Lemma to_u32_mod x : to_u32 x = x mod 2 ^ 32.
Proof. apply (Z.land_ones x 32). lia. Qed.
Lemma to_u64_mod x : to_u64 x = x mod 2 ^ 64.
Proof. apply (Z.land_ones x 64). lia. Qed.

Lemma to_u8_range x : is_byte (to_u8 x).
Proof. unfold is_byte. rewrite to_u8_mod. apply Z.mod_pos_bound. lia. Qed.
Lemma to_u16_range x : is_u16 (to_u16 x).
Proof. unfold is_u16. rewrite to_u16_mod. apply Z.mod_pos_bound. lia. Qed.
Lemma to_u32_range x : is_u32 (to_u32 x).
Proof. unfold is_u32. rewrite to_u32_mod. apply Z.mod_pos_bound. lia. Qed.
Lemma to_u64_range x : is_u64 (to_u64 x).
Proof. unfold is_u64. rewrite to_u64_mod. apply Z.mod_pos_bound. lia. Qed.

Lemma to_u8_id x : is_byte x -> to_u8 x = x.
Proof. intros H. rewrite to_u8_mod. by apply Z.mod_small. Qed.
Lemma to_u16_id x : is_u16 x -> to_u16 x = x.
Proof. intros H. rewrite to_u16_mod. by apply Z.mod_small. Qed.
Lemma to_u32_id x : is_u32 x -> to_u32 x = x.
Proof. intros H. rewrite to_u32_mod. by apply Z.mod_small. Qed.
Lemma to_u64_id x : is_u64 x -> to_u64 x = x.
Proof. intros H. rewrite to_u64_mod. by apply Z.mod_small. Qed.

Lemma to_s64_range x : is_s64 (to_s64 x).
Proof.
  unfold is_s64, to_s64. pose proof (to_u64_range x) as H. unfold is_u64 in H. destruct (Z.ltb_spec (to_u64 x) (2 ^ 63)); lia.
Qed.
Lemma to_s64_id x : is_s64 x -> to_s64 x = x.
Proof.
  unfold is_s64, to_s64. intros H. rewrite to_u64_mod. destruct (Z.lt_ge_cases x 0).
  - replace x with (x + 2 ^ 64 + -1 * 2 ^ 64) at 1 2 by lia. rewrite Z.mod_add, Z.mod_small by lia.
    destruct (Z.ltb_spec (x + 2 ^ 64) (2 ^ 63)); lia.
  - rewrite Z.mod_small by lia. destruct (Z.ltb_spec x (2 ^ 63)); lia.
Qed.

Lemma lxor_byte a b : is_byte a -> is_byte b -> is_byte (Z.lxor a b).
Proof. apply (lxor_range 8). lia. Qed.
Lemma lxor_u32 a b : is_u32 a -> is_u32 b -> is_u32 (Z.lxor a b).
Proof. apply (lxor_range 32). lia. Qed.
Lemma byte_0 : is_byte 0.
Proof. unfold is_byte. lia. Qed.

#[export] Hint Resolve to_u8_range to_u16_range to_u32_range to_u64_range lxor_byte lxor_u32 byte_0 : widths.

(** Exclusive or with the same value twice. *)
Lemma lxor_cancel a b : Z.lxor (Z.lxor a b) b = a.
Proof. by rewrite Z.lxor_assoc, Z.lxor_nilpotent, Z.lxor_0_r. Qed.

Lemma lxor_cancel_l a b : Z.lxor a (Z.lxor a b) = b.
Proof. by rewrite <- Z.lxor_assoc, Z.lxor_nilpotent, Z.lxor_0_l. Qed.

(** ** Words from octets *)

Lemma lor_shiftl_lxor a b k :
  0 <= k -> 0 <= a < 2 ^ k -> Z.lor a (b << k) = Z.lxor a (b << k).
Proof.
  intros Hk Ha. apply Z.bits_inj'. intros n Hn.
  rewrite Z.lor_spec, Z.lxor_spec. destruct (Z.lt_ge_cases n k).
  - rewrite Z.shiftl_spec_low by done. by destruct (Z.testbit a n).
  - rewrite (testbit_high k a) by done. by destruct (Z.testbit _ n).
Qed.

Lemma lor_shiftl_add a b k :
  0 <= k -> 0 <= a < 2 ^ k -> Z.lor a (b << k) = a + b * 2 ^ k.
Proof.
  intros Hk Ha. rewrite <- Z.shiftl_mul_pow2 by done.
  assert (Z.land a (b << k) = 0) as Hd.
  { apply Z.bits_inj'. intros n Hn. rewrite Z.land_spec, Z.bits_0.
    destruct (Z.lt_ge_cases n k).
    - rewrite Z.shiftl_spec_low by done. apply andb_false_r.
    - rewrite (testbit_high k a) by done. done. }
  rewrite <- Z.lxor_lor, <- Z.add_nocarry_lxor by done. done.
Qed.

(** The 32-bit word whose octets are [b0] (least significant) to [b3]. *)
Definition le32 (b0 b1 b2 b3 : Z) : Z :=
  Z.lor (Z.lor (Z.lor b0 (b1 << 8)) (b2 << 16)) (b3 << 24).

Section Le32.
Context (b0 b1 b2 b3 : Z).
Hypotheses (H0 : is_byte b0) (H1 : is_byte b1) (H2 : is_byte b2) (H3 : is_byte b3).

Lemma le32_add : le32 b0 b1 b2 b3 = b0 + b1 * 2 ^ 8 + b2 * 2 ^ 16 + b3 * 2 ^ 24.
Proof.
  unfold le32, is_byte in *.
  rewrite (lor_shiftl_add b0), (lor_shiftl_add _ b2), (lor_shiftl_add _ b3); lia.
Qed.

Lemma le32_range : is_u32 (le32 b0 b1 b2 b3).
Proof. rewrite le32_add. unfold is_u32, is_byte in *. lia. Qed.

Lemma le32_byte0 : Z.land (le32 b0 b1 b2 b3) 0xFF = b0.
Proof.
  rewrite le32_add, (Z.land_ones _ 8) by lia. unfold is_byte in *. zlia.
Qed.

Lemma le32_byte1 : Z.land (le32 b0 b1 b2 b3 >> 8) 0xFF = b1.
Proof.
  rewrite le32_add, (Z.land_ones _ 8), Z.shiftr_div_pow2 by lia. unfold is_byte in *. zlia.
Qed.

Lemma le32_byte2 : Z.land (le32 b0 b1 b2 b3 >> 16) 0xFF = b2.
Proof.
  rewrite le32_add, (Z.land_ones _ 8), Z.shiftr_div_pow2 by lia. unfold is_byte in *. zlia.
Qed.

Lemma le32_byte3 : Z.land (le32 b0 b1 b2 b3 >> 24) 0xFF = b3.
Proof.
  rewrite le32_add, (Z.land_ones _ 8), Z.shiftr_div_pow2 by lia. unfold is_byte in *. zlia.
Qed.

Lemma le32_xor_form :
  le32 b0 b1 b2 b3 = Z.lxor (Z.lxor (Z.lxor b0 (b1 << 8)) (b2 << 16)) (b3 << 24).
Proof.
  unfold is_byte in *. unfold le32.
  rewrite (lor_shiftl_lxor _ b3 24), (lor_shiftl_lxor _ b2 16), (lor_shiftl_lxor b0 b1 8); try lia.
  - rewrite (lor_shiftl_add b0) by lia. lia.
  - rewrite (lor_shiftl_add b0), (lor_shiftl_add _ b2) by lia. lia.
Qed.
End Le32.

Lemma le32_lxor a0 a1 a2 a3 b0 b1 b2 b3 :
  is_byte a0 -> is_byte a1 -> is_byte a2 -> is_byte a3 ->
  is_byte b0 -> is_byte b1 -> is_byte b2 -> is_byte b3 ->
  Z.lxor (le32 a0 a1 a2 a3) (le32 b0 b1 b2 b3)
  = le32 (Z.lxor a0 b0) (Z.lxor a1 b1) (Z.lxor a2 b2) (Z.lxor a3 b3).
Proof.
  intros. rewrite !le32_xor_form, !Z.shiftl_lxor by auto with widths. bool_ext.
Qed.

(** A word is rebuilt from the octets [PUT_UINT32_LE] takes from it. *)
Lemma le32_of_u32 w :
  is_u32 w -> le32 (to_u8 w) (to_u8 (w >> 8)) (to_u8 (w >> 16)) (to_u8 (w >> 24)) = w.
Proof.
  intros Hw. rewrite le32_add by auto with widths.
  rewrite !to_u8_mod, !Z.shiftr_div_pow2 by lia. unfold is_u32 in Hw. zlia.
Qed.

(** ** Finite checks *)

Definition all_bytes : list Z := map Z.of_nat (seq 0 256).

(** A boolean property checked on the 256 octets holds of every octet. *)
Lemma byte_forall (P : Z -> bool) :
  forallb P all_bytes = true -> forall b, is_byte b -> P b = true.
Proof.
  intros H b Hb. rewrite forallb_forall in H. apply H.
  unfold all_bytes. apply in_map_iff. exists (Z.to_nat b).
  unfold is_byte in Hb. rewrite in_seq. lia.
Qed.

(** The same for an equation and for a range. *)
Lemma byte_forall_eq (f g : Z -> Z) :
  forallb (fun b => f b =? g b) all_bytes = true -> forall b, is_byte b -> f b = g b.
Proof. intros H b Hb. apply Z.eqb_eq. by apply (byte_forall (fun b => f b =? g b)). Qed.

Lemma byte_forall_byte (f : Z -> Z) :
  forallb (fun b => (0 <=? f b) && (f b <? 256)) all_bytes = true ->
  forall b, is_byte b -> is_byte (f b).
Proof.
  intros H b Hb. pose proof (byte_forall (fun b => (0 <=? f b) && (f b <? 256)) H b Hb) as E.
  simpl in E. unfold is_byte. generalize dependent (f b). intros x. lia.
Qed.

(** Proves an equation or a range on octets by running it on all of them. *)
Ltac check_bytes b Hb :=
  revert b Hb;
  first [ apply byte_forall_eq | apply byte_forall_byte ]; vm_compute; reflexivity.

(** ** Buffers *)

Lemma length_xor_bytes a b : length (xor_bytes a b) = (length a `min` length b)%nat.
Proof. apply length_zip_with. Qed.

Lemma xor_bytes_cancel a b : (length a <= length b)%nat -> xor_bytes (xor_bytes a b) b = a.
Proof.
  revert b. induction a as [|x a IH]; intros [|y b] H; simpl in *; try done; [lia|].
  unfold xor_bytes in *. simpl. rewrite lxor_cancel, IH by lia. done.
Qed.

Lemma bytes_xor a b : bytes a -> bytes b -> bytes (xor_bytes a b).
Proof.
  intros Ha. revert b. induction Ha as [|x a Hx Ha IH]; intros b Hb; [constructor|].
  destruct Hb as [|y b Hy Hb]; [constructor|]. constructor; auto with widths.
Qed.

Lemma xor_bytes_comm a b : xor_bytes a b = xor_bytes b a.
Proof.
  revert b. induction a as [|x a IH]; intros [|y b]; try done.
  unfold xor_bytes in *. simpl. by rewrite Z.lxor_comm, IH.
Qed.

Lemma xor_bytes_assoc a b c : xor_bytes (xor_bytes a b) c = xor_bytes a (xor_bytes b c).
Proof.
  revert b c. induction a as [|x a IH]; intros [|y b] [|z c]; try done.
  unfold xor_bytes in *. simpl. by rewrite Z.lxor_assoc, IH.
Qed.

Lemma xor_bytes_app a a' b b' :
  length a = length b -> xor_bytes (a ++ a') (b ++ b') = xor_bytes a b ++ xor_bytes a' b'.
Proof. apply zip_with_app. Qed.

Lemma Forall_rd (P : Z -> Prop) l i : P 0 -> Forall P l -> P l.[i].
Proof.
  intros H0 H. unfold rd. destruct (nth_in_or_default (Z.to_nat i) l 0) as [Hin| ->]; [|done].
  rewrite List.Forall_forall in H. by apply H.
Qed.

Lemma bytes_rd l i : bytes l -> is_byte l.[i].
Proof. apply Forall_rd. auto with widths. Qed.

Lemma words_rd l i : words l -> is_u32 l.[i].
Proof. apply Forall_rd. unfold is_u32. lia. Qed.

#[export] Hint Resolve bytes_xor bytes_rd words_rd : bufs.

Lemma rd_slice off n l j :
  (j < n)%nat -> (slice off n l).[Z.of_nat j] = l.[Z.of_nat (off + j)].
Proof.
  intros Hj. unfold rd, slice. rewrite !Nat2Z.id.
  destruct (decide (off + j < length l)%nat) as [Hin|Hout].
  - rewrite nth_firstn. replace (j <? n)%nat with true by (symmetry; by apply Nat.ltb_lt).
    by rewrite nth_skipn.
  - rewrite !nth_overflow by (rewrite ?length_take, ?length_drop; lia). done.
Qed.

Lemma take4_drop {A} (l : list A) n d :
  (n + 4 <= length l)%nat ->
  take 4 (drop n l) = [nth n l d; nth (n + 1) l d; nth (n + 2) l d; nth (n + 3) l d].
Proof.
  intros H.
  assert (length (drop n l) >= 4)%nat as Hd by (rewrite length_drop; lia).
  assert (forall k, nth (n + k) l d = nth k (drop n l) d) as E.
  { intros k. symmetry. apply nth_skipn. }
  rewrite <- (Nat.add_0_r n) at 2. rewrite !E.
  destruct (drop n l) as [|? [|? [|? [|? ?]]]]; simpl in Hd; try lia. done.
Qed.

Lemma rd_upd l i j v :
  0 <= i -> (Z.to_nat i < length l)%nat -> 0 <= j ->
  (upd l i v).[j] = if i =? j then v else l.[j].
Proof.
  intros Hi Hl Hj. unfold rd, upd. rewrite !nth_lookup.
  destruct (Z.eqb_spec i j) as [->|Hne].
  - rewrite list_lookup_insert_eq by done. done.
  - rewrite list_lookup_insert_ne by lia. done.
Qed.
