(* ===== verification/Octets.v ===== *)
(** * Integers as octet strings

    The little- and big-endian values of a buffer and the octets of a number,
    with the lemmas the counter mode, the message lengths of the digests, the
    padding routines and the multi-precision integers share. *)

From S2P Require Import Prelude.
Open Scope Z_scope.
Open Scope c_scope.

(** Value of a buffer, least significant octet first, and last. *)
Fixpoint le_val (l : list Z) : Z :=
  match l with
  | [] => 0
  | b :: l => b + 256 * le_val l
  end.
Definition be_val (l : list Z) : Z := le_val (rev l).

(** The [n] low octets of a number. *)
Fixpoint le_bytes (n : nat) (v : Z) : list Z :=
  match n with
  | O => []
  | S n => v mod 256 :: le_bytes n (v / 256)
  end.
Definition be_bytes (n : nat) (v : Z) : list Z := rev (le_bytes n v).

Lemma length_le_bytes n v : length (le_bytes n v) = n.
Proof. revert v. induction n as [|n IH]; intros v; [done|]. simpl. by rewrite IH. Qed.
Lemma length_be_bytes n v : length (be_bytes n v) = n.
Proof. unfold be_bytes. by rewrite length_rev, length_le_bytes. Qed.

Lemma bytes_le_bytes n v : bytes (le_bytes n v).
Proof.
  revert v. induction n as [|n IH]; intros v; constructor; [|done].
  unfold is_byte. apply Z.mod_pos_bound. lia.
Qed.
Lemma bytes_be_bytes n v : bytes (be_bytes n v).
Proof. apply Forall_rev, bytes_le_bytes. Qed.

#[export] Hint Resolve bytes_le_bytes bytes_be_bytes : bufs.

Lemma pow256_succ n : 256 ^ Z.of_nat (S n) = 256 * 256 ^ Z.of_nat n.
Proof. rewrite Nat2Z.inj_succ, Z.pow_succ_r by lia. done. Qed.

Lemma pow256_pos n : 0 < 256 ^ Z.of_nat n.
Proof. apply Z.pow_pos_nonneg; lia. Qed.

Lemma le_val_range l : bytes l -> 0 <= le_val l < 256 ^ Z.of_nat (length l).
Proof.
  induction 1 as [|b l Hb Hl IH]; [simpl; lia|].
  cbn [le_val length]. rewrite pow256_succ. unfold is_byte in Hb. lia.
Qed.

Lemma be_val_range l : bytes l -> 0 <= be_val l < 256 ^ Z.of_nat (length l).
Proof. intros H. unfold be_val. rewrite <- length_rev. by apply le_val_range, Forall_rev. Qed.

Lemma le_val_app a b : le_val (a ++ b) = le_val a + 256 ^ Z.of_nat (length a) * le_val b.
Proof.
  induction a as [|x a IH]; [by rewrite Z.mul_1_l|].
  cbn [app le_val length]. rewrite IH, pow256_succ. ring.
Qed.

Lemma be_val_app a b : be_val (a ++ b) = be_val b + 256 ^ Z.of_nat (length b) * be_val a.
Proof. unfold be_val. by rewrite rev_app_distr, le_val_app, length_rev. Qed.

Lemma be_val_cons x l : be_val (x :: l) = be_val l + 256 ^ Z.of_nat (length l) * x.
Proof. change (x :: l) with ([x] ++ l). rewrite be_val_app. f_equal. f_equal. unfold be_val. simpl. lia. Qed.

(** The octets of the value of a buffer are the buffer. *)
Lemma le_bytes_val l : bytes l -> le_bytes (length l) (le_val l) = l.
Proof.
  induction 1 as [|b l Hb Hl IH]; [done|]. cbn [length le_val le_bytes].
  unfold is_byte in Hb. replace (b + 256 * le_val l) with (b + le_val l * 256) by ring.
  rewrite Z.mod_add, Z.div_add, Z.mod_small, Z.div_small, Z.add_0_l by lia. by rewrite IH.
Qed.

Lemma be_bytes_val l : bytes l -> be_bytes (length l) (be_val l) = l.
Proof.
  intros H. unfold be_bytes, be_val. rewrite <- (length_rev l), le_bytes_val by by apply Forall_rev.
  apply rev_involutive.
Qed.

(** The value of the octets of a number is the number modulo [256^n]. *)
Lemma le_val_bytes n v : le_val (le_bytes n v) = v mod 256 ^ Z.of_nat n.
Proof.
  revert v. induction n as [|n IH]; intros v; [by rewrite Z.mod_1_r|].
  cbn [le_bytes le_val]. rewrite IH, pow256_succ. pose proof (pow256_pos n).
  rewrite Z.rem_mul_r by lia. done.
Qed.
Lemma be_val_bytes n v : be_val (be_bytes n v) = v mod 256 ^ Z.of_nat n.
Proof. unfold be_val, be_bytes. by rewrite rev_involutive, le_val_bytes. Qed.

Lemma le_bytes_mod n v : le_bytes n (v mod 256 ^ Z.of_nat n) = le_bytes n v.
Proof.
  rewrite <- le_val_bytes. rewrite <- (length_le_bytes n v) at 1. apply le_bytes_val, bytes_le_bytes.
Qed.
Lemma be_bytes_mod n v : be_bytes n (v mod 256 ^ Z.of_nat n) = be_bytes n v.
Proof. unfold be_bytes. by rewrite le_bytes_mod. Qed.

Lemma le_val_inj a b : bytes a -> bytes b -> length a = length b -> le_val a = le_val b -> a = b.
Proof. intros Ha Hb Hl Hv. by rewrite <- (le_bytes_val a), <- (le_bytes_val b), Hl, Hv. Qed.
Lemma be_val_inj a b : bytes a -> bytes b -> length a = length b -> be_val a = be_val b -> a = b.
Proof. intros Ha Hb Hl Hv. by rewrite <- (be_bytes_val a), <- (be_bytes_val b), Hl, Hv. Qed.

Lemma le_val_replicate_0 n : le_val (replicate n 0) = 0.
Proof. induction n as [|n IH]; [done|]. simpl. by rewrite IH. Qed.

Lemma le_bytes_app n m v : le_bytes (n + m) v = le_bytes n v ++ le_bytes m (v / 256 ^ Z.of_nat n).
Proof.
  revert v. induction n as [|n IH]; intros v; [by rewrite Z.div_1_r|].
  cbn [Nat.add le_bytes app]. rewrite IH, pow256_succ. pose proof (pow256_pos n).
  by rewrite Z.div_div by lia.
Qed.

(** Octet [k] of a number. *)
Lemma le_bytes_nth n v k : (k < n)%nat -> nth k (le_bytes n v) 0 = (v / 256 ^ Z.of_nat k) mod 256.
Proof.
  revert v k. induction n as [|n IH]; intros v k Hk; [lia|].
  destruct k as [|k]; [by rewrite Z.div_1_r|]. cbn [le_bytes nth].
  rewrite IH, pow256_succ by lia. pose proof (pow256_pos k). by rewrite Z.div_div by lia.
Qed.

(** ** Loops over a buffer *)

Lemma upd_middle (a l : list Z) x v :
  upd (a ++ x :: l) (Z.of_nat (length a)) v = (a ++ [v]) ++ l.
Proof.
  unfold upd. rewrite Nat2Z.id, insert_app_r_alt, Nat.sub_diag, <- app_assoc by lia. done.
Qed.

Lemma rd_middle (a l : list Z) x : (a ++ x :: l).[Z.of_nat (length a)] = x.
Proof. unfold rd. rewrite Nat2Z.id, app_nth2, Nat.sub_diag by lia. done. Qed.

(** [for_up] with the index shifted. *)
Lemma for_up_shift {S} k n i (f : Z -> S -> S) s :
  for_up n i (fun j => f (k + j)) s = for_up n (k + i) f s.
Proof.
  revert i s. induction n as [|n IH]; intros i s; [done|]. cbn [for_up].
  rewrite IH. f_equal. lia.
Qed.

Lemma for_up_ext {S} n i (f g : Z -> S -> S) s :
  (forall j s, f j s = g j s) -> for_up n i f s = for_up n i g s.
Proof.
  intros H. revert i s. induction n as [|n IH]; intros i s; [done|]. cbn [for_up]. by rewrite H, IH.
Qed.

(** Filling the middle part of a buffer. *)
Lemma for_up_fill (c : Z) a b l :
  for_up (length b) (Z.of_nat (length a)) (fun i o => upd o i c) (a ++ b ++ l)
  = a ++ replicate (length b) c ++ l.
Proof.
  revert a. induction b as [|x b IH]; intros a; [done|]. cbn [length for_up app].
  rewrite upd_middle. replace (Z.of_nat (length a) + 1) with (Z.of_nat (length (a ++ [c])))
    by (rewrite length_app; simpl; lia).
  rewrite IH, <- app_assoc. done.
Qed.

(** An accumulator of error bits stays 0 exactly when every term is 0. *)
Lemma or_loop_zero (f : Z -> Z) n : forall i bad,
  (forall j, i <= j < i + Z.of_nat n -> is_byte (f j)) -> is_byte bad ->
  for_up n i (fun j bad => to_u8 (Z.lor bad (f j))) bad = 0
  <-> bad = 0 /\ forall j, i <= j < i + Z.of_nat n -> f j = 0.
Proof.
  induction n as [|n IH]; intros i bad Hf Hb; cbn [for_up].
  { split; [intros ->; split; [done|lia]|by intros [-> _]]. }
  assert (is_byte (f i)) as Hi by (apply Hf; lia).
  assert (is_byte (Z.lor bad (f i))) as Hor by by apply (lor_range 8).
  rewrite to_u8_id, IH by (done || (intros; apply Hf; lia)).
  rewrite Z.lor_eq_0_iff. split.
  - intros [[-> H0] H]. split; [done|]. intros j Hj.
    destruct (Z.eq_dec j i) as [->|]; [done|]. apply H. lia.
  - intros [-> H]. split; [split; [done|apply H; lia]|]. intros j Hj. apply H. lia.
Qed.
