(* ===== verification/AesTables.v ===== *)
(** * AES lookup tables (externals/mbedtls/library/aes.c)

    The library carries its tables twice: as constants, under
    [MBEDTLS_AES_ROM_TABLES], and as arrays filled at run time by
    [aes_gen_tables], which is what the configuration of the emulator builds
    (include/mbedtls/config.h leaves [MBEDTLS_AES_ROM_TABLES] undefined).
    Module [Rom] holds the constants, entry for entry; Module [Gen] translates
    the generator.  [Gen.aes_gen_tables_rom] shows that both are the same
    tables. *)

From S2P Require Import Prelude.
Open Scope Z_scope.
Open Scope c_scope.

(** The static arrays of the file. *)
Record aes_tables := {
  FSb : list Z;
  FT0 : list Z; FT1 : list Z; FT2 : list Z; FT3 : list Z;
  RSb : list Z;
  RT0 : list Z; RT1 : list Z; RT2 : list Z; RT3 : list Z;
  RCON : list Z
}.

Module Rom.

(** Forward S-box. *)
Definition fsb : list Z := [
    0x63; 0x7C; 0x77; 0x7B; 0xF2; 0x6B; 0x6F; 0xC5;
    0x30; 0x01; 0x67; 0x2B; 0xFE; 0xD7; 0xAB; 0x76;
    0xCA; 0x82; 0xC9; 0x7D; 0xFA; 0x59; 0x47; 0xF0;
    0xAD; 0xD4; 0xA2; 0xAF; 0x9C; 0xA4; 0x72; 0xC0;
    0xB7; 0xFD; 0x93; 0x26; 0x36; 0x3F; 0xF7; 0xCC;
    0x34; 0xA5; 0xE5; 0xF1; 0x71; 0xD8; 0x31; 0x15;
    0x04; 0xC7; 0x23; 0xC3; 0x18; 0x96; 0x05; 0x9A;
    0x07; 0x12; 0x80; 0xE2; 0xEB; 0x27; 0xB2; 0x75;
    0x09; 0x83; 0x2C; 0x1A; 0x1B; 0x6E; 0x5A; 0xA0;
    0x52; 0x3B; 0xD6; 0xB3; 0x29; 0xE3; 0x2F; 0x84;
    0x53; 0xD1; 0x00; 0xED; 0x20; 0xFC; 0xB1; 0x5B;
    0x6A; 0xCB; 0xBE; 0x39; 0x4A; 0x4C; 0x58; 0xCF;
    0xD0; 0xEF; 0xAA; 0xFB; 0x43; 0x4D; 0x33; 0x85;
    0x45; 0xF9; 0x02; 0x7F; 0x50; 0x3C; 0x9F; 0xA8;
    0x51; 0xA3; 0x40; 0x8F; 0x92; 0x9D; 0x38; 0xF5;
    0xBC; 0xB6; 0xDA; 0x21; 0x10; 0xFF; 0xF3; 0xD2;
    0xCD; 0x0C; 0x13; 0xEC; 0x5F; 0x97; 0x44; 0x17;
    0xC4; 0xA7; 0x7E; 0x3D; 0x64; 0x5D; 0x19; 0x73;
    0x60; 0x81; 0x4F; 0xDC; 0x22; 0x2A; 0x90; 0x88;
    0x46; 0xEE; 0xB8; 0x14; 0xDE; 0x5E; 0x0B; 0xDB;
    0xE0; 0x32; 0x3A; 0x0A; 0x49; 0x06; 0x24; 0x5C;
    0xC2; 0xD3; 0xAC; 0x62; 0x91; 0x95; 0xE4; 0x79;
    0xE7; 0xC8; 0x37; 0x6D; 0x8D; 0xD5; 0x4E; 0xA9;
    0x6C; 0x56; 0xF4; 0xEA; 0x65; 0x7A; 0xAE; 0x08;
    0xBA; 0x78; 0x25; 0x2E; 0x1C; 0xA6; 0xB4; 0xC6;
    0xE8; 0xDD; 0x74; 0x1F; 0x4B; 0xBD; 0x8B; 0x8A;
    0x70; 0x3E; 0xB5; 0x66; 0x48; 0x03; 0xF6; 0x0E;
    0x61; 0x35; 0x57; 0xB9; 0x86; 0xC1; 0x1D; 0x9E;
    0xE1; 0xF8; 0x98; 0x11; 0x69; 0xD9; 0x8E; 0x94;
    0x9B; 0x1E; 0x87; 0xE9; 0xCE; 0x55; 0x28; 0xDF;
    0x8C; 0xA1; 0x89; 0x0D; 0xBF; 0xE6; 0x42; 0x68;
    0x41; 0x99; 0x2D; 0x0F; 0xB0; 0x54; 0xBB; 0x16 ].

(** Forward tables: the macro list [FT], abstracted over the macro [V]. *)
Definition ft (V : Z -> Z -> Z -> Z -> Z) : list Z := [
    V 0xA5 0x63 0x63 0xC6; V 0x84 0x7C 0x7C 0xF8; V 0x99 0x77 0x77 0xEE; V 0x8D 0x7B 0x7B 0xF6;
    V 0x0D 0xF2 0xF2 0xFF; V 0xBD 0x6B 0x6B 0xD6; V 0xB1 0x6F 0x6F 0xDE; V 0x54 0xC5 0xC5 0x91;
    V 0x50 0x30 0x30 0x60; V 0x03 0x01 0x01 0x02; V 0xA9 0x67 0x67 0xCE; V 0x7D 0x2B 0x2B 0x56;
    V 0x19 0xFE 0xFE 0xE7; V 0x62 0xD7 0xD7 0xB5; V 0xE6 0xAB 0xAB 0x4D; V 0x9A 0x76 0x76 0xEC;
    V 0x45 0xCA 0xCA 0x8F; V 0x9D 0x82 0x82 0x1F; V 0x40 0xC9 0xC9 0x89; V 0x87 0x7D 0x7D 0xFA;
    V 0x15 0xFA 0xFA 0xEF; V 0xEB 0x59 0x59 0xB2; V 0xC9 0x47 0x47 0x8E; V 0x0B 0xF0 0xF0 0xFB;
    V 0xEC 0xAD 0xAD 0x41; V 0x67 0xD4 0xD4 0xB3; V 0xFD 0xA2 0xA2 0x5F; V 0xEA 0xAF 0xAF 0x45;
    V 0xBF 0x9C 0x9C 0x23; V 0xF7 0xA4 0xA4 0x53; V 0x96 0x72 0x72 0xE4; V 0x5B 0xC0 0xC0 0x9B;
    V 0xC2 0xB7 0xB7 0x75; V 0x1C 0xFD 0xFD 0xE1; V 0xAE 0x93 0x93 0x3D; V 0x6A 0x26 0x26 0x4C;
    V 0x5A 0x36 0x36 0x6C; V 0x41 0x3F 0x3F 0x7E; V 0x02 0xF7 0xF7 0xF5; V 0x4F 0xCC 0xCC 0x83;
    V 0x5C 0x34 0x34 0x68; V 0xF4 0xA5 0xA5 0x51; V 0x34 0xE5 0xE5 0xD1; V 0x08 0xF1 0xF1 0xF9;
    V 0x93 0x71 0x71 0xE2; V 0x73 0xD8 0xD8 0xAB; V 0x53 0x31 0x31 0x62; V 0x3F 0x15 0x15 0x2A;
    V 0x0C 0x04 0x04 0x08; V 0x52 0xC7 0xC7 0x95; V 0x65 0x23 0x23 0x46; V 0x5E 0xC3 0xC3 0x9D;
    V 0x28 0x18 0x18 0x30; V 0xA1 0x96 0x96 0x37; V 0x0F 0x05 0x05 0x0A; V 0xB5 0x9A 0x9A 0x2F;
    V 0x09 0x07 0x07 0x0E; V 0x36 0x12 0x12 0x24; V 0x9B 0x80 0x80 0x1B; V 0x3D 0xE2 0xE2 0xDF;
    V 0x26 0xEB 0xEB 0xCD; V 0x69 0x27 0x27 0x4E; V 0xCD 0xB2 0xB2 0x7F; V 0x9F 0x75 0x75 0xEA;
    V 0x1B 0x09 0x09 0x12; V 0x9E 0x83 0x83 0x1D; V 0x74 0x2C 0x2C 0x58; V 0x2E 0x1A 0x1A 0x34;
    V 0x2D 0x1B 0x1B 0x36; V 0xB2 0x6E 0x6E 0xDC; V 0xEE 0x5A 0x5A 0xB4; V 0xFB 0xA0 0xA0 0x5B;
    V 0xF6 0x52 0x52 0xA4; V 0x4D 0x3B 0x3B 0x76; V 0x61 0xD6 0xD6 0xB7; V 0xCE 0xB3 0xB3 0x7D;
    V 0x7B 0x29 0x29 0x52; V 0x3E 0xE3 0xE3 0xDD; V 0x71 0x2F 0x2F 0x5E; V 0x97 0x84 0x84 0x13;
    V 0xF5 0x53 0x53 0xA6; V 0x68 0xD1 0xD1 0xB9; V 0x00 0x00 0x00 0x00; V 0x2C 0xED 0xED 0xC1;
    V 0x60 0x20 0x20 0x40; V 0x1F 0xFC 0xFC 0xE3; V 0xC8 0xB1 0xB1 0x79; V 0xED 0x5B 0x5B 0xB6;
    V 0xBE 0x6A 0x6A 0xD4; V 0x46 0xCB 0xCB 0x8D; V 0xD9 0xBE 0xBE 0x67; V 0x4B 0x39 0x39 0x72;
    V 0xDE 0x4A 0x4A 0x94; V 0xD4 0x4C 0x4C 0x98; V 0xE8 0x58 0x58 0xB0; V 0x4A 0xCF 0xCF 0x85;
    V 0x6B 0xD0 0xD0 0xBB; V 0x2A 0xEF 0xEF 0xC5; V 0xE5 0xAA 0xAA 0x4F; V 0x16 0xFB 0xFB 0xED;
    V 0xC5 0x43 0x43 0x86; V 0xD7 0x4D 0x4D 0x9A; V 0x55 0x33 0x33 0x66; V 0x94 0x85 0x85 0x11;
    V 0xCF 0x45 0x45 0x8A; V 0x10 0xF9 0xF9 0xE9; V 0x06 0x02 0x02 0x04; V 0x81 0x7F 0x7F 0xFE;
    V 0xF0 0x50 0x50 0xA0; V 0x44 0x3C 0x3C 0x78; V 0xBA 0x9F 0x9F 0x25; V 0xE3 0xA8 0xA8 0x4B;
    V 0xF3 0x51 0x51 0xA2; V 0xFE 0xA3 0xA3 0x5D; V 0xC0 0x40 0x40 0x80; V 0x8A 0x8F 0x8F 0x05;
    V 0xAD 0x92 0x92 0x3F; V 0xBC 0x9D 0x9D 0x21; V 0x48 0x38 0x38 0x70; V 0x04 0xF5 0xF5 0xF1;
    V 0xDF 0xBC 0xBC 0x63; V 0xC1 0xB6 0xB6 0x77; V 0x75 0xDA 0xDA 0xAF; V 0x63 0x21 0x21 0x42;
    V 0x30 0x10 0x10 0x20; V 0x1A 0xFF 0xFF 0xE5; V 0x0E 0xF3 0xF3 0xFD; V 0x6D 0xD2 0xD2 0xBF;
    V 0x4C 0xCD 0xCD 0x81; V 0x14 0x0C 0x0C 0x18; V 0x35 0x13 0x13 0x26; V 0x2F 0xEC 0xEC 0xC3;
    V 0xE1 0x5F 0x5F 0xBE; V 0xA2 0x97 0x97 0x35; V 0xCC 0x44 0x44 0x88; V 0x39 0x17 0x17 0x2E;
    V 0x57 0xC4 0xC4 0x93; V 0xF2 0xA7 0xA7 0x55; V 0x82 0x7E 0x7E 0xFC; V 0x47 0x3D 0x3D 0x7A;
    V 0xAC 0x64 0x64 0xC8; V 0xE7 0x5D 0x5D 0xBA; V 0x2B 0x19 0x19 0x32; V 0x95 0x73 0x73 0xE6;
    V 0xA0 0x60 0x60 0xC0; V 0x98 0x81 0x81 0x19; V 0xD1 0x4F 0x4F 0x9E; V 0x7F 0xDC 0xDC 0xA3;
    V 0x66 0x22 0x22 0x44; V 0x7E 0x2A 0x2A 0x54; V 0xAB 0x90 0x90 0x3B; V 0x83 0x88 0x88 0x0B;
    V 0xCA 0x46 0x46 0x8C; V 0x29 0xEE 0xEE 0xC7; V 0xD3 0xB8 0xB8 0x6B; V 0x3C 0x14 0x14 0x28;
    V 0x79 0xDE 0xDE 0xA7; V 0xE2 0x5E 0x5E 0xBC; V 0x1D 0x0B 0x0B 0x16; V 0x76 0xDB 0xDB 0xAD;
    V 0x3B 0xE0 0xE0 0xDB; V 0x56 0x32 0x32 0x64; V 0x4E 0x3A 0x3A 0x74; V 0x1E 0x0A 0x0A 0x14;
    V 0xDB 0x49 0x49 0x92; V 0x0A 0x06 0x06 0x0C; V 0x6C 0x24 0x24 0x48; V 0xE4 0x5C 0x5C 0xB8;
    V 0x5D 0xC2 0xC2 0x9F; V 0x6E 0xD3 0xD3 0xBD; V 0xEF 0xAC 0xAC 0x43; V 0xA6 0x62 0x62 0xC4;
    V 0xA8 0x91 0x91 0x39; V 0xA4 0x95 0x95 0x31; V 0x37 0xE4 0xE4 0xD3; V 0x8B 0x79 0x79 0xF2;
    V 0x32 0xE7 0xE7 0xD5; V 0x43 0xC8 0xC8 0x8B; V 0x59 0x37 0x37 0x6E; V 0xB7 0x6D 0x6D 0xDA;
    V 0x8C 0x8D 0x8D 0x01; V 0x64 0xD5 0xD5 0xB1; V 0xD2 0x4E 0x4E 0x9C; V 0xE0 0xA9 0xA9 0x49;
    V 0xB4 0x6C 0x6C 0xD8; V 0xFA 0x56 0x56 0xAC; V 0x07 0xF4 0xF4 0xF3; V 0x25 0xEA 0xEA 0xCF;
    V 0xAF 0x65 0x65 0xCA; V 0x8E 0x7A 0x7A 0xF4; V 0xE9 0xAE 0xAE 0x47; V 0x18 0x08 0x08 0x10;
    V 0xD5 0xBA 0xBA 0x6F; V 0x88 0x78 0x78 0xF0; V 0x6F 0x25 0x25 0x4A; V 0x72 0x2E 0x2E 0x5C;
    V 0x24 0x1C 0x1C 0x38; V 0xF1 0xA6 0xA6 0x57; V 0xC7 0xB4 0xB4 0x73; V 0x51 0xC6 0xC6 0x97;
    V 0x23 0xE8 0xE8 0xCB; V 0x7C 0xDD 0xDD 0xA1; V 0x9C 0x74 0x74 0xE8; V 0x21 0x1F 0x1F 0x3E;
    V 0xDD 0x4B 0x4B 0x96; V 0xDC 0xBD 0xBD 0x61; V 0x86 0x8B 0x8B 0x0D; V 0x85 0x8A 0x8A 0x0F;
    V 0x90 0x70 0x70 0xE0; V 0x42 0x3E 0x3E 0x7C; V 0xC4 0xB5 0xB5 0x71; V 0xAA 0x66 0x66 0xCC;
    V 0xD8 0x48 0x48 0x90; V 0x05 0x03 0x03 0x06; V 0x01 0xF6 0xF6 0xF7; V 0x12 0x0E 0x0E 0x1C;
    V 0xA3 0x61 0x61 0xC2; V 0x5F 0x35 0x35 0x6A; V 0xF9 0x57 0x57 0xAE; V 0xD0 0xB9 0xB9 0x69;
    V 0x91 0x86 0x86 0x17; V 0x58 0xC1 0xC1 0x99; V 0x27 0x1D 0x1D 0x3A; V 0xB9 0x9E 0x9E 0x27;
    V 0x38 0xE1 0xE1 0xD9; V 0x13 0xF8 0xF8 0xEB; V 0xB3 0x98 0x98 0x2B; V 0x33 0x11 0x11 0x22;
    V 0xBB 0x69 0x69 0xD2; V 0x70 0xD9 0xD9 0xA9; V 0x89 0x8E 0x8E 0x07; V 0xA7 0x94 0x94 0x33;
    V 0xB6 0x9B 0x9B 0x2D; V 0x22 0x1E 0x1E 0x3C; V 0x92 0x87 0x87 0x15; V 0x20 0xE9 0xE9 0xC9;
    V 0x49 0xCE 0xCE 0x87; V 0xFF 0x55 0x55 0xAA; V 0x78 0x28 0x28 0x50; V 0x7A 0xDF 0xDF 0xA5;
    V 0x8F 0x8C 0x8C 0x03; V 0xF8 0xA1 0xA1 0x59; V 0x80 0x89 0x89 0x09; V 0x17 0x0D 0x0D 0x1A;
    V 0xDA 0xBF 0xBF 0x65; V 0x31 0xE6 0xE6 0xD7; V 0xC6 0x42 0x42 0x84; V 0xB8 0x68 0x68 0xD0;
    V 0xC3 0x41 0x41 0x82; V 0xB0 0x99 0x99 0x29; V 0x77 0x2D 0x2D 0x5A; V 0x11 0x0F 0x0F 0x1E;
    V 0xCB 0xB0 0xB0 0x7B; V 0xFC 0x54 0x54 0xA8; V 0xD6 0xBB 0xBB 0x6D; V 0x3A 0x16 0x16 0x2C ].

(** Reverse S-box. *)
Definition rsb : list Z := [
    0x52; 0x09; 0x6A; 0xD5; 0x30; 0x36; 0xA5; 0x38;
    0xBF; 0x40; 0xA3; 0x9E; 0x81; 0xF3; 0xD7; 0xFB;
    0x7C; 0xE3; 0x39; 0x82; 0x9B; 0x2F; 0xFF; 0x87;
    0x34; 0x8E; 0x43; 0x44; 0xC4; 0xDE; 0xE9; 0xCB;
    0x54; 0x7B; 0x94; 0x32; 0xA6; 0xC2; 0x23; 0x3D;
    0xEE; 0x4C; 0x95; 0x0B; 0x42; 0xFA; 0xC3; 0x4E;
    0x08; 0x2E; 0xA1; 0x66; 0x28; 0xD9; 0x24; 0xB2;
    0x76; 0x5B; 0xA2; 0x49; 0x6D; 0x8B; 0xD1; 0x25;
    0x72; 0xF8; 0xF6; 0x64; 0x86; 0x68; 0x98; 0x16;
    0xD4; 0xA4; 0x5C; 0xCC; 0x5D; 0x65; 0xB6; 0x92;
    0x6C; 0x70; 0x48; 0x50; 0xFD; 0xED; 0xB9; 0xDA;
    0x5E; 0x15; 0x46; 0x57; 0xA7; 0x8D; 0x9D; 0x84;
    0x90; 0xD8; 0xAB; 0x00; 0x8C; 0xBC; 0xD3; 0x0A;
    0xF7; 0xE4; 0x58; 0x05; 0xB8; 0xB3; 0x45; 0x06;
    0xD0; 0x2C; 0x1E; 0x8F; 0xCA; 0x3F; 0x0F; 0x02;
    0xC1; 0xAF; 0xBD; 0x03; 0x01; 0x13; 0x8A; 0x6B;
    0x3A; 0x91; 0x11; 0x41; 0x4F; 0x67; 0xDC; 0xEA;
    0x97; 0xF2; 0xCF; 0xCE; 0xF0; 0xB4; 0xE6; 0x73;
    0x96; 0xAC; 0x74; 0x22; 0xE7; 0xAD; 0x35; 0x85;
    0xE2; 0xF9; 0x37; 0xE8; 0x1C; 0x75; 0xDF; 0x6E;
    0x47; 0xF1; 0x1A; 0x71; 0x1D; 0x29; 0xC5; 0x89;
    0x6F; 0xB7; 0x62; 0x0E; 0xAA; 0x18; 0xBE; 0x1B;
    0xFC; 0x56; 0x3E; 0x4B; 0xC6; 0xD2; 0x79; 0x20;
    0x9A; 0xDB; 0xC0; 0xFE; 0x78; 0xCD; 0x5A; 0xF4;
    0x1F; 0xDD; 0xA8; 0x33; 0x88; 0x07; 0xC7; 0x31;
    0xB1; 0x12; 0x10; 0x59; 0x27; 0x80; 0xEC; 0x5F;
    0x60; 0x51; 0x7F; 0xA9; 0x19; 0xB5; 0x4A; 0x0D;
    0x2D; 0xE5; 0x7A; 0x9F; 0x93; 0xC9; 0x9C; 0xEF;
    0xA0; 0xE0; 0x3B; 0x4D; 0xAE; 0x2A; 0xF5; 0xB0;
    0xC8; 0xEB; 0xBB; 0x3C; 0x83; 0x53; 0x99; 0x61;
    0x17; 0x2B; 0x04; 0x7E; 0xBA; 0x77; 0xD6; 0x26;
    0xE1; 0x69; 0x14; 0x63; 0x55; 0x21; 0x0C; 0x7D ].

(** Reverse tables: the macro list [RT], abstracted over the macro [V]. *)
Definition rt (V : Z -> Z -> Z -> Z -> Z) : list Z := [
    V 0x50 0xA7 0xF4 0x51; V 0x53 0x65 0x41 0x7E; V 0xC3 0xA4 0x17 0x1A; V 0x96 0x5E 0x27 0x3A;
    V 0xCB 0x6B 0xAB 0x3B; V 0xF1 0x45 0x9D 0x1F; V 0xAB 0x58 0xFA 0xAC; V 0x93 0x03 0xE3 0x4B;
    V 0x55 0xFA 0x30 0x20; V 0xF6 0x6D 0x76 0xAD; V 0x91 0x76 0xCC 0x88; V 0x25 0x4C 0x02 0xF5;
    V 0xFC 0xD7 0xE5 0x4F; V 0xD7 0xCB 0x2A 0xC5; V 0x80 0x44 0x35 0x26; V 0x8F 0xA3 0x62 0xB5;
    V 0x49 0x5A 0xB1 0xDE; V 0x67 0x1B 0xBA 0x25; V 0x98 0x0E 0xEA 0x45; V 0xE1 0xC0 0xFE 0x5D;
    V 0x02 0x75 0x2F 0xC3; V 0x12 0xF0 0x4C 0x81; V 0xA3 0x97 0x46 0x8D; V 0xC6 0xF9 0xD3 0x6B;
    V 0xE7 0x5F 0x8F 0x03; V 0x95 0x9C 0x92 0x15; V 0xEB 0x7A 0x6D 0xBF; V 0xDA 0x59 0x52 0x95;
    V 0x2D 0x83 0xBE 0xD4; V 0xD3 0x21 0x74 0x58; V 0x29 0x69 0xE0 0x49; V 0x44 0xC8 0xC9 0x8E;
    V 0x6A 0x89 0xC2 0x75; V 0x78 0x79 0x8E 0xF4; V 0x6B 0x3E 0x58 0x99; V 0xDD 0x71 0xB9 0x27;
    V 0xB6 0x4F 0xE1 0xBE; V 0x17 0xAD 0x88 0xF0; V 0x66 0xAC 0x20 0xC9; V 0xB4 0x3A 0xCE 0x7D;
    V 0x18 0x4A 0xDF 0x63; V 0x82 0x31 0x1A 0xE5; V 0x60 0x33 0x51 0x97; V 0x45 0x7F 0x53 0x62;
    V 0xE0 0x77 0x64 0xB1; V 0x84 0xAE 0x6B 0xBB; V 0x1C 0xA0 0x81 0xFE; V 0x94 0x2B 0x08 0xF9;
    V 0x58 0x68 0x48 0x70; V 0x19 0xFD 0x45 0x8F; V 0x87 0x6C 0xDE 0x94; V 0xB7 0xF8 0x7B 0x52;
    V 0x23 0xD3 0x73 0xAB; V 0xE2 0x02 0x4B 0x72; V 0x57 0x8F 0x1F 0xE3; V 0x2A 0xAB 0x55 0x66;
    V 0x07 0x28 0xEB 0xB2; V 0x03 0xC2 0xB5 0x2F; V 0x9A 0x7B 0xC5 0x86; V 0xA5 0x08 0x37 0xD3;
    V 0xF2 0x87 0x28 0x30; V 0xB2 0xA5 0xBF 0x23; V 0xBA 0x6A 0x03 0x02; V 0x5C 0x82 0x16 0xED;
    V 0x2B 0x1C 0xCF 0x8A; V 0x92 0xB4 0x79 0xA7; V 0xF0 0xF2 0x07 0xF3; V 0xA1 0xE2 0x69 0x4E;
    V 0xCD 0xF4 0xDA 0x65; V 0xD5 0xBE 0x05 0x06; V 0x1F 0x62 0x34 0xD1; V 0x8A 0xFE 0xA6 0xC4;
    V 0x9D 0x53 0x2E 0x34; V 0xA0 0x55 0xF3 0xA2; V 0x32 0xE1 0x8A 0x05; V 0x75 0xEB 0xF6 0xA4;
    V 0x39 0xEC 0x83 0x0B; V 0xAA 0xEF 0x60 0x40; V 0x06 0x9F 0x71 0x5E; V 0x51 0x10 0x6E 0xBD;
    V 0xF9 0x8A 0x21 0x3E; V 0x3D 0x06 0xDD 0x96; V 0xAE 0x05 0x3E 0xDD; V 0x46 0xBD 0xE6 0x4D;
    V 0xB5 0x8D 0x54 0x91; V 0x05 0x5D 0xC4 0x71; V 0x6F 0xD4 0x06 0x04; V 0xFF 0x15 0x50 0x60;
    V 0x24 0xFB 0x98 0x19; V 0x97 0xE9 0xBD 0xD6; V 0xCC 0x43 0x40 0x89; V 0x77 0x9E 0xD9 0x67;
    V 0xBD 0x42 0xE8 0xB0; V 0x88 0x8B 0x89 0x07; V 0x38 0x5B 0x19 0xE7; V 0xDB 0xEE 0xC8 0x79;
    V 0x47 0x0A 0x7C 0xA1; V 0xE9 0x0F 0x42 0x7C; V 0xC9 0x1E 0x84 0xF8; V 0x00 0x00 0x00 0x00;
    V 0x83 0x86 0x80 0x09; V 0x48 0xED 0x2B 0x32; V 0xAC 0x70 0x11 0x1E; V 0x4E 0x72 0x5A 0x6C;
    V 0xFB 0xFF 0x0E 0xFD; V 0x56 0x38 0x85 0x0F; V 0x1E 0xD5 0xAE 0x3D; V 0x27 0x39 0x2D 0x36;
    V 0x64 0xD9 0x0F 0x0A; V 0x21 0xA6 0x5C 0x68; V 0xD1 0x54 0x5B 0x9B; V 0x3A 0x2E 0x36 0x24;
    V 0xB1 0x67 0x0A 0x0C; V 0x0F 0xE7 0x57 0x93; V 0xD2 0x96 0xEE 0xB4; V 0x9E 0x91 0x9B 0x1B;
    V 0x4F 0xC5 0xC0 0x80; V 0xA2 0x20 0xDC 0x61; V 0x69 0x4B 0x77 0x5A; V 0x16 0x1A 0x12 0x1C;
    V 0x0A 0xBA 0x93 0xE2; V 0xE5 0x2A 0xA0 0xC0; V 0x43 0xE0 0x22 0x3C; V 0x1D 0x17 0x1B 0x12;
    V 0x0B 0x0D 0x09 0x0E; V 0xAD 0xC7 0x8B 0xF2; V 0xB9 0xA8 0xB6 0x2D; V 0xC8 0xA9 0x1E 0x14;
    V 0x85 0x19 0xF1 0x57; V 0x4C 0x07 0x75 0xAF; V 0xBB 0xDD 0x99 0xEE; V 0xFD 0x60 0x7F 0xA3;
    V 0x9F 0x26 0x01 0xF7; V 0xBC 0xF5 0x72 0x5C; V 0xC5 0x3B 0x66 0x44; V 0x34 0x7E 0xFB 0x5B;
    V 0x76 0x29 0x43 0x8B; V 0xDC 0xC6 0x23 0xCB; V 0x68 0xFC 0xED 0xB6; V 0x63 0xF1 0xE4 0xB8;
    V 0xCA 0xDC 0x31 0xD7; V 0x10 0x85 0x63 0x42; V 0x40 0x22 0x97 0x13; V 0x20 0x11 0xC6 0x84;
    V 0x7D 0x24 0x4A 0x85; V 0xF8 0x3D 0xBB 0xD2; V 0x11 0x32 0xF9 0xAE; V 0x6D 0xA1 0x29 0xC7;
    V 0x4B 0x2F 0x9E 0x1D; V 0xF3 0x30 0xB2 0xDC; V 0xEC 0x52 0x86 0x0D; V 0xD0 0xE3 0xC1 0x77;
    V 0x6C 0x16 0xB3 0x2B; V 0x99 0xB9 0x70 0xA9; V 0xFA 0x48 0x94 0x11; V 0x22 0x64 0xE9 0x47;
    V 0xC4 0x8C 0xFC 0xA8; V 0x1A 0x3F 0xF0 0xA0; V 0xD8 0x2C 0x7D 0x56; V 0xEF 0x90 0x33 0x22;
    V 0xC7 0x4E 0x49 0x87; V 0xC1 0xD1 0x38 0xD9; V 0xFE 0xA2 0xCA 0x8C; V 0x36 0x0B 0xD4 0x98;
    V 0xCF 0x81 0xF5 0xA6; V 0x28 0xDE 0x7A 0xA5; V 0x26 0x8E 0xB7 0xDA; V 0xA4 0xBF 0xAD 0x3F;
    V 0xE4 0x9D 0x3A 0x2C; V 0x0D 0x92 0x78 0x50; V 0x9B 0xCC 0x5F 0x6A; V 0x62 0x46 0x7E 0x54;
    V 0xC2 0x13 0x8D 0xF6; V 0xE8 0xB8 0xD8 0x90; V 0x5E 0xF7 0x39 0x2E; V 0xF5 0xAF 0xC3 0x82;
    V 0xBE 0x80 0x5D 0x9F; V 0x7C 0x93 0xD0 0x69; V 0xA9 0x2D 0xD5 0x6F; V 0xB3 0x12 0x25 0xCF;
    V 0x3B 0x99 0xAC 0xC8; V 0xA7 0x7D 0x18 0x10; V 0x6E 0x63 0x9C 0xE8; V 0x7B 0xBB 0x3B 0xDB;
    V 0x09 0x78 0x26 0xCD; V 0xF4 0x18 0x59 0x6E; V 0x01 0xB7 0x9A 0xEC; V 0xA8 0x9A 0x4F 0x83;
    V 0x65 0x6E 0x95 0xE6; V 0x7E 0xE6 0xFF 0xAA; V 0x08 0xCF 0xBC 0x21; V 0xE6 0xE8 0x15 0xEF;
    V 0xD9 0x9B 0xE7 0xBA; V 0xCE 0x36 0x6F 0x4A; V 0xD4 0x09 0x9F 0xEA; V 0xD6 0x7C 0xB0 0x29;
    V 0xAF 0xB2 0xA4 0x31; V 0x31 0x23 0x3F 0x2A; V 0x30 0x94 0xA5 0xC6; V 0xC0 0x66 0xA2 0x35;
    V 0x37 0xBC 0x4E 0x74; V 0xA6 0xCA 0x82 0xFC; V 0xB0 0xD0 0x90 0xE0; V 0x15 0xD8 0xA7 0x33;
    V 0x4A 0x98 0x04 0xF1; V 0xF7 0xDA 0xEC 0x41; V 0x0E 0x50 0xCD 0x7F; V 0x2F 0xF6 0x91 0x17;
    V 0x8D 0xD6 0x4D 0x76; V 0x4D 0xB0 0xEF 0x43; V 0x54 0x4D 0xAA 0xCC; V 0xDF 0x04 0x96 0xE4;
    V 0xE3 0xB5 0xD1 0x9E; V 0x1B 0x88 0x6A 0x4C; V 0xB8 0x1F 0x2C 0xC1; V 0x7F 0x51 0x65 0x46;
    V 0x04 0xEA 0x5E 0x9D; V 0x5D 0x35 0x8C 0x01; V 0x73 0x74 0x87 0xFA; V 0x2E 0x41 0x0B 0xFB;
    V 0x5A 0x1D 0x67 0xB3; V 0x52 0xD2 0xDB 0x92; V 0x33 0x56 0x10 0xE9; V 0x13 0x47 0xD6 0x6D;
    V 0x8C 0x61 0xD7 0x9A; V 0x7A 0x0C 0xA1 0x37; V 0x8E 0x14 0xF8 0x59; V 0x89 0x3C 0x13 0xEB;
    V 0xEE 0x27 0xA9 0xCE; V 0x35 0xC9 0x61 0xB7; V 0xED 0xE5 0x1C 0xE1; V 0x3C 0xB1 0x47 0x7A;
    V 0x59 0xDF 0xD2 0x9C; V 0x3F 0x73 0xF2 0x55; V 0x79 0xCE 0x14 0x18; V 0xBF 0x37 0xC7 0x73;
    V 0xEA 0xCD 0xF7 0x53; V 0x5B 0xAA 0xFD 0x5F; V 0x14 0x6F 0x3D 0xDF; V 0x86 0xDB 0x44 0x78;
    V 0x81 0xF3 0xAF 0xCA; V 0x3E 0xC4 0x68 0xB9; V 0x2C 0x34 0x24 0x38; V 0x5F 0x40 0xA3 0xC2;
    V 0x72 0xC3 0x1D 0x16; V 0x0C 0x25 0xE2 0xBC; V 0x8B 0x49 0x3C 0x28; V 0x41 0x95 0x0D 0xFF;
    V 0x71 0x01 0xA8 0x39; V 0xDE 0xB3 0x0C 0x08; V 0x9C 0xE4 0xB4 0xD8; V 0x90 0xC1 0x56 0x64;
    V 0x61 0x84 0xCB 0x7B; V 0x70 0xB6 0x32 0xD5; V 0x74 0x5C 0x6C 0x48; V 0x42 0x57 0xB8 0xD0 ].

(** [#define V(a,b,c,d) 0x##a##b##c##d]: token pasting of four octets. *)
Definition paste (a b c d : Z) : Z :=
  a * 0x1000000 + b * 0x10000 + c * 0x100 + d.

(** The four readings of the macro lists. *)
Definition V0 (a b c d : Z) : Z := paste a b c d.
Definition V1 (a b c d : Z) : Z := paste b c d a.
Definition V2 (a b c d : Z) : Z := paste c d a b.
Definition V3 (a b c d : Z) : Z := paste d a b c.

(** Round constants. *)
Definition rcon : list Z :=
  [ 0x00000001; 0x00000002; 0x00000004; 0x00000008;
    0x00000010; 0x00000020; 0x00000040; 0x00000080;
    0x0000001B; 0x00000036 ].

Definition tables : aes_tables := {|
  FSb := fsb;
  FT0 := ft V0; FT1 := ft V1; FT2 := ft V2; FT3 := ft V3;
  RSb := rsb;
  RT0 := rt V0; RT1 := rt V1; RT2 := rt V2; RT3 := rt V3;
  RCON := rcon |}.

End Rom.

Module Gen.

(** [#define ROTL8(x)], on a 32-bit [x]. *)
Definition ROTL8 (x : Z) : Z := ((x << 8) .& 0xFFFFFFFF) .| (x >> 24).

(** [#define XTIME(x)], on an [int] in byte range. *)
Definition XTIME (x : Z) : Z := (x << 1) .^ (if x .& 0x80 =? 0 then 0x00 else 0x1B).

(** [#define MUL(x,y)], through the logarithm tables. *)
Definition MUL (pow log : list Z) (x y : Z) : Z :=
  if (x =? 0) || (y =? 0) then 0 else pow.[(log.[x] + log.[y]) mod 255].

(** The first loop: [pow] and [log] over GF(2^8). *)
Definition gen_pow_log : list Z * list Z :=
  let '(pow, log, _) :=
    for_up 256 0
      (fun i '(pow, log, x) =>
         (upd pow i x, upd log x i, (x .^ XTIME x) .& 0xFF))
      (replicate 256 0, replicate 256 0, 1) in
  (pow, log).

(** The second loop: the round constants. *)
Definition gen_rcon : list Z :=
  fst (for_up 10 0
         (fun i '(rcon, x) => (upd rcon i x, XTIME x .& 0xFF))
         (replicate 10 0, 1)).

(** [y = ( ( y << 1 ) | ( y >> 7 ) ) & 0xFF]. *)
Definition rot1 (y : Z) : Z := ((y << 1) .| (y >> 7)) .& 0xFF.

(** The affine step of the third loop, on the inverse [x]. *)
Definition sbox_affine (x : Z) : Z :=
  let y := rot1 x in
  let x := x .^ y in let y := rot1 y in
  let x := x .^ y in let y := rot1 y in
  let x := x .^ y in let y := rot1 y in
  x .^ (y .^ 0x63).

(** The third loop: the S-boxes. *)
Definition gen_sboxes (pow log : list Z) : list Z * list Z :=
  for_up 255 1
    (fun i '(fsb, rsb) =>
       let x := sbox_affine pow.[255 - log.[i]] in
       (upd fsb i (to_u8 x), upd rsb x (to_u8 i)))
    (upd (replicate 256 0) 0x00 0x63, upd (replicate 256 0) 0x63 0x00).

(** One entry of the forward table [FT0]. *)
Definition ft_entry (fsb : list Z) (i : Z) : Z :=
  let x := fsb.[i] in
  let y := XTIME x .& 0xFF in
  let z := (y .^ x) .& 0xFF in
  y .^ (x << 8) .^ (x << 16) .^ (z << 24).

(** One entry of the reverse table [RT0]. *)
Definition rt_entry (pow log rsb : list Z) (i : Z) : Z :=
  let x := rsb.[i] in
  MUL pow log 0x0E x .^ (MUL pow log 0x09 x << 8)
    .^ (MUL pow log 0x0D x << 16) .^ (MUL pow log 0x0B x << 24).

(** The fourth loop fills the eight word tables entry by entry. *)
Definition gen_words (entry : Z -> Z) : list Z * list Z * list Z * list Z :=
  for_up 256 0
    (fun i '(t0, t1, t2, t3) =>
       let e0 := entry i in
       let e1 := ROTL8 e0 in
       let e2 := ROTL8 e1 in
       let e3 := ROTL8 e2 in
       (upd t0 i e0, upd t1 i e1, upd t2 i e2, upd t3 i e3))
    (replicate 256 0, replicate 256 0, replicate 256 0, replicate 256 0).

(** [aes_gen_tables], from the zero-initialised static arrays. *)
Definition aes_gen_tables : aes_tables :=
  let '(pow, log) := gen_pow_log in
  let rcon := gen_rcon in
  let '(fsb, rsb) := gen_sboxes pow log in
  let '(f0, f1, f2, f3) := gen_words (ft_entry fsb) in
  let '(r0, r1, r2, r3) := gen_words (rt_entry pow log rsb) in
  {| FSb := fsb; FT0 := f0; FT1 := f1; FT2 := f2; FT3 := f3;
     RSb := rsb; RT0 := r0; RT1 := r1; RT2 := r2; RT3 := r3; RCON := rcon |}.

Lemma gen_is_rom : aes_gen_tables = Rom.tables.
Proof. vm_compute. reflexivity. Qed.

(** the tables computed at run time by [aes_gen_tables] are, entry for
    entry, the constants the library ships for [MBEDTLS_AES_ROM_TABLES]. *)
Theorem aes_gen_tables_rom : aes_gen_tables = Rom.tables.
Proof. exact gen_is_rom. Qed.

End Gen.
