(* ===== verification/AesSpec.v ===== *)
(** * FIPS-197 reference

    The Advanced Encryption Standard as its standard defines it: arithmetic in
    GF(2^8), the state transformations, [KeyExpansion], [Cipher] and
    [InvCipher], on lists of octets.  It is the specification that the
    table-driven code of aes.c is proved to implement; nothing here is
    translated from the program. *)

From S2P Require Import Prelude.
Open Scope Z_scope.
Open Scope c_scope.

(** ** GF(2^8) *)

(** Multiplication by [x] modulo [x^8 + x^4 + x^3 + x + 1]. *)
Definition xtime (b : Z) : Z :=
  ((b << 1) .& 0xFF) .^ (if Z.testbit b 7 then 0x1B else 0).

Fixpoint gmul_bits (n : nat) (a b : Z) : Z :=
  match n with
  | O => 0
  | S n => (if Z.odd a then b else 0) .^ gmul_bits n (Z.div2 a) (xtime b)
  end.

(** The product of two octets. *)
Definition gmul (a b : Z) : Z := gmul_bits 8 a b.

(** [b^254], the multiplicative inverse of a nonzero octet. *)
Definition ginv (b : Z) : Z :=
  let b2 := gmul b b in
  let b4 := gmul b2 b2 in
  let b8 := gmul b4 b4 in
  let b16 := gmul b8 b8 in
  let b32 := gmul b16 b16 in
  let b64 := gmul b32 b32 in
  let b128 := gmul b64 b64 in
  gmul b128 (gmul b64 (gmul b32 (gmul b16 (gmul b8 (gmul b4 b2))))).

(** An octet from its bits. *)
Definition byte_of_bits (f : Z -> bool) : Z :=
  fold_left (fun acc i => acc + (Z.b2z (f i) << i)) [0; 1; 2; 3; 4; 5; 6; 7] 0.

(** Equation (5.1) of the standard. *)
Definition affine (b : Z) : Z :=
  byte_of_bits (fun i =>
    xorb (Z.testbit b i)
      (xorb (Z.testbit b ((i + 4) mod 8))
        (xorb (Z.testbit b ((i + 5) mod 8))
          (xorb (Z.testbit b ((i + 6) mod 8))
            (xorb (Z.testbit b ((i + 7) mod 8)) (Z.testbit 0x63 i)))))).

Definition inv_affine (b : Z) : Z :=
  byte_of_bits (fun i =>
    xorb (Z.testbit b ((i + 2) mod 8))
      (xorb (Z.testbit b ((i + 5) mod 8))
        (xorb (Z.testbit b ((i + 7) mod 8)) (Z.testbit 0x05 i)))).

Definition sub_byte (b : Z) : Z := affine (ginv b).
Definition inv_sub_byte (b : Z) : Z := ginv (inv_affine b).

(** ** State transformations

    The state is the list of its 16 octets, column by column: row [r] of
    column [c] is entry [r + 4 c]. *)

Definition block_idx : list Z := [0; 1; 2; 3; 4; 5; 6; 7; 8; 9; 10; 11; 12; 13; 14; 15].

Definition sub_bytes (s : list Z) : list Z := map sub_byte s.
Definition inv_sub_bytes (s : list Z) : list Z := map inv_sub_byte s.

Definition shift_rows (s : list Z) : list Z :=
  map (fun k => let r := k mod 4 in let c := k / 4 in s.[r + 4 * ((c + r) mod 4)]) block_idx.
Definition inv_shift_rows (s : list Z) : list Z :=
  map (fun k => let r := k mod 4 in let c := k / 4 in s.[r + 4 * ((c - r) mod 4)]) block_idx.

(** Multiplication of a column by a circulant matrix. *)
Definition circulant (m0 m1 m2 m3 : Z) (a0 a1 a2 a3 : Z) : list Z :=
  [ gmul m0 a0 .^ gmul m1 a1 .^ gmul m2 a2 .^ gmul m3 a3;
    gmul m3 a0 .^ gmul m0 a1 .^ gmul m1 a2 .^ gmul m2 a3;
    gmul m2 a0 .^ gmul m3 a1 .^ gmul m0 a2 .^ gmul m1 a3;
    gmul m1 a0 .^ gmul m2 a1 .^ gmul m3 a2 .^ gmul m0 a3 ].

Definition mix_column : Z -> Z -> Z -> Z -> list Z := circulant 0x02 0x03 0x01 0x01.
Definition inv_mix_column : Z -> Z -> Z -> Z -> list Z := circulant 0x0E 0x0B 0x0D 0x09.

Arguments inv_mix_column : simpl never.

Definition on_columns (f : Z -> Z -> Z -> Z -> list Z) (s : list Z) : list Z :=
  f s.[0] s.[1] s.[2] s.[3] ++ f s.[4] s.[5] s.[6] s.[7]
  ++ f s.[8] s.[9] s.[10] s.[11] ++ f s.[12] s.[13] s.[14] s.[15].

Definition mix_columns : list Z -> list Z := on_columns mix_column.
Definition inv_mix_columns : list Z -> list Z := on_columns inv_mix_column.

Definition add_round_key (s k : list Z) : list Z := xor_bytes s k.

(** ** Key expansion

    Key-schedule words are lists of four octets. *)

Definition rot_word (w : list Z) : list Z :=
  match w with [a0; a1; a2; a3] => [a1; a2; a3; a0] | _ => w end.
Definition sub_word (w : list Z) : list Z := map sub_byte w.
Definition round_constant (i : nat) : list Z := [Nat.iter (i - 1) xtime 1; 0; 0; 0].

(** The word that follows the words [ws] already produced. *)
Definition next_word (Nk : nat) (ws : list (list Z)) : list Z :=
  let i := length ws in
  let temp := nth (i - 1) ws [] in
  let temp :=
    if (i mod Nk =? 0)%nat then xor_bytes (sub_word (rot_word temp)) (round_constant (i / Nk))
    else if (6 <? Nk)%nat && (i mod Nk =? 4)%nat then sub_word temp
    else temp in
  xor_bytes (nth (i - Nk) ws []) temp.

Fixpoint expand (Nk n : nat) (ws : list (list Z)) : list (list Z) :=
  match n with
  | O => ws
  | S n => expand Nk n (ws ++ [next_word Nk ws])
  end.

(** The key cut into [Nk] words. *)
Definition key_words (Nk : nat) (key : list Z) : list (list Z) :=
  map (fun i => slice (4 * i) 4 key) (seq 0 Nk).

(** [KeyExpansion]: the [4 (Nr + 1)] words of the schedule, [Nr = Nk + 6]. *)
Definition key_expansion (Nk : nat) (key : list Z) : list (list Z) :=
  expand Nk (4 * (Nk + 7) - Nk) (key_words Nk key).

(** The 16 octets of round key [r]. *)
Definition round_key (ws : list (list Z)) (r : nat) : list Z :=
  concat (take 4 (drop (4 * r) ws)).

(** ** Ciphers, over a schedule given as a function of the round *)

Section Ciphers.
Context (rk : nat -> list Z).

Definition round (r : nat) (s : list Z) : list Z :=
  add_round_key (mix_columns (shift_rows (sub_bytes s))) (rk r).

(** [n] rounds, the first of them round [r]. *)
Fixpoint rounds (n r : nat) (s : list Z) : list Z :=
  match n with
  | O => s
  | S n => rounds n (S r) (round r s)
  end.

Definition cipher (Nr : nat) (s : list Z) : list Z :=
  let s := add_round_key s (rk 0%nat) in
  let s := rounds (Nr - 1) 1 s in
  add_round_key (shift_rows (sub_bytes s)) (rk Nr).

Definition inv_round (r : nat) (s : list Z) : list Z :=
  inv_mix_columns (add_round_key (inv_sub_bytes (inv_shift_rows s)) (rk r)).

(** Rounds [n], [n - 1], ..., 1. *)
Fixpoint inv_rounds (n : nat) (s : list Z) : list Z :=
  match n with
  | O => s
  | S n' => inv_rounds n' (inv_round n s)
  end.

Definition inv_cipher (Nr : nat) (s : list Z) : list Z :=
  let s := add_round_key s (rk Nr) in
  let s := inv_rounds (Nr - 1) s in
  add_round_key (inv_sub_bytes (inv_shift_rows s)) (rk 0%nat).
End Ciphers.

(** AES with a key of [4 Nk] octets, [Nk] being 4, 6 or 8. *)
Definition aes_encrypt (Nk : nat) (key s : list Z) : list Z :=
  cipher (round_key (key_expansion Nk key)) (Nk + 6) s.
Definition aes_decrypt (Nk : nat) (key s : list Z) : list Z :=
  inv_cipher (round_key (key_expansion Nk key)) (Nk + 6) s.

(** The example vector of appendix C.1 of the standard. *)
Example fips197_c1 :
  aes_encrypt 4 [0; 1; 2; 3; 4; 5; 6; 7; 8; 9; 10; 11; 12; 13; 14; 15]
    [0x00; 0x11; 0x22; 0x33; 0x44; 0x55; 0x66; 0x77;
     0x88; 0x99; 0xAA; 0xBB; 0xCC; 0xDD; 0xEE; 0xFF]
  = [0x69; 0xC4; 0xE0; 0xD8; 0x6A; 0x7B; 0x04; 0x30;
     0xD8; 0xCD; 0xB7; 0x80; 0x70; 0xB4; 0xC5; 0x5A].
Proof. vm_compute. reflexivity. Qed.

(** ** Algebra of GF(2^8) *)

Lemma xtime_lxor a b : xtime (a .^ b) = xtime a .^ xtime b.
Proof.
  unfold xtime. rewrite Z.lxor_spec, Z.shiftl_lxor.
  destruct (Z.testbit a 7), (Z.testbit b 7); simpl xorb; cbv iota;
    apply Z.bits_inj'; intros n Hn;
    rewrite ?Z.lxor_spec, ?Z.land_spec, ?Z.lxor_spec, ?Z.bits_0;
    destruct (Z.testbit 0x1B n), (Z.testbit (a << 1) n), (Z.testbit (b << 1) n),
      (Z.testbit 0xFF n); done.
Qed.

Lemma xtime_byte b : is_byte (xtime b).
Proof.
  unfold xtime. apply lxor_byte; [apply (to_u8_range (b << 1))|].
  unfold is_byte. destruct (Z.testbit b 7); lia.
Qed.

Lemma gmul_bits_lxor n a b c :
  gmul_bits n a (b .^ c) = gmul_bits n a b .^ gmul_bits n a c.
Proof.
  revert a b c. induction n as [|n IH]; intros a b c; [done|].
  simpl. rewrite xtime_lxor, IH. destruct (Z.odd a); bool_ext.
Qed.

(** Multiplication by a constant is linear. *)
Lemma gmul_lxor a b c : gmul a (b .^ c) = gmul a b .^ gmul a c.
Proof. apply gmul_bits_lxor. Qed.

Lemma gmul_bits_byte n a b : is_byte b -> is_byte (gmul_bits n a b).
Proof.
  revert a b. induction n as [|n IH]; intros a b Hb; [apply byte_0|].
  simpl. apply lxor_byte; [|apply IH, xtime_byte].
  destruct (Z.odd a); auto with widths.
Qed.

Lemma gmul_byte a b : is_byte b -> is_byte (gmul a b).
Proof. apply gmul_bits_byte. Qed.

#[export] Hint Resolve gmul_byte : widths.

(** [ginv] is the multiplicative inverse of the nonzero octets. *)
Lemma ginv_correct b : is_byte b -> gmul b (ginv b) = if b =? 0 then 0 else 1.
Proof. intros Hb. check_bytes b Hb. Qed.

Lemma inv_sub_byte_sub b : is_byte b -> inv_sub_byte (sub_byte b) = b.
Proof. intros Hb. check_bytes b Hb. Qed.
Lemma sub_byte_byte b : is_byte b -> is_byte (sub_byte b).
Proof. intros Hb. check_bytes b Hb. Qed.
Lemma inv_sub_byte_byte b : is_byte b -> is_byte (inv_sub_byte b).
Proof. intros Hb. check_bytes b Hb. Qed.

#[export] Hint Resolve sub_byte_byte inv_sub_byte_byte : widths.

(** The products of the entries of the two circulants, column by column. *)
Lemma mix_inv_diag b :
  is_byte b ->
  gmul 0x0E (gmul 0x02 b) .^ gmul 0x0B (gmul 0x01 b)
    .^ gmul 0x0D (gmul 0x01 b) .^ gmul 0x09 (gmul 0x03 b) = b.
Proof. intros Hb. check_bytes b Hb. Qed.
Lemma mix_inv_off1 b :
  is_byte b ->
  gmul 0x09 (gmul 0x02 b) .^ gmul 0x0E (gmul 0x01 b)
    .^ gmul 0x0B (gmul 0x01 b) .^ gmul 0x0D (gmul 0x03 b) = 0.
Proof. intros Hb. check_bytes b Hb. Qed.
Lemma mix_inv_off2 b :
  is_byte b ->
  gmul 0x0D (gmul 0x02 b) .^ gmul 0x09 (gmul 0x01 b)
    .^ gmul 0x0E (gmul 0x01 b) .^ gmul 0x0B (gmul 0x03 b) = 0.
Proof. intros Hb. check_bytes b Hb. Qed.
Lemma mix_inv_off3 b :
  is_byte b ->
  gmul 0x0B (gmul 0x02 b) .^ gmul 0x0D (gmul 0x01 b)
    .^ gmul 0x09 (gmul 0x01 b) .^ gmul 0x0E (gmul 0x03 b) = 0.
Proof. intros Hb. check_bytes b Hb. Qed.

(** From here on products are manipulated by the lemmas above only. *)
#[global] Opaque gmul.

Lemma lxor4_move a b c d e : a .^ b .^ c .^ d = e -> a = e .^ b .^ c .^ d.
Proof. intros <-. bool_ext. Qed.

Lemma inv_mix_mix_column a0 a1 a2 a3 :
  is_byte a0 -> is_byte a1 -> is_byte a2 -> is_byte a3 ->
  match mix_column a0 a1 a2 a3 with
  | [c0; c1; c2; c3] => inv_mix_column c0 c1 c2 c3
  | _ => []
  end = [a0; a1; a2; a3].
Proof.
  intros H0 H1 H2 H3.
  unfold mix_column, inv_mix_column, circulant. cbv iota. rewrite !gmul_lxor.
  rewrite !(lxor4_move _ _ _ _ _ (mix_inv_diag _ H0)), !(lxor4_move _ _ _ _ _ (mix_inv_diag _ H1)),
    !(lxor4_move _ _ _ _ _ (mix_inv_diag _ H2)), !(lxor4_move _ _ _ _ _ (mix_inv_diag _ H3)).
  rewrite !(lxor4_move _ _ _ _ _ (mix_inv_off1 _ H0)), !(lxor4_move _ _ _ _ _ (mix_inv_off1 _ H1)),
    !(lxor4_move _ _ _ _ _ (mix_inv_off1 _ H2)), !(lxor4_move _ _ _ _ _ (mix_inv_off1 _ H3)).
  rewrite !(lxor4_move _ _ _ _ _ (mix_inv_off2 _ H0)), !(lxor4_move _ _ _ _ _ (mix_inv_off2 _ H1)),
    !(lxor4_move _ _ _ _ _ (mix_inv_off2 _ H2)), !(lxor4_move _ _ _ _ _ (mix_inv_off2 _ H3)).
  rewrite !(lxor4_move _ _ _ _ _ (mix_inv_off3 _ H0)), !(lxor4_move _ _ _ _ _ (mix_inv_off3 _ H1)),
    !(lxor4_move _ _ _ _ _ (mix_inv_off3 _ H2)), !(lxor4_move _ _ _ _ _ (mix_inv_off3 _ H3)).
  cons_ext bool_ext.
Qed.

(** ** Blocks *)

Definition block (s : list Z) : Prop := length s = 16%nat /\ bytes s.

#[export] Instance block_dec s : Decision (block s).
Proof. unfold block. apply _. Defined.

(** Opens a block into its sixteen octets. *)
Ltac open_block s H :=
  let L := fresh "L" in
  let B := fresh "B" in
  destruct H as [L B];
  do 16 (let x := fresh "b" in destruct s as [|x s]; [discriminate L|]);
  destruct s; [|discriminate L]; clear L;
  do 16 (let H := fresh "Hb" in apply Forall_cons_1 in B; destruct B as [H B]); clear B.

Ltac close_block :=
  split; [reflexivity | simpl;
    repeat (apply Forall_cons_2; [solve [auto 8 with widths]|]); apply Forall_nil_2].

Lemma shift_rows_eq b0 b1 b2 b3 b4 b5 b6 b7 b8 b9 b10 b11 b12 b13 b14 b15 :
  shift_rows [b0; b1; b2; b3; b4; b5; b6; b7; b8; b9; b10; b11; b12; b13; b14; b15]
  = [b0; b5; b10; b15; b4; b9; b14; b3; b8; b13; b2; b7; b12; b1; b6; b11].
Proof. reflexivity. Qed.

Lemma inv_shift_rows_eq b0 b1 b2 b3 b4 b5 b6 b7 b8 b9 b10 b11 b12 b13 b14 b15 :
  inv_shift_rows [b0; b1; b2; b3; b4; b5; b6; b7; b8; b9; b10; b11; b12; b13; b14; b15]
  = [b0; b13; b10; b7; b4; b1; b14; b11; b8; b5; b2; b15; b12; b9; b6; b3].
Proof. reflexivity. Qed.

Lemma block_xor s k : block s -> block k -> block (xor_bytes s k).
Proof.
  intros [Ls Bs] [Lk Bk]. split; [|by apply bytes_xor].
  rewrite length_xor_bytes, Ls, Lk. done.
Qed.

Lemma block_sub_bytes s : block s -> block (sub_bytes s).
Proof. intros H. open_block s H. close_block. Qed.
Lemma block_inv_sub_bytes s : block s -> block (inv_sub_bytes s).
Proof. intros H. open_block s H. close_block. Qed.
Lemma block_shift_rows s : block s -> block (shift_rows s).
Proof. intros H. open_block s H. rewrite shift_rows_eq. close_block. Qed.
Lemma block_inv_shift_rows s : block s -> block (inv_shift_rows s).
Proof. intros H. open_block s H. rewrite inv_shift_rows_eq. close_block. Qed.
Lemma block_mix_columns s : block s -> block (mix_columns s).
Proof. intros H. open_block s H. close_block. Qed.
Lemma block_inv_mix_columns s : block s -> block (inv_mix_columns s).
Proof. intros H. open_block s H. close_block. Qed.

#[export] Hint Resolve block_xor block_sub_bytes block_inv_sub_bytes block_shift_rows
  block_inv_shift_rows block_mix_columns block_inv_mix_columns : bufs.

Lemma inv_sub_sub s : block s -> inv_sub_bytes (sub_bytes s) = s.
Proof.
  intros [_ B]. unfold inv_sub_bytes, sub_bytes. rewrite map_map.
  induction B as [|x s Hx B IH]; [done|]. simpl. by rewrite inv_sub_byte_sub, IH.
Qed.

Lemma inv_shift_shift s : block s -> inv_shift_rows (shift_rows s) = s.
Proof. intros H. open_block s H. by rewrite shift_rows_eq, inv_shift_rows_eq. Qed.

Lemma inv_mix_mix s : block s -> inv_mix_columns (mix_columns s) = s.
Proof.
  intros H. open_block s H.
  pose proof (inv_mix_mix_column b b0 b1 b2) as E0.
  pose proof (inv_mix_mix_column b3 b4 b5 b6) as E1.
  pose proof (inv_mix_mix_column b7 b8 b9 b10) as E2.
  pose proof (inv_mix_mix_column b11 b12 b13 b14) as E3.
  unfold mix_columns, inv_mix_columns, on_columns, mix_column, circulant in *.
  cbv [app] in *. run_idx. rewrite E0, E1, E2, E3 by done. done.
Qed.

Lemma inv_mix_xor s k :
  block s -> block k ->
  inv_mix_columns (xor_bytes s k) = xor_bytes (inv_mix_columns s) (inv_mix_columns k).
Proof.
  intros Hs Hk. open_block s Hs. open_block k Hk.
  unfold inv_mix_columns, on_columns, inv_mix_column, circulant.
  cbv [app xor_bytes zip_with]. run_idx. rewrite !gmul_lxor. cons_ext bool_ext.
Qed.

(** ** [InvCipher] undoes [Cipher] *)

Section Inverse.
Context (rk : nat -> list Z) (Hrk : forall r, block (rk r)).

Lemma block_round r s : block s -> block (round rk r s).
Proof. intros H. unfold round, add_round_key. auto with bufs. Qed.

Lemma block_rounds n r s : block s -> block (rounds rk n r s).
Proof.
  revert r s. induction n as [|n IH]; intros r s H; [done|]. by apply IH, block_round.
Qed.

Lemma block_cipher Nr s : block s -> block (cipher rk Nr s).
Proof.
  intros H. unfold cipher, add_round_key.
  auto 10 using block_rounds with bufs.
Qed.

Lemma rounds_snoc n r s : rounds rk (S n) r s = round rk (r + n) (rounds rk n r s).
Proof.
  revert r s. induction n as [|n IH]; intros r s; [by rewrite Nat.add_0_r|].
  change (rounds rk (S (S n)) r s) with (rounds rk (S n) (S r) (round rk r s)).
  rewrite IH. replace (S r + n)%nat with (r + S n)%nat by lia. done.
Qed.

Lemma ark_cancel s k : block s -> block k -> add_round_key (add_round_key s k) k = s.
Proof. intros [Ls _] [Lk _]. apply xor_bytes_cancel. lia. Qed.

Lemma inv_sub_shift s : block s -> inv_sub_bytes (inv_shift_rows (shift_rows (sub_bytes s))) = s.
Proof. intros H. rewrite inv_shift_shift, inv_sub_sub by auto with bufs. done. Qed.

Lemma inv_round_round r s :
  block s -> inv_round rk r (shift_rows (sub_bytes (round rk r s))) = shift_rows (sub_bytes s).
Proof.
  intros H. unfold inv_round. rewrite inv_sub_shift by by apply block_round.
  unfold round. rewrite ark_cancel, inv_mix_mix by auto with bufs. done.
Qed.

Lemma inv_rounds_S n s : inv_rounds rk (S n) s = inv_rounds rk n (inv_round rk (S n) s).
Proof. done. Qed.

Lemma inv_rounds_rounds n s :
  block s ->
  inv_rounds rk n (shift_rows (sub_bytes (rounds rk n 1 s))) = shift_rows (sub_bytes s).
Proof.
  intros H. induction n as [|n IH]; [done|].
  rewrite rounds_snoc, inv_rounds_S. change (1 + n)%nat with (S n).
  rewrite inv_round_round by by apply block_rounds. exact IH.
Qed.

Lemma inv_cipher_cipher Nr s : block s -> inv_cipher rk Nr (cipher rk Nr s) = s.
Proof.
  intros H. unfold inv_cipher, cipher.
  rewrite ark_cancel, inv_rounds_rounds, inv_sub_shift, ark_cancel;
    unfold add_round_key; auto 10 using block_rounds with bufs.
Qed.
End Inverse.

(** The ciphers read the round keys 0 to [Nr] only. *)
Section Ext.
Context (rk rk' : nat -> list Z).

Lemma rounds_ext n r s :
  (forall j, (r <= j < r + n)%nat -> rk j = rk' j) -> rounds rk n r s = rounds rk' n r s.
Proof.
  revert r s. induction n as [|n IH]; intros r s H; [done|].
  cbn [rounds]. rewrite IH by (intros; apply H; lia).
  unfold round. by rewrite H by lia.
Qed.

Lemma cipher_ext Nr s :
  (0 < Nr)%nat -> (forall j, (j <= Nr)%nat -> rk j = rk' j) -> cipher rk Nr s = cipher rk' Nr s.
Proof.
  intros HN H. unfold cipher. rewrite !H by lia. rewrite (rounds_ext (Nr - 1) 1); [done|].
  intros; apply H; lia.
Qed.

Lemma inv_rounds_ext n s :
  (forall j, (j <= n)%nat -> rk j = rk' j) -> inv_rounds rk n s = inv_rounds rk' n s.
Proof.
  revert s. induction n as [|n IH]; intros s H; [done|].
  rewrite !inv_rounds_S. rewrite IH by (intros; apply H; lia).
  unfold inv_round. by rewrite H by lia.
Qed.

Lemma inv_cipher_ext Nr s :
  (forall j, (j <= Nr)%nat -> rk j = rk' j) -> inv_cipher rk Nr s = inv_cipher rk' Nr s.
Proof.
  intros H. unfold inv_cipher. rewrite !H by lia. rewrite (inv_rounds_ext (Nr - 1)); [done|].
  intros; apply H; lia.
Qed.
End Ext.
