(* ===== verification/AesCore.v ===== *)
(** * AES key schedule and block transformation (externals/mbedtls/library/aes.c)

    Module [Aes] translates the contexts, the two key schedules and the two
    block routines of the library, branch for branch, for a processor on which
    [mbedtls_aesni_has_support] and the PadLock test answer 0 (those branches
    are hardware instructions and leave the portable code untouched).  The
    round-key pointer [ctx->rk] always equals [ctx->buf] there, so a context
    carries the buffer only.

    The second half proves that the table-driven code implements the
    specification of [AesSpec]. *)

From S2P Require Import Prelude AesTables AesSpec.
Open Scope Z_scope.
Open Scope c_scope.

Module Aes.

Definition MBEDTLS_AES_ENCRYPT : Z := 1.
Definition MBEDTLS_AES_DECRYPT : Z := 0.
Definition MBEDTLS_ERR_AES_INVALID_KEY_LENGTH : Z := -0x0020.
Definition MBEDTLS_ERR_AES_BAD_INPUT_DATA : Z := -0x0021.
Definition MBEDTLS_ERR_AES_INVALID_INPUT_LENGTH : Z := -0x0022.

(** [GET_UINT32_LE(n,b,i)]. *)
Definition GET_UINT32_LE (b : list Z) (i : Z) : Z :=
  b.[i] .| (b.[i + 1] << 8) .| (b.[i + 2] << 16) .| (b.[i + 3] << 24).

(** [PUT_UINT32_LE(n,b,i)]: the four octets it stores. *)
Definition PUT_UINT32_LE (n : Z) : list Z :=
  [ n .& 0xFF; (n >> 8) .& 0xFF; (n >> 16) .& 0xFF; (n >> 24) .& 0xFF ].

(** [mbedtls_aes_context]. *)
Record mbedtls_aes_context := mk_ctx { nr : Z; buf : list Z }.

(** [mbedtls_aes_init] and [mbedtls_aes_free] zero the structure. *)
Definition mbedtls_aes_init : mbedtls_aes_context :=
  {| nr := 0; buf := replicate 68 0 |}.
Definition mbedtls_aes_free (ctx : mbedtls_aes_context) : mbedtls_aes_context :=
  {| nr := 0; buf := replicate (length (buf ctx)) 0 |}.

(** The file's static state: the tables and [aes_init_done]. *)
Record aes_globals := { aes_init_done : Z; tabs : aes_tables }.

(** The static arrays before the first key is set. *)
Definition aes_globals0 : aes_globals := {|
  aes_init_done := 0;
  tabs := {| FSb := replicate 256 0;
             FT0 := replicate 256 0; FT1 := replicate 256 0;
             FT2 := replicate 256 0; FT3 := replicate 256 0;
             RSb := replicate 256 0;
             RT0 := replicate 256 0; RT1 := replicate 256 0;
             RT2 := replicate 256 0; RT3 := replicate 256 0;
             RCON := replicate 10 0 |} |}.

(** [if( aes_init_done == 0 ) { aes_gen_tables(); aes_init_done = 1; }]. *)
Definition aes_init_tables (g : aes_globals) : aes_globals :=
  if aes_init_done g =? 0 then {| aes_init_done := 1; tabs := Gen.aes_gen_tables |} else g.

Section Tables.
Context (T : aes_tables).

(** The S-box of the rotated word, as the three schedules write it. *)
Definition fsb_rot (w : Z) : Z :=
  (FSb T).[(w >> 8) .& 0xFF] .^ ((FSb T).[(w >> 16) .& 0xFF] << 8)
    .^ ((FSb T).[(w >> 24) .& 0xFF] << 16) .^ ((FSb T).[w .& 0xFF] << 24).

(** The S-box of a word in place (256-bit keys). *)
Definition fsb_word (w : Z) : Z :=
  (FSb T).[w .& 0xFF] .^ ((FSb T).[(w >> 8) .& 0xFF] << 8)
    .^ ((FSb T).[(w >> 16) .& 0xFF] << 16) .^ ((FSb T).[(w >> 24) .& 0xFF] << 24).

(** The loop bodies of [case 10], [case 12] and [case 14]; [RK] has been
    advanced by 4, 6 or 8 words [i] times. *)
Definition setkey_enc_10 (i : Z) (RK : list Z) : list Z :=
  let p := 4 * i in
  let RK := upd RK (p + 4) (RK.[p] .^ (RCON T).[i] .^ fsb_rot RK.[p + 3]) in
  let RK := upd RK (p + 5) (RK.[p + 1] .^ RK.[p + 4]) in
  let RK := upd RK (p + 6) (RK.[p + 2] .^ RK.[p + 5]) in
  upd RK (p + 7) (RK.[p + 3] .^ RK.[p + 6]).

Definition setkey_enc_12 (i : Z) (RK : list Z) : list Z :=
  let p := 6 * i in
  let RK := upd RK (p + 6) (RK.[p] .^ (RCON T).[i] .^ fsb_rot RK.[p + 5]) in
  let RK := upd RK (p + 7) (RK.[p + 1] .^ RK.[p + 6]) in
  let RK := upd RK (p + 8) (RK.[p + 2] .^ RK.[p + 7]) in
  let RK := upd RK (p + 9) (RK.[p + 3] .^ RK.[p + 8]) in
  let RK := upd RK (p + 10) (RK.[p + 4] .^ RK.[p + 9]) in
  upd RK (p + 11) (RK.[p + 5] .^ RK.[p + 10]).

Definition setkey_enc_14 (i : Z) (RK : list Z) : list Z :=
  let p := 8 * i in
  let RK := upd RK (p + 8) (RK.[p] .^ (RCON T).[i] .^ fsb_rot RK.[p + 7]) in
  let RK := upd RK (p + 9) (RK.[p + 1] .^ RK.[p + 8]) in
  let RK := upd RK (p + 10) (RK.[p + 2] .^ RK.[p + 9]) in
  let RK := upd RK (p + 11) (RK.[p + 3] .^ RK.[p + 10]) in
  let RK := upd RK (p + 12) (RK.[p + 4] .^ fsb_word RK.[p + 11]) in
  let RK := upd RK (p + 13) (RK.[p + 5] .^ RK.[p + 12]) in
  let RK := upd RK (p + 14) (RK.[p + 6] .^ RK.[p + 13]) in
  upd RK (p + 15) (RK.[p + 7] .^ RK.[p + 14]).

(** The key loading loop and [switch( ctx->nr )]. *)
Definition expand_key (nr keybits : Z) (key RK : list Z) : list Z :=
  let RK := for_up (Z.to_nat (keybits >> 5)) 0
              (fun i RK => upd RK i (GET_UINT32_LE key (i << 2))) RK in
  if nr =? 10 then for_up 10 0 setkey_enc_10 RK
  else if nr =? 12 then for_up 8 0 setkey_enc_12 RK
  else if nr =? 14 then for_up 7 0 setkey_enc_14 RK
  else RK.

(** [*RK++ = AES_RT0( FSb[...] ) ^ ...] of the decryption schedule. *)
Definition dec_word (w : Z) : Z :=
  (RT0 T).[(FSb T).[w .& 0xFF]] .^ (RT1 T).[(FSb T).[(w >> 8) .& 0xFF]]
    .^ (RT2 T).[(FSb T).[(w >> 16) .& 0xFF]] .^ (RT3 T).[(FSb T).[(w >> 24) .& 0xFF]].

(** Four [*RK++ = f( *SK++ )]; the state is the target buffer with the two
    pointers. *)
Definition dec_copy4 (f : Z -> Z) (SK : list Z) (st : list Z * Z * Z) : list Z * Z * Z :=
  for_up 4 0 (fun _ '(RK, r, s) => (upd RK r (f SK.[s]), r + 1, s + 1)) st.

(** The decryption schedule from the encryption schedule [SK]. *)
Definition invert_key (nr : Z) (SK RK : list Z) : list Z :=
  let '(RK, r, s) := dec_copy4 id SK (RK, 0, nr * 4) in
  let '(RK, r, s) :=
    for_up (Z.to_nat (nr - 1)) 0
      (fun _ st => let '(RK, r, s) := dec_copy4 dec_word SK st in (RK, r, s - 8))
      (RK, r, s - 8) in
  let '(RK, r, s) := dec_copy4 id SK (RK, r, s) in
  RK.

(** [AES_FROUND] and [AES_RROUND], reading round keys from [RK] at [p]. *)
Definition AES_FROUND (RK : list Z) (p : Z) (Y : Z * Z * Z * Z) : Z * Z * Z * Z :=
  let '(Y0, Y1, Y2, Y3) := Y in
  (RK.[p] .^ (FT0 T).[Y0 .& 0xFF] .^ (FT1 T).[(Y1 >> 8) .& 0xFF]
     .^ (FT2 T).[(Y2 >> 16) .& 0xFF] .^ (FT3 T).[(Y3 >> 24) .& 0xFF],
   RK.[p + 1] .^ (FT0 T).[Y1 .& 0xFF] .^ (FT1 T).[(Y2 >> 8) .& 0xFF]
     .^ (FT2 T).[(Y3 >> 16) .& 0xFF] .^ (FT3 T).[(Y0 >> 24) .& 0xFF],
   RK.[p + 2] .^ (FT0 T).[Y2 .& 0xFF] .^ (FT1 T).[(Y3 >> 8) .& 0xFF]
     .^ (FT2 T).[(Y0 >> 16) .& 0xFF] .^ (FT3 T).[(Y1 >> 24) .& 0xFF],
   RK.[p + 3] .^ (FT0 T).[Y3 .& 0xFF] .^ (FT1 T).[(Y0 >> 8) .& 0xFF]
     .^ (FT2 T).[(Y1 >> 16) .& 0xFF] .^ (FT3 T).[(Y2 >> 24) .& 0xFF]).

Definition AES_RROUND (RK : list Z) (p : Z) (Y : Z * Z * Z * Z) : Z * Z * Z * Z :=
  let '(Y0, Y1, Y2, Y3) := Y in
  (RK.[p] .^ (RT0 T).[Y0 .& 0xFF] .^ (RT1 T).[(Y3 >> 8) .& 0xFF]
     .^ (RT2 T).[(Y2 >> 16) .& 0xFF] .^ (RT3 T).[(Y1 >> 24) .& 0xFF],
   RK.[p + 1] .^ (RT0 T).[Y1 .& 0xFF] .^ (RT1 T).[(Y0 >> 8) .& 0xFF]
     .^ (RT2 T).[(Y3 >> 16) .& 0xFF] .^ (RT3 T).[(Y2 >> 24) .& 0xFF],
   RK.[p + 2] .^ (RT0 T).[Y2 .& 0xFF] .^ (RT1 T).[(Y1 >> 8) .& 0xFF]
     .^ (RT2 T).[(Y0 >> 16) .& 0xFF] .^ (RT3 T).[(Y3 >> 24) .& 0xFF],
   RK.[p + 3] .^ (RT0 T).[Y3 .& 0xFF] .^ (RT1 T).[(Y2 >> 8) .& 0xFF]
     .^ (RT2 T).[(Y1 >> 16) .& 0xFF] .^ (RT3 T).[(Y0 >> 24) .& 0xFF]).

(** The last rounds, through the S-boxes. *)
Definition last_fround (RK : list Z) (p : Z) (Y : Z * Z * Z * Z) : Z * Z * Z * Z :=
  let '(Y0, Y1, Y2, Y3) := Y in
  (RK.[p] .^ (FSb T).[Y0 .& 0xFF] .^ ((FSb T).[(Y1 >> 8) .& 0xFF] << 8)
     .^ ((FSb T).[(Y2 >> 16) .& 0xFF] << 16) .^ ((FSb T).[(Y3 >> 24) .& 0xFF] << 24),
   RK.[p + 1] .^ (FSb T).[Y1 .& 0xFF] .^ ((FSb T).[(Y2 >> 8) .& 0xFF] << 8)
     .^ ((FSb T).[(Y3 >> 16) .& 0xFF] << 16) .^ ((FSb T).[(Y0 >> 24) .& 0xFF] << 24),
   RK.[p + 2] .^ (FSb T).[Y2 .& 0xFF] .^ ((FSb T).[(Y3 >> 8) .& 0xFF] << 8)
     .^ ((FSb T).[(Y0 >> 16) .& 0xFF] << 16) .^ ((FSb T).[(Y1 >> 24) .& 0xFF] << 24),
   RK.[p + 3] .^ (FSb T).[Y3 .& 0xFF] .^ ((FSb T).[(Y0 >> 8) .& 0xFF] << 8)
     .^ ((FSb T).[(Y1 >> 16) .& 0xFF] << 16) .^ ((FSb T).[(Y2 >> 24) .& 0xFF] << 24)).

Definition last_rround (RK : list Z) (p : Z) (Y : Z * Z * Z * Z) : Z * Z * Z * Z :=
  let '(Y0, Y1, Y2, Y3) := Y in
  (RK.[p] .^ (RSb T).[Y0 .& 0xFF] .^ ((RSb T).[(Y3 >> 8) .& 0xFF] << 8)
     .^ ((RSb T).[(Y2 >> 16) .& 0xFF] << 16) .^ ((RSb T).[(Y1 >> 24) .& 0xFF] << 24),
   RK.[p + 1] .^ (RSb T).[Y1 .& 0xFF] .^ ((RSb T).[(Y0 >> 8) .& 0xFF] << 8)
     .^ ((RSb T).[(Y3 >> 16) .& 0xFF] << 16) .^ ((RSb T).[(Y2 >> 24) .& 0xFF] << 24),
   RK.[p + 2] .^ (RSb T).[Y2 .& 0xFF] .^ ((RSb T).[(Y1 >> 8) .& 0xFF] << 8)
     .^ ((RSb T).[(Y0 >> 16) .& 0xFF] << 16) .^ ((RSb T).[(Y3 >> 24) .& 0xFF] << 24),
   RK.[p + 3] .^ (RSb T).[Y3 .& 0xFF] .^ ((RSb T).[(Y2 >> 8) .& 0xFF] << 8)
     .^ ((RSb T).[(Y1 >> 16) .& 0xFF] << 16) .^ ((RSb T).[(Y0 >> 24) .& 0xFF] << 24)).

(** The first key addition: [GET_UINT32_LE( Xi, input, 4 i ); Xi ^= *RK++]. *)
Definition load_block (RK input : list Z) : Z * Z * Z * Z :=
  (GET_UINT32_LE input 0 .^ RK.[0], GET_UINT32_LE input 4 .^ RK.[1],
   GET_UINT32_LE input 8 .^ RK.[2], GET_UINT32_LE input 12 .^ RK.[3]).

(** The four [PUT_UINT32_LE]. *)
Definition store_block (X : Z * Z * Z * Z) : list Z :=
  let '(X0, X1, X2, X3) := X in
  PUT_UINT32_LE X0 ++ PUT_UINT32_LE X1 ++ PUT_UINT32_LE X2 ++ PUT_UINT32_LE X3.

(** [for( i = ( nr >> 1 ) - 1; i > 0; i-- )]: two rounds per turn; the
    state is the pointer [RK] and the four words. *)
Definition double_rounds (rnd : list Z -> Z -> Z * Z * Z * Z -> Z * Z * Z * Z)
    (RK : list Z) (nr : Z) (st : Z * (Z * Z * Z * Z)) : Z * (Z * Z * Z * Z) :=
  for_up (Z.to_nat ((nr >> 1) - 1)) 0
    (fun _ '(p, X) => (p + 8, rnd RK (p + 4) (rnd RK p X))) st.

(** [mbedtls_internal_aes_encrypt]; the value is [output]. *)
Definition mbedtls_internal_aes_encrypt (ctx : mbedtls_aes_context) (input : list Z) : list Z :=
  let RK := buf ctx in
  let X := load_block RK input in
  let '(p, X) := double_rounds AES_FROUND RK (nr ctx) (4, X) in
  let Y := AES_FROUND RK p X in
  store_block (last_fround RK (p + 4) Y).

(** [mbedtls_internal_aes_decrypt]; the value is [output]. *)
Definition mbedtls_internal_aes_decrypt (ctx : mbedtls_aes_context) (input : list Z) : list Z :=
  let RK := buf ctx in
  let X := load_block RK input in
  let '(p, X) := double_rounds AES_RROUND RK (nr ctx) (4, X) in
  let Y := AES_RROUND RK p X in
  store_block (last_rround RK (p + 4) Y).

(** [mbedtls_aes_crypt_ecb]; its return value is always 0 on this path. *)
Definition mbedtls_aes_crypt_ecb (ctx : mbedtls_aes_context) (mode : Z) (input : list Z) : list Z :=
  if mode =? MBEDTLS_AES_ENCRYPT then mbedtls_internal_aes_encrypt ctx input
  else mbedtls_internal_aes_decrypt ctx input.
End Tables.

(** [mbedtls_aes_setkey_enc]: new globals, new context, return value. *)
Definition mbedtls_aes_setkey_enc (g : aes_globals) (ctx : mbedtls_aes_context)
    (key : list Z) (keybits : Z) : aes_globals * mbedtls_aes_context * Z :=
  let g := aes_init_tables g in
  let run nr := (g, {| nr := nr; buf := expand_key (tabs g) nr keybits key (buf ctx) |}, 0) in
  if keybits =? 128 then run 10
  else if keybits =? 192 then run 12
  else if keybits =? 256 then run 14
  else (g, ctx, MBEDTLS_ERR_AES_INVALID_KEY_LENGTH).

(** [mbedtls_aes_setkey_dec]. *)
Definition mbedtls_aes_setkey_dec (g : aes_globals) (ctx : mbedtls_aes_context)
    (key : list Z) (keybits : Z) : aes_globals * mbedtls_aes_context * Z :=
  let cty := mbedtls_aes_init in
  let '(g, cty, ret) := mbedtls_aes_setkey_enc g cty key keybits in
  if negb (ret =? 0) then (g, ctx, ret)
  else (g, {| nr := nr cty; buf := invert_key (tabs g) (nr cty) (buf cty) (buf ctx) |}, ret).

(** XTS contexts. *)
Record mbedtls_aes_xts_context := mk_xts { crypt : mbedtls_aes_context; tweak : mbedtls_aes_context }.

Definition mbedtls_aes_xts_init : mbedtls_aes_xts_context :=
  {| crypt := mbedtls_aes_init; tweak := mbedtls_aes_init |}.
Definition mbedtls_aes_xts_free (ctx : mbedtls_aes_xts_context) : mbedtls_aes_xts_context :=
  {| crypt := mbedtls_aes_free (crypt ctx); tweak := mbedtls_aes_free (tweak ctx) |}.

(** [mbedtls_aes_xts_decode_keys]: [key1], [key1bits], [key2], [key2bits], or
    the error. *)
Definition mbedtls_aes_xts_decode_keys (key : list Z) (keybits : Z)
    : (list Z * Z * list Z * Z) + Z :=
  let half_keybits := keybits / 2 in
  let half_keybytes := half_keybits / 8 in
  if (keybits =? 256) || (keybits =? 512) then
    inl (key, half_keybits, drop (Z.to_nat half_keybytes) key, half_keybits)
  else inr MBEDTLS_ERR_AES_INVALID_KEY_LENGTH.

(** [mbedtls_aes_xts_setkey_enc] and [_dec] differ in the schedule of the
    data key only. *)
Definition xts_setkey
    (setkey : aes_globals -> mbedtls_aes_context -> list Z -> Z ->
              aes_globals * mbedtls_aes_context * Z)
    (g : aes_globals) (ctx : mbedtls_aes_xts_context) (key : list Z) (keybits : Z)
    : aes_globals * mbedtls_aes_xts_context * Z :=
  match mbedtls_aes_xts_decode_keys key keybits with
  | inr ret => (g, ctx, ret)
  | inl (key1, key1bits, key2, key2bits) =>
      let '(g, tw, ret) := mbedtls_aes_setkey_enc g (tweak ctx) key2 key2bits in
      let ctx := {| crypt := crypt ctx; tweak := tw |} in
      if negb (ret =? 0) then (g, ctx, ret)
      else
        let '(g, cr, ret) := setkey g (crypt ctx) key1 key1bits in
        (g, {| crypt := cr; tweak := tweak ctx |}, ret)
  end.
Definition mbedtls_aes_xts_setkey_enc := xts_setkey mbedtls_aes_setkey_enc.
Definition mbedtls_aes_xts_setkey_dec := xts_setkey mbedtls_aes_setkey_dec.
End Aes.
