(* ===== verification/AesCorrect.v ===== *)
(** * The table-driven AES implements FIPS-197

    Proofs about [AesCore]: the lookup tables as the products of the
    specification, one lemma per round form, the two key schedules, and the
    theorems on the whole block routines. *)

From S2P Require Import Prelude AesTables AesSpec AesCore.
Open Scope Z_scope.
Open Scope c_scope.
Import Aes.

Abbreviation T := Rom.tables.

(** ** Table entries *)

Lemma fsb_at b : is_byte b -> (FSb T).[b] = sub_byte b.
Proof. intros H. check_bytes b H. Qed.
Lemma rsb_at b : is_byte b -> (RSb T).[b] = inv_sub_byte b.
Proof. intros H. check_bytes b H. Qed.

Definition ft_word (m0 m1 m2 m3 s : Z) : Z := le32 (gmul m0 s) (gmul m1 s) (gmul m2 s) (gmul m3 s).

Lemma ft0_at b : is_byte b -> (FT0 T).[b] = ft_word 2 1 1 3 (sub_byte b).
Proof. intros H. check_bytes b H. Qed.
Lemma ft1_at b : is_byte b -> (FT1 T).[b] = ft_word 3 2 1 1 (sub_byte b).
Proof. intros H. check_bytes b H. Qed.
Lemma ft2_at b : is_byte b -> (FT2 T).[b] = ft_word 1 3 2 1 (sub_byte b).
Proof. intros H. check_bytes b H. Qed.
Lemma ft3_at b : is_byte b -> (FT3 T).[b] = ft_word 1 1 3 2 (sub_byte b).
Proof. intros H. check_bytes b H. Qed.

Lemma rt0_at b : is_byte b -> (RT0 T).[b] = ft_word 0x0E 0x09 0x0D 0x0B (inv_sub_byte b).
Proof. intros H. check_bytes b H. Qed.
Lemma rt1_at b : is_byte b -> (RT1 T).[b] = ft_word 0x0B 0x0E 0x09 0x0D (inv_sub_byte b).
Proof. intros H. check_bytes b H. Qed.
Lemma rt2_at b : is_byte b -> (RT2 T).[b] = ft_word 0x0D 0x0B 0x0E 0x09 (inv_sub_byte b).
Proof. intros H. check_bytes b H. Qed.
Lemma rt3_at b : is_byte b -> (RT3 T).[b] = ft_word 0x09 0x0D 0x0B 0x0E (inv_sub_byte b).
Proof. intros H. check_bytes b H. Qed.

(** ** Words and their octets *)

(** The word made of the first four octets of a list. *)
Definition pack4 (l : list Z) : Z := le32 l.[0] l.[1] l.[2] l.[3].

(** The four words of a block. *)
Definition pack (s : list Z) : Z * Z * Z * Z :=
  (le32 s.[0] s.[1] s.[2] s.[3], le32 s.[4] s.[5] s.[6] s.[7],
   le32 s.[8] s.[9] s.[10] s.[11], le32 s.[12] s.[13] s.[14] s.[15]).

Lemma pack4_put w : is_u32 w -> pack4 (PUT_UINT32_LE w) = w.
Proof. intros H. apply (le32_of_u32 w H). Qed.

Lemma put_le32 a b c d :
  is_byte a -> is_byte b -> is_byte c -> is_byte d -> PUT_UINT32_LE (le32 a b c d) = [a; b; c; d].
Proof.
  intros. unfold PUT_UINT32_LE.
  rewrite le32_byte0, le32_byte1, le32_byte2, le32_byte3 by done. done.
Qed.

Lemma put_bytes w : bytes (PUT_UINT32_LE w).
Proof. repeat (apply Forall_cons_2; [apply to_u8_range|]). apply Forall_nil_2. Qed.

Lemma store_pack s : block s -> store_block (pack s) = s.
Proof.
  intros H. open_block s H. unfold store_block, pack. run_idx.
  rewrite !put_le32 by done. done.
Qed.

(** ** One column of a round *)

(** A round-key word xored with four table entries is the circulant image of
    the column, plus the key. *)
Lemma column_words m0 m1 m2 m3 k a b c d :
  is_u32 k -> is_byte a -> is_byte b -> is_byte c -> is_byte d ->
  k .^ ft_word m0 m3 m2 m1 a .^ ft_word m1 m0 m3 m2 b
    .^ ft_word m2 m1 m0 m3 c .^ ft_word m3 m2 m1 m0 d
  = pack4 (xor_bytes (circulant m0 m1 m2 m3 a b c d) (PUT_UINT32_LE k)).
Proof.
  intros Hk Ha Hb Hc Hd. rewrite <- (pack4_put k Hk) at 1.
  unfold PUT_UINT32_LE, circulant, pack4, ft_word.
  cbv [xor_bytes zip_with]. run_idx.
  assert (forall x, is_byte (x .& 255)) as Hm by apply to_u8_range.
  rewrite !le32_lxor by auto 8 with widths.
  f_equal; bool_ext.
Qed.

(** The same for the last round, which goes through the S-box. *)
Lemma column_bytes k a b c d :
  is_u32 k -> is_byte a -> is_byte b -> is_byte c -> is_byte d ->
  k .^ a .^ (b << 8) .^ (c << 16) .^ (d << 24)
  = pack4 (xor_bytes [a; b; c; d] (PUT_UINT32_LE k)).
Proof.
  intros Hk Ha Hb Hc Hd.
  replace (k .^ a .^ (b << 8) .^ (c << 16) .^ (d << 24))
    with (k .^ le32 a b c d) by (rewrite le32_xor_form by done; bool_ext).
  rewrite <- (pack4_put k Hk) at 1. unfold PUT_UINT32_LE, pack4.
  cbv [xor_bytes zip_with]. run_idx.
  assert (forall x, is_byte (x .& 255)) as Hm by apply to_u8_range.
  rewrite le32_lxor by auto with widths. f_equal; apply Z.lxor_comm.
Qed.

(** ** Rounds *)

(** The 16 octets of the round key at word [p]. *)
Definition rk_bytes (RK : list Z) (p : Z) : list Z :=
  PUT_UINT32_LE RK.[p] ++ PUT_UINT32_LE RK.[p + 1]
  ++ PUT_UINT32_LE RK.[p + 2] ++ PUT_UINT32_LE RK.[p + 3].

Lemma block_rk RK p : block (rk_bytes RK p).
Proof. split; [done|]. repeat apply Forall_app_2; apply put_bytes. Qed.

#[export] Hint Resolve block_rk : bufs.

Lemma pack_app l0 l1 l2 l3 :
  length l0 = 4%nat -> length l1 = 4%nat -> length l2 = 4%nat -> length l3 = 4%nat ->
  pack (l0 ++ l1 ++ l2 ++ l3) = (pack4 l0, pack4 l1, pack4 l2, pack4 l3).
Proof.
  intros H0 H1 H2 H3.
  destruct l0 as [|? [|? [|? [|? [|]]]]]; try discriminate H0.
  destruct l1 as [|? [|? [|? [|? [|]]]]]; try discriminate H1.
  destruct l2 as [|? [|? [|? [|? [|]]]]]; try discriminate H2.
  destruct l3 as [|? [|? [|? [|? [|]]]]]; try discriminate H3.
  reflexivity.
Qed.

(** The words of a block made of four columns, a round key added. *)
Lemma pack_add_key c0 c1 c2 c3 RK p :
  length c0 = 4%nat -> length c1 = 4%nat -> length c2 = 4%nat -> length c3 = 4%nat ->
  pack (add_round_key (c0 ++ c1 ++ c2 ++ c3) (rk_bytes RK p))
  = (pack4 (xor_bytes c0 (PUT_UINT32_LE RK.[p])), pack4 (xor_bytes c1 (PUT_UINT32_LE RK.[p + 1])),
     pack4 (xor_bytes c2 (PUT_UINT32_LE RK.[p + 2])), pack4 (xor_bytes c3 (PUT_UINT32_LE RK.[p + 3]))).
Proof.
  intros H0 H1 H2 H3. unfold add_round_key, rk_bytes.
  rewrite !xor_bytes_app by done.
  rewrite pack_app; rewrite ?length_xor_bytes, ?H0, ?H1, ?H2, ?H3; done.
Qed.

Lemma pack_eq b0 b1 b2 b3 b4 b5 b6 b7 b8 b9 b10 b11 b12 b13 b14 b15 :
  pack [b0; b1; b2; b3; b4; b5; b6; b7; b8; b9; b10; b11; b12; b13; b14; b15]
  = (le32 b0 b1 b2 b3, le32 b4 b5 b6 b7, le32 b8 b9 b10 b11, le32 b12 b13 b14 b15).
Proof. reflexivity. Qed.

(** Reads the octets of the four words and looks them up in the tables. *)
Ltac look_up :=
  rewrite ?le32_byte0, ?le32_byte1, ?le32_byte2, ?le32_byte3 by done;
  rewrite ?ft0_at, ?ft1_at, ?ft2_at, ?ft3_at, ?rt0_at, ?rt1_at, ?rt2_at, ?rt3_at,
    ?fsb_at, ?rsb_at by done.

Lemma fround_correct RK p s :
  words RK -> block s ->
  AES_FROUND T RK p (pack s)
  = pack (add_round_key (mix_columns (shift_rows (sub_bytes s))) (rk_bytes RK p)).
Proof.
  intros HRK H. open_block s H.
  cbv [sub_bytes map]. rewrite shift_rows_eq. unfold mix_columns, on_columns. run_idx.
  rewrite pack_add_key by done. rewrite pack_eq. unfold AES_FROUND. look_up.
  unfold mix_column. rewrite !column_words by auto with widths bufs. done.
Qed.

Lemma last_fround_correct RK p s :
  words RK -> block s ->
  last_fround T RK p (pack s)
  = pack (add_round_key (shift_rows (sub_bytes s)) (rk_bytes RK p)).
Proof.
  intros HRK H. open_block s H.
  cbv [sub_bytes map]. rewrite shift_rows_eq.
  change (pack (add_round_key [?a; ?b; ?c; ?d; ?e; ?f; ?g; ?h; ?i; ?j; ?k; ?l; ?m; ?n; ?o; ?q] ?r))
    with (pack (add_round_key ([a; b; c; d] ++ [e; f; g; h] ++ [i; j; k; l] ++ [m; n; o; q]) r)).
  rewrite pack_add_key by done. rewrite pack_eq. unfold last_fround. look_up.
  rewrite !column_bytes by auto with widths bufs. done.
Qed.

Lemma rround_correct RK p s :
  words RK -> block s ->
  AES_RROUND T RK p (pack s)
  = pack (add_round_key (inv_mix_columns (inv_sub_bytes (inv_shift_rows s))) (rk_bytes RK p)).
Proof.
  intros HRK H. open_block s H.
  rewrite inv_shift_rows_eq. cbv [inv_sub_bytes map].
  unfold inv_mix_columns, on_columns. run_idx.
  rewrite pack_add_key by done. rewrite pack_eq. unfold AES_RROUND. look_up.
  unfold inv_mix_column. rewrite !column_words by auto with widths bufs. done.
Qed.

Lemma last_rround_correct RK p s :
  words RK -> block s ->
  last_rround T RK p (pack s)
  = pack (add_round_key (inv_sub_bytes (inv_shift_rows s)) (rk_bytes RK p)).
Proof.
  intros HRK H. open_block s H.
  rewrite inv_shift_rows_eq. cbv [inv_sub_bytes map].
  change (pack (add_round_key [?a; ?b; ?c; ?d; ?e; ?f; ?g; ?h; ?i; ?j; ?k; ?l; ?m; ?n; ?o; ?q] ?r))
    with (pack (add_round_key ([a; b; c; d] ++ [e; f; g; h] ++ [i; j; k; l] ++ [m; n; o; q]) r)).
  rewrite pack_add_key by done. rewrite pack_eq. unfold last_rround. look_up.
  rewrite !column_bytes by auto with widths bufs. done.
Qed.

Lemma load_block_correct RK s :
  words RK -> block s -> load_block RK s = pack (add_round_key s (rk_bytes RK 0)).
Proof.
  intros HRK H. open_block s H. unfold load_block.
  change (add_round_key [?a; ?b; ?c; ?d; ?e; ?f; ?g; ?h; ?i; ?j; ?k; ?l; ?m; ?n; ?o; ?q] ?r)
    with (add_round_key ([a; b; c; d] ++ [e; f; g; h] ++ [i; j; k; l] ++ [m; n; o; q]) r).
  rewrite pack_add_key by done. rewrite <- !column_bytes by auto with bufs.
  change (GET_UINT32_LE (b :: ?l) 0) with (le32 b b0 b1 b2).
  change (GET_UINT32_LE (b :: ?l) 4) with (le32 b3 b4 b5 b6).
  change (GET_UINT32_LE (b :: ?l) 8) with (le32 b7 b8 b9 b10).
  change (GET_UINT32_LE (b :: ?l) 12) with (le32 b11 b12 b13 b14).
  change (0 + 1) with 1. change (0 + 2) with 2. change (0 + 3) with 3.
  rewrite !le32_xor_form by done.
  repeat apply (f_equal2 pair); bool_ext.
Qed.

(** ** Whole blocks, over any schedule *)

(** The round keys a context holds, by round. *)
Definition ctx_rk (RK : list Z) (r : nat) : list Z := rk_bytes RK (4 * Z.of_nat r).

Section Rounds.
Context (rnd : list Z -> Z -> Z * Z * Z * Z -> Z * Z * Z * Z).
Context (RK : list Z) (step : nat -> list Z -> list Z).
Hypothesis rnd_ok :
  forall r s, block s ->
  rnd RK (4 * Z.of_nat r) (pack s) = pack (step r s) /\ block (step r s).

(** Rounds [r], [r + 1], ..., [r + n - 1]. *)
Fixpoint iter_rounds (n r : nat) (s : list Z) : list Z :=
  match n with O => s | S n => iter_rounds n (S r) (step r s) end.

Lemma block_iter_rounds n r s : block s -> block (iter_rounds n r s).
Proof.
  revert r s. induction n as [|n IH]; intros r s H; [done|]. by apply IH, rnd_ok.
Qed.

Lemma iter_rounds_snoc n r s : iter_rounds (S n) r s = step (r + n) (iter_rounds n r s).
Proof.
  revert r s. induction n as [|n IH]; intros r s; [by rewrite Nat.add_0_r|].
  change (iter_rounds (S (S n)) r s) with (iter_rounds (S n) (S r) (step r s)).
  rewrite IH. replace (S r + n)%nat with (r + S n)%nat by lia. done.
Qed.

(** The loop of double rounds runs [2 n] single rounds and leaves the
    round-key pointer behind them. *)
Lemma double_rounds_correct n r i s :
  block s ->
  for_up n i (fun _ '(p, X) => (p + 8, rnd RK (p + 4) (rnd RK p X))) (4 * Z.of_nat r, pack s)
  = (4 * Z.of_nat (r + 2 * n), pack (iter_rounds (2 * n) r s)).
Proof.
  revert r i s. induction n as [|n IH]; intros r i s H.
  { simpl. by rewrite Nat.add_0_r. }
  cbn [for_up]. destruct (rnd_ok r s H) as [E1 B1]. rewrite E1.
  replace (4 * Z.of_nat r + 4) with (4 * Z.of_nat (S r)) by lia.
  destruct (rnd_ok (S r) _ B1) as [E2 B2]. rewrite E2.
  replace (4 * Z.of_nat r + 8) with (4 * Z.of_nat (r + 2)) by lia.
  rewrite IH by done.
  replace (r + 2 + 2 * n)%nat with (r + 2 * S n)%nat by lia.
  replace (2 * S n)%nat with (S (S (2 * n))) by lia.
  replace (r + 2)%nat with (S (S r)) by lia. done.
Qed.
End Rounds.

Lemma iter_rounds_rounds rk n r s : iter_rounds (round rk) n r s = rounds rk n r s.
Proof. revert r s. induction n as [|n IH]; intros; [done|]. apply IH. Qed.

(** The number of turns of the main loop for [Nr = 2 (m + 1)] rounds. *)
Lemma turns m : Z.to_nat ((2 * Z.of_nat (S m) >> 1) - 1) = m.
Proof. rewrite Z.shiftr_div_pow2, Z.mul_comm by lia. change (2 ^ 1) with 2. rewrite Z.div_mul; lia. Qed.

(** [mbedtls_internal_aes_encrypt] runs the [Cipher] of the standard on the
    round keys the context holds. *)
Lemma encrypt_cipher ctx m s :
  nr ctx = 2 * Z.of_nat (S m) -> words (buf ctx) -> block s ->
  mbedtls_internal_aes_encrypt T ctx s = cipher (ctx_rk (buf ctx)) (2 * S m) s.
Proof.
  intros Hnr HRK Hs. unfold mbedtls_internal_aes_encrypt, double_rounds.
  rewrite Hnr, turns, load_block_correct by done.
  set (RK := buf ctx) in *. set (s0 := add_round_key s (rk_bytes RK 0)).
  assert (block s0) as Hs0 by (subst s0; unfold add_round_key; auto with bufs).
  assert (forall r s, block s -> AES_FROUND T RK (4 * Z.of_nat r) (pack s) = pack (round (ctx_rk RK) r s)
          /\ block (round (ctx_rk RK) r s)) as Hrnd.
  { intros r t Ht. split; [by apply fround_correct|].
    apply block_round; [|done]. intros ?. apply block_rk. }
  change (4, pack s0) with (4 * Z.of_nat 1, pack s0).
  rewrite (double_rounds_correct _ _ _ Hrnd) by done.
  set (n := (1 + 2 * m)%nat).
  pose proof (block_iter_rounds _ _ _ Hrnd (2 * m) 1 s0 Hs0) as Hb.
  destruct (Hrnd n _ Hb) as [-> Hb'].
  replace (4 * Z.of_nat n + 4) with (4 * Z.of_nat (2 * S m)) by lia.
  rewrite last_fround_correct, store_pack by (unfold add_round_key; auto with bufs).
  unfold cipher. rewrite iter_rounds_rounds.
  replace (2 * S m - 1)%nat with (S (2 * m)) by lia.
  rewrite rounds_snoc. done.
Qed.

(** [mbedtls_internal_aes_decrypt] runs [InvCipher] on the schedule [rk] when
    the context holds [rk] reversed, its middle keys through [InvMixColumns]
    (the equivalent inverse cipher of the standard). *)
Section Decrypt.
Context (rk : nat -> list Z) (Hrk : forall r, block (rk r)).
Context (RK : list Z) (HRK : words RK) (Nr : nat).
Hypothesis (Hfirst : ctx_rk RK 0 = rk Nr) (Hlast : ctx_rk RK Nr = rk 0%nat).
Hypothesis Hmid :
  forall j, (0 < j < Nr)%nat -> ctx_rk RK j = inv_mix_columns (rk (Nr - j)%nat).

Definition rstep (r : nat) (s : list Z) : list Z :=
  add_round_key (inv_mix_columns (inv_sub_bytes (inv_shift_rows s))) (ctx_rk RK r).

Lemma rstep_ok r s :
  block s ->
  AES_RROUND T RK (4 * Z.of_nat r) (pack s) = pack (rstep r s) /\ block (rstep r s).
Proof.
  intros Hs. split; [by apply rround_correct|].
  unfold rstep, add_round_key, ctx_rk. auto 6 with bufs.
Qed.

Lemma rstep_inv_round r s :
  (0 < r < Nr)%nat -> block s -> rstep r s = inv_round rk (Nr - r) s.
Proof.
  intros Hr Hs. unfold rstep, inv_round, add_round_key.
  rewrite Hmid, inv_mix_xor by auto with bufs. done.
Qed.

Lemma iter_rstep n r s :
  (0 < r)%nat -> (n + r = Nr)%nat -> block s ->
  iter_rounds rstep n r s = inv_rounds rk n s.
Proof.
  revert r s. induction n as [|n IH]; intros r s Hr Hn Hs; [done|].
  rewrite inv_rounds_S. cbn [iter_rounds].
  rewrite IH by (try lia; by apply rstep_ok).
  rewrite rstep_inv_round by (done || lia). by replace (Nr - r)%nat with (S n) by lia.
Qed.
End Decrypt.

Lemma decrypt_inv_cipher ctx m rk s :
  nr ctx = 2 * Z.of_nat (S m) -> words (buf ctx) -> block s ->
  (forall r, block (rk r)) ->
  ctx_rk (buf ctx) 0 = rk (2 * S m)%nat -> ctx_rk (buf ctx) (2 * S m) = rk 0%nat ->
  (forall j, (0 < j < 2 * S m)%nat ->
     ctx_rk (buf ctx) j = inv_mix_columns (rk (2 * S m - j)%nat)) ->
  mbedtls_internal_aes_decrypt T ctx s = inv_cipher rk (2 * S m) s.
Proof.
  intros Hnr HRK Hs Hrk Hf Hl Hm. unfold mbedtls_internal_aes_decrypt, double_rounds.
  rewrite Hnr, turns, load_block_correct by done.
  set (RK := buf ctx) in *. set (s0 := add_round_key s (rk_bytes RK 0)).
  assert (block s0) as Hs0 by (subst s0; unfold add_round_key; auto with bufs).
  pose proof (rstep_ok RK HRK) as Hrnd.
  change (4, pack s0) with (4 * Z.of_nat 1, pack s0).
  rewrite (double_rounds_correct _ _ _ Hrnd) by done.
  set (n := (1 + 2 * m)%nat).
  pose proof (block_iter_rounds _ _ _ Hrnd (2 * m) 1 s0 Hs0) as Hb.
  destruct (Hrnd n _ Hb) as [-> Hb'].
  replace (4 * Z.of_nat n + 4) with (4 * Z.of_nat (2 * S m)) by lia.
  rewrite last_rround_correct, store_pack by (unfold add_round_key; auto 6 with bufs).
  subst n. rewrite <- (iter_rounds_snoc (rstep RK) (2 * m) 1 s0).
  rewrite (iter_rstep rk Hrk RK HRK (2 * S m)) by (done || lia).
  unfold inv_cipher. fold (ctx_rk RK (2 * S m)).
  rewrite Hl. replace (2 * S m - 1)%nat with (S (2 * m)) by lia.
  subst s0. by rewrite <- Hf.
Qed.

(** ** The encryption key schedule *)

Definition word4 (w : list Z) : Prop := length w = 4%nat /\ bytes w.

Ltac open_word w H :=
  let L := fresh "L" in
  let B := fresh "B" in
  destruct H as [L B];
  do 4 (let x := fresh "a" in destruct w as [|x w]; [discriminate L|]);
  destruct w; [|discriminate L]; clear L;
  do 4 (let H := fresh "Ha" in apply Forall_cons_1 in B; destruct B as [H B]); clear B.

Lemma word4_xor a b : word4 a -> word4 b -> word4 (xor_bytes a b).
Proof.
  intros [La Ba] [Lb Bb]. split; [|by apply bytes_xor].
  by rewrite length_xor_bytes, La, Lb.
Qed.

Lemma word4_sub_rot w : word4 w -> word4 (sub_word (rot_word w)).
Proof. intros H. open_word w H. split; [done|]. repeat (apply Forall_cons_2; [auto with widths|]). apply Forall_nil_2. Qed.

Lemma word4_sub w : word4 w -> word4 (sub_word w).
Proof. intros H. open_word w H. split; [done|]. repeat (apply Forall_cons_2; [auto with widths|]). apply Forall_nil_2. Qed.

Lemma word4_round_constant i : word4 (round_constant i).
Proof.
  split; [done|]. unfold round_constant. apply Forall_cons_2; [|repeat (apply Forall_cons_2; [apply byte_0|]); apply Forall_nil_2].
  destruct (i - 1)%nat; [unfold is_byte; simpl; lia|]. apply xtime_byte.
Qed.

#[export] Hint Resolve word4_xor word4_sub_rot word4_sub word4_round_constant : bufs.

Lemma pack4_eq a b c d : pack4 [a; b; c; d] = le32 a b c d.
Proof. reflexivity. Qed.

Lemma pack4_xor a b : word4 a -> word4 b -> pack4 (xor_bytes a b) = pack4 a .^ pack4 b.
Proof.
  intros Ha Hb. open_word a Ha. open_word b Hb. unfold pack4. cbv [xor_bytes zip_with]. run_idx.
  by rewrite le32_lxor.
Qed.

Lemma pack4_u32 w : word4 w -> is_u32 (pack4 w).
Proof. intros H. open_word w H. by apply le32_range. Qed.

Lemma put_pack4 w : word4 w -> PUT_UINT32_LE (pack4 w) = w.
Proof. intros H. open_word w H. unfold pack4. run_idx. by apply put_le32. Qed.

Lemma fsb_rot_pack4 w : word4 w -> fsb_rot T (pack4 w) = pack4 (sub_word (rot_word w)).
Proof.
  intros H. open_word w H. unfold sub_word, rot_word. cbv [map]. rewrite !pack4_eq. unfold fsb_rot.
  look_up. rewrite <- le32_xor_form by auto with widths. done.
Qed.

Lemma fsb_word_pack4 w : word4 w -> fsb_word T (pack4 w) = pack4 (sub_word w).
Proof.
  intros H. open_word w H. unfold sub_word. cbv [map]. rewrite !pack4_eq. unfold fsb_word.
  look_up. rewrite <- le32_xor_form by auto with widths. done.
Qed.

Lemma rcon_at i : (i < 10)%nat -> (RCON T).[Z.of_nat i] = pack4 (round_constant (S i)).
Proof. intros H. do 10 (destruct i as [|i]; [reflexivity|]). lia. Qed.

(** The expansion, word by word. *)
Lemma expand_snoc Nk n ws :
  expand Nk (S n) ws = expand Nk n ws ++ [next_word Nk (expand Nk n ws)].
Proof.
  revert ws. induction n as [|n IH]; intros ws; [done|].
  change (expand Nk (S (S n)) ws) with (expand Nk (S n) (ws ++ [next_word Nk ws])).
  by rewrite IH.
Qed.

Lemma length_expand Nk n ws : length (expand Nk n ws) = (length ws + n)%nat.
Proof.
  revert ws. induction n as [|n IH]; intros ws; [simpl; lia|].
  simpl. rewrite IH, length_app. simpl. lia.
Qed.

Section Schedule.
Context (Nk : nat) (kw : list (list Z)).
Hypotheses (HNk : (0 < Nk)%nat) (Hkw : length kw = Nk) (Hbkw : Forall word4 kw).

(** The first [L] words of the schedule, and word [j]. *)
Definition W (L : nat) : list (list Z) := expand Nk (L - Nk) kw.
Definition w (j : nat) : list Z := nth j (W (S j `max` Nk)) [].

Lemma length_W L : (Nk <= L)%nat -> length (W L) = L.
Proof. intros H. unfold W. rewrite length_expand. lia. Qed.

Lemma W_S L : (Nk <= L)%nat -> W (S L) = W L ++ [next_word Nk (W L)].
Proof. intros H. unfold W. rewrite Nat.sub_succ_l by done. apply expand_snoc. Qed.

Lemma nth_W L j : (Nk <= L)%nat -> (j < L)%nat -> nth j (W L) [] = w j.
Proof.
  intros HL Hj. unfold w. induction L as [|L IH]; [lia|].
  destruct (decide (Nk = S L)) as [->|]; [by replace (S j `max` S L)%nat with (S L) by lia|].
  destruct (decide (j = L)) as [->|].
  { by replace (S L `max` Nk)%nat with (S L) by lia. }
  rewrite W_S, app_nth1 by (rewrite ?length_W; lia). apply IH; lia.
Qed.

Lemma next_word_W L :
  (Nk <= L)%nat ->
  next_word Nk (W L)
  = xor_bytes (w (L - Nk))
      (if (L mod Nk =? 0)%nat then xor_bytes (sub_word (rot_word (w (L - 1)))) (round_constant (L / Nk))
       else if (6 <? Nk)%nat && (L mod Nk =? 4)%nat then sub_word (w (L - 1)) else w (L - 1)).
Proof.
  intros HL. unfold next_word. rewrite length_W by done. rewrite !nth_W by lia. done.
Qed.

Lemma word4_W L : (Nk <= L)%nat -> Forall word4 (W L).
Proof.
  intros HL. induction L as [|L IH]; [lia|].
  destruct (decide (Nk = S L)) as [E|].
  { unfold W. rewrite E, Nat.sub_diag. done. }
  assert (Nk <= L)%nat as HL' by lia. specialize (IH HL').
  assert (forall j, (j < L)%nat -> word4 (w j)) as Hw.
  { intros j Hj. rewrite <- (nth_W L) by done.
    rewrite List.Forall_forall in IH. apply IH, nth_In. by rewrite length_W. }
  rewrite W_S by done. apply Forall_app_2; [done|]. apply Forall_cons_2; [|apply Forall_nil_2].
  rewrite next_word_W by done. apply word4_xor; [apply Hw; lia|].
  destruct (_ =? 0)%nat; [|destruct (_ && _)]; auto with bufs lia.
Qed.

Lemma word4_w j : word4 (w j).
Proof.
  unfold w. pose proof (word4_W (S j `max` Nk)) as H.
  rewrite List.Forall_forall in H. apply H, nth_In; rewrite ?length_W; lia.
Qed.

(** The first [L] words of the context's buffer are those of the schedule. *)
Definition filled (L : nat) (RK : list Z) : Prop :=
  length RK = 68%nat /\ take L RK = map pack4 (W L).

Lemma filled_rd L RK j :
  filled L RK -> (Nk <= L)%nat -> (j < L)%nat -> RK.[Z.of_nat j] = pack4 (w j).
Proof.
  intros [HR HT] HL Hj. unfold rd. rewrite Nat2Z.id.
  rewrite <- (take_drop L RK), app_nth1 by (rewrite length_take; pose proof (length_W L HL);
    apply (f_equal length) in HT; rewrite length_take, length_map in HT; lia).
  rewrite HT. rewrite (nth_indep _ 0 (pack4 [])) by (rewrite length_map, length_W; lia).
  by rewrite map_nth, nth_W.
Qed.

Lemma filled_next L RK v :
  filled L RK -> (Nk <= L < 68)%nat -> v = pack4 (next_word Nk (W L)) ->
  filled (S L) (upd RK (Z.of_nat L) v).
Proof.
  intros [HR HT] HL ->. unfold upd. rewrite Nat2Z.id. split; [by rewrite length_insert|].
  rewrite W_S, map_app by lia. simpl.
  rewrite (take_S_r _ _ (pack4 (next_word Nk (W L)))) by (apply list_lookup_insert_eq; lia).
  by rewrite take_insert_ge, HT by lia.
Qed.

(** The three forms of assignment of the schedule loops. *)
Lemma step_rot L RK idx a b i :
  filled L RK -> (Nk <= L < 68)%nat -> (L mod Nk = 0)%nat -> (L / Nk <= 10)%nat ->
  idx = Z.of_nat L -> a = idx - Z.of_nat Nk -> b = idx - 1 -> i = Z.of_nat (L / Nk) - 1 ->
  filled (S L) (upd RK idx (RK.[a] .^ (RCON T).[i] .^ fsb_rot T RK.[b])).
Proof.
  intros HF HL Hm Hd -> -> -> ->. apply filled_next; [done..|].
  assert (1 <= L / Nk)%nat as H1 by (apply Nat.div_le_lower_bound; lia).
  replace (Z.of_nat L - Z.of_nat Nk) with (Z.of_nat (L - Nk)) by lia.
  replace (Z.of_nat L - 1) with (Z.of_nat (L - 1)) by lia.
  replace (Z.of_nat (L / Nk) - 1) with (Z.of_nat (L / Nk - 1)) by lia.
  rewrite !(filled_rd L RK) by (done || lia). rewrite rcon_at by lia.
  rewrite fsb_rot_pack4 by apply word4_w. rewrite next_word_W by lia.
  rewrite (proj2 (Nat.eqb_eq _ _) Hm).
  rewrite !pack4_xor by auto using word4_w with bufs.
  replace (S (L / Nk - 1)) with (L / Nk)%nat by lia. bool_ext.
Qed.

Lemma step_plain L RK idx a b :
  filled L RK -> (Nk <= L < 68)%nat -> (L mod Nk <> 0)%nat ->
  (Nk <= 6 \/ L mod Nk <> 4)%nat ->
  idx = Z.of_nat L -> a = idx - Z.of_nat Nk -> b = idx - 1 ->
  filled (S L) (upd RK idx (RK.[a] .^ RK.[b])).
Proof.
  intros HF HL Hm Hs -> -> ->. apply filled_next; [done..|].
  replace (Z.of_nat L - Z.of_nat Nk) with (Z.of_nat (L - Nk)) by lia.
  replace (Z.of_nat L - 1) with (Z.of_nat (L - 1)) by lia.
  rewrite !(filled_rd L RK) by (done || lia). rewrite next_word_W by lia.
  rewrite (proj2 (Nat.eqb_neq _ _) Hm).
  replace ((6 <? Nk) && (L mod Nk =? 4))%nat with false.
  - by rewrite pack4_xor by apply word4_w.
  - symmetry. apply andb_false_iff. rewrite Nat.ltb_ge, Nat.eqb_neq. done.
Qed.

Lemma step_sub L RK idx a b :
  filled L RK -> (Nk <= L < 68)%nat -> (6 < Nk)%nat -> (L mod Nk = 4)%nat ->
  idx = Z.of_nat L -> a = idx - Z.of_nat Nk -> b = idx - 1 ->
  filled (S L) (upd RK idx (RK.[a] .^ fsb_word T RK.[b])).
Proof.
  intros HF HL HN Hm -> -> ->. apply filled_next; [done..|].
  replace (Z.of_nat L - Z.of_nat Nk) with (Z.of_nat (L - Nk)) by lia.
  replace (Z.of_nat L - 1) with (Z.of_nat (L - 1)) by lia.
  rewrite !(filled_rd L RK) by (done || lia). rewrite next_word_W, Hm by lia.
  rewrite fsb_word_pack4 by apply word4_w. rewrite (proj2 (Nat.ltb_lt _ _) HN). simpl.
  by rewrite pack4_xor by auto using word4_w with bufs.
Qed.
End Schedule.

(** *** The buffer stays a buffer of 32-bit words *)

Lemma words_upd RK i v : words RK -> is_u32 v -> words (upd RK i v).
Proof. intros H Hv. unfold upd. by apply Forall_insert. Qed.

Lemma words_for_up n i (f : Z -> list Z -> list Z) RK :
  (forall i RK, words RK -> words (f i RK)) -> words RK -> words (for_up n i f RK).
Proof. intros Hf. revert i RK. induction n as [|n IH]; intros i RK H; [done|]. apply IH, Hf, H. Qed.

Lemma fsb_byte x : is_byte (FSb T).[x .& 0xFF].
Proof. rewrite fsb_at by apply to_u8_range. apply sub_byte_byte, to_u8_range. Qed.

Lemma fsb_rot_u32 x : is_u32 (fsb_rot T x).
Proof. unfold fsb_rot. rewrite <- le32_xor_form by apply fsb_byte. apply le32_range; apply fsb_byte. Qed.

Lemma fsb_word_u32 x : is_u32 (fsb_word T x).
Proof. unfold fsb_word. rewrite <- le32_xor_form by apply fsb_byte. apply le32_range; apply fsb_byte. Qed.

Lemma rcon_u32 i : is_u32 (RCON T).[i].
Proof. apply words_rd. repeat (apply Forall_cons_2; [unfold is_u32; lia|]). apply Forall_nil_2. Qed.

Lemma get_u32 b i : bytes b -> is_u32 (GET_UINT32_LE b i).
Proof. intros H. apply le32_range; auto with bufs. Qed.

#[export] Hint Resolve words_upd fsb_rot_u32 fsb_word_u32 rcon_u32 get_u32 : bufs.

(** Names the intermediate buffers of a chain of assignments, innermost
    first, and carries the property [P] along. *)
Ltac name_updates P tac :=
  repeat match goal with
  | |- context [upd ?l ?i ?v] =>
      is_var l;
      let H := fresh "Hupd" in
      let r := fresh "RK" in
      assert (P (upd l i v)) as H by tac;
      set (r := upd l i v) in *; clearbody r
  end.

Lemma expand_key_words nr keybits key RK :
  bytes key -> words RK -> words (expand_key T nr keybits key RK).
Proof.
  intros Hk H. unfold expand_key.
  set (RK' := for_up _ 0 _ RK).
  assert (words RK') by (apply words_for_up; auto with bufs).
  repeat case_match; try apply words_for_up; try done; intros i l Hl;
    unfold setkey_enc_10, setkey_enc_12, setkey_enc_14;
    name_updates (Forall is_u32) ltac:(auto 8 with bufs widths); done.
Qed.

(** *** Loading the key *)

Lemma get_slice key i :
  GET_UINT32_LE key (Z.of_nat i << 2) = pack4 (slice (4 * i) 4 key).
Proof.
  unfold pack4, GET_UINT32_LE, le32.
  rewrite !(rd_slice _ _ _ 0), (rd_slice _ _ _ 1), (rd_slice _ _ _ 2), (rd_slice _ _ _ 3) by lia.
  rewrite Z.shiftl_mul_pow2 by lia.
  replace (Z.of_nat i * 2 ^ 2) with (Z.of_nat (4 * i + 0)) by lia.
  replace (Z.of_nat (4 * i + 0) + 1) with (Z.of_nat (4 * i + 1)) by lia.
  replace (Z.of_nat (4 * i + 0) + 2) with (Z.of_nat (4 * i + 2)) by lia.
  replace (Z.of_nat (4 * i + 0) + 3) with (Z.of_nat (4 * i + 3)) by lia. done.
Qed.

Lemma load_key n key RK :
  length RK = 68%nat -> (n <= 68)%nat ->
  let RK' := for_up n 0 (fun i RK => upd RK i (GET_UINT32_LE key (i << 2))) RK in
  length RK' = 68%nat /\ take n RK' = map pack4 (key_words n key).
Proof.
  intros HR Hn.
  assert (forall m i RK, length RK = 68%nat -> (i + m <= 68)%nat ->
    take i RK = map pack4 (key_words i key) ->
    let RK' := for_up m (Z.of_nat i) (fun i RK => upd RK i (GET_UINT32_LE key (i << 2))) RK in
    length RK' = 68%nat /\ take (i + m) RK' = map pack4 (key_words (i + m) key)) as G.
  { induction m as [|m IH]; intros i l Hl Hi Ht; [by rewrite Nat.add_0_r|].
    cbn [for_up]. replace (Z.of_nat i + 1) with (Z.of_nat (S i)) by lia.
    replace (i + S m)%nat with (S i + m)%nat by lia. apply IH.
    - unfold upd. by rewrite length_insert.
    - lia.
    - unfold upd, key_words. rewrite Nat2Z.id, seq_S, !map_app. simpl.
      rewrite (take_S_r _ _ (GET_UINT32_LE key (Z.of_nat i << 2))) by (apply list_lookup_insert_eq; lia).
      rewrite take_insert_ge, Ht, get_slice by lia. done. }
  apply (G n 0%nat RK); simpl; auto.
Qed.

Lemma word4_key_words Nk key :
  bytes key -> (4 * Nk <= length key)%nat -> Forall word4 (key_words Nk key).
Proof.
  intros Hb Hl. unfold key_words. apply Forall_fmap_2 || apply List.Forall_map.
  apply List.Forall_forall. intros i Hi. apply in_seq in Hi. split.
  - unfold slice. rewrite length_take, length_drop. lia.
  - unfold slice. by apply Forall_take, Forall_drop.
Qed.

(** *** The three expansion loops *)

#[local] Ltac Zify.zify_post_hook ::= Z.div_mod_to_equations.

Section Loops.
Context (Nk : nat) (kw : list (list Z)).
Hypotheses (Hkw : length kw = Nk) (Hbkw : Forall word4 kw).

(** Applies the assignment lemma that fits, innermost assignment first. *)
Ltac sched_steps :=
  repeat match goal with
  | HF : filled _ _ ?L ?l |- context [upd ?l ?i ?v] =>
      let H := fresh "HF" in
      let r := fresh "RK" in
      assert (filled Nk kw (S L) (upd l i v)) as H
        by (first [ eapply (step_rot Nk kw) | eapply (step_plain Nk kw) | eapply (step_sub Nk kw) ];
            try exact HF; try done; match goal with E : Nk = _ |- _ => rewrite ?E end; lia);
      set (r := upd l i v) in *; clearbody r; clear HF; rename H into HF
  end.

Lemma setkey_enc_10_filled i RK :
  Nk = 4%nat -> (i < 10)%nat -> filled Nk kw (4 * S i) RK ->
  filled Nk kw (4 * S (S i)) (setkey_enc_10 T (Z.of_nat i) RK).
Proof.
  intros HNk Hi HF. unfold setkey_enc_10. sched_steps.
  by replace (4 * S (S i))%nat with (S (S (S (S (4 * S i)))))%nat by lia.
Qed.

Lemma setkey_enc_12_filled i RK :
  Nk = 6%nat -> (i < 8)%nat -> filled Nk kw (6 * S i) RK ->
  filled Nk kw (6 * S (S i)) (setkey_enc_12 T (Z.of_nat i) RK).
Proof.
  intros HNk Hi HF. unfold setkey_enc_12. sched_steps.
  by replace (6 * S (S i))%nat with (S (S (S (S (S (S (6 * S i)))))))%nat by lia.
Qed.

Lemma setkey_enc_14_filled i RK :
  Nk = 8%nat -> (i < 7)%nat -> filled Nk kw (8 * S i) RK ->
  filled Nk kw (8 * S (S i)) (setkey_enc_14 T (Z.of_nat i) RK).
Proof.
  intros HNk Hi HF. unfold setkey_enc_14. sched_steps.
  by replace (8 * S (S i))%nat with (S (S (S (S (S (S (S (S (8 * S i)))))))))%nat by lia.
Qed.

Lemma sched_loop (f : Z -> list Z -> list Z) N n RK :
  (forall i RK, (i < N)%nat -> filled Nk kw (Nk * S i) RK -> filled Nk kw (Nk * S (S i)) (f (Z.of_nat i) RK)) ->
  (n <= N)%nat -> filled Nk kw Nk RK -> filled Nk kw (Nk * S n) (for_up n 0 f RK).
Proof.
  intros Hf Hn HF.
  assert (forall m i RK, (i + m <= N)%nat -> filled Nk kw (Nk * S i) RK ->
    filled Nk kw (Nk * S (i + m)) (for_up m (Z.of_nat i) f RK)) as G.
  { induction m as [|m IH]; intros i l Hi Hl; [by rewrite Nat.add_0_r|].
    cbn [for_up]. replace (Z.of_nat i + 1) with (Z.of_nat (S i)) by lia.
    replace (i + S m)%nat with (S i + m)%nat by lia. apply IH; [lia|]. apply Hf; [lia|done]. }
  apply (G n 0%nat RK Hn). by rewrite Nat.mul_1_r.
Qed.
End Loops.

(** *** The whole schedule *)

(** The key sizes of the library. *)
Definition key_size (Nk : nat) : Prop := (Nk = 4 \/ Nk = 6 \/ Nk = 8)%nat.

Section Expanded.
Context (Nk : nat) (key RK : list Z).
Hypotheses (HNk : key_size Nk) (Hkey : bytes key) (Hlen : (4 * Nk <= length key)%nat).
Hypothesis HRK : length RK = 68%nat.

Let kw := key_words Nk key.
Let SK := expand_key T (Z.of_nat Nk + 6) (32 * Z.of_nat Nk) key RK.

Lemma length_key_words : length kw = Nk.
Proof. unfold kw, key_words. by rewrite length_map, length_seq. Qed.

Lemma expand_key_filled : exists L, (4 * (Nk + 7) <= L)%nat /\ filled Nk kw L SK.
Proof.
  pose proof length_key_words as Hkw.
  pose proof (word4_key_words Nk key Hkey Hlen) as Hw4.
  assert (Z.to_nat (32 * Z.of_nat Nk >> 5) = Nk) as Hn.
  { rewrite Z.shiftr_div_pow2 by lia. change (2 ^ 5) with 32. lia. }
  destruct (load_key Nk key RK HRK) as [HL HT]; [destruct HNk as [|[|]]; lia|].
  unfold SK, expand_key. rewrite Hn. set (RK0 := for_up Nk 0 _ RK) in *.
  assert (filled Nk kw Nk RK0) as HF.
  { split; [done|]. unfold W. rewrite Nat.sub_diag. exact HT. }
  destruct HNk as [E|[E|E]].
  - exists (Nk * 11)%nat. split; [lia|].
    replace (Z.of_nat Nk + 6 =? 10) with true by lia.
    apply (sched_loop Nk kw Hkw) with (N := 10%nat); [|lia|done]. intros i l Hi Hl.
    replace (Nk * S i)%nat with (4 * S i)%nat in Hl by lia.
    replace (Nk * S (S i))%nat with (4 * S (S i))%nat by lia.
    by apply setkey_enc_10_filled.
  - exists (Nk * 9)%nat. split; [lia|].
    replace (Z.of_nat Nk + 6 =? 10) with false by lia.
    replace (Z.of_nat Nk + 6 =? 12) with true by lia.
    apply (sched_loop Nk kw Hkw) with (N := 8%nat); [|lia|done]. intros i l Hi Hl.
    replace (Nk * S i)%nat with (6 * S i)%nat in Hl by lia.
    replace (Nk * S (S i))%nat with (6 * S (S i))%nat by lia.
    by apply setkey_enc_12_filled.
  - exists (Nk * 8)%nat. split; [lia|].
    replace (Z.of_nat Nk + 6 =? 10) with false by lia.
    replace (Z.of_nat Nk + 6 =? 12) with false by lia.
    replace (Z.of_nat Nk + 6 =? 14) with true by lia.
    apply (sched_loop Nk kw Hkw) with (N := 7%nat); [|lia|done]. intros i l Hi Hl.
    replace (Nk * S i)%nat with (8 * S i)%nat in Hl by lia.
    replace (Nk * S (S i))%nat with (8 * S (S i))%nat by lia.
    by apply setkey_enc_14_filled.
Qed.

(** Every round key the context holds is that of [KeyExpansion]. *)
Lemma expand_key_round_key r :
  (r <= Nk + 6)%nat -> ctx_rk SK r = round_key (key_expansion Nk key) r.
Proof.
  intros Hr. destruct expand_key_filled as (L & HL & HF).
  pose proof length_key_words as Hkw.
  pose proof (word4_key_words Nk key Hkey Hlen) as Hw4.
  assert (0 < Nk)%nat as Hpos by (destruct HNk as [|[|]]; lia).
  change (key_expansion Nk key) with (W Nk kw (4 * (Nk + 7))).
  unfold round_key. rewrite (take4_drop _ _ []) by (rewrite length_W; lia).
  rewrite !nth_W by lia. unfold ctx_rk, rk_bytes.
  replace (4 * Z.of_nat r) with (Z.of_nat (4 * r)) by lia.
  replace (Z.of_nat (4 * r) + 1) with (Z.of_nat (4 * r + 1)) by lia.
  replace (Z.of_nat (4 * r) + 2) with (Z.of_nat (4 * r + 2)) by lia.
  replace (Z.of_nat (4 * r) + 3) with (Z.of_nat (4 * r + 3)) by lia.
  rewrite !(filled_rd Nk kw Hpos Hkw L SK) by (done || lia).
  rewrite !put_pack4 by (apply word4_w; done). simpl. by rewrite app_nil_r.
Qed.
End Expanded.

(** ** The decryption key schedule *)

Lemma dec_word_le32 a b c d :
  is_byte a -> is_byte b -> is_byte c -> is_byte d ->
  PUT_UINT32_LE (dec_word T (le32 a b c d)) = inv_mix_column a b c d.
Proof.
  intros. unfold dec_word. rewrite le32_byte0, le32_byte1, le32_byte2, le32_byte3 by done.
  rewrite !fsb_at by done.
  rewrite rt0_at, rt1_at, rt2_at, rt3_at, !inv_sub_byte_sub by auto with widths.
  unfold ft_word. rewrite !le32_lxor, put_le32 by auto 6 with widths. done.
Qed.

Lemma dec_word_u32 w : is_u32 (dec_word T w).
Proof.
  unfold dec_word. rewrite !fsb_at by apply to_u8_range.
  rewrite rt0_at, rt1_at, rt2_at, rt3_at by apply sub_byte_byte, to_u8_range.
  unfold ft_word. assert (forall x, is_byte (sub_byte (x .& 255))) by (intros; apply sub_byte_byte, to_u8_range).
  repeat apply lxor_u32; apply le32_range; auto with widths.
Qed.

Lemma dec_words_inv_mix x0 x1 x2 x3 :
  is_u32 x0 -> is_u32 x1 -> is_u32 x2 -> is_u32 x3 ->
  PUT_UINT32_LE (dec_word T x0) ++ PUT_UINT32_LE (dec_word T x1)
  ++ PUT_UINT32_LE (dec_word T x2) ++ PUT_UINT32_LE (dec_word T x3)
  = inv_mix_columns (PUT_UINT32_LE x0 ++ PUT_UINT32_LE x1 ++ PUT_UINT32_LE x2 ++ PUT_UINT32_LE x3).
Proof.
  intros H0 H1 H2 H3.
  rewrite <- (le32_of_u32 x0 H0), <- (le32_of_u32 x1 H1), <- (le32_of_u32 x2 H2),
    <- (le32_of_u32 x3 H3).
  rewrite !dec_word_le32, !put_le32 by auto with widths. done.
Qed.

Section Invert.
Context (SK : list Z) (Nr : nat).
Hypotheses (HSK : words SK) (HNr : (0 < Nr < 16)%nat).

(** Word [j] of the inverted schedule. *)
Definition inv_at (j : Z) : Z :=
  if j <? 4 then SK.[4 * Z.of_nat Nr + j]
  else if j <? 4 * Z.of_nat Nr then dec_word T SK.[4 * (Z.of_nat Nr - j / 4) + j mod 4]
  else SK.[j - 4 * Z.of_nat Nr].

(** The words before the write pointer are in place. *)
Definition placed (RK : list Z) (r : Z) : Prop :=
  length RK = 68%nat /\ words RK /\ forall j, 0 <= j < r -> RK.[j] = inv_at j.

Lemma placed_step RK r v :
  placed RK r -> 0 <= r < 68 -> v = inv_at r -> is_u32 v -> placed (upd RK r v) (r + 1).
Proof.
  intros (HL & HW & HP) Hr -> Hv. repeat split.
  - unfold upd. by rewrite length_insert.
  - by apply words_upd.
  - intros j Hj. rewrite rd_upd by lia. destruct (Z.eqb_spec r j) as [->|]; [done|]. apply HP. lia.
Qed.

Lemma dec_copy4_placed f RK r s :
  placed RK r -> 0 <= r -> r + 4 <= 68 -> (forall x, is_u32 x -> is_u32 (f x)) ->
  (forall k, 0 <= k < 4 -> f SK.[s + k] = inv_at (r + k)) ->
  exists RK', dec_copy4 f SK (RK, r, s) = (RK', r + 4, s + 4) /\ placed RK' (r + 4).
Proof.
  intros HP Hr Hr4 Hf Hk.
  assert (forall k, is_u32 (f SK.[s + k])) as Hu by (intros; apply Hf; auto with bufs).
  exists (upd (upd (upd (upd RK r (f SK.[s])) (r + 1) (f SK.[s + 1])) (r + 2) (f SK.[s + 2]))
            (r + 3) (f SK.[s + 3])).
  split.
  - unfold dec_copy4. cbn [for_up].
    replace (r + 1 + 1) with (r + 2) by lia. replace (r + 2 + 1) with (r + 3) by lia.
    replace (r + 3 + 1) with (r + 4) by lia. replace (s + 1 + 1) with (s + 2) by lia.
    replace (s + 2 + 1) with (s + 3) by lia. by replace (s + 3 + 1) with (s + 4) by lia.
  - pose proof (Hk 0 ltac:(lia)) as E0. rewrite !Z.add_0_r in E0.
    pose proof (Hu 0) as U0. rewrite Z.add_0_r in U0.
    replace (r + 4) with (r + 3 + 1) by lia. apply placed_step; [|lia|apply Hk; lia|done].
    replace (r + 3) with (r + 2 + 1) by lia. apply placed_step; [|lia|apply Hk; lia|done].
    replace (r + 2) with (r + 1 + 1) by lia. apply placed_step; [|lia|apply Hk; lia|done].
    apply placed_step; [done|lia|done|done].
Qed.

(** The loop over the middle rounds, from turn [t]. *)
Lemma dec_loop_placed n t RK :
  (t + n = Nr - 1)%nat -> placed RK (4 + 4 * Z.of_nat t) ->
  exists RK',
    for_up n (Z.of_nat t)
      (fun _ st => let '(RK, r, s) := dec_copy4 (dec_word T) SK st in (RK, r, s - 8))
      (RK, 4 + 4 * Z.of_nat t, 4 * Z.of_nat Nr - 4 - 4 * Z.of_nat t)
    = (RK', 4 * Z.of_nat Nr, 0) /\ placed RK' (4 * Z.of_nat Nr).
Proof.
  revert t RK. induction n as [|n IH]; intros t RK Ht HP.
  { exists RK. cbn [for_up]. replace (4 + 4 * Z.of_nat t) with (4 * Z.of_nat Nr) in * by lia.
    split; [|done]. by replace (4 * Z.of_nat Nr - 4 - 4 * Z.of_nat t) with 0 by lia. }
  cbn [for_up].
  destruct (dec_copy4_placed (dec_word T) RK (4 + 4 * Z.of_nat t)
              (4 * Z.of_nat Nr - 4 - 4 * Z.of_nat t)) as (RK' & -> & HP').
  - done.
  - lia.
  - lia.
  - intros. apply dec_word_u32.
  - intros k Hk. unfold inv_at.
    replace (4 + 4 * Z.of_nat t + k <? 4) with false by lia.
    replace (4 + 4 * Z.of_nat t + k <? 4 * Z.of_nat Nr) with true by lia.
    do 2 f_equal. lia.
  - replace (Z.of_nat t + 1) with (Z.of_nat (S t)) by lia.
    replace (4 + 4 * Z.of_nat t + 4) with (4 + 4 * Z.of_nat (S t)) in * by lia.
    replace (4 * Z.of_nat Nr - 4 - 4 * Z.of_nat t + 4 - 8)
      with (4 * Z.of_nat Nr - 4 - 4 * Z.of_nat (S t)) by lia.
    apply IH; [lia|done].
Qed.

Lemma invert_key_placed RK :
  length RK = 68%nat -> words RK -> placed (invert_key T (Z.of_nat Nr) SK RK) (4 * Z.of_nat Nr + 4).
Proof.
  intros HL HW. unfold invert_key.
  destruct (dec_copy4_placed id RK 0 (Z.of_nat Nr * 4)) as (RK1 & -> & HP1); try (done || lia).
  { repeat split; try done. lia. }
  { intros k Hk. unfold inv_at. replace (0 + k <? 4) with true by lia. unfold id. f_equal. lia. }
  cbn iota zeta beta. change (0 + 4) with (4 + 4 * Z.of_nat 0) in *.
  replace (Z.of_nat Nr * 4 + 4 - 8) with (4 * Z.of_nat Nr - 4 - 4 * Z.of_nat 0) by lia.
  replace (Z.to_nat (Z.of_nat Nr - 1)) with (Nr - 1)%nat by lia.
  change 0 with (Z.of_nat 0) at 1.
  destruct (dec_loop_placed (Nr - 1) 0 RK1 ltac:(lia) HP1) as (RK2 & -> & HP2).
  destruct (dec_copy4_placed id RK2 (4 * Z.of_nat Nr) 0) as (RK3 & -> & HP3); try (done || lia).
  intros k Hk. unfold inv_at.
  replace (4 * Z.of_nat Nr + k <? 4) with false by lia.
  replace (4 * Z.of_nat Nr + k <? 4 * Z.of_nat Nr) with false by lia.
  unfold id. f_equal. lia.
Qed.
End Invert.

Lemma rk_bytes_ext A B p q :
  (forall k, 0 <= k < 4 -> A.[p + k] = B.[q + k]) -> rk_bytes A p = rk_bytes B q.
Proof.
  intros H. pose proof (H 0 ltac:(lia)) as H0. rewrite !Z.add_0_r in H0.
  unfold rk_bytes. by rewrite H0, !H by lia.
Qed.

Lemma rk_bytes_dec A B p q :
  words B -> (forall k, 0 <= k < 4 -> A.[p + k] = dec_word T B.[q + k]) ->
  rk_bytes A p = inv_mix_columns (rk_bytes B q).
Proof.
  intros HB H. pose proof (H 0 ltac:(lia)) as H0. rewrite !Z.add_0_r in H0.
  unfold rk_bytes. rewrite H0, !H by lia. apply dec_words_inv_mix; auto with bufs.
Qed.

(** The inverted schedule holds the round keys in reverse order, the middle
    ones through [InvMixColumns]. *)
Lemma inverted_keys SK Nr RK :
  words SK -> (0 < Nr < 16)%nat -> placed SK Nr RK (4 * Z.of_nat Nr + 4) ->
  ctx_rk RK 0 = ctx_rk SK Nr /\ ctx_rk RK Nr = ctx_rk SK 0
  /\ forall j, (0 < j < Nr)%nat -> ctx_rk RK j = inv_mix_columns (ctx_rk SK (Nr - j)).
Proof.
  intros HW HN (_ & _ & HP). unfold ctx_rk. repeat split.
  - apply rk_bytes_ext. intros k Hk. rewrite HP by lia. unfold inv_at.
    rewrite (proj2 (Z.ltb_lt _ _)) by lia. f_equal; lia.
  - apply rk_bytes_ext. intros k Hk. rewrite HP by lia. unfold inv_at.
    rewrite !(proj2 (Z.ltb_ge _ _)) by lia. f_equal; lia.
  - intros j Hj. apply rk_bytes_dec; [done|]. intros k Hk. rewrite HP by lia. unfold inv_at.
    rewrite (proj2 (Z.ltb_ge _ 4)), (proj2 (Z.ltb_lt _ (4 * _))) by lia. do 2 f_equal; lia.
Qed.

(** ** Setting keys *)

(** The static tables: not yet built, or built. *)
Definition aes_ready (g : aes_globals) : Prop :=
  aes_init_done g = 0 \/ tabs g = Gen.aes_gen_tables.

(** The type invariant of a context: 68 32-bit words. *)
Definition ctx_ok (ctx : mbedtls_aes_context) : Prop :=
  length (buf ctx) = 68%nat /\ words (buf ctx).

#[export] Instance ctx_ok_dec ctx : Decision (ctx_ok ctx).
Proof. unfold ctx_ok. apply _. Defined.

Lemma init_tables g : aes_ready g -> tabs (aes_init_tables g) = T /\ aes_ready (aes_init_tables g).
Proof.
  intros H. unfold aes_init_tables, aes_ready in *. rewrite <- Gen.gen_is_rom.
  destruct (Z.eqb_spec (aes_init_done g) 0) as [E|E]; simpl; [auto|].
  destruct H; [done|auto].
Qed.

Lemma ctx_ok_init : ctx_ok mbedtls_aes_init.
Proof. apply (bool_decide_eq_true_1 _). vm_compute. reflexivity. Qed.

Lemma expand_key_length nr keybits key RK :
  length (expand_key T nr keybits key RK) = length RK.
Proof.
  assert (forall n i (f : Z -> list Z -> list Z) l, (forall i l, length (f i l) = length l) ->
    length (for_up n i f l) = length l) as G.
  { induction n as [|n IH]; intros i f l Hf; [done|]. cbn [for_up]. by rewrite IH, Hf. }
  unfold expand_key. repeat case_match; rewrite ?G; try done; intros;
    unfold setkey_enc_10, setkey_enc_12, setkey_enc_14, upd; by rewrite ?length_insert.
Qed.

Section SetKey.
Context (Nk : nat) (g : aes_globals) (ctx : mbedtls_aes_context) (key : list Z).
Hypotheses (HNk : key_size Nk) (Hg : aes_ready g) (Hctx : ctx_ok ctx).
Hypotheses (Hkey : bytes key) (Hlen : (4 * Nk <= length key)%nat).

Let SK := expand_key T (Z.of_nat Nk + 6) (32 * Z.of_nat Nk) key (buf ctx).

(** What [mbedtls_aes_setkey_enc] leaves. *)
Lemma setkey_enc_eq :
  mbedtls_aes_setkey_enc g ctx key (32 * Z.of_nat Nk)
  = (aes_init_tables g, {| nr := Z.of_nat Nk + 6; buf := SK |}, 0).
Proof.
  unfold mbedtls_aes_setkey_enc, SK. destruct (init_tables g Hg) as [-> _].
  destruct HNk as [-> | [-> | ->]]; reflexivity.
Qed.

Lemma setkey_enc_ctx_ok : ctx_ok {| nr := Z.of_nat Nk + 6; buf := SK |}.
Proof.
  destruct Hctx as [HL HW]. split; simpl; unfold SK.
  - by rewrite expand_key_length.
  - by apply expand_key_words.
Qed.

Lemma round_keys_block r : block (ctx_rk SK r).
Proof. apply block_rk. Qed.

Lemma setkey_enc_encrypt s :
  block s ->
  mbedtls_internal_aes_encrypt T {| nr := Z.of_nat Nk + 6; buf := SK |} s = aes_encrypt Nk key s.
Proof.
  intros Hs. destruct setkey_enc_ctx_ok as [HL HW]. simpl in HL, HW.
  assert (2 * S (Nk / 2 + 2) = Nk + 6)%nat as EN by (destruct HNk as [-> | [-> | ->]]; done).
  rewrite (encrypt_cipher _ (Nk / 2 + 2)); simpl buf; simpl nr; try done; [|lia].
  rewrite EN. unfold aes_encrypt. apply cipher_ext; [lia|]. intros j Hj.
  apply expand_key_round_key; try done. apply Hctx.
Qed.
End SetKey.

Section SetKeyDec.
Context (Nk : nat) (g : aes_globals) (ctx : mbedtls_aes_context) (key : list Z).
Hypotheses (HNk : key_size Nk) (Hg : aes_ready g) (Hctx : ctx_ok ctx).
Hypotheses (Hkey : bytes key) (Hlen : (4 * Nk <= length key)%nat).

Let SK := expand_key T (Z.of_nat Nk + 6) (32 * Z.of_nat Nk) key (buf mbedtls_aes_init).
Let RK := invert_key T (Z.of_nat Nk + 6) SK (buf ctx).

Lemma setkey_dec_eq :
  mbedtls_aes_setkey_dec g ctx key (32 * Z.of_nat Nk)
  = (aes_init_tables g, {| nr := Z.of_nat Nk + 6; buf := RK |}, 0).
Proof.
  unfold mbedtls_aes_setkey_dec. rewrite setkey_enc_eq by done.
  simpl. by destruct (init_tables g Hg) as [-> _].
Qed.

Lemma SK_words : words SK.
Proof. by apply (setkey_enc_ctx_ok Nk mbedtls_aes_init key ctx_ok_init Hkey). Qed.

Lemma RK_placed : placed SK (Nk + 6) RK (4 * Z.of_nat (Nk + 6) + 4).
Proof.
  unfold RK. replace (Z.of_nat Nk + 6) with (Z.of_nat (Nk + 6)) by lia.
  destruct Hctx. apply invert_key_placed; try done; [apply SK_words|].
  destruct HNk as [-> | [-> | ->]]; lia.
Qed.

Lemma setkey_dec_ctx_ok : ctx_ok {| nr := Z.of_nat Nk + 6; buf := RK |}.
Proof. destruct RK_placed as (HL & HW & _). done. Qed.

Lemma setkey_dec_decrypt s :
  block s ->
  mbedtls_internal_aes_decrypt T {| nr := Z.of_nat Nk + 6; buf := RK |} s = aes_decrypt Nk key s.
Proof.
  intros Hs. destruct RK_placed as (HL & HW & HP).
  destruct (inverted_keys SK (Nk + 6) RK SK_words) as (E0 & E1 & E2).
  { destruct HNk as [-> | [-> | ->]]; lia. }
  { repeat split; done. }
  assert (2 * S (Nk / 2 + 2) = Nk + 6)%nat as EN by (destruct HNk as [-> | [-> | ->]]; done).
  rewrite (decrypt_inv_cipher _ (Nk / 2 + 2) (ctx_rk SK)); rewrite ?EN; simpl buf; try done.
  - unfold aes_decrypt. apply inv_cipher_ext. intros j Hj.
    apply expand_key_round_key; done.
  - simpl nr. rewrite <- EN in *. lia.
  - intros r. apply block_rk.
Qed.
End SetKeyDec.

(** ** Theorems on the API *)

(** A key schedule of [key_expansion] is made of blocks. *)
Lemma key_expansion_blocks Nk key r :
  key_size Nk -> bytes key -> (4 * Nk <= length key)%nat -> (r <= Nk + 6)%nat ->
  block (round_key (key_expansion Nk key) r).
Proof.
  intros HNk Hk Hl Hr.
  rewrite <- (expand_key_round_key Nk key (buf mbedtls_aes_init)) by done.
  apply block_rk.
Qed.

(** C36: after [mbedtls_aes_setkey_enc] has accepted a key of 128, 192 or 256
    bits, [mbedtls_aes_crypt_ecb] in encryption mode computes the FIPS-197
    cipher under that key on every block; the call leaves a well-formed
    context and the tables built. *)
Theorem setkey_enc_implements_fips197 Nk g ctx key s :
  key_size Nk -> aes_ready g -> ctx_ok ctx -> bytes key -> length key = (4 * Nk)%nat -> block s ->
  exists g' ctx',
    mbedtls_aes_setkey_enc g ctx key (32 * Z.of_nat Nk) = (g', ctx', 0)
    /\ aes_ready g' /\ ctx_ok ctx'
    /\ mbedtls_aes_crypt_ecb (tabs g') ctx' MBEDTLS_AES_ENCRYPT s = aes_encrypt Nk key s.
Proof.
  intros HNk Hg Hctx Hk Hl Hs. eexists _, _. rewrite setkey_enc_eq by (done || lia).
  split; [reflexivity|]. destruct (init_tables g Hg) as [-> Hr].
  split; [done|]. split; [by apply setkey_enc_ctx_ok|].
  apply setkey_enc_encrypt; try done. lia.
Qed.

(** After [mbedtls_aes_setkey_dec], [mbedtls_aes_crypt_ecb] in decryption
    mode computes the FIPS-197 inverse cipher under that key. *)
Theorem setkey_dec_implements_fips197 Nk g ctx key s :
  key_size Nk -> aes_ready g -> ctx_ok ctx -> bytes key -> length key = (4 * Nk)%nat -> block s ->
  exists g' ctx',
    mbedtls_aes_setkey_dec g ctx key (32 * Z.of_nat Nk) = (g', ctx', 0)
    /\ aes_ready g' /\ ctx_ok ctx'
    /\ mbedtls_aes_crypt_ecb (tabs g') ctx' MBEDTLS_AES_DECRYPT s = aes_decrypt Nk key s.
Proof.
  intros HNk Hg Hctx Hk Hl Hs. eexists _, _. rewrite setkey_dec_eq by (done || lia).
  split; [reflexivity|]. destruct (init_tables g Hg) as [-> Hr].
  split; [done|]. split; [apply setkey_dec_ctx_ok; (done || lia)|].
  apply setkey_dec_decrypt; try done. lia.
Qed.

(** What the block cipher promises to the modes of operation: a pair of
    contexts, one keyed for encryption and one for decryption, that invert
    each other on blocks. *)
Class AesPair (T : aes_tables) (ce cd : mbedtls_aes_context) : Prop := {
  pair_enc_block s : block s -> block (mbedtls_aes_crypt_ecb T ce MBEDTLS_AES_ENCRYPT s);
  pair_dec_block s : block s -> block (mbedtls_aes_crypt_ecb T cd MBEDTLS_AES_DECRYPT s);
  pair_dec_enc s : block s ->
    mbedtls_aes_crypt_ecb T cd MBEDTLS_AES_DECRYPT
      (mbedtls_aes_crypt_ecb T ce MBEDTLS_AES_ENCRYPT s) = s
}.

Lemma block_store X : block (store_block X).
Proof.
  destruct X as [[[X0 X1] X2] X3]. split; [done|].
  repeat apply Forall_app_2; apply put_bytes.
Qed.

Lemma block_crypt_ecb T' ctx mode s : block (mbedtls_aes_crypt_ecb T' ctx mode s).
Proof.
  unfold mbedtls_aes_crypt_ecb, mbedtls_internal_aes_encrypt, mbedtls_internal_aes_decrypt.
  case_match; destruct (double_rounds _ _ _ _); by apply block_store.
Qed.

#[export] Hint Resolve block_crypt_ecb : bufs.

(** Contexts keyed with the same key form such a pair. *)
Lemma keyed_pair Nk g g1 g2 ce cd ce' cd' key :
  key_size Nk -> aes_ready g -> ctx_ok ce -> ctx_ok cd -> bytes key -> (4 * Nk <= length key)%nat ->
  mbedtls_aes_setkey_enc g ce key (32 * Z.of_nat Nk) = (g1, ce', 0) ->
  mbedtls_aes_setkey_dec g1 cd key (32 * Z.of_nat Nk) = (g2, cd', 0) ->
  AesPair (tabs g2) ce' cd'.
Proof.
  intros HNk Hg Hce Hcd Hk Hl He Hd.
  rewrite setkey_enc_eq in He by (done || lia). injection He as <- <-.
  destruct (init_tables g Hg) as [_ Hg1].
  rewrite setkey_dec_eq in Hd by (done || lia). injection Hd as <- <-.
  destruct (init_tables _ Hg1) as [-> _].
  split; [intros; apply block_crypt_ecb..|].
  intros s Hs. unfold mbedtls_aes_crypt_ecb. simpl.
  assert (forall r, (r <= Nk + 6)%nat -> block (round_key (key_expansion Nk key) r)) as Hrk
    by (intros; by apply key_expansion_blocks).
  rewrite setkey_enc_encrypt by done.
  set (rk := fun r => round_key (key_expansion Nk key) (r `min` (Nk + 6))%nat).
  assert (forall s, aes_encrypt Nk key s = cipher rk (Nk + 6) s) as Ee.
  { intros. unfold aes_encrypt, rk. apply cipher_ext; [lia|]. intros. by rewrite Nat.min_l. }
  assert (forall s, aes_decrypt Nk key s = inv_cipher rk (Nk + 6) s) as Ed.
  { intros. unfold aes_decrypt, rk. apply inv_cipher_ext. intros. by rewrite Nat.min_l. }
  assert (forall r, block (rk r)) as Hb by (intros; apply Hrk; lia).
  rewrite setkey_dec_decrypt; [|done..|].
  - rewrite Ee, Ed. by apply inv_cipher_cipher.
  - rewrite Ee. by apply block_cipher.
Qed.

(** decrypting with a context keyed by [mbedtls_aes_setkey_dec] inverts
    encrypting with a context keyed by [mbedtls_aes_setkey_enc] with the same
    key, for every key size, key and block. *)
Theorem aes_decrypt_encrypt Nk g ce cd key s :
  key_size Nk -> aes_ready g -> ctx_ok ce -> ctx_ok cd ->
  bytes key -> length key = (4 * Nk)%nat -> block s ->
  let '(g1, ce', r1) := mbedtls_aes_setkey_enc g ce key (32 * Z.of_nat Nk) in
  let '(g2, cd', r2) := mbedtls_aes_setkey_dec g1 cd key (32 * Z.of_nat Nk) in
  r1 = 0 /\ r2 = 0
  /\ mbedtls_aes_crypt_ecb (tabs g2) cd' MBEDTLS_AES_DECRYPT
       (mbedtls_aes_crypt_ecb (tabs g2) ce' MBEDTLS_AES_ENCRYPT s) = s.
Proof.
  intros HNk Hg Hce Hcd Hk Hl Hs.
  destruct (mbedtls_aes_setkey_enc g ce key _) as [[g1 ce'] r1] eqn:He.
  destruct (mbedtls_aes_setkey_dec g1 cd key _) as [[g2 cd'] r2] eqn:Hd.
  assert (r1 = 0 /\ g1 = aes_init_tables g) as [-> ->].
  { rewrite setkey_enc_eq in He by (done || lia). by injection He as <- <- <-. }
  assert (r2 = 0) as ->.
  { rewrite setkey_dec_eq in Hd by (done || lia || by apply init_tables). by injection Hd. }
  split; [done|]. split; [done|].
  by apply (keyed_pair Nk g _ g2 ce cd ce' cd' key HNk Hg Hce Hcd Hk ltac:(lia) He Hd).
Qed.

(** A key length other than 128, 192 or 256 bits is refused with
    [MBEDTLS_ERR_AES_INVALID_KEY_LENGTH] by both schedules, and the context is
    left as it was. *)
Theorem setkey_rejects_other_lengths g ctx key keybits :
  keybits <> 128 -> keybits <> 192 -> keybits <> 256 ->
  mbedtls_aes_setkey_enc g ctx key keybits
    = (aes_init_tables g, ctx, MBEDTLS_ERR_AES_INVALID_KEY_LENGTH)
  /\ mbedtls_aes_setkey_dec g ctx key keybits
    = (aes_init_tables g, ctx, MBEDTLS_ERR_AES_INVALID_KEY_LENGTH).
Proof.
  intros H1 H2 H3.
  unfold mbedtls_aes_setkey_dec, mbedtls_aes_setkey_enc.
  rewrite !(proj2 (Z.eqb_neq keybits _)) by done. done.
Qed.

(** ** Witnesses *)

Definition sample_key : list Z := map Z.of_nat (seq 0 32).
Definition sample_block : list Z := map (fun i => 17 * Z.of_nat i) (seq 0 16).

Lemma setkey_enc_implements_fips197_witness :
  exists g' ctx',
    mbedtls_aes_setkey_enc aes_globals0 mbedtls_aes_init (take 16 sample_key) 128 = (g', ctx', 0)
    /\ aes_ready g' /\ ctx_ok ctx'
    /\ mbedtls_aes_crypt_ecb (tabs g') ctx' MBEDTLS_AES_ENCRYPT sample_block
       = aes_encrypt 4 (take 16 sample_key) sample_block.
Proof.
  apply (setkey_enc_implements_fips197 4 aes_globals0 mbedtls_aes_init (take 16 sample_key) sample_block);
    try (left; reflexivity); try reflexivity;
    apply (bool_decide_eq_true_1 _); vm_compute; reflexivity.
Defined.

Lemma setkey_dec_implements_fips197_witness :
  exists g' ctx',
    mbedtls_aes_setkey_dec aes_globals0 mbedtls_aes_init (take 24 sample_key) 192 = (g', ctx', 0)
    /\ aes_ready g' /\ ctx_ok ctx'
    /\ mbedtls_aes_crypt_ecb (tabs g') ctx' MBEDTLS_AES_DECRYPT sample_block
       = aes_decrypt 6 (take 24 sample_key) sample_block.
Proof.
  apply (setkey_dec_implements_fips197 6 aes_globals0 mbedtls_aes_init (take 24 sample_key) sample_block);
    try (right; left; reflexivity); try (left; reflexivity); try reflexivity;
    apply (bool_decide_eq_true_1 _); vm_compute; reflexivity.
Defined.

Lemma aes_decrypt_encrypt_witness :
  let '(g1, ce', r1) := mbedtls_aes_setkey_enc aes_globals0 mbedtls_aes_init sample_key 256 in
  let '(g2, cd', r2) := mbedtls_aes_setkey_dec g1 mbedtls_aes_init sample_key 256 in
  r1 = 0 /\ r2 = 0
  /\ mbedtls_aes_crypt_ecb (tabs g2) cd' MBEDTLS_AES_DECRYPT
       (mbedtls_aes_crypt_ecb (tabs g2) ce' MBEDTLS_AES_ENCRYPT sample_block) = sample_block.
Proof.
  apply (aes_decrypt_encrypt 8 aes_globals0 mbedtls_aes_init mbedtls_aes_init sample_key sample_block);
    try (right; right; reflexivity); try (left; reflexivity); try reflexivity;
    apply (bool_decide_eq_true_1 _); vm_compute; reflexivity.
Defined.

Lemma setkey_rejects_other_lengths_witness :
  mbedtls_aes_setkey_enc aes_globals0 mbedtls_aes_init sample_key 129
    = (aes_init_tables aes_globals0, mbedtls_aes_init, MBEDTLS_ERR_AES_INVALID_KEY_LENGTH)
  /\ mbedtls_aes_setkey_dec aes_globals0 mbedtls_aes_init sample_key 129
    = (aes_init_tables aes_globals0, mbedtls_aes_init, MBEDTLS_ERR_AES_INVALID_KEY_LENGTH).
Proof. apply (setkey_rejects_other_lengths aes_globals0 mbedtls_aes_init sample_key 129); lia. Defined.

(** A pair of contexts for the witnesses of the modes. *)
Definition sample_enc : aes_globals * mbedtls_aes_context * Z :=
  mbedtls_aes_setkey_enc aes_globals0 mbedtls_aes_init (take 16 sample_key) 128.
Definition sample_dec : aes_globals * mbedtls_aes_context * Z :=
  mbedtls_aes_setkey_dec (fst (fst sample_enc)) mbedtls_aes_init (take 16 sample_key) 128.
Definition sample_tabs : aes_tables := tabs (fst (fst sample_dec)).

Lemma sample_pair : AesPair sample_tabs (snd (fst sample_enc)) (snd (fst sample_dec)).
Proof.
  apply (keyed_pair 4 aes_globals0 (fst (fst sample_enc)) (fst (fst sample_dec))
           mbedtls_aes_init mbedtls_aes_init _ _ (take 16 sample_key));
    try (left; reflexivity); try (apply (bool_decide_eq_true_1 _); vm_compute; reflexivity).
  - change (32 * Z.of_nat 4) with 128. fold sample_enc.
    rewrite (surjective_pairing sample_enc) at 1. rewrite (surjective_pairing (fst sample_enc)) at 1.
    reflexivity.
  - change (32 * Z.of_nat 4) with 128. fold sample_dec.
    rewrite (surjective_pairing sample_dec) at 1. rewrite (surjective_pairing (fst sample_dec)) at 1.
    reflexivity.
Qed.
