(* ===== verification/AesModes.v ===== *)
(** * AES modes of operation (externals/mbedtls/library/aes.c)

    CBC, XTS, CFB128, CFB8, OFB and CTR over [mbedtls_aes_crypt_ecb].  A
    function of the library that takes [length] and a pointer to that many
    octets takes the list of these octets here; in/out parameters ([iv],
    [iv_off], [nonce_counter], ...) are returned with their new values.

    The theorems are proved against the interface [AesPair] of [AesCorrect]
    (two keyed contexts that invert each other on blocks), which [keyed_pair]
    discharges for every key. *)

From S2P Require Import Prelude AesTables AesSpec AesCore AesCorrect.
Open Scope Z_scope.
Open Scope c_scope.
Import Aes.

Module Modes.

(** A loop over the octets of a buffer: each octet is consumed with a state
    and yields an octet of output. *)
Fixpoint run_stream {S : Type} (step : S -> Z -> S * Z) (s : S) (input : list Z) : S * list Z :=
  match input with
  | [] => (s, [])
  | c :: input =>
      let '(s, o) := step s c in
      let '(s, out) := run_stream step s input in
      (s, o :: out)
  end.

Section Modes.
Context (T : aes_tables).

(** ** CBC *)

(** [while( length > 0 )], decryption: final [iv] and output. *)
Fixpoint cbc_decrypt_loop (ctx : mbedtls_aes_context) (mode : Z) (n : nat) (iv input : list Z)
    : list Z * list Z :=
  match n with
  | O => (iv, [])
  | S n =>
      let temp := take 16 input in
      let output := mbedtls_aes_crypt_ecb T ctx mode temp in
      let output := xor_bytes output iv in
      let '(iv, rest) := cbc_decrypt_loop ctx mode n temp (drop 16 input) in
      (iv, output ++ rest)
  end.

(** [while( length > 0 )], encryption. *)
Fixpoint cbc_encrypt_loop (ctx : mbedtls_aes_context) (mode : Z) (n : nat) (iv input : list Z)
    : list Z * list Z :=
  match n with
  | O => (iv, [])
  | S n =>
      let output := xor_bytes (take 16 input) iv in
      let output := mbedtls_aes_crypt_ecb T ctx mode output in
      let '(iv, rest) := cbc_encrypt_loop ctx mode n output (drop 16 input) in
      (iv, output ++ rest)
  end.

(** [mbedtls_aes_crypt_cbc]: return value, [iv], output. *)
Definition mbedtls_aes_crypt_cbc (ctx : mbedtls_aes_context) (mode : Z) (iv input : list Z)
    : Z * list Z * list Z :=
  let len := length input in
  if negb (len mod 16 =? 0)%nat then (MBEDTLS_ERR_AES_INVALID_INPUT_LENGTH, iv, [])
  else
    let '(iv, output) :=
      if mode =? MBEDTLS_AES_DECRYPT then cbc_decrypt_loop ctx mode (len / 16) iv input
      else cbc_encrypt_loop ctx mode (len / 16) iv input in
    (0, iv, output).

(** ** XTS *)

(** [GET_UINT64_LE] and [PUT_UINT64_LE]. *)
Definition GET_UINT64_LE (b : list Z) (i : Z) : Z :=
  (b.[i + 7] << 56) .| (b.[i + 6] << 48) .| (b.[i + 5] << 40) .| (b.[i + 4] << 32)
  .| (b.[i + 3] << 24) .| (b.[i + 2] << 16) .| (b.[i + 1] << 8) .| b.[i].
Definition PUT_UINT64_LE (n : Z) : list Z :=
  [ to_u8 n; to_u8 (n >> 8); to_u8 (n >> 16); to_u8 (n >> 24);
    to_u8 (n >> 32); to_u8 (n >> 40); to_u8 (n >> 48); to_u8 (n >> 56) ].

(** [mbedtls_gf128mul_x_ble]; the value is [r]. *)
Definition mbedtls_gf128mul_x_ble (x : list Z) : list Z :=
  let a := GET_UINT64_LE x 0 in
  let b := GET_UINT64_LE x 8 in
  let ra := to_u64 (a << 1) .^ (0x0087 >> (8 - ((b >> 63) << 3))) in
  let rb := (a >> 63) .| to_u64 (b << 1) in
  PUT_UINT64_LE ra ++ PUT_UINT64_LE rb.

(** [while( blocks-- )]: [tweak], [prev_tweak] and output after the loop;
    [n] is [blocks] before the decrement. *)
Fixpoint xts_blocks (crypt : mbedtls_aes_context) (mode : Z) (leftover : nat) (n : nat)
    (tweak prev_tweak input : list Z) : list Z * list Z * list Z :=
  match n with
  | O => (tweak, prev_tweak, [])
  | S blocks =>
      let '(tweak, prev_tweak) :=
        if negb (leftover =? 0)%nat && (mode =? MBEDTLS_AES_DECRYPT) && (blocks =? 0)%nat
        then (mbedtls_gf128mul_x_ble tweak, tweak)
        else (tweak, prev_tweak) in
      let tmp := xor_bytes (take 16 input) tweak in
      let tmp := mbedtls_aes_crypt_ecb T crypt mode tmp in
      let output := xor_bytes tmp tweak in
      let tweak := mbedtls_gf128mul_x_ble tweak in
      let '(tweak, prev_tweak, rest) :=
        xts_blocks crypt mode leftover blocks tweak prev_tweak (drop 16 input) in
      (tweak, prev_tweak, output ++ rest)
  end.

(** The leftover bytes: ciphertext stealing from [prev_output], the last full
    block written.  The value is the new last block and the tail. *)
Definition xts_steal (crypt : mbedtls_aes_context) (mode : Z) (leftover : nat)
    (t prev_output input : list Z) : list Z :=
  let output := take leftover prev_output in
  let tmp := xor_bytes (take leftover input) (take leftover t)
             ++ xor_bytes (drop leftover prev_output) (drop leftover t) in
  let tmp := mbedtls_aes_crypt_ecb T crypt mode tmp in
  xor_bytes tmp t ++ output.

(** [mbedtls_aes_crypt_xts]: return value and output. *)
Definition mbedtls_aes_crypt_xts (ctx : mbedtls_aes_xts_context) (mode : Z)
    (data_unit input : list Z) : Z * list Z :=
  let len := length input in
  let blocks := (len / 16)%nat in
  let leftover := (len mod 16)%nat in
  if Z.of_nat len <? 16 then (MBEDTLS_ERR_AES_INVALID_INPUT_LENGTH, [])
  else if (1 << 20) * 16 <? Z.of_nat len then (MBEDTLS_ERR_AES_INVALID_INPUT_LENGTH, [])
  else
    let tweak := mbedtls_aes_crypt_ecb T (tweak ctx) MBEDTLS_AES_ENCRYPT data_unit in
    let '(tweak, prev_tweak, output) :=
      xts_blocks (crypt ctx) mode leftover blocks tweak (replicate 16 0) input in
    if (leftover =? 0)%nat then (0, output)
    else
      let t := if mode =? MBEDTLS_AES_DECRYPT then prev_tweak else tweak in
      let prev := (16 * (blocks - 1))%nat in
      (0, take prev output
          ++ xts_steal (crypt ctx) mode leftover t (drop prev output) (drop (16 * blocks) input)).

(** ** CFB128, CFB8, OFB, CTR *)

(** [if( n == 0 ) mbedtls_aes_crypt_ecb( ctx, ENCRYPT, iv, iv )]. *)
Definition refill (ctx : mbedtls_aes_context) (n : Z) (iv : list Z) : list Z :=
  if n =? 0 then mbedtls_aes_crypt_ecb T ctx MBEDTLS_AES_ENCRYPT iv else iv.

Definition cfb128_decrypt_step (ctx : mbedtls_aes_context) (st : Z * list Z) (c : Z)
    : Z * list Z * Z :=
  let '(n, iv) := st in
  let iv := refill ctx n iv in
  let o := to_u8 (c .^ iv.[n]) in
  ((n + 1) .& 0x0F, upd iv n (to_u8 c), o).

Definition cfb128_encrypt_step (ctx : mbedtls_aes_context) (st : Z * list Z) (c : Z)
    : Z * list Z * Z :=
  let '(n, iv) := st in
  let iv := refill ctx n iv in
  let o := to_u8 (iv.[n] .^ c) in
  ((n + 1) .& 0x0F, upd iv n o, o).

(** [mbedtls_aes_crypt_cfb128]: [iv_off], [iv], output. *)
Definition mbedtls_aes_crypt_cfb128 (ctx : mbedtls_aes_context) (mode iv_off : Z) (iv input : list Z)
    : Z * list Z * list Z :=
  if mode =? MBEDTLS_AES_DECRYPT then run_stream (cfb128_decrypt_step ctx) (iv_off, iv) input
  else run_stream (cfb128_encrypt_step ctx) (iv_off, iv) input.

(** One turn of [mbedtls_aes_crypt_cfb8]; [ov] is [iv] followed by the
    ciphertext octet ([ov[16]] keeps the value of the previous turn when
    [mode] is neither constant, which no caller does). *)
Definition cfb8_step (ctx : mbedtls_aes_context) (mode : Z) (iv : list Z) (c : Z) : list Z * Z :=
  let ov := iv in
  let iv := mbedtls_aes_crypt_ecb T ctx MBEDTLS_AES_ENCRYPT iv in
  let o := to_u8 (iv.[0] .^ c) in
  let ov16 := if mode =? MBEDTLS_AES_DECRYPT then c else o in
  (drop 1 (ov ++ [ov16]), o).

(** [mbedtls_aes_crypt_cfb8]: [iv], output. *)
Definition mbedtls_aes_crypt_cfb8 (ctx : mbedtls_aes_context) (mode : Z) (iv input : list Z)
    : list Z * list Z :=
  run_stream (cfb8_step ctx mode) iv input.

Definition ofb_step (ctx : mbedtls_aes_context) (st : Z * list Z) (c : Z) : Z * list Z * Z :=
  let '(n, iv) := st in
  let iv := refill ctx n iv in
  ((n + 1) .& 0x0F, iv, to_u8 (c .^ iv.[n])).

(** [mbedtls_aes_crypt_ofb]: [iv_off], [iv], output. *)
Definition mbedtls_aes_crypt_ofb (ctx : mbedtls_aes_context) (iv_off : Z) (iv input : list Z)
    : Z * list Z * list Z :=
  run_stream (ofb_step ctx) (iv_off, iv) input.

(** [for( i = 16; i > 0; i-- ) if( ++nonce_counter[i - 1] != 0 ) break;] from
    position [i] down. *)
Fixpoint ctr_increment (i : nat) (nonce_counter : list Z) : list Z :=
  match i with
  | O => nonce_counter
  | S i' =>
      let v := to_u8 (nonce_counter.[Z.of_nat i'] + 1) in
      let nonce_counter := upd nonce_counter (Z.of_nat i') v in
      if negb (v =? 0) then nonce_counter else ctr_increment i' nonce_counter
  end.

Definition ctr_step (ctx : mbedtls_aes_context) (st : Z * list Z * list Z) (c : Z)
    : Z * list Z * list Z * Z :=
  let '(n, nonce_counter, stream_block) := st in
  let '(nonce_counter, stream_block) :=
    if n =? 0 then
      (ctr_increment 16 nonce_counter,
       mbedtls_aes_crypt_ecb T ctx MBEDTLS_AES_ENCRYPT nonce_counter)
    else (nonce_counter, stream_block) in
  ((n + 1) .& 0x0F, nonce_counter, stream_block, to_u8 (c .^ stream_block.[n])).

(** [mbedtls_aes_crypt_ctr]: return value, ([nc_off], [nonce_counter],
    [stream_block]), output. *)
Definition mbedtls_aes_crypt_ctr (ctx : mbedtls_aes_context) (nc_off : Z)
    (nonce_counter stream_block input : list Z) : Z * (Z * list Z * list Z) * list Z :=
  if 0x0F <? nc_off then
    (MBEDTLS_ERR_AES_BAD_INPUT_DATA, (nc_off, nonce_counter, stream_block), [])
  else
    let '(st, output) := run_stream (ctr_step ctx) (nc_off, nonce_counter, stream_block) input in
    (0, st, output).
End Modes.

End Modes.
