(* ===== verification/AesModesCorrect.v ===== *)
(** * Correctness of the AES modes of operation *)

From S2P Require Import Prelude Octets AesTables AesSpec AesCore AesCorrect AesModes.
Open Scope Z_scope.
Open Scope c_scope.
Import Aes Modes.

(** ** CBC *)

Lemma block_take input : bytes input -> (16 <= length input)%nat -> block (take 16 input).
Proof. intros Hb Hl. split; [rewrite length_take; lia|by apply Forall_take]. Qed.

Lemma take_block_app b l : block b -> take 16 (b ++ l) = b.
Proof. intros [H _]. by rewrite take_app_length'. Qed.

Lemma drop_block_app b l : block b -> drop 16 (b ++ l) = l.
Proof. intros [H _]. by rewrite drop_app_length'. Qed.

Section Cbc.
Context (T : aes_tables) (ce cd : mbedtls_aes_context) `{HP : !AesPair T ce cd}.

Lemma cbc_loops n iv input :
  block iv -> bytes input -> length input = (16 * n)%nat ->
  let '(iv', ct) := cbc_encrypt_loop T ce MBEDTLS_AES_ENCRYPT n iv input in
  length ct = (16 * n)%nat /\ bytes ct /\ block iv'
  /\ cbc_decrypt_loop T cd MBEDTLS_AES_DECRYPT n iv ct = (iv', input).
Proof.
  revert iv input. induction n as [|n IH]; intros iv input Hiv Hb Hl.
  { simpl. rewrite (nil_length_inv input) by lia. auto. }
  cbn [cbc_encrypt_loop].
  pose proof (block_take input Hb ltac:(lia)) as Hblk.
  set (x := xor_bytes (take 16 input) iv). assert (block x) as Hx by (subst x; auto with bufs).
  set (o := mbedtls_aes_crypt_ecb T ce MBEDTLS_AES_ENCRYPT x).
  assert (block o) as Ho by apply block_crypt_ecb.
  specialize (IH o (drop 16 input) Ho (Forall_drop _ _ _ Hb)).
  rewrite length_drop in IH. specialize (IH ltac:(lia)).
  destruct (cbc_encrypt_loop _ _ _ n o _) as [iv' rest]. destruct IH as (IHl & IHb & IHi & IHd).
  destruct Ho as [Hol Hob].
  repeat split; [rewrite length_app; lia|by apply Forall_app_2|apply IHi..|].
  cbn [cbc_decrypt_loop].
  rewrite take_app_length', drop_app_length' by done. rewrite IHd.
  subst o. rewrite pair_dec_enc by done. subst x.
  rewrite xor_bytes_cancel by (destruct Hblk, Hiv; lia). by rewrite take_drop.
Qed.
End Cbc.

(** CBC decryption with the decryption context and the same [iv] returns
    the plaintext of CBC encryption, and both leave the same chaining value;
    the calls succeed on every input that is a whole number of blocks. *)
Theorem cbc_roundtrip T ce cd iv input :
  AesPair T ce cd -> block iv -> bytes input -> (length input mod 16 = 0)%nat ->
  let '(ret, iv', ct) := mbedtls_aes_crypt_cbc T ce MBEDTLS_AES_ENCRYPT iv input in
  ret = 0 /\ length ct = length input
  /\ mbedtls_aes_crypt_cbc T cd MBEDTLS_AES_DECRYPT iv ct = (0, iv', input).
Proof.
  intros HP Hiv Hb Hm. unfold mbedtls_aes_crypt_cbc at 1. rewrite Hm.
  change (MBEDTLS_AES_ENCRYPT =? MBEDTLS_AES_DECRYPT) with false. cbn [negb Nat.eqb].
  assert (length input = 16 * (length input / 16))%nat as Hl.
  { pose proof (Nat.div_mod_eq (length input) 16). lia. }
  pose proof (cbc_loops T ce cd (length input / 16) iv input Hiv Hb Hl) as H.
  destruct (cbc_encrypt_loop _ _ _ _ _ _) as [iv' ct]. destruct H as (Hct & _ & _ & Hd).
  rewrite <- Hl in Hct. split; [done|]. split; [done|].
  unfold mbedtls_aes_crypt_cbc. rewrite Hct, Hm.
  change (MBEDTLS_AES_DECRYPT =? MBEDTLS_AES_DECRYPT) with true. cbn [negb Nat.eqb]. by rewrite Hd.
Qed.

(** An input that is not a whole number of blocks is refused by CBC with
    [MBEDTLS_ERR_AES_INVALID_INPUT_LENGTH], [iv] unchanged and nothing
    written. *)
Lemma cbc_rejects_partial_blocks T ctx mode iv input :
  (length input mod 16 <> 0)%nat ->
  mbedtls_aes_crypt_cbc T ctx mode iv input = (MBEDTLS_ERR_AES_INVALID_INPUT_LENGTH, iv, []).
Proof.
  intros H. unfold mbedtls_aes_crypt_cbc. by rewrite (proj2 (Nat.eqb_neq _ _) H).
Qed.

(** ** XTS *)

Abbreviation α := mbedtls_gf128mul_x_ble.

Section Xts.
Context (T : aes_tables).

(** A block under the tweak [tw]. *)
Definition xts_one (f : list Z -> list Z) (tw p : list Z) : list Z :=
  xor_bytes (f (xor_bytes p tw)) tw.

(** [n] blocks under the tweaks [tw], [α tw], [α (α tw)], ... *)
Fixpoint xts_map (f : list Z -> list Z) (n : nat) (tw input : list Z) : list Z :=
  match n with
  | O => []
  | S n => xts_one f tw (take 16 input) ++ xts_map f n (α tw) (drop 16 input)
  end.

Lemma put64_bytes n : bytes (PUT_UINT64_LE n).
Proof. repeat (apply Forall_cons_2; [apply to_u8_range|]). apply Forall_nil_2. Qed.

Lemma block_alpha tw : block (α tw).
Proof. split; [done|]. apply Forall_app_2; apply put64_bytes. Qed.

Lemma block_alpha_iter n tw : block tw -> block (Nat.iter n α tw).
Proof. destruct n; [done|]. intros _. apply block_alpha. Qed.

Lemma xts_blocks_plain crypt mode lo n tw pv input :
  lo = 0%nat \/ mode <> MBEDTLS_AES_DECRYPT ->
  xts_blocks T crypt mode lo n tw pv input
  = (Nat.iter n α tw, pv, xts_map (mbedtls_aes_crypt_ecb T crypt mode) n tw input).
Proof.
  intros H. revert tw pv input. induction n as [|n IH]; intros tw pv input; [done|].
  cbn [xts_blocks].
  replace (negb (lo =? 0)%nat && (mode =? MBEDTLS_AES_DECRYPT) && (n =? 0)%nat) with false.
  - rewrite IH. rewrite <- Nat.iter_succ_r. done.
  - symmetry. destruct H as [->|H]; [done|].
    rewrite (proj2 (Z.eqb_neq _ _) H). by rewrite andb_false_r.
Qed.

(** Decryption with a tail: the last full block takes the next tweak and its
    own is kept for the tail. *)
Lemma xts_blocks_dec crypt lo n tw pv input :
  (lo <> 0)%nat ->
  let D := mbedtls_aes_crypt_ecb T crypt MBEDTLS_AES_DECRYPT in
  xts_blocks T crypt MBEDTLS_AES_DECRYPT lo (S n) tw pv input
  = (Nat.iter (n + 2) α tw, Nat.iter n α tw,
     xts_map D n tw input ++ xts_one D (Nat.iter (S n) α tw) (take 16 (drop (16 * n) input))).
Proof.
  intros Hlo D. revert tw pv input. induction n as [|n IH]; intros tw pv input.
  - cbn [xts_blocks]. rewrite (proj2 (Nat.eqb_neq _ _) Hlo). simpl. by rewrite app_nil_r.
  - remember (S n) as m. cbn [xts_blocks]. subst m.
    rewrite (proj2 (Nat.eqb_neq (S n) 0)), andb_false_r by done. rewrite IH.
    rewrite drop_drop. replace (16 + 16 * n)%nat with (16 * S n)%nat by lia.
    rewrite <- !Nat.iter_succ_r. cbn [xts_map]. by rewrite <- app_assoc.
Qed.

Lemma length_xts_one f tw p :
  length (f (xor_bytes p tw)) = 16%nat -> length tw = 16%nat -> length (xts_one f tw p) = 16%nat.
Proof. intros Hf Ht. unfold xts_one. rewrite length_xor_bytes. lia. Qed.

Lemma length_xts_map f n tw input :
  (forall s, block (f s)) -> block tw -> length (xts_map f n tw input) = (16 * n)%nat.
Proof.
  intros Hf. revert tw input. induction n as [|n IH]; intros tw input Ht; [done|].
  cbn [xts_map]. rewrite length_app, IH, length_xts_one by (apply Hf || apply Ht || apply block_alpha).
  lia.
Qed.

Lemma xts_map_snoc f n tw input :
  xts_map f (S n) tw input
  = xts_map f n tw input ++ xts_one f (Nat.iter n α tw) (take 16 (drop (16 * n) input)).
Proof.
  revert tw input. induction n as [|n IH]; intros tw input.
  - simpl. by rewrite app_nil_r.
  - change (xts_map f (S (S n)) tw input)
      with (xts_one f tw (take 16 input) ++ xts_map f (S n) (α tw) (drop 16 input)).
    rewrite IH, drop_drop. replace (16 + 16 * n)%nat with (16 * S n)%nat by lia.
    rewrite <- Nat.iter_succ_r. cbn [xts_map]. by rewrite <- app_assoc.
Qed.

Context (ce cd : mbedtls_aes_context) `{HP : !AesPair T ce cd}.
Let E := mbedtls_aes_crypt_ecb T ce MBEDTLS_AES_ENCRYPT.
Let D := mbedtls_aes_crypt_ecb T cd MBEDTLS_AES_DECRYPT.

Lemma xts_one_inv tw p : block tw -> block p -> xts_one D tw (xts_one E tw p) = p.
Proof.
  intros Ht Hp. unfold xts_one.
  rewrite xor_bytes_cancel by (destruct Ht as [-> _]; destruct (block_crypt_ecb T ce MBEDTLS_AES_ENCRYPT (xor_bytes p tw)) as [L _]; unfold E; lia).
  unfold D, E. rewrite pair_dec_enc by auto with bufs.
  apply xor_bytes_cancel. destruct Ht, Hp. lia.
Qed.

Lemma block_xts_one ctx mode tw p : block tw -> block (xts_one (mbedtls_aes_crypt_ecb T ctx mode) tw p).
Proof. intros Ht. unfold xts_one. auto with bufs. Qed.

(** Block by block, decryption inverts encryption, whatever follows. *)
Lemma xts_map_inv n tw input tail :
  block tw -> bytes input -> (16 * n <= length input)%nat ->
  xts_map D n tw (xts_map E n tw input ++ tail) = take (16 * n) input.
Proof.
  revert tw input. induction n as [|n IH]; intros tw input Ht Hb Hl; [done|].
  cbn [xts_map]. rewrite <- app_assoc.
  assert (block (xts_one E tw (take 16 input))) as Hx by by apply block_xts_one.
  rewrite take_block_app, drop_block_app by done.
  rewrite xts_one_inv by (done || apply block_take; done || lia).
  rewrite IH; [|apply block_alpha|by apply Forall_drop|rewrite length_drop; lia].
  replace (16 * S n)%nat with (16 + 16 * n)%nat by lia. apply take_take_drop.
Qed.

Lemma xts_steal_one crypt mode l t prev input :
  length t = 16%nat -> length prev = 16%nat -> length input = l -> (l <= 16)%nat ->
  xts_steal T crypt mode l t prev input
  = xts_one (mbedtls_aes_crypt_ecb T crypt mode) t (input ++ drop l prev) ++ take l prev.
Proof.
  intros Ht Hp Hi Hl. unfold xts_steal, xts_one. rewrite (take_ge input) by lia.
  rewrite <- xor_bytes_app by (rewrite length_take; lia). by rewrite take_drop.
Qed.

(** Ciphertext stealing: the last full block and the tail, encrypted under the
    tweaks [t] and [α t], are recovered with the tweaks exchanged. *)
Lemma xts_steal_inv t p tail l :
  block t -> block p -> length tail = l -> (l < 16)%nat -> bytes tail ->
  let CC := xts_one E t p in
  exists X, block X
    /\ xts_steal T ce MBEDTLS_AES_ENCRYPT l (α t) CC tail = X ++ take l CC
    /\ xts_steal T cd MBEDTLS_AES_DECRYPT l t (xts_one D (α t) X) (take l CC) = p ++ tail.
Proof.
  intros Ht Hp Hl Hl16 Hb CC.
  assert (block CC) as HC by by apply block_xts_one. pose proof (block_alpha t) as Ha.
  assert (block (tail ++ drop l CC)) as HT.
  { split; [rewrite length_app, length_drop; destruct HC; lia|].
    apply Forall_app_2; [done|apply Forall_drop, HC]. }
  exists (xts_one E (α t) (tail ++ drop l CC)). split; [by apply block_xts_one|].
  split; [apply xts_steal_one; (apply Ha || apply HC || lia)|].
  rewrite xts_one_inv by done.
  rewrite xts_steal_one; [|apply Ht|apply HT|rewrite length_take; destruct HC; lia|lia].
  rewrite (take_app_length' tail), (drop_app_length' tail) by done.
  rewrite take_drop. fold D. unfold CC. by rewrite xts_one_inv.
Qed.

Lemma xts_length_ok n : 16 <= Z.of_nat n <= 2 ^ 24 ->
  (Z.of_nat n <? 16) = false /\ ((1 << 20) * 16 <? Z.of_nat n) = false.
Proof. intros H. change ((1 << 20) * 16) with (2 ^ 24). lia. Qed.

(** What [mbedtls_aes_crypt_xts] computes on whole blocks ... *)
Lemma xts_whole ctx mode data_unit n input :
  length input = (16 * n)%nat -> 16 <= Z.of_nat (length input) <= 2 ^ 24 ->
  mbedtls_aes_crypt_xts T ctx mode data_unit input
  = (0, xts_map (mbedtls_aes_crypt_ecb T (crypt ctx) mode) n
          (mbedtls_aes_crypt_ecb T (tweak ctx) MBEDTLS_AES_ENCRYPT data_unit) input).
Proof.
  intros Hn Hl. unfold mbedtls_aes_crypt_xts. destruct (xts_length_ok _ Hl) as [-> ->].
  rewrite Hn, (Nat.mul_comm 16), Nat.Div0.mod_mul, Nat.div_mul by done.
  by rewrite xts_blocks_plain by auto.
Qed.

Lemma div_mod_tail n l : (l < 16)%nat -> ((16 * S n + l) / 16 = S n /\ (16 * S n + l) mod 16 = l)%nat.
Proof.
  intros Hl. rewrite Nat.mul_comm, Nat.add_comm, Nat.div_add, Nat.Div0.mod_add by done.
  by rewrite Nat.div_small, Nat.mod_small.
Qed.

(** ... and with a tail of [l] octets, when encrypting ... *)
Lemma xts_tail_enc ctx data_unit n l input :
  (l <> 0)%nat -> (l < 16)%nat ->
  length input = (16 * S n + l)%nat -> 16 <= Z.of_nat (length input) <= 2 ^ 24 ->
  let F := mbedtls_aes_crypt_ecb T (crypt ctx) MBEDTLS_AES_ENCRYPT in
  let tw := mbedtls_aes_crypt_ecb T (tweak ctx) MBEDTLS_AES_ENCRYPT data_unit in
  mbedtls_aes_crypt_xts T ctx MBEDTLS_AES_ENCRYPT data_unit input
  = (0, xts_map F n tw input
        ++ xts_steal T (crypt ctx) MBEDTLS_AES_ENCRYPT l (α (Nat.iter n α tw))
             (xts_one F (Nat.iter n α tw) (take 16 (drop (16 * n) input)))
             (drop (16 * S n) input)).
Proof.
  intros Hl0 Hl16 Hn Hl F tw. unfold mbedtls_aes_crypt_xts.
  destruct (xts_length_ok _ Hl) as [-> ->]. rewrite Hn.
  destruct (div_mod_tail n l Hl16) as [-> ->]. fold tw.
  rewrite xts_blocks_plain by (right; discriminate). fold F. rewrite xts_map_snoc.
  rewrite (proj2 (Nat.eqb_neq _ _) Hl0).
  change (MBEDTLS_AES_ENCRYPT =? MBEDTLS_AES_DECRYPT) with false. cbv iota.
  replace (S n - 1)%nat with n by lia.
  assert (length (xts_map F n tw input) = 16 * n)%nat as L
    by (apply length_xts_map; intros; apply block_crypt_ecb).
  by rewrite take_app_length', drop_app_length' by done.
Qed.

(** ... and decrypting. *)
Lemma xts_tail_dec ctx data_unit n l input :
  (l <> 0)%nat -> (l < 16)%nat ->
  length input = (16 * S n + l)%nat -> 16 <= Z.of_nat (length input) <= 2 ^ 24 ->
  let F := mbedtls_aes_crypt_ecb T (crypt ctx) MBEDTLS_AES_DECRYPT in
  let tw := mbedtls_aes_crypt_ecb T (tweak ctx) MBEDTLS_AES_ENCRYPT data_unit in
  mbedtls_aes_crypt_xts T ctx MBEDTLS_AES_DECRYPT data_unit input
  = (0, xts_map F n tw input
        ++ xts_steal T (crypt ctx) MBEDTLS_AES_DECRYPT l (Nat.iter n α tw)
             (xts_one F (α (Nat.iter n α tw)) (take 16 (drop (16 * n) input)))
             (drop (16 * S n) input)).
Proof.
  intros Hl0 Hl16 Hn Hl F tw. unfold mbedtls_aes_crypt_xts.
  destruct (xts_length_ok _ Hl) as [-> ->]. rewrite Hn.
  destruct (div_mod_tail n l Hl16) as [-> ->]. fold tw.
  rewrite xts_blocks_dec by done. fold F. rewrite (proj2 (Nat.eqb_neq _ _) Hl0).
  change (MBEDTLS_AES_DECRYPT =? MBEDTLS_AES_DECRYPT) with true. cbv iota.
  replace (S n - 1)%nat with n by lia.
  assert (length (xts_map F n tw input) = 16 * n)%nat as L
    by (apply length_xts_map; intros; apply block_crypt_ecb).
  by rewrite take_app_length', drop_app_length' by done.
Qed.

(** The round trip, for two contexts whose tweak keys agree on the data unit. *)
Lemma xts_inverse_whole tk tk' data_unit n input :
  mbedtls_aes_crypt_ecb T tk' MBEDTLS_AES_ENCRYPT data_unit
    = mbedtls_aes_crypt_ecb T tk MBEDTLS_AES_ENCRYPT data_unit ->
  bytes input -> length input = (16 * n)%nat -> 16 <= Z.of_nat (length input) <= 2 ^ 24 ->
  exists ct,
    mbedtls_aes_crypt_xts T {| crypt := ce; tweak := tk |} MBEDTLS_AES_ENCRYPT data_unit input
      = (0, ct)
    /\ length ct = length input
    /\ mbedtls_aes_crypt_xts T {| crypt := cd; tweak := tk' |} MBEDTLS_AES_DECRYPT data_unit ct
       = (0, input).
Proof.
  intros Htk Hb Hn Hl. eexists. split; [by apply xts_whole|]. cbn [crypt tweak]. fold E.
  set (tw := mbedtls_aes_crypt_ecb T tk MBEDTLS_AES_ENCRYPT data_unit).
  assert (block tw) as Htw by apply block_crypt_ecb.
  assert (length (xts_map E n tw input) = 16 * n)%nat as L
    by (apply length_xts_map; [intros; apply block_crypt_ecb|done]).
  split; [lia|]. rewrite (xts_whole _ _ _ n) by lia. cbn [crypt tweak]. rewrite Htk. fold D tw.
  rewrite <- (app_nil_r (xts_map E n tw input)), xts_map_inv by (done || lia).
  by rewrite take_ge by lia.
Qed.

Lemma xts_inverse_tail tk tk' data_unit n l input :
  mbedtls_aes_crypt_ecb T tk' MBEDTLS_AES_ENCRYPT data_unit
    = mbedtls_aes_crypt_ecb T tk MBEDTLS_AES_ENCRYPT data_unit ->
  bytes input -> (l <> 0)%nat -> (l < 16)%nat ->
  length input = (16 * S n + l)%nat -> 16 <= Z.of_nat (length input) <= 2 ^ 24 ->
  exists ct,
    mbedtls_aes_crypt_xts T {| crypt := ce; tweak := tk |} MBEDTLS_AES_ENCRYPT data_unit input
      = (0, ct)
    /\ length ct = length input
    /\ mbedtls_aes_crypt_xts T {| crypt := cd; tweak := tk' |} MBEDTLS_AES_DECRYPT data_unit ct
       = (0, input).
Proof.
  intros Htk Hb Hl0 Hl16 Hn Hl. eexists. split; [by apply xts_tail_enc|]. cbn [crypt tweak]. fold E.
  set (tw := mbedtls_aes_crypt_ecb T tk MBEDTLS_AES_ENCRYPT data_unit).
  assert (block tw) as Htw by apply block_crypt_ecb.
  set (p := take 16 (drop (16 * n) input)). set (tail := drop (16 * S n) input).
  assert (block p) as Hp by (apply block_take; [by apply Forall_drop|rewrite length_drop; lia]).
  assert (length tail = l) as Htl by (unfold tail; rewrite length_drop; lia).
  destruct (xts_steal_inv (Nat.iter n α tw) p tail l) as (X & HX & -> & HD);
    [by apply block_alpha_iter|done|done|done|by apply Forall_drop|].
  set (CC := xts_one E _ p) in *.
  assert (block CC) as HC by (by apply block_xts_one, block_alpha_iter).
  set (A := xts_map E n tw input).
  assert (length A = 16 * n)%nat as HA
    by (apply length_xts_map; [intros; apply block_crypt_ecb|done]).
  assert (length (A ++ X ++ take l CC) = length input) as Hct.
  { rewrite !length_app, length_take. destruct HX, HC. lia. }
  split; [done|]. rewrite (xts_tail_dec _ _ n l) by lia. cbn [crypt tweak]. rewrite Htk. fold D tw.
  unfold A at 1. rewrite xts_map_inv by (done || lia).
  rewrite (drop_app_length' A), take_block_app by done.
  replace (drop (16 * S n) (A ++ X ++ take l CC)) with (take l CC).
  2:{ rewrite app_assoc, drop_app_length'; [done|]. rewrite length_app. destruct HX. lia. }
  rewrite HD. f_equal. unfold p, tail. replace (16 * S n)%nat with (16 * n + 16)%nat by lia.
  by rewrite <- drop_drop, take_drop, take_drop.
Qed.

Lemma xts_inverse tk tk' data_unit input :
  mbedtls_aes_crypt_ecb T tk' MBEDTLS_AES_ENCRYPT data_unit
    = mbedtls_aes_crypt_ecb T tk MBEDTLS_AES_ENCRYPT data_unit ->
  bytes input -> 16 <= Z.of_nat (length input) <= 2 ^ 24 ->
  exists ct,
    mbedtls_aes_crypt_xts T {| crypt := ce; tweak := tk |} MBEDTLS_AES_ENCRYPT data_unit input
      = (0, ct)
    /\ length ct = length input
    /\ mbedtls_aes_crypt_xts T {| crypt := cd; tweak := tk' |} MBEDTLS_AES_DECRYPT data_unit ct
       = (0, input).
Proof.
  intros Htk Hb Hl. pose proof (Nat.div_mod_eq (length input) 16) as Hdm.
  pose proof (Nat.mod_upper_bound (length input) 16) as Hlt.
  destruct (decide (length input mod 16 = 0)%nat) as [Hz|Hnz].
  - apply (xts_inverse_whole tk tk' data_unit (length input / 16)); try done. lia.
  - destruct (length input / 16)%nat as [|n]; [lia|].
    apply (xts_inverse_tail tk tk' data_unit n (length input mod 16)); try done; lia.
Qed.
End Xts.

(** ** The tweak sequence *)

Lemma lor_byte_step X b k :
  0 <= k -> 0 <= X -> is_byte b -> Z.lor (X << (k + 8)) (b << k) = (b + 256 * X) << k.
Proof.
  intros Hk HX Hb. rewrite Z.add_comm, <- Z.shiftl_shiftl, <- Z.shiftl_lor, Z.lor_comm by lia.
  rewrite (lor_shiftl_add b X 8) by (done || lia). f_equal. ring.
Qed.

Lemma or64_val b0 b1 b2 b3 b4 b5 b6 b7 :
  bytes [b0; b1; b2; b3; b4; b5; b6; b7] ->
  (b7 << 56) .| (b6 << 48) .| (b5 << 40) .| (b4 << 32) .| (b3 << 24) .| (b2 << 16) .| (b1 << 8) .| b0
  = le_val [b0; b1; b2; b3; b4; b5; b6; b7].
Proof.
  intros H. do 8 (apply Forall_cons_1 in H; destruct H as [? H]).
  unfold is_byte in *. rewrite <- (Z.shiftl_0_r b0).
  rewrite (lor_byte_step _ _ 48), (lor_byte_step _ _ 40), (lor_byte_step _ _ 32),
    (lor_byte_step _ _ 24), (lor_byte_step _ _ 16), (lor_byte_step _ _ 8), (lor_byte_step _ _ 0)
    by (unfold is_byte; lia).
  rewrite !Z.shiftl_0_r. cbn [le_val]. ring.
Qed.

Lemma put64_le_bytes n : PUT_UINT64_LE n = le_bytes 8 n.
Proof.
  unfold PUT_UINT64_LE. rewrite !to_u8_mod, !Z.shiftr_div_pow2 by lia. cbn [le_bytes].
  rewrite !Z.div_div by lia. done.
Qed.

Lemma add_pow2_lxor x y k : 0 <= k -> 0 <= x < 2 ^ k -> x + y * 2 ^ k = Z.lxor x (y << k).
Proof. intros Hk Hx. by rewrite <- lor_shiftl_add, lor_shiftl_lxor. Qed.

(** Adding into the low word of a double word. *)
Lemma lxor_low x y c k :
  0 <= k -> 0 <= x < 2 ^ k -> 0 <= c < 2 ^ k ->
  Z.lxor (x + y * 2 ^ k) c = Z.lxor x c + y * 2 ^ k.
Proof.
  intros Hk Hx Hc. rewrite !add_pow2_lxor by (try apply lxor_range; done). bool_ext.
Qed.

Lemma gf128_words a b :
  is_u64 a -> is_u64 b ->
  (to_u64 (a << 1) .^ (0x0087 >> (8 - ((b >> 63) << 3)))) + ((a >> 63) .| to_u64 (b << 1)) * 2 ^ 64
  = Z.lxor ((2 * (a + b * 2 ^ 64)) mod 2 ^ 128) (if a + b * 2 ^ 64 <? 2 ^ 127 then 0 else 0x87).
Proof.
  unfold is_u64. intros Ha Hb.
  rewrite !to_u64_mod, (Z.shiftr_div_pow2 a), (Z.shiftr_div_pow2 b), !Z.shiftl_mul_pow2 by lia.
  assert (Z.lor (a / 2 ^ 63) ((b * 2 ^ 1) mod 2 ^ 64) = a / 2 ^ 63 + (2 * b) mod 2 ^ 64) as ->.
  { replace ((b * 2 ^ 1) mod 2 ^ 64) with ((b mod 2 ^ 63) << 1)
      by (rewrite Z.shiftl_mul_pow2 by lia; zlia).
    rewrite lor_shiftl_add by (lia || zlia). zlia. }
  replace ((2 * (a + b * 2 ^ 64)) mod 2 ^ 128)
    with ((2 * a) mod 2 ^ 64 + (a / 2 ^ 63 + (2 * b) mod 2 ^ 64) * 2 ^ 64) by zlia.
  rewrite lxor_low by (first [lia | zlia | case_match; lia]). f_equal. f_equal; [zlia|].
  assert (b / 2 ^ 63 = 0 \/ b / 2 ^ 63 = 1) as [E|E] by zlia; rewrite E; simpl;
    destruct (Z.ltb_spec (a + b * 2 ^ 64) (2 ^ 127)); try done; zlia.
Qed.

Lemma gf128_ranges a b :
  is_u64 a -> is_u64 b ->
  is_u64 (to_u64 (a << 1) .^ (0x0087 >> (8 - ((b >> 63) << 3))))
  /\ is_u64 ((a >> 63) .| to_u64 (b << 1)).
Proof.
  unfold is_u64. intros Ha Hb. split.
  - apply (lxor_range 64); [lia|apply to_u64_range|].
    rewrite (Z.shiftr_div_pow2 b) by lia.
    assert (b / 2 ^ 63 = 0 \/ b / 2 ^ 63 = 1) as [-> | ->] by zlia; vm_compute; split; discriminate || reflexivity.
  - apply (lor_range 64); [lia| |apply to_u64_range]. rewrite Z.shiftr_div_pow2 by lia. zlia.
Qed.

(** the tweak update multiplies by [x] in the field GF(2^128) of
    IEEE P1619: the 128-bit little-endian value doubles, and a carry out of
    the top bit folds back as the polynomial [x^7 + x^2 + x + 1]. *)
Theorem gf128mul_x_ble_value tw :
  block tw ->
  block (mbedtls_gf128mul_x_ble tw)
  /\ le_val (mbedtls_gf128mul_x_ble tw)
     = Z.lxor ((2 * le_val tw) mod 2 ^ 128) (if le_val tw <? 2 ^ 127 then 0 else 0x87).
Proof.
  intros Htw. split; [apply block_alpha|]. open_block tw Htw.
  set (lo := [b; b0; b1; b2; b3; b4; b5; b6]). set (hi := [b7; b8; b9; b10; b11; b12; b13; b14]).
  assert (bytes lo) as Hlo by (repeat (apply Forall_cons_2; [done|]); done).
  assert (bytes hi) as Hhi by (repeat (apply Forall_cons_2; [done|]); done).
  change (b :: b0 :: b1 :: b2 :: b3 :: b4 :: b5 :: b6 :: hi) with (lo ++ hi).
  unfold mbedtls_gf128mul_x_ble.
  replace (GET_UINT64_LE (lo ++ hi) 0) with (le_val lo) by (by unfold lo; rewrite <- or64_val).
  replace (GET_UINT64_LE (lo ++ hi) 8) with (le_val hi) by (by unfold hi; rewrite <- or64_val).
  pose proof (le_val_range lo Hlo) as Rlo. pose proof (le_val_range hi Hhi) as Rhi.
  rewrite !put64_le_bytes, !le_val_app, !le_val_bytes, length_le_bytes.
  change (256 ^ Z.of_nat 8) with (2 ^ 64). change (256 ^ Z.of_nat (length lo)) with (2 ^ 64) in *.
  change (256 ^ Z.of_nat (length hi)) with (2 ^ 64) in *.
  rewrite !(Z.mul_comm (2 ^ 64)), <- gf128_words by done.
  f_equal; [|f_equal]; apply Z.mod_small; by apply gf128_ranges.
Qed.

Lemma init_tables_idem g : aes_init_tables (aes_init_tables g) = aes_init_tables g.
Proof. unfold aes_init_tables. destruct (aes_init_done g =? 0) eqn:E; simpl; by rewrite ?E. Qed.

(** The type invariant of an XTS context. *)
Definition xts_ok (ctx : mbedtls_aes_xts_context) : Prop := ctx_ok (crypt ctx) /\ ctx_ok (tweak ctx).

Lemma xts_setkey_eq setkey Nk g ctx key :
  Nk = 4%nat \/ Nk = 8%nat -> aes_ready g -> ctx_ok (tweak ctx) -> bytes key ->
  length key = (8 * Nk)%nat ->
  exists tw,
    xts_setkey setkey g ctx key (64 * Z.of_nat Nk)
    = (let '(g, cr, ret) := setkey (aes_init_tables g) (crypt ctx) key (32 * Z.of_nat Nk) in
       (g, {| crypt := cr; tweak := tw |}, ret))
    /\ (forall s, block s ->
          mbedtls_aes_crypt_ecb Rom.tables tw MBEDTLS_AES_ENCRYPT s
          = aes_encrypt Nk (drop (4 * Nk) key) s).
Proof.
  intros HNk Hg Ht Hk Hl.
  assert (key_size Nk) as Hks by (destruct HNk as [-> | ->]; [left|right; right]; done).
  unfold xts_setkey.
  replace (mbedtls_aes_xts_decode_keys key (64 * Z.of_nat Nk))
    with (@inl (list Z * Z * list Z * Z) Z
            (key, 32 * Z.of_nat Nk, drop (4 * Nk) key, 32 * Z.of_nat Nk)).
  2:{ destruct HNk as [-> | ->]; reflexivity. }
  rewrite setkey_enc_eq by (done || (rewrite length_drop; lia)).
  eexists. split; [reflexivity|]. intros s Hs.
  apply (setkey_enc_encrypt Nk); try done; [by apply Forall_drop|rewrite length_drop; lia].
Qed.

(** AES-XTS, keyed with a 256- or 512-bit double key, decrypts what it
    encrypts for the same data unit number, for every length it accepts (16
    octets to [2^20] blocks), including lengths that are not a whole number of
    blocks, where the last two blocks go through ciphertext stealing. *)
Theorem xts_roundtrip Nk g c1 c2 key data_unit input :
  Nk = 4%nat \/ Nk = 8%nat -> aes_ready g -> xts_ok c1 -> xts_ok c2 ->
  bytes key -> length key = (8 * Nk)%nat -> block data_unit ->
  bytes input -> 16 <= Z.of_nat (length input) <= 2 ^ 24 ->
  let '(g1, ce, r1) := mbedtls_aes_xts_setkey_enc g c1 key (64 * Z.of_nat Nk) in
  let '(g2, cd, r2) := mbedtls_aes_xts_setkey_dec g1 c2 key (64 * Z.of_nat Nk) in
  r1 = 0 /\ r2 = 0
  /\ exists ct,
       mbedtls_aes_crypt_xts (tabs g2) ce MBEDTLS_AES_ENCRYPT data_unit input = (0, ct)
       /\ length ct = length input
       /\ mbedtls_aes_crypt_xts (tabs g2) cd MBEDTLS_AES_DECRYPT data_unit ct = (0, input).
Proof.
  intros HNk Hg [H1c H1t] [H2c H2t] Hk Hkl Hdu Hb Hl.
  assert (key_size Nk) as Hks by (destruct HNk as [-> | ->]; [left|right; right]; done).
  destruct (init_tables g Hg) as [ET Hg1].
  destruct (xts_setkey_eq mbedtls_aes_setkey_enc Nk g c1 key) as (tw & Ee & Et); try done.
  unfold mbedtls_aes_xts_setkey_enc. rewrite Ee, setkey_enc_eq by (done || lia).
  rewrite !init_tables_idem. set (g' := aes_init_tables g) in *.
  destruct (xts_setkey_eq mbedtls_aes_setkey_dec Nk g' c2 key) as (tw' & Ed & Et'); try done.
  assert (aes_init_tables g' = g') as Hi by apply init_tables_idem.
  unfold mbedtls_aes_xts_setkey_dec. rewrite Ed, Hi, setkey_dec_eq, Hi by (done || lia).
  split; [done|]. split; [done|].
  rewrite ET. apply xts_inverse; try done; [|by rewrite Et, Et'].
  pose proof (setkey_enc_eq Nk g' (crypt c1) key Hks Hg1 ltac:(lia)) as E1. rewrite Hi in E1.
  pose proof (setkey_dec_eq Nk g' (crypt c2) key Hks Hg1 ltac:(lia)) as E2. rewrite Hi in E2.
  rewrite <- ET at 1.
  exact (keyed_pair Nk g' g' g' (crypt c1) (crypt c2) _ _ key Hks Hg1 H1c H2c Hk ltac:(lia) E1 E2).
Qed.

(** XTS refuses inputs shorter than a block or longer than [2^20] blocks
    with [MBEDTLS_ERR_AES_INVALID_INPUT_LENGTH] and writes nothing. *)
Lemma xts_rejects_lengths T ctx mode data_unit input :
  Z.of_nat (length input) < 16 \/ 2 ^ 24 < Z.of_nat (length input) ->
  mbedtls_aes_crypt_xts T ctx mode data_unit input = (MBEDTLS_ERR_AES_INVALID_INPUT_LENGTH, []).
Proof.
  intros H. unfold mbedtls_aes_crypt_xts. change ((1 << 20) * 16) with (2 ^ 24).
  destruct (Z.ltb_spec (Z.of_nat (length input)) 16); [done|].
  destruct (Z.ltb_spec (2 ^ 24) (Z.of_nat (length input))); [done|lia].
Qed.

(** ** Witnesses *)

Definition sample_text (n : nat) : list Z := map (fun i => Z.of_nat (7 * i + 3) mod 256) (seq 0 n).

Lemma cbc_roundtrip_witness :
  let ce := snd (fst sample_enc) in
  let cd := snd (fst sample_dec) in
  let '(ret, iv', ct) :=
    mbedtls_aes_crypt_cbc sample_tabs ce MBEDTLS_AES_ENCRYPT sample_block (sample_text 48) in
  ret = 0 /\ length ct = length (sample_text 48)
  /\ mbedtls_aes_crypt_cbc sample_tabs cd MBEDTLS_AES_DECRYPT sample_block ct
     = (0, iv', sample_text 48).
Proof.
  apply (cbc_roundtrip sample_tabs (snd (fst sample_enc)) (snd (fst sample_dec)) sample_block
           (sample_text 48) sample_pair);
    [apply (bool_decide_eq_true_1 _); vm_compute; reflexivity..|reflexivity].
Defined.

Lemma gf128mul_x_ble_value_witness :
  le_val (mbedtls_gf128mul_x_ble (replicate 15 0 ++ [0x80])) = 0x87.
Proof.
  rewrite (proj2 (gf128mul_x_ble_value (replicate 15 0 ++ [0x80])
                    ltac:(apply (bool_decide_eq_true_1 _); vm_compute; reflexivity))).
  reflexivity.
Defined.

Lemma xts_roundtrip_witness :
  let '(g1, ce, r1) := mbedtls_aes_xts_setkey_enc aes_globals0 mbedtls_aes_xts_init sample_key 256 in
  let '(g2, cd, r2) := mbedtls_aes_xts_setkey_dec g1 mbedtls_aes_xts_init sample_key 256 in
  r1 = 0 /\ r2 = 0
  /\ exists ct,
       mbedtls_aes_crypt_xts (tabs g2) ce MBEDTLS_AES_ENCRYPT sample_block (sample_text 37) = (0, ct)
       /\ length ct = length (sample_text 37)
       /\ mbedtls_aes_crypt_xts (tabs g2) cd MBEDTLS_AES_DECRYPT sample_block ct
          = (0, sample_text 37).
Proof.
  apply (xts_roundtrip 4 aes_globals0 mbedtls_aes_xts_init mbedtls_aes_xts_init sample_key
           sample_block (sample_text 37)); try (left; reflexivity);
    try (apply (bool_decide_eq_true_1 _); vm_compute; reflexivity).
  all: try (split; apply (bool_decide_eq_true_1 _); vm_compute; reflexivity).
Defined.
