(* ===== verification/AesStreamCorrect.v ===== *)
(** * Correctness of the stream modes: CTR, OFB, CFB128 and CFB8

    All four are an octet-by-octet automaton ([run_stream]), so a message may
    be passed in pieces of any length.  CTR is characterised by its key
    stream, which gives random access: the position in the stream, not the
    history of calls, determines the octets. *)

From S2P Require Import Prelude Octets AesTables AesSpec AesCore AesCorrect AesModes AesModesCorrect.
Open Scope Z_scope.
Open Scope c_scope.
Import Aes Modes.

(** ** Automata on octets *)

Section Stream.
Context {S : Type} (step : S -> Z -> S * Z).

(** A message in two pieces is processed as in one. *)
Lemma run_stream_app s a b :
  run_stream step s (a ++ b)
  = let '(s1, o1) := run_stream step s a in
    let '(s2, o2) := run_stream step s1 b in (s2, o1 ++ o2).
Proof.
  revert s. induction a as [|c a IH]; intros s; simpl.
  { by destruct (run_stream step s b). }
  destruct (step s c) as [s1 o]. rewrite IH.
  destruct (run_stream step s1 a) as [s2 o2]. by destruct (run_stream step s2 b).
Qed.

Lemma length_run_stream s input : length (snd (run_stream step s input)) = length input.
Proof.
  revert s. induction input as [|c input IH]; intros s; simpl; [done|].
  destruct (step s c) as [s1 o]. specialize (IH s1).
  destruct (run_stream step s1 input). simpl in *. by rewrite IH.
Qed.

(** Two automata that undo each other octet by octet, staying in states that
    correspond, undo each other on messages. *)
Lemma run_stream_inverse (step' : S -> Z -> S * Z) (I : S -> Prop) :
  (forall s c, I s -> is_byte c ->
     let '(s1, o) := step s c in I s1 /\ is_byte o /\ step' s o = (s1, c)) ->
  forall input s, I s -> bytes input ->
  let '(s1, out) := run_stream step s input in
  I s1 /\ bytes out /\ run_stream step' s out = (s1, input).
Proof.
  intros Hstep. induction input as [|c input IH]; intros s Hs Hb; simpl; [auto|].
  apply Forall_cons_1 in Hb as [Hc Hb]. specialize (Hstep s c Hs Hc).
  destruct (step s c) as [s1 o]. destruct Hstep as (H1 & Ho & Hd).
  specialize (IH s1 H1 Hb). destruct (run_stream step s1 input) as [s2 out].
  destruct IH as (H2 & Hout & IHd). split; [done|]. split; [by constructor|].
  cbn [run_stream]. by rewrite Hd, IHd.
Qed.
End Stream.

(** Positions inside the block register. *)
Lemma next_off n : 0 <= n < 16 -> (n + 1) .& 0x0F = (n + 1) mod 16.
Proof. intros H. apply (Z.land_ones _ 4). lia. Qed.

Lemma next_off_range n : 0 <= n < 16 -> 0 <= (n + 1) .& 0x0F < 16.
Proof. intros H. rewrite next_off by done. apply Z.mod_pos_bound. lia. Qed.

Lemma upd_block b n v : block b -> is_byte v -> block (upd b n v).
Proof.
  intros [Hl Hb] Hv. split; [unfold upd; by rewrite length_insert|].
  unfold upd. by apply Forall_insert.
Qed.

Lemma block_rd b i : block b -> is_byte b.[i].
Proof. intros [_ H]. by apply bytes_rd. Qed.

#[export] Hint Resolve upd_block block_rd : bufs.

(** ** CFB and OFB *)

Section Feedback.
Context (T : aes_tables) (ctx : mbedtls_aes_context).

(** The register of a feedback mode: an offset inside a block, and the block. *)
Definition reg_ok (st : Z * list Z) : Prop := 0 <= fst st < 16 /\ block (snd st).

#[export] Instance reg_ok_dec st : Decision (reg_ok st).
Proof. unfold reg_ok. apply _. Defined.

Lemma block_refill n iv : block iv -> block (refill T ctx n iv).
Proof. intros H. unfold refill. case_match; auto with bufs. Qed.

Lemma cfb128_step_inverse st c :
  reg_ok st -> is_byte c ->
  let '(st', o) := cfb128_encrypt_step T ctx st c in
  reg_ok st' /\ is_byte o /\ cfb128_decrypt_step T ctx st o = (st', c).
Proof.
  destruct st as [n iv]. intros [Hn Hiv] Hc. simpl in Hn, Hiv.
  unfold cfb128_encrypt_step, cfb128_decrypt_step.
  pose proof (block_refill n iv Hiv) as Hr. set (r := refill T ctx n iv) in *.
  assert (is_byte r.[n]) as Hrn by auto with bufs.
  rewrite (to_u8_id (r.[n] .^ c)) by auto with widths.
  rewrite (to_u8_id (r.[n] .^ c)) by auto with widths.
  split; [|split; [auto with widths|]].
  - split; simpl; [by apply next_off_range|auto with bufs widths].
  - f_equal. rewrite (Z.lxor_comm _ r.[n]), lxor_cancel_l. by apply to_u8_id.
Qed.

Lemma ofb_step_inverse st c :
  reg_ok st -> is_byte c ->
  let '(st', o) := ofb_step T ctx st c in
  reg_ok st' /\ is_byte o /\ ofb_step T ctx st o = (st', c).
Proof.
  destruct st as [n iv]. intros [Hn Hiv] Hc. simpl in Hn, Hiv. unfold ofb_step.
  pose proof (block_refill n iv Hiv) as Hr. set (r := refill T ctx n iv) in *.
  assert (is_byte r.[n]) as Hrn by auto with bufs.
  rewrite (to_u8_id (c .^ r.[n])) by auto with widths.
  split; [|split; [auto with widths|]].
  - split; simpl; [by apply next_off_range|done].
  - f_equal. rewrite lxor_cancel. by apply to_u8_id.
Qed.

Lemma cfb8_step_inverse iv c :
  block iv -> is_byte c ->
  let '(iv', o) := cfb8_step T ctx MBEDTLS_AES_ENCRYPT iv c in
  block iv' /\ is_byte o /\ cfb8_step T ctx MBEDTLS_AES_DECRYPT iv o = (iv', c).
Proof.
  intros Hiv Hc. unfold cfb8_step. simpl.
  set (r := mbedtls_aes_crypt_ecb T ctx MBEDTLS_AES_ENCRYPT iv).
  assert (is_byte r.[0]) as Hr by (apply block_rd, block_crypt_ecb).
  rewrite !(to_u8_id (r.[0] .^ c)) by auto with widths.
  split; [|split; [auto with widths|]].
  - destruct Hiv as [Hl Hb]. split.
    + rewrite length_drop, length_app. simpl. lia.
    + apply Forall_drop, Forall_app_2; [done|]. auto with widths.
  - f_equal. rewrite lxor_cancel_l. by apply to_u8_id.
Qed.
End Feedback.

(** The feedback modes decrypt what they encrypt from the same register:
    CFB128 and CFB8 by their decryption direction, OFB by itself.  Both
    directions leave the same register, so the next call continues in step. *)
Theorem feedback_modes_roundtrip T ctx off iv input :
  0 <= off < 16 -> block iv -> bytes input ->
  (let '(off', iv', ct) := mbedtls_aes_crypt_cfb128 T ctx MBEDTLS_AES_ENCRYPT off iv input in
   length ct = length input
   /\ mbedtls_aes_crypt_cfb128 T ctx MBEDTLS_AES_DECRYPT off iv ct = (off', iv', input))
  /\ (let '(off', iv', ct) := mbedtls_aes_crypt_ofb T ctx off iv input in
      length ct = length input
      /\ mbedtls_aes_crypt_ofb T ctx off iv ct = (off', iv', input))
  /\ (let '(iv', ct) := mbedtls_aes_crypt_cfb8 T ctx MBEDTLS_AES_ENCRYPT iv input in
      length ct = length input
      /\ mbedtls_aes_crypt_cfb8 T ctx MBEDTLS_AES_DECRYPT iv ct = (iv', input)).
Proof.
  intros Hoff Hiv Hb. assert (reg_ok (off, iv)) as Hr by done.
  unfold mbedtls_aes_crypt_cfb128, mbedtls_aes_crypt_ofb, mbedtls_aes_crypt_cfb8. simpl.
  split; [|split].
  - pose proof (run_stream_inverse _ _ _ (cfb128_step_inverse T ctx) input _ Hr Hb) as H.
    pose proof (length_run_stream (cfb128_encrypt_step T ctx) (off, iv) input) as L.
    destruct (run_stream _ _ _) as [[off' iv'] ct]. by destruct H as (_ & _ & ->).
  - pose proof (run_stream_inverse _ _ _ (ofb_step_inverse T ctx) input _ Hr Hb) as H.
    pose proof (length_run_stream (ofb_step T ctx) (off, iv) input) as L.
    destruct (run_stream _ _ _) as [[off' iv'] ct]. by destruct H as (_ & _ & ->).
  - pose proof (run_stream_inverse (cfb8_step T ctx MBEDTLS_AES_ENCRYPT)
                  (cfb8_step T ctx MBEDTLS_AES_DECRYPT) block (cfb8_step_inverse T ctx) input _ Hiv Hb) as H.
    pose proof (length_run_stream (cfb8_step T ctx MBEDTLS_AES_ENCRYPT) iv input) as L.
    destruct (run_stream _ _ _) as [iv' ct]. by destruct H as (_ & _ & ->).
Qed.

(** ** The counter *)

(** Increment of a little-endian octet string, with the carry. *)
Fixpoint le_inc (l : list Z) : list Z :=
  match l with
  | [] => []
  | b :: l => let v := to_u8 (b + 1) in v :: (if negb (v =? 0) then l else le_inc l)
  end.

Lemma le_inc_bytes n v : le_inc (le_bytes n v) = le_bytes n (v + 1).
Proof.
  revert v. induction n as [|n IH]; intros v; [done|]. cbn [le_bytes le_inc].
  rewrite to_u8_mod, Zplus_mod_idemp_l. f_equal.
  destruct (Z.eqb_spec ((v + 1) mod 256) 0) as [E|E]; simpl.
  - rewrite IH. f_equal. zlia.
  - f_equal. zlia.
Qed.

Lemma nth_last_take {A} (l : list A) i d :
  (i < length l)%nat -> take (S i) l = take i l ++ [nth i l d].
Proof.
  revert i. induction l as [|x l IH]; intros [|i] H; simpl in *; try lia; [done|].
  f_equal. apply IH. lia.
Qed.

(** The loop of [mbedtls_aes_crypt_ctr] over the first [i] octets. *)
Lemma ctr_increment_take i nc :
  (i <= length nc)%nat -> ctr_increment i nc = rev (le_inc (rev (take i nc))) ++ drop i nc.
Proof.
  revert nc. induction i as [|i IH]; intros nc Hi; [done|].
  cbn [ctr_increment]. rewrite (nth_last_take nc i 0), rev_app_distr by lia.
  cbn [rev app le_inc]. unfold rd. rewrite !Nat2Z.id.
  set (v := to_u8 (nth i nc 0 + 1)).
  assert (upd nc (Z.of_nat i) v = take i nc ++ v :: drop (S i) nc) as Hu.
  { unfold upd. rewrite Nat2Z.id. by apply insert_take_drop. }
  assert (length (take i nc) = i) as Ht by (rewrite length_take; lia).
  destruct (v =? 0); cbn [negb].
  - rewrite Hu, IH by (rewrite length_app; simpl; rewrite length_drop; lia).
    rewrite take_app_length', drop_app_length' by done. by rewrite <- app_assoc.
  - rewrite Hu, rev_involutive. by rewrite <- app_assoc.
Qed.

Lemma ctr_increment_be v : ctr_increment 16 (be_bytes 16 v) = be_bytes 16 (v + 1).
Proof.
  rewrite ctr_increment_take by by rewrite length_be_bytes.
  rewrite take_ge, drop_ge by by rewrite length_be_bytes.
  unfold be_bytes. by rewrite app_nil_r, rev_involutive, le_inc_bytes.
Qed.

(** the counter update of CTR mode adds one to the 128-bit big-endian
    counter, wrapping around at [2^128]. *)
Theorem ctr_increment_value nonce_counter :
  block nonce_counter ->
  block (ctr_increment 16 nonce_counter)
  /\ be_val (ctr_increment 16 nonce_counter) = (be_val nonce_counter + 1) mod 2 ^ 128.
Proof.
  intros [Hl Hb]. rewrite <- (be_bytes_val nonce_counter Hb), Hl, ctr_increment_be.
  rewrite !be_val_bytes. change (256 ^ Z.of_nat 16) with (2 ^ 128).
  split; [split; [apply length_be_bytes|apply bytes_be_bytes]|].
  by rewrite Zplus_mod_idemp_l.
Qed.

(** ** CTR *)

Section Ctr.
Context (T : aes_tables) (ctx : mbedtls_aes_context).

(** Octet [k] of the key stream that starts at counter value [v]. *)
Definition ctr_keystream (v : Z) (k : nat) : Z :=
  (mbedtls_aes_crypt_ecb T ctx MBEDTLS_AES_ENCRYPT (be_bytes 16 (v + Z.of_nat (k / 16)))).[Z.of_nat (k mod 16)].

(** Octets [k], [k + 1], ... of the stream, as many as the message has. *)
Fixpoint ctr_xor (v : Z) (k : nat) (input : list Z) : list Z :=
  match input with
  | [] => []
  | c :: input => Z.lxor c (ctr_keystream v k) :: ctr_xor v (S k) input
  end.

(** The registers of CTR mode at position [k] of the stream from [v]. *)
Definition ctr_at (v : Z) (k : nat) (st : Z * list Z * list Z) : Prop :=
  let '(n, nonce_counter, stream_block) := st in
  n = Z.of_nat (k mod 16)
  /\ nonce_counter = be_bytes 16 (v + Z.of_nat ((k + 15) / 16))
  /\ ((k mod 16 <> 0)%nat ->
      stream_block = mbedtls_aes_crypt_ecb T ctx MBEDTLS_AES_ENCRYPT (be_bytes 16 (v + Z.of_nat (k / 16)))).

Lemma keystream_byte v k : is_byte (ctr_keystream v k).
Proof. apply block_rd, block_crypt_ecb. Qed.

Lemma ctr_step_at v k st c :
  ctr_at v k st -> is_byte c ->
  let '(st', o) := ctr_step T ctx st c in ctr_at v (S k) st' /\ o = Z.lxor c (ctr_keystream v k).
Proof.
  destruct st as [[n nc] sb]. intros (-> & -> & Hsb) Hc. unfold ctr_step.
  rewrite next_off by (zify; zlia).
  assert ((Z.of_nat (k mod 16) + 1) mod 16 = Z.of_nat (S k mod 16)) as -> by (zify; zlia).
  pose proof (keystream_byte v k) as Hks. unfold ctr_keystream in *.
  destruct (Z.eqb_spec (Z.of_nat (k mod 16)) 0) as [E|E].
  - assert ((k + 15) / 16 = k / 16)%nat as Ek by (zify; zlia).
    assert ((S k + 15) / 16 = S (k / 16))%nat as Es by (zify; zlia).
    rewrite Ek, ctr_increment_be. split; [split; [done|split]|].
    + f_equal. lia.
    + intros _. f_equal. f_equal. f_equal. f_equal. zify; zlia.
    + by apply to_u8_id, lxor_byte.
  - assert ((S k + 15) / 16 = (k + 15) / 16)%nat as Es by (zify; zlia).
    rewrite Hsb by lia. split; [split; [done|split]|].
    + f_equal. lia.
    + intros Hn. f_equal. f_equal. f_equal. f_equal. zify; zlia.
    + by apply to_u8_id, lxor_byte.
Qed.

Lemma run_ctr_at v k st input :
  ctr_at v k st -> bytes input ->
  let '(st', out) := run_stream (ctr_step T ctx) st input in
  ctr_at v (k + length input) st' /\ out = ctr_xor v k input.
Proof.
  revert k st. induction input as [|c input IH]; intros k st Hst Hb; simpl.
  { by rewrite Nat.add_0_r. }
  apply Forall_cons_1 in Hb as [Hc Hb]. pose proof (ctr_step_at v k st c Hst Hc) as Hs.
  destruct (ctr_step T ctx st c) as [st1 o]. destruct Hs as [H1 ->].
  specialize (IH (S k) st1 H1 Hb). destruct (run_stream _ st1 input) as [st2 out].
  destruct IH as [H2 ->]. by rewrite Nat.add_succ_r.
Qed.

Lemma ctr_at_off v k st : ctr_at v k st -> 0 <= fst (fst st) < 16.
Proof. destruct st as [[n nc] sb]. intros (-> & _). simpl. zify; zlia. Qed.

Lemma ctr_at_start nc sb : block nc -> ctr_at (be_val nc) 0 (0, nc, sb).
Proof.
  intros [Hl Hb]. split; [done|split; [|done]].
  change (Z.of_nat ((0 + 15) / 16)) with 0. by rewrite Z.add_0_r, <- Hl, be_bytes_val.
Qed.

Lemma length_ctr_xor v k input : length (ctr_xor v k input) = length input.
Proof. revert k. induction input as [|c input IH]; intros k; simpl; [done|]. by rewrite IH. Qed.

Lemma bytes_ctr_xor v k input : bytes input -> bytes (ctr_xor v k input).
Proof.
  intros H. revert k. induction H as [|c input Hc Hb IH]; intros k; constructor; [|done].
  apply lxor_byte; [done|apply keystream_byte].
Qed.

Lemma ctr_xor_twice v k input : ctr_xor v k (ctr_xor v k input) = input.
Proof.
  revert k. induction input as [|c input IH]; intros k; simpl; [done|].
  by rewrite IH, lxor_cancel.
Qed.

Lemma ctr_xor_app v k a b : ctr_xor v k (a ++ b) = ctr_xor v k a ++ ctr_xor v (k + length a) b.
Proof.
  revert k. induction a as [|c a IH]; intros k; simpl; [by rewrite Nat.add_0_r|].
  by rewrite IH, Nat.add_succ_r.
Qed.

(** Starting at counter [v + j] is starting at position [16 * j]. *)
Lemma ctr_xor_shift v j k input : ctr_xor (v + Z.of_nat j) k input = ctr_xor v (16 * j + k) input.
Proof.
  revert k. induction input as [|c input IH]; intros k; simpl; [done|].
  rewrite IH, Nat.add_succ_r. f_equal. f_equal. unfold ctr_keystream.
  rewrite (Nat.add_comm (16 * j)), (Nat.mul_comm 16), Nat.div_add, Nat.Div0.mod_add by done.
  by rewrite Nat2Z.inj_add, (Z.add_comm (Z.of_nat (k / 16))), Z.add_assoc.
Qed.
End Ctr.

Lemma crypt_ctr_at T ctx v k n nc sb input :
  ctr_at T ctx v k (n, nc, sb) -> bytes input ->
  exists st', mbedtls_aes_crypt_ctr T ctx n nc sb input = (0, st', ctr_xor T ctx v k input)
    /\ ctr_at T ctx v (k + length input) st'.
Proof.
  intros Hst Hb. unfold mbedtls_aes_crypt_ctr.
  pose proof (ctr_at_off T ctx v k _ Hst) as Ho. simpl in Ho.
  destruct (Z.ltb_spec 0x0F n); [lia|].
  pose proof (run_ctr_at T ctx v k _ input Hst Hb) as H1.
  destruct (run_stream _ _ _) as [st' out]. destruct H1 as [H1 ->]. by exists st'.
Qed.

(** CTR mode from a counter block xors the message with the key stream
    [E(v), E(v + 1), ...] of that counter, however the message is cut into two
    calls: the registers carry the position of the stream from one call to
    the next. *)
Theorem ctr_two_calls T ctx nonce_counter stream_block a b :
  block nonce_counter -> bytes a -> bytes b ->
  let v := be_val nonce_counter in
  exists n nc sb st',
    mbedtls_aes_crypt_ctr T ctx 0 nonce_counter stream_block a = (0, (n, nc, sb), ctr_xor T ctx v 0 a)
    /\ mbedtls_aes_crypt_ctr T ctx n nc sb b = (0, st', ctr_xor T ctx v (length a) b)
    /\ mbedtls_aes_crypt_ctr T ctx 0 nonce_counter stream_block (a ++ b)
       = (0, st', ctr_xor T ctx v 0 a ++ ctr_xor T ctx v (length a) b).
Proof.
  intros Hnc Ha Hb v. pose proof (ctr_at_start T ctx nonce_counter stream_block Hnc) as H0.
  destruct (crypt_ctr_at T ctx v 0 _ _ _ a H0 Ha) as ([[n nc] sb] & E1 & H1).
  destruct (crypt_ctr_at T ctx v _ _ _ _ b H1 Hb) as (st' & E2 & H2).
  exists n, nc, sb, st'. split; [done|]. split; [done|].
  unfold mbedtls_aes_crypt_ctr in *. simpl in *. rewrite run_stream_app.
  destruct (run_stream _ (0, _, _) a) as [s1 o1]. injection E1 as -> ->.
  destruct (0x0F <? n); [discriminate|]. destruct (run_stream _ (n, nc, sb) b) as [s2 o2].
  by injection E2 as -> ->.
Qed.

(** CTR is its own inverse: a second run from the same counter block
    restores the message, also when it starts at block [j] of the stream by
    adding [j] to the counter. *)
Theorem ctr_random_access T ctx nonce_counter sb1 sb2 j a b :
  block nonce_counter -> bytes a -> bytes b -> length a = (16 * j)%nat ->
  exists st1 st2,
    let '(_, _, ct) := mbedtls_aes_crypt_ctr T ctx 0 nonce_counter sb1 (a ++ b) in
    mbedtls_aes_crypt_ctr T ctx 0 nonce_counter sb1 ct = (0, st1, a ++ b)
    /\ mbedtls_aes_crypt_ctr T ctx 0 (be_bytes 16 (be_val nonce_counter + Z.of_nat j)) sb2
         (drop (16 * j) ct) = (0, st2, b).
Proof.
  intros Hnc Ha Hb Hl. set (v := be_val nonce_counter).
  pose proof (ctr_at_start T ctx nonce_counter sb1 Hnc) as H0. fold v in H0.
  assert (bytes (a ++ b)) as Hab by by apply Forall_app_2.
  destruct (crypt_ctr_at T ctx v 0 _ _ _ (a ++ b) H0 Hab) as (st0 & E0 & _).
  destruct (crypt_ctr_at T ctx v 0 _ _ _ _ H0 (bytes_ctr_xor T ctx v 0 _ Hab)) as (st1 & E1 & _).
  assert (ctr_at T ctx (v + Z.of_nat j) 0 (0, be_bytes 16 (v + Z.of_nat j), sb2)) as H2.
  { split; [done|split; [|done]]. by rewrite Z.add_0_r. }
  destruct (crypt_ctr_at T ctx _ 0 _ _ _ (ctr_xor T ctx v (16 * j) b) H2
              (bytes_ctr_xor _ _ _ _ _ Hb)) as (st2 & E2 & _).
  exists st1, st2. rewrite E0. split; [by rewrite E1, ctr_xor_twice|].
  rewrite ctr_xor_app, drop_app_length' by by rewrite length_ctr_xor.
  simpl. rewrite Hl, E2, ctr_xor_shift, Nat.add_0_r. by rewrite ctr_xor_twice.
Qed.

(** The modes refuse what they cannot process, with the documented error
    codes, leaving their registers as they were and writing nothing: CBC a
    partial block, XTS a data unit shorter than a block or longer than [2^20]
    blocks, CTR an offset past the end of the stream block. *)
Theorem aes_modes_reject T ctx xctx mode iv sb off input :
  (length input mod 16 <> 0)%nat ->
  Z.of_nat (length input) < 16 \/ 2 ^ 24 < Z.of_nat (length input) ->
  15 < off ->
  mbedtls_aes_crypt_cbc T ctx mode iv input = (MBEDTLS_ERR_AES_INVALID_INPUT_LENGTH, iv, [])
  /\ mbedtls_aes_crypt_xts T xctx mode iv input = (MBEDTLS_ERR_AES_INVALID_INPUT_LENGTH, [])
  /\ mbedtls_aes_crypt_ctr T ctx off iv sb input
     = (MBEDTLS_ERR_AES_BAD_INPUT_DATA, (off, iv, sb), []).
Proof.
  intros Hm Hl Ho. split; [by apply cbc_rejects_partial_blocks|].
  split; [by apply xts_rejects_lengths|].
  unfold mbedtls_aes_crypt_ctr. by destruct (Z.ltb_spec 0x0F off); [|lia].
Qed.

(** ** Witnesses *)

Abbreviation sample_ctx := (snd (fst sample_enc)).

Ltac by_eval := apply (bool_decide_eq_true_1 _); vm_compute; reflexivity.

Lemma feedback_modes_roundtrip_witness :
  let '(off', iv', ct) :=
    mbedtls_aes_crypt_cfb128 sample_tabs sample_ctx MBEDTLS_AES_ENCRYPT 3 sample_block (sample_text 20) in
  length ct = length (sample_text 20)
  /\ mbedtls_aes_crypt_cfb128 sample_tabs sample_ctx MBEDTLS_AES_DECRYPT 3 sample_block ct
     = (off', iv', sample_text 20).
Proof.
  destruct (feedback_modes_roundtrip sample_tabs sample_ctx 3 sample_block (sample_text 20)) as [H _];
    [lia|by_eval..|exact H].
Defined.

Lemma ctr_increment_value_witness :
  be_val (ctr_increment 16 (replicate 16 0xFF)) = 0.
Proof.
  rewrite (proj2 (ctr_increment_value (replicate 16 0xFF) ltac:(by_eval))). reflexivity.
Defined.

Lemma ctr_two_calls_witness :
  exists n nc sb st',
    mbedtls_aes_crypt_ctr sample_tabs sample_ctx 0 sample_block [] (sample_text 5)
      = (0, (n, nc, sb), ctr_xor sample_tabs sample_ctx (be_val sample_block) 0 (sample_text 5))
    /\ mbedtls_aes_crypt_ctr sample_tabs sample_ctx n nc sb (sample_text 30)
      = (0, st', ctr_xor sample_tabs sample_ctx (be_val sample_block) (length (sample_text 5)) (sample_text 30))
    /\ mbedtls_aes_crypt_ctr sample_tabs sample_ctx 0 sample_block [] (sample_text 5 ++ sample_text 30)
       = (0, st', ctr_xor sample_tabs sample_ctx (be_val sample_block) 0 (sample_text 5)
                  ++ ctr_xor sample_tabs sample_ctx (be_val sample_block) (length (sample_text 5)) (sample_text 30)).
Proof.
  apply (ctr_two_calls sample_tabs sample_ctx sample_block [] (sample_text 5) (sample_text 30));
    by_eval.
Defined.

Lemma ctr_random_access_witness :
  exists st1 st2,
    let '(_, _, ct) := mbedtls_aes_crypt_ctr sample_tabs sample_ctx 0 sample_block []
                         (sample_text 32 ++ sample_text 9) in
    mbedtls_aes_crypt_ctr sample_tabs sample_ctx 0 sample_block [] ct
      = (0, st1, sample_text 32 ++ sample_text 9)
    /\ mbedtls_aes_crypt_ctr sample_tabs sample_ctx 0 (be_bytes 16 (be_val sample_block + Z.of_nat 2)) []
         (drop (16 * 2) ct) = (0, st2, sample_text 9).
Proof.
  apply (ctr_random_access sample_tabs sample_ctx sample_block [] [] 2 (sample_text 32) (sample_text 9));
    [by_eval..|reflexivity].
Defined.

Lemma aes_modes_reject_witness :
  mbedtls_aes_crypt_xts sample_tabs mbedtls_aes_xts_init MBEDTLS_AES_DECRYPT sample_block
    (sample_text 15) = (MBEDTLS_ERR_AES_INVALID_INPUT_LENGTH, []).
Proof.
  destruct (aes_modes_reject sample_tabs sample_ctx mbedtls_aes_xts_init
    MBEDTLS_AES_DECRYPT sample_block [] 16 (sample_text 15)) as (_ & H & _);
    [vm_compute; discriminate|left; vm_compute; reflexivity|lia|exact H].
Defined.
