(* ===== verification/MdStream.v ===== *)
(** * Block-wise digests: buffering and padding

    [mbedtls_sha256_update_ret] / [_finish_ret] (externals/mbedtls/library/
    sha256.c) and [mbedtls_md5_update_ret] / [_finish_ret] (md5.c) are the same
    text around a compression function of their own and, at the end of the
    padding, an encoding of the message length of their own.  The section
    below is that text over the two; [Sha256] and [Md5] instantiate it.

    The abstract state is the message absorbed so far ([absorbed]); [update]
    appends to it and [finish] pads it, so a digest depends on the message and
    not on the calls it was passed in. *)

From S2P Require Import Prelude Octets.
Open Scope Z_scope.
Open Scope c_scope.

(** [memcpy( buf + off, src, length src )] and [memset( buf + off, c, n )]. *)
Definition memcpy (buf : list Z) (off : nat) (src : list Z) : list Z :=
  take off buf ++ src ++ drop (off + length src) buf.
Definition memset (buf : list Z) (off : nat) (c : Z) (n : nat) : list Z :=
  memcpy buf off (replicate n c).

Lemma length_memcpy buf off src :
  (off + length src <= length buf)%nat -> length (memcpy buf off src) = length buf.
Proof. intros H. unfold memcpy. rewrite !length_app, length_take, length_drop. lia. Qed.

Lemma length_memset buf off c n :
  (off + n <= length buf)%nat -> length (memset buf off c n) = length buf.
Proof. intros H. apply length_memcpy. by rewrite length_replicate. Qed.

Lemma take_memcpy buf off src :
  (off <= length buf)%nat -> take (off + length src) (memcpy buf off src) = take off buf ++ src.
Proof.
  intros H. unfold memcpy. rewrite app_assoc, take_app_length'; [done|].
  rewrite length_app, length_take. lia.
Qed.

Lemma take_memset buf off c n :
  (off <= length buf)%nat -> take (off + n) (memset buf off c n) = take off buf ++ replicate n c.
Proof. intros H. rewrite <- (length_replicate n c) at 1. by apply take_memcpy. Qed.

(** The part of the context the two digests share. *)
Record md_stream := { total0 : Z; total1 : Z; state : list Z; buffer : list Z }.

Definition set_state (ctx : md_stream) (st : list Z) : md_stream :=
  {| total0 := total0 ctx; total1 := total1 ctx; state := st; buffer := buffer ctx |}.
Definition set_buffer (ctx : md_stream) (b : list Z) : md_stream :=
  {| total0 := total0 ctx; total1 := total1 ctx; state := state ctx; buffer := b |}.

Section Stream.
(** The compression function, and the eight octets of the message length from
    [high] and [low]. *)
Context (process : list Z -> list Z -> list Z) (put_length : Z -> Z -> list Z).

(** [while( ilen >= 64 )]: the state after [n] blocks. *)
Fixpoint process_blocks (n : nat) (st input : list Z) : list Z :=
  match n with
  | O => st
  | S n => process_blocks n (process st (take 64 input)) (drop 64 input)
  end.

(** [total[0] += (uint32_t) ilen; ... if( total[0] < (uint32_t) ilen ) total[1]++]. *)
Definition add_total (ctx : md_stream) (ilen : Z) : md_stream :=
  let t0 := to_u32 (total0 ctx + to_u32 ilen) in
  {| total0 := t0;
     total1 := if t0 <? to_u32 ilen then to_u32 (total1 ctx + 1) else total1 ctx;
     state := state ctx; buffer := buffer ctx |}.

(** [..._update_ret]. *)
Definition stream_update (ctx : md_stream) (input : list Z) : md_stream :=
  if (length input =? 0)%nat then ctx
  else
    let left := Z.to_nat (total0 ctx .& 0x3F) in
    let fill := (64 - left)%nat in
    let ctx := add_total ctx (Z.of_nat (length input)) in
    let '(ctx, input, left') :=
      if negb (left =? 0)%nat && (fill <=? length input)%nat then
        let b := memcpy (buffer ctx) left (take fill input) in
        (set_state (set_buffer ctx b) (process (state ctx) b), drop fill input, 0%nat)
      else (ctx, input, left) in
    let n := (length input / 64)%nat in
    let ctx := set_state ctx (process_blocks n (state ctx) input) in
    let input := drop (64 * n) input in
    if (0 <? length input)%nat then set_buffer ctx (memcpy (buffer ctx) left' input) else ctx.

(** [..._finish_ret], up to the encoding of the state. *)
Definition stream_finish (ctx : md_stream) : md_stream :=
  let used := Z.to_nat (total0 ctx .& 0x3F) in
  let ctx := set_buffer ctx (memcpy (buffer ctx) used [0x80]) in
  let used := (used + 1)%nat in
  let ctx :=
    if (used <=? 56)%nat then set_buffer ctx (memset (buffer ctx) used 0 (56 - used))
    else
      let ctx := set_buffer ctx (memset (buffer ctx) used 0 (64 - used)) in
      let ctx := set_state ctx (process (state ctx) (buffer ctx)) in
      set_buffer ctx (memset (buffer ctx) 0 0 56) in
  let high := (total0 ctx >> 29) .| to_u32 (total1 ctx << 3) in
  let low := to_u32 (total0 ctx << 3) in
  let ctx := set_buffer ctx (memcpy (buffer ctx) 56 (put_length high low)) in
  set_state ctx (process (state ctx) (buffer ctx)).

(** ** Specification *)

(** The padded message: [0x80], zeros up to 56 modulo 64, and the length in
    bits. *)
Definition pad (m : list Z) : list Z :=
  let bits := 8 * Z.of_nat (length m) in
  m ++ [0x80] ++ replicate ((119 - length m mod 64) mod 64) 0
    ++ put_length (bits / 2 ^ 32) (bits mod 2 ^ 32).

(** All blocks of a message. *)
Definition process_all (st m : list Z) : list Z := process_blocks (length m / 64) st m.

(** A context that has absorbed [m] from the state [st0]. *)
Record absorbed (st0 m : list Z) (ctx : md_stream) : Prop := {
  abs_total0 : total0 ctx = Z.of_nat (length m) mod 2 ^ 32;
  abs_total1 : total1 ctx = (Z.of_nat (length m) / 2 ^ 32) mod 2 ^ 32;
  abs_state : state ctx = process_all st0 m;
  abs_len : length (buffer ctx) = 64%nat;
  abs_buffer : take (length m mod 64) (buffer ctx) = drop (64 * (length m / 64)) m
}.

Lemma process_blocks_add a b st m :
  process_blocks (a + b) st m = process_blocks b (process_blocks a st m) (drop (64 * a) m).
Proof.
  revert st m. induction a as [|a IH]; intros st m; [done|].
  cbn [Nat.add process_blocks]. rewrite IH, drop_drop. do 2 f_equal. lia.
Qed.

Lemma process_blocks_prefix n st m x :
  (64 * n <= length m)%nat -> process_blocks n st (m ++ x) = process_blocks n st m.
Proof.
  revert st m. induction n as [|n IH]; intros st m H; [done|].
  cbn [process_blocks]. rewrite take_app_le, drop_app_le by lia.
  apply IH. rewrite length_drop. lia.
Qed.

Lemma div64 n k : (k < 64)%nat -> ((64 * n + k) / 64 = n /\ (64 * n + k) mod 64 = k)%nat.
Proof.
  intros H. rewrite (Nat.add_comm (64 * n)), (Nat.mul_comm 64), Nat.div_add, Nat.Div0.mod_add by done.
  by rewrite Nat.div_small, Nat.mod_small.
Qed.

(** Splitting a message into its blocks and a remainder. *)
Lemma process_all_split st m n r :
  length m = (64 * n)%nat -> process_all st (m ++ r) = process_all (process_all st m) r.
Proof.
  intros Hm. unfold process_all. rewrite length_app, Hm.
  assert ((64 * n + length r) / 64 = n + length r / 64)%nat as ->
    by (rewrite (Nat.mul_comm 64), Nat.add_comm, Nat.div_add by done; lia).
  rewrite process_blocks_add, drop_app_length', process_blocks_prefix by lia.
  by rewrite (Nat.mul_comm 64 n), Nat.div_mul.
Qed.

Lemma process_all_one st b : length b = 64%nat -> process_all st b = process st b.
Proof. intros H. unfold process_all. rewrite H. simpl. by rewrite take_ge by lia. Qed.

Lemma process_all_short st m : (length m < 64)%nat -> process_all st m = st.
Proof. intros H. unfold process_all. by rewrite Nat.div_small. Qed.

Lemma low6 x : 0 <= x -> Z.to_nat ((x mod 2 ^ 32) .& 0x3F) = Z.to_nat (x mod 64).
Proof. intros H. rewrite (Z.land_ones _ 6) by lia. f_equal. zlia. Qed.

Lemma absorbed_left st0 m ctx :
  absorbed st0 m ctx -> Z.to_nat (total0 ctx .& 0x3F) = (length m mod 64)%nat.
Proof.
  intros H. rewrite (abs_total0 _ _ _ H), low6 by lia.
  change 64 with (Z.of_nat 64). rewrite <- Nat2Z.inj_mod. apply Nat2Z.id.
Qed.

(** The two counter words after [ilen] more octets. *)
Lemma add_total_counts st0 m ctx ilen :
  absorbed st0 m ctx -> 0 <= ilen < 2 ^ 32 ->
  let n := Z.of_nat (length m) + ilen in
  total0 (add_total ctx ilen) = n mod 2 ^ 32
  /\ total1 (add_total ctx ilen) = (n / 2 ^ 32) mod 2 ^ 32.
Proof.
  intros H Hi n. unfold add_total. cbn [total0 total1].
  rewrite (abs_total0 _ _ _ H), (abs_total1 _ _ _ H), (to_u32_id ilen), !to_u32_mod by done.
  split; [unfold n; by rewrite Zplus_mod_idemp_l|].
  set (L := Z.of_nat (length m)) in *. assert (0 <= L) by lia.
  rewrite Zplus_mod_idemp_l. fold n. destruct (Z.ltb_spec (n mod 2 ^ 32) ilen); unfold n in *; zlia.
Qed.

(** The octets after the last full block. *)
Definition partial (m : list Z) : list Z := drop (64 * (length m / 64)) m.

Lemma length_partial m : length (partial m) = (length m mod 64)%nat.
Proof. unfold partial. rewrite length_drop. pose proof (Nat.div_mod_eq (length m) 64). lia. Qed.

Lemma partial_split m n r : length m = (64 * n)%nat -> partial (m ++ r) = partial r.
Proof.
  intros Hm. unfold partial. rewrite length_app, Hm.
  assert ((64 * n + length r) / 64 = n + length r / 64)%nat as ->
    by (rewrite (Nat.mul_comm 64), Nat.add_comm, Nat.div_add by done; lia).
  rewrite Nat.mul_add_distr_l, <- drop_drop, (drop_app_length' m) by lia. done.
Qed.

Lemma partial_short m : (length m < 64)%nat -> partial m = m.
Proof. intros H. unfold partial. by rewrite Nat.div_small. Qed.

(** Every message is some blocks followed by its partial block. *)
Lemma split_partial m : exists p, length p = (64 * (length m / 64))%nat /\ m = p ++ partial m.
Proof.
  exists (take (64 * (length m / 64)) m). split; [|unfold partial; by rewrite take_drop].
  rewrite length_take. pose proof (Nat.div_mod_eq (length m) 64). lia.
Qed.

(** The blocks loop and the final [memcpy], from a buffer that holds [t]. *)
Lemma tail_absorbs st b t input :
  length b = 64%nat -> take (length t) b = t -> t = [] \/ (length t + length input < 64)%nat ->
  let b' :=
    if (0 <? length (partial input))%nat then memcpy b (length t) (partial input) else b in
  process_blocks (length input / 64) st input = process_all st (t ++ input)
  /\ length b' = 64%nat /\ take (length (t ++ input) mod 64) b' = partial (t ++ input).
Proof.
  intros Hb Ht Hcase b'.
  assert (length (partial input) < 64)%nat as Hr.
  { rewrite length_partial. by apply Nat.mod_upper_bound. }
  assert (length t + length (partial input) <= 64)%nat as Hfit.
  { destruct Hcase as [-> | Hs]; [simpl; lia|]. rewrite partial_short by lia. lia. }
  assert (partial (t ++ input) = t ++ partial input) as Hp.
  { destruct Hcase as [-> | Hs]; [done|].
    by rewrite !partial_short by (rewrite ?length_app; lia). }
  split; [|split].
  - destruct Hcase as [-> | Hs]; [done|].
    rewrite process_all_short by (rewrite length_app; lia).
    by rewrite Nat.div_small by lia.
  - unfold b'. case_match; [|done]. rewrite length_memcpy; lia.
  - rewrite <- length_partial, Hp, length_app. unfold b'.
    destruct (Nat.ltb_spec 0 (length (partial input))) as [H|H].
    + rewrite take_memcpy by lia. by rewrite Ht.
    + rewrite (nil_length_inv (partial input)) by lia.
      by rewrite Nat.add_0_r, app_nil_r.
Qed.

Lemma absorbs_end st0 M cx c t x k :
  total0 cx = Z.of_nat (length M) mod 2 ^ 32 ->
  total1 cx = (Z.of_nat (length M) / 2 ^ 32) mod 2 ^ 32 ->
  M = c ++ t ++ x -> length c = (64 * k)%nat -> state cx = process_all st0 c ->
  t = [] \/ (length t + length x < 64)%nat ->
  length (buffer cx) = 64%nat -> take (length t) (buffer cx) = t ->
  absorbed st0 M
    (let ctx := set_state cx (process_blocks (length x / 64) (state cx) x) in
     if (0 <? length (partial x))%nat
     then set_buffer ctx (memcpy (buffer ctx) (length t) (partial x)) else ctx).
Proof.
  intros H0 H1 HM Hc Hs Hcase Hb Ht. cbv zeta.
  destruct (tail_absorbs (state cx) (buffer cx) t x Hb Ht Hcase) as (T1 & T2 & T3).
  rewrite <- length_partial in T3.
  assert (partial M = partial (t ++ x)) as HP by (rewrite HM; by apply (partial_split _ k)).
  split; [by case_match|by case_match|..].
  - transitivity (process_blocks (length x / 64) (state cx) x); [by case_match|].
    by rewrite T1, HM, (process_all_split st0 c k), Hs by done.
  - by case_match.
  - fold (partial M). rewrite <- length_partial, HP. by case_match.
Qed.

(** [update] appends to the message absorbed.  The length of one call must fit
    32 bits: [total] only counts its low word. *)
Lemma stream_update_absorbs st0 m ctx input :
  absorbed st0 m ctx -> Z.of_nat (length input) < 2 ^ 32 ->
  absorbed st0 (m ++ input) (stream_update ctx input).
Proof.
  intros H Hlen. unfold stream_update.
  destruct (Nat.eqb_spec (length input) 0) as [E|E].
  { apply nil_length_inv in E as ->. by rewrite app_nil_r. }
  rewrite (absorbed_left _ _ _ H).
  destruct (add_total_counts st0 m ctx (Z.of_nat (length input)) H ltac:(lia)) as [H0 H1].
  rewrite <- Nat2Z.inj_add, <- length_app in H0, H1.
  destruct (split_partial m) as (p & Hpl & Hm).
  pose proof (length_partial m) as Ht. pose proof (abs_len _ _ _ H) as Hbl.
  pose proof (abs_buffer _ _ _ H) as Hb. fold (partial m) in Hb. rewrite <- Ht in Hb |- *.
  assert (length (partial m) < 64)%nat as Htl by (rewrite Ht; by apply Nat.mod_upper_bound).
  set (q := (length m / 64)%nat) in *. set (t := partial m) in *.
  assert (state ctx = process_all st0 p) as Hst.
  { rewrite (abs_state _ _ _ H), Hm, (process_all_split _ _ q) by done. by apply process_all_short. }
  destruct (negb (length t =? 0)%nat && (64 - length t <=? length input)%nat) eqn:C.
  - apply andb_true_iff in C as [_ C]. apply Nat.leb_le in C.
    set (a := take (64 - length t) input). assert (length a = 64 - length t)%nat as Ha
      by (unfold a; rewrite length_take; lia).
    assert (memcpy (buffer ctx) (length t) a = t ++ a) as Hmc.
    { unfold memcpy. rewrite Hb, drop_ge, app_nil_r by lia. done. }
    apply (absorbs_end st0 _ _ (p ++ t ++ a) [] _ (q + 1)); simpl; try done.
    + rewrite Hm at 1. unfold a. by rewrite <- !app_assoc, take_drop.
    + rewrite !length_app. lia.
    + by rewrite Hmc, Hst, (process_all_split _ _ q), (process_all_one _ (t ++ a))
        by (rewrite ?length_app; lia).
    + by left.
    + rewrite Hmc, length_app. lia.
  - apply (absorbs_end st0 _ _ p t _ q); simpl; try done.
    + rewrite Hm at 1. by rewrite <- app_assoc.
    + apply andb_false_iff in C as [C|C].
      * left. apply negb_false_iff, Nat.eqb_eq in C. by apply nil_length_inv.
      * right. apply Nat.leb_gt in C. lia.
Qed.

(** The two length words. *)
Lemma length_words st0 m ctx :
  absorbed st0 m ctx -> 8 * Z.of_nat (length m) < 2 ^ 64 ->
  ((total0 ctx >> 29) .| to_u32 (total1 ctx << 3)) = 8 * Z.of_nat (length m) / 2 ^ 32
  /\ to_u32 (total0 ctx << 3) = (8 * Z.of_nat (length m)) mod 2 ^ 32.
Proof.
  intros H Hlen. rewrite (abs_total0 _ _ _ H), (abs_total1 _ _ _ H).
  set (L := Z.of_nat (length m)) in *. assert (0 <= L) by lia.
  rewrite !to_u32_mod, (Z.mod_small (L / 2 ^ 32)) by zlia.
  rewrite (Z.mod_small (_ << 3)) by (rewrite Z.shiftl_mul_pow2 by lia; zlia).
  rewrite Z.shiftr_div_pow2, lor_shiftl_add, Z.shiftl_mul_pow2 by (lia || zlia).
  split; zlia.
Qed.

Lemma memcpy_end b off src :
  (off + length src = length b)%nat -> memcpy b off src = take off b ++ src.
Proof. intros H. unfold memcpy. by rewrite (drop_ge b), app_nil_r by lia. Qed.

(** The last block, or the last two, that [finish] writes after the partial
    block [t]. *)
Lemma finish_blocks b t put :
  length b = 64%nat -> take (length t) b = t -> (length t < 64)%nat -> length put = 8%nat ->
  let b1 := memcpy b (length t) [0x80] in
  let u := (length t + 1)%nat in
  let z := ((119 - length t) mod 64)%nat in
  ((u <= 56)%nat -> memcpy (memset b1 u 0 (56 - u)) 56 put = t ++ [0x80] ++ replicate z 0 ++ put)
  /\ ((56 < u)%nat ->
      memset b1 u 0 (64 - u) ++ memcpy (memset (memset b1 u 0 (64 - u)) 0 0 56) 56 put
      = t ++ [0x80] ++ replicate z 0 ++ put).
Proof.
  intros Hb Ht Htl Hp b1 u z.
  assert (length b1 = 64%nat) as Hb1 by (unfold b1; rewrite length_memcpy; simpl; lia).
  assert (take u b1 = t ++ [0x80]) as Ht1.
  { unfold b1, u. transitivity (take (length t) b ++ [0x80]); [|by rewrite Ht].
    apply (take_memcpy b (length t) [0x80]). lia. }
  split; intros Hu.
  - assert (z = 56 - u)%nat as -> by (unfold z, u in *; zify; zlia).
    rewrite memcpy_end by (rewrite length_memset; lia).
    replace 56%nat with (u + (56 - u))%nat at 1 by lia.
    rewrite take_memset, Ht1 by lia. by rewrite <- !app_assoc.
  - assert (z = 64 - u + 56)%nat as -> by (unfold z, u in *; zify; zlia).
    set (b2 := memset b1 u 0 (64 - u)).
    assert (length b2 = 64%nat) as Hb2 by (unfold b2; rewrite length_memset; lia).
    assert (b2 = t ++ [0x80] ++ replicate (64 - u) 0) as E2.
    { unfold b2, memset at 1. rewrite memcpy_end by (rewrite length_replicate; lia).
      rewrite Ht1. by rewrite <- app_assoc. }
    rewrite memcpy_end by (rewrite length_memset; lia).
    assert (take 56 (memset b2 0 0 56) = replicate 56 0) as ->
      by (apply (take_memset b2 0 0 56); lia).
    rewrite E2 at 1. rewrite replicate_add, <- !app_assoc. done.
Qed.

(** [finish] runs the compression over the padded message. *)
Lemma stream_finish_pads st0 m ctx :
  absorbed st0 m ctx -> 8 * Z.of_nat (length m) < 2 ^ 64 ->
  (forall h l, length (put_length h l) = 8%nat) ->
  state (stream_finish ctx) = process_all st0 (pad m).
Proof.
  intros H Hlen Hput. unfold stream_finish. rewrite (absorbed_left _ _ _ H).
  destruct (length_words _ _ _ H Hlen) as [Hhi Hlo].
  destruct (split_partial m) as (p & Hpl & Hm).
  pose proof (length_partial m) as Ht. pose proof (abs_len _ _ _ H) as Hbl.
  pose proof (abs_buffer _ _ _ H) as Hb. fold (partial m) in Hb.
  assert (length (partial m) < 64)%nat as Htl by (rewrite Ht; by apply Nat.mod_upper_bound).
  assert (state ctx = process_all st0 p) as Hst.
  { rewrite (abs_state _ _ _ H), Hm at 1.
    rewrite (process_all_split _ _ (length m / 64)) by done. by apply process_all_short. }
  assert (pad m = p ++ partial m ++ [0x80] ++ replicate ((119 - length (partial m)) mod 64) 0
    ++ put_length (8 * Z.of_nat (length m) / 2 ^ 32) ((8 * Z.of_nat (length m)) mod 2 ^ 32)) as ->.
  { unfold pad. rewrite Ht, (app_assoc p (partial m)), <- Hm. done. }
  rewrite (process_all_split _ _ (length m / 64)), <- Hst by done. rewrite <- Ht in Hb |- *.
  set (put := put_length (8 * Z.of_nat (length m) / 2 ^ 32) ((8 * Z.of_nat (length m)) mod 2 ^ 32)).
  destruct (finish_blocks (buffer ctx) (partial m) put Hbl Hb Htl (Hput _ _)) as [F1 F2].
  assert (length put = 8%nat) as Hp8 by apply Hput.
  destruct (Nat.leb_spec (length (partial m) + 1) 56) as [Hu|Hu];
    cbn [set_buffer set_state state buffer total0 total1]; rewrite Hhi, Hlo; fold put.
  - rewrite <- (F1 Hu), process_all_one; [done|].
    repeat first [rewrite length_memcpy | rewrite length_memset]; cbn [length]; lia.
  - rewrite <- (F2 Hu), (process_all_split _ _ 1), !process_all_one; [done|..];
      repeat first [rewrite length_memcpy | rewrite length_memset]; cbn [length]; lia.
Qed.
End Stream.

(** Replacing the compression function by an equal one on the states that
    occur. *)
Lemma process_blocks_ext (f g : list Z -> list Z -> list Z) (I : list Z -> Prop) :
  (forall st b, I st -> bytes b -> length b = 64%nat -> f st b = g st b /\ I (g st b)) ->
  forall n st m, I st -> bytes m -> (64 * n <= length m)%nat ->
  process_blocks f n st m = process_blocks g n st m /\ I (process_blocks g n st m).
Proof.
  intros Hfg. induction n as [|n IH]; intros st m Hst Hb Hl; [done|].
  cbn [process_blocks].
  destruct (Hfg st (take 64 m) Hst) as [-> HI]; [by apply Forall_take|rewrite length_take; lia|].
  apply IH; [done|by apply Forall_drop|rewrite length_drop; lia].
Qed.

(** A sequence of calls to [update]. *)
Lemma stream_updates_absorb process st0 m ctx chunks :
  absorbed process st0 m ctx -> Forall (fun c => Z.of_nat (length c) < 2 ^ 32) chunks ->
  absorbed process st0 (m ++ concat chunks) (fold_left (stream_update process) chunks ctx).
Proof.
  intros H Hc. revert m ctx H. induction Hc as [|c chunks Hc _ IH]; intros m ctx H; simpl.
  { by rewrite app_nil_r. }
  rewrite app_assoc. by apply IH, stream_update_absorbs.
Qed.

(** A context that has just been started. *)
Lemma absorbed_nil process st b :
  length b = 64%nat ->
  absorbed process st [] {| total0 := 0; total1 := 0; state := st; buffer := b |}.
Proof. by split. Qed.

Lemma pad_blocks put m :
  (forall h l, length (put h l) = 8%nat) -> exists n, length (pad put m) = (64 * n)%nat.
Proof.
  intros Hp. unfold pad. rewrite !length_app, length_replicate, Hp. simpl length.
  exists ((length m + 1 + (119 - length m mod 64) mod 64 + 8) / 64)%nat. zify. zlia.
Qed.

Lemma bytes_pad put m : bytes m -> (forall h l, bytes (put h l)) -> bytes (pad put m).
Proof.
  intros Hm Hp. unfold pad. repeat apply Forall_app_2; [done| | |apply Hp].
  - repeat constructor; unfold is_byte; lia.
  - apply Forall_replicate. unfold is_byte. lia.
Qed.
