(* ===== verification/Sha256.v ===== *)
(** * SHA-256 and SHA-224 (externals/mbedtls/library/sha256.c)

    Module [Sha256] is the library's code: the macros, the unrolled
    compression function with its in-place message schedule, the context and
    the streaming interface.  Module [Fips180] is the reference: the schedule
    and the 64 rounds as FIPS 180-4 writes them, and the constants as
    fractional parts of the roots of the first primes.  The theorems are that
    the constants are those, that the compression function is the reference
    one, and that the digest of a message, however it is passed, is the
    reference digest. *)

From S2P Require Import Prelude Octets MdStream.
Open Scope Z_scope.
Open Scope c_scope.

Module Sha256.

(** [GET_UINT32_BE] and [PUT_UINT32_BE]. *)
Definition GET_UINT32_BE (b : list Z) (i : Z) : Z :=
  (b.[i] << 24) .| (b.[i + 1] << 16) .| (b.[i + 2] << 8) .| b.[i + 3].
Definition PUT_UINT32_BE (n : Z) : list Z :=
  [ to_u8 (n >> 24); to_u8 (n >> 16); to_u8 (n >> 8); to_u8 n ].

(** [mbedtls_sha256_context]. *)
Record mbedtls_sha256_context := mk_sha256 { stream : md_stream; is224 : Z }.

Definition mbedtls_sha256_init : mbedtls_sha256_context :=
  {| stream := {| total0 := 0; total1 := 0; state := replicate 8 0; buffer := replicate 64 0 |};
     is224 := 0 |}.

Definition mbedtls_sha256_free (ctx : mbedtls_sha256_context) : mbedtls_sha256_context :=
  mbedtls_sha256_init.

Definition mbedtls_sha256_clone (dst src : mbedtls_sha256_context) : mbedtls_sha256_context := src.

Definition mbedtls_sha256_starts_ret (ctx : mbedtls_sha256_context) (is224 : Z)
    : mbedtls_sha256_context :=
  {| stream := {|
       total0 := 0; total1 := 0;
       state :=
         if is224 =? 0 then
           [0x6A09E667; 0xBB67AE85; 0x3C6EF372; 0xA54FF53A;
            0x510E527F; 0x9B05688C; 0x1F83D9AB; 0x5BE0CD19]
         else
           [0xC1059ED8; 0x367CD507; 0x3070DD17; 0xF70E5939;
            0xFFC00B31; 0x68581511; 0x64F98FA7; 0xBEFA4FA4];
       buffer := buffer (stream ctx) |};
     is224 := is224 |}.

Definition K : list Z := [
    0x428A2F98; 0x71374491; 0xB5C0FBCF; 0xE9B5DBA5;
    0x3956C25B; 0x59F111F1; 0x923F82A4; 0xAB1C5ED5;
    0xD807AA98; 0x12835B01; 0x243185BE; 0x550C7DC3;
    0x72BE5D74; 0x80DEB1FE; 0x9BDC06A7; 0xC19BF174;
    0xE49B69C1; 0xEFBE4786; 0x0FC19DC6; 0x240CA1CC;
    0x2DE92C6F; 0x4A7484AA; 0x5CB0A9DC; 0x76F988DA;
    0x983E5152; 0xA831C66D; 0xB00327C8; 0xBF597FC7;
    0xC6E00BF3; 0xD5A79147; 0x06CA6351; 0x14292967;
    0x27B70A85; 0x2E1B2138; 0x4D2C6DFC; 0x53380D13;
    0x650A7354; 0x766A0ABB; 0x81C2C92E; 0x92722C85;
    0xA2BFE8A1; 0xA81A664B; 0xC24B8B70; 0xC76C51A3;
    0xD192E819; 0xD6990624; 0xF40E3585; 0x106AA070;
    0x19A4C116; 0x1E376C08; 0x2748774C; 0x34B0BCB5;
    0x391C0CB3; 0x4ED8AA4A; 0x5B9CCA4F; 0x682E6FF3;
    0x748F82EE; 0x78A5636F; 0x84C87814; 0x8CC70208;
    0x90BEFFFA; 0xA4506CEB; 0xBEF9A3F7; 0xC67178F2 ].

Definition SHR (x n : Z) : Z := (x .& 0xFFFFFFFF) >> n.
Definition ROTR (x n : Z) : Z := SHR x n .| to_u32 (x << (32 - n)).
Definition S0 (x : Z) : Z := ROTR x 7 .^ ROTR x 18 .^ SHR x 3.
Definition S1 (x : Z) : Z := ROTR x 17 .^ ROTR x 19 .^ SHR x 10.
Definition S2 (x : Z) : Z := ROTR x 2 .^ ROTR x 13 .^ ROTR x 22.
Definition S3 (x : Z) : Z := ROTR x 6 .^ ROTR x 11 .^ ROTR x 25.
Definition F0 (x y z : Z) : Z := (x .& y) .| (z .& (x .| y)).
Definition F1 (x y z : Z) : Z := z .^ (x .& (y .^ z)).

(** [R(t)]: the word stored at [W[t]]. *)
Definition R (W : list Z) (t : Z) : Z :=
  to_u32 (S1 W.[t - 2] + W.[t - 7] + S0 W.[t - 15] + W.[t - 16]).

(** [P(a,b,c,d,e,f,g,h,x,K)]: the arguments [a] to [h] are positions of the
    array [A]. *)
Definition P (A : list Z) (a b c d e f g h : Z) (x k : Z) : list Z :=
  let temp1 := to_u32 (A.[h] + S3 A.[e] + F1 A.[e] A.[f] A.[g] + k + x) in
  let temp2 := to_u32 (S2 A.[a] + F0 A.[a] A.[b] A.[c]) in
  let A := upd A d (to_u32 (A.[d] + temp1)) in
  upd A h (to_u32 (temp1 + temp2)).

(** A turn of the first loop: the words of the block. *)
Definition P8 (W : list Z) (i : Z) (A : list Z) : list Z :=
  let A := P A 0 1 2 3 4 5 6 7 W.[i + 0] K.[i + 0] in
  let A := P A 7 0 1 2 3 4 5 6 W.[i + 1] K.[i + 1] in
  let A := P A 6 7 0 1 2 3 4 5 W.[i + 2] K.[i + 2] in
  let A := P A 5 6 7 0 1 2 3 4 W.[i + 3] K.[i + 3] in
  let A := P A 4 5 6 7 0 1 2 3 W.[i + 4] K.[i + 4] in
  let A := P A 3 4 5 6 7 0 1 2 W.[i + 5] K.[i + 5] in
  let A := P A 2 3 4 5 6 7 0 1 W.[i + 6] K.[i + 6] in
  P A 1 2 3 4 5 6 7 0 W.[i + 7] K.[i + 7].

(** [P( ..., R(t), K[t] )]: [W[t]] is assigned, then used. *)
Definition PR (AW : list Z * list Z) (a b c d e f g h : Z) (t : Z) : list Z * list Z :=
  let '(A, W) := AW in
  let W := upd W t (R W t) in
  (P A a b c d e f g h W.[t] K.[t], W).

(** A turn of the second loop. *)
Definition PR8 (i : Z) (AW : list Z * list Z) : list Z * list Z :=
  let AW := PR AW 0 1 2 3 4 5 6 7 (i + 0) in
  let AW := PR AW 7 0 1 2 3 4 5 6 (i + 1) in
  let AW := PR AW 6 7 0 1 2 3 4 5 (i + 2) in
  let AW := PR AW 5 6 7 0 1 2 3 4 (i + 3) in
  let AW := PR AW 4 5 6 7 0 1 2 3 (i + 4) in
  let AW := PR AW 3 4 5 6 7 0 1 2 (i + 5) in
  let AW := PR AW 2 3 4 5 6 7 0 1 (i + 6) in
  PR AW 1 2 3 4 5 6 7 0 (i + 7).

(** [mbedtls_internal_sha256_process] on [ctx->state].  [W] is uninitialised
    in the code; the first loop fills what the rounds read. *)
Definition mbedtls_internal_sha256_process (st data : list Z) : list Z :=
  let A := st in
  let W := for_up 16 0 (fun i W => upd W i (GET_UINT32_BE data (4 * i))) (replicate 64 0) in
  let A := for_up 2 0 (fun j A => P8 W (8 * j) A) A in
  let '(A, W) := for_up 6 2 (fun j AW => PR8 (8 * j) AW) (A, W) in
  for_up 8 0 (fun i st => upd st i (to_u32 (st.[i] + A.[i]))) st.

Definition mbedtls_sha256_update_ret (ctx : mbedtls_sha256_context) (input : list Z)
    : mbedtls_sha256_context :=
  {| stream := stream_update mbedtls_internal_sha256_process (stream ctx) input;
     is224 := is224 ctx |}.

(** The message length, as [finish] stores it at [buffer + 56]. *)
Definition put_length_be (high low : Z) : list Z := PUT_UINT32_BE high ++ PUT_UINT32_BE low.

(** [mbedtls_sha256_finish_ret]: the octets it writes to [output] (28 of them
    for SHA-224). *)
Definition mbedtls_sha256_finish_ret (ctx : mbedtls_sha256_context) : list Z :=
  let st := state (stream_finish mbedtls_internal_sha256_process put_length_be (stream ctx)) in
  PUT_UINT32_BE st.[0] ++ PUT_UINT32_BE st.[1] ++ PUT_UINT32_BE st.[2] ++ PUT_UINT32_BE st.[3]
    ++ PUT_UINT32_BE st.[4] ++ PUT_UINT32_BE st.[5] ++ PUT_UINT32_BE st.[6]
    ++ (if is224 ctx =? 0 then PUT_UINT32_BE st.[7] else []).

Definition mbedtls_sha256_ret (input : list Z) (is224 : Z) : list Z :=
  let ctx := mbedtls_sha256_init in
  let ctx := mbedtls_sha256_starts_ret ctx is224 in
  let ctx := mbedtls_sha256_update_ret ctx input in
  mbedtls_sha256_finish_ret ctx.
End Sha256.

Example sha256_abc :
  be_val (Sha256.mbedtls_sha256_ret [0x61; 0x62; 0x63] 0)
  = 0xBA7816BF8F01CFEA414140DE5DAE2223B00361A396177A9CB410FF61F20015AD.
Proof. vm_compute. reflexivity. Qed.

(** ** FIPS 180-4 *)

Module Fips180.

(** Integer cube root by bits, for the constants. *)
Fixpoint icbrt_bits (n : nat) (x r : Z) : Z :=
  match n with
  | O => r
  | S n =>
      let r' := r + 2 ^ Z.of_nat n in
      icbrt_bits n x (if r' * r' * r' <=? x then r' else r)
  end.

Definition primes : list Z :=
  [2; 3; 5; 7; 11; 13; 17; 19; 23; 29; 31; 37; 41; 43; 47; 53; 59; 61; 67; 71; 73; 79; 83; 89; 97;
   101; 103; 107; 109; 113; 127; 131; 137; 139; 149; 151; 157; 163; 167; 173; 179; 181; 191; 193;
   197; 199; 211; 223; 227; 229; 233; 239; 241; 251; 257; 263; 269; 271; 277; 281; 283; 293; 307; 311].

(** First thirty-two bits of the fractional parts of the cube roots, and of the
    square roots (SHA-256), and second thirty-two bits of the latter
    (SHA-224). *)
Definition cbrt_word (p : Z) : Z := icbrt_bits 36 (p * 2 ^ 96) 0 mod 2 ^ 32.
Definition sqrt_word (p : Z) : Z := Z.sqrt (p * 2 ^ 64) mod 2 ^ 32.
Definition sqrt_word2 (p : Z) : Z := Z.sqrt (p * 2 ^ 128) mod 2 ^ 32.

Definition k (t : nat) : Z := nth t (map cbrt_word primes) 0.
Definition H256 : list Z := map sqrt_word (take 8 primes).
Definition H224 : list Z := map sqrt_word2 (take 8 (drop 8 primes)).

(** The functions of section 4.1.2. *)
Definition rotr (n x : Z) : Z := Z.lor (Z.shiftr x n) (Z.shiftl x (32 - n) mod 2 ^ 32).
Definition shr (n x : Z) : Z := Z.shiftr x n.
Definition ch (x y z : Z) : Z := Z.lxor (Z.land x y) (Z.ldiff z x).
Definition maj (x y z : Z) : Z := Z.lxor (Z.lxor (Z.land x y) (Z.land x z)) (Z.land y z).
Definition big_sigma0 (x : Z) : Z := Z.lxor (Z.lxor (rotr 2 x) (rotr 13 x)) (rotr 22 x).
Definition big_sigma1 (x : Z) : Z := Z.lxor (Z.lxor (rotr 6 x) (rotr 11 x)) (rotr 25 x).
Definition sigma0 (x : Z) : Z := Z.lxor (Z.lxor (rotr 7 x) (rotr 18 x)) (shr 3 x).
Definition sigma1 (x : Z) : Z := Z.lxor (Z.lxor (rotr 17 x) (rotr 19 x)) (shr 10 x).

(** The sixteen big-endian words of a block. *)
Definition block_words (b : list Z) : list Z :=
  map (fun i => be_val (slice (4 * i) 4 b)) (seq 0 16).

(** The message schedule, extended by [n] words past the block's. *)
Fixpoint schedule (M : list Z) (n : nat) : list Z :=
  match n with
  | O => M
  | S n =>
      let W := schedule M n in
      let w j := nth (16 + n - j) W 0 in
      W ++ [(sigma1 (w 2%nat) + w 7%nat + sigma0 (w 15%nat) + w 16%nat) mod 2 ^ 32]
  end.

Definition regs : Type := Z * Z * Z * Z * Z * Z * Z * Z.

Definition round (s : regs) (w kt : Z) : regs :=
  let '(a, b, c, d, e, f, g, h) := s in
  let T1 := (h + big_sigma1 e + ch e f g + kt + w) mod 2 ^ 32 in
  let T2 := (big_sigma0 a + maj a b c) mod 2 ^ 32 in
  ((T1 + T2) mod 2 ^ 32, a, b, c, (d + T1) mod 2 ^ 32, e, f, g).

Fixpoint rounds (W : list Z) (n : nat) (s : regs) : regs :=
  match n with
  | O => s
  | S n => let s := rounds W n s in round s (nth n W 0) (k n)
  end.

Definition to_list (s : regs) : list Z :=
  let '(a, b, c, d, e, f, g, h) := s in [a; b; c; d; e; f; g; h].

(** The compression function. *)
Definition compress (H : list Z) (b : list Z) : list Z :=
  match H with
  | [a; b0; c; d; e; f; g; h] =>
      let W := schedule (block_words b) 48 in
      zip_with (fun x y => (x + y) mod 2 ^ 32) H (to_list (rounds W 64 (a, b0, c, d, e, f, g, h)))
  | _ => H
  end.

(** The digest: the compression of the padded message, as octets. *)
Definition sha2 (H : list Z) (m : list Z) : list Z :=
  concat (map (be_bytes 4) (process_all compress H (pad (fun hi lo => be_bytes 4 hi ++ be_bytes 4 lo) m))).
Definition sha256 (m : list Z) : list Z := sha2 H256 m.
Definition sha224 (m : list Z) : list Z := take 28 (sha2 H224 m).
End Fips180.

Import Sha256 Fips180.

Lemma K_cube_roots : K = map cbrt_word primes.
Proof. vm_compute. reflexivity. Qed.

Lemma starts_square_roots ctx :
  state (stream (mbedtls_sha256_starts_ret ctx 0)) = H256
  /\ state (stream (mbedtls_sha256_starts_ret ctx 1)) = H224.
Proof. split; vm_compute; reflexivity. Qed.

(** ** The macros are the functions of the standard *)

Lemma SHR_shr x n : is_u32 x -> SHR x n = shr n x.
Proof. intros H. unfold SHR, shr. fold (to_u32 x). by rewrite to_u32_id. Qed.

Lemma ROTR_rotr x n : is_u32 x -> ROTR x n = rotr n x.
Proof. intros H. unfold ROTR, rotr. by rewrite SHR_shr, to_u32_mod. Qed.

Lemma F1_ch x y z : F1 x y z = ch x y z.
Proof. unfold F1, ch. bool_ext. Qed.

Lemma F0_maj x y z : F0 x y z = maj x y z.
Proof. unfold F0, maj. bool_ext. Qed.

Lemma sigmas x :
  is_u32 x ->
  S0 x = sigma0 x /\ S1 x = sigma1 x /\ S2 x = big_sigma0 x /\ S3 x = big_sigma1 x.
Proof.
  intros H. unfold S0, S1, S2, S3, sigma0, sigma1, big_sigma0, big_sigma1.
  by rewrite !ROTR_rotr, !SHR_shr by done.
Qed.

Lemma S0_sigma0 x : is_u32 x -> S0 x = sigma0 x.
Proof. apply sigmas. Qed.
Lemma S1_sigma1 x : is_u32 x -> S1 x = sigma1 x.
Proof. apply sigmas. Qed.
Lemma S2_sigma x : is_u32 x -> S2 x = big_sigma0 x.
Proof. apply sigmas. Qed.
Lemma S3_sigma x : is_u32 x -> S3 x = big_sigma1 x.
Proof. apply sigmas. Qed.

Lemma or_be_val b0 b1 b2 b3 :
  bytes [b0; b1; b2; b3] ->
  ((b0 << 24) .| (b1 << 16) .| (b2 << 8) .| b3) = be_val [b0; b1; b2; b3]
  /\ is_u32 ((b0 << 24) .| (b1 << 16) .| (b2 << 8) .| b3).
Proof.
  intros H. do 4 (apply Forall_cons_1 in H; destruct H as [? H]).
  assert (((b0 << 24) .| (b1 << 16) .| (b2 << 8) .| b3) = le32 b3 b2 b1 b0) as ->
    by (unfold le32; bool_ext).
  split; [|by apply le32_range]. rewrite le32_add by done.
  unfold be_val. simpl. lia.
Qed.

Lemma get_be_val b i :
  bytes b -> (i + 4 <= length b)%nat ->
  GET_UINT32_BE b (Z.of_nat i) = be_val (slice i 4 b) /\ is_u32 (GET_UINT32_BE b (Z.of_nat i)).
Proof.
  intros Hb Hl. unfold slice. rewrite (take4_drop b i 0) by done.
  assert (forall k, nth (i + k) b 0 = b.[Z.of_nat i + Z.of_nat k]) as E
    by (intros k; unfold rd; f_equal; lia).
  rewrite !E. replace (nth i b 0) with b.[Z.of_nat i] by (unfold rd; by rewrite Nat2Z.id).
  apply or_be_val. repeat (apply Forall_cons_2; [by apply bytes_rd|]). constructor.
Qed.

(** ** The unrolled rounds *)

(** The array [A] after [j] lines of a turn: the registers, rotated. *)
Definition lay (j : nat) (s : regs) : list Z := drop j (to_list s) ++ take j (to_list s).

Definition regs_ok (s : regs) : Prop := words (to_list s).

Lemma round_ok s w kt : regs_ok s -> regs_ok (round s w kt).
Proof.
  destruct s as [[[[[[[a b] c] d] e] f] g] h]. unfold regs_ok. simpl. intros H.
  do 8 (apply Forall_cons_1 in H; destruct H as [? H]).
  repeat (apply Forall_cons_2; [first [done | apply (Z.mod_pos_bound _ (2 ^ 32)); lia]|]). constructor.
Qed.

(** Line [n] of a turn. *)
Definition line (n : nat) (A : list Z) (x kt : Z) : list Z :=
  match n with
  | 0%nat => P A 0 1 2 3 4 5 6 7 x kt
  | 1%nat => P A 7 0 1 2 3 4 5 6 x kt
  | 2%nat => P A 6 7 0 1 2 3 4 5 x kt
  | 3%nat => P A 5 6 7 0 1 2 3 4 x kt
  | 4%nat => P A 4 5 6 7 0 1 2 3 x kt
  | 5%nat => P A 3 4 5 6 7 0 1 2 x kt
  | 6%nat => P A 2 3 4 5 6 7 0 1 x kt
  | _ => P A 1 2 3 4 5 6 7 0 x kt
  end.

Lemma line_round n s x kt :
  (n < 8)%nat -> regs_ok s -> line n (lay n s) x kt = lay (S n) (round s x kt).
Proof.
  destruct s as [[[[[[[a b] c] d] e] f] g] h]. unfold regs_ok. simpl to_list. intros Hn H.
  do 8 (apply Forall_cons_1 in H; destruct H as [? H]). unfold round.
  rewrite <- (S3_sigma e), <- (S2_sigma a), <- F1_ch, <- F0_maj by done.
  rewrite <- !to_u32_mod. do 8 (destruct n as [|n]; [reflexivity|]). lia.
Qed.

Lemma lay_8 s : lay 8 s = lay 0 s.
Proof. by destruct s as [[[[[[[a b] c] d] e] f] g] h]. Qed.

Lemma k_K t : K.[Z.of_nat t] = k t.
Proof. unfold k, rd. by rewrite <- K_cube_roots, Nat2Z.id. Qed.

Lemma rounds_ok W n s : regs_ok s -> regs_ok (rounds W n s).
Proof. intros H. induction n as [|n IH]; [done|]. simpl. by apply round_ok. Qed.

(** A turn of the first loop is eight rounds. *)
Fixpoint lines (V : list Z) (t : Z) (n : nat) (A : list Z) : list Z :=
  match n with
  | O => A
  | S n => line n (lines V t n A) V.[t + Z.of_nat n] K.[t + Z.of_nat n]
  end.

Lemma lines_rounds W V t s n :
  regs_ok s -> (forall j, (j < 8)%nat -> V.[Z.of_nat (t + j)] = nth (t + j) W 0) -> (n <= 8)%nat ->
  lines V (Z.of_nat t) n (lay 0 (rounds W t s)) = lay n (rounds W (t + n) s).
Proof.
  intros Hs HV. induction n as [|n IH]; intros Hn; [by rewrite Nat.add_0_r|].
  cbn [lines]. rewrite IH, <- Nat2Z.inj_add, HV, k_K by lia.
  rewrite line_round by (try apply rounds_ok; done || lia). by rewrite Nat.add_succ_r.
Qed.

Lemma P8_lines V i A : P8 V i A = lines V i 8 A.
Proof. unfold P8. cbn [lines line Z.of_nat Pos.of_succ_nat Pos.succ]. reflexivity. Qed.

Lemma P8_rounds W V t s :
  regs_ok s -> (forall j, (j < 8)%nat -> V.[Z.of_nat (t + j)] = nth (t + j) W 0) ->
  P8 V (Z.of_nat t) (lay 0 (rounds W t s)) = lay 0 (rounds W (t + 8) s).
Proof. intros Hs HV. rewrite <- (lay_8 (rounds W (t + 8) s)), P8_lines. by apply (lines_rounds W V t s 8). Qed.

(** ** The message schedule, extended in place *)

Lemma length_schedule M n : length M = 16%nat -> length (schedule M n) = (16 + n)%nat.
Proof.
  intros H. induction n as [|n IH]; [done|]. cbn [schedule]. rewrite length_app, IH. simpl. lia.
Qed.

Lemma schedule_prefix M n m :
  length M = 16%nat -> (n <= m)%nat -> take (16 + n) (schedule M m) = schedule M n.
Proof.
  intros HM H. induction H as [|m H IH].
  { rewrite take_ge; [done|]. by rewrite length_schedule. }
  cbn [schedule]. rewrite take_app_le by (rewrite length_schedule; lia). done.
Qed.

Lemma schedule_words M n : words M -> words (schedule M n).
Proof.
  intros H. induction n as [|n IH]; [done|]. apply Forall_app_2; [done|].
  apply Forall_cons_2; [apply (Z.mod_pos_bound _ (2 ^ 32)); lia|constructor].
Qed.

(** The array [W] when [n] words have been appended. *)
Definition sched_at (M : list Z) (n : nat) (W : list Z) : Prop :=
  length W = 64%nat /\ take (16 + n) W = schedule M n.

Lemma rd_take l n j : (j < n)%nat -> l.[Z.of_nat j] = nth j (take n l) 0.
Proof.
  intros H. unfold rd. rewrite Nat2Z.id, nth_firstn.
  by rewrite (proj2 (Nat.ltb_lt _ _) H).
Qed.

Lemma sched_step M n W :
  length M = 16%nat -> words M -> sched_at M n W -> (n < 48)%nat ->
  sched_at M (S n) (upd W (Z.of_nat (16 + n)) (R W (Z.of_nat (16 + n)))).
Proof.
  intros HM HW [Hl Ht] Hn. split; [unfold upd; by rewrite length_insert|].
  assert (forall j, 0 < j <= 16 ->
    W.[Z.of_nat (16 + n) - j] = nth (16 + n - Z.to_nat j) (schedule M n) 0) as HR.
  { intros j Hj. replace (Z.of_nat (16 + n) - j) with (Z.of_nat (16 + n - Z.to_nat j)) by lia.
    rewrite (rd_take W (16 + n)) by lia. by rewrite Ht. }
  unfold upd, R. rewrite Nat2Z.id, (insert_take_drop W) by lia.
  replace (16 + S n)%nat with (length (take (16 + n) W) + 1)%nat by (rewrite length_take; lia).
  rewrite take_app_add, Ht. cbn [take schedule]. f_equal. f_equal.
  rewrite to_u32_mod, (HR 2), (HR 7), (HR 15), (HR 16) by lia.
  pose proof (schedule_words M n HW) as Hw.
  assert (forall j, is_u32 (nth j (schedule M n) 0)) as Hu.
  { intros j. pose proof (words_rd _ (Z.of_nat j) Hw) as Hj. unfold rd in Hj. by rewrite Nat2Z.id in Hj. }
  by rewrite S1_sigma1, S0_sigma0 by apply Hu.
Qed.

(** A turn of the second loop is eight rounds on eight more words. *)
Fixpoint linesR (t : Z) (n : nat) (AW : list Z * list Z) : list Z * list Z :=
  match n with
  | O => AW
  | S n =>
      let '(A, W) := linesR t n AW in
      let W := upd W (t + Z.of_nat n) (R W (t + Z.of_nat n)) in
      (line n A W.[t + Z.of_nat n] K.[t + Z.of_nat n], W)
  end.

Lemma PR8_lines i AW : PR8 i AW = linesR i 8 AW.
Proof.
  destruct AW as [A W]. unfold PR8, PR. cbn [linesR line Z.of_nat Pos.of_succ_nat Pos.succ].
  reflexivity.
Qed.

Lemma linesR_rounds M u s n A W :
  length M = 16%nat -> words M -> regs_ok s -> (n <= 8)%nat -> (u + 8 <= 48)%nat ->
  sched_at M u W -> A = lay 0 (rounds (schedule M 48) (16 + u) s) ->
  exists W', linesR (Z.of_nat (16 + u)) n (A, W)
             = (lay n (rounds (schedule M 48) (16 + u + n) s), W') /\ sched_at M (u + n) W'.
Proof.
  intros HM HMw Hs Hn Hu HW ->. induction n as [|n IH].
  { exists W. by rewrite !Nat.add_0_r. }
  destruct IH as (W' & E & HW'); [lia|]. cbn [linesR]. rewrite E, <- Nat2Z.inj_add.
  rewrite !Nat.add_succ_r. replace (16 + u + n)%nat with (16 + (u + n))%nat by lia.
  pose proof (sched_step M (u + n) W' HM HMw HW' ltac:(lia)) as HS.
  set (W2 := upd _ _ _) in *. exists W2. split; [|done].
  f_equal. rewrite k_K.
  assert (W2.[Z.of_nat (16 + (u + n))] = nth (16 + (u + n)) (schedule M 48) 0) as ->.
  { rewrite (rd_take W2 (16 + S (u + n))) by lia. rewrite (proj2 HS).
    rewrite <- (schedule_prefix M (S (u + n)) 48) by (done || lia).
    rewrite nth_firstn. by rewrite (proj2 (Nat.ltb_lt _ _)) by lia. }
  by rewrite line_round by (try apply rounds_ok; done || lia).
Qed.

Lemma PR8_rounds M u s A W :
  length M = 16%nat -> words M -> regs_ok s -> (u + 8 <= 48)%nat ->
  sched_at M u W -> A = lay 0 (rounds (schedule M 48) (16 + u) s) ->
  exists W', PR8 (Z.of_nat (16 + u)) (A, W)
             = (lay 0 (rounds (schedule M 48) (16 + (u + 8)) s), W') /\ sched_at M (u + 8) W'.
Proof.
  intros HM HMw Hs Hu HW HA.
  destruct (linesR_rounds M u s 8 A W HM HMw Hs ltac:(lia) Hu HW HA) as (W' & E & H).
  exists W'. split; [|done]. by rewrite PR8_lines, E, lay_8, Nat.add_assoc.
Qed.

Lemma second_loop M s n : forall u j A W,
  length M = 16%nat -> words M -> regs_ok s -> (u + 8 * n = 48)%nat -> 8 * j = Z.of_nat (16 + u) ->
  sched_at M u W -> A = lay 0 (rounds (schedule M 48) (16 + u) s) ->
  exists W', for_up n j (fun j AW => PR8 (8 * j) AW) (A, W)
             = (lay 0 (rounds (schedule M 48) 64 s), W').
Proof.
  induction n as [|n IH]; intros u j A W HM HMw Hs Hu Hj HW HA.
  - exists W. cbn [for_up]. by replace (16 + u)%nat with 64%nat in HA by lia; subst.
  - cbn [for_up]. rewrite Hj.
    destruct (PR8_rounds M u s A W HM HMw Hs ltac:(lia) HW HA) as (W' & -> & HW').
    by apply (IH (u + 8)%nat); try done; lia.
Qed.

(** ** The compression function *)

Lemma first_words data :
  for_up 16 0 (fun i W => upd W i (GET_UINT32_BE data (4 * i))) (replicate 64 0)
  = map (fun i => GET_UINT32_BE data (Z.of_nat (4 * i))) (seq 0 16) ++ replicate 48 0.
Proof. reflexivity. Qed.

Lemma block_words_ok data :
  length data = 64%nat -> bytes data ->
  map (fun i => GET_UINT32_BE data (Z.of_nat (4 * i))) (seq 0 16) = block_words data
  /\ length (block_words data) = 16%nat /\ words (block_words data).
Proof.
  intros Hl Hb. assert (forall i, In i (seq 0 16) -> (4 * i + 4 <= length data)%nat) as Hi.
  { intros i H. apply in_seq in H. lia. }
  split; [|split; [done|]].
  - apply map_ext_in. intros i H. apply get_be_val; auto.
  - apply List.Forall_forall. intros w Hw. apply in_map_iff in Hw as (i & <- & H).
    destruct (get_be_val data (4 * i) Hb (Hi i H)) as [<- Hu]. done.
Qed.

Lemma first_loop M W s :
  length M = 16%nat -> regs_ok s -> sched_at M 0 W ->
  for_up 2 0 (fun j A => P8 W (8 * j) A) (lay 0 s) = lay 0 (rounds (schedule M 48) 16 s).
Proof.
  intros HM Hs [HW HT]. cbn [for_up].
  assert (forall t, (t < 16)%nat -> W.[Z.of_nat t] = nth t (schedule M 48) 0) as HV.
  { intros t Ht. rewrite (rd_take W 16) by done. change 16%nat with (16 + 0)%nat. rewrite HT.
    rewrite <- (schedule_prefix M 0 48) by (done || lia). rewrite nth_firstn.
    by rewrite (proj2 (Nat.ltb_lt _ _)) by lia. }
  pose proof (P8_rounds (schedule M 48) W 0 s Hs ltac:(intros; apply HV; lia)) as E0.
  pose proof (P8_rounds (schedule M 48) W 8 s Hs ltac:(intros; apply HV; lia)) as E1.
  simpl Nat.add in E0, E1. change (8 * 0) with (Z.of_nat 0). change (8 * (0 + 1)) with (Z.of_nat 8).
  change (lay 0 s) with (lay 0 (rounds (schedule M 48) 0 s)) at 1. by rewrite E0, E1.
Qed.

Lemma sha256_process_is_compress st data :
  length st = 8%nat -> words st -> length data = 64%nat -> bytes data ->
  mbedtls_internal_sha256_process st data = compress st data.
Proof.
  intros Hl Hw Hd Hb. unfold mbedtls_internal_sha256_process. rewrite first_words.
  destruct (block_words_ok data Hd Hb) as (-> & HM & HMw). set (M := block_words data) in *.
  do 8 (destruct st as [|? st]; [discriminate|]). destruct st; [|discriminate].
  set (s := (z, z0, z1, z2, z3, z4, z5, z6)).
  change [z; z0; z1; z2; z3; z4; z5; z6] with (lay 0 s) at 1.
  assert (sched_at M 0 (M ++ replicate 48 0)) as H0.
  { split; [by rewrite length_app, HM|]. by rewrite take_app_length'. }
  assert (regs_ok s) as Hs by exact Hw.
  rewrite (first_loop M) by done.
  destruct (second_loop M s 6 0 2 _ _ HM HMw Hs eq_refl eq_refl H0 eq_refl) as (W' & E).
  change (16 + 0)%nat with 16%nat in E. rewrite E. clear E.
  unfold compress. fold M. fold s. destruct (rounds (schedule M 48) 64 s) as [[[[[[[a b] c] d] e] f] g] h].
  cbn [zip_with to_list]. rewrite <- !to_u32_mod. reflexivity.
Qed.

(** ** The digest *)

Lemma PUT_be_bytes n : PUT_UINT32_BE n = be_bytes 4 n.
Proof.
  unfold PUT_UINT32_BE, be_bytes. cbn [le_bytes rev app].
  rewrite !to_u8_mod, !Z.shiftr_div_pow2, !Z.div_div by lia. done.
Qed.

Definition state_ok (st : list Z) : Prop := length st = 8%nat /\ words st.

Lemma sha256_compress_ok st b : state_ok st -> state_ok (compress st b).
Proof.
  intros [Hl Hw]. do 8 (destruct st as [|? st]; [discriminate|]). destruct st; [|discriminate].
  unfold compress. destruct (rounds _ _ _) as [[[[[[[? ?] ?] ?] ?] ?] ?] ?].
  split; [done|]. simpl.
  repeat (apply Forall_cons_2; [apply (Z.mod_pos_bound _ (2 ^ 32)); lia|]). constructor.
Qed.

Lemma sha256_process_all_compress st m :
  state_ok st -> bytes m ->
  process_all mbedtls_internal_sha256_process st m = process_all compress st m
  /\ state_ok (process_all compress st m).
Proof.
  intros Hst Hb. apply (process_blocks_ext _ _ state_ok); try done.
  - intros s b Hs Hbb Hbl. split; [|by apply sha256_compress_ok]. by apply sha256_process_is_compress; try apply Hs.
  - pose proof (Nat.div_mod_eq (length m) 64). lia.
Qed.

Lemma state_ok_concat st :
  state_ok st ->
  concat (map (be_bytes 4) st)
  = be_bytes 4 st.[0] ++ be_bytes 4 st.[1] ++ be_bytes 4 st.[2] ++ be_bytes 4 st.[3]
    ++ be_bytes 4 st.[4] ++ be_bytes 4 st.[5] ++ be_bytes 4 st.[6] ++ be_bytes 4 st.[7].
Proof.
  intros [Hl _]. do 8 (destruct st as [|? st]; [discriminate|]). destruct st; [|discriminate].
  cbn [map concat]. by rewrite app_nil_r.
Qed.

Lemma pad_be m : pad put_length_be m = pad (fun hi lo => be_bytes 4 hi ++ be_bytes 4 lo) m.
Proof. unfold pad, put_length_be. by rewrite !PUT_be_bytes. Qed.

(** What [finish] returns for a context that has absorbed [m]. *)
Lemma sha256_finish_digest st0 m ctx :
  absorbed mbedtls_internal_sha256_process st0 m (stream ctx) -> state_ok st0 -> bytes m ->
  8 * Z.of_nat (length m) < 2 ^ 64 ->
  mbedtls_sha256_finish_ret ctx
  = if is224 ctx =? 0 then sha2 st0 m else take 28 (sha2 st0 m).
Proof.
  intros H Hst Hb Hlen. unfold mbedtls_sha256_finish_ret, sha2.
  rewrite (stream_finish_pads _ _ st0 m) by done. rewrite pad_be.
  set (pm := pad _ m). assert (bytes pm) as Hpm.
  { apply bytes_pad; [done|]. intros. apply Forall_app_2; auto with bufs. }
  destruct (sha256_process_all_compress st0 pm Hst Hpm) as [-> Hok].
  rewrite state_ok_concat, !PUT_be_bytes by done. by case_match.
Qed.

Lemma H256_ok : state_ok H256 /\ state_ok H224.
Proof. split; split; try reflexivity; apply (bool_decide_eq_true_1 _); vm_compute; reflexivity. Qed.

Lemma sha2_octets st m :
  state_ok st -> bytes m -> length (sha2 st m) = 32%nat /\ bytes (sha2 st m).
Proof.
  intros Hst Hm. unfold sha2.
  destruct (sha256_process_all_compress st (pad (fun hi lo => be_bytes 4 hi ++ be_bytes 4 lo) m)) as [_ Hok].
  - done.
  - apply bytes_pad; [done|]. intros. apply Forall_app_2; auto with bufs.
  - rewrite state_ok_concat by done. rewrite !length_app, !length_be_bytes.
    split; [done|]. repeat (apply Forall_app_2; [apply bytes_be_bytes|]); auto with bufs.
Qed.

Lemma update_stream chunks ctx :
  stream (fold_left mbedtls_sha256_update_ret chunks ctx)
  = fold_left (stream_update mbedtls_internal_sha256_process) chunks (stream ctx)
  /\ is224 (fold_left mbedtls_sha256_update_ret chunks ctx) = is224 ctx.
Proof. revert ctx. induction chunks as [|c chunks IH]; intros ctx; [done|]. apply (IH (mbedtls_sha256_update_ret ctx c)). Qed.

Lemma starts_absorbed ctx v :
  length (buffer (stream ctx)) = 64%nat ->
  absorbed mbedtls_internal_sha256_process (if v =? 0 then H256 else H224) []
    (stream (mbedtls_sha256_starts_ret ctx v)).
Proof.
  intros Hb. replace (if v =? 0 then H256 else H224) with (state (stream (mbedtls_sha256_starts_ret ctx v))).
  - by apply absorbed_nil.
  - unfold mbedtls_sha256_starts_ret. simpl. by case_match.
Qed.

Lemma sha256_chunks_digest ctx v chunks :
  length (buffer (stream ctx)) = 64%nat ->
  Forall (fun c => Z.of_nat (length c) < 2 ^ 32) chunks -> bytes (concat chunks) ->
  8 * Z.of_nat (length (concat chunks)) < 2 ^ 64 ->
  mbedtls_sha256_finish_ret
    (fold_left mbedtls_sha256_update_ret chunks (mbedtls_sha256_starts_ret ctx v))
  = if v =? 0 then sha256 (concat chunks) else sha224 (concat chunks).
Proof.
  intros Hbuf Hc Hb Hlen.
  destruct (update_stream chunks (mbedtls_sha256_starts_ret ctx v)) as [Es Ei].
  rewrite (sha256_finish_digest (if v =? 0 then H256 else H224) (concat chunks)); try done.
  - rewrite Ei. simpl. unfold sha256, sha224. by case_match.
  - rewrite Es. apply (stream_updates_absorb _ _ []); [by apply starts_absorbed|done].
  - case_match; apply H256_ok.
Qed.

(** C38: the SHA-256 (SHA-224) digest that [starts], any sequence of [update]
    calls and [finish] produce is the FIPS 180-4 digest of the concatenation
    of the pieces, whatever the context held before: the buffering across
    block boundaries, the padding and the length counter are right for every
    way of cutting the message into calls of less than [2^32] octets, for
    messages of less than [2^64] bits. *)
Theorem sha256_any_chunking ctx chunks :
  length (buffer (stream ctx)) = 64%nat ->
  Forall (fun c => Z.of_nat (length c) < 2 ^ 32) chunks -> bytes (concat chunks) ->
  8 * Z.of_nat (length (concat chunks)) < 2 ^ 64 ->
  mbedtls_sha256_finish_ret
    (fold_left mbedtls_sha256_update_ret chunks (mbedtls_sha256_starts_ret ctx 0))
    = sha256 (concat chunks)
  /\ mbedtls_sha256_finish_ret
    (fold_left mbedtls_sha256_update_ret chunks (mbedtls_sha256_starts_ret ctx 1))
    = sha224 (concat chunks).
Proof.
  intros Hbuf Hc Hb Hlen. split.
  - by apply (sha256_chunks_digest ctx 0).
  - by apply (sha256_chunks_digest ctx 1).
Qed.

(** The compression function of the library, eight unrolled lines on a
    rotating array with the message schedule extended in place, is the 64
    rounds of FIPS 180-4 with the constants that are the fractional parts of
    the cube roots of the first 64 primes. *)
Theorem sha256_process_is_fips180 st data :
  length st = 8%nat -> words st -> length data = 64%nat -> bytes data ->
  mbedtls_internal_sha256_process st data = compress st data.
Proof. apply sha256_process_is_compress. Qed.

(** the one-call digest the emulator uses. *)
Theorem sha256_ret_is_fips180 input :
  bytes input -> Z.of_nat (length input) < 2 ^ 32 ->
  mbedtls_sha256_ret input 0 = sha256 input
  /\ length (mbedtls_sha256_ret input 0) = 32%nat.
Proof.
  intros Hb Hl.
  assert (mbedtls_sha256_ret input 0 = sha256 input) as E.
  { pose proof (sha256_chunks_digest mbedtls_sha256_init 0 [input]) as H.
    simpl in H. rewrite app_nil_r in H. apply H; try done; [|lia]. by constructor. }
  split; [done|]. rewrite E. apply sha2_octets; [apply H256_ok|done].
Qed.

(** ** Witnesses *)

Lemma sha256_any_chunking_witness :
  mbedtls_sha256_finish_ret
    (fold_left mbedtls_sha256_update_ret [[0x61]; []; [0x62; 0x63]]
       (mbedtls_sha256_starts_ret mbedtls_sha256_init 0)) = sha256 [0x61; 0x62; 0x63].
Proof.
  destruct (sha256_any_chunking mbedtls_sha256_init [[0x61]; []; [0x62; 0x63]]) as [H _];
    [reflexivity|repeat constructor|repeat constructor; discriminate|reflexivity|exact H].
Defined.

Lemma sha256_process_is_fips180_witness :
  mbedtls_internal_sha256_process H256 (replicate 64 7) = compress H256 (replicate 64 7).
Proof.
  apply (sha256_process_is_fips180 H256 (replicate 64 7));
    first [reflexivity | apply (bool_decide_eq_true_1 _); vm_compute; reflexivity].
Defined.

Lemma sha256_ret_is_fips180_witness :
  mbedtls_sha256_ret [0x61; 0x62; 0x63] 0 = sha256 [0x61; 0x62; 0x63].
Proof.
  destruct (sha256_ret_is_fips180 [0x61; 0x62; 0x63]) as [H _];
    [repeat constructor; discriminate|reflexivity|exact H].
Defined.
