(* ===== verification/Md5.v ===== *)
(** * MD5 (externals/mbedtls/library/md5.c)

    Module [Md5] is the library's code: the 64 unrolled [P] lines on four
    variables, the context and the streaming interface (through [MdStream]).
    Module [Rfc1321] is the reference: the 64 steps with the word order and
    the rotations given by formulas and the constants computed from the sine
    function.  The emulator derives SD card directory names and the console
    seed from this digest. *)

From S2P Require Import Prelude Octets MdStream.
Open Scope Z_scope.
Open Scope c_scope.

Module Md5.

Definition GET_UINT32_LE (b : list Z) (i : Z) : Z :=
  b.[i] .| (b.[i + 1] << 8) .| (b.[i + 2] << 16) .| (b.[i + 3] << 24).
Definition PUT_UINT32_LE (n : Z) : list Z :=
  [ to_u8 (n .& 0xFF); to_u8 ((n >> 8) .& 0xFF); to_u8 ((n >> 16) .& 0xFF); to_u8 ((n >> 24) .& 0xFF) ].

(** [mbedtls_md5_context] is the shared part alone. *)
Definition mbedtls_md5_init : md_stream :=
  {| total0 := 0; total1 := 0; state := replicate 4 0; buffer := replicate 64 0 |}.
Definition mbedtls_md5_free (ctx : md_stream) : md_stream := mbedtls_md5_init.
Definition mbedtls_md5_clone (dst src : md_stream) : md_stream := src.

Definition mbedtls_md5_starts_ret (ctx : md_stream) : md_stream :=
  {| total0 := 0; total1 := 0;
     state := [0x67452301; 0xEFCDAB89; 0x98BADCFE; 0x10325476];
     buffer := buffer ctx |}.

(** [S(x,n)] (here [ROTL], since [S] is the successor), and [P(a,b,c,d,k,s,t)] for the current [F]; [a] to [d] are
    positions of [V], the four variables [A], [B], [C], [D]. *)
Definition ROTL (x n : Z) : Z := to_u32 (x << n) .| ((x .& 0xFFFFFFFF) >> (32 - n)).
Definition P (F : Z -> Z -> Z -> Z) (X V : list Z) (a b c d k s t : Z) : list Z :=
  let V := upd V a (to_u32 (V.[a] + (F V.[b] V.[c] V.[d] + X.[k] + t))) in
  upd V a (to_u32 (ROTL V.[a] s + V.[b])).

(** The four successive [F] macros; [~z] is the complement of a [uint32_t]. *)
Definition F1 (x y z : Z) : Z := z .^ (x .& (y .^ z)).
Definition F2 (x y z : Z) : Z := y .^ (z .& (x .^ y)).
Definition F3 (x y z : Z) : Z := x .^ y .^ z.
Definition F4 (x y z : Z) : Z := y .^ (x .| (z .^ 0xFFFFFFFF)).

Definition md5_round1 (X V : list Z) : list Z :=
  let V := P F1 X V 0 1 2 3 0 7 0xD76AA478 in
  let V := P F1 X V 3 0 1 2 1 12 0xE8C7B756 in
  let V := P F1 X V 2 3 0 1 2 17 0x242070DB in
  let V := P F1 X V 1 2 3 0 3 22 0xC1BDCEEE in
  let V := P F1 X V 0 1 2 3 4 7 0xF57C0FAF in
  let V := P F1 X V 3 0 1 2 5 12 0x4787C62A in
  let V := P F1 X V 2 3 0 1 6 17 0xA8304613 in
  let V := P F1 X V 1 2 3 0 7 22 0xFD469501 in
  let V := P F1 X V 0 1 2 3 8 7 0x698098D8 in
  let V := P F1 X V 3 0 1 2 9 12 0x8B44F7AF in
  let V := P F1 X V 2 3 0 1 10 17 0xFFFF5BB1 in
  let V := P F1 X V 1 2 3 0 11 22 0x895CD7BE in
  let V := P F1 X V 0 1 2 3 12 7 0x6B901122 in
  let V := P F1 X V 3 0 1 2 13 12 0xFD987193 in
  let V := P F1 X V 2 3 0 1 14 17 0xA679438E in
  P F1 X V 1 2 3 0 15 22 0x49B40821.

Definition md5_round2 (X V : list Z) : list Z :=
  let V := P F2 X V 0 1 2 3 1 5 0xF61E2562 in
  let V := P F2 X V 3 0 1 2 6 9 0xC040B340 in
  let V := P F2 X V 2 3 0 1 11 14 0x265E5A51 in
  let V := P F2 X V 1 2 3 0 0 20 0xE9B6C7AA in
  let V := P F2 X V 0 1 2 3 5 5 0xD62F105D in
  let V := P F2 X V 3 0 1 2 10 9 0x02441453 in
  let V := P F2 X V 2 3 0 1 15 14 0xD8A1E681 in
  let V := P F2 X V 1 2 3 0 4 20 0xE7D3FBC8 in
  let V := P F2 X V 0 1 2 3 9 5 0x21E1CDE6 in
  let V := P F2 X V 3 0 1 2 14 9 0xC33707D6 in
  let V := P F2 X V 2 3 0 1 3 14 0xF4D50D87 in
  let V := P F2 X V 1 2 3 0 8 20 0x455A14ED in
  let V := P F2 X V 0 1 2 3 13 5 0xA9E3E905 in
  let V := P F2 X V 3 0 1 2 2 9 0xFCEFA3F8 in
  let V := P F2 X V 2 3 0 1 7 14 0x676F02D9 in
  P F2 X V 1 2 3 0 12 20 0x8D2A4C8A.

Definition md5_round3 (X V : list Z) : list Z :=
  let V := P F3 X V 0 1 2 3 5 4 0xFFFA3942 in
  let V := P F3 X V 3 0 1 2 8 11 0x8771F681 in
  let V := P F3 X V 2 3 0 1 11 16 0x6D9D6122 in
  let V := P F3 X V 1 2 3 0 14 23 0xFDE5380C in
  let V := P F3 X V 0 1 2 3 1 4 0xA4BEEA44 in
  let V := P F3 X V 3 0 1 2 4 11 0x4BDECFA9 in
  let V := P F3 X V 2 3 0 1 7 16 0xF6BB4B60 in
  let V := P F3 X V 1 2 3 0 10 23 0xBEBFBC70 in
  let V := P F3 X V 0 1 2 3 13 4 0x289B7EC6 in
  let V := P F3 X V 3 0 1 2 0 11 0xEAA127FA in
  let V := P F3 X V 2 3 0 1 3 16 0xD4EF3085 in
  let V := P F3 X V 1 2 3 0 6 23 0x04881D05 in
  let V := P F3 X V 0 1 2 3 9 4 0xD9D4D039 in
  let V := P F3 X V 3 0 1 2 12 11 0xE6DB99E5 in
  let V := P F3 X V 2 3 0 1 15 16 0x1FA27CF8 in
  P F3 X V 1 2 3 0 2 23 0xC4AC5665.

Definition md5_round4 (X V : list Z) : list Z :=
  let V := P F4 X V 0 1 2 3 0 6 0xF4292244 in
  let V := P F4 X V 3 0 1 2 7 10 0x432AFF97 in
  let V := P F4 X V 2 3 0 1 14 15 0xAB9423A7 in
  let V := P F4 X V 1 2 3 0 5 21 0xFC93A039 in
  let V := P F4 X V 0 1 2 3 12 6 0x655B59C3 in
  let V := P F4 X V 3 0 1 2 3 10 0x8F0CCC92 in
  let V := P F4 X V 2 3 0 1 10 15 0xFFEFF47D in
  let V := P F4 X V 1 2 3 0 1 21 0x85845DD1 in
  let V := P F4 X V 0 1 2 3 8 6 0x6FA87E4F in
  let V := P F4 X V 3 0 1 2 15 10 0xFE2CE6E0 in
  let V := P F4 X V 2 3 0 1 6 15 0xA3014314 in
  let V := P F4 X V 1 2 3 0 13 21 0x4E0811A1 in
  let V := P F4 X V 0 1 2 3 4 6 0xF7537E82 in
  let V := P F4 X V 3 0 1 2 11 10 0xBD3AF235 in
  let V := P F4 X V 2 3 0 1 2 15 0x2AD7D2BB in
  P F4 X V 1 2 3 0 9 21 0xEB86D391.

(** [mbedtls_internal_md5_process] on [ctx->state]. *)
Definition mbedtls_internal_md5_process (st data : list Z) : list Z :=
  let X := map (fun i => GET_UINT32_LE data (4 * Z.of_nat i)) (seq 0 16) in
  let V := [st.[0]; st.[1]; st.[2]; st.[3]] in
  let V := md5_round1 X V in
  let V := md5_round2 X V in
  let V := md5_round3 X V in
  let V := md5_round4 X V in
  let st := upd st 0 (to_u32 (st.[0] + V.[0])) in
  let st := upd st 1 (to_u32 (st.[1] + V.[1])) in
  let st := upd st 2 (to_u32 (st.[2] + V.[2])) in
  upd st 3 (to_u32 (st.[3] + V.[3])).

Definition mbedtls_md5_update_ret : md_stream -> list Z -> md_stream :=
  stream_update mbedtls_internal_md5_process.

Definition put_length_le (high low : Z) : list Z := PUT_UINT32_LE low ++ PUT_UINT32_LE high.

Definition mbedtls_md5_finish_ret (ctx : md_stream) : list Z :=
  let st := state (stream_finish mbedtls_internal_md5_process put_length_le ctx) in
  PUT_UINT32_LE st.[0] ++ PUT_UINT32_LE st.[1] ++ PUT_UINT32_LE st.[2] ++ PUT_UINT32_LE st.[3].

Definition mbedtls_md5_ret (input : list Z) : list Z :=
  let ctx := mbedtls_md5_init in
  let ctx := mbedtls_md5_starts_ret ctx in
  let ctx := mbedtls_md5_update_ret ctx input in
  mbedtls_md5_finish_ret ctx.
End Md5.

Example md5_abc :
  be_val (Md5.mbedtls_md5_ret [0x61; 0x62; 0x63]) = 0x900150983CD24FB0D6963F7D28E17F72.
Proof. vm_compute. reflexivity. Qed.

(** ** RFC 1321 *)

Module Rfc1321.

(** The sine of an integer number of radians in fixed point, 96 fractional
    bits: the argument reduced modulo pi, then fifteen terms of the series. *)
Definition one : Z := 2 ^ 96.
Definition pi96 : Z := 248902613312231085230521944622.

Fixpoint sin_series (n : nat) (k x2 : Z) : Z :=
  match n with
  | O => one
  | S n => one - x2 * sin_series n (k + 2) x2 / (one * ((k + 1) * (k + 2)))
  end.

(** [floor (2^32 * abs (sin i))]. *)
Definition sin_word (i : Z) : Z :=
  let r := (i * one) mod pi96 in
  let x := if 2 * r <=? pi96 then r else pi96 - r in
  x * sin_series 15 1 (x * x / one) / one / 2 ^ 64.

Definition T (i : nat) : Z := nth i (map (fun j => sin_word (Z.of_nat j)) (seq 1 64)) 0.

(** Index of the word, and rotation, of step [i]. *)
Definition word_index (i : nat) : nat :=
  match (i / 16)%nat with
  | 0%nat => i mod 16
  | 1%nat => (5 * i + 1) mod 16
  | 2%nat => (3 * i + 5) mod 16
  | _ => (7 * i) mod 16
  end%nat.
Definition rotation (i : nat) : Z :=
  nth (4 * (i / 16) + i mod 4)
    [7; 12; 17; 22; 5; 9; 14; 20; 4; 11; 16; 23; 6; 10; 15; 21] 0.

Definition F (x y z : Z) : Z := Z.lor (Z.land x y) (Z.ldiff z x).
Definition G (x y z : Z) : Z := Z.lor (Z.land x z) (Z.ldiff y z).
Definition H (x y z : Z) : Z := Z.lxor x (Z.lxor y z).
Definition I (x y z : Z) : Z := Z.lxor y (Z.lor x (Z.ldiff (2 ^ 32 - 1) z)).

Definition fn (i : nat) : Z -> Z -> Z -> Z :=
  match (i / 16)%nat with 0%nat => F | 1%nat => G | 2%nat => H | _ => I end.

Definition rotl (n x : Z) : Z := Z.lor (Z.shiftl x n mod 2 ^ 32) (Z.shiftr x (32 - n)).

Definition regs : Type := Z * Z * Z * Z.

(** One operation, after which the registers move by one. *)
Definition step (X : list Z) (i : nat) (s : regs) : regs :=
  let '(a, b, c, d) := s in
  let x := (a + (fn i b c d + nth (word_index i) X 0 + T i)) mod 2 ^ 32 in
  (d, (rotl (rotation i) x + b) mod 2 ^ 32, b, c).

Fixpoint steps (X : list Z) (n : nat) (s : regs) : regs :=
  match n with
  | O => s
  | S n => step X n (steps X n s)
  end.

Definition block_words (b : list Z) : list Z :=
  map (fun i => le_val (slice (4 * i) 4 b)) (seq 0 16).

Definition compress (st b : list Z) : list Z :=
  match st with
  | [a; b0; c; d] =>
      let '(a', b', c', d') := steps (block_words b) 64 (a, b0, c, d) in
      [(a + a') mod 2 ^ 32; (b0 + b') mod 2 ^ 32; (c + c') mod 2 ^ 32; (d + d') mod 2 ^ 32]
  | _ => st
  end.

Definition IV : list Z := [0x67452301; 0xEFCDAB89; 0x98BADCFE; 0x10325476].

Definition md5 (m : list Z) : list Z :=
  concat (map (le_bytes 4)
    (process_all compress IV (pad (fun hi lo => le_bytes 4 lo ++ le_bytes 4 hi) m))).
End Rfc1321.

Import Md5.
Import Rfc1321(regs, step, steps, block_words, compress, IV, md5, word_index, rotation, fn, sin_word).

(** The constants of the 64 lines, in order. *)
Definition line_constants : list Z := [
    0xD76AA478; 0xE8C7B756; 0x242070DB; 0xC1BDCEEE;
    0xF57C0FAF; 0x4787C62A; 0xA8304613; 0xFD469501;
    0x698098D8; 0x8B44F7AF; 0xFFFF5BB1; 0x895CD7BE;
    0x6B901122; 0xFD987193; 0xA679438E; 0x49B40821;
    0xF61E2562; 0xC040B340; 0x265E5A51; 0xE9B6C7AA;
    0xD62F105D; 0x02441453; 0xD8A1E681; 0xE7D3FBC8;
    0x21E1CDE6; 0xC33707D6; 0xF4D50D87; 0x455A14ED;
    0xA9E3E905; 0xFCEFA3F8; 0x676F02D9; 0x8D2A4C8A;
    0xFFFA3942; 0x8771F681; 0x6D9D6122; 0xFDE5380C;
    0xA4BEEA44; 0x4BDECFA9; 0xF6BB4B60; 0xBEBFBC70;
    0x289B7EC6; 0xEAA127FA; 0xD4EF3085; 0x04881D05;
    0xD9D4D039; 0xE6DB99E5; 0x1FA27CF8; 0xC4AC5665;
    0xF4292244; 0x432AFF97; 0xAB9423A7; 0xFC93A039;
    0x655B59C3; 0x8F0CCC92; 0xFFEFF47D; 0x85845DD1;
    0x6FA87E4F; 0xFE2CE6E0; 0xA3014314; 0x4E0811A1;
    0xF7537E82; 0xBD3AF235; 0x2AD7D2BB; 0xEB86D391 ].

Lemma constants_are_sines : line_constants = map (fun j => sin_word (Z.of_nat j)) (seq 1 64).
Proof. vm_compute. reflexivity. Qed.

(** ** The macros are the functions of the RFC *)

Lemma F1_F x y z : F1 x y z = Rfc1321.F x y z.
Proof. unfold F1, Rfc1321.F. bool_ext. Qed.
Lemma F2_G x y z : F2 x y z = Rfc1321.G x y z.
Proof. unfold F2, Rfc1321.G. bool_ext. Qed.
Lemma F3_H x y z : F3 x y z = Rfc1321.H x y z.
Proof. unfold F3, Rfc1321.H. bool_ext. Qed.
Lemma F4_I x y z : is_u32 z -> F4 x y z = Rfc1321.I x y z.
Proof.
  intros Hz. unfold F4, Rfc1321.I. do 2 f_equal. apply Z.bits_inj'. intros n Hn.
  change (2 ^ 32 - 1) with (Z.ones 32). change 0xFFFFFFFF with (Z.ones 32).
  rewrite Z.lxor_spec, Z.ldiff_spec. destruct (Z.lt_ge_cases n 32).
  - rewrite Z.ones_spec_low by lia. by destruct (Z.testbit z n).
  - rewrite Z.ones_spec_high, (testbit_high 32 z) by (done || lia). done.
Qed.

Lemma ROTL_rotl x n : is_u32 x -> ROTL x n = Rfc1321.rotl n x.
Proof.
  intros Hx. unfold ROTL, Rfc1321.rotl. fold (to_u32 x). by rewrite (to_u32_id x), to_u32_mod.
Qed.

(** ** The unrolled steps *)

Definition to_list (s : regs) : list Z := let '(a, b, c, d) := s in [a; b; c; d].
Definition regs_ok (s : regs) : Prop := words (to_list s).

(** The variables before line [i]: the registers, rotated. *)
Definition lay (i : nat) (s : regs) : list Z :=
  drop (i mod 4) (to_list s) ++ take (i mod 4) (to_list s).

Definition line_fn (i : nat) : Z -> Z -> Z -> Z :=
  match (i / 16)%nat with 0%nat => F1 | 1%nat => F2 | 2%nat => F3 | _ => F4 end.

(** Line [i] of the 64. *)
Definition line (X : list Z) (i : nat) (V : list Z) : list Z :=
  let p j := Z.of_nat ((4 - i mod 4 + j) mod 4) in
  P (line_fn i) X V (p 0%nat) (p 1%nat) (p 2%nat) (p 3%nat)
    (Z.of_nat (word_index i)) (rotation i) line_constants.[Z.of_nat i].

Fixpoint lines (X : list Z) (n : nat) (V : list Z) : list Z :=
  match n with
  | O => V
  | S n => line X n (lines X n V)
  end.

Lemma rounds_lines X V :
  md5_round4 X (md5_round3 X (md5_round2 X (md5_round1 X V))) = lines X 64 V.
Proof. cbv -[P F1 F2 F3 F4]. reflexivity. Qed.

Lemma step_ok X i s : regs_ok s -> regs_ok (step X i s).
Proof.
  destruct s as [[[a b] c] d]. unfold regs_ok. simpl. intros H.
  do 4 (apply Forall_cons_1 in H; destruct H as [? H]).
  repeat (apply Forall_cons_2; [first [done | apply (Z.mod_pos_bound _ (2 ^ 32)); lia]|]). constructor.
Qed.

Lemma steps_ok X n s : regs_ok s -> regs_ok (steps X n s).
Proof. intros H. induction n as [|n IH]; [done|]. simpl. by apply step_ok. Qed.

Lemma line_fn_fn i x y z : is_u32 z -> line_fn i x y z = fn i x y z.
Proof.
  intros Hz. unfold line_fn, fn.
  destruct (i / 16)%nat as [|[|[|n]]]; auto using F1_F, F2_G, F3_H, F4_I.
Qed.

Lemma constant_T i : line_constants.[Z.of_nat i] = Rfc1321.T i.
Proof. unfold Rfc1321.T, rd. by rewrite Nat2Z.id, constants_are_sines. Qed.

Lemma line_step X i s :
  regs_ok s -> line X i (lay i s) = lay (S i) (step X i s).
Proof.
  destruct s as [[[a b] c] d]. unfold regs_ok. simpl to_list. intros H.
  do 4 (apply Forall_cons_1 in H; destruct H as [? H]).
  unfold line, lay, step. rewrite constant_T. simpl to_list.
  assert (S i mod 4 = (i mod 4 + 1) mod 4)%nat as ->.
  { rewrite <- Nat.add_1_r, Nat.Div0.add_mod_idemp_l. done. }
  assert (i mod 4 < 4)%nat as Hi by by apply Nat.mod_upper_bound.
  replace (nth (word_index i) X 0) with X.[Z.of_nat (word_index i)]
    by (unfold rd; by rewrite Nat2Z.id).
  generalize (Rfc1321.T i) (rotation i) (Z.of_nat (word_index i)). intros t r x.
  assert (forall v b', to_u32 (ROTL (to_u32 v) r + b') = (Rfc1321.rotl r (v mod 2 ^ 32) + b') mod 2 ^ 32) as E.
  { intros v b'. by rewrite ROTL_rotl, !to_u32_mod by auto with widths. }
  rewrite <- (line_fn_fn i b c d) by done. rewrite <- E.
  generalize dependent (i mod 4)%nat. intros j Hj.
  destruct j as [|[|[|[|j]]]]; [reflexivity..|lia].
Qed.

Lemma lines_steps X n s : regs_ok s -> lines X n (lay 0 s) = lay n (steps X n s).
Proof.
  intros Hs. induction n as [|n IH]; [done|]. cbn [lines steps]. rewrite IH.
  apply line_step. by apply steps_ok.
Qed.

Lemma lay_whole i s : (i mod 4 = 0)%nat -> lay i s = to_list s.
Proof. intros H. unfold lay. rewrite H. apply app_nil_r. Qed.

Lemma get_le_val b i :
  bytes b -> (i + 4 <= length b)%nat ->
  GET_UINT32_LE b (Z.of_nat i) = le_val (slice i 4 b) /\ is_u32 (GET_UINT32_LE b (Z.of_nat i)).
Proof.
  intros Hb Hl. unfold slice. rewrite (take4_drop b i 0) by done.
  assert (forall k, nth (i + k) b 0 = b.[Z.of_nat i + Z.of_nat k]) as E
    by (intros k; unfold rd; f_equal; lia).
  rewrite !E. replace (nth i b 0) with b.[Z.of_nat i] by (unfold rd; by rewrite Nat2Z.id).
  change (Z.of_nat 1) with 1. change (Z.of_nat 2) with 2. change (Z.of_nat 3) with 3.
  assert (forall k, is_byte b.[Z.of_nat i + k]) as HB by (intros; by apply bytes_rd).
  pose proof (HB 0) as H0. rewrite Z.add_0_r in H0.
  change (GET_UINT32_LE b (Z.of_nat i))
    with (le32 b.[Z.of_nat i] b.[Z.of_nat i + 1] b.[Z.of_nat i + 2] b.[Z.of_nat i + 3]).
  split; [|by apply le32_range]. rewrite le32_add by done. cbn [le_val]. lia.
Qed.

Definition state_ok (st : list Z) : Prop := length st = 4%nat /\ words st.

Lemma md5_process_is_compress st data :
  state_ok st -> length data = 64%nat -> bytes data ->
  mbedtls_internal_md5_process st data = compress st data.
Proof.
  intros [Hl Hw] Hd Hb. unfold mbedtls_internal_md5_process.
  replace (map (fun i => GET_UINT32_LE data (4 * Z.of_nat i)) (seq 0 16)) with (block_words data).
  2:{ apply map_ext_in. intros i Hi. apply in_seq in Hi.
      replace (4 * Z.of_nat i) with (Z.of_nat (4 * i)) by lia.
      symmetry. apply get_le_val; [done|lia]. }
  do 4 (destruct st as [|? st]; [discriminate|]). destruct st; [|discriminate].
  cbv zeta. rewrite rounds_lines.
  set (s := (z, z0, z1, z2)). assert (regs_ok s) as Hs by exact Hw.
  assert (lines (block_words data) 64 [z; z0; z1; z2] = to_list (steps (block_words data) 64 s)) as E.
  { pose proof (lines_steps (block_words data) 64 s Hs) as E.
    rewrite (lay_whole 0), (lay_whole 64) in E by done. exact E. }
  change [[z; z0; z1; z2].[0]; [z; z0; z1; z2].[1]; [z; z0; z1; z2].[2]; [z; z0; z1; z2].[3]]
    with [z; z0; z1; z2].
  rewrite E. unfold compress. fold s. destruct (steps _ 64 s) as [[[a b] c] d].
  rewrite <- !to_u32_mod. reflexivity.
Qed.

(** ** The digest *)

Lemma PUT_le_bytes n : PUT_UINT32_LE n = le_bytes 4 n.
Proof.
  unfold PUT_UINT32_LE. cbn [le_bytes].
  assert (forall x, to_u8 (x .& 0xFF) = x mod 256) as E.
  { intros x. fold (to_u8 x). rewrite to_u8_id by auto with widths. apply to_u8_mod. }
  rewrite !E, !Z.shiftr_div_pow2, !Z.div_div by lia. done.
Qed.

Lemma md5_compress_ok st b : state_ok st -> state_ok (compress st b).
Proof.
  intros [Hl Hw]. do 4 (destruct st as [|? st]; [discriminate|]). destruct st; [|discriminate].
  unfold compress. destruct (steps _ _ _) as [[[? ?] ?] ?]. split; [done|].
  repeat (apply Forall_cons_2; [apply (Z.mod_pos_bound _ (2 ^ 32)); lia|]). constructor.
Qed.

Lemma md5_process_all_compress st m :
  state_ok st -> bytes m ->
  process_all mbedtls_internal_md5_process st m = process_all compress st m
  /\ state_ok (process_all compress st m).
Proof.
  intros Hst Hb. apply (process_blocks_ext _ _ state_ok); try done.
  - intros s b Hs Hbb Hbl. split; [by apply md5_process_is_compress|by apply md5_compress_ok].
  - pose proof (Nat.div_mod_eq (length m) 64). lia.
Qed.

Lemma IV_ok : state_ok IV.
Proof. split; [done|]. apply (bool_decide_eq_true_1 _). vm_compute. reflexivity. Qed.

Lemma md5_octets m : bytes m -> length (md5 m) = 16%nat /\ bytes (md5 m).
Proof.
  intros Hm. unfold md5.
  destruct (md5_process_all_compress IV (pad (fun hi lo => le_bytes 4 lo ++ le_bytes 4 hi) m)) as [_ [Hl _]].
  - apply IV_ok.
  - apply bytes_pad; [done|]. intros. apply Forall_app_2; auto with bufs.
  - destruct (process_all compress IV _) as [|a [|b [|c [|d [|]]]]]; try discriminate.
    cbn [map concat]. rewrite !length_app, !length_le_bytes. split; [done|].
    repeat (apply Forall_app_2; [apply bytes_le_bytes|]); auto with bufs.
Qed.

Lemma md5_finish_digest m ctx :
  absorbed mbedtls_internal_md5_process IV m ctx -> bytes m -> 8 * Z.of_nat (length m) < 2 ^ 64 ->
  mbedtls_md5_finish_ret ctx = md5 m.
Proof.
  intros H Hb Hlen. unfold mbedtls_md5_finish_ret, md5.
  rewrite (stream_finish_pads _ _ IV m) by done.
  replace (pad put_length_le m) with (pad (fun hi lo => le_bytes 4 lo ++ le_bytes 4 hi) m)
    by (unfold pad, put_length_le; by rewrite !PUT_le_bytes).
  set (pm := pad _ m). assert (bytes pm) as Hpm.
  { apply bytes_pad; [done|]. intros. apply Forall_app_2; auto with bufs. }
  destruct (md5_process_all_compress IV pm) as [-> [Hl _]]; [apply IV_ok|done|].
  destruct (process_all compress IV pm) as [|a [|b [|c [|d [|]]]]]; try discriminate.
  rewrite !PUT_le_bytes. cbn [map concat]. by rewrite app_nil_r.
Qed.

(** The MD5 digest that [starts], any sequence of [update] calls and
    [finish] produce is the RFC 1321 digest of the concatenation of the
    pieces, for calls of less than [2^32] octets and messages of less than
    [2^64] bits. *)
Theorem md5_any_chunking ctx chunks :
  length (buffer ctx) = 64%nat ->
  Forall (fun c => Z.of_nat (length c) < 2 ^ 32) chunks -> bytes (concat chunks) ->
  8 * Z.of_nat (length (concat chunks)) < 2 ^ 64 ->
  mbedtls_md5_finish_ret (fold_left mbedtls_md5_update_ret chunks (mbedtls_md5_starts_ret ctx))
  = md5 (concat chunks).
Proof.
  intros Hbuf Hc Hb Hlen. apply md5_finish_digest; try done.
  apply (stream_updates_absorb _ _ []); [|done]. by apply absorbed_nil.
Qed.

Lemma md5_any_chunking_witness :
  mbedtls_md5_finish_ret
    (fold_left mbedtls_md5_update_ret [[0x61]; [0x62; 0x63]] (mbedtls_md5_starts_ret mbedtls_md5_init))
  = md5 [0x61; 0x62; 0x63].
Proof.
  apply (md5_any_chunking mbedtls_md5_init [[0x61]; [0x62; 0x63]]);
    [reflexivity|repeat constructor|repeat constructor; discriminate|reflexivity].
Defined.
