(* ===== verification/Md.v ===== *)
(** * The message-digest layer and HMAC (externals/mbedtls/library/md.c, md_wrap.c)

    A digest is a table of functions ([mbedtls_md_info_t]); the layer calls it
    through the table only.  [Class Digest] states what a table must promise,
    the instances for SHA-224, SHA-256 and MD5 discharge it from the theorems
    of [Sha256] and [Md5], and the theorems on HMAC are proved against the
    class.  The tables of SHA-1, SHA-384, SHA-512 and RIPEMD-160 are
    parameters of [mbedtls_md_info_from_type].

    Memory allocation succeeds in this model; a context on which
    [mbedtls_md_setup] has not run is [None]. *)

From S2P Require Import Prelude Octets MdStream Sha256 Md5.
Open Scope Z_scope.
Open Scope c_scope.

Module Md.

Definition MBEDTLS_ERR_MD_BAD_INPUT_DATA : Z := -0x5100.

Inductive mbedtls_md_type_t :=
| MBEDTLS_MD_NONE | MBEDTLS_MD_MD2 | MBEDTLS_MD_MD4 | MBEDTLS_MD_MD5 | MBEDTLS_MD_SHA1
| MBEDTLS_MD_SHA224 | MBEDTLS_MD_SHA256 | MBEDTLS_MD_SHA384 | MBEDTLS_MD_SHA512
| MBEDTLS_MD_RIPEMD160.

(** [mbedtls_md_info_t].  A function returns the new context and its status. *)
Record mbedtls_md_info_t := {
  md_ctx_t : Type;
  type : mbedtls_md_type_t;
  size : nat;
  block_size : nat;
  starts_func : md_ctx_t -> md_ctx_t * Z;
  update_func : md_ctx_t -> list Z -> md_ctx_t * Z;
  finish_func : md_ctx_t -> list Z * md_ctx_t * Z;
  digest_func : list Z -> list Z * Z;
  ctx_alloc_func : md_ctx_t;
  clone_func : md_ctx_t -> md_ctx_t -> md_ctx_t
}.

(** The tables of md_wrap.c. *)
Definition sha256_finish_wrap (ctx : Sha256.mbedtls_sha256_context)
    : list Z * Sha256.mbedtls_sha256_context * Z :=
  (Sha256.mbedtls_sha256_finish_ret ctx,
   {| Sha256.stream := stream_finish Sha256.mbedtls_internal_sha256_process Sha256.put_length_be
                         (Sha256.stream ctx);
      Sha256.is224 := Sha256.is224 ctx |}, 0).

Definition sha256_family (ty : mbedtls_md_type_t) (sz : nat) (is224 : Z) : mbedtls_md_info_t := {|
  md_ctx_t := Sha256.mbedtls_sha256_context;
  type := ty;
  size := sz;
  block_size := 64;
  starts_func := fun ctx => (Sha256.mbedtls_sha256_starts_ret ctx is224, 0);
  update_func := fun ctx input => (Sha256.mbedtls_sha256_update_ret ctx input, 0);
  finish_func := sha256_finish_wrap;
  digest_func := fun input => (Sha256.mbedtls_sha256_ret input is224, 0);
  ctx_alloc_func := Sha256.mbedtls_sha256_init;
  clone_func := Sha256.mbedtls_sha256_clone
|}.
Definition mbedtls_sha224_info : mbedtls_md_info_t := sha256_family MBEDTLS_MD_SHA224 28 1.
Definition mbedtls_sha256_info : mbedtls_md_info_t := sha256_family MBEDTLS_MD_SHA256 32 0.

Definition mbedtls_md5_info : mbedtls_md_info_t := {|
  md_ctx_t := md_stream;
  type := MBEDTLS_MD_MD5;
  size := 16;
  block_size := 64;
  starts_func := fun ctx => (Md5.mbedtls_md5_starts_ret ctx, 0);
  update_func := fun ctx input => (Md5.mbedtls_md5_update_ret ctx input, 0);
  finish_func := fun ctx =>
    (Md5.mbedtls_md5_finish_ret ctx,
     stream_finish Md5.mbedtls_internal_md5_process Md5.put_length_le ctx, 0);
  digest_func := fun input => (Md5.mbedtls_md5_ret input, 0);
  ctx_alloc_func := Md5.mbedtls_md5_init;
  clone_func := Md5.mbedtls_md5_clone
|}.

(** [mbedtls_md_info_from_type] in the configuration of the repository, where
    MD2 and MD4 are not compiled in. *)
Definition mbedtls_md_info_from_type
    (ripemd160_info sha1_info sha384_info sha512_info : mbedtls_md_info_t)
    (md_type : mbedtls_md_type_t) : option mbedtls_md_info_t :=
  match md_type with
  | MBEDTLS_MD_MD5 => Some mbedtls_md5_info
  | MBEDTLS_MD_RIPEMD160 => Some ripemd160_info
  | MBEDTLS_MD_SHA1 => Some sha1_info
  | MBEDTLS_MD_SHA224 => Some mbedtls_sha224_info
  | MBEDTLS_MD_SHA256 => Some mbedtls_sha256_info
  | MBEDTLS_MD_SHA384 => Some sha384_info
  | MBEDTLS_MD_SHA512 => Some sha512_info
  | _ => None
  end.

(** [mbedtls_md_context_t] after [setup]; [None] is the zeroed structure. *)
Record md_state := {
  md_info : mbedtls_md_info_t;
  md_ctx : md_ctx_t md_info;
  hmac_ctx : option (list Z)
}.
Definition mbedtls_md_context_t : Type := option md_state.

Definition mbedtls_md_init : mbedtls_md_context_t := None.
Definition mbedtls_md_free (ctx : mbedtls_md_context_t) : mbedtls_md_context_t := None.

Definition mbedtls_md_setup (ctx : mbedtls_md_context_t) (info : option mbedtls_md_info_t) (hmac : Z)
    : mbedtls_md_context_t * Z :=
  match info with
  | None => (ctx, MBEDTLS_ERR_MD_BAD_INPUT_DATA)
  | Some info =>
      let hm := if negb (hmac =? 0) then Some (replicate (2 * block_size info) 0)
                else match ctx with Some c => hmac_ctx c | None => None end in
      (Some {| md_info := info; md_ctx := ctx_alloc_func info; hmac_ctx := hm |}, 0)
  end.

Definition with_ctx (c : md_state) (x : md_ctx_t (md_info c)) : mbedtls_md_context_t :=
  Some {| md_info := md_info c; md_ctx := x; hmac_ctx := hmac_ctx c |}.

Definition mbedtls_md_starts (ctx : mbedtls_md_context_t) : mbedtls_md_context_t * Z :=
  match ctx with
  | None => (ctx, MBEDTLS_ERR_MD_BAD_INPUT_DATA)
  | Some c => let '(x, ret) := starts_func (md_info c) (md_ctx c) in (with_ctx c x, ret)
  end.

Definition mbedtls_md_update (ctx : mbedtls_md_context_t) (input : list Z)
    : mbedtls_md_context_t * Z :=
  match ctx with
  | None => (ctx, MBEDTLS_ERR_MD_BAD_INPUT_DATA)
  | Some c => let '(x, ret) := update_func (md_info c) (md_ctx c) input in (with_ctx c x, ret)
  end.

Definition mbedtls_md_finish (ctx : mbedtls_md_context_t) : list Z * mbedtls_md_context_t * Z :=
  match ctx with
  | None => ([], ctx, MBEDTLS_ERR_MD_BAD_INPUT_DATA)
  | Some c => let '(out, x, ret) := finish_func (md_info c) (md_ctx c) in (out, with_ctx c x, ret)
  end.

Definition mbedtls_md (info : option mbedtls_md_info_t) (input : list Z) : list Z * Z :=
  match info with
  | None => ([], MBEDTLS_ERR_MD_BAD_INPUT_DATA)
  | Some info => digest_func info input
  end.

(** [for( i = 0; i < keylen; i++ ) pad[i] = (unsigned char)( pad[i] ^ key[i] )]. *)
Definition xor_key (pad key : list Z) : list Z :=
  for_up (length key) 0 (fun i pad => upd pad i (to_u8 (pad.[i] .^ key.[i]))) pad.

(** The hashing of a long key, when there is one: the key used, the digest
    context and the status. *)
Definition hmac_key (info : mbedtls_md_info_t) (x : md_ctx_t info) (key : list Z)
    : list Z * md_ctx_t info * Z :=
  if (block_size info <? length key)%nat then
    let '(x, ret) := starts_func info x in
    if negb (ret =? 0) then (key, x, ret)
    else
      let '(x, ret) := update_func info x key in
      if negb (ret =? 0) then (key, x, ret)
      else
        let '(sum, x, ret) := finish_func info x in
        if negb (ret =? 0) then (key, x, ret) else (take (size info) sum, x, 0)
  else (key, x, 0).

Definition mbedtls_md_hmac_starts (ctx : mbedtls_md_context_t) (key : list Z)
    : mbedtls_md_context_t * Z :=
  match ctx with
  | None => (ctx, MBEDTLS_ERR_MD_BAD_INPUT_DATA)
  | Some c =>
      match hmac_ctx c with
      | None => (ctx, MBEDTLS_ERR_MD_BAD_INPUT_DATA)
      | Some hm =>
          let info := md_info c in
          let '(key, x, ret) := hmac_key info (md_ctx c) key in
          if negb (ret =? 0) then (with_ctx c x, ret)
          else
            let ipad := xor_key (replicate (block_size info) 0x36) key in
            let opad := xor_key (replicate (block_size info) 0x5C) key in
            let c := {| md_info := info; md_ctx := x; hmac_ctx := Some (ipad ++ opad) |} in
            let '(x, ret) := starts_func info x in
            if negb (ret =? 0) then (with_ctx c x, ret)
            else
              let '(x, ret) := update_func info x ipad in
              (with_ctx c x, ret)
      end
  end.

Definition mbedtls_md_hmac_update (ctx : mbedtls_md_context_t) (input : list Z)
    : mbedtls_md_context_t * Z :=
  match ctx with
  | None => (ctx, MBEDTLS_ERR_MD_BAD_INPUT_DATA)
  | Some c =>
      match hmac_ctx c with
      | None => (ctx, MBEDTLS_ERR_MD_BAD_INPUT_DATA)
      | Some _ => let '(x, ret) := update_func (md_info c) (md_ctx c) input in (with_ctx c x, ret)
      end
  end.

Definition mbedtls_md_hmac_finish (ctx : mbedtls_md_context_t)
    : list Z * mbedtls_md_context_t * Z :=
  match ctx with
  | None => ([], ctx, MBEDTLS_ERR_MD_BAD_INPUT_DATA)
  | Some c =>
      match hmac_ctx c with
      | None => ([], ctx, MBEDTLS_ERR_MD_BAD_INPUT_DATA)
      | Some hm =>
          let info := md_info c in
          let opad := drop (block_size info) hm in
          let '(tmp, x, ret) := finish_func info (md_ctx c) in
          if negb (ret =? 0) then ([], with_ctx c x, ret)
          else
            let '(x, ret) := starts_func info x in
            if negb (ret =? 0) then ([], with_ctx c x, ret)
            else
              let '(x, ret) := update_func info x opad in
              if negb (ret =? 0) then ([], with_ctx c x, ret)
              else
                let '(x, ret) := update_func info x (take (size info) tmp) in
                if negb (ret =? 0) then ([], with_ctx c x, ret)
                else
                  let '(out, x, ret) := finish_func info x in
                  (out, with_ctx c x, ret)
      end
  end.

Definition mbedtls_md_hmac_reset (ctx : mbedtls_md_context_t) : mbedtls_md_context_t * Z :=
  match ctx with
  | None => (ctx, MBEDTLS_ERR_MD_BAD_INPUT_DATA)
  | Some c =>
      match hmac_ctx c with
      | None => (ctx, MBEDTLS_ERR_MD_BAD_INPUT_DATA)
      | Some hm =>
          let info := md_info c in
          let ipad := take (block_size info) hm in
          let '(x, ret) := starts_func info (md_ctx c) in
          if negb (ret =? 0) then (with_ctx c x, ret)
          else let '(x, ret) := update_func info x ipad in (with_ctx c x, ret)
      end
  end.

Definition mbedtls_md_hmac (info : option mbedtls_md_info_t) (key input : list Z) : list Z * Z :=
  match info with
  | None => ([], MBEDTLS_ERR_MD_BAD_INPUT_DATA)
  | Some _ =>
      let ctx := mbedtls_md_init in
      let '(ctx, ret) := mbedtls_md_setup ctx info 1 in
      if negb (ret =? 0) then ([], ret)
      else
        let '(ctx, ret) := mbedtls_md_hmac_starts ctx key in
        if negb (ret =? 0) then ([], ret)
        else
          let '(ctx, ret) := mbedtls_md_hmac_update ctx input in
          if negb (ret =? 0) then ([], ret)
          else
            let '(out, ctx, ret) := mbedtls_md_hmac_finish ctx in
            (out, ret)
  end.
End Md.

Import Md.

(** ** What a digest promises *)

(** [I x]: the context [x] can be started; [A x m]: it has absorbed [m]. *)
Class Digest (info : mbedtls_md_info_t) (H : list Z -> list Z)
    (I : md_ctx_t info -> Prop) (A : md_ctx_t info -> list Z -> Prop) : Prop := {
  digest_alloc : I (ctx_alloc_func info);
  digest_ready x m : A x m -> I x;
  digest_starts x : I x -> exists x', starts_func info x = (x', 0) /\ A x' [];
  digest_update x m input :
    A x m -> Z.of_nat (length input) < 2 ^ 32 ->
    exists x', update_func info x input = (x', 0) /\ A x' (m ++ input);
  digest_finish x m :
    A x m -> bytes m -> 8 * Z.of_nat (length m) < 2 ^ 64 ->
    exists x', finish_func info x = (H m, x', 0) /\ I x';
  digest_size m :
    bytes m -> 8 * Z.of_nat (length m) < 2 ^ 64 -> length (H m) = size info /\ bytes (H m);
  digest_block : (size info <= block_size info < 1024)%nat
}.

(** HMAC of RFC 2104 over a hash [H] with blocks of [B] octets. *)
Definition hmac_k0 (H : list Z -> list Z) (B : nat) (key : list Z) : list Z :=
  let k := if (B <? length key)%nat then H key else key in
  k ++ replicate (B - length k) 0.
Definition hmac_spec (H : list Z -> list Z) (B : nat) (key m : list Z) : list Z :=
  let k0 := hmac_k0 H B key in
  H (xor_bytes k0 (replicate B 0x5C) ++ H (xor_bytes k0 (replicate B 0x36) ++ m)).

(** The loop that mixes the key into a pad. *)
Lemma xor_key_loop key : forall done pad,
  bytes pad -> bytes key -> (length key <= length pad)%nat ->
  forall k0 : list Z, length k0 = length done ->
  for_up (length key) (Z.of_nat (length done))
    (fun i p => upd p i (to_u8 (p.[i] .^ (k0 ++ key).[i]))) (done ++ pad)
  = done ++ xor_bytes key (take (length key) pad) ++ drop (length key) pad.
Proof.
  induction key as [|k key IH]; intros dn pad Hp Hk Hl k0 Hk0; [done|].
  destruct pad as [|x pad]; [simpl in Hl; lia|].
  apply Forall_cons_1 in Hp as [Hx Hp]. apply Forall_cons_1 in Hk as [Hkb Hk].
  cbn [length for_up].
  assert ((dn ++ x :: pad).[Z.of_nat (length dn)] = x) as Ex.
  { unfold rd. rewrite Nat2Z.id, app_nth2, Nat.sub_diag by lia. done. }
  assert ((k0 ++ k :: key).[Z.of_nat (length dn)] = k) as Ek.
  { unfold rd. rewrite Nat2Z.id, <- Hk0, app_nth2, Nat.sub_diag by lia. done. }
  rewrite Ex, Ek, to_u8_id by auto with widths.
  replace (upd (dn ++ x :: pad) (Z.of_nat (length dn)) (x .^ k)) with ((dn ++ [x .^ k]) ++ pad).
  2:{ unfold upd. rewrite Nat2Z.id, insert_app_r_alt, Nat.sub_diag, <- app_assoc by lia. done. }
  replace (Z.of_nat (length dn) + 1) with (Z.of_nat (length (dn ++ [x .^ k])))
    by (rewrite length_app; simpl; lia).
  replace (k0 ++ k :: key) with ((k0 ++ [k]) ++ key) by (by rewrite <- app_assoc).
  rewrite IH by (try done; rewrite ?length_app; simpl in *; lia).
  rewrite <- app_assoc. cbn [take drop xor_bytes zip_with app]. by rewrite Z.lxor_comm.
Qed.

Lemma xor_key_spec c B key :
  is_byte c -> bytes key -> (length key <= B)%nat ->
  xor_key (replicate B c) key = xor_bytes (key ++ replicate (B - length key) 0) (replicate B c).
Proof.
  intros Hc Hk Hl.
  pose proof (xor_key_loop key [] (replicate B c) ltac:(by apply Forall_replicate) Hk
                ltac:(by rewrite length_replicate) [] eq_refl) as E.
  change (xor_key (replicate B c) key = xor_bytes key (take (length key) (replicate B c))
    ++ drop (length key) (replicate B c)) in E. rewrite E.
  assert (replicate B c = replicate (length key) c ++ replicate (B - length key) c) as ->
    by (rewrite <- replicate_add; f_equal; lia).
  rewrite xor_bytes_app, take_app_length', drop_app_length' by by rewrite length_replicate.
  f_equal. generalize (B - length key)%nat. intros n.
  induction n as [|n IH]; [done|]. unfold xor_bytes in *. simpl. by rewrite <- IH.
Qed.

(** ** HMAC over a digest *)

Section Hmac.
Context (info : mbedtls_md_info_t) (H : list Z -> list Z)
  (I : md_ctx_t info -> Prop) (A : md_ctx_t info -> list Z -> Prop) `{HD : !Digest info H I A}.

Abbreviation B := (block_size info).

Definition ipad_of (key : list Z) : list Z := xor_bytes (hmac_k0 H B key) (replicate B 0x36).
Definition opad_of (key : list Z) : list Z := xor_bytes (hmac_k0 H B key) (replicate B 0x5C).

(** The context of an HMAC computation under [key] that has absorbed [m]. *)
Definition hmac_at (key m : list Z) (ctx : mbedtls_md_context_t) : Prop :=
  exists x, ctx = Some {| md_info := info; md_ctx := x;
                          hmac_ctx := Some (ipad_of key ++ opad_of key) |}
            /\ A x (ipad_of key ++ m).

Lemma length_k0 key :
  bytes key -> Z.of_nat (length key) < 2 ^ 32 ->
  length (hmac_k0 H B key) = B /\ bytes (hmac_k0 H B key).
Proof.
  intros Hk Hl. unfold hmac_k0. pose proof digest_block as HB.
  destruct (Nat.ltb_spec B (length key)) as [Hlt|Hle].
  - destruct (digest_size key Hk ltac:(lia)) as [Hs Hb].
    split; [rewrite length_app, length_replicate; lia|].
    apply Forall_app_2; [done|]. apply Forall_replicate. unfold is_byte. lia.
  - split; [rewrite length_app, length_replicate; lia|].
    apply Forall_app_2; [done|]. apply Forall_replicate. unfold is_byte. lia.
Qed.

Lemma pads_ok key :
  bytes key -> Z.of_nat (length key) < 2 ^ 32 ->
  (length (ipad_of key) = B /\ bytes (ipad_of key)) /\ (length (opad_of key) = B /\ bytes (opad_of key)).
Proof.
  intros Hk Hl. destruct (length_k0 key Hk Hl) as [L Hb]. unfold ipad_of, opad_of.
  rewrite !length_xor_bytes, !length_replicate, L.
  repeat split; try lia; apply bytes_xor; try done; apply Forall_replicate; unfold is_byte; lia.
Qed.

(** The key the pads are made of, and a context that can be started. *)
Lemma hmac_key_ok x key :
  I x -> bytes key -> Z.of_nat (length key) < 2 ^ 32 ->
  exists k x', hmac_key info x key = (k, x', 0) /\ I x' /\ bytes k /\ (length k <= B)%nat
    /\ hmac_k0 H B key = k ++ replicate (B - length k) 0.
Proof.
  intros Hx Hk Hl. unfold hmac_key, hmac_k0. pose proof digest_block as HB.
  destruct (Nat.ltb_spec B (length key)) as [Hlt|Hle].
  - destruct (digest_starts x Hx) as (x1 & -> & H1). simpl.
    destruct (digest_update x1 [] key H1 Hl) as (x2 & -> & H2). simpl in *.
    destruct (digest_finish x2 key H2 Hk ltac:(lia)) as (x3 & -> & H3). simpl.
    destruct (digest_size key Hk ltac:(lia)) as [Hs Hb].
    exists (H key), x3. rewrite take_ge by lia. split_and!; try done. lia.
  - exists key, x. split_and!; try done.
Qed.

Lemma hmac_starts_at c key hm x :
  c = Some {| md_info := info; md_ctx := x; hmac_ctx := Some hm |} -> I x ->
  bytes key -> Z.of_nat (length key) < 2 ^ 32 ->
  exists c', mbedtls_md_hmac_starts c key = (c', 0) /\ hmac_at key [] c'.
Proof.
  intros -> Hx Hk Hl. unfold mbedtls_md_hmac_starts. cbn [hmac_ctx md_info md_ctx].
  destruct (hmac_key_ok x key Hx Hk Hl) as (k & x1 & -> & H1 & Hkb & Hkl & E0). simpl negb. cbv iota.
  rewrite !xor_key_spec, <- !E0 by (done || (unfold is_byte; lia)).
  change (xor_bytes (hmac_k0 H B key) (replicate B 0x36)) with (ipad_of key).
  change (xor_bytes (hmac_k0 H B key) (replicate B 0x5C)) with (opad_of key).
  destruct (digest_starts x1 H1) as (x2 & -> & H2). simpl negb. cbv iota.
  destruct (pads_ok key Hk Hl) as [[Li _] _]. pose proof digest_block.
  destruct (digest_update x2 [] (ipad_of key) H2 ltac:(lia)) as (x3 & -> & H3).
  eexists. split; [done|]. exists x3. split; [done|]. by rewrite app_nil_r.
Qed.

Lemma hmac_update_at c key m input :
  hmac_at key m c -> Z.of_nat (length input) < 2 ^ 32 ->
  exists c', mbedtls_md_hmac_update c input = (c', 0) /\ hmac_at key (m ++ input) c'.
Proof.
  intros (x & -> & Hx) Hl. unfold mbedtls_md_hmac_update. cbn [hmac_ctx md_info md_ctx].
  destruct (digest_update x _ input Hx Hl) as (x' & -> & H').
  eexists. split; [done|]. exists x'. split; [done|]. by rewrite app_assoc.
Qed.

Lemma hmac_updates_at c key m chunks :
  hmac_at key m c -> Forall (fun i => Z.of_nat (length i) < 2 ^ 32) chunks ->
  hmac_at key (m ++ concat chunks)
    (fold_left (fun c i => fst (mbedtls_md_hmac_update c i)) chunks c).
Proof.
  intros Hc Hl. revert m c Hc. induction Hl as [|i chunks Hi _ IH]; intros m c Hc; simpl.
  { by rewrite app_nil_r. }
  destruct (hmac_update_at c key m i Hc Hi) as (c' & -> & Hc'). simpl. rewrite app_assoc. by apply IH.
Qed.

(** [finish] gives the code, and [reset] makes the context ready for the next
    message under the same key. *)
Lemma hmac_finish_at c key m :
  hmac_at key m c -> bytes key -> Z.of_nat (length key) < 2 ^ 32 -> bytes m ->
  8 * (Z.of_nat (length m) + Z.of_nat B) < 2 ^ 64 ->
  exists c' c'', mbedtls_md_hmac_finish c = (hmac_spec H B key m, c', 0)
    /\ mbedtls_md_hmac_reset c' = (c'', 0) /\ hmac_at key [] c''.
Proof.
  intros (x & -> & Hx) Hk Hkl Hm Hl. unfold mbedtls_md_hmac_finish. cbn [hmac_ctx md_info md_ctx].
  destruct (pads_ok key Hk Hkl) as [[Li Bi] [Lo Bo]]. pose proof digest_block.
  assert (bytes (ipad_of key ++ m)) as Him by by apply Forall_app_2.
  assert (8 * Z.of_nat (length (ipad_of key ++ m)) < 2 ^ 64) as Hlm by (rewrite length_app; lia).
  destruct (digest_size _ Him Hlm) as [Hs Hb].
  destruct (digest_finish x _ Hx Him Hlm) as (x1 & -> & H1). simpl negb. cbv iota.
  destruct (digest_starts x1 H1) as (x2 & -> & H2). simpl negb. cbv iota.
  rewrite drop_app_length' by done.
  destruct (digest_update x2 [] (opad_of key) H2 ltac:(lia)) as (x3 & -> & H3). simpl negb. cbv iota.
  rewrite take_ge by lia.
  destruct (digest_update x3 _ (H (ipad_of key ++ m)) H3 ltac:(lia)) as (x4 & -> & H4).
  simpl negb. cbv iota. simpl in H4.
  assert (bytes (opad_of key ++ H (ipad_of key ++ m))) as Hoh by by apply Forall_app_2.
  destruct (digest_finish x4 _ H4 Hoh) as (x5 & -> & H5); [rewrite length_app; lia|].
  destruct (digest_starts x5 H5) as (x6 & E6 & H6).
  destruct (digest_update x6 [] (ipad_of key) H6 ltac:(lia)) as (x7 & E7 & H7).
  do 2 eexists. split; [reflexivity|].
  unfold mbedtls_md_hmac_reset, with_ctx. cbn [hmac_ctx md_info md_ctx].
  rewrite take_app_length', E6 by done. simpl negb. cbv iota. rewrite E7.
  split; [reflexivity|]. exists x7. split; [done|]. by rewrite app_nil_r.
Qed.
End Hmac.

(** ** The digests keep the promise *)

Lemma length_stream_finish process put ctx :
  length (buffer ctx) = 64%nat -> (forall h l, length (put h l) = 8%nat) ->
  length (buffer (stream_finish process put ctx)) = 64%nat.
Proof.
  intros Hb Hp. unfold stream_finish.
  assert (Z.to_nat (total0 ctx .& 0x3F) < 64)%nat as Hu.
  { rewrite (Z.land_ones _ 6) by lia. pose proof (Z.mod_pos_bound (total0 ctx) (2 ^ 6)). lia. }
  destruct (Nat.leb_spec (Z.to_nat (total0 ctx .& 0x3F) + 1) 56);
    cbn [buffer set_buffer set_state];
    repeat first [rewrite length_memcpy | rewrite length_memset]; rewrite ?Hp; cbn [length]; lia.
Qed.

Section Sha256Family.
Context (ty : mbedtls_md_type_t) (sz : nat) (is224 : Z).

Definition sha_iv : list Z := if is224 =? 0 then Fips180.H256 else Fips180.H224.
Definition sha_hash (m : list Z) : list Z :=
  if is224 =? 0 then Fips180.sha256 m else Fips180.sha224 m.

Hypothesis Hsz : sz = if is224 =? 0 then 32%nat else 28%nat.

#[export] Instance sha256_digest :
  Digest (sha256_family ty sz is224) sha_hash
    (fun x => length (buffer (Sha256.stream x)) = 64%nat)
    (fun x m => absorbed Sha256.mbedtls_internal_sha256_process sha_iv m (Sha256.stream x)
                /\ Sha256.is224 x = is224).
Proof.
  split.
  - done.
  - intros x m [Ha _]. apply (abs_len _ _ _ _ Ha).
  - intros x Hx. eexists. split; [done|]. split; [|done]. by apply Sha256.starts_absorbed.
  - intros x m input [Ha Hi] Hl. eexists. split; [done|]. split; [|done].
    by apply stream_update_absorbs.
  - intros x m [Ha Hi] Hb Hl. eexists. cbn [finish_func sha256_family]. unfold sha256_finish_wrap.
    rewrite (Sha256.sha256_finish_digest sha_iv m x), Hi by (done || (unfold sha_iv; case_match; apply Sha256.H256_ok)).
    split; [unfold sha_hash, sha_iv; by case_match|].
    cbn [Sha256.stream]. apply length_stream_finish; [apply (abs_len _ _ _ _ Ha)|done].
  - intros m Hb Hl. unfold sha_hash. cbn [size sha256_family]. rewrite Hsz.
    destruct (is224 =? 0).
    + apply Sha256.sha2_octets; [apply Sha256.H256_ok|done].
    + destruct (Sha256.sha2_octets Fips180.H224 m) as [L Hb']; [apply Sha256.H256_ok|done|].
      unfold Fips180.sha224. split; [by rewrite length_take, L|by apply Forall_take].
  - cbn [size block_size sha256_family]. rewrite Hsz. case_match; lia.
Qed.
End Sha256Family.

#[export] Instance md5_digest :
  Digest mbedtls_md5_info Rfc1321.md5 (fun x => length (buffer x) = 64%nat)
    (fun x m => absorbed Md5.mbedtls_internal_md5_process Rfc1321.IV m x).
Proof.
  split.
  - done.
  - intros x m Ha. apply (abs_len _ _ _ _ Ha).
  - intros x Hx. eexists. split; [done|]. by apply absorbed_nil.
  - intros x m input Ha Hl. eexists. split; [done|]. by apply stream_update_absorbs.
  - intros x m Ha Hb Hl. eexists. cbn [finish_func mbedtls_md5_info].
    rewrite (Md5.md5_finish_digest m x) by done. split; [done|].
    apply length_stream_finish; [apply (abs_len _ _ _ _ Ha)|done].
  - intros m Hb Hl. by apply Md5.md5_octets.
  - cbn [size block_size mbedtls_md5_info]. lia.
Qed.

(** C39: over any digest that keeps the promise of [Digest] (SHA-224, SHA-256
    and MD5 do), [setup], [hmac_starts] with a key of any length, any sequence
    of [hmac_update] calls and [hmac_finish] give the RFC 2104 code of the
    concatenated message; after [hmac_reset] the same context gives the code
    of the next message under the same key. *)
Theorem hmac_is_rfc2104 info H I A key chunks next :
  Digest info H I A -> bytes key -> Z.of_nat (length key) < 2 ^ 32 ->
  Forall (fun i => Z.of_nat (length i) < 2 ^ 32) chunks -> bytes (concat chunks) ->
  Z.of_nat (length (concat chunks)) < 2 ^ 60 ->
  Forall (fun i => Z.of_nat (length i) < 2 ^ 32) next -> bytes (concat next) ->
  Z.of_nat (length (concat next)) < 2 ^ 60 ->
  let updates := fold_left (fun c i => fst (mbedtls_md_hmac_update c i)) in
  exists c0 c1 c2 c3 c4,
    mbedtls_md_setup mbedtls_md_init (Some info) 1 = (c0, 0)
    /\ mbedtls_md_hmac_starts c0 key = (c1, 0)
    /\ mbedtls_md_hmac_finish (updates chunks c1)
       = (hmac_spec H (block_size info) key (concat chunks), c2, 0)
    /\ mbedtls_md_hmac_reset c2 = (c3, 0)
    /\ mbedtls_md_hmac_finish (updates next c3)
       = (hmac_spec H (block_size info) key (concat next), c4, 0).
Proof.
  intros HD Hk Hkl Hc Hb Hl Hc' Hb' Hl' updates.
  pose proof (digest_block (info := info)) as HB.
  destruct (hmac_starts_at info H I A _ key (replicate (2 * block_size info) 0) _ eq_refl digest_alloc Hk Hkl) as (c1 & E1 & H1).
  pose proof (hmac_updates_at info H I A c1 key [] chunks H1 Hc) as H2.
  destruct (hmac_finish_at info H I A _ key _ H2 Hk Hkl Hb ltac:(simpl; lia)) as (c2 & c3 & E3 & E4 & H4).
  pose proof (hmac_updates_at info H I A c3 key [] next H4 Hc') as H5.
  destruct (hmac_finish_at info H I A _ key _ H5 Hk Hkl Hb' ltac:(simpl; lia)) as (c4 & ? & E6 & _).
  eexists _, c1, c2, c3, c4. split_and!; [reflexivity|exact E1|exact E3|exact E4|exact E6].
Qed.

Lemma hmac_is_rfc2104_witness :
  exists c0 c1 c2 c3 c4,
    mbedtls_md_setup mbedtls_md_init (Some mbedtls_sha256_info) 1 = (c0, 0)
    /\ mbedtls_md_hmac_starts c0 (replicate 70 1) = (c1, 0)
    /\ mbedtls_md_hmac_finish (fold_left (fun c i => fst (mbedtls_md_hmac_update c i)) [[2]; [3]] c1)
       = (hmac_spec (sha_hash 0) 64 (replicate 70 1) [2; 3], c2, 0)
    /\ mbedtls_md_hmac_reset c2 = (c3, 0)
    /\ mbedtls_md_hmac_finish (fold_left (fun c i => fst (mbedtls_md_hmac_update c i)) [] c3)
       = (hmac_spec (sha_hash 0) 64 (replicate 70 1) [], c4, 0).
Proof.
  apply (hmac_is_rfc2104 mbedtls_sha256_info (sha_hash 0) _ _ (replicate 70 1) [[2]; [3]] []
           (sha256_digest MBEDTLS_MD_SHA256 32 0 eq_refl));
    first [reflexivity | apply (bool_decide_eq_true_1 _); vm_compute; reflexivity].
Defined.
