(* ===== verification/Padding.v ===== *)
(** * Block paddings (externals/mbedtls/library/cipher.c)

    The [add_..._padding] and [get_..._padding] pairs of the cipher layer.
    The [get] routines are written without data-dependent branches: they fold
    every octet of the block into an error accumulator, with comparisons used
    as 0/1 factors.  The theorems say which blocks they accept and what they
    strip: a [get] routine succeeds exactly on the blocks its [add] routine
    produces. *)

From S2P Require Import Prelude Octets MdStream.
Open Scope Z_scope.
Open Scope c_scope.

Module Padding.

Definition MBEDTLS_ERR_CIPHER_INVALID_PADDING : Z := -0x6200.

(** The value of a comparison. *)
Abbreviation b2z := Z.b2z.

(** [add_pkcs_padding]. *)
Definition add_pkcs_padding (output : list Z) (output_len data_len : nat) : list Z :=
  let padding_len := (output_len - data_len)%nat in
  for_up padding_len 0
    (fun i output => upd output (Z.of_nat data_len + i) (to_u8 (Z.of_nat padding_len))) output.

(** [get_pkcs_padding]: status and [*data_len]. *)
Definition get_pkcs_padding (input : list Z) (input_len : nat) : Z * Z :=
  let n := Z.of_nat input_len in
  let padding_len := input.[n - 1] in
  let data_len := to_u64 (n - padding_len) in
  let bad := b2z (n <? padding_len) .| b2z (padding_len =? 0) in
  let pad_idx := to_u64 (n - padding_len) in
  let bad := for_up input_len 0
    (fun i bad => to_u8 (bad .| ((input.[i] .^ padding_len) * b2z (pad_idx <=? i)))) bad in
  (MBEDTLS_ERR_CIPHER_INVALID_PADDING * b2z (negb (bad =? 0)), data_len).

(** [add_one_and_zeros_padding]. *)
Definition add_one_and_zeros_padding (output : list Z) (output_len data_len : nat) : list Z :=
  let padding_len := (output_len - data_len)%nat in
  let output := upd output (Z.of_nat data_len) 0x80 in
  for_up (padding_len - 1) 1 (fun i output => upd output (Z.of_nat data_len + i) 0x00) output.

(** [for( i = input_len; i > 0; i-- )]: [done], [*data_len] and [bad], from
    index [i] down; [skip] is 1 for [i - 1] and 0 for [i] in the assignment of
    [*data_len]. *)
Fixpoint last_nonzero (skip : Z) (input : list Z) (i : nat) (done data_len bad : Z) : Z * Z * Z :=
  match i with
  | O => (done, data_len, bad)
  | S i' =>
      let x := input.[Z.of_nat i'] in
      let prev_done := done in
      let done := done .| b2z (negb (x =? 0)) in
      let changed := b2z (negb (done =? prev_done)) in
      let data_len := data_len .| ((Z.of_nat i - skip) * changed) in
      let bad := to_u8 (bad .^ (x * changed)) in
      last_nonzero skip input i' done data_len bad
  end.

(** [get_one_and_zeros_padding]. *)
Definition get_one_and_zeros_padding (input : list Z) (input_len : nat) : Z * Z :=
  let '(done, data_len, bad) := last_nonzero 1 input input_len 0 0 0x80 in
  (MBEDTLS_ERR_CIPHER_INVALID_PADDING * b2z (negb (bad =? 0)), data_len).

(** [add_zeros_and_len_padding]. *)
Definition add_zeros_and_len_padding (output : list Z) (output_len data_len : nat) : list Z :=
  let padding_len := (output_len - data_len)%nat in
  let output :=
    for_up (padding_len - 1) 1
      (fun i output => upd output (Z.of_nat data_len + i - 1) 0x00) output in
  upd output (Z.of_nat output_len - 1) (to_u8 (Z.of_nat padding_len)).

(** [get_zeros_and_len_padding]. *)
Definition get_zeros_and_len_padding (input : list Z) (input_len : nat) : Z * Z :=
  let n := Z.of_nat input_len in
  let padding_len := input.[n - 1] in
  let data_len := to_u64 (n - padding_len) in
  let bad := b2z (n <? padding_len) .| b2z (padding_len =? 0) in
  let pad_idx := to_u64 (n - padding_len) in
  let bad := for_up (input_len - 1) 0
    (fun i bad => to_u8 (bad .| (input.[i] * b2z (pad_idx <=? i)))) bad in
  (MBEDTLS_ERR_CIPHER_INVALID_PADDING * b2z (negb (bad =? 0)), data_len).

(** [add_zeros_padding] and [get_zeros_padding]; the loop of the latter has
    no [bad]. *)
Definition add_zeros_padding (output : list Z) (output_len data_len : nat) : list Z :=
  for_up (output_len - data_len) (Z.of_nat data_len) (fun i output => upd output i 0x00) output.
Definition get_zeros_padding (input : list Z) (input_len : nat) : Z * Z :=
  let '(done, data_len, _) := last_nonzero 0 input input_len 0 0 0 in (0, data_len).

(** [get_no_padding]. *)
Definition get_no_padding (input : list Z) (input_len : nat) : Z * Z := (0, Z.of_nat input_len).
End Padding.

Import Padding.

Example pkcs7_example :
  get_pkcs_padding (add_pkcs_padding (replicate 16 9) 16 11) 16 = (0, 11).
Proof. reflexivity. Qed.
Example ones_example :
  get_one_and_zeros_padding (add_one_and_zeros_padding (replicate 16 9) 16 11) 16 = (0, 11).
Proof. reflexivity. Qed.
Example len_example :
  get_zeros_and_len_padding (add_zeros_and_len_padding (replicate 16 9) 16 11) 16 = (0, 11).
Proof. reflexivity. Qed.
Example zeros_example :
  get_zeros_padding (add_zeros_padding (replicate 16 9) 16 11) 16 = (0, 11).
Proof. reflexivity. Qed.

(** ** What the [add] routines write *)

(** A buffer of [n] octets, of which the first [d] are data. *)
Lemma split_data (out : list Z) n d :
  length out = n -> (d <= n)%nat ->
  exists a b, out = a ++ b /\ length a = d /\ length b = (n - d)%nat /\ take d out = a.
Proof.
  intros Hl Hd. exists (take d out), (drop d out).
  by rewrite take_drop, length_take, length_drop, Hl, Nat.min_l.
Qed.

Lemma add_pkcs_writes out n d :
  length out = n -> (d <= n < 256)%nat ->
  add_pkcs_padding out n d = take d out ++ replicate (n - d) (Z.of_nat (n - d)).
Proof.
  intros Hl Hd. destruct (split_data out n d Hl ltac:(lia)) as (a & b & -> & Ha & Hb & ->).
  unfold add_pkcs_padding. rewrite to_u8_id by (unfold is_byte; lia).
  rewrite (for_up_shift (Z.of_nat d) _ 0 (fun i o => upd o i (Z.of_nat (n - d)))).
  rewrite Z.add_0_r, <- Hb, <- Ha. pose proof (for_up_fill (Z.of_nat (length b)) a b []) as E.
  by rewrite !app_nil_r in E.
Qed.

Lemma add_one_and_zeros_writes out n d :
  length out = n -> (d < n)%nat ->
  add_one_and_zeros_padding out n d = take d out ++ 0x80 :: replicate (n - d - 1) 0.
Proof.
  intros Hl Hd. destruct (split_data out n d Hl ltac:(lia)) as (a & b & -> & Ha & Hb & ->).
  destruct b as [|x b]; [simpl in Hb; lia|]. simpl in Hb.
  unfold add_one_and_zeros_padding. rewrite <- Ha at 2. rewrite upd_middle.
  rewrite (for_up_shift (Z.of_nat d) _ 1 (fun i o => upd o i 0)).
  replace (Z.of_nat d + 1) with (Z.of_nat (length (a ++ [0x80]))) by (rewrite length_app; simpl; lia).
  replace (n - d - 1)%nat with (length b) by lia.
  pose proof (for_up_fill 0 (a ++ [0x80]) b []) as E. rewrite !app_nil_r in E.
  by rewrite E, <- app_assoc.
Qed.

Lemma add_zeros_and_len_writes out n d :
  length out = n -> (d < n < 256)%nat ->
  add_zeros_and_len_padding out n d
  = take d out ++ replicate (n - d - 1) 0 ++ [Z.of_nat (n - d)].
Proof.
  intros Hl Hd. destruct (split_data out n d Hl ltac:(lia)) as (a & b & -> & Ha & Hb & ->).
  destruct (exists_last (l := b)) as (b' & x & ->); [by intros ->; simpl in Hb; lia|].
  rewrite length_app in Hb. simpl in Hb.
  unfold add_zeros_and_len_padding. rewrite to_u8_id by (unfold is_byte; lia).
  assert (forall o, for_up (n - d - 1) 1 (fun i o => upd o (Z.of_nat d + i - 1) 0) o
    = for_up (length b') (Z.of_nat (length a)) (fun i o => upd o i 0) o) as E.
  { intros o. pose proof (for_up_shift (Z.of_nat d - 1) (n - d - 1) 1 (fun i o => upd o i 0) o) as E.
    replace (Z.of_nat d - 1 + 1) with (Z.of_nat (length a)) in E by lia.
    replace (length b') with (n - d - 1)%nat by lia.
    rewrite <- E. apply for_up_ext. intros. f_equal. lia. }
  rewrite E, for_up_fill, app_assoc.
  replace (Z.of_nat n - 1) with (Z.of_nat (length (a ++ replicate (length b') 0)))
    by (rewrite length_app, length_replicate; lia).
  rewrite upd_middle, app_nil_r, <- app_assoc. by replace (n - d - 1)%nat with (length b') by lia.
Qed.

Lemma add_zeros_writes out n d :
  length out = n -> (d <= n)%nat -> add_zeros_padding out n d = take d out ++ replicate (n - d) 0.
Proof.
  intros Hl Hd. destruct (split_data out n d Hl ltac:(lia)) as (a & b & -> & Ha & Hb & ->).
  unfold add_zeros_padding. rewrite <- Hb, <- Ha. pose proof (for_up_fill 0 a b []) as E.
  by rewrite !app_nil_r in E.
Qed.

(** ** Which blocks the [get] routines accept *)

Lemma b2z_or_zero a b : (b2z a .| b2z b) = 0 <-> a = false /\ b = false.
Proof. destruct a, b; simpl; split; intros; try done; by destruct H. Qed.

Lemma b2z_or_byte a b : is_byte (b2z a .| b2z b).
Proof. destruct a, b; split; vm_compute; first [discriminate | reflexivity]. Qed.

Lemma status_zero bad : MBEDTLS_ERR_CIPHER_INVALID_PADDING * b2z (negb (bad =? 0)) = 0 <-> bad = 0.
Proof. destruct (Z.eqb_spec bad 0); simpl; split; intros; try done; lia. Qed.

Lemma byte_times_bool x b : is_byte x -> is_byte (x * b2z b).
Proof. unfold is_byte. destruct b; simpl; lia. Qed.

Lemma drop_replicate_iff (l : list Z) p c :
  (p <= length l)%nat ->
  drop (length l - p) l = replicate p c
  <-> forall j, Z.of_nat (length l - p) <= j < Z.of_nat (length l) -> l.[j] = c.
Proof.
  intros Hp. split.
  - intros E j Hj. unfold rd. rewrite <- (take_drop (length l - p) l), E.
    rewrite app_nth2 by (rewrite length_take; lia). rewrite length_take.
    apply nth_lookup_Some, lookup_replicate_2. lia.
  - intros H. apply (nth_ext _ _ 0 0).
    { rewrite length_drop, length_replicate. lia. }
    intros i Hi. rewrite length_drop in Hi. rewrite nth_skipn.
    rewrite (nth_lookup (replicate p c)), lookup_replicate_2 by lia. simpl.
    specialize (H (Z.of_nat (length l - p + i)) ltac:(lia)). unfold rd in H. by rewrite Nat2Z.id in H.
Qed.

(** What [pad_idx] selects. *)
Lemma pad_idx_small n p : 0 <= p <= n -> n < 2 ^ 64 -> to_u64 (n - p) = n - p.
Proof. intros Hp Hn. apply to_u64_id. unfold is_u64. lia. Qed.

(** [get_pkcs_padding] accepts a block exactly when it ends in [p] octets of
    value [p], [0 < p <= n], and then reports the length without them. *)
Lemma get_pkcs_iff input d :
  bytes input -> (0 < length input)%nat -> Z.of_nat (length input) < 2 ^ 64 ->
  get_pkcs_padding input (length input) = (0, d)
  <-> exists p, (1 <= p <= length input)%nat /\ d = Z.of_nat (length input - p)
      /\ drop (length input - p) input = replicate p (Z.of_nat p).
Proof.
  intros Hb H0 Hn. unfold get_pkcs_padding. set (n := length input) in *.
  set (pl := input.[Z.of_nat n - 1]). assert (is_byte pl) as Hpl by (apply bytes_rd; done).
  assert (forall j, is_byte ((input.[j] .^ pl) * b2z (to_u64 (Z.of_nat n - pl) <=? j))) as Hf.
  { intros j. apply byte_times_bool, lxor_byte; [by apply bytes_rd|done]. }
  set (loop := for_up _ _ _ _).
  assert (loop = 0 <-> ((Z.of_nat n <? pl) = false /\ (pl =? 0) = false)
    /\ forall j, 0 <= j < 0 + Z.of_nat n ->
         (input.[j] .^ pl) * b2z (to_u64 (Z.of_nat n - pl) <=? j) = 0) as Hloop.
  { unfold loop. rewrite (or_loop_zero (fun j => _ * _)) by (done || apply b2z_or_byte).
    by rewrite b2z_or_zero. }
  unfold is_byte in Hpl. split.
  - intros E. injection E as E1 E2. apply status_zero, Hloop in E1 as [[E1 E3] E4].
    apply Z.ltb_ge in E1. apply Z.eqb_neq in E3.
    rewrite pad_idx_small in E2, E4 by lia.
    exists (Z.to_nat pl). split; [lia|]. split; [lia|].
    apply drop_replicate_iff; [lia|]. intros j Hj. specialize (E4 j ltac:(lia)).
    replace (Z.of_nat n - pl <=? j) with true in E4 by lia. simpl in E4.
    rewrite Z.mul_1_r in E4. apply Z.lxor_eq in E4. lia.
  - intros (p & Hp & -> & E). apply (proj1 (drop_replicate_iff input p _ ltac:(lia))) with (j := Z.of_nat n - 1) in E as Epl;
      [|lia]. fold pl in Epl.
    pose proof (proj1 (drop_replicate_iff input p (Z.of_nat p) ltac:(lia)) E) as Ej.
    rewrite (proj2 (status_zero loop)); [f_equal; rewrite Epl, pad_idx_small; lia|].
    apply Hloop. split; [split; [apply Z.ltb_ge|apply Z.eqb_neq]; lia|].
    rewrite Epl, pad_idx_small by lia. intros j Hj.
    destruct (Z.leb_spec (Z.of_nat n - Z.of_nat p) j); simpl; [|lia].
    rewrite Ej by lia. by rewrite Z.lxor_nilpotent.
Qed.

(** The same for [get_zeros_and_len_padding]: [p - 1] zeros and the octet [p]. *)
Lemma get_zeros_and_len_iff input d :
  bytes input -> (0 < length input)%nat -> Z.of_nat (length input) < 2 ^ 64 ->
  get_zeros_and_len_padding input (length input) = (0, d)
  <-> exists p, (1 <= p <= length input)%nat /\ d = Z.of_nat (length input - p)
      /\ input.[Z.of_nat (length input) - 1] = Z.of_nat p
      /\ forall j, Z.of_nat (length input - p) <= j < Z.of_nat (length input) - 1 -> input.[j] = 0.
Proof.
  intros Hb H0 Hn. unfold get_zeros_and_len_padding. set (n := length input) in *.
  set (pl := input.[Z.of_nat n - 1]). assert (is_byte pl) as Hpl by (apply bytes_rd; done).
  assert (forall j, is_byte (input.[j] * b2z (to_u64 (Z.of_nat n - pl) <=? j))) as Hf.
  { intros j. apply byte_times_bool. by apply bytes_rd. }
  set (loop := for_up _ _ _ _).
  assert (loop = 0 <-> ((Z.of_nat n <? pl) = false /\ (pl =? 0) = false)
    /\ forall j, 0 <= j < 0 + Z.of_nat (n - 1) ->
         input.[j] * b2z (to_u64 (Z.of_nat n - pl) <=? j) = 0) as Hloop.
  { unfold loop. rewrite (or_loop_zero (fun j => _ * _)) by (done || apply b2z_or_byte).
    by rewrite b2z_or_zero. }
  unfold is_byte in Hpl. split.
  - intros E. injection E as E1 E2. apply status_zero, Hloop in E1 as [[E1 E3] E4].
    apply Z.ltb_ge in E1. apply Z.eqb_neq in E3.
    rewrite pad_idx_small in E2, E4 by lia.
    exists (Z.to_nat pl). split; [lia|]. split; [lia|]. split; [lia|].
    intros j Hj. specialize (E4 j ltac:(lia)).
    replace (Z.of_nat n - pl <=? j) with true in E4 by lia. simpl in E4. lia.
  - intros (p & Hp & -> & Epl & Ej).
    rewrite (proj2 (status_zero loop)); [f_equal; rewrite Epl, pad_idx_small; lia|].
    apply Hloop. split; [split; [apply Z.ltb_ge|apply Z.eqb_neq]; lia|].
    rewrite Epl, pad_idx_small by lia. intros j Hj.
    destruct (Z.leb_spec (Z.of_nat n - Z.of_nat p) j); simpl; [|lia].
    rewrite Ej by lia. done.
Qed.

(** ** The scan for the last nonzero octet *)

Lemma last_nonzero_done skip input i dl bad :
  is_byte bad -> last_nonzero skip input i 1 dl bad = (1, dl, bad).
Proof.
  intros Hb. revert dl. induction i as [|i IH]; intros dl; [done|]. cbn [last_nonzero].
  assert (forall b, 1 .| b2z b = 1) as E1 by by intros [].
  rewrite E1. simpl. rewrite !Z.mul_0_r, !Z.lor_0_r, !Z.lxor_0_r, to_u8_id by done. apply IH.
Qed.

Lemma last_nonzero_zeros skip input i k dl bad :
  is_byte bad -> (forall j, (i <= j < i + k)%nat -> input.[Z.of_nat j] = 0) ->
  last_nonzero skip input (i + k) 0 dl bad = last_nonzero skip input i 0 dl bad.
Proof.
  intros Hb. induction k as [|k IH]; intros H; [by rewrite Nat.add_0_r|].
  rewrite Nat.add_succ_r. cbn [last_nonzero]. rewrite (H (i + k)%nat) by lia. simpl.
  rewrite !Z.mul_0_r, !Z.lor_0_r, !Z.lxor_0_r, to_u8_id by done. apply IH. intros. apply H. lia.
Qed.

Lemma last_nonzero_found skip m x k bad :
  bytes m -> is_byte x -> x <> 0 -> is_byte bad ->
  last_nonzero skip (m ++ x :: replicate k 0) (length m + S k) 0 0 bad
  = (1, Z.of_nat (S (length m)) - skip, bad .^ x).
Proof.
  intros Hm Hx Hx0 Hb. replace (length m + S k)%nat with (S (length m) + k)%nat by lia.
  rewrite last_nonzero_zeros; [|done|].
  2:{ intros j Hj. unfold rd. rewrite Nat2Z.id, app_nth2 by lia.
      replace (j - length m)%nat with (S (j - length m - 1)) by lia. cbn [nth].
      rewrite nth_lookup, lookup_replicate_2 by lia. done. }
  cbn [last_nonzero]. rewrite rd_middle. replace (x =? 0) with false by lia. simpl negb.
  change (0 .| b2z true) with 1. simpl (1 =? 0). change (b2z (negb false)) with 1.
  rewrite !Z.mul_1_r, Z.lor_0_l, to_u8_id by auto with widths.
  apply last_nonzero_done. auto with widths.
Qed.

(** A block is zeros, or data, a nonzero octet and zeros. *)
Lemma trailing_zeros (l : list Z) :
  l = replicate (length l) 0 \/ exists m x k, x <> 0 /\ l = m ++ x :: replicate k 0.
Proof.
  induction l as [|y l [IH|(m & x & k & Hx & IH)]]; [by left| |].
  - destruct (Z.eq_dec y 0) as [->|Hy]; [left; simpl; by rewrite <- IH|].
    right. exists [], y, (length l). split; [done|]. by rewrite <- IH.
  - right. exists (y :: m), x, k. split; [done|]. by rewrite IH.
Qed.

Lemma last_nonzero_none skip n bad :
  is_byte bad -> last_nonzero skip (replicate n 0) n 0 0 bad = (0, 0, bad).
Proof.
  intros Hb. pose proof (last_nonzero_zeros skip (replicate n 0) 0 n 0 bad Hb) as E.
  apply E. intros j Hj. unfold rd. rewrite Nat2Z.id, nth_lookup, lookup_replicate_2 by lia. done.
Qed.

(** [get_one_and_zeros_padding] accepts exactly data, [0x80] and zeros. *)
Lemma get_one_and_zeros_iff input d :
  bytes input ->
  get_one_and_zeros_padding input (length input) = (0, d)
  <-> exists m k, input = m ++ 0x80 :: replicate k 0 /\ d = Z.of_nat (length m).
Proof.
  intros Hb. unfold get_one_and_zeros_padding. split.
  - destruct (trailing_zeros input) as [E|(m & x & k & Hx & ->)].
    + rewrite E at 1. by rewrite last_nonzero_none by (unfold is_byte; lia).
    + apply Forall_app in Hb as [Hm Hb]. apply Forall_cons_1 in Hb as [Hxb _].
      rewrite length_app. simpl length. rewrite length_replicate.
      rewrite last_nonzero_found by (done || (unfold is_byte; lia)).
      intros E. injection E as E1 E2. apply status_zero, Z.lxor_eq in E1. subst x.
      exists m, k. split; [done|]. lia.
  - intros (m & k & -> & ->). apply Forall_app in Hb as [Hm _].
    rewrite length_app. simpl length. rewrite length_replicate.
    rewrite last_nonzero_found by (done || (unfold is_byte; lia)).
    rewrite Z.lxor_nilpotent. f_equal. lia.
Qed.

(** [get_zeros_padding] strips all trailing zeros. *)
Lemma get_zeros_strips input :
  bytes input ->
  exists m k, input = m ++ replicate k 0 /\ (m = [] \/ exists m' x, m = m' ++ [x] /\ x <> 0)
    /\ get_zeros_padding input (length input) = (0, Z.of_nat (length m)).
Proof.
  intros Hb. unfold get_zeros_padding.
  destruct (trailing_zeros input) as [E|(m & x & k & Hx & ->)].
  - exists [], (length input). split; [done|]. split; [by left|].
    rewrite E at 1. by rewrite last_nonzero_none by (unfold is_byte; lia).
  - apply Forall_app in Hb as [Hm Hb]. apply Forall_cons_1 in Hb as [Hxb _].
    exists (m ++ [x]), k. rewrite <- app_assoc. split; [done|]. split; [right; by exists m, x|].
    rewrite !length_app. simpl length. rewrite length_replicate.
    rewrite last_nonzero_found by (done || (unfold is_byte; lia)). f_equal. lia.
Qed.

(** ** Theorems *)

(** What a reversible padding promises to the cipher layer, for blocks of less
    than 256 octets. *)
Class Reversible (add : list Z -> nat -> nat -> list Z) (get : list Z -> nat -> Z * Z) : Prop := {
  add_length out n d : length out = n -> (d < n < 256)%nat -> length (add out n d) = n;
  add_keeps out n d : length out = n -> (d < n < 256)%nat -> take d (add out n d) = take d out;
  add_bytes out n d : length out = n -> bytes out -> (d < n < 256)%nat -> bytes (add out n d);
  get_add out n d : length out = n -> bytes out -> (d < n < 256)%nat ->
    get (add out n d) n = (0, Z.of_nat d)
}.

Lemma length_take_data (out : list Z) n d : length out = n -> (d < n)%nat -> length (take d out) = d.
Proof. intros. rewrite length_take. lia. Qed.

Lemma bytes_const c n : is_byte c -> bytes (replicate n c).
Proof. intros. by apply Forall_replicate. Qed.

#[export] Instance pkcs_reversible : Reversible add_pkcs_padding get_pkcs_padding.
Proof.
  assert (forall out n d, length out = n -> (d < n < 256)%nat ->
    length (add_pkcs_padding out n d) = n) as HL.
  { intros out n d Hl Hd. rewrite add_pkcs_writes by lia.
    rewrite length_app, length_replicate, (length_take_data out n d) by lia. lia. }
  assert (forall out n d, length out = n -> bytes out -> (d < n < 256)%nat ->
    bytes (add_pkcs_padding out n d)) as HB.
  { intros out n d Hl Hb Hd. rewrite add_pkcs_writes by lia.
    apply Forall_app_2; [by apply Forall_take|]. apply bytes_const. unfold is_byte. lia. }
  split; [done| |done|].
  - intros out n d Hl Hd. rewrite add_pkcs_writes by lia.
    by rewrite take_app_length' by (rewrite (length_take_data out n d); lia).
  - intros out n d Hl Hb Hd. rewrite <- (HL out n d Hl Hd) at 2.
    apply get_pkcs_iff; [by apply HB|rewrite HL; lia|rewrite HL; lia|].
    exists (n - d)%nat. rewrite HL by lia. split; [lia|]. split; [lia|].
    rewrite add_pkcs_writes by lia. apply drop_app_length'.
    rewrite (length_take_data out n d) by lia. lia.
Qed.

#[export] Instance one_and_zeros_reversible :
  Reversible add_one_and_zeros_padding get_one_and_zeros_padding.
Proof.
  assert (forall out n d, length out = n -> (d < n < 256)%nat ->
    length (add_one_and_zeros_padding out n d) = n) as HL.
  { intros out n d Hl Hd. rewrite add_one_and_zeros_writes by lia.
    rewrite length_app. simpl. rewrite length_replicate, (length_take_data out n d) by lia. lia. }
  assert (forall out n d, length out = n -> bytes out -> (d < n < 256)%nat ->
    bytes (add_one_and_zeros_padding out n d)) as HB.
  { intros out n d Hl Hb Hd. rewrite add_one_and_zeros_writes by lia.
    apply Forall_app_2; [by apply Forall_take|].
    apply Forall_cons_2; [|apply bytes_const]; unfold is_byte; lia. }
  split; [done| |done|].
  - intros out n d Hl Hd. rewrite add_one_and_zeros_writes by lia.
    by rewrite take_app_length' by (rewrite (length_take_data out n d); lia).
  - intros out n d Hl Hb Hd. rewrite <- (HL out n d Hl Hd) at 2.
    apply get_one_and_zeros_iff; [by apply HB|].
    exists (take d out), (n - d - 1)%nat. rewrite add_one_and_zeros_writes by lia.
    split; [done|]. by rewrite (length_take_data out n d) by lia.
Qed.

#[export] Instance zeros_and_len_reversible :
  Reversible add_zeros_and_len_padding get_zeros_and_len_padding.
Proof.
  assert (forall out n d, length out = n -> (d < n < 256)%nat ->
    length (add_zeros_and_len_padding out n d) = n) as HL.
  { intros out n d Hl Hd. rewrite add_zeros_and_len_writes by lia.
    rewrite !length_app, length_replicate, (length_take_data out n d) by lia. simpl. lia. }
  assert (forall out n d, length out = n -> bytes out -> (d < n < 256)%nat ->
    bytes (add_zeros_and_len_padding out n d)) as HB.
  { intros out n d Hl Hb Hd. rewrite add_zeros_and_len_writes by lia.
    apply Forall_app_2; [by apply Forall_take|]. apply Forall_app_2; [apply bytes_const; unfold is_byte; lia|].
    apply Forall_cons_2; [unfold is_byte; lia|done]. }
  split; [done| |done|].
  - intros out n d Hl Hd. rewrite add_zeros_and_len_writes by lia.
    by rewrite take_app_length' by (rewrite (length_take_data out n d); lia).
  - intros out n d Hl Hb Hd. rewrite <- (HL out n d Hl Hd) at 2.
    apply get_zeros_and_len_iff; [by apply HB|rewrite HL; lia|rewrite HL; lia|].
    exists (n - d)%nat. rewrite HL by lia. split; [lia|]. split; [lia|].
    rewrite add_zeros_and_len_writes by lia.
    pose proof (length_take_data out n d Hl ltac:(lia)) as Ht. split.
    + rewrite app_assoc.
      replace (Z.of_nat n - 1) with (Z.of_nat (length (take d out ++ replicate (n - d - 1) 0)))
        by (rewrite length_app, length_replicate; lia).
      apply rd_middle.
    + intros j Hj. unfold rd. rewrite app_nth2 by lia.
      rewrite app_nth1 by (rewrite length_replicate; lia).
      rewrite nth_lookup, lookup_replicate_2 by lia. done.
Qed.

(** What the three reversible paddings add, they recognise: on a block
    buffer of [n] octets whose first [d] are data, [d < n < 256], the [add]
    routine leaves the data in place and the [get] routine reports [d]. *)
Theorem padding_roundtrip out n d :
  length out = n -> bytes out -> (d < n < 256)%nat ->
  Forall (fun '(add, get) =>
      length (add out n d) = n /\ take d (add out n d) = take d out
      /\ get (add out n d) n = (0, Z.of_nat d))
    [(add_pkcs_padding, get_pkcs_padding);
     (add_one_and_zeros_padding, get_one_and_zeros_padding);
     (add_zeros_and_len_padding, get_zeros_and_len_padding)].
Proof.
  intros Hl Hb Hd. repeat (apply Forall_cons_2; [|]); [..|apply Forall_nil_2];
    (split; [by apply add_length|split; [by apply add_keeps|by apply get_add]]).
Qed.

(** [get_pkcs_padding] accepts a block exactly when it ends in [p]
    octets of value [p] with [0 < p <= n], and then reports [n - p]; any other
    block is refused with [MBEDTLS_ERR_CIPHER_INVALID_PADDING]. *)
Theorem get_pkcs_padding_exact input :
  bytes input -> (0 < length input)%nat -> Z.of_nat (length input) < 2 ^ 64 ->
  let '(ret, data_len) := get_pkcs_padding input (length input) in
  (ret = 0 \/ ret = MBEDTLS_ERR_CIPHER_INVALID_PADDING)
  /\ (ret = 0 <->
      exists p, (1 <= p <= length input)%nat /\ data_len = Z.of_nat (length input - p)
        /\ drop (length input - p) input = replicate p (Z.of_nat p)).
Proof.
  intros Hb H0 Hn. destruct (get_pkcs_padding input (length input)) as [ret dl] eqn:E. split.
  - unfold get_pkcs_padding in E. injection E as <- _.
    destruct (negb _); [right|left]; reflexivity.
  - pose proof (get_pkcs_iff input dl Hb H0 Hn) as H. rewrite E in H. split.
    + intros ->. by apply H.
    + intros Hp. apply H in Hp. by injection Hp.
Qed.

Lemma padding_roundtrip_witness :
  Forall (fun '(add, get) =>
      length (add (replicate 16 7) 16%nat 5%nat) = 16%nat
      /\ take 5 (add (replicate 16 7) 16%nat 5%nat) = take 5 (replicate 16 7)
      /\ get (add (replicate 16 7) 16%nat 5%nat) 16%nat = (0, Z.of_nat 5))
    [(add_pkcs_padding, get_pkcs_padding);
     (add_one_and_zeros_padding, get_one_and_zeros_padding);
     (add_zeros_and_len_padding, get_zeros_and_len_padding)].
Proof.
  apply (padding_roundtrip (replicate 16 7) 16 5);
    [reflexivity|apply (bool_decide_eq_true_1 _); reflexivity|lia].
Defined.

Lemma get_pkcs_padding_exact_witness :
  let '(ret, data_len) := get_pkcs_padding [1; 2; 3; 3; 3; 3] 6 in
  (ret = 0 \/ ret = MBEDTLS_ERR_CIPHER_INVALID_PADDING)
  /\ (ret = 0 <-> exists p, (1 <= p <= 6)%nat /\ data_len = Z.of_nat (6 - p)
        /\ drop (6 - p) [1; 2; 3; 3; 3; 3] = replicate p (Z.of_nat p)).
Proof.
  apply (get_pkcs_padding_exact [1; 2; 3; 3; 3; 3]);
    [apply (bool_decide_eq_true_1 _); reflexivity|simpl; lia|simpl; lia].
Defined.
