(* ===== verification/Cipher.v ===== *)
(** * The generic cipher layer (externals/mbedtls/library/cipher.c, cipher_wrap.c)

    Module [Cipher] models the layer through which the emulator calls AES:
    the table of AES ciphers, [setup], [setkey], [set_iv], [reset], [update],
    [finish], [crypt] and the padding modes.  The table of the library also
    lists other algorithms (Camellia, DES, GCM, ...); the model's has the AES
    rows, in the order of the library.

    The AES tables are static data that the first key set fills, so every
    function that sets a key takes and returns [aes_globals], and every other
    one reads the tables [T].  A function that writes [output] and [*olen]
    returns both.  Whether the caller passes the same buffer for input and
    output is the argument [inplace]. *)

From S2P Require Import Prelude Octets AesTables AesSpec AesCore AesCorrect AesModes MdStream Padding.
Open Scope Z_scope.
Open Scope c_scope.
Import Aes Modes Padding.

Module Cipher.

Definition MBEDTLS_ERR_CIPHER_FEATURE_UNAVAILABLE : Z := -0x6080.
Definition MBEDTLS_ERR_CIPHER_BAD_INPUT_DATA : Z := -0x6100.
Definition MBEDTLS_ERR_CIPHER_FULL_BLOCK_EXPECTED : Z := -0x6280.
Definition MBEDTLS_ERR_CIPHER_INVALID_CONTEXT : Z := -0x6380.

Definition MBEDTLS_CIPHER_VARIABLE_IV_LEN : Z := 0x01.
Definition MBEDTLS_CIPHER_VARIABLE_KEY_LEN : Z := 0x02.
Definition MBEDTLS_MAX_IV_LENGTH : nat := 16.

Definition MBEDTLS_OPERATION_NONE : Z := -1.
Definition MBEDTLS_DECRYPT : Z := 0.
Definition MBEDTLS_ENCRYPT : Z := 1.

Inductive mbedtls_cipher_mode_t :=
| MBEDTLS_MODE_NONE | MBEDTLS_MODE_ECB | MBEDTLS_MODE_CBC | MBEDTLS_MODE_CFB | MBEDTLS_MODE_OFB
| MBEDTLS_MODE_CTR | MBEDTLS_MODE_GCM | MBEDTLS_MODE_STREAM | MBEDTLS_MODE_CCM | MBEDTLS_MODE_XTS
| MBEDTLS_MODE_CHACHAPOLY.

#[export] Instance mode_eq_dec : EqDecision mbedtls_cipher_mode_t.
Proof. solve_decision. Defined.

(** [mbedtls_cipher_type_t], the AES part. *)
Inductive mbedtls_cipher_type_t :=
| MBEDTLS_CIPHER_NONE
| MBEDTLS_CIPHER_AES_128_ECB | MBEDTLS_CIPHER_AES_192_ECB | MBEDTLS_CIPHER_AES_256_ECB
| MBEDTLS_CIPHER_AES_128_CBC | MBEDTLS_CIPHER_AES_192_CBC | MBEDTLS_CIPHER_AES_256_CBC
| MBEDTLS_CIPHER_AES_128_CFB128 | MBEDTLS_CIPHER_AES_192_CFB128 | MBEDTLS_CIPHER_AES_256_CFB128
| MBEDTLS_CIPHER_AES_128_CTR | MBEDTLS_CIPHER_AES_192_CTR | MBEDTLS_CIPHER_AES_256_CTR
| MBEDTLS_CIPHER_AES_128_OFB | MBEDTLS_CIPHER_AES_192_OFB | MBEDTLS_CIPHER_AES_256_OFB
| MBEDTLS_CIPHER_AES_128_XTS | MBEDTLS_CIPHER_AES_256_XTS.

#[export] Instance type_eq_dec : EqDecision mbedtls_cipher_type_t.
Proof. solve_decision. Defined.

Inductive mbedtls_cipher_padding_t :=
| MBEDTLS_PADDING_PKCS7 | MBEDTLS_PADDING_ONE_AND_ZEROS | MBEDTLS_PADDING_ZEROS_AND_LEN
| MBEDTLS_PADDING_ZEROS | MBEDTLS_PADDING_NONE.

(** ** The AES tables of functions (cipher_wrap.c) *)

(** What [ctx->cipher_ctx] points to. *)
Inductive cipher_ctx_t :=
| Aes_ctx (c : mbedtls_aes_context)
| Xts_ctx (c : mbedtls_aes_xts_context).

(** [mbedtls_cipher_base_t]; an entry that may be [NULL] is an [option].  The
    functions return the status first. *)
Record mbedtls_cipher_base_t := {
  ecb_func : option (aes_tables -> cipher_ctx_t -> Z -> list Z -> Z * list Z);
  cbc_func : option (aes_tables -> cipher_ctx_t -> Z -> list Z -> list Z -> Z * list Z * list Z);
  cfb_func : option (aes_tables -> cipher_ctx_t -> Z -> Z -> list Z -> list Z ->
                     Z * (Z * list Z) * list Z);
  ofb_func : option (aes_tables -> cipher_ctx_t -> Z -> list Z -> list Z ->
                     Z * (Z * list Z) * list Z);
  ctr_func : option (aes_tables -> cipher_ctx_t -> Z -> list Z -> list Z -> list Z ->
                     Z * (Z * list Z * list Z) * list Z);
  xts_func : option (aes_tables -> cipher_ctx_t -> Z -> list Z -> list Z -> Z * list Z);
  setkey_enc_func : aes_globals -> cipher_ctx_t -> list Z -> Z -> aes_globals * cipher_ctx_t * Z;
  setkey_dec_func : aes_globals -> cipher_ctx_t -> list Z -> Z -> aes_globals * cipher_ctx_t * Z;
  ctx_alloc_func : cipher_ctx_t
}.

(** The casts [(mbedtls_aes_context * ) ctx] and to [mbedtls_aes_xts_context];
    each table only meets contexts its own [ctx_alloc_func] made. *)
Definition as_aes (c : cipher_ctx_t) : mbedtls_aes_context :=
  match c with Aes_ctx c => c | Xts_ctx c => crypt c end.
Definition as_xts (c : cipher_ctx_t) : mbedtls_aes_xts_context :=
  match c with Aes_ctx c => {| crypt := c; tweak := c |} | Xts_ctx c => c end.

Definition aes_crypt_ecb_wrap (T : aes_tables) (ctx : cipher_ctx_t) (operation : Z) (input : list Z)
    : Z * list Z :=
  (0, mbedtls_aes_crypt_ecb T (as_aes ctx) operation input).
Definition aes_crypt_cbc_wrap (T : aes_tables) (ctx : cipher_ctx_t) (operation : Z)
    (iv input : list Z) : Z * list Z * list Z :=
  mbedtls_aes_crypt_cbc T (as_aes ctx) operation iv input.
Definition aes_crypt_cfb128_wrap (T : aes_tables) (ctx : cipher_ctx_t) (operation iv_off : Z)
    (iv input : list Z) : Z * (Z * list Z) * list Z :=
  let '(off, iv, out) := mbedtls_aes_crypt_cfb128 T (as_aes ctx) operation iv_off iv input in
  (0, (off, iv), out).
Definition aes_crypt_ofb_wrap (T : aes_tables) (ctx : cipher_ctx_t) (iv_off : Z)
    (iv input : list Z) : Z * (Z * list Z) * list Z :=
  let '(off, iv, out) := mbedtls_aes_crypt_ofb T (as_aes ctx) iv_off iv input in
  (0, (off, iv), out).
Definition aes_crypt_ctr_wrap (T : aes_tables) (ctx : cipher_ctx_t) (nc_off : Z)
    (nonce_counter stream_block input : list Z) : Z * (Z * list Z * list Z) * list Z :=
  mbedtls_aes_crypt_ctr T (as_aes ctx) nc_off nonce_counter stream_block input.
Definition aes_crypt_xts_wrap (T : aes_tables) (ctx : cipher_ctx_t) (operation : Z)
    (data_unit input : list Z) : Z * list Z :=
  if operation =? MBEDTLS_ENCRYPT then
    mbedtls_aes_crypt_xts T (as_xts ctx) MBEDTLS_AES_ENCRYPT data_unit input
  else if operation =? MBEDTLS_DECRYPT then
    mbedtls_aes_crypt_xts T (as_xts ctx) MBEDTLS_AES_DECRYPT data_unit input
  else (MBEDTLS_ERR_CIPHER_BAD_INPUT_DATA, []).

Definition aes_setkey_dec_wrap (g : aes_globals) (ctx : cipher_ctx_t) (key : list Z) (bits : Z)
    : aes_globals * cipher_ctx_t * Z :=
  let '(g, c, ret) := mbedtls_aes_setkey_dec g (as_aes ctx) key bits in (g, Aes_ctx c, ret).
Definition aes_setkey_enc_wrap (g : aes_globals) (ctx : cipher_ctx_t) (key : list Z) (bits : Z)
    : aes_globals * cipher_ctx_t * Z :=
  let '(g, c, ret) := mbedtls_aes_setkey_enc g (as_aes ctx) key bits in (g, Aes_ctx c, ret).
Definition xts_aes_setkey_enc_wrap (g : aes_globals) (ctx : cipher_ctx_t) (key : list Z) (bits : Z)
    : aes_globals * cipher_ctx_t * Z :=
  let '(g, c, ret) := mbedtls_aes_xts_setkey_enc g (as_xts ctx) key bits in (g, Xts_ctx c, ret).
Definition xts_aes_setkey_dec_wrap (g : aes_globals) (ctx : cipher_ctx_t) (key : list Z) (bits : Z)
    : aes_globals * cipher_ctx_t * Z :=
  let '(g, c, ret) := mbedtls_aes_xts_setkey_dec g (as_xts ctx) key bits in (g, Xts_ctx c, ret).

Definition aes_ctx_alloc : cipher_ctx_t := Aes_ctx mbedtls_aes_init.
Definition xts_aes_ctx_alloc : cipher_ctx_t := Xts_ctx mbedtls_aes_xts_init.

Definition aes_info : mbedtls_cipher_base_t := {|
  ecb_func := Some aes_crypt_ecb_wrap; cbc_func := Some aes_crypt_cbc_wrap;
  cfb_func := Some aes_crypt_cfb128_wrap; ofb_func := Some aes_crypt_ofb_wrap;
  ctr_func := Some aes_crypt_ctr_wrap; xts_func := None;
  setkey_enc_func := aes_setkey_enc_wrap; setkey_dec_func := aes_setkey_dec_wrap;
  ctx_alloc_func := aes_ctx_alloc |}.
Definition xts_aes_info : mbedtls_cipher_base_t := {|
  ecb_func := None; cbc_func := None; cfb_func := None; ofb_func := None; ctr_func := None;
  xts_func := Some aes_crypt_xts_wrap;
  setkey_enc_func := xts_aes_setkey_enc_wrap; setkey_dec_func := xts_aes_setkey_dec_wrap;
  ctx_alloc_func := xts_aes_ctx_alloc |}.

(** [mbedtls_cipher_info_t], without the name. *)
Record mbedtls_cipher_info_t := {
  type : mbedtls_cipher_type_t;
  mode : mbedtls_cipher_mode_t;
  info_key_bitlen : Z;
  info_iv_size : nat;
  flags : Z;
  block_size : nat;
  base : mbedtls_cipher_base_t
}.

Definition aes_row (ty : mbedtls_cipher_type_t) (m : mbedtls_cipher_mode_t) (bits : Z)
    (b : mbedtls_cipher_base_t) : mbedtls_cipher_info_t :=
  {| type := ty; mode := m; info_key_bitlen := bits; info_iv_size := 16; flags := 0;
     block_size := 16; base := b |}.

(** The AES rows. *)
Definition aes_128_ecb_info : mbedtls_cipher_info_t :=
  aes_row MBEDTLS_CIPHER_AES_128_ECB MBEDTLS_MODE_ECB 128 aes_info.
Definition aes_192_ecb_info : mbedtls_cipher_info_t :=
  aes_row MBEDTLS_CIPHER_AES_192_ECB MBEDTLS_MODE_ECB 192 aes_info.
Definition aes_256_ecb_info : mbedtls_cipher_info_t :=
  aes_row MBEDTLS_CIPHER_AES_256_ECB MBEDTLS_MODE_ECB 256 aes_info.
Definition aes_128_cbc_info : mbedtls_cipher_info_t :=
  aes_row MBEDTLS_CIPHER_AES_128_CBC MBEDTLS_MODE_CBC 128 aes_info.
Definition aes_192_cbc_info : mbedtls_cipher_info_t :=
  aes_row MBEDTLS_CIPHER_AES_192_CBC MBEDTLS_MODE_CBC 192 aes_info.
Definition aes_256_cbc_info : mbedtls_cipher_info_t :=
  aes_row MBEDTLS_CIPHER_AES_256_CBC MBEDTLS_MODE_CBC 256 aes_info.
Definition aes_128_cfb128_info : mbedtls_cipher_info_t :=
  aes_row MBEDTLS_CIPHER_AES_128_CFB128 MBEDTLS_MODE_CFB 128 aes_info.
Definition aes_192_cfb128_info : mbedtls_cipher_info_t :=
  aes_row MBEDTLS_CIPHER_AES_192_CFB128 MBEDTLS_MODE_CFB 192 aes_info.
Definition aes_256_cfb128_info : mbedtls_cipher_info_t :=
  aes_row MBEDTLS_CIPHER_AES_256_CFB128 MBEDTLS_MODE_CFB 256 aes_info.
Definition aes_128_ofb_info : mbedtls_cipher_info_t :=
  aes_row MBEDTLS_CIPHER_AES_128_OFB MBEDTLS_MODE_OFB 128 aes_info.
Definition aes_192_ofb_info : mbedtls_cipher_info_t :=
  aes_row MBEDTLS_CIPHER_AES_192_OFB MBEDTLS_MODE_OFB 192 aes_info.
Definition aes_256_ofb_info : mbedtls_cipher_info_t :=
  aes_row MBEDTLS_CIPHER_AES_256_OFB MBEDTLS_MODE_OFB 256 aes_info.
Definition aes_128_ctr_info : mbedtls_cipher_info_t :=
  aes_row MBEDTLS_CIPHER_AES_128_CTR MBEDTLS_MODE_CTR 128 aes_info.
Definition aes_192_ctr_info : mbedtls_cipher_info_t :=
  aes_row MBEDTLS_CIPHER_AES_192_CTR MBEDTLS_MODE_CTR 192 aes_info.
Definition aes_256_ctr_info : mbedtls_cipher_info_t :=
  aes_row MBEDTLS_CIPHER_AES_256_CTR MBEDTLS_MODE_CTR 256 aes_info.
Definition aes_128_xts_info : mbedtls_cipher_info_t :=
  aes_row MBEDTLS_CIPHER_AES_128_XTS MBEDTLS_MODE_XTS 256 xts_aes_info.
Definition aes_256_xts_info : mbedtls_cipher_info_t :=
  aes_row MBEDTLS_CIPHER_AES_256_XTS MBEDTLS_MODE_XTS 512 xts_aes_info.

(** The AES part of [mbedtls_cipher_definitions]. *)
Definition mbedtls_cipher_definitions : list mbedtls_cipher_info_t := [
  aes_128_ecb_info; aes_192_ecb_info; aes_256_ecb_info;
  aes_128_cbc_info; aes_192_cbc_info; aes_256_cbc_info;
  aes_128_cfb128_info; aes_192_cfb128_info; aes_256_cfb128_info;
  aes_128_ofb_info; aes_192_ofb_info; aes_256_ofb_info;
  aes_128_ctr_info; aes_192_ctr_info; aes_256_ctr_info;
  aes_128_xts_info; aes_256_xts_info ].

(** [mbedtls_cipher_info_from_type] and [_from_values] (every row of the table
    is an AES cipher, so the test on [cipher_id] is on the other rows only). *)
Definition mbedtls_cipher_info_from_type (cipher_type : mbedtls_cipher_type_t)
    : option mbedtls_cipher_info_t :=
  List.find (fun def => bool_decide (type def = cipher_type)) mbedtls_cipher_definitions.
Definition mbedtls_cipher_info_from_values (key_bitlen : Z) (m : mbedtls_cipher_mode_t)
    : option mbedtls_cipher_info_t :=
  List.find (fun def => (info_key_bitlen def =? key_bitlen) && bool_decide (mode def = m))
    mbedtls_cipher_definitions.

(** ** Contexts *)

(** [mbedtls_cmac_context_t] (cmac.h). *)
Record mbedtls_cmac_context_t := {
  cmac_state : list Z;
  unprocessed_block : list Z;
  cmac_unprocessed_len : nat
}.

(** [mbedtls_cipher_context_t]; [None] stands for the [NULL] of a pointer. *)
Record mbedtls_cipher_context_t := {
  cipher_info : option mbedtls_cipher_info_t;
  key_bitlen : Z;
  operation : Z;
  add_padding : option (list Z -> nat -> nat -> list Z);
  get_padding : option (list Z -> nat -> Z * Z);
  unprocessed_data : list Z;
  unprocessed_len : nat;
  iv : list Z;
  iv_size : nat;
  cipher_ctx : option cipher_ctx_t;
  cmac_ctx : option mbedtls_cmac_context_t
}.

Definition mbedtls_cipher_init : mbedtls_cipher_context_t := {|
  cipher_info := None; key_bitlen := 0; operation := 0;
  add_padding := None; get_padding := None;
  unprocessed_data := replicate 16 0; unprocessed_len := 0;
  iv := replicate 16 0; iv_size := 0; cipher_ctx := None; cmac_ctx := None |}.
Definition mbedtls_cipher_free (ctx : mbedtls_cipher_context_t) : mbedtls_cipher_context_t :=
  mbedtls_cipher_init.

Definition set_key (ctx : mbedtls_cipher_context_t) (bits op : Z) : mbedtls_cipher_context_t := {|
  cipher_info := cipher_info ctx; key_bitlen := bits; operation := op;
  add_padding := add_padding ctx; get_padding := get_padding ctx;
  unprocessed_data := unprocessed_data ctx; unprocessed_len := unprocessed_len ctx;
  iv := iv ctx; iv_size := iv_size ctx; cipher_ctx := cipher_ctx ctx;
  cmac_ctx := cmac_ctx ctx |}.
Definition set_cipher_ctx (ctx : mbedtls_cipher_context_t) (c : cipher_ctx_t)
    : mbedtls_cipher_context_t := {|
  cipher_info := cipher_info ctx; key_bitlen := key_bitlen ctx; operation := operation ctx;
  add_padding := add_padding ctx; get_padding := get_padding ctx;
  unprocessed_data := unprocessed_data ctx; unprocessed_len := unprocessed_len ctx;
  iv := iv ctx; iv_size := iv_size ctx; cipher_ctx := Some c;
  cmac_ctx := cmac_ctx ctx |}.
Definition set_paddings (ctx : mbedtls_cipher_context_t) (a : option (list Z -> nat -> nat -> list Z))
    (g : list Z -> nat -> Z * Z) : mbedtls_cipher_context_t := {|
  cipher_info := cipher_info ctx; key_bitlen := key_bitlen ctx; operation := operation ctx;
  add_padding := a; get_padding := Some g;
  unprocessed_data := unprocessed_data ctx; unprocessed_len := unprocessed_len ctx;
  iv := iv ctx; iv_size := iv_size ctx; cipher_ctx := cipher_ctx ctx;
  cmac_ctx := cmac_ctx ctx |}.
Definition set_unprocessed (ctx : mbedtls_cipher_context_t) (d : list Z) (n : nat)
    : mbedtls_cipher_context_t := {|
  cipher_info := cipher_info ctx; key_bitlen := key_bitlen ctx; operation := operation ctx;
  add_padding := add_padding ctx; get_padding := get_padding ctx;
  unprocessed_data := d; unprocessed_len := n;
  iv := iv ctx; iv_size := iv_size ctx; cipher_ctx := cipher_ctx ctx;
  cmac_ctx := cmac_ctx ctx |}.
Definition set_iv_buf (ctx : mbedtls_cipher_context_t) (v : list Z) (n : nat)
    : mbedtls_cipher_context_t := {|
  cipher_info := cipher_info ctx; key_bitlen := key_bitlen ctx; operation := operation ctx;
  add_padding := add_padding ctx; get_padding := get_padding ctx;
  unprocessed_data := unprocessed_data ctx; unprocessed_len := unprocessed_len ctx;
  iv := v; iv_size := n; cipher_ctx := cipher_ctx ctx;
  cmac_ctx := cmac_ctx ctx |}.
Abbreviation set_iv_val ctx v := (set_iv_buf ctx v (iv_size ctx)).

(** [mbedtls_cipher_set_padding_mode]; the [switch] has no other value.  The
    code reads [ctx->cipher_info->mode] without a test; its callers pass a
    context that has been set up, and an error stands for the rest here. *)
Definition mbedtls_cipher_set_padding_mode (ctx : mbedtls_cipher_context_t)
    (padding : mbedtls_cipher_padding_t) : mbedtls_cipher_context_t * Z :=
  match cipher_info ctx with
  | Some info =>
      if bool_decide (mode info = MBEDTLS_MODE_CBC) then
        (match padding with
         | MBEDTLS_PADDING_PKCS7 => set_paddings ctx (Some add_pkcs_padding) get_pkcs_padding
         | MBEDTLS_PADDING_ONE_AND_ZEROS =>
             set_paddings ctx (Some add_one_and_zeros_padding) get_one_and_zeros_padding
         | MBEDTLS_PADDING_ZEROS_AND_LEN =>
             set_paddings ctx (Some add_zeros_and_len_padding) get_zeros_and_len_padding
         | MBEDTLS_PADDING_ZEROS => set_paddings ctx (Some add_zeros_padding) get_zeros_padding
         | MBEDTLS_PADDING_NONE => set_paddings ctx None get_no_padding
         end, 0)
      else (ctx, MBEDTLS_ERR_CIPHER_BAD_INPUT_DATA)
  | None => (ctx, MBEDTLS_ERR_CIPHER_BAD_INPUT_DATA)
  end.

(** [mbedtls_cipher_setup]. *)
Definition mbedtls_cipher_setup (ctx : mbedtls_cipher_context_t) (info : option mbedtls_cipher_info_t)
    : mbedtls_cipher_context_t * Z :=
  match info with
  | None => (ctx, MBEDTLS_ERR_CIPHER_BAD_INPUT_DATA)
  | Some i =>
      let ctx := {|
        cipher_info := Some i; key_bitlen := 0; operation := 0;
        add_padding := None; get_padding := None;
        unprocessed_data := replicate 16 0; unprocessed_len := 0;
        iv := replicate 16 0; iv_size := 0; 
        cipher_ctx := Some (ctx_alloc_func (base i)); cmac_ctx := None |} in
      let '(ctx, _) := mbedtls_cipher_set_padding_mode ctx MBEDTLS_PADDING_PKCS7 in
      (ctx, 0)
  end.

(** The result of [f] on [cipher_ctx], stored back. *)
Definition call_setkey
    (f : aes_globals -> cipher_ctx_t -> list Z -> Z -> aes_globals * cipher_ctx_t * Z)
    (g : aes_globals) (ctx : mbedtls_cipher_context_t) (key : list Z)
    : aes_globals * mbedtls_cipher_context_t * Z :=
  match cipher_ctx ctx with
  | Some c => let '(g, c, ret) := f g c key (key_bitlen ctx) in (g, set_cipher_ctx ctx c, ret)
  | None => (g, ctx, MBEDTLS_ERR_CIPHER_INVALID_CONTEXT)
  end.

(** [mbedtls_cipher_setkey]. *)
Definition mbedtls_cipher_setkey (g : aes_globals) (ctx : mbedtls_cipher_context_t) (key : list Z)
    (bits op : Z) : aes_globals * mbedtls_cipher_context_t * Z :=
  match cipher_info ctx with
  | None => (g, ctx, MBEDTLS_ERR_CIPHER_BAD_INPUT_DATA)
  | Some info =>
      if ((flags info .& MBEDTLS_CIPHER_VARIABLE_KEY_LEN) =? 0)
         && negb (info_key_bitlen info =? bits)
      then (g, ctx, MBEDTLS_ERR_CIPHER_BAD_INPUT_DATA)
      else
        let ctx := set_key ctx bits op in
        if (MBEDTLS_ENCRYPT =? op) || bool_decide (mode info = MBEDTLS_MODE_CFB)
           || bool_decide (mode info = MBEDTLS_MODE_OFB) || bool_decide (mode info = MBEDTLS_MODE_CTR)
        then call_setkey (setkey_enc_func (base info)) g ctx key
        else if MBEDTLS_DECRYPT =? op then call_setkey (setkey_dec_func (base info)) g ctx key
        else (g, ctx, MBEDTLS_ERR_CIPHER_BAD_INPUT_DATA)
  end.

(** [mbedtls_cipher_set_iv]; [iv] is not [NULL]. *)
Definition mbedtls_cipher_set_iv (ctx : mbedtls_cipher_context_t) (v : list Z)
    : mbedtls_cipher_context_t * Z :=
  match cipher_info ctx with
  | None => (ctx, MBEDTLS_ERR_CIPHER_BAD_INPUT_DATA)
  | Some info =>
      if (MBEDTLS_MAX_IV_LENGTH <? length v)%nat then (ctx, MBEDTLS_ERR_CIPHER_FEATURE_UNAVAILABLE)
      else
        let variable := negb ((flags info .& MBEDTLS_CIPHER_VARIABLE_IV_LEN) =? 0) in
        let actual_iv_size := if variable then length v else info_iv_size info in
        if negb variable && (length v <? actual_iv_size)%nat
        then (ctx, MBEDTLS_ERR_CIPHER_BAD_INPUT_DATA)
        else (set_iv_buf ctx (memcpy (iv ctx) 0 (take actual_iv_size v)) actual_iv_size, 0)
  end.

(** [mbedtls_cipher_reset]. *)
Definition mbedtls_cipher_reset (ctx : mbedtls_cipher_context_t) : mbedtls_cipher_context_t * Z :=
  match cipher_info ctx with
  | None => (ctx, MBEDTLS_ERR_CIPHER_BAD_INPUT_DATA)
  | Some _ => (set_unprocessed ctx (unprocessed_data ctx) 0, 0)
  end.

Definition mbedtls_cipher_get_block_size (ctx : mbedtls_cipher_context_t) : nat :=
  match cipher_info ctx with None => 0%nat | Some info => block_size info end.
Definition mbedtls_cipher_get_cipher_mode (ctx : mbedtls_cipher_context_t) : mbedtls_cipher_mode_t :=
  match cipher_info ctx with None => MBEDTLS_MODE_NONE | Some info => mode info end.
Definition mbedtls_cipher_get_iv_size (ctx : mbedtls_cipher_context_t) : nat :=
  match cipher_info ctx with
  | None => 0%nat
  | Some info => if negb (iv_size ctx =? 0)%nat then iv_size ctx else info_iv_size info
  end.

(** ** Processing *)

Section Process.
Context (T : aes_tables).

(** [cbc_func( ctx->cipher_ctx, ctx->operation, length, ctx->iv, data, output )].
    A call through a [NULL] entry does not happen for a row of the table
    ([definitions_complete]); the error stands for it. *)
Definition call_cbc (ctx : mbedtls_cipher_context_t) (info : mbedtls_cipher_info_t) (data : list Z)
    : mbedtls_cipher_context_t * Z * list Z :=
  match cbc_func (base info), cipher_ctx ctx with
  | Some f, Some c =>
      let '(ret, v, out) := f T c (operation ctx) (iv ctx) data in (set_iv_val ctx v, ret, out)
  | _, _ => (ctx, MBEDTLS_ERR_CIPHER_INVALID_CONTEXT, [])
  end.

(** [NULL != ctx->add_padding]. *)
Definition pads (ctx : mbedtls_cipher_context_t) : bool :=
  match add_padding ctx with Some _ => true | None => false end.

(** The condition under which [update] only caches its input. *)
Definition cbc_caches (ctx : mbedtls_cipher_context_t) (bs ilen : nat) : bool :=
  ((operation ctx =? MBEDTLS_DECRYPT) && pads ctx && (ilen <=? bs - unprocessed_len ctx)%nat)
  || ((operation ctx =? MBEDTLS_DECRYPT) && negb (pads ctx) && (ilen <? bs - unprocessed_len ctx)%nat)
  || ((operation ctx =? MBEDTLS_ENCRYPT) && (ilen <? bs - unprocessed_len ctx)%nat).

(** The CBC branch of [mbedtls_cipher_update] once no octet is cached: the
    end of the input goes to the cache, the full blocks are processed; [out1]
    has been written. *)
Definition update_cbc_rest (ctx : mbedtls_cipher_context_t) (info : mbedtls_cipher_info_t)
    (out1 input : list Z) : mbedtls_cipher_context_t * Z * list Z :=
  let bs := block_size info in
  let ilen := length input in
  let '(ctx, ret, ilen) :=
    if negb (ilen =? 0)%nat then
      if (bs =? 0)%nat then (ctx, MBEDTLS_ERR_CIPHER_INVALID_CONTEXT, ilen)
      else
        let copy_len := (ilen mod bs)%nat in
        let copy_len :=
          if (copy_len =? 0)%nat && (operation ctx =? MBEDTLS_DECRYPT) && pads ctx
          then bs else copy_len in
        (set_unprocessed ctx (memcpy (unprocessed_data ctx) 0 (drop (ilen - copy_len) input))
           (unprocessed_len ctx + copy_len), 0, (ilen - copy_len)%nat)
    else (ctx, 0, ilen) in
  if negb (ret =? 0) then (ctx, ret, out1)
  else if negb (ilen =? 0)%nat then
    let '(ctx, ret, out2) := call_cbc ctx info (take ilen input) in
    if negb (ret =? 0) then (ctx, ret, out1) else (ctx, 0, out1 ++ out2)
  else (ctx, 0, out1).

(** The CBC branch of [mbedtls_cipher_update]. *)
Definition update_cbc (ctx : mbedtls_cipher_context_t) (info : mbedtls_cipher_info_t)
    (input : list Z) : mbedtls_cipher_context_t * Z * list Z :=
  let bs := block_size info in
  let ulen := unprocessed_len ctx in
  if cbc_caches ctx bs (length input) then
    (set_unprocessed ctx (memcpy (unprocessed_data ctx) ulen input) (ulen + length input), 0, [])
  else if negb (ulen =? 0)%nat then
    let copy_len := (bs - ulen)%nat in
    let data := memcpy (unprocessed_data ctx) ulen (take copy_len input) in
    let '(ctx, ret, out) := call_cbc (set_unprocessed ctx data ulen) info data in
    if negb (ret =? 0) then (ctx, ret, [])
    else update_cbc_rest (set_unprocessed ctx (unprocessed_data ctx) 0) info out (drop copy_len input)
  else update_cbc_rest ctx info [] input.

(** [mbedtls_cipher_update]: context, status and the [*olen] octets of
    [output]. *)
Definition mbedtls_cipher_update (ctx : mbedtls_cipher_context_t) (input : list Z) (inplace : bool)
    : mbedtls_cipher_context_t * Z * list Z :=
  match cipher_info ctx with
  | None => (ctx, MBEDTLS_ERR_CIPHER_BAD_INPUT_DATA, [])
  | Some info =>
      let bs := mbedtls_cipher_get_block_size ctx in
      let ilen := length input in
      match mode info with
      | MBEDTLS_MODE_ECB =>
          if negb (ilen =? bs)%nat then (ctx, MBEDTLS_ERR_CIPHER_FULL_BLOCK_EXPECTED, [])
          else
            match ecb_func (base info), cipher_ctx ctx with
            | Some f, Some c => let '(ret, out) := f T c (operation ctx) input in (ctx, ret, out)
            | _, _ => (ctx, MBEDTLS_ERR_CIPHER_INVALID_CONTEXT, [])
            end
      | m =>
          if (bs =? 0)%nat then (ctx, MBEDTLS_ERR_CIPHER_INVALID_CONTEXT, [])
          else if inplace && (negb (unprocessed_len ctx =? 0)%nat || negb (ilen mod bs =? 0)%nat)
          then (ctx, MBEDTLS_ERR_CIPHER_BAD_INPUT_DATA, [])
          else
            match m, cipher_ctx ctx with
            | MBEDTLS_MODE_CBC, _ => update_cbc ctx info input
            | MBEDTLS_MODE_CFB, Some c =>
                match cfb_func (base info) with
                | Some f =>
                    let '(ret, (n, v), out) :=
                      f T c (operation ctx) (Z.of_nat (unprocessed_len ctx)) (iv ctx) input in
                    (set_unprocessed (set_iv_val ctx v) (unprocessed_data ctx) (Z.to_nat n), ret, out)
                | None => (ctx, MBEDTLS_ERR_CIPHER_INVALID_CONTEXT, [])
                end
            | MBEDTLS_MODE_OFB, Some c =>
                match ofb_func (base info) with
                | Some f =>
                    let '(ret, (n, v), out) :=
                      f T c (Z.of_nat (unprocessed_len ctx)) (iv ctx) input in
                    (set_unprocessed (set_iv_val ctx v) (unprocessed_data ctx) (Z.to_nat n), ret, out)
                | None => (ctx, MBEDTLS_ERR_CIPHER_INVALID_CONTEXT, [])
                end
            | MBEDTLS_MODE_CTR, Some c =>
                match ctr_func (base info) with
                | Some f =>
                    let '(ret, (n, v, sb), out) :=
                      f T c (Z.of_nat (unprocessed_len ctx)) (iv ctx) (unprocessed_data ctx) input in
                    (set_unprocessed (set_iv_val ctx v) sb (Z.to_nat n), ret, out)
                | None => (ctx, MBEDTLS_ERR_CIPHER_INVALID_CONTEXT, [])
                end
            | MBEDTLS_MODE_XTS, Some c =>
                if (0 <? unprocessed_len ctx)%nat then (ctx, MBEDTLS_ERR_CIPHER_FEATURE_UNAVAILABLE, [])
                else
                  match xts_func (base info) with
                  | Some f =>
                      let '(ret, out) := f T c (operation ctx) (iv ctx) input in
                      if negb (ret =? 0) then (ctx, ret, []) else (ctx, 0, out)
                  | None => (ctx, MBEDTLS_ERR_CIPHER_INVALID_CONTEXT, [])
                  end
            | _, _ => (ctx, MBEDTLS_ERR_CIPHER_FEATURE_UNAVAILABLE, [])
            end
      end
  end.

(** [mbedtls_cipher_finish]: context, status, the octets written to [output]
    and [*olen]; [olen] is [NULL] when [has_olen] is false. *)
Definition mbedtls_cipher_finish (ctx : mbedtls_cipher_context_t) (has_olen : bool)
    : mbedtls_cipher_context_t * Z * list Z * Z :=
  match cipher_info ctx with
  | None => (ctx, MBEDTLS_ERR_CIPHER_BAD_INPUT_DATA, [], 0)
  | Some info =>
      if negb has_olen then (ctx, MBEDTLS_ERR_CIPHER_BAD_INPUT_DATA, [], 0)
      else
        match mode info with
        | MBEDTLS_MODE_CFB | MBEDTLS_MODE_OFB | MBEDTLS_MODE_CTR | MBEDTLS_MODE_GCM
        | MBEDTLS_MODE_XTS | MBEDTLS_MODE_STREAM => (ctx, 0, [], 0)
        | MBEDTLS_MODE_ECB =>
            if negb (unprocessed_len ctx =? 0)%nat
            then (ctx, MBEDTLS_ERR_CIPHER_FULL_BLOCK_EXPECTED, [], 0)
            else (ctx, 0, [], 0)
        | MBEDTLS_MODE_CBC =>
            let bs := mbedtls_cipher_get_block_size ctx in
            let ulen := unprocessed_len ctx in
            let early :=
              if MBEDTLS_ENCRYPT =? operation ctx then
                match add_padding ctx with
                | None =>
                    if negb (ulen =? 0)%nat then inr MBEDTLS_ERR_CIPHER_FULL_BLOCK_EXPECTED else inr 0
                | Some add =>
                    inl (set_unprocessed ctx
                           (add (unprocessed_data ctx) (mbedtls_cipher_get_iv_size ctx) ulen) ulen)
                end
              else if negb (bs =? ulen)%nat then
                if negb (pads ctx) && (ulen =? 0)%nat then inr 0
                else inr MBEDTLS_ERR_CIPHER_FULL_BLOCK_EXPECTED
              else inl ctx in
            match early with
            | inr ret => (ctx, ret, [], 0)
            | inl ctx =>
                let '(ctx, ret, out) := call_cbc ctx info (take bs (unprocessed_data ctx)) in
                if negb (ret =? 0) then (ctx, ret, [], 0)
                else if MBEDTLS_DECRYPT =? operation ctx then
                  match get_padding ctx with
                  | Some get => let '(ret, olen) := get out bs in (ctx, ret, out, olen)
                  | None => (ctx, MBEDTLS_ERR_CIPHER_INVALID_CONTEXT, out, 0)
                  end
                else (ctx, 0, out, Z.of_nat bs)
            end
        | _ => (ctx, MBEDTLS_ERR_CIPHER_FEATURE_UNAVAILABLE, [], 0)
        end
  end.

(** [mbedtls_cipher_crypt]: the output is cut to the final [*olen]. *)
Definition mbedtls_cipher_crypt (ctx : mbedtls_cipher_context_t) (v input : list Z) (inplace : bool)
    : mbedtls_cipher_context_t * Z * list Z :=
  let '(ctx, ret) := mbedtls_cipher_set_iv ctx v in
  if negb (ret =? 0) then (ctx, ret, [])
  else
    let '(ctx, ret) := mbedtls_cipher_reset ctx in
    if negb (ret =? 0) then (ctx, ret, [])
    else
      let '(ctx, ret, out) := mbedtls_cipher_update ctx input inplace in
      if negb (ret =? 0) then (ctx, ret, out)
      else
        let '(ctx, ret, last, finish_olen) := mbedtls_cipher_finish ctx true in
        if negb (ret =? 0) then (ctx, ret, out)
        else (ctx, 0, out ++ take (Z.to_nat finish_olen) last).
End Process.
End Cipher.

Import Cipher.

(** Each row of the table has the function its mode calls, and a row is found
    by its type. *)
Lemma definitions_complete :
  Forall (fun info =>
      (match mode info with
       | MBEDTLS_MODE_ECB => is_Some (ecb_func (base info))
       | MBEDTLS_MODE_CBC => is_Some (cbc_func (base info))
       | MBEDTLS_MODE_CFB => is_Some (cfb_func (base info))
       | MBEDTLS_MODE_OFB => is_Some (ofb_func (base info))
       | MBEDTLS_MODE_CTR => is_Some (ctr_func (base info))
       | MBEDTLS_MODE_XTS => is_Some (xts_func (base info))
       | _ => False
       end)
      /\ block_size info = 16%nat
      /\ mbedtls_cipher_info_from_type (type info) = Some info
      /\ mbedtls_cipher_info_from_values (info_key_bitlen info) (mode info) = Some info)
    mbedtls_cipher_definitions.
Proof.
  repeat (apply Forall_cons_2; [split; [by eexists|split; [done|split; reflexivity]]|]). constructor.
Qed.
