(* ===== verification/CipherCorrect.v ===== *)
(** * Correctness of the cipher layer

    CBC through [update] and [finish] is CBC on the whole message, however the
    message is cut into calls: the layer caches an incomplete block (and, when
    decrypting with padding, the last complete one, since it may be padding).
    The invariant [cbc_at] says which part of the message has been processed
    and which part waits in [unprocessed_data]. *)

From S2P Require Import Prelude Octets AesTables AesSpec AesCore AesCorrect AesModes AesModesCorrect.
From S2P Require Import AesStreamCorrect MdStream Padding Cipher.
Open Scope Z_scope.
Open Scope c_scope.
Import Aes Modes Padding Cipher.

(** ** CBC on concatenated messages *)

Section CbcApp.
Context (T : aes_tables) (c : mbedtls_aes_context).

(** Chaining value and output of CBC. *)
Definition cbc_run (op : Z) (v x : list Z) : list Z * list Z :=
  let '(_, v, out) := mbedtls_aes_crypt_cbc T c op v x in (v, out).

Definition whole (x : list Z) : Prop := (length x mod 16 = 0)%nat.

Lemma cbc_loop_app op (loop : nat -> list Z -> list Z -> list Z * list Z) :
  (loop = cbc_encrypt_loop T c op \/ loop = cbc_decrypt_loop T c op) ->
  forall a b v x y, length x = (16 * a)%nat ->
  loop (a + b)%nat v (x ++ y)
  = let '(v1, o1) := loop a v x in let '(v2, o2) := loop b v1 y in (v2, o1 ++ o2).
Proof.
  intros Hloop. induction a as [|a IH]; intros b v x y Hx.
  { apply nil_length_inv in Hx as ->. destruct Hloop as [-> | ->]; simpl; by case_match. }
  assert (16 <= length x)%nat as H16 by lia.
  assert (length (drop 16 x) = 16 * a)%nat as Hd by (rewrite length_drop; lia).
  destruct Hloop as [-> | ->]; cbn [Nat.add cbc_encrypt_loop cbc_decrypt_loop];
    rewrite take_app_le, drop_app_le, IH by done; repeat case_match; simplify_eq;
    by rewrite app_assoc.
Qed.

Lemma cbc_crypt_run op v x :
  whole x -> mbedtls_aes_crypt_cbc T c op v x = let '(v', out) := cbc_run op v x in (0, v', out).
Proof.
  intros Hx. unfold cbc_run, mbedtls_aes_crypt_cbc. unfold whole in Hx. rewrite Hx. simpl negb.
  cbv iota. by destruct (if op =? MBEDTLS_AES_DECRYPT then _ else _).
Qed.

Lemma cbc_run_app op v x y :
  whole x -> whole y ->
  cbc_run op v (x ++ y)
  = let '(v1, o1) := cbc_run op v x in let '(v2, o2) := cbc_run op v1 y in (v2, o1 ++ o2).
Proof.
  unfold whole. intros Hx Hy.
  assert (length x = 16 * (length x / 16))%nat as Hxl by (pose proof (Nat.div_mod_eq (length x) 16); lia).
  assert ((length x + length y) / 16 = length x / 16 + length y / 16)%nat as Hd.
  { rewrite Hxl at 1. rewrite (Nat.mul_comm 16), Nat.add_comm, Nat.div_add by done. lia. }
  assert ((length x + length y) mod 16 = 0)%nat as Hm.
  { rewrite Hxl, Nat.add_comm, (Nat.mul_comm 16), Nat.Div0.mod_add. done. }
  unfold cbc_run, mbedtls_aes_crypt_cbc. rewrite length_app, Hx, Hy, Hm, Hd. simpl negb. cbv iota.
  destruct (op =? MBEDTLS_AES_DECRYPT).
  - rewrite (cbc_loop_app op (cbc_decrypt_loop T c op)) by auto. repeat case_match; by simplify_eq.
  - rewrite (cbc_loop_app op (cbc_encrypt_loop T c op)) by auto. repeat case_match; by simplify_eq.
Qed.

Lemma cbc_run_nil op v : cbc_run op v [] = (v, []).
Proof. unfold cbc_run, mbedtls_aes_crypt_cbc. simpl. by destruct (op =? MBEDTLS_AES_DECRYPT). Qed.

Lemma length_cbc_run op v x : whole x -> length v = 16%nat ->
  length (snd (cbc_run op v x)) = length x /\ length (fst (cbc_run op v x)) = 16%nat.
Proof.
  unfold whole. intros Hx Hv. 
  assert (length x = 16 * (length x / 16))%nat as Hxl by (pose proof (Nat.div_mod_eq (length x) 16); lia).
  unfold cbc_run, mbedtls_aes_crypt_cbc. rewrite Hx. simpl negb. cbv iota.
  generalize dependent (length x / 16)%nat. intros n. clear Hx. revert v Hv x.
  induction n as [|n IH]; intros v Hv x Hl.
  { rewrite (nil_length_inv x) by lia. by destruct (op =? MBEDTLS_AES_DECRYPT). }
  assert (length (drop 16 x) = 16 * n)%nat as Hd by (rewrite length_drop; lia).
  pose proof (fun v Hv => IH v Hv (drop 16 x) Hd) as IH'. clear IH.
  destruct (op =? MBEDTLS_AES_DECRYPT); cbn [cbc_encrypt_loop cbc_decrypt_loop].
  - specialize (IH' (take 16 x) ltac:(rewrite length_take; lia)).
    destruct (cbc_decrypt_loop _ _ _ _ _ _) as [v' o]. simpl in *. destruct IH' as [IH1 IH2].
    split; [|done]. rewrite length_app, length_xor_bytes.
    destruct (block_crypt_ecb T c op (take 16 x)) as [-> _]. lia.
  - destruct (block_crypt_ecb T c op (xor_bytes (take 16 x) v)) as [Hb _].
    specialize (IH' _ Hb). destruct (cbc_encrypt_loop _ _ _ _ _ _) as [v' o]. simpl in *.
    destruct IH' as [IH1 IH2]. split; [|done]. rewrite length_app. lia.
Qed.
End CbcApp.

(** ** The cache of [update] *)

Lemma block_memcpy b off src :
  block b -> bytes src -> (off + length src <= 16)%nat -> block (memcpy b off src).
Proof.
  intros [Hl Hb] Hs H. split; [rewrite length_memcpy; lia|]. unfold memcpy.
  apply Forall_app_2; [by apply Forall_take|]. apply Forall_app_2; [done|by apply Forall_drop].
Qed.

(** How many octets of a message of [n] octets wait in the cache: the
    incomplete block, or, when [lazy], never less than one octet. *)
Definition keep (lazy : bool) (n : nat) : nat :=
  if lazy then (if (n =? 0)%nat then 0 else (n - 1) mod 16 + 1)%nat else (n mod 16)%nat.

Lemma keep_bound lazy n : (keep lazy n <= 16 /\ (n = 0 -> keep lazy n = 0) /\ keep lazy n <= n)%nat.
Proof.
  unfold keep. destruct lazy; [destruct (Nat.eqb_spec n 0)|]; zify; zlia.
Qed.

Lemma keep_whole lazy n : exists k, (n - keep lazy n = 16 * k)%nat.
Proof.
  unfold keep. destruct lazy; [destruct (Nat.eqb_spec n 0)|].
  - exists 0%nat. lia.
  - exists ((n - 1) / 16)%nat. zify. zlia.
  - exists (n / 16)%nat. zify. zlia.
Qed.

Lemma keep_add lazy k n : (lazy = true -> n <> 0)%nat -> keep lazy (16 * k + n) = keep lazy n.
Proof.
  unfold keep. intros H. destruct lazy.
  - specialize (H eq_refl). destruct (Nat.eqb_spec (16 * k + n) 0), (Nat.eqb_spec n 0); zify; zlia.
  - zify. zlia.
Qed.

Lemma whole_eq x : whole x -> exists k, length x = (16 * k)%nat.
Proof. unfold whole. intros H. exists (length x / 16)%nat. pose proof (Nat.div_mod_eq (length x) 16). lia. Qed.

Lemma whole_of x k : length x = (16 * k)%nat -> whole x.
Proof. unfold whole. intros ->. rewrite Nat.mul_comm. apply Nat.Div0.mod_mul. Qed.

Section Cbc.
Context (T : aes_tables) (c : mbedtls_aes_context) (info : mbedtls_cipher_info_t) (op : Z)
  (add : option (list Z -> nat -> nat -> list Z)) (get : list Z -> nat -> Z * Z).
Hypotheses (Hmode : mode info = MBEDTLS_MODE_CBC) (Hbs : block_size info = 16%nat)
  (Hbase : base info = aes_info) (Hop : op = MBEDTLS_DECRYPT \/ op = MBEDTLS_ENCRYPT).

Definition lazy : bool := (op =? MBEDTLS_DECRYPT) && (match add with Some _ => true | None => false end).

(** The fields no processing call changes. *)
Record fixed (ctx : mbedtls_cipher_context_t) : Prop := {
  f_info : cipher_info ctx = Some info;
  f_op : operation ctx = op;
  f_add : add_padding ctx = add;
  f_get : get_padding ctx = Some get;
  f_iv_size : iv_size ctx = 16%nat;
  f_ctx : cipher_ctx ctx = Some (Aes_ctx c)
}.

(** The context has been given [m] from the chaining value [v], and has
    written [out]. *)
Definition cbc_at (v m out : list Z) (ctx : mbedtls_cipher_context_t) : Prop :=
  fixed ctx /\ block (unprocessed_data ctx)
  /\ exists p t, m = p ++ t /\ length t = keep lazy (length m) /\ whole p
     /\ cbc_run T c op v p = (iv ctx, out)
     /\ unprocessed_len ctx = length t /\ take (length t) (unprocessed_data ctx) = t.

Lemma call_cbc_run ctx x :
  fixed ctx -> whole x ->
  call_cbc T ctx info x
  = let '(v, out) := cbc_run T c op (iv ctx) x in (set_iv_val ctx v, 0, out).
Proof.
  intros Hf Hx. unfold call_cbc. rewrite Hbase, (f_ctx ctx Hf), (f_op ctx Hf).
  cbn [cbc_func aes_info]. unfold aes_crypt_cbc_wrap. cbn [as_aes].
  rewrite cbc_crypt_run by done. by destruct (cbc_run T c op (iv ctx) x).
Qed.

Lemma caches_iff ctx n ilen :
  fixed ctx -> unprocessed_len ctx = n ->
  cbc_caches ctx 16 ilen = if lazy then (ilen <=? 16 - n)%nat else (ilen <? 16 - n)%nat.
Proof.
  intros Hf Hn. unfold cbc_caches, pads, lazy. rewrite (f_op ctx Hf), (f_add ctx Hf), Hn.
  destruct Hop as [-> | ->]; destruct add; simpl; by rewrite ?orb_false_r.
Qed.

(** The last two steps of [update]: the processed prefix is [q], and [rest]
    is left, of which the end goes to the cache. *)
Definition update_tail (ctx : mbedtls_cipher_context_t) (rest : list Z)
    : mbedtls_cipher_context_t * list Z :=
  let k := keep lazy (length rest) in
  let ctx := if negb (length rest =? 0)%nat
             then set_unprocessed ctx (memcpy (unprocessed_data ctx) 0 (drop (length rest - k) rest)) k
             else ctx in
  let x := take (length rest - k) rest in
  let '(v, out) := cbc_run T c op (iv ctx) x in
  (set_iv_val ctx v, out).

Lemma update_tail_at v q out ctx rest :
  fixed ctx -> block (unprocessed_data ctx) -> bytes rest -> unprocessed_len ctx = 0%nat ->
  whole q -> cbc_run T c op v q = (iv ctx, out) -> (lazy = true -> length rest <> 0%nat) ->
  let '(ctx', o) := update_tail ctx rest in cbc_at v (q ++ rest) (out ++ o) ctx'.
Proof.
  intros Hf Hd Hb Hu Hq Hrun Hlz. unfold update_tail.
  destruct (keep_bound lazy (length rest)) as (K1 & K2 & K3). set (k := keep lazy (length rest)) in *.
  destruct (keep_whole lazy (length rest)) as (j & Hj). fold k in Hj.
  set (x := take (length rest - k) rest). set (t := drop (length rest - k) rest).
  assert (length t = k) as Ht by (unfold t; rewrite length_drop; lia).
  assert (whole x) as Hx.
  { unfold whole, x. rewrite length_take, Nat.min_l, Hj, Nat.mul_comm by lia. apply Nat.Div0.mod_mul. }
  set (ctx1 := if negb (length rest =? 0)%nat then _ else ctx).
  assert (iv ctx1 = iv ctx) as Hiv by (unfold ctx1; by case_match).
  rewrite Hiv. destruct (cbc_run T c op (iv ctx) x) as [v' o] eqn:Er.
  split; [|split].
  - unfold ctx1. destruct Hf. case_match; split; done.
  - unfold ctx1. case_match; [|done]. apply block_memcpy; [done|by apply Forall_drop|].
    fold t. rewrite Ht. lia.
  - exists (q ++ x), t. split; [unfold x, t; by rewrite <- app_assoc, take_drop|].
    split.
    { rewrite Ht, length_app. unfold whole in Hq.
      pose proof (Nat.div_mod_eq (length q) 16) as Hq'. rewrite Hq, Nat.add_0_r in Hq'.
      rewrite Hq', keep_add by done. done. }
    split.
    { unfold whole in *. rewrite length_app. pose proof (Nat.Div0.add_mod (length q) (length x) 16) as E.
      rewrite Hq, Hx in E. done. }
    split; [rewrite cbc_run_app by done; rewrite Hrun, Er; done|].
    unfold ctx1. destruct (Nat.eqb_spec (length rest) 0) as [E|E]; simpl.
    + assert (k = 0)%nat by auto. rewrite Ht, Hu. split; [lia|].
      rewrite (nil_length_inv t) by lia. replace k with 0%nat by lia. done.
    + split; [done|]. rewrite <- (Nat.add_0_l (length t)). rewrite take_memcpy by lia. done.
Qed.

(** The code's choice of [copy_len] is [keep]. *)
Lemma copy_len_keep n : n <> 0%nat ->
  (if (n mod 16 =? 0)%nat && lazy then 16%nat else n mod 16)%nat = keep lazy n.
Proof.
  intros Hn. unfold keep. destruct lazy.
  - destruct (Nat.eqb_spec (n mod 16) 0), (Nat.eqb_spec n 0); cbn [andb]; zify; zlia.
  - by rewrite andb_false_r.
Qed.

Lemma update_cbc_rest_tail ctx out1 input :
  fixed ctx -> unprocessed_len ctx = 0%nat ->
  update_cbc_rest T ctx info out1 input
  = let '(ctx', o) := update_tail ctx input in (ctx', 0, out1 ++ o).
Proof.
  intros Hf Hu. unfold update_cbc_rest, update_tail. rewrite Hbs, Hu.
  destruct (Nat.eqb_spec (length input) 0) as [E|E]; simpl negb; cbv iota.
  { rewrite (nil_length_inv input) by done. rewrite take_nil, cbc_run_nil, app_nil_r. simpl.
    by destruct ctx. }
  assert (pads ctx = match add with Some _ => true | None => false end) as Hp
    by (unfold pads; by rewrite (f_add ctx Hf)).
  rewrite (f_op ctx Hf), Hp, <- andb_assoc. fold lazy. rewrite copy_len_keep by done.
  destruct (keep_bound lazy (length input)) as (K1 & K2 & K3).
  destruct (keep_whole lazy (length input)) as (j & Hj).
  set (ctx1 := set_unprocessed _ _ _).
  assert (fixed ctx1) as Hf1 by (destruct Hf; by split).
  cbn [Nat.eqb]. simpl (negb (0 =? 0)). cbv iota.
  destruct (Nat.eqb_spec (length input - keep lazy (length input)) 0) as [E2|E2]; simpl negb; cbv iota.
  - rewrite E2. rewrite take_0, cbc_run_nil, app_nil_r. done.
  - rewrite call_cbc_run; [|done|].
    2:{ unfold whole. rewrite length_take, Nat.min_l, Hj, Nat.mul_comm by lia. apply Nat.Div0.mod_mul. }
    by destruct (cbc_run T c op (iv ctx1) _).
Qed.

Lemma keep_cached k n ilen :
  n = keep lazy (16 * k + n) -> (if lazy then (n + ilen <= 16)%nat else (n + ilen < 16)%nat) ->
  (n + ilen)%nat = keep lazy (16 * k + n + ilen).
Proof.
  unfold keep. destruct lazy; intros E H.
  - destruct (Nat.eqb_spec (16 * k + n) 0), (Nat.eqb_spec (16 * k + n + ilen) 0); zify; zlia.
  - zify; zlia.
Qed.

(** The part of [update] that runs with [t] cached and enough input to fill
    the block. *)
Lemma update_cbc_fill v p t out ctx input :
  fixed ctx -> block (unprocessed_data ctx) -> bytes input -> unprocessed_len ctx = length t ->
  whole p -> cbc_run T c op v p = (iv ctx, out) -> take (length t) (unprocessed_data ctx) = t ->
  (length t <= 16)%nat -> (16 - length t <= length input)%nat ->
  (lazy = true -> 16 - length t < length input)%nat ->
  let data := memcpy (unprocessed_data ctx) (length t) (take (16 - length t) input) in
  exists ctx' o,
  (let '(ctx, ret, out) := call_cbc T (set_unprocessed ctx data (length t)) info data in
   if negb (ret =? 0) then (ctx, ret, [])
   else update_cbc_rest T (set_unprocessed ctx (unprocessed_data ctx) 0) info out
          (drop (16 - length t) input)) = (ctx', 0, o)
  /\ cbc_at v ((p ++ t) ++ input) (out ++ o) ctx'.
Proof.
  intros Hf Hd Hb Hu Hp Hr Hc Ht16 Hi Hil data. unfold data. clear data.
  set (x := take (16 - length t) input).
  assert (length x = 16 - length t)%nat as Hx by (unfold x; rewrite length_take; lia).
  assert (memcpy (unprocessed_data ctx) (length t) x = t ++ x) as ->.
  { unfold memcpy. rewrite Hc, Hx, drop_ge by (destruct Hd; lia). by rewrite app_nil_r. }
  assert (length (t ++ x) = 16 * 1)%nat as Htx by (rewrite length_app; lia).
  pose proof (whole_of _ _ Htx) as Hwx.
  set (ctx1 := set_unprocessed ctx (t ++ x) (length t)).
  assert (fixed ctx1) as Hf1 by (destruct Hf; by split).
  rewrite call_cbc_run by done. change (iv ctx1) with (iv ctx).
  destruct (cbc_run T c op (iv ctx) (t ++ x)) as [v1 o1] eqn:Er. cbn [Z.eqb negb].
  set (ctx2 := set_unprocessed (set_iv_val ctx1 v1) _ 0).
  assert (fixed ctx2) as Hf2 by (destruct Hf1; by split).
  rewrite update_cbc_rest_tail by done.
  pose proof (update_tail_at v (p ++ t ++ x) (out ++ o1) ctx2 (drop (16 - length t) input) Hf2) as Hat.
  assert (bytes t) as Hbt by (rewrite <- Hc; apply Forall_take; by destruct Hd).
  assert (block (t ++ x)) as Hbx by (split; [done|apply Forall_app_2; [done|by apply Forall_take]]).
  specialize (Hat Hbx (Forall_drop _ _ _ Hb) eq_refl).
  destruct (whole_eq p Hp) as [kp Hkp].
  assert (whole (p ++ t ++ x)) as Hw by (apply (whole_of _ (kp + 1)); rewrite length_app; lia).
  specialize (Hat Hw). rewrite cbc_run_app, Hr, Er in Hat by done. specialize (Hat eq_refl).
  destruct (update_tail ctx2 _) as [ctx' o]. eexists ctx', (o1 ++ o). split; [done|].
  assert ((p ++ t) ++ input = (p ++ t ++ x) ++ drop (16 - length t) input) as ->
    by (unfold x; by rewrite <- !app_assoc, take_drop).
  rewrite (app_assoc out). apply Hat. intros Hl. specialize (Hil Hl). rewrite length_drop. lia.
Qed.

(** [update] on a context that has been given [m]. *)
Lemma update_cbc_at v m out ctx input :
  cbc_at v m out ctx -> bytes input ->
  exists ctx' o, update_cbc T ctx info input = (ctx', 0, o) /\ cbc_at v (m ++ input) (out ++ o) ctx'.
Proof.
  intros (Hf & Hd & p & t & -> & Ht & Hp & Hr & Hu & Hc) Hb.
  pose proof (keep_bound lazy (length (p ++ t))) as (Hk16 & Hk0 & _). rewrite <- Ht in Hk16, Hk0.
  destruct (whole_eq p Hp) as [kp Hkp]. rewrite length_app, Hkp in Ht.
  unfold update_cbc. rewrite Hbs, (caches_iff ctx (length t)), Hu by done.
  destruct (if lazy then (length input <=? 16 - length t)%nat else (length input <? 16 - length t)%nat) eqn:Ec.
  - assert (if lazy then (length t + length input <= 16)%nat else (length t + length input < 16)%nat) as Hc'.
    { destruct lazy; [apply Nat.leb_le in Ec|apply Nat.ltb_lt in Ec]; lia. }
    eexists _, []. split; [done|]. split; [destruct Hf; by split|].
    split; [apply block_memcpy; [done..|destruct lazy; lia]|].
    exists p, (t ++ input). rewrite app_assoc. split; [done|].
    split; [rewrite !length_app, Hkp; by apply keep_cached|].
    split; [done|]. rewrite app_nil_r, length_app. split; [done|]. split; [done|].
    simpl. rewrite take_memcpy by (destruct Hd; lia). by rewrite Hc.
  - assert (16 - length t <= length input /\ (lazy = true -> 16 - length t < length input))%nat as [Hi Hil].
    { destruct lazy; [apply Nat.leb_gt in Ec|apply Nat.ltb_ge in Ec]; split; try done; lia. }
    destruct (Nat.eqb_spec (length t) 0) as [E|E]; simpl negb; cbv iota; [|by apply update_cbc_fill].
    apply nil_length_inv in E as ->. simpl in Hu. rewrite app_nil_r, update_cbc_rest_tail by done.
    pose proof (update_tail_at v p out ctx input Hf Hd Hb Hu Hp Hr) as Hat.
    destruct (update_tail ctx input) as [ctx' o].
    eexists ctx', o. split; [done|]. apply Hat. intros Hl. specialize (Hil Hl). simpl in *. lia.
Qed.

Lemma update_at v m out ctx input :
  cbc_at v m out ctx -> bytes input ->
  exists ctx' o, mbedtls_cipher_update T ctx input false = (ctx', 0, o)
    /\ cbc_at v (m ++ input) (out ++ o) ctx'.
Proof.
  intros Hat Hb. destruct (update_cbc_at v m out ctx input Hat Hb) as (ctx' & o & E & H').
  exists ctx', o. split; [|done]. destruct Hat as [Hf _].
  unfold mbedtls_cipher_update, mbedtls_cipher_get_block_size.
  rewrite (f_info ctx Hf), Hmode, Hbs. done.
Qed.

(** The chaining value stays a block. *)
Lemma length_iv_at v m out ctx : length v = 16%nat -> cbc_at v m out ctx -> length (iv ctx) = 16%nat.
Proof.
  intros Hv (_ & _ & p & t & _ & _ & Hp & Hr & _). pose proof (length_cbc_run T c op v p Hp Hv) as H.
  rewrite Hr in H. apply H.
Qed.

Lemma length_run_block v b v' o :
  block b -> length v = 16%nat -> cbc_run T c op v b = (v', o) -> length o = 16%nat.
Proof.
  intros [Hb _] Hv E. pose proof (length_cbc_run T c op v b (whole_of b 1 Hb) Hv) as [H _].
  rewrite E in H. simpl in H. lia.
Qed.

(** [finish] of an encryption with a padding [a]: the padded block is
    appended to the message. *)
Lemma finish_encrypt a v m out ctx :
  op = MBEDTLS_ENCRYPT -> add = Some a -> (forall b d, block b -> (d < 16)%nat -> block (a b 16%nat d)) ->
  length v = 16%nat -> cbc_at v m out ctx ->
  exists p t b ctx' o,
    m = p ++ t /\ whole p /\ (length t < 16)%nat /\ block b /\ take (length t) b = t
    /\ mbedtls_cipher_finish T ctx true = (ctx', 0, o, 16)
    /\ cbc_run T c op v (p ++ a b 16%nat (length t)) = (iv ctx', out ++ o) /\ length o = 16%nat.
Proof.
  intros Ho Ha Hba Hv Hat. pose proof (length_iv_at v m out ctx Hv Hat) as Hiv.
  destruct Hat as (Hf & Hd & p & t & Hm & Ht & Hp & Hr & Hu & Hc).
  assert (lazy = false) as Hl by (unfold lazy; by rewrite Ho).
  rewrite Hl in Ht. unfold keep in Ht.
  assert (length t < 16)%nat as Ht16 by (rewrite Ht; by apply Nat.mod_upper_bound).
  set (b := a (unprocessed_data ctx) 16%nat (length t)).
  assert (block b) as Hb by by apply Hba.
  set (ctx1 := set_unprocessed ctx b (length t)).
  assert (fixed ctx1) as Hf1 by (destruct Hf; by split).
  assert (whole b) as Hb1 by (apply (whole_of _ 1); apply Hb).
  pose proof (call_cbc_run ctx1 b Hf1 Hb1) as Ecall. change (iv ctx1) with (iv ctx) in Ecall.
  destruct (cbc_run T c op (iv ctx) b) as [v' o] eqn:Er.
  exists p, t, (unprocessed_data ctx), (set_iv_val ctx1 v'), o.
  do 5 (split; [done|]). split; [|split; [|by apply (length_run_block (iv ctx) b v' o)]].
  - unfold mbedtls_cipher_finish, mbedtls_cipher_get_block_size, mbedtls_cipher_get_iv_size.
    rewrite (f_info ctx Hf), Hmode, (f_op ctx Hf), (f_add ctx Hf), (f_iv_size ctx Hf), Hbs, Hu, Ha.
    rewrite Ho at 1. cbn [negb Z.eqb Nat.eqb MBEDTLS_ENCRYPT Pos.eqb]. fold b ctx1.
    change (unprocessed_data ctx1) with b. rewrite take_ge, Ecall by (destruct Hb; lia).
    change (operation (set_iv_val ctx1 v')) with (operation ctx). rewrite (f_op ctx Hf), Ho. done.
  - rewrite cbc_run_app by done. rewrite Hr. fold b. by rewrite Er.
Qed.

(** [finish] of a decryption with padding, of a nonempty message of whole
    blocks: the cached last block is decrypted and the padding is read. *)
Lemma finish_decrypt a v m out ctx :
  op = MBEDTLS_DECRYPT -> add = Some a -> length v = 16%nat -> whole m -> length m <> 0%nat ->
  cbc_at v m out ctx ->
  exists ctx' o,
    cbc_run T c op v m = (iv ctx', out ++ o) /\ length o = 16%nat
    /\ mbedtls_cipher_finish T ctx true = (let '(ret, olen) := get o 16%nat in (ctx', ret, o, olen)).
Proof.
  intros Ho Ha Hv Hw Hm0 Hat. pose proof (length_iv_at v m out ctx Hv Hat) as Hiv.
  destruct Hat as (Hf & Hd & p & t & Hm & Ht & Hp & Hr & Hu & Hc).
  assert (lazy = true) as Hl by (unfold lazy; by rewrite Ho, Ha).
  assert (length t = 16%nat) as Ht16.
  { rewrite Ht, Hl. unfold keep. unfold whole in Hw. destruct (Nat.eqb_spec (length m) 0); zify; zlia. }
  assert (unprocessed_data ctx = t) as Hdt 
    by (rewrite <- Hc, Ht16; destruct Hd; by rewrite take_ge by lia).
  assert (block t) as Hb by by rewrite <- Hdt.
  assert (whole t) as Hwt by by apply (whole_of _ 1).
  pose proof (call_cbc_run ctx t Hf Hwt) as Ecall.
  destruct (cbc_run T c op (iv ctx) t) as [v' o] eqn:Er.
  exists (set_iv_val ctx v'), o. split; [|split; [by apply (length_run_block (iv ctx) t v' o)|]].
  - rewrite Hm, cbc_run_app by done. rewrite Hr. by rewrite Er.
  - unfold mbedtls_cipher_finish, mbedtls_cipher_get_block_size, pads.
    rewrite (f_info ctx Hf), Hmode, (f_op ctx Hf), (f_add ctx Hf), Hbs, Hu, Ht16, Ha.
    rewrite Ho at 1. cbn [negb Z.eqb Nat.eqb MBEDTLS_ENCRYPT MBEDTLS_DECRYPT].
    rewrite Hdt, take_ge, Ecall by lia.
    change (operation (set_iv_val ctx v')) with (operation ctx).
    change (get_padding (set_iv_val ctx v')) with (get_padding ctx).
    rewrite (f_op ctx Hf), (f_get ctx Hf), Ho. simpl. by destruct (get o 16%nat).
Qed.
End Cbc.

(** ** Whole messages in pieces *)

Section Feed.
Context (T : aes_tables).

(** A caller that passes the pieces of a message to [update] one after the
    other, and stops at the first error. *)
Fixpoint feed (ctx : mbedtls_cipher_context_t) (chunks : list (list Z))
    : mbedtls_cipher_context_t * Z * list Z :=
  match chunks with
  | [] => (ctx, 0, [])
  | x :: chunks =>
      let '(ctx, ret, o) := mbedtls_cipher_update T ctx x false in
      if negb (ret =? 0) then (ctx, ret, o)
      else let '(ctx, ret, o') := feed ctx chunks in (ctx, ret, o ++ o')
  end.

(** The same followed by [finish]: status and output. *)
Definition process (ctx : mbedtls_cipher_context_t) (chunks : list (list Z)) : Z * list Z :=
  let '(ctx, ret, out) := feed ctx chunks in
  if negb (ret =? 0) then (ret, out)
  else
    let '(_, ret, last, olen) := mbedtls_cipher_finish T ctx true in
    (ret, out ++ take (Z.to_nat olen) last).

Lemma feed_at c info op add get v m out ctx chunks :
  mode info = MBEDTLS_MODE_CBC -> block_size info = 16%nat -> base info = aes_info ->
  op = MBEDTLS_DECRYPT \/ op = MBEDTLS_ENCRYPT ->
  cbc_at T c info op add get v m out ctx -> Forall bytes chunks ->
  exists ctx' o, feed ctx chunks = (ctx', 0, o)
    /\ cbc_at T c info op add get v (m ++ concat chunks) (out ++ o) ctx'.
Proof.
  intros Hm Hb Hi Ho Hat Hc. revert m out ctx Hat.
  induction Hc as [|x chunks Hx Hc IH]; intros m out ctx Hat; simpl.
  { exists ctx, []. by rewrite !app_nil_r. }
  destruct (update_at T c info op add get Hm Hb Hi Ho v m out ctx x Hat Hx) as (ctx1 & o1 & -> & H1).
  destruct (IH _ _ _ H1) as (ctx2 & o2 & -> & H2).
  exists ctx2, (o1 ++ o2). split; [done|]. by rewrite !app_assoc.
Qed.

(** A context ready for a message. *)
Definition ready (c : mbedtls_aes_context) (info : mbedtls_cipher_info_t) (op : Z)
    (add : option (list Z -> nat -> nat -> list Z)) (get : list Z -> nat -> Z * Z) (v : list Z)
    (ctx : mbedtls_cipher_context_t) : Prop :=
  fixed c info op add get ctx /\ block (unprocessed_data ctx) /\ unprocessed_len ctx = 0%nat
  /\ iv ctx = v.

Lemma ready_at c info op add get v ctx :
  ready c info op add get v ctx -> cbc_at T c info op add get v [] [] ctx.
Proof.
  intros (Hf & Hd & Hu & <-). split; [done|]. split; [done|]. exists [], [].
  split; [done|]. split; [by destruct (lazy op add)|]. split; [done|].
  split; [apply cbc_run_nil|]. by rewrite Hu.
Qed.
End Feed.

Section Inverse.
Context (T : aes_tables) (ce cd : mbedtls_aes_context) `{HP : !AesPair T ce cd}.
Context (info : mbedtls_cipher_info_t) (add : list Z -> nat -> nat -> list Z)
  (get : list Z -> nat -> Z * Z) `{HR : !Reversible add get}.
Hypotheses (Hmode : mode info = MBEDTLS_MODE_CBC) (Hbs : block_size info = 16%nat)
  (Hbase : base info = aes_info).

Lemma cbc_run_inverse v x :
  block v -> bytes x -> whole x ->
  let '(v', ct) := cbc_run T ce MBEDTLS_ENCRYPT v x in
  length ct = length x /\ bytes ct /\ cbc_run T cd MBEDTLS_DECRYPT v ct = (v', x).
Proof.
  intros Hv Hx Hw. destruct (whole_eq x Hw) as [n Hn].
  unfold cbc_run, mbedtls_aes_crypt_cbc. unfold whole in Hw. rewrite Hw, Hn.
  change (negb (0 =? 0)%nat) with false. cbv iota.
  rewrite (Nat.mul_comm 16 n), Nat.div_mul by done.
  pose proof (cbc_loops T ce cd n v x Hv Hx Hn) as H.
  change (MBEDTLS_ENCRYPT =? MBEDTLS_AES_DECRYPT) with false. cbv iota.
  destruct (cbc_encrypt_loop _ _ _ _ _ _) as [v' ct]. destruct H as (Hl & Hb & _ & Hd).
  split; [lia|]. split; [done|]. rewrite Hl, (Nat.mul_comm 16 n), Nat.Div0.mod_mul, Nat.div_mul by done.
  change MBEDTLS_DECRYPT with MBEDTLS_AES_DECRYPT.
  change (negb (0 =? 0)%nat) with false. by rewrite Z.eqb_refl, Hd.
Qed.

Lemma bytes_of_concat (ys : list (list Z)) : bytes (concat ys) -> Forall bytes ys.
Proof.
  induction ys as [|y ys IH]; simpl; [constructor|]. rewrite Forall_app. intros []. auto.
Qed.

Lemma bytes_concat (ys : list (list Z)) : Forall bytes ys -> bytes (concat ys).
Proof. induction 1; simpl; [constructor|]. by apply Forall_app_2. Qed.

(** Decryption of the ciphertext of a padded message. *)
Lemma decrypt_padded v p t b ct ys ctx :
  block v -> bytes p -> whole p -> block b -> take (length t) b = t -> (length t < 16)%nat ->
  snd (cbc_run T ce MBEDTLS_ENCRYPT v (p ++ add b 16%nat (length t))) = ct ->
  concat ys = ct -> ready cd info MBEDTLS_DECRYPT (Some add) get v ctx ->
  process T ctx ys = (0, p ++ t).
Proof.
  intros Hv Hp Hw Hb Htb Ht Hct Hys Hr. destruct (whole_eq p Hw) as [k Hk]. destruct Hb as [Hbl Hbb].
  pose proof (add_length b 16 (length t) Hbl ltac:(lia)) as Hal.
  set (x := p ++ add b 16%nat (length t)) in *.
  assert (length x = 16 * (k + 1))%nat as Hx by (unfold x; rewrite length_app; lia).
  pose proof (cbc_run_inverse v x Hv) as Hinv.
  destruct (cbc_run T ce MBEDTLS_ENCRYPT v x) as [v' ct'] eqn:Ee. simpl in Hct. subst ct'.
  destruct Hinv as (Hcl & Hcb & Hd).
  { apply Forall_app_2; [done|]. apply add_bytes; [done..|lia]. }
  { by eapply whole_of. }
  destruct (feed_at T cd info MBEDTLS_DECRYPT (Some add) get v [] [] ctx ys) as (ctx1 & o1 & Ef & Hat);
    auto; [by apply ready_at|apply bytes_of_concat; by rewrite Hys|].
  simpl in Hat. rewrite Hys in Hat.
  destruct (finish_decrypt T cd info MBEDTLS_DECRYPT (Some add) get Hmode Hbs Hbase add v ct o1 ctx1)
    as (ctx2 & o2 & Er & Ho2 & Efin); auto; [apply Hv|apply (whole_of _ (k + 1)); lia|lia|].
  unfold process. rewrite Ef, Efin. cbn [negb Z.eqb]. rewrite Er in Hd. injection Hd as _ Hd.
  apply app_inj_2 in Hd as [-> ->]; [|lia].
  rewrite get_add by (done || lia). rewrite Nat2Z.id, add_keeps by (done || lia). by rewrite Htb.
Qed.

(** Encryption in pieces, then decryption in other pieces. *)
Lemma cbc_stream_inverse v xs ctx :
  block v -> Forall bytes xs -> ready ce info MBEDTLS_ENCRYPT (Some add) get v ctx ->
  exists ct, process T ctx xs = (0, ct)
    /\ length ct = (16 * (length (concat xs) / 16 + 1))%nat
    /\ forall ys ctx', concat ys = ct -> ready cd info MBEDTLS_DECRYPT (Some add) get v ctx' ->
       process T ctx' ys = (0, concat xs).
Proof.
  intros Hv Hxs Hr. pose proof (bytes_concat xs Hxs) as Hb.
  destruct (feed_at T ce info MBEDTLS_ENCRYPT (Some add) get v [] [] ctx xs) as (ctx1 & o1 & Ef & Hat);
    auto; [by apply ready_at|]. simpl in Hat.
  destruct (finish_encrypt T ce info MBEDTLS_ENCRYPT (Some add) get Hmode Hbs Hbase add v
    (concat xs) o1 ctx1) as (p & t & b & ctx2 & o2 & Hm & Hp & Ht & Hbb & Htb & Efin & Er & Ho2);
    auto; [|apply Hv|].
  { intros b d [] Hd. split; [by apply add_length; try lia|by apply add_bytes; try lia]. }
  exists (o1 ++ o2). unfold process at 1. rewrite Ef, Efin. cbn [negb Z.eqb].
  change (Z.to_nat 16) with 16%nat. rewrite (take_ge o2) by lia. rewrite Hm in Hb |- *.
  apply Forall_app in Hb as [Hbp _]. destruct (whole_eq p Hp) as [k Hk]. split; [done|]. split.
  - pose proof (length_cbc_run T ce MBEDTLS_ENCRYPT v (p ++ add b 16%nat (length t))) as [HL _];
      [|apply Hv|rewrite Er in HL; simpl in HL; rewrite HL].
    + apply (whole_of _ (k + 1)). rewrite length_app, add_length; [lia|apply Hbb|lia].
    + rewrite !length_app, add_length; [|apply Hbb|lia]. rewrite Hk.
      rewrite (Nat.mul_comm 16 k), Nat.add_comm, (Nat.add_comm (k * 16)), Nat.div_add by done.
      rewrite Nat.div_small; lia.
  - intros ys ctx' Hys Hr'. apply (decrypt_padded v p t b (o1 ++ o2) ys ctx'); try done. by rewrite Er.
Qed.
End Inverse.

(** ** Sessions *)

(** A caller's preparation of a context: set up for an AES mode, set the key,
    choose a padding, set the initial vector, reset; the first error is
    returned. *)
Definition open_session (g : aes_globals) (m : mbedtls_cipher_mode_t) (bits : Z) (key : list Z) (op : Z)
    (pad : mbedtls_cipher_padding_t) (v : list Z) : aes_globals * mbedtls_cipher_context_t * Z :=
  let '(ctx, ret) :=
    mbedtls_cipher_setup mbedtls_cipher_init (mbedtls_cipher_info_from_values bits m) in
  if negb (ret =? 0) then (g, ctx, ret)
  else
    let '(g, ctx, ret) := mbedtls_cipher_setkey g ctx key bits op in
    if negb (ret =? 0) then (g, ctx, ret)
    else
      let '(ctx, ret) :=
        if bool_decide (m = MBEDTLS_MODE_CBC) then mbedtls_cipher_set_padding_mode ctx pad
        else (ctx, 0) in
      if negb (ret =? 0) then (g, ctx, ret)
      else
        let '(ctx, ret) := mbedtls_cipher_set_iv ctx v in
        if negb (ret =? 0) then (g, ctx, ret)
        else let '(ctx, ret) := mbedtls_cipher_reset ctx in (g, ctx, ret).

(** The routines of the reversible paddings. *)
Inductive reversible_padding :
    mbedtls_cipher_padding_t -> (list Z -> nat -> nat -> list Z) -> (list Z -> nat -> Z * Z) -> Prop :=
| Rev_pkcs : reversible_padding MBEDTLS_PADDING_PKCS7 add_pkcs_padding get_pkcs_padding
| Rev_one : reversible_padding MBEDTLS_PADDING_ONE_AND_ZEROS
              add_one_and_zeros_padding get_one_and_zeros_padding
| Rev_len : reversible_padding MBEDTLS_PADDING_ZEROS_AND_LEN
              add_zeros_and_len_padding get_zeros_and_len_padding.

Lemma reversible_laws pad add get : reversible_padding pad add get -> Reversible add get.
Proof. destruct 1; apply _. Qed.

(** The AES row of a key size. *)
Definition aes_type (m : mbedtls_cipher_mode_t) (Nk : nat) : option mbedtls_cipher_info_t :=
  mbedtls_cipher_info_from_values (32 * Z.of_nat Nk) m.

(** The context of a session in any mode with a feedback register. *)
Definition session_ctx (info : mbedtls_cipher_info_t) (bits op : Z)
    (add : option (list Z -> nat -> nat -> list Z)) (get : option (list Z -> nat -> Z * Z))
    (v : list Z) (c : mbedtls_aes_context) : mbedtls_cipher_context_t := {|
  cipher_info := Some info; key_bitlen := bits; operation := op;
  add_padding := add; get_padding := get; unprocessed_data := replicate 16 0; unprocessed_len := 0;
  iv := v; iv_size := 16; cipher_ctx := Some (Aes_ctx c);
  cmac_ctx := None |}.

(** The rows the emulator uses with an initial vector and a single key. *)
Lemma aes_type_row m Nk :
  key_size Nk -> m = MBEDTLS_MODE_CBC \/ m = MBEDTLS_MODE_CTR ->
  exists info, aes_type m Nk = Some info /\ mode info = m
    /\ info_key_bitlen info = 32 * Z.of_nat Nk /\ info_iv_size info = 16%nat /\ flags info = 0
    /\ block_size info = 16%nat /\ base info = aes_info.
Proof. intros [-> | [-> | ->]] [-> | ->]; eexists; done. Qed.

Lemma memcpy_whole (b v : list Z) : length b = length v -> memcpy b 0 v = v.
Proof. intros H. unfold memcpy. simpl. rewrite drop_ge by lia. by rewrite app_nil_r. Qed.

Lemma open_cbc Nk g pad add get key op v info :
  aes_type MBEDTLS_MODE_CBC Nk = Some info ->
  key_size Nk -> aes_ready g -> length key = (4 * Nk)%nat -> length v = 16%nat ->
  reversible_padding pad add get -> op = MBEDTLS_ENCRYPT \/ op = MBEDTLS_DECRYPT ->
  exists c,
    open_session g MBEDTLS_MODE_CBC (32 * Z.of_nat Nk) key op pad v
    = (aes_init_tables g, session_ctx info (32 * Z.of_nat Nk) op (Some add) (Some get) v c, 0)
    /\ (if op =? MBEDTLS_ENCRYPT then mbedtls_aes_setkey_enc else mbedtls_aes_setkey_dec)
         g mbedtls_aes_init key (32 * Z.of_nat Nk) = (aes_init_tables g, c, 0).
Proof.
  intros Ei HNk Hg Hk Hv Hpad Hop.
  pose proof (setkey_enc_eq Nk g mbedtls_aes_init key HNk Hg ltac:(lia)) as Ee.
  pose proof (setkey_dec_eq Nk g mbedtls_aes_init key HNk Hg ltac:(lia)) as Ed.
  destruct (aes_type_row MBEDTLS_MODE_CBC Nk HNk (or_introl eq_refl))
    as (info' & Ei' & Em & Ek & Ev & Efl & Eb & Ebase).
  rewrite Ei in Ei'. injection Ei' as <-.
  unfold open_session. unfold aes_type in Ei. rewrite Ei. unfold mbedtls_cipher_setup.
  rewrite Ebase. unfold mbedtls_cipher_set_padding_mode at 1. cbn [cipher_info]. rewrite Em.
  rewrite bool_decide_true by done. cbn [negb Z.eqb].
  unfold mbedtls_cipher_setkey, set_paddings. cbn [cipher_info]. rewrite Efl, Ek, Z.eqb_refl, Em, Ebase.
  generalize dependent (32 * Z.of_nat Nk). intros bits Ei Ee Ed Ek.
  assert (exists c, (if op =? MBEDTLS_ENCRYPT then mbedtls_aes_setkey_enc else mbedtls_aes_setkey_dec)
    g mbedtls_aes_init key bits = (aes_init_tables g, c, 0)) as [c Hc]
    by (destruct Hop as [-> | ->]; eexists; [apply Ee|apply Ed]).
  exists c. split; [|done]. clear Ee Ed.
  destruct Hop as [-> | ->]; cbn [Z.eqb MBEDTLS_ENCRYPT MBEDTLS_DECRYPT Pos.eqb] in Hc; simpl;
    unfold aes_setkey_enc_wrap, aes_setkey_dec_wrap, call_setkey; simpl; rewrite Hc, Z.eqb_refl; simpl;
    unfold mbedtls_cipher_set_padding_mode; simpl; rewrite ?Em; simpl; destruct Hpad; simpl;
    unfold mbedtls_cipher_set_iv; simpl; rewrite Efl, Ev, Hv; simpl;
    rewrite (take_ge v), (memcpy_whole _ v) by (simpl; lia);
    reflexivity.
Qed.

Lemma session_ready info bits op add get v c :
  ready c info op (Some add) get v (session_ctx info bits op (Some add) (Some get) v c).
Proof.
  split; [by split|]. split; [|done]. split; [done|]. apply Forall_replicate. apply byte_0.
Qed.

(** C37: CBC through the cipher layer: for every AES key size and each of the
    three reversible paddings, a session opened for encryption that is given a
    message in any pieces writes a ciphertext of the next whole number of
    blocks, and a session opened for decryption with the same key and initial
    vector that is given that ciphertext in any other pieces writes the
    message back, both with status 0. *)
Theorem cbc_stream_roundtrip Nk g pad key v xs :
  key_size Nk -> aes_ready g -> bytes key -> length key = (4 * Nk)%nat -> block v ->
  pad = MBEDTLS_PADDING_PKCS7 \/ pad = MBEDTLS_PADDING_ONE_AND_ZEROS
    \/ pad = MBEDTLS_PADDING_ZEROS_AND_LEN ->
  Forall bytes xs ->
  let '(g1, ce, r1) :=
    open_session g MBEDTLS_MODE_CBC (32 * Z.of_nat Nk) key MBEDTLS_ENCRYPT pad v in
  let '(g2, cd, r2) :=
    open_session g1 MBEDTLS_MODE_CBC (32 * Z.of_nat Nk) key MBEDTLS_DECRYPT pad v in
  r1 = 0 /\ r2 = 0
  /\ exists ct, process (tabs g2) ce xs = (0, ct)
     /\ length ct = (16 * (length (concat xs) / 16 + 1))%nat
     /\ forall ys, concat ys = ct -> process (tabs g2) cd ys = (0, concat xs).
Proof.
  intros HNk Hg Hk Hkl Hv Hpad Hxs.
  assert (exists add get, reversible_padding pad add get) as (add & get & Hp).
  { destruct Hpad as [-> | [-> | ->]]; eexists _, _; constructor. }
  pose proof (reversible_laws pad add get Hp) as HR.
  destruct (init_tables g Hg) as [_ Hg1].
  destruct (aes_type_row MBEDTLS_MODE_CBC Nk HNk (or_introl eq_refl))
    as (info & Ei & Em & _ & _ & _ & Eb & Ebase).
  destruct (open_cbc Nk g pad add get key MBEDTLS_ENCRYPT v info) as (ce & -> & He); auto; [apply Hv|].
  destruct (open_cbc Nk (aes_init_tables g) pad add get key MBEDTLS_DECRYPT v info)
    as (cd & -> & Hd); auto; [apply Hv|].
  pose proof (keyed_pair Nk g _ _ _ _ ce cd key HNk Hg ctx_ok_init ctx_ok_init Hk ltac:(lia) He Hd) as HP.
  split; [done|]. split; [done|].
  destruct (cbc_stream_inverse _ ce cd info add get Em Eb Ebase v xs _ Hv Hxs
    (session_ready info (32 * Z.of_nat Nk) MBEDTLS_ENCRYPT add get v ce))
    as (ct & H1 & H2 & H3).
  exists ct. split; [exact H1|]. split; [done|]. intros ys Hys. apply H3; [done|apply session_ready].
Qed.

(** ** CTR sessions *)

(** Counter mode over a block cipher [E]. *)
Definition ctr_spec (E : list Z -> list Z) (v : Z) (m : list Z) : list Z :=
  imap (fun k c => Z.lxor c (E (be_bytes 16 (v + Z.of_nat (k / 16)))).[Z.of_nat (k mod 16)]) m.

Lemma ctr_xor_spec T c E v k m :
  (forall s, block s -> mbedtls_aes_crypt_ecb T c MBEDTLS_AES_ENCRYPT s = E s) ->
  ctr_xor T c v k m
  = imap (fun i x => Z.lxor x (E (be_bytes 16 (v + Z.of_nat ((k + i) / 16)))).[Z.of_nat ((k + i) mod 16)]) m.
Proof.
  intros HE. revert k. induction m as [|x m IH]; intros k; [done|]. simpl.
  rewrite Nat.add_0_r, IH. unfold ctr_keystream. rewrite HE.
  - f_equal. apply imap_ext. intros i y _. simpl. by rewrite Nat.add_succ_r.
  - split; [apply length_be_bytes|apply bytes_be_bytes].
Qed.

Section CtrFeed.
Context (T : aes_tables) (c : mbedtls_aes_context) (info : mbedtls_cipher_info_t) (v : Z).
Hypotheses (Hmode : mode info = MBEDTLS_MODE_CTR) (Hbs : block_size info = 16%nat)
  (Hbase : base info = aes_info).

(** The context is at position [k] of the key stream. *)
Definition ctr_ctx (k : nat) (ctx : mbedtls_cipher_context_t) : Prop :=
  cipher_info ctx = Some info /\ cipher_ctx ctx = Some (Aes_ctx c)
  /\ ctr_at T c v k (Z.of_nat (unprocessed_len ctx), iv ctx, unprocessed_data ctx).

Lemma update_ctr k ctx x :
  ctr_ctx k ctx -> bytes x ->
  exists ctx', mbedtls_cipher_update T ctx x false = (ctx', 0, ctr_xor T c v k x)
    /\ ctr_ctx (k + length x) ctx'.
Proof.
  intros (Hi & Hc & Hat) Hx. destruct (crypt_ctr_at T c v k _ _ _ x Hat Hx) as ([[n nc] sb] & E & H').
  eexists. unfold mbedtls_cipher_update, mbedtls_cipher_get_block_size.
  rewrite Hi, Hmode, Hbs, Hc, Hbase. cbn [Nat.eqb andb ctr_func aes_info]. unfold aes_crypt_ctr_wrap.
  cbn [as_aes]. rewrite E. split; [done|]. split; [done|]. split; [done|].
  simpl. pose proof (ctr_at_off T c v _ _ H') as Ho. simpl in Ho. by rewrite Z2Nat.id by lia.
Qed.

Lemma feed_ctr k ctx xs :
  ctr_ctx k ctx -> Forall bytes xs ->
  exists ctx', feed T ctx xs = (ctx', 0, ctr_xor T c v k (concat xs))
    /\ ctr_ctx (k + length (concat xs)) ctx'.
Proof.
  intros Hat Hxs. revert k ctx Hat. induction Hxs as [|x xs Hx Hxs IH]; intros k ctx Hat; simpl.
  { exists ctx. by rewrite Nat.add_0_r. }
  destruct (update_ctr k ctx x Hat Hx) as (ctx1 & -> & H1).
  destruct (IH _ _ H1) as (ctx2 & -> & H2). exists ctx2.
  by rewrite ctr_xor_app, length_app, Nat.add_assoc.
Qed.

Lemma process_ctr ctx xs :
  ctr_ctx 0 ctx -> Forall bytes xs -> process T ctx xs = (0, ctr_xor T c v 0 (concat xs)).
Proof.
  intros Hat Hxs. destruct (feed_ctr 0 ctx xs Hat Hxs) as (ctx1 & E & Hi & _).
  unfold process. rewrite E. cbn [negb Z.eqb]. unfold mbedtls_cipher_finish. rewrite Hi, Hmode.
  simpl. by rewrite app_nil_r.
Qed.
End CtrFeed.

Lemma open_ctr Nk g pad key op v info :
  aes_type MBEDTLS_MODE_CTR Nk = Some info ->
  key_size Nk -> aes_ready g -> length key = (4 * Nk)%nat -> length v = 16%nat ->
  exists c,
    open_session g MBEDTLS_MODE_CTR (32 * Z.of_nat Nk) key op pad v
    = (aes_init_tables g, session_ctx info (32 * Z.of_nat Nk) op None None v c, 0)
    /\ mbedtls_aes_setkey_enc g mbedtls_aes_init key (32 * Z.of_nat Nk) = (aes_init_tables g, c, 0).
Proof.
  intros Ei HNk Hg Hk Hv.
  pose proof (setkey_enc_eq Nk g mbedtls_aes_init key HNk Hg ltac:(lia)) as Ee.
  destruct (aes_type_row MBEDTLS_MODE_CTR Nk HNk (or_intror eq_refl))
    as (info' & Ei' & Em & Ek & Ev & Efl & Eb & Ebase).
  rewrite Ei in Ei'. injection Ei' as <-.
  unfold open_session. unfold aes_type in Ei. rewrite Ei. unfold mbedtls_cipher_setup.
  rewrite Ebase. unfold mbedtls_cipher_set_padding_mode at 1. cbn [cipher_info]. rewrite Em.
  rewrite bool_decide_false by done. cbn [negb Z.eqb].
  unfold mbedtls_cipher_setkey. cbn [cipher_info]. rewrite Efl, Ek, Z.eqb_refl, Em, Ebase.
  generalize dependent (32 * Z.of_nat Nk). intros bits Ei Ee Ek.
  set (c := {| nr := _; buf := _ |}) in Ee. exists c. split; [|done].
  rewrite !orb_true_r. simpl. unfold aes_setkey_enc_wrap, call_setkey. simpl. rewrite Ee, Z.eqb_refl. simpl.
  unfold mbedtls_cipher_set_iv. simpl. rewrite Efl, Ev, Hv. simpl.
  rewrite (take_ge v), (memcpy_whole _ v) by (simpl; lia). reflexivity.
Qed.

(** CTR through the cipher layer: for every AES key size, a session
    opened for either direction that is given a message in any pieces writes
    the message xored with the key stream of FIPS-197 AES under that key from
    the counter block [v] on, with status 0 (so a second session restores
    it). *)
Theorem ctr_session_is_ctr Nk g op pad key v xs :
  key_size Nk -> aes_ready g -> bytes key -> length key = (4 * Nk)%nat -> block v -> Forall bytes xs ->
  let '(g1, ctx, ret) := open_session g MBEDTLS_MODE_CTR (32 * Z.of_nat Nk) key op pad v in
  ret = 0
  /\ process (tabs g1) ctx xs = (0, ctr_spec (aes_encrypt Nk key) (be_val v) (concat xs)).
Proof.
  intros HNk Hg Hk Hkl Hv Hxs.
  destruct (aes_type_row MBEDTLS_MODE_CTR Nk HNk (or_intror eq_refl))
    as (info & Ei & Em & _ & _ & _ & Eb & Ebase).
  destruct (open_ctr Nk g pad key op v info) as (c & -> & Hc); auto; [apply Hv|]. split; [done|].
  rewrite (process_ctr _ c info (be_val v)); try done.
  - f_equal. apply ctr_xor_spec. intros s Hs. destruct (init_tables g Hg) as [-> _].
    rewrite (setkey_enc_eq Nk) in Hc by (done || lia). injection Hc as <-.
    exact (setkey_enc_encrypt Nk mbedtls_aes_init key HNk ctx_ok_init Hk ltac:(lia) s Hs).
  - split; [done|]. split; [done|]. by apply ctr_at_start.
Qed.

(** ** Errors *)

Lemma definitions_rows info :
  info ∈ mbedtls_cipher_definitions -> flags info = 0 /\ info_iv_size info = 16%nat /\ block_size info = 16%nat.
Proof. rewrite list_elem_of_In. simpl. intros H. by repeat destruct H as [<- | H]. Qed.

(** ** Witnesses *)

Lemma cbc_stream_roundtrip_witness :
  let '(g1, ce, r1) :=
    open_session aes_globals0 MBEDTLS_MODE_CBC (32 * Z.of_nat 4) (take 16 sample_key) MBEDTLS_ENCRYPT
      MBEDTLS_PADDING_PKCS7 sample_block in
  let '(g2, cd, r2) :=
    open_session g1 MBEDTLS_MODE_CBC (32 * Z.of_nat 4) (take 16 sample_key) MBEDTLS_DECRYPT
      MBEDTLS_PADDING_PKCS7 sample_block in
  r1 = 0 /\ r2 = 0
  /\ exists ct, process (tabs g2) ce [sample_text 5; sample_text 30] = (0, ct)
     /\ length ct = (16 * (length (concat [sample_text 5; sample_text 30]) / 16 + 1))%nat
     /\ forall ys, concat ys = ct ->
        process (tabs g2) cd ys = (0, concat [sample_text 5; sample_text 30]).
Proof.
  apply (cbc_stream_roundtrip 4 aes_globals0 MBEDTLS_PADDING_PKCS7 (take 16 sample_key) sample_block
    [sample_text 5; sample_text 30]);
    [left; reflexivity|left; reflexivity|by_eval|reflexivity|by_eval|left; reflexivity|by_eval].
Defined.

Lemma ctr_session_is_ctr_witness :
  let '(g1, ctx, ret) :=
    open_session aes_globals0 MBEDTLS_MODE_CTR (32 * Z.of_nat 8) sample_key MBEDTLS_DECRYPT
      MBEDTLS_PADDING_NONE sample_block in
  ret = 0
  /\ process (tabs g1) ctx [sample_text 5; []; sample_text 30]
     = (0, ctr_spec (aes_encrypt 8 sample_key) (be_val sample_block)
             (concat [sample_text 5; []; sample_text 30])).
Proof.
  apply (ctr_session_is_ctr 8 aes_globals0 MBEDTLS_DECRYPT MBEDTLS_PADDING_NONE sample_key sample_block
    [sample_text 5; []; sample_text 30]);
    [right; right; reflexivity|left; reflexivity|by_eval|reflexivity|by_eval|by_eval].
Defined.
