(* ===== verification/Cmac.v ===== *)
(** * CMAC (externals/mbedtls/library/cmac.c)

    The emulator authenticates console key blobs with AES-CMAC
    ([CalculateCMAC] of core/crypto/key_manager.cpp calls
    [mbedtls_cipher_cmac]).  Module [Cmac] models cmac.c on top of the cipher
    layer, Module [Rfc4493] is the algorithm of RFC 4493 / SP 800-38B, and the
    theorems say that the code computes it, in one call or in pieces.
    [mbedtls_calloc] succeeds. *)

From S2P Require Import Prelude Octets AesTables AesSpec AesCore AesCorrect AesModes AesModesCorrect.
From S2P Require Import AesStreamCorrect MdStream Padding Cipher CipherCorrect.
Open Scope Z_scope.
Open Scope c_scope.
Import Aes Modes Padding Cipher.

Module Cmac.

Definition MBEDTLS_AES_BLOCK_SIZE : nat := 16.
Definition MBEDTLS_DES3_BLOCK_SIZE : nat := 8.
Definition MBEDTLS_CIPHER_BLKSIZE_MAX : nat := 16.

(** [for( i = blocksize - 1; i >= 0; i-- )]: shift one bit to the left. *)
Fixpoint shift_left_1 (i : nat) (input output : list Z) (overflow : Z) : list Z :=
  match i with
  | O => output
  | S i =>
      let x := input.[Z.of_nat i] in
      shift_left_1 i input (upd output (Z.of_nat i) (to_u8 ((x << 1) .| overflow))) (x >> 7)
  end.

(** [cmac_multiply_by_u]: status and [output]. *)
Definition cmac_multiply_by_u (output input : list Z) (blocksize : nat) : Z * list Z :=
  let finish R_n :=
    let output := shift_left_1 blocksize input output 0 in
    let mask := to_u8 (- (input.[0] >> 7)) in
    let last := Z.of_nat blocksize - 1 in
    (0, upd output last (output.[last] .^ (R_n .& mask))) in
  if (blocksize =? MBEDTLS_AES_BLOCK_SIZE)%nat then finish 0x87
  else if (blocksize =? MBEDTLS_DES3_BLOCK_SIZE)%nat then finish 0x1B
  else (MBEDTLS_ERR_CIPHER_BAD_INPUT_DATA, output).

Definition cmac_xor_block (input1 input2 : list Z) (block_size : nat) : list Z :=
  xor_bytes (take block_size input1) (take block_size input2).

(** [cmac_pad]. *)
Definition cmac_pad (padded_block_len : nat) (last_block : list Z) (last_block_len : nat) : list Z :=
  map (fun j => if (j <? last_block_len)%nat then last_block.[Z.of_nat j]
                else if (j =? last_block_len)%nat then 0x80 else 0x00) (seq 0 padded_block_len).

Definition set_cmac (ctx : mbedtls_cipher_context_t) (m : mbedtls_cmac_context_t)
    : mbedtls_cipher_context_t := {|
  cipher_info := cipher_info ctx; key_bitlen := key_bitlen ctx; operation := operation ctx;
  add_padding := add_padding ctx; get_padding := get_padding ctx;
  unprocessed_data := unprocessed_data ctx; unprocessed_len := unprocessed_len ctx;
  iv := iv ctx; iv_size := iv_size ctx; cipher_ctx := cipher_ctx ctx; cmac_ctx := Some m |}.

Definition cmac0 : mbedtls_cmac_context_t := {|
  cmac_state := replicate MBEDTLS_CIPHER_BLKSIZE_MAX 0;
  unprocessed_block := replicate MBEDTLS_CIPHER_BLKSIZE_MAX 0;
  cmac_unprocessed_len := 0 |}.

(** [mbedtls_cipher_cmac_starts]; the key is not [NULL].  The other cipher the
    [switch] accepts, DES-EDE3, is not in the model's table. *)
Definition mbedtls_cipher_cmac_starts (g : aes_globals) (ctx : mbedtls_cipher_context_t) (key : list Z)
    (keybits : Z) : aes_globals * mbedtls_cipher_context_t * Z :=
  match cipher_info ctx with
  | None => (g, ctx, MBEDTLS_ERR_CIPHER_BAD_INPUT_DATA)
  | Some info =>
      let '(g, ctx, retval) := mbedtls_cipher_setkey g ctx key keybits MBEDTLS_ENCRYPT in
      if negb (retval =? 0) then (g, ctx, retval)
      else
        match type info with
        | MBEDTLS_CIPHER_AES_128_ECB | MBEDTLS_CIPHER_AES_192_ECB | MBEDTLS_CIPHER_AES_256_ECB =>
            (g, set_cmac ctx cmac0, 0)
        | _ => (g, ctx, MBEDTLS_ERR_CIPHER_BAD_INPUT_DATA)
        end
  end.

Section Process.
Context (T : aes_tables).

(** [cmac_generate_subkeys]: status, [K1] and [K2], from zeroed [K1], [K2].
    [cipher_update] leaves the context unchanged in ECB mode. *)
Definition cmac_generate_subkeys (ctx : mbedtls_cipher_context_t) (info : mbedtls_cipher_info_t)
    (K1 K2 : list Z) : Z * list Z * list Z :=
  let bs := block_size info in
  let L := replicate MBEDTLS_CIPHER_BLKSIZE_MAX 0 in
  let '(_, ret, L) := mbedtls_cipher_update T ctx (take bs L) true in
  if negb (ret =? 0) then (ret, K1, K2)
  else
    let '(ret, K1) := cmac_multiply_by_u K1 L bs in
    if negb (ret =? 0) then (ret, K1, K2)
    else let '(ret, K2) := cmac_multiply_by_u K2 K1 bs in (ret, K1, K2).

(** [cmac_xor_block( state, data, state, block_size )] and the encryption of
    [state] in place. *)
Definition cmac_absorb (ctx : mbedtls_cipher_context_t) (m : mbedtls_cmac_context_t) (bs : nat)
    (data : list Z) : mbedtls_cipher_context_t * mbedtls_cmac_context_t * Z :=
  let st := cmac_xor_block data (cmac_state m) bs in
  let upd_state st := {| cmac_state := st; unprocessed_block := unprocessed_block m;
                         cmac_unprocessed_len := cmac_unprocessed_len m |} in
  let '(ctx, ret, out) := mbedtls_cipher_update T ctx st true in
  if negb (ret =? 0) then (ctx, upd_state st, ret) else (ctx, upd_state out, 0).

(** [for( j = 1; j < n; j++ )], with [n - 1] rounds left: also the input that
    is left. *)
Fixpoint cmac_blocks (n : nat) (ctx : mbedtls_cipher_context_t) (m : mbedtls_cmac_context_t) (bs : nat)
    (input : list Z) : mbedtls_cipher_context_t * mbedtls_cmac_context_t * Z * list Z :=
  match n with
  | O => (ctx, m, 0, input)
  | S n =>
      let '(ctx, m, ret) := cmac_absorb ctx m bs input in
      if negb (ret =? 0) then (ctx, m, ret, input) else cmac_blocks n ctx m bs (drop bs input)
  end.

(** [memcpy( &unprocessed_block[unprocessed_len], data, ... )]. *)
Definition cmac_cache (m : mbedtls_cmac_context_t) (data : list Z) (n : nat) : mbedtls_cmac_context_t :=
  {| cmac_state := cmac_state m;
     unprocessed_block := memcpy (unprocessed_block m) (cmac_unprocessed_len m) data;
     cmac_unprocessed_len := n |}.

(** The part of [mbedtls_cipher_cmac_update] after a cached block has been
    completed. *)
Definition cmac_update_rest (ctx : mbedtls_cipher_context_t) (m : mbedtls_cmac_context_t) (bs : nat)
    (input : list Z) : mbedtls_cipher_context_t * Z :=
  let n := ((length input + bs - 1) / bs)%nat in
  let '(ctx, m, ret, input) := cmac_blocks (n - 1) ctx m bs input in
  if negb (ret =? 0) then (set_cmac ctx m, ret)
  else if (0 <? length input)%nat
       then (set_cmac ctx (cmac_cache m input (cmac_unprocessed_len m + length input)), 0)
       else (set_cmac ctx m, 0).

(** [mbedtls_cipher_cmac_update]. *)
Definition mbedtls_cipher_cmac_update (ctx : mbedtls_cipher_context_t) (input : list Z)
    : mbedtls_cipher_context_t * Z :=
  match cipher_info ctx, cmac_ctx ctx with
  | Some info, Some m =>
      let bs := block_size info in
      let ulen := cmac_unprocessed_len m in
      if (0 <? ulen)%nat && (bs - ulen <? length input)%nat then
        let m := cmac_cache m (take (bs - ulen) input) ulen in
        let '(ctx, m, ret) := cmac_absorb ctx m bs (unprocessed_block m) in
        if negb (ret =? 0) then (set_cmac ctx m, ret)
        else
          cmac_update_rest ctx
            {| cmac_state := cmac_state m; unprocessed_block := unprocessed_block m;
               cmac_unprocessed_len := 0 |}
            bs (drop (bs - ulen) input)
      else cmac_update_rest ctx m bs input
  | _, _ => (ctx, MBEDTLS_ERR_CIPHER_BAD_INPUT_DATA)
  end.

(** [mbedtls_cipher_cmac_finish]: context, status and [output]. *)
Definition mbedtls_cipher_cmac_finish (ctx : mbedtls_cipher_context_t)
    : mbedtls_cipher_context_t * Z * list Z :=
  match cipher_info ctx, cmac_ctx ctx with
  | Some info, Some m =>
      let bs := block_size info in
      let zero := replicate MBEDTLS_CIPHER_BLKSIZE_MAX 0 in
      let '(_, K1, K2) := cmac_generate_subkeys ctx info zero zero in
      let M_last :=
        if (cmac_unprocessed_len m <? bs)%nat
        then cmac_xor_block (cmac_pad bs (unprocessed_block m) (cmac_unprocessed_len m)) K2 bs
        else cmac_xor_block (unprocessed_block m) K1 bs in
      let '(ctx, m, ret) := cmac_absorb ctx m bs M_last in
      (set_cmac ctx cmac0, ret, if negb (ret =? 0) then [] else take bs (cmac_state m))
  | _, _ => (ctx, MBEDTLS_ERR_CIPHER_BAD_INPUT_DATA, [])
  end.
End Process.

(** [mbedtls_cipher_cmac_reset]. *)
Definition mbedtls_cipher_cmac_reset (ctx : mbedtls_cipher_context_t) : mbedtls_cipher_context_t * Z :=
  match cipher_info ctx, cmac_ctx ctx with
  | Some _, Some _ => (set_cmac ctx cmac0, 0)
  | _, _ => (ctx, MBEDTLS_ERR_CIPHER_BAD_INPUT_DATA)
  end.

(** [mbedtls_cipher_cmac]: tables, status and [output]. *)
Definition mbedtls_cipher_cmac (g : aes_globals) (info : option mbedtls_cipher_info_t) (key : list Z)
    (keylen : Z) (input : list Z) : aes_globals * Z * list Z :=
  match info with
  | None => (g, MBEDTLS_ERR_CIPHER_BAD_INPUT_DATA, [])
  | Some _ =>
      let '(ctx, ret) := mbedtls_cipher_setup mbedtls_cipher_init info in
      if negb (ret =? 0) then (g, ret, [])
      else
        let '(g, ctx, ret) := mbedtls_cipher_cmac_starts g ctx key keylen in
        if negb (ret =? 0) then (g, ret, [])
        else
          let '(ctx, ret) := mbedtls_cipher_cmac_update (tabs g) ctx input in
          if negb (ret =? 0) then (g, ret, [])
          else let '(_, ret, out) := mbedtls_cipher_cmac_finish (tabs g) ctx in (g, ret, out)
  end.

(** [mbedtls_aes_cmac_prf_128] (RFC 4615). *)
Definition mbedtls_aes_cmac_prf_128 (g : aes_globals) (key input : list Z)
    : aes_globals * Z * list Z :=
  let info := mbedtls_cipher_info_from_type MBEDTLS_CIPHER_AES_128_ECB in
  match info with
  | None => (g, MBEDTLS_ERR_CIPHER_FEATURE_UNAVAILABLE, [])
  | Some _ =>
      let '(g, ret, int_key) :=
        if (length key =? MBEDTLS_AES_BLOCK_SIZE)%nat then (g, 0, key)
        else mbedtls_cipher_cmac g info (replicate MBEDTLS_AES_BLOCK_SIZE 0) 128 key in
      if negb (ret =? 0) then (g, ret, [])
      else mbedtls_cipher_cmac g info int_key 128 input
  end.
End Cmac.

(** ** RFC 4493 *)

Module Rfc4493.
(** Multiplication by [u] of a 128-bit big-endian string. *)
Definition dbl (b : list Z) : list Z :=
  let v := be_val b in
  be_bytes 16 (Z.lxor ((2 * v) mod 2 ^ 128) (if 2 ^ 127 <=? v then 0x87 else 0)).

(** The chaining over [n] blocks. *)
Fixpoint chain (E : list Z -> list Z) (n : nat) (X m : list Z) : list Z :=
  match n with
  | O => X
  | S n => chain E n (E (xor_bytes (take 16 m) X)) (drop 16 m)
  end.

Definition aes_cmac (E : list Z -> list Z) (m : list Z) : list Z :=
  let L := E (replicate 16 0) in
  let K1 := dbl L in
  let K2 := dbl K1 in
  let n := Nat.max 1 ((length m + 15) / 16) in
  let last := drop (16 * (n - 1)) m in
  let M_last :=
    if (length last =? 16)%nat then xor_bytes last K1
    else xor_bytes (last ++ [0x80] ++ replicate (15 - length last) 0) K2 in
  E (xor_bytes M_last (chain E (n - 1) (replicate 16 0) m)).
End Rfc4493.

Import Cmac.

(** ** Subkeys *)

Lemma u8_shl1 x ov : is_byte x -> 0 <= ov <= 1 ->
  to_u8 ((x << 1) .| ov) = (2 * x + ov) mod 256 /\ x >> 7 = (2 * x + ov) / 256.
Proof.
  intros Hx Hov. unfold is_byte in Hx.
  assert ((x << 1) .| ov = 2 * x + ov) as ->.
  { rewrite Z.lor_comm, lor_shiftl_add by lia. change (2 ^ 1) with 2. lia. }
  split; [apply to_u8_mod|]. rewrite Z.shiftr_div_pow2 by lia. zlia.
Qed.

Lemma be_val_single x : be_val [x] = x.
Proof. unfold be_val. simpl. lia. Qed.

Lemma split_nth (l : list Z) n :
  (n < length l)%nat -> exists a x b, l = a ++ x :: b /\ length a = n.
Proof.
  intros H. exists (take n l), (nth n l 0), (drop (S n) l). split; [|rewrite length_take; lia].
  rewrite <- (take_drop n l) at 1. f_equal. apply drop_S.
  destruct (lookup_lt_is_Some_2 l n H) as [y Hy]. by rewrite (nth_lookup_Some _ _ _ _ Hy).
Qed.

(** The loop doubles the value of the part of the buffer it covers. *)
Lemma shift_left_1_val a : forall b out ov,
  bytes a -> length out = length (a ++ b) -> 0 <= ov <= 1 ->
  let r := shift_left_1 (length a) (a ++ b) out ov in
  exists h, r = h ++ drop (length a) out /\ length h = length a /\ bytes h
    /\ be_val h = (2 * be_val a + ov) mod 256 ^ Z.of_nat (length a).
Proof.
  induction a as [|x a IH] using rev_ind; intros b out ov Ha Hl Hov.
  { exists []. by rewrite Z.mod_1_r. }
  apply Forall_app in Ha as [Ha Hx]. apply Forall_cons_1 in Hx as [Hx _].
  rewrite length_app, Nat.add_1_r. cbn [shift_left_1].
  rewrite <- app_assoc. simpl app. rewrite rd_middle.
  destruct (u8_shl1 x ov Hx Hov) as [-> E7]. set (y := (2 * x + ov) mod 256).
  assert (length a < length out)%nat as Hlt by (rewrite Hl, !length_app; simpl; lia).
  destruct (split_nth out (length a) Hlt) as (o1 & z & o2 & -> & Ho1). rewrite <- Ho1, upd_middle, Ho1.
  destruct (IH (x :: b) ((o1 ++ [y]) ++ o2) (x >> 7)) as (h & Er & Hh & Hb & Hv);
    [done| |unfold is_byte in Hx; rewrite Z.shiftr_div_pow2 by lia; zlia|].
  { rewrite !length_app in *. simpl in *. lia. }
  cbv zeta in *. rewrite Er. exists (h ++ [y]).
  assert (is_byte y) as Hy by (unfold is_byte, y; apply Z.mod_pos_bound; lia).
  split; [|split; [|split]].
  - rewrite <- !app_assoc. simpl. rewrite <- Ho1. rewrite drop_app_length.
    rewrite (cons_middle z), (app_assoc o1), drop_app_length'; [done|].
    rewrite length_app. simpl. lia.
  - rewrite length_app. simpl. lia.
  - by apply Forall_app_2; [|constructor].
  - rewrite !be_val_app, Hv, E7, pow256_succ. simpl length. change (256 ^ Z.of_nat 1) with 256.
    rewrite !be_val_single. pose proof (pow256_pos (length a)).
    rewrite Z.rem_mul_r by lia. unfold y. f_equal; [|f_equal].
    + rewrite <- (Z.mod_add (2 * x + ov) (2 * be_val a) 256) by lia. f_equal. ring.
    + rewrite <- Z.div_add_l by lia. f_equal. f_equal. ring.
Qed.

(** Changing the last octet by an exclusive or. *)
Lemma be_val_lxor_last h y k :
  is_byte y -> is_byte k -> be_val (h ++ [Z.lxor y k]) = Z.lxor (be_val (h ++ [y])) k.
Proof.
  intros Hy Hk. rewrite !be_val_app, !be_val_single. simpl length. change (256 ^ Z.of_nat 1) with (2 ^ 8).
  rewrite !(Z.mul_comm (2 ^ 8)), !add_pow2_lxor by (lia || by apply lxor_byte || done).
  by rewrite !Z.lxor_assoc, (Z.lxor_comm k).
Qed.

Lemma top_bit l : block l -> l.[0] >> 7 = if 2 ^ 127 <=? be_val l then 1 else 0.
Proof.
  intros [Hl Hb]. destruct l as [|x l]; [done|]. apply Forall_cons_1 in Hb as [Hx Hb].
  change ((x :: l).[0]) with x. rewrite be_val_cons. simpl in Hl. pose proof (be_val_range l Hb) as Hr.
  replace (length l) with 15%nat in * by lia. change (256 ^ Z.of_nat 15) with (2 ^ 120) in *.
  rewrite Z.shiftr_div_pow2 by lia. unfold is_byte in Hx. destruct (Z.leb_spec (2 ^ 127) (be_val l + 2 ^ 120 * x)); zlia.
Qed.

Lemma multiply_by_u_dbl out input :
  length out = 16%nat -> block input -> cmac_multiply_by_u out input 16 = (0, Rfc4493.dbl input).
Proof.
  intros Ho Hi. pose proof (top_bit input Hi) as Htop. destruct Hi as [Hl Hb].
  unfold cmac_multiply_by_u. cbn [Nat.eqb MBEDTLS_AES_BLOCK_SIZE]. f_equal.
  destruct (shift_left_1_val input [] out 0) as (h & Er & Hh & Hhb & Hv);
    [done|rewrite app_nil_r; lia|lia|].
  cbv zeta in Er. rewrite app_nil_r, Hl, drop_ge, app_nil_r in Er by lia. rewrite Er. clear Er.
  rewrite Hl, Z.add_0_r in Hv. change (256 ^ Z.of_nat 16) with (2 ^ 128) in Hv.
  destruct h as [|y h _] using rev_ind; [simpl in Hh; lia|].
  rewrite length_app in Hh. simpl in Hh. change (Z.of_nat 16 - 1) with 15.
  apply Forall_app in Hhb as [Hhb Hy]. apply Forall_cons_1 in Hy as [Hy _].
  replace 15 with (Z.of_nat (length h)) by lia. rewrite rd_middle, upd_middle, app_nil_r.
  set (k := 0x87 .& to_u8 (- (input.[0] >> 7))).
  assert (k = if 2 ^ 127 <=? be_val input then 0x87 else 0) as Hk.
  { unfold k. rewrite Htop. by destruct (2 ^ 127 <=? be_val input). }
  assert (is_byte k) as Hkb by (rewrite Hk; unfold is_byte; destruct (2 ^ 127 <=? be_val input); lia).
  unfold Rfc4493.dbl. rewrite <- Hv, <- Hk, <- be_val_lxor_last by done.
  replace 16%nat with (length (h ++ [y .^ k])) at 1 by (rewrite length_app; simpl; lia).
  symmetry. apply be_bytes_val, Forall_app_2; [done|]. constructor; [by apply lxor_byte|done].
Qed.

Lemma block_dbl b : block (Rfc4493.dbl b).
Proof. split; [apply length_be_bytes|apply bytes_be_bytes]. Qed.

(** ** The cache *)

Section Mac.
Context (T : aes_tables) (c : mbedtls_aes_context) (info : mbedtls_cipher_info_t).
Hypotheses (Hmode : mode info = MBEDTLS_MODE_ECB) (Hbs : block_size info = 16%nat)
  (Hbase : base info = aes_info).

Abbreviation E := (mbedtls_aes_crypt_ecb T c MBEDTLS_AES_ENCRYPT).

(** The fields of the cipher context that CMAC reads. *)
Definition keyed (ctx : mbedtls_cipher_context_t) : Prop :=
  cipher_info ctx = Some info /\ operation ctx = MBEDTLS_ENCRYPT /\ cipher_ctx ctx = Some (Aes_ctx c).

Lemma update_ecb ctx x ip :
  keyed ctx -> length x = 16%nat -> mbedtls_cipher_update T ctx x ip = (ctx, 0, E x).
Proof.
  intros (Hi & Ho & Hc) Hx. unfold mbedtls_cipher_update, mbedtls_cipher_get_block_size.
  rewrite Hi, Hmode, Hbs, Hx, Hbase, Hc, Ho. done.
Qed.

Definition with_state (m : mbedtls_cmac_context_t) (st : list Z) : mbedtls_cmac_context_t :=
  {| cmac_state := st; unprocessed_block := unprocessed_block m;
     cmac_unprocessed_len := cmac_unprocessed_len m |}.

Lemma absorb_block ctx m data :
  keyed ctx -> length (cmac_state m) = 16%nat -> (16 <= length data)%nat ->
  cmac_absorb T ctx m 16 data = (ctx, with_state m (E (xor_bytes (take 16 data) (cmac_state m))), 0).
Proof.
  intros Hk Hs Hd. unfold cmac_absorb, cmac_xor_block. rewrite (take_ge (cmac_state m)) by lia.
  rewrite update_ecb; [done|done|]. rewrite length_xor_bytes, length_take. lia.
Qed.

(** The chaining of the code is the chaining of the RFC. *)
Lemma blocks_chain n : forall ctx m input,
  keyed ctx -> length (cmac_state m) = 16%nat -> (16 * n <= length input)%nat ->
  cmac_blocks T n ctx m 16 input
  = (ctx, with_state m (Rfc4493.chain E n (cmac_state m) input), 0, drop (16 * n) input)
  /\ length (Rfc4493.chain E n (cmac_state m) input) = 16%nat.
Proof.
  induction n as [|n IH]; intros ctx m input Hk Hs Hn.
  { simpl. by destruct m. }
  cbn [cmac_blocks Rfc4493.chain]. rewrite absorb_block by (done || lia). cbn [negb Z.eqb].
  destruct (IH ctx (with_state m (E (xor_bytes (take 16 input) (cmac_state m)))) (drop 16 input))
    as [-> Hlen]; [done|apply block_crypt_ecb|rewrite length_drop; lia|].
  split; [|done]. simpl cmac_state. rewrite drop_drop. do 3 f_equal. lia.
Qed.

Lemma chain_app n k X x y :
  length x = (16 * n)%nat ->
  Rfc4493.chain E (n + k) X (x ++ y) = Rfc4493.chain E k (Rfc4493.chain E n X x) y.
Proof.
  revert X x. induction n as [|n IH]; intros X x Hx.
  { by apply nil_length_inv in Hx as ->. }
  cbn [Nat.add Rfc4493.chain]. rewrite take_app_le, drop_app_le by lia.
  rewrite IH by (rewrite length_drop; lia). done.
Qed.

(** The context has been given [x]. *)
Definition mac_at (x : list Z) (ctx : mbedtls_cipher_context_t) : Prop :=
  keyed ctx /\ exists m p t k,
    cmac_ctx ctx = Some m /\ x = p ++ t /\ length p = (16 * k)%nat /\ length t = keep true (length x)
    /\ cmac_state m = Rfc4493.chain E k (replicate 16 0) p /\ length (cmac_state m) = 16%nat
    /\ length (unprocessed_block m) = 16%nat
    /\ cmac_unprocessed_len m = length t /\ take (length t) (unprocessed_block m) = t.

(** What is cached after [t] was, and [n] blocks of the input were processed. *)
Lemma cached_keep k t i n :
  (n = (i + 16 - 1) / 16 - 1 -> (t = 0 -> i = 0 -> k = 0) -> (t = 0 \/ t + i <= 16) ->
   t + (i - 16 * n) = keep true (16 * k + (t + i)))%nat.
Proof.
  intros -> H0 Hfit. unfold keep. destruct (Nat.eqb_spec (16 * k + (t + i)) 0); zify; zlia.
Qed.

Lemma chain_take n X x :
  (16 * n <= length x)%nat -> Rfc4493.chain E n X (take (16 * n) x) = Rfc4493.chain E n X x.
Proof.
  intros H. rewrite <- (take_drop (16 * n) x) at 2. rewrite <- (Nat.add_0_r n) at 3.
  rewrite chain_app by (rewrite length_take; lia). done.
Qed.

Lemma update_rest_at p t k ctx m input :
  keyed ctx -> length p = (16 * k)%nat -> cmac_state m = Rfc4493.chain E k (replicate 16 0) p ->
  length (cmac_state m) = 16%nat -> length (unprocessed_block m) = 16%nat ->
  cmac_unprocessed_len m = length t -> take (length t) (unprocessed_block m) = t ->
  (length t = 0 -> length input = 0 -> k = 0)%nat ->
  (length t = 0 \/ length t + length input <= 16)%nat ->
  exists ctx', cmac_update_rest T ctx m 16 input = (ctx', 0) /\ mac_at (p ++ t ++ input) ctx'.
Proof.
  intros Hk Hp Hst Hsl Hul Hu Ht H0 Hfit.
  set (n := ((length input + 16 - 1) / 16 - 1)%nat).
  assert (16 * n <= length input /\ length input - 16 * n <= 16)%nat as [Hle Hr16] by (unfold n; zify; zlia).
  assert (length t = 0 \/ n = 0)%nat as Hn0 by (unfold n; zify; zlia).
  pose proof (cached_keep k (length t) (length input) n eq_refl H0 Hfit) as Hkeep.
  destruct (blocks_chain n ctx m input Hk Hsl Hle) as [Eb Hcl].
  set (r := drop (16 * n) input) in *. set (m' := with_state m _) in Eb.
  assert (length r = length input - 16 * n)%nat as Hr by (unfold r; apply length_drop).
  set (m2 := cmac_cache m' r (length t + length r)).
  exists (set_cmac ctx (if (0 <? length r)%nat then m2 else m')). split.
  { unfold cmac_update_rest. fold n. rewrite Eb. cbn [negb Z.eqb].
    change (cmac_unprocessed_len m') with (cmac_unprocessed_len m). rewrite Hu. fold m2. by case_match. }
  split; [done|]. exists (if (0 <? length r)%nat then m2 else m'), (p ++ take (16 * n) input), (t ++ r), (k + n)%nat.
  assert (length (take (16 * n) input) = 16 * n)%nat as Htl by (rewrite length_take; lia).
  split; [done|]. split.
  { rewrite <- app_assoc. f_equal. destruct Hn0 as [E0|E0].
    - apply nil_length_inv in E0 as ->. simpl. unfold r. by rewrite take_drop.
    - unfold r. by rewrite E0. }
  split; [rewrite length_app; lia|]. split; [rewrite !length_app, Hp; lia|]. split.
  { rewrite chain_app, <- Hst, chain_take by done. by destruct (0 <? length r)%nat. }
  split; [by destruct (0 <? length r)%nat|]. rewrite length_app.
  destruct (Nat.ltb_spec 0 (length r)) as [Hpos|Hzero]; simpl.
  - rewrite Hu. split; [rewrite length_memcpy; lia|]. split; [done|]. rewrite take_memcpy by lia. by rewrite Ht.
  - rewrite (nil_length_inv r) by lia. rewrite app_nil_r, Nat.add_0_r. done.
Qed.

(** [mbedtls_cipher_cmac_update] on a context that has been given [x]. *)
Lemma cmac_update_at x ctx input :
  mac_at x ctx ->
  exists ctx', mbedtls_cipher_cmac_update T ctx input = (ctx', 0) /\ mac_at (x ++ input) ctx'.
Proof.
  intros (Hk & m & p & t & k & Hm & -> & Hp & Ht & Hst & Hsl & Hul & Hu & Htk).
  pose proof Hk as (Hi & _). rewrite length_app in Ht. rewrite <- app_assoc.
  pose proof (keep_bound true (length p + length t)) as (Hk16 & _ & _). rewrite <- Ht in Hk16.
  assert (length t = 0 -> k = 0)%nat as H0.
  { intros E0. unfold keep in Ht. rewrite E0 in Ht.
    destruct (Nat.eqb_spec (length p + 0) 0); [lia|zify; zlia]. }
  unfold mbedtls_cipher_cmac_update. rewrite Hi, Hm, Hbs, Hu.
  destruct (Nat.ltb_spec 0 (length t)) as [Hpos|Hz]; simpl andb; cbv iota.
  2:{ apply (update_rest_at p t k); auto. left. lia. }
  destruct (Nat.ltb_spec (16 - length t) (length input)) as [Hbig|Hsmall].
  2:{ apply (update_rest_at p t k); auto; right; lia. }
  set (d := take (16 - length t) input).
  assert (length d = 16 - length t)%nat as Hd by (unfold d; rewrite length_take; lia).
  set (mc := cmac_cache m d (length t)).
  assert (unprocessed_block mc = t ++ d) as Hub.
  { unfold mc, cmac_cache, memcpy. simpl. rewrite Hu, Htk, Hd, (drop_ge (unprocessed_block m)) by lia.
    by rewrite app_nil_r. }
  assert (length (t ++ d) = 16 * 1)%nat as Htd by (rewrite length_app; lia).
  rewrite Hub, absorb_block by (done || lia). cbn [negb Z.eqb].
  set (m1 := {| cmac_state := _; unprocessed_block := _; cmac_unprocessed_len := 0 |}).
  destruct (update_rest_at (p ++ t ++ d) [] (k + 1) ctx m1 (drop (16 - length t) input)) as (ctx' & E1 & E2);
    try done; [rewrite !length_app in *; lia| |apply block_crypt_ecb|change (length (unprocessed_block mc) = 16%nat); by rewrite Hub|
               rewrite length_drop; lia|by left|].
  { rewrite chain_app, <- Hst by done. reflexivity. }
  exists ctx'. split; [done|]. simpl in E2. rewrite <- !app_assoc in E2. unfold d in E2.
  by rewrite take_drop in E2.
Qed.

Lemma cmac_pad_last ub t :
  length ub = 16%nat -> (length t < 16)%nat -> take (length t) ub = t ->
  cmac_pad 16 ub (length t) = t ++ [0x80] ++ replicate (15 - length t) 0.
Proof.
  intros Hl Ht Htk. rewrite <- Htk at 2. generalize dependent (length t). intros d Ht _.
  do 16 (destruct ub as [|? ub]; [discriminate|]). destruct ub; [|discriminate].
  do 16 (destruct d as [|d]; [reflexivity|]). lia.
Qed.

Lemma subkeys_rfc ctx :
  keyed ctx ->
  cmac_generate_subkeys T ctx info (replicate 16 0) (replicate 16 0)
  = (0, Rfc4493.dbl (E (replicate 16 0)), Rfc4493.dbl (Rfc4493.dbl (E (replicate 16 0)))).
Proof.
  intros Hk. unfold cmac_generate_subkeys. rewrite Hbs. change (take 16 _) with (replicate 16 0).
  rewrite update_ecb by done. cbn [negb Z.eqb].
  rewrite multiply_by_u_dbl by (done || apply block_crypt_ecb). cbn [negb Z.eqb].
  by rewrite multiply_by_u_dbl by (done || apply block_dbl).
Qed.

(** [finish] writes the MAC of the message and prepares for the next one. *)
Lemma cmac_finish_at x ctx :
  mac_at x ctx ->
  exists ctx', mbedtls_cipher_cmac_finish T ctx = (ctx', 0, Rfc4493.aes_cmac E x) /\ mac_at [] ctx'.
Proof.
  intros (Hk & m & p & t & k & Hm & Hx & Hp & Ht & Hst & Hsl & Hul & Hu & Htk).
  pose proof Hk as (Hi & _). exists (set_cmac ctx cmac0). split.
  2:{ split; [done|]. exists cmac0, [], [], 0%nat. done. }
  pose proof (keep_bound true (length x)) as (Hk16 & _ & _). rewrite <- Ht in Hk16.
  assert (Nat.max 1 ((length x + 15) / 16) - 1 = k)%nat as Hn.
  { rewrite Hx, length_app, Hp in Ht |- *. unfold keep in Ht.
    destruct (Nat.eqb_spec (16 * k + length t) 0); zify; zlia. }
  unfold mbedtls_cipher_cmac_finish, Rfc4493.aes_cmac. rewrite Hi, Hm, Hbs, Hn.
  unfold MBEDTLS_CIPHER_BLKSIZE_MAX. rewrite subkeys_rfc, Hu by done.
  assert (drop (16 * k) x = t) as -> by (rewrite Hx; by apply drop_app_length').
  cbv zeta.
  assert (Rfc4493.chain E k (replicate 16 0) x = cmac_state m) as ->.
  { rewrite Hx, <- (Nat.add_0_r k), chain_app, <- Hst by done. done. }
  set (K1 := Rfc4493.dbl (E (replicate 16 0))). set (K2 := Rfc4493.dbl K1).
  assert (length K1 = 16 /\ length K2 = 16)%nat as [HK1 HK2] by (split; apply block_dbl).
  set (Mc := if (length t <? 16)%nat then _ else _). set (Ms := if (length t =? 16)%nat then _ else _).
  assert (Mc = Ms) as ->.
  { unfold Mc, Ms, cmac_xor_block.
    destruct (Nat.ltb_spec (length t) 16), (Nat.eqb_spec (length t) 16); try lia.
    - rewrite cmac_pad_last, !take_ge by (rewrite ?length_app, ?length_replicate; simpl; lia || done). done.
    - rewrite (take_ge K1) by lia. replace 16%nat with (length t) at 1 by lia. by rewrite Htk. }
  assert (length Ms = 16%nat) as HM.
  { unfold Ms. destruct (Nat.eqb_spec (length t) 16); rewrite length_xor_bytes; [lia|].
    rewrite !length_app, length_replicate. simpl. lia. }
  rewrite absorb_block by (done || lia). cbn [negb Z.eqb]. simpl cmac_state.
  rewrite (take_ge Ms) by lia. by rewrite take_ge by (rewrite (proj1 (block_crypt_ecb _ _ _ _)); lia).
Qed.
End Mac.

(** ** The MAC of a key *)

Lemma chain_ext E E' n X m :
  (forall s, block s -> E s = E' s) -> (forall s, block s -> block (E s)) ->
  block X -> bytes m -> (16 * n <= length m)%nat ->
  Rfc4493.chain E n X m = Rfc4493.chain E' n X m /\ block (Rfc4493.chain E n X m).
Proof.
  intros HE Hb. revert X m. induction n as [|n IH]; intros X m HX Hm Hn; [done|]. cbn [Rfc4493.chain].
  assert (block (xor_bytes (take 16 m) X)) as Hx.
  { apply block_xor; [|done]. split; [rewrite length_take; lia|by apply Forall_take]. }
  rewrite <- HE by done. apply IH; [by apply Hb|by apply Forall_drop|rewrite length_drop; lia].
Qed.

(** The specification depends on the cipher only through its blocks. *)
Lemma aes_cmac_ext E E' m :
  (forall s, block s -> E s = E' s) -> (forall s, block s -> block (E s)) -> bytes m ->
  Rfc4493.aes_cmac E m = Rfc4493.aes_cmac E' m.
Proof.
  intros HE Hb Hm. assert (block (replicate 16 0)) as H0
    by (split; [done|apply Forall_replicate, byte_0]).
  unfold Rfc4493.aes_cmac. cbv zeta. rewrite <- (HE (replicate 16 0)) by done.
  set (n := (Nat.max 1 ((length m + 15) / 16) - 1)%nat).
  assert (16 * n <= length m /\ length m - 16 * n <= 16)%nat as [Hn Hl] by (unfold n; zify; zlia).
  destruct (chain_ext E E' n (replicate 16 0) m) as [<- Hch]; try done.
  set (K1 := Rfc4493.dbl _). apply HE, block_xor; [|done].
  assert (bytes (drop (16 * n) m)) as Hd by by apply Forall_drop.
  destruct (Nat.eqb_spec (length (drop (16 * n) m)) 16) as [E16|E16].
  - apply block_xor; [by split|apply block_dbl].
  - rewrite length_drop in E16. apply block_xor; [|apply block_dbl]. split.
    + rewrite !length_app, length_replicate, length_drop. simpl. lia.
    + repeat apply Forall_app_2; [done| |apply Forall_replicate, byte_0].
      constructor; [unfold is_byte; lia|done].
Qed.

(** A caller that sets up a context for CMAC, and passes pieces to it. *)
Definition cmac_open (g : aes_globals) (info : option mbedtls_cipher_info_t) (key : list Z) (bits : Z)
    : aes_globals * mbedtls_cipher_context_t * Z :=
  let '(ctx, ret) := mbedtls_cipher_setup mbedtls_cipher_init info in
  if negb (ret =? 0) then (g, ctx, ret) else mbedtls_cipher_cmac_starts g ctx key bits.

Fixpoint cmac_updates (T : aes_tables) (ctx : mbedtls_cipher_context_t) (chunks : list (list Z))
    : mbedtls_cipher_context_t * Z :=
  match chunks with
  | [] => (ctx, 0)
  | x :: chunks =>
      let '(ctx, ret) := mbedtls_cipher_cmac_update T ctx x in
      if negb (ret =? 0) then (ctx, ret) else cmac_updates T ctx chunks
  end.

Lemma cmac_updates_at T c info x ctx xs :
  mode info = MBEDTLS_MODE_ECB -> block_size info = 16%nat -> base info = aes_info ->
  mac_at T c info x ctx ->
  exists ctx', cmac_updates T ctx xs = (ctx', 0) /\ mac_at T c info (x ++ concat xs) ctx'.
Proof.
  intros Hm Hb Hba. revert x ctx. induction xs as [|y xs IH]; intros x ctx Hat; simpl.
  { exists ctx. by rewrite app_nil_r. }
  destruct (cmac_update_at T c info Hm Hb Hba x ctx y Hat) as (ctx1 & -> & H1).
  rewrite app_assoc. by apply IH.
Qed.

Lemma cmac_open_at Nk g key :
  key_size Nk -> aes_ready g -> bytes key -> length key = (4 * Nk)%nat ->
  exists info ctx c,
    aes_type MBEDTLS_MODE_ECB Nk = Some info
    /\ mode info = MBEDTLS_MODE_ECB /\ block_size info = 16%nat /\ base info = aes_info
    /\ cmac_open g (Some info) key (32 * Z.of_nat Nk) = (aes_init_tables g, ctx, 0)
    /\ mac_at (tabs (aes_init_tables g)) c info [] ctx
    /\ (forall s, block s ->
          mbedtls_aes_crypt_ecb (tabs (aes_init_tables g)) c MBEDTLS_AES_ENCRYPT s = aes_encrypt Nk key s).
Proof.
  intros HNk Hg Hk Hl.
  assert (exists info, aes_type MBEDTLS_MODE_ECB Nk = Some info /\ mode info = MBEDTLS_MODE_ECB
    /\ info_key_bitlen info = 32 * Z.of_nat Nk /\ flags info = 0 /\ block_size info = 16%nat
    /\ base info = aes_info
    /\ (type info = MBEDTLS_CIPHER_AES_128_ECB \/ type info = MBEDTLS_CIPHER_AES_192_ECB
        \/ type info = MBEDTLS_CIPHER_AES_256_ECB))
    as (info & Ei & Em & Ek & Ef & Eb & Eba & Et).
  { destruct HNk as [-> | [-> | ->]]; eexists; repeat split; auto. }
  pose proof (setkey_enc_eq Nk g mbedtls_aes_init key HNk Hg ltac:(lia)) as Ee.
  pose proof (setkey_enc_encrypt Nk mbedtls_aes_init key HNk ctx_ok_init Hk ltac:(lia)) as Hspec.
  set (c := {| nr := _; buf := _ |}) in *. clearbody c.
  set (bits := 32 * Z.of_nat Nk) in *. clearbody bits.
  exists info. eexists _, c. do 4 (split; [done|]). split; [|split].
  - unfold cmac_open, mbedtls_cipher_setup, mbedtls_cipher_set_padding_mode. cbn [cipher_info].
    rewrite Em, bool_decide_false by done. cbn [negb Z.eqb].
    unfold mbedtls_cipher_cmac_starts, mbedtls_cipher_setkey. cbn [cipher_info].
    rewrite Ef, Ek, Em, Eba, Z.eqb_refl. unfold call_setkey. simpl. unfold aes_setkey_enc_wrap. simpl.
    rewrite Ee, Z.eqb_refl. simpl.
    destruct Et as [-> | [-> | ->]]; reflexivity.
  - split; [done|]. exists cmac0, [], [], 0%nat. done.
  - intros s Hs. destruct (init_tables g Hg) as [-> _]. exact (Hspec s Hs).
Qed.

(** ** Theorems *)

(** C40: AES-CMAC is RFC 4493 over FIPS-197 AES: for every key size, the
    one-call function and a context that is given the message in any pieces
    both return status 0 and the MAC of the message; after [finish] the same
    context computes the MAC of a second message, without a reset. *)
Theorem cmac_is_rfc4493 Nk g key xs ys :
  key_size Nk -> aes_ready g -> bytes key -> length key = (4 * Nk)%nat ->
  Forall bytes xs -> Forall bytes ys ->
  let info := aes_type MBEDTLS_MODE_ECB Nk in
  let mac := Rfc4493.aes_cmac (aes_encrypt Nk key) in
  let '(g1, ctx, ret) := cmac_open g info key (32 * Z.of_nat Nk) in
  ret = 0
  /\ mbedtls_cipher_cmac g info key (32 * Z.of_nat Nk) (concat xs) = (g1, 0, mac (concat xs))
  /\ exists c1 c2 c3 c4,
       cmac_updates (tabs g1) ctx xs = (c1, 0)
       /\ mbedtls_cipher_cmac_finish (tabs g1) c1 = (c2, 0, mac (concat xs))
       /\ cmac_updates (tabs g1) c2 ys = (c3, 0)
       /\ mbedtls_cipher_cmac_finish (tabs g1) c3 = (c4, 0, mac (concat ys)).
Proof.
  intros HNk Hg Hk Hl Hxs Hys info mac.
  destruct (cmac_open_at Nk g key HNk Hg Hk Hl) as (i & ctx & c & Ei & Em & Eb & Eba & Eo & Hat & HE).
  unfold info. rewrite Ei, Eo. split; [done|]. set (T := tabs (aes_init_tables g)) in *.
  assert (forall x, bytes x -> Rfc4493.aes_cmac (mbedtls_aes_crypt_ecb T c MBEDTLS_AES_ENCRYPT) x = mac x) as Hmac.
  { intros x Hx. apply aes_cmac_ext; [done|intros; apply block_crypt_ecb|done]. }
  pose proof (bytes_concat xs Hxs) as Hbx. pose proof (bytes_concat ys Hys) as Hby. split.
  - unfold mbedtls_cipher_cmac, cmac_open in *.
    destruct (mbedtls_cipher_setup mbedtls_cipher_init (Some i)) as [c0 r0].
    destruct (negb (r0 =? 0)) eqn:Er; [injection Eo as _ _ ->; discriminate|].
    rewrite Eo. cbn [negb Z.eqb]. fold T.
    destruct (cmac_update_at T c i Em Eb Eba [] ctx (concat xs) Hat) as (c1 & -> & H1). cbn [negb Z.eqb].
    destruct (cmac_finish_at T c i Em Eb Eba _ c1 H1) as (c2 & -> & _). simpl. by rewrite Hmac.
  - destruct (cmac_updates_at T c i [] ctx xs Em Eb Eba Hat) as (c1 & E1 & H1).
    destruct (cmac_finish_at T c i Em Eb Eba _ c1 H1) as (c2 & E2 & H2).
    destruct (cmac_updates_at T c i [] c2 ys Em Eb Eba H2) as (c3 & E3 & H3).
    destruct (cmac_finish_at T c i Em Eb Eba _ c3 H3) as (c4 & E4 & _).
    simpl in E2, E4. rewrite Hmac in E2, E4 by done. by exists c1, c2, c3, c4.
Qed.

(** [cmac_multiply_by_u] on an AES block doubles it in GF(2^128): the
    128-bit big-endian value is shifted left by one, and reduced by [0x87] when
    the top bit was set. *)
Theorem cmac_multiply_by_u_value out input :
  length out = 16%nat -> block input ->
  let '(ret, r) := cmac_multiply_by_u out input 16 in
  ret = 0 /\ block r
  /\ be_val r = Z.lxor ((2 * be_val input) mod 2 ^ 128) (if 2 ^ 127 <=? be_val input then 0x87 else 0).
Proof.
  intros Ho Hi. rewrite multiply_by_u_dbl by done. split; [done|]. split; [apply block_dbl|].
  unfold Rfc4493.dbl. rewrite be_val_bytes. apply Z.mod_small. change (256 ^ Z.of_nat 16) with (2 ^ 128).
  apply lxor_range; [lia|apply Z.mod_pos_bound; lia|].
  by destruct (2 ^ 127 <=? be_val input).
Qed.

(** The first two examples of RFC 4493, section 4. *)
Definition rfc4493_key : list Z :=
  [0x2b; 0x7e; 0x15; 0x16; 0x28; 0xae; 0xd2; 0xa6; 0xab; 0xf7; 0x15; 0x88; 0x09; 0xcf; 0x4f; 0x3c].
Definition rfc4493_msg : list Z :=
  [0x6b; 0xc1; 0xbe; 0xe2; 0x2e; 0x40; 0x9f; 0x96; 0xe9; 0x3d; 0x7e; 0x11; 0x73; 0x93; 0x17; 0x2a].

Example rfc4493_examples :
  map (fun m => snd (mbedtls_cipher_cmac aes_globals0 (Some aes_128_ecb_info) rfc4493_key 128 m))
    [[]; rfc4493_msg]
  = [[0xbb; 0x1d; 0x69; 0x29; 0xe9; 0x59; 0x37; 0x28; 0x7f; 0xa3; 0x7d; 0x12; 0x9b; 0x75; 0x67; 0x46];
     [0x07; 0x0a; 0x16; 0xb4; 0x6b; 0x4d; 0x41; 0x44; 0xf7; 0x9b; 0xdd; 0x9d; 0xd0; 0x4a; 0x28; 0x7c]].
Proof. vm_compute. reflexivity. Qed.

(** ** Witnesses *)

Lemma cmac_is_rfc4493_witness :
  let info := aes_type MBEDTLS_MODE_ECB 4 in
  let mac := Rfc4493.aes_cmac (aes_encrypt 4 rfc4493_key) in
  let '(g1, ctx, ret) := cmac_open aes_globals0 info rfc4493_key (32 * Z.of_nat 4) in
  ret = 0
  /\ mbedtls_cipher_cmac aes_globals0 info rfc4493_key (32 * Z.of_nat 4) (concat [sample_text 5; sample_text 30])
     = (g1, 0, mac (concat [sample_text 5; sample_text 30]))
  /\ exists c1 c2 c3 c4,
       cmac_updates (tabs g1) ctx [sample_text 5; sample_text 30] = (c1, 0)
       /\ mbedtls_cipher_cmac_finish (tabs g1) c1 = (c2, 0, mac (concat [sample_text 5; sample_text 30]))
       /\ cmac_updates (tabs g1) c2 [rfc4493_msg] = (c3, 0)
       /\ mbedtls_cipher_cmac_finish (tabs g1) c3 = (c4, 0, mac (concat [rfc4493_msg])).
Proof.
  apply (cmac_is_rfc4493 4 aes_globals0 rfc4493_key [sample_text 5; sample_text 30] [rfc4493_msg]);
    [left; reflexivity|left; reflexivity|by_eval|reflexivity|by_eval|by_eval].
Defined.

Lemma cmac_multiply_by_u_value_witness :
  let '(ret, r) := cmac_multiply_by_u (replicate 16 0) (0x80 :: replicate 15 0) 16 in
  ret = 0 /\ block r
  /\ be_val r = Z.lxor ((2 * be_val (0x80 :: replicate 15 0)) mod 2 ^ 128)
                  (if 2 ^ 127 <=? be_val (0x80 :: replicate 15 0) then 0x87 else 0).
Proof.
  apply (cmac_multiply_by_u_value (replicate 16 0) (0x80 :: replicate 15 0)); [reflexivity|by_eval].
Defined.
