(* ===== verification/Vfs.v ===== *)
(** * Virtual files (core/file_sys/vfs.cpp, vfs_vector.cpp, vfs_offset.cpp)

    The encryption layers of the emulator sit on virtual files.  [VfsFile] is
    the interface class; [Read] takes the destination buffer and returns the
    file (layers with a cipher change their state), the buffer and the count.
    [Contents] is what an implementation promises to the layers above it:
    [Trimming] files return the part of a request that lies in the file,
    [Exact] files serve every request that lies in the file.  Offsets and
    lengths are [size_t] values, kept in [[0, 2^64)]. *)

From S2P Require Import Prelude Octets MdStream.
Open Scope Z_scope.
Open Scope c_scope.

(** A buffer after [memcpy( data, src, length src )]. *)
Definition store (data src : list Z) : list Z := src ++ drop (length src) data.

(** [std::vector::resize]. *)
Definition resize (l : list Z) (n : nat) : list Z := take n l ++ replicate (n - length l) 0.

Class VfsFile (F : Type) := {
  GetSize : F -> Z;
  Read : F -> list Z -> Z -> Z -> F * list Z * Z
}.

Section Generic.
Context {F : Type} `{VfsFile F}.

(** [VfsFile::ReadByte], [ReadBytes] and [ReadAllBytes]. *)
Definition ReadByte (f : F) (offset : Z) : F * option Z :=
  let '(f, out, size) := Read f [0] 1 offset in
  (f, if size =? 1 then Some (out.[0]) else None).
Definition ReadBytes (f : F) (size offset : Z) : F * list Z :=
  let '(f, out, read_size) := Read f (replicate (Z.to_nat size) 0) size offset in
  (f, resize out (Z.to_nat read_size)).
Definition ReadAllBytes (f : F) : F * list Z := ReadBytes f (GetSize f) 0.
End Generic.

(** ** VectorVfsFile *)

Module VectorVfs.
Record VectorVfsFile := { data : list Z }.

(** [read] octets from [offset] on; octets that do not exist (an offset past
    the end makes [data.size() - offset] wrap around) are not copied here. *)
Definition Read (f : VectorVfsFile) (data_ : list Z) (length_ offset : Z) : VectorVfsFile * list Z * Z :=
  let read := Z.min length_ (to_u64 (Z.of_nat (length (data f)) - offset)) in
  (f, store data_ (take (Z.to_nat read) (drop (Z.to_nat offset) (data f))), read).

Definition Resize (f : VectorVfsFile) (new_size : Z) : VectorVfsFile * bool :=
  ({| data := resize (data f) (Z.to_nat new_size) |}, true).

Definition Write (f : VectorVfsFile) (data_ : list Z) (length_ offset : Z) : VectorVfsFile * Z :=
  let d := if Z.of_nat (length (data f)) <? to_u64 (offset + length_)
           then resize (data f) (Z.to_nat (to_u64 (offset + length_))) else data f in
  let write := Z.min length_ (to_u64 (Z.of_nat (length d) - offset)) in
  ({| data := memcpy d (Z.to_nat offset) (take (Z.to_nat write) data_) |}, write).

Definition Assign (f : VectorVfsFile) (new_data : list Z) : VectorVfsFile := {| data := new_data |}.
End VectorVfs.

#[export] Instance vector_vfs : VfsFile VectorVfs.VectorVfsFile := {
  GetSize f := Z.of_nat (length (VectorVfs.data f));
  Read := VectorVfs.Read
}.

(** ** OffsetVfsFile *)

Module OffsetVfs.
Section Offset.
Context {F : Type} `{VfsFile F}.

Record OffsetVfsFile := { file : F; offset : Z; size : Z }.

Definition set_file (o : OffsetVfsFile) (f : F) : OffsetVfsFile :=
  {| file := f; offset := offset o; size := size o |}.

(** [std::clamp( r_size, 0, size - r_offset )] on [size_t]. *)
Definition TrimToFit (o : OffsetVfsFile) (r_size r_offset : Z) : Z :=
  Z.min r_size (to_u64 (size o - r_offset)).

Definition Read (o : OffsetVfsFile) (data : list Z) (length r_offset : Z) : OffsetVfsFile * list Z * Z :=
  let '(f, out, n) :=
    Vfs.Read (file o) data (TrimToFit o length r_offset) (to_u64 (offset o + r_offset)) in
  (set_file o f, out, n).

(** The overrides of [ReadByte], [ReadBytes] and [ReadAllBytes]. *)
Definition ReadByte (o : OffsetVfsFile) (r_offset : Z) : OffsetVfsFile * option Z :=
  if r_offset <? size o then
    let '(f, b) := Vfs.ReadByte (file o) (to_u64 (offset o + r_offset)) in (set_file o f, b)
  else (o, None).
Definition ReadBytes (o : OffsetVfsFile) (r_size r_offset : Z) : OffsetVfsFile * list Z :=
  let '(f, b) := Vfs.ReadBytes (file o) (TrimToFit o r_size r_offset) (to_u64 (offset o + r_offset)) in
  (set_file o f, b).
Definition ReadAllBytes (o : OffsetVfsFile) : OffsetVfsFile * list Z :=
  let '(f, b) := Vfs.ReadBytes (file o) (size o) (offset o) in (set_file o f, b).

End Offset.
Arguments OffsetVfsFile F : clear implicits.
End OffsetVfs.

#[export] Instance offset_vfs F `{VfsFile F} : VfsFile (OffsetVfs.OffsetVfsFile F) := {
  GetSize := OffsetVfs.size;
  Read := OffsetVfs.Read
}.

(** ** Contracts *)

(** The octets [[offset, offset + n)] of a file. *)
Definition part (c : list Z) (offset n : Z) : list Z := take (Z.to_nat n) (drop (Z.to_nat offset) c).

Lemma length_part c offset n :
  0 <= offset -> 0 <= n -> offset + n <= Z.of_nat (length c) -> length (part c offset n) = Z.to_nat n.
Proof. intros. unfold part. rewrite length_take, length_drop. lia. Qed.

(** [good f c]: the file is in a state in which it holds [c]. *)
Class Trimming (F : Type) `{VfsFile F} (good : F -> list Z -> Prop) : Prop := {
  trim_size f c : good f c -> GetSize f = Z.of_nat (length c) /\ Z.of_nat (length c) < 2 ^ 64;
  trim_read f c data len offset :
    good f c -> 0 <= len < 2 ^ 64 -> (Z.to_nat len <= length data)%nat ->
    0 <= offset <= Z.of_nat (length c) ->
    let n := Z.min len (Z.of_nat (length c) - offset) in
    exists f', Read f data len offset = (f', store data (part c offset n), n) /\ good f' c
}.

Class Exact (F : Type) `{VfsFile F} (good : F -> list Z -> Prop) : Prop := {
  exact_size f c : good f c -> GetSize f = Z.of_nat (length c) /\ Z.of_nat (length c) < 2 ^ 64;
  exact_read f c data len offset :
    good f c -> 0 <= len < 2 ^ 64 -> (Z.to_nat len <= length data)%nat ->
    0 <= offset -> offset + len <= Z.of_nat (length c) ->
    exists f', Read f data len offset = (f', store data (part c offset len), len) /\ good f' c
}.

#[export] Instance trimming_exact F `{VfsFile F} good : Trimming F good -> Exact F good.
Proof.
  intros HT. split; [apply trim_size|]. intros f c data len offset Hg Hl Hd Ho Hi.
  destruct (trim_read f c data len offset Hg Hl Hd) as (f' & E & Hg'); [lia|].
  rewrite Z.min_l in E by lia. by exists f'.
Qed.

(** [ReadBytes] of the two kinds of file. *)
Lemma store_zeros n (src : list Z) : length src = n -> store (replicate n 0) src = src.
Proof. intros <-. unfold store. rewrite drop_ge by (by rewrite length_replicate). apply app_nil_r. Qed.

Lemma resize_store n (src : list Z) :
  (length src <= n)%nat -> resize (store (replicate n 0) src) (length src) = src.
Proof.
  intros H. unfold resize, store. rewrite take_app_length.
  rewrite length_app, length_drop, length_replicate.
  replace (length src - _)%nat with 0%nat by lia. apply app_nil_r.
Qed.

Lemma trim_read_bytes {F} `{HT : Trimming F good} f c len offset :
  good f c -> 0 <= len < 2 ^ 64 -> 0 <= offset <= Z.of_nat (length c) ->
  exists f', ReadBytes f len offset
    = (f', part c offset (Z.min len (Z.of_nat (length c) - offset))) /\ good f' c.
Proof.
  intros Hg Hl Ho. unfold ReadBytes.
  destruct (trim_read f c (replicate (Z.to_nat len) 0) len offset Hg Hl) as (f' & -> & Hg');
    [by rewrite length_replicate|done|].
  exists f'. split; [|done]. f_equal. set (n := Z.min _ _).
  assert (length (part c offset n) = Z.to_nat n) as Hp by (apply length_part; lia).
  rewrite <- Hp. apply resize_store. lia.
Qed.

Lemma part_part c a n b m :
  0 <= a -> 0 <= b -> 0 <= m -> b + m <= n -> part (part c a n) b m = part c (a + b) m.
Proof.
  intros. unfold part. rewrite skipn_firstn_comm, take_take, drop_drop. f_equal; [lia|]. f_equal. lia.
Qed.

(** A buffer written in two parts. *)
Lemma store_part (data a b : list Z) n :
  length a = n -> take n (store data a) ++ store (drop n (store data a)) b = store data (a ++ b).
Proof.
  intros <-. unfold store. rewrite take_app_length, drop_app_length, drop_drop, length_app, <- app_assoc. done.
Qed.

Lemma length_drop_store (data a : list Z) n : length a = n -> length (drop n (store data a)) = (length data - n)%nat.
Proof. intros <-. unfold store. by rewrite drop_app_length, length_drop. Qed.

Lemma part_app c off a b :
  0 <= off -> 0 <= a -> 0 <= b -> part c off a ++ part c (off + a) b = part c off (a + b).
Proof.
  intros. unfold part. rewrite !Z2Nat.inj_add, <- drop_drop by lia.
  by rewrite take_take_drop.
Qed.

Lemma part_middle (r1 ci r2 : list Z) a n : 0 <= a -> 0 <= n -> a + n <= Z.of_nat (length ci) ->
  part (r1 ++ ci ++ r2) (Z.of_nat (length r1) + a) n = part ci a n.
Proof.
  intros Ha Hn Hl. unfold part. rewrite Z2Nat.inj_add, Nat2Z.id, drop_app_add by lia. rewrite drop_app_le by lia.
  rewrite take_app_le; [done|]. rewrite length_drop. lia.
Qed.

Lemma part_exact (a b c : list Z) o n : o = Z.of_nat (length a) -> n = Z.of_nat (length b) -> part (a ++ b ++ c) o n = b.
Proof. intros -> ->. unfold part. rewrite !Nat2Z.id, drop_app_length. apply take_app_length. Qed.

(** A vector holds its data; a window on a file holds the window. *)
Definition vector_good (f : VectorVfs.VectorVfsFile) (c : list Z) : Prop :=
  VectorVfs.data f = c /\ Z.of_nat (length c) < 2 ^ 64.

#[export] Instance vector_trimming : Trimming VectorVfs.VectorVfsFile vector_good.
Proof.
  split; [intros f c [<- Hc]; done|]. intros f c data len offset [<- Hc] Hl Hd Ho n.
  exists f. split; [|done]. simpl. unfold VectorVfs.Read.
  rewrite to_u64_id by (unfold is_u64; lia). done.
Qed.

Definition offset_good {F} (good : F -> list Z -> Prop) (o : OffsetVfs.OffsetVfsFile F) (c : list Z) : Prop :=
  exists c0, good (OffsetVfs.file o) c0 /\ 0 <= OffsetVfs.offset o /\ 0 <= OffsetVfs.size o
    /\ OffsetVfs.offset o + OffsetVfs.size o <= Z.of_nat (length c0)
    /\ c = part c0 (OffsetVfs.offset o) (OffsetVfs.size o).

#[export] Instance offset_trimming F `{HT : Trimming F good} :
  Trimming (OffsetVfs.OffsetVfsFile F) (offset_good good).
Proof.
  split.
  - intros o c (c0 & Hg & Ho & Hs & Hi & ->). rewrite length_part by lia.
    destruct (trim_size _ _ Hg). simpl. lia.
  - intros o c data len r (c0 & Hg & Ho & Hs & Hi & ->) Hl Hd Hr n.
    unfold n. clear n. rewrite length_part in Hr |- * by lia. rewrite Z2Nat.id in Hr |- * by lia.
    destruct (trim_size _ _ Hg) as [_ H64].
    simpl. unfold OffsetVfs.Read, OffsetVfs.TrimToFit. rewrite !to_u64_id by (unfold is_u64; lia).
    destruct (trim_read (OffsetVfs.file o) c0 data (Z.min len (OffsetVfs.size o - r))
      (OffsetVfs.offset o + r) Hg) as (f' & -> & Hg'); [lia..|].
    exists (OffsetVfs.set_file o f'). split.
    + rewrite part_part by lia. by rewrite (Z.min_l (Z.min _ _)) by lia.
    + by exists c0.
Qed.
