(* ===== verification/AesUtil.v ===== *)
(** * The emulator's AES wrapper (core/crypto/aes_util.cpp, aes_util.h)

    [AESCipher] keeps an encryption and a decryption context of the cipher
    layer for one key.  [Transcode] runs a buffer through one of them block by
    block, falling back to a zero-padded block where the cipher layer refuses
    an incomplete one; [XTSTranscode] runs whole sectors, with the sector
    number as the tweak.  A function that can trip an [ASSERT] also returns
    whether every assertion held.  Whether [src] and [dest] are the same
    buffer is the argument [inplace]; in that case [dest = src]. *)

From S2P Require Import Prelude Octets AesTables AesSpec AesCore AesCorrect AesModes AesModesCorrect.
From S2P Require Import AesStreamCorrect MdStream Padding Cipher CipherCorrect Vfs.
Open Scope Z_scope.
Open Scope c_scope.
Import Aes Modes Cipher.

Module AesUtil.

(** [CalculateNintendoTweak]: 16 octets, the least significant last. *)
Fixpoint tweak_loop (n : nat) (i sector_id : Z) (out : list Z) : list Z :=
  match n with
  | O => out
  | S n => tweak_loop n (i - 1) (sector_id >> 8) (upd out i (sector_id .& 0xFF))
  end.
Definition CalculateNintendoTweak (sector_id : Z) : list Z :=
  tweak_loop 16 0xF sector_id (replicate 0x10 0).

Inductive Mode := CTR | ECB | XTS.
Inductive Op := Encrypt | Decrypt.

(** [static_cast<mbedtls_cipher_type_t>( mode )]: the values of [Mode] are
    those of the cipher types, by the [static_assert]s of the file. *)
Definition mode_type (m : Mode) : mbedtls_cipher_type_t :=
  match m with
  | CTR => MBEDTLS_CIPHER_AES_128_CTR
  | ECB => MBEDTLS_CIPHER_AES_128_ECB
  | XTS => MBEDTLS_CIPHER_AES_128_XTS
  end.

Record AESCipher := {
  encryption_context : mbedtls_cipher_context_t;
  decryption_context : mbedtls_cipher_context_t
}.

(** The constructor; [key] has [KeySize] octets. *)
Definition AESCipher_new (g : aes_globals) (key : list Z) (m : Mode) : aes_globals * AESCipher * bool :=
  let info := mbedtls_cipher_info_from_type (mode_type m) in
  let bits := 8 * Z.of_nat (length key) in
  let '(e, r1) := mbedtls_cipher_setup mbedtls_cipher_init info in
  let '(d, r2) := if negb (r1 =? 0) then (mbedtls_cipher_init, 0)
                  else mbedtls_cipher_setup mbedtls_cipher_init info in
  let '(g, e, r3) := mbedtls_cipher_setkey g e key bits MBEDTLS_ENCRYPT in
  let '(g, d, r4) := mbedtls_cipher_setkey g d key bits MBEDTLS_DECRYPT in
  (g, {| encryption_context := e; decryption_context := d |},
   (r1 =? 0) && (r2 =? 0) && (r3 =? 0) && (r4 =? 0)).

(** [SetIV]: the second call runs only when the first succeeds. *)
Definition SetIV (c : AESCipher) (iv : list Z) : AESCipher * bool :=
  let '(e, r1) := mbedtls_cipher_set_iv (encryption_context c) iv in
  if negb (r1 =? 0)
  then ({| encryption_context := e; decryption_context := decryption_context c |}, false)
  else
    let '(d, r2) := mbedtls_cipher_set_iv (decryption_context c) iv in
    ({| encryption_context := e; decryption_context := d |}, r2 =? 0).

Section Transcode.
Context (T : aes_tables).

(** The loop of [Transcode], with [n] rounds left, on the rest of the buffers;
    [pad] is the call of [Transcode] on a padded block in place.  Also returns
    whether the function has returned from within the loop. *)
Fixpoint transcode_loop
    (pad : mbedtls_cipher_context_t -> list Z -> mbedtls_cipher_context_t * list Z)
    (n : nat) (ctx : mbedtls_cipher_context_t) (bs : nat) (src dest : list Z) (inplace : bool)
    : mbedtls_cipher_context_t * list Z * bool :=
  match n with
  | O => (ctx, dest, false)
  | S n =>
      let len := Nat.min bs (length src) in
      let '(ctx, _, out) := mbedtls_cipher_update T ctx (take len src) inplace in
      let written := length out in
      let dest := store dest out in
      if negb (written =? len)%nat && (len <? bs)%nat then
        let '(ctx, block) := pad ctx (store (replicate bs 0) (take len src)) in
        (ctx, store dest (take len block), true)
      else
        let '(ctx, rest, ret) := transcode_loop pad n ctx bs (drop len src) (drop len dest) inplace in
        (ctx, take len dest ++ rest, ret)
  end.

(** [Transcode] on the context [op] selects: the context and [dest].  The
    function calls itself on one block, which does not call it again: two
    levels are enough ([transcode_blocks]). *)
Fixpoint transcode (fuel : nat) (ctx : mbedtls_cipher_context_t) (src dest : list Z) (inplace : bool)
    : mbedtls_cipher_context_t * list Z :=
  match fuel with
  | O => (ctx, dest)
  | S fuel =>
      let pad ctx block := transcode fuel ctx block block true in
      let '(ctx, _) := mbedtls_cipher_reset ctx in
      if bool_decide (mbedtls_cipher_get_cipher_mode ctx = MBEDTLS_MODE_XTS) then
        let '(ctx, _, out) := mbedtls_cipher_update T ctx src inplace in
        let '(ctx, _, _, _) := mbedtls_cipher_finish T ctx false in
        (ctx, store dest out)
      else
        let bs := mbedtls_cipher_get_block_size ctx in
        if (length src <? bs)%nat then
          let '(ctx, block) := pad ctx (store (replicate bs 0) src) in
          (ctx, store dest (take (length src) block))
        else
          let n := ((length src + bs - 1) / bs)%nat in
          let '(ctx, dest, returned) := transcode_loop pad n ctx bs src dest inplace in
          if returned then (ctx, dest)
          else let '(ctx, _, _, _) := mbedtls_cipher_finish T ctx false in (ctx, dest)
  end.

Definition Transcode (c : AESCipher) (src dest : list Z) (inplace : bool) (op : Op) : AESCipher * list Z :=
  match op with
  | Encrypt =>
      let '(ctx, dest) := transcode 2 (encryption_context c) src dest inplace in
      ({| encryption_context := ctx; decryption_context := decryption_context c |}, dest)
  | Decrypt =>
      let '(ctx, dest) := transcode 2 (decryption_context c) src dest inplace in
      ({| encryption_context := encryption_context c; decryption_context := ctx |}, dest)
  end.

(** The loop of [XTSTranscode], with [n] sectors left. *)
Fixpoint xts_loop (n : nat) (c : AESCipher) (src dest : list Z) (sector_id : Z) (sector_size : nat)
    (inplace : bool) (op : Op) : AESCipher * list Z * bool :=
  match n with
  | O => (c, dest, true)
  | S n =>
      let '(c, ok) := SetIV c (CalculateNintendoTweak sector_id) in
      let '(c, out) := Transcode c (take sector_size src) (take sector_size dest) inplace op in
      let '(c, rest, ok') :=
        xts_loop n c (drop sector_size src) (drop sector_size dest) (to_u64 (sector_id + 1)) sector_size
          inplace op in
      (c, out ++ rest, ok && ok')
  end.

Definition XTSTranscode (c : AESCipher) (src dest : list Z) (inplace : bool) (sector_id : Z)
    (sector_size : nat) (op : Op) : AESCipher * list Z * bool :=
  let n := ((length src + sector_size - 1) / sector_size)%nat in
  let '(c, dest, ok) := xts_loop n c src dest sector_id sector_size inplace op in
  (c, dest, ok && (length src mod sector_size =? 0)%nat).
End Transcode.
End AesUtil.

Import AesUtil.

(** ** The tweak *)

Lemma be_bytes_S n v : be_bytes (S n) v = be_bytes n (v / 256) ++ [v mod 256].
Proof. reflexivity. Qed.

Lemma tweak_loop_be a : forall b v,
  tweak_loop (length a) (Z.of_nat (length a) - 1) v (a ++ b) = be_bytes (length a) v ++ b.
Proof.
  induction a as [|x a IH] using rev_ind; intros b v; [done|].
  rewrite length_app, Nat.add_1_r, be_bytes_S. cbn [tweak_loop].
  replace (Z.of_nat (S (length a)) - 1) with (Z.of_nat (length a)) by lia.
  rewrite <- app_assoc. simpl app at 1. rewrite upd_middle, <- app_assoc, IH.
  fold (to_u8 v). by rewrite to_u8_mod, Z.shiftr_div_pow2, <- app_assoc by lia.
Qed.

Lemma tweak_be sector_id : CalculateNintendoTweak sector_id = be_bytes 16 sector_id.
Proof.
  unfold CalculateNintendoTweak. pose proof (tweak_loop_be (replicate 16 0) [] sector_id) as E.
  rewrite !app_nil_r in E. exact E.
Qed.

(** ** Block-wise processing *)

Definition zpad (x : list Z) : list Z := x ++ replicate (16 - length x) 0.

Lemma block_zpad x : bytes x -> (length x <= 16)%nat -> block (zpad x).
Proof.
  intros Hx Hl. split; [unfold zpad; rewrite length_app, length_replicate; lia|].
  apply Forall_app_2; [done|apply Forall_replicate, byte_0].
Qed.

Lemma zpad_store x : (length x <= 16)%nat -> store (replicate 16 0) x = zpad x.
Proof. intros H. unfold store, zpad. by rewrite drop_replicate. Qed.

(** A mode of the cipher layer as the wrapper sees it: at block [j] of the
    buffer a full block becomes [blk j] of it; an incomplete one is either
    refused, with the context as it was, or treated like the front of a padded
    block.  [I j] holds of the context before block [j], [K] after the last
    one. *)
Record block_mode (T : aes_tables) (I : nat -> mbedtls_cipher_context_t -> Prop)
    (K : mbedtls_cipher_context_t -> Prop) (blk : nat -> list Z -> list Z) : Prop := {
  bm_len j x : block x -> length (blk j x) = 16%nat;
  bm_full j ctx x ip : I j ctx -> block x ->
    exists ctx' r, mbedtls_cipher_update T ctx x ip = (ctx', r, blk j x) /\ I (S j) ctx';
  bm_part j ctx x ip : I j ctx -> bytes x -> (0 < length x < 16)%nat ->
    exists ctx' r out, mbedtls_cipher_update T ctx x ip = (ctx', r, out)
      /\ ((out = [] /\ I j ctx') \/ (out = take (length x) (blk j (zpad x)) /\ K ctx'));
  bm_reset j ctx : I j ctx -> exists ctx', mbedtls_cipher_reset ctx = (ctx', 0) /\ I j ctx';
  bm_info j ctx : I j ctx -> mbedtls_cipher_get_cipher_mode ctx <> MBEDTLS_MODE_XTS
    /\ mbedtls_cipher_get_block_size ctx = 16%nat /\ is_Some (cipher_info ctx);
  bm_keep j ctx : I j ctx -> K ctx
}.

(** [blk] over a buffer, the last block cut to its length. *)
Fixpoint run_blocks (blk : nat -> list Z -> list Z) (n j : nat) (src : list Z) : list Z :=
  match n with
  | O => []
  | S n => take (length (take 16 src)) (blk j (zpad (take 16 src))) ++ run_blocks blk n (S j) (drop 16 src)
  end.

Definition nblocks (n : nat) : nat := ((n + 15) / 16)%nat.

Lemma finish_null T ctx :
  exists r, mbedtls_cipher_finish T ctx false = (ctx, r, [], 0).
Proof. unfold mbedtls_cipher_finish. destruct (cipher_info ctx); by eexists. Qed.

Section BlockMode.
Context {T : aes_tables} {I : nat -> mbedtls_cipher_context_t -> Prop}
  {K : mbedtls_cipher_context_t -> Prop} {blk : nat -> list Z -> list Z} (HB : block_mode T I K blk).

Lemma length_run_blocks n : forall j src,
  bytes src -> n = nblocks (length src) -> length (run_blocks blk n j src) = length src.
Proof.
  induction n as [|n IH]; intros j src Hs Hn; unfold nblocks in Hn; cbn [run_blocks].
  { simpl. zify; zlia. }
  assert (length (take 16 src) <= 16)%nat as Ht by (rewrite length_take; lia).
  rewrite length_app, length_take, (bm_len _ _ _ _ HB), IH.
  - rewrite length_drop, length_take. lia.
  - by apply Forall_drop.
  - unfold nblocks. rewrite length_drop. zify; zlia.
  - apply block_zpad; [by apply Forall_take|done].
Qed.

(** The padded block, processed by the recursive call. *)
Definition pads_ok (pad : mbedtls_cipher_context_t -> list Z -> mbedtls_cipher_context_t * list Z) : Prop :=
  forall j ctx x, I j ctx -> block x -> exists ctx', pad ctx x = (ctx', blk j x) /\ K ctx'.

Lemma transcode_loop_blocks pad n : forall j ctx src dest ip,
  pads_ok pad -> I j ctx -> bytes src -> n = nblocks (length src) -> (length src <= length dest)%nat ->
  exists ctx' ret, transcode_loop T pad n ctx 16 src dest ip
    = (ctx', run_blocks blk n j src ++ drop (length src) dest, ret) /\ K ctx'.
Proof.
  induction n as [|n IH]; intros j ctx src dest ip Hpad HI Hs Hn Hd; cbn [transcode_loop run_blocks].
  { exists ctx, false. assert (length src = 0)%nat as -> by (unfold nblocks in Hn; zify; zlia).
    split; [done|]. by eapply bm_keep. }
  assert (length src <> 0)%nat as Hne by (unfold nblocks in Hn; zify; zlia).
  destruct (Nat.le_gt_cases 16 (length src)) as [Hbig|Hsmall].
  - rewrite (Nat.min_l 16) by lia. assert (block (take 16 src)) as Hx by by apply block_take.
    assert (zpad (take 16 src) = take 16 src) as Hz.
    { unfold zpad. rewrite (proj1 Hx), Nat.sub_diag. apply app_nil_r. }
    rewrite Hz, (proj1 Hx). pose proof (bm_len _ _ _ _ HB j _ Hx) as Hbl.
    destruct (bm_full _ _ _ _ HB j ctx _ ip HI Hx) as (ctx1 & r & -> & HI1).
    rewrite Hbl, Nat.eqb_refl. cbn [negb andb]. unfold store. rewrite Hbl.
    rewrite take_app_length', drop_app_length' by done. rewrite (take_ge (blk j _)) by lia.
    destruct (IH (S j) ctx1 (drop 16 src) (drop 16 dest) ip) as (ctx2 & ret & -> & HK); try done.
    + by apply Forall_drop.
    + unfold nblocks in *. rewrite length_drop. zify; zlia.
    + rewrite !length_drop. lia.
    + exists ctx2, ret. split; [|done]. rewrite <- app_assoc, length_drop, drop_drop.
      by replace (16 + (length src - 16))%nat with (length src) by lia.
  - rewrite (Nat.min_r 16), (take_ge src (length src)), (take_ge src 16) by lia.
    assert (n = 0)%nat as -> by (unfold nblocks in Hn; zify; zlia). cbn [run_blocks transcode_loop].
    assert (block (zpad src)) as Hz by (apply block_zpad; [done|lia]).
    pose proof (bm_len _ _ _ _ HB j _ Hz) as Hbl. rewrite app_nil_r.
    destruct (bm_part _ _ _ _ HB j ctx src ip HI Hs ltac:(lia)) as (ctx1 & r & out & -> & [[-> HI1]|[-> HK]]).
    + simpl length. destruct (Nat.eqb_spec 0 (length src)); [lia|]. cbn [negb andb].
      destruct (Nat.ltb_spec (length src) 16); [|lia]. rewrite zpad_store by lia.
      destruct (Hpad j ctx1 (zpad src) HI1 Hz) as (ctx2 & -> & HK).
      exists ctx2, true. split; [|done]. unfold store. simpl drop.
      by rewrite length_take, Hbl, Nat.min_l by lia.
    + rewrite length_take, Hbl, Nat.min_l, Nat.eqb_refl by lia. cbn [negb andb].
      eexists _, false. split; [|done]. unfold store. rewrite length_take, Hbl, Nat.min_l by lia.
      by rewrite take_drop.
Qed.

(** One block, in a call that may be the recursive one. *)
Lemma transcode_block f j ctx x ip :
  I j ctx -> block x -> exists ctx', transcode T (S f) ctx x x ip = (ctx', blk j x) /\ K ctx'.
Proof.
  intros HI Hx. pose proof (bm_len _ _ _ _ HB j _ Hx) as Hbl. cbn [transcode].
  destruct (bm_reset _ _ _ _ HB j ctx HI) as (ctx1 & -> & HI1).
  destruct (bm_info _ _ _ _ HB j ctx1 HI1) as (Hm & Hbs & _).
  rewrite bool_decide_false, Hbs, (proj1 Hx) by done.
  change (16 <? 16)%nat with false. change ((16 + 16 - 1) / 16)%nat with 1%nat. cbv iota.
  cbn [transcode_loop]. rewrite (proj1 Hx). change (Nat.min 16 16) with 16%nat.
  rewrite (take_ge x) by (rewrite (proj1 Hx); lia).
  destruct (bm_full _ _ _ _ HB j ctx1 x ip HI1 Hx) as (ctx2 & r & -> & HI2).
  rewrite Hbl, Nat.eqb_refl. cbn [negb andb]. unfold store.
  rewrite Hbl, drop_ge, app_nil_r, take_ge, drop_ge, app_nil_r by (rewrite ?(proj1 Hx); lia).
  destruct (finish_null T ctx2) as [r' ->]. exists ctx2. split; [done|]. by eapply bm_keep.
Qed.

(** [Transcode] of a whole buffer, with two levels of calls or more. *)
Lemma transcode_blocks f ctx src dest ip :
  I 0 ctx -> bytes src -> (length src <= length dest)%nat ->
  exists ctx', transcode T (S (S f)) ctx src dest ip
    = (ctx', run_blocks blk (nblocks (length src)) 0 src ++ drop (length src) dest) /\ K ctx'.
Proof.
  intros HI Hs Hd. remember (S f) as f1 eqn:Ef. cbn [transcode].
  destruct (bm_reset _ _ _ _ HB 0%nat ctx HI) as (ctx1 & -> & HI1).
  destruct (bm_info _ _ _ _ HB 0%nat ctx1 HI1) as (Hm & Hbs & _).
  rewrite bool_decide_false, Hbs by done.
  assert (pads_ok (fun ctx block => transcode T f1 ctx block block true)) as Hpad.
  { intros j c x Hj Hx. subst f1. by apply transcode_block. }
  destruct (Nat.ltb_spec (length src) 16) as [Hlt|Hge].
  - assert (block (zpad src)) as Hz by (apply block_zpad; [done|lia]).
    pose proof (bm_len _ _ _ _ HB 0%nat _ Hz) as Hbl. rewrite zpad_store by lia.
    destruct (Hpad 0%nat ctx1 (zpad src) HI1 Hz) as (ctx2 & E & HK). cbv beta in E. rewrite E.
    exists ctx2. split; [|done]. unfold store. rewrite length_take, Hbl, Nat.min_l by lia.
    do 2 f_equal. destruct (Nat.eq_dec (length src) 0) as [E0|E0].
    + rewrite E0. done.
    + assert (nblocks (length src) = 1)%nat as -> by (unfold nblocks; zify; zlia). cbn [run_blocks].
      by rewrite (take_ge src 16), app_nil_r by lia.
  - replace ((length src + 16 - 1) / 16)%nat with (nblocks (length src))
      by (unfold nblocks; f_equal; lia).
    destruct (transcode_loop_blocks _ (nblocks (length src)) 0 ctx1 src dest ip Hpad HI1 Hs eq_refl Hd)
      as (ctx2 & ret & -> & HK).
    exists ctx2. split; [|done]. destruct ret; [done|].
    by destruct (finish_null T ctx2) as [r' ->].
Qed.
End BlockMode.

(** ** Counter mode and electronic codebook *)

Lemma ctr_xor_nil T c v k : ctr_xor T c v k [] = [].
Proof. done. Qed.

(** Run block by block, counter mode is counter mode. *)
Lemma run_blocks_ctr T c v n : forall j src,
  n = nblocks (length src) ->
  run_blocks (fun j => ctr_xor T c v (16 * j)) n j src = ctr_xor T c v (16 * j) src.
Proof.
  induction n as [|n IH]; intros j src Hn; unfold nblocks in Hn; cbn [run_blocks].
  { rewrite (nil_length_inv src) by (zify; zlia). done. }
  unfold zpad. rewrite ctr_xor_app, take_app_length' by (by rewrite length_ctr_xor).
  rewrite IH by (unfold nblocks; rewrite length_drop; zify; zlia).
  rewrite <- (take_drop 16 src) at 3. rewrite ctr_xor_app. f_equal.
  destruct (Nat.le_gt_cases 16 (length src)) as [H|H].
  - f_equal. rewrite length_take. lia.
  - by rewrite drop_ge by lia.
Qed.

Section CtrMode.
Context (T : aes_tables) (c : mbedtls_aes_context) (info : mbedtls_cipher_info_t) (v : Z).
Hypotheses (Hmode : mode info = MBEDTLS_MODE_CTR) (Hbs : block_size info = 16%nat)
  (Hbase : base info = aes_info).

(** A context keyed with [c], between two buffers. *)
Definition ctr_idle (ctx : mbedtls_cipher_context_t) : Prop :=
  cipher_info ctx = Some info /\ cipher_ctx ctx = Some (Aes_ctx c) /\ length (iv ctx) = 16%nat.

Lemma ctr_idle_at k ctx : ctr_ctx T c info v k ctx -> ctr_idle ctx.
Proof.
  intros (Hi & Hc & Hat). split; [done|]. split; [done|]. destruct Hat as (_ & -> & _).
  apply length_be_bytes.
Qed.

Lemma update_ctr_aligned j ctx x ip :
  ctr_ctx T c info v (16 * j) ctx -> bytes x -> ip = false \/ length x = 16%nat ->
  exists ctx', mbedtls_cipher_update T ctx x ip = (ctx', 0, ctr_xor T c v (16 * j) x)
    /\ ctr_ctx T c info v (16 * j + length x) ctx'.
Proof.
  intros Hat Hx Hip. destruct (update_ctr T c info v Hmode Hbs Hbase _ ctx x Hat Hx) as (ctx' & E & H').
  exists ctx'. split; [|done]. destruct ip; [|done]. destruct Hip as [?|Hl]; [done|].
  rewrite <- E. unfold mbedtls_cipher_update. destruct Hat as (Hi & Hc & (Hu & _)).
  unfold mbedtls_cipher_get_block_size. rewrite Hi, Hmode, Hbs, Hl.
  assert (unprocessed_len ctx = 0)%nat as -> by (zify; zlia). done.
Qed.

Lemma ctr_block_mode :
  block_mode T (fun j => ctr_ctx T c info v (16 * j)) ctr_idle (fun j => ctr_xor T c v (16 * j)).
Proof.
  split.
  - intros j x [Hl _]. by rewrite length_ctr_xor.
  - intros j ctx x ip Hat [Hl Hx]. destruct (update_ctr_aligned j ctx x ip Hat Hx (or_intror Hl)) as (ctx' & E & H').
    exists ctx', 0. split; [done|]. rewrite Hl in H'. by replace (16 * S j)%nat with (16 * j + 16)%nat by lia.
  - intros j ctx x ip Hat Hx Hl. destruct ip.
    + pose proof Hat as (Hi & Hc & _). exists ctx, MBEDTLS_ERR_CIPHER_BAD_INPUT_DATA, [].
      split; [|by left]. unfold mbedtls_cipher_update, mbedtls_cipher_get_block_size.
      rewrite Hi, Hmode, Hbs. destruct (Nat.eqb_spec (length x mod 16) 0) as [E|E];
        [rewrite Nat.mod_small in E by lia; lia|]. by rewrite orb_true_r.
    + destruct (update_ctr_aligned j ctx x false Hat Hx (or_introl eq_refl)) as (ctx' & E & H').
      exists ctx', 0, (ctr_xor T c v (16 * j) x). split; [done|]. right. split; [|by eapply ctr_idle_at].
      unfold zpad. rewrite ctr_xor_app. by rewrite take_app_length' by (by rewrite length_ctr_xor).
  - intros j ctx (Hi & Hc & Hat). unfold mbedtls_cipher_reset. rewrite Hi. eexists. split; [done|].
    split; [done|]. split; [done|]. destruct Hat as (Hu & Hn & Hs). split; [|done].
    by rewrite Nat.mul_comm, Nat.Div0.mod_mul.
  - intros j ctx (Hi & _ & _). unfold mbedtls_cipher_get_cipher_mode, mbedtls_cipher_get_block_size.
    rewrite Hi, Hmode. done.
  - intros j ctx H. by eapply ctr_idle_at.
Qed.

(** [Transcode] in counter mode after the counter block [be_bytes 16 v] has
    been set. *)
Lemma transcode_ctr ctx src dest ip :
  cipher_info ctx = Some info -> cipher_ctx ctx = Some (Aes_ctx c) -> iv ctx = be_bytes 16 v ->
  bytes src -> (length src <= length dest)%nat ->
  exists ctx', transcode T 2 ctx src dest ip = (ctx', store dest (ctr_xor T c v 0 src)) /\ ctr_idle ctx'.
Proof.
  intros Hi Hc Hiv Hs Hd.
  set (ctx0 := set_unprocessed ctx (unprocessed_data ctx) 0).
  assert (transcode T 2 ctx src dest ip = transcode T 2 ctx0 src dest ip) as ->.
  { cbn [transcode]. unfold mbedtls_cipher_reset. change (cipher_info ctx0) with (cipher_info ctx).
    rewrite Hi. reflexivity. }
  assert (ctr_ctx T c info v (16 * 0) ctx0) as H0.
  { split; [done|]. split; [done|]. simpl. split; [done|]. rewrite Hiv. split; [|intros H; by destruct H].
    change (Z.of_nat ((0 + 15) / 16)) with 0. f_equal. lia. }
  destruct (transcode_blocks ctr_block_mode 0 ctx0 src dest ip H0 Hs Hd) as (ctx' & E & HK).
  exists ctx'. split; [|done]. rewrite E, run_blocks_ctr by done. unfold store.
  by rewrite length_ctr_xor.
Qed.
End CtrMode.

Section EcbMode.
Context (T : aes_tables) (c : mbedtls_aes_context) (info : mbedtls_cipher_info_t) (op : Z).
Hypotheses (Hmode : mode info = MBEDTLS_MODE_ECB) (Hbs : block_size info = 16%nat)
  (Hbase : base info = aes_info).

Definition ecb_keyed (ctx : mbedtls_cipher_context_t) : Prop :=
  cipher_info ctx = Some info /\ operation ctx = op /\ cipher_ctx ctx = Some (Aes_ctx c).

Lemma ecb_block_mode :
  block_mode T (fun _ => ecb_keyed) ecb_keyed (fun _ => mbedtls_aes_crypt_ecb T c op).
Proof.
  split.
  - intros j x Hx. apply block_crypt_ecb.
  - intros j ctx x ip (Hi & Ho & Hc) [Hl _]. exists ctx, 0. split; [|done].
    unfold mbedtls_cipher_update, mbedtls_cipher_get_block_size. by rewrite Hi, Hmode, Hbs, Hl, Hbase, Hc, Ho.
  - intros j ctx x ip (Hi & Ho & Hc) Hx Hl. exists ctx, MBEDTLS_ERR_CIPHER_FULL_BLOCK_EXPECTED, [].
    split; [|by left]. unfold mbedtls_cipher_update, mbedtls_cipher_get_block_size.
    rewrite Hi, Hmode, Hbs. by destruct (Nat.eqb_spec (length x) 16); [lia|].
  - intros j ctx (Hi & Ho & Hc). unfold mbedtls_cipher_reset. rewrite Hi. by eexists.
  - intros j ctx (Hi & _ & _). unfold mbedtls_cipher_get_cipher_mode, mbedtls_cipher_get_block_size.
    rewrite Hi, Hmode. done.
  - done.
Qed.

Lemma transcode_ecb ctx src dest ip :
  ecb_keyed ctx -> bytes src -> (length src <= length dest)%nat ->
  exists ctx', transcode T 2 ctx src dest ip
    = (ctx', store dest (run_blocks (fun _ => mbedtls_aes_crypt_ecb T c op) (nblocks (length src)) 0 src))
    /\ ecb_keyed ctx'.
Proof.
  intros Hk Hs Hd. destruct (transcode_blocks ecb_block_mode 0 ctx src dest ip Hk Hs Hd) as (ctx' & E & HK).
  exists ctx'. split; [|done]. rewrite E. unfold store. by rewrite (length_run_blocks ecb_block_mode).
Qed.
End EcbMode.

(** ** Construction *)

(** A context after [setup] and [setkey]. *)
Definition plain_ctx (info : mbedtls_cipher_info_t) (bits op : Z) (c : cipher_ctx_t)
    : mbedtls_cipher_context_t := {|
  cipher_info := Some info; key_bitlen := bits; operation := op;
  add_padding := None; get_padding := None; unprocessed_data := replicate 16 0; unprocessed_len := 0;
  iv := replicate 16 0; iv_size := 0; cipher_ctx := Some c; cmac_ctx := None |}.

#[local] Opaque mbedtls_aes_setkey_enc mbedtls_aes_setkey_dec mbedtls_aes_init.

Section New.
Context (g : aes_globals) (key : list Z).
Hypothesis Hg : aes_ready g.

Lemma new_128 m info :
  m = CTR \/ m = ECB -> length key = 16%nat ->
  mbedtls_cipher_info_from_type (mode_type m) = Some info ->
  exists ce cd,
    AESCipher_new g key m
    = (aes_init_tables g,
       {| encryption_context := plain_ctx info 128 MBEDTLS_ENCRYPT (Aes_ctx ce);
          decryption_context := plain_ctx info 128 MBEDTLS_DECRYPT (Aes_ctx cd) |}, true)
    /\ mbedtls_aes_setkey_enc g mbedtls_aes_init key 128 = (aes_init_tables g, ce, 0)
    /\ (match m with CTR => mbedtls_aes_setkey_enc | _ => mbedtls_aes_setkey_dec end)
         (aes_init_tables g) mbedtls_aes_init key 128 = (aes_init_tables g, cd, 0).
Proof.
  intros Hm Hk Hi. assert (key_size 4) as H4 by by left.
  destruct (init_tables g Hg) as [_ Hg1].
  pose proof (setkey_enc_eq 4 g mbedtls_aes_init key H4 Hg ltac:(lia)) as E1.
  pose proof (setkey_enc_eq 4 _ mbedtls_aes_init key H4 Hg1 ltac:(lia)) as E2.
  pose proof (setkey_dec_eq 4 _ mbedtls_aes_init key H4 Hg1 ltac:(lia)) as E3.
  rewrite init_tables_idem in E2, E3. change (32 * Z.of_nat 4) with 128 in *.
  set (ce := {| nr := _; buf := expand_key _ _ _ _ _ |}) in E1, E2.
  set (cd := {| nr := _; buf := _ |}) in E3. clearbody ce cd.
  destruct Hm as [-> | ->]; injection Hi as <-; [exists ce, ce | exists ce, cd];
    (split; [|split; [exact E1|exact E2 || exact E3]]);
    unfold AESCipher_new; rewrite Hk; cbn [mbedtls_cipher_setup mbedtls_cipher_info_from_type mode_type];
    change (8 * Z.of_nat 16) with 128;
    unfold mbedtls_cipher_setkey, call_setkey; simpl;
    unfold aes_setkey_enc_wrap, aes_setkey_dec_wrap; simpl;
    rewrite E1; simpl; rewrite ?E2, ?E3; reflexivity.
Qed.
End New.

(** ** XTS *)

Lemma new_xts g key :
  aes_ready g -> bytes key -> length key = 32%nat ->
  exists ce cd tw tw',
    AESCipher_new g key XTS
    = (aes_init_tables g,
       {| encryption_context := plain_ctx aes_128_xts_info 256 MBEDTLS_ENCRYPT
            (Xts_ctx {| crypt := ce; tweak := tw |});
          decryption_context := plain_ctx aes_128_xts_info 256 MBEDTLS_DECRYPT
            (Xts_ctx {| crypt := cd; tweak := tw' |}) |}, true)
    /\ AesPair (tabs (aes_init_tables g)) ce cd
    /\ (forall s, block s -> mbedtls_aes_crypt_ecb (tabs (aes_init_tables g)) tw' MBEDTLS_AES_ENCRYPT s
                           = mbedtls_aes_crypt_ecb (tabs (aes_init_tables g)) tw MBEDTLS_AES_ENCRYPT s).
Proof.
  intros Hg Hk Hl. destruct (init_tables g Hg) as [ET Hg1]. assert (key_size 4) as H4 by by left.
  pose proof (init_tables_idem g) as Hid.
  destruct (xts_setkey_eq mbedtls_aes_setkey_enc 4 g mbedtls_aes_xts_init key) as (tw & Ee & Et);
    [by left|done|apply ctx_ok_init|done|done|].
  destruct (xts_setkey_eq mbedtls_aes_setkey_dec 4 (aes_init_tables g) mbedtls_aes_xts_init key)
    as (tw' & Ed & Et'); [by left|done|apply ctx_ok_init|done|done|].
  pose proof (setkey_enc_eq 4 _ mbedtls_aes_init key H4 Hg1 ltac:(lia)) as E1.
  pose proof (setkey_dec_eq 4 _ mbedtls_aes_init key H4 Hg1 ltac:(lia)) as E2.
  pose proof (fun ce cd => keyed_pair 4 (aes_init_tables g) (aes_init_tables g)
    (aes_init_tables g) mbedtls_aes_init mbedtls_aes_init ce cd key H4 Hg1 ctx_ok_init ctx_ok_init Hk ltac:(lia)) as HP.
  rewrite Hid in E1, E2. change (64 * Z.of_nat 4) with 256 in *. change (32 * Z.of_nat 4) with 128 in *.
  set (ce := {| nr := _; buf := expand_key _ _ _ _ _ |}) in E1.
  set (cd := {| nr := _; buf := _ |}) in E2. clearbody ce cd.
  rewrite ?Hid in Ed. change (crypt mbedtls_aes_xts_init) with mbedtls_aes_init in *.
  rewrite E1 in Ee. rewrite E2 in Ed.
  exists ce, cd, tw, tw'. split; [|split].
  - unfold AESCipher_new. rewrite Hl. change (8 * Z.of_nat 32) with 256.
    unfold mbedtls_cipher_setkey, call_setkey. simpl.
    unfold xts_aes_setkey_enc_wrap, xts_aes_setkey_dec_wrap, mbedtls_aes_xts_setkey_enc, mbedtls_aes_xts_setkey_dec.
    cbn [as_xts xts_aes_ctx_alloc key_bitlen set_key]. rewrite Ee. cbn [negb Z.eqb].
    simpl. rewrite Ed. reflexivity.
  - exact (HP ce cd E1 E2).
  - rewrite ET. intros s Hs. by rewrite Et, Et'.
Qed.

Section XtsMode.
Context (T : aes_tables).

(** A context keyed for XTS. *)
Definition xts_keyed (k : mbedtls_aes_xts_context) (op : Z) (ctx : mbedtls_cipher_context_t) : Prop :=
  cipher_info ctx = Some aes_128_xts_info /\ operation ctx = op /\ cipher_ctx ctx = Some (Xts_ctx k)
  /\ length (iv ctx) = 16%nat.

Lemma transcode_xts k op ctx src dest ip out :
  xts_keyed k op ctx -> op = MBEDTLS_ENCRYPT \/ op = MBEDTLS_DECRYPT ->
  ip = false \/ (length src mod 16 = 0)%nat ->
  mbedtls_aes_crypt_xts T k op (iv ctx) src = (0, out) ->
  exists ctx', transcode T 2 ctx src dest ip = (ctx', store dest out) /\ xts_keyed k op ctx'.
Proof.
  intros (Hi & Ho & Hc & Hv) Hop Hip Hx. cbn [transcode]. unfold mbedtls_cipher_reset. rewrite Hi.
  set (ctx1 := set_unprocessed ctx _ 0). unfold mbedtls_cipher_get_cipher_mode.
  change (cipher_info ctx1) with (cipher_info ctx). rewrite Hi. rewrite bool_decide_true by done.
  assert (mbedtls_cipher_update T ctx1 src ip = (ctx1, 0, out)) as ->.
  { unfold mbedtls_cipher_update, mbedtls_cipher_get_block_size.
    change (cipher_info ctx1) with (cipher_info ctx). rewrite Hi.
    cbn [mode block_size base aes_128_xts_info aes_row xts_aes_info xts_func Nat.eqb].
    change (unprocessed_len ctx1) with 0%nat. change (cipher_ctx ctx1) with (cipher_ctx ctx).
    rewrite Hc. assert (ip && (negb (0 =? 0)%nat || negb (length src mod 16 =? 0)%nat) = false) as ->.
    { destruct Hip as [-> | ->]; [done|]. by rewrite andb_false_r. }
    unfold aes_crypt_xts_wrap. change (operation ctx1) with (operation ctx). change (iv ctx1) with (iv ctx).
    rewrite Ho. cbn [as_xts]. destruct Hop as [-> | ->].
    - change (MBEDTLS_ENCRYPT =? MBEDTLS_ENCRYPT) with true. cbv iota.
      change MBEDTLS_ENCRYPT with MBEDTLS_AES_ENCRYPT in Hx. by rewrite Hx.
    - change (MBEDTLS_DECRYPT =? MBEDTLS_ENCRYPT) with false.
      change (MBEDTLS_DECRYPT =? MBEDTLS_DECRYPT) with true. cbv iota.
      change MBEDTLS_DECRYPT with MBEDTLS_AES_DECRYPT in Hx. by rewrite Hx. }
  destruct (finish_null T ctx1) as [r ->]. by exists ctx1.
Qed.

Lemma set_iv_xts k op ctx v :
  xts_keyed k op ctx -> length v = 16%nat ->
  exists ctx', mbedtls_cipher_set_iv ctx v = (ctx', 0) /\ xts_keyed k op ctx' /\ iv ctx' = v.
Proof.
  intros (Hi & Ho & Hc & Hv) Hl. unfold mbedtls_cipher_set_iv. rewrite Hi, Hl.
  eexists. split; [reflexivity|]. simpl. rewrite take_ge, memcpy_whole by lia.
  split; [|done]. by split; [|split; [|split]].
Qed.
End XtsMode.

(** ** Sectors *)

(** [f id] over the sectors of a buffer, numbered from [id]. *)
Fixpoint sectors (f : Z -> list Z -> list Z) (n : nat) (id : Z) (ss : nat) (src : list Z) : list Z :=
  match n with
  | O => []
  | S n => f id (take ss src) ++ sectors f n (to_u64 (id + 1)) ss (drop ss src)
  end.

(** A sector under the tweak of its number. *)
Definition xts_sector (T : aes_tables) (k : mbedtls_aes_xts_context) (op : Z) (id : Z) (x : list Z) : list Z :=
  snd (mbedtls_aes_crypt_xts T k op (be_bytes 16 id) x).

Definition op_z (op : Op) : Z := match op with Encrypt => MBEDTLS_ENCRYPT | Decrypt => MBEDTLS_DECRYPT end.

(** The pair of contexts of an XTS cipher. *)
Definition xts_cipher (ke kd : mbedtls_aes_xts_context) (c : AESCipher) : Prop :=
  xts_keyed ke MBEDTLS_ENCRYPT (encryption_context c) /\ xts_keyed kd MBEDTLS_DECRYPT (decryption_context c).

Lemma xts_sector_ok T k op id x n :
  length x = (16 * n)%nat -> 16 <= Z.of_nat (length x) <= 2 ^ 24 ->
  mbedtls_aes_crypt_xts T k op (be_bytes 16 id) x = (0, xts_sector T k op id x)
  /\ length (xts_sector T k op id x) = length x.
Proof.
  intros Hn Hl. unfold xts_sector. rewrite (xts_whole T k op _ n) by done. split; [done|].
  simpl. rewrite length_xts_map; [lia|intros; apply block_crypt_ecb|apply block_crypt_ecb].
Qed.

Section XtsCipher.
Context (T : aes_tables) (ke kd : mbedtls_aes_xts_context) (ss : nat).
Hypothesis (Hss : 16 <= Z.of_nat ss <= 2 ^ 24) (Hss16 : (ss mod 16 = 0)%nat).

Definition op_key (op : Op) : mbedtls_aes_xts_context := match op with Encrypt => ke | Decrypt => kd end.

Lemma SetIV_xts c v :
  xts_cipher ke kd c -> length v = 16%nat ->
  exists c', SetIV c v = (c', true) /\ xts_cipher ke kd c'
    /\ iv (encryption_context c') = v /\ iv (decryption_context c') = v.
Proof.
  intros [He Hd] Hv. destruct (set_iv_xts _ _ _ v He Hv) as (e & Ee & He' & Hie).
  destruct (set_iv_xts _ _ _ v Hd Hv) as (d & Ed & Hd' & Hid).
  unfold SetIV. rewrite Ee. cbn [negb Z.eqb]. rewrite Ed. by eexists.
Qed.

Lemma Transcode_xts c id src dest ip op :
  xts_cipher ke kd c -> length src = ss -> length dest = ss ->
  iv (encryption_context c) = be_bytes 16 id -> iv (decryption_context c) = be_bytes 16 id ->
  exists c', Transcode T c src dest ip op = (c', xts_sector T (op_key op) (op_z op) id src)
    /\ xts_cipher ke kd c'.
Proof.
  intros [He Hd] Hs Hdl Hie Hid.
  assert (length src = 16 * (ss / 16))%nat as Hn by (pose proof (Nat.div_mod_eq ss 16); lia).
  destruct (xts_sector_ok T (op_key op) (op_z op) id src (ss / 16) Hn ltac:(lia)) as [Ex Hl].
  assert (store dest (xts_sector T (op_key op) (op_z op) id src) = xts_sector T (op_key op) (op_z op) id src) as Hst.
  { unfold store. rewrite drop_ge by lia. apply app_nil_r. }
  unfold Transcode. destruct op; cbn [op_key op_z] in *.
  - rewrite <- Hie in Ex. destruct (transcode_xts T ke MBEDTLS_ENCRYPT _ src dest ip _ He (or_introl eq_refl)
      (or_intror (eq_trans (f_equal (fun n => n mod 16)%nat Hs) Hss16)) Ex) as (e & -> & He'). rewrite Hst. by eexists.
  - rewrite <- Hid in Ex. destruct (transcode_xts T kd MBEDTLS_DECRYPT _ src dest ip _ Hd (or_intror eq_refl)
      (or_intror (eq_trans (f_equal (fun n => n mod 16)%nat Hs) Hss16)) Ex) as (d & -> & Hd'). rewrite Hst. by eexists.
Qed.

Lemma xts_loop_sectors n : forall c id src dest ip op,
  xts_cipher ke kd c -> length src = (n * ss)%nat -> length dest = (n * ss)%nat ->
  exists c', xts_loop T n c src dest id ss ip op
    = (c', sectors (xts_sector T (op_key op) (op_z op)) n id ss src, true) /\ xts_cipher ke kd c'.
Proof.
  induction n as [|n IH]; intros c id src dest ip op Hc Hs Hd; cbn [xts_loop sectors].
  { exists c. by rewrite (nil_length_inv dest). }
  rewrite tweak_be. destruct (SetIV_xts c (be_bytes 16 id) Hc) as (c1 & -> & Hc1 & Hie & Hid);
    [apply length_be_bytes|].
  destruct (Transcode_xts c1 id (take ss src) (take ss dest) ip op Hc1) as (c2 & -> & Hc2);
    [rewrite length_take; lia..|done|done|].
  destruct (IH c2 (to_u64 (id + 1)) (drop ss src) (drop ss dest) ip op Hc2) as (c3 & -> & Hc3);
    [rewrite length_drop; lia..|].
  by exists c3.
Qed.

(** [XTSTranscode] of whole sectors trips no assertion. *)
Lemma XTSTranscode_sectors n c id src dest ip op :
  xts_cipher ke kd c -> length src = (n * ss)%nat -> length dest = (n * ss)%nat ->
  exists c', XTSTranscode T c src dest ip id ss op
    = (c', sectors (xts_sector T (op_key op) (op_z op)) n id ss src, true) /\ xts_cipher ke kd c'.
Proof.
  intros Hc Hs Hd. unfold XTSTranscode. rewrite Hs.
  assert ((n * ss + ss - 1) / ss = n)%nat as ->.
  { replace (n * ss + ss - 1)%nat with (ss - 1 + n * ss)%nat by lia.
    rewrite Nat.div_add by lia. rewrite Nat.div_small by lia. done. }
  destruct (xts_loop_sectors n c id src dest ip op Hc Hs Hd) as (c' & -> & Hc').
  exists c'. rewrite Nat.Div0.mod_mul. done.
Qed.
End XtsCipher.

(** Sector by sector, the decryption inverts the encryption. *)
Lemma sectors_inverse (f h : Z -> list Z -> list Z) ss n : forall id src,
  (forall id x, bytes x -> length x = ss -> length (f id x) = ss /\ h id (f id x) = x) ->
  bytes src -> length src = (n * ss)%nat ->
  length (sectors f n id ss src) = (n * ss)%nat /\ sectors h n id ss (sectors f n id ss src) = src.
Proof.
  induction n as [|n IH]; intros id src Hfh Hb Hl; cbn [sectors].
  { by rewrite (nil_length_inv src). }
  destruct (Hfh id (take ss src)) as [Lf Eh]; [by apply Forall_take|rewrite length_take; lia|].
  destruct (IH (to_u64 (id + 1)) (drop ss src) Hfh) as [IL IE]; [by apply Forall_drop|rewrite length_drop; lia|].
  rewrite length_app, take_app_length', drop_app_length' by lia. rewrite Eh, IE, take_drop. split; [lia|done].
Qed.

(** ** Theorems *)

Lemma run_blocks_ext blk blk' n : forall j src,
  (forall j x, block x -> blk j x = blk' j x) -> bytes src ->
  run_blocks blk n j src = run_blocks blk' n j src.
Proof.
  induction n as [|n IH]; intros j src He Hs; [done|]. cbn [run_blocks].
  rewrite He, (IH (S j)); [done|done|by apply Forall_drop|].
  apply block_zpad; [by apply Forall_take|rewrite length_take; lia].
Qed.

(** A block cipher over a buffer, the last block padded with zeros and its
    output cut. *)
Definition ecb_spec (E : list Z -> list Z) (src : list Z) : list Z :=
  run_blocks (fun _ => E) (nblocks (length src)) 0 src.

(** The two directions of an ECB cipher of a 128-bit key. *)
Lemma ecb_new_spec g key :
  aes_ready g -> bytes key -> length key = 16%nat ->
  exists ce cd,
    AESCipher_new g key ECB
    = (aes_init_tables g,
       {| encryption_context := plain_ctx aes_128_ecb_info 128 MBEDTLS_ENCRYPT (Aes_ctx ce);
          decryption_context := plain_ctx aes_128_ecb_info 128 MBEDTLS_DECRYPT (Aes_ctx cd) |}, true)
    /\ (forall s, block s -> mbedtls_aes_crypt_ecb (tabs (aes_init_tables g)) ce MBEDTLS_ENCRYPT s
                             = aes_encrypt 4 key s)
    /\ (forall s, block s -> mbedtls_aes_crypt_ecb (tabs (aes_init_tables g)) cd MBEDTLS_DECRYPT s
                             = aes_decrypt 4 key s).
Proof.
  intros Hg Hk Hl. destruct (init_tables g Hg) as [ET Hg1]. assert (key_size 4) as H4 by by left.
  destruct (new_128 g key Hg ECB aes_128_ecb_info (or_intror eq_refl) Hl eq_refl) as (ce & cd & En & Ee & Ed).
  exists ce, cd. split; [done|]. rewrite ET. change 128 with (32 * Z.of_nat 4) in Ee, Ed.
  rewrite (setkey_enc_eq 4) in Ee by (done || lia). rewrite (setkey_dec_eq 4) in Ed by (done || lia).
  injection Ee as <-. injection Ed as _ <-. split; intros s Hs.
  - exact (setkey_enc_encrypt 4 mbedtls_aes_init key H4 ctx_ok_init Hk ltac:(lia) s Hs).
  - exact (setkey_dec_decrypt 4 mbedtls_aes_init key H4 ctx_ok_init Hk ltac:(lia) s Hs).
Qed.

(** The emulator's ECB cipher of a 128-bit key is FIPS-197 AES on every
    block, in both directions, in place or not; the octets of an incomplete
    last block come from that block padded with zeros; no assertion trips and
    the rest of the destination is left alone. *)
Theorem ecb_cipher_is_aes g key src dest ip :
  aes_ready g -> bytes key -> length key = 16%nat -> bytes src -> (length src <= length dest)%nat ->
  let '(g1, c, ok) := AESCipher_new g key ECB in
  ok = true
  /\ snd (Transcode (tabs g1) c src dest ip Encrypt) = store dest (ecb_spec (aes_encrypt 4 key) src)
  /\ snd (Transcode (tabs g1) c src dest ip Decrypt) = store dest (ecb_spec (aes_decrypt 4 key) src).
Proof.
  intros Hg Hk Hl Hs Hd. destruct (ecb_new_spec g key Hg Hk Hl) as (ce & cd & -> & HE & HD).
  split; [done|]. unfold Transcode, ecb_spec. split.
  - destruct (transcode_ecb (tabs (aes_init_tables g)) ce aes_128_ecb_info MBEDTLS_ENCRYPT eq_refl eq_refl
      eq_refl (plain_ctx aes_128_ecb_info 128 MBEDTLS_ENCRYPT (Aes_ctx ce)) src dest ip) as (e & E & _); try done.
    cbn [encryption_context]. rewrite E. simpl. f_equal. by apply run_blocks_ext.
  - destruct (transcode_ecb (tabs (aes_init_tables g)) cd aes_128_ecb_info MBEDTLS_DECRYPT eq_refl eq_refl
      eq_refl (plain_ctx aes_128_ecb_info 128 MBEDTLS_DECRYPT (Aes_ctx cd)) src dest ip) as (d & E & _); try done.
    cbn [decryption_context]. rewrite E. simpl. f_equal. by apply run_blocks_ext.
Qed.

Lemma sectors_xts_inverse T ce cd tw tw' ss n id src :
  AesPair T ce cd ->
  (forall s, block s -> mbedtls_aes_crypt_ecb T tw' MBEDTLS_AES_ENCRYPT s
                        = mbedtls_aes_crypt_ecb T tw MBEDTLS_AES_ENCRYPT s) ->
  16 <= Z.of_nat ss <= 2 ^ 24 -> bytes src -> length src = (n * ss)%nat ->
  let ct := sectors (xts_sector T {| crypt := ce; tweak := tw |} MBEDTLS_ENCRYPT) n id ss src in
  length ct = (n * ss)%nat
  /\ sectors (xts_sector T {| crypt := cd; tweak := tw' |} MBEDTLS_DECRYPT) n id ss ct = src.
Proof.
  intros HP Htw Hss Hs Hl. apply sectors_inverse; [|done|done]. intros i x Hx Hxl. unfold xts_sector.
  destruct (xts_inverse T ce cd tw tw' (be_bytes 16 i) x) as (ct & E1 & L & E2);
    [apply Htw; split; [apply length_be_bytes|apply bytes_be_bytes]|done|lia|].
  change MBEDTLS_ENCRYPT with MBEDTLS_AES_ENCRYPT. change MBEDTLS_DECRYPT with MBEDTLS_AES_DECRYPT.
  rewrite E1. simpl. rewrite E2. split; [lia|done].
Qed.

(** [XTSTranscode] with a 256-bit key decrypts what it encrypts, for any
    number of sectors of any size that is a multiple of 16 up to 16 MiB, from
    any first sector number, in place or not, and trips no assertion. *)
Theorem xts_transcode_roundtrip g key n ss id src d1 d2 ip1 ip2 :
  aes_ready g -> bytes key -> length key = 32%nat ->
  16 <= Z.of_nat ss <= 2 ^ 24 -> (ss mod 16 = 0)%nat ->
  bytes src -> length src = (n * ss)%nat -> length d1 = (n * ss)%nat -> length d2 = (n * ss)%nat ->
  let '(g1, c, ok) := AESCipher_new g key XTS in
  ok = true
  /\ exists c1 ct c2, XTSTranscode (tabs g1) c src d1 ip1 id ss Encrypt = (c1, ct, true)
     /\ length ct = length src
     /\ XTSTranscode (tabs g1) c1 ct d2 ip2 id ss Decrypt = (c2, src, true).
Proof.
  intros Hg Hk Hl Hss Hss16 Hs Hsl H1 H2.
  destruct (new_xts g key Hg Hk Hl) as (ce & cd & tw & tw' & -> & HP & Htw). split; [done|].
  set (ke := {| crypt := ce; tweak := tw |}). set (kd := {| crypt := cd; tweak := tw' |}).
  set (T := tabs (aes_init_tables g)) in *. set (c := {| encryption_context := _; decryption_context := _ |}).
  assert (xts_cipher ke kd c) as Hc by done.
  destruct (XTSTranscode_sectors T ke kd ss Hss Hss16 n c id src d1 ip1 Encrypt Hc Hsl H1) as (c1 & E1 & Hc1).
  destruct (sectors_xts_inverse T ce cd tw tw' ss n id src HP Htw Hss Hs Hsl) as [Lc Ec].
  cbn [op_key op_z] in E1. fold ke kd in Lc, Ec.
  destruct (XTSTranscode_sectors T ke kd ss Hss Hss16 n c1 id _ d2 ip2 Decrypt Hc1 Lc H2) as (c2 & E2 & _).
  cbn [op_key op_z] in E2. rewrite Ec in E2. eexists c1, _, c2. split; [exact E1|]. split; [lia|exact E2].
Qed.

Lemma ecb_cipher_is_aes_witness :
  let '(g1, c, ok) := AESCipher_new aes_globals0 (take 16 sample_key) ECB in
  ok = true
  /\ snd (Transcode (tabs g1) c (sample_text 20) (replicate 32 0) false Encrypt)
     = store (replicate 32 0) (ecb_spec (aes_encrypt 4 (take 16 sample_key)) (sample_text 20))
  /\ snd (Transcode (tabs g1) c (sample_text 20) (replicate 32 0) false Decrypt)
     = store (replicate 32 0) (ecb_spec (aes_decrypt 4 (take 16 sample_key)) (sample_text 20)).
Proof.
  apply (ecb_cipher_is_aes aes_globals0 (take 16 sample_key) (sample_text 20) (replicate 32 0) false);
    [left; reflexivity|by_eval|reflexivity|by_eval|vm_compute; lia].
Defined.

Lemma xts_transcode_roundtrip_witness :
  let '(g1, c, ok) := AESCipher_new aes_globals0 sample_key XTS in
  ok = true
  /\ exists c1 ct c2,
       XTSTranscode (tabs g1) c (sample_text 64) (sample_text 64) true 5 32 Encrypt = (c1, ct, true)
       /\ length ct = length (sample_text 64)
       /\ XTSTranscode (tabs g1) c1 ct (replicate 64 0) false 5 32 Decrypt = (c2, sample_text 64, true).
Proof.
  apply (xts_transcode_roundtrip aes_globals0 sample_key 2 32 5 (sample_text 64) (sample_text 64)
    (replicate 64 0) true false);
    [left; reflexivity|by_eval|reflexivity|lia|reflexivity|by_eval|reflexivity..].
Defined.
