(* ===== verification/EncryptionLayers.v ===== *)
(** * Encryption layers over virtual files
    (core/crypto/ctr_encryption_layer.cpp, xts_encryption_layer.cpp,
    encryption_layer.cpp)

    A layer is a virtual file over another one: [Read] decrypts what it reads
    from the base.  The layers are written for any base file and proved against
    the contract [Trimming] of Vfs.v; each is proved to satisfy the contract
    [Exact] for the plaintext, so layers and windows stack.  [asserts] records
    whether every [ASSERT] of the cipher has held so far. *)

From S2P Require Import Prelude Octets AesTables AesSpec AesCore AesCorrect AesModes AesModesCorrect.
From S2P Require Import AesStreamCorrect MdStream Padding Cipher CipherCorrect Vfs AesUtil.
Open Scope Z_scope.
Open Scope c_scope.
Import Aes Modes Cipher AesUtil.

(** [EncryptionLayer]: the operations that change a file are refused. *)
Module EncryptionLayer.
Section Layer.
Context {L : Type}.
Definition Write (l : L) (data : list Z) (len offset : Z) : L * Z := (l, 0).
Definition Resize (l : L) (new_size : Z) : L * bool := (l, false).
Definition IsWritable (l : L) : bool := false.
Definition IsReadable (l : L) : bool := true.
End Layer.
End EncryptionLayer.

Module CtrLayer.
Section Layer.
Context {F : Type} `{VfsFile F} (T : aes_tables).

Record CTREncryptionLayer := {
  base : F;
  base_offset : Z;
  cipher : AESCipher;
  iv : list Z;
  asserts : bool
}.

(** The constructor. *)
Definition CTREncryptionLayer_new (g : aes_globals) (base_ : F) (key_ : list Z) (base_offset_ : Z)
    : aes_globals * CTREncryptionLayer :=
  let '(g, c, ok) := AESCipher_new g key_ CTR in
  (g, {| base := base_; base_offset := base_offset_; cipher := c; iv := replicate 16 0; asserts := ok |}).

Definition set_base (l : CTREncryptionLayer) (f : F) : CTREncryptionLayer :=
  {| base := f; base_offset := base_offset l; cipher := cipher l; iv := iv l; asserts := asserts l |}.
Definition set_cipher (l : CTREncryptionLayer) (c : AESCipher) : CTREncryptionLayer :=
  {| base := base l; base_offset := base_offset l; cipher := c; iv := iv l; asserts := asserts l |}.

(** [SetIV]. *)
Definition SetIV (l : CTREncryptionLayer) (iv_ : list Z) : CTREncryptionLayer :=
  let n := Nat.min (length iv_) (length (iv l)) in
  {| base := base l; base_offset := base_offset l; cipher := cipher l; iv := take n iv_;
     asserts := asserts l |}.

(** [for( i = 0; i < 8; ++i ) iv[16 - i - 1] = offset & 0xFF, offset >>= 8]. *)
Fixpoint update_iv_loop (n : nat) (i offset : Z) (v : list Z) : list Z :=
  match n with
  | O => v
  | S n => update_iv_loop n (i + 1) (offset >> 8) (upd v (16 - i - 1) (offset .& 0xFF))
  end.
Definition UpdateIV (l : CTREncryptionLayer) (offset : Z) : CTREncryptionLayer :=
  let v := update_iv_loop 8 0 (offset >> 4) (iv l) in
  let '(c, ok) := AesUtil.SetIV (cipher l) v in
  {| base := base l; base_offset := base_offset l; cipher := c; iv := v; asserts := asserts l && ok |}.

(** [Read]; a call at an aligned offset does not call again, so two levels are
    enough.  Octets a short block does not have are not copied here. *)
Fixpoint read (fuel : nat) (l : CTREncryptionLayer) (data : list Z) (len offset : Z)
    : CTREncryptionLayer * list Z * Z :=
  match fuel with
  | O => (l, data, 0)
  | S fuel =>
      if len =? 0 then (l, data, 0)
      else
        let sector_offset := offset .& 0xF in
        if sector_offset =? 0 then
          let l := UpdateIV l (to_u64 (base_offset l + offset)) in
          let '(f, raw) := ReadBytes (base l) len offset in
          let '(c, data) := Transcode T (cipher l) raw data false Decrypt in
          (set_cipher (set_base l f) c, data, len)
        else
          let '(f, block) := ReadBytes (base l) 0x10 (offset - sector_offset) in
          let l := UpdateIV (set_base l f) (to_u64 (base_offset l + offset - sector_offset)) in
          let '(c, block) := Transcode T (cipher l) block block true Decrypt in
          let l := set_cipher l c in
          let n := 0x10 - sector_offset in
          if to_u64 (len + sector_offset) <? 0x10 then
            (l, store data (part block sector_offset (Z.min len n)), Z.min len n)
          else
            let data := store data (part block sector_offset n) in
            let '(l, rest, m) := read fuel l (drop (Z.to_nat n) data) (to_u64 (len - n)) (to_u64 (offset + n)) in
            (l, take (Z.to_nat n) data ++ rest, to_u64 (n + m))
  end.
Definition Read := read 2.
End Layer.
Arguments CTREncryptionLayer F : clear implicits.
End CtrLayer.

#[export] Instance ctr_vfs (T : aes_tables) F `{VfsFile F} : VfsFile (CtrLayer.CTREncryptionLayer F) := {
  GetSize l := GetSize (CtrLayer.base l);
  Read := CtrLayer.Read T
}.

Module XtsLayer.
Section Layer.
Context {F : Type} `{VfsFile F} (T : aes_tables).

Definition XTS_SECTOR_SIZE : Z := 0x4000.

Record XTSEncryptionLayer := { base : F; cipher : AESCipher; asserts : bool }.

Definition XTSEncryptionLayer_new (g : aes_globals) (base_ : F) (key_ : list Z)
    : aes_globals * XTSEncryptionLayer :=
  let '(g, c, ok) := AESCipher_new g key_ XTS in (g, {| base := base_; cipher := c; asserts := ok |}).

(** [base->ReadBytes] and [cipher.XTSTranscode]: the plaintext and the size of
    the buffer.  When [fill], the buffer is filled up to a sector and decrypted
    in place. *)
Definition decrypt_at (l : XTSEncryptionLayer) (len offset : Z) (fill : bool)
    : XTSEncryptionLayer * list Z * Z :=
  let '(f, raw) := ReadBytes (base l) len offset in
  let raw := if fill && (Z.of_nat (length raw) <? XTS_SECTOR_SIZE)
             then resize raw (Z.to_nat XTS_SECTOR_SIZE) else raw in
  let '(c, out, ok) :=
    XTSTranscode T (cipher l) raw raw fill (offset / XTS_SECTOR_SIZE) (Z.to_nat XTS_SECTOR_SIZE) Decrypt in
  ({| base := f; cipher := c; asserts := asserts l && ok |}, out, Z.of_nat (length raw)).

(** [Read]: a call at an aligned offset with a whole number of sectors, or
    less than one, does not call again; three levels are enough. *)
Fixpoint read (fuel : nat) (l : XTSEncryptionLayer) (data : list Z) (len offset : Z)
    : XTSEncryptionLayer * list Z * Z :=
  match fuel with
  | O => (l, data, 0)
  | S fuel =>
      if len =? 0 then (l, data, 0)
      else
        let sector_offset := offset .& 0x3FFF in
        if sector_offset =? 0 then
          if len mod XTS_SECTOR_SIZE =? 0 then
            let '(l, out, raw_size) := decrypt_at l len offset false in
            (l, store data out, raw_size)
          else if XTS_SECTOR_SIZE <? len then
            let rem := len mod XTS_SECTOR_SIZE in
            let n := len - rem in
            let '(l, data, m1) := read fuel l data n offset in
            let '(l, rest, m2) := read fuel l (drop (Z.to_nat n) data) rem (to_u64 (offset + n)) in
            (l, take (Z.to_nat n) data ++ rest, to_u64 (m1 + m2))
          else
            let '(l, buffer, buffer_size) := decrypt_at l XTS_SECTOR_SIZE offset true in
            let m := Z.min buffer_size len in
            (l, store data (take (Z.to_nat m) buffer), m)
        else
          let '(l, block, _) := decrypt_at l 0x4000 (offset - sector_offset) true in
          let n := XTS_SECTOR_SIZE - sector_offset in
          if to_u64 (len + sector_offset) <? XTS_SECTOR_SIZE then
            (l, store data (part block sector_offset (Z.min len n)), Z.min len n)
          else
            let data := store data (part block sector_offset n) in
            let '(l, rest, m) := read fuel l (drop (Z.to_nat n) data) (to_u64 (len - n)) (to_u64 (offset + n)) in
            (l, take (Z.to_nat n) data ++ rest, to_u64 (n + m))
  end.
Definition Read := read 3.
End Layer.
Arguments XTSEncryptionLayer F : clear implicits.
End XtsLayer.

#[export] Instance xts_vfs (T : aes_tables) F `{VfsFile F} : VfsFile (XtsLayer.XTSEncryptionLayer F) := {
  GetSize l := GetSize (XtsLayer.base l);
  Read := XtsLayer.Read T
}.

(** ** Counter mode *)

Section CtrParts.
Context (T : aes_tables) (c : mbedtls_aes_context).

(** A part of a ciphertext is the ciphertext of the part, at its place in the
    key stream. *)
Lemma ctr_xor_part v p k n :
  take n (drop k (ctr_xor T c v 0 p)) = ctr_xor T c v k (take n (drop k p)).
Proof.
  destruct (Nat.le_gt_cases k (length p)) as [Hk|Hk].
  - rewrite <- (take_drop k p) at 1. rewrite ctr_xor_app, drop_app_length'
      by (rewrite length_ctr_xor, length_take; lia).
    rewrite length_take, Nat.min_l, Nat.add_0_l by lia.
    destruct (Nat.le_gt_cases n (length (drop k p))) as [Hn|Hn].
    + rewrite <- (take_drop n (drop k p)) at 1. rewrite ctr_xor_app.
      by rewrite take_app_length' by (rewrite length_ctr_xor, length_take; lia).
    + rewrite !take_ge; [done|lia|rewrite length_ctr_xor; lia].
  - rewrite !drop_ge, !take_nil by (rewrite ?length_ctr_xor; lia). done.
Qed.

(** Decrypting an aligned part of it, starting at the counter of the part. *)
Lemma ctr_part_decrypt v p offset n :
  0 <= offset -> offset mod 16 = 0 ->
  ctr_xor T c (v + offset / 16) 0 (part (ctr_xor T c v 0 p) offset n) = part p offset n.
Proof.
  intros Ho Ha. unfold part. rewrite ctr_xor_part.
  replace (offset / 16) with (Z.of_nat (Z.to_nat offset / 16)) by (zify; zlia).
  rewrite ctr_xor_shift. rewrite Nat.add_0_r.
  replace (16 * (Z.to_nat offset / 16))%nat with (Z.to_nat offset) by (zify; zlia).
  apply ctr_xor_twice.
Qed.
End CtrParts.

(** The counter block [UpdateIV] writes. *)
Lemma update_iv_loop_be h a : forall b off,
  (length h + length a + length b = 16)%nat ->
  CtrLayer.update_iv_loop (length a) (Z.of_nat (length b)) off (h ++ a ++ b)
  = h ++ be_bytes (length a) off ++ b.
Proof.
  induction a as [|x a IH] using rev_ind; intros b off Hl; [done|].
  rewrite length_app, Nat.add_1_r, be_bytes_S in *. cbn [CtrLayer.update_iv_loop].
  replace (16 - Z.of_nat (length b) - 1) with (Z.of_nat (length (h ++ a))) by (rewrite length_app; lia).
  fold (to_u8 off). rewrite to_u8_mod, Z.shiftr_div_pow2 by lia. change (2 ^ 8) with 256.
  rewrite <- (app_assoc a [x]), (app_assoc h). simpl ([x] ++ b). rewrite upd_middle, <- !app_assoc.
  replace (Z.of_nat (length b) + 1) with (Z.of_nat (length (off mod 256 :: b))) by (simpl; lia).
  change ([off mod 256] ++ b) with (off mod 256 :: b). apply IH. simpl. lia.
Qed.

Lemma be_bytes_split n m v : be_bytes (n + m) v = be_bytes m (v / 256 ^ Z.of_nat n) ++ be_bytes n v.
Proof. unfold be_bytes. by rewrite le_bytes_app, rev_app_distr. Qed.

(** The upper half of the counter block is kept, the lower half is the block
    number. *)
Lemma updated_iv v off :
  block v -> 0 <= off < 2 ^ 68 ->
  CtrLayer.update_iv_loop 8 0 (off >> 4) v = be_bytes 16 (be_val (take 8 v) * 2 ^ 64 + off / 16).
Proof.
  intros [Hl Hb] Ho.
  pose proof (update_iv_loop_be (take 8 v) (drop 8 v) [] (off >> 4)) as E.
  rewrite app_nil_r, take_drop, length_take, length_drop, Hl in E. specialize (E eq_refl).
  change (Z.of_nat (length [])) with 0 in E. change (16 - 8)%nat with 8%nat in E. simpl (Z.of_nat 0) in E.
  rewrite E, app_nil_r.
  rewrite (be_bytes_split 8 8). change (256 ^ Z.of_nat 8) with (2 ^ 64).
  rewrite Z.shiftr_div_pow2 by lia. change (2 ^ 4) with 16.
  rewrite Z.div_add_l, (Z.div_small (off / 16)), Z.add_0_r by zlia. f_equal.
  - replace 8%nat with (length (take 8 v)) at 2 by (rewrite length_take; lia).
    by rewrite be_bytes_val by by apply Forall_take.
  - rewrite <- (be_bytes_mod 8 (_ + _)). change (256 ^ Z.of_nat 8) with (2 ^ 64).
    rewrite Z.add_comm, Z.mod_add, Z.mod_small by zlia. done.
Qed.

Section Ctr.
Context {F : Type} `{HT : Trimming F good} (T : aes_tables) (ce cd : mbedtls_aes_context).

Abbreviation layer := (CtrLayer.CTREncryptionLayer F).

(** The layer decrypts, under the counter block of the upper half [hi], a file
    whose first octet is octet [base_offset] of the ciphertext of [p]. *)
Record ctr_good (hi : Z) (l : layer) (p : list Z) : Prop := {
  cg_base : good (CtrLayer.base l)
              (ctr_xor T cd (hi * 2 ^ 64 + CtrLayer.base_offset l / 16) 0 p);
  cg_offset : 0 <= CtrLayer.base_offset l /\ CtrLayer.base_offset l mod 16 = 0
              /\ CtrLayer.base_offset l + Z.of_nat (length p) < 2 ^ 64;
  cg_bytes : bytes p;
  cg_enc : ctr_idle ce aes_128_ctr_info (encryption_context (CtrLayer.cipher l));
  cg_dec : ctr_idle cd aes_128_ctr_info (decryption_context (CtrLayer.cipher l));
  cg_iv : block (CtrLayer.iv l);
  cg_hi : be_val (take 8 (CtrLayer.iv l)) = hi;
  cg_asserts : CtrLayer.asserts l = true
}.

Lemma set_iv_ctr c ctx v :
  ctr_idle c aes_128_ctr_info ctx -> length v = 16%nat ->
  exists ctx', mbedtls_cipher_set_iv ctx v = (ctx', 0) /\ ctr_idle c aes_128_ctr_info ctx'
    /\ Cipher.iv ctx' = v.
Proof.
  intros (Hi & Hc & Hv) Hl. unfold mbedtls_cipher_set_iv. rewrite Hi, Hl.
  eexists. split; [reflexivity|]. simpl. rewrite take_ge, memcpy_whole by lia. done.
Qed.

(** [UpdateIV] points the cipher at a block of the stream. *)
Lemma UpdateIV_good hi l p off :
  ctr_good hi l p -> 0 <= off -> off mod 16 = 0 -> CtrLayer.base_offset l + off < 2 ^ 64 ->
  let l' := CtrLayer.UpdateIV l (CtrLayer.base_offset l + off) in
  ctr_good hi l' p /\ CtrLayer.base l' = CtrLayer.base l /\ CtrLayer.base_offset l' = CtrLayer.base_offset l
  /\ Cipher.iv (decryption_context (CtrLayer.cipher l'))
     = be_bytes 16 (hi * 2 ^ 64 + CtrLayer.base_offset l / 16 + off / 16).
Proof.
  intros Hg Ho Ha Hlt l'. destruct Hg as [Hb (H0 & H16 & H64) Hp He Hd Hiv Hhi Has].
  pose proof (updated_iv (CtrLayer.iv l) (CtrLayer.base_offset l + off) Hiv ltac:(lia)) as Eiv.
  rewrite Hhi in Eiv. set (w := hi * 2 ^ 64 + (CtrLayer.base_offset l + off) / 16) in *.
  assert (w = hi * 2 ^ 64 + CtrLayer.base_offset l / 16 + off / 16) as Ew by (unfold w; zlia).
  destruct (set_iv_ctr ce _ (be_bytes 16 w) He) as (e & Ee & He' & _); [apply length_be_bytes|].
  destruct (set_iv_ctr cd _ (be_bytes 16 w) Hd) as (d & Ed & Hd' & Eid); [apply length_be_bytes|].
  unfold l', CtrLayer.UpdateIV, AesUtil.SetIV. rewrite Eiv, Ee. cbn [negb Z.eqb]. rewrite Ed.
  cbn [Z.eqb]. rewrite <- Ew. split; [|done]. split; try done; cbn [CtrLayer.iv CtrLayer.asserts].
  - split; [apply length_be_bytes|apply bytes_be_bytes].
  - change 16%nat with (8 + 8)%nat. rewrite be_bytes_split, take_app_length' by (by rewrite length_be_bytes).
    rewrite be_val_bytes. change (256 ^ Z.of_nat 8) with (2 ^ 64). unfold w.
    pose proof (be_val_range (take 8 (CtrLayer.iv l))) as Hr.
    rewrite Hhi, length_take, (proj1 Hiv) in Hr. specialize (Hr (Forall_take _ _ _ (proj2 Hiv))).
    change (256 ^ Z.of_nat (8 `min` 16)) with (2 ^ 64) in Hr.
    rewrite Z.div_add_l, (Z.div_small (_ / 16)), Z.add_0_r by zlia. by apply Z.mod_small.
  - by rewrite Has.
Qed.

Lemma set_base_good hi l p f :
  ctr_good hi l p -> good f (ctr_xor T cd (hi * 2 ^ 64 + CtrLayer.base_offset l / 16) 0 p) ->
  ctr_good hi (CtrLayer.set_base l f) p.
Proof. intros [] Hf. by split. Qed.

(** A part of the ciphertext through the cipher. *)
Lemma decrypt_part hi l p off n dest ip :
  ctr_good hi l p -> 0 <= off -> off mod 16 = 0 ->
  Cipher.iv (decryption_context (CtrLayer.cipher l))
    = be_bytes 16 (hi * 2 ^ 64 + CtrLayer.base_offset l / 16 + off / 16) ->
  let ct := part (ctr_xor T cd (hi * 2 ^ 64 + CtrLayer.base_offset l / 16) 0 p) off n in
  (length ct <= length dest)%nat ->
  exists c', Transcode T (CtrLayer.cipher l) ct dest ip Decrypt = (c', store dest (part p off n))
    /\ ctr_good hi (CtrLayer.set_cipher l c') p.
Proof.
  intros Hg Ho Ha Hiv ct Hd. destruct Hg as [Hb Hoff Hp He (Hi & Hc & Hl) Hv Hhi Has].
  unfold Transcode.
  destruct (transcode_ctr T cd aes_128_ctr_info _ eq_refl eq_refl eq_refl
    (decryption_context (CtrLayer.cipher l)) ct dest ip Hi Hc Hiv) as (d & -> & Hd'); [|done|].
  { apply Forall_take, Forall_drop. by apply bytes_ctr_xor. }
  unfold ct. rewrite ctr_part_decrypt by done. eexists. split; [reflexivity|]. by split.
Qed.

Lemma length_ctr_part v p off n :
  0 <= off -> 0 <= n -> off + n <= Z.of_nat (length p) ->
  length (part (ctr_xor T cd v 0 p) off n) = Z.to_nat n.
Proof. intros. apply length_part; rewrite ?length_ctr_xor; lia. Qed.

Lemma read_aligned fuel hi l p data len off :
  ctr_good hi l p -> 0 <= off -> off mod 16 = 0 -> 0 <= len -> off + len <= Z.of_nat (length p) ->
  (Z.to_nat len <= length data)%nat ->
  exists l', CtrLayer.read T (S fuel) l data len off = (l', store data (part p off len), len)
    /\ ctr_good hi l' p.
Proof.
  intros Hg Ho Ha Hl Hin Hd. cbn [CtrLayer.read]. destruct (Z.eqb_spec len 0) as [->|Hl0].
  { exists l. split; [|done]. unfold part. by rewrite take_0. }
  change 0xF with (Z.ones 4). rewrite Z.land_ones by lia. change (2 ^ 4) with 16. rewrite Ha. cbn [Z.eqb].
  destruct (cg_offset hi l p Hg) as (H0 & H16 & H64). rewrite to_u64_id by (unfold is_u64; lia).
  destruct (UpdateIV_good hi l p off Hg Ho Ha ltac:(lia)) as (Hg1 & Hb1 & Hbo1 & Hiv1).
  set (l1 := CtrLayer.UpdateIV l _) in *. pose proof (cg_base _ _ _ Hg1) as Hbase.
  destruct (trim_read_bytes (CtrLayer.base l1) _ len off Hbase) as (f' & -> & Hf'); [lia|rewrite length_ctr_xor; lia|].
  rewrite length_ctr_xor, Z.min_l by lia.
  assert (ctr_good hi (CtrLayer.set_base l1 f') p) as Hg2 by by apply set_base_good.
  destruct (decrypt_part hi (CtrLayer.set_base l1 f') p off len data false Hg2 Ho Ha) as (c' & E & Hg3).
  { simpl. by rewrite Hbo1. }
  { rewrite length_ctr_part by lia. done. }
  cbn [CtrLayer.cipher CtrLayer.set_base CtrLayer.base_offset] in E. rewrite E. eexists. by split.
Qed.

(** The block an unaligned request starts in. *)
Lemma read_first_block hi l p off :
  ctr_good hi l p -> 0 <= off -> off mod 16 = 0 -> off <= Z.of_nat (length p) ->
  let m := Z.min 16 (Z.of_nat (length p) - off) in
  exists f' ct c',
    ReadBytes (CtrLayer.base l) 16 off = (f', ct)
    /\ (let l1 := CtrLayer.UpdateIV (CtrLayer.set_base l f') (CtrLayer.base_offset l + off) in
        Transcode T (CtrLayer.cipher l1) ct ct true Decrypt = (c', part p off m)
        /\ ctr_good hi (CtrLayer.set_cipher l1 c') p).
Proof.
  intros Hg Ho Ha Hin m. destruct (cg_offset hi l p Hg) as (H0 & H16 & H64).
  pose proof (cg_base _ _ _ Hg) as Hbase.
  destruct (trim_read_bytes (CtrLayer.base l) _ 16 off Hbase) as (f' & Er & Hf');
    [lia|rewrite length_ctr_xor; lia|]. rewrite length_ctr_xor in Er. fold m in Er.
  assert (ctr_good hi (CtrLayer.set_base l f') p) as Hg1 by by apply set_base_good.
  destruct (UpdateIV_good hi (CtrLayer.set_base l f') p off Hg1 Ho Ha)
    as (Hg2 & Hb2 & Hbo2 & Hiv2); [cbn [CtrLayer.base_offset CtrLayer.set_base]; lia|].
  cbn [CtrLayer.base_offset CtrLayer.set_base] in *.
  set (l2 := CtrLayer.UpdateIV _ _) in *.
  assert (length (part (ctr_xor T cd (hi * 2 ^ 64 + CtrLayer.base_offset l / 16) 0 p) off m) = Z.to_nat m) as Lp
    by (apply length_ctr_part; unfold m; lia).
  destruct (decrypt_part hi l2 p off m (part (ctr_xor T cd (hi * 2 ^ 64 + CtrLayer.base_offset l / 16) 0 p) off m)
    true Hg2 Ho Ha) as (c' & E & Hg3); [by rewrite Hbo2|by rewrite Hbo2|].
  rewrite Hbo2 in E. eexists f', _, c'. split; [exact Er|]. cbv zeta. fold l2. split; [|done].
  rewrite E. f_equal.
  unfold store. rewrite drop_ge, app_nil_r; [done|]. rewrite Lp, length_part; unfold m; lia.
Qed.

Lemma ctr_read_exact hi l p data len off :
  ctr_good hi l p -> 0 <= off -> 0 <= len -> off + len <= Z.of_nat (length p) ->
  (Z.to_nat len <= length data)%nat ->
  exists l', CtrLayer.Read T l data len off = (l', store data (part p off len), len)
    /\ ctr_good hi l' p.
Proof.
  intros Hg Ho Hl Hin Hd. unfold CtrLayer.Read. destruct (Z.eqb_spec (off mod 16) 0) as [Ha|Ha].
  { by apply read_aligned. }
  destruct (cg_offset hi l p Hg) as (H0 & H16 & H64).
  remember 1%nat as f1 eqn:Ef1. cbn [CtrLayer.read]. destruct (Z.eqb_spec len 0) as [->|Hl0].
  { exists l. split; [|done]. unfold part. by rewrite take_0. }
  change 0xF with (Z.ones 4). rewrite Z.land_ones by lia. change (2 ^ 4) with 16.
  destruct (Z.eqb_spec (off mod 16) 0); [done|]. set (so := off mod 16) in *.
  assert (0 < so < 16 /\ (off - so) mod 16 = 0 /\ 0 <= off - so) as (Hso & Hal & Hpos) by (unfold so; zlia).
  destruct (read_first_block hi l p (off - so) Hg Hpos Hal ltac:(lia)) as (f' & ct & c' & -> & E & Hg2).
  rewrite !to_u64_id by (unfold is_u64; lia).
  replace (CtrLayer.base_offset l + off - so) with (CtrLayer.base_offset l + (off - so)) by lia.
  set (l1 := CtrLayer.UpdateIV _ _) in *. rewrite E. set (m := Z.min 16 _) in *.
  assert (forall k, 0 <= k -> so + k <= m -> part (part p (off - so) m) so k = part p off k) as Hpp.
  { intros k Hk0 Hk. rewrite part_part by lia. by replace (off - so + so) with off by lia. }
  destruct (Z.ltb_spec (len + so) 16) as [Hs|Hs].
  - rewrite Z.min_l, Hpp by (unfold m; lia). by eexists.
  - rewrite Hpp by (unfold m; lia). subst f1.
    rewrite (to_u64_id (len - _)), (to_u64_id (off + _)) by (unfold is_u64; lia).
    assert (length (part p off (16 - so)) = Z.to_nat (16 - so)) as Lp by (apply length_part; lia).
    destruct (read_aligned 0 hi (CtrLayer.set_cipher l1 c') p
      (drop (Z.to_nat (16 - so)) (store data (part p off (16 - so)))) (len - (16 - so)) (off + (16 - so)) Hg2)
      as (l3 & -> & Hg3); [lia|unfold so; zlia|lia|lia| |].
    { unfold store. rewrite drop_app_length', length_drop by lia. lia. }
    exists l3. split; [|done]. rewrite to_u64_id by (unfold is_u64; lia).
    rewrite store_part by lia.
    rewrite part_app by lia. by replace (16 - so + (len - (16 - so))) with len by lia.
Qed.

(** Such a layer serves every request that lies in the plaintext. *)
Lemma ctr_layer_exact hi : @Exact _ (ctr_vfs T F) (ctr_good hi).
Proof.
  split.
  - intros l p Hg. destruct (trim_size _ _ (cg_base _ _ _ Hg)) as [E1 E2].
    rewrite length_ctr_xor in E1, E2. done.
  - intros l p data len off Hg Hl Hd Ho Hin. apply ctr_read_exact; try done. lia.
Qed.
End Ctr.

(** ** XTS *)

Lemma sectors_app f ss a : forall b id x y,
  0 <= id -> id + Z.of_nat a + Z.of_nat b < 2 ^ 64 -> length x = (a * ss)%nat ->
  sectors f (a + b) id ss (x ++ y) = sectors f a id ss x ++ sectors f b (id + Z.of_nat a) ss y.
Proof.
  induction a as [|a IH]; intros b id x y Hid Hlt Hx.
  { apply nil_length_inv in Hx as ->. simpl. by rewrite Z.add_0_r. }
  cbn [Nat.add sectors]. rewrite to_u64_id by (unfold is_u64; lia).
  rewrite take_app_le, drop_app_le, IH by (rewrite ?length_drop; lia).
  rewrite <- app_assoc. do 3 f_equal. lia.
Qed.

Lemma length_sectors f ss n : forall id src,
  (forall id x, length x = ss -> length (f id x) = ss) -> length src = (n * ss)%nat ->
  length (sectors f n id ss src) = (n * ss)%nat.
Proof.
  induction n as [|n IH]; intros id src Hf Hl; [done|]. cbn [sectors].
  rewrite length_app, Hf, IH; [lia|done|rewrite length_drop; lia|rewrite length_take; lia].
Qed.

(** Whole sectors of an encrypted file are the encryption of those sectors. *)
Lemma sectors_part f ss N p i k :
  (forall id x, length x = ss -> length (f id x) = ss) ->
  length p = (N * ss)%nat -> (i + k <= N)%nat -> Z.of_nat N < 2 ^ 64 ->
  take (k * ss) (drop (i * ss) (sectors f N 0 ss p))
  = sectors f k (Z.of_nat i) ss (take (k * ss) (drop (i * ss) p)).
Proof.
  intros Hf Hp Hik HN. destruct (Nat.le_exists_sub (i + k) N Hik) as (r & -> & _).
  assert ((i + k) * ss = i * ss + k * ss)%nat as Hd by lia.
  rewrite <- (take_drop (i * ss) p) at 1. rewrite <- (take_drop (k * ss) (drop (i * ss) p)) at 1.
  assert (length (take (i * ss) p) = i * ss)%nat as L1 by (rewrite length_take; lia).
  assert (length (take (k * ss) (drop (i * ss) p)) = k * ss)%nat as L2
    by (rewrite length_take, length_drop; lia).
  replace (r + (i + k))%nat with (i + (k + r))%nat by lia.
  rewrite sectors_app, sectors_app by lia.
  rewrite drop_app_length' by (by rewrite length_sectors).
  by rewrite take_app_length' by (by rewrite length_sectors).
Qed.

Section Xts.
Context {F : Type} `{HT : Trimming F good} (T : aes_tables) (ce cd tw tw' : mbedtls_aes_context).
Context `{HP : !AesPair T ce cd}.
Hypothesis Htw : forall s, block s -> mbedtls_aes_crypt_ecb T tw' MBEDTLS_AES_ENCRYPT s
                                     = mbedtls_aes_crypt_ecb T tw MBEDTLS_AES_ENCRYPT s.

Let ke := {| crypt := ce; tweak := tw |}.
Let kd := {| crypt := cd; tweak := tw' |}.
Abbreviation ss := (Z.to_nat XtsLayer.XTS_SECTOR_SIZE).
Abbreviation layer := (XtsLayer.XTSEncryptionLayer F).

Lemma ss_range : Z.of_nat ss = 0x4000 /\ 16 <= Z.of_nat ss <= 2 ^ 24 /\ (ss mod 16 = 0)%nat.
Proof. unfold XtsLayer.XTS_SECTOR_SIZE. rewrite Z2Nat.id by lia. split; [done|]. split; [lia|]. zify; zlia. Qed.

(** The layer's base holds the sectors of [p], encrypted from sector 0 on. *)
Record xts_good (l : layer) (p : list Z) : Prop := {
  xg_size : exists N, length p = (N * ss)%nat
              /\ good (XtsLayer.base l) (sectors (xts_sector T ke MBEDTLS_ENCRYPT) N 0 ss p);
  xg_bytes : bytes p;
  xg_cipher : xts_cipher ke kd (XtsLayer.cipher l);
  xg_asserts : XtsLayer.asserts l = true
}.

Lemma xts_sector_length k op id x : length x = ss -> length (xts_sector T k op id x) = ss.
Proof.
  intros Hx. destruct ss_range as (E & R & M).
  destruct (xts_sector_ok T k op id x (ss / 16)) as [_ ->]; [|by rewrite Hx|done].
  rewrite Hx. pose proof (Nat.div_mod_eq ss 16). lia.
Qed.

Lemma decrypt_at_good l p i k fill :
  xts_good l p -> (i * ss + k * ss <= length p)%nat -> (fill = true -> k = 1%nat) ->
  let off := Z.of_nat i * 0x4000 in
  let len := Z.of_nat k * 0x4000 in
  exists l', XtsLayer.decrypt_at T l len off fill = (l', part p off len, len) /\ xts_good l' p.
Proof.
  intros [(N & HN & Hb) Hp Hc Has] Hin Hfill off len. destruct ss_range as (Ess & Rss & Mss).
  set (ct := sectors (xts_sector T ke MBEDTLS_ENCRYPT) N 0 ss p) in *.
  assert (length ct = length p) as Lct
    by (unfold ct; rewrite length_sectors; [done|intros; by apply xts_sector_length|done]).
  destruct (trim_size _ _ Hb) as [_ H64].
  assert (Z.of_nat (length p) = Z.of_nat N * 0x4000) as HZ by (rewrite HN; lia).
  assert (Z.of_nat N < 2 ^ 64) as HN64 by lia.
  assert (Z.to_nat off = i * ss /\ Z.to_nat len = k * ss)%nat as [Eo El] by (unfold off, len; lia).
  destruct (trim_read_bytes (XtsLayer.base l) ct len off Hb) as (f' & Er & Hf'); [lia|lia|].
  rewrite Z.min_l in Er by lia.
  assert (part ct off len = sectors (xts_sector T ke MBEDTLS_ENCRYPT) k (Z.of_nat i) ss (part p off len)) as Ep.
  { unfold part. rewrite Eo, El. apply sectors_part; [intros; by apply xts_sector_length|done|lia|done]. }
  assert (length (part p off len) = k * ss)%nat as Lp by (rewrite length_part; lia).
  assert (length (part ct off len) = k * ss)%nat as Lc by (rewrite length_part; lia).
  destruct (sectors_xts_inverse T ce cd tw tw' ss k (Z.of_nat i) (part p off len) HP Htw Rss) as [_ Einv];
    [by apply Forall_take, Forall_drop|done|]. fold ke kd in Einv. rewrite <- Ep in Einv.
  destruct (XTSTranscode_sectors T ke kd ss Rss Mss k (XtsLayer.cipher l) (Z.of_nat i)
    (part ct off len) (part ct off len) fill Decrypt Hc Lc Lc) as (c' & Et & Hc').
  cbn [op_key op_z] in Et. rewrite Einv in Et.
  unfold XtsLayer.decrypt_at. rewrite Er, Lc.
  assert (fill && (Z.of_nat (k * ss) <? XtsLayer.XTS_SECTOR_SIZE) = false) as ->.
  { destruct fill; [|done]. rewrite Hfill by done. cbn [andb].
    apply Z.ltb_ge. rewrite Nat.mul_1_l, Ess. unfold XtsLayer.XTS_SECTOR_SIZE. lia. }
  replace (off / XtsLayer.XTS_SECTOR_SIZE) with (Z.of_nat i)
    by (unfold off, XtsLayer.XTS_SECTOR_SIZE; rewrite Z.div_mul; lia).
  rewrite Et, Lc.
  exists {| XtsLayer.base := f'; XtsLayer.cipher := c'; XtsLayer.asserts := XtsLayer.asserts l && true |}.
  split; [|split; [exists N; split; [exact HN|exact Hf']|exact Hp|exact Hc'|]].
  - replace (Z.of_nat (k * ss)) with len by (unfold len; lia). reflexivity.
  - cbn [XtsLayer.asserts]. by rewrite Has.
Qed.

(** Octet positions as sector numbers. *)
Lemma aligned_sectors x : 0 <= x -> x mod 0x4000 = 0 -> exists i : nat, x = Z.of_nat i * 0x4000.
Proof. intros H0 Hx. exists (Z.to_nat (x / 0x4000)). zlia. Qed.

Lemma whole_file l p : xts_good l p -> Z.of_nat (length p) mod 0x4000 = 0 /\ Z.of_nat (length p) < 2 ^ 64.
Proof.
  intros [(N & HN & Hb) _ _ _]. destruct ss_range as (Ess & _). destruct (trim_size _ _ Hb) as [_ H64].
  rewrite length_sectors in H64; [|intros; by apply xts_sector_length|exact HN].
  rewrite <- HN in H64. split; [|exact H64].
  replace (Z.of_nat (length p)) with (Z.of_nat N * 0x4000) by (rewrite HN; lia). apply Z.mod_mul. lia.
Qed.

(** [decrypt_at] in octets. *)
Lemma decrypt_at_exact l p off len fill :
  xts_good l p -> 0 <= off -> off mod 0x4000 = 0 -> 0 <= len -> len mod 0x4000 = 0 ->
  off + len <= Z.of_nat (length p) -> (fill = true -> len = 0x4000) ->
  exists l', XtsLayer.decrypt_at T l len off fill = (l', part p off len, len) /\ xts_good l' p.
Proof.
  intros Hg Ho Hoa Hl Hla Hin Hf. destruct (aligned_sectors off Ho Hoa) as [i ->].
  destruct (aligned_sectors len Hl Hla) as [k ->]. destruct ss_range as (Ess & _).
  apply decrypt_at_good; [done|lia|]. intros ->. specialize (Hf eq_refl). lia.
Qed.

Lemma land_sector off : 0 <= off -> off .& 0x3FFF = off mod 0x4000.
Proof. intros Ho. change 0x3FFF with (Z.ones 14). by rewrite Z.land_ones by lia. Qed.

(** At a sector boundary, a whole number of sectors or a part of one. *)
Lemma xts_read_simple fuel l p data len off :
  xts_good l p -> 0 <= off -> off mod 0x4000 = 0 -> 0 <= len ->
  len mod 0x4000 = 0 \/ len < 0x4000 -> off + len <= Z.of_nat (length p) ->
  exists l', XtsLayer.read T (S fuel) l data len off = (l', store data (part p off len), len)
    /\ xts_good l' p.
Proof.
  intros Hg Ho Ha Hl Hsz Hin. destruct (whole_file l p Hg) as [Hw H64]. cbn [XtsLayer.read].
  destruct (Z.eqb_spec len 0) as [->|Hl0].
  { exists l. split; [|done]. unfold part. by rewrite take_0. }
  rewrite land_sector, Ha by done. change (0 =? 0) with true. cbv iota.
  destruct (Z.eqb_spec (len mod XtsLayer.XTS_SECTOR_SIZE) 0) as [Hm|Hm]; unfold XtsLayer.XTS_SECTOR_SIZE in Hm.
  - destruct (decrypt_at_exact l p off len false Hg Ho Ha Hl Hm Hin) as (l' & -> & Hg'); [done|].
    by exists l'.
  - destruct Hsz as [?|Hsz]; [lia|]. destruct (Z.ltb_spec XtsLayer.XTS_SECTOR_SIZE len) as [Hb|_];
      [unfold XtsLayer.XTS_SECTOR_SIZE in Hb; lia|].
    destruct (decrypt_at_exact l p off XtsLayer.XTS_SECTOR_SIZE true Hg Ho Ha) as (l' & -> & Hg');
      [done|done|unfold XtsLayer.XTS_SECTOR_SIZE; zlia|done|].
    exists l'. split; [|done]. rewrite Z.min_r by (unfold XtsLayer.XTS_SECTOR_SIZE; lia).
    replace (take (Z.to_nat len) (part p off XtsLayer.XTS_SECTOR_SIZE))
      with (part (part p off XtsLayer.XTS_SECTOR_SIZE) 0 len) by (unfold part; by rewrite drop_0).
    rewrite part_part by (unfold XtsLayer.XTS_SECTOR_SIZE; lia). by rewrite Z.add_0_r.
Qed.

Lemma xts_read_aligned fuel l p data len off :
  xts_good l p -> 0 <= off -> off mod 0x4000 = 0 -> 0 <= len -> off + len <= Z.of_nat (length p) ->
  (Z.to_nat len <= length data)%nat ->
  exists l', XtsLayer.read T (S (S fuel)) l data len off = (l', store data (part p off len), len)
    /\ xts_good l' p.
Proof.
  intros Hg Ho Ha Hl Hin Hd. destruct (whole_file l p Hg) as [Hw H64].
  destruct (decide (len mod 0x4000 = 0 \/ len < 0x4000)) as [Hsz|Hsz]; [by apply xts_read_simple|].
  remember (S fuel) as f1 eqn:Ef. cbn [XtsLayer.read].
  destruct (Z.eqb_spec len 0) as [->|Hl0]; [lia|].
  rewrite land_sector, Ha by done. change (0 =? 0) with true. cbv iota.
  destruct (Z.eqb_spec (len mod XtsLayer.XTS_SECTOR_SIZE) 0) as [Hm|Hm]; unfold XtsLayer.XTS_SECTOR_SIZE in Hm;
    [exfalso; auto|].
  destruct (Z.ltb_spec XtsLayer.XTS_SECTOR_SIZE len) as [Hb|Hb]; unfold XtsLayer.XTS_SECTOR_SIZE in Hb;
    [|exfalso; apply Hsz; right; destruct (Z.eq_dec len 0x4000) as [->|]; [by destruct Hm|lia]].
  change (len mod XtsLayer.XTS_SECTOR_SIZE) with (len mod 0x4000). set (rem := len mod 0x4000) in *.
  assert (0 < rem < 0x4000 /\ (len - rem) mod 0x4000 = 0 /\ 0 <= len - rem /\ (off + (len - rem)) mod 0x4000 = 0)
    as (Hr & Hn & Hpos & Ha2) by (unfold rem; zlia).
  subst f1. destruct (xts_read_simple fuel l p data (len - rem) off Hg Ho Ha Hpos (or_introl Hn) ltac:(lia))
    as (l1 & -> & Hg1).
  rewrite (to_u64_id (off + _)) by (unfold is_u64; lia).
  assert (length (part p off (len - rem)) = Z.to_nat (len - rem)) as Lp by (apply length_part; lia).
  destruct (xts_read_simple fuel l1 p (drop (Z.to_nat (len - rem)) (store data (part p off (len - rem)))) rem
    (off + (len - rem)) Hg1 ltac:(lia) Ha2 ltac:(lia) (or_intror (proj2 Hr)) ltac:(lia)) as (l2 & -> & Hg2).
  exists l2. split; [|done]. rewrite to_u64_id by (unfold is_u64; lia).
  rewrite store_part by lia. rewrite part_app by lia.
  by replace (len - rem + rem) with len by lia.
Qed.

Lemma xts_read_exact l p data len off :
  xts_good l p -> 0 <= off -> 0 <= len -> off + len <= Z.of_nat (length p) ->
  (Z.to_nat len <= length data)%nat ->
  exists l', XtsLayer.Read T l data len off = (l', store data (part p off len), len) /\ xts_good l' p.
Proof.
  intros Hg Ho Hl Hin Hd. unfold XtsLayer.Read. destruct (whole_file l p Hg) as [Hw H64].
  destruct (decide (off mod 0x4000 = 0)) as [Ha|Ha]; [by apply xts_read_aligned|].
  remember 2%nat as f1 eqn:Ef. cbn [XtsLayer.read]. destruct (Z.eqb_spec len 0) as [->|Hl0].
  { exists l. split; [|done]. unfold part. by rewrite take_0. }
  rewrite land_sector by done. destruct (Z.eqb_spec (off mod 0x4000) 0) as [?|_]; [done|].
  set (so := off mod 0x4000) in *.
  assert (0 < so < 0x4000 /\ (off - so) mod 0x4000 = 0 /\ 0 <= off - so /\ off - so + 0x4000 <= Z.of_nat (length p))
    as (Hso & Hal & Hpos & Hfit) by (unfold so; zlia).
  destruct (decrypt_at_exact l p (off - so) 0x4000 true Hg Hpos Hal ltac:(lia) eq_refl Hfit) as (l1 & -> & Hg1);
    [done|]. rewrite to_u64_id by (unfold is_u64; lia).
  change XtsLayer.XTS_SECTOR_SIZE with 0x4000.
  assert (forall k, 0 <= k -> so + k <= 0x4000 -> part (part p (off - so) 0x4000) so k = part p off k) as Hpp.
  { intros k Hk0 Hk. rewrite part_part by lia. by replace (off - so + so) with off by lia. }
  destruct (Z.ltb_spec (len + so) 0x4000) as [Hs|Hs].
  - rewrite Z.min_l, Hpp by lia. by exists l1.
  - rewrite Hpp by lia. subst f1.
    rewrite (to_u64_id (len - _)), (to_u64_id (off + _)) by (unfold is_u64; lia).
    assert (length (part p off (0x4000 - so)) = Z.to_nat (0x4000 - so)) as Lp by (apply length_part; lia).
    destruct (xts_read_aligned 0 l1 p (drop (Z.to_nat (0x4000 - so)) (store data (part p off (0x4000 - so))))
      (len - (0x4000 - so)) (off + (0x4000 - so)) Hg1) as (l2 & -> & Hg2); [lia|unfold so; zlia|lia|lia| |].
    { unfold store. rewrite drop_app_length', length_drop by lia. lia. }
    exists l2. split; [|done]. rewrite to_u64_id by (unfold is_u64; lia).
    rewrite store_part by lia. rewrite part_app by lia.
    by replace (0x4000 - so + (len - (0x4000 - so))) with len by lia.
Qed.

Lemma xts_layer_exact : @Exact _ (xts_vfs T F) xts_good.
Proof.
  split.
  - intros l p Hg. destruct (whole_file l p Hg) as [_ H64]. destruct Hg as [(N & HN & Hb) _ _ _].
    destruct (trim_size _ _ Hb) as [E _]. split; [|done]. change (GetSize (XtsLayer.base l) = Z.of_nat (length p)).
    rewrite E, length_sectors; [by rewrite HN|intros; by apply xts_sector_length|exact HN].
  - intros l p data len off Hg Hl Hd Ho Hin. apply xts_read_exact; try done. lia.
Qed.
End Xts.

(** ** Theorems *)

(** A client that reads [len] octets at [off], for each [(len, off)]. *)
Fixpoint reads {F} `{VfsFile F} (f : F) (reqs : list (Z * Z)) : list (list Z * Z) :=
  match reqs with
  | [] => []
  | (len, off) :: reqs =>
      let '(f, data, n) := Read f (replicate (Z.to_nat len) 0) len off in (data, n) :: reads f reqs
  end.

Definition in_bounds (p : list Z) (reqs : list (Z * Z)) : Prop :=
  Forall (fun '(len, off) => 0 <= len /\ 0 <= off /\ off + len <= Z.of_nat (length p)) reqs.

Lemma exact_reads {F} `{HE : Exact F good} f c reqs :
  good f c -> in_bounds c reqs -> reads f reqs = map (fun '(len, off) => (part c off len, len)) reqs.
Proof.
  intros Hg Hin. revert f Hg. induction Hin as [|[len off] reqs (Hl & Ho & Hi) Hin IH]; intros f Hg; [done|].
  destruct (exact_size f c Hg) as [_ H64]. simpl.
  destruct (exact_read f c (replicate (Z.to_nat len) 0) len off Hg) as (f' & -> & Hg');
    [lia|by rewrite length_replicate|done|done|].
  rewrite store_zeros by (by rewrite length_part by lia). f_equal. by apply IH.
Qed.

(** The cipher of a section: its decryption context enciphers with the key. *)
Lemma new_ctr g key : aes_ready g -> bytes key -> length key = 16%nat ->
  exists ce cd, AESCipher_new g key CTR
    = (aes_init_tables g,
       {| encryption_context := plain_ctx aes_128_ctr_info 128 MBEDTLS_ENCRYPT (Aes_ctx ce);
          decryption_context := plain_ctx aes_128_ctr_info 128 MBEDTLS_DECRYPT (Aes_ctx cd) |}, true)
    /\ forall s, block s -> mbedtls_aes_crypt_ecb (tabs (aes_init_tables g)) cd MBEDTLS_AES_ENCRYPT s = aes_encrypt 4 key s.
Proof.
  intros Hg Hk Hl. destruct (init_tables g Hg) as [ET Hg1]. assert (key_size 4) as H4 by by left.
  destruct (new_128 g key Hg CTR aes_128_ctr_info (or_introl eq_refl) Hl eq_refl) as (ce & cd & En & _ & Ed).
  exists ce, cd. split; [exact En|]. rewrite ET. change 128 with (32 * Z.of_nat 4) in Ed.
  rewrite (setkey_enc_eq 4) in Ed by (done || lia). injection Ed as _ <-. intros s Hs.
  exact (setkey_enc_encrypt 4 mbedtls_aes_init key H4 ctx_ok_init Hk ltac:(lia) s Hs).
Qed.

(** The layer a CTR section is opened with. *)
Lemma ctr_new_good {F} `{HT : Trimming F good} g f key bo v p :
  aes_ready g -> bytes key -> length key = 16%nat -> block v -> bytes p ->
  0 <= bo -> bo mod 16 = 0 -> bo + Z.of_nat (length p) < 2 ^ 64 ->
  good f (ctr_spec (aes_encrypt 4 key) (be_val (take 8 v) * 2 ^ 64 + bo / 16) p) ->
  exists ce cd l, CtrLayer.CTREncryptionLayer_new g f key bo = (aes_init_tables g, l)
    /\ ctr_good (tabs (aes_init_tables g)) ce cd (good := good) (be_val (take 8 v)) (CtrLayer.SetIV l v) p.
Proof.
  intros Hg Hk Hl Hv Hp Hbo Hba Hlt Hgood. destruct (new_ctr g key Hg Hk Hl) as (ce & cd & En & HE).
  exists ce, cd. eexists. unfold CtrLayer.CTREncryptionLayer_new. rewrite En. split; [reflexivity|].
  unfold CtrLayer.SetIV. cbn [CtrLayer.iv CtrLayer.base CtrLayer.base_offset CtrLayer.cipher CtrLayer.asserts].
  rewrite length_replicate, (take_ge v (_ `min` _)) by (rewrite (proj1 Hv); lia).
  split; try done. cbn [CtrLayer.base CtrLayer.base_offset].
  rewrite (ctr_xor_spec _ _ _ _ _ _ HE). exact Hgood.
Qed.

(** C27: a CTR layer over any file that holds the AES-CTR ciphertext of [p]
    under its key, with the counter of the octet position in the archive
    ([base_offset] on), returns the plaintext for any sequence of requests in
    the file, aligned or not, and reports their full length; no assertion of
    the cipher trips. *)
Theorem ctr_layer_reads_plaintext {F} `{HT : Trimming F good} g f key bo v p reqs :
  aes_ready g -> bytes key -> length key = 16%nat -> block v -> bytes p ->
  0 <= bo -> bo mod 16 = 0 -> bo + Z.of_nat (length p) < 2 ^ 64 ->
  good f (ctr_spec (aes_encrypt 4 key) (be_val (take 8 v) * 2 ^ 64 + bo / 16) p) ->
  in_bounds p reqs ->
  let '(g1, l) := CtrLayer.CTREncryptionLayer_new g f key bo in
  CtrLayer.asserts l = true
  /\ @reads _ (ctr_vfs (tabs g1) F) (CtrLayer.SetIV l v) reqs
     = map (fun '(len, off) => (part p off len, len)) reqs.
Proof.
  intros Hg Hk Hl Hv Hp Hbo Hba Hlt Hgood Hin.
  destruct (ctr_new_good g f key bo v p Hg Hk Hl Hv Hp Hbo Hba Hlt Hgood) as (ce & cd & l & -> & Hl').
  split; [apply (cg_asserts _ _ _ _ _ _ Hl')|].
  exact (exact_reads (HE := ctr_layer_exact (tabs (aes_init_tables g)) ce cd _) _ p reqs Hl' Hin).
Qed.

(** Past the end of the file the CTR layer reports more than it reads: a
    request at a block boundary in the file that ends after it returns its full
    length as the count, while only the octets up to the end are written to
    the destination. *)
Theorem ctr_layer_overreports {F} `{HT : Trimming F good} g f key bo v p data len off :
  aes_ready g -> bytes key -> length key = 16%nat -> block v -> bytes p ->
  0 <= bo -> bo mod 16 = 0 -> bo + Z.of_nat (length p) < 2 ^ 64 ->
  good f (ctr_spec (aes_encrypt 4 key) (be_val (take 8 v) * 2 ^ 64 + bo / 16) p) ->
  0 <= off -> off mod 16 = 0 -> off <= Z.of_nat (length p) < off + len -> len < 2 ^ 64 ->
  (Z.to_nat len <= length data)%nat ->
  let '(g1, l) := CtrLayer.CTREncryptionLayer_new g f key bo in
  exists l', CtrLayer.Read (tabs g1) (CtrLayer.SetIV l v) data len off
             = (l', store data (part p off (Z.of_nat (length p) - off)), len).
Proof.
  intros Hg Hk Hkl Hv Hp Hbo Hba Hlt Hgood Ho Ha Hpast Hl64 Hd.
  destruct (ctr_new_good g f key bo v p Hg Hk Hkl Hv Hp Hbo Hba Hlt Hgood) as (ce & cd & l & -> & Hg0).
  set (T := tabs (aes_init_tables g)) in *. set (l0 := CtrLayer.SetIV l v) in *. clearbody l0.
  unfold CtrLayer.Read. cbn [CtrLayer.read]. destruct (Z.eqb_spec len 0); [lia|].
  change 0xF with (Z.ones 4). rewrite Z.land_ones by lia. change (2 ^ 4) with 16. rewrite Ha. cbn [Z.eqb].
  destruct (cg_offset T ce cd _ l0 p Hg0) as (H0 & H16 & H64). rewrite to_u64_id by (unfold is_u64; lia).
  destruct (UpdateIV_good T ce cd _ l0 p off Hg0 Ho Ha ltac:(lia)) as (Hg1 & Hb1 & Hbo1 & Hiv1).
  set (l1 := CtrLayer.UpdateIV l0 _) in *. pose proof (cg_base _ _ _ _ _ _ Hg1) as Hbase.
  destruct (trim_read_bytes (CtrLayer.base l1) _ len off Hbase) as (f' & -> & Hf');
    [lia|rewrite length_ctr_xor; lia|]. rewrite length_ctr_xor, Z.min_r by lia.
  pose proof (set_base_good T ce cd _ l1 p f' Hg1 Hf') as Hg2.
  destruct (decrypt_part T ce cd _ (CtrLayer.set_base l1 f') p off (Z.of_nat (length p) - off) data false
    Hg2 Ho Ha) as (c' & E & Hg3).
  { cbn [CtrLayer.cipher CtrLayer.set_base CtrLayer.base_offset]. by rewrite Hbo1. }
  { rewrite length_ctr_part by lia. lia. }
  cbn [CtrLayer.cipher CtrLayer.set_base CtrLayer.base_offset] in E. rewrite E. by eexists.
Qed.

(** C28: an XTS layer over any file that holds the sectors [XTSTranscode]
    encrypts from sector 0 on returns the plaintext for any sequence of
    requests in the file, across and inside sectors, and trips no
    assertion. *)
Theorem xts_layer_reads_plaintext {F} `{HT : Trimming F good} g f key p n reqs :
  aes_ready g -> bytes key -> length key = 32%nat -> bytes p -> length p = (n * Z.to_nat 0x4000)%nat ->
  (let '(g1, c, _) := AESCipher_new g key XTS in
   good f (snd (fst (XTSTranscode (tabs g1) c p p true 0 (Z.to_nat 0x4000) Encrypt)))) ->
  in_bounds p reqs ->
  let '(g1, l) := XtsLayer.XTSEncryptionLayer_new g f key in
  XtsLayer.asserts l = true
  /\ @reads _ (xts_vfs (tabs g1) F) l reqs = map (fun '(len, off) => (part p off len, len)) reqs.
Proof.
  intros Hg Hk Hl Hp Hn Hgood Hin. unfold XtsLayer.XTSEncryptionLayer_new.
  destruct (new_xts g key Hg Hk Hl) as (ce & cd & tw & tw' & En & HP & Htw). rewrite En in Hgood |- *.
  split; [done|]. set (T := tabs (aes_init_tables g)) in *.
  set (c := {| encryption_context := _; decryption_context := _ |}) in *.
  set (ke := {| crypt := ce; tweak := tw |}). set (kd := {| crypt := cd; tweak := tw' |}).
  assert (xts_cipher ke kd c) as Hc by done. destruct ss_range as (_ & Rss & Mss).
  destruct (XTSTranscode_sectors T ke kd (Z.to_nat 0x4000) Rss Mss n c 0 p p true Encrypt Hc Hn Hn) as (c1 & E1 & _).
  rewrite E1 in Hgood. cbn [fst snd op_key op_z] in Hgood.
  refine (exact_reads (HE := xts_layer_exact T ce cd tw tw' Htw) _ p reqs _ Hin).
  split; [exists n; split; [exact Hn|exact Hgood]|exact Hp|exact Hc|reflexivity].
Qed.

(** ** Witnesses *)

Lemma length_sample_text n : length (sample_text n) = n.
Proof. unfold sample_text. by rewrite length_map, length_seq. Qed.

Lemma bytes_sample_text n : bytes (sample_text n).
Proof.
  unfold sample_text. apply List.Forall_map, List.Forall_forall. intros i _.
  unfold is_byte. apply Z.mod_pos_bound. lia.
Qed.

(** An archive of 100 octets, at offset 0x20 of the counter. *)
Definition sample_section : VectorVfs.VectorVfsFile :=
  {| VectorVfs.data :=
       ctr_spec (aes_encrypt 4 (take 16 sample_key)) (be_val (take 8 sample_block) * 2 ^ 64 + 0x20 / 16)
         (sample_text 100) |}.

Lemma ctr_layer_reads_plaintext_witness :
  let '(g1, l) := CtrLayer.CTREncryptionLayer_new aes_globals0 sample_section (take 16 sample_key) 0x20 in
  CtrLayer.asserts l = true
  /\ @reads _ (ctr_vfs (tabs g1) VectorVfs.VectorVfsFile) (CtrLayer.SetIV l sample_block) [(30, 5); (16, 32)]
     = map (fun '(len, off) => (part (sample_text 100) off len, len)) [(30, 5); (16, 32)].
Proof.
  apply (ctr_layer_reads_plaintext aes_globals0 sample_section (take 16 sample_key) 0x20 sample_block
    (sample_text 100) [(30, 5); (16, 32)]);
    [left; reflexivity|by_eval|reflexivity|by_eval|apply bytes_sample_text|lia|reflexivity|reflexivity| |].
  - split; [reflexivity|]. unfold ctr_spec. rewrite length_imap. reflexivity.
  - repeat constructor; discriminate.
Defined.

Lemma ctr_layer_overreports_witness :
  let '(g1, l) := CtrLayer.CTREncryptionLayer_new aes_globals0 sample_section (take 16 sample_key) 0x20 in
  exists l', CtrLayer.Read (tabs g1) (CtrLayer.SetIV l sample_block) (replicate 64 0) 64 96
             = (l', store (replicate 64 0) (part (sample_text 100) 96 (Z.of_nat (length (sample_text 100)) - 96)), 64).
Proof.
  apply (ctr_layer_overreports aes_globals0 sample_section (take 16 sample_key) 0x20 sample_block
    (sample_text 100) (replicate 64 0) 64 96);
    [left; reflexivity|by_eval|reflexivity|by_eval|apply bytes_sample_text|lia|reflexivity|reflexivity| |
     lia|reflexivity|split; [discriminate|reflexivity]|lia|reflexivity].
  split; [reflexivity|]. unfold ctr_spec. rewrite length_imap. reflexivity.
Defined.

Lemma length_encrypted_sectors g key p n :
  aes_ready g -> bytes key -> length key = 32%nat -> length p = (n * Z.to_nat 0x4000)%nat ->
  let '(g1, c, _) := AESCipher_new g key XTS in
  length (snd (fst (XTSTranscode (tabs g1) c p p true 0 (Z.to_nat 0x4000) Encrypt))) = length p.
Proof.
  intros Hg Hk Hl Hn. destruct (new_xts g key Hg Hk Hl) as (ce & cd & tw & tw' & -> & _).
  set (T := tabs (aes_init_tables g)) in *. set (c := {| encryption_context := _; decryption_context := _ |}) in *.
  set (ke := {| crypt := ce; tweak := tw |}). set (kd := {| crypt := cd; tweak := tw' |}).
  assert (xts_cipher ke kd c) as Hc by done. destruct ss_range as (_ & Rss & Mss).
  destruct (XTSTranscode_sectors T ke kd (Z.to_nat 0x4000) Rss Mss n c 0 p p true Encrypt Hc Hn Hn) as (c1 & E1 & _).
  rewrite E1. cbn [fst snd op_key op_z]. rewrite length_sectors; [by rewrite Hn| |exact Hn].
  intros id x Hx. by apply xts_sector_length.
Qed.

(** The file that holds the encrypted sectors of [p]. *)
Definition encrypted_file (p : list Z) : VectorVfs.VectorVfsFile :=
  {| VectorVfs.data :=
       let '(g1, c, _) := AESCipher_new aes_globals0 sample_key XTS in
       snd (fst (XTSTranscode (tabs g1) c p p true 0 (Z.to_nat 0x4000) Encrypt)) |}.

Lemma encrypted_file_good p n :
  length p = (n * Z.to_nat 0x4000)%nat -> Z.of_nat (length p) < 2 ^ 64 ->
  let '(g1, c, _) := AESCipher_new aes_globals0 sample_key XTS in
  vector_good (encrypted_file p)
    (snd (fst (XTSTranscode (tabs g1) c p p true 0 (Z.to_nat 0x4000) Encrypt))).
Proof.
  intros Hn H64. assert (bytes sample_key) as Hk by by_eval.
  pose proof (length_encrypted_sectors aes_globals0 sample_key p n (or_introl eq_refl) Hk eq_refl Hn) as L.
  unfold vector_good, encrypted_file. cbn [VectorVfs.data].
  destruct (AESCipher_new aes_globals0 sample_key XTS) as [[g1 c] a]. rewrite L. by split.
Qed.

Lemma xts_layer_reads_plaintext_witness :
  let '(g1, l) := XtsLayer.XTSEncryptionLayer_new aes_globals0 (encrypted_file (sample_text (Z.to_nat 0x4000))) sample_key in
  XtsLayer.asserts l = true
  /\ @reads _ (xts_vfs (tabs g1) VectorVfs.VectorVfsFile) l [(100, 7); (0x4000, 0)]
     = map (fun '(len, off) => (part (sample_text (Z.to_nat 0x4000)) off len, len)) [(100, 7); (0x4000, 0)].
Proof.
  assert (length (sample_text (Z.to_nat 0x4000)) = (1 * Z.to_nat 0x4000)%nat) as H1
    by (rewrite Nat.mul_1_l; apply length_sample_text).
  assert (Z.of_nat (length (sample_text (Z.to_nat 0x4000))) < 2 ^ 64) as H64
    by (rewrite length_sample_text, Z2Nat.id by discriminate; reflexivity).
  apply (xts_layer_reads_plaintext aes_globals0 (encrypted_file (sample_text (Z.to_nat 0x4000))) sample_key (sample_text (Z.to_nat 0x4000)) 1
    [(100, 7); (0x4000, 0)]);
    [left; reflexivity|by_eval|reflexivity|apply bytes_sample_text|
     exact H1|exact (encrypted_file_good _ 1 H1 H64)|].
  unfold in_bounds. rewrite length_sample_text.
  repeat constructor; try discriminate; rewrite Z2Nat.id; discriminate.
Defined.
