(* ===== verification/KernelObject.v ===== *)
(** * Kernel objects and result codes

    The error values of the kernel ([src/src/core/hle/result.h] and
    [hle/kernel/errors.h]) and the part of [Kernel::Object]
    ([hle/kernel/object.h], [object.cpp]) that the handle table reads: an
    object's identity and its type.  A [shared_ptr<Object>] is an
    [option Object], null being [None]. *)

From S2P Require Import Prelude.

(** ** Result codes *)

(** [union ResultCode] with its two bit fields: [module] in bits 0-8,
    [description] in bits 9-21. *)
Definition ResultCode (module_ description_ : Z) : Z :=
  (module_ .& 0x1FF) .| ((description_ << 9) .& 0x3FFE00).

Definition ErrorModule_Kernel : Z := 1.

Definition RESULT_SUCCESS : Z := 0.
Definition ERR_MAX_CONNECTIONS_REACHED : Z := ResultCode ErrorModule_Kernel 7.
Definition ERR_INVALID_CAPABILITY_DESCRIPTOR : Z := ResultCode ErrorModule_Kernel 14.
Definition ERR_THREAD_TERMINATING : Z := ResultCode ErrorModule_Kernel 59.
Definition ERR_INVALID_SIZE : Z := ResultCode ErrorModule_Kernel 101.
Definition ERR_INVALID_ADDRESS : Z := ResultCode ErrorModule_Kernel 102.
Definition ERR_OUT_OF_RESOURCES : Z := ResultCode ErrorModule_Kernel 103.
Definition ERR_OUT_OF_MEMORY : Z := ResultCode ErrorModule_Kernel 104.
Definition ERR_HANDLE_TABLE_FULL : Z := ResultCode ErrorModule_Kernel 105.
Definition ERR_INVALID_ADDRESS_STATE : Z := ResultCode ErrorModule_Kernel 106.
Definition ERR_INVALID_MEMORY_PERMISSIONS : Z := ResultCode ErrorModule_Kernel 108.
Definition ERR_INVALID_MEMORY_RANGE : Z := ResultCode ErrorModule_Kernel 110.
Definition ERR_INVALID_PROCESSOR_ID : Z := ResultCode ErrorModule_Kernel 113.
Definition ERR_INVALID_THREAD_PRIORITY : Z := ResultCode ErrorModule_Kernel 112.
Definition ERR_INVALID_HANDLE : Z := ResultCode ErrorModule_Kernel 114.
Definition ERR_INVALID_POINTER : Z := ResultCode ErrorModule_Kernel 115.
Definition ERR_INVALID_COMBINATION : Z := ResultCode ErrorModule_Kernel 116.
Definition RESULT_TIMEOUT : Z := ResultCode ErrorModule_Kernel 117.
Definition ERR_SYNCHRONIZATION_CANCELED : Z := ResultCode ErrorModule_Kernel 118.
Definition ERR_OUT_OF_RANGE : Z := ResultCode ErrorModule_Kernel 119.
Definition ERR_INVALID_ENUM_VALUE : Z := ResultCode ErrorModule_Kernel 120.
Definition ERR_NOT_FOUND : Z := ResultCode ErrorModule_Kernel 121.
Definition ERR_BUSY : Z := ResultCode ErrorModule_Kernel 122.
Definition ERR_SESSION_CLOSED_BY_REMOTE : Z := ResultCode ErrorModule_Kernel 123.
Definition ERR_INVALID_STATE : Z := ResultCode ErrorModule_Kernel 125.
Definition ERR_RESERVED_VALUE : Z := ResultCode ErrorModule_Kernel 126.
Definition ERR_RESOURCE_LIMIT_EXCEEDED : Z := ResultCode ErrorModule_Kernel 132.

(** [ResultVal<T>]: a value, or an error code. *)
Inductive ResultVal (T : Type) :=
  | MakeResult (v : T)
  | Error (code : Z).
Arguments MakeResult {T} _.
Arguments Error {T} _.

(** ** Objects *)

Inductive HandleType :=
  | Unknown | WritableEvent | ReadableEvent | SharedMemory | TransferMemory | Thread | Process
  | ResourceLimit | ClientPort | ServerPort | ClientSession | ServerSession | Session.

#[export] Instance HandleType_eq_dec : EqDecision HandleType.
Proof. solve_decision. Defined.

Record Object := { object_id : Z; GetHandleType : HandleType }.

Definition IsWaitable (o : Object) : bool :=
  match GetHandleType o with
  | ReadableEvent | Thread | Process | ServerPort | ServerSession => true
  | Unknown | WritableEvent | SharedMemory | TransferMemory | ResourceLimit | ClientPort
  | ClientSession | Session => false
  end.

(** [DynamicObjectCast<T>] with [T::HANDLE_TYPE] as an argument. *)
Definition DynamicObjectCast (ty : HandleType) (object : option Object) : option Object :=
  match object with
  | Some o => if decide (GetHandleType o = ty) then Some o else None
  | None => None
  end.
