(* ===== verification/HandleTable.v ===== *)
(** * The handle table of a process

    [Kernel::HandleTable] ([src/src/core/hle/kernel/handle_table.cpp] and
    [handle_table.h]): the operations, the free list they thread through the
    [generations] array, and their refinement of a finite map from handles
    to objects. *)

From S2P Require Import Prelude KernelObject.
From stdpp Require Import base list gmap.
Open Scope Z_scope.
Open Scope c_scope.

Module HandleTable.

Definition GetSlot (handle : Z) : Z := to_u16 (handle >> 15).
Definition GetGeneration (handle : Z) : Z := to_u16 (handle .& 0x7FFF).

Definition InvalidHandle : Z := 0.
Definition CurrentThread : Z := 0xFFFF8000.
Definition CurrentProcess : Z := 0xFFFF8001.
Definition MAX_COUNT : Z := 1024.

Record HandleTable := {
  objects : list (option Object);
  generations : list Z;
  table_size : Z;
  next_generation : Z;
  next_free_slot : Z;
}.

(** [objects[slot]]. *)
Definition object_at (t : HandleTable) (slot : Z) : option Object := nth (Z.to_nat slot) (objects t) None.

(** The loop of [Clear]: [n] iterations from [i]. *)
Fixpoint clear_loop (n : nat) (i : Z) (os : list (option Object)) (gs : list Z)
    : list (option Object) * list Z :=
  match n with
  | O => (os, gs)
  | S n => clear_loop n (i + 1) (<[Z.to_nat i := None]> os) (upd gs i (to_u16 (i + 1)))
  end.

Definition Clear (t : HandleTable) : HandleTable :=
  let '(os, gs) := clear_loop (Z.to_nat (table_size t)) 0 (objects t) (generations t) in
  {| objects := os; generations := gs; table_size := table_size t;
     next_generation := next_generation t; next_free_slot := 0 |}.

(** The constructor; [garbage] is what the storage of [generations], which
    has no initialiser, holds. *)
Definition HandleTable_new (garbage : list Z) : HandleTable :=
  Clear {| objects := replicate (Z.to_nat MAX_COUNT) None; generations := garbage;
           table_size := to_u16 MAX_COUNT; next_generation := 1; next_free_slot := 0 |}.

Definition SetSize (t : HandleTable) (handle_table_size : Z) : HandleTable * Z :=
  if MAX_COUNT <? to_u32 handle_table_size then (t, ERR_OUT_OF_MEMORY)
  else
    ((if 0 <? handle_table_size then
        {| objects := objects t; generations := generations t; table_size := to_u16 handle_table_size;
           next_generation := next_generation t; next_free_slot := next_free_slot t |}
      else t), RESULT_SUCCESS).

Definition Create (t : HandleTable) (obj : option Object) : HandleTable * ResultVal Z :=
  let slot := next_free_slot t in
  if table_size t <=? slot then (t, Error ERR_HANDLE_TABLE_FULL)
  else
    let free := (generations t).[slot] in
    let generation := next_generation t in
    let next := to_u16 (generation + 1) in
    let next := if 1 << 15 <=? next then 1 else next in
    ({| objects := <[Z.to_nat slot := obj]> (objects t);
        generations := upd (generations t) slot generation;
        table_size := table_size t; next_generation := next; next_free_slot := free |},
     MakeResult (to_u32 (generation .| (slot << 15)))).

Definition IsValid (t : HandleTable) (handle : Z) : bool :=
  let slot := GetSlot handle in
  let generation := GetGeneration handle in
  (slot <? table_size t)
  && (match object_at t slot with Some _ => true | None => false end)
  && ((generations t).[slot] =? generation).

Definition Close (t : HandleTable) (handle : Z) : HandleTable * Z :=
  if negb (IsValid t handle) then (t, ERR_INVALID_HANDLE)
  else
    let slot := GetSlot handle in
    ({| objects := <[Z.to_nat slot := None]> (objects t);
        generations := upd (generations t) slot (next_free_slot t);
        table_size := table_size t; next_generation := next_generation t; next_free_slot := slot |},
     RESULT_SUCCESS).

Section Kernel.
(** What [kernel.CurrentScheduler().GetCurrentThread()] and
    [kernel.CurrentProcess()] return. *)
Context (current_thread current_process : option Object).

Definition GetGeneric (t : HandleTable) (handle : Z) : option Object :=
  if handle =? CurrentThread then current_thread
  else if handle =? CurrentProcess then current_process
  else if negb (IsValid t handle) then None
  else object_at t (GetSlot handle).

Definition Get (ty : HandleType) (t : HandleTable) (handle : Z) : option Object :=
  DynamicObjectCast ty (GetGeneric t handle).

Definition Duplicate (t : HandleTable) (handle : Z) : HandleTable * ResultVal Z :=
  match GetGeneric t handle with
  | None => (t, Error ERR_INVALID_HANDLE)
  | Some object => Create t (Some object)
  end.
End Kernel.

End HandleTable.
Import HandleTable.

(** ** The free list

    [chain gs i l e]: from slot [i], the links in [gs] run through the slots
    [l] and end at [e]. *)
Fixpoint chain (gs : list Z) (i : Z) (l : list Z) (e : Z) : Prop :=
  match l with
  | [] => i = e
  | s :: l => i = s /\ chain gs (gs.[s]) l e
  end.

Lemma chain_upd gs i l e s v :
  0 <= s -> (Z.to_nat s < length gs)%nat -> Forall (fun x => 0 <= x) l -> s ∉ l ->
  chain gs i l e -> chain (upd gs s v) i l e.
Proof.
  intros Hs Hl. revert i. induction l as [|x l IH]; intros i Hp Hn; [done|].
  apply Forall_cons in Hp as [Hx Hp]. apply not_elem_of_cons in Hn as [Hne Hn].
  intros [-> Hc]. split; [done|]. rewrite rd_upd by done.
  destruct (Z.eqb_spec s x); [done|]. auto.
Qed.

(** The well-formedness of a table with free slots [fl]: the links that
    start at [next_free_slot] visit exactly the empty slots below
    [table_size], once each, and leave the table; the slots in use carry a
    15-bit generation that is not zero. *)
Record wf_list (t : HandleTable) (fl : list Z) (e : Z) : Prop := {
  wf_objects : length (objects t) = Z.to_nat MAX_COUNT;
  wf_generations : length (generations t) = Z.to_nat MAX_COUNT;
  wf_size : 0 < table_size t <= MAX_COUNT;
  wf_next : 1 <= next_generation t < 2 ^ 15;
  wf_end : table_size t <= e <= MAX_COUNT;
  wf_chain : chain (generations t) (next_free_slot t) fl e;
  wf_nodup : NoDup fl;
  wf_free i : i ∈ fl <-> 0 <= i < table_size t /\ object_at t i = None;
  wf_used i o : 0 <= i < table_size t -> object_at t i = Some o -> 1 <= (generations t).[i] < 2 ^ 15;
}.
Definition wf (t : HandleTable) : Prop := exists fl e, wf_list t fl e.

Lemma object_at_insert t i j v gs n f ts :
  0 <= i -> 0 <= j -> (Z.to_nat i < length (objects t))%nat ->
  object_at {| objects := <[Z.to_nat i := v]> (objects t); generations := gs; table_size := ts;
               next_generation := n; next_free_slot := f |} j
  = if i =? j then v else object_at t j.
Proof.
  intros Hi Hj Hl. unfold object_at. cbn [objects]. rewrite !nth_lookup.
  destruct (Z.eqb_spec i j) as [->|Hne].
  - by rewrite list_lookup_insert_eq.
  - by rewrite list_lookup_insert_ne by lia.
Qed.

Lemma wf_slot t fl e i : wf_list t fl e -> 0 <= i < table_size t -> (Z.to_nat i < Z.to_nat MAX_COUNT)%nat.
Proof. intros H Hi. pose proof (wf_size _ _ _ H). lia. Qed.

Lemma wf_fl_nonneg t fl e : wf_list t fl e -> Forall (fun x => 0 <= x) fl.
Proof. intros H. apply Forall_forall. intros x Hx. apply (wf_free _ _ _ H) in Hx. lia. Qed.

(** *** Create *)

Definition next_gen (g : Z) : Z := if g + 1 =? 2 ^ 15 then 1 else g + 1.

Lemma next_gen_range g : 1 <= g < 2 ^ 15 -> 1 <= next_gen g < 2 ^ 15.
Proof. intros H. unfold next_gen. destruct (Z.eqb_spec (g + 1) (2 ^ 15)); lia. Qed.

(** The two outcomes of [Create] on a well-formed table. *)
Lemma Create_full t e o : wf_list t [] e -> Create t o = (t, Error ERR_HANDLE_TABLE_FULL).
Proof.
  intros H. unfold Create. pose proof (wf_chain _ _ _ H) as Hc. pose proof (wf_end _ _ _ H). cbn in Hc.
  rewrite Hc. destruct (Z.leb_spec (table_size t) e); [done|lia].
Qed.

Definition created (t : HandleTable) (s : Z) (o : option Object) : HandleTable :=
  {| objects := <[Z.to_nat s := o]> (objects t); generations := upd (generations t) s (next_generation t);
     table_size := table_size t; next_generation := next_gen (next_generation t);
     next_free_slot := (generations t).[s] |}.

Lemma Create_free t s fl e o :
  wf_list t (s :: fl) e ->
  Create t o = (created t s o, MakeResult (next_generation t + s * 2 ^ 15)).
Proof.
  intros H. destruct (wf_chain _ _ _ H) as [Hs _]. pose proof (wf_next _ _ _ H) as Hn.
  destruct (proj1 (wf_free _ _ _ H s)) as [Hr _]; [set_solver|]. pose proof (wf_size _ _ _ H) as Hz.
  unfold MAX_COUNT in Hz. unfold Create. rewrite Hs.
  destruct (Z.leb_spec (table_size t) s); [lia|].
  rewrite lor_shiftl_add, to_u32_id by (unfold is_u32; lia).
  rewrite to_u16_id by (unfold is_u16; lia). unfold created, next_gen.
  change (1 << 15) with (2 ^ 15). do 2 f_equal.
  destruct (Z.leb_spec (2 ^ 15) (next_generation t + 1)), (Z.eqb_spec (next_generation t + 1) (2 ^ 15)); lia.
Qed.

Lemma created_wf t s fl e o : wf_list t (s :: fl) e -> wf_list (created t s (Some o)) fl e.
Proof.
  intros H. destruct (wf_chain _ _ _ H) as [Hs Hc]. destruct (proj1 (wf_free _ _ _ H s)) as [Hr _]; [set_solver|].
  pose proof (wf_slot _ _ _ s H Hr) as Hsl. pose proof (wf_fl_nonneg _ _ _ H) as Hp.
  apply Forall_cons in Hp as [_ Hp]. pose proof (wf_nodup _ _ _ H) as Hd. apply NoDup_cons in Hd as [Hni Hd].
  destruct H as [Ho Hg Hz Hn He _ _ Hf Hu]. unfold created.
  split; cbn [objects generations table_size next_generation next_free_slot].
  - by rewrite length_insert.
  - unfold upd. by rewrite length_insert.
  - done.
  - by apply next_gen_range.
  - done.
  - apply chain_upd; [lia|by rewrite Hg|done|done|done].
  - done.
  - intros i. split.
    + intros Hi. pose proof (proj1 (Hf i) ltac:(set_solver)) as [Hri Hoi]. split; [done|].
      rewrite object_at_insert by (rewrite ?Ho; lia || done).
      destruct (Z.eqb_spec s i) as [->|]; [done|done].
    + intros [Hri Hoi]. rewrite object_at_insert in Hoi by (rewrite ?Ho; lia || done).
      destruct (Z.eqb_spec s i) as [->|]; [done|]. pose proof (proj2 (Hf i) (conj Hri Hoi)). set_solver.
  - intros i o' Hri. rewrite object_at_insert, rd_upd by (rewrite ?Ho, ?Hg; lia || done).
    destruct (Z.eqb_spec s i); [done|]. by apply Hu.
Qed.

(** *** Close *)

Definition closed (t : HandleTable) (s : Z) : HandleTable :=
  {| objects := <[Z.to_nat s := None]> (objects t); generations := upd (generations t) s (next_free_slot t);
     table_size := table_size t; next_generation := next_generation t; next_free_slot := s |}.

Lemma closed_wf t s o fl e :
  wf_list t fl e -> 0 <= s < table_size t -> object_at t s = Some o -> wf_list (closed t s) (s :: fl) e.
Proof.
  intros H Hr Hso. pose proof (wf_slot _ _ _ s H Hr) as Hsl. pose proof (wf_fl_nonneg _ _ _ H) as Hp.
  assert (s ∉ fl) as Hni. { intros Hi. apply (wf_free _ _ _ H) in Hi as [_ Hi]. congruence. }
  destruct H as [Ho Hg Hz Hn He Hc Hd Hf Hu]. unfold closed.
  split; cbn [objects generations table_size next_generation next_free_slot].
  - by rewrite length_insert.
  - unfold upd. by rewrite length_insert.
  - done.
  - done.
  - done.
  - cbn [chain]. split; [done|]. rewrite rd_upd by (rewrite ?Hg; lia || done). rewrite Z.eqb_refl.
    apply chain_upd; [lia|by rewrite Hg|done|done|done].
  - by apply NoDup_cons.
  - intros i. rewrite elem_of_cons, Hf. split.
    + intros [->|[Hri Hoi]]; (split; [done|]); rewrite object_at_insert by (rewrite ?Ho; lia || done).
      * by rewrite Z.eqb_refl.
      * by destruct (Z.eqb_spec s i).
    + intros [Hri Hoi]. rewrite object_at_insert in Hoi by (rewrite ?Ho; lia || done).
      destruct (Z.eqb_spec s i); [by left|by right].
  - intros i o' Hri. rewrite object_at_insert, rd_upd by (rewrite ?Ho, ?Hg; lia || done).
    destruct (Z.eqb_spec s i); [done|]. by apply Hu.
Qed.

(** *** Clear, the constructor and SetSize *)

Lemma clear_loop_spec n : forall i os gs,
  0 <= i -> (Z.to_nat i + n <= length os)%nat -> (Z.to_nat i + n <= length gs)%nat ->
  i + Z.of_nat n <= MAX_COUNT ->
  let '(os', gs') := clear_loop n i os gs in
  length os' = length os /\ length gs' = length gs
  /\ forall j, 0 <= j ->
     nth (Z.to_nat j) os' None = (if (i <=? j) && (j <? i + Z.of_nat n) then None else nth (Z.to_nat j) os None)
     /\ gs'.[j] = if (i <=? j) && (j <? i + Z.of_nat n) then j + 1 else gs.[j].
Proof.
  induction n as [|n IH]; intros i os gs Hi Ho Hg Hm; cbn [clear_loop].
  { split_and!; [done|done|]. intros j Hj.
    destruct (Z.leb_spec i j), (Z.ltb_spec j (i + Z.of_nat 0)); cbn [andb]; done || lia. }
  specialize (IH (i + 1) (<[Z.to_nat i := None]> os) (upd gs i (to_u16 (i + 1))) ltac:(lia)).
  unfold upd in IH at 1. rewrite !length_insert in IH. specialize (IH ltac:(lia) ltac:(lia) ltac:(lia)).
  destruct (clear_loop n _ _ _) as [os' gs']. unfold upd in IH at 1. rewrite length_insert in IH.
  destruct IH as (Lo & Lg & IH). split_and!; [done|done|]. intros j Hj. destruct (IH j Hj) as [-> ->].
  rewrite rd_upd by lia. rewrite to_u16_id by (unfold is_u16, MAX_COUNT in *; lia). rewrite !nth_lookup.
  destruct (Z.leb_spec i j), (Z.leb_spec (i + 1) j), (Z.ltb_spec j (i + 1 + Z.of_nat n)),
    (Z.ltb_spec j (i + Z.of_nat (S n))), (Z.eqb_spec i j) as [->|]; cbn [andb]; try lia; try done.
  all: split; [|done]; first [by rewrite list_lookup_insert_eq by lia|by rewrite list_lookup_insert_ne by lia].
Qed.

Lemma chain_seqZ gs n : forall i,
  (forall j, i <= j < i + Z.of_nat n -> gs.[j] = j + 1) -> chain gs i (seqZ i (Z.of_nat n)) (i + Z.of_nat n).
Proof.
  induction n as [|n IH]; intros i H; [rewrite seqZ_nil by lia; cbn [chain]; lia|].
  rewrite seqZ_cons by lia. cbn [chain]. split; [done|]. rewrite H by lia.
  replace (Z.pred (Z.of_nat (S n))) with (Z.of_nat n) by lia. unfold Z.succ.
  replace (i + Z.of_nat (S n)) with (i + 1 + Z.of_nat n) by lia. apply IH. intros j Hj. apply H. lia.
Qed.

Lemma wf_fresh t :
  length (objects t) = Z.to_nat MAX_COUNT -> length (generations t) = Z.to_nat MAX_COUNT ->
  0 < table_size t <= MAX_COUNT -> 1 <= next_generation t < 2 ^ 15 -> next_free_slot t = 0 ->
  (forall i, 0 <= i < table_size t -> object_at t i = None /\ (generations t).[i] = i + 1) ->
  wf_list t (seqZ 0 (table_size t)) (table_size t).
Proof.
  intros Ho Hg Hz Hn Hf Hi. split; [done|done|done|done|lia| |apply NoDup_seqZ| |].
  - rewrite Hf. rewrite <- (Z2Nat.id (table_size t)) by lia. apply chain_seqZ. intros j Hj. apply Hi. lia.
  - intros i. rewrite elem_of_seqZ. split; [intros Hr; split; [lia|apply Hi; lia]|lia].
  - intros i o Hr E. destruct (Hi i Hr). congruence.
Qed.

Lemma Clear_spec t :
  length (objects t) = Z.to_nat MAX_COUNT -> length (generations t) = Z.to_nat MAX_COUNT ->
  0 < table_size t <= MAX_COUNT ->
  length (objects (Clear t)) = Z.to_nat MAX_COUNT /\ length (generations (Clear t)) = Z.to_nat MAX_COUNT
  /\ table_size (Clear t) = table_size t /\ next_generation (Clear t) = next_generation t
  /\ next_free_slot (Clear t) = 0
  /\ (forall i, 0 <= i < table_size t -> object_at (Clear t) i = None /\ (generations (Clear t)).[i] = i + 1).
Proof.
  intros Ho Hg Hz. unfold Clear.
  pose proof (clear_loop_spec (Z.to_nat (table_size t)) 0 (objects t) (generations t)) as H.
  destruct (clear_loop _ _ _ _) as [os gs]. destruct H as (Lo & Lg & H); [lia|lia|lia|lia|].
  cbn [objects generations table_size next_generation next_free_slot].
  split_and!; [by rewrite Lo|by rewrite Lg|done|done|done|]. intros i Hi. destruct (H i ltac:(lia)) as [E1 E2].
  unfold object_at. cbn [objects]. rewrite E1, E2.
  destruct (Z.leb_spec 0 i), (Z.ltb_spec i (0 + Z.of_nat (Z.to_nat (table_size t)))); cbn [andb]; done || lia.
Qed.

Lemma Clear_wf t fl e : wf_list t fl e -> wf_list (Clear t) (seqZ 0 (table_size t)) (table_size t).
Proof.
  intros H. destruct (Clear_spec t (wf_objects _ _ _ H) (wf_generations _ _ _ H) (wf_size _ _ _ H))
    as (Lo & Lg & Ez & En & Ef & Hi). pose proof (wf_size _ _ _ H). pose proof (wf_next _ _ _ H).
  rewrite <- Ez. apply wf_fresh; rewrite ?Ez, ?En; done.
Qed.

(** A table as [Process] sets it up: the constructor, then [SetSize]. *)
Lemma SetSize_new_wf garbage n :
  length garbage = Z.to_nat MAX_COUNT -> - 2 ^ 31 <= n < 2 ^ 31 ->
  wf (fst (SetSize (HandleTable_new garbage) n)).
Proof.
  intros Lg Hn. unfold HandleTable_new. set (t0 := {| objects := _ |}).
  destruct (Clear_spec t0) as (Lo' & Lg' & Ez & En & Ef & Hi); [by apply length_replicate|done|done|].
  set (t := Clear t0) in *. clearbody t. change (table_size t0) with MAX_COUNT in *.
  change (next_generation t0) with 1 in *. unfold SetSize.
  destruct (Z.ltb_spec MAX_COUNT (to_u32 n)) as [Hbig|Hsmall].
  { eexists _, _. apply wf_fresh; cbn [fst]; rewrite ?Ez, ?En; done. }
  destruct (Z.ltb_spec 0 n) as [Hpos|Hneg].
  - rewrite to_u32_id in Hsmall by (unfold is_u32; lia).
    assert (to_u16 n = n) as E by (apply to_u16_id; unfold is_u16, MAX_COUNT in *; lia).
    eexists _, _. apply wf_fresh; cbn [fst objects generations table_size next_generation next_free_slot];
      rewrite ?E, ?En; try done.
    intros i Hr. apply Hi. lia.
  - eexists _, _. apply wf_fresh; cbn [fst]; rewrite ?Ez, ?En; done.
Qed.

(** ** The abstract table: a finite map from handles to objects *)

Definition handle_of (t : HandleTable) (slot : Z) : Z := (generations t).[slot] + slot * 2 ^ 15.

Definition live (t : HandleTable) : list (Z * Object) :=
  omap (fun i => (fun o => (handle_of t i, o)) <$> object_at t i) (seqZ 0 (table_size t)).
Definition abs (t : HandleTable) : gmap Z Object := list_to_map (live t).

Lemma NoDup_omap_key {A B} (f : A -> option (Z * B)) (key : A -> Z) (l : list A) :
  NoDup l -> (forall i p, f i = Some p -> p.1 = key i) ->
  (forall i j p q, i ∈ l -> j ∈ l -> f i = Some p -> f j = Some q -> key i = key j -> i = j) ->
  NoDup ((omap f l).*1).
Proof.
  intros Hd Hk. induction Hd as [|x l Hx Hd IH]; intros Hinj; [constructor|].
  assert (NoDup ((omap f l).*1)) as IH' by (apply IH; intros; eapply Hinj; eauto; set_solver).
  cbn. destruct (f x) as [p|] eqn:E; [|exact IH']. rewrite fmap_cons. apply NoDup_cons. split; [|exact IH'].
  intros ([k b] & Ep & Hq)%list_elem_of_fmap. apply list_elem_of_omap in Hq as (y & Hy & Ey).
  apply Hx. replace x with y; [done|]. cbn in Ep.
  eapply (Hinj y x); [set_solver|set_solver|exact Ey|exact E|].
  rewrite <- (Hk _ _ Ey), <- (Hk _ _ E). done.
Qed.

Section Abs.
Context (t : HandleTable) (fl : list Z) (e : Z) (H : wf_list t fl e).

Lemma handle_of_inj i j o o' :
  0 <= i < table_size t -> 0 <= j < table_size t -> object_at t i = Some o -> object_at t j = Some o' ->
  handle_of t i = handle_of t j -> i = j.
Proof.
  intros Hi Hj Ei Ej. pose proof (wf_used _ _ _ H i o Hi Ei). pose proof (wf_used _ _ _ H j o' Hj Ej).
  unfold handle_of. lia.
Qed.

Lemma live_keys : NoDup ((live t).*1).
Proof.
  apply NoDup_omap_key with (key := handle_of t); [apply NoDup_seqZ| |].
  - intros i p. destruct (object_at t i); [|done]. cbn. by intros [= <-].
  - intros i j p q Hi%elem_of_seqZ Hj%elem_of_seqZ Ei Ej.
    destruct (object_at t i) eqn:Oi, (object_at t j) eqn:Oj; try done.
    eapply handle_of_inj; [lia|lia|done|done].
Qed.

Lemma abs_lookup h o :
  abs t !! h = Some o <-> exists i, 0 <= i < table_size t /\ object_at t i = Some o /\ h = handle_of t i.
Proof.
  unfold abs. rewrite <- elem_of_list_to_map by apply live_keys. unfold live. rewrite list_elem_of_omap.
  split.
  - intros (i & Hi%elem_of_seqZ & E). exists i. destruct (object_at t i); [|done].
    cbn in E. injection E as <- <-. split_and!; [lia|lia|done|done].
  - intros (i & Hi & E & ->). exists i. rewrite E. split; [apply elem_of_seqZ; lia|done].
Qed.

Lemma length_omap_filter {A B} (f : A -> option B) (l : list A) :
  (length (omap f l) + length (filter (fun x => f x = None) l))%nat = length l.
Proof.
  induction l as [|x l IH]; [done|]. rewrite filter_cons. cbn.
  destruct (f x) eqn:E; case_decide; cbn; try congruence; fold (omap f l); lia.
Qed.

Lemma free_perm : fl ≡ₚ filter (fun i => object_at t i = None) (seqZ 0 (table_size t)).
Proof.
  apply NoDup_Permutation; [exact (wf_nodup _ _ _ H)|apply NoDup_filter, NoDup_seqZ|].
  intros i. rewrite (wf_free _ _ _ H), list_elem_of_filter, elem_of_seqZ. split; intros []; split; done || lia.
Qed.

Lemma size_abs : Z.of_nat (size (abs t)) + Z.of_nat (length fl) = table_size t.
Proof.
  unfold abs. rewrite map_size_list_to_map by apply live_keys. unfold live.
  pose proof (length_omap_filter (fun i => (fun o => (handle_of t i, o)) <$> object_at t i)
    (seqZ 0 (table_size t))) as L. rewrite length_seqZ in L. rewrite (Permutation_length free_perm).
  pose proof (wf_size _ _ _ H).
  assert (filter (fun i => object_at t i = None) (seqZ 0 (table_size t))
    = filter (fun i => (fun o => (handle_of t i, o)) <$> object_at t i = None) (seqZ 0 (table_size t))) as ->.
  { apply list_filter_iff. intros i. by destruct (object_at t i). }
  lia.
Qed.
End Abs.

Lemma GetSlot_div h : GetSlot h = (h / 2 ^ 15) mod 2 ^ 16.
Proof. unfold GetSlot. by rewrite to_u16_mod, Z.shiftr_div_pow2 by lia. Qed.

Lemma GetGeneration_mod h : GetGeneration h = h mod 2 ^ 15.
Proof.
  unfold GetGeneration. change 0x7FFF with (Z.ones 15). rewrite Z.land_ones by lia.
  apply to_u16_id. unfold is_u16. pose proof (Z.mod_pos_bound h (2 ^ 15)). lia.
Qed.

(** A handle is looked up by its low 31 bits. *)
Lemma abs_handle t fl e h :
  wf_list t fl e -> abs t !! (h mod 2 ^ 31) = if IsValid t h then object_at t (GetSlot h) else None.
Proof.
  intros H. unfold IsValid.
  assert (h mod 2 ^ 31 = GetGeneration h + GetSlot h * 2 ^ 15) as Eh.
  { rewrite GetSlot_div, GetGeneration_mod. zlia. }
  assert (0 <= GetSlot h) as Hs by (rewrite GetSlot_div; apply Z.mod_pos_bound; lia).
  assert (0 <= GetGeneration h < 2 ^ 15) as Hg by (rewrite GetGeneration_mod; apply Z.mod_pos_bound; lia).
  apply option_eq. intros o. rewrite (abs_lookup _ _ _ H), Eh. unfold handle_of. split.
  - intros (i & Hi & Eo & E). pose proof (wf_used _ _ _ H i o Hi Eo). assert (GetSlot h = i) as -> by lia.
    rewrite Eo. destruct (Z.ltb_spec i (table_size t)), (Z.eqb_spec ((generations t).[i]) (GetGeneration h));
      cbn [andb]; done || lia.
  - destruct (Z.ltb_spec (GetSlot h) (table_size t)); [|done]. destruct (object_at t (GetSlot h)) as [o'|] eqn:Eo; [|done].
    cbn [andb]. destruct (Z.eqb_spec ((generations t).[GetSlot h]) (GetGeneration h)) as [Eg|]; [|done].
    intros [= ->]. exists (GetSlot h). rewrite Eg. split_and!; done.
Qed.

Lemma abs_created t s fl e o :
  wf_list t (s :: fl) e ->
  abs t !! (next_generation t + s * 2 ^ 15) = None
  /\ abs (created t s (Some o)) = <[next_generation t + s * 2 ^ 15 := o]> (abs t).
Proof.
  intros H. pose proof (created_wf _ _ _ _ o H) as H'. destruct (proj1 (wf_free _ _ _ H s)) as [Hr Hno]; [set_solver|].
  pose proof (wf_slot _ _ _ s H Hr) as Hsl. pose proof (wf_next _ _ _ H) as Hn.
  pose proof (wf_objects _ _ _ H) as Lo. pose proof (wf_generations _ _ _ H) as Lg.
  assert (forall i, 0 <= i < table_size t -> object_at (created t s (Some o)) i = if s =? i then Some o else object_at t i) as Eo
    by (intros; apply object_at_insert; lia).
  assert (forall i, 0 <= i < table_size t -> handle_of (created t s (Some o)) i
    = if s =? i then next_generation t + s * 2 ^ 15 else handle_of t i) as Eh.
  { intros i Hi. unfold handle_of, created. cbn [generations]. rewrite rd_upd by lia.
    destruct (Z.eqb_spec s i) as [->|]; done. }
  assert (forall i o', 0 <= i < table_size t -> object_at t i = Some o' ->
    handle_of t i <> next_generation t + s * 2 ^ 15) as Hne.
  { intros i o' Hi E. pose proof (wf_used _ _ _ H i o' Hi E). unfold handle_of. intros Heq.
    assert (s = i) by lia. congruence. }
  split.
  { apply eq_None_not_Some. intros [o' Hl]. apply (abs_lookup _ _ _ H) in Hl as (i & Hi & E & E').
    by apply (Hne i o'). }
  apply map_eq. intros h. apply option_eq. intros o'. rewrite (abs_lookup _ _ _ H'), lookup_insert_Some, (abs_lookup _ _ _ H).
  change (table_size (created t s (Some o))) with (table_size t). split.
  - intros (i & Hi & E & ->). rewrite Eo, Eh in * by done. destruct (Z.eqb_spec s i) as [->|].
    + left. split; [done|congruence].
    + right. split; [symmetry; by apply (Hne i o')|]. by exists i.
  - intros [[<- ->]|[Hh (i & Hi & E & ->)]].
    + exists s. by rewrite Eo, Eh, Z.eqb_refl by done.
    + exists i. rewrite Eo, Eh by done. destruct (Z.eqb_spec s i) as [->|]; [congruence|done].
Qed.

Lemma abs_closed t s o fl e :
  wf_list t fl e -> 0 <= s < table_size t -> object_at t s = Some o ->
  abs (closed t s) = delete (handle_of t s) (abs t).
Proof.
  intros H Hr Hso. pose proof (closed_wf _ _ _ _ _ H Hr Hso) as H'. pose proof (wf_slot _ _ _ s H Hr) as Hsl.
  pose proof (wf_objects _ _ _ H) as Lo. pose proof (wf_generations _ _ _ H) as Lg.
  assert (forall i, 0 <= i < table_size t -> object_at (closed t s) i = if s =? i then None else object_at t i) as Eo
    by (intros; apply object_at_insert; lia).
  assert (forall i, 0 <= i < table_size t -> s <> i -> handle_of (closed t s) i = handle_of t i) as Eh.
  { intros i Hi Hne. unfold handle_of, closed. cbn [generations]. rewrite rd_upd by lia.
    destruct (Z.eqb_spec s i); done. }
  apply map_eq. intros h. apply option_eq. intros o'. rewrite (abs_lookup _ _ _ H'), lookup_delete_Some, (abs_lookup _ _ _ H).
  change (table_size (closed t s)) with (table_size t). split.
  - intros (i & Hi & E & ->). rewrite Eo in E by done. destruct (Z.eqb_spec s i) as [->|Hne]; [done|].
    rewrite Eh by done. split; [|by exists i]. intros Heq. apply Hne.
    by apply (handle_of_inj _ _ _ H s i o o').
  - intros [Hne (i & Hi & E & ->)]. exists i. rewrite Eo by done.
    destruct (Z.eqb_spec s i) as [->|Hsi]; [done|]. by rewrite Eh.
Qed.

Lemma abs_Clear t fl e : wf_list t fl e -> abs (Clear t) = ∅.
Proof.
  intros H. pose proof (Clear_wf _ _ _ H) as H'. apply map_empty. intros h. apply eq_None_not_Some.
  intros [o Hl]. apply (abs_lookup _ _ _ H') in Hl as (i & Hi & E & _).
  destruct (Clear_spec t (wf_objects _ _ _ H) (wf_generations _ _ _ H) (wf_size _ _ _ H))
    as (_ & _ & Ez & _ & _ & Hc). rewrite Ez in Hi. destruct (Hc i Hi). congruence.
Qed.

(** ** Runs of a table *)

(** The calls a process makes on its table.  [Create] asserts that its
    object is not null. *)
Inductive call :=
  | CCreate (o : Object)
  | CDuplicate (handle : Z)
  | CClose (handle : Z)
  | CClear.

Section Runs.
Context (current_thread current_process : option Object).
Abbreviation GetGeneric := (GetGeneric current_thread current_process).
Abbreviation Duplicate := (Duplicate current_thread current_process).

Definition exec (t : HandleTable) (c : call) : HandleTable :=
  match c with
  | CCreate o => fst (Create t (Some o))
  | CDuplicate h => fst (Duplicate t h)
  | CClose h => fst (Close t h)
  | CClear => Clear t
  end.

Inductive reachable : HandleTable -> Prop :=
  | reach_new garbage n :
      length garbage = Z.to_nat MAX_COUNT -> - 2 ^ 31 <= n < 2 ^ 31 ->
      reachable (fst (SetSize (HandleTable_new garbage) n))
  | reach_call t c : reachable t -> reachable (exec t c).

Lemma Create_wf t o : wf t -> wf (fst (Create t (Some o))).
Proof.
  intros (fl & e & H). destruct fl as [|s fl].
  - rewrite (Create_full _ _ _ H). by exists [], e.
  - rewrite (Create_free _ _ _ _ _ H). exists fl, e. by apply created_wf.
Qed.

(** What [Close] does on a well-formed table, by the validity of the handle. *)
Lemma Close_cases t fl e h :
  wf_list t fl e ->
  (IsValid t h = false /\ Close t h = (t, ERR_INVALID_HANDLE))
  \/ (exists o, IsValid t h = true /\ 0 <= GetSlot h < table_size t /\ object_at t (GetSlot h) = Some o
      /\ handle_of t (GetSlot h) = h mod 2 ^ 31 /\ Close t h = (closed t (GetSlot h), RESULT_SUCCESS)).
Proof.
  intros H. unfold Close. destruct (IsValid t h) eqn:Ev; [right|by left]. unfold IsValid in Ev.
  apply andb_prop in Ev as [[Hs Ho]%andb_prop Hg]. apply Z.ltb_lt in Hs. apply Z.eqb_eq in Hg.
  destruct (object_at t (GetSlot h)) as [o|]; [|done]. exists o. split_and!; try done.
  - rewrite GetSlot_div. apply Z.mod_pos_bound. lia.
  - unfold handle_of. rewrite Hg, GetSlot_div, GetGeneration_mod. zlia.
Qed.

Lemma exec_wf t c : wf t -> wf (exec t c).
Proof.
  intros Hwf. destruct c as [o|h|h|]; cbn [exec].
  - by apply Create_wf.
  - unfold HandleTable.Duplicate. destruct (GetGeneric t h); [by apply Create_wf|done].
  - destruct Hwf as (fl & e & H). destruct (Close_cases t fl e h H) as [[_ ->]|(o & _ & Hr & Ho & _ & ->)].
    + by exists fl, e.
    + eexists _, e. by eapply closed_wf.
  - destruct Hwf as (fl & e & H). eexists _, _. by eapply Clear_wf.
Qed.

Lemma reachable_wf t : reachable t -> wf t.
Proof. induction 1; [by apply SetSize_new_wf|by apply exec_wf]. Qed.

Lemma Create_abs t fl e o :
  wf_list t fl e -> Z.of_nat (size (abs t)) <> table_size t ->
  exists t' h, Create t (Some o) = (t', MakeResult h) /\ 0 < h < 2 ^ 25
               /\ abs t !! h = None /\ abs t' = <[h := o]> (abs t).
Proof.
  intros H Hd. pose proof (size_abs _ _ _ H) as Hs. destruct fl as [|s fl]; [cbn in Hs; lia|].
  rewrite (Create_free _ _ _ _ _ H). eexists _, _. destruct (abs_created _ _ _ _ o H) as [Hn ->].
  destruct (proj1 (wf_free _ _ _ H s)) as [? _]; [set_solver|].
  pose proof (wf_next _ _ _ H). pose proof (wf_size _ _ _ H). unfold MAX_COUNT in *. split_and!; done || lia.
Qed.

Lemma Create_exact t fl e :
  wf_list t fl e -> forall o,
  if decide (Z.of_nat (size (abs t)) = table_size t)
  then Create t (Some o) = (t, Error ERR_HANDLE_TABLE_FULL)
  else exists t' h, Create t (Some o) = (t', MakeResult h) /\ 0 < h < 2 ^ 25
                    /\ abs t !! h = None /\ abs t' = <[h := o]> (abs t).
Proof.
  intros H o. case_decide as Hd; [|by eapply Create_abs]. pose proof (size_abs _ _ _ H) as Hs.
  destruct fl as [|s fl]; [|cbn in Hs; lia]. by eapply Create_full.
Qed.

(** The slot of a pseudo handle is past the end of every table. *)
Lemma Close_pseudo t fl e h : wf_list t fl e -> GetSlot h = 0xFFFF -> Close t h = (t, ERR_INVALID_HANDLE).
Proof.
  intros H Es. pose proof (wf_size _ _ _ H) as Hz. unfold Close, IsValid. rewrite Es.
  destruct (Z.ltb_spec 0xFFFF (table_size t)); [unfold MAX_COUNT in *; lia|done].
Qed.

(** In every table a process can reach, from the constructor and
    [SetSize] by any calls, the links that start at [next_free_slot] visit
    each empty slot exactly once and no slot in use, and every slot in use
    holds a generation of 15 bits that is not zero. *)
Theorem handle_table_invariant t : reachable t -> wf t.
Proof. apply reachable_wf. Qed.

(** C4: a reachable table is a finite map from handles to objects.
    [Create] of an object fails exactly when [table_size] handles are open, and
    else binds a handle that was not bound, is not zero and is no pseudo handle.
    For a handle with bit 31 clear, [GetGeneric] looks it up, and [Close]
    deletes it when it is bound and refuses it without a change otherwise; the
    two pseudo handles give the current thread and process and cannot be
    closed.  [Duplicate] of any handle fails when the handle gives no object,
    fails as [Create] when the table is full, and else binds the object of the
    handle to a new one.  [Clear] empties the map.  No handle that [Create]
    gives has bit 31 set; for other handles with that bit see
    [handle_sign_bit_ignored]. *)
Theorem handle_table_refines_map t :
  reachable t ->
  (forall o,
     if decide (Z.of_nat (size (abs t)) = table_size t)
     then Create t (Some o) = (t, Error ERR_HANDLE_TABLE_FULL)
     else exists t' h, Create t (Some o) = (t', MakeResult h) /\ 0 < h < 2 ^ 25
                       /\ abs t !! h = None /\ abs t' = <[h := o]> (abs t))
  /\ (forall h, 0 <= h < 2 ^ 31 -> GetGeneric t h = abs t !! h)
  /\ GetGeneric t CurrentThread = current_thread /\ GetGeneric t CurrentProcess = current_process
  /\ (forall h, 0 <= h < 2 ^ 31 ->
        match abs t !! h with
        | Some _ => exists t', Close t h = (t', RESULT_SUCCESS) /\ abs t' = delete h (abs t)
        | None => Close t h = (t, ERR_INVALID_HANDLE)
        end)
  /\ Close t CurrentThread = (t, ERR_INVALID_HANDLE) /\ Close t CurrentProcess = (t, ERR_INVALID_HANDLE)
  /\ (forall h, match GetGeneric t h with
                | Some o =>
                    if decide (Z.of_nat (size (abs t)) = table_size t)
                    then Duplicate t h = (t, Error ERR_HANDLE_TABLE_FULL)
                    else exists t' h', Duplicate t h = (t', MakeResult h') /\ 0 < h' < 2 ^ 25
                                       /\ abs t !! h' = None /\ abs t' = <[h' := o]> (abs t)
                | None => Duplicate t h = (t, Error ERR_INVALID_HANDLE)
                end)
  /\ abs (Clear t) = ∅.
Proof.
  intros Hr. destruct (reachable_wf t Hr) as (fl & e & H). pose proof (Create_exact t fl e H) as Hcreate. split_and!.
  - exact Hcreate.
  - intros h Hh. unfold HandleTable.GetGeneric. rewrite <- (Z.mod_small h (2 ^ 31)) at 5 by lia. rewrite (abs_handle _ _ _ h H).
    unfold CurrentThread, CurrentProcess. rewrite !(proj2 (Z.eqb_neq h _)) by lia. by destruct (IsValid t h).
  - done.
  - done.
  - intros h Hh. pose proof (abs_handle _ _ _ h H) as Ha. rewrite Z.mod_small in Ha by lia. rewrite Ha.
    destruct (Close_cases t fl e h H) as [[-> ->]|(o & -> & Hs & Ho & Eh & ->)]; [done|].
    rewrite Ho. eexists. split; [done|]. rewrite Z.mod_small in Eh by lia. rewrite <- Eh at 2. by eapply abs_closed.
  - by eapply Close_pseudo.
  - by eapply Close_pseudo.
  - intros h. unfold HandleTable.Duplicate. destruct (GetGeneric t h) as [o|]; [apply Hcreate|done].
  - by eapply abs_Clear.
Qed.

(** *** Stale handles *)

(** The generation [k] creations after [g]. *)
Definition gen_at (g : Z) (k : nat) : Z := (g - 1 + Z.of_nat k) mod 32767 + 1.

Lemma gen_at_0 g : 1 <= g < 2 ^ 15 -> gen_at g 0 = g.
Proof. intros H. unfold gen_at. rewrite Z.mod_small; lia. Qed.

Lemma gen_at_S g k : gen_at g (S k) = next_gen (gen_at g k).
Proof. unfold gen_at, next_gen. destruct (Z.eqb_spec ((g - 1 + Z.of_nat k) mod 32767 + 1 + 1) (2 ^ 15)); zlia. Qed.

Lemma gen_at_ne g k : 1 <= g < 2 ^ 15 -> 1 <= Z.of_nat k < 32767 -> gen_at g k <> g.
Proof.
  intros H Hk. unfold gen_at. pose proof (Z.div_mod (g - 1 + Z.of_nat k) 32767 ltac:(lia)).
  intros E. assert ((g - 1 + Z.of_nat k) mod 32767 = g - 1) by lia. lia.
Qed.

(** Slot [s] of [t], [k] creations after it was given generation [g] and
    object [o]: untouched while [alive], else empty or taken over by one of
    the later creations. *)
Record tracked (s g : Z) (o : Object) (k : nat) (alive : bool) (t : HandleTable) : Prop := {
  tr_wf : wf t;
  tr_next : next_generation t = gen_at g (S k);
  tr_slot : 0 <= s < table_size t;
  tr_state :
    if alive then object_at t s = Some o /\ (generations t).[s] = g
    else object_at t s = None \/ exists j, (1 <= j <= k)%nat /\ (generations t).[s] = gen_at g j;
}.

Lemma created_state t s' fl e o' s :
  wf_list t (s' :: fl) e -> 0 <= s < table_size t ->
  object_at (created t s' (Some o')) s = (if s' =? s then Some o' else object_at t s)
  /\ (generations (created t s' (Some o'))).[s] = if s' =? s then next_generation t else (generations t).[s].
Proof.
  intros H Hs. destruct (proj1 (wf_free _ _ _ H s')) as [Hr _]; [set_solver|].
  pose proof (wf_slot _ _ _ s' H Hr) as Hl. pose proof (wf_objects _ _ _ H). pose proof (wf_generations _ _ _ H).
  split; [apply object_at_insert; lia|apply rd_upd; lia].
Qed.

Lemma tracked_Create s g o k alive t o' :
  tracked s g o k alive t ->
  exists k', (k' <= S k)%nat /\ tracked s g o k' alive (fst (Create t (Some o'))).
Proof.
  intros [Hwf Hn Hs Hst]. pose proof (Create_wf t o' Hwf) as Hwf'. destruct Hwf as (fl & e & H).
  destruct fl as [|s' fl].
  - exists k. rewrite (Create_full _ _ _ H) in *. split; [lia|by split].
  - exists (S k). rewrite (Create_free _ _ _ _ _ H) in *. cbn [fst] in *. split; [lia|].
    destruct (created_state t s' fl e o' s H Hs) as [Eo Eg].
    destruct (proj1 (wf_free _ _ _ H s')) as [_ He]; [set_solver|].
    split; [done|cbn [created next_generation]; by rewrite Hn, <- gen_at_S|done|].
    rewrite Eo, Eg. destruct (Z.eqb_spec s' s) as [->|]; destruct alive; cbn iota in *.
    + destruct Hst. congruence.
    + right. exists (S k). split; [lia|done].
    + done.
    + destruct Hst as [?|(j & Hj & Ej)]; [by left|right]. exists j. split; [lia|done].
Qed.

Definition kills (h : Z) (c : call) : bool :=
  match c with
  | CClose h' => h' mod 2 ^ 31 =? h
  | CClear => true
  | _ => false
  end.

Lemma tracked_Close s g o k alive t h' :
  tracked s g o k alive t ->
  tracked s g o k (alive && negb (h' mod 2 ^ 31 =? g + s * 2 ^ 15)) (fst (Close t h')).
Proof.
  intros [Hwf Hn Hs Hst]. pose proof Hwf as (fl & e & H).
  destruct (Close_cases t fl e h' H) as [[Hv ->]|(o' & Hv & Hr & Ho & Eh & ->)]; cbn [fst].
  - split; [done|done|done|]. destruct alive; [|done]. cbn [andb].
    destruct (Z.eqb_spec (h' mod 2 ^ 31) (g + s * 2 ^ 15)) as [E|]; [|done]. cbn [negb]. exfalso.
    pose proof (abs_handle t fl e h' H) as Ha. rewrite Hv in Ha.
    destruct Hst as [Hso Hsg]. enough (abs t !! (h' mod 2 ^ 31) = Some o) by congruence.
    apply (abs_lookup _ _ _ H). exists s. unfold handle_of. rewrite Hsg. done.
  - pose proof (wf_slot _ _ _ _ H Hr) as Hl. pose proof (wf_objects _ _ _ H) as Lo.
    pose proof (wf_generations _ _ _ H) as Lg.
    split; [eexists _, _; by eapply closed_wf|done|done|].
    unfold closed. rewrite object_at_insert by lia. cbn [generations]. rewrite rd_upd by lia.
    destruct (Z.eqb_spec (GetSlot h') s) as [E|E].
    + destruct (alive && negb (h' mod 2 ^ 31 =? g + s * 2 ^ 15)) eqn:Ea; [|by left].
      apply andb_prop in Ea as [-> Ea]. destruct Hst as [_ Hsg].
      rewrite <- Eh in Ea. unfold handle_of in Ea. rewrite E, Hsg, Z.eqb_refl in Ea. done.
    + destruct alive; [|done]. cbn [andb].
      destruct (Z.eqb_spec (h' mod 2 ^ 31) (g + s * 2 ^ 15)) as [E'|]; [|done]. cbn [negb]. exfalso. apply E.
      destruct Hst as [Hso Hsg]. rewrite <- Eh in E'. symmetry.
      apply (handle_of_inj t fl e H s (GetSlot h') o o'); try done. unfold handle_of at 1. by rewrite Hsg.
Qed.

Definition creates (c : call) : bool := match c with CCreate _ | CDuplicate _ => true | _ => false end.

Lemma tracked_exec s g o k alive t c :
  tracked s g o k alive t ->
  exists k', (k' <= k + if creates c then 1 else 0)%nat
             /\ tracked s g o k' (alive && negb (kills (g + s * 2 ^ 15) c)) (exec t c).
Proof.
  intros H. destruct c as [o'|h|h|]; cbn [exec creates kills]; rewrite ?andb_true_r.
  - destruct (tracked_Create _ _ _ _ _ _ o' H) as (k' & Hk & H'). exists k'. split; [lia|done].
  - unfold HandleTable.Duplicate. destruct (GetGeneric t h) as [o'|].
    + destruct (tracked_Create _ _ _ _ _ _ o' H) as (k' & Hk & H'). exists k'. split; [lia|done].
    + exists k. split; [lia|done].
  - exists k. split; [lia|]. by apply tracked_Close.
  - exists k. split; [lia|]. rewrite andb_false_r. destruct H as [Hwf Hn Hs _]. pose proof Hwf as (fl & e & H).
    destruct (Clear_spec t (wf_objects _ _ _ H) (wf_generations _ _ _ H) (wf_size _ _ _ H))
      as (_ & _ & Ez & En & _ & Hc).
    split; [eexists _, _; by eapply Clear_wf|by rewrite En|by rewrite Ez|left; by apply Hc].
Qed.

Lemma tracked_run s g o cs : forall k alive t,
  tracked s g o k alive t ->
  exists k', (k' <= k + length (filter (fun c => creates c = true) cs))%nat
             /\ tracked s g o k' (alive && negb (existsb (kills (g + s * 2 ^ 15)) cs)) (foldl exec t cs).
Proof.
  induction cs as [|c cs IH]; intros k alive t H.
  { exists k. cbn. rewrite andb_true_r. split; [lia|done]. }
  destruct (tracked_exec _ _ _ _ _ _ c H) as (k1 & Hk1 & H1). destruct (IH _ _ _ H1) as (k2 & Hk2 & H2).
  exists k2. cbn [foldl existsb]. rewrite filter_cons. split.
  - destruct (creates c) eqn:E; case_decide; cbn [length] in *; done || lia.
  - by rewrite negb_orb, andb_assoc.
Qed.

(** C5: a handle is never stale.  From the call that created it, through
    any calls with fewer than 32767 creations among them, the handle looks
    up its own object as long as neither [Clear] nor [Close] on it has run,
    and null from then on, although its slot may have been used again. *)
Theorem handle_names_its_object t o t1 h cs :
  reachable t -> Create t (Some o) = (t1, MakeResult h) ->
  Z.of_nat (length (filter (fun c => creates c = true) cs)) < 32767 ->
  GetGeneric (foldl exec t1 cs) h = if existsb (kills h) cs then None else Some o.
Proof.
  intros Hr HC Hlen. pose proof (reachable_wf t Hr) as Hwf. pose proof (Create_wf t o Hwf) as Hwf1.
  destruct Hwf as (fl & e & H). destruct fl as [|s fl]; [by rewrite (Create_full _ _ _ H) in HC|].
  rewrite (Create_free _ _ _ _ _ H) in HC, Hwf1. injection HC as <- <-. set (g := next_generation t).
  pose proof (wf_next _ _ _ H) as Hg. destruct (proj1 (wf_free _ _ _ H s)) as [Hs _]; [set_solver|].
  pose proof (wf_size _ _ _ H) as Hz. destruct (created_state t s fl e o s H Hs) as [Eo Eg].
  rewrite Z.eqb_refl in Eo, Eg.
  assert (tracked s g o 0 true (created t s (Some o))) as H0.
  { split; [done|cbn [created next_generation]; by rewrite gen_at_S, gen_at_0|done|done]. }
  destruct (tracked_run _ _ _ cs _ _ _ H0) as (k & Hk & [Hwf' Hn' Hs' Hst]).
  set (t2 := foldl exec _ cs) in *. clearbody t2. destruct Hwf' as (fl' & e' & H').
  unfold HandleTable.GetGeneric, MAX_COUNT in *.
  rewrite (proj2 (Z.eqb_neq _ CurrentThread)) by (unfold CurrentThread; lia).
  rewrite (proj2 (Z.eqb_neq _ CurrentProcess)) by (unfold CurrentProcess; lia).
  pose proof (abs_handle t2 fl' e' (g + s * 2 ^ 15) H') as Ha. rewrite Z.mod_small in Ha by lia.
  transitivity (abs t2 !! (g + s * 2 ^ 15)); [rewrite Ha; by destruct (IsValid t2 _)|]. cbn [andb] in Hst.
  destruct (existsb _ cs); cbn [negb] in Hst.
  - apply eq_None_not_Some. intros [o' (i & Hi & Ei & Eh)%(abs_lookup _ _ _ H')].
    pose proof (wf_used _ _ _ H' i o' Hi Ei). unfold handle_of in Eh. assert (i = s) as -> by lia.
    destruct Hst as [?|(j & Hj & Ej)]; [congruence|]. apply (gen_at_ne g j); [done|lia|lia].
  - apply (abs_lookup _ _ _ H'). exists s. destruct Hst as [? Hg']. unfold handle_of. by rewrite Hg'.
Qed.
End Runs.

(** The sign bit of a handle is not looked at: the cast of the slot to 16
    bits drops it. *)
Lemma handle_sign_bit_ignored t h : 0 <= h < 2 ^ 31 -> IsValid t (h + 2 ^ 31) = IsValid t h.
Proof.
  intros Hh. assert (GetSlot (h + 2 ^ 31) = GetSlot h) as Es by (rewrite !GetSlot_div; zlia).
  assert (GetGeneration (h + 2 ^ 31) = GetGeneration h) as Eg by (rewrite !GetGeneration_mod; zlia).
  unfold IsValid. by rewrite Es, Eg.
Qed.

(** A negative size is refused, although the comment in [SetSize] lets it
    select the maximum. *)
Lemma SetSize_negative t n : - 2 ^ 31 <= n < 0 -> SetSize t n = (t, ERR_OUT_OF_MEMORY).
Proof.
  intros Hn. unfold SetSize. rewrite to_u32_mod.
  replace (n mod 2 ^ 32) with (n + 2 ^ 32) by (apply Z.mod_unique with (q := -1); lia).
  destruct (Z.ltb_spec MAX_COUNT (n + 2 ^ 32)); [done|unfold MAX_COUNT in *; lia].
Qed.

(** ** Witnesses *)

Definition sample_thread : Object := {| object_id := 7; GetHandleType := Thread |}.
Definition sample_event : Object := {| object_id := 8; GetHandleType := WritableEvent |}.
Definition sample_table : HandleTable :=
  exec None None (fst (SetSize (HandleTable_new (replicate (Z.to_nat MAX_COUNT) 0xABCD)) 3)) (CCreate sample_event).

Lemma sample_table_reachable : reachable None None sample_table.
Proof. apply reach_call, reach_new; [by apply length_replicate|lia]. Qed.

Lemma handle_table_invariant_witness : wf sample_table.
Proof. apply (handle_table_invariant None None). exact sample_table_reachable. Defined.

Lemma handle_table_refines_map_witness :
  GetGeneric None None sample_table 1 = abs sample_table !! 1 /\ abs (Clear sample_table) = ∅.
Proof.
  destruct (handle_table_refines_map None None sample_table sample_table_reachable) as (_ & HG & _ & _ & _ & _ & _ & _ & HC).
  split; [apply (HG 1); lia|exact HC].
Defined.

Lemma handle_names_its_object_witness :
  GetGeneric None None
    (foldl (exec None None) (fst (Create sample_table (Some sample_thread)))
       [CClose (2 + 2 ^ 15); CCreate sample_event]) (2 + 2 ^ 15) = None.
Proof.
  apply (handle_names_its_object None None sample_table sample_thread _ (2 + 2 ^ 15)
    [CClose (2 + 2 ^ 15); CCreate sample_event]).
  - exact sample_table_reachable.
  - vm_compute. reflexivity.
  - vm_compute. reflexivity.
Defined.
