(* ===== verification/BitUtil.v ===== *)
(** * Bit scans on 64-bit words

    [src/src/common/bit_util.h]: the positions of the lowest and the highest
    bit set, and the masks the queues and bitmaps of the kernel build with
    [1ULL << n].  A shift by 64 or more is undefined in C++ and is [None]
    here. *)

From S2P Require Import Prelude.

Fixpoint ctz_pos (p : positive) : Z :=
  match p with
  | xO p => 1 + ctz_pos p
  | _ => 0
  end.

(** [CountTrailingZeroes64]: [__builtin_ctzll], and 64 on zero. *)
Definition CountTrailingZeroes64 (value : Z) : Z :=
  match value with
  | Zpos p => ctz_pos p
  | _ => 64
  end.

(** [CountLeadingZeroes64]: [__builtin_clzll], and 64 on zero. *)
Definition CountLeadingZeroes64 (value : Z) : Z := if value =? 0 then 64 else 63 - Z.log2 value.

(** [~x] on [u64]. *)
Definition u64_not (x : Z) : Z := to_u64 (Z.lnot x).

(** [1ULL << n]. *)
Definition shl1 (n : Z) : option Z := if (0 <=? n) && (n <? 64) then Some (1 << n) else None.

Lemma shl1_some n : 0 <= n < 64 -> shl1 n = Some (2 ^ n).
Proof.
  intros H. unfold shl1. rewrite Z.shiftl_1_l.
  destruct (Z.leb_spec 0 n), (Z.ltb_spec n 64); cbn [andb]; done || lia.
Qed.

Lemma shl1_none n : 64 <= n -> shl1 n = None.
Proof. intros H. unfold shl1. destruct (Z.ltb_spec n 64); [lia|]. by rewrite andb_false_r. Qed.

(** ** Bit scans *)

Lemma ctz_pos_nonneg p : 0 <= ctz_pos p.
Proof. induction p; cbn [ctz_pos]; lia. Qed.

Lemma ctz_pos_spec p : Z.testbit (Zpos p) (ctz_pos p) = true /\ forall i, 0 <= i < ctz_pos p -> Z.testbit (Zpos p) i = false.
Proof.
  induction p as [p _|p IH|]; cbn [ctz_pos]; [split; [done|lia]| |split; [done|lia]].
  pose proof (ctz_pos_nonneg p). destruct IH as [IH1 IH2]. rewrite Pos2Z.inj_xO. split.
  - rewrite Z.add_1_l, Z.double_bits_succ. done.
  - intros i Hi. destruct (Z.eq_dec i 0) as [->|]; [apply Z.testbit_even_0|].
    replace i with (Z.succ (i - 1)) by lia. rewrite Z.double_bits_succ. apply IH2. lia.
Qed.

Section Ctz.
Context (v : Z) (Hv : 0 < v < 2 ^ 64).

Lemma ctz_bit : Z.testbit v (CountTrailingZeroes64 v) = true.
Proof. destruct v as [|p|p]; [lia|apply ctz_pos_spec|lia]. Qed.

Lemma ctz_below i : 0 <= i < CountTrailingZeroes64 v -> Z.testbit v i = false.
Proof. destruct v as [|p|p]; [lia|apply ctz_pos_spec|lia]. Qed.

Lemma ctz_range : 0 <= CountTrailingZeroes64 v < 64.
Proof.
  pose proof ctz_bit as Hb. assert (0 <= CountTrailingZeroes64 v).
  { destruct v; [lia|apply ctz_pos_nonneg|lia]. }
  split; [done|]. destruct (Z.lt_ge_cases (CountTrailingZeroes64 v) 64); [done|].
  rewrite (testbit_high 64) in Hb by lia. done.
Qed.

(** [63 - CountLeadingZeroes64 v] is the position of the highest bit. *)
Lemma clz_log2 : 63 - CountLeadingZeroes64 v = Z.log2 v.
Proof. unfold CountLeadingZeroes64. destruct (Z.eqb_spec v 0); lia. Qed.

Lemma log2_range : 0 <= Z.log2 v < 64.
Proof. split; [apply Z.log2_nonneg|apply Z.log2_lt_pow2; lia]. Qed.
End Ctz.

(** ** Masks *)

Lemma land_u64_not v m : is_u64 v -> v .& u64_not m = Z.ldiff v m.
Proof.
  intros Hv. apply Z.bits_inj'. intros i Hi. unfold u64_not, to_u64.
  change 0xFFFFFFFFFFFFFFFF with (Z.ones 64).
  rewrite Z.ldiff_spec, !Z.land_spec, Z.lnot_spec, Z.testbit_ones_nonneg by lia.
  destruct (Z.ltb_spec i 64); [by rewrite andb_true_r|].
  by rewrite (testbit_high 64 v) by done.
Qed.

Lemma testbit_pow2 k i : 0 <= k -> Z.testbit (2 ^ k) i = (i =? k).
Proof. intros Hk. rewrite Z.pow2_bits_eqb by done. apply Z.eqb_sym. Qed.

Lemma testbit_low_mask k i : 0 <= k -> 0 <= i -> Z.testbit (2 ^ k - 1) i = (i <? k).
Proof.
  intros Hk Hi. replace (2 ^ k - 1) with (Z.ones k) by (rewrite Z.ones_equiv; lia).
  by apply Z.testbit_ones_nonneg.
Qed.

Lemma ldiff_u64 v m : is_u64 v -> is_u64 (Z.ldiff v m).
Proof.
  intros Hv. apply range_of_bits; [lia|apply Z.ldiff_nonneg; left; apply Hv|].
  intros n Hn. rewrite Z.ldiff_spec. by rewrite (testbit_high 64 v) by done.
Qed.

Lemma lor_u64 a b : is_u64 a -> is_u64 b -> is_u64 (Z.lor a b).
Proof. apply (lor_range 64). lia. Qed.

Lemma pow2_u64 n : 0 <= n < 64 -> is_u64 (2 ^ n).
Proof. intros H. split; [apply Z.pow_nonneg; lia|apply Z.pow_lt_mono_r; lia]. Qed.

(** A nonnegative word is zero when none of its bits is set. *)
Lemma u64_zero_bits v : is_u64 v -> (v = 0 <-> forall i, 0 <= i < 64 -> Z.testbit v i = false).
Proof.
  intros Hv. split; [intros ->; intros; apply Z.bits_0|]. intros H. apply Z.bits_inj'. intros i Hi.
  rewrite Z.bits_0. destruct (Z.lt_ge_cases i 64); [by apply H|]. by apply (testbit_high 64).
Qed.

#[export] Hint Resolve ldiff_u64 lor_u64 pow2_u64 : widths.

(** ** 64-bit arithmetic and alignment ([src/src/common/alignment.h]) *)

Notation "a '+!' b" := (to_u64 (a + b)) (at level 50, left associativity) : c_scope.
Notation "a '-!' b" := (to_u64 (a - b)) (at level 50, left associativity) : c_scope.
Notation "a '*!' b" := (to_u64 (a * b)) (at level 40, left associativity) : c_scope.
Notation "a '<<!' b" := (to_u64 (a << b)) (at level 45, left associativity) : c_scope.

Definition AlignUp (value size : Z) : Z :=
  let mod_ := value mod size in
  let value := value -! mod_ in
  if mod_ =? 0 then value else value +! size.

Definition AlignDown (value size : Z) : Z := value -! (value mod size).

Definition IsAligned (value alignment : Z) : bool := value .& (alignment -! 1) =? 0.

(** Removes the wrap-around of operations that stay in range. *)
Ltac unwrap := repeat (rewrite to_u64_id by (unfold is_u64 in *; first [lia | nia])).

Lemma AlignDown_div v s : 0 <= v < 2 ^ 64 -> 0 < s -> AlignDown v s = s * (v / s).
Proof.
  intros Hv Hs. unfold AlignDown. pose proof (Z.mod_pos_bound v s Hs). pose proof (Z.div_mod v s).
  pose proof (Z.mod_le v s). rewrite to_u64_id by (unfold is_u64; lia). lia.
Qed.

Lemma AlignUp_div v s : 0 <= v -> v + s <= 2 ^ 64 -> 0 < s -> AlignUp v s = s * ((v + s - 1) / s).
Proof.
  intros H0 Hv Hs. unfold AlignUp. pose proof (Z.mod_pos_bound v s Hs) as Hm. pose proof (Z.div_mod v s ltac:(lia)) as Hd.
  assert (0 <= v / s) by (apply Z.div_pos; lia).
  rewrite (to_u64_id (v - v mod s)) by (unfold is_u64; nia). destruct (Z.eqb_spec (v mod s) 0) as [E|E].
  - replace ((v + s - 1) / s) with (v / s); [lia|]. apply Z.div_unique with (r := s - 1); lia.
  - replace ((v + s - 1) / s) with (v / s + 1); [rewrite to_u64_id by (unfold is_u64; lia); lia|].
    apply Z.div_unique with (r := v mod s - 1); lia.
Qed.
