(* ===== verification/ProcessCapability.v ===== *)
(** * Process capabilities

    [Kernel::ProcessCapabilities]
    ([src/src/core/hle/kernel/process_capability.cpp]): the descriptors of a
    program's metadata that say which system calls, interrupts, cores and
    priorities its process may use.  The two [std::bitset] are integers read
    with [Z.testbit].  A handler returns the capabilities it leaves, also when
    it fails, and a result code; [None] is undefined behaviour (a shift by the
    width of the type).  The page table that the mapping handlers take is not
    used by them and is left out. *)

From S2P Require Import Prelude BitUtil KernelObject HandleTable.
From stdpp Require Import base list.
Open Scope Z_scope.
Open Scope c_scope.

Module ProcessCapability.

(** ** Types of descriptors *)

Definition CapabilityOffset_PriorityAndCoreNum : Z := 3.
Definition CapabilityOffset_Syscall : Z := 4.
Definition CapabilityOffset_MapPhysical : Z := 6.
Definition CapabilityOffset_MapIO : Z := 7.
Definition CapabilityOffset_Interrupt : Z := 11.
Definition CapabilityOffset_ProgramType : Z := 13.
Definition CapabilityOffset_KernelVersion : Z := 14.
Definition CapabilityOffset_HandleTableSize : Z := 15.
Definition CapabilityOffset_Debug : Z := 16.

Definition InitializeOnceMask : Z :=
  (1 << CapabilityOffset_PriorityAndCoreNum) .| (1 << CapabilityOffset_ProgramType)
  .| (1 << CapabilityOffset_KernelVersion) .| (1 << CapabilityOffset_HandleTableSize)
  .| (1 << CapabilityOffset_Debug).

Definition PackedKernelVersion : Z := 0x520000.

(** [enum class CapabilityType]. *)
Definition Unset : Z := 0.
Definition PriorityAndCoreNum : Z := (1 << CapabilityOffset_PriorityAndCoreNum) - 1.
Definition Syscall : Z := (1 << CapabilityOffset_Syscall) - 1.
Definition MapPhysical : Z := (1 << CapabilityOffset_MapPhysical) - 1.
Definition MapIO : Z := (1 << CapabilityOffset_MapIO) - 1.
Definition Interrupt : Z := (1 << CapabilityOffset_Interrupt) - 1.
Definition ProgramType : Z := (1 << CapabilityOffset_ProgramType) - 1.
Definition KernelVersion : Z := (1 << CapabilityOffset_KernelVersion) - 1.
Definition HandleTableSize : Z := (1 << CapabilityOffset_HandleTableSize) - 1.
Definition Debug : Z := (1 << CapabilityOffset_Debug) - 1.
Definition Ignorable : Z := 0xFFFFFFFF.

Definition GetCapabilityType (value : Z) : Z :=
  to_u32 ((to_u32 (Z.lnot value) .& to_u32 (value + 1)) - 1).

(** [Common::CountLeadingZeroes32]. *)
Definition CountLeadingZeroes32 (value : Z) : Z := if value =? 0 then 32 else 31 - Z.log2 value.

Definition GetFlagBitOffset (ty : Z) : Z := 32 - CountLeadingZeroes32 ty.

(** ** The capabilities *)

Record ProcessCapabilities := {
  svc_capabilities : Z;
  interrupt_capabilities : Z;
  core_mask : Z;
  priority_mask : Z;
  handle_table_size : Z;
  kernel_version : Z;
  program_type : Z;
  is_debuggable : bool;
  can_force_debug : bool;
}.

Definition svc_capabilities_size : Z := 128.
Definition interrupt_capabilities_size : Z := 1024.

Definition set_svc (c : ProcessCapabilities) (s : Z) : ProcessCapabilities :=
  {| svc_capabilities := s; interrupt_capabilities := interrupt_capabilities c; core_mask := core_mask c;
     priority_mask := priority_mask c; handle_table_size := handle_table_size c; kernel_version := kernel_version c;
     program_type := program_type c; is_debuggable := is_debuggable c; can_force_debug := can_force_debug c |}.
Definition set_interrupts (c : ProcessCapabilities) (s : Z) : ProcessCapabilities :=
  {| svc_capabilities := svc_capabilities c; interrupt_capabilities := s; core_mask := core_mask c;
     priority_mask := priority_mask c; handle_table_size := handle_table_size c; kernel_version := kernel_version c;
     program_type := program_type c; is_debuggable := is_debuggable c; can_force_debug := can_force_debug c |}.
Definition set_masks (c : ProcessCapabilities) (cores priorities : Z) : ProcessCapabilities :=
  {| svc_capabilities := svc_capabilities c; interrupt_capabilities := interrupt_capabilities c; core_mask := cores;
     priority_mask := priorities; handle_table_size := handle_table_size c; kernel_version := kernel_version c;
     program_type := program_type c; is_debuggable := is_debuggable c; can_force_debug := can_force_debug c |}.
Definition set_handles (c : ProcessCapabilities) (n : Z) : ProcessCapabilities :=
  {| svc_capabilities := svc_capabilities c; interrupt_capabilities := interrupt_capabilities c;
     core_mask := core_mask c; priority_mask := priority_mask c; handle_table_size := n;
     kernel_version := kernel_version c; program_type := program_type c; is_debuggable := is_debuggable c;
     can_force_debug := can_force_debug c |}.
Definition set_version (c : ProcessCapabilities) (v : Z) : ProcessCapabilities :=
  {| svc_capabilities := svc_capabilities c; interrupt_capabilities := interrupt_capabilities c;
     core_mask := core_mask c; priority_mask := priority_mask c; handle_table_size := handle_table_size c;
     kernel_version := v; program_type := program_type c; is_debuggable := is_debuggable c;
     can_force_debug := can_force_debug c |}.
Definition set_program_type (c : ProcessCapabilities) (ty : Z) : ProcessCapabilities :=
  {| svc_capabilities := svc_capabilities c; interrupt_capabilities := interrupt_capabilities c;
     core_mask := core_mask c; priority_mask := priority_mask c; handle_table_size := handle_table_size c;
     kernel_version := kernel_version c; program_type := ty; is_debuggable := is_debuggable c;
     can_force_debug := can_force_debug c |}.
Definition set_debug (c : ProcessCapabilities) (d f : bool) : ProcessCapabilities :=
  {| svc_capabilities := svc_capabilities c; interrupt_capabilities := interrupt_capabilities c;
     core_mask := core_mask c; priority_mask := priority_mask c; handle_table_size := handle_table_size c;
     kernel_version := kernel_version c; program_type := program_type c; is_debuggable := d; can_force_debug := f |}.

(** [ProcessCapabilities::Clear]; [ProgramType::SysModule] is 0. *)
Definition Clear : ProcessCapabilities :=
  {| svc_capabilities := 0; interrupt_capabilities := 0; core_mask := 0; priority_mask := 0; handle_table_size := 0;
     kernel_version := 0; program_type := 0; is_debuggable := false; can_force_debug := false |}.

(** ** Handlers *)

(** The lambda [make_mask]. *)
Definition make_mask (min max : Z) : option Z :=
  let range := max -! min +! 1 in
  one ← shl1 range;
  let mask := one -! 1 in
  Some (mask <<! min).

Definition HandlePriorityCoreNumFlags (c : ProcessCapabilities) (flags : Z) : option (ProcessCapabilities * Z) :=
  if negb (priority_mask c =? 0) || negb (core_mask c =? 0) then Some (c, ERR_INVALID_CAPABILITY_DESCRIPTOR)
  else
    let core_num_min := (flags >> 16) .& 0xFF in
    let core_num_max := (flags >> 24) .& 0xFF in
    if core_num_max <? core_num_min then Some (c, ERR_INVALID_COMBINATION)
    else
      let priority_min := (flags >> 10) .& 0x3F in
      let priority_max := (flags >> 4) .& 0x3F in
      if priority_max <? priority_min then Some (c, ERR_INVALID_COMBINATION)
      else if 4 <=? core_num_max then Some (c, ERR_INVALID_PROCESSOR_ID)
      else
        cores ← make_mask core_num_min core_num_max;
        priorities ← make_mask priority_min priority_max;
        Some (set_masks c cores priorities, RESULT_SUCCESS).

(** The loop of [HandleSyscallFlags], [n] rounds from [i]. *)
Fixpoint svc_loop (n : nat) (i index svc_mask svcs : Z) : Z * Z :=
  match n with
  | O => (svcs, RESULT_SUCCESS)
  | S n =>
      let svc_number := index * 24 + i in
      if svc_mask .& (1 << i) =? 0 then svc_loop n (i + 1) index svc_mask svcs
      else if svc_capabilities_size <=? svc_number then (svcs, ERR_OUT_OF_RANGE)
      else svc_loop n (i + 1) index svc_mask (Z.setbit svcs svc_number)
  end.

Definition HandleSyscallFlags (c : ProcessCapabilities) (set_svc_bits flags : Z) : ProcessCapabilities * Z * Z :=
  let index := flags >> 29 in
  let svc_bit := 1 << index in
  if negb (set_svc_bits .& svc_bit =? 0) then (c, set_svc_bits, ERR_INVALID_COMBINATION)
  else
    let set_svc_bits := set_svc_bits .| svc_bit in
    let svc_mask := (flags >> 5) .& 0xFFFFFF in
    let '(svcs, result) := svc_loop 24 0 index svc_mask (svc_capabilities c) in
    (set_svc c svcs, set_svc_bits, result).

Definition HandleMapPhysicalFlags (c : ProcessCapabilities) (flags size_flags : Z) : ProcessCapabilities * Z :=
  (c, RESULT_SUCCESS).

Definition HandleMapIOFlags (c : ProcessCapabilities) (flags : Z) : ProcessCapabilities * Z := (c, RESULT_SUCCESS).

Fixpoint interrupt_loop (l : list Z) (ints : Z) : Z * Z :=
  match l with
  | [] => (ints, RESULT_SUCCESS)
  | interrupt :: l =>
      if interrupt =? 0x3FF then interrupt_loop l ints
      else if interrupt_capabilities_size <=? interrupt then (ints, ERR_OUT_OF_RANGE)
      else interrupt_loop l (Z.setbit ints interrupt)
  end.

Definition HandleInterruptFlags (c : ProcessCapabilities) (flags : Z) : ProcessCapabilities * Z :=
  let interrupt0 := (flags >> 12) .& 0x3FF in
  let interrupt1 := (flags >> 22) .& 0x3FF in
  let '(ints, result) := interrupt_loop [interrupt0; interrupt1] (interrupt_capabilities c) in
  (set_interrupts c ints, result).

Definition HandleProgramTypeFlags (c : ProcessCapabilities) (flags : Z) : ProcessCapabilities * Z :=
  let reserved := flags >> 17 in
  if negb (reserved =? 0) then (c, ERR_RESERVED_VALUE)
  else (set_program_type c ((flags >> 14) .& 7), RESULT_SUCCESS).

Definition HandleKernelVersionFlags (c : ProcessCapabilities) (flags : Z) : ProcessCapabilities * Z :=
  let major_version := kernel_version c >> 19 in
  if negb (major_version =? 0) || (flags <? 0x80000) then (c, ERR_INVALID_CAPABILITY_DESCRIPTOR)
  else (set_version c flags, RESULT_SUCCESS).

Definition HandleHandleTableFlags (c : ProcessCapabilities) (flags : Z) : ProcessCapabilities * Z :=
  let reserved := flags >> 26 in
  if negb (reserved =? 0) then (c, ERR_RESERVED_VALUE)
  else (set_handles c ((flags >> 16) .& 0x3FF), RESULT_SUCCESS).

Definition HandleDebugFlags (c : ProcessCapabilities) (flags : Z) : ProcessCapabilities * Z :=
  let reserved := flags >> 19 in
  if negb (reserved =? 0) then (c, ERR_RESERVED_VALUE)
  else (set_debug c (negb (flags .& 0x20000 =? 0)) (negb (flags .& 0x40000 =? 0)), RESULT_SUCCESS).

(** ** The parser *)

(** The parser's two local variables. *)
Record ParseState := { set_flags : Z; set_svc_bits : Z }.

Definition ParseSingleFlagCapability (c : ProcessCapabilities) (s : ParseState) (flag : Z)
    : option (ProcessCapabilities * ParseState * Z) :=
  let ty := GetCapabilityType flag in
  if ty =? Unset then Some (c, s, ERR_INVALID_CAPABILITY_DESCRIPTOR)
  else if ty =? Ignorable then Some (c, s, RESULT_SUCCESS)
  else
    let flag_length := GetFlagBitOffset ty in
    let set_flag := to_u32 (1 << flag_length) in
    if negb (set_flag .& set_flags s .& InitializeOnceMask =? 0) then Some (c, s, ERR_INVALID_COMBINATION)
    else
      let s := {| set_flags := set_flags s .| set_flag; set_svc_bits := set_svc_bits s |} in
      let ret '(c, result) := Some (c, s, result) in
      if ty =? PriorityAndCoreNum then cr ← HandlePriorityCoreNumFlags c flag; ret cr
      else if ty =? Syscall then
        let '(c, bits, result) := HandleSyscallFlags c (set_svc_bits s) flag in
        Some (c, {| set_flags := set_flags s; set_svc_bits := bits |}, result)
      else if ty =? MapIO then ret (HandleMapIOFlags c flag)
      else if ty =? Interrupt then ret (HandleInterruptFlags c flag)
      else if ty =? ProgramType then ret (HandleProgramTypeFlags c flag)
      else if ty =? KernelVersion then ret (HandleKernelVersionFlags c flag)
      else if ty =? HandleTableSize then ret (HandleHandleTableFlags c flag)
      else if ty =? Debug then ret (HandleDebugFlags c flag)
      else ret (c, ERR_INVALID_CAPABILITY_DESCRIPTOR).

Fixpoint parse_loop (c : ProcessCapabilities) (s : ParseState) (capabilities : list Z)
    : option (ProcessCapabilities * Z) :=
  match capabilities with
  | [] => Some (c, RESULT_SUCCESS)
  | descriptor :: rest =>
      if GetCapabilityType descriptor =? MapPhysical then
        match rest with
        | [] => Some (c, ERR_INVALID_COMBINATION)
        | size_flags :: rest =>
            if negb (GetCapabilityType size_flags =? MapPhysical) then Some (c, ERR_INVALID_COMBINATION)
            else
              let '(c, result) := HandleMapPhysicalFlags c descriptor size_flags in
              if negb (result =? RESULT_SUCCESS) then Some (c, result) else parse_loop c s rest
        end
      else
        '(c, s, result) ← ParseSingleFlagCapability c s descriptor;
        if negb (result =? RESULT_SUCCESS) then Some (c, result) else parse_loop c s rest
  end.

Definition ParseCapabilities (c : ProcessCapabilities) (capabilities : list Z) : option (ProcessCapabilities * Z) :=
  parse_loop c {| set_flags := 0; set_svc_bits := 0 |} capabilities.

Definition InitializeForKernelProcess (capabilities : list Z) : option (ProcessCapabilities * Z) :=
  ParseCapabilities (set_version (set_masks Clear 0xF 0xFFFFFFFFFFFFFFFF) PackedKernelVersion) capabilities.

Definition InitializeForUserProcess (capabilities : list Z) : option (ProcessCapabilities * Z) :=
  ParseCapabilities Clear capabilities.

Definition InitializeForMetadatalessProcess (c : ProcessCapabilities) : ProcessCapabilities :=
  {| svc_capabilities := Z.ones svc_capabilities_size; interrupt_capabilities := Z.ones interrupt_capabilities_size;
     core_mask := 0xF; priority_mask := 0xFFFFFFFFFFFFFFFF; handle_table_size := HandleTable.HandleTable.MAX_COUNT;
     kernel_version := PackedKernelVersion; program_type := program_type c; is_debuggable := true;
     can_force_debug := true |}.

End ProcessCapability.
Export ProcessCapability.

(** A user process that may use cores 0 to 2 at priorities 28 to 59, system
    calls 1, 2 and 30, and 512 handles. *)
Definition sample_descriptors : list Z := [0x020073B7; 0x000000CF; 0x2000080F; 0x02007FFF; 0xFFFFFFFF].
Example parse_sample :
  InitializeForUserProcess sample_descriptors
  = Some ({| svc_capabilities := Z.setbit (Z.setbit (Z.setbit 0 1) 2) 30; interrupt_capabilities := 0; core_mask := 7;
             priority_mask := Z.shiftl (Z.ones 32) 28; handle_table_size := 512; kernel_version := 0; program_type := 0;
             is_debuggable := false; can_force_debug := false |}, RESULT_SUCCESS).
Proof. vm_compute. reflexivity. Qed.
