(* ===== verification/ProcessCapabilityCorrect.v ===== *)
(** * The descriptors grant exactly what they say

    The type of a descriptor is its number of trailing ones.  A list of
    descriptors is accepted exactly when every one is well-formed and no two
    conflict, and the process then has the system calls, interrupts, cores,
    priorities and limits that the descriptors name, and no other. *)

From S2P Require Import Prelude BitUtil KernelObject ProcessCapability.
From Stdlib Require Import List.
From stdpp Require Import base list.
Open Scope Z_scope.
Open Scope c_scope.

(** ** Trailing ones *)

(** The number of ones below the lowest zero, counted from bit [i] on. *)
Fixpoint ones_from (n : nat) (i d : Z) : Z :=
  match n with
  | O => i
  | S n => if Z.testbit d i then ones_from n (i + 1) d else i
  end.
Definition trailing_ones (d : Z) : Z := ones_from 32 0 d.

Lemma ones_from_spec n i d : 0 <= i ->
  i <= ones_from n i d <= i + Z.of_nat n
  /\ (forall j, i <= j < ones_from n i d -> Z.testbit d j = true)
  /\ (ones_from n i d < i + Z.of_nat n -> Z.testbit d (ones_from n i d) = false).
Proof.
  revert i. induction n as [|n IH]; intros i Hi; cbn [ones_from]; [split_and!; intros; lia|].
  destruct (Z.testbit d i) eqn:E; [|split_and!; [lia|lia|intros; lia|done]].
  destruct (IH (i + 1) ltac:(lia)) as (H1 & H2 & H3). split_and!; [lia|lia| |intros; apply H3; lia].
  intros j Hj. destruct (Z.eq_dec i j) as [->|]; [done|]. apply H2. lia.
Qed.

Lemma trailing_ones_range d : 0 <= trailing_ones d <= 32.
Proof. pose proof (ones_from_spec 32 0 d ltac:(lia)). unfold trailing_ones. lia. Qed.

(** A descriptor with [k] trailing ones. *)
Lemma trailing_ones_form d : is_u32 d ->
  (trailing_ones d = 32 /\ d = 2 ^ 32 - 1)
  \/ exists q, 0 <= q /\ 0 <= trailing_ones d < 32 /\ d = q * 2 ^ (trailing_ones d + 1) + (2 ^ trailing_ones d - 1).
Proof.
  intros Hd. unfold trailing_ones. destruct (ones_from_spec 32 0 d ltac:(lia)) as (H1 & H2 & H3).
  set (k := ones_from 32 0 d) in *. unfold is_u32 in Hd.
  destruct (Z.eq_dec k 32) as [Ek|Ek]; [left|right].
  - split; [done|]. replace (2 ^ 32 - 1) with (Z.ones 32) by done. apply Z.bits_inj'. intros i Hi.
    rewrite Z.testbit_ones_nonneg by lia. destruct (Z.ltb_spec i 32); [apply H2; lia|].
    apply Z.bits_above_log2; [lia|]. destruct (Z.eq_dec d 0) as [->|]; [cbn; lia|].
    apply Z.lt_le_trans with 32; [apply Z.log2_lt_pow2; lia|lia].
  - exists (d / 2 ^ (k + 1)). split; [apply Z.div_pos; lia|]. split; [lia|].
    rewrite (Z.div_mod d (2 ^ (k + 1))) at 1 by lia. rewrite Z.mul_comm. f_equal.
    replace (2 ^ k - 1) with (Z.ones k) by (rewrite Z.ones_equiv; lia).
    apply Z.bits_inj'. intros i Hi. rewrite Z.testbit_ones_nonneg by lia. rewrite Z.testbit_mod_pow2 by lia.
    destruct (Z.ltb_spec i (k + 1)); cbn [andb]; [|destruct (Z.ltb_spec i k); [lia|done]].
    destruct (Z.ltb_spec i k); [apply H2; lia|]. replace i with k by lia. apply H3. lia.
Qed.

(** The bit trick of [GetCapabilityType]. *)
Lemma GetCapabilityType_spec d : is_u32 d -> GetCapabilityType d = 2 ^ trailing_ones d - 1.
Proof.
  intros Hd. destruct (Z.eq_dec d (2 ^ 32 - 1)) as [->|Hmax]; [done|].
  destruct (trailing_ones_form d Hd) as [[_ ->]|(q & Hq & Hk & Ed)]; [done|].
  set (k := trailing_ones d) in *. unfold GetCapabilityType, is_u32 in *.
  assert (0 < 2 ^ k) as Hp by (apply Z.pow_pos_nonneg; lia). assert (2 ^ k <= 2 ^ 31) by (apply Z.pow_le_mono_r; lia).
  rewrite (to_u32_id (d + 1)) by (unfold is_u32; lia).
  enough (to_u32 (Z.lnot d) .& (d + 1) = 2 ^ k) as -> by (apply to_u32_id; unfold is_u32; lia).
  apply Z.bits_inj'. intros i Hi. rewrite Z.pow2_bits_eqb, Z.land_spec by lia.
  assert (d + 1 = (1 + 2 * q) * 2 ^ k) as E1 by (rewrite Ed, Z.pow_add_r by lia; ring).
  unfold to_u32. change 0xFFFFFFFF with (Z.ones 32). rewrite Z.land_spec, Z.lnot_spec, Z.testbit_ones_nonneg by lia.
  rewrite E1, Z.mul_pow2_bits by lia.
  assert (forall j, k <= j -> Z.testbit d j = if j =? k then false else Z.testbit q (j - k - 1)) as Hb.
  { intros j Hj. replace d with (Z.ones k + Z.shiftl (2 * q) k).
    2: { rewrite Ed, Z.ones_equiv, Z.shiftl_mul_pow2, Z.pow_add_r by lia. lia. }
    rewrite Z.add_nocarry_lxor.
    - rewrite Z.lxor_spec, Z.testbit_ones_nonneg, Z.shiftl_spec by lia. destruct (Z.ltb_spec j k); [lia|].
      rewrite xorb_false_l. destruct (Z.eqb_spec j k) as [->|]; [rewrite Z.sub_diag; apply Z.testbit_even_0|].
      replace (j - k) with (Z.succ (j - k - 1)) at 1 by lia. apply Z.testbit_even_succ. lia.
    - apply Z.bits_inj'. intros i' Hi'. rewrite Z.land_spec, Z.testbit_ones_nonneg, Z.shiftl_spec, Z.bits_0 by lia.
      destruct (Z.ltb_spec i' k); [rewrite Z.testbit_neg_r by lia|]; done. }
  destruct (Z.eqb_spec k i) as [<-|Hne].
  - rewrite Hb, Z.eqb_refl by lia. replace (1 + 2 * q) with (2 * q + 1) by lia.
    rewrite Z.sub_diag, Z.testbit_odd_0. destruct (Z.ltb_spec k 32); [done|lia].
  - destruct (Z.ltb_spec i k); [rewrite (Z.testbit_neg_r _ (i - k)) by lia; apply andb_false_r|].
    rewrite Hb by lia. destruct (Z.eqb_spec i k); [lia|]. replace (1 + 2 * q) with (2 * q + 1) by lia.
    replace (i - k) with (Z.succ (i - k - 1)) at 2 by lia. rewrite Z.testbit_odd_succ by lia.
    destruct (Z.testbit q (i - k - 1)); [done|apply andb_false_r].
Qed.

(** ** What descriptors say *)

Definition core_min (d : Z) : Z := (d >> 16) .& 0xFF.
Definition core_max (d : Z) : Z := (d >> 24) .& 0xFF.
Definition priority_min (d : Z) : Z := (d >> 10) .& 0x3F.
Definition priority_max (d : Z) : Z := (d >> 4) .& 0x3F.

(** A descriptor that can be accepted on its own. *)
Definition well_formed (d : Z) : bool :=
  let k := trailing_ones d in
  if k =? 3 then (core_min d <=? core_max d) && (priority_min d <=? priority_max d) && (core_max d <? 4)
  else if k =? 4 then forallb (fun i => implb (Z.testbit d (5 + i)) ((d >> 29) * 24 + i <? 128)) (seqZ 0 24)
  else if (k =? 7) || (k =? 11) || (k =? 32) then true
  else if k =? 13 then d >> 17 =? 0
  else if k =? 14 then 0x80000 <=? d
  else if k =? 15 then d >> 26 =? 0
  else if k =? 16 then d >> 19 =? 0
  else false.

(** The types that may occur once. *)
Definition once (k : Z) : bool := (k =? 3) || (k =? 13) || (k =? 14) || (k =? 15) || (k =? 16).

(** Two descriptors of a type that may occur once, or for the same group of
    system calls. *)
Definition conflict (d e : Z) : bool :=
  (trailing_ones d =? trailing_ones e)
  && (once (trailing_ones d) || ((trailing_ones d =? 4) && (d >> 29 =? e >> 29))).

(** The descriptors that are not part of a [MapPhysical] pair; [None] when a
    pair is incomplete. *)
Fixpoint singles (l : list Z) : option (list Z) :=
  match l with
  | [] => Some []
  | d :: rest =>
      if trailing_ones d =? 6 then
        match rest with
        | [] => None
        | e :: rest => if trailing_ones e =? 6 then singles rest else None
        end
      else cons d <$> singles rest
  end.

Definition accepted (ds : list Z) : Prop :=
  Forall (fun d => well_formed d = true) ds /\ ForallOrdPairs (fun d e => conflict d e = false) ds.

Definition grants_svc (n d : Z) : bool := (trailing_ones d =? 4) && (n / 24 =? d >> 29) && Z.testbit d (5 + n mod 24).
Definition grants_interrupt (i d : Z) : bool :=
  (trailing_ones d =? 11) && negb (i =? 0x3FF) && ((i =? (d >> 12) .& 0x3FF) || (i =? (d >> 22) .& 0x3FF)).
Definition grants_core (i d : Z) : bool := (trailing_ones d =? 3) && (core_min d <=? i) && (i <=? core_max d).
Definition grants_priority (i d : Z) : bool :=
  (trailing_ones d =? 3) && (priority_min d <=? i) && (i <=? priority_max d).

(** A parameter given by the first descriptor of type [k]. *)
Definition parameter {A} (k : Z) (f : Z -> A) (default : A) (ds : list Z) : A :=
  match find (fun d => trailing_ones d =? k) ds with
  | Some d => f d
  | None => default
  end.

(** The capabilities are those of the descriptors. *)
Record granted (ds : list Z) (c : ProcessCapabilities) : Prop := {
  g_svc : forall n, 0 <= n -> Z.testbit (svc_capabilities c) n = existsb (grants_svc n) ds;
  g_interrupt : forall i, 0 <= i -> Z.testbit (interrupt_capabilities c) i = existsb (grants_interrupt i) ds;
  g_core : forall i, 0 <= i -> Z.testbit (core_mask c) i = existsb (grants_core i) ds;
  g_priority : forall i, 0 <= i -> Z.testbit (priority_mask c) i = existsb (grants_priority i) ds;
  g_handles : handle_table_size c = parameter 15 (fun d => (d >> 16) .& 0x3FF) 0 ds;
  g_version : kernel_version c = parameter 14 (fun d => d) 0 ds;
  g_program : program_type c = parameter 13 (fun d => (d >> 14) .& 7) 0 ds;
  g_debug : is_debuggable c = parameter 16 (fun d => Z.testbit d 17) false ds;
  g_force : can_force_debug c = parameter 16 (fun d => Z.testbit d 18) false ds;
}.

(** What accepting one more descriptor has to do. *)
Record adds (d : Z) (c c' : ProcessCapabilities) : Prop := {
  a_svc : forall n, 0 <= n -> Z.testbit (svc_capabilities c') n = Z.testbit (svc_capabilities c) n || grants_svc n d;
  a_interrupt : forall i, 0 <= i ->
    Z.testbit (interrupt_capabilities c') i = Z.testbit (interrupt_capabilities c) i || grants_interrupt i d;
  a_core : forall i, 0 <= i -> Z.testbit (core_mask c') i = Z.testbit (core_mask c) i || grants_core i d;
  a_priority : forall i, 0 <= i -> Z.testbit (priority_mask c') i = Z.testbit (priority_mask c) i || grants_priority i d;
  a_handles : handle_table_size c' = if trailing_ones d =? 15 then (d >> 16) .& 0x3FF else handle_table_size c;
  a_version : kernel_version c' = if trailing_ones d =? 14 then d else kernel_version c;
  a_program : program_type c' = if trailing_ones d =? 13 then (d >> 14) .& 7 else program_type c;
  a_debug : is_debuggable c' = if trailing_ones d =? 16 then Z.testbit d 17 else is_debuggable c;
  a_force : can_force_debug c' = if trailing_ones d =? 16 then Z.testbit d 18 else can_force_debug c;
}.

Lemma find_snoc (p : Z -> bool) l x :
  find p (l ++ [x]) = match find p l with Some y => Some y | None => if p x then Some x else None end.
Proof. induction l as [|y l IH]; cbn [app find]; [done|]. destruct (p y); done. Qed.

Lemma parameter_snoc {A} k f (default : A) ds d : once k = true -> Forall (fun p => conflict p d = false) ds ->
  parameter k f default (ds ++ [d]) = if trailing_ones d =? k then f d else parameter k f default ds.
Proof.
  intros Hk H. unfold parameter. rewrite find_snoc. destruct (Z.eqb_spec (trailing_ones d) k) as [Ed|Ed].
  - destruct (find _ ds) as [p|] eqn:E.
    + apply find_some in E as [Hp Ep]. rewrite List.Forall_forall in H. specialize (H p Hp). apply Z.eqb_eq in Ep.
      unfold conflict in H. rewrite Ep, Ed, Z.eqb_refl, Hk in H. done.
    + done.
  - destruct (find _ ds); done.
Qed.

Lemma granted_snoc ds d c c' : granted ds c -> Forall (fun p => conflict p d = false) ds -> adds d c c' ->
  granted (ds ++ [d]) c'.
Proof.
  intros [] Hc []. split; intros; rewrite ?existsb_app; cbn [existsb]; rewrite ?orb_false_r, ?parameter_snoc by done;
    first [rewrite a_svc0, g_svc0 | rewrite a_interrupt0, g_interrupt0 | rewrite a_core0, g_core0
          | rewrite a_priority0, g_priority0 | rewrite a_handles0, g_handles0 | rewrite a_version0, g_version0
          | rewrite a_program0, g_program0 | rewrite a_debug0, g_debug0 | rewrite a_force0, g_force0]; done.
Qed.

Lemma granted_nil : granted [] Clear.
Proof. split; intros; rewrite ?Z.bits_0; done. Qed.

(** ** Bit tests *)

Lemma land_bit_eqb m i : 0 <= i -> (m .& (1 << i) =? 0) = negb (Z.testbit m i).
Proof.
  intros Hi. rewrite Z.shiftl_1_l. destruct (Z.testbit m i) eqn:E; cbn [negb].
  - apply Z.eqb_neq. intros H. apply (f_equal (fun x => Z.testbit x i)) in H.
    rewrite Z.land_spec, E, Z.pow2_bits_true, Z.bits_0 in H by lia. done.
  - apply Z.eqb_eq, Z.bits_inj'. intros j Hj. rewrite Z.land_spec, Z.pow2_bits_eqb, Z.bits_0 by lia.
    destruct (Z.eqb_spec i j) as [<-|]; [rewrite E|apply andb_false_r]. done.
Qed.

Lemma once_flags_eqb k flags : 0 <= k < 32 ->
  (to_u32 (1 << k) .& flags .& InitializeOnceMask =? 0) = negb (Z.testbit flags k && once k).
Proof.
  intros Hk. assert (Z.testbit InitializeOnceMask k = once k) as <-.
  { apply eqb_prop. pose proof (byte_forall (fun k => implb (k <? 32) (eqb (Z.testbit InitializeOnceMask k) (once k)))
      eq_refl k ltac:(unfold is_byte; lia)) as H. cbv beta in H. destruct (Z.ltb_spec k 32); [done|lia]. }
  rewrite to_u32_id by (rewrite Z.shiftl_1_l; unfold is_u32; pose proof (Z.pow_lt_mono_r 2 k 32); lia).
  rewrite (Z.land_comm (1 << k)), <- Z.land_assoc, (Z.land_comm (1 << k)), Z.land_assoc, land_bit_eqb, Z.land_spec by lia.
  done.
Qed.

Lemma GetFlagBitOffset_spec k : 0 < k < 32 -> GetFlagBitOffset (2 ^ k - 1) = k.
Proof.
  intros Hk. pose proof (byte_forall (fun k => implb ((0 <? k) && (k <? 32)) (GetFlagBitOffset (2 ^ k - 1) =? k))
    eq_refl k ltac:(unfold is_byte; lia)) as H. cbv beta in H.
  destruct (Z.ltb_spec 0 k), (Z.ltb_spec k 32); lia.
Qed.

Lemma type_eqb d c : is_u32 d -> 0 <= c -> (GetCapabilityType d =? 2 ^ c - 1) = (trailing_ones d =? c).
Proof.
  intros Hd Hc. rewrite GetCapabilityType_spec by done. pose proof (trailing_ones_range d).
  destruct (Z.eqb_spec (trailing_ones d) c) as [->|Hne]; [apply Z.eqb_refl|].
  apply Z.eqb_neq. intros H1. apply Hne. apply (Z.pow_inj_r 2); lia.
Qed.

Lemma err_not_success e : ResultCode ErrorModule_Kernel e <> RESULT_SUCCESS.
Proof.
  unfold ResultCode, ErrorModule_Kernel, RESULT_SUCCESS. intros H.
  apply (f_equal (fun x => Z.testbit x 0)) in H. rewrite Z.lor_spec in H. done.
Qed.

(** ** The handlers *)

Lemma make_mask_spec lo hi : 0 <= lo <= hi -> hi < 64 -> hi - lo < 63 ->
  exists m, make_mask lo hi = Some m /\ forall i, 0 <= i -> Z.testbit m i = (lo <=? i) && (i <=? hi).
Proof.
  intros H1 H2 H3. unfold make_mask. rewrite !to_u64_id by (unfold is_u64; rewrite ?to_u64_id; unfold is_u64; lia).
  rewrite shl1_some by lia. cbn [mbind option_bind]. pose proof (Z.pow_pos_nonneg 2 (hi - lo + 1)).
  assert (2 ^ (hi - lo + 1) <= 2 ^ 63) by (apply Z.pow_le_mono_r; lia).
  rewrite (to_u64_id (2 ^ _ - 1)) by (unfold is_u64; lia). eexists. split; [done|]. intros i Hi.
  replace (2 ^ (hi - lo + 1) - 1) with (Z.ones (hi - lo + 1)) by (rewrite Z.ones_equiv; lia).
  rewrite to_u64_mod, Z.testbit_mod_pow2, Z.shiftl_spec by lia.
  destruct (Z.leb_spec lo i); [rewrite Z.testbit_ones_nonneg by lia|rewrite Z.testbit_neg_r by lia; apply andb_false_r].
  destruct (Z.ltb_spec i 64), (Z.ltb_spec (i - lo) (hi - lo + 1)), (Z.leb_spec i hi); lia || done.
Qed.

(** All 64 priorities shift by the width of the type. *)
Lemma make_mask_all_undefined : make_mask 0 63 = None.
Proof. reflexivity. Qed.

Lemma svc_loop_spec n idx mask : forall i svcs, 0 <= i -> 0 <= idx ->
  let r := svc_loop n i idx mask svcs in
  (snd r = RESULT_SUCCESS <-> forall j, i <= j < i + Z.of_nat n -> Z.testbit mask j = true -> idx * 24 + j < 128)
  /\ (snd r = RESULT_SUCCESS -> forall m, 0 <= m -> Z.testbit (fst r) m
        = Z.testbit svcs m || ((idx * 24 + i <=? m) && (m <? idx * 24 + i + Z.of_nat n) && Z.testbit mask (m - idx * 24))).
Proof.
  induction n as [|n IH]; intros i svcs Hi Hx; cbn [svc_loop]; cbv zeta.
  { cbn [fst snd]. split; [split; [intros; lia|done]|]. intros _ m Hm.
    destruct (Z.leb_spec (idx * 24 + i) m), (Z.ltb_spec m (idx * 24 + i + Z.of_nat 0)); try lia; cbn [andb]; rewrite orb_false_r; done. }
  rewrite land_bit_eqb by done. destruct (Z.testbit mask i) eqn:E; cbn [negb].
  - unfold svc_capabilities_size. destruct (Z.leb_spec 128 (idx * 24 + i)) as [Hg|Hg]; cbn [fst snd].
    + split; [|intros []%err_not_success]. split; [intros []%err_not_success|]. intros H. specialize (H i ltac:(lia) E). lia.
    + destruct (IH (i + 1) (Z.setbit svcs (idx * 24 + i)) ltac:(lia) Hx) as [H1 H2]. split.
      * rewrite H1. split; intros H j Hj Hm; [|apply H; [lia|done]]. destruct (Z.eq_dec j i) as [->|]; [lia|apply H; [lia|done]].
      * intros Hs m Hm. rewrite (H2 Hs m Hm), Z.setbit_eqb by lia.
        destruct (Z.eqb_spec (idx * 24 + i) m) as [<-|Hne].
        -- replace (idx * 24 + i - idx * 24) with i by lia. rewrite E. destruct (Z.testbit svcs (idx * 24 + i)); [done|].
           destruct (Z.leb_spec (idx * 24 + i) (idx * 24 + i)), (Z.ltb_spec (idx * 24 + i) (idx * 24 + i + Z.of_nat (S n))); try lia; done.
        -- cbn [orb]. f_equal. f_equal. destruct (Z.leb_spec (idx * 24 + (i + 1)) m), (Z.leb_spec (idx * 24 + i) m),
             (Z.ltb_spec m (idx * 24 + (i + 1) + Z.of_nat n)), (Z.ltb_spec m (idx * 24 + i + Z.of_nat (S n))); lia || done.
  - destruct (IH (i + 1) svcs ltac:(lia) Hx) as [H1 H2]. split.
    + rewrite H1. split; intros H j Hj Hm; [|apply H; [lia|done]]. destruct (Z.eq_dec j i) as [->|]; [congruence|apply H; [lia|done]].
    + intros Hs m Hm. rewrite (H2 Hs m Hm). f_equal. destruct (Z.eq_dec (idx * 24 + i) m) as [<-|Hne].
      * replace (idx * 24 + i - idx * 24) with i by lia. rewrite E, !andb_false_r. done.
      * f_equal. destruct (Z.leb_spec (idx * 24 + (i + 1)) m), (Z.leb_spec (idx * 24 + i) m),
          (Z.ltb_spec m (idx * 24 + (i + 1) + Z.of_nat n)), (Z.ltb_spec m (idx * 24 + i + Z.of_nat (S n))); lia || done.
Qed.

(** The fields of the capabilities that a descriptor of type [K] leaves. *)
Ltac adds_fields HK :=
  split; intros; unfold grants_svc, grants_interrupt, grants_core, grants_priority; rewrite ?HK; cbn - [Z.testbit Z.shiftr Z.land];
  rewrite ?orb_false_r; try done.

(** What a handler does with a descriptor. *)
Definition handled (d : Z) (c c' : ProcessCapabilities) (r : Z) : Prop :=
  (r = RESULT_SUCCESS <-> well_formed d = true) /\ (r = RESULT_SUCCESS -> adds d c c').

Lemma handled_error d c c' e : well_formed d = false -> handled d c c' (ResultCode ErrorModule_Kernel e).
Proof. intros H. split; [|intros []%err_not_success]. split; [intros []%err_not_success|congruence]. Qed.
Lemma handled_success d c c' : well_formed d = true -> adds d c c' -> handled d c c' RESULT_SUCCESS.
Proof. intros H1 H2. split; [done|]. intros _. done. Qed.

Ltac well_formed_at HK := unfold well_formed; rewrite HK; cbn - [Z.testbit Z.shiftr Z.land Z.leb Z.ltb].

Lemma testbit_land_ones d a k i : 0 <= i < k -> 0 <= a -> Z.testbit ((d >> a) .& (Z.ones k)) i = Z.testbit d (a + i).
Proof.
  intros Hi Ha. rewrite Z.land_spec, Z.shiftr_spec, Z.testbit_ones_nonneg by lia.
  destruct (Z.ltb_spec i k); [rewrite andb_true_r; f_equal; lia|lia].
Qed.
Lemma land_ones_bound x k : 0 <= k -> 0 <= x .& Z.ones k < 2 ^ k.
Proof. intros. rewrite Z.land_ones by lia. apply Z.mod_pos_bound, Z.pow_pos_nonneg; lia. Qed.

Lemma handled_priority c d : trailing_ones d = 3 -> ~ (priority_min d = 0 /\ priority_max d = 63) ->
  priority_mask c = 0 -> core_mask c = 0 ->
  exists c' r, HandlePriorityCoreNumFlags c d = Some (c', r) /\ handled d c c' r.
Proof.
  intros HK Hub H1 H2. unfold HandlePriorityCoreNumFlags. rewrite H1, H2. cbn [Z.eqb negb orb].
  fold (core_min d) (core_max d) (priority_min d) (priority_max d).
  assert (well_formed d = (core_min d <=? core_max d) && (priority_min d <=? priority_max d) && (core_max d <? 4)) as Hw
    by (well_formed_at HK; done).
  pose proof (land_ones_bound (d >> 16) 8 ltac:(lia)) as B1. pose proof (land_ones_bound (d >> 10) 6 ltac:(lia)) as B2.
  pose proof (land_ones_bound (d >> 4) 6 ltac:(lia)) as B3.
  change ((d >> 16) .& Z.ones 8) with (core_min d) in B1. change ((d >> 10) .& Z.ones 6) with (priority_min d) in B2.
  change ((d >> 4) .& Z.ones 6) with (priority_max d) in B3.
  destruct (Z.ltb_spec (core_max d) (core_min d)), (Z.leb_spec (core_min d) (core_max d)); try lia;
    [do 2 eexists; split; [done|by apply handled_error]|].
  destruct (Z.ltb_spec (priority_max d) (priority_min d)), (Z.leb_spec (priority_min d) (priority_max d)); try lia;
    [do 2 eexists; split; [done|by apply handled_error]|].
  destruct (Z.leb_spec 4 (core_max d)), (Z.ltb_spec (core_max d) 4); try lia;
    [do 2 eexists; split; [done|by apply handled_error]|].
  destruct (make_mask_spec (core_min d) (core_max d)) as (m1 & -> & Hm1); [lia..|].
  destruct (make_mask_spec (priority_min d) (priority_max d)) as (m2 & -> & Hm2); [lia..|].
  cbn [mbind option_bind]. do 2 eexists. split; [done|]. apply handled_success; [done|].
  adds_fields HK; [rewrite Hm1, H2, Z.bits_0 by lia|rewrite Hm2, H1, Z.bits_0 by lia]; done.
Qed.

Lemma handled_syscall c bits d : is_u32 d -> trailing_ones d = 4 ->
  exists c' r, HandleSyscallFlags c bits d
    = (if Z.testbit bits (d >> 29) then (c, bits, ERR_INVALID_COMBINATION) else (c', bits .| 2 ^ (d >> 29), r))
    /\ handled d c c' r.
Proof.
  intros Hd HK. unfold HandleSyscallFlags. assert (0 <= d >> 29) as Hx by (apply Z.shiftr_nonneg; unfold is_u32 in Hd; lia).
  rewrite land_bit_eqb, negb_involutive, Z.shiftl_1_l by lia.
  destruct (svc_loop_spec 24 (d >> 29) ((d >> 5) .& 0xFFFFFF) 0 (svc_capabilities c) ltac:(lia) Hx) as [H1 H2].
  destruct (svc_loop _ _ _ _ _) as [svcs r]. cbn [fst snd] in *. exists (set_svc c svcs), r.
  split; [by destruct (Z.testbit bits (d >> 29))|]. split.
  - rewrite H1. well_formed_at HK. rewrite forallb_forall. change 0xFFFFFF with (Z.ones 24). split.
    + intros H i Hi. apply list_elem_of_In, elem_of_seqZ in Hi. specialize (H i ltac:(lia)).
      rewrite testbit_land_ones in H by lia. destruct (Z.testbit d (5 + i)); [|done]. cbn [implb]. apply Z.ltb_lt, H. done.
    + intros H i Hi Hb. rewrite testbit_land_ones in Hb by lia. specialize (H i).
      rewrite <- list_elem_of_In, elem_of_seqZ in H. specialize (H ltac:(lia)). rewrite Hb in H. cbn [implb] in H. lia.
  - intros Hr. adds_fields HK. rewrite (H2 Hr) by lia. f_equal. change 0xFFFFFF with (Z.ones 24).
    pose proof (Z.div_mod n 24 ltac:(lia)). pose proof (Z.mod_pos_bound n 24 ltac:(lia)).
    destruct (Z.eqb_spec (n / 24) (d >> 29)) as [E|E].
    + rewrite testbit_land_ones by lia. replace (n - (d >> 29) * 24) with (n mod 24) by lia.
      destruct (Z.leb_spec ((d >> 29) * 24 + 0) n), (Z.ltb_spec n ((d >> 29) * 24 + 0 + Z.of_nat 24)); lia || done.
    + destruct (Z.leb_spec ((d >> 29) * 24 + 0) n), (Z.ltb_spec n ((d >> 29) * 24 + 0 + Z.of_nat 24)); lia || done.
Qed.

Lemma handled_interrupt c d : trailing_ones d = 11 ->
  exists c' r, HandleInterruptFlags c d = (c', r) /\ handled d c c' r.
Proof.
  intros HK. unfold HandleInterruptFlags, interrupt_capabilities_size.
  pose proof (land_ones_bound (d >> 12) 10 ltac:(lia)) as B1. pose proof (land_ones_bound (d >> 22) 10 ltac:(lia)) as B2.
  change (Z.ones 10) with 0x3FF in B1, B2.
  set (i0 := (d >> 12) .& 0x3FF) in *. set (i1 := (d >> 22) .& 0x3FF) in *. cbn [interrupt_loop].
  assert (well_formed d = true) as Hw by (well_formed_at HK; done).
  destruct (Z.eqb_spec i0 0x3FF), (Z.eqb_spec i1 0x3FF), (Z.leb_spec interrupt_capabilities_size i0),
    (Z.leb_spec interrupt_capabilities_size i1); unfold interrupt_capabilities_size in *; try lia; do 2 eexists; (split; [done|]);
    (apply handled_success; [done|]); adds_fields HK; fold i0 i1; rewrite ?Z.setbit_eqb by lia.
  all: repeat match goal with
       | |- context [?a =? ?b] => destruct (Z.eqb_spec a b); try lia; cbn [negb andb orb]; rewrite ?orb_false_r, ?orb_true_r
       end; done.
Qed.

Lemma testbit_mask d i : 0 <= i -> negb (d .& (1 << i) =? 0) = Z.testbit d i.
Proof. intros. rewrite land_bit_eqb by done. apply negb_involutive. Qed.

(** The handlers of one parameter. *)
Lemma handled_parameter c d :
  (trailing_ones d = 13 -> exists c' r, HandleProgramTypeFlags c d = (c', r) /\ handled d c c' r)
  /\ (trailing_ones d = 14 -> kernel_version c = 0 -> exists c' r, HandleKernelVersionFlags c d = (c', r) /\ handled d c c' r)
  /\ (trailing_ones d = 15 -> exists c' r, HandleHandleTableFlags c d = (c', r) /\ handled d c c' r)
  /\ (trailing_ones d = 16 -> exists c' r, HandleDebugFlags c d = (c', r) /\ handled d c c' r).
Proof.
  split_and!; intros HK.
  - unfold HandleProgramTypeFlags. destruct (d >> 17 =? 0) eqn:E; cbn [negb]; do 2 eexists; (split; [done|]).
    + apply handled_success; [well_formed_at HK; done|]. adds_fields HK.
    + apply handled_error. well_formed_at HK. done.
  - intros Hv. unfold HandleKernelVersionFlags. rewrite Hv, Z.shiftr_0_l. cbn [Z.eqb negb orb].
    rewrite Z.ltb_antisym. destruct (0x80000 <=? d) eqn:E; cbn [negb]; do 2 eexists; (split; [done|]).
    + apply handled_success; [well_formed_at HK; done|]. adds_fields HK.
    + apply handled_error. well_formed_at HK. done.
  - unfold HandleHandleTableFlags. destruct (d >> 26 =? 0) eqn:E; cbn [negb]; do 2 eexists; (split; [done|]).
    + apply handled_success; [well_formed_at HK; done|]. adds_fields HK.
    + apply handled_error. well_formed_at HK. done.
  - unfold HandleDebugFlags. change 0x20000 with (1 << 17). change 0x40000 with (1 << 18). rewrite !testbit_mask by lia.
    destruct (d >> 19 =? 0) eqn:E; cbn [negb]; do 2 eexists; (split; [done|]).
    + apply handled_success; [well_formed_at HK; done|]. adds_fields HK.
    + apply handled_error. well_formed_at HK. done.
Qed.

(** ** The parser *)

(** The parser has accepted the descriptors [pre]. *)
Record parsed (pre : list Z) (c : ProcessCapabilities) (s : ParseState) : Prop := {
  p_granted : granted pre c;
  p_flags : forall k, 0 <= k < 32 -> Z.testbit (set_flags s) k = existsb (fun p => trailing_ones p =? k) pre;
  p_groups : forall i, 0 <= i -> Z.testbit (set_svc_bits s) i
    = existsb (fun p => (trailing_ones p =? 4) && (p >> 29 =? i)) pre;
}.

Lemma no_conflict_iff pre d :
  Forall (fun p => conflict p d = false) pre
  <-> existsb (fun p => trailing_ones p =? trailing_ones d) pre && once (trailing_ones d) = false
      /\ (trailing_ones d = 4 -> existsb (fun p => (trailing_ones p =? 4) && (p >> 29 =? d >> 29)) pre = false).
Proof.
  unfold conflict. generalize (d >> 29) as gd. generalize (trailing_ones d) as kd. intros kd gd.
  induction pre as [|p pre IH]; [split; intros _; [split; done|constructor]|]. rewrite Forall_cons, IH. clear IH. cbn [existsb].
  generalize (trailing_ones p) as kp. generalize (p >> 29) as gp. intros gp kp.
  generalize (existsb (fun p => trailing_ones p =? kd) pre) as e1.
  generalize (existsb (fun p => (trailing_ones p =? 4) && (p >> 29 =? gd)) pre) as e2. intros e2 e1.
  destruct (Z.eqb_spec kp kd) as [->|Hne]; cbn [orb andb].
  - destruct (once kd) eqn:E; cbn [orb andb]; [naive_solver|]. rewrite !andb_false_r.
    destruct (Z.eqb_spec kd 4) as [E4|E4]; cbn [orb andb]; [|naive_solver].
    rewrite orb_false_iff. naive_solver.
  - destruct (Z.eqb_spec kp 4) as [E4|E4]; cbn [orb andb]; [|naive_solver].
    split; [intros [_ [H1 H2]]; split; [done|congruence]|]. intros [H1 H2]. split; [done|]. split; [done|]. intros; congruence.
Qed.

(** A parameter of a type that may occur once is not set before. *)
Lemma parsed_fresh pre c s d : parsed pre c s -> Forall (fun p => conflict p d = false) pre ->
  (trailing_ones d = 3 -> priority_mask c = 0 /\ core_mask c = 0) /\ (trailing_ones d = 14 -> kernel_version c = 0).
Proof.
  intros [G _ _] [H _]%no_conflict_iff. split; intros HK; rewrite HK, andb_true_r in H.
  - assert (forall f, (forall p, trailing_ones p <> 3 -> f p = false) -> existsb f pre = false) as Hf.
    { intros f Hf. apply not_true_iff_false. intros (p & Hp & Ep)%existsb_exists.
      apply not_true_iff_false in H. apply H, existsb_exists. exists p. split; [done|]. apply Z.eqb_eq.
      destruct (Z.eq_dec (trailing_ones p) 3) as [|Hne]; [done|]. rewrite Hf in Ep; done. }
    split; apply Z.bits_inj'; intros i Hi; rewrite Z.bits_0;
      [rewrite (g_priority _ _ G) by done|rewrite (g_core _ _ G) by done]; apply Hf; intros p Hp;
      unfold grants_priority, grants_core; destruct (Z.eqb_spec (trailing_ones p) 3); done.
  - rewrite (g_version _ _ G). unfold parameter. destruct (find _ pre) as [p|] eqn:E; [|done].
    apply find_some in E as [Hp Ep]. apply not_true_iff_false in H. destruct H. apply existsb_exists. eauto.
Qed.

(** The one descriptor whose handler shifts by the width of the type. *)
Definition all_priorities (d : Z) : Prop := trailing_ones d = 3 /\ priority_min d = 0 /\ priority_max d = 63.

Definition admissible (pre : list Z) (d : Z) : Prop :=
  well_formed d = true /\ Forall (fun p => conflict p d = false) pre.

Lemma flags_snoc pre d flags k : 0 <= trailing_ones d < 32 -> 0 <= k < 32 ->
  (forall k, 0 <= k < 32 -> Z.testbit flags k = existsb (fun p => trailing_ones p =? k) pre) ->
  Z.testbit (flags .| to_u32 (1 << trailing_ones d)) k = existsb (fun p => trailing_ones p =? k) (pre ++ [d]).
Proof.
  intros Hd Hk H. rewrite existsb_app, Z.lor_spec, H by done. cbn [existsb]. rewrite orb_false_r. f_equal.
  rewrite Z.shiftl_1_l, to_u32_id by (unfold is_u32; pose proof (Z.pow_lt_mono_r 2 (trailing_ones d) 32); lia).
  apply Z.pow2_bits_eqb. lia.
Qed.

Lemma groups_snoc pre d bits i : 0 <= i -> trailing_ones d <> 4 ->
  Z.testbit bits i = existsb (fun p => (trailing_ones p =? 4) && (p >> 29 =? i)) pre ->
  Z.testbit bits i = existsb (fun p => (trailing_ones p =? 4) && (p >> 29 =? i)) (pre ++ [d]).
Proof.
  intros Hi Hd ->. rewrite existsb_app. cbn [existsb]. destruct (Z.eqb_spec (trailing_ones d) 4); [done|].
  cbn [andb]. rewrite !orb_false_r. done.
Qed.

(** The result of a step on [d] after the descriptors [pre]. *)
Definition step_result (pre : list Z) (d : Z) (o : option (ProcessCapabilities * ParseState * Z)) : Prop :=
  exists c s r, o = Some (c, s, r) /\ (r = RESULT_SUCCESS <-> admissible pre d)
    /\ (r = RESULT_SUCCESS -> parsed (pre ++ [d]) c s).

Lemma step_error pre d c s e : ~ admissible pre d -> step_result pre d (Some (c, s, ResultCode ErrorModule_Kernel e)).
Proof.
  intros H. exists c, s, (ResultCode ErrorModule_Kernel e). split; [done|].
  split; [|intros []%err_not_success]. split; [intros []%err_not_success|done].
Qed.
Lemma step_malformed pre d c s e : well_formed d = false -> step_result pre d (Some (c, s, ResultCode ErrorModule_Kernel e)).
Proof. intros H. apply step_error. intros [H1 _]. congruence. Qed.

(** A handler of a descriptor that does not name a group of system calls. *)
Lemma step_handled pre c s d c' r : parsed pre c s -> 0 <= trailing_ones d < 32 -> trailing_ones d <> 4 ->
  Forall (fun p => conflict p d = false) pre -> handled d c c' r ->
  step_result pre d (Some (c', {| set_flags := set_flags s .| to_u32 (1 << trailing_ones d);
                                  set_svc_bits := set_svc_bits s |}, r)).
Proof.
  intros [P1 P2 P3] Hk H4 Hc [H1 H2]. do 3 eexists. split; [done|]. split; [unfold admissible; tauto|].
  intros Hr. split; [|intros; apply flags_snoc; done|intros; apply groups_snoc; auto].
  apply (granted_snoc pre d c); [done|done|by apply H2].
Qed.

Lemma step_syscall pre c s d : is_u32 d -> parsed pre c s -> trailing_ones d = 4 ->
  existsb (fun p => trailing_ones p =? trailing_ones d) pre && once (trailing_ones d) = false ->
  step_result pre d
    (let '(c, bits, result) := HandleSyscallFlags c (set_svc_bits s) d in
     Some (c, {| set_flags := set_flags s .| to_u32 (1 << trailing_ones d); set_svc_bits := bits |}, result)).
Proof.
  intros Hd [P1 P2 P3] HK Ho. destruct (handled_syscall c (set_svc_bits s) d Hd HK) as (c' & r & -> & H1 & H2).
  assert (0 <= d >> 29) as Hx by (apply Z.shiftr_nonneg; unfold is_u32 in Hd; lia).
  pose proof (no_conflict_iff pre d) as Hc. rewrite <- (P3 (d >> 29) Hx) in Hc.
  destruct (Z.testbit (set_svc_bits s) (d >> 29)).
  { apply step_error. intros [_ H]. apply Hc in H as [_ H]. specialize (H HK). done. }
  assert (Forall (fun p => conflict p d = false) pre) as Hf by (apply Hc; done).
  do 3 eexists. split; [done|]. split; [unfold admissible; tauto|]. intros Hr.
  split; [by apply (granted_snoc pre d c); [..|apply H2]|intros; apply flags_snoc; [lia|done|done]|]. intros i Hi.
  rewrite existsb_app. cbn [set_svc_bits existsb]. rewrite HK, Z.lor_spec, (P3 i Hi), Z.pow2_bits_eqb, orb_false_r by lia. done.
Qed.

Lemma step_ignorable pre c s d : parsed pre c s -> trailing_ones d = 32 -> step_result pre d (Some (c, s, RESULT_SUCCESS)).
Proof.
  intros [P1 P2 P3] K. exists c, s, RESULT_SUCCESS.
  assert (Forall (fun p => conflict p d = false) pre) as Hc.
  { apply no_conflict_iff. rewrite K. split; [apply andb_false_r|lia]. }
  assert (well_formed d = true) as Hw by (well_formed_at K; done).
  split; [done|]. split; [done|]. intros _. split.
  - apply (granted_snoc pre d c); [done|done|adds_fields K].
  - intros k Hk. rewrite existsb_app, P2 by done. cbn [existsb]. rewrite K. destruct (Z.eqb_spec 32 k); [lia|].
    rewrite !orb_false_r. done.
  - intros i Hi. apply groups_snoc; [done|lia|auto].
Qed.

Lemma ParseSingleFlagCapability_spec pre c s d : is_u32 d -> ~ all_priorities d -> trailing_ones d <> 6 -> parsed pre c s ->
  step_result pre d (ParseSingleFlagCapability c s d).
Proof.
  intros Hd Hub H6 P. pose proof P as [P1 P2 P3]. pose proof (trailing_ones_range d) as Hr.
  unfold ParseSingleFlagCapability. cbv zeta.
  change Unset with (2 ^ 0 - 1). change Ignorable with (2 ^ 32 - 1). change PriorityAndCoreNum with (2 ^ 3 - 1).
  change Syscall with (2 ^ 4 - 1). change MapIO with (2 ^ 7 - 1). change Interrupt with (2 ^ 11 - 1).
  change ProgramType with (2 ^ 13 - 1). change KernelVersion with (2 ^ 14 - 1). change HandleTableSize with (2 ^ 15 - 1).
  change Debug with (2 ^ 16 - 1). rewrite !type_eqb by (done || lia).
  destruct (Z.eqb_spec (trailing_ones d) 0) as [K|K0]; [apply step_malformed; well_formed_at K; done|].
  destruct (Z.eqb_spec (trailing_ones d) 32) as [K|K32].
  { by apply (step_ignorable pre c s d). }
  rewrite GetCapabilityType_spec, GetFlagBitOffset_spec, once_flags_eqb, negb_involutive by (done || lia).
  rewrite P2 by lia. destruct (existsb _ pre && once _) eqn:Eo.
  { apply step_error. intros [_ [H _]%no_conflict_iff]. congruence. }
  destruct (Z.eqb_spec (trailing_ones d) 4) as [K|K4].
  { destruct (Z.eqb_spec (trailing_ones d) 3); [lia|]. cbn [set_flags set_svc_bits]. by apply (step_syscall pre c s d). }
  assert (Forall (fun p => conflict p d = false) pre) as Hc by (apply no_conflict_iff; done).
  destruct (parsed_fresh pre c s d P Hc) as [F3 F14]. destruct (handled_parameter c d) as (H13 & H14 & H15 & H16).
  destruct (Z.eqb_spec (trailing_ones d) 3) as [K|K3].
  { destruct (F3 K) as [F3a F3b]. destruct (handled_priority c d) as (c' & r & -> & H); [done|unfold all_priorities in Hub; tauto|done|done|].
    by apply (step_handled pre c); [|lia|..]. }
  destruct (Z.eqb_spec (trailing_ones d) 7) as [K|K7].
  { apply (step_handled pre c); [done|lia|done|done|]. apply handled_success; [well_formed_at K; done|adds_fields K]. }
  destruct (Z.eqb_spec (trailing_ones d) 11) as [K|K11].
  { destruct (handled_interrupt c d K) as (c' & r & -> & H). by apply (step_handled pre c); [|lia|..]. }
  destruct (Z.eqb_spec (trailing_ones d) 13) as [K|K13].
  { destruct (H13 K) as (c' & r & -> & H). by apply (step_handled pre c); [|lia|..]. }
  destruct (Z.eqb_spec (trailing_ones d) 14) as [K|K14].
  { destruct (H14 K (F14 K)) as (c' & r & -> & H). by apply (step_handled pre c); [|lia|..]. }
  destruct (Z.eqb_spec (trailing_ones d) 15) as [K|K15].
  { destruct (H15 K) as (c' & r & -> & H). by apply (step_handled pre c); [|lia|..]. }
  destruct (Z.eqb_spec (trailing_ones d) 16) as [K|K16].
  { destruct (H16 K) as (c' & r & -> & H). by apply (step_handled pre c); [|lia|..]. }
  apply step_malformed. unfold well_formed.
  repeat match goal with |- context [trailing_ones d =? ?k] => destruct (Z.eqb_spec (trailing_ones d) k); [done|] end. done.
Qed.

(** The descriptors are accepted one after the other. *)
Fixpoint chain (pre ds : list Z) : Prop :=
  match ds with
  | [] => True
  | d :: ds => admissible pre d /\ chain (pre ++ [d]) ds
  end.

Lemma chain_accepted ds : forall pre,
  chain pre ds <-> accepted ds /\ Forall (fun d => Forall (fun p => conflict p d = false) pre) ds.
Proof.
  unfold accepted, admissible. induction ds as [|d ds IH]; intros pre; cbn [chain].
  { split; [intros _; repeat constructor|done]. }
  rewrite IH, !Forall_cons. unfold admissible. setoid_rewrite Forall_app. setoid_rewrite Forall_singleton.
  rewrite Forall_and. split.
  - intros ([H1 H2] & [H3 H4] & H5 & H6). split_and!; try done. constructor; [|done]. done.
  - intros ([[H1 H3] H4] & H2 & H5). inversion H4 as [|? ? H6 H7]; subst. done.
Qed.

(** The result of the parser on [caps] after the descriptors [pre]. *)
Definition loop_result (pre caps : list Z) (o : option (ProcessCapabilities * Z)) : Prop :=
  exists c r, o = Some (c, r) /\ (r = RESULT_SUCCESS <-> exists ds, singles caps = Some ds /\ chain pre ds)
    /\ (r = RESULT_SUCCESS -> forall ds, singles caps = Some ds -> granted (pre ++ ds) c).

Lemma loop_error pre caps c r : r <> RESULT_SUCCESS -> (forall ds, singles caps = Some ds -> ~ chain pre ds) ->
  loop_result pre caps (Some (c, r)).
Proof. intros Hr H. exists c, r. split; [done|]. split; [|done]. split; [done|]. intros (ds & E & Hc). by destruct (H ds). Qed.

Lemma singles_cons d caps ds : trailing_ones d <> 6 -> singles (d :: caps) = Some ds ->
  exists ds', singles caps = Some ds' /\ ds = d :: ds'.
Proof.
  intros K. cbn [singles]. destruct (Z.eqb_spec (trailing_ones d) 6); [done|].
  destruct (singles caps) as [ds'|]; [|done]. intros [= <-]. eauto.
Qed.

Lemma parse_loop_spec n : forall caps pre c s, (length caps <= n)%nat -> Forall is_u32 caps ->
  Forall (fun d => ~ all_priorities d) caps -> parsed pre c s -> loop_result pre caps (parse_loop c s caps).
Proof.
  induction n as [|n IH]; intros [|d caps] pre c s Hl Hu Hub HP; cbn [length] in Hl; try lia.
  1, 2: exists c, RESULT_SUCCESS; split; [done|]; split; [split; [exists []; done|done]|];
    intros _ ds [= <-]; rewrite app_nil_r; apply HP.
  apply Forall_cons in Hu as [Hd Hu]. apply Forall_cons in Hub as [Hb Hub]. cbn [parse_loop].
  change MapPhysical with (2 ^ 6 - 1). rewrite type_eqb by (done || lia).
  destruct (Z.eqb_spec (trailing_ones d) 6) as [K|K].
  - destruct caps as [|e caps]; [apply loop_error; [apply err_not_success|]; cbn [singles]; rewrite K; done|].
    apply Forall_cons in Hu as [He Hu]. apply Forall_cons in Hub as [_ Hub]. cbn [length] in Hl.
    rewrite type_eqb by (done || lia). destruct (trailing_ones e =? 6) eqn:Ke; cbn [negb].
    + unfold loop_result. cbn [singles]. rewrite K, Ke. apply (IH caps pre c s); [lia|done..].
    + apply loop_error; [apply err_not_success|]. cbn [singles]. rewrite K, Ke. done.
  - destruct (ParseSingleFlagCapability_spec pre c s d Hd Hb K HP) as (c1 & s1 & r & -> & H1 & H2). cbn [mbind option_bind].
    destruct (Z.eqb_spec r RESULT_SUCCESS) as [Er|Er]; cbn [negb].
    + destruct (IH caps (pre ++ [d]) c1 s1 ltac:(lia) Hu Hub (H2 Er)) as (c' & r' & -> & H3 & H4).
      exists c', r'. split; [done|]. split.
      * rewrite H3. split; intros (ds & Es & Hc).
        -- exists (d :: ds). split; [|split; [tauto|done]]. cbn [singles]. rewrite Es.
           destruct (Z.eqb_spec (trailing_ones d) 6); done.
        -- apply singles_cons in Es as (ds' & -> & ->); [|done]. exists ds'. split; [done|apply Hc].
      * intros Hr ds Es. apply singles_cons in Es as (ds' & Es & ->); [|done].
        specialize (H4 Hr ds' Es). rewrite <- app_assoc in H4. done.
    + apply loop_error; [done|]. intros ds Es Hc. apply singles_cons in Es as (ds' & Es & ->); [|done].
      destruct Hc as [Hc _]. tauto.
Qed.

(** C16: [InitializeForUserProcess] on any list of descriptors of 32 bits none of
    which names all 64 priorities (for these [make_mask] is undefined, see
    [all_priorities_undefined]): it returns and succeeds exactly when the
    [MapPhysical] descriptors come in pairs, every other descriptor is
    well-formed and no two conflict; the process then may use exactly the
    system calls, interrupts, cores and priorities the descriptors name, with
    their limits. *)
Theorem capabilities_exact caps :
  Forall is_u32 caps -> Forall (fun d => ~ all_priorities d) caps ->
  exists c r, InitializeForUserProcess caps = Some (c, r)
    /\ (r = RESULT_SUCCESS <-> exists ds, singles caps = Some ds /\ accepted ds)
    /\ (r = RESULT_SUCCESS -> forall ds, singles caps = Some ds -> granted ds c).
Proof.
  intros Hu Hub. destruct (parse_loop_spec (length caps) caps [] Clear {| set_flags := 0; set_svc_bits := 0 |})
    as (c & r & E & H1 & H2); [done|done|done| |].
  { split; [apply granted_nil|intros; apply Z.bits_0|intros; apply Z.bits_0]. }
  exists c, r. split; [done|]. split; [|done]. rewrite H1. split; intros (ds & Es & Hc); exists ds; (split; [done|]).
  - apply chain_accepted in Hc. apply Hc.
  - apply chain_accepted. split; [done|]. apply Forall_true. intros; constructor.
Qed.

Lemma capabilities_exact_witness :
  exists c, InitializeForUserProcess sample_descriptors = Some (c, RESULT_SUCCESS) /\ granted sample_descriptors c.
Proof.
  destruct (capabilities_exact sample_descriptors) as (c & r & E & H1 & H2).
  - repeat constructor; vm_compute; intuition congruence.
  - unfold sample_descriptors. repeat (constructor; [intros (H & H3 & H4); vm_compute in H, H3, H4; congruence|]). constructor.
  - assert (r = RESULT_SUCCESS) as Hr by (rewrite parse_sample in E; congruence).
    exists c. rewrite Hr in E. split; [done|]. apply H2; [done|]. vm_compute. reflexivity.
Defined.

(** A well-formed descriptor that names the priorities 0 to 63 and the cores 0
    to 3. *)
Lemma all_priorities_undefined :
  well_formed (7 .| (63 << 4) .| (3 << 24)) = true /\ InitializeForUserProcess [7 .| (63 << 4) .| (3 << 24)] = None.
Proof. by vm_compute. Qed.

(** A kernel process is given its cores, priorities and version beforehand:
    descriptors for them are refused. *)
Lemma kernel_process_refuses d : is_u32 d -> trailing_ones d = 3 \/ trailing_ones d = 14 ->
  exists c, InitializeForKernelProcess [d] = Some (c, ERR_INVALID_CAPABILITY_DESCRIPTOR).
Proof.
  intros Hd HK. unfold InitializeForKernelProcess, ParseCapabilities. cbn [parse_loop].
  unfold ParseSingleFlagCapability. rewrite GetCapabilityType_spec by done.
  destruct HK as [-> | ->]; cbn - [HandleKernelVersionFlags]; eauto.
Qed.
