(* ===== verification/MultiLevelQueue.v ===== *)
(** * The multi-level queue of the scheduler

    [Common::MultiLevelQueue] ([src/src/common/multi_level_queue.h]): an
    array of [Depth] lists and a 64-bit word with a bit per list that is not
    empty.  A [std::list] is a list, an iterator into it an index; reading
    the front or the back of an empty list, splicing from an end iterator
    and shifting by 64 are undefined and yield [None]. *)

From S2P Require Import Prelude BitUtil.
From stdpp Require Import base list sets.
Open Scope Z_scope.
Open Scope c_scope.

Module Mlq.
Section Mlq.
Context {T : Type} `{EqDecision T} (Depth : Z).

Record MultiLevelQueue := { levels : list (list T); used_priorities : Z }.

(** [levels[priority]], and its update. *)
Definition level (q : MultiLevelQueue) (priority : Z) : list T := nth (Z.to_nat priority) (levels q) [].
Definition set_level (q : MultiLevelQueue) (priority : Z) (l : list T) (used : Z) : MultiLevelQueue :=
  {| levels := <[Z.to_nat priority := l]> (levels q); used_priorities := used |}.

Definition MultiLevelQueue_new : MultiLevelQueue :=
  {| levels := replicate (Z.to_nat Depth) []; used_priorities := 0 |}.

(** *** The helpers on lists *)

(** The position of the first [element], or the end of the list. *)
Fixpoint ListIterateTo (l : list T) (element : T) : nat :=
  match l with
  | [] => 0
  | x :: l => if decide (x = element) then 0 else S (ListIterateTo l element)
  end.

Definition erase (l : list T) (it : nat) : list T := take it l ++ drop (S it) l.

Definition ListShiftForward (l : list T) (shift : nat) : list T :=
  if (length l <=? shift)%nat then l else drop shift l ++ take shift l.

(** [in_list.splice(position, out_list, element)]: both lists. *)
Definition ListSplice (in_list : list T) (position : nat) (out_list : list T) (element : nat)
    : option (list T * list T) :=
  x ← out_list !! element;
  Some (take position in_list ++ x :: drop position in_list, erase out_list element).

(** *** Operations *)

Definition add (q : MultiLevelQueue) (element : T) (priority : Z) (send_back : bool) : MultiLevelQueue :=
  let l := level q priority in
  set_level q priority (if send_back then l ++ [element] else element :: l)
    (used_priorities q .| to_u64 (1 << priority)).

(** [used_priorities &= ~(1ULL << priority)] when the level is empty. *)
Definition clear_if_empty (l : list T) (used priority : Z) : Z :=
  match l with
  | [] => used .& u64_not (to_u64 (1 << priority))
  | _ => used
  end.

Definition remove (q : MultiLevelQueue) (element : T) (priority : Z) : MultiLevelQueue :=
  let l := level q priority in
  let it := ListIterateTo l element in
  if (it =? length l)%nat then q
  else
    let l' := erase l it in
    set_level q priority l' (clear_if_empty l' (used_priorities q) priority).

Definition adjust (q : MultiLevelQueue) (element : T) (old_priority new_priority : Z) (adjust_front : bool)
    : MultiLevelQueue :=
  add (remove q element old_priority) element new_priority (negb adjust_front).

(** [transfer_to_front] and [transfer_to_back]: this queue, and [other]. *)
Definition transfer (front : bool) (q : MultiLevelQueue) (element : T) (priority : Z) (other : MultiLevelQueue)
    : option (MultiLevelQueue * MultiLevelQueue) :=
  let l := level q priority in
  let lo := level other priority in
  '(lo', l') ← ListSplice lo (if front then 0 else length lo) l (ListIterateTo l element);
  Some (set_level q priority l' (clear_if_empty l' (used_priorities q) priority),
        set_level other priority lo' (used_priorities other .| to_u64 (1 << priority))).
Definition transfer_to_front := transfer true.
Definition transfer_to_back := transfer false.

Definition yield (q : MultiLevelQueue) (priority : Z) (n : nat) : MultiLevelQueue :=
  set_level q priority (ListShiftForward (level q priority) n) (used_priorities q).

Definition clear (q : MultiLevelQueue) : MultiLevelQueue :=
  {| levels := map (fun _ => []) (levels q); used_priorities := 0 |}.

(** *** Observations *)

Definition size_at (q : MultiLevelQueue) (priority : Z) : Z := Z.of_nat (length (level q priority)).

(** The loop of [size()]; [None] when [fuel] runs out. *)
Fixpoint size_loop (fuel : nat) (q : MultiLevelQueue) (priorities acc : Z) : option Z :=
  if priorities =? 0 then Some acc
  else
    match fuel with
    | O => None
    | S fuel =>
        let current_priority := CountTrailingZeroes64 priorities in
        size_loop fuel q (priorities .& u64_not (to_u64 (1 << current_priority)))
          (acc + size_at q current_priority)
    end.
Definition size (q : MultiLevelQueue) : option Z := size_loop 64 q (used_priorities q) 0.

Definition empty (q : MultiLevelQueue) : bool := used_priorities q =? 0.
Definition empty_at (q : MultiLevelQueue) (priority : Z) : bool :=
  used_priorities q .& to_u64 (1 << priority) =? 0.

Definition highest_priority_set (q : MultiLevelQueue) (max_priority : Z) : Z :=
  let priorities :=
    if max_priority =? 0 then used_priorities q
    else used_priorities q .& u64_not (to_u64 (1 << max_priority) - 1) in
  if priorities =? 0 then Depth else CountTrailingZeroes64 priorities.

Definition lowest_priority_set (q : MultiLevelQueue) (min_priority : Z) : Z :=
  let priorities :=
    if Depth - 1 <=? min_priority then used_priorities q
    else used_priorities q .& (to_u64 (1 << (min_priority + 1)) - 1) in
  if priorities =? 0 then Depth else 63 - CountLeadingZeroes64 priorities.

Definition front (q : MultiLevelQueue) (max_priority : Z) : option T :=
  let priority := highest_priority_set q max_priority in
  head (level q (if priority =? Depth then 0 else priority)).

Definition back (q : MultiLevelQueue) (min_priority : Z) : option T :=
  let priority := lowest_priority_set q min_priority in
  last (level q (if priority =? Depth then 63 else priority)).

(** *** Iterators *)

Record iterator := { it : nat; current_priority : Z }.

Definition IsEnd (i : iterator) : bool := current_priority i =? Depth.
Definition deref (q : MultiLevelQueue) (i : iterator) : option T := level q (current_priority i) !! it i.

Definition cend : iterator := {| it := 0; current_priority := Depth |}.
Definition cbegin (q : MultiLevelQueue) (max_prio : Z) : iterator :=
  let priority := highest_priority_set q max_prio in
  if priority =? Depth then cend else {| it := 0; current_priority := priority |}.
Definition cend_at (q : MultiLevelQueue) (min_prio : Z) : iterator :=
  if min_prio =? Depth - 1 then cend else cbegin q (min_prio + 1).

(** [operator++]. *)
Definition incr (q : MultiLevelQueue) (i : iterator) : option iterator :=
  if IsEnd i then Some i
  else
    let n := S (it i) in
    if (n =? length (level q (current_priority i)))%nat then
      m ← shl1 (current_priority i + 1);
      let prios := used_priorities q .& u64_not (m - 1) in
      Some (if prios =? 0 then {| it := n; current_priority := Depth |}
            else {| it := 0; current_priority := CountTrailingZeroes64 prios |})
    else Some {| it := n; current_priority := current_priority i |}.

(** [operator--]. *)
Definition decr (q : MultiLevelQueue) (i : iterator) : option iterator :=
  if IsEnd i then
    Some (if used_priorities q =? 0 then i
          else
            let p := 63 - CountLeadingZeroes64 (used_priorities q) in
            {| it := pred (length (level q p)); current_priority := p |})
  else if (it i =? 0)%nat then
    m ← shl1 (current_priority i);
    let prios := used_priorities q .& (m - 1) in
    Some (if prios =? 0 then i
          else
            let p := CountTrailingZeroes64 prios in
            {| it := pred (length (level q p)); current_priority := p |})
  else Some {| it := pred (it i); current_priority := current_priority i |}.

(** The elements a loop [for (it = i; it != end(); ++it)] visits; [None]
    when [fuel] runs out or the increment is undefined. *)
Fixpoint iterate (fuel : nat) (q : MultiLevelQueue) (i : iterator) : option (list T) :=
  if IsEnd i then Some []
  else
    match fuel with
    | O => None
    | S fuel =>
        x ← deref q i;
        i ← incr q i;
        xs ← iterate fuel q i;
        Some (x :: xs)
    end.

End Mlq.
End Mlq.
Import Mlq.
Arguments MultiLevelQueue T : clear implicits.

(** ** The invariant: a bit per level that is not empty *)

Section Invariant.
Context {T : Type} `{EqDecision T} (Depth : Z) (HD : 0 < Depth <= 64).
Implicit Types (q : MultiLevelQueue T) (l : list T).

Definition nonempty l : bool := match l with [] => false | _ => true end.

Record ok (q : MultiLevelQueue T) : Prop := {
  ok_levels : length (levels q) = Z.to_nat Depth;
  ok_u64 : is_u64 (used_priorities q);
  ok_bits p : 0 <= p < 64 -> Z.testbit (used_priorities q) p = nonempty (level q p);
}.

Lemma level_out q p : ok q -> Depth <= p -> level q p = [].
Proof. intros H Hp. unfold level. apply nth_overflow. rewrite (ok_levels q H). lia. Qed.

Lemma level_set_level q p l u p' :
  ok q -> 0 <= p < Depth -> 0 <= p' -> level (set_level q p l u) p' = if p =? p' then l else level q p'.
Proof.
  intros H Hp Hp'. unfold level, set_level. cbn [levels]. rewrite !nth_lookup. pose proof (ok_levels q H).
  destruct (Z.eqb_spec p p') as [->|Hne].
  - by rewrite list_lookup_insert_eq by lia.
  - by rewrite list_lookup_insert_ne by lia.
Qed.

Lemma set_level_ok q p l u :
  ok q -> 0 <= p < Depth -> is_u64 u ->
  (forall p', 0 <= p' < 64 ->
     Z.testbit u p' = if p =? p' then nonempty l else Z.testbit (used_priorities q) p') ->
  ok (set_level q p l u).
Proof.
  intros H Hp Hu Hb. split.
  - cbn [set_level levels]. rewrite length_insert. apply H.
  - done.
  - intros p' Hp'. rewrite level_set_level by done || lia. cbn [set_level used_priorities]. rewrite Hb by done.
    destruct (Z.eqb_spec p p'); [done|by apply ok_bits].
Qed.

Lemma shift_pow p : 0 <= p < 64 -> to_u64 (1 << p) = 2 ^ p.
Proof. intros H. rewrite Z.shiftl_1_l. by apply to_u64_id, pow2_u64. Qed.

(** Setting the bit of a level that has an element. *)
Lemma set_used_ok q p x l :
  ok q -> 0 <= p < Depth -> ok (set_level q p (x :: l) (used_priorities q .| to_u64 (1 << p))).
Proof.
  intros H Hp. rewrite shift_pow by lia. pose proof (ok_u64 q H).
  apply set_level_ok; [done|done|apply lor_u64; [done|apply pow2_u64; lia]|].
  intros p' Hp'. rewrite Z.lor_spec, testbit_pow2, (Z.eqb_sym p' p) by lia.
  destruct (Z.eqb_spec p p'); [by rewrite orb_true_r|by rewrite orb_false_r].
Qed.

Lemma clear_used_ok q p l :
  ok q -> 0 <= p < Depth -> nonempty (level q p) = true ->
  ok (set_level q p l (clear_if_empty l (used_priorities q) p)).
Proof.
  intros H Hp Hne. pose proof (ok_u64 q H) as Hu. unfold clear_if_empty.
  destruct l as [|x l].
  - rewrite shift_pow, land_u64_not by done || lia.
    apply set_level_ok; [done|done|by apply ldiff_u64|]. intros p' Hp'.
    rewrite Z.ldiff_spec, testbit_pow2, (Z.eqb_sym p' p) by lia.
    destruct (Z.eqb_spec p p'); [by rewrite andb_false_r|by rewrite andb_true_r].
  - apply set_level_ok; [done|done|done|]. intros p' Hp'. destruct (Z.eqb_spec p p') as [->|]; [|done].
    by rewrite (ok_bits q H).
Qed.

Lemma ListIterateTo_le l x : (ListIterateTo l x <= length l)%nat.
Proof. induction l as [|y l IH]; cbn; [lia|]. case_decide; lia. Qed.

Lemma nonempty_length l : nonempty l = true <-> (0 < length l)%nat.
Proof. destruct l; cbn; split; done || lia. Qed.

(** The iterator points at the first occurrence. *)
Lemma ListIterateTo_spec l x :
  (ListIterateTo l x = length l /\ x ∉ l)
  \/ ((ListIterateTo l x < length l)%nat /\ l !! ListIterateTo l x = Some x /\ x ∉ take (ListIterateTo l x) l).
Proof.
  induction l as [|y l IH]; cbn.
  - left. split; [done|set_solver].
  - case_decide as Hd; [subst; right; split_and!; [lia|done|set_solver]|].
    destruct IH as [[E Hn]|(Hl & E & Hn)]; [left|right].
    + split; [lia|set_solver].
    + split_and!; [lia|done|]. cbn. set_solver.
Qed.

Lemma add_ok q x p b : ok q -> 0 <= p < Depth -> ok (add q x p b).
Proof.
  intros H Hp. unfold add. destruct b; [|by apply set_used_ok].
  destruct (level q p ++ [x]) eqn:E; [by destruct (level q p)|]. by apply set_used_ok.
Qed.

Lemma remove_ok q x p : ok q -> 0 <= p < Depth -> ok (remove q x p).
Proof.
  intros H Hp. unfold remove. destruct (Nat.eqb_spec (ListIterateTo (level q p) x) (length (level q p))); [done|].
  pose proof (ListIterateTo_le (level q p) x). apply clear_used_ok; [done|done|]. apply nonempty_length. lia.
Qed.

Lemma transfer_ok b q x p other q' other' :
  ok q -> ok other -> 0 <= p < Depth -> transfer b q x p other = Some (q', other') -> ok q' /\ ok other'.
Proof.
  intros H Ho Hp. unfold transfer, ListSplice.
  destruct (level q p !! ListIterateTo (level q p) x) as [y|] eqn:E; [|done]. cbn. intros [= <- <-]. split.
  - apply clear_used_ok; [done|done|]. apply nonempty_length. apply lookup_lt_Some in E. lia.
  - destruct (take _ _ ++ y :: _) eqn:El; [by destruct (take _ _)|]. by apply set_used_ok.
Qed.

Lemma nonempty_ShiftForward l n : nonempty (ListShiftForward l n) = nonempty l.
Proof.
  unfold ListShiftForward. destruct (Nat.leb_spec (length l) n); [done|].
  apply eq_true_iff_eq. rewrite !nonempty_length, length_app, length_drop, length_take. lia.
Qed.

Lemma yield_ok q p n : ok q -> 0 <= p < Depth -> ok (yield q p n).
Proof.
  intros H Hp. apply set_level_ok; [done|done|apply H|]. intros p' Hp'.
  destruct (Z.eqb_spec p p') as [->|]; [|done]. by rewrite nonempty_ShiftForward, (ok_bits q H).
Qed.

Lemma clear_ok q : ok q -> ok (clear q).
Proof.
  intros H. split.
  - cbn [clear levels]. rewrite length_map. apply H.
  - cbn [clear used_priorities]. unfold is_u64. lia.
  - intros p Hp. cbn [clear used_priorities]. rewrite Z.bits_0. unfold level. cbn [clear levels].
    rewrite nth_lookup, list_lookup_fmap. by destruct (levels q !! _).
Qed.

Lemma new_ok : ok (MultiLevelQueue_new (T := T) Depth).
Proof.
  split.
  - by apply length_replicate.
  - cbn. unfold is_u64. lia.
  - intros p Hp. cbn [MultiLevelQueue_new used_priorities]. rewrite Z.bits_0. unfold level. cbn [levels MultiLevelQueue_new].
    rewrite nth_lookup. destruct (decide (Z.to_nat p < Z.to_nat Depth)%nat).
    + by rewrite lookup_replicate_2.
    + rewrite lookup_ge_None_2; [done|]. rewrite length_replicate. lia.
Qed.

(** ** The lists in order of priority *)

(** The elements at priorities from [k] on. *)
Definition from q (k : Z) : list T := concat (drop (Z.to_nat k) (levels q)).

Lemma from_step q k : 0 <= k -> from q k = level q k ++ from q (k + 1).
Proof.
  intros Hk. unfold from, level. replace (Z.to_nat (k + 1)) with (S (Z.to_nat k)) by lia.
  generalize (Z.to_nat k) as n. induction (levels q) as [|l ls IH]; intros [|n]; cbn; [done|done|done|].
  apply IH.
Qed.

Lemma from_skip q k p : 0 <= k <= p -> (forall j, k <= j < p -> level q j = []) -> from q k = from q p.
Proof.
  intros Hkp He. replace p with (k + Z.of_nat (Z.to_nat (p - k))) in * by lia.
  induction (Z.to_nat (p - k)) as [|n IH]; [by rewrite Z.add_0_r|].
  rewrite IH, (from_step _ (k + Z.of_nat n)), He by lia || (intros; apply He; lia).
  by replace (k + Z.of_nat (S n)) with (k + Z.of_nat n + 1) by lia.
Qed.

(** The bits from [k] on. *)
Definition masked q (k : Z) : Z := Z.ldiff (used_priorities q) (2 ^ k - 1).

Lemma masked_bit q k p : ok q -> 0 <= k -> 0 <= p < 64 -> Z.testbit (masked q k) p = (k <=? p) && nonempty (level q p).
Proof.
  intros H Hk Hp. unfold masked. rewrite Z.ldiff_spec, testbit_low_mask, (ok_bits q H), andb_comm by lia.
  destruct (Z.ltb_spec p k), (Z.leb_spec k p); done || lia.
Qed.

Lemma masked_u64 q k : ok q -> is_u64 (masked q k).
Proof. intros H. apply ldiff_u64, H. Qed.

Lemma masked_zero q k : ok q -> 0 <= k <= 64 -> masked q k = 0 -> from q k = [].
Proof.
  intros H Hk Hz. rewrite (from_skip q k 64); [|lia|intros j Hj].
  - unfold from. rewrite drop_ge; [done|]. rewrite (ok_levels q H). lia.
  - pose proof (masked_bit q k j H ltac:(lia) ltac:(lia)) as Hb. rewrite Hz, Z.bits_0 in Hb.
    destruct (Z.leb_spec k j); [|lia]. by destruct (level q j).
Qed.

(** The next level in use. *)
Lemma masked_next q k :
  ok q -> 0 <= k < 64 -> masked q k <> 0 ->
  let p := CountTrailingZeroes64 (masked q k) in
  k <= p < Depth /\ nonempty (level q p) = true /\ from q k = from q p
  /\ masked q (p + 1) = Z.ldiff (masked q k) (2 ^ p).
Proof.
  intros H Hk Hz p. pose proof (masked_u64 q k H) as [H0 H64].
  assert (0 < masked q k < 2 ^ 64) as Hr by lia.
  pose proof (ctz_range _ Hr) as Hp. pose proof (ctz_bit _ Hr) as Hb. fold p in Hp, Hb.
  rewrite masked_bit in Hb by done || lia. apply andb_prop in Hb as [Hkp%Z.leb_le Hne].
  assert (forall j, k <= j < p -> level q j = []) as He.
  { intros j Hj. pose proof (ctz_below _ Hr j ltac:(lia)) as E. rewrite masked_bit in E by done || lia.
    destruct (Z.leb_spec k j); [|lia]. by destruct (level q j). }
  split_and!; [lia| |done|apply from_skip; [lia|done]|].
  - destruct (Z.lt_ge_cases p Depth); [done|]. by rewrite (level_out q p H) in Hne.
  - apply Z.bits_inj'. intros j Hj. rewrite Z.ldiff_spec, testbit_pow2 by lia.
    destruct (Z.lt_ge_cases j 64).
    + rewrite !masked_bit by done || lia.
      destruct (Z.leb_spec (p + 1) j), (Z.leb_spec k j), (Z.eqb_spec j p); cbn [andb negb];
        rewrite ?andb_true_r, ?andb_false_r; try done; try lia. by rewrite He by lia.
    + rewrite !(testbit_high 64) by (done || apply masked_u64, H). done.
Qed.

Lemma masked_0 q : ok q -> masked q 0 = used_priorities q.
Proof. intros H. apply Z.ldiff_0_r. Qed.

(** *** size() *)

Lemma size_loop_spec fuel : forall q k acc,
  ok q -> 0 <= k <= 64 -> 64 - k <= Z.of_nat fuel ->
  size_loop fuel q (masked q k) acc = Some (acc + Z.of_nat (length (from q k))).
Proof.
  induction fuel as [|fuel IH]; intros q k acc H Hk Hf; cbn [size_loop].
  - assert (k = 64) as -> by lia. replace (masked q 64) with 0.
    { cbn [Z.eqb]. unfold from.
      rewrite drop_ge by (rewrite (ok_levels q H); lia). cbn. f_equal. lia. }
    symmetry. apply u64_zero_bits; [by apply masked_u64|]. intros i Hi.
    rewrite masked_bit by done || lia. destruct (Z.leb_spec 64 i); done || lia.
  - destruct (Z.eqb_spec (masked q k) 0) as [E|E]; [by rewrite (masked_zero q k), Z.add_0_r by done|].
    assert (k < 64) as Hk'.
    { destruct (Z.lt_ge_cases k 64); [done|]. exfalso. apply E. apply u64_zero_bits; [by apply masked_u64|].
      intros i Hi. rewrite masked_bit by done || lia. destruct (Z.leb_spec k i); done || lia. }
    destruct (masked_next q k H ltac:(lia) E) as (Hp & Hne & Hf' & Hm).
    set (p := CountTrailingZeroes64 (masked q k)) in *.
    rewrite shift_pow, land_u64_not, <- Hm by (done || lia || by apply masked_u64).
    rewrite IH by done || lia. rewrite Hf', (from_step q p), length_app by lia. unfold size_at. f_equal. lia.
Qed.

(** *** front(), back() and iteration *)

Lemma highest_masked q k :
  ok q -> 0 <= k < 64 ->
  highest_priority_set Depth q k = if masked q k =? 0 then Depth else CountTrailingZeroes64 (masked q k).
Proof.
  intros H Hk. unfold highest_priority_set. destruct (Z.eqb_spec k 0) as [->|]; [by rewrite masked_0|].
  by rewrite shift_pow, land_u64_not by (done || apply H).
Qed.

Lemma head_nonempty l l' : nonempty l = true -> head (l ++ l') = head l.
Proof. by destruct l. Qed.

Lemma front_spec q k :
  ok q -> 0 <= k < 64 -> from q k <> [] -> front Depth q k = head (from q k).
Proof.
  intros H Hk Hne. unfold front. rewrite highest_masked by done.
  destruct (Z.eqb_spec (masked q k) 0) as [E|E]; [by destruct Hne; apply masked_zero; [|lia|]|].
  destruct (masked_next q k H Hk E) as (Hp & Hu & Ef & _). destruct (Z.eqb_spec (CountTrailingZeroes64 (masked q k)) Depth); [lia|].
  rewrite Ef, from_step, head_nonempty by done || lia. done.
Qed.

(** The elements at priorities up to [m]. *)
Definition upto q (m : Z) : list T := concat (take (Z.to_nat (m + 1)) (levels q)).

Lemma upto_step q m : 0 <= m -> upto q m = upto q (m - 1) ++ level q m.
Proof.
  intros Hm. unfold upto, level. replace (Z.to_nat (m + 1)) with (S (Z.to_nat m)) by lia.
  replace (m - 1 + 1) with m by lia. generalize (Z.to_nat m) as n.
  induction (levels q) as [|l ls IH]; intros [|n]; cbn; [done|done|by rewrite app_nil_r|].
  rewrite <- app_assoc. f_equal. apply IH.
Qed.

Lemma upto_skip q p m : 0 <= p <= m -> (forall j, p < j <= m -> level q j = []) -> upto q m = upto q p.
Proof.
  intros Hpm He. replace m with (p + Z.of_nat (Z.to_nat (m - p))) in * by lia.
  induction (Z.to_nat (m - p)) as [|n IH]; [by rewrite Z.add_0_r|].
  rewrite upto_step, He, app_nil_r by lia.
  replace (p + Z.of_nat (S n) - 1) with (p + Z.of_nat n) by lia. apply IH; [lia|]. intros. apply He. lia.
Qed.

(** The bits up to [m]. *)
Definition low_bits q (m : Z) : Z := used_priorities q .& (2 ^ (m + 1) - 1).

Lemma low_bit q m j :
  ok q -> 0 <= m -> 0 <= j < 64 -> Z.testbit (low_bits q m) j = (j <=? m) && nonempty (level q j).
Proof.
  intros H Hm Hj. unfold low_bits. rewrite Z.land_spec, testbit_low_mask, (ok_bits q H), andb_comm by lia.
  destruct (Z.ltb_spec j (m + 1)), (Z.leb_spec j m); done || lia.
Qed.

Lemma low_bits_u64 q m : ok q -> is_u64 (low_bits q m).
Proof.
  intros H. pose proof (ok_u64 q H) as Hu. apply range_of_bits; [lia|apply Z.land_nonneg; left; apply Hu|].
  intros n Hn. unfold low_bits. rewrite Z.land_spec. by rewrite (testbit_high 64 (used_priorities q)) by done.
Qed.

Lemma low_bits_next q m :
  ok q -> 0 <= m < 64 -> low_bits q m <> 0 ->
  let p := Z.log2 (low_bits q m) in 0 <= p <= m /\ nonempty (level q p) = true /\ upto q m = upto q p.
Proof.
  intros H Hm Hz p. pose proof (low_bits_u64 q m H) as [H0 H64]. assert (0 < low_bits q m < 2 ^ 64) as Hr by lia.
  pose proof (log2_range _ Hr) as Hp. fold p in Hp. pose proof (Z.bit_log2 _ (proj1 Hr)) as Hb. fold p in Hb.
  rewrite low_bit in Hb by done || lia. apply andb_prop in Hb as [Hpm%Z.leb_le Hne].
  split_and!; [lia|lia|done|]. apply upto_skip; [lia|]. intros j Hj.
  pose proof (Z.bits_above_log2 (low_bits q m) j ltac:(lia) ltac:(fold p; lia)) as E.
  rewrite low_bit in E by done || lia. destruct (Z.leb_spec j m); [|lia]. by destruct (level q j).
Qed.

Lemma low_bits_all q m : ok q -> Depth - 1 <= m < 64 -> low_bits q m = used_priorities q.
Proof.
  intros H Hm. apply Z.bits_inj'. intros j Hj. destruct (Z.lt_ge_cases j 64).
  - rewrite low_bit, (ok_bits q H) by done || lia. destruct (Z.leb_spec j m); [done|].
    by rewrite (level_out q j H) by lia.
  - rewrite !(testbit_high 64) by (done || apply low_bits_u64, H || apply H). done.
Qed.

Lemma lowest_low q m :
  ok q -> 0 <= m < Depth ->
  lowest_priority_set Depth q m = if low_bits q m =? 0 then Depth else 63 - CountLeadingZeroes64 (low_bits q m).
Proof.
  intros H Hm. unfold lowest_priority_set. destruct (Z.leb_spec (Depth - 1) m).
  - by rewrite (low_bits_all q m) by done || lia.
  - by rewrite shift_pow by lia.
Qed.

Lemma low_bits_zero q m : ok q -> 0 <= m < 64 -> low_bits q m = 0 -> upto q m = [].
Proof.
  intros H Hm Hz. rewrite (upto_skip q 0 m); [|lia|].
  - rewrite upto_step by lia. pose proof (low_bit q m 0 H ltac:(lia) ltac:(lia)) as Hb. rewrite Hz, Z.bits_0 in Hb.
    destruct (Z.leb_spec 0 m); [|lia]. destruct (level q 0); [|done]. by rewrite app_nil_r.
  - intros j Hj. pose proof (low_bit q m j H ltac:(lia) ltac:(lia)) as Hb. rewrite Hz, Z.bits_0 in Hb.
    destruct (Z.leb_spec j m); [|lia]. by destruct (level q j).
Qed.

Lemma last_nonempty l l' : nonempty l' = true -> last (l ++ l') = last l'.
Proof.
  destruct l' as [|x l'] using rev_ind; [done|]. intros _. by rewrite app_assoc, !last_snoc.
Qed.

Lemma back_spec q m :
  ok q -> 0 <= m < Depth -> upto q m <> [] -> back Depth q m = last (upto q m).
Proof.
  intros H Hm Hne. unfold back. rewrite lowest_low by done. destruct (Z.eqb_spec (low_bits q m) 0) as [E|E].
  { destruct Hne. apply low_bits_zero; [done|lia|done]. }
  pose proof (low_bits_u64 q m H) as [H0 H64]. rewrite clz_log2 by lia.
  destruct (low_bits_next q m H ltac:(lia) E) as (Hp & Hu & Ef). destruct (Z.eqb_spec (Z.log2 (low_bits q m)) Depth); [lia|].
  rewrite Ef, upto_step, last_nonempty by done || lia. done.
Qed.

(** One step inside the queue: the next element of the level, or the first
    of the next level in use, or the end. *)
Lemma incr_spec q p i :
  ok q -> 0 <= p < Depth -> p < 63 -> (i < length (level q p))%nat ->
  exists j, incr Depth q {| it := i; current_priority := p |} = Some j
    /\ ((exists p' i', j = {| it := i'; current_priority := p' |} /\ 0 <= p' < Depth
          /\ (i' < length (level q p'))%nat
          /\ drop (S i) (level q p) ++ from q (p + 1) = drop i' (level q p') ++ from q (p' + 1))
        \/ IsEnd Depth j = true /\ drop (S i) (level q p) ++ from q (p + 1) = []).
Proof.
  intros H Hp Hp63 Hi. unfold incr, IsEnd. cbn [current_priority it]. destruct (Z.eqb_spec p Depth); [lia|].
  destruct (Nat.eqb_spec (S i) (length (level q p))) as [Hn|Hn].
  - rewrite shl1_some by lia. cbn [mbind option_bind]. rewrite land_u64_not by apply H. fold (masked q (p + 1)).
    rewrite (drop_ge (level q p)) by lia. cbn [app].
    destruct (Z.eqb_spec (masked q (p + 1)) 0) as [E|E]; (eexists; split; [reflexivity|]).
    + right. cbn [current_priority]. split; [apply Z.eqb_refl|]. apply masked_zero; [done|lia|done].
    + left. destruct (masked_next q (p + 1) H ltac:(lia) E) as (Hp' & Hu & Ef & _).
      eexists _, 0%nat. split; [reflexivity|]. split; [lia|]. split; [by apply nonempty_length|].
      rewrite Ef, from_step by lia. by rewrite drop_0.
  - eexists. split; [reflexivity|]. left. exists p, (S i). split_and!; done || lia.
Qed.

Lemma iterate_spec fuel : forall q p i,
  ok q -> level q 63 = [] -> 0 <= p < Depth -> (i < length (level q p))%nat ->
  (length (drop i (level q p) ++ from q (p + 1)) <= fuel)%nat ->
  iterate Depth fuel q {| it := i; current_priority := p |} = Some (drop i (level q p) ++ from q (p + 1)).
Proof.
  induction fuel as [|fuel IH]; intros q p i H H63 Hp Hi Hf; cbn [iterate];
    unfold IsEnd at 1; cbn [current_priority]; (destruct (Z.eqb_spec p Depth); [lia|]).
  { rewrite length_app, length_drop in Hf. lia. }
  destruct (lookup_lt_is_Some_2 _ _ Hi) as [x Hx]. rewrite (drop_S _ _ _ Hx) in Hf |- *. cbn [app length] in Hf |- *.
  assert (p < 63) as Hp63. { destruct (Z.eq_dec p 63) as [->|]; [by rewrite H63 in Hx|lia]. }
  unfold deref. cbn [current_priority it]. rewrite Hx. cbn [mbind option_bind].
  destruct (incr_spec q p i H Hp Hp63 Hi) as (j & -> & [(p' & i' & -> & Hp' & Hi' & E)|[Hend E]]); cbn [mbind option_bind].
  - rewrite E, IH; [done|done|done|done|done|]. rewrite <- E. lia.
  - rewrite E. destruct fuel; cbn [iterate]; by rewrite Hend.
Qed.

Lemma cbegin_iterate fuel q k :
  ok q -> level q 63 = [] -> 0 <= k < 64 -> (length (from q k) <= fuel)%nat ->
  iterate Depth fuel q (cbegin Depth q k) = Some (from q k).
Proof.
  intros H H63 Hk Hf. unfold cbegin. rewrite highest_masked by done.
  destruct (Z.eqb_spec (masked q k) 0) as [E|E].
  - rewrite Z.eqb_refl, (masked_zero q k) by done || lia. destruct fuel; cbn [iterate]; unfold IsEnd; cbn [cend current_priority]; by rewrite Z.eqb_refl.
  - destruct (masked_next q k H Hk E) as (Hp & Hu & Ef & _). set (p := CountTrailingZeroes64 (masked q k)) in *.
    destruct (Z.eqb_spec p Depth); [lia|]. rewrite Ef in Hf |- *. rewrite from_step in Hf |- * by lia.
    by apply iterate_spec; [|..|lia|apply nonempty_length|].
Qed.

(** With an element at level 63 the loop always comes to an undefined shift. *)
Lemma from_last_level q k : ok q -> 0 <= k <= 63 -> level q 63 <> [] -> from q k <> [].
Proof.
  intros H Hk H63 E. assert (forall n, (Z.of_nat n <= 63)%Z -> from q (63 - Z.of_nat n) <> []) as Hn.
  { induction n as [|n IH]; intros Hn; [rewrite Z.sub_0_r|]; (rewrite from_step by lia); intros [E1 E2]%app_eq_nil; [done|].
    apply IH; [lia|]. by replace (63 - Z.of_nat n) with (63 - Z.of_nat (S n) + 1) by lia. }
  apply (Hn (Z.to_nat (63 - k))); [lia|]. by replace (63 - Z.of_nat (Z.to_nat (63 - k))) with k by lia.
Qed.
Lemma iterate_undefined fuel : forall q p i,
  ok q -> level q 63 <> [] -> 0 <= p < Depth -> (i < length (level q p))%nat ->
  iterate Depth fuel q {| it := i; current_priority := p |} = None.
Proof.
  induction fuel as [|fuel IH]; intros q p i H H63 Hp Hi; cbn [iterate];
    unfold IsEnd at 1; cbn [current_priority]; (destruct (Z.eqb_spec p Depth); [lia|]); [done|].
  destruct (lookup_lt_is_Some_2 _ _ Hi) as [x Hx]. unfold deref. cbn [current_priority it]. rewrite Hx. cbn [mbind option_bind].
  destruct (Z.lt_ge_cases p 63) as [Hp63|Hp63].
  - destruct (incr_spec q p i H Hp Hp63 Hi) as (j & -> & [(p' & i' & -> & Hp' & Hi' & E)|[Hend [_ E]%app_eq_nil]]); cbn [mbind option_bind].
    + by rewrite IH.
    + by apply from_last_level in E; [|done|lia|done].
  - assert (p = 63) as -> by lia. unfold incr, IsEnd. cbn [current_priority it]. destruct (Z.eqb_spec 63 Depth); [lia|].
    destruct (Nat.eqb_spec (S i) (length (level q 63))); [done|]. cbn [mbind option_bind]. rewrite IH by (done || lia). done.
Qed.
Lemma cbegin_undefined fuel q k :
  ok q -> level q 63 <> [] -> 0 <= k < 64 -> iterate Depth fuel q (cbegin Depth q k) = None.
Proof.
  intros H H63 Hk. unfold cbegin. rewrite highest_masked by done. destruct (Z.eqb_spec (masked q k) 0) as [E|E].
  - destruct (from_last_level q k H ltac:(lia) H63). by apply masked_zero; [|lia|].
  - destruct (masked_next q k H Hk E) as (Hp & Hu & Ef & _). set (p := CountTrailingZeroes64 (masked q k)) in *.
    destruct (Z.eqb_spec p Depth); [lia|]. apply iterate_undefined; [done|done|lia|by apply nonempty_length].
Qed.

(** ** Queues a scheduler can build *)

Inductive reachable : MultiLevelQueue T -> Prop :=
  | reach_new : reachable (MultiLevelQueue_new Depth)
  | reach_add q x p b : reachable q -> 0 <= p < Depth -> reachable (add q x p b)
  | reach_remove q x p : reachable q -> 0 <= p < Depth -> reachable (remove q x p)
  | reach_adjust q x p p' b :
      reachable q -> 0 <= p < Depth -> 0 <= p' < Depth -> reachable (adjust q x p p' b)
  | reach_yield q p n : reachable q -> 0 <= p < Depth -> reachable (yield q p n)
  | reach_clear q : reachable q -> reachable (clear q)
  | reach_transfer_out b q x p other q' other' :
      reachable q -> reachable other -> 0 <= p < Depth ->
      transfer b q x p other = Some (q', other') -> reachable q'
  | reach_transfer_in b q x p other q' other' :
      reachable q -> reachable other -> 0 <= p < Depth ->
      transfer b q x p other = Some (q', other') -> reachable other'.

Lemma mlq_reachable_ok q : reachable q -> ok q.
Proof.
  induction 1; eauto using new_ok, add_ok, remove_ok, yield_ok, clear_ok.
  - by edestruct (transfer_ok b q x p other q' other').
  - by edestruct (transfer_ok b q x p other q' other').
Qed.

Lemma from_0 q : from q 0 = concat (levels q).
Proof. unfold from. by rewrite drop_0. Qed.

(** in every queue built with [add], [remove], [adjust],
    [transfer_to_front], [transfer_to_back], [yield] and [clear], a bit of
    [used_priorities] is set exactly when its level has an element; so
    [empty()] and [empty(priority)] report what the lists hold. *)
Theorem mlq_invariant q :
  reachable q ->
  (forall p, 0 <= p < 64 -> Z.testbit (used_priorities q) p = true <-> level q p <> [])
  /\ (empty q = true <-> concat (levels q) = [])
  /\ (forall p, 0 <= p < Depth -> empty_at q p = true <-> level q p = []).
Proof.
  intros H%mlq_reachable_ok. split_and!.
  - intros p Hp. rewrite (ok_bits q H) by done. by destruct (level q p).
  - unfold empty. rewrite Z.eqb_eq, <- masked_0, <- from_0 by done. split; [apply masked_zero; [done|lia]|].
    intros E. apply u64_zero_bits; [by apply masked_u64|]. intros i Hi. rewrite masked_bit by done || lia.
    destruct (Z.leb_spec 0 i); [|lia]. cbn [andb]. destruct (level q i) eqn:El; [done|].
    assert (forall j, 0 <= j -> from q 0 = [] -> from q j = []) as Hall.
    { intros j Hj E0. replace j with (Z.of_nat (Z.to_nat j)) by lia.
      induction (Z.to_nat j) as [|n IH]; [done|]. rewrite from_step in IH by lia.
      apply app_eq_nil in IH as [_ IH]. by replace (Z.of_nat (S n)) with (Z.of_nat n + 1) by lia. }
    specialize (Hall i ltac:(lia) E). rewrite from_step, El in Hall by lia. done.
  - intros p Hp. unfold empty_at. rewrite shift_pow, Z.eqb_eq by lia.
    pose proof (ok_bits q H p ltac:(lia)) as Hb. split.
    + intros E. assert (Z.testbit (used_priorities q .& 2 ^ p) p = false) as E' by (rewrite E; apply Z.bits_0).
      rewrite Z.land_spec, testbit_pow2, Z.eqb_refl, andb_true_r, Hb in E' by lia. by destruct (level q p).
    + intros El. apply Z.bits_inj'. intros i Hi. rewrite Z.bits_0, Z.land_spec, testbit_pow2 by lia.
      destruct (Z.eqb_spec i p) as [->|]; [by rewrite Hb, El|apply andb_false_r].
Qed.

(** C35: on every queue with up to 64 levels that its operations can build,
    [size()] ends after at most 64 rounds with the number of elements.  A loop
    from [begin(max_prio)] to [end()] ends after visiting exactly the elements
    at priorities [max_prio] and beyond, in order of priority and in the order
    of each list, once each, if there is no element at priority 63; if there is
    one, which takes 64 levels, the loop comes to an undefined shift in
    [operator++] however long it runs. *)
Theorem mlq_traversal q k :
  reachable q -> 0 <= k < 64 ->
  size q = Some (Z.of_nat (length (concat (levels q))))
  /\ (level q 63 = [] -> iterate Depth (length (from q k)) q (cbegin Depth q k) = Some (from q k))
  /\ (level q 63 <> [] -> forall fuel, iterate Depth fuel q (cbegin Depth q k) = None).
Proof.
  intros H%mlq_reachable_ok Hk. split; [|split; [intros H63; by apply cbegin_iterate|intros H63 fuel; by apply cbegin_undefined]].
  unfold size. rewrite <- masked_0, <- from_0 by done. by apply (size_loop_spec 64).
Qed.

(** [front(max_priority)] is the first element at priorities from
    [max_priority] on, and [back(min_priority)] the last one at priorities up
    to [min_priority], whenever there is one. *)
Theorem mlq_front_back q k m :
  reachable q -> 0 <= k < 64 -> 0 <= m < Depth ->
  (from q k <> [] -> front Depth q k = head (from q k))
  /\ (upto q m <> [] -> back Depth q m = last (upto q m)).
Proof. intros H%mlq_reachable_ok Hk Hm. split; [by apply front_spec|by apply back_spec]. Qed.

(** ** Two defects of the iterators *)

(** [operator++] shifts [1ULL] by 64 at the last element of level 63. *)
Lemma incr_undefined q i :
  Depth = 64 -> S i = length (level q 63) -> incr Depth q {| it := i; current_priority := 63 |} = None.
Proof.
  intros -> Hi. unfold incr, IsEnd. cbn [current_priority it]. change (63 =? 64) with false. cbn iota.
  by rewrite (proj2 (Nat.eqb_eq _ _) Hi).
Qed.

(** [operator--] at the first element of a level goes to the first level in
    use, whatever lies between: it scans for the lowest bit instead of the
    highest below the current one. *)
Lemma decr_to_first_level q r :
  ok q -> 0 <= r < Depth -> (exists j, 0 <= j < r /\ level q j <> []) ->
  let p := highest_priority_set Depth q 0 in
  p < r /\ decr Depth q {| it := 0; current_priority := r |}
            = Some {| it := pred (length (level q p)); current_priority := p |}.
Proof.
  intros H Hr (j & Hj & Hne) p. unfold p. rewrite highest_masked by done.
  assert (Z.testbit (masked q 0) j = true) as Hbj.
  { rewrite masked_bit by done || lia. destruct (Z.leb_spec 0 j); [|lia]. by destruct (level q j). }
  destruct (Z.eqb_spec (masked q 0) 0) as [E|E]; [by rewrite E, Z.bits_0 in Hbj|].
  pose proof (masked_u64 q 0 H) as [H0 H64]. assert (0 < masked q 0 < 2 ^ 64) as Hr0 by lia.
  set (p0 := CountTrailingZeroes64 (masked q 0)). pose proof (ctz_range _ Hr0) as Hp0. fold p0 in Hp0.
  assert (p0 <= j) as Hpj.
  { destruct (Z.le_gt_cases p0 j); [done|]. pose proof (ctz_below _ Hr0 j ltac:(fold p0; lia)). congruence. }
  split; [lia|]. unfold decr, IsEnd. cbn [current_priority it Nat.eqb]. destruct (Z.eqb_spec r Depth); [lia|].
  rewrite shl1_some by lia. cbn [mbind option_bind].
  replace (used_priorities q .& (2 ^ r - 1)) with (low_bits q (r - 1)) by (unfold low_bits; do 3 f_equal; lia).
  pose proof (low_bits_u64 q (r - 1) H) as [L0 L64].
  assert (Z.testbit (low_bits q (r - 1)) j = true) as Hlj.
  { rewrite low_bit by done || lia. destruct (Z.leb_spec j (r - 1)); [|lia]. by destruct (level q j). }
  destruct (Z.eqb_spec (low_bits q (r - 1)) 0) as [E'|E']; [by rewrite E', Z.bits_0 in Hlj|].
  assert (0 < low_bits q (r - 1) < 2 ^ 64) as Hr1 by lia. set (p1 := CountTrailingZeroes64 (low_bits q (r - 1))).
  assert (p1 = p0) as ->; [|done].
  pose proof (ctz_range _ Hr1) as Hp1. fold p1 in Hp1. pose proof (ctz_bit _ Hr1) as Hb1. fold p1 in Hb1.
  pose proof (ctz_bit _ Hr0) as Hb0. fold p0 in Hb0. rewrite masked_bit in Hb0 by done || lia.
  rewrite low_bit in Hb1 by done || lia. apply andb_prop in Hb1 as [Hp1r Hn1]. apply andb_prop in Hb0 as [_ Hn0].
  destruct (Z.lt_trichotomy p1 p0) as [Hlt|[Heq|Hgt]]; [|done|].
  - pose proof (ctz_below _ Hr0 p1 ltac:(fold p0; lia)) as Hf. rewrite masked_bit, Hn1 in Hf by done || lia.
    destruct (Z.leb_spec 0 p1); done || lia.
  - pose proof (ctz_below _ Hr1 p0 ltac:(fold p1; lia)) as Hf. rewrite low_bit, Hn0 in Hf by done || lia.
    destruct (Z.leb_spec p0 (r - 1)); done || lia.
Qed.
End Invariant.

(** ** Witnesses *)

Definition sample_queue : MultiLevelQueue Z :=
  add (add (add (add (MultiLevelQueue_new 64) 10 3 true) 20 5 true) 21 5 false) 30 9 true.

Lemma sample_queue_reachable : reachable 64 sample_queue.
Proof. repeat (apply reach_add; [|lia]). apply reach_new. Qed.

Lemma mlq_invariant_witness : empty sample_queue = true <-> concat (levels sample_queue) = [].
Proof. destruct (mlq_invariant 64 ltac:(lia) sample_queue sample_queue_reachable) as (_ & He & _). exact He. Defined.

Lemma mlq_traversal_witness :
  size sample_queue = Some 4 /\ iterate 64 4 sample_queue (cbegin 64 sample_queue 0) = Some [10; 21; 20; 30].
Proof.
  destruct (mlq_traversal 64 ltac:(lia) sample_queue 0 sample_queue_reachable ltac:(lia)) as (HS & HI & _).
  split; [exact HS|exact (HI eq_refl)].
Defined.

Lemma mlq_front_back_witness : front 64 sample_queue 4 = Some 21 /\ back 64 sample_queue 63 = Some 30.
Proof.
  destruct (mlq_front_back 64 ltac:(lia) sample_queue 4 63 sample_queue_reachable) as [HF HB]; [lia|lia|].
  split; [apply HF; discriminate|apply HB; discriminate].
Defined.

(** Going back from the element at priority 9 skips the two at priority 5. *)
Example decr_skips_a_level :
  decr 64 sample_queue {| it := 0; current_priority := 9 |} = Some {| it := 0; current_priority := 3 |}
  /\ level sample_queue 5 = [21; 20].
Proof. split; reflexivity. Qed.
