(* ===== verification/PageHeap.v ===== *)
(** * The page heap of the kernel

    [Kernel::Memory::PageHeap] ([src/src/core/hle/kernel/memory/page_heap.h]
    and [page_heap.cpp]): a buddy allocator over seven block sizes.  Each
    size has a bitmap of free blocks, kept as up to four levels of 64-bit
    words in which a bit of one level says whether a word of the next is not
    zero.

    The pointers [bit_storages], which [Initialize] carves out of the
    [metadata] vector one after the other, are separate arrays here, with
    the lengths that it gives them; it returns how many words it used.
    [ASSERT] logs and goes on, so the failed assertions are recorded in the
    field [asserts].  [None] stands for an index outside [blocks], which is
    undefined. *)

From S2P Require Import Prelude BitUtil.
From stdpp Require Import base list sets.
Open Scope Z_scope.
Open Scope c_scope.

Definition PageBits : Z := 12.
Definition PageSize : Z := 1 << PageBits.

Module PageHeap.

(** ** Bitmap *)

Definition MaxDepth : Z := 4.

Record Bitmap := {
  bit_storages : list (list Z);
  num_bits : Z;
  used_depths : Z;
  asserts : bool;
}.

(** [bit_storages[depth][ind]], and its update. *)
Definition word (b : Bitmap) (depth ind : Z) : Z := (nth (Z.to_nat depth) (bit_storages b) []).[ind].
Definition set_word (b : Bitmap) (depth ind v : Z) : Bitmap :=
  {| bit_storages := <[Z.to_nat depth := upd (nth (Z.to_nat depth) (bit_storages b) []) ind v]> (bit_storages b);
     num_bits := num_bits b; used_depths := used_depths b; asserts := asserts b |}.
Definition set_num_bits (b : Bitmap) (n : Z) : Bitmap :=
  {| bit_storages := bit_storages b; num_bits := n; used_depths := used_depths b; asserts := asserts b |}.
Definition ASSERT (c : bool) (b : Bitmap) : Bitmap :=
  {| bit_storages := bit_storages b; num_bits := num_bits b; used_depths := used_depths b;
     asserts := asserts b && c |}.

Definition GetHighestDepthIndex (b : Bitmap) : Z := used_depths b - 1.

(** A 64-bit size is zero after at most 11 divisions by 64. *)
Fixpoint required_depth (fuel : nat) (region_size depth : Z) : Z :=
  match fuel with
  | O => depth
  | S fuel =>
      let region_size := region_size / 64 in
      let depth := depth + 1 in
      if region_size =? 0 then depth else required_depth fuel region_size depth
  end.
Definition GetRequiredDepth (region_size : Z) : Z := required_depth 11 region_size 0.

(** The loop of [Initialize] from depth [n - 1] down to 0: the arrays, and
    the words used. *)
Fixpoint init_storages (n : nat) (size : Z) : list (list Z) * Z :=
  match n with
  | O => ([], 0)
  | S n =>
      let size := AlignUp size 64 / 64 in
      let '(storages, used) := init_storages n size in
      (storages ++ [replicate (Z.to_nat size) 0], size + used)
  end.

Definition Bitmap_Initialize (size : Z) : Bitmap * Z :=
  let used_depths := GetRequiredDepth size in
  let '(storages, used) := init_storages (Z.to_nat used_depths) size in
  ({| bit_storages := storages; num_bits := 0; used_depths := used_depths;
      asserts := used_depths <=? MaxDepth |}, used).

(** The loop of [FindFreeBlock]: [n] levels from [depth] on are left. *)
Fixpoint find_loop (n : nat) (b : Bitmap) (depth offset : Z) : Bitmap * Z :=
  match n with
  | O => (b, offset)
  | S n =>
      let v := word b depth offset in
      if v =? 0 then (ASSERT (depth =? 0) b, -1)
      else find_loop n b (depth + 1) (offset *! 64 +! CountTrailingZeroes64 v)
  end.
Definition FindFreeBlock (b : Bitmap) : Bitmap * Z := find_loop (Z.to_nat (used_depths b)) b 0 0.

(** The private [SetBit] and [ClearBit] from depth [n - 1] down. *)
Fixpoint set_bit_from (n : nat) (b : Bitmap) (offset : Z) : Bitmap :=
  match n with
  | O => b
  | S n =>
      let depth := Z.of_nat n in
      let ind := offset / 64 in
      let which := offset mod 64 in
      let mask := to_u64 (1 << which) in
      let v := word b depth ind in
      let b := set_word (ASSERT (v .& mask =? 0) b) depth ind (v .| mask) in
      if v =? 0 then set_bit_from n b ind else b
  end.

Fixpoint clear_bit_from (n : nat) (b : Bitmap) (offset : Z) : Bitmap :=
  match n with
  | O => b
  | S n =>
      let depth := Z.of_nat n in
      let ind := offset / 64 in
      let which := offset mod 64 in
      let mask := to_u64 (1 << which) in
      let v := word b depth ind in
      let b := ASSERT (negb (v .& mask =? 0)) b in
      let v := v .& u64_not mask in
      let b := set_word b depth ind v in
      if v =? 0 then clear_bit_from n b ind else b
  end.

Definition SetBit (b : Bitmap) (offset : Z) : Bitmap :=
  let b := set_bit_from (Z.to_nat (GetHighestDepthIndex b + 1)) b offset in
  set_num_bits b (num_bits b +! 1).

Definition ClearBit (b : Bitmap) (offset : Z) : Bitmap :=
  let b := clear_bit_from (Z.to_nat (GetHighestDepthIndex b + 1)) b offset in
  set_num_bits b (num_bits b -! 1).

(** The two loops of [ClearRange] over [n] whole words from [ind], for a
    count that is a multiple of 64. *)
Definition all_ones (b : Bitmap) (depth ind : Z) (n : nat) : bool :=
  forallb (fun i => word b depth (ind + Z.of_nat i) =? 0xFFFFFFFFFFFFFFFF) (seq 0 n).
Fixpoint clear_words (n : nat) (b : Bitmap) (depth ind : Z) : Bitmap :=
  match n with
  | O => b
  | S n => clear_words n (clear_bit_from (Z.to_nat depth) (set_word b depth ind 0) ind) depth (ind + 1)
  end.

Definition ClearRange (b : Bitmap) (offset count : Z) : Bitmap * bool :=
  let depth := GetHighestDepthIndex b in
  let bit_ind := offset / 64 in
  if count <? 64 then
    let shift := offset mod 64 in
    let b := ASSERT (shift + count <=? 64) b in
    let mask := (to_u64 (1 << count) -! 1) <<! shift in
    let v := word b depth bit_ind in
    if negb (v .& mask =? mask) then (b, false)
    else
      let v := v .& u64_not mask in
      let b := set_word b depth bit_ind v in
      let b := if v =? 0 then clear_bit_from (Z.to_nat depth) b bit_ind else b in
      (set_num_bits b (num_bits b -! count), true)
  else
    let b := ASSERT (offset mod 64 =? 0) b in
    let b := ASSERT (count mod 64 =? 0) b in
    let n := Z.to_nat (count / 64) in
    if negb (all_ones b depth bit_ind n) then (b, false)
    else
      let b := clear_words n b depth bit_ind in
      (set_num_bits b (num_bits b -! count), true).

(** ** Block *)

Record Block := {
  bitmap : Bitmap;
  block_heap_address : Z;
  end_offset : Z;
  block_shift : Z;
  next_block_shift : Z;
}.

Definition set_bitmap (b : Block) (m : Bitmap) : Block :=
  {| bitmap := m; block_heap_address := block_heap_address b; end_offset := end_offset b;
     block_shift := block_shift b; next_block_shift := next_block_shift b |}.

Definition Block_GetSize (b : Block) : Z := 1 <<! block_shift b.
Definition Block_GetNumPages (b : Block) : Z := Block_GetSize b / PageSize.
Definition Block_GetNumFreePages (b : Block) : Z := num_bits (bitmap b) *! Block_GetNumPages b.

Definition Block_Initialize (addr size bs nbs : Z) : Block * Z :=
  let end_ := addr +! size in
  let align := if nbs =? 0 then 1 <<! bs else 1 <<! nbs in
  let addr := AlignDown addr align in
  let end_ := AlignUp end_ align in
  let end_offset := (end_ -! addr) / (1 <<! bs) in
  let '(m, used) := Bitmap_Initialize end_offset in
  ({| bitmap := m; block_heap_address := addr; end_offset := end_offset;
      block_shift := bs; next_block_shift := nbs |}, used).

Definition PushBlock (b : Block) (address : Z) : Block * Z :=
  let offset := (address -! block_heap_address b) >> block_shift b in
  let b := set_bitmap b (SetBit (bitmap b) offset) in
  if next_block_shift b =? 0 then (b, 0)
  else
    let diff := 1 <<! (next_block_shift b -! block_shift b) in
    let offset := AlignDown offset diff in
    let '(m, cleared) := ClearRange (bitmap b) offset diff in
    (set_bitmap b m, if cleared then block_heap_address b +! (offset <<! block_shift b) else 0).

Definition PopBlock (b : Block) : Block * Z :=
  let '(m, soffset) := FindFreeBlock (bitmap b) in
  let b := set_bitmap b m in
  if soffset <? 0 then (b, 0)
  else (set_bitmap b (ClearBit (bitmap b) soffset), block_heap_address b +! (soffset <<! block_shift b)).

(** ** PageHeap *)

Definition MemoryBlockPageShifts : list Z := [0xC; 0x10; 0x15; 0x16; 0x19; 0x1D; 0x1E].
Definition NumMemoryBlockPageShifts : Z := 7.

Record PageHeap := {
  heap_address : Z;
  heap_size : Z;
  used_size : Z;
  blocks : list Block;
  heap_asserts : bool;
}.

Definition set_block (h : PageHeap) (index : Z) (b : Block) : PageHeap :=
  {| heap_address := heap_address h; heap_size := heap_size h; used_size := used_size h;
     blocks := <[Z.to_nat index := b]> (blocks h); heap_asserts := heap_asserts h |}.

(** [blocks[index]] for a signed index. *)
Definition get_block (h : PageHeap) (index : Z) : option Block :=
  if index <? 0 then None else blocks h !! Z.to_nat index.

Definition GetBlockSize (index : Z) : Z := 1 <<! MemoryBlockPageShifts.[index].
Definition GetBlockNumPages (index : Z) : Z := GetBlockSize index / PageSize.

(** The loop of [GetAlignedBlockIndex], [n] sizes from [i] on. *)
Fixpoint aligned_index (n : nat) (i target_pages : Z) : Z :=
  match n with
  | O => -1
  | S n => if target_pages <=? GetBlockSize i / PageSize then i else aligned_index n (i + 1) target_pages
  end.
Definition GetAlignedBlockIndex (num_pages align_pages : Z) : Z :=
  aligned_index (Z.to_nat NumMemoryBlockPageShifts) 0 (Z.max num_pages align_pages).

(** The loop of [GetBlockIndex] from [n - 1] down. *)
Fixpoint block_index (n : nat) (num_pages : Z) : Z :=
  match n with
  | O => -1
  | S n => if GetBlockSize (Z.of_nat n) / PageSize <=? num_pages then Z.of_nat n else block_index n num_pages
  end.
Definition GetBlockIndex (num_pages : Z) : Z := block_index (Z.to_nat NumMemoryBlockPageShifts) num_pages.

Definition next_shift (i : Z) : Z :=
  if i =? NumMemoryBlockPageShifts - 1 then 0 else MemoryBlockPageShifts.[i + 1].

(** [Initialize]: the heap, and the words of [metadata] its bitmaps use. *)
Definition init_blocks (address size : Z) : list (Block * Z) :=
  map (fun i => Block_Initialize address size MemoryBlockPageShifts.[Z.of_nat i] (next_shift (Z.of_nat i)))
    (seq 0 (Z.to_nat NumMemoryBlockPageShifts)).
Definition Initialize (address size : Z) : PageHeap * Z :=
  ({| heap_address := address; heap_size := size; used_size := 0;
      blocks := map fst (init_blocks address size);
      heap_asserts := IsAligned address PageSize && IsAligned size PageSize |},
   foldr Z.add 0 (map snd (init_blocks address size))).

(** [FreeBlock]: at most as many rounds as there are sizes from [index]. *)
Fixpoint free_block (fuel : nat) (h : PageHeap) (block index : Z) : option PageHeap :=
  match fuel with
  | O => None
  | S fuel =>
      b ← get_block h index;
      let '(b, block) := PushBlock b block in
      let h := set_block h index b in
      if block =? 0 then Some h else free_block fuel h block (index + 1)
  end.
Definition FreeBlock (h : PageHeap) (block index : Z) : option PageHeap :=
  free_block (Z.to_nat NumMemoryBlockPageShifts) h block index.

(** The search of [Free] for the largest size that fits, from index [n - 1]
    down: the index, [big_start] and [big_end]; the index is -1 when there is
    none. *)
Fixpoint find_big (n : nat) (h : PageHeap) (start end_ : Z) : option (Z * Z * Z) :=
  match n with
  | O => Some (-1, start, end_)
  | S n =>
      b ← get_block h (Z.of_nat n);
      let block_size := Block_GetSize b in
      let big_start := AlignUp start block_size in
      let big_end := AlignDown end_ block_size in
      if big_start <? big_end then Some (Z.of_nat n, big_start, big_end) else find_big n h start end_
  end.

(** [for (block = big_start; block < big_end; block += block_size)]. *)
Fixpoint free_big (fuel : nat) (h : PageHeap) (block big_end block_size index : Z) : option PageHeap :=
  if block <? big_end then
    match fuel with
    | O => None
    | S fuel => h ← FreeBlock h block index; free_big fuel h (block +! block_size) big_end block_size index
    end
  else Some h.

(** [while (after_start + block_size <= after_end)]. *)
Fixpoint free_up (fuel : nat) (h : PageHeap) (block end_ block_size index : Z) : option (PageHeap * Z) :=
  if block +! block_size <=? end_ then
    match fuel with
    | O => None
    | S fuel => h ← FreeBlock h block index; free_up fuel h (block +! block_size) end_ block_size index
    end
  else Some (h, block).

(** [while (before_start + block_size <= before_end)]. *)
Fixpoint free_down (fuel : nat) (h : PageHeap) (before_start before_end block_size index : Z)
    : option (PageHeap * Z) :=
  if before_start +! block_size <=? before_end then
    match fuel with
    | O => None
    | S fuel =>
        let before_end := before_end -! block_size in
        h ← FreeBlock h before_end index;
        free_down fuel h before_start before_end block_size index
    end
  else Some (h, before_end).

(** The two loops over the smaller sizes, from index [n - 1] down to 0.  The
    inner loops run at most once per page. *)
Fixpoint free_before (n : nat) (fuel : nat) (h : PageHeap) (before_start before_end : Z) : option PageHeap :=
  match n with
  | O => Some h
  | S n =>
      b ← get_block h (Z.of_nat n);
      '(h, before_end) ← free_down fuel h before_start before_end (Block_GetSize b) (Z.of_nat n);
      free_before n fuel h before_start before_end
  end.
Fixpoint free_after (n : nat) (fuel : nat) (h : PageHeap) (after_start after_end : Z) : option PageHeap :=
  match n with
  | O => Some h
  | S n =>
      b ← get_block h (Z.of_nat n);
      '(h, after_start) ← free_up fuel h after_start after_end (Block_GetSize b) (Z.of_nat n);
      free_after n fuel h after_start after_end
  end.

Definition Free (h : PageHeap) (addr num_pages : Z) : option PageHeap :=
  if num_pages =? 0 then Some h
  else
    let start := addr in
    let end_ := num_pages *! PageSize +! addr in
    let fuel := Z.to_nat num_pages in
    '(big_index, big_start, big_end) ← find_big (Z.to_nat NumMemoryBlockPageShifts) h start end_;
    let h := {| heap_address := heap_address h; heap_size := heap_size h; used_size := used_size h;
                blocks := blocks h; heap_asserts := heap_asserts h && (0 <=? big_index) |} in
    if big_index <? 0 then Some h
    else
      b ← get_block h big_index;
      h ← free_big fuel h big_start big_end (Block_GetSize b) big_index;
      h ← free_before (Z.to_nat big_index) fuel h start big_start;
      free_after (Z.to_nat big_index) fuel h big_end end_.

(** The loop of [AllocateBlock], [n] sizes from [i] on. *)
Fixpoint allocate_loop (n : nat) (h : PageHeap) (needed_size i : Z) : option (PageHeap * Z) :=
  match n with
  | O => Some (h, 0)
  | S n =>
      b ← get_block h i;
      let '(b, addr) := PopBlock b in
      let h := set_block h i b in
      if addr =? 0 then allocate_loop n h needed_size (i + 1)
      else
        let allocated_size := Block_GetSize b in
        if needed_size <? allocated_size then
          h ← Free h (addr +! needed_size) ((allocated_size -! needed_size) / PageSize);
          Some (h, addr)
        else Some (h, addr)
  end.
Definition AllocateBlock (h : PageHeap) (index : Z) : option (PageHeap * Z) :=
  b ← get_block h index;
  allocate_loop (Z.to_nat (NumMemoryBlockPageShifts - index)) h (Block_GetSize b) index.

Definition GetNumFreePages (h : PageHeap) : Z :=
  foldl (fun num_free b => num_free +! Block_GetNumFreePages b) 0 (blocks h).

Definition UpdateUsedSize (h : PageHeap) : PageHeap :=
  {| heap_address := heap_address h; heap_size := heap_size h;
     used_size := heap_size h -! (GetNumFreePages h *! PageSize);
     blocks := blocks h; heap_asserts := heap_asserts h |}.

(** [CalculateMetadataOverheadSize] of a bitmap, a block and the heap. *)
Fixpoint overhead_loop (n : nat) (region_size overhead_bits : Z) : Z :=
  match n with
  | O => overhead_bits
  | S n =>
      let region_size := AlignUp region_size 64 / 64 in
      overhead_loop n region_size (overhead_bits +! region_size)
  end.
Definition Bitmap_Overhead (region_size : Z) : Z :=
  overhead_loop (Z.to_nat (GetRequiredDepth region_size)) region_size 0 *! 8.
Definition Block_Overhead (region_size cur_block_shift next_block_shift : Z) : Z :=
  let cur_block_size := 1 <<! cur_block_shift in
  let next_block_size := 1 <<! next_block_shift in
  let align := if next_block_shift =? 0 then cur_block_size else next_block_size in
  Bitmap_Overhead ((align *! 2 +! AlignUp region_size align) / cur_block_size).
Definition CalculateMetadataOverheadSize (region_size : Z) : Z :=
  AlignUp
    (foldl (fun overhead_size i =>
              overhead_size +! Block_Overhead region_size MemoryBlockPageShifts.[Z.of_nat i] (next_shift (Z.of_nat i)))
       0 (seq 0 (Z.to_nat NumMemoryBlockPageShifts)))
    PageSize.

End PageHeap.
Export PageHeap.

Example heap_runs :
  let h := fst (Initialize 0x40000000 0x1000000) in
  match Free h 0x40000000 0x1000 with
  | Some h =>
      GetNumFreePages h = 0x1000 /\ heap_asserts h = true
      /\ forallb (fun b => asserts (bitmap b)) (blocks h) = true
      /\ match AllocateBlock h 0 with
         | Some (h, a) =>
             a = 0x40000000 /\ GetNumFreePages h = 0xFFF
             /\ match Free h a 1 with
                | Some h => map (fun b => num_bits (bitmap b)) (blocks h) = [0; 0; 0; 4; 0; 0; 0]
                | None => False
                end
         | None => False
         end
  | None => False
  end.
Proof. vm_compute. repeat split. Qed.
