(* ===== verification/PageBitmap.v ===== *)
(** * The bitmaps of the page heap

    The multi-level bitmap of [PageHeap.v] is a set of offsets: setting,
    clearing and searching keep the summary levels exact, trip no assertion
    and act on the set as their names say. *)

From S2P Require Import Prelude BitUtil PageHeap.
From stdpp Require Import base list sets.
Open Scope Z_scope.
Open Scope c_scope.

(** ** Bits of an array of words *)

Definition bit_at (a : list Z) (i : Z) : bool := Z.testbit a.[i / 64] (i mod 64).
Abbreviation u64s := (Forall is_u64).

Lemma rd_out a i : Z.of_nat (length a) <= i -> a.[i] = 0.
Proof. intros H. unfold rd. apply nth_overflow. lia. Qed.

Lemma u64s_rd a i : u64s a -> is_u64 a.[i].
Proof. apply Forall_rd. unfold is_u64. lia. Qed.

Lemma u64s_upd a i v : u64s a -> is_u64 v -> u64s (upd a i v).
Proof. intros Ha Hv. unfold upd. by apply Forall_insert. Qed.

Lemma idx64 i j : 0 <= i -> 0 <= j -> i / 64 = j / 64 -> i mod 64 = j mod 64 -> i = j.
Proof. intros. zlia. Qed.

Section Words.
Context (a : list Z) (o : Z) (Ho : 0 <= o) (Hin : o / 64 < Z.of_nat (length a)).

Lemma bit_at_set i :
  0 <= i -> bit_at (upd a (o / 64) (a.[o / 64] .| 2 ^ (o mod 64))) i = (i =? o) || bit_at a i.
Proof.
  intros Hi. unfold bit_at. pose proof (Z.div_pos o 64). pose proof (Z.div_pos i 64).
  pose proof (Z.mod_pos_bound o 64). pose proof (Z.mod_pos_bound i 64).
  rewrite rd_upd by lia. destruct (Z.eqb_spec (o / 64) (i / 64)) as [E|E].
  - rewrite Z.lor_spec, testbit_pow2, E by lia. destruct (Z.eqb_spec (i mod 64) (o mod 64)) as [E'|E'].
    + rewrite (idx64 i o) by done. by rewrite Z.eqb_refl, orb_true_r.
    + destruct (Z.eqb_spec i o); [congruence|]. by rewrite orb_false_r.
  - destruct (Z.eqb_spec i o); [congruence|done].
Qed.

Lemma bit_at_clear i :
  0 <= i -> bit_at (upd a (o / 64) (Z.ldiff a.[o / 64] (2 ^ (o mod 64)))) i = negb (i =? o) && bit_at a i.
Proof.
  intros Hi. unfold bit_at. pose proof (Z.div_pos o 64). pose proof (Z.div_pos i 64).
  pose proof (Z.mod_pos_bound o 64). pose proof (Z.mod_pos_bound i 64).
  rewrite rd_upd by lia. destruct (Z.eqb_spec (o / 64) (i / 64)) as [E|E].
  - rewrite Z.ldiff_spec, testbit_pow2, E by lia. destruct (Z.eqb_spec (i mod 64) (o mod 64)) as [E'|E'].
    + rewrite (idx64 i o) by done. by rewrite Z.eqb_refl, andb_false_r.
    + destruct (Z.eqb_spec i o); [congruence|]. by rewrite andb_true_r.
  - destruct (Z.eqb_spec i o); [congruence|done].
Qed.

(** The mask of bit [o] meets the word exactly when the bit is set. *)
Lemma bit_mask : u64s a -> (a.[o / 64] .& 2 ^ (o mod 64) =? 0) = negb (bit_at a o).
Proof.
  intros Ha. pose proof (Z.mod_pos_bound o 64). unfold bit_at. apply eq_true_iff_eq.
  rewrite Z.eqb_eq, negb_true_iff. split.
  - intros E. assert (Z.testbit (a.[o / 64] .& 2 ^ (o mod 64)) (o mod 64) = false) as E' by (rewrite E; apply Z.bits_0).
    rewrite Z.land_spec, testbit_pow2, Z.eqb_refl, andb_true_r in E' by lia. done.
  - intros E. apply Z.bits_inj'. intros i Hi. rewrite Z.bits_0, Z.land_spec, testbit_pow2 by lia.
    destruct (Z.eqb_spec i (o mod 64)) as [->|]; [by rewrite E|apply andb_false_r].
Qed.
End Words.

Lemma bit_nonzero a i : bit_at a i = true -> a.[i / 64] <> 0.
Proof. unfold bit_at. intros H E. by rewrite E, Z.bits_0 in H. Qed.

Lemma word_zero_bits a i : 0 <= i -> u64s a -> a.[i / 64] = 0 -> bit_at a i = false.
Proof. intros _ _ E. unfold bit_at. rewrite E. apply Z.bits_0. Qed.

(** A word that is not zero has a bit. *)
Lemma word_bit a j :
  u64s a -> 0 <= j -> a.[j] <> 0 ->
  let o := j * 64 + CountTrailingZeroes64 a.[j] in 0 <= o /\ o / 64 = j /\ bit_at a o = true.
Proof.
  intros Ha Hj Hz. pose proof (u64s_rd a j Ha) as [H0 H64]. assert (0 < a.[j] < 2 ^ 64) as Hr by lia.
  pose proof (ctz_range _ Hr) as Hc. pose proof (ctz_bit _ Hr) as Hb.
  set (c := CountTrailingZeroes64 a.[j]) in *. cbn zeta.
  assert ((j * 64 + c) / 64 = j) as E1 by (symmetry; apply Z.div_unique with (r := c); lia).
  assert ((j * 64 + c) mod 64 = c) as E2 by (symmetry; apply Z.mod_unique with (q := j); lia).
  split_and!; [lia|done|]. unfold bit_at. by rewrite E1, E2.
Qed.

(** ** The levels *)

Abbreviation lev S d := (nth d S []).

(** A bit of the upper level says whether a word of the lower one is not zero. *)
Definition link (u l : list Z) : Prop := forall i, 0 <= i -> bit_at u i = negb (l.[i] =? 0).

(** The levels below [n] of storages [S]: enough words for the level below,
    exact summaries. *)
Record levels_ok (S : list (list Z)) (n : nat) : Prop := {
  lo_len : (n <= length S)%nat;
  lo_u64 d : (d < n)%nat -> u64s (lev S d);
  lo_fit d : (Datatypes.S d < n)%nat -> Z.of_nat (length (lev S (Datatypes.S d))) <= 64 * Z.of_nat (length (lev S d));
  lo_link d : (Datatypes.S d < n)%nat -> link (lev S d) (lev S (Datatypes.S d));
}.

Lemma lev_insert (S : list (list Z)) d d' l :
  (d < length S)%nat -> lev (<[d := l]> S) d' = if (d =? d')%nat then l else lev S d'.
Proof.
  intros Hd. rewrite !nth_lookup. destruct (Nat.eqb_spec d d') as [->|Hne].
  - by rewrite list_lookup_insert_eq.
  - by rewrite list_lookup_insert_ne.
Qed.

Lemma levels_ok_le S n m : levels_ok S n -> (m <= n)%nat -> levels_ok S m.
Proof. intros [H1 H2 H3 H4] Hm. split; [lia|intros; apply H2; lia|intros; apply H3; lia|intros; apply H4; lia]. Qed.

Lemma relink u u' l ind v' :
  0 <= ind < Z.of_nat (length l) -> link u l ->
  (forall i, 0 <= i -> bit_at u' i = if i =? ind then negb (v' =? 0) else bit_at u i) ->
  link u' (upd l ind v').
Proof.
  intros Hi Hl Hu i H0. rewrite Hu, rd_upd, (Z.eqb_sym ind i) by lia.
  destruct (Z.eqb_spec i ind); [done|by apply Hl].
Qed.

(** What a propagation from level [n - 1] down leaves alone. *)
Record frame (n : nat) (b b' : Bitmap) : Prop := {
  fr_depths : used_depths b' = used_depths b;
  fr_num : num_bits b' = num_bits b;
  fr_asserts : asserts b' = asserts b;
  fr_length : length (bit_storages b') = length (bit_storages b);
  fr_lengths d : length (lev (bit_storages b') d) = length (lev (bit_storages b) d);
  fr_above d : (n <= d)%nat -> lev (bit_storages b') d = lev (bit_storages b) d;
}.

Lemma frame_trans n m b b' b'' : (m <= n)%nat -> frame n b b' -> frame m b' b'' -> frame n b b''.
Proof.
  intros Hm [A1 A2 A3 A4 A5 A6] [B1 B2 B3 B4 B5 B6]. split; [congruence|congruence|congruence|congruence| |].
  - intros d. by rewrite B5, A5.
  - intros d Hd. by rewrite B6, A6 by lia.
Qed.

(** Writing one word of level [n]. *)
Lemma frame_word n b c ind v :
  (n < length (bit_storages b))%nat -> (asserts b = true -> c = true) ->
  asserts b = true -> frame (S n) b (set_word (ASSERT c b) (Z.of_nat n) ind v).
Proof.
  intros Hn Hc Ha. unfold set_word, ASSERT.
  split; cbn [used_depths num_bits asserts bit_storages]; rewrite ?Nat2Z.id.
  - done.
  - done.
  - by rewrite Ha, Hc.
  - by rewrite length_insert.
  - intros d. rewrite lev_insert by done. destruct (Nat.eqb_spec n d) as [->|]; [|done].
    unfold upd. by rewrite length_insert.
  - intros d Hd. rewrite lev_insert by done. destruct (Nat.eqb_spec n d); [lia|done].
Qed.

Lemma lev_set_word n b c ind v d :
  (n < length (bit_storages b))%nat ->
  lev (bit_storages (set_word (ASSERT c b) (Z.of_nat n) ind v)) d
  = if (n =? d)%nat then upd (lev (bit_storages b) n) ind v else lev (bit_storages b) d.
Proof. intros Hn. unfold set_word, ASSERT. cbn [bit_storages]. rewrite Nat2Z.id. by apply lev_insert. Qed.

(** A level [n] whose summaries are fixed: its word [ind] became [v], and the
    levels below [n] are right for the new word. *)
Lemma levels_ok_write b b1 b' n ind v :
  levels_ok (bit_storages b) (S n) -> 0 <= ind < Z.of_nat (length (lev (bit_storages b) n)) -> is_u64 v ->
  lev (bit_storages b1) n = upd (lev (bit_storages b) n) ind v ->
  frame (S n) b b1 -> frame n b1 b' -> levels_ok (bit_storages b') n ->
  (forall m, n = S m -> forall i, 0 <= i ->
     bit_at (lev (bit_storages b') m) i = if i =? ind then negb (v =? 0) else bit_at (lev (bit_storages b) m) i) ->
  levels_ok (bit_storages b') (S n) /\ lev (bit_storages b') n = upd (lev (bit_storages b) n) ind v
  /\ frame (S n) b b'.
Proof.
  intros Hok Hind Hv E1 F1 F' Hok' Hbits.
  assert (lev (bit_storages b') n = upd (lev (bit_storages b) n) ind v) as E'.
  { rewrite (fr_above _ _ _ F' n) by lia. exact E1. }
  assert (frame (S n) b b') as F by (eapply frame_trans; [|exact F1|exact F']; lia).
  split; [|done]. destruct Hok as [H1 H2 H3 H4], Hok' as [H1' H2' H3' H4']. split.
  - rewrite (fr_length _ _ _ F). done.
  - intros d Hd. destruct (Nat.eq_dec d n) as [->|]; [|apply H2'; lia]. rewrite E'. apply u64s_upd; [apply H2; lia|done].
  - intros d Hd. rewrite !(fr_lengths _ _ _ F). by apply H3.
  - intros d Hd. destruct (Nat.eq_dec (S d) n) as [<-|]; [|apply H4'; lia]. rewrite E'.
    eapply relink; [done|apply H4; lia|]. by apply Hbits.
Qed.

Lemma below_ok b b1 n ind v :
  levels_ok (bit_storages b) (S n) -> frame (S n) b b1 ->
  (forall d, lev (bit_storages b1) d
     = if (n =? d)%nat then upd (lev (bit_storages b) n) ind v else lev (bit_storages b) d) ->
  levels_ok (bit_storages b1) n.
Proof.
  intros [H1 H2 H3 H4] F1 El. split; [rewrite (fr_length _ _ _ F1); lia| | |].
  - intros d Hd. rewrite El. destruct (Nat.eqb_spec n d); [lia|apply H2; lia].
  - intros d Hd. rewrite !(fr_lengths _ _ _ F1). apply H3. lia.
  - intros d Hd. rewrite !El. destruct (Nat.eqb_spec n d), (Nat.eqb_spec n (S d)); try lia. apply H4. lia.
Qed.

Lemma lor_mask_nonzero v m : is_u64 v -> 0 <= m < 64 -> v .| 2 ^ m <> 0.
Proof.
  intros Hv Hm E. assert (Z.testbit (v .| 2 ^ m) m = false) as Hb by (rewrite E; apply Z.bits_0).
  rewrite Z.lor_spec, testbit_pow2, Z.eqb_refl, orb_true_r in Hb by lia. done.
Qed.

Lemma shift1_mask m : to_u64 (1 << (m mod 64)) = 2 ^ (m mod 64).
Proof. rewrite Z.shiftl_1_l. apply to_u64_id, pow2_u64, Z.mod_pos_bound. lia. Qed.

Lemma frame_refl n b : frame n b b.
Proof. by split. Qed.

(** [SetBit] from level [n]: the bit of that level is set, the levels below
    are exact again. *)
Lemma set_bit_from_spec n : forall b o,
  levels_ok (bit_storages b) (S n) -> 0 <= o -> o / 64 < Z.of_nat (length (lev (bit_storages b) n)) ->
  bit_at (lev (bit_storages b) n) o = false -> asserts b = true ->
  let b' := set_bit_from (S n) b o in
  levels_ok (bit_storages b') (S n)
  /\ lev (bit_storages b') n
     = upd (lev (bit_storages b) n) (o / 64) ((lev (bit_storages b) n).[o / 64] .| 2 ^ (o mod 64))
  /\ frame (S n) b b'.
Proof.
  induction n as [n IH] using lt_wf_ind. intros b o Hok Ho Hin Hbit Ha.
  pose proof (lo_len _ _ Hok) as Hlen. pose proof (lo_u64 _ _ Hok n ltac:(lia)) as Hu.
  pose proof (u64s_rd _ (o / 64) Hu) as Hw. pose proof (Z.div_pos o 64). pose proof (Z.mod_pos_bound o 64).
  cbn [set_bit_from]. unfold word. rewrite Nat2Z.id, shift1_mask.
  rewrite bit_mask, Hbit by done. cbn [negb].
  set (v := (lev (bit_storages b) n).[o / 64]) in *. set (v' := v .| 2 ^ (o mod 64)).
  set (b1 := set_word (ASSERT true b) (Z.of_nat n) (o / 64) v').
  assert (frame (S n) b b1) as F1 by (apply frame_word; done || lia).
  assert (forall d, lev (bit_storages b1) d
    = if (n =? d)%nat then upd (lev (bit_storages b) n) (o / 64) v' else lev (bit_storages b) d) as El
    by (intros; apply lev_set_word; lia).
  pose proof (below_ok b b1 n (o / 64) v' Hok F1 El) as Hok1.
  assert (is_u64 v') as Hv' by (apply lor_u64; [done|apply pow2_u64; lia]).
  assert (v' <> 0) as Hnz by (apply lor_mask_nonzero; [done|lia]).
  assert (lev (bit_storages b1) n = upd (lev (bit_storages b) n) (o / 64) v') as En by (rewrite El, Nat.eqb_refl; done).
  destruct (Z.eqb_spec v 0) as [Ev|Ev].
  - destruct n as [|m].
    { apply (levels_ok_write b b1 b1 0 (o / 64) v'); try done; try lia; apply frame_refl. }
    pose proof (lo_fit _ _ Hok m ltac:(lia)) as Hfit. pose proof (lo_link _ _ Hok m ltac:(lia)) as Hlink.
    assert (lev (bit_storages b1) m = lev (bit_storages b) m) as Em.
    { rewrite El. destruct (Nat.eqb_spec (S m) m); [lia|done]. }
    destruct (IH m ltac:(lia) b1 (o / 64)) as (Hok' & E' & F'); [done|lia|rewrite Em; zlia| | |].
    { rewrite Em, Hlink by lia. fold v. by rewrite Ev. }
    { by rewrite (fr_asserts _ _ _ F1). }
    apply (levels_ok_write b b1 _ (S m) (o / 64) v'); try done; try lia.
    intros m' [= <-] i Hi. rewrite E', Em, bit_at_set by (done || lia || zlia).
    destruct (Z.eqb_spec i (o / 64)); [|done]. cbn [orb]. by destruct (Z.eqb_spec v' 0).
  - apply (levels_ok_write b b1 b1 n (o / 64) v'); try done; try lia; try apply frame_refl.
    intros m -> i Hi. rewrite El. destruct (Nat.eqb_spec (S m) m); [lia|].
    destruct (Z.eqb_spec i (o / 64)) as [->|]; [|done]. rewrite (lo_link _ _ Hok m) by lia. fold v.
    by destruct (Z.eqb_spec v 0), (Z.eqb_spec v' 0).
Qed.

(** [ClearBit] from level [n]. *)
Definition clear_spec (n : nat) : Prop := forall b o,
  levels_ok (bit_storages b) (S n) -> 0 <= o -> o / 64 < Z.of_nat (length (lev (bit_storages b) n)) ->
  bit_at (lev (bit_storages b) n) o = true -> asserts b = true ->
  let b' := clear_bit_from (S n) b o in
  levels_ok (bit_storages b') (S n)
  /\ lev (bit_storages b') n
     = upd (lev (bit_storages b) n) (o / 64) (Z.ldiff (lev (bit_storages b) n).[o / 64] (2 ^ (o mod 64)))
  /\ frame (S n) b b'.

(** A word of level [n] that was not zero is overwritten; the levels above it
    are told when it became zero. *)
Lemma propagate_clear n b ind v' c :
  (forall m, n = S m -> clear_spec m) ->
  levels_ok (bit_storages b) (S n) -> 0 <= ind < Z.of_nat (length (lev (bit_storages b) n)) ->
  (lev (bit_storages b) n).[ind] <> 0 -> is_u64 v' -> asserts b = true -> c = true ->
  let b1 := set_word (ASSERT c b) (Z.of_nat n) ind v' in
  let b' := if v' =? 0 then clear_bit_from n b1 ind else b1 in
  levels_ok (bit_storages b') (S n) /\ lev (bit_storages b') n = upd (lev (bit_storages b) n) ind v'
  /\ frame (S n) b b'.
Proof.
  intros IH Hok Hind Hnz Hv' Ha Hc b1. pose proof (lo_len _ _ Hok) as Hlen.
  assert (frame (S n) b b1) as F1 by (apply frame_word; done || lia).
  assert (forall d, lev (bit_storages b1) d
    = if (n =? d)%nat then upd (lev (bit_storages b) n) ind v' else lev (bit_storages b) d) as El
    by (intros; apply lev_set_word; lia).
  pose proof (below_ok b b1 n ind v' Hok F1 El) as Hok1.
  assert (lev (bit_storages b1) n = upd (lev (bit_storages b) n) ind v') as En by (rewrite El, Nat.eqb_refl; done).
  destruct (Z.eqb_spec v' 0) as [Ev|Ev].
  - destruct n as [|m].
    { apply (levels_ok_write b b1 b1 0 ind v'); try done; try lia; apply frame_refl. }
    pose proof (lo_fit _ _ Hok m ltac:(lia)) as Hfit. pose proof (lo_link _ _ Hok m ltac:(lia)) as Hlink.
    assert (lev (bit_storages b1) m = lev (bit_storages b) m) as Em.
    { rewrite El. destruct (Nat.eqb_spec (S m) m); [lia|done]. }
    destruct (IH m eq_refl b1 ind) as (Hok' & E' & F'); [done|lia|rewrite Em; zlia| | |].
    { rewrite Em, Hlink by lia. by destruct (Z.eqb_spec ((lev (bit_storages b) (S m)).[ind]) 0). }
    { by rewrite (fr_asserts _ _ _ F1). }
    apply (levels_ok_write b b1 _ (S m) ind v'); try done; try lia.
    intros m' [= <-] i Hi. rewrite E', Em, bit_at_clear by (done || lia || zlia).
    destruct (Z.eqb_spec i ind); [|done]. by rewrite Ev.
  - apply (levels_ok_write b b1 b1 n ind v'); try done; try lia; try apply frame_refl.
    intros m -> i Hi. rewrite El. destruct (Nat.eqb_spec (S m) m); [lia|].
    destruct (Z.eqb_spec i ind) as [->|]; [|done]. rewrite (lo_link _ _ Hok m) by lia.
    by destruct (Z.eqb_spec ((lev (bit_storages b) (S m)).[ind]) 0), (Z.eqb_spec v' 0).
Qed.

Lemma clear_bit_from_spec n : clear_spec n.
Proof.
  induction n as [n IH] using lt_wf_ind. intros b o Hok Ho Hin Hbit Ha.
  pose proof (lo_u64 _ _ Hok n ltac:(lia)) as Hu. pose proof (u64s_rd _ (o / 64) Hu) as Hw.
  pose proof (Z.div_pos o 64). pose proof (bit_nonzero _ _ Hbit) as Hnz.
  cbn [clear_bit_from]. unfold word. rewrite Nat2Z.id, shift1_mask.
  rewrite bit_mask, Hbit, land_u64_not by done. cbn [negb].
  apply propagate_clear; try done; [|lia|by apply ldiff_u64]. intros m ->. apply IH. lia.
Qed.

(** *** Searching *)

(** With the top word zero, no level has a bit. *)
Lemma all_zero S n : levels_ok S n -> length (lev S 0) = 1%nat -> (lev S 0).[0] = 0 ->
  forall d, (d < n)%nat -> forall i, 0 <= i -> (lev S d).[i] = 0.
Proof.
  intros Hok H1 H0. induction d as [|d IH]; intros Hd i Hi.
  - destruct (Z.eq_dec i 0) as [->|]; [done|]. apply rd_out. lia.
  - pose proof (lo_link _ _ Hok d Hd i Hi) as Hl. rewrite word_zero_bits in Hl; [|done|apply (lo_u64 _ _ Hok); lia|].
    + destruct (Z.eqb_spec (lev S (Datatypes.S d)).[i] 0); done.
    + apply IH; [lia|apply Z.div_pos; lia].
Qed.

Lemma find_loop_spec k : forall b n d o,
  levels_ok (bit_storages b) n -> n = (d + S k)%nat -> 0 <= o ->
  (forall d', (d' < n)%nat -> Z.of_nat (length (lev (bit_storages b) d')) <= 2 ^ 58) ->
  o < Z.of_nat (length (lev (bit_storages b) d)) -> (lev (bit_storages b) d).[o] <> 0 ->
  exists r, find_loop (S k) b (Z.of_nat d) o = (b, r) /\ 0 <= r /\ bit_at (lev (bit_storages b) (n - 1)) r = true.
Proof.
  induction k as [|k IH]; intros b n d o Hok Hn Ho Hsz Hin Hz; cbn [find_loop];
    unfold word at 1; rewrite Nat2Z.id; (destruct (Z.eqb_spec (lev (bit_storages b) d).[o] 0) as [|_]; [done|]);
    unfold word; rewrite Nat2Z.id; pose proof (lo_u64 _ _ Hok d ltac:(lia)) as Hu;
    destruct (word_bit _ o Hu Ho Hz) as (H0 & Hdiv & Hbit);
    pose proof (u64s_rd _ o Hu) as [R0 R64]; pose proof (ctz_range ((lev (bit_storages b) d).[o]) ltac:(lia)) as Hc;
    pose proof (Hsz d ltac:(lia)) as Hs;
    rewrite (to_u64_id (o * 64)) by (unfold is_u64; lia); rewrite to_u64_id by (unfold is_u64; lia).
  - exists (o * 64 + CountTrailingZeroes64 (lev (bit_storages b) d).[o]). split_and!; [done|done|].
    by replace (n - 1)%nat with d by lia.
  - replace (Z.of_nat d + 1) with (Z.of_nat (S d)) by lia.
    pose proof (lo_link _ _ Hok d ltac:(lia) _ H0) as Hl. rewrite Hbit in Hl.
    apply (IH b n (S d)); [done|lia|done|done| |].
    + destruct (Z.lt_ge_cases (o * 64 + CountTrailingZeroes64 (lev (bit_storages b) d).[o])
        (Z.of_nat (length (lev (bit_storages b) (S d))))); [done|]. rewrite rd_out in Hl by done. done.
    + intros E. by rewrite E in Hl.
Qed.

(** ** Counting *)

Definition count (P : Z -> bool) (N : Z) : Z := Z.of_nat (length (filter (fun i => P i = true) (seqZ 0 N))).
Definition in_range (o c i : Z) : bool := (o <=? i) && (i <? o + c).

Lemma count_ext P Q N : (forall i, 0 <= i < N -> P i = Q i) -> count P N = count Q N.
Proof.
  intros H. unfold count. do 2 f_equal. assert (forall l : list Z, (forall i, i ∈ l -> P i = Q i) ->
    filter (fun i => P i = true) l = filter (fun i => Q i = true) l) as Hl.
  { induction l as [|x l IH]; intros Hx; [done|]. rewrite !filter_cons.
    rewrite (Hx x) by set_solver. rewrite IH by (intros; apply Hx; set_solver). done. }
  apply Hl. intros i Hi%elem_of_seqZ. apply H. lia.
Qed.

Lemma count_split P Q N : count P N = count (fun i => P i && Q i) N + count (fun i => P i && negb (Q i)) N.
Proof.
  unfold count. induction (seqZ 0 N) as [|x l IH]; [done|]. rewrite !filter_cons.
  destruct (P x), (Q x); cbn [andb negb]; repeat case_decide; cbn [length]; done || lia.
Qed.

Lemma count_in_range o c N : 0 <= o -> 0 <= c -> o + c <= N -> count (in_range o c) N = c.
Proof.
  intros Ho Hc HN. unfold count. assert (filter (fun i => in_range o c i = true) (seqZ 0 N) ≡ₚ seqZ o c) as E.
  { apply NoDup_Permutation; [apply NoDup_filter, NoDup_seqZ|apply NoDup_seqZ|]. intros i.
    rewrite list_elem_of_filter, !elem_of_seqZ. unfold in_range.
    destruct (Z.leb_spec o i), (Z.ltb_spec i (o + c)); cbn [andb]; split; intuition (done || lia). }
  rewrite (Permutation_length E), length_seqZ. lia.
Qed.

(** Taking a range out of a set that contains it. *)
Lemma count_remove P P' o c N :
  0 <= o -> 0 <= c -> o + c <= N ->
  (forall i, 0 <= i < N -> in_range o c i = true -> P i = true) ->
  (forall i, 0 <= i < N -> P' i = P i && negb (in_range o c i)) ->
  count P N = count P' N + c.
Proof.
  intros Ho Hc HN Hin HP. rewrite (count_split P (in_range o c)), (count_ext P' _ N HP).
  assert (count (fun i => P i && in_range o c i) N = count (in_range o c) N) as ->.
  { apply count_ext. intros i Hi. specialize (Hin i Hi).
    destruct (in_range o c i); [by rewrite Hin|by rewrite andb_false_r]. }
  rewrite count_in_range by done.
  lia.
Qed.

Lemma count_bound P N : 0 <= count P N <= Z.max 0 N.
Proof. unfold count. pose proof (length_filter (fun i => P i = true) (seqZ 0 N)) as H. rewrite length_seqZ in H. lia. Qed.

(** ** A bitmap as a set of offsets below [N] *)

Definition bits (m : Bitmap) (i : Z) : bool := bit_at (lev (bit_storages m) (length (bit_storages m) - 1)) i.

Record bm_ok (m : Bitmap) (N : Z) : Prop := {
  bm_depths : used_depths m = Z.of_nat (length (bit_storages m));
  bm_pos : (0 < length (bit_storages m))%nat;
  bm_levels : levels_ok (bit_storages m) (length (bit_storages m));
  bm_one : length (lev (bit_storages m) 0) = 1%nat;
  bm_room : N <= 64 * Z.of_nat (length (lev (bit_storages m) (length (bit_storages m) - 1)));
  bm_sizes d : (d < length (bit_storages m))%nat -> Z.of_nat (length (lev (bit_storages m) d)) <= 2 ^ 58;
  bm_size : 0 <= N <= 2 ^ 58;
  bm_bits i : N <= i -> bits m i = false;
  bm_count : num_bits m = count (bits m) N;
  bm_asserts : asserts m = true;
}.

Lemma highest_index m N : bm_ok m N -> Z.to_nat (GetHighestDepthIndex m + 1) = S (length (bit_storages m) - 1).
Proof. intros H. pose proof (bm_pos m N H). unfold GetHighestDepthIndex. rewrite (bm_depths m N H). lia. Qed.

Lemma bits_bound m N o : bm_ok m N -> bits m o = true -> o < N.
Proof. intros H Hb. destruct (Z.lt_ge_cases o N); [done|]. by rewrite (bm_bits m N H) in Hb. Qed.

Lemma word_in_room m N o :
  bm_ok m N -> 0 <= o < N ->
  o / 64 < Z.of_nat (length (lev (bit_storages m) (length (bit_storages m) - 1))).
Proof. intros H Ho. pose proof (bm_room m N H). apply Z.div_lt_upper_bound; lia. Qed.

(** A bitmap rebuilt after a change of the top level. *)
Lemma bm_ok_write m b n' N :
  bm_ok m N -> levels_ok (bit_storages b) (S (length (bit_storages m) - 1)) ->
  frame (S (length (bit_storages m) - 1)) m b ->
  (forall i, N <= i -> bits (set_num_bits b n') i = false) -> n' = count (bits (set_num_bits b n')) N ->
  bm_ok (set_num_bits b n') N.
Proof.
  intros H Hl F Hb Hc. pose proof (bm_pos m N H) as Hp. destruct H as [H1 H2 H3 H4 H5 H6 H7 H8 H9 H10].
  destruct F as [F1 F2 F3 F4 F5 F6].
  split; cbn [set_num_bits bit_storages used_depths num_bits asserts]; rewrite ?F4, ?F5.
  - by rewrite F1.
  - done.
  - by replace (length (bit_storages m)) with (S (length (bit_storages m) - 1)) by lia.
  - done.
  - done.
  - intros d Hd. rewrite F5. by apply H6.
  - done.
  - done.
  - done.
  - by rewrite F3.
Qed.

Lemma bits_write m b n' l :
  length (bit_storages b) = length (bit_storages m) ->
  lev (bit_storages b) (length (bit_storages m) - 1) = l ->
  forall i, bits (set_num_bits b n') i = bit_at l i.
Proof. intros E1 E2 i. unfold bits. cbn [set_num_bits bit_storages]. by rewrite E1, E2. Qed.

Lemma num_bits_range m N : bm_ok m N -> 0 <= num_bits m <= N.
Proof. intros H. rewrite (bm_count m N H). pose proof (bm_size m N H). pose proof (count_bound (bits m) N). lia. Qed.

Lemma SetBit_spec m N o :
  bm_ok m N -> 0 <= o < N -> bits m o = false ->
  bm_ok (SetBit m o) N /\ (forall i, 0 <= i -> bits (SetBit m o) i = (i =? o) || bits m i)
  /\ num_bits (SetBit m o) = num_bits m + 1.
Proof.
  intros H Ho Hb. unfold SetBit. rewrite (highest_index m N H). pose proof (bm_pos m N H) as Hp.
  pose proof (bm_levels m N H) as Hl. pose proof (word_in_room m N o H Ho) as Hr.
  destruct (set_bit_from_spec (length (bit_storages m) - 1) m o) as (Hl' & E & F);
    [by replace (S (length (bit_storages m) - 1)) with (length (bit_storages m)) by lia|lia|done|done|apply H|].
  set (b := set_bit_from _ m o) in *. rewrite (fr_num _ _ _ F).
  pose proof (bits_write m b (num_bits m +! 1) _ (fr_length _ _ _ F) E) as Hbits.
  assert (forall i, 0 <= i -> bits (set_num_bits b (num_bits m +! 1)) i = (i =? o) || bits m i) as Hs.
  { intros i Hi. rewrite Hbits. apply bit_at_set; [lia|done|done]. }
  split_and!; [|done|cbn [set_num_bits num_bits]; apply to_u64_id; pose proof (num_bits_range m N H);
                     pose proof (bm_size m N H); unfold is_u64; lia]. apply (bm_ok_write m); [done|done|done| |].
  - intros i Hi. rewrite Hs by lia. rewrite (bm_bits m N H i Hi). destruct (Z.eqb_spec i o); done || lia.
  - pose proof (bm_size m N H). pose proof (count_bound (bits m) N).
    pose proof (bm_count m N H). rewrite (to_u64_id (num_bits m + 1)) at 1 by (unfold is_u64; lia).
    rewrite (count_remove _ (bits m) o 1 N); [lia|lia|lia|lia| |]; intros i Hi; rewrite Hs by lia; unfold in_range;
      destruct (Z.leb_spec o i), (Z.ltb_spec i (o + 1)), (Z.eqb_spec i o) as [->|]; cbn [andb orb negb];
      try lia; try done; by rewrite ?andb_true_r.
Qed.

Lemma ClearBit_spec m N o :
  bm_ok m N -> 0 <= o -> bits m o = true ->
  bm_ok (ClearBit m o) N /\ (forall i, 0 <= i -> bits (ClearBit m o) i = negb (i =? o) && bits m i)
  /\ num_bits (ClearBit m o) = num_bits m - 1.
Proof.
  intros H Ho Hb. unfold ClearBit. rewrite (highest_index m N H). pose proof (bm_pos m N H) as Hp.
  pose proof (bm_levels m N H) as Hl. pose proof (bits_bound m N o H Hb) as HoN.
  pose proof (word_in_room m N o H ltac:(lia)) as Hr.
  destruct (clear_bit_from_spec (length (bit_storages m) - 1) m o) as (Hl' & E & F);
    [by replace (S (length (bit_storages m) - 1)) with (length (bit_storages m)) by lia|lia|done|done|apply H|].
  set (b := clear_bit_from _ m o) in *. rewrite (fr_num _ _ _ F).
  pose proof (bits_write m b (num_bits m -! 1) _ (fr_length _ _ _ F) E) as Hbits.
  assert (forall i, 0 <= i -> bits (set_num_bits b (num_bits m -! 1)) i = negb (i =? o) && bits m i) as Hs.
  { intros i Hi. rewrite Hbits. apply bit_at_clear; [lia|done|done]. }
  assert (count (bits m) N = count (bits (set_num_bits b (num_bits m -! 1))) N + 1) as E1.
  { apply (count_remove _ _ o 1); [lia|lia|lia| |]; intros i Hi; rewrite ?Hs by lia; unfold in_range;
      destruct (Z.leb_spec o i), (Z.ltb_spec i (o + 1)), (Z.eqb_spec i o) as [->|]; cbn [andb orb negb];
      try lia; try done; by rewrite ?andb_true_r, ?andb_false_r. }
  pose proof (bm_size m N H). pose proof (num_bits_range m N H). pose proof (bm_count m N H).
  pose proof (count_bound (bits (set_num_bits b (num_bits m -! 1))) N).
  assert (num_bits m -! 1 = num_bits m - 1) as Ew by (apply to_u64_id; unfold is_u64; lia).
  split_and!; [|done|exact Ew]. apply (bm_ok_write m); [done|done|done| |].
  - intros i Hi. rewrite Hs by lia. rewrite (bm_bits m N H i Hi). apply andb_false_r.
  - rewrite Ew at 1. lia.
Qed.

(** *** Ranges *)

Lemma range_mask c s :
  0 < c < 64 -> 0 <= s -> s + c <= 64 ->
  (to_u64 (1 << c) -! 1) <<! s = (2 ^ c - 1) * 2 ^ s /\ is_u64 ((2 ^ c - 1) * 2 ^ s)
  /\ forall j, 0 <= j -> Z.testbit ((2 ^ c - 1) * 2 ^ s) j = (s <=? j) && (j <? s + c).
Proof.
  intros Hc Hs Hsc. pose proof (pow2_u64 c ltac:(lia)) as [P0 P64].
  assert (0 < 2 ^ c) by (apply Z.pow_pos_nonneg; lia). assert (0 < 2 ^ s) by (apply Z.pow_pos_nonneg; lia).
  assert (2 ^ c * 2 ^ s <= 2 ^ 64) as Hle by (rewrite <- Z.pow_add_r by lia; apply Z.pow_le_mono_r; lia).
  assert (is_u64 ((2 ^ c - 1) * 2 ^ s)) as Hu by (unfold is_u64; nia).
  split_and!; [|done|].
  - rewrite Z.shiftl_1_l, (to_u64_id (2 ^ c)), (to_u64_id (2 ^ c - 1)) by (unfold is_u64; lia).
    rewrite Z.shiftl_mul_pow2 by done. by apply to_u64_id.
  - intros j Hj. rewrite <- Z.shiftl_mul_pow2 by done. destruct (Z.leb_spec s j).
    + rewrite Z.shiftl_spec_high by lia. rewrite testbit_low_mask by lia. cbn [andb].
      destruct (Z.ltb_spec (j - s) c), (Z.ltb_spec j (s + c)); done || lia.
    + by rewrite Z.shiftl_spec_low by lia.
Qed.

Section Range.
Context (a : list Z) (o c : Z) (Ha : u64s a) (Ho : 0 <= o) (Hc : 0 < c < 64) (Hs : o mod 64 + c <= 64)
        (Hin : o / 64 < Z.of_nat (length a)).

Definition rmask : Z := (2 ^ c - 1) * 2 ^ (o mod 64).

Lemma in_range_word i : 0 <= i -> i / 64 = o / 64 -> in_range o c i = (o mod 64 <=? i mod 64) && (i mod 64 <? o mod 64 + c).
Proof.
  intros Hi E. unfold in_range. pose proof (Z.div_mod o 64). pose proof (Z.div_mod i 64).
  destruct (Z.leb_spec o i), (Z.ltb_spec i (o + c)), (Z.leb_spec (o mod 64) (i mod 64)),
    (Z.ltb_spec (i mod 64) (o mod 64 + c)); cbn [andb]; done || lia.
Qed.

Lemma in_range_other i : 0 <= i -> i / 64 <> o / 64 -> in_range o c i = false.
Proof.
  intros Hi E. unfold in_range. pose proof (Z.div_mod o 64). pose proof (Z.div_mod i 64).
  pose proof (Z.mod_pos_bound o 64). pose proof (Z.mod_pos_bound i 64).
  destruct (Z.leb_spec o i), (Z.ltb_spec i (o + c)); cbn [andb]; done || lia.
Qed.

Lemma bit_at_clear_range i :
  0 <= i -> bit_at (upd a (o / 64) (Z.ldiff a.[o / 64] rmask)) i = bit_at a i && negb (in_range o c i).
Proof.
  intros Hi. unfold bit_at. pose proof (Z.div_pos o 64). pose proof (Z.div_pos i 64).
  pose proof (Z.mod_pos_bound o 64). pose proof (Z.mod_pos_bound i 64).
  destruct (range_mask c (o mod 64) Hc ltac:(lia) Hs) as (_ & _ & Hm).
  rewrite rd_upd by lia. destruct (Z.eqb_spec (o / 64) (i / 64)) as [E|E].
  - rewrite Z.ldiff_spec, E. unfold rmask. rewrite Hm by lia. by rewrite in_range_word.
  - rewrite in_range_other by (done || congruence). by rewrite andb_true_r.
Qed.

Lemma range_full :
  (a.[o / 64] .& rmask =? rmask) = true <-> forall i, in_range o c i = true -> bit_at a i = true.
Proof.
  pose proof (Z.mod_pos_bound o 64). pose proof (Z.div_mod o 64 ltac:(lia)).
  destruct (range_mask c (o mod 64) Hc ltac:(lia) Hs) as (_ & _ & Hm).
  rewrite Z.eqb_eq. split.
  - intros E i Hi. unfold in_range in Hi. apply andb_prop in Hi as [H1%Z.leb_le H2%Z.ltb_lt].
    assert (i / 64 = o / 64 /\ i mod 64 = i - o + o mod 64) as [E1 E2].
    { split; [symmetry; apply Z.div_unique with (r := i - o + o mod 64); lia|].
      symmetry. apply Z.mod_unique with (q := o / 64); lia. }
    assert (Z.testbit rmask (i mod 64) = true) as Hb.
    { unfold rmask. rewrite Hm, E2 by lia. apply andb_true_intro. split; [apply Z.leb_le|apply Z.ltb_lt]; lia. }
    unfold bit_at. rewrite E1. rewrite <- E, Z.land_spec in Hb. by apply andb_prop in Hb as [-> _].
  - intros Hall. apply Z.bits_inj'. intros j Hj. rewrite Z.land_spec. unfold rmask. rewrite Hm by done.
    destruct (Z.leb_spec (o mod 64) j), (Z.ltb_spec j (o mod 64 + c)); cbn [andb]; rewrite ?andb_false_r; try done.
    specialize (Hall (o / 64 * 64 + j)). unfold bit_at, in_range in Hall.
    replace ((o / 64 * 64 + j) / 64) with (o / 64) in Hall by (apply Z.div_unique with (r := j); lia).
    replace ((o / 64 * 64 + j) mod 64) with j in Hall by (apply Z.mod_unique with (q := o / 64); lia).
    rewrite Hall; [done|]. apply andb_true_intro. split; [apply Z.leb_le|apply Z.ltb_lt]; lia.
Qed.
End Range.

Lemma ASSERT_true c m : c = true -> asserts m = true -> ASSERT c m = m.
Proof. intros -> Ha. destruct m. cbn in Ha. unfold ASSERT. cbn. by rewrite Ha. Qed.

(** [ClearRange] on a range inside one word: it takes the range out of the
    set when all of it is there, and else changes nothing. *)
Lemma ClearRange_spec m N o c :
  bm_ok m N -> 0 <= o -> 0 < c < 64 -> o mod 64 + c <= 64 -> o + c <= N ->
  let '(m', r) := ClearRange m o c in
  bm_ok m' N /\ (r = true <-> forall i, in_range o c i = true -> bits m i = true)
  /\ (forall i, 0 <= i -> bits m' i = if r then bits m i && negb (in_range o c i) else bits m i)
  /\ num_bits m' = if r then num_bits m - c else num_bits m.
Proof.
  intros H Ho Hc Hs HN. pose proof (bm_pos m N H) as Hp. pose proof (bm_levels m N H) as Hl.
  pose proof (word_in_room m N o H ltac:(lia)) as Hr. pose proof (Z.div_pos o 64). pose proof (Z.mod_pos_bound o 64).
  set (n := (length (bit_storages m) - 1)%nat) in *.
  assert (u64s (lev (bit_storages m) n)) as Hu by (apply (lo_u64 _ _ Hl); unfold n; lia).
  destruct (range_mask c (o mod 64) Hc ltac:(lia) Hs) as (Emask & Hmu & Hmb).
  unfold ClearRange. destruct (Z.ltb_spec c 64); [|lia]. rewrite Emask. fold (rmask o c) in *.
  rewrite ASSERT_true by first [apply H|apply Z.leb_le; lia].
  assert (GetHighestDepthIndex m = Z.of_nat n) as En.
  { unfold GetHighestDepthIndex, n. rewrite (bm_depths m N H). lia. }
  rewrite En. unfold word. rewrite Nat2Z.id. set (v := (lev (bit_storages m) n).[o / 64]).
  pose proof (range_full (lev (bit_storages m) n) o c Ho Hc Hs) as Hfull. fold v in Hfull.
  destruct (v .& rmask o c =? rmask o c) eqn:Ef; cbn [negb]; [|by split_and!].
  pose proof (proj1 Hfull eq_refl) as Hall. rewrite land_u64_not by by apply u64s_rd.
  assert (bit_at (lev (bit_storages m) n) o = true) as Hbo.
  { apply Hall. unfold in_range. apply andb_true_intro. split; [apply Z.leb_le|apply Z.ltb_lt]; lia. }
  set (v' := Z.ldiff v (rmask o c)).
  destruct (propagate_clear n m (o / 64) v' true) as (Hl' & E & F); try done.
  { intros. apply clear_bit_from_spec. }
  { by replace (S n) with (length (bit_storages m)) by (unfold n; lia). }
  { pose proof (Z.div_pos o 64 Ho). lia. }
  { by apply bit_nonzero. }
  { apply ldiff_u64. by apply u64s_rd. }
  { apply H. }
  rewrite ASSERT_true in Hl', E, F by (done || apply H).
  set (b := if v' =? 0 then clear_bit_from n (set_word m (Z.of_nat n) (o / 64) v') (o / 64)
            else set_word m (Z.of_nat n) (o / 64) v') in *.
  assert (num_bits b = num_bits m) as Enum by apply (fr_num _ _ _ F). rewrite Enum.
  pose proof (bits_write m b (num_bits m -! c) _ (fr_length _ _ _ F) E) as Hbits.
  assert (forall i, 0 <= i -> bits (set_num_bits b (num_bits m -! c)) i = bits m i && negb (in_range o c i)) as Hset.
  { intros i Hi. rewrite Hbits. apply bit_at_clear_range; done. }
  assert (count (bits m) N = count (bits (set_num_bits b (num_bits m -! c))) N + c) as E1.
  { apply (count_remove _ _ o c); [lia|lia|lia|intros; by apply Hall|intros; apply Hset; lia]. }
  pose proof (bm_size m N H). pose proof (num_bits_range m N H). pose proof (bm_count m N H).
  pose proof (count_bound (bits (set_num_bits b (num_bits m -! c))) N).
  assert (num_bits m -! c = num_bits m - c) as Ew by (apply to_u64_id; unfold is_u64; lia).
  split_and!; [|done|done|exact Ew]. apply (bm_ok_write m); [done|done|done| |].
  - intros i Hi. rewrite Hset by lia. by rewrite (bm_bits m N H i Hi).
  - rewrite Ew at 1. lia.
Qed.

(** [FindFreeBlock] finds an element, and fails only on the empty set. *)
Lemma FindFreeBlock_spec m N :
  bm_ok m N ->
  exists r, FindFreeBlock m = (m, r)
    /\ ((r = -1 /\ forall i, 0 <= i -> bits m i = false) \/ (0 <= r < N /\ bits m r = true)).
Proof.
  intros H. pose proof (bm_pos m N H) as Hp. pose proof (bm_levels m N H) as Hl. unfold FindFreeBlock.
  rewrite (bm_depths m N H), Nat2Z.id. destruct (length (bit_storages m)) as [|k] eqn:En; [lia|].
  destruct (Z.eq_dec (lev (bit_storages m) 0).[0] 0) as [Ez|Ez].
  - exists (-1). cbn [find_loop]. unfold word. change (Z.to_nat 0) with 0%nat. rewrite Ez. cbn [Z.eqb].
    rewrite ASSERT_true by (done || apply H). split; [done|]. left. split; [done|]. intros i Hi. unfold bits.
    rewrite En. apply word_zero_bits; [done|apply (lo_u64 _ _ Hl); lia|].
    apply (all_zero _ (S k)); [done|apply H|done|lia|apply Z.div_pos; lia].
  - destruct (find_loop_spec k m (S k) 0 0) as (r & E & Hr & Hb); [done|lia|lia| | |done|].
    { intros d Hd. apply (bm_sizes m N H). lia. }
    { rewrite (bm_one m N H). lia. }
    exists r. split; [exact E|]. right. replace (S k - 1)%nat with (length (bit_storages m) - 1)%nat in Hb by lia.
    fold (bits m r) in Hb. pose proof (bits_bound m N r H Hb). split; [lia|done].
Qed.

(** *** Initialize *)

Lemma required_depth_spec fuel : forall r d,
  0 <= r < 64 ^ Z.of_nat fuel ->
  exists k, required_depth fuel r d = d + Z.of_nat k /\ (1 <= k \/ fuel = 0)%nat /\ r < 64 ^ Z.of_nat k
            /\ ((k <= 1)%nat \/ 64 ^ (Z.of_nat k - 1) <= r).
Proof.
  induction fuel as [|fuel IH]; intros r d Hr.
  - exists 0%nat. cbn. split_and!; [lia|by right|lia|left; lia].
  - cbn [required_depth]. rewrite Nat2Z.inj_succ, Z.pow_succ_r in Hr by lia.
    destruct (Z.eqb_spec (r / 64) 0) as [E|E].
    + exists 1%nat. split_and!; [lia|left; lia| |left; lia]. change (64 ^ Z.of_nat 1) with 64. zlia.
    + destruct (IH (r / 64) (d + 1)) as (k & -> & Hk & Hlt & Hge).
      { split; [apply Z.div_pos; lia|]. apply Z.div_lt_upper_bound; lia. }
      exists (S k). split_and!; [lia|left; lia| |].
      * rewrite Nat2Z.inj_succ, Z.pow_succ_r by lia. zlia.
      * right. replace (Z.of_nat (S k) - 1) with (Z.of_nat k) by lia. destruct Hge as [Hk1|Hge].
        -- assert (1 <= r / 64) by (pose proof (Z.div_pos r 64); lia).
           assert (Z.of_nat k = 0 \/ Z.of_nat k = 1) as [->| ->] by lia; [change (64 ^ 0) with 1|change (64 ^ 1) with 64]; zlia.
        -- destruct k as [|k]; [change (64 ^ Z.of_nat 0) with 1 in *; zlia|].
           replace (Z.of_nat (S k) - 1) with (Z.of_nat k) in Hge by lia.
           rewrite Nat2Z.inj_succ, Z.pow_succ_r by lia. zlia.
Qed.

Definition ceil64 (n : Z) : Z := (n + 63) / 64.

Lemma AlignUp_64 n : 0 <= n <= 2 ^ 60 -> AlignUp n 64 / 64 = ceil64 n.
Proof.
  intros H. rewrite AlignUp_div by lia. rewrite Z.mul_comm, Z.div_mul by lia. unfold ceil64. f_equal. lia.
Qed.

Lemma ceil64_range n k : 1 <= n <= 64 ^ (k + 1) -> 0 <= k -> 1 <= ceil64 n <= 64 ^ k.
Proof.
  intros Hn Hk. rewrite Z.pow_add_r in Hn by lia. change (64 ^ 1) with 64 in Hn. unfold ceil64. zlia.
Qed.

(** The words [Initialize] takes for [size] bits in [n] levels. *)
Fixpoint words_for (n : nat) (size : Z) : Z :=
  match n with
  | O => 0
  | S n => ceil64 size + words_for n (ceil64 size)
  end.

Lemma rd_replicate n i : (replicate n 0).[i] = 0.
Proof.
  unfold rd. rewrite nth_lookup. destruct (decide (Z.to_nat i < n)%nat).
  - by rewrite lookup_replicate_2.
  - rewrite lookup_ge_None_2; [done|]. rewrite length_replicate. lia.
Qed.

Lemma lev_snoc (S : list (list Z)) l d :
  lev (S ++ [l]) d = if (d <? length S)%nat then lev S d else if (d =? length S)%nat then l else [].
Proof.
  rewrite !nth_lookup. destruct (Nat.ltb_spec d (length S)).
  - by rewrite lookup_app_l by done.
  - rewrite lookup_app_r by done. destruct (Nat.eqb_spec d (length S)) as [->|].
    + by rewrite Nat.sub_diag.
    + destruct (d - length S)%nat eqn:E; [lia|done].
Qed.

Record fresh_levels (S : list (list Z)) (n : nat) (size : Z) : Prop := {
  fl_length : length S = n;
  fl_zero d i : (lev S d).[i] = 0;
  fl_u64 d : u64s (lev S d);
  fl_fit d : (Datatypes.S d < n)%nat -> Z.of_nat (length (lev S (Datatypes.S d))) <= 64 * Z.of_nat (length (lev S d));
  fl_size d : Z.of_nat (length (lev S d)) <= size;
  fl_top : (0 < n)%nat -> Z.of_nat (length (lev S (n - 1))) = ceil64 size;
  fl_one : (0 < n)%nat -> length (lev S 0) = 1%nat;
}.

Lemma ceil64_le n : 0 <= n -> 0 <= ceil64 n <= n.
Proof. intros H. unfold ceil64. zlia. Qed.

Lemma init_storages_spec n : forall size,
  1 <= size <= 64 ^ Z.of_nat n -> size <= 2 ^ 58 ->
  fresh_levels (fst (init_storages n size)) n size /\ snd (init_storages n size) = words_for n size.
Proof.
  induction n as [|n IH]; intros size Hs H58.
  { split; [|done]. split; cbn; try done; try lia; intros; try lia; destruct d; cbn; try done; try lia;
      unfold rd; destruct (Z.to_nat i); done. }
  rewrite Nat2Z.inj_succ, <- Z.add_1_r in Hs. pose proof (ceil64_range size (Z.of_nat n) Hs ltac:(lia)) as Hc.
  pose proof (ceil64_le size ltac:(lia)) as Hle. cbn [init_storages words_for]. rewrite AlignUp_64 by lia.
  destruct (IH (ceil64 size) Hc ltac:(lia)) as [F E]. destruct (init_storages n (ceil64 size)) as [S0 used].
  cbn [fst snd] in *. split; [|lia]. destruct F as [F1 F2 F3 F4 F5 F6 F7]. subst n.
  split.
  - rewrite length_app. cbn. lia.
  - intros d i. rewrite lev_snoc. destruct (Nat.ltb_spec d (length S0)); [done|].
    destruct (Nat.eqb_spec d (length S0)); [apply rd_replicate|]. unfold rd. by destruct (Z.to_nat i).
  - intros d. rewrite lev_snoc. destruct (Nat.ltb_spec d (length S0)); [done|].
    destruct (Nat.eqb_spec d (length S0)); [|constructor]. apply Forall_replicate. unfold is_u64. lia.
  - intros d Hd. rewrite !lev_snoc. destruct (Nat.ltb_spec d (length S0)); [|lia].
    destruct (Nat.ltb_spec (S d) (length S0)); [by apply F4|].
    destruct (Nat.eqb_spec (S d) (length S0)); [|lia]. rewrite length_replicate.
    replace d with (length S0 - 1)%nat by lia. rewrite F6 by lia. unfold ceil64 at 2. zlia.
  - intros d. rewrite lev_snoc. destruct (Nat.ltb_spec d (length S0)); [specialize (F5 d); lia|].
    destruct (Nat.eqb_spec d (length S0)); [rewrite length_replicate; lia|cbn; lia].
  - intros _. rewrite lev_snoc. replace (S (length S0) - 1)%nat with (length S0) by lia.
    destruct (Nat.ltb_spec (length S0) (length S0)); [lia|]. rewrite Nat.eqb_refl, length_replicate. lia.
  - intros _. rewrite lev_snoc. destruct (Nat.ltb_spec 0 (length S0)) as [Hlt|Hge]; [by apply F7|].
    destruct (Nat.eqb_spec 0 (length S0)) as [E0|]; [|lia]. rewrite length_replicate.
    rewrite <- E0 in Hc. change (64 ^ Z.of_nat 0) with 1 in Hc. lia.
Qed.

Lemma count_none P N : (forall i, P i = false) -> count P N = 0.
Proof.
  intros H. unfold count. rewrite (proj2 (Nat2Z.inj_iff _ 0)); [done|].
  induction (seqZ 0 N) as [|x l IH]; [done|]. rewrite filter_cons, H. by case_decide.
Qed.

(** A new bitmap is empty, in as many words as [words_for] says. *)
Lemma Bitmap_Initialize_spec N :
  1 <= N < 64 ^ 4 ->
  let '(m, used) := Bitmap_Initialize N in
  bm_ok m N /\ (forall i, bits m i = false) /\ used = words_for (Z.to_nat (GetRequiredDepth N)) N.
Proof.
  intros HN. unfold Bitmap_Initialize.
  destruct (required_depth_spec 11 N 0 ltac:(lia)) as (k & Ek & Hk1 & Hlt & Hge).
  change (required_depth 11 N 0) with (GetRequiredDepth N) in Ek.
  assert (1 <= k <= 4)%nat as Hk.
  { destruct Hk1 as [Hk1|]; [|done]. split; [done|]. destruct Hge as [|Hge]; [lia|].
    destruct (le_gt_dec k 4); [done|]. exfalso.
    assert (64 ^ 4 <= 64 ^ (Z.of_nat k - 1)) by (apply Z.pow_le_mono_r; lia). lia. }
  replace (GetRequiredDepth N) with (Z.of_nat k) by lia. rewrite Nat2Z.id.
  destruct (init_storages_spec k N ltac:(lia) ltac:(lia)) as [F E].
  destruct (init_storages k N) as [S used]. cbn [fst snd] in *. destruct F as [F1 F2 F3 F4 F5 F6 F7].
  set (m := {| bit_storages := S; num_bits := 0; used_depths := Z.of_nat k; asserts := _ |}).
  assert (forall i, bits m i = false) as Hb.
  { intros i. unfold bits, bit_at. cbn [m bit_storages]. rewrite F2. apply Z.bits_0. }
  split_and!; [|done|done]. split; cbn [m bit_storages used_depths num_bits asserts]; rewrite ?F1.
  - done.
  - lia.
  - split; [lia|done|done|]. intros d Hd i Hi. rewrite F2. cbn [Z.eqb negb]. unfold bit_at. rewrite F2. apply Z.bits_0.
  - apply F7. lia.
  - rewrite F6 by lia. unfold ceil64. zlia.
  - intros d Hd. specialize (F5 d). lia.
  - lia.
  - done.
  - by rewrite count_none.
  - apply Z.leb_le. unfold MaxDepth. lia.
Qed.
