(* ===== verification/PageHeapCorrect.v ===== *)
(** * The page heap refines a set of free pages

    The buddy allocator of [PageHeap.v] against its abstract state: which
    pages are free.  A page is its address divided by the page size. *)

From S2P Require Import Prelude BitUtil PageHeap PageBitmap.
From stdpp Require Import base list sets.
Open Scope Z_scope.
Open Scope c_scope.

(** ** The seven sizes *)

Definition sh (i : Z) : Z := MemoryBlockPageShifts.[i].
(** Pages of a block of size [i], and blocks of size [i] in one of size
    [i + 1]. *)
Definition np (i : Z) : Z := 2 ^ (sh i - 12).
Definition df (i : Z) : Z := 2 ^ (sh (i + 1) - sh i).

Lemma level_cases i : 0 <= i < 7 -> i = 0 \/ i = 1 \/ i = 2 \/ i = 3 \/ i = 4 \/ i = 5 \/ i = 6.
Proof. lia. Qed.

Ltac level_case H :=
  destruct (level_cases _ H) as [->|[->|[->|[->|[->|[->| ->]]]]]].

Lemma sh_facts i : 0 <= i < 7 -> 12 <= sh i <= 30 /\ 1 <= np i <= 2 ^ 18 /\ 2 ^ sh i = np i * 4096.
Proof. intros H. level_case H; vm_compute; repeat split; discriminate. Qed.

Lemma df_facts i :
  0 <= i < 6 -> 1 < df i < 64 /\ 64 mod df i = 0 /\ np (i + 1) = np i * df i /\ next_shift i = sh (i + 1)
                /\ next_shift i <> 0 /\ 1 <<! (next_shift i -! sh i) = df i /\ 2 ^ sh (i + 1) = 2 ^ sh i * df i.
Proof. intros H. assert (0 <= i < 7) as H' by lia. level_case H'; try lia; vm_compute; repeat split; discriminate. Qed.

Lemma np_mono i j : 0 <= i -> i < j < 7 -> exists c, np j = np i * c /\ 1 < c.
Proof.
  intros Hi Hj. assert (0 <= i < 7) as H1 by lia. assert (0 <= j < 7) as H2 by lia.
  exists (np j / np i). level_case H1; level_case H2; try lia; vm_compute; repeat split.
Qed.

Lemma next_shift_6 : next_shift 6 = 0.
Proof. reflexivity. Qed.

Lemma group_div i p : 0 <= i < 6 -> p / np i / df i = p / np (i + 1).
Proof.
  intros H. destruct (df_facts i H) as (Hd & _ & -> & _). destruct (sh_facts i ltac:(lia)) as (_ & Hn & _).
  rewrite Z.div_div by lia. done.
Qed.

(** *** Groups of [d] blocks *)

Lemma group_end d o E : 0 < d -> E mod d = 0 -> o < E -> d * (o / d) + d <= E.
Proof.
  intros Hd HE Ho. pose proof (Z.div_mod o d ltac:(lia)). pose proof (Z.mod_pos_bound o d Hd).
  pose proof (Z.div_mod E d ltac:(lia)).
  assert (o / d < E / d) by (apply Z.mul_lt_mono_pos_l with (p := d); lia). nia.
Qed.

Lemma group_word d g : 0 < d -> 64 mod d = 0 -> (d * g) mod 64 + d <= 64.
Proof.
  intros Hd H64. pose proof (Z.div_mod 64 d ltac:(lia)) as E. rewrite H64, Z.add_0_r in E.
  assert (0 < 64 / d) as Hq by nia. rewrite E, Z.mul_mod_distr_l by lia.
  pose proof (Z.mod_pos_bound g (64 / d) Hq). nia.
Qed.

Section Groups.
Context (d K : Z) (Hd : 0 < d) (HK : K mod d = 0).

Lemma group_shift k : k / d = K / d + (k - K) / d.
Proof.
  pose proof (Z.div_mod K d ltac:(lia)). rewrite <- (Z.div_add_l (K / d) d) by lia. f_equal. lia.
Qed.

Lemma group_iff k k' : in_range (d * ((k - K) / d)) d (k' - K) = (k' / d =? k / d).
Proof.
  rewrite (group_shift k), (group_shift k'). unfold in_range.
  pose proof (Z.div_mod (k' - K) d ltac:(lia)). pose proof (Z.mod_pos_bound (k' - K) d Hd).
  destruct (Z.leb_spec (d * ((k - K) / d)) (k' - K)), (Z.ltb_spec (k' - K) (d * ((k - K) / d) + d)),
    (Z.eqb_spec (K / d + (k' - K) / d) (K / d + (k - K) / d)); cbn [andb]; try done; nia.
Qed.

Lemma group_ge k k' : K <= k -> k' / d = k / d -> K <= k'.
Proof.
  intros Hk E. pose proof (Z.div_mod K d ltac:(lia)). pose proof (Z.div_mod k' d ltac:(lia)).
  pose proof (Z.mod_pos_bound k' d Hd). assert (K / d <= k / d) by (apply Z.div_le_mono; lia). nia.
Qed.
End Groups.

(** ** One size *)

Definition baseK (b : Block) : Z := block_heap_address b / 2 ^ block_shift b.
(** Block [k] (its address divided by its size) is free in [b]. *)
Definition Fb (b : Block) (k : Z) : bool := (baseK b <=? k) && bits (bitmap b) (k - baseK b).

(** A block manager of size [i] for a heap of pages [lo] to [hi]. *)
Record blk_ok (lo hi i : Z) (b : Block) : Prop := {
  bo_shift : block_shift b = sh i;
  bo_next : next_block_shift b = next_shift i;
  bo_addr : block_heap_address b = baseK b * 2 ^ sh i;
  bo_base : 0 <= baseK b;
  bo_lo : baseK b * np i <= lo;
  bo_hi : hi <= (baseK b + end_offset b) * np i;
  bo_max : (baseK b + end_offset b) * 2 ^ sh i <= 2 ^ 62;
  bo_align : i < 6 -> baseK b mod df i = 0 /\ end_offset b mod df i = 0;
  bo_bits : bm_ok (bitmap b) (end_offset b);
}.

Lemma blk_ok_bitmap lo hi i b m :
  blk_ok lo hi i b -> bm_ok m (end_offset b) -> blk_ok lo hi i (set_bitmap b m).
Proof. intros [] Hm. by split. Qed.

Lemma Fb_set b m k : Fb (set_bitmap b m) k = (baseK b <=? k) && bits m (k - baseK b).
Proof. done. Qed.

Lemma shiftl_u64 a s : 0 <= a -> 0 <= s -> a * 2 ^ s < 2 ^ 64 -> a <<! s = a * 2 ^ s.
Proof. intros Ha Hs H. rewrite Z.shiftl_mul_pow2 by done. apply to_u64_id. unfold is_u64. nia. Qed.

Lemma Block_GetSize_ok lo hi i b : 0 <= i < 7 -> blk_ok lo hi i b -> Block_GetSize b = 2 ^ sh i.
Proof.
  intros Hi H. unfold Block_GetSize. rewrite (bo_shift _ _ _ _ H). destruct (sh_facts i Hi) as (Hs & Hn & E).
  rewrite shiftl_u64 by lia. lia.
Qed.

(** Adding to a set of blocks one of size [i]: the blocks of that size
    afterwards, the block to add to the next size and the change in number. *)
Lemma PushBlock_spec lo hi i b k :
  0 <= i < 7 -> blk_ok lo hi i b -> baseK b <= k < baseK b + end_offset b -> Fb b k = false ->
  let '(b', a) := PushBlock b (k * 2 ^ sh i) in
  blk_ok lo hi i b'
  /\ ((a = 0 /\ (forall k', Fb b' k' = (k' =? k) || Fb b k')
       /\ (i < 6 -> ~ forall k', k' / df i = k / df i -> Fb b' k' = true)
       /\ num_bits (bitmap b') = num_bits (bitmap b) + 1)
      \/ (i < 6 /\ a = k / df i * 2 ^ sh (i + 1)
          /\ (forall k', k' / df i = k / df i -> (k' =? k) || Fb b k' = true)
          /\ (forall k', Fb b' k' = Fb b k' && negb (k' / df i =? k / df i))
          /\ num_bits (bitmap b') = num_bits (bitmap b) + 1 - df i)).
Proof.
  intros Hi H Hk HF. destruct (sh_facts i Hi) as (Hs & Hn & Enp). pose proof (bo_max _ _ _ _ H) as Hmax.
  pose proof (bo_base _ _ _ _ H) as Hb0. pose proof (bo_bits _ _ _ _ H) as Hbm.
  assert (0 < 2 ^ sh i) as Hpos by (apply Z.pow_pos_nonneg; lia).
  set (K := baseK b) in *. set (o := k - K).
  assert ((k * 2 ^ sh i -! block_heap_address b) >> block_shift b = o) as Eo.
  { rewrite (bo_shift _ _ _ _ H), (bo_addr _ _ _ _ H). fold K.
    rewrite to_u64_id by (unfold is_u64; nia). rewrite Z.shiftr_div_pow2 by lia.
    rewrite <- Z.mul_sub_distr_r. apply Z.div_mul. lia. }
  assert (bits (bitmap b) o = false) as Hbo.
  { unfold Fb in HF. fold K o in HF. destruct (Z.leb_spec K k); [done|lia]. }
  unfold PushBlock. rewrite Eo. destruct (SetBit_spec _ _ o Hbm ltac:(lia) Hbo) as (Hbm1 & Hb1 & Hn1).
  set (m1 := SetBit (bitmap b) o) in *. cbn [set_bitmap next_block_shift block_shift bitmap block_heap_address].
  assert (forall k', Fb (set_bitmap b m1) k' = (k' =? k) || Fb b k') as HF1.
  { intros k'. rewrite Fb_set. unfold Fb. fold K. destruct (Z.leb_spec K k').
    - cbn [andb]. rewrite Hb1 by lia. f_equal. unfold o. destruct (Z.eqb_spec (k' - K) (k - K)), (Z.eqb_spec k' k); done || lia.
    - cbn [andb]. destruct (Z.eqb_spec k' k); [lia|done]. }
  rewrite (bo_next _ _ _ _ H), (bo_shift _ _ _ _ H). destruct (Z.eq_dec i 6) as [->|H6].
  { rewrite next_shift_6. cbn [Z.eqb]. split; [apply blk_ok_bitmap; [exact H|exact Hbm1]|].
    left. split_and!; [reflexivity|exact HF1|lia|exact Hn1]. }
  destruct (df_facts i ltac:(lia)) as (Hd & H64 & Enp1 & En & En0 & Ed & Es).
  destruct (Z.eqb_spec (next_shift i) 0); [done|]. rewrite Ed.
  destruct (bo_align _ _ _ _ H ltac:(lia)) as [HaK HaE]. fold K in HaK.
  assert (AlignDown o (df i) = df i * (o / df i)) as Eal.
  { apply AlignDown_div; [|lia]. unfold o. pose proof (bm_size _ _ Hbm). lia. }
  assert (0 < df i) as Hd0 by lia. rewrite Eal. set (o' := df i * (o / df i)).
  assert (0 <= o / df i) as Hg0 by (apply Z.div_pos; lia).
  assert (0 <= o') as Ho'0 by (apply Z.mul_nonneg_nonneg; lia).
  pose proof (group_end (df i) o (end_offset b) Hd0 HaE ltac:(lia)) as Hend. fold o' in Hend.
  pose proof (group_word (df i) (o / df i) Hd0 H64) as Hw. fold o' in Hw.
  pose proof (group_iff (df i) K Hd0 HaK k) as Hgrp. fold o o' in Hgrp.
  pose proof (fun k' => group_ge (df i) K Hd0 HaK k k' ltac:(lia)) as Hin.
  pose proof (ClearRange_spec m1 (end_offset b) o' (df i) Hbm1 Ho'0 ltac:(lia) Hw Hend) as HC.
  destruct (ClearRange m1 o' (df i)) as [m2 r]. destruct HC as (Hbm2 & Hr & Hb2 & Hn2).
  change (set_bitmap (set_bitmap b m1) m2) with (set_bitmap b m2).
  split; [apply blk_ok_bitmap; [exact H|exact Hbm2]|].
  destruct r.
  - right. split; [lia|]. split_and!.
    + rewrite (bo_addr _ _ _ _ H). fold K.
      assert ((K + o') * 2 ^ sh i <= (K + end_offset b) * 2 ^ sh i) by (apply Z.mul_le_mono_nonneg_r; lia).
      assert (0 <= K * 2 ^ sh i) by (apply Z.mul_nonneg_nonneg; lia).
      assert (0 <= o' * 2 ^ sh i) by (apply Z.mul_nonneg_nonneg; lia).
      rewrite shiftl_u64, to_u64_id by (unfold is_u64; lia).
      rewrite Es, (group_shift (df i) K Hd0 HaK k). fold o. pose proof (Z.div_mod K (df i) ltac:(lia)).
      unfold o'. rewrite (Z.mul_comm (2 ^ sh i)), Z.mul_assoc, <- Z.mul_add_distr_r. f_equal. lia.
    + intros k' E. rewrite <- HF1, Fb_set. fold K. specialize (Hin k' E). destruct (Z.leb_spec K k'); [|lia].
      apply (proj1 Hr eq_refl). rewrite Hgrp. by apply Z.eqb_eq.
    + intros k'. rewrite Fb_set. unfold Fb. fold K. destruct (Z.leb_spec K k'); [|done]. cbn [andb].
      rewrite Hb2, Hb1, Hgrp by lia. unfold o. destruct (Z.eqb_spec (k' - K) (k - K)) as [E|]; [|done].
      assert (k' = k) as -> by lia. by rewrite Z.eqb_refl, !andb_false_r.
    + cbn [set_bitmap bitmap]. rewrite Hn2, Hn1. reflexivity.
  - left. assert (forall k', Fb (set_bitmap b m2) k' = Fb (set_bitmap b m1) k') as HF2.
    { intros k'. rewrite !Fb_set. fold K. destruct (Z.leb_spec K k'); [|done]. by rewrite Hb2 by lia. }
    split_and!; [reflexivity|intros k'; rewrite HF2; apply HF1| |cbn [set_bitmap bitmap]; rewrite Hn2; exact Hn1].
    intros _ Hall. assert (false = true) as Hf; [|done]. apply Hr. intros j Hj.
    assert (0 <= j) as Hj0. { unfold in_range in Hj. apply andb_prop in Hj as [Hj%Z.leb_le _]. lia. }
    specialize (Hall (j + K)). rewrite HF2, Fb_set in Hall. fold K in Hall.
    replace (j + K - K) with j in Hall by lia. assert ((K <=? j + K) = true) as EK by (apply Z.leb_le; lia).
    rewrite EK in Hall. apply Hall. apply Z.eqb_eq. rewrite <- Hgrp. by replace (j + K - K) with j by lia.
Qed.

(** Taking a block of size [i]. *)
Lemma PopBlock_spec lo hi i b :
  0 <= i < 7 -> blk_ok lo hi i b ->
  let '(b', a) := PopBlock b in
  blk_ok lo hi i b'
  /\ ((a = 0 /\ b' = b /\ forall k, Fb b k = false)
      \/ (exists k, a = k * 2 ^ sh i /\ Fb b k = true
          /\ (forall k', Fb b' k' = Fb b k' && negb (k' =? k))
          /\ num_bits (bitmap b') = num_bits (bitmap b) - 1)).
Proof.
  intros Hi H. destruct (sh_facts i Hi) as (Hs & Hn & Enp). pose proof (bo_bits _ _ _ _ H) as Hbm.
  pose proof (bo_max _ _ _ _ H) as Hmax. pose proof (bo_base _ _ _ _ H) as Hb0.
  assert (0 < 2 ^ sh i) as Hpos by (apply Z.pow_pos_nonneg; lia).
  unfold PopBlock. destruct (FindFreeBlock_spec _ _ Hbm) as (r & -> & Hr). cbn [set_bitmap bitmap].
  assert (set_bitmap b (bitmap b) = b) as Eb by by destruct b. destruct Hr as [[-> Hnone]|[Hr Hbit]].
  - change (-1 <? 0) with true. cbn iota. rewrite Eb. split; [exact H|]. left. split_and!; [done|done|].
    intros k. unfold Fb. destruct (Z.leb_spec (baseK b) k); [|done]. apply Hnone. lia.
  - destruct (Z.ltb_spec r 0); [lia|]. destruct (ClearBit_spec _ _ r Hbm ltac:(lia) Hbit) as (Hbm1 & Hb1 & Hn1).
    set (m1 := ClearBit (bitmap b) r) in *. rewrite Eb.
    split; [apply blk_ok_bitmap; [exact H|exact Hbm1]|]. right. exists (baseK b + r). split_and!.
    + rewrite (bo_addr _ _ _ _ H), (bo_shift _ _ _ _ H).
      assert ((baseK b + r) * 2 ^ sh i <= (baseK b + end_offset b) * 2 ^ sh i) by (apply Z.mul_le_mono_nonneg_r; lia).
      assert (0 <= baseK b * 2 ^ sh i) by (apply Z.mul_nonneg_nonneg; lia).
      assert (0 <= r * 2 ^ sh i) by (apply Z.mul_nonneg_nonneg; lia).
      rewrite shiftl_u64, to_u64_id by (unfold is_u64; lia). lia.
    + unfold Fb. destruct (Z.leb_spec (baseK b) (baseK b + r)); [|lia]. by replace (baseK b + r - baseK b) with r by lia.
    + intros k'. rewrite Fb_set. unfold Fb. destruct (Z.leb_spec (baseK b) k'); [|done]. cbn [andb].
      rewrite Hb1, andb_comm by lia. do 2 f_equal.
      destruct (Z.eqb_spec (k' - baseK b) r), (Z.eqb_spec k' (baseK b + r)); done || lia.
    + exact Hn1.
Qed.

(** ** The heap *)

(** Block [k] of size [i] is free. *)
Definition Fh (h : PageHeap) (i k : Z) : bool :=
  match get_block h i with Some b => Fb b k | None => false end.

Definition levels : list Z := [0; 1; 2; 3; 4; 5; 6].

(** The abstract state: page [p] is free. *)
Definition free_page (h : PageHeap) (p : Z) : bool := existsb (fun i => Fh h i (p / np i)) levels.

Lemma free_page_iff h p : free_page h p = true <-> exists i, 0 <= i < 7 /\ Fh h i (p / np i) = true.
Proof.
  unfold free_page. rewrite existsb_exists. split.
  - intros (i & Hi & HF). exists i. split; [|done]. cbn in Hi. intuition lia.
  - intros (i & Hi & HF). exists i. split; [|done]. cbn. lia.
Qed.

Lemma free_page_false h p i : free_page h p = false -> 0 <= i < 7 -> Fh h i (p / np i) = false.
Proof.
  intros Hp Hi. apply not_true_iff_false. intros HF. apply not_true_iff_false in Hp. apply Hp.
  apply free_page_iff. by exists i.
Qed.

(** The pages in the free blocks of size [i], counted by the bitmap. *)
Definition Tn (h : PageHeap) (i : Z) : Z :=
  match get_block h i with Some b => num_bits (bitmap b) * np i | None => 0 end.
Definition total_free (h : PageHeap) : Z := Tn h 0 + Tn h 1 + Tn h 2 + Tn h 3 + Tn h 4 + Tn h 5 + Tn h 6.

Section Heap.
Context (lo hi : Z) (Hlo : 0 < lo).

(** The invariant of a heap of the pages [lo] to [hi]: every free page is in
    exactly one free block and in the heap, and no group of free blocks is
    left that makes up a larger one. *)
Record hinv (h : PageHeap) : Prop := {
  hi_len : length (blocks h) = 7%nat;
  hi_blk i : 0 <= i < 7 -> exists b, get_block h i = Some b /\ blk_ok lo hi i b;
  hi_once p i j : 0 <= i < 7 -> 0 <= j < 7 -> Fh h i (p / np i) = true -> Fh h j (p / np j) = true -> i = j;
  hi_in p i : 0 <= i < 7 -> Fh h i (p / np i) = true -> lo <= p < hi;
  hi_merged i g : 0 <= i < 6 -> ~ forall k, k / df i = g -> Fh h i k = true;
  hi_asserts : heap_asserts h = true;
}.

(** What the operations on blocks leave alone. *)
Definition same_shell (h h' : PageHeap) : Prop :=
  heap_address h' = heap_address h /\ heap_size h' = heap_size h /\ used_size h' = used_size h.

Lemma get_set_block h i j b :
  0 <= i < 7 -> 0 <= j < 7 -> length (blocks h) = 7%nat ->
  get_block (set_block h i b) j = if i =? j then Some b else get_block h j.
Proof.
  intros Hi Hj Hl. unfold get_block, set_block. cbn [blocks]. destruct (Z.ltb_spec j 0); [lia|].
  destruct (Z.eqb_spec i j) as [->|Hne].
  - by rewrite list_lookup_insert_eq by lia.
  - by rewrite list_lookup_insert_ne by lia.
Qed.

Lemma Fh_set_block h i j b k :
  0 <= i < 7 -> 0 <= j < 7 -> length (blocks h) = 7%nat ->
  Fh (set_block h i b) j k = if i =? j then Fb b k else Fh h j k.
Proof. intros. unfold Fh. rewrite get_set_block by done. by destruct (i =? j). Qed.

Lemma Fh_get h i b k : get_block h i = Some b -> Fh h i k = Fb b k.
Proof. intros E. unfold Fh. by rewrite E. Qed.

(** [total_free] after an update of one size. *)
Lemma total_set_block h i b b' :
  0 <= i < 7 -> length (blocks h) = 7%nat -> get_block h i = Some b ->
  total_free (set_block h i b') = total_free h + (num_bits (bitmap b') - num_bits (bitmap b)) * np i.
Proof.
  intros Hi Hl E. unfold total_free, Tn. rewrite !get_set_block by (done || lia).
  level_case Hi; cbn [Z.eqb Pos.eqb]; rewrite E; lia.
Qed.

(** The pages of block [k] of size [i]. *)
Lemma block_first i k : 0 <= i < 7 -> k * np i / np i = k.
Proof. intros Hi. destruct (sh_facts i Hi) as (_ & Hn & _). apply Z.div_mul. lia. Qed.

Lemma block_last i k : 0 <= i < 7 -> (k * np i + (np i - 1)) / np i = k.
Proof. intros Hi. destruct (sh_facts i Hi) as (_ & Hn & _). symmetry. apply Z.div_unique with (r := np i - 1); lia. Qed.

(** A block in the heap has a bit. *)
Lemma block_in_range i b k :
  0 <= i < 7 -> blk_ok lo hi i b -> (forall p, p / np i = k -> lo <= p < hi) ->
  baseK b <= k < baseK b + end_offset b /\ lo <= k * np i /\ 0 < k * 2 ^ sh i.
Proof.
  intros Hi H Hin. destruct (sh_facts i Hi) as (_ & Hn & E).
  pose proof (Hin _ (block_first i k Hi)) as H1. pose proof (Hin _ (block_last i k Hi)) as H2.
  pose proof (bo_lo _ _ _ _ H). pose proof (bo_hi _ _ _ _ H). split; [|split; [lia|]].
  - split.
    + apply Z.mul_le_mono_pos_r with (p := np i); lia.
    + apply Z.mul_lt_mono_pos_r with (p := np i); lia.
  - rewrite E. lia.
Qed.

(** *** FreeBlock *)

(** Adding block [k] of size [i], none of whose pages is free. *)
Lemma hinv_add h i b b' k :
  hinv h -> 0 <= i < 7 -> get_block h i = Some b -> blk_ok lo hi i b' ->
  (forall p, p / np i = k -> lo <= p < hi /\ free_page h p = false) ->
  (forall k', Fb b' k' = (k' =? k) || Fb b k') ->
  (i < 6 -> ~ forall k', k' / df i = k / df i -> Fb b' k' = true) ->
  hinv (set_block h i b')
  /\ forall p, free_page (set_block h i b') p = free_page h p || (p / np i =? k).
Proof using Hlo.
  intros H Hi Eb Hb' Hpg HF Hm. pose proof (hi_len h H) as Hlen.
  assert (forall j q, 0 <= j < 7 -> Fh (set_block h i b') j q = if i =? j then (q =? k) || Fh h i q else Fh h j q) as HF'.
  { intros j q Hj. rewrite Fh_set_block by done. destruct (i =? j); [|done]. by rewrite HF, (Fh_get h i b). }
  assert (forall p j, 0 <= j < 7 -> Fh (set_block h i b') j (p / np j) = true ->
    (i = j /\ p / np i = k) \/ Fh h j (p / np j) = true) as Hcase.
  { intros p j Hj. rewrite HF' by done. destruct (Z.eqb_spec i j) as [->|]; [|by right].
    destruct (Z.eqb_spec (p / np j) k); [by left|by right]. }
  split.
  - split.
    + unfold set_block. cbn [blocks]. by rewrite length_insert.
    + intros j Hj. rewrite get_set_block by done. destruct (Z.eqb_spec i j) as [->|]; [by exists b'|by apply H].
    + intros p j j' Hj Hj' H1 H2. destruct (Hcase p j Hj H1) as [[-> E1]|H1'], (Hcase p j' Hj' H2) as [[-> E2]|H2'].
      * done.
      * destruct (Hpg p E1) as [_ Hf]. by rewrite (free_page_false _ _ _ Hf Hj') in H2'.
      * destruct (Hpg p E2) as [_ Hf]. by rewrite (free_page_false _ _ _ Hf Hj) in H1'.
      * by apply (hi_once h H p).
    + intros p j Hj HFj. destruct (Hcase p j Hj HFj) as [[-> E]|H']; [by apply Hpg|by apply (hi_in h H p j)].
    + intros j g Hj Hall. destruct (Z.eq_dec i j) as [->|Hne].
      * destruct (Z.eq_dec g (k / df j)) as [->|Hg].
        { apply Hm; [lia|]. intros k' Ek. specialize (Hall k' Ek). rewrite Fh_set_block, Z.eqb_refl in Hall by (done || lia). done. }
        apply (hi_merged h H j g Hj). intros k' Ek. specialize (Hall k' Ek). rewrite HF', Z.eqb_refl in Hall by lia.
        destruct (Z.eqb_spec k' k) as [E|]; [subst k'; congruence|done].
      * apply (hi_merged h H j g Hj). intros k' Ek. specialize (Hall k' Ek). rewrite HF' in Hall by lia.
        by destruct (Z.eqb_spec i j).
    + apply H.
  - intros p. apply eq_true_iff_eq. rewrite orb_true_iff, !free_page_iff, Z.eqb_eq. split.
    + intros (j & Hj & HFj). destruct (Hcase p j Hj HFj) as [[_ E]|H']; [by right|left; by exists j].
    + intros [(j & Hj & HFj)|E].
      * exists j. split; [done|]. rewrite HF' by done. destruct (Z.eqb_spec i j) as [->|]; [|done].
        by rewrite HFj, orb_true_r.
      * exists i. split; [done|]. rewrite HF', Z.eqb_refl by done. by rewrite (proj2 (Z.eqb_eq _ _) E).
Qed.

(** Taking blocks of size [i] away. *)
Lemma hinv_remove h i b b' (P : Z -> bool) :
  hinv h -> 0 <= i < 7 -> get_block h i = Some b -> blk_ok lo hi i b' ->
  (forall k', Fb b' k' = Fb b k' && negb (P k')) ->
  hinv (set_block h i b')
  /\ forall p, free_page (set_block h i b') p
               = free_page h p && negb (Fh h i (p / np i) && P (p / np i)).
Proof using Hlo.
  intros H Hi Eb Hb' HF. pose proof (hi_len h H) as Hlen.
  assert (forall j q, 0 <= j < 7 -> Fh (set_block h i b') j q = if i =? j then Fh h i q && negb (P q) else Fh h j q) as HF'.
  { intros j q Hj. rewrite Fh_set_block by done. destruct (i =? j); [|done]. by rewrite HF, (Fh_get h i b). }
  assert (forall j q, 0 <= j < 7 -> Fh (set_block h i b') j q = true -> Fh h j q = true) as Hsub.
  { intros j q Hj. rewrite HF' by done. destruct (Z.eqb_spec i j) as [->|]; [|done]. by intros [? _]%andb_prop. }
  split.
  - split.
    + unfold set_block. cbn [blocks]. by rewrite length_insert.
    + intros j Hj. rewrite get_set_block by done. destruct (Z.eqb_spec i j) as [->|]; [by exists b'|by apply H].
    + intros p j j' Hj Hj' H1 H2. apply (hi_once h H p); [done|done|by apply Hsub|by apply Hsub].
    + intros p j Hj HFj. apply (hi_in h H p j); [done|by apply Hsub].
    + intros j g Hj Hall. apply (hi_merged h H j g Hj). intros k' Ek. apply Hsub; [lia|by apply Hall].
    + apply H.
  - intros p. apply eq_true_iff_eq. rewrite andb_true_iff, negb_true_iff, !free_page_iff. split.
    + intros (j & Hj & HFj). pose proof (Hsub j _ Hj HFj) as Hj1. split; [by exists j|].
      rewrite HF' in HFj by done. destruct (Z.eqb_spec i j) as [->|Hne].
      * apply andb_prop in HFj as [_ ->%negb_true_iff]. apply andb_false_r.
      * destruct (Fh h i (p / np i)) eqn:E; [|done]. destruct Hne. by apply (hi_once h H p i j).
    + intros [(j & Hj & HFj) Hn]. exists j. split; [done|]. rewrite HF' by done.
      destruct (Z.eqb_spec i j) as [->|]; [|done]. rewrite HFj in *. cbn [andb] in *. by rewrite Hn.
Qed.

Lemma free_block_spec fuel : forall h i k,
  hinv h -> 0 <= i < 7 -> 7 - i <= Z.of_nat fuel ->
  (forall p, p / np i = k -> lo <= p < hi /\ free_page h p = false) ->
  exists h', free_block fuel h (k * 2 ^ sh i) i = Some h' /\ hinv h' /\ same_shell h h'
    /\ total_free h' = total_free h + np i
    /\ forall p, free_page h' p = free_page h p || (p / np i =? k).
Proof using Hlo.
  induction fuel as [|fuel IH]; intros h i k H Hi Hf Hpg; [lia|]. cbn [free_block].
  destruct (hi_blk h H i Hi) as (b & Eb & Hb). rewrite Eb. cbn [mbind option_bind].
  destruct (block_in_range i b k Hi Hb (fun p E => proj1 (Hpg p E))) as (Hk & Hkl & Hk0).
  pose proof (PushBlock_spec lo hi i b k Hi Hb Hk) as HP. pose proof (hi_len h H) as Hlen.
  assert (Fb b k = false) as HFk.
  { rewrite <- (Fh_get h i b k Eb). pose proof (block_first i k Hi) as E. destruct (Hpg _ E) as [_ Hfr].
    pose proof (free_page_false _ _ i Hfr Hi) as HF. by rewrite E in HF. }
  specialize (HP HFk). destruct (PushBlock b (k * 2 ^ sh i)) as [b' a].
  destruct HP as [Hb' [(-> & HF & Hm & Hn)|(Hi6 & -> & Hfull & HF & Hn)]].
  - cbn [Z.eqb]. destruct (hinv_add h i b b' k H Hi Eb Hb' Hpg HF Hm) as [H' Hfp].
    eexists. split; [reflexivity|]. split_and!; [exact H'|by split_and!| |exact Hfp].
    rewrite (total_set_block h i b b' Hi Hlen Eb), Hn. lia.
  - destruct (df_facts i ltac:(lia)) as (Hd & _ & Enp & _ & _ & _ & Es). destruct (sh_facts i Hi) as (_ & Hnp & Esh).
    destruct (hinv_remove h i b b' (fun k' => k' / df i =? k / df i) H Hi Eb Hb' HF) as [H1 Hfp1].
    set (h1 := set_block h i b') in *.
    assert (forall p, p / np (i + 1) = k / df i -> lo <= p < hi /\ free_page h1 p = false) as Hpg1.
    { intros p Ep. rewrite <- group_div in Ep by lia. specialize (Hfull (p / np i) Ep).
      destruct (Z.eqb_spec (p / np i) k) as [Ek|Ek].
      - destruct (Hpg p Ek) as [Hr Hfr]. split; [done|]. by rewrite Hfp1, Hfr.
      - cbn [orb] in Hfull. rewrite <- (Fh_get h i b _ Eb) in Hfull. split; [by apply (hi_in h H p i)|].
        rewrite Hfp1, Hfull, (proj2 (Z.eqb_eq _ _) Ep). apply andb_false_r. }
    assert (0 < k / df i * 2 ^ sh (i + 1)) as Hpos.
    { destruct (hi_blk h1 H1 (i + 1) ltac:(lia)) as (b2 & Eb2 & Hb2).
      by destruct (block_in_range (i + 1) b2 (k / df i) ltac:(lia) Hb2 (fun p E => proj1 (Hpg1 p E))) as (_ & _ & ?). }
    destruct (Z.eqb_spec (k / df i * 2 ^ sh (i + 1)) 0); [lia|].
    destruct (IH h1 (i + 1) (k / df i) H1 ltac:(lia) ltac:(lia) Hpg1) as (h' & E & H' & Hsh & Ht & Hfp').
    exists h'. split; [exact E|]. split_and!; [exact H'|exact Hsh| |].
    + rewrite Ht. unfold h1. rewrite (total_set_block h i b b' Hi Hlen Eb), Hn, Enp. lia.
    + intros p. rewrite Hfp', Hfp1. rewrite <- group_div by lia.
      destruct (Z.eqb_spec (p / np i) k) as [Ek|Ek].
      { rewrite Ek, Z.eqb_refl, orb_true_r. by rewrite orb_true_r. }
      rewrite orb_false_r. destruct (Z.eqb_spec (p / np i / df i) (k / df i)) as [Eg|Eg].
      * rewrite orb_true_r. symmetry. apply free_page_iff. exists i. split; [done|].
        specialize (Hfull _ Eg). destruct (Z.eqb_spec (p / np i) k); [done|]. by rewrite (Fh_get h i b _ Eb).
      * rewrite orb_false_r, andb_false_r. apply andb_true_r.
Qed.

Lemma FreeBlock_spec h i k :
  hinv h -> 0 <= i < 7 ->
  (forall p, p / np i = k -> lo <= p < hi /\ free_page h p = false) ->
  exists h', FreeBlock h (k * 2 ^ sh i) i = Some h' /\ hinv h' /\ same_shell h h'
    /\ total_free h' = total_free h + np i
    /\ forall p, free_page h' p = free_page h p || (p / np i =? k).
Proof using Hlo. intros H Hi Hpg. apply free_block_spec; [done|done|change (Z.to_nat NumMemoryBlockPageShifts) with 7%nat; lia|done]. Qed.

(** *** Free *)

(** The [n] pages from [a] are in the heap and not free; and [h'] is [h]
    with them freed. *)
Definition owned (h : PageHeap) (a n : Z) : Prop :=
  forall p, in_range a n p = true -> lo <= p < hi /\ free_page h p = false.
Record freed (h h' : PageHeap) (a n : Z) : Prop := {
  fd_inv : hinv h';
  fd_shell : same_shell h h';
  fd_total : total_free h' = total_free h + n;
  fd_page p : free_page h' p = free_page h p || in_range a n p;
}.

Lemma in_range_iff a n p : in_range a n p = true <-> a <= p < a + n.
Proof. unfold in_range. rewrite andb_true_iff, Z.leb_le, Z.ltb_lt. done. Qed.

Lemma in_range_split a n m p : 0 <= n -> 0 <= m -> in_range a (n + m) p = in_range a n p || in_range (a + n) m p.
Proof.
  intros Hn Hm. apply eq_true_iff_eq. rewrite orb_true_iff, !in_range_iff. lia.
Qed.

Lemma freed_nil h a : hinv h -> freed h h a 0.
Proof.
  intros H. split; [done|by split_and!|lia|]. intros p. replace (in_range a 0 p) with false; [by rewrite orb_false_r|].
  symmetry. apply not_true_iff_false. rewrite in_range_iff. lia.
Qed.

(** Freeing a range and then another one next to it, in either order. *)
Lemma freed_app h h1 h2 a n m : 0 <= n -> 0 <= m -> freed h h1 a n -> freed h1 h2 (a + n) m -> freed h h2 a (n + m).
Proof.
  intros Hn Hm [A1 A2 A3 A4] [B1 B2 B3 B4]. split; [done| |lia|].
  - unfold same_shell in *. intuition congruence.
  - intros p. by rewrite B4, A4, in_range_split, orb_assoc.
Qed.

Lemma freed_app_before h h1 h2 a n m : 0 <= n -> 0 <= m -> freed h h1 (a + n) m -> freed h1 h2 a n -> freed h h2 a (n + m).
Proof.
  intros Hn Hm [A1 A2 A3 A4] [B1 B2 B3 B4]. split; [done| |lia|].
  - unfold same_shell in *. intuition congruence.
  - intros p. rewrite B4, A4, in_range_split by done. rewrite <- orb_assoc. f_equal. apply orb_comm.
Qed.

(** What is left to free after a part was. *)
Lemma owned_after h h1 a n b m :
  owned h a n -> freed h h1 b m -> a <= b -> b + m <= a + n -> 0 <= m ->
  owned h1 (b + m) (a + n - (b + m)) /\ owned h1 a (b - a).
Proof.
  intros Ho [_ _ _ Hf] H1 H2 H3. split; intros p Hp%in_range_iff; destruct (Ho p) as [Hr Hfr];
    try (apply in_range_iff; lia); (split; [done|]); rewrite Hf, Hfr; apply not_true_iff_false;
    rewrite orb_false_l, in_range_iff; lia.
Qed.

Lemma owned_sub h a n b m : owned h a n -> a <= b -> b + m <= a + n -> owned h b m.
Proof. intros Ho H1 H2 p Hp%in_range_iff. apply Ho, in_range_iff. lia. Qed.

Lemma block_range i k p : 0 <= i < 7 -> (p / np i =? k) = in_range (k * np i) (np i) p.
Proof.
  intros Hi. destruct (sh_facts i Hi) as (_ & Hn & _). apply eq_true_iff_eq. rewrite Z.eqb_eq, in_range_iff.
  pose proof (Z.div_mod p (np i) ltac:(lia)). pose proof (Z.mod_pos_bound p (np i) ltac:(lia)).
  split; [intros <-; lia|]. intros Hp. symmetry. apply Z.div_unique with (r := p - k * np i); lia.
Qed.

Lemma FreeBlock_freed h i k :
  hinv h -> 0 <= i < 7 -> owned h (k * np i) (np i) ->
  exists h', FreeBlock h (k * 2 ^ sh i) i = Some h' /\ freed h h' (k * np i) (np i).
Proof using Hlo.
  intros H Hi Ho. destruct (FreeBlock_spec h i k H Hi) as (h' & E & H' & Hs & Ht & Hf).
  { intros p Ep. apply Ho. rewrite <- block_range by done. by apply Z.eqb_eq. }
  exists h'. split; [done|]. split; [done|done|done|]. intros p. by rewrite Hf, block_range.
Qed.

Context (Hhi : hi <= 2 ^ 50).

Lemma owned_bound h a n : owned h a n -> 0 < n -> lo <= a /\ a + n <= hi.
Proof.
  intros Ho Hn. destruct (Ho a) as [H1 _]; [apply in_range_iff; lia|].
  destruct (Ho (a + n - 1)) as [H2 _]; [apply in_range_iff; lia|]. lia.
Qed.

(** A block address and the next one fit in 64 bits. *)
Lemma next_block i k : 0 <= i < 7 -> 0 <= k -> (k + 1) * np i <= 2 ^ 51 -> k * 2 ^ sh i +! 2 ^ sh i = (k + 1) * 2 ^ sh i.
Proof.
  intros Hi Hk Hm. destruct (sh_facts i Hi) as (_ & Hn & E). rewrite to_u64_id; [lia|]. unfold is_u64. rewrite E.
  assert (0 <= k * np i) by (apply Z.mul_nonneg_nonneg; lia). lia.
Qed.

Lemma free_big_spec fuel : forall h i k k',
  hinv h -> 0 <= i < 7 -> 0 <= k <= k' -> k' - k <= Z.of_nat fuel -> owned h (k * np i) ((k' - k) * np i) ->
  exists h', free_big fuel h (k * 2 ^ sh i) (k' * 2 ^ sh i) (2 ^ sh i) i = Some h'
             /\ freed h h' (k * np i) ((k' - k) * np i).
Proof using Hlo Hhi.
  induction fuel as [|fuel IH]; intros h i k k' H Hi Hk Hf Ho; destruct (sh_facts i Hi) as (_ & Hn & E);
    cbn [free_big]; (assert (0 < 2 ^ sh i) as Hp by lia).
  - assert (k = k') as -> by lia. rewrite Z.ltb_irrefl. exists h. split; [done|].
    rewrite Z.sub_diag. by apply freed_nil.
  - destruct (Z.ltb_spec (k * 2 ^ sh i) (k' * 2 ^ sh i)) as [Hlt|Hge].
    + apply Z.mul_lt_mono_pos_r in Hlt; [|done].
      destruct (FreeBlock_freed h i k H Hi) as (h1 & E1 & F1); [eapply owned_sub; [exact Ho|lia|nia]|].
      rewrite E1. cbn [mbind option_bind].
      destruct (owned_bound _ _ _ Ho ltac:(nia)) as [Hb1 Hb2].
      rewrite next_block by (done || nia).
      destruct (owned_after _ _ _ _ _ _ Ho F1 ltac:(lia) ltac:(nia) ltac:(lia)) as [Ho1 _].
      replace (k * np i + np i) with ((k + 1) * np i) in Ho1 by lia.
      replace (k * np i + (k' - k) * np i - (k + 1) * np i) with ((k' - (k + 1)) * np i) in Ho1 by lia.
      destruct (IH h1 i (k + 1) k' (fd_inv _ _ _ _ F1) Hi ltac:(lia) ltac:(lia) Ho1) as (h' & E2 & F2).
      exists h'. split; [done|]. replace ((k' - k) * np i) with (np i + (k' - (k + 1)) * np i) by lia.
      eapply freed_app; [lia|nia|exact F1|]. by replace (k * np i + np i) with ((k + 1) * np i) by lia.
    + apply Z.mul_le_mono_pos_r in Hge; [|done]. assert (k = k') as -> by lia. exists h. split; [done|].
      rewrite Z.sub_diag. by apply freed_nil.
Qed.

(** The loop after the big blocks: from block [k] up to page [e]. *)
Lemma free_up_spec fuel : forall h i k e,
  hinv h -> 0 <= i < 7 -> 0 <= k -> k * np i <= e <= 2 ^ 50 -> e / np i - k <= Z.of_nat fuel ->
  owned h (k * np i) (e - k * np i) ->
  exists h', free_up fuel h (k * 2 ^ sh i) (e * 4096) (2 ^ sh i) i = Some (h', e / np i * 2 ^ sh i)
             /\ freed h h' (k * np i) (e / np i * np i - k * np i).
Proof using Hlo Hhi.
  induction fuel as [|fuel IH]; intros h i k e H Hi Hk He Hf Ho; destruct (sh_facts i Hi) as (_ & Hn & E);
    pose proof (Z.div_mod e (np i) ltac:(lia)) as Hdm; pose proof (Z.mod_pos_bound e (np i) ltac:(lia)) as Hmb;
    assert (k <= e / np i) as Hke by (apply Z.div_le_lower_bound; lia); cbn [free_up];
    rewrite next_block by (done || lia).
  - assert (e / np i = k) as Ek by lia. destruct (Z.leb_spec ((k + 1) * 2 ^ sh i) (e * 4096)); [nia|].
    exists h. rewrite Ek, Z.sub_diag. split; [done|by apply freed_nil].
  - destruct (Z.leb_spec ((k + 1) * 2 ^ sh i) (e * 4096)) as [Hle|Hgt].
    + assert ((k + 1) * np i <= e) as Hle' by lia.
      destruct (FreeBlock_freed h i k H Hi) as (h1 & E1 & F1); [eapply owned_sub; [exact Ho|lia|lia]|].
      rewrite E1. cbn [mbind option_bind].
      destruct (owned_after _ _ _ _ _ _ Ho F1 ltac:(lia) ltac:(lia) ltac:(lia)) as [Ho1 _].
      replace (k * np i + np i) with ((k + 1) * np i) in Ho1 by lia.
      replace (k * np i + (e - k * np i) - (k + 1) * np i) with (e - (k + 1) * np i) in Ho1 by lia.
      destruct (IH h1 i (k + 1) e (fd_inv _ _ _ _ F1) Hi ltac:(lia) ltac:(lia) ltac:(lia) Ho1) as (h' & E2 & F2).
      exists h'. split; [done|].
      replace (e / np i * np i - k * np i) with (np i + (e / np i * np i - (k + 1) * np i)) by lia.
      assert (k + 1 <= e / np i) by (apply Z.div_le_lower_bound; lia).
      eapply freed_app; [lia|nia|exact F1|]. by replace (k * np i + np i) with ((k + 1) * np i) by lia.
    + assert (e / np i = k) as Ek by nia. exists h. rewrite Ek, Z.sub_diag. split; [done|by apply freed_nil].
Qed.

(** The loop before the big blocks: from block [k] down to page [s]. *)
Definition cdiv (a d : Z) : Z := (a + d - 1) / d.

Lemma cdiv_spec a d : 0 < d -> a <= cdiv a d * d < a + d.
Proof.
  intros Hd. unfold cdiv. pose proof (Z.div_mod (a + d - 1) d ltac:(lia)). pose proof (Z.mod_pos_bound (a + d - 1) d Hd). lia.
Qed.

Lemma free_down_spec fuel : forall h i k s,
  hinv h -> 0 <= i < 7 -> 0 <= s <= k * np i -> k * np i <= 2 ^ 50 -> k - cdiv s (np i) <= Z.of_nat fuel ->
  owned h s (k * np i - s) ->
  exists h', free_down fuel h (s * 4096) (k * 2 ^ sh i) (2 ^ sh i) i = Some (h', cdiv s (np i) * 2 ^ sh i)
             /\ freed h h' (cdiv s (np i) * np i) (k * np i - cdiv s (np i) * np i).
Proof using Hlo Hhi.
  induction fuel as [|fuel IH]; intros h i k s H Hi Hs Hk Hf Ho; destruct (sh_facts i Hi) as (_ & Hn & E);
    pose proof (cdiv_spec s (np i) ltac:(lia)) as Hc; set (c := cdiv s (np i)) in *;
    assert (c <= k) as Hck by (apply Z.lt_succ_r; apply Z.mul_lt_mono_pos_r with (p := np i); lia);
    cbn [free_down]; rewrite (to_u64_id (s * 4096 + 2 ^ sh i)) by (unfold is_u64; lia).
  - assert (c = k) as Ek by lia. destruct (Z.leb_spec (s * 4096 + 2 ^ sh i) (k * 2 ^ sh i)); [nia|].
    exists h. rewrite Ek, Z.sub_diag. split; [done|by apply freed_nil].
  - destruct (Z.leb_spec (s * 4096 + 2 ^ sh i) (k * 2 ^ sh i)) as [Hle|Hgt].
    + assert (s <= (k - 1) * np i) as Hle' by nia. rewrite to_u64_id by (unfold is_u64; nia).
      replace (k * 2 ^ sh i - 2 ^ sh i) with ((k - 1) * 2 ^ sh i) by lia.
      destruct (FreeBlock_freed h i (k - 1) H Hi) as (h1 & E1 & F1); [eapply owned_sub; [exact Ho|lia|lia]|].
      rewrite E1. cbn [mbind option_bind].
      destruct (owned_after _ _ _ _ _ _ Ho F1 ltac:(lia) ltac:(lia) ltac:(lia)) as [_ Ho1].
      destruct (IH h1 i (k - 1) s (fd_inv _ _ _ _ F1) Hi ltac:(lia) ltac:(lia)) as (h' & E2 & F2); [fold c; lia|done|].
      fold c in E2, F2. exists h'. split; [done|].
      assert (c <= k - 1) by (apply Z.lt_succ_r; apply Z.mul_lt_mono_pos_r with (p := np i); lia).
      replace (k * np i - c * np i) with ((k - 1) * np i - c * np i + np i) by lia.
      eapply freed_app_before; [nia|lia| |exact F2].
      by replace (c * np i + ((k - 1) * np i - c * np i)) with ((k - 1) * np i) by lia.
    + assert (c = k) as Ek by nia. exists h. rewrite Ek, Z.sub_diag. split; [done|by apply freed_nil].
Qed.

(** The smaller sizes, from [n] down. *)
Lemma free_before_spec n : forall fuel h s e,
  hinv h -> Z.of_nat n < 7 -> 0 <= s <= e -> e <= 2 ^ 50 -> e mod np (Z.of_nat n) = 0 -> e - s <= Z.of_nat fuel ->
  owned h s (e - s) ->
  exists h', free_before (S n) fuel h (s * 4096) (e * 4096) = Some h' /\ freed h h' s (e - s).
Proof using Hlo Hhi.
  induction n as [|n IH]; intros fuel h s e H Hn Hs He Hm Hf Ho;
    match type of Hm with _ mod np ?j = 0 => set (i := j) in * end;
    assert (0 <= i < 7) as Hi by lia; destruct (sh_facts i Hi) as (_ & Hnp & E);
    destruct (hi_blk h H i Hi) as (b & Eb & Hb); cbn [free_before]; fold i; rewrite Eb; cbn [mbind option_bind];
    rewrite (Block_GetSize_ok lo hi i b Hi Hb);
    pose proof (Z.div_mod e (np i) ltac:(lia)) as Hdm; rewrite Hm, Z.add_0_r in Hdm;
    (replace (e * 4096) with (e / np i * 2 ^ sh i) by lia);
    pose proof (cdiv_spec s (np i) ltac:(lia)) as Hc;
    (destruct (free_down_spec fuel h i (e / np i) s H Hi ltac:(lia) ltac:(lia)) as (h1 & E1 & F1);
      [nia|by replace (e / np i * np i - s) with (e - s) by lia|]);
    rewrite E1; cbn [mbind option_bind].
  - change (np i) with 1 in *. rewrite Z.div_1_r in *. assert (cdiv s 1 = s) as Ec by lia.
    rewrite Ec in F1. rewrite !Z.mul_1_r in F1. by exists h1.
  - set (c := cdiv s (np i)) in *.
    replace (e / np i * np i - c * np i) with (e - c * np i) in F1 by lia.
    assert (c * np i <= e) as Hce.
    { destruct (Z.le_gt_cases (c * np i) e); [done|]. assert (e / np i < c) by nia. nia. }
    destruct (owned_after _ _ _ _ _ _ Ho F1 ltac:(lia) ltac:(lia) ltac:(lia)) as [_ Ho1].
    assert (0 <= Z.of_nat n < 6) as Hn6 by lia. destruct (df_facts (Z.of_nat n) Hn6) as (Hd & _ & Enp & _).
    replace (Z.of_nat n + 1) with i in Enp by lia.
    destruct (IH fuel h1 s (c * np i) (fd_inv _ _ _ _ F1) ltac:(lia) ltac:(lia) ltac:(lia)) as (h' & E2 & F2);
      [rewrite Enp, Z.mul_assoc, (Z.mul_comm c), <- Z.mul_assoc, Z.mul_comm; apply Z.mod_mul;
       destruct (sh_facts (Z.of_nat n) ltac:(lia)) as (_ & ? & _); lia|lia|done|].
    replace (c * 2 ^ sh i) with (c * np i * 4096) by lia. exists h'. split; [exact E2|].
    replace (e - s) with (c * np i - s + (e - c * np i)) by lia.
    eapply freed_app_before; [lia|lia| |exact F2]. by replace (s + (c * np i - s)) with (c * np i) by lia.
Qed.

Lemma free_after_spec n : forall fuel h a e,
  hinv h -> Z.of_nat n < 7 -> 0 <= a <= e -> e <= 2 ^ 50 -> a mod np (Z.of_nat n) = 0 -> e - a <= Z.of_nat fuel ->
  owned h a (e - a) ->
  exists h', free_after (S n) fuel h (a * 4096) (e * 4096) = Some h' /\ freed h h' a (e - a).
Proof using Hlo Hhi.
  induction n as [|n IH]; intros fuel h a e H Hn Hs He Hm Hf Ho;
    match type of Hm with _ mod np ?j = 0 => set (i := j) in * end;
    assert (0 <= i < 7) as Hi by lia; destruct (sh_facts i Hi) as (_ & Hnp & E);
    destruct (hi_blk h H i Hi) as (b & Eb & Hb); cbn [free_after]; fold i; rewrite Eb; cbn [mbind option_bind];
    rewrite (Block_GetSize_ok lo hi i b Hi Hb);
    pose proof (Z.div_mod a (np i) ltac:(lia)) as Hdm; rewrite Hm, Z.add_0_r in Hdm;
    pose proof (Z.div_mod e (np i) ltac:(lia)) as Hde; pose proof (Z.mod_pos_bound e (np i) ltac:(lia)) as Hme;
    (replace (a * 4096) with (a / np i * 2 ^ sh i) by lia);
    (assert (0 <= a / np i) by (apply Z.div_pos; lia));
    (destruct (free_up_spec fuel h i (a / np i) e H Hi ltac:(lia) ltac:(lia)) as (h1 & E1 & F1);
      [nia|by replace (a / np i * np i) with a by lia|]);
    rewrite E1; cbn [mbind option_bind]; replace (a / np i * np i) with a in F1 by lia.
  - change (np i) with 1 in *. rewrite !Z.div_1_r in *. rewrite Z.mul_1_r in F1. by exists h1.
  - set (c := e / np i) in *. assert (a <= c * np i) as Hac.
    { assert (a / np i <= c) by (apply Z.div_le_mono; lia). nia. }
    destruct (owned_after _ _ _ _ _ _ Ho F1 ltac:(lia) ltac:(lia) ltac:(lia)) as [Ho1 _].
    replace (a + (c * np i - a)) with (c * np i) in Ho1 by lia.
    replace (a + (e - a) - c * np i) with (e - c * np i) in Ho1 by lia.
    assert (0 <= Z.of_nat n < 6) as Hn6 by lia. destruct (df_facts (Z.of_nat n) Hn6) as (Hd & _ & Enp & _).
    replace (Z.of_nat n + 1) with i in Enp by lia.
    destruct (IH fuel h1 (c * np i) e (fd_inv _ _ _ _ F1) ltac:(lia) ltac:(lia) ltac:(lia)) as (h' & E2 & F2);
      [rewrite Enp, Z.mul_assoc, (Z.mul_comm c), <- Z.mul_assoc, Z.mul_comm; apply Z.mod_mul;
       destruct (sh_facts (Z.of_nat n) ltac:(lia)) as (_ & ? & _); lia|lia|done|].
    replace (c * 2 ^ sh i) with (c * np i * 4096) by lia. exists h'. split; [exact E2|].
    replace (e - a) with (c * np i - a + (e - c * np i)) by lia.
    eapply freed_app; [lia|lia|exact F1|]. by replace (a + (c * np i - a)) with (c * np i) by lia.
Qed.

(** The largest size with a whole block in pages [a] to [e]; at size 0 the
    blocks are the pages. *)
Lemma find_big_spec n : forall h a e,
  hinv h -> Z.of_nat n < 7 -> 0 <= a < e -> e <= 2 ^ 50 ->
  exists i k k', find_big (S n) h (a * 4096) (e * 4096) = Some (i, k * 2 ^ sh i, k' * 2 ^ sh i)
    /\ 0 <= i <= Z.of_nat n /\ 0 <= k < k' /\ a <= k * np i /\ k' * np i <= e
    /\ (i = 0 -> k = a /\ k' = e).
Proof using Hlo Hhi.
  induction n as [|n IH]; intros h a e H Hn Ha He;
    (match goal with |- context [find_big (S ?m) _ _ _] => set (i := Z.of_nat m) end);
    assert (0 <= i < 7) as Hi by lia; destruct (sh_facts i Hi) as (_ & Hnp & E);
    destruct (hi_blk h H i Hi) as (b & Eb & Hb); cbn [find_big]; fold i; rewrite Eb; cbn [mbind option_bind];
    rewrite (Block_GetSize_ok lo hi i b Hi Hb), AlignUp_div, AlignDown_div by lia;
    set (k := (a * 4096 + 2 ^ sh i - 1) / 2 ^ sh i); set (k' := e * 4096 / 2 ^ sh i);
    assert (0 <= k) as Hk0 by (apply Z.div_pos; lia);
    pose proof (Z.div_mod (a * 4096 + 2 ^ sh i - 1) (2 ^ sh i) ltac:(lia)) as D1; fold k in D1;
    pose proof (Z.mod_pos_bound (a * 4096 + 2 ^ sh i - 1) (2 ^ sh i) ltac:(lia)) as M1;
    pose proof (Z.div_mod (e * 4096) (2 ^ sh i) ltac:(lia)) as D2; fold k' in D2;
    pose proof (Z.mod_pos_bound (e * 4096) (2 ^ sh i) ltac:(lia)) as M2.
  - change (2 ^ sh i) with 4096 in *. assert (k = a /\ k' = e) as [-> ->] by lia.
    destruct (Z.ltb_spec (4096 * a) (4096 * e)); [|lia]. exists 0, a, e. change (2 ^ sh 0) with 4096. change (np 0) with 1.
    split_and!; [by rewrite (Z.mul_comm a), (Z.mul_comm e)|lia|lia|lia|lia|lia|lia|done].
  - destruct (Z.ltb_spec (2 ^ sh i * k) (2 ^ sh i * k')) as [Hlt|Hge].
    + exists i, k, k'. split_and!; [by rewrite (Z.mul_comm k), (Z.mul_comm k')|lia|lia|done|nia|nia|nia|lia].
    + destruct (IH h a e H ltac:(lia) Ha He) as (i' & q & q' & E' & Hr & Hrest). exists i', q, q'.
      split; [exact E'|]. split; [lia|done].
Qed.

Lemma mult_mod_smaller i j k : 0 <= i -> i < j < 7 -> (k * np j) mod np i = 0.
Proof.
  intros Hi Hj. destruct (np_mono i j Hi Hj) as (c & -> & _). destruct (sh_facts i ltac:(lia)) as (_ & ? & _).
  replace (k * (np i * c)) with (k * c * np i) by lia. apply Z.mod_mul. lia.
Qed.

(** [Free] of pages that are in the heap and not free. *)
Lemma Free_spec h a n :
  hinv h -> 0 <= n -> owned h a n ->
  exists h', Free h (a * 4096) n = Some h' /\ freed h h' a n.
Proof using Hlo Hhi.
  intros H Hn Ho. unfold Free. destruct (Z.eqb_spec n 0) as [->|Hn0]; [exists h; split; [done|by apply freed_nil]|].
  destruct (owned_bound _ _ _ Ho ltac:(lia)) as [Hb1 Hb2].
  change PageSize with 4096. rewrite (to_u64_id (n * 4096)), to_u64_id by (unfold is_u64; lia).
  replace (n * 4096 + a * 4096) with ((a + n) * 4096) by lia. change (Z.to_nat NumMemoryBlockPageShifts) with 7%nat.
  destruct (find_big_spec 6 h a (a + n) H ltac:(lia) ltac:(lia) ltac:(lia)) as (i & k & k' & -> & Hi & Hk & Hak & Hke & H0).
  cbn [mbind option_bind]. destruct (Z.ltb_spec i 0); [lia|].
  rewrite (proj2 (Z.leb_le 0 i)), andb_true_r by lia.
  set (h0 := {| heap_address := heap_address h; heap_size := heap_size h; used_size := used_size h;
                blocks := blocks h; heap_asserts := heap_asserts h |}).
  assert (h0 = h) as -> by by destruct h.
  assert (0 <= i < 7) as Hi7 by lia. destruct (hi_blk h H i Hi7) as (b & Eb & Hb). rewrite Eb. cbn [mbind option_bind].
  destruct (sh_facts i Hi7) as (_ & Hnp & E). rewrite (Block_GetSize_ok lo hi i b Hi7 Hb).
  destruct (free_big_spec (Z.to_nat n) h i k k' H Hi7 ltac:(lia)) as (h1 & E1 & F1);
    [nia|eapply owned_sub; [exact Ho|lia|nia]|]. rewrite E1. cbn [mbind option_bind].
  destruct (owned_after _ _ _ _ _ _ Ho F1 ltac:(lia) ltac:(nia) ltac:(nia)) as [HoR HoL].
  replace (k * np i + (k' - k) * np i) with (k' * np i) in HoR by lia.
  assert (exists h2, free_before (Z.to_nat i) (Z.to_nat n) h1 (a * 4096) (k * 2 ^ sh i) = Some h2
            /\ freed h1 h2 a (k * np i - a)) as (h2 & E2 & F2).
  { destruct (Z.eq_dec i 0) as [->|Hne].
    - destruct (H0 eq_refl) as [-> ->]. exists h1. split; [done|]. change (np 0) with 1.
      replace (a * 1 - a) with 0 by lia. apply freed_nil, F1.
    - replace (Z.to_nat i) with (S (Z.to_nat (i - 1))) by lia. replace (k * 2 ^ sh i) with (k * np i * 4096) by lia.
      apply free_before_spec; [apply F1|lia|lia|nia| |nia|exact HoL].
      rewrite Z2Nat.id by lia. apply mult_mod_smaller; lia. }
  rewrite E2. cbn [mbind option_bind].
  assert (freed h h2 a (k' * np i - a)) as F12.
  { replace (k' * np i - a) with (k * np i - a + (k' - k) * np i) by lia.
    eapply freed_app_before; [lia|nia| |exact F2]. by replace (a + (k * np i - a)) with (k * np i) by lia. }
  destruct (owned_after _ _ _ _ _ _ Ho F12 ltac:(lia) ltac:(lia) ltac:(nia)) as [HoR2 _].
  replace (a + (k' * np i - a)) with (k' * np i) in HoR2 by lia.
  assert (exists h3, free_after (Z.to_nat i) (Z.to_nat n) h2 (k' * 2 ^ sh i) ((a + n) * 4096) = Some h3
            /\ freed h2 h3 (k' * np i) (a + n - k' * np i)) as (h3 & E3 & F3).
  { destruct (Z.eq_dec i 0) as [->|Hne].
    - destruct (H0 eq_refl) as [-> ->]. exists h2. split; [done|]. change (np 0) with 1.
      replace (a + n - (a + n) * 1) with 0 by lia. apply freed_nil, F2.
    - replace (Z.to_nat i) with (S (Z.to_nat (i - 1))) by lia. replace (k' * 2 ^ sh i) with (k' * np i * 4096) by lia.
      apply free_after_spec; [apply F2|lia|nia|lia| |nia|exact HoR2].
      rewrite Z2Nat.id by lia. apply mult_mod_smaller; lia. }
  exists h3. split; [exact E3|]. replace n with (k' * np i - a + (a + n - k' * np i)) by lia.
  eapply freed_app; [nia|lia|exact F12|]. by replace (a + (k' * np i - a)) with (k' * np i) by lia.
Qed.

(** *** AllocateBlock *)

Lemma set_block_same h i b : 0 <= i -> get_block h i = Some b -> set_block h i b = h.
Proof.
  intros Hi E. unfold get_block in E. destruct (Z.ltb_spec i 0); [lia|]. destruct h. unfold set_block. cbn in *.
  f_equal. by apply list_insert_id.
Qed.

(** [h'] is [h] with the [n] pages from [a], all free there, taken. *)
Record taken (h h' : PageHeap) (a n : Z) : Prop := {
  tk_inv : hinv h';
  tk_shell : same_shell h h';
  tk_total : total_free h' = total_free h - n;
  tk_free p : in_range a n p = true -> free_page h p = true;
  tk_page p : free_page h' p = free_page h p && negb (in_range a n p);
}.

(** Taking one block. *)
Lemma pop_taken h i b b' k :
  hinv h -> 0 <= i < 7 -> get_block h i = Some b -> blk_ok lo hi i b' -> Fb b k = true ->
  (forall k', Fb b' k' = Fb b k' && negb (k' =? k)) -> num_bits (bitmap b') = num_bits (bitmap b) - 1 ->
  taken h (set_block h i b') (k * np i) (np i) /\ 0 < k * np i.
Proof using Hlo.
  intros H Hi Eb Hb' HFk HF Hn.
  destruct (hinv_remove h i b b' (fun k' => k' =? k) H Hi Eb Hb' HF) as [H1 Hfp].
  assert (forall p, in_range (k * np i) (np i) p = true -> Fh h i (p / np i) = true) as Hin.
  { intros p Hp. rewrite <- block_range in Hp by done. apply Z.eqb_eq in Hp. by rewrite Hp, (Fh_get h i b). }
  split.
  - split; [done|by split_and!| | |].
    + rewrite (total_set_block h i b b' Hi (hi_len h H) Eb), Hn. lia.
    + intros p Hp. apply free_page_iff. exists i. split; [done|by apply Hin].
    + intros p. rewrite Hfp, <- block_range by done. do 2 f_equal.
      destruct (Z.eqb_spec (p / np i) k) as [E|]; [|by rewrite andb_false_r].
      rewrite (Hin p); [done|]. rewrite <- block_range by done. by apply Z.eqb_eq.
  - destruct (hi_in h H (k * np i) i Hi); [|lia]. by rewrite block_first, (Fh_get h i b).
Qed.

(** Giving part of what was taken back. *)
Lemma taken_freed h h1 h2 a n m :
  0 <= m <= n -> taken h h1 a n -> freed h1 h2 (a + m) (n - m) -> taken h h2 a m.
Proof.
  intros Hm [A1 A2 A3 A4 A5] [B1 B2 B3 B4]. split; [done| |lia| |].
  - unfold same_shell in *. intuition congruence.
  - intros p Hp. apply A4. rewrite in_range_iff in *. lia.
  - intros p. rewrite B4, A5. specialize (A4 p). unfold in_range in *.
    destruct (Z.leb_spec a p), (Z.ltb_spec p (a + n)), (Z.leb_spec (a + m) p), (Z.ltb_spec p (a + m + (n - m))),
      (Z.ltb_spec p (a + m)); cbn [andb negb] in *; try lia; rewrite ?andb_true_r, ?andb_false_r, ?orb_false_r, ?orb_true_r;
      try done. by rewrite A4.
Qed.

Lemma taken_owned h h1 a n m : hinv h -> 0 <= m <= n -> taken h h1 a n -> owned h1 (a + m) (n - m).
Proof.
  intros H Hm T p Hp%in_range_iff. assert (in_range a n p = true) as Hin by (apply in_range_iff; lia).
  pose proof (tk_free _ _ _ _ T p Hin) as Hf. apply free_page_iff in Hf as (i & Hi & HF). split.
  - by apply (hi_in h H p i).
  - rewrite (tk_page _ _ _ _ T), Hin. apply andb_false_r.
Qed.

Lemma sh_mono i j : 0 <= i -> i < j < 7 -> np i < np j.
Proof. intros Hi Hj. destruct (np_mono i j Hi Hj) as (c & -> & Hc). destruct (sh_facts i ltac:(lia)) as (_ & ? & _). nia. Qed.

Lemma allocate_loop_spec n : forall h x i,
  hinv h -> 0 <= x <= i -> i + Z.of_nat n = 7 ->
  exists h' a, allocate_loop n h (2 ^ sh x) i = Some (h', a * 4096)
    /\ ((a = 0 /\ h' = h /\ forall j k, i <= j < 7 -> Fh h j k = false)
        \/ (0 < a /\ a mod np x = 0 /\ taken h h' a (np x))).
Proof using Hlo Hhi.
  induction n as [|n IH]; intros h x i H Hx Hn; cbn [allocate_loop].
  { exists h, 0. split; [done|]. left. split_and!; [done|done|lia]. }
  assert (0 <= i < 7) as Hi by lia. destruct (hi_blk h H i Hi) as (b & Eb & Hb). rewrite Eb. cbn [mbind option_bind].
  pose proof (PopBlock_spec lo hi i b Hi Hb) as HP. destruct (PopBlock b) as [b' ad]. destruct HP as [Hb' HP].
  destruct (sh_facts i Hi) as (_ & Hnp & E). destruct (sh_facts x ltac:(lia)) as (_ & Hnx & Ex).
  destruct HP as [(-> & -> & Hnone)|(k & -> & HFk & HF & Hnum)].
  - cbn [Z.eqb]. rewrite set_block_same by (done || lia).
    destruct (IH h x (i + 1) H ltac:(lia) ltac:(lia)) as (h' & a & E' & Hr). exists h', a. split; [done|].
    destruct Hr as [(-> & -> & Hall)|Hr]; [left|by right]. split_and!; [done|done|]. intros j q Hj.
    destruct (Z.eq_dec j i) as [->|]; [by rewrite (Fh_get h i b)|apply Hall; lia].
  - destruct (pop_taken h i b b' k H Hi Eb Hb' HFk HF Hnum) as [T Hk0]. set (h1 := set_block h i b') in *.
    replace (k * 2 ^ sh i) with (k * np i * 4096) by lia. destruct (Z.eqb_spec (k * np i * 4096) 0); [lia|].
    rewrite (Block_GetSize_ok lo hi i b' Hi Hb'). rewrite E, Ex.
    destruct (Z.ltb_spec (np x * 4096) (np i * 4096)) as [Hlt|Hge].
    + pose proof (taken_owned h h1 (k * np i) (np i) (np x) H ltac:(lia) T) as Ho.
      destruct (owned_bound _ _ _ Ho ltac:(lia)) as [Hb1 Hb2].
      rewrite (to_u64_id (k * np i * 4096 + np x * 4096)), (to_u64_id (np i * 4096 - np x * 4096)) by (unfold is_u64; lia).
      replace (k * np i * 4096 + np x * 4096) with ((k * np i + np x) * 4096) by lia. change PageSize with 4096.
      replace (np i * 4096 - np x * 4096) with ((np i - np x) * 4096) by lia. rewrite Z.div_mul by lia.
      destruct (Free_spec h1 (k * np i + np x) (np i - np x) (tk_inv _ _ _ _ T) ltac:(lia) Ho) as (h2 & E2 & F2).
      rewrite E2. cbn [mbind option_bind]. exists h2, (k * np i). split; [done|]. right. split; [done|].
      assert (x < i) as Hxi. { destruct (Z.eq_dec x i) as [->|]; lia. }
      split; [apply mult_mod_smaller; lia|]. eapply taken_freed; [|exact T|exact F2]. lia.
    + assert (x = i) as ->. { destruct (Z.eq_dec x i); [done|]. pose proof (sh_mono x i ltac:(lia) ltac:(lia)). lia. }
      exists h1, (k * np i). split; [done|]. right. split; [done|]. split; [apply Z.mod_mul; lia|done].
Qed.

(** With all pages of an aligned block free, a free block covers it: the
    groups are merged. *)
Lemma merged_block h (n : nat) : forall k,
  hinv h -> Z.of_nat n < 7 -> (forall p, p / np (Z.of_nat n) = k -> free_page h p = true) ->
  exists j, Z.of_nat n <= j < 7 /\ Fh h j (k * np (Z.of_nat n) / np j) = true.
Proof.
  induction n as [|n IH]; intros k H Hn Hall.
  - change (np (Z.of_nat 0)) with 1 in *. specialize (Hall k). rewrite Z.div_1_r in Hall.
    specialize (Hall eq_refl). apply free_page_iff in Hall as (j & Hj & HF). exists j. rewrite Z.mul_1_r. split; [lia|done].
  - set (i := Z.of_nat n) in *. replace (Z.of_nat (S n)) with (i + 1) in * by lia.
    destruct (df_facts i ltac:(lia)) as (Hd & _ & Enp & _). destruct (sh_facts i ltac:(lia)) as (_ & Hnp & _).
    destruct (decide (Exists (fun j => i + 1 <= j /\ Fh h j (k * np (i + 1) / np j) = true) levels)) as [Hex|Hno].
    { apply List.Exists_exists in Hex as (j & Hj & Hij & HF). exists j. split; [|done]. cbn in Hj. intuition lia. }
    exfalso. apply (hi_merged h H i k ltac:(lia)). intros k' Ek.
    destruct (IH k' H ltac:(lia)) as (j & Hj & HF).
    { intros p Ep. apply Hall. rewrite <- group_div by lia. by rewrite Ep. }
    destruct (Z.eq_dec j i) as [->|Hne]; [by rewrite block_first in HF by lia|]. exfalso. apply Hno.
    apply List.Exists_exists. exists j. split; [cbn; lia|]. split; [lia|].
    replace (k * np (i + 1) / np j) with (k' * np i / np j); [done|].
    assert (exists c, np j = np (i + 1) * c /\ 0 < c) as (c & -> & Hc).
    { destruct (Z.eq_dec j (i + 1)) as [->|]; [exists 1; lia|].
      destruct (np_mono (i + 1) j ltac:(lia) ltac:(lia)) as (c & ? & ?). exists c. lia. }
    rewrite <- !Z.div_div by (try (destruct (sh_facts (i + 1) ltac:(lia)) as (_ & ? & _)); lia).
    f_equal. rewrite block_first by lia. rewrite <- group_div, block_first by lia. done.
Qed.

Lemma AllocateBlock_spec h x :
  hinv h -> 0 <= x < 7 ->
  exists h' a, AllocateBlock h x = Some (h', a * 4096)
    /\ ((a = 0 /\ h' = h /\ forall k, exists p, p / np x = k /\ free_page h p = false)
        \/ (0 < a /\ a mod np x = 0 /\ taken h h' a (np x))).
Proof using Hlo Hhi.
  intros H Hx. unfold AllocateBlock. destruct (hi_blk h H x Hx) as (b & Eb & Hb). rewrite Eb. cbn [mbind option_bind].
  rewrite (Block_GetSize_ok lo hi x b Hx Hb).
  destruct (allocate_loop_spec (Z.to_nat (NumMemoryBlockPageShifts - x)) h x x H ltac:(lia)) as (h' & a & E & Hr);
    [unfold NumMemoryBlockPageShifts; lia|].
  exists h', a. split; [exact E|]. destruct Hr as [(-> & -> & Hnone)|Hr]; [left|by right].
  split_and!; [done|done|]. intros k. destruct (sh_facts x Hx) as (_ & Hnp & _).
  destruct (decide (Forall (fun p => free_page h p = true) (seqZ (k * np x) (np x)))) as [Hall|Hex].
  - exfalso. destruct (merged_block h (Z.to_nat x) k H ltac:(lia)) as (j & Hj & HF).
    { rewrite Z2Nat.id by lia. intros p Ep. rewrite Forall_forall in Hall. apply Hall. apply elem_of_seqZ.
      apply Z.eqb_eq in Ep. rewrite block_range in Ep by done. apply in_range_iff in Ep. lia. }
    rewrite (Hnone j) in HF by lia. done.
  - apply not_Forall_Exists in Hex; [|apply _]. apply Exists_exists in Hex as (p & Hp%elem_of_seqZ & Hnf).
    exists p. split; [|by apply not_true_iff_false]. apply Z.eqb_eq. rewrite block_range by done.
    apply in_range_iff. lia.
Qed.
End Heap.
