(* ===== verification/PageHeapSpec.v ===== *)
(** * The page heap from its initialisation on

    [PageHeap::Initialize] builds a well-formed, empty heap in the metadata
    its caller reserves; every heap reached from it by freeing owned pages
    and allocating blocks implements a set of free pages. *)

From S2P Require Import Prelude BitUtil PageHeap PageBitmap PageHeapCorrect.
From stdpp Require Import base list sets.
Open Scope Z_scope.
Open Scope c_scope.

(** ** Initialize *)

(** The pages each size is aligned to, in pages and in its own blocks. *)
Definition gd (i : Z) : Z := if i =? 6 then 1 else df i.
Definition al (i : Z) : Z := np i * gd i.

Lemma al_facts i :
  0 <= i < 7 -> 1 <= gd i < 64 /\ 1 <= al i <= 2 ^ 18
  /\ (if next_shift i =? 0 then 1 <<! sh i else 1 <<! next_shift i) = al i * 4096 /\ 1 <<! sh i = np i * 4096.
Proof. intros Hi. level_case Hi; vm_compute; repeat split; discriminate. Qed.

Section Init.
Context (lo hi : Z) (Hlo : 0 < lo < hi) (Hhi : hi <= 2 ^ 49) (Hsz : hi - lo <= 2 ^ 23).

(** First and last aligned boundary around the heap. *)
Definition first_al (i : Z) : Z := lo / al i.
Definition last_al (i : Z) : Z := (hi * 4096 + al i * 4096 - 1) / (al i * 4096).

Lemma first_al_spec i : 0 <= i < 7 -> 0 <= first_al i /\ al i * first_al i <= lo < al i * first_al i + al i.
Proof.
  intros Hi. destruct (al_facts i Hi) as (_ & Ha & _). unfold first_al.
  pose proof (Z.div_mod lo (al i) ltac:(lia)). pose proof (Z.mod_pos_bound lo (al i) ltac:(lia)).
  split; [apply Z.div_pos; lia|lia].
Qed.

Lemma last_al_spec i : 0 <= i < 7 -> hi <= al i * last_al i < hi + al i.
Proof.
  intros Hi. destruct (al_facts i Hi) as (_ & Ha & _). unfold last_al.
  pose proof (Z.div_mod (hi * 4096 + al i * 4096 - 1) (al i * 4096) ltac:(lia)).
  pose proof (Z.mod_pos_bound (hi * 4096 + al i * 4096 - 1) (al i * 4096) ltac:(lia)). lia.
Qed.

Lemma first_last i : 0 <= i < 7 -> first_al i < last_al i.
Proof.
  intros Hi. destruct (al_facts i Hi) as (_ & Ha & _).
  destruct (first_al_spec i Hi) as [_ H1]. pose proof (last_al_spec i Hi) as H2.
  apply Z.mul_lt_mono_pos_l with (p := al i); lia.
Qed.

(** The number of blocks of size [i]. *)
Definition nblk (i : Z) : Z := gd i * (last_al i - first_al i).

Lemma nblk_range i : 0 <= i < 7 -> 1 <= nblk i < 64 ^ 4 /\ nblk i * np i < hi - lo + 2 * al i.
Proof.
  intros Hi. destruct (al_facts i Hi) as (Hg & Ha & _). destruct (sh_facts i Hi) as (_ & Hn & _).
  pose proof (first_last i Hi) as Hl. destruct (first_al_spec i Hi) as [_ H1]. pose proof (last_al_spec i Hi) as H2.
  unfold nblk. assert (gd i * (last_al i - first_al i) * np i = al i * last_al i - al i * first_al i) as E by (unfold al; ring).
  split; [|lia]. split; [nia|]. change (64 ^ 4) with (2 ^ 24). apply Z.mul_lt_mono_pos_r with (p := np i); [lia|].
  rewrite E. unfold al in *. nia.
Qed.

Lemma Block_Initialize_spec i :
  0 <= i < 7 ->
  let '(b, used) := Block_Initialize (lo * 4096) ((hi - lo) * 4096) (sh i) (next_shift i) in
  blk_ok lo hi i b /\ (forall k, Fb b k = false) /\ num_bits (bitmap b) = 0
  /\ used = words_for (Z.to_nat (GetRequiredDepth (nblk i))) (nblk i).
Proof.
  intros Hi. destruct (al_facts i Hi) as (Hg & Ha & Eal & Esh). destruct (sh_facts i Hi) as (Hs & Hn & E2).
  pose proof (first_last i Hi) as Hl. destruct (first_al_spec i Hi) as [H0 H1]. pose proof (last_al_spec i Hi) as H2.
  unfold Block_Initialize. rewrite Eal, Esh. rewrite (to_u64_id (lo * 4096 + _)) by (unfold is_u64; lia).
  replace (lo * 4096 + (hi - lo) * 4096) with (hi * 4096) by lia.
  rewrite AlignDown_div, AlignUp_div by lia. rewrite Z.div_mul_cancel_r by lia.
  fold (first_al i). fold (last_al i).
  rewrite to_u64_id by (unfold is_u64; lia).
  assert ((al i * 4096 * last_al i - al i * 4096 * first_al i) / (np i * 4096) = nblk i) as ->.
  { unfold nblk, al. replace (np i * gd i * 4096 * last_al i - np i * gd i * 4096 * first_al i)
      with (gd i * (last_al i - first_al i) * (np i * 4096)) by ring. apply Z.div_mul. lia. }
  destruct (nblk_range i Hi) as [HN HN2]. pose proof (Bitmap_Initialize_spec (nblk i) HN) as HB.
  destruct (Bitmap_Initialize (nblk i)) as [m used]. destruct HB as (Hm & Hbits & Hused).
  assert (al i * 4096 * first_al i / 2 ^ sh i = gd i * first_al i) as EK.
  { rewrite E2. unfold al. replace (np i * gd i * 4096 * first_al i) with (gd i * first_al i * (np i * 4096)) by ring.
    apply Z.div_mul. lia. }
  split_and!; [|intros k; unfold Fb; cbn [bitmap]; by rewrite Hbits, andb_false_r| |done].
  - split; unfold baseK; cbn [block_shift next_block_shift block_heap_address end_offset bitmap]; rewrite ?EK.
    + done.
    + done.
    + rewrite E2. unfold al. ring.
    + nia.
    + unfold al in *. lia.
    + unfold nblk, al in *. lia.
    + rewrite E2. unfold nblk. replace ((gd i * first_al i + gd i * (last_al i - first_al i)) * (np i * 4096))
        with (al i * last_al i * 4096) by (unfold al; ring). lia.
    + intros Hi6. unfold nblk, gd. destruct (Z.eqb_spec i 6); [lia|]. destruct (df_facts i ltac:(lia)) as (Hd & _).
      split; rewrite Z.mul_comm; apply Z.mod_mul; lia.
    + done.
  - cbn [bitmap]. rewrite (bm_count _ _ Hm). by apply count_none.
Qed.

Abbreviation h0 := (fst (Initialize (lo * 4096) ((hi - lo) * 4096))).

Lemma init_block i :
  0 <= i < 7 -> get_block h0 i = Some (fst (Block_Initialize (lo * 4096) ((hi - lo) * 4096) (sh i) (next_shift i))).
Proof.
  intros Hi. unfold get_block, Initialize, init_blocks. cbn [fst blocks].
  change (Z.to_nat NumMemoryBlockPageShifts) with 7%nat. cbn [seq map]. level_case Hi; reflexivity.
Qed.

Lemma aligned_4096 x : IsAligned (x * 4096) PageSize = true.
Proof.
  unfold IsAligned. change (PageSize -! 1) with (Z.ones 12). rewrite Z.land_ones by lia. apply Z.eqb_eq.
  change (2 ^ 12) with 4096. apply Z.mod_mul. lia.
Qed.

Lemma Initialize_hinv :
  hinv lo hi h0 /\ (forall p, free_page h0 p = false) /\ total_free h0 = 0.
Proof.
  assert (forall i, 0 <= i < 7 -> exists b, get_block h0 i = Some b /\ blk_ok lo hi i b
    /\ (forall k, Fb b k = false) /\ num_bits (bitmap b) = 0) as Hb.
  { intros i Hi. rewrite (init_block i Hi). pose proof (Block_Initialize_spec i Hi) as HB.
    destruct (Block_Initialize _ _ _ _) as [b u]. eexists. split; [reflexivity|]. by destruct HB as (? & ? & ? & _). }
  assert (length (blocks h0) = 7%nat) as Hlen.
  { unfold Initialize, init_blocks. cbn [fst blocks]. by rewrite !length_map, length_seq. }
  assert (heap_asserts h0 = true) as Has.
  { unfold Initialize. cbn [fst heap_asserts]. by rewrite !aligned_4096. }
  set (h := h0) in *. clearbody h.
  assert (forall i k, 0 <= i < 7 -> Fh h i k = false) as HF.
  { intros i k Hi. destruct (Hb i Hi) as (b & Eb & _ & Hn & _). by rewrite (Fh_get h i b). }
  split_and!.
  - split; [done| | | | |done].
    + intros i Hi. destruct (Hb i Hi) as (b & ? & ? & _). by exists b.
    + intros p i j Hi _ H1. by rewrite HF in H1.
    + intros p i Hi H1. by rewrite HF in H1.
    + intros i g Hi Hall. assert (0 <= i < 7) as Hi7 by lia. destruct (df_facts i Hi) as (Hd & _).
      specialize (Hall (g * df i)). rewrite HF in Hall by done. discriminate Hall. apply Z.div_mul. lia.
  - intros p. apply not_true_iff_false. intros (i & Hi & Ht)%free_page_iff. by rewrite HF in Ht.
  - unfold total_free, Tn. destruct (Hb 0 ltac:(lia)) as (? & -> & _ & _ & ->), (Hb 1 ltac:(lia)) as (? & -> & _ & _ & ->),
      (Hb 2 ltac:(lia)) as (? & -> & _ & _ & ->), (Hb 3 ltac:(lia)) as (? & -> & _ & _ & ->),
      (Hb 4 ltac:(lia)) as (? & -> & _ & _ & ->), (Hb 5 ltac:(lia)) as (? & -> & _ & _ & ->),
      (Hb 6 ltac:(lia)) as (? & -> & _ & _ & ->). lia.
Qed.
End Init.

(** ** The metadata *)

Lemma ceil64_mono a b : a <= b -> ceil64 a <= ceil64 b.
Proof. intros H. unfold ceil64. apply Z.div_le_mono; lia. Qed.

Lemma words_for_range n : forall a, 0 <= a -> 0 <= words_for n a <= Z.of_nat n * a.
Proof.
  induction n as [|n IH]; intros a Ha; cbn [words_for]; [lia|]. pose proof (ceil64_le a Ha).
  pose proof (IH (ceil64 a) ltac:(lia)). nia.
Qed.

Lemma words_for_mono n m : forall a b, 0 <= a <= b -> (n <= m)%nat -> words_for n a <= words_for m b.
Proof.
  revert m. induction n as [|n IH]; intros m a b Hab Hnm.
  - pose proof (words_for_range m b). cbn [words_for]. lia.
  - destruct m as [|m]; [lia|]. cbn [words_for]. pose proof (ceil64_mono a b). pose proof (ceil64_le a).
    pose proof (IH m (ceil64 a) (ceil64 b)). lia.
Qed.

Lemma depth_range a : 0 <= a < 64 ^ 5 -> 1 <= GetRequiredDepth a <= 5.
Proof.
  intros Ha. unfold GetRequiredDepth. destruct (required_depth_spec 11 a 0) as (k & -> & Hk & Hlt & Hge); [lia|].
  destruct Hk as [Hk|]; [|done]. split; [lia|]. destruct Hge as [|Hge]; [lia|].
  destruct (le_gt_dec k 5); [lia|]. exfalso.
  assert (64 ^ 5 <= 64 ^ (Z.of_nat k - 1)) by (apply Z.pow_le_mono_r; lia). lia.
Qed.

Lemma depth_mono a b : 0 <= a <= b -> b < 64 ^ 5 -> GetRequiredDepth a <= GetRequiredDepth b.
Proof.
  intros Hab Hb. unfold GetRequiredDepth.
  destruct (required_depth_spec 11 a 0) as (k & -> & Hk & Hlt & Hge); [lia|].
  destruct (required_depth_spec 11 b 0) as (k' & -> & Hk' & Hlt' & Hge'); [lia|].
  destruct Hk as [Hk|]; [|done]. destruct Hk' as [Hk'|]; [|done]. destruct Hge as [|Hge]; [lia|].
  destruct (le_gt_dec k k'); [lia|]. exfalso.
  assert (64 ^ Z.of_nat k' <= 64 ^ (Z.of_nat k - 1)) by (apply Z.pow_le_mono_r; lia). lia.
Qed.

Lemma overhead_loop_words n : forall s acc,
  0 <= acc -> 0 <= s <= 2 ^ 60 -> acc + words_for n s < 2 ^ 64 ->
  overhead_loop n s acc = acc + words_for n s.
Proof.
  induction n as [|n IH]; intros s acc Ha Hs Hw; cbn [overhead_loop words_for] in *; [lia|].
  rewrite AlignUp_64 by lia. pose proof (ceil64_le s). pose proof (words_for_range n (ceil64 s)).
  rewrite to_u64_id by (unfold is_u64; lia). rewrite IH by lia. lia.
Qed.

Lemma Bitmap_Overhead_words r :
  0 <= r < 64 ^ 5 -> Bitmap_Overhead r = 8 * words_for (Z.to_nat (GetRequiredDepth r)) r
                     /\ 0 <= Bitmap_Overhead r < 2 ^ 40.
Proof.
  intros Hr. pose proof (depth_range r Hr) as Hd. unfold Bitmap_Overhead.
  pose proof (words_for_range (Z.to_nat (GetRequiredDepth r)) r ltac:(lia)) as Hw.
  assert (words_for (Z.to_nat (GetRequiredDepth r)) r <= 5 * 64 ^ 5) by nia.
  rewrite overhead_loop_words by lia. rewrite to_u64_id by (unfold is_u64; lia). lia.
Qed.

Section Metadata.
Context (lo hi : Z) (Hlo : 0 < lo < hi) (Hhi : hi <= 2 ^ 49) (Hsz : hi - lo <= 2 ^ 23).

(** What one size reserves is enough for it. *)
Lemma Block_Overhead_enough i :
  0 <= i < 7 ->
  8 * words_for (Z.to_nat (GetRequiredDepth (nblk lo hi i))) (nblk lo hi i)
  <= Block_Overhead ((hi - lo) * 4096) (sh i) (next_shift i) < 2 ^ 40.
Proof.
  intros Hi. destruct (al_facts i Hi) as (Hg & Ha & Eal & Esh). destruct (sh_facts i Hi) as (_ & Hn & _).
  destruct (first_al_spec lo hi Hlo i Hi) as [H0 H1]. pose proof (last_al_spec lo hi Hlo i Hi) as H2.
  unfold Block_Overhead.
  assert ((if next_shift i =? 0 then 1 <<! sh i else 1 <<! next_shift i) = al i * 4096) as E by exact Eal.
  rewrite E, Esh. set (c := ((hi - lo) * 4096 + al i * 4096 - 1) / (al i * 4096)).
  rewrite AlignUp_div by lia. fold c.
  pose proof (Z.div_mod ((hi - lo) * 4096 + al i * 4096 - 1) (al i * 4096) ltac:(lia)) as D. fold c in D.
  pose proof (Z.mod_pos_bound ((hi - lo) * 4096 + al i * 4096 - 1) (al i * 4096) ltac:(lia)) as M.
  assert (hi - lo <= al i * c < hi - lo + al i) as Hc by lia.
  rewrite (to_u64_id (al i * 4096 * 2)), to_u64_id by (unfold is_u64; lia).
  replace ((al i * 4096 * 2 + al i * 4096 * c) / (np i * 4096)) with (gd i * (2 + c)).
  2: { unfold al. replace (np i * gd i * 4096 * 2 + np i * gd i * 4096 * c)
         with (gd i * (2 + c) * (np i * 4096)) by ring. rewrite Z.div_mul; lia. }
  assert (last_al hi i - first_al lo i < 2 + c) as Hlt by (apply Z.mul_lt_mono_pos_l with (p := al i); lia).
  pose proof (nblk_range lo hi Hlo Hhi Hsz i Hi) as [HN _]. unfold nblk in *.
  assert (0 <= gd i * (2 + c) < 64 ^ 5) as HR.
  { split; [nia|]. apply Z.mul_lt_mono_pos_r with (p := np i); [lia|].
    replace (gd i * (2 + c) * np i) with (2 * al i + al i * c) by (unfold al; ring). nia. }
  destruct (Bitmap_Overhead_words (gd i * (2 + c)) HR) as [Ew Hw]. split; [|lia]. rewrite Ew.
  assert (gd i * (last_al hi i - first_al lo i) <= gd i * (2 + c)) as Hle by (apply Z.mul_le_mono_nonneg_l; lia).
  apply Z.mul_le_mono_nonneg_l; [lia|]. apply words_for_mono; [lia|].
  apply Z2Nat.inj_le; [pose proof (depth_range (gd i * (last_al hi i - first_al lo i))); lia|
    pose proof (depth_range (gd i * (2 + c))); lia|]. apply depth_mono; lia.
Qed.

(** the words that [PageHeap::Initialize] takes from the metadata vector
    for the bitmaps of the seven block sizes fit in the size
    [CalculateMetadataOverheadSize] reserves for them. *)
Theorem page_heap_metadata_fits :
  8 * snd (Initialize (lo * 4096) ((hi - lo) * 4096)) <= CalculateMetadataOverheadSize ((hi - lo) * 4096).
Proof.
  assert (forall i, 0 <= i < 7 ->
    8 * snd (Block_Initialize (lo * 4096) ((hi - lo) * 4096) (sh i) (next_shift i))
    <= Block_Overhead ((hi - lo) * 4096) (sh i) (next_shift i) < 2 ^ 40
    /\ 0 <= snd (Block_Initialize (lo * 4096) ((hi - lo) * 4096) (sh i) (next_shift i))) as Hb.
  { intros i Hi. pose proof (Block_Initialize_spec lo hi Hlo Hhi Hsz i Hi) as HB.
    destruct (Block_Initialize _ _ _ _) as [b u]. destruct HB as (_ & _ & _ & ->). cbn [snd].
    split; [by apply Block_Overhead_enough|]. apply words_for_range.
    pose proof (nblk_range lo hi Hlo Hhi Hsz i Hi). lia. }
  unfold Initialize, CalculateMetadataOverheadSize, init_blocks. cbn [snd].
  change (Z.to_nat NumMemoryBlockPageShifts) with 7%nat. cbn [seq map foldr foldl].
  pose proof (Hb 0 ltac:(lia)). pose proof (Hb 1 ltac:(lia)). pose proof (Hb 2 ltac:(lia)). pose proof (Hb 3 ltac:(lia)).
  pose proof (Hb 4 ltac:(lia)). pose proof (Hb 5 ltac:(lia)). pose proof (Hb 6 ltac:(lia)). unfold sh in *.
  change (Z.of_nat 0) with 0. change (Z.of_nat 1) with 1. change (Z.of_nat 2) with 2. change (Z.of_nat 3) with 3.
  change (Z.of_nat 4) with 4. change (Z.of_nat 5) with 5. change (Z.of_nat 6) with 6.
  repeat match goal with
         | |- context [Block_Overhead ?a ?b ?c] => generalize dependent (Block_Overhead a b c); intros
         | |- context [snd (Block_Initialize ?a ?b ?c ?d)] => generalize dependent (snd (Block_Initialize a b c d)); intros
         end.
  repeat match goal with
         | |- context [to_u64 (?a + ?b)] =>
             lazymatch a with
             | context [to_u64 _] => fail
             | _ => rewrite (to_u64_id (a + b)) by (unfold is_u64; lia)
             end
         end.
  change PageSize with 4096. rewrite AlignUp_div by lia. zlia.
Qed.
End Metadata.

(** ** Heaps in use *)

Section Reachable.
Context (lo hi : Z) (Hlo : 0 < lo < hi) (Hhi : hi <= 2 ^ 49) (Hsz : hi - lo <= 2 ^ 23).

(** The heaps that a client reaches that frees only pages it owns. *)
Inductive reachable : PageHeap -> Prop :=
  | reach_init : reachable (fst (Initialize (lo * 4096) ((hi - lo) * 4096)))
  | reach_free h h' a n :
      reachable h -> 0 <= n -> owned lo hi h a n -> Free h (a * 4096) n = Some h' -> reachable h'
  | reach_allocate h h' i addr :
      reachable h -> 0 <= i < 7 -> AllocateBlock h i = Some (h', addr) -> reachable h'
  | reach_update h : reachable h -> reachable (UpdateUsedSize h).

(** The number of free pages. *)
Definition free_count (h : PageHeap) : Z := count (fun q => free_page h (lo + q)) (hi - lo).

Lemma shift_range a n q : in_range a n (lo + q) = in_range (a - lo) n q.
Proof.
  apply eq_true_iff_eq. rewrite !in_range_iff. lia.
Qed.

Lemma freed_count h h' a n :
  0 <= n -> owned lo hi h a n -> freed lo hi h h' a n -> free_count h' = free_count h + n.
Proof using Hlo.
  intros Hn Ho F. destruct (Z.eq_dec n 0) as [->|Hn0].
  { rewrite Z.add_0_r. apply count_ext. intros q Hq. rewrite (fd_page _ _ _ _ _ _ F), shift_range.
    replace (in_range (a - lo) 0 q) with false; [by rewrite orb_false_r|].
    symmetry. apply not_true_iff_false. rewrite in_range_iff. lia. }
  destruct (Ho a) as [H1 _]; [apply in_range_iff; lia|].
  destruct (Ho (a + n - 1)) as [H2 _]; [apply in_range_iff; lia|].
  unfold free_count. apply (count_remove _ _ (a - lo) n); [lia|lia|lia| |].
  - intros q Hq Hin. rewrite (fd_page _ _ _ _ _ _ F), shift_range, Hin. apply orb_true_r.
  - intros q Hq. rewrite (fd_page _ _ _ _ _ _ F), shift_range.
    destruct (in_range (a - lo) n q) eqn:E; cbn [negb]; [|by rewrite orb_false_r, andb_true_r].
    rewrite andb_false_r. apply Ho. by rewrite shift_range.
Qed.

Lemma taken_count h h' a n :
  0 < n -> hinv lo hi h -> taken lo hi h h' a n -> free_count h = free_count h' + n.
Proof using Hlo.
  intros Hn H T. assert (forall p, in_range a n p = true -> lo <= p < hi) as Hin.
  { intros p Hp. pose proof (tk_free _ _ _ _ _ _ T p Hp) as (i & Hi & HF)%free_page_iff. by apply (hi_in _ _ h H p i). }
  pose proof (Hin a) as H1. pose proof (Hin (a + n - 1)) as H2. rewrite in_range_iff in H1, H2.
  unfold free_count. apply (count_remove _ _ (a - lo) n); [lia|lia|lia| |].
  - intros q Hq Hr. apply (tk_free _ _ _ _ _ _ T). by rewrite shift_range.
  - intros q Hq. by rewrite (tk_page _ _ _ _ _ _ T), shift_range.
Qed.

Lemma hinv_update h : hinv lo hi h -> hinv lo hi (UpdateUsedSize h).
Proof. intros [H1 H2 H3 H4 H5 H6]. by split. Qed.

Lemma reachable_ok h : reachable h -> hinv lo hi h /\ total_free h = free_count h.
Proof using Hlo Hhi Hsz.
  induction 1 as [|h h' a n Hr [IH IHc] Hn Ho E|h h' i addr Hr [IH IHc] Hi E|h Hr [IH IHc]].
  - destruct (Initialize_hinv lo hi Hlo Hhi Hsz) as (H & Hf & Ht). split; [done|]. rewrite Ht.
    unfold free_count. symmetry. apply count_none. intros. apply Hf.
  - destruct (Free_spec lo hi ltac:(lia) ltac:(lia) h a n IH Hn Ho) as (h1 & E1 & F). rewrite E in E1. injection E1 as <-.
    split; [apply F|]. rewrite (fd_total _ _ _ _ _ _ F), (freed_count _ _ _ _ Hn Ho F). lia.
  - destruct (AllocateBlock_spec lo hi ltac:(lia) ltac:(lia) h i IH Hi) as (h1 & a & E1 & Hc). rewrite E in E1. injection E1 as <- _.
    destruct Hc as [(_ & -> & _)|(_ & _ & T)]; [done|]. split; [apply T|].
    destruct (sh_facts i Hi) as (_ & Hn & _).
    rewrite (tk_total _ _ _ _ _ _ T). rewrite (taken_count h h' a (np i) ltac:(lia) IH T) in IHc. lia.
  - split; [by apply hinv_update|exact IHc].
Qed.

(** [GetNumFreePages] adds the sizes up without overflow. *)
Lemma GetNumFreePages_total h : hinv lo hi h -> GetNumFreePages h = total_free h.
Proof using Hlo.
  intros H. assert (forall i, 0 <= i < 7 -> exists b, get_block h i = Some b
    /\ Block_GetNumFreePages b = num_bits (bitmap b) * np i /\ 0 <= num_bits (bitmap b) * np i <= 2 ^ 60) as Hb.
  { intros i Hi. destruct (hi_blk _ _ h H i Hi) as (b & Eb & Hb). exists b. split; [done|].
    destruct (sh_facts i Hi) as (_ & Hn & E). pose proof (num_bits_range _ _ (bo_bits _ _ _ _ Hb)) as Hr.
    pose proof (bo_max _ _ _ _ Hb) as Hm. pose proof (bo_base _ _ _ _ Hb) as H0. rewrite E in Hm.
    assert (num_bits (bitmap b) * np i <= 2 ^ 60) as Hle by nia.
    unfold Block_GetNumFreePages, Block_GetNumPages. rewrite (Block_GetSize_ok lo hi i b Hi Hb), E.
    change PageSize with 4096. rewrite Z.div_mul by lia. rewrite to_u64_id by (unfold is_u64; nia). nia. }
  unfold GetNumFreePages, total_free, Tn.
  destruct (Hb 0 ltac:(lia)) as (b0 & E0 & N0 & R0), (Hb 1 ltac:(lia)) as (b1 & E1 & N1 & R1),
    (Hb 2 ltac:(lia)) as (b2 & E2 & N2 & R2), (Hb 3 ltac:(lia)) as (b3 & E3 & N3 & R3),
    (Hb 4 ltac:(lia)) as (b4 & E4 & N4 & R4), (Hb 5 ltac:(lia)) as (b5 & E5 & N5 & R5),
    (Hb 6 ltac:(lia)) as (b6 & E6 & N6 & R6).
  rewrite E0, E1, E2, E3, E4, E5, E6. unfold get_block in *. cbn [Z.ltb Z.compare] in *.
  pose proof (hi_len _ _ h H) as Hl. destruct (blocks h) as [|c0 [|c1 [|c2 [|c3 [|c4 [|c5 [|c6 [|]]]]]]]]; try discriminate Hl.
  injection E0 as ->. injection E1 as ->. injection E2 as ->. injection E3 as ->.
  injection E4 as ->. injection E5 as ->. injection E6 as ->. cbn [foldl]. rewrite N0, N1, N2, N3, N4, N5, N6.
  repeat match goal with
         | |- context [to_u64 (?a + ?b)] =>
             lazymatch a with
             | context [to_u64 _] => fail
             | _ => rewrite (to_u64_id (a + b)) by (unfold is_u64; lia)
             end
         end. lia.
Qed.

(** in every heap a client reaches, each free page lies in exactly one
    free block and inside the heap, no assertion has failed, and
    [GetNumFreePages] is the number of free pages. *)
Theorem page_heap_invariant h :
  reachable h ->
  (forall p i j, 0 <= i < 7 -> 0 <= j < 7 -> Fh h i (p / np i) = true -> Fh h j (p / np j) = true ->
     i = j /\ lo <= p < hi)
  /\ heap_asserts h = true /\ Forall (fun b => asserts (bitmap b) = true) (blocks h)
  /\ GetNumFreePages h = free_count h.
Proof using Hlo Hhi Hsz.
  intros [H Ht]%reachable_ok. split_and!.
  - intros p i j Hi Hj H1 H2. split; [by apply (hi_once _ _ h H p)|by apply (hi_in _ _ h H p i)].
  - apply H.
  - apply Forall_lookup. intros n b Hn. pose proof (lookup_lt_Some _ _ _ Hn) as Hl. rewrite (hi_len _ _ h H) in Hl.
    destruct (hi_blk _ _ h H (Z.of_nat n) ltac:(lia)) as (b' & E & Hb). unfold get_block in E.
    destruct (Z.ltb_spec (Z.of_nat n) 0); [lia|]. rewrite Nat2Z.id, Hn in E. injection E as <-.
    apply (bm_asserts _ _ (bo_bits _ _ _ _ Hb)).
  - by rewrite GetNumFreePages_total.
Qed.

(** C17: a reachable heap implements a set of free pages.  [Free] of pages
    the client owns returns and adds exactly these pages.  [AllocateBlock]
    returns; when the address is not 0 it is aligned to the block size, the
    pages of the block were free and inside the heap, and exactly they are
    removed; when it is 0 the heap is unchanged. *)
Theorem page_heap_refines_page_set h :
  reachable h ->
  (forall a n, 0 <= n -> owned lo hi h a n ->
     exists h', Free h (a * 4096) n = Some h' /\ forall p, free_page h' p = free_page h p || in_range a n p)
  /\ (forall i, 0 <= i < 7 ->
     exists h' a, AllocateBlock h i = Some (h', a * 4096)
       /\ if a =? 0 then h' = h
          else a mod np i = 0
               /\ (forall p, in_range a (np i) p = true -> free_page h p = true /\ lo <= p < hi)
               /\ forall p, free_page h' p = free_page h p && negb (in_range a (np i) p)).
Proof using Hlo Hhi Hsz.
  intros [H _]%reachable_ok. split.
  - intros a n Hn Ho. destruct (Free_spec lo hi ltac:(lia) ltac:(lia) h a n H Hn Ho) as (h' & E & F).
    exists h'. split; [done|apply F].
  - intros i Hi. destruct (AllocateBlock_spec lo hi ltac:(lia) ltac:(lia) h i H Hi) as (h' & a & E & Hc).
    exists h', a. split; [done|]. destruct Hc as [(-> & -> & _)|(Ha & Hm & T)]; [done|].
    destruct (Z.eqb_spec a 0); [lia|]. split_and!; [done| |apply T]. intros p Hp.
    pose proof (tk_free _ _ _ _ _ _ T p Hp) as Hf. split; [done|].
    apply free_page_iff in Hf as (j & Hj & HF). by apply (hi_in _ _ h H p j).
Qed.

(** C18: an allocation succeeds whenever some aligned block of the size has
    all its pages free, whatever sizes they were freed in. *)
Theorem page_heap_allocation_succeeds h i k :
  reachable h -> 0 <= i < 7 -> (forall p, p / np i = k -> free_page h p = true) ->
  exists h' addr, AllocateBlock h i = Some (h', addr) /\ addr <> 0.
Proof using Hlo Hhi Hsz.
  intros [H _]%reachable_ok Hi Hall.
  destruct (AllocateBlock_spec lo hi ltac:(lia) ltac:(lia) h i H Hi) as (h' & a & E & Hc).
  exists h', (a * 4096). split; [done|]. destruct Hc as [(_ & _ & Hno)|(Ha & _)]; [|lia].
  destruct (Hno k) as (p & Ep & Hf). by rewrite (Hall p Ep) in Hf.
Qed.
End Reachable.

(** ** Witnesses *)

(** A heap of 0x1000 pages at 0x40000000, freed whole. *)
Definition sample_heap0 : PageHeap := fst (Initialize (0x40000 * 4096) ((0x41000 - 0x40000) * 4096)).
Definition sample_heap : PageHeap := default sample_heap0 (Free sample_heap0 (0x40000 * 4096) 0x1000).

Lemma sample_owned : owned 0x40000 0x41000 sample_heap0 0x40000 0x1000.
Proof.
  destruct (Initialize_hinv 0x40000 0x41000 ltac:(lia) ltac:(lia) ltac:(lia)) as (_ & Hf & _).
  intros p Hp%in_range_iff. split; [lia|apply Hf].
Qed.

Lemma sample_heap_ok :
  reachable 0x40000 0x41000 sample_heap
  /\ forall p, free_page sample_heap p = free_page sample_heap0 p || in_range 0x40000 0x1000 p.
Proof.
  destruct (Initialize_hinv 0x40000 0x41000 ltac:(lia) ltac:(lia) ltac:(lia)) as (H & _).
  destruct (Free_spec 0x40000 0x41000 ltac:(lia) ltac:(lia) sample_heap0 0x40000 0x1000 H ltac:(lia) sample_owned) as (h' & E & F).
  unfold sample_heap. fold sample_heap0 in E. rewrite E. split; [|apply F].
  eapply reach_free; [apply reach_init| |exact sample_owned|exact E]. lia.
Qed.

Lemma page_heap_metadata_fits_witness :
  8 * snd (Initialize (0x40000 * 4096) ((0x41000 - 0x40000) * 4096))
  <= CalculateMetadataOverheadSize ((0x41000 - 0x40000) * 4096).
Proof. apply page_heap_metadata_fits; [split; reflexivity|discriminate|discriminate]. Defined.

Lemma page_heap_invariant_witness : GetNumFreePages sample_heap = free_count 0x40000 0x41000 sample_heap.
Proof.
  destruct (page_heap_invariant 0x40000 0x41000 ltac:(lia) ltac:(lia) ltac:(lia) sample_heap (proj1 sample_heap_ok))
    as (_ & _ & _ & E). exact E.
Defined.

Lemma page_heap_refines_page_set_witness :
  exists h', Free sample_heap0 (0x40000 * 4096) 0x1000 = Some h'
             /\ forall p, free_page h' p = free_page sample_heap0 p || in_range 0x40000 0x1000 p.
Proof.
  destruct (page_heap_refines_page_set 0x40000 0x41000 ltac:(lia) ltac:(lia) ltac:(lia) sample_heap0 (reach_init _ _))
    as [HF _]. apply (HF 0x40000 0x1000); [lia|exact sample_owned].
Defined.

Lemma page_heap_allocation_succeeds_witness :
  exists h' addr, AllocateBlock sample_heap 3 = Some (h', addr) /\ addr <> 0.
Proof.
  apply (page_heap_allocation_succeeds 0x40000 0x41000 ltac:(lia) ltac:(lia) ltac:(lia) sample_heap 3 0x100
    (proj1 sample_heap_ok)); [lia|].
  intros p Hp. rewrite (proj2 sample_heap_ok). apply orb_true_iff. right. apply in_range_iff.
  change (np 3) with 1024 in Hp. Z.div_mod_to_equations. lia.
Defined.
