(* ===== verification/MemoryManager.v ===== *)
(** * The memory manager of the kernel

    [Kernel::Memory::MemoryManager]
    ([src/src/core/hle/kernel/memory/memory_manager.cpp] and [.h]) on top of
    the page heap, with the page groups of [page_linked_list.h].  The locks
    are left out: every operation holds the lock of its pool.  [None] is an
    index outside an array, as in [PageHeap.v]. *)

From S2P Require Import Prelude BitUtil KernelObject PageHeap PageBitmap PageHeapCorrect PageHeapSpec.
From stdpp Require Import base list sets.
Open Scope Z_scope.
Open Scope c_scope.

Module MemoryManager.

(** ** PageLinkedList *)

Record Node := { addr : Z; num_pages : Z }.

Definition GetNumPages (nodes : list Node) : Z := foldl (fun n nd => n +! num_pages nd) 0 nodes.

(** [AddBlock]; it always succeeds. *)
Definition AddBlock (nodes : list Node) (address pages : Z) : list Node :=
  if pages =? 0 then nodes
  else
    match last nodes with
    | Some node =>
        if addr node +! (num_pages node *! PageSize) =? address
        then removelast nodes ++ [{| addr := addr node; num_pages := pages +! num_pages node |}]
        else nodes ++ [{| addr := address; num_pages := pages |}]
    | None => nodes ++ [{| addr := address; num_pages := pages |}]
    end.

(** ** The manager of one pool *)

Definition GetEndAddress (h : PageHeap) : Z := heap_address h +! heap_size h.

(** [Impl::Initialize]: the heap, and the size of the metadata. *)
Definition Impl_Initialize (start_address end_address : Z) : option (PageHeap * Z) :=
  let size := end_address -! start_address in
  let ref_count_size := (size / PageSize) *! 2 in
  let optimize_map_size := (AlignUp (size / PageSize) 64 / 64) *! 8 in
  let manager_size := AlignUp (optimize_map_size +! ref_count_size) PageSize in
  let page_heap_size := CalculateMetadataOverheadSize size in
  let total_metadata_size := manager_size +! page_heap_size in
  let '(h, _) := Initialize start_address size in
  h ← Free h start_address (size / PageSize);
  Some (UpdateUsedSize h, total_metadata_size).

(** The calls [chosen_manager.Free] for all nodes: the guard of [Allocate]
    and the loop of [Free]. *)
Fixpoint free_nodes (h : PageHeap) (nodes : list Node) : option PageHeap :=
  match nodes with
  | [] => Some h
  | it :: nodes =>
      let min_num_pages := Z.min (num_pages it) ((GetEndAddress h -! addr it) / PageSize) in
      h ← Free h (addr it) min_num_pages;
      free_nodes h nodes
  end.

(** The inner loop of [Allocate] at one size: at most one round per page. *)
Fixpoint alloc_size (fuel : nat) (h : PageHeap) (page_list : list Node) (pages pages_per_alloc index : Z)
    : option (PageHeap * list Node * Z) :=
  if pages_per_alloc <=? pages then
    match fuel with
    | O => None
    | S fuel =>
        '(h, allocated_block) ← AllocateBlock h index;
        if allocated_block =? 0 then Some (h, page_list, pages)
        else
          alloc_size fuel h (AddBlock page_list allocated_block pages_per_alloc) (pages -! pages_per_alloc)
            pages_per_alloc index
    end
  else Some (h, page_list, pages).

(** The outer loop, from index [n - 1] down. *)
Fixpoint alloc_sizes (n : nat) (h : PageHeap) (page_list : list Node) (pages : Z)
    : option (PageHeap * list Node * Z) :=
  match n with
  | O => Some (h, page_list, pages)
  | S n =>
      if 0 <? pages then
        '(h, page_list, pages) ←
          alloc_size (Z.to_nat pages) h page_list pages (GetBlockNumPages (Z.of_nat n)) (Z.of_nat n);
        alloc_sizes n h page_list pages
      else Some (h, page_list, pages)
  end.

(** [Allocate] and [Free] of one pool: the heap, the page list and the
    result. *)
Definition Allocate (h : PageHeap) (page_list : list Node) (pages : Z) : option (PageHeap * list Node * Z) :=
  if pages =? 0 then Some (h, page_list, RESULT_SUCCESS)
  else
    let heap_index := GetBlockIndex pages in
    if heap_index <? 0 then Some (h, page_list, ERR_OUT_OF_MEMORY)
    else
      '(h, page_list, pages) ← alloc_sizes (Z.to_nat (heap_index + 1)) h page_list pages;
      if pages =? 0 then Some (h, page_list, RESULT_SUCCESS)
      else h ← free_nodes h page_list; Some (h, page_list, ERR_OUT_OF_MEMORY).

Definition FreePages (h : PageHeap) (page_list : list Node) (pages : Z) : option (PageHeap * Z) :=
  if pages =? 0 then Some (h, RESULT_SUCCESS)
  else h ← free_nodes h page_list; Some (h, RESULT_SUCCESS).

Definition AllocateContinuous (h : PageHeap) (pages align_pages : Z) : option (PageHeap * Z) :=
  if pages =? 0 then Some (h, 0)
  else
    let heap_index := GetAlignedBlockIndex pages align_pages in
    '(h, allocated_block) ← AllocateBlock h heap_index;
    if allocated_block =? 0 then Some (h, 0)
    else
      let allocated_pages := GetBlockNumPages heap_index in
      if pages <? allocated_pages then
        h ← Free h (allocated_block +! pages *! PageSize) (allocated_pages -! pages);
        Some (h, allocated_block)
      else Some (h, allocated_block).

(** ** The pools *)

(** [managers[pool]]. *)
Definition managers : Type := list PageHeap.

Definition InitializeManager (ms : managers) (pool : nat) (start_address end_address : Z) : option managers :=
  '(h, _) ← Impl_Initialize start_address end_address;
  Some (<[pool := h]> ms).

Definition Pool_Allocate (ms : managers) (pool : nat) (page_list : list Node) (pages : Z)
    : option (managers * list Node * Z) :=
  h ← ms !! pool;
  '(h, page_list, r) ← Allocate h page_list pages;
  Some (<[pool := h]> ms, page_list, r).

Definition Pool_Free (ms : managers) (pool : nat) (page_list : list Node) (pages : Z) : option (managers * Z) :=
  h ← ms !! pool;
  '(h, r) ← FreePages h page_list pages;
  Some (<[pool := h]> ms, r).

Definition Pool_AllocateContinuous (ms : managers) (pool : nat) (pages align_pages : Z) : option (managers * Z) :=
  h ← ms !! pool;
  '(h, a) ← AllocateContinuous h pages align_pages;
  Some (<[pool := h]> ms, a).

End MemoryManager.
Import MemoryManager.

(** ** Page groups as sets of pages *)

Definition ind (b : bool) : Z := if b then 1 else 0.
Definition covers (nd : Node) (p : Z) : bool := in_range (addr nd / 4096) (num_pages nd) p.
(** How many nodes hold page [p], and the pages of all nodes. *)
Fixpoint cnt (l : list Node) (p : Z) : Z :=
  match l with
  | [] => 0
  | nd :: l => ind (covers nd p) + cnt l p
  end.
Fixpoint npages (l : list Node) : Z :=
  match l with
  | [] => 0
  | nd :: l => num_pages nd + npages l
  end.

Definition node_ok (nd : Node) : Prop :=
  exists a, addr nd = a * 4096 /\ 0 <= a /\ 0 < num_pages nd /\ a + num_pages nd <= 2 ^ 50.

Lemma cnt_app l l' p : cnt (l ++ l') p = cnt l p + cnt l' p.
Proof. induction l as [|nd l IH]; [done|]. cbn [app cnt]. lia. Qed.

Lemma npages_app l l' : npages (l ++ l') = npages l + npages l'.
Proof. induction l as [|nd l IH]; [done|]. cbn [app npages]. lia. Qed.

Lemma cnt_nonneg l p : 0 <= cnt l p.
Proof. induction l as [|nd l IH]; cbn [cnt]; [lia|]. unfold ind. destruct (covers nd p); lia. Qed.

Lemma covers_pages a n p : covers {| addr := a * 4096; num_pages := n |} p = in_range a n p.
Proof. unfold covers. cbn [addr num_pages]. by rewrite Z.div_mul by lia. Qed.

Lemma ind_split a n m p : 0 <= n -> 0 <= m -> ind (in_range a (n + m) p) = ind (in_range a n p) + ind (in_range (a + n) m p).
Proof.
  intros Hn Hm. unfold ind, in_range.
  destruct (Z.leb_spec a p), (Z.ltb_spec p (a + (n + m))), (Z.ltb_spec p (a + n)), (Z.leb_spec (a + n) p),
    (Z.ltb_spec p (a + n + m)); cbn [andb]; done || lia.
Qed.

(** [AddBlock] adds the pages of the block, whether it extends the last node
    or not. *)
Lemma AddBlock_spec l a n :
  Forall node_ok l -> 0 <= a -> 0 < n -> a + n <= 2 ^ 50 ->
  let l' := AddBlock l (a * 4096) n in
  Forall node_ok l' /\ npages l' = npages l + n /\ forall p, cnt l' p = cnt l p + ind (in_range a n p).
Proof.
  intros Hl Ha Hn Hm. unfold AddBlock. destruct (Z.eqb_spec n 0); [lia|].
  assert (node_ok {| addr := a * 4096; num_pages := n |}) as Hnew by (exists a; split_and!; done).
  assert (Forall node_ok (l ++ [{| addr := a * 4096; num_pages := n |}])
    /\ npages (l ++ [{| addr := a * 4096; num_pages := n |}]) = npages l + n
    /\ forall p, cnt (l ++ [{| addr := a * 4096; num_pages := n |}]) p = cnt l p + ind (in_range a n p)) as Hsnoc.
  { split_and!; [by apply Forall_app; split; [|apply Forall_singleton]|rewrite npages_app; cbn; lia|].
    intros p. rewrite cnt_app. cbn [cnt]. rewrite covers_pages. lia. }
  destruct l as [|nd l _] using rev_ind; [exact Hsnoc|]. rewrite last_snoc.
  apply Forall_app in Hl as [Hl (a0 & Ea & H0 & Hn0 & Hm0)%Forall_singleton].
  rewrite (to_u64_id (num_pages nd * _)) by (unfold is_u64; change PageSize with 4096; lia).
  rewrite to_u64_id by (unfold is_u64; change PageSize with 4096; lia). change PageSize with 4096.
  destruct (Z.eqb_spec (addr nd + num_pages nd * 4096) (a * 4096)) as [E|]; [|exact Hsnoc].
  assert (a = a0 + num_pages nd) as -> by lia. rewrite removelast_last.
  rewrite to_u64_id by (unfold is_u64; lia). rewrite Ea. split_and!.
  - apply Forall_app. split; [done|]. apply Forall_singleton. exists a0. cbn [addr num_pages]. split_and!; lia.
  - rewrite !npages_app. cbn [npages num_pages]. lia.
  - intros p. rewrite !cnt_app. cbn [cnt]. rewrite covers_pages, (Z.add_comm n), ind_split by lia.
    unfold covers. rewrite Ea, Z.div_mul by lia. lia.
Qed.

Section Manager.
Context (lo hi : Z) (Hlo : 0 < lo < hi) (Hhi : hi <= 2 ^ 49) (Hsz : hi - lo <= 2 ^ 23).

Lemma reachable_shell h :
  reachable lo hi h -> heap_address h = lo * 4096 /\ heap_size h = (hi - lo) * 4096.
Proof using Hlo Hhi Hsz.
  induction 1 as [|h h' a n Hr IH Hn Ho E|h h' i ad Hr IH Hi E|h Hr IH].
  - unfold Initialize. cbn [fst heap_address heap_size]. done.
  - destruct (reachable_ok lo hi Hlo Hhi Hsz h Hr) as [H _].
    destruct (Free_spec lo hi ltac:(lia) ltac:(lia) h a n H Hn Ho) as (h1 & E1 & F). rewrite E in E1. injection E1 as <-.
    destruct (fd_shell _ _ _ _ _ _ F) as (-> & -> & _). done.
  - destruct (reachable_ok lo hi Hlo Hhi Hsz h Hr) as [H _].
    destruct (AllocateBlock_spec lo hi ltac:(lia) ltac:(lia) h i H Hi) as (h1 & a & E1 & Hc). rewrite E in E1.
    injection E1 as <- _. destruct Hc as [(_ & -> & _)|(_ & _ & T)]; [done|].
    destruct (tk_shell _ _ _ _ _ _ T) as (-> & -> & _). done.
  - done.
Qed.

Lemma free_in_heap h p : reachable lo hi h -> free_page h p = true -> lo <= p < hi.
Proof using Hlo Hhi Hsz.
  intros [H _]%(reachable_ok lo hi Hlo Hhi Hsz) (i & Hi & HF)%free_page_iff. by apply (hi_in _ _ h H p i).
Qed.

(** *** Giving pages back *)

Lemma free_nodes_spec l : forall h,
  reachable lo hi h -> Forall node_ok l ->
  (forall p, cnt l p <= 1) -> (forall p, cnt l p = 1 -> lo <= p < hi /\ free_page h p = false) ->
  exists h', free_nodes h l = Some h' /\ reachable lo hi h'
    /\ forall p, free_page h' p = free_page h p || (cnt l p =? 1).
Proof using Hlo Hhi Hsz.
  induction l as [|nd l IH]; intros h Hr Hl H1 Hp; cbn [free_nodes].
  { exists h. split_and!; [done|done|]. intros p. cbn [cnt]. by rewrite orb_false_r. }
  apply Forall_cons in Hl as [(a & Ea & H0 & Hn & Hm) Hl]. destruct (reachable_shell h Hr) as [EA ES].
  destruct (reachable_ok lo hi Hlo Hhi Hsz h Hr) as [H _].
  assert (forall p, covers nd p = true -> cnt (nd :: l) p = 1 /\ cnt l p = 0) as Hcov.
  { intros p Hc. specialize (H1 p). cbn [cnt] in *. rewrite Hc in *. cbn [ind] in *. pose proof (cnt_nonneg l p). lia. }
  assert (forall p, covers nd p = in_range a (num_pages nd) p) as Ec.
  { intros p. unfold covers. rewrite Ea. by rewrite Z.div_mul by lia. }
  assert (owned lo hi h a (num_pages nd)) as Ho.
  { intros p Hin. apply Hp. apply Hcov. by rewrite Ec. }
  destruct (owned_bound lo hi h a (num_pages nd) Ho Hn) as [Hb1 Hb2].
  unfold GetEndAddress. rewrite EA, ES, Ea. rewrite (to_u64_id (lo * 4096 + _)) by (unfold is_u64; lia).
  rewrite to_u64_id by (unfold is_u64; lia). change PageSize with 4096.
  replace (lo * 4096 + (hi - lo) * 4096 - a * 4096) with ((hi - a) * 4096) by lia. rewrite Z.div_mul, Z.min_l by lia.
  destruct (Free_spec lo hi ltac:(lia) ltac:(lia) h a (num_pages nd) H ltac:(lia) Ho) as (h1 & E1 & F1).
  rewrite E1. cbn [mbind option_bind].
  assert (reachable lo hi h1) as Hr1 by (eapply reach_free; [exact Hr| |exact Ho|exact E1]; lia).
  destruct (IH h1 Hr1 Hl) as (h' & E' & Hr' & Hf').
  { intros p. specialize (H1 p). cbn [cnt] in H1. unfold ind in H1. destruct (covers nd p); lia. }
  { intros p Hc. assert (covers nd p = false) as Hnc.
    { destruct (covers nd p) eqn:Ecv; [|done]. destruct (Hcov p Ecv). lia. }
    destruct (Hp p) as [Hin Hfr]; [cbn [cnt]; rewrite Hnc; cbn [ind]; lia|]. split; [done|].
    rewrite (fd_page _ _ _ _ _ _ F1), Hfr, <- Ec. done. }
  exists h'. split_and!; [done|done|]. intros p. rewrite Hf', (fd_page _ _ _ _ _ _ F1), <- Ec, <- orb_assoc. f_equal.
  cbn [cnt]. destruct (covers nd p) eqn:Ecv; cbn [ind orb].
  - destruct (Hcov p Ecv) as [_ ->]. done.
  - by rewrite Z.add_0_l.
Qed.

(** *** Taking pages *)

(** The state of [Allocate] that started from heap [h0]: the pages taken so
    far are exactly those of the page list, each in one node. *)
Record alloc_inv (h0 h : PageHeap) (l : list Node) : Prop := {
  ai_reach : reachable lo hi h;
  ai_nodes : Forall node_ok l;
  ai_once p : cnt l p <= 1;
  ai_free p : cnt l p = 1 -> free_page h0 p = true;
  ai_page p : free_page h p = free_page h0 p && (cnt l p =? 0);
  ai_total : free_count lo hi h + npages l = free_count lo hi h0;
}.

Lemma alloc_inv_step h0 h l h' a i :
  alloc_inv h0 h l -> 0 <= i < 7 -> AllocateBlock h i = Some (h', a * 4096) -> 0 < a ->
  taken lo hi h h' a (np i) -> alloc_inv h0 h' (AddBlock l (a * 4096) (np i)) /\
    npages (AddBlock l (a * 4096) (np i)) = npages l + np i.
Proof using Hlo Hhi Hsz.
  intros [A1 A2 A3 A4 A5 A6] Hi E Ha T. destruct (sh_facts i Hi) as (_ & Hn & _).
  destruct (reachable_ok lo hi Hlo Hhi Hsz h A1) as [H _].
  assert (a + np i <= hi) as Hend.
  { assert (in_range a (np i) (a + np i - 1) = true) as Hlast by (apply in_range_iff; lia).
    pose proof (free_in_heap h _ A1 (tk_free _ _ _ _ _ _ T _ Hlast)). lia. }
  destruct (AddBlock_spec l a (np i) A2 ltac:(lia) ltac:(lia) ltac:(lia)) as (B1 & B2 & B3).
  assert (forall p, in_range a (np i) p = true -> cnt l p = 0 /\ free_page h0 p = true) as Hnew.
  { intros p Hp. pose proof (tk_free _ _ _ _ _ _ T p Hp) as Hf. rewrite A5 in Hf.
    apply andb_prop in Hf as [Hf ->%Z.eqb_eq]. done. }
  split; [|done]. split; [by eapply reach_allocate|done| | | |].
  - intros p. rewrite B3. destruct (in_range a (np i) p) eqn:Ep; cbn [ind]; [destruct (Hnew p Ep); lia|].
    specialize (A3 p). lia.
  - intros p. rewrite B3. destruct (in_range a (np i) p) eqn:Ep; cbn [ind]; [by destruct (Hnew p Ep)|].
    intros Hc. apply A4. lia.
  - intros p. rewrite (tk_page _ _ _ _ _ _ T), A5, B3.
    destruct (in_range a (np i) p) eqn:Ep; cbn [ind negb].
    + destruct (Hnew p Ep) as [-> _]. by rewrite !andb_false_r.
    + by rewrite andb_true_r, Z.add_0_r.
  - rewrite B2. pose proof (taken_count lo hi Hlo h h' a (np i) ltac:(lia) H T). lia.
Qed.

Lemma no_free_count h :
  (forall k, exists p, p / np 0 = k /\ free_page h p = false) -> free_count lo hi h = 0.
Proof.
  intros Hno. apply count_none. intros q. destruct (Hno (lo + q)) as (p & E & Hf).
  change (np 0) with 1 in E. rewrite Z.div_1_r in E. by rewrite <- E.
Qed.

Lemma GetBlockNumPages_np i : 0 <= i < 7 -> GetBlockNumPages i = np i.
Proof. intros Hi. level_case Hi; reflexivity. Qed.

Lemma alloc_size_spec fuel : forall h0 h l m i,
  alloc_inv h0 h l -> 0 <= i < 7 -> 0 <= m < 2 ^ 60 -> m <= Z.of_nat fuel ->
  exists h' l' m', alloc_size fuel h l m (np i) i = Some (h', l', m')
    /\ alloc_inv h0 h' l' /\ 0 <= m' <= m /\ m' + npages l' = m + npages l
    /\ (m' < np i \/ (i = 0 -> free_count lo hi h' = 0)).
Proof using Hlo Hhi Hsz.
  induction fuel as [|fuel IH]; intros h0 h l m i HA Hi Hm Hf; destruct (sh_facts i Hi) as (_ & Hn & _); cbn [alloc_size].
  { destruct (Z.leb_spec (np i) m); [lia|]. exists h, l, m. split_and!; try done; lia. }
  destruct (Z.leb_spec (np i) m) as [Hle|]; [|exists h, l, m; split_and!; try done; lia].
  destruct (reachable_ok lo hi Hlo Hhi Hsz h (ai_reach _ _ _ HA)) as [H _].
  destruct (AllocateBlock_spec lo hi ltac:(lia) ltac:(lia) h i H Hi) as (h' & a & E & Hc). rewrite E. cbn [mbind option_bind].
  destruct Hc as [(-> & -> & Hno)|(Ha & _ & T)].
  - cbn [Z.eqb Z.mul]. exists h, l, m. split_and!; try done; try lia. right. intros ->. by apply no_free_count.
  - destruct (Z.eqb_spec (a * 4096) 0); [lia|]. rewrite to_u64_id by (unfold is_u64; lia).
    destruct (alloc_inv_step h0 h l h' a i HA Hi E Ha T) as [HA' En].
    destruct (IH h0 h' _ (m - np i) i HA' Hi ltac:(lia) ltac:(lia)) as (h2 & l2 & m2 & E2 & HA2 & H0 & Hs & Hor).
    exists h2, l2, m2. split_and!; try done; lia.
Qed.

Lemma alloc_sizes_spec n : forall h0 h l m,
  alloc_inv h0 h l -> (n <= 7)%nat -> 0 <= m < 2 ^ 60 ->
  exists h' l' m', alloc_sizes n h l m = Some (h', l', m')
    /\ alloc_inv h0 h' l' /\ 0 <= m' /\ m' + npages l' = m + npages l
    /\ (n = 0%nat \/ m' = 0 \/ free_count lo hi h' = 0).
Proof using Hlo Hhi Hsz.
  induction n as [|n IH]; intros h0 h l m HA Hn Hm; cbn [alloc_sizes].
  { exists h, l, m. split_and!; try done; try lia. }
  destruct (Z.ltb_spec 0 m); [|exists h, l, m; split_and!; try done; try lia].
  rewrite GetBlockNumPages_np by lia.
  destruct (alloc_size_spec (Z.to_nat m) h0 h l m (Z.of_nat n) HA ltac:(lia) Hm ltac:(lia))
    as (h1 & l1 & m1 & -> & HA1 & H1 & Hs1 & Hor1). cbn [mbind option_bind].
  destruct n as [|n].
  { cbn [alloc_sizes]. exists h1, l1, m1. split_and!; try done; try lia. right.
    change (np (Z.of_nat 0)) with 1 in Hor1. destruct Hor1 as [|Hz]; [left; lia|right; by apply Hz]. }
  destruct (IH h0 h1 l1 m1 HA1 ltac:(lia) ltac:(lia)) as (h2 & l2 & m2 & E2 & HA2 & H2 & Hs2 & Hor2).
  exists h2, l2, m2. split_and!; try done; try lia.
Qed.

Lemma GetBlockIndex_range m : 1 <= m -> 0 <= GetBlockIndex m < 7.
Proof.
  intros Hm. unfold GetBlockIndex. change (Z.to_nat NumMemoryBlockPageShifts) with 7%nat. cbn [block_index].
  repeat match goal with |- context [if ?c then _ else _] => destruct c eqn:?; [lia|] end.
  match goal with H : (GetBlockSize (Z.of_nat 0) / PageSize <=? m) = false |- _ =>
    change (GetBlockSize (Z.of_nat 0) / PageSize) with 1 in H; apply Z.leb_gt in H; lia end.
Qed.

Lemma alloc_inv_init h : reachable lo hi h -> alloc_inv h h [].
Proof.
  intros Hr. split; [done|constructor|cbn; lia|cbn; lia| |cbn; lia]. intros p. cbn. by rewrite andb_true_r.
Qed.

Lemma alloc_inv_restore h0 h l :
  alloc_inv h0 h l -> reachable lo hi h0 ->
  exists h', free_nodes h l = Some h' /\ reachable lo hi h' /\ forall p, free_page h' p = free_page h0 p.
Proof using Hlo Hhi Hsz.
  intros [A1 A2 A3 A4 A5 A6] Hr. destruct (free_nodes_spec l h A1 A2 A3) as (h' & E & Hr' & Hf).
  { intros p Hc. split; [by apply (free_in_heap h0), A4|]. by rewrite A5, Hc, andb_false_r. }
  exists h'. split_and!; [done|done|]. intros p. rewrite Hf, A5.
  pose proof (A3 p). pose proof (cnt_nonneg l p). destruct (Z.eqb_spec (cnt l p) 1) as [E1|E1].
  - rewrite (A4 p E1), E1. done.
  - assert (cnt l p = 0) as -> by lia. by rewrite orb_false_r, andb_true_r.
Qed.

(** [Allocate] takes the pages, or gives back what it took. *)
Lemma Allocate_spec h m : reachable lo hi h -> 0 < m < 2 ^ 60 ->
  exists h' l r, Allocate h [] m = Some (h', l, r)
    /\ ((m <= free_count lo hi h /\ r = RESULT_SUCCESS /\ alloc_inv h h' l /\ npages l = m)
        \/ (free_count lo hi h < m /\ r = ERR_OUT_OF_MEMORY /\ reachable lo hi h' /\ forall p, free_page h' p = free_page h p)).
Proof using Hlo Hhi Hsz.
  intros Hr Hm. unfold Allocate. destruct (Z.eqb_spec m 0); [lia|].
  pose proof (GetBlockIndex_range m ltac:(lia)) as Hx. destruct (Z.ltb_spec (GetBlockIndex m) 0); [lia|].
  destruct (alloc_sizes_spec (Z.to_nat (GetBlockIndex m + 1)) h h [] m (alloc_inv_init h Hr) ltac:(lia) ltac:(lia))
    as (h1 & l1 & m1 & -> & HA & H1 & Hs & Hor). cbn [mbind option_bind npages] in *.
  destruct Hor as [|Hor]; [lia|]. pose proof (ai_total _ _ _ HA) as Ht.
  assert (0 <= free_count lo hi h1) as Hc0 by (unfold free_count; pose proof (count_bound (fun q => free_page h1 (lo + q)) (hi - lo)); lia).
  destruct (Z.eqb_spec m1 0) as [->|Hm1].
  - exists h1, l1, RESULT_SUCCESS. split; [done|]. left. assert (0 <= free_count lo hi h1) by done. split_and!; [lia|done|done|lia].
  - destruct (alloc_inv_restore h h1 l1 HA Hr) as (h' & -> & Hr' & Hf). cbn [mbind option_bind].
    exists h', l1, ERR_OUT_OF_MEMORY. split; [done|]. right. split_and!; [lia|done|done|done].
Qed.

(** C19: [Allocate] of a positive number of pages into an empty page list
    succeeds exactly when that many pages are free: the list then holds that
    many pages, each once, all of them free before, and exactly they are
    taken.  Otherwise it returns [ERR_OUT_OF_MEMORY] and has given every page
    back. *)
Theorem allocate_exact h m :
  reachable lo hi h -> 0 < m < 2 ^ 50 ->
  exists h' l, (if m <=? free_count lo hi h
                then Allocate h [] m = Some (h', l, RESULT_SUCCESS) /\ npages l = m
                     /\ (forall p, cnt l p = 0 \/ cnt l p = 1 /\ free_page h p = true)
                     /\ (forall p, free_page h' p = free_page h p && (cnt l p =? 0))
                else Allocate h [] m = Some (h', l, ERR_OUT_OF_MEMORY) /\ forall p, free_page h' p = free_page h p)
               /\ reachable lo hi h'.
Proof using Hlo Hhi Hsz.
  intros Hr Hm. destruct (Allocate_spec h m Hr ltac:(lia)) as (h' & l & r & E & [(Hle & -> & HA & Hn)|(Hgt & -> & Hr' & Hf)]);
    exists h', l; destruct (Z.leb_spec m (free_count lo hi h)); try lia; [|done].
  split; [|apply HA]. split_and!; [done|done| |apply HA].
  intros p. pose proof (ai_once _ _ _ HA p). pose proof (cnt_nonneg l p).
  destruct (Z.eq_dec (cnt l p) 1) as [E'|]; [right; split; [done|by apply HA]|left; lia].
Qed.

(** Giving the pages of a successful [Allocate] back with [Free]
    restores the set of free pages. *)
Theorem allocate_free_roundtrip h m h1 l :
  reachable lo hi h -> 0 < m < 2 ^ 50 -> Allocate h [] m = Some (h1, l, RESULT_SUCCESS) ->
  exists h2, FreePages h1 l m = Some (h2, RESULT_SUCCESS) /\ forall p, free_page h2 p = free_page h p.
Proof using Hlo Hhi Hsz.
  intros Hr Hm. unfold Allocate, FreePages. destruct (Z.eqb_spec m 0); [lia|].
  pose proof (GetBlockIndex_range m ltac:(lia)) as Hx. destruct (Z.ltb_spec (GetBlockIndex m) 0); [lia|].
  destruct (alloc_sizes_spec (Z.to_nat (GetBlockIndex m + 1)) h h [] m (alloc_inv_init h Hr) ltac:(lia) ltac:(lia))
    as (h1' & l1 & m1 & -> & HA & H1 & Hs & _). cbn [mbind option_bind npages] in *.
  destruct (alloc_inv_restore h h1' l1 HA Hr) as (h2 & E2 & _ & Hf). destruct (Z.eqb_spec m1 0).
  - intros [= <- <-]. exists h2. rewrite E2. done.
  - rewrite E2. cbn [mbind option_bind]. discriminate.
Qed.

(** Requests beyond the largest size index [blocks] with -1. *)
Lemma AllocateContinuous_huge h m a : 2 ^ 18 < m -> AllocateContinuous h m a = None.
Proof.
  intros Hm. unfold AllocateContinuous. destruct (Z.eqb_spec m 0); [lia|].
  assert (GetAlignedBlockIndex m a = -1) as ->; [|done]. unfold GetAlignedBlockIndex.
  change (Z.to_nat NumMemoryBlockPageShifts) with 7%nat. set (x := Z.max m a). assert (2 ^ 18 < x) by lia. clearbody x.
  cbn [aligned_index]. repeat match goal with |- context [GetBlockSize ?i / PageSize] =>
    let v := eval vm_compute in (GetBlockSize i / PageSize) in change (GetBlockSize i / PageSize) with v end.
  repeat match goal with |- context [x <=? ?c] => destruct (Z.leb_spec x c); [lia|] end. done.
Qed.
End Manager.

(** ** Witnesses *)

Lemma allocate_exact_witness :
  exists h' l, Allocate sample_heap [] 0x500 = Some (h', l, RESULT_SUCCESS) /\ npages l = 0x500.
Proof.
  destruct (allocate_exact 0x40000 0x41000 ltac:(lia) ltac:(lia) ltac:(lia) sample_heap 0x500 (proj1 sample_heap_ok)
    ltac:(lia)) as (h' & l & Hc & _).
  assert (0x500 <=? free_count 0x40000 0x41000 sample_heap = true) as E by (vm_compute; reflexivity).
  rewrite E in Hc. exists h', l. split; apply Hc.
Defined.

Lemma allocate_free_roundtrip_witness :
  match Allocate sample_heap [] 0x500 with
  | Some (h1, l, _) => exists h2, FreePages h1 l 0x500 = Some (h2, RESULT_SUCCESS)
                                  /\ forall p, free_page h2 p = free_page sample_heap p
  | None => False
  end.
Proof.
  destruct (Allocate sample_heap [] 0x500) as [[[h1 l] r]|] eqn:E; [|vm_compute in E; discriminate].
  apply (allocate_free_roundtrip 0x40000 0x41000 ltac:(lia) ltac:(lia) ltac:(lia) sample_heap 0x500 h1 l
    (proj1 sample_heap_ok)); [lia|].
  rewrite E. do 2 f_equal. vm_compute in E. injection E as _ _ <-. reflexivity.
Defined.
