(* ===== verification/MemoryState.v ===== *)
(** * Memory states, permissions and attributes

    The enumerations of [src/src/core/hle/kernel/memory/memory_block.h] and the
    supervisor-call values they are made of ([svc_types.h]), as the integers of
    their underlying types. *)

From S2P Require Import Prelude.

(** ** [Svc::MemoryState] *)

Definition Svc_MemoryState_Free : Z := 0x00.
Definition Svc_MemoryState_Io : Z := 0x01.
Definition Svc_MemoryState_Static : Z := 0x02.
Definition Svc_MemoryState_Code : Z := 0x03.
Definition Svc_MemoryState_CodeData : Z := 0x04.
Definition Svc_MemoryState_Normal : Z := 0x05.
Definition Svc_MemoryState_Shared : Z := 0x06.
Definition Svc_MemoryState_Alias : Z := 0x07.
Definition Svc_MemoryState_AliasCode : Z := 0x08.
Definition Svc_MemoryState_AliasCodeData : Z := 0x09.
Definition Svc_MemoryState_Ipc : Z := 0x0A.
Definition Svc_MemoryState_Stack : Z := 0x0B.
Definition Svc_MemoryState_ThreadLocal : Z := 0x0C.
Definition Svc_MemoryState_Transfered : Z := 0x0D.
Definition Svc_MemoryState_SharedTransfered : Z := 0x0E.
Definition Svc_MemoryState_SharedCode : Z := 0x0F.
Definition Svc_MemoryState_Inaccessible : Z := 0x10.
Definition Svc_MemoryState_NonSecureIpc : Z := 0x11.
Definition Svc_MemoryState_NonDeviceIpc : Z := 0x12.
Definition Svc_MemoryState_Kernel : Z := 0x13.
Definition Svc_MemoryState_GeneratedCode : Z := 0x14.
Definition Svc_MemoryState_CodeOut : Z := 0x15.

(** ** [MemoryState] *)

Definition MemoryState_None : Z := 0.
Definition MemoryState_Mask : Z := 0xFF.
Definition MemoryState_All : Z := to_u32 (Z.lnot MemoryState_None).
Definition MemoryState_FlagCanReprotect : Z := (1 << 8).
Definition MemoryState_FlagCanDebug : Z := (1 << 9).
Definition MemoryState_FlagCanUseIpc : Z := (1 << 10).
Definition MemoryState_FlagCanUseNonDeviceIpc : Z := (1 << 11).
Definition MemoryState_FlagCanUseNonSecureIpc : Z := (1 << 12).
Definition MemoryState_FlagMapped : Z := (1 << 13).
Definition MemoryState_FlagCode : Z := (1 << 14).
Definition MemoryState_FlagCanAlias : Z := (1 << 15).
Definition MemoryState_FlagCanCodeAlias : Z := (1 << 16).
Definition MemoryState_FlagCanTransfer : Z := (1 << 17).
Definition MemoryState_FlagCanQueryPhysical : Z := (1 << 18).
Definition MemoryState_FlagCanDeviceMap : Z := (1 << 19).
Definition MemoryState_FlagCanAlignedDeviceMap : Z := (1 << 20).
Definition MemoryState_FlagCanIpcUserBuffer : Z := (1 << 21).
Definition MemoryState_FlagReferenceCounted : Z := (1 << 22).
Definition MemoryState_FlagCanMapProcess : Z := (1 << 23).
Definition MemoryState_FlagCanChangeAttribute : Z := (1 << 24).
Definition MemoryState_FlagCanCodeMemory : Z := (1 << 25).
Definition MemoryState_FlagsData : Z :=
  MemoryState_FlagCanReprotect .| MemoryState_FlagCanUseIpc .| MemoryState_FlagCanUseNonDeviceIpc
  .| MemoryState_FlagCanUseNonSecureIpc .| MemoryState_FlagMapped .| MemoryState_FlagCanAlias
  .| MemoryState_FlagCanTransfer .| MemoryState_FlagCanQueryPhysical .| MemoryState_FlagCanDeviceMap
  .| MemoryState_FlagCanAlignedDeviceMap .| MemoryState_FlagCanIpcUserBuffer
  .| MemoryState_FlagReferenceCounted .| MemoryState_FlagCanChangeAttribute.
Definition MemoryState_FlagsCode : Z :=
  MemoryState_FlagCanDebug .| MemoryState_FlagCanUseIpc .| MemoryState_FlagCanUseNonDeviceIpc
  .| MemoryState_FlagCanUseNonSecureIpc .| MemoryState_FlagMapped .| MemoryState_FlagCode
  .| MemoryState_FlagCanQueryPhysical .| MemoryState_FlagCanDeviceMap .| MemoryState_FlagCanAlignedDeviceMap
  .| MemoryState_FlagReferenceCounted.
Definition MemoryState_FlagsMisc : Z :=
  MemoryState_FlagMapped .| MemoryState_FlagReferenceCounted .| MemoryState_FlagCanQueryPhysical
  .| MemoryState_FlagCanDeviceMap.
Definition MemoryState_Free : Z := Svc_MemoryState_Free.
Definition MemoryState_Io : Z := Svc_MemoryState_Io .| MemoryState_FlagMapped.
Definition MemoryState_Static : Z :=
  Svc_MemoryState_Static .| MemoryState_FlagMapped .| MemoryState_FlagCanQueryPhysical.
Definition MemoryState_Code : Z := Svc_MemoryState_Code .| MemoryState_FlagsCode .| MemoryState_FlagCanMapProcess.
Definition MemoryState_CodeData : Z :=
  Svc_MemoryState_CodeData .| MemoryState_FlagsData .| MemoryState_FlagCanMapProcess
  .| MemoryState_FlagCanCodeMemory.
Definition MemoryState_Shared : Z :=
  Svc_MemoryState_Shared .| MemoryState_FlagMapped .| MemoryState_FlagReferenceCounted.
Definition MemoryState_Normal : Z :=
  Svc_MemoryState_Normal .| MemoryState_FlagsData .| MemoryState_FlagCanCodeMemory.
Definition MemoryState_AliasCode : Z :=
  Svc_MemoryState_AliasCode .| MemoryState_FlagsCode .| MemoryState_FlagCanMapProcess
  .| MemoryState_FlagCanCodeAlias.
Definition MemoryState_AliasCodeData : Z :=
  Svc_MemoryState_AliasCodeData .| MemoryState_FlagsData .| MemoryState_FlagCanMapProcess
  .| MemoryState_FlagCanCodeAlias .| MemoryState_FlagCanCodeMemory.
Definition MemoryState_Ipc : Z :=
  Svc_MemoryState_Ipc .| MemoryState_FlagsMisc .| MemoryState_FlagCanAlignedDeviceMap
  .| MemoryState_FlagCanUseIpc .| MemoryState_FlagCanUseNonSecureIpc .| MemoryState_FlagCanUseNonDeviceIpc.
Definition MemoryState_Stack : Z :=
  Svc_MemoryState_Stack .| MemoryState_FlagsMisc .| MemoryState_FlagCanAlignedDeviceMap
  .| MemoryState_FlagCanUseIpc .| MemoryState_FlagCanUseNonSecureIpc .| MemoryState_FlagCanUseNonDeviceIpc.
Definition MemoryState_ThreadLocal : Z :=
  Svc_MemoryState_ThreadLocal .| MemoryState_FlagMapped .| MemoryState_FlagReferenceCounted.
Definition MemoryState_Transfered : Z :=
  Svc_MemoryState_Transfered .| MemoryState_FlagsMisc .| MemoryState_FlagCanAlignedDeviceMap
  .| MemoryState_FlagCanChangeAttribute .| MemoryState_FlagCanUseIpc .| MemoryState_FlagCanUseNonSecureIpc
  .| MemoryState_FlagCanUseNonDeviceIpc.
Definition MemoryState_SharedTransfered : Z :=
  Svc_MemoryState_SharedTransfered .| MemoryState_FlagsMisc .| MemoryState_FlagCanAlignedDeviceMap
  .| MemoryState_FlagCanUseNonSecureIpc .| MemoryState_FlagCanUseNonDeviceIpc.
Definition MemoryState_SharedCode : Z :=
  Svc_MemoryState_SharedCode .| MemoryState_FlagMapped .| MemoryState_FlagReferenceCounted
  .| MemoryState_FlagCanUseNonSecureIpc .| MemoryState_FlagCanUseNonDeviceIpc.
Definition MemoryState_Inaccessible : Z := Svc_MemoryState_Inaccessible.
Definition MemoryState_NonSecureIpc : Z :=
  Svc_MemoryState_NonSecureIpc .| MemoryState_FlagsMisc .| MemoryState_FlagCanAlignedDeviceMap
  .| MemoryState_FlagCanUseNonSecureIpc .| MemoryState_FlagCanUseNonDeviceIpc.
Definition MemoryState_NonDeviceIpc : Z :=
  Svc_MemoryState_NonDeviceIpc .| MemoryState_FlagsMisc .| MemoryState_FlagCanUseNonDeviceIpc.
Definition MemoryState_Kernel : Z := Svc_MemoryState_Kernel .| MemoryState_FlagMapped.
Definition MemoryState_GeneratedCode : Z :=
  Svc_MemoryState_GeneratedCode .| MemoryState_FlagMapped .| MemoryState_FlagReferenceCounted
  .| MemoryState_FlagCanDebug.
Definition MemoryState_CodeOut : Z :=
  Svc_MemoryState_CodeOut .| MemoryState_FlagMapped .| MemoryState_FlagReferenceCounted.

(** The [static_assert]s of the header. *)
Lemma memory_state_values :
  MemoryState_Free = 0x00000000
  /\ MemoryState_Io = 0x00002001
  /\ MemoryState_Static = 0x00042002
  /\ MemoryState_Code = 0x00DC7E03
  /\ MemoryState_CodeData = 0x03FEBD04
  /\ MemoryState_Normal = 0x037EBD05
  /\ MemoryState_Shared = 0x00402006
  /\ MemoryState_AliasCode = 0x00DD7E08
  /\ MemoryState_AliasCodeData = 0x03FFBD09
  /\ MemoryState_Ipc = 0x005C3C0A
  /\ MemoryState_Stack = 0x005C3C0B
  /\ MemoryState_ThreadLocal = 0x0040200C
  /\ MemoryState_Transfered = 0x015C3C0D
  /\ MemoryState_SharedTransfered = 0x005C380E
  /\ MemoryState_SharedCode = 0x0040380F
  /\ MemoryState_Inaccessible = 0x00000010
  /\ MemoryState_NonSecureIpc = 0x005C3811
  /\ MemoryState_NonDeviceIpc = 0x004C2812
  /\ MemoryState_Kernel = 0x00002013
  /\ MemoryState_GeneratedCode = 0x00402214
  /\ MemoryState_CodeOut = 0x00402015.
Proof. repeat split. Qed.

(** ** [MemoryPermission] *)

Definition MemoryPermission_None : Z := 0.
Definition MemoryPermission_Mask : Z := to_u8 (Z.lnot MemoryPermission_None).
Definition MemoryPermission_Read : Z := 1 << 0.
Definition MemoryPermission_Write : Z := 1 << 1.
Definition MemoryPermission_Execute : Z := 1 << 2.
Definition MemoryPermission_ReadAndWrite : Z := MemoryPermission_Read .| MemoryPermission_Write.
Definition MemoryPermission_ReadAndExecute : Z := MemoryPermission_Read .| MemoryPermission_Execute.

(** ** [MemoryAttribute] *)

Definition MemoryAttribute_None : Z := 0.
Definition MemoryAttribute_Mask : Z := 0x7F.
Definition MemoryAttribute_DontCareMask : Z := 0x80.
Definition MemoryAttribute_Locked : Z := 1.
Definition MemoryAttribute_IpcLocked : Z := 2.
Definition MemoryAttribute_DeviceShared : Z := 4.
Definition MemoryAttribute_Uncached : Z := 8.
Definition MemoryAttribute_IpcAndDeviceMapped : Z := MemoryAttribute_IpcLocked .| MemoryAttribute_DeviceShared.
Definition MemoryAttribute_LockedAndIpcLocked : Z := MemoryAttribute_Locked .| MemoryAttribute_IpcLocked.
Definition MemoryAttribute_DeviceSharedAndUncached : Z := MemoryAttribute_DeviceShared .| MemoryAttribute_Uncached.
