(* ===== verification/MemoryBlockManager.v ===== *)
(** * The memory block manager of the kernel

    [Kernel::Memory::MemoryBlockManager]
    ([src/src/core/hle/kernel/memory/memory_block_manager.cpp], with
    [MemoryBlock] of [memory_block.h]): the list of blocks that describes an
    address space.  States, permissions and attributes are the integers of
    their enumerations.  An iterator of [std::list] is the pair of the
    blocks before it and the blocks from it on; dereferencing [end()] is
    undefined and yields [None].  [ASSERT] only logs and is left out. *)

From S2P Require Import Prelude BitUtil PageHeap PageBitmap MemoryState.
From stdpp Require Import base list sets.
Open Scope Z_scope.
Open Scope c_scope.

Module MemoryBlockManager.

(** ** MemoryBlock *)

Record MemoryBlock := {
  addr : Z;
  num_pages : Z;
  state : Z;
  ipc_lock_count : Z;
  device_use_count : Z;
  perm : Z;
  original_perm : Z;
  attribute : Z;
}.

Definition MemoryBlock_new (a n st p at_ : Z) : MemoryBlock :=
  {| addr := a; num_pages := n; state := st; ipc_lock_count := 0; device_use_count := 0;
     perm := p; original_perm := MemoryPermission_None; attribute := at_ |}.

(** The block with another position. *)
Definition at_range (b : MemoryBlock) (a n : Z) : MemoryBlock :=
  {| addr := a; num_pages := n; state := state b; ipc_lock_count := ipc_lock_count b;
     device_use_count := device_use_count b; perm := perm b; original_perm := original_perm b;
     attribute := attribute b |}.

Definition GetSize (b : MemoryBlock) : Z := num_pages b *! PageSize.
Definition GetEndAddress (b : MemoryBlock) : Z := addr b +! GetSize b.
Definition GetLastAddress (b : MemoryBlock) : Z := GetEndAddress b -! 1.

(** [ShareToDevice] and [UnshareToDevice]. *)
Definition ShareToDevice (b : MemoryBlock) : MemoryBlock :=
  {| addr := addr b; num_pages := num_pages b; state := state b; ipc_lock_count := ipc_lock_count b;
     device_use_count := to_u16 (device_use_count b + 1); perm := perm b; original_perm := original_perm b;
     attribute := attribute b .| MemoryAttribute_DeviceShared |}.
Definition UnshareToDevice (b : MemoryBlock) : MemoryBlock :=
  {| addr := addr b; num_pages := num_pages b; state := state b; ipc_lock_count := ipc_lock_count b;
     device_use_count := to_u16 (device_use_count b - 1); perm := perm b; original_perm := original_perm b;
     attribute := if device_use_count b =? 1 then attribute b .& to_u8 (Z.lnot MemoryAttribute_DeviceShared)
                  else attribute b |}.

Definition AttributeIgnoreMask : Z :=
  MemoryAttribute_DontCareMask .| MemoryAttribute_IpcLocked .| MemoryAttribute_DeviceShared.

Definition HasProperties (b : MemoryBlock) (s p a : Z) : bool :=
  (state b =? s) && (perm b =? p) && (attribute b .| AttributeIgnoreMask =? a .| AttributeIgnoreMask).

Definition HasSameProperties (b rhs : MemoryBlock) : bool :=
  (state b =? state rhs) && (perm b =? perm rhs) && (original_perm b =? original_perm rhs)
  && (attribute b =? attribute rhs) && (ipc_lock_count b =? ipc_lock_count rhs)
  && (device_use_count b =? device_use_count rhs).

Definition Add (b : MemoryBlock) (count : Z) : MemoryBlock := at_range b (addr b) (num_pages b +! count).

(** [MemoryBlock::Update]. *)
Definition UpdateBlock (new_state new_perm new_attribute : Z) (b : MemoryBlock) : MemoryBlock :=
  {| addr := addr b; num_pages := num_pages b; state := new_state; ipc_lock_count := ipc_lock_count b;
     device_use_count := device_use_count b; perm := new_perm; original_perm := original_perm b;
     attribute := new_attribute
                  .| (attribute b .& (MemoryAttribute_IpcLocked .| MemoryAttribute_DeviceShared)) |}.

(** [Split]: the block returned, and the rest that stays in place. *)
Definition Split (b : MemoryBlock) (split_addr : Z) : MemoryBlock * MemoryBlock :=
  let n := (split_addr -! addr b) / PageSize in
  (at_range b (addr b) n, at_range b split_addr (num_pages b -! n)).

(** ** MemoryBlockManager *)

Definition MemoryBlockTree : Type := list MemoryBlock.

Definition MemoryBlockManager_new (start_addr end_addr : Z) : MemoryBlockTree :=
  [MemoryBlock_new start_addr ((end_addr -! start_addr) / PageSize) MemoryState_Free MemoryPermission_None
     MemoryAttribute_None].

(** [MergeAdjacent(it, next_it)]: [pre] are the blocks before [it], [mid] those
    between [it] and [next_it] (none or one), [rest] those from [next_it] on.
    The result is the blocks before [next_it] and those from it on. *)
Definition MergeAdjacent (pre : list MemoryBlock) (it : MemoryBlock) (mid rest : list MemoryBlock)
    : option (list MemoryBlock * list MemoryBlock) :=
  let '(pre, block) :=
    match last pre with
    | Some prev =>
        if HasSameProperties it prev then (removelast pre, Add prev (num_pages it)) else (pre, it)
    | None => (pre, it)
    end in
  match mid, rest with
  | next :: mid, _ =>
      if HasSameProperties block next then Some (pre ++ [Add block (num_pages next)] ++ mid, rest)
      else Some (pre ++ [block] ++ next :: mid, rest)
  | [], next :: rest' =>
      if HasSameProperties block next then Some (pre ++ [Add block (num_pages next)], rest')
      else Some (pre ++ [block], rest)
  | [], [] => None
  end.

(** The two splits of the loops below: the part of the block before the range,
    the part in it and the part after it. *)
Definition carve (block : MemoryBlock) (addr_ end_addr cur_addr cur_end_addr : Z)
    : list MemoryBlock * MemoryBlock * list MemoryBlock :=
  let '(before, block) :=
    if cur_addr <? addr_ then let '(l, b) := Split block addr_ in ([l], b) else ([], block) in
  let '(new_node, mid) :=
    if end_addr <? cur_end_addr then let '(m, b) := Split block end_addr in (m, [b]) else (block, []) in
  (before, new_node, mid).

(** The loop shared by the two [Update] and [UpdateLock]: [pre] are the blocks
    before [node], [todo] those from it on.  [matches] is the test on the
    block ([continue] when it fails), [func] what is applied to the part of
    the block in the range. *)
Fixpoint update_loop (fuel : nat) (matches : MemoryBlock -> bool) (func : MemoryBlock -> MemoryBlock)
    (addr_ end_addr : Z) (pre todo : list MemoryBlock) : option MemoryBlockTree :=
  match todo with
  | [] => Some pre
  | block :: rest =>
      match fuel with
      | O => None
      | S fuel =>
          let cur_addr := addr block in
          let cur_end_addr := num_pages block *! PageSize +! cur_addr in
          if (addr_ <? cur_end_addr) && (cur_addr <? end_addr) then
            if negb (matches block) then update_loop fuel matches func addr_ end_addr (pre ++ [block]) rest
            else
              let '(before, new_node, mid) := carve block addr_ end_addr cur_addr cur_end_addr in
              '(pre, rest) ← MergeAdjacent (pre ++ before) (func new_node) mid rest;
              if end_addr -! 1 <=? cur_end_addr -! 1 then Some (pre ++ rest)
              else update_loop fuel matches func addr_ end_addr pre rest
          else if end_addr -! 1 <=? cur_end_addr -! 1 then Some (pre ++ block :: rest)
          else update_loop fuel matches func addr_ end_addr (pre ++ [block]) rest
      end
  end.

(** [Update] with the previous properties, [Update] without, and [UpdateLock],
    whose [lock_func] is applied to its permission argument already. *)
Definition UpdateIf (t : MemoryBlockTree) (addr_ pages prev_state prev_perm prev_attribute new_state new_perm
    new_attribute : Z) : option MemoryBlockTree :=
  update_loop (length t)
    (fun b => HasProperties b prev_state prev_perm (prev_attribute .| MemoryAttribute_IpcAndDeviceMapped))
    (UpdateBlock new_state new_perm new_attribute) addr_ (addr_ +! pages *! PageSize) [] t.
Definition Update (t : MemoryBlockTree) (addr_ pages new_state new_perm new_attribute : Z) : option MemoryBlockTree :=
  update_loop (length t) (fun _ => true) (UpdateBlock new_state new_perm new_attribute)
    addr_ (addr_ +! pages *! PageSize) [] t.
Definition UpdateLock (t : MemoryBlockTree) (addr_ pages : Z) (lock_func : MemoryBlock -> MemoryBlock)
    : option MemoryBlockTree :=
  update_loop (length t) (fun _ => true) lock_func addr_ (addr_ +! pages *! PageSize) [] t.

(** [FindIterator]: the blocks from the one that holds [a] on. *)
Fixpoint FindIterator (t : MemoryBlockTree) (a : Z) : MemoryBlockTree :=
  match t with
  | [] => []
  | node :: t' =>
      let end_addr := num_pages node *! PageSize +! addr node in
      if (addr node <=? a) && (a <=? end_addr -! 1) then t else FindIterator t' a
  end.

(** The loop of [FindFreeArea]. *)
Fixpoint find_area (t : MemoryBlockTree) (region_start region_last pages align offset guard_pages : Z) : Z :=
  match t with
  | [] => 0
  | info :: t =>
      if region_last <? addr info then 0
      else if negb (state info =? MemoryState_Free) then
        find_area t region_start region_last pages align offset guard_pages
      else
        let area := if addr info <=? region_start then region_start else addr info in
        let area := area +! guard_pages *! PageSize in
        let offset_area := AlignDown area align +! offset in
        let area := if area <=? offset_area then offset_area else offset_area +! align in
        let area_end := area +! pages *! PageSize +! guard_pages *! PageSize in
        let area_last := area_end -! 1 in
        if (addr info <=? area) && (area <? area_last) && (area_last <=? region_last)
           && (area_last <=? GetLastAddress info)
        then area
        else find_area t region_start region_last pages align offset guard_pages
  end.

Definition FindFreeArea (t : MemoryBlockTree) (region_start region_num_pages pages align offset guard_pages : Z) : Z :=
  if pages =? 0 then 0
  else
    let region_end := region_start +! region_num_pages *! PageSize in
    let region_last := region_end -! 1 in
    find_area (FindIterator t region_start) region_start region_last pages align offset guard_pages.

(** [IterateForRange]: the blocks passed to the callback. *)
Fixpoint iterate_from (t : MemoryBlockTree) (end_ : Z) : list MemoryBlock :=
  match t with
  | [] => []
  | info :: t => info :: (if addr info +! GetSize info -! 1 <? end_ -! 1 then iterate_from t end_ else [])
  end.
Definition IterateForRange (t : MemoryBlockTree) (start end_ : Z) : option (list MemoryBlock) :=
  match FindIterator t start with
  | [] => None
  | t => Some (iterate_from t end_)
  end.

End MemoryBlockManager.
Export MemoryBlockManager.

(** Sharing page 1 and then pages 0 and 1 leaves page 1 with a use count of
    1: the block of page 0 is merged with it and the loop steps over it. *)
Example share_twice :
  let t := MemoryBlockManager_new 0 0x10000 in
  match UpdateLock t 0x1000 1 ShareToDevice with
  | Some t =>
      match UpdateLock t 0 2 ShareToDevice with
      | Some t => map (fun b => (addr b, num_pages b, device_use_count b)) t = [(0, 2, 1); (0x2000, 14, 0)]
      | None => False
      end
  | None => False
  end.
Proof. vm_compute. reflexivity. Qed.

(** An update that reaches the end of the address space dereferences
    [end()]. *)
Example update_to_the_end :
  Update (MemoryBlockManager_new 0 0x10000) 0x8000 8 1 3 0 = None.
Proof. reflexivity. Qed.
