(* ===== verification/MemoryBlockCorrect.v ===== *)
(** * The memory block manager is a map from pages to their properties

    A tree of blocks is read as the sequence of the properties of its pages
    ([pages]).  Well-formed trees tile the address space with non-empty
    blocks whose neighbours differ, so each sequence has one tree.  The two
    [Update] change exactly the pages of the range, and [FindFreeArea] finds
    the lowest free area. *)

From S2P Require Import Prelude BitUtil PageHeap PageBitmap MemoryState MemoryBlockManager.
From stdpp Require Import base list sets.
Import MemoryBlockManager.MemoryBlockManager.
Open Scope Z_scope.
Open Scope c_scope.

(** ** Trees as sequences of pages *)

(** What a block says of each of its pages. *)
Definition page_info (b : MemoryBlock) : MemoryBlock := at_range b 0 0.

Definition block_pages (b : MemoryBlock) : list MemoryBlock := repeat (page_info b) (Z.to_nat (num_pages b)).
Definition pages (t : MemoryBlockTree) : list MemoryBlock := concat (map block_pages t).

(** The blocks cover [s, e) in order, without gaps. *)
Fixpoint tiles (s : Z) (t : MemoryBlockTree) (e : Z) : Prop :=
  match t with
  | [] => s = e
  | b :: t => addr b = s /\ 0 < num_pages b /\ tiles (s + num_pages b * 4096) t e
  end.

Fixpoint no_repeat (l : list MemoryBlock) : Prop :=
  match l with
  | x :: ((y :: _) as l') => x <> y /\ no_repeat l'
  | _ => True
  end.

(** Neighbours differ. *)
Definition merged (t : MemoryBlockTree) : Prop := no_repeat (map page_info t).

Record block_tree (s e : Z) (t : MemoryBlockTree) : Prop := {
  bt_tiles : tiles s t e;
  bt_merged : merged t;
  bt_start : 0 <= s;
  bt_aligned : (4096 | s);
  bt_end : e < 2 ^ 64;
}.

Lemma same_properties_iff b c : HasSameProperties b c = true <-> page_info b = page_info c.
Proof.
  unfold HasSameProperties, page_info, at_range. rewrite !andb_true_iff, !Z.eqb_eq.
  split; [intros [[[[[-> ->] ->] ->] ->] ->]; done | intros [=]; auto 10].
Qed.

Lemma pages_app t1 t2 : pages (t1 ++ t2) = pages t1 ++ pages t2.
Proof. unfold pages. rewrite map_app, concat_app. done. Qed.
Lemma pages_one b : pages [b] = block_pages b.
Proof. unfold pages. cbn. apply app_nil_r. Qed.
Lemma block_pages_split b a1 n1 a2 n2 : 0 <= n1 -> 0 <= n2 -> n1 + n2 = num_pages b ->
  block_pages b = block_pages (at_range b a1 n1) ++ block_pages (at_range b a2 n2).
Proof. intros. unfold block_pages. cbn [num_pages at_range]. rewrite <- repeat_app. f_equal. lia. Qed.

Lemma tiles_app t1 t2 s e : tiles s (t1 ++ t2) e <-> exists c, tiles s t1 c /\ tiles c t2 e.
Proof.
  revert s. induction t1 as [|b t1 IH]; intros s; cbn [tiles app].
  - split; [eauto|intros (c & -> & H); exact H].
  - rewrite IH. split; [intros (H1 & H2 & c & H3 & H4); eauto|intros (c & (H1 & H2 & H3) & H4); eauto].
Qed.
Lemma tiles_bound t s e : tiles s t e -> s <= e /\ (t <> [] -> s < e).
Proof.
  revert s. induction t as [|b t IH]; cbn [tiles]; intros s; [intros ->; split; [lia|done]|].
  intros (_ & H1 & H2). apply IH in H2 as [H2 _]. split; intros; lia.
Qed.
Lemma tiles_pages t s e : tiles s t e -> Z.of_nat (length (pages t)) * 4096 = e - s.
Proof.
  revert s. induction t as [|b t IH]; cbn [tiles]; intros s; [intros ->; cbn; lia|].
  intros (_ & H1 & H2). apply IH in H2. change (b :: t) with ([b] ++ t).
  rewrite pages_app, length_app, pages_one. unfold block_pages. rewrite repeat_length. lia.
Qed.

Lemma no_repeat_join l1 x l2 : no_repeat (l1 ++ [x]) -> no_repeat (x :: l2) -> no_repeat (l1 ++ x :: l2).
Proof.
  induction l1 as [|y [|z l1] IH]; cbn; intros H1 H2; [done| |].
  - destruct H1. done.
  - destruct H1 as [H1 H3]. split; [done|]. apply IH; done.
Qed.
Lemma no_repeat_app l1 l2 : no_repeat (l1 ++ l2) -> no_repeat l1 /\ no_repeat l2.
Proof.
  induction l1 as [|y [|z l1] IH]; cbn; intros H; [done| |].
  - destruct l2; naive_solver.
  - destruct H as [H1 H2]. apply IH in H2. naive_solver.
Qed.
Lemma no_repeat_snoc l y x : no_repeat (l ++ [y]) -> y <> x -> no_repeat (l ++ [y; x]).
Proof. intros H1 H2. apply no_repeat_join; [done|cbn; done]. Qed.
Lemma no_repeat_cons x l : no_repeat l -> match l with y :: _ => x <> y | [] => True end -> no_repeat (x :: l).
Proof. destruct l; cbn; auto. Qed.

Lemma no_repeat_around pre block rest : no_repeat (map page_info (pre ++ block :: rest)) ->
  no_repeat (map page_info (pre ++ [block])) /\ no_repeat (map page_info (block :: rest)).
Proof.
  rewrite !map_app. cbn [map]. intros H. split; [|apply no_repeat_app in H; tauto].
  change (page_info block :: map page_info rest) with ([page_info block] ++ map page_info rest) in H.
  rewrite app_assoc in H. apply no_repeat_app in H. tauto.
Qed.

(** [Add] and the merges keep the properties. *)
Lemma page_info_at b a n : page_info (at_range b a n) = page_info b.
Proof. done. Qed.

(** ** MergeAdjacent *)

Lemma merge_two s b c e rest : tiles s (b :: c :: rest) e -> 0 <= s -> e < 2 ^ 64 ->
  page_info b = page_info c ->
  tiles s (Add b (num_pages c) :: rest) e /\ block_pages (Add b (num_pages c)) = block_pages b ++ block_pages c
  /\ page_info (Add b (num_pages c)) = page_info b.
Proof.
  intros (H1 & H2 & H3 & H4 & H5) Hs He Hi. pose proof (tiles_bound _ _ _ H5) as [Hb _].
  unfold Add. rewrite to_u64_id by (unfold is_u64; lia). split; [|split; [|done]].
  - cbn [tiles at_range addr num_pages]. split_and!; [done|lia|].
    replace (s + (num_pages b + num_pages c) * 4096) with (s + num_pages b * 4096 + num_pages c * 4096) by lia. done.
  - unfold block_pages. cbn [at_range num_pages]. rewrite page_info_at, <- Hi, <- repeat_app. f_equal. lia.
Qed.

(** Merging the block with the one before it. *)
Lemma merge_prev s pre it e rest : tiles s (pre ++ it :: rest) e -> 0 <= s -> e < 2 ^ 64 ->
  no_repeat (map page_info pre) ->
  exists pre' block,
    match last pre with
    | Some prev =>
        if HasSameProperties it prev then (removelast pre, Add prev (num_pages it)) else (pre, it)
    | None => (pre, it)
    end = (pre', block)
    /\ tiles s (pre' ++ block :: rest) e /\ pages (pre' ++ [block]) = pages (pre ++ [it])
    /\ page_info block = page_info it /\ no_repeat (map page_info (pre' ++ [block])).
Proof.
  intros Ht Hs He Hn. destruct (decide (pre = [])) as [->|Hne]; [exists [], it; done|].
  destruct (exists_last Hne) as (l & prev & ->). rewrite last_snoc, removelast_last.
  destruct (HasSameProperties it prev) eqn:E.
  - apply same_properties_iff in E. exists l, (Add prev (num_pages it)).
    rewrite <- app_assoc in Ht. cbn [app] in Ht. apply tiles_app in Ht as (c & H1 & H2).
    pose proof (tiles_bound _ _ _ H1) as [Hb _].
    edestruct (merge_two c prev it e rest) as (H3 & H4 & H5); [done|lia|done|done|].
    split; [done|]. split; [apply tiles_app; eauto|]. split; [|split; [congruence|]].
    + rewrite !pages_app, !pages_one, H4, app_assoc. done.
    + rewrite map_app in *. cbn [map] in *. rewrite H5. done.
  - exists (l ++ [prev]), it. split_and!; [done|done|done|done|].
    rewrite !map_app in *. cbn [map] in *. rewrite <- app_assoc. apply no_repeat_snoc; [done|].
    intros H. enough (HasSameProperties it prev = true) by congruence. apply same_properties_iff. done.
Qed.

(** What [MergeAdjacent] leaves: the block that starts the rest is gone when it
    has the properties of the block. *)
Record merge_result (s e : Z) (pre : list MemoryBlock) (it : MemoryBlock) (mid rest pre' skipped rest' : list MemoryBlock)
    : Prop := {
  mr_tiles : tiles s (pre' ++ rest') e;
  mr_pages : pages pre' = pages (pre ++ [it] ++ mid ++ skipped);
  mr_merged : no_repeat (map page_info (pre' ++ rest'));
  mr_rest : rest = skipped ++ rest';
  mr_skipped : Forall (fun b => page_info b = page_info it) skipped;
}.

Lemma MergeAdjacent_spec s e pre it mid rest :
  tiles s (pre ++ it :: mid ++ rest) e -> 0 <= s -> e < 2 ^ 64 -> mid ++ rest <> [] ->
  no_repeat (map page_info pre) -> no_repeat (map page_info (mid ++ rest)) ->
  exists pre' skipped rest', MergeAdjacent pre it mid rest = Some (pre', rest')
    /\ merge_result s e pre it mid rest pre' skipped rest'.
Proof.
  intros Ht Hs He Hne Hn1 Hn2. unfold MergeAdjacent.
  destruct (merge_prev s pre it e (mid ++ rest)) as (p & block & -> & H1 & H2 & H3 & H4); [done..|].
  assert (forall next l, tiles s (p ++ block :: next :: l) e -> HasSameProperties block next = true ->
    no_repeat (map page_info (next :: l)) ->
    tiles s (p ++ Add block (num_pages next) :: l) e
    /\ pages (p ++ [Add block (num_pages next)]) = pages (pre ++ [it; next])
    /\ no_repeat (map page_info (p ++ Add block (num_pages next) :: l))) as Hm.
  { intros next l Hp HE Hl. apply same_properties_iff in HE. apply tiles_app in Hp as (c & K1 & K2).
    pose proof (tiles_bound _ _ _ K1) as [Hb _].
    destruct (merge_two c block next e l) as (K3 & K4 & K5); [done|lia|done|done|].
    split; [apply tiles_app; eauto|]. split.
    - rewrite pages_app, pages_one, K4, <- pages_one, app_assoc, <- pages_app, H2.
      rewrite <- (pages_one next), <- pages_app, <- app_assoc. done.
    - rewrite map_app in *. cbn [map] in *. rewrite K5. apply no_repeat_join; [done|congruence]. }
  assert (forall next l, HasSameProperties block next = false -> no_repeat (map page_info (next :: l)) ->
    no_repeat (map page_info (p ++ block :: next :: l))) as Hd.
  { intros next l HE Hl. rewrite map_app in *. cbn [map] in *. apply no_repeat_join; [done|].
    apply no_repeat_cons; [done|]. intros H. apply same_properties_iff in H. congruence. }
  destruct mid as [|next mid]; [destruct rest as [|next rest]; [done|]|]; destruct (HasSameProperties block next) eqn:E.
  - destruct (Hm next rest) as (K1 & K2 & K3); [done..|]. exists (p ++ [Add block (num_pages next)]), [next], rest.
    split; [done|]. split; rewrite <- ?app_assoc; [done|done|done|done|].
    constructor; [|done]. apply same_properties_iff in E. congruence.
  - exists (p ++ [block]), [], (next :: rest).
    split; [done|]. split; rewrite <- ?app_assoc; [done|done|apply Hd; done|done|constructor].
  - destruct (Hm next (mid ++ rest)) as (K1 & K2 & K3); [done..|].
    exists (p ++ [Add block (num_pages next)] ++ mid), [], rest.
    split; [done|]. split; rewrite <- ?app_assoc; [done| |done|done|constructor].
    rewrite app_assoc, pages_app, K2, <- pages_app, <- app_assoc, app_nil_r. done.
  - exists (p ++ [block] ++ next :: mid), [], rest.
    split; [done|]. split; rewrite <- ?app_assoc; [done| |apply Hd; done|done|constructor].
    rewrite app_assoc, pages_app, H2, <- pages_app, <- app_assoc, app_nil_r. done.
Qed.

(** ** The update loop *)

Lemma carve_spec block a e c :
  addr block = c -> 0 < num_pages block -> 0 <= c -> c + num_pages block * 4096 < 2 ^ 64 ->
  (4096 | c) -> (4096 | a) -> (4096 | e) -> a < e -> a < c + num_pages block * 4096 -> c < e ->
  exists before new_node mid,
    carve block a e c (c + num_pages block * 4096) = (before, new_node, mid)
    /\ tiles c (before ++ new_node :: mid) (c + num_pages block * 4096)
    /\ pages (before ++ new_node :: mid) = block_pages block
    /\ Forall (fun b => page_info b = page_info block) (before ++ new_node :: mid)
    /\ addr new_node = Z.max c a /\ Z.max c a + num_pages new_node * 4096 = Z.min e (c + num_pages block * 4096)
    /\ (before = [] \/ exists b, before = [b]) /\ (mid = [] \/ exists b, mid = [b]) /\ (mid = [] -> c + num_pages block * 4096 <= e).
Proof.
  intros Ha Hn Hc Hb [cq ->] [aq ->] [eq ->] Hae H1 H2. unfold carve, Split. rewrite Ha.
  set (n := num_pages block) in *. unfold PageSize.
  assert (forall x y, 0 <= y <= x -> x < 2 ^ 52 -> (x * 4096 -! y * 4096) / 4096 = x - y) as Hd.
  { intros x y ? ?. rewrite to_u64_id by (unfold is_u64; lia). rewrite <- Z.mul_sub_distr_r. apply Z.div_mul. lia. }
  destruct (Z.ltb_spec (cq * 4096) (aq * 4096)) as [Hl|Hl]; destruct (Z.ltb_spec (eq * 4096) (cq * 4096 + n * 4096)) as [He|He];
    cbn [addr at_range num_pages]; change (num_pages block) with n; rewrite ?Ha, ?Hd by lia;
    rewrite ?(to_u64_id (n - (aq - cq))), ?(to_u64_id (n - (eq - cq))), ?(to_u64_id (n - (aq - cq) - (eq - aq)))
      by (unfold is_u64; lia);
    do 3 eexists; (split; [reflexivity|]); cbn [app tiles addr at_range num_pages].
  all: split_and!; try lia; try done; try (by left); try (by right; eauto); try (by repeat constructor);
    unfold pages; cbn [map concat]; rewrite ?app_nil_r; try done.
  - rewrite (block_pages_split block (cq * 4096) (aq - cq) (aq * 4096) (n - (aq - cq))) by lia. f_equal.
    rewrite (block_pages_split (at_range block (aq * 4096) (n - (aq - cq))) (aq * 4096) (eq - aq) (eq * 4096)
      (n - (aq - cq) - (eq - aq))) by (cbn [num_pages at_range]; lia). done.
  - rewrite (block_pages_split block (cq * 4096) (aq - cq) (aq * 4096) (n - (aq - cq))) by lia. done.
  - rewrite (block_pages_split block (cq * 4096) (eq - cq) (eq * 4096) (n - (eq - cq))) by lia. done.
Qed.

Lemma end_addr_id n c : 0 <= c -> 0 <= n -> c + n * 4096 < 2 ^ 64 -> n *! PageSize +! c = c + n * 4096.
Proof. intros. change PageSize with 4096. rewrite (to_u64_id (n * 4096)), to_u64_id by (unfold is_u64; lia). lia. Qed.

(** An operation on blocks that only looks at and changes the properties, and
    that is the identity on what it has changed. *)
Class PageUpdate (matches : MemoryBlock -> bool) (func : MemoryBlock -> MemoryBlock) : Prop := {
  pu_matches : forall b a n, matches (at_range b a n) = matches b;
  pu_func : forall b a n, func (at_range b a n) = at_range (func b) a n;
  pu_idem : forall b, func (func b) = func b;
}.

Section UpdateLoop.
Context (matches : MemoryBlock -> bool) (func : MemoryBlock -> MemoryBlock) `{!PageUpdate matches func}.
Context (a e : Z).

(** The pages of a list that starts at [pos], after the update. *)
Definition update_page (pos : Z) (x : MemoryBlock) : MemoryBlock :=
  if (a <=? pos) && (pos <? e) && matches x then func x else x.
Fixpoint update_pages (pos : Z) (l : list MemoryBlock) : list MemoryBlock :=
  match l with
  | [] => []
  | x :: l => update_page pos x :: update_pages (pos + 4096) l
  end.

Lemma update_pages_app l1 l2 pos :
  update_pages pos (l1 ++ l2) = update_pages pos l1 ++ update_pages (pos + Z.of_nat (length l1) * 4096) l2.
Proof.
  revert pos. induction l1 as [|x l1 IH]; intros pos; cbn [app update_pages length].
  - f_equal. lia.
  - rewrite IH. do 3 f_equal. lia.
Qed.
Lemma update_pages_tiles t1 t2 s c : tiles s t1 c ->
  update_pages s (pages (t1 ++ t2)) = update_pages s (pages t1) ++ update_pages c (pages t2).
Proof. intros H. apply tiles_pages in H. rewrite pages_app, update_pages_app. do 2 f_equal. lia. Qed.

(** Pages out of the range, or that the update keeps. *)
Lemma update_pages_id pos l :
  (forall i x, (i < length l)%nat -> x ∈ l -> a <= pos + Z.of_nat i * 4096 < e -> matches x = true -> func x = x) ->
  update_pages pos l = l.
Proof.
  revert pos. induction l as [|x l IH]; intros pos H; cbn [update_pages]; [done|]. f_equal.
  - unfold update_page. destruct (Z.leb_spec a pos), (Z.ltb_spec pos e), (matches x) eqn:E; cbn [andb]; try done.
    apply (H O); [cbn; lia|left|lia|done].
  - apply IH. intros i y Hi Hy Hr. apply (H (S i)); [cbn; lia|right; done|lia].
Qed.
Lemma update_pages_after pos l : e <= pos -> update_pages pos l = l.
Proof. intros. apply update_pages_id. intros; lia. Qed.
Lemma update_pages_before s t c : tiles s t c -> c <= a -> update_pages s (pages t) = pages t.
Proof. intros Ht Hc. apply tiles_pages in Ht. apply update_pages_id. intros; lia. Qed.
Lemma matches_info b c : page_info b = page_info c -> matches b = matches c.
Proof.
  intros H. transitivity (matches (page_info b)); [symmetry; apply pu_matches|]. rewrite H. apply pu_matches.
Qed.
Lemma func_addr b : addr (func b) = addr b.
Proof. replace b with (at_range b (addr b) (num_pages b)) at 1 by (destruct b; done). rewrite pu_func. done. Qed.
Lemma func_num_pages b : num_pages (func b) = num_pages b.
Proof. replace b with (at_range b (addr b) (num_pages b)) at 1 by (destruct b; done). rewrite pu_func. done. Qed.
Lemma update_pages_in pos b : matches b = true -> a <= pos -> pos + num_pages b * 4096 <= e ->
  update_pages pos (block_pages b) = block_pages (func b).
Proof.
  intros Hm Ha He. rewrite <- (pu_matches b 0 0) in Hm. unfold block_pages. rewrite func_num_pages.
  replace (page_info (func b)) with (func (page_info b)) by apply pu_func.
  assert (pos + Z.of_nat (Z.to_nat (num_pages b)) * 4096 <= e \/ Z.to_nat (num_pages b) = O) as H by lia. clear He.
  revert pos Ha H. induction (Z.to_nat (num_pages b)) as [|n IH]; intros pos Ha H; [done|].
  cbn [repeat update_pages]. f_equal; [|apply IH; lia].
  unfold update_page. change (at_range b 0 0) with (page_info b) in Hm. rewrite Hm.
  destruct (Z.leb_spec a pos), (Z.ltb_spec pos e); [done|lia..].
Qed.
Lemma update_pages_done pos t : (exists b, Forall (fun c => page_info c = page_info (func b)) t) ->
  update_pages pos (pages t) = pages t.
Proof.
  intros [b H]. apply update_pages_id. intros _ x _ Hx _ _.
  unfold pages in Hx. apply list_elem_of_In, in_concat in Hx as (l & Hl & Hx).
  apply in_map_iff in Hl as (c & <- & Hc). apply repeat_spec in Hx. subst x.
  rewrite Forall_forall in H. rewrite H by (apply list_elem_of_In; done).
  unfold page_info. rewrite <- pu_func, pu_idem. done.
Qed.

(** The pages of the block that meets the range. *)
Lemma carved_pages c before new_node mid ce :
  tiles c (before ++ new_node :: mid) ce -> matches new_node = true -> addr new_node = Z.max c a ->
  Z.max c a + num_pages new_node * 4096 = Z.min e ce -> (before = [] \/ c < a) -> (mid = [] \/ e < ce) ->
  update_pages c (pages (before ++ new_node :: mid)) = pages (before ++ func new_node :: mid).
Proof.
  intros Ht Hm Ha He Hb Hmid. apply tiles_app in Ht as (c1 & H1 & H2 & H3 & H4).
  rewrite (update_pages_tiles _ _ _ c1) by done. rewrite pages_app. f_equal.
  - pose proof (tiles_bound _ _ _ H1) as [? ?]. destruct Hb as [->|Hb]; [done|].
    apply (update_pages_before _ _ c1); [done|lia].
  - change (new_node :: mid) with ([new_node] ++ mid). change (func new_node :: mid) with ([func new_node] ++ mid).
    rewrite (update_pages_tiles _ _ _ (c1 + num_pages new_node * 4096)) by (cbn; lia).
    rewrite pages_app, !pages_one, update_pages_in by (done || lia). f_equal.
    destruct Hmid as [->|Hmid]; [done|]. apply update_pages_after. lia.
Qed.

(** What one iteration on a block of the range does: the blocks before the
    next node now hold the updated pages and those of the block skipped. *)
Record update_result (s E c : Z) (pre : list MemoryBlock) (block : MemoryBlock) (rest pre' skipped rest' : list MemoryBlock)
    : Prop := {
  ur_tiles : tiles s (pre' ++ rest') E;
  ur_pages : pages pre' = pages pre ++ update_pages c (pages [block]) ++ pages skipped;
  ur_merged : merged (pre' ++ rest');
  ur_rest : rest = skipped ++ rest';
  ur_skipped : exists b, Forall (fun x => page_info x = page_info (func b)) skipped;
}.

Lemma update_block_spec s E pre block rest c :
  tiles s pre c -> tiles c (block :: rest) E -> no_repeat (map page_info (pre ++ block :: rest)) ->
  0 <= s -> E < 2 ^ 64 -> (4096 | c) -> (4096 | a) -> (4096 | e) -> a < e < E ->
  a < c + num_pages block * 4096 -> c < e -> matches block = true ->
  exists before new_node mid pre' skipped rest',
    carve block a e c (c + num_pages block * 4096) = (before, new_node, mid)
    /\ MergeAdjacent (pre ++ before) (func new_node) mid rest = Some (pre', rest')
    /\ update_result s E c pre block rest pre' skipped rest'.
Proof.
  intros Hpre (H1 & H2 & H3) Hn Hs HE Hc Ha He Hae Q1 Q2 Em.
  pose proof (tiles_bound _ _ _ Hpre) as [Hb _]. pose proof (tiles_bound _ _ _ H3) as [Hb3 Hb3'].
  destruct (carve_spec block a e c) as (before & new_node & mid & Ec & C1 & C2 & C3 & C4 & C5 & C6 & C7 & C8);
    try done; try lia.
  rewrite Ec. set (ce := c + num_pages block * 4096) in *.
  apply Forall_app in C3 as [C3 C3']. apply Forall_cons in C3' as [C3' C3''].
  pose proof (carved_pages c before new_node mid ce C1) as Hcp. rewrite C2, <- pages_one in Hcp.
  destruct (MergeAdjacent_spec s E (pre ++ before) (func new_node) mid rest) as (pre' & sk & rest' & EM & M); try done.
  - rewrite <- app_assoc. apply tiles_app. exists c. split; [done|]. change (func new_node :: mid ++ rest) with
      ((func new_node :: mid) ++ rest). rewrite app_assoc. apply tiles_app. exists ce. split; [|done].
    apply tiles_app in C1 as (c1 & K1 & K2). apply tiles_app. exists c1. split; [done|].
    cbn [tiles] in *. rewrite func_addr, func_num_pages. done.
  - intros [-> ->]%app_eq_nil. specialize (C8 eq_refl). cbn [tiles] in H3. lia.
  - destruct (no_repeat_around _ _ _ Hn) as [Hn1 _].
    destruct C6 as [->|(b & ->)]; [rewrite app_nil_r; rewrite map_app in Hn1; apply no_repeat_app in Hn1; tauto|].
    apply Forall_inv in C3. rewrite map_app in *. cbn [map] in *. rewrite C3. done.
  - destruct (no_repeat_around _ _ _ Hn) as [_ Hn1].
    destruct C7 as [->|(b & ->)]; [apply (no_repeat_app [page_info block]); done|].
    apply Forall_inv in C3''. cbn [app map]. rewrite C3''. done.
  - destruct M as [M1 M2 M3 M4 M5]. exists before, new_node, mid, pre', sk, rest'.
    split_and!; [done..|]. split; [done| |done|done|eauto].
    rewrite M2, Hcp, !pages_app, <- !app_assoc.
    + do 2 f_equal. change (func new_node :: mid) with ([func new_node] ++ mid). rewrite pages_app, <- app_assoc. done.
    + rewrite <- Em. apply matches_info. done.
    + done.
    + done.
    + destruct before as [|b before]; [by left|right]. apply tiles_app in C1 as (c1 & K1 & K2 & _).
      apply tiles_bound in K1 as [_ K1]. specialize (K1 ltac:(done)). lia.
    + destruct mid as [|b mid]; [by left|right]. apply tiles_app in C1 as (c1 & K1 & K2 & _ & K3).
      apply tiles_bound in K3 as [_ K3]. specialize (K3 ltac:(done)). lia.
Qed.

Lemma update_loop_spec s E fuel : forall pre todo c,
  (length todo <= fuel)%nat -> tiles s pre c -> tiles c todo E -> no_repeat (map page_info (pre ++ todo)) ->
  0 <= s -> E < 2 ^ 64 -> (4096 | c) -> (4096 | a) -> (4096 | e) -> 0 <= a -> a < e < E ->
  exists t, update_loop fuel matches func a e pre todo = Some t /\ tiles s t E /\ merged t
    /\ pages t = pages pre ++ update_pages c (pages todo).
Proof.
  induction fuel as [|fuel IH]; intros pre [|block rest] c Hf Hpre Htodo Hn Hs HE Hc Ha He Ha0 Hae; cbn [length] in Hf;
    cbn [update_loop]; [| lia | |].
  1, 2: exists pre; cbn [tiles] in Htodo; subst c; rewrite app_nil_r in *; done.
  pose proof Htodo as (H1 & H2 & H3). pose proof (tiles_bound _ _ _ Hpre) as [Hb _].
  pose proof (tiles_bound _ _ _ H3) as [Hb3 Hb3']. rewrite H1, end_addr_id by lia.
  set (ce := c + num_pages block * 4096) in *.
  assert (4096 | ce) as Hce by (apply Z.divide_add_r; [done|apply Z.divide_factor_r]).
  rewrite !to_u64_id by (unfold is_u64; lia).
  assert (tiles c [block] ce) as Hone by (cbn; done).
  assert (update_pages c (pages (block :: rest)) = update_pages c (pages [block]) ++ update_pages ce (pages rest)) as Hsplit
    by (apply (update_pages_tiles [block]); done).
  assert (update_pages c (pages [block]) = pages [block] ->
    exists t, update_loop fuel matches func a e (pre ++ [block]) rest = Some t /\ tiles s t E /\ merged t
      /\ pages t = pages pre ++ update_pages c (pages (block :: rest))) as Hskip.
  { intros Hk. destruct (IH (pre ++ [block]) rest ce) as (t & K1 & K2 & K3 & K4); rewrite <- ?app_assoc; try done; [lia| |].
    - apply tiles_app. eauto.
    - exists t. split_and!; [done..|]. rewrite K4, Hsplit, Hk, pages_app, <- app_assoc. done. }
  destruct (Z.ltb_spec a ce) as [Q1|Q1]; destruct (Z.ltb_spec c e) as [Q2|Q2]; cbn [andb].
  2, 3, 4: destruct (Z.leb_spec (e - 1) (ce - 1)); [|apply Hskip; apply (update_pages_before _ _ ce); [done|lia]];
    exists (pre ++ block :: rest); split_and!; [done|apply tiles_app; eauto|done|];
    rewrite update_pages_after, pages_app by lia; done.
  destruct (matches block) eqn:Em; cbn [negb].
  2: { apply Hskip. apply update_pages_id. intros _ x _ Hx _ Hm. exfalso. rewrite pages_one in Hx.
       apply list_elem_of_In, repeat_spec in Hx. subst x. unfold page_info in Hm. rewrite pu_matches in Hm. congruence. }
  destruct (update_block_spec s E pre block rest c) as (before & new_node & mid & pre' & sk & rest' & E1 & E2 & M); try done.
  fold ce in E1. rewrite E1, E2. destruct M as [M1 M2 M3 M4 M5]. cbn [mbind option_bind]. subst rest.
  destruct (Z.leb_spec (e - 1) (ce - 1)).
  - exists (pre' ++ rest'). split_and!; [done|done|done|].
    rewrite Hsplit, (update_pages_after ce), !pages_app, M2, <- !app_assoc by lia. done.
  - apply tiles_app in M1 as (c' & K1 & K2). apply tiles_app in H3 as (c1 & K3 & K4). rewrite length_app in Hf.
    assert (c1 = c') as -> by (apply tiles_pages in K2, K4; lia).
    destruct (IH pre' rest' c') as (t & R1 & R2 & R3 & R4); try done; [lia| |].
    + apply tiles_pages in K3. replace c' with (ce + Z.of_nat (length (pages sk)) * 4096) by lia.
      apply Z.divide_add_r; [done|apply Z.divide_factor_r].
    + exists t. split_and!; [done..|]. rewrite R4, M2, Hsplit, <- !app_assoc. do 2 f_equal.
      rewrite (update_pages_tiles sk rest' ce c') by done. f_equal. symmetry. apply update_pages_done. done.
Qed.
End UpdateLoop.

(** ** The two updates *)

#[export] Instance UpdateBlock_page_update st p at_ m :
  (forall b a n, m (at_range b a n) = m b) -> PageUpdate m (UpdateBlock st p at_).
Proof.
  intros H. split; [done|done|]. intros b. unfold UpdateBlock. cbn [addr num_pages state ipc_lock_count device_use_count perm original_perm attribute]. f_equal. apply Z.bits_inj'. intros i Hi.
  repeat rewrite ?Z.lor_spec, ?Z.land_spec.
  destruct (Z.testbit at_ i), (Z.testbit (attribute b) i), (Z.testbit MemoryAttribute_IpcLocked i),
    (Z.testbit MemoryAttribute_DeviceShared i); done.
Qed.

(** The page at address [pos] of a tree that starts at [s]. *)
Definition page_at (s : Z) (t : MemoryBlockTree) (pos : Z) : option MemoryBlock := pages t !! Z.to_nat ((pos - s) / 4096).

Lemma update_pages_lookup m f a e l : forall pos i,
  update_pages m f a e pos l !! i = update_page m f a e (pos + Z.of_nat i * 4096) <$> l !! i.
Proof.
  induction l as [|x l IH]; intros pos [|i]; cbn [update_pages lookup list_lookup fmap option_fmap option_map]; try done.
  - do 2 f_equal. lia.
  - rewrite IH. do 2 f_equal. lia.
Qed.

Section Updates.
Context (s e : Z) (t : MemoryBlockTree) (a n st p at_ : Z).
Hypothesis (Ht : block_tree s e t) (Ha : (4096 | a)) (Hs : s <= a) (Hn : 0 < n) (He : a + n * 4096 < e).

Lemma update_loop_pages m : (forall b a n, m (at_range b a n) = m b) ->
  exists t', update_loop (length t) m (UpdateBlock st p at_) a (a +! n *! PageSize) [] t = Some t' /\ block_tree s e t'
    /\ forall pos, (4096 | pos) -> s <= pos < e ->
         exists x, page_at s t pos = Some x
           /\ page_at s t' pos = Some (if (a <=? pos) && (pos <? a + n * 4096) && m x then UpdateBlock st p at_ x else x).
Proof.
  intros Hm. destruct Ht as [T1 T2 T3 T4 T5]. pose proof (UpdateBlock_page_update st p at_ m Hm).
  rewrite Z.add_comm, end_addr_id by lia.
  destruct (update_loop_spec m (UpdateBlock st p at_) a (a + n * 4096) s e (length t) [] t s)
    as (t' & -> & K1 & K2 & K3); try done; try lia.
  { apply Z.divide_add_r; [done|apply Z.divide_factor_r]. }
  exists t'. split; [done|]. split; [done|]. intros pos Hp Hpos. unfold page_at. rewrite K3. cbn [app pages map concat].
  destruct T4 as [sq ->], Hp as [pq ->]. rewrite <- Z.mul_sub_distr_r, Z.div_mul by lia.
  destruct (lookup_lt_is_Some_2 (pages t) (Z.to_nat (pq - sq))) as [x Hx].
  { apply tiles_pages in T1. lia. }
  exists x. split; [done|]. rewrite update_pages_lookup, Hx. cbn [fmap option_fmap option_map]. unfold update_page.
  replace (sq * 4096 + Z.of_nat (Z.to_nat (pq - sq)) * 4096) with (pq * 4096) by lia. done.
Qed.
End Updates.


(** The tree of the constructor. *)
Lemma new_block_tree s e : 0 <= s < e -> e < 2 ^ 64 -> (4096 | s) -> (4096 | e) ->
  block_tree s e (MemoryBlockManager_new s e).
Proof.
  intros H1 H2 [sq ->] [eq ->]. unfold MemoryBlockManager_new. change PageSize with 4096.
  rewrite to_u64_id by (unfold is_u64; lia). rewrite <- Z.mul_sub_distr_r, Z.div_mul by lia.
  split; [cbn; lia|done|lia|apply Z.divide_factor_r|done].
Qed.


(** The tree of a sequence of pages is unique. *)
Lemma repeat_run_unique (x : MemoryBlock) n m l1 l2 :
  repeat x n ++ l1 = repeat x m ++ l2 -> head l1 <> Some x -> head l2 <> Some x -> n = m /\ l1 = l2.
Proof.
  revert m. induction n as [|n IH]; intros [|m] H H1 H2; cbn [repeat app] in H.
  - done.
  - subst l1. done.
  - subst l2. done.
  - injection H as H. destruct (IH m H H1 H2) as [-> ->]. done.
Qed.

Lemma pages_head t s e : tiles s t e -> head (pages t) = head (map page_info t).
Proof.
  destruct t as [|b t]; [done|]. intros (_ & H & _). unfold pages, block_pages. cbn [map concat].
  destruct (Z.to_nat (num_pages b)) eqn:E; [lia|done].
Qed.

Lemma block_tree_canonical t1 t2 s e : tiles s t1 e -> tiles s t2 e -> merged t1 -> merged t2 -> pages t1 = pages t2 -> t1 = t2.
Proof.
  revert t2 s. induction t1 as [|b1 t1 IH]; intros [|b2 t2] s T1 T2 M1 M2 H; [done| | |].
  - pose proof (tiles_bound _ _ _ T2) as [_ ?]. cbn in T1. specialize (H0 ltac:(done)). lia.
  - pose proof (tiles_bound _ _ _ T1) as [_ ?]. cbn in T2. specialize (H0 ltac:(done)). lia.
  - pose proof (f_equal head H) as Hh. rewrite (pages_head _ _ _ T1), (pages_head _ _ _ T2) in Hh. apply (inj Some) in Hh.
    destruct T1 as (A1 & N1 & T1), T2 as (A2 & N2 & T2).
    assert (forall b t c, merged (b :: t) -> tiles c t e -> head (pages t) <> Some (page_info b)) as Hd.
    { intros b t c M T. rewrite (pages_head _ _ _ T). unfold merged in M. destruct t; cbn in *; [done|].
      destruct M as [M _]. congruence. }
    unfold pages, block_pages in H. cbn [map concat] in H. fold (pages t1) (pages t2) in H. rewrite <- Hh in H.
    apply repeat_run_unique in H as [Hn Hp]; [|eapply Hd; done|rewrite Hh; eapply Hd; done].
    assert (num_pages b1 = num_pages b2) as Hnn by lia.
    f_equal; [destruct b1, b2; unfold page_info, at_range in Hh; cbn in *; congruence|].
    rewrite Hnn in T1. eapply IH; [done|done| |  |done].
    + destruct t1; [done|]. apply M1.
    + destruct t2; [done|]. apply M2.
Qed.

(** ** FindFreeArea *)

(** [x] starts an area of [n] pages in a free block and in the region
    [rs, re), with [guard] pages left on each side, at the offset asked from
    the alignment. *)
Definition free_area (t : MemoryBlockTree) (rs re n align off guard x : Z) : Prop :=
  exists b, b ∈ t /\ state b = MemoryState_Free /\ Z.max (addr b) rs + guard * 4096 <= x
    /\ x + n * 4096 + guard * 4096 <= Z.min re (addr b + num_pages b * 4096) /\ (x - off) mod align = 0.

(** The result is the lowest such area, 0 when there is none. *)
Definition lowest_area (t : MemoryBlockTree) (rs re n align off guard r : Z) : Prop :=
  (r = 0 /\ forall x, ~ free_area t rs re n align off guard x)
  \/ (free_area t rs re n align off guard r /\ forall x, free_area t rs re n align off guard x -> r <= x).

Lemma tiles_addr t s e b : tiles s t e -> b ∈ t -> s <= addr b /\ addr b + num_pages b * 4096 <= e.
Proof.
  revert s. induction t as [|c t IH]; intros s H Hb; [by apply elem_of_nil in Hb|].
  destruct H as (H1 & H2 & H3). pose proof (tiles_bound _ _ _ H3) as [Hx _].
  apply elem_of_cons in Hb as [->|Hb]; [lia|]. specialize (IH _ H3 Hb). lia.
Qed.

Lemma aligned_candidate v align off : 0 <= v < 2 ^ 50 -> 0 < align <= 2 ^ 48 -> 0 <= off < align ->
  exists r, (let o := AlignDown v align +! off in if v <=? o then o else o +! align) = r
    /\ v <= r < v + align /\ (r - off) mod align = 0 /\ forall x, v <= x -> (x - off) mod align = 0 -> r <= x.
Proof.
  intros Hv Ha Ho. cbv zeta. rewrite AlignDown_div by lia.
  pose proof (Z.div_mod v align ltac:(lia)) as Hd. pose proof (Z.mod_pos_bound v align ltac:(lia)) as Hm.
  set (q := v / align) in *. assert (0 <= q) by (apply Z.div_pos; lia). unwrap.
  assert (forall k, (align * k + off - off) mod align = 0) as Hk
    by (intros k; replace (align * k + off - off) with (k * align) by lia; apply Z.mod_mul; lia).
  assert (forall x, (x - off) mod align = 0 -> exists k, x = align * k + off) as Hx.
  { intros x H0. exists ((x - off) / align). pose proof (Z.div_mod (x - off) align ltac:(lia)). lia. }
  assert (forall i k, i <= k -> align * i + off <= align * k + off) as Hle
    by (intros i k Hik; apply Z.add_le_mono_r, Z.mul_le_mono_nonneg_l; lia).
  assert (forall i k, align * i < align * k -> i < k) as Hlt
    by (intros i k Hik; apply (Z.mul_lt_mono_pos_l align); lia).
  destruct (Z.leb_spec v (align * q + off)); unwrap; eexists; (split; [reflexivity|]).
  - split; [lia|]. split; [done|]. intros x H1 (k & ->)%Hx. apply Hle. enough (q - 1 < k) by lia.
    apply Hlt. lia.
  - split; [lia|]. split; [replace (align * q + off + align) with (align * (q + 1) + off) by lia; done|].
    intros x H1 (k & ->)%Hx. replace (align * q + off + align) with (align * (q + 1) + off) by lia.
    apply Hle. enough (q < k) by lia. apply Hlt. lia.
Qed.

Section FindFreeArea.
Context (rs rn n align off guard : Z).
Hypothesis (Hrs : 0 < rs) (Hrn : 0 <= rn) (Hre : rs + rn * 4096 <= 2 ^ 48) (Hn : 0 < n) (Hn' : n * 4096 <= 2 ^ 48)
  (Hal : 0 < align <= 2 ^ 48) (Hoff : 0 <= off < align) (Hg : 0 <= guard) (Hg' : guard * 4096 <= 2 ^ 48).

Lemma find_area_lowest e l : forall c, tiles c l e -> 0 <= c -> e <= 2 ^ 48 ->
  lowest_area l rs (rs + rn * 4096) n align off guard (find_area l rs ((rs + rn * 4096) - 1) n align off guard).
Proof.
  induction l as [|b l IH]; intros c Ht Hc He; cbn [find_area].
  { left. split; [done|]. intros x (b & Hb & _). by apply elem_of_nil in Hb. }
  pose proof Ht as (H1 & H2 & H3). pose proof (tiles_bound _ _ _ H3) as [Hb3 _].
  specialize (IH _ H3 ltac:(lia) He).
  assert ((forall x, free_area (b :: l) rs (rs + rn * 4096) n align off guard x -> free_area l rs (rs + rn * 4096) n align off guard x) ->
    lowest_area l rs (rs + rn * 4096) n align off guard (find_area l rs ((rs + rn * 4096) - 1) n align off guard) ->
    lowest_area (b :: l) rs (rs + rn * 4096) n align off guard (find_area l rs ((rs + rn * 4096) - 1) n align off guard)) as Hskip.
  { intros Hs [[Hr Hno]|[(b' & Hb' & Hr) Hmin]]; [left; naive_solver|right].
    split; [exists b'; split; [right; done|done]|]. intros x Hx. apply Hmin, Hs, Hx. }
  destruct (Z.ltb_spec ((rs + rn * 4096) - 1) (addr b)) as [Q|Q].
  { left. split; [done|]. intros x (b' & Hb' & _ & X1 & X2 & _). pose proof (tiles_addr _ _ _ _ Ht Hb'). lia. }
  destruct (Z.eqb_spec (state b) MemoryState_Free) as [Ef|Ef]; cbn [negb].
  2: { apply Hskip; [|done]. intros x (b' & Hb' & X0 & X1). apply elem_of_cons in Hb' as [->|Hb']; [done|]. exists b'. done. }
  change PageSize with 4096. rewrite (to_u64_id (guard * 4096)), (to_u64_id (n * 4096)) by (unfold is_u64; lia).
  replace (if addr b <=? rs then rs else addr b) with (Z.max (addr b) rs) by (destruct (Z.leb_spec (addr b) rs); lia).
  rewrite (to_u64_id (Z.max (addr b) rs + guard * 4096)) by (unfold is_u64; lia).
  destruct (aligned_candidate (Z.max (addr b) rs + guard * 4096) align off) as (r & Er & R1 & R2 & R3); [lia..|].
  cbv zeta in Er |- *. rewrite Er. clear Er.
  unfold GetLastAddress, GetEndAddress, GetSize. change PageSize with 4096.
  rewrite (to_u64_id (num_pages b * 4096)), (to_u64_id (addr b + num_pages b * 4096)) by (unfold is_u64; lia).
  rewrite (to_u64_id (r + n * 4096)), (to_u64_id (r + n * 4096 + guard * 4096)) by (unfold is_u64; lia).
  rewrite !to_u64_id by (unfold is_u64; lia).
  destruct (Z.leb_spec (addr b) r), (Z.ltb_spec r (r + n * 4096 + guard * 4096 - 1)),
    (Z.leb_spec (r + n * 4096 + guard * 4096 - 1) ((rs + rn * 4096) - 1)),
    (Z.leb_spec (r + n * 4096 + guard * 4096 - 1) (addr b + num_pages b * 4096 - 1)); try lia; cbn [andb].
  { right. split; [exists b; split; [left|]; split_and!; [done|lia|lia|done]|].
    intros x (b' & Hb' & X0 & X1 & X2 & X3). apply elem_of_cons in Hb' as [->|Hb']; [apply R3; [lia|done]|].
    pose proof (tiles_addr _ _ _ _ H3 Hb'). lia. }
  all: apply Hskip; [|done]; intros x (b' & Hb' & X0 & X1 & X2 & X3); apply elem_of_cons in Hb' as [->|Hb'];
    [pose proof (R3 x ltac:(lia) X3); lia | by exists b'].
Qed.

Lemma FindIterator_spec t : forall s e a, tiles s t e -> 0 <= s <= a -> a < e -> e < 2 ^ 64 ->
  exists before c, t = before ++ FindIterator t a /\ tiles c (FindIterator t a) e /\ tiles s before c /\ c <= a.
Proof.
  induction t as [|b t IH]; intros s e a Ht Hs Ha He; [cbn in Ht; lia|].
  pose proof Ht as (H1 & H2 & H3). pose proof (tiles_bound _ _ _ H3) as [Hb _]. cbn [FindIterator].
  rewrite end_addr_id by lia. rewrite H1, to_u64_id by (unfold is_u64; lia).
  destruct (Z.leb_spec s a), (Z.leb_spec a (s + num_pages b * 4096 - 1)); try lia; cbn [andb].
  - exists [], s. done.
  - destruct (IH _ _ a H3) as (before & c & K1 & K2 & K3 & K4); [lia..|].
    exists (b :: before), c. cbn [app]. rewrite <- K1. done.
Qed.

Lemma FindFreeArea_lowest s e t :
  block_tree s e t -> e <= 2 ^ 48 -> s <= rs < e ->
  lowest_area t rs (rs + rn * 4096) n align off guard (FindFreeArea t rs rn n align off guard).
Proof.
  intros [T1 T2 T3 T4 T5] He Hs. unfold FindFreeArea. destruct (Z.eqb_spec n 0) as [?|_]; [lia|].
  replace (rs +! rn *! PageSize) with (rs + rn * 4096) by (rewrite (Z.add_comm rs (to_u64 _)), end_addr_id by lia; done).
  rewrite to_u64_id by (unfold is_u64; lia).
  destruct (FindIterator_spec t s e rs) as (before & c & K1 & K2 & K3 & K4); [done|lia..|].
  pose proof (tiles_bound _ _ _ K3) as [? _]. pose proof (find_area_lowest e _ c K2 ltac:(lia) He) as HL.
  set (r := find_area _ _ _ _ _ _ _) in *. clearbody r. set (l := FindIterator t rs) in *. clearbody l. subst t.
  assert (forall x, free_area (before ++ l) rs (rs + rn * 4096) n align off guard x <-> free_area l rs (rs + rn * 4096) n align off guard x) as Heq.
  { intros x. split; intros (b & Hb & X0 & X1 & X2 & X3); exists b; [|split; [apply elem_of_app; by right|done]].
    apply elem_of_app in Hb as [Hb|Hb]; [|done]. pose proof (tiles_addr _ _ _ _ K3 Hb). lia. }
  destruct HL as [[-> H0]|[H0 H1]]; [left|right]; split; intros; rewrite ?Heq in *; auto.
Qed.

(** C20: [MemoryBlockManager::FindFreeArea] on a list of blocks that tile an
    address space of up to 2^48 octets, for at least one page, an alignment
    that is not 0 and an offset below it, in a region that starts inside of the
    space above 0 and ends below 2^48: it finds the lowest address, at the given
    offset from the alignment, of an area of [n] pages that lies with its guard
    pages in one free block and in the region, and returns 0 exactly when there
    is none. *)
Theorem find_free_area_lowest s e t :
  block_tree s e t -> e <= 2 ^ 48 -> s <= rs < e ->
  lowest_area t rs (rs + rn * 4096) n align off guard (FindFreeArea t rs rn n align off guard).
Proof. apply FindFreeArea_lowest. Qed.
End FindFreeArea.

Lemma find_free_area_lowest_witness :
  FindFreeArea [MemoryBlock_new 0x1000 2 0 0 0; MemoryBlock_new 0x3000 1 5 3 0; MemoryBlock_new 0x4000 60 0 0 0]
    0x1000 63 3 0x4000 0x1000 1 = 0x5000
  /\ lowest_area [MemoryBlock_new 0x1000 2 0 0 0; MemoryBlock_new 0x3000 1 5 3 0; MemoryBlock_new 0x4000 60 0 0 0]
       0x1000 (0x1000 + 63 * 4096) 3 0x4000 0x1000 1
       (FindFreeArea [MemoryBlock_new 0x1000 2 0 0 0; MemoryBlock_new 0x3000 1 5 3 0; MemoryBlock_new 0x4000 60 0 0 0]
          0x1000 63 3 0x4000 0x1000 1).
Proof.
  split; [reflexivity|]. apply (find_free_area_lowest 0x1000 63 3 0x4000 0x1000 1) with (s := 0x1000) (e := 0x40000); try lia.
  split; [cbn; lia|cbn; split_and!; done|lia|by exists 1|lia].
Defined.
