(* ===== verification/ResourceLimit.v ===== *)
(** * Resource limits

    [Kernel::ResourceLimit] ([src/src/core/hle/kernel/resource_limit.cpp]): the
    amounts of each resource a process has reserved.  The values are [s64];
    overflow of a signed addition is undefined and yields [None].  [Release]
    subtracts an unsigned amount, which wraps. *)

From S2P Require Import Prelude BitUtil KernelObject.
From stdpp Require Import base list.
Open Scope Z_scope.
Open Scope c_scope.

Module ResourceLimit.

Inductive ResourceType := PhysicalMemory | Threads | Events | TransferMemory | Sessions.

#[global] Instance resource_type_eq_dec : EqDecision ResourceType.
Proof. solve_decision. Defined.

Definition ResourceTypeToIndex (type : ResourceType) : nat :=
  match type with
  | PhysicalMemory => 0 | Threads => 1 | Events => 2 | TransferMemory => 3 | Sessions => 4
  end.
Definition ResourceTypeCount : nat := 5.

Record ResourceLimit := { limit : list Z; current : list Z; available : list Z }.

Definition at_index (a : list Z) (index : nat) : Z := nth index a 0.

(** [ResourceLimit::Create]. *)
Definition ResourceLimit_Create : ResourceLimit :=
  {| limit := replicate ResourceTypeCount 0; current := replicate ResourceTypeCount 0;
     available := replicate ResourceTypeCount 0 |}.

Definition set_current (r : ResourceLimit) (index : nat) (v : Z) : ResourceLimit :=
  {| limit := limit r; current := <[index := v]> (current r); available := available r |}.

(** [Reserve]; the timeout is not used. *)
Definition Reserve (r : ResourceLimit) (resource : ResourceType) (amount : Z) : option (ResourceLimit * bool) :=
  let index := ResourceTypeToIndex resource in
  new_value ← add_s64 (at_index (current r) index) amount;
  new_value ←
    (if at_index (limit r) index <? new_value then
       sum ← add_s64 (at_index (available r) index) amount;
       if sum <=? at_index (limit r) index then add_s64 (at_index (current r) index) amount else Some new_value
     else Some new_value);
  if new_value <=? at_index (limit r) index then Some (set_current r index new_value, true)
  else Some (r, false).

Definition Release (r : ResourceLimit) (resource : ResourceType) (amount : Z) : ResourceLimit :=
  let index := ResourceTypeToIndex resource in
  {| limit := limit r;
     current := <[index := to_s64 (at_index (current r) index - amount)]> (current r);
     available := <[index := to_s64 (at_index (available r) index - amount)]> (available r) |}.

(** [array::at] does not throw: the index is below the count. *)
Definition GetCurrentResourceValue (r : ResourceLimit) (resource : ResourceType) : option Z :=
  add_s64 (at_index (limit r) (ResourceTypeToIndex resource)) (- at_index (current r) (ResourceTypeToIndex resource)).
Definition GetMaxResourceValue (r : ResourceLimit) (resource : ResourceType) : Z :=
  at_index (limit r) (ResourceTypeToIndex resource).

Definition SetLimitValue (r : ResourceLimit) (resource : ResourceType) (value : Z) : ResourceLimit * Z :=
  let index := ResourceTypeToIndex resource in
  if at_index (current r) index <=? value then
    ({| limit := <[index := value]> (limit r); current := current r; available := available r |}, RESULT_SUCCESS)
  else (r, ERR_INVALID_STATE).

End ResourceLimit.
Import ResourceLimit.

(** ** Well-formed limits *)

(** Five values of each kind, all [s64], and no resource over its limit. *)
Record limits_wf (r : ResourceLimit) : Prop := {
  lw_limit : length (limit r) = ResourceTypeCount /\ Forall is_s64 (limit r);
  lw_current : length (current r) = ResourceTypeCount /\ Forall is_s64 (current r);
  lw_available : length (available r) = ResourceTypeCount /\ Forall is_s64 (available r);
  lw_under : forall k, at_index (current r) (ResourceTypeToIndex k) <= at_index (limit r) (ResourceTypeToIndex k);
}.

Lemma index_bound k : (ResourceTypeToIndex k < ResourceTypeCount)%nat.
Proof. destruct k; cbn; unfold ResourceTypeCount; lia. Qed.
Lemma index_inj k k' : ResourceTypeToIndex k = ResourceTypeToIndex k' -> k = k'.
Proof. by destruct k, k'. Qed.

Lemma at_index_insert l i j v : (i < length l)%nat -> at_index (<[i := v]> l) j = if decide (i = j) then v else at_index l j.
Proof.
  intros Hi. unfold at_index. rewrite !nth_lookup. destruct (decide (i = j)) as [->|Hne].
  - by rewrite list_lookup_insert_eq.
  - by rewrite list_lookup_insert_ne.
Qed.

Lemma wf_insert l i v : length l = ResourceTypeCount /\ Forall is_s64 l -> is_s64 v ->
  length (<[i := v]> l) = ResourceTypeCount /\ Forall is_s64 (<[i := v]> l).
Proof. intros [H1 H2] Hv. rewrite length_insert. split; [done|]. by apply Forall_insert. Qed.

(** [Reserve] is exact: it fails only over the limit, and changes one value. *)
Lemma Reserve_spec r k amount r' ok : limits_wf r -> Reserve r k amount = Some (r', ok) ->
  let i := ResourceTypeToIndex k in
  ok = (at_index (current r) i + amount <=? at_index (limit r) i)
  /\ is_s64 (at_index (current r) i + amount)
  /\ r' = if ok then set_current r i (at_index (current r) i + amount) else r.
Proof.
  intros Hw. unfold Reserve. set (i := ResourceTypeToIndex k). unfold add_s64.
  set (c := at_index (current r) i). set (v := at_index (available r) i). set (m := at_index (limit r) i).
  destruct (Z.leb_spec (- 2 ^ 63) (c + amount)), (Z.ltb_spec (c + amount) (2 ^ 63)); cbn [andb mbind option_bind]; try done.
  assert (is_s64 (c + amount)) as Hs by (unfold is_s64; lia).
  destruct (m <? c + amount); cbn [mbind option_bind].
  - destruct ((- 2 ^ 63 <=? v + amount) && (v + amount <? 2 ^ 63)); cbn [mbind option_bind]; [|done].
    destruct (v + amount <=? m); cbn [mbind option_bind]; destruct (c + amount <=? m); intros [= <- <-]; done.
  - destruct (c + amount <=? m); intros [= <- <-]; done.
Qed.

(** C15: a resource limit stays well formed (five [s64] values of each kind, no
    resource over its limit) under [ResourceLimit_Create], [Reserve], [Release] of an amount
    that does not wrap, and [SetLimitValue]. *)
Theorem resource_limit_well_formed :
  limits_wf ResourceLimit_Create
  /\ (forall r k amount r' ok, limits_wf r -> Reserve r k amount = Some (r', ok) -> limits_wf r')
  /\ (forall r k amount, limits_wf r -> 0 <= amount <= at_index (current r) (ResourceTypeToIndex k) + 2 ^ 63 ->
        limits_wf (Release r k amount))
  /\ (forall r k value, limits_wf r -> is_s64 value -> limits_wf (SetLimitValue r k value).1).
Proof.
  split; [|split; [|split]].
  - split; try (split; [done|repeat constructor; unfold is_s64; lia]). intros k. by destruct k.
  - intros r k amount r' ok Hw E. apply (Reserve_spec _ _ _ _ _ Hw) in E as (Eok & Hs & ->). destruct ok; [|done].
    destruct Hw as [W1 W2 W3 W4]. split; cbn [set_current limit current available]; [done|by apply wf_insert|done|].
    intros k'. rewrite at_index_insert by (rewrite (proj1 W2); apply index_bound). destruct (decide _) as [->%index_inj|]; [|apply W4].
    symmetry in Eok. by apply Z.leb_le in Eok.
  - intros r k amount [W1 W2 W3 W4] Ha. split; cbn [Release limit current available]; [done|by apply wf_insert, to_s64_range..|].
    intros k'. rewrite at_index_insert by (rewrite (proj1 W2); apply index_bound). destruct (decide _) as [->%index_inj|]; [|apply W4].
    specialize (W4 k'). assert (is_s64 (at_index (limit r) (ResourceTypeToIndex k'))) as Hs.
    { unfold at_index. rewrite nth_lookup. destruct (limit r !! ResourceTypeToIndex k') as [x|] eqn:E; [|unfold is_s64; cbn; lia].
      apply (Forall_lookup_1 _ _ _ _ (proj2 W1) E). }
    rewrite to_s64_id by (unfold is_s64 in *; lia). lia.
  - intros r k value [W1 W2 W3 W4] Hv. unfold SetLimitValue.
    destruct (Z.leb_spec (at_index (current r) (ResourceTypeToIndex k)) value); [|done].
    split; cbn [fst limit current available]; [by apply wf_insert|done|done|]. intros k'.
    rewrite at_index_insert by (rewrite (proj1 W1); apply index_bound). destruct (decide _) as [->%index_inj|]; [done|apply W4].
Qed.

(** On a well-formed limit, a [Reserve] that returns true raises the
    current value of its resource by the amount and nothing else; giving the
    amount back with [Release] restores every current value. *)
Theorem reserve_release_roundtrip r k amount r' : limits_wf r -> 0 <= amount -> Reserve r k amount = Some (r', true) ->
  (forall k', at_index (current r') (ResourceTypeToIndex k')
     = at_index (current r) (ResourceTypeToIndex k') + if decide (k = k') then amount else 0)
  /\ current (Release r' k amount) = current r /\ limit (Release r' k amount) = limit r.
Proof.
  intros Hw Ha E. apply (Reserve_spec _ _ _ _ _ Hw) in E as (_ & Hs & ->). destruct Hw as [W1 [W2 W2'] W3 W4].
  pose proof (index_bound k) as Hb. rewrite <- W2 in Hb. split.
  - intros k'. cbn [set_current current]. rewrite at_index_insert by done. destruct (decide (k = k')) as [->|Hne].
    + by rewrite decide_True.
    + rewrite decide_False by (intros ?%index_inj; done). lia.
  - split; [|done]. cbn [Release set_current current]. rewrite at_index_insert, decide_True by done.
    rewrite list_insert_insert_eq. replace (at_index (current r) (ResourceTypeToIndex k) + amount - amount)
      with (at_index (current r) (ResourceTypeToIndex k)) by lia.
    destruct (lookup_lt_is_Some_2 (current r) (ResourceTypeToIndex k) Hb) as [x Hx].
    assert (at_index (current r) (ResourceTypeToIndex k) = x) as -> by (unfold at_index; rewrite nth_lookup, Hx; done).
    rewrite to_s64_id by (apply (Forall_lookup_1 _ _ _ _ W2' Hx)). by apply list_insert_id.
Qed.

Lemma reserve_release_roundtrip_witness :
  let r := (SetLimitValue ResourceLimit_Create PhysicalMemory 0x100000000).1 in
  match Reserve r PhysicalMemory 0x5000 with
  | Some (r', ok) =>
      ok = true /\ at_index (current r') 0 = 0x5000 /\ current (Release r' PhysicalMemory 0x5000) = current r
  | None => False
  end.
Proof.
  intros r. destruct (Reserve r PhysicalMemory 0x5000) as [[r' ok]|] eqn:E; [|vm_compute in E; discriminate].
  assert (ok = true) as -> by (vm_compute in E; injection E as _ <-; reflexivity).
  destruct (reserve_release_roundtrip r PhysicalMemory 0x5000 r') as (H1 & H2 & _); [|lia|exact E|].
  { split; try (split; [done|repeat constructor; unfold is_s64; lia]). intros k. destruct k; vm_compute; discriminate. }
  split; [done|]. split; [exact (H1 PhysicalMemory)|exact H2].
Defined.
