(* ===== verification/AddressSpace.v ===== *)
(** * Address spaces of processes

    The table of address-space regions
    ([src/src/core/hle/kernel/memory/address_space_info.cpp]) and the random
    numbers that place them ([system_control.cpp]).  The hardware random
    device is the list of the values it gives, in order; a function that would
    draw past its end returns [None], as one that never returns. *)

From S2P Require Import Prelude BitUtil.
From stdpp Require Import base list.
Open Scope Z_scope.
Open Scope c_scope.

Module AddressSpace.

Inductive Type_ := Is32Bit | Small64Bit | Large64Bit | Heap | Stack | Alias.

Definition type_index (ty : Type_) : nat :=
  match ty with
  | Is32Bit => 0 | Small64Bit => 1 | Large64Bit => 2 | Heap => 3 | Stack => 4 | Alias => 5
  end.

Record AddressSpaceInfo := { bit_width : Z; address : Z; size : Z; type : Type_ }.

Definition Size_1_MB : Z := 0x100000.
Definition Size_2_MB : Z := 2 * Size_1_MB.
Definition Size_128_MB : Z := 128 * Size_1_MB.
Definition Size_1_GB : Z := 0x40000000.
Definition Size_2_GB : Z := 2 * Size_1_GB.
Definition Size_4_GB : Z := 4 * Size_1_GB.
Definition Size_6_GB : Z := 6 * Size_1_GB.
Definition Size_64_GB : Z := 64 * Size_1_GB.
Definition Size_512_GB : Z := 512 * Size_1_GB.
Definition Invalid : Z := 0xFFFFFFFFFFFFFFFF.

Definition AddressSpaceInfos : list AddressSpaceInfo := [
  {| bit_width := 32; address := Size_2_MB;   size := Size_1_GB - Size_2_MB;     type := Is32Bit |};
  {| bit_width := 32; address := Size_1_GB;   size := Size_4_GB - Size_1_GB;     type := Small64Bit |};
  {| bit_width := 32; address := Invalid;     size := Size_1_GB;                 type := Heap |};
  {| bit_width := 32; address := Invalid;     size := Size_1_GB;                 type := Alias |};
  {| bit_width := 36; address := Size_128_MB; size := Size_2_GB - Size_128_MB;   type := Is32Bit |};
  {| bit_width := 36; address := Size_2_GB;   size := Size_64_GB - Size_2_GB;    type := Small64Bit |};
  {| bit_width := 36; address := Invalid;     size := Size_6_GB;                 type := Heap |};
  {| bit_width := 36; address := Invalid;     size := Size_6_GB;                 type := Alias |};
  {| bit_width := 39; address := Size_128_MB; size := Size_512_GB - Size_128_MB; type := Large64Bit |};
  {| bit_width := 39; address := Invalid;     size := Size_64_GB;                type := Is32Bit |};
  {| bit_width := 39; address := Invalid;     size := Size_6_GB;                 type := Heap |};
  {| bit_width := 39; address := Invalid;     size := Size_64_GB;                type := Alias |};
  {| bit_width := 39; address := Invalid;     size := Size_2_GB;                 type := Stack |} ].

Definition AddressSpaceIndices32Bit : list nat := [0; 1; 0; 2; 0; 3]%nat.
Definition AddressSpaceIndices36Bit : list nat := [4; 5; 4; 6; 4; 7]%nat.
Definition AddressSpaceIndices39Bit : list nat := [9; 8; 8; 10; 12; 11]%nat.

(** [AddressSpaceInfos[Indices[index]]] for the width; other widths run off
    the end of the function. *)
Definition info_of (width : Z) (ty : Type_) : option AddressSpaceInfo :=
  indices ← (if width =? 32 then Some AddressSpaceIndices32Bit
             else if width =? 36 then Some AddressSpaceIndices36Bit
             else if width =? 39 then Some AddressSpaceIndices39Bit
             else None);
  index ← indices !! type_index ty;
  AddressSpaceInfos !! index.

Definition GetAddressSpaceStart (width : Z) (ty : Type_) : option Z := address <$> info_of width ty.
Definition GetAddressSpaceSize (width : Z) (ty : Type_) : option Z := size <$> info_of width ty.

(** ** Random ranges *)

(** The loop of [GenerateUniformRange]. *)
Fixpoint uniform_loop (draws : list Z) (min range_size effective_max : Z) : option (Z * list Z) :=
  match draws with
  | [] => None
  | rnd :: draws =>
      if rnd <? effective_max then Some (min +! rnd mod range_size, draws)
      else uniform_loop draws min range_size effective_max
  end.

Definition GenerateUniformRange (min max : Z) (draws : list Z) : option (Z * list Z) :=
  if (max =? 0xFFFFFFFFFFFFFFFF) && (min =? 0) then
    match draws with
    | [] => None
    | rnd :: draws => Some (rnd, draws)
    end
  else
    let range_size := (max +! 1) -! min in
    let effective_max := (0xFFFFFFFFFFFFFFFF / range_size) *! range_size in
    uniform_loop draws min range_size effective_max.

Definition GenerateRandomRange : Z -> Z -> list Z -> option (Z * list Z) := GenerateUniformRange.

End AddressSpace.
