(* ===== verification/PageTable.v ===== *)
(** * The page table of a process

    [Kernel::Memory::PageTable]
    ([src/src/core/hle/kernel/memory/page_table.cpp] and [.h]), with the part of
    [Core::Memory] ([src/src/core/memory.cpp]) that writes the entries of
    [Common::PageTable].  An operation is a function from the state of the
    system to the new state and its result; [None] is undefined behaviour (a
    dereference of [end()] or of a null pointer, an index outside an array).
    [ASSERT], [UNREACHABLE] and [UNIMPLEMENTED] only log.  The lock is left
    out: each public operation holds it throughout.

    The host pointer of an entry is determined by its backing address and is
    left out, as is the flush of pages that the GPU caches, whose entries are
    overwritten. *)

From S2P Require Import Prelude BitUtil KernelObject PageHeap PageBitmap MemoryState MemoryBlockManager MemoryManager.
From S2P Require Import AddressSpace ResourceLimit.
From stdpp Require Import base list gmap.
Open Scope Z_scope.
Open Scope c_scope.

Module MM := MemoryManager.MemoryManager.
Module AS := AddressSpace.AddressSpace.
Module RL := ResourceLimit.ResourceLimit.
Import MemoryBlockManager.MemoryBlockManager.

Module PageTable.

(** ** [Common::PageTable] *)

Inductive PageType := Unmapped | Memory | RasterizerCachedMemory | Special | Allocated.

Record PageEntry := { attributes : PageType; backing_addr : Z }.

(** The buffers hold zeroes after [Resize]. *)
Record CommonPageTable := { num_entries : Z; entries : gmap Z PageEntry }.

Definition unmapped_entry : PageEntry := {| attributes := Unmapped; backing_addr := 0 |}.
Definition entry (t : CommonPageTable) (i : Z) : PageEntry := default unmapped_entry (entries t !! i).

Definition Resize (address_space_width_in_bits page_size_in_bits : Z) : CommonPageTable :=
  {| num_entries := 1 <<! (address_space_width_in_bits -! page_size_in_bits); entries := ∅ |}.

Definition set_entry (t : CommonPageTable) (i : Z) (e : PageEntry) : option CommonPageTable :=
  if i <? num_entries t then Some {| num_entries := num_entries t; entries := <[i := e]> (entries t) |} else None.

(** The two loops of [Memory::Impl::MapPages], [n] rounds. *)
Fixpoint unmap_loop (n : nat) (t : CommonPageTable) (base : Z) (type : PageType) : option CommonPageTable :=
  match n with
  | O => Some t
  | S n => t ← set_entry t base {| attributes := type; backing_addr := 0 |}; unmap_loop n t (base +! 1) type
  end.
Fixpoint map_loop (n : nat) (t : CommonPageTable) (base target : Z) (type : PageType) : option CommonPageTable :=
  match n with
  | O => Some t
  | S n =>
      t ← set_entry t base {| attributes := type; backing_addr := target -! (base <<! PageBits) |};
      map_loop n t (base +! 1) (target +! PageSize) type
  end.

Definition Memory_MapPages (t : CommonPageTable) (base size target : Z) (type : PageType) : option CommonPageTable :=
  if target =? 0 then unmap_loop (Z.to_nat size) t base type else map_loop (Z.to_nat size) t base target type.

Definition MapMemoryRegion (t : CommonPageTable) (base size target : Z) : option CommonPageTable :=
  Memory_MapPages t (base / PageSize) (size / PageSize) target Memory.
Definition UnmapRegion (t : CommonPageTable) (base size : Z) : option CommonPageTable :=
  Memory_MapPages t (base / PageSize) (size / PageSize) 0 Unmapped.

(** ** State *)

(** The members that only initialisation sets. *)
Record Layout := {
  address_space_start : Z; address_space_end : Z;
  heap_region_start : Z; heap_region_end : Z; current_heap_end : Z;
  alias_region_start : Z; alias_region_end : Z;
  stack_region_start : Z; stack_region_end : Z;
  kernel_map_region_start : Z; kernel_map_region_end : Z;
  code_region_start : Z; code_region_end : Z;
  alias_code_region_start : Z; alias_code_region_end : Z;
  max_heap_size : Z; max_physical_memory_size : Z; address_space_width : Z;
  is_kernel : bool; is_aslr_enabled : bool; memory_pool : nat;
}.

Record PageTable := {
  layout : Layout;
  block_manager : MemoryBlockTree;
  current_heap_addr : Z;
  heap_capacity : Z;
  physical_memory_usage : Z;
  page_table_impl : CommonPageTable;
}.

Definition with_blocks (t : PageTable) (b : MemoryBlockTree) : PageTable :=
  {| layout := layout t; block_manager := b; current_heap_addr := current_heap_addr t; heap_capacity := heap_capacity t;
     physical_memory_usage := physical_memory_usage t; page_table_impl := page_table_impl t |}.
Definition with_heap_addr (t : PageTable) (a : Z) : PageTable :=
  {| layout := layout t; block_manager := block_manager t; current_heap_addr := a; heap_capacity := heap_capacity t;
     physical_memory_usage := physical_memory_usage t; page_table_impl := page_table_impl t |}.
Definition with_capacity (t : PageTable) (c : Z) : PageTable :=
  {| layout := layout t; block_manager := block_manager t; current_heap_addr := current_heap_addr t; heap_capacity := c;
     physical_memory_usage := physical_memory_usage t; page_table_impl := page_table_impl t |}.
Definition with_usage (t : PageTable) (u : Z) : PageTable :=
  {| layout := layout t; block_manager := block_manager t; current_heap_addr := current_heap_addr t;
     heap_capacity := heap_capacity t; physical_memory_usage := u; page_table_impl := page_table_impl t |}.
Definition with_impl (t : PageTable) (i : CommonPageTable) : PageTable :=
  {| layout := layout t; block_manager := block_manager t; current_heap_addr := current_heap_addr t;
     heap_capacity := heap_capacity t; physical_memory_usage := physical_memory_usage t; page_table_impl := i |}.

(** What the operations of a page table reach: the table itself, the pools of
    the kernel's memory manager, and the resource limit of the current
    process. *)
Record System := {
  page_table : PageTable;
  memory_manager : MM.managers;
  resource_limit : option RL.ResourceLimit;
}.

(** ** Operations *)

Definition M (A : Type) : Type := System -> option (System * A).
Definition ret {A} (a : A) : M A := fun s => Some (s, a).
Definition bind {A B} (m : M A) (k : A -> M B) : M B := fun s => '(s, a) ← m s; k a s.
Definition lift {A} (o : option A) : M A := fun s => a ← o; Some (s, a).
Definition gets {A} (f : System -> A) : M A := fun s => Some (s, f s).

Declare Scope kernel_scope.
Delimit Scope kernel_scope with kernel.
Open Scope kernel_scope.
Notation "x <- m ;; k" := (bind m (fun x => k)) (at level 100, m at next level, right associativity) : kernel_scope.
Notation "m ;;; k" := (bind m (fun _ => k)) (at level 100, right associativity) : kernel_scope.

(** [CASCADE_CODE], in a function that returns a code and in one that returns
    a value. *)
Definition cascade (m k : M Z) : M Z := r <- m ;; if r =? RESULT_SUCCESS then k else ret r.
Definition cascade_val {A} (m : M Z) (k : M (ResultVal A)) : M (ResultVal A) :=
  r <- m ;; if r =? RESULT_SUCCESS then k else ret (Error r).
Notation "'CASCADE_CODE' m ;; k" := (cascade m k) (at level 100, m at next level, right associativity) : kernel_scope.
Notation "'CASCADE_VAL' m ;; k" := (cascade_val m k) (at level 100, m at next level, right associativity) : kernel_scope.

(** [detail::ScopeExit], cancelled on success: [guard] runs when the body
    returns an error. *)
Definition guarded (guard : M unit) (body : M Z) : M Z :=
  r <- body ;; if r =? RESULT_SUCCESS then ret r else guard ;;; ret r.

Definition table : M PageTable := gets page_table.
Definition region (f : Layout -> Z) : M Z := gets (fun s => f (layout (page_table s))).
Definition modify_table (f : PageTable -> option PageTable) : M unit := fun s =>
  t ← f (page_table s);
  Some ({| page_table := t; memory_manager := memory_manager s; resource_limit := resource_limit s |}, tt).
Definition set_impl (f : CommonPageTable -> option CommonPageTable) : M unit :=
  modify_table (fun t => with_impl t <$> f (page_table_impl t)).
Definition set_blocks (f : MemoryBlockTree -> option MemoryBlockTree) : M unit :=
  modify_table (fun t => with_blocks t <$> f (block_manager t)).

(** [block_manager->Update(addr, num_pages, state, perm, attribute)]. *)
Definition update (addr num_pages state perm attribute : Z) : M unit :=
  set_blocks (fun b => Update b addr num_pages state perm attribute).

(** The calls to the memory manager of the kernel, on [memory_pool]. *)
Definition pool_allocate (num_pages : Z) : M (list MM.Node * Z) := fun s =>
  '(ms, l, r) ← MM.Pool_Allocate (memory_manager s) (memory_pool (layout (page_table s))) [] num_pages;
  Some ({| page_table := page_table s; memory_manager := ms; resource_limit := resource_limit s |}, (l, r)).
Definition pool_free (l : list MM.Node) (num_pages : Z) : M Z := fun s =>
  '(ms, r) ← MM.Pool_Free (memory_manager s) (memory_pool (layout (page_table s))) l num_pages;
  Some ({| page_table := page_table s; memory_manager := ms; resource_limit := resource_limit s |}, r).

(** [!limit || limit->Reserve(PhysicalMemory, amount)] and
    [limit->Release(PhysicalMemory, amount)]; the amount becomes an [s64]. *)
Definition reserve (amount : Z) : M bool := fun s =>
  match resource_limit s with
  | None => Some (s, true)
  | Some r =>
      '(r, ok) ← RL.Reserve r RL.PhysicalMemory (to_s64 amount);
      Some ({| page_table := page_table s; memory_manager := memory_manager s; resource_limit := Some r |}, ok)
  end.
Definition release (amount : Z) : M unit := fun s =>
  r ← resource_limit s;
  Some ({| page_table := page_table s; memory_manager := memory_manager s;
           resource_limit := Some (RL.Release r RL.PhysicalMemory amount) |}, tt).

(** ** Entries *)

Inductive OperationType := Op_Map | Op_MapGroup | Op_Unmap | Op_ChangePermissions | Op_ChangePermissionsAndRefresh.

(** The two [Operate]. *)
Fixpoint Operate_group (addr num_pages : Z) (page_group : list MM.Node) (operation : OperationType) : M Z :=
  match page_group with
  | [] => ret RESULT_SUCCESS
  | node :: page_group =>
      let size := MM.num_pages node *! PageSize in
      match operation with
      | Op_MapGroup => set_impl (fun t => MapMemoryRegion t addr size (MM.addr node))
      | _ => ret tt
      end ;;;
      Operate_group (addr +! size) num_pages page_group operation
  end.
Definition Operate (addr num_pages perm : Z) (operation : OperationType) (map_addr : Z) : M Z :=
  match operation with
  | Op_Unmap => set_impl (fun t => UnmapRegion t addr (num_pages *! PageSize))
  | Op_Map => set_impl (fun t => MapMemoryRegion t addr (num_pages *! PageSize) map_addr)
  | Op_ChangePermissions | Op_ChangePermissionsAndRefresh | Op_MapGroup => ret tt
  end ;;;
  ret RESULT_SUCCESS.

Definition GetPhysicalAddr (t : PageTable) (addr : Z) : option Z :=
  let i := addr >> PageBits in
  if i <? num_entries (page_table_impl t) then Some (backing_addr (entry (page_table_impl t) i) +! addr) else None.

(** The loop of [AddRegionToPages]: at most one round per page. *)
Fixpoint add_region_loop (fuel : nat) (t : PageTable) (addr end_ : Z) (l : list MM.Node) : option (list MM.Node) :=
  if addr <? end_ then
    match fuel with
    | O => None
    | S fuel =>
        paddr ← GetPhysicalAddr t addr;
        add_region_loop fuel t (addr +! PageSize) end_ (MM.AddBlock l paddr 1)
    end
  else Some l.
Definition AddRegionToPages (start num_pages : Z) (l : list MM.Node) : M (list MM.Node) :=
  t <- table ;; lift (add_region_loop (Z.to_nat num_pages) t start (start +! num_pages *! PageSize) l).

(** [PageLinkedList::IsEqual]. *)
Fixpoint IsEqual (l l' : list MM.Node) : bool :=
  match l, l' with
  | [], [] => true
  | nd :: l, nd' :: l' => (MM.addr nd =? MM.addr nd') && (MM.num_pages nd =? MM.num_pages nd') && IsEqual l l'
  | _, _ => false
  end.

(** ** States of ranges *)

(** [CheckMemoryState] on one block. *)
Definition CheckMemoryInfo (info : MemoryBlock) (state_mask st perm_mask pm attr_mask attr : Z) : Z :=
  if negb (state info .& state_mask =? st) then ERR_INVALID_ADDRESS_STATE
  else if negb (perm info .& perm_mask =? pm) then ERR_INVALID_ADDRESS_STATE
  else if negb (attribute info .& attr_mask =? attr) then ERR_INVALID_ADDRESS_STATE
  else RESULT_SUCCESS.

Fixpoint check_loop (l : list MemoryBlock) (first : MemoryBlock) (last_addr state_mask st perm_mask pm attr_mask attr
    ignore_attr : Z) : option Z :=
  match l with
  | [] => None
  | info :: l =>
      if negb (state info =? state first) then Some ERR_INVALID_ADDRESS_STATE
      else if negb (perm info =? perm first) then Some ERR_INVALID_ADDRESS_STATE
      else if negb (attribute info .| ignore_attr =? attribute first .| ignore_attr) then Some ERR_INVALID_ADDRESS_STATE
      else
        let r := CheckMemoryInfo info state_mask st perm_mask pm attr_mask attr in
        if negb (r =? RESULT_SUCCESS) then Some r
        else if last_addr <=? GetLastAddress info then Some RESULT_SUCCESS
        else check_loop l first last_addr state_mask st perm_mask pm attr_mask attr ignore_attr
  end.

(** The code, and what is written to [out_state], [out_perm] and [out_attr] on
    success. *)
Definition CheckMemoryState (t : MemoryBlockTree) (addr size state_mask st perm_mask pm attr_mask attr ignore_attr : Z)
    : option (Z * (Z * Z * Z)) :=
  let last_addr := addr +! size -! 1 in
  match FindIterator t addr with
  | [] => None
  | (first :: _) as l =>
      r ← check_loop l first last_addr state_mask st perm_mask pm attr_mask attr ignore_attr;
      Some (r, (state first, perm first, attribute first .& to_u8 (Z.lnot ignore_attr)))
  end.

Definition DefaultMemoryIgnoreAttr : Z :=
  MemoryAttribute_DontCareMask .| MemoryAttribute_IpcLocked .| MemoryAttribute_DeviceShared.

(** [CASCADE_CODE(CheckMemoryState(&state, &perm, &attribute, ...))]. *)
Definition checked (addr size state_mask st perm_mask pm attr_mask attr ignore_attr : Z) (k : Z -> Z -> Z -> M Z) : M Z :=
  t <- table ;;
  c <- lift (CheckMemoryState (block_manager t) addr size state_mask st perm_mask pm attr_mask attr ignore_attr) ;;
  let '(r, (out_state, out_perm, out_attr)) := c in
  if r =? RESULT_SUCCESS then k out_state out_perm out_attr else ret r.

Definition IsRegionMapped (address size : Z) : M bool :=
  t <- table ;;
  c <- lift (CheckMemoryState (block_manager t) address size MemoryState_All MemoryState_Free MemoryPermission_Mask
               MemoryPermission_None MemoryAttribute_Mask MemoryAttribute_None MemoryAttribute_IpcAndDeviceMapped) ;;
  ret (negb (c.1 =? RESULT_SUCCESS)).

(** ** Regions *)

(** [GetRegionAddress] and [GetRegionSize]; the default case returns 0. *)
Definition GetRegionAddress (l : Layout) (st : Z) : Z :=
  if (st =? MemoryState_Free) || (st =? MemoryState_Kernel) then address_space_start l
  else if st =? MemoryState_Normal then heap_region_start l
  else if (st =? MemoryState_Ipc) || (st =? MemoryState_NonSecureIpc) || (st =? MemoryState_NonDeviceIpc)
       then alias_region_start l
  else if st =? MemoryState_Stack then stack_region_start l
  else if (st =? MemoryState_Io) || (st =? MemoryState_Static) || (st =? MemoryState_ThreadLocal)
       then kernel_map_region_start l
  else if (st =? MemoryState_Shared) || (st =? MemoryState_AliasCode) || (st =? MemoryState_AliasCodeData)
          || (st =? MemoryState_Transfered) || (st =? MemoryState_SharedTransfered) || (st =? MemoryState_SharedCode)
          || (st =? MemoryState_GeneratedCode) || (st =? MemoryState_CodeOut)
       then alias_code_region_start l
  else if (st =? MemoryState_Code) || (st =? MemoryState_CodeData) then code_region_start l
  else 0.
Definition GetRegionSize (l : Layout) (st : Z) : Z :=
  if (st =? MemoryState_Free) || (st =? MemoryState_Kernel) then address_space_end l -! address_space_start l
  else if st =? MemoryState_Normal then heap_region_end l -! heap_region_start l
  else if (st =? MemoryState_Ipc) || (st =? MemoryState_NonSecureIpc) || (st =? MemoryState_NonDeviceIpc)
       then alias_region_end l -! alias_region_start l
  else if st =? MemoryState_Stack then stack_region_end l -! stack_region_start l
  else if (st =? MemoryState_Io) || (st =? MemoryState_Static) || (st =? MemoryState_ThreadLocal)
       then kernel_map_region_end l -! kernel_map_region_start l
  else if (st =? MemoryState_Shared) || (st =? MemoryState_AliasCode) || (st =? MemoryState_AliasCodeData)
          || (st =? MemoryState_Transfered) || (st =? MemoryState_SharedTransfered) || (st =? MemoryState_SharedCode)
          || (st =? MemoryState_GeneratedCode) || (st =? MemoryState_CodeOut)
       then alias_code_region_end l -! alias_code_region_start l
  else if (st =? MemoryState_Code) || (st =? MemoryState_CodeData) then code_region_end l -! code_region_start l
  else 0.

Definition CanContain (l : Layout) (addr size st : Z) : bool :=
  let end_ := addr +! size in
  let last := end_ -! 1 in
  let region_start := GetRegionAddress l st in
  let region_size := GetRegionSize l st in
  let is_in_region := (region_start <=? addr) && (addr <? end_) && (last <=? region_start +! region_size -! 1) in
  let is_in_heap := negb ((end_ <=? heap_region_start l) || (heap_region_end l <=? addr)) in
  let is_in_alias := negb ((end_ <=? alias_region_start l) || (alias_region_end l <=? addr)) in
  if (st =? MemoryState_Free) || (st =? MemoryState_Kernel) then is_in_region
  else if (st =? MemoryState_Io) || (st =? MemoryState_Static) || (st =? MemoryState_Code) || (st =? MemoryState_CodeData)
          || (st =? MemoryState_Shared) || (st =? MemoryState_AliasCode) || (st =? MemoryState_AliasCodeData)
          || (st =? MemoryState_Stack) || (st =? MemoryState_ThreadLocal) || (st =? MemoryState_Transfered)
          || (st =? MemoryState_SharedTransfered) || (st =? MemoryState_SharedCode) || (st =? MemoryState_GeneratedCode)
          || (st =? MemoryState_CodeOut)
       then is_in_region && negb is_in_heap && negb is_in_alias
  else if st =? MemoryState_Normal then is_in_region && negb is_in_alias
  else if (st =? MemoryState_Ipc) || (st =? MemoryState_NonSecureIpc) || (st =? MemoryState_NonDeviceIpc)
       then is_in_region && negb is_in_heap
  else false.

(** [Contains(addr, size)]. *)
Definition Contains (l : Layout) (addr size : Z) : bool :=
  (address_space_start l <=? addr) && (addr <? addr +! size)
  && (addr +! size -! 1 <=? address_space_end l -! 1).

(** [GetAddressInRange] and [GetSizeInRange]. *)
Definition GetAddressInRange (info : MemoryBlock) (a : Z) : Z := if addr info <? a then a else addr info.
Definition GetSizeInRange (info : MemoryBlock) (start end_ : Z) : Z :=
  let size := GetSize info in
  let size := if addr info <? start then size -! (start -! addr info) else size in
  if end_ <? GetEndAddress info then size -! (GetEndAddress info -! end_) else size.

(** ** Mapping *)

(** The private [MapPages], from the node at [cur_addr] on. *)
Fixpoint map_nodes (addr cur_addr : Z) (l : list MM.Node) (perm : Z) : M Z :=
  match l with
  | [] => ret RESULT_SUCCESS
  | node :: l =>
      result <- Operate cur_addr (MM.num_pages node) perm Op_Map (MM.addr node) ;;
      if result =? RESULT_SUCCESS then map_nodes addr (cur_addr +! MM.num_pages node *! PageSize) l perm
      else
        t <- table ;;
        _ <- lift (head (FindIterator (block_manager t) cur_addr)) ;;
        Operate addr ((addr -! cur_addr) / PageSize) MemoryPermission_None Op_Unmap 0 ;;;
        ret result
  end.
Definition MapPages_entries (addr : Z) (l : list MM.Node) (perm : Z) : M Z := map_nodes addr addr l perm.

Definition MapProcessCode (addr num_pages state perm : Z) : M Z :=
  let size := num_pages *! PageSize in
  t <- table ;;
  if negb (CanContain (layout t) addr size state) then ret ERR_INVALID_ADDRESS_STATE
  else
    mapped <- IsRegionMapped addr size ;;
    if mapped then ret ERR_INVALID_ADDRESS_STATE
    else
      group <- pool_allocate num_pages ;;
      CASCADE_CODE ret group.2 ;;
      CASCADE_CODE Operate_group addr num_pages group.1 Op_MapGroup ;;
      update addr num_pages state perm MemoryAttribute_None ;;;
      ret RESULT_SUCCESS.

Definition MapProcessCodeMemory (dst_addr src_addr size : Z) : M Z :=
  let num_pages := size / PageSize in
  checked src_addr size MemoryState_All MemoryState_Normal MemoryPermission_Mask MemoryPermission_ReadAndWrite
    MemoryAttribute_Mask MemoryAttribute_None MemoryAttribute_IpcAndDeviceMapped (fun state perm _ =>
  mapped <- IsRegionMapped dst_addr size ;;
  if mapped then ret ERR_INVALID_ADDRESS_STATE
  else
    l <- AddRegionToPages src_addr num_pages [] ;;
    CASCADE_CODE guarded (Operate src_addr num_pages perm Op_ChangePermissions 0 ;;; ret tt)
      (CASCADE_CODE Operate src_addr num_pages MemoryPermission_None Op_ChangePermissions 0 ;;
       MapPages_entries dst_addr l MemoryPermission_None) ;;
    update src_addr num_pages state MemoryPermission_None MemoryAttribute_Locked ;;;
    update dst_addr num_pages MemoryState_AliasCode MemoryPermission_None MemoryAttribute_None ;;;
    ret RESULT_SUCCESS).

Definition UnmapProcessCodeMemory (dst_addr src_addr size : Z) : M Z :=
  if size =? 0 then ret RESULT_SUCCESS
  else
    let num_pages := size / PageSize in
    checked src_addr size MemoryState_All MemoryState_Normal MemoryPermission_None MemoryPermission_None
      MemoryAttribute_Mask MemoryAttribute_Locked MemoryAttribute_IpcAndDeviceMapped (fun _ _ _ =>
    checked dst_addr PageSize MemoryState_FlagCanCodeAlias MemoryState_FlagCanCodeAlias MemoryPermission_None
      MemoryPermission_None MemoryAttribute_Mask MemoryAttribute_None MemoryAttribute_IpcAndDeviceMapped (fun state _ _ =>
    checked dst_addr size MemoryState_All state MemoryPermission_None MemoryPermission_None MemoryAttribute_Mask
      MemoryAttribute_None DefaultMemoryIgnoreAttr (fun _ _ _ =>
    CASCADE_CODE Operate dst_addr num_pages MemoryPermission_None Op_Unmap 0 ;;
    update dst_addr num_pages MemoryState_Free MemoryPermission_None MemoryAttribute_None ;;;
    update src_addr num_pages MemoryState_Normal MemoryPermission_ReadAndWrite MemoryAttribute_None ;;;
    ret RESULT_SUCCESS))).

(** The inner loop of the private [MapPhysicalMemory] on one free block: the
    nodes left, the position in the first and the pages left of it. *)
Fixpoint map_free_block (fuel : nat) (dst_addr dst_num_pages : Z) (nodes : list MM.Node) (map_addr src_num_pages : Z)
    : M (list MM.Node * Z * Z) :=
  if dst_num_pages =? 0 then ret (nodes, map_addr, src_num_pages)
  else
    match fuel with
    | O => lift None
    | S fuel =>
        cur <- lift (if src_num_pages =? 0
                     then node ← head (tail nodes); Some (tail nodes, MM.addr node, MM.num_pages node)
                     else Some (nodes, map_addr, src_num_pages)) ;;
        let '(nodes, map_addr, src_num_pages) := cur in
        let num_pages := Z.min src_num_pages dst_num_pages in
        Operate dst_addr num_pages MemoryPermission_ReadAndWrite Op_Map map_addr ;;;
        map_free_block fuel (dst_addr +! num_pages *! PageSize) (dst_num_pages -! num_pages) nodes
          (map_addr +! num_pages *! PageSize) (src_num_pages -! num_pages)
    end.
Fixpoint map_free_blocks (infos : list MemoryBlock) (start end_ : Z) (nodes : list MM.Node) (map_addr src_num_pages : Z)
    : M unit :=
  match infos with
  | [] => ret tt
  | info :: infos =>
      if negb (state info =? MemoryState_Free) then map_free_blocks infos start end_ nodes map_addr src_num_pages
      else
        let dst_num_pages := GetSizeInRange info start end_ / PageSize in
        let dst_addr := GetAddressInRange info start in
        cur <- map_free_block (Z.to_nat dst_num_pages) dst_addr dst_num_pages nodes map_addr src_num_pages ;;
        let '(nodes, map_addr, src_num_pages) := cur in
        map_free_blocks infos start end_ nodes map_addr src_num_pages
  end.
Definition MapPhysicalMemory_entries (nodes : list MM.Node) (start end_ : Z) : M unit :=
  node <- lift (head nodes) ;;
  t <- table ;;
  infos <- lift (IterateForRange (block_manager t) start end_) ;;
  map_free_blocks infos start end_ nodes (MM.addr node) (MM.num_pages node).

(** [mapped_size += GetSizeInRange(info, addr, end_addr)] over the blocks that
    are not free. *)
Definition mapped_size_of (infos : list MemoryBlock) (addr end_addr : Z) : Z :=
  foldl (fun n info => if state info =? MemoryState_Free then n else n +! GetSizeInRange info addr end_addr) 0 infos.

Definition MapPhysicalMemory (addr size : Z) : M Z :=
  let end_addr := addr +! size in
  t <- table ;;
  infos <- lift (IterateForRange (block_manager t) addr end_addr) ;;
  let mapped_size := mapped_size_of infos addr end_addr in
  if mapped_size =? size then ret RESULT_SUCCESS
  else
    let remaining_size := size -! mapped_size in
    let remaining_pages := remaining_size / PageSize in
    ok <- reserve remaining_size ;;
    if negb ok then ret ERR_RESOURCE_LIMIT_EXCEEDED
    else
      group <- pool_allocate remaining_pages ;;
      CASCADE_CODE guarded (pool_free group.1 remaining_pages ;;; release remaining_size) (ret group.2) ;;
      MapPhysicalMemory_entries group.1 addr end_addr ;;;
      modify_table (fun t => Some (with_usage t (physical_memory_usage t +! remaining_size))) ;;;
      set_blocks (fun b => UpdateIf b addr (size / PageSize) MemoryState_Free MemoryPermission_None MemoryAttribute_None
                             MemoryState_Normal MemoryPermission_ReadAndWrite MemoryAttribute_None) ;;;
      ret RESULT_SUCCESS.

(** The callback of [UnmapMemory] over the blocks of the range. *)
Fixpoint unmap_blocks (infos : list MemoryBlock) (addr end_addr : Z) (l : list MM.Node) : M (list MM.Node) :=
  match infos with
  | [] => ret l
  | info :: infos =>
      if state info =? MemoryState_Normal then
        let block_num_pages := GetSizeInRange info addr end_addr / PageSize in
        let block_addr := GetAddressInRange info addr in
        l <- AddRegionToPages block_addr block_num_pages l ;;
        Operate block_addr block_num_pages MemoryPermission_None Op_Unmap 0 ;;;
        unmap_blocks infos addr end_addr l
      else unmap_blocks infos addr end_addr l
  end.

Definition UnmapMemory (addr size : Z) : M Z :=
  let end_addr := addr +! size in
  t <- table ;;
  infos <- lift (IterateForRange (block_manager t) addr end_addr) ;;
  l <- unmap_blocks infos addr end_addr [] ;;
  let num_pages := size / PageSize in
  pool_free l num_pages ;;;
  update addr num_pages MemoryState_Free MemoryPermission_None MemoryAttribute_None ;;;
  ret RESULT_SUCCESS.

(** The verification of [UnmapPhysicalMemory]: the result and the size mapped. *)
Definition unmap_check (infos : list MemoryBlock) (addr end_addr : Z) : Z * Z :=
  foldl (fun acc info =>
    let '(result, mapped_size) := acc in
    if state info =? MemoryState_Normal then
      if negb (attribute info =? MemoryAttribute_None) then (ERR_INVALID_ADDRESS_STATE, mapped_size)
      else (result, mapped_size +! GetSizeInRange info addr end_addr)
    else if negb (state info =? MemoryState_Free) then (ERR_INVALID_ADDRESS_STATE, mapped_size)
    else (result, mapped_size)) (RESULT_SUCCESS, 0) infos.

Definition UnmapPhysicalMemory (addr size : Z) : M Z :=
  let end_addr := addr +! size in
  t <- table ;;
  infos <- lift (IterateForRange (block_manager t) addr end_addr) ;;
  let '(result, mapped_size) := unmap_check infos addr end_addr in
  if negb (result =? RESULT_SUCCESS) then ret result
  else if mapped_size =? 0 then ret RESULT_SUCCESS
  else
    CASCADE_CODE UnmapMemory addr size ;;
    release mapped_size ;;;
    modify_table (fun t => Some (with_usage t (physical_memory_usage t -! mapped_size))) ;;;
    ret RESULT_SUCCESS.

Definition Map (dst_addr src_addr size : Z) : M Z :=
  checked src_addr size MemoryState_FlagCanAlias MemoryState_FlagCanAlias MemoryPermission_Mask
    MemoryPermission_ReadAndWrite MemoryAttribute_Mask MemoryAttribute_None MemoryAttribute_IpcAndDeviceMapped
    (fun src_state _ _ =>
  mapped <- IsRegionMapped dst_addr size ;;
  if mapped then ret ERR_INVALID_ADDRESS_STATE
  else
    let num_pages := size / PageSize in
    l <- AddRegionToPages src_addr num_pages [] ;;
    CASCADE_CODE guarded (Operate src_addr num_pages MemoryPermission_ReadAndWrite Op_ChangePermissions 0 ;;; ret tt)
      (CASCADE_CODE Operate src_addr num_pages MemoryPermission_None Op_ChangePermissions 0 ;;
       MapPages_entries dst_addr l MemoryPermission_ReadAndWrite) ;;
    update src_addr num_pages src_state MemoryPermission_None MemoryAttribute_Locked ;;;
    update dst_addr num_pages MemoryState_Stack MemoryPermission_ReadAndWrite MemoryAttribute_None ;;;
    ret RESULT_SUCCESS).

Definition Unmap (dst_addr src_addr size : Z) : M Z :=
  checked src_addr size MemoryState_FlagCanAlias MemoryState_FlagCanAlias MemoryPermission_Mask MemoryPermission_None
    MemoryAttribute_Mask MemoryAttribute_Locked MemoryAttribute_IpcAndDeviceMapped (fun src_state _ _ =>
  checked dst_addr size MemoryState_All MemoryState_Stack MemoryPermission_None MemoryPermission_None
    MemoryAttribute_Mask MemoryAttribute_None MemoryAttribute_IpcAndDeviceMapped (fun _ dst_perm _ =>
  let num_pages := size / PageSize in
  src_pages <- AddRegionToPages src_addr num_pages [] ;;
  dst_pages <- AddRegionToPages dst_addr num_pages [] ;;
  if negb (IsEqual dst_pages src_pages) then ret ERR_INVALID_MEMORY_RANGE
  else
    CASCADE_CODE guarded (MapPages_entries dst_addr dst_pages dst_perm ;;; ret tt)
      (CASCADE_CODE Operate dst_addr num_pages MemoryPermission_None Op_Unmap 0 ;;
       Operate src_addr num_pages MemoryPermission_ReadAndWrite Op_ChangePermissions 0) ;;
    update src_addr num_pages src_state MemoryPermission_ReadAndWrite MemoryAttribute_None ;;;
    update dst_addr num_pages MemoryState_Free MemoryPermission_None MemoryAttribute_None ;;;
    ret RESULT_SUCCESS)).

Definition MapPages (addr : Z) (l : list MM.Node) (state perm : Z) : M Z :=
  let num_pages := MM.GetNumPages l in
  let size := num_pages *! PageSize in
  t <- table ;;
  if negb (CanContain (layout t) addr size state) then ret ERR_INVALID_ADDRESS_STATE
  else
    mapped <- IsRegionMapped addr (num_pages *! PageSize) ;;
    if mapped then ret ERR_INVALID_ADDRESS_STATE
    else
      CASCADE_CODE MapPages_entries addr l perm ;;
      update addr num_pages state perm MemoryAttribute_None ;;;
      ret RESULT_SUCCESS.

(** ** Permissions and attributes *)

Definition SetCodeMemoryPermission (addr size perm : Z) : M Z :=
  checked addr size MemoryState_FlagCode MemoryState_FlagCode MemoryPermission_None MemoryPermission_None
    MemoryAttribute_Mask MemoryAttribute_None MemoryAttribute_IpcAndDeviceMapped (fun prev_state prev_perm _ =>
  let state :=
    if negb (perm .& MemoryPermission_Write =? MemoryPermission_None) then
      if prev_state =? MemoryState_Code then MemoryState_CodeData
      else if prev_state =? MemoryState_AliasCode then MemoryState_AliasCodeData
      else prev_state
    else prev_state in
  if (state =? prev_state) && (perm =? prev_perm) then ret RESULT_SUCCESS
  else
    let num_pages := size / PageSize in
    let operation :=
      if negb (perm .& MemoryPermission_Execute =? MemoryPermission_None) then Op_ChangePermissionsAndRefresh
      else Op_ChangePermissions in
    CASCADE_CODE Operate addr num_pages perm operation 0 ;;
    update addr num_pages state perm MemoryAttribute_None ;;;
    ret RESULT_SUCCESS).

Definition ReserveTransferMemory (addr size perm : Z) : M Z :=
  checked addr size (MemoryState_FlagCanTransfer .| MemoryState_FlagReferenceCounted)
    (MemoryState_FlagCanTransfer .| MemoryState_FlagReferenceCounted) MemoryPermission_Mask MemoryPermission_ReadAndWrite
    MemoryAttribute_Mask MemoryAttribute_None MemoryAttribute_IpcAndDeviceMapped (fun state _ attribute =>
  update addr (size / PageSize) state perm (attribute .| MemoryAttribute_Locked) ;;;
  ret RESULT_SUCCESS).

Definition ResetTransferMemory (addr size : Z) : M Z :=
  checked addr size (MemoryState_FlagCanTransfer .| MemoryState_FlagReferenceCounted)
    (MemoryState_FlagCanTransfer .| MemoryState_FlagReferenceCounted) MemoryPermission_None MemoryPermission_None
    MemoryAttribute_Mask MemoryAttribute_Locked MemoryAttribute_IpcAndDeviceMapped (fun state _ _ =>
  update addr (size / PageSize) state MemoryPermission_ReadAndWrite MemoryAttribute_None ;;;
  ret RESULT_SUCCESS).

Definition SetMemoryAttribute (addr size mask value : Z) : M Z :=
  checked addr size MemoryState_FlagCanChangeAttribute MemoryState_FlagCanChangeAttribute MemoryPermission_None
    MemoryPermission_None MemoryAttribute_LockedAndIpcLocked MemoryAttribute_None MemoryAttribute_DeviceSharedAndUncached
    (fun state perm attribute =>
  let attribute := attribute .& to_u8 (Z.lnot mask) in
  let attribute := attribute .| (mask .& value) in
  update addr (size / PageSize) state perm attribute ;;;
  ret RESULT_SUCCESS).

Definition LockForDeviceAddressSpace (addr size : Z) : M Z :=
  checked addr size MemoryState_FlagCanChangeAttribute MemoryState_FlagCanChangeAttribute MemoryPermission_None
    MemoryPermission_None MemoryAttribute_LockedAndIpcLocked MemoryAttribute_None MemoryAttribute_DeviceSharedAndUncached
    (fun _ _ _ =>
  set_blocks (fun b => UpdateLock b addr (size / PageSize) ShareToDevice) ;;;
  ret RESULT_SUCCESS).
Definition UnlockForDeviceAddressSpace (addr size : Z) : M Z :=
  checked addr size MemoryState_FlagCanChangeAttribute MemoryState_FlagCanChangeAttribute MemoryPermission_None
    MemoryPermission_None MemoryAttribute_LockedAndIpcLocked MemoryAttribute_None MemoryAttribute_DeviceSharedAndUncached
    (fun _ _ _ =>
  set_blocks (fun b => UpdateLock b addr (size / PageSize) UnshareToDevice) ;;;
  ret RESULT_SUCCESS).

(** [MemoryInfo] and [MemoryBlock::GetMemoryInfo]. *)
Record MemoryInfo := {
  info_addr : Z; info_size : Z; info_state : Z; info_perm : Z; info_attribute : Z; info_original_perm : Z;
  info_ipc_lock_count : Z; info_device_use_count : Z;
}.
Definition GetMemoryInfo (b : MemoryBlock) : MemoryInfo :=
  {| info_addr := addr b; info_size := GetSize b; info_state := state b; info_perm := perm b; info_attribute := attribute b;
     info_original_perm := original_perm b; info_ipc_lock_count := ipc_lock_count b;
     info_device_use_count := device_use_count b |}.

Definition QueryInfoImpl (t : PageTable) (addr : Z) : option MemoryInfo :=
  block ← head (FindIterator (block_manager t) addr); Some (GetMemoryInfo block).
Definition QueryInfo (t : PageTable) (addr : Z) : option MemoryInfo :=
  if negb (Contains (layout t) addr 1) then
    Some {| info_addr := address_space_end (layout t); info_size := 0 -! address_space_end (layout t);
            info_state := MemoryState_Inaccessible; info_perm := MemoryPermission_None; info_attribute := MemoryAttribute_None;
            info_original_perm := MemoryPermission_None; info_ipc_lock_count := 0; info_device_use_count := 0 |}
  else QueryInfoImpl t addr.

(** ** Questions about regions *)

Definition GetAliasCodeRegionSize (l : Layout) : Z := alias_code_region_end l -! alias_code_region_start l.
Definition GetHeapSize (t : PageTable) : Z := current_heap_addr t -! heap_region_start (layout t).
Definition GetTotalHeapSize (t : PageTable) : Z := GetHeapSize t +! physical_memory_usage t.
Definition IsInsideAddressSpace (l : Layout) (address size : Z) : bool :=
  (address_space_start l <=? address) && (address +! size -! 1 <=? address_space_end l -! 1).
Definition IsOutsideAliasRegion (l : Layout) (address size : Z) : bool :=
  (address <? alias_region_start l) || (alias_region_end l -! 1 <? address +! size -! 1).
Definition IsOutsideStackRegion (l : Layout) (address size : Z) : bool :=
  (address <? stack_region_start l) || (stack_region_end l -! 1 <? address +! size -! 1).
Definition IsInvalidRegion (l : Layout) (address size : Z) : bool :=
  alias_code_region_start l +! GetAliasCodeRegionSize l -! 1 <? address +! size -! 1.
Definition IsInsideHeapRegion (l : Layout) (address size : Z) : bool :=
  (heap_region_start l <? address +! size) && (address <? heap_region_end l).
Definition IsInsideAliasRegion (l : Layout) (address size : Z) : bool :=
  (alias_region_start l <? address +! size) && (address <? alias_region_end l).
Definition IsOutsideASLRRegion (l : Layout) (address size : Z) : bool :=
  if IsInvalidRegion l address size then true
  else if IsInsideHeapRegion l address size then true
  else if IsInsideAliasRegion l address size then true
  else false.
Definition IsInsideASLRRegion (l : Layout) (address size : Z) : bool := negb (IsOutsideASLRRegion l address size).

(** ** Heap and allocation *)

Definition SetHeapCapacity (new_heap_capacity : Z) : M Z :=
  modify_table (fun t => Some (with_capacity t new_heap_capacity)) ;;; ret RESULT_SUCCESS.

Definition SetHeapSize (size : Z) : M (ResultVal Z) :=
  t <- table ;;
  let l := layout t in
  if heap_region_end l -! heap_region_start l <? size then ret (Error ERR_OUT_OF_MEMORY)
  else
    let previous_heap_size := GetHeapSize t in
    let delta := size -! previous_heap_size in
    ok <- (if delta =? 0 then ret true else reserve delta) ;;
    if negb ok then ret (Error ERR_RESOURCE_LIMIT_EXCEEDED)
    else
      let num_pages := delta / PageSize in
      group <- pool_allocate num_pages ;;
      CASCADE_VAL ret group.2 ;;
      mapped <- IsRegionMapped (current_heap_addr t) delta ;;
      if mapped then ret (Error ERR_INVALID_ADDRESS_STATE)
      else
        CASCADE_VAL Operate_group (current_heap_addr t) num_pages group.1 Op_MapGroup ;;
        update (current_heap_addr t) num_pages MemoryState_Normal MemoryPermission_ReadAndWrite MemoryAttribute_None ;;;
        modify_table (fun t => Some (with_heap_addr t (heap_region_start l +! size))) ;;;
        ret (MakeResult (heap_region_start l)).

Definition AllocateVirtualMemory (t : PageTable) (start region_num_pages needed_num_pages align : Z) : Z :=
  FindFreeArea (block_manager t) start region_num_pages needed_num_pages align 0 (if is_kernel (layout t) then 1 else 4).

Definition AllocateAndMapMemory (needed_num_pages align : Z) (is_map_only : bool) (region_start region_num_pages state perm
    map_addr : Z) : M (ResultVal Z) :=
  t <- table ;;
  if negb (CanContain (layout t) region_start (region_num_pages *! PageSize) state)
  then ret (Error ERR_INVALID_ADDRESS_STATE)
  else if region_num_pages <=? needed_num_pages then ret (Error ERR_OUT_OF_MEMORY)
  else
    let addr := AllocateVirtualMemory t region_start region_num_pages needed_num_pages align in
    if addr =? 0 then ret (Error ERR_OUT_OF_MEMORY)
    else
      CASCADE_VAL (if is_map_only then Operate addr needed_num_pages perm Op_Map map_addr
                   else
                     group <- pool_allocate needed_num_pages ;;
                     CASCADE_CODE ret group.2 ;;
                     Operate_group addr needed_num_pages group.1 Op_MapGroup) ;;
      update addr needed_num_pages state perm MemoryAttribute_None ;;;
      ret (MakeResult addr).

End PageTable.
