(* ===== verification/PageTableInit.v ===== *)
(** * The regions of an address space

    [PageTable::InitializeForProcess]
    ([src/src/core/hle/kernel/memory/page_table.cpp]): the heap, alias, stack
    and kernel-map regions are placed at random in the space that the code
    leaves.  For every address-space type and all random numbers they lie in
    the address space, are aligned and do not overlap. *)

From S2P Require Import Prelude BitUtil KernelObject PageHeap PageBitmap MemoryState MemoryBlockManager MemoryBlockCorrect.
From S2P Require Import AddressSpace PageTable.
From stdpp Require Import base list gmap.
Open Scope Z_scope.
Open Scope c_scope.

Import PageTable.PageTable.
Module AS := AddressSpace.AddressSpace.

Module PageTableInit.

(** [FileSys::ProgramAddressSpaceType]. *)
Inductive ProgramAddressSpaceType := Is32Bit | Is36Bit | Is32BitNoMap | Is39Bit.
#[global] Instance program_address_space_type_eq_dec : EqDecision ProgramAddressSpaceType.
Proof. solve_decision. Defined.

Definition GetAddressSpaceWidthFromType (as_type : ProgramAddressSpaceType) : Z :=
  match as_type with
  | Is32Bit | Is32BitNoMap => 32
  | Is36Bit => 36
  | Is39Bit => 39
  end.

Definition RegionAlignment : Z := 2 * 1024 * 1024.

(** A region is its start and its end. *)
Definition place (alloc_start rnd size : Z) : Z * Z := (alloc_start +! rnd, alloc_start +! rnd +! size).
Definition shift (r : Z * Z) (k : Z) : Z * Z := (r.1 +! k, r.2 +! k).
(** [if (before) { b += size_a } else { a += size_b }] on starts and ends. *)
Definition arrange (before : bool) (a b : Z * Z) (size_a size_b : Z) : (Z * Z) * (Z * Z) :=
  if before then (a, shift b size_a) else (shift a size_b, b).

(** The four random placements; the draws left. *)
Definition draw_region (remaining_size : Z) (draws : list Z) : option (Z * list Z) :=
  '(n, draws) ← AS.GenerateRandomRange 0 (remaining_size / RegionAlignment) draws;
  Some (n *! RegionAlignment, draws).
Definition draw_regions (enable_aslr : bool) (remaining_size : Z) (draws : list Z) : option (Z * Z * Z * Z * list Z) :=
  if enable_aslr then
    '(alias_rnd, draws) ← draw_region remaining_size draws;
    '(heap_rnd, draws) ← draw_region remaining_size draws;
    '(stack_rnd, draws) ← draw_region remaining_size draws;
    '(kmap_rnd, draws) ← draw_region remaining_size draws;
    Some (alias_rnd, heap_rnd, stack_rnd, kmap_rnd, draws)
  else Some (0, 0, 0, 0, draws).

Record Regions := { alias : Z * Z; heap : Z * Z; stack : Z * Z; kmap : Z * Z }.

(** The set-up of the regions; [stack0] and [kmap0] are what the members hold
    when the sizes are 0. *)
Definition arrange_regions (alloc_start alias_size heap_size stack_size kmap_size alias_rnd heap_rnd stack_rnd kmap_rnd : Z)
    (stack0 kmap0 : Z * Z) : Regions :=
  let alias := place alloc_start alias_rnd alias_size in
  let heap := place alloc_start heap_rnd heap_size in
  let '(alias, heap) := arrange (alias_rnd <=? heap_rnd) alias heap alias_size heap_size in
  let '(alias, heap, stack) :=
    if negb (stack_size =? 0) then
      let stack := place alloc_start stack_rnd stack_size in
      let '(alias, stack) := arrange (alias_rnd <? stack_rnd) alias stack alias_size stack_size in
      let '(heap, stack) := arrange (heap_rnd <? stack_rnd) heap stack heap_size stack_size in
      (alias, heap, stack)
    else (alias, heap, stack0) in
  let '(alias, heap, stack, kmap) :=
    if negb (kmap_size =? 0) then
      let kmap := place alloc_start kmap_rnd kmap_size in
      let '(alias, kmap) := arrange (alias_rnd <? kmap_rnd) alias kmap alias_size kmap_size in
      let '(heap, kmap) := arrange (heap_rnd <? kmap_rnd) heap kmap heap_size kmap_size in
      let '(stack, kmap) :=
        if negb (stack_size =? 0) then arrange (stack_rnd <? kmap_rnd) stack kmap stack_size kmap_size
        else (stack, kmap) in
      (alias, heap, stack, kmap)
    else (alias, heap, stack, kmap0) in
  {| alias := alias; heap := heap; stack := stack; kmap := kmap |}.

(** The sizes and the code regions for the width. *)
Record Spaces := {
  alias_size : Z; heap_size : Z; stack_size : Z; kmap_size : Z;
  code_region : Z * Z; alias_code_region : Z * Z; process_code : Z * Z;
  stack0 : Z * Z; kmap0 : Z * Z;
}.

Definition spaces (as_type : ProgramAddressSpaceType) (t0 : Layout) (code_addr code_size : Z) : option Spaces :=
  let width := GetAddressSpaceWidthFromType as_type in
  alias_region_size ← AS.GetAddressSpaceSize width AS.Alias;
  heap_region_size ← AS.GetAddressSpaceSize width AS.Heap;
  let '(alias_region_size, heap_region_size) :=
    match as_type with
    | Is32BitNoMap => (0, heap_region_size +! alias_region_size)
    | _ => (alias_region_size, heap_region_size)
    end in
  if width =? 39 then
    alias_region_size ← AS.GetAddressSpaceSize width AS.Alias;
    heap_region_size ← AS.GetAddressSpaceSize width AS.Heap;
    stack_region_size ← AS.GetAddressSpaceSize width AS.Stack;
    kernel_map_region_size ← AS.GetAddressSpaceSize width AS.Is32Bit;
    code_start ← AS.GetAddressSpaceStart width AS.Large64Bit;
    code_sz ← AS.GetAddressSpaceSize width AS.Large64Bit;
    let code := (code_start, code_start +! code_sz) in
    Some {| alias_size := alias_region_size; heap_size := heap_region_size; stack_size := stack_region_size;
            kmap_size := kernel_map_region_size; code_region := code; alias_code_region := code;
            process_code := (AlignDown code_addr RegionAlignment, AlignUp (code_addr +! code_size) RegionAlignment);
            stack0 := (stack_region_start t0, stack_region_end t0);
            kmap0 := (kernel_map_region_start t0, kernel_map_region_end t0) |}
  else
    code_start ← AS.GetAddressSpaceStart width AS.Is32Bit;
    code_sz ← AS.GetAddressSpaceSize width AS.Is32Bit;
    small_start ← AS.GetAddressSpaceStart width AS.Small64Bit;
    small_sz ← AS.GetAddressSpaceSize width AS.Small64Bit;
    let code := (code_start, code_start +! code_sz) in
    Some {| alias_size := alias_region_size; heap_size := heap_region_size; stack_size := 0; kmap_size := 0;
            code_region := code; alias_code_region := (code_start, small_start +! small_sz);
            process_code := code; stack0 := code; kmap0 := code |}.

(** The members once the regions are known. *)
Definition make_layout (sp : Spaces) (r : Regions) (width end_ : Z) (enable_aslr : bool) (pool : nat) : Layout :=
  {| address_space_start := 0; address_space_end := end_;
     heap_region_start := (heap r).1; heap_region_end := (heap r).2; current_heap_end := (heap r).1;
     alias_region_start := (alias r).1; alias_region_end := (alias r).2;
     stack_region_start := (stack r).1; stack_region_end := (stack r).2;
     kernel_map_region_start := (kmap r).1; kernel_map_region_end := (kmap r).2;
     code_region_start := (code_region sp).1; code_region_end := (code_region sp).2;
     alias_code_region_start := (alias_code_region sp).1; alias_code_region_end := (alias_code_region sp).2;
     max_heap_size := 0; max_physical_memory_size := 0; address_space_width := width;
     is_kernel := false; is_aslr_enabled := enable_aslr; memory_pool := pool |}.

(** The members already written when the space is too small. *)
Definition failed_layout (l0 : Layout) (sp : Spaces) (width end_ : Z) (enable_aslr : bool) : Layout :=
  {| address_space_start := 0; address_space_end := end_;
     heap_region_start := heap_region_start l0; heap_region_end := heap_region_end l0;
     current_heap_end := current_heap_end l0;
     alias_region_start := alias_region_start l0; alias_region_end := alias_region_end l0;
     stack_region_start := (stack0 sp).1; stack_region_end := (stack0 sp).2;
     kernel_map_region_start := (kmap0 sp).1; kernel_map_region_end := (kmap0 sp).2;
     code_region_start := (code_region sp).1; code_region_end := (code_region sp).2;
     alias_code_region_start := (alias_code_region sp).1; alias_code_region_end := (alias_code_region sp).2;
     max_heap_size := max_heap_size l0; max_physical_memory_size := max_physical_memory_size l0;
     address_space_width := width; is_kernel := false; is_aslr_enabled := enable_aslr; memory_pool := memory_pool l0 |}.

(** The larger of the gaps before and after the code of the process. *)
Definition alloc_range (end_ : Z) (process_code : Z * Z) (code_region_start : Z) : Z * Z :=
  let '(process_code_start, process_code_end) := process_code in
  if end_ -! process_code_end <=? process_code_start -! code_region_start
  then (code_region_start, process_code_start -! code_region_start)
  else (process_code_end, end_ -! process_code_end).

Definition InitializeForProcess (t0 : PageTable) (as_type : ProgramAddressSpaceType) (enable_aslr : bool)
    (code_addr code_size : Z) (pool : nat) (draws : list Z) : option (PageTable * Z * list Z) :=
  let width := GetAddressSpaceWidthFromType as_type in
  let end_ := 1 <<! width in
  sp ← spaces as_type (layout t0) code_addr code_size;
  let '(alloc_start, alloc_size) := alloc_range end_ (process_code sp) (code_region sp).1 in
  let needed_size := alias_size sp +! heap_size sp +! stack_size sp +! kmap_size sp in
  if alloc_size <? needed_size then
    Some ({| layout := failed_layout (layout t0) sp width end_ enable_aslr; block_manager := block_manager t0;
             current_heap_addr := current_heap_addr t0; heap_capacity := heap_capacity t0;
             physical_memory_usage := physical_memory_usage t0; page_table_impl := page_table_impl t0 |},
          ERR_OUT_OF_MEMORY, draws)
  else
    let remaining_size := alloc_size -! needed_size in
    '(alias_rnd, heap_rnd, stack_rnd, kmap_rnd, draws) ← draw_regions enable_aslr remaining_size draws;
    let r := arrange_regions alloc_start (alias_size sp) (heap_size sp) (stack_size sp) (kmap_size sp) alias_rnd heap_rnd
               stack_rnd kmap_rnd (stack0 sp) (kmap0 sp) in
    Some ({| layout := make_layout sp r width end_ enable_aslr pool; block_manager := MemoryBlockManager_new 0 end_;
             current_heap_addr := (heap r).1; heap_capacity := 0; physical_memory_usage := 0;
             page_table_impl := Resize width PageBits |}, RESULT_SUCCESS, draws).

End PageTableInit.
Import PageTableInit.

(** ** Random placements *)

(** The draws that [GenerateUniformRange] accepts for every range used here. *)
Definition accepted (d : Z) : bool := d <? 2 ^ 64 - 2 ^ 19.
Definition good_draws (n : nat) (draws : list Z) : Prop :=
  Forall is_u64 draws /\ (n <= length (List.filter accepted draws))%nat.

Lemma uniform_loop_spec n draws min range_size effective_max :
  0 < range_size -> 2 ^ 64 - 2 ^ 19 <= effective_max -> 0 <= min -> min + range_size <= 2 ^ 64 -> good_draws (S n) draws ->
  exists r draws', AS.uniform_loop draws min range_size effective_max = Some (r, draws')
    /\ min <= r < min + range_size /\ good_draws n draws'.
Proof.
  intros Hr Hm Hmin Hb [Hu Hn]. induction draws as [|d draws IH]; cbn [List.filter length] in Hn; [lia|].
  apply Forall_cons in Hu as [Hd Hu]. unfold is_u64 in Hd. cbn [AS.uniform_loop].
  pose proof (Z.mod_pos_bound d range_size Hr). unfold accepted in Hn at 1. destruct (Z.ltb_spec d effective_max).
  - rewrite to_u64_id by (unfold is_u64; lia). do 2 eexists. split; [done|]. split; [lia|]. split; [done|].
    destruct (d <? 2 ^ 64 - 2 ^ 19); cbn [length] in Hn; lia.
  - destruct (Z.ltb_spec d (2 ^ 64 - 2 ^ 19)); [lia|]. apply IH; done.
Qed.

Lemma draw_region_spec n rem draws : 0 <= rem <= 2 ^ 39 -> good_draws (S n) draws ->
  exists rnd draws', draw_region rem draws = Some (rnd, draws')
    /\ 0 <= rnd <= rem /\ (RegionAlignment | rnd) /\ good_draws n draws'.
Proof.
  intros Hr Hd. unfold draw_region, AS.GenerateRandomRange, AS.GenerateUniformRange, RegionAlignment.
  pose proof (Z.div_pos rem (2 * 1024 * 1024) ltac:(lia) ltac:(lia)) as H0.
  pose proof (Z.mul_div_le rem (2 * 1024 * 1024) ltac:(lia)) as H1. set (m := rem / (2 * 1024 * 1024)) in *.
  destruct (Z.eqb_spec m 0xFFFFFFFFFFFFFFFF); [lia|]. cbn [andb].
  rewrite (to_u64_id (m + 1)), (to_u64_id (m + 1 - 0)), Z.sub_0_r by (unfold is_u64; lia).
  pose proof (Z.div_mod 0xFFFFFFFFFFFFFFFF (m + 1) ltac:(lia)). pose proof (Z.mod_pos_bound 0xFFFFFFFFFFFFFFFF (m + 1) ltac:(lia)).
  rewrite to_u64_id by (unfold is_u64; nia).
  destruct (uniform_loop_spec n draws 0 (m + 1) (0xFFFFFFFFFFFFFFFF / (m + 1) * (m + 1))) as (r & draws' & -> & Hb & Hg);
    [lia|lia|lia|lia|done|].
  cbn [mbind option_bind]. rewrite to_u64_id by (unfold is_u64; lia). do 2 eexists. split; [done|].
  split; [lia|]. split; [apply Z.divide_factor_r|done].
Qed.

Lemma draw_regions_spec aslr rem draws : 0 <= rem <= 2 ^ 39 -> (aslr = true -> good_draws 4 draws) ->
  exists a h s k draws', draw_regions aslr rem draws = Some (a, h, s, k, draws')
    /\ Forall (fun r => 0 <= r <= rem /\ (RegionAlignment | r)) [a; h; s; k].
Proof.
  intros Hr Hd. destruct aslr; cbn [draw_regions].
  - destruct (draw_region_spec 3 rem draws Hr (Hd eq_refl)) as (a & d1 & -> & A1 & A2 & G1).
    destruct (draw_region_spec 2 rem d1 Hr G1) as (h & d2 & E2 & B1 & B2 & G2). cbn [mbind option_bind]. rewrite E2.
    destruct (draw_region_spec 1 rem d2 Hr G2) as (s & d3 & E3 & C1 & C2 & G3). cbn [mbind option_bind]. rewrite E3.
    destruct (draw_region_spec 0 rem d3 Hr G3) as (k & d4 & E4 & D1 & D2 & G4). cbn [mbind option_bind]. rewrite E4.
    cbn [mbind option_bind]. do 5 eexists. split; [done|]. repeat constructor; done || lia.
  - do 5 eexists. split; [done|]. repeat constructor; try lia; apply Z.divide_0_r.
Qed.

(** ** Regions do not overlap *)

Definition disjoint (a b : Z * Z) : Prop := a.2 <= b.1 \/ b.2 <= a.1.
Definition inside (a b : Z * Z) : Prop := b.1 <= a.1 /\ a.1 <= a.2 /\ a.2 <= b.2.
Definition aligned (a : Z * Z) : Prop := (RegionAlignment | a.1) /\ (RegionAlignment | a.2).

(** All pairs of a list of regions are disjoint. *)
Definition all_disjoint (l : list (Z * Z)) : Prop := ForallOrdPairs disjoint l.

(** Removes the wrap-around of sums that do not wrap, innermost first. *)
Ltac unwrap_inner :=
  repeat match goal with
  | |- context [to_u64 ?x] =>
      lazymatch x with
      | context [to_u64 _] => fail
      | _ => rewrite (to_u64_id x) by (unfold is_u64; lia)
      end
  end.

(** Proves a statement on all elements or all pairs of a concrete list. *)
Ltac each_pair tac :=
  repeat match goal with
  | |- ForallOrdPairs _ _ => constructor
  | |- Forall _ _ => constructor
  end; tac.

Definition region_size (a : Z * Z) : Z := a.2 - a.1.

Section Arrange.
Context (start size rem sa sh ss sk a h s k : Z).
Hypothesis (Hst : 0 <= start) (Hend : start + size <= 2 ^ 39) (Hsize : size = sa + sh + ss + sk + rem)
  (Hsa : 0 <= sa) (Hsh : 0 <= sh) (Hss : 0 <= ss) (Hsk : 0 <= sk)
  (Ha : 0 <= a <= rem) (Hh : 0 <= h <= rem) (Hs : 0 <= s <= rem) (Hk : 0 <= k <= rem).

(** The regions that are placed: the stack and kernel-map regions only when
    their sizes are not 0. *)
Definition placed (r : Regions) : list (Z * Z) :=
  [alias r; heap r] ++ (if ss =? 0 then [] else [stack r]) ++ (if sk =? 0 then [] else [kmap r]).

Lemma arrange_regions_disjoint stack0 kmap0 :
  let r := arrange_regions start sa sh ss sk a h s k stack0 kmap0 in
  all_disjoint (placed r) /\ Forall (fun x => inside x (start, start + size)) (placed r)
  /\ map region_size (placed r) = [sa; sh] ++ (if ss =? 0 then [] else [ss]) ++ (if sk =? 0 then [] else [sk])
  /\ (ss = 0 -> stack r = stack0) /\ (sk = 0 -> kmap r = kmap0).
Proof.
  cbv zeta. unfold placed, arrange_regions, arrange, place, shift.
  destruct (Z.eqb_spec ss 0), (Z.eqb_spec sk 0), (Z.leb_spec a h), (Z.ltb_spec a s), (Z.ltb_spec h s), (Z.ltb_spec a k),
    (Z.ltb_spec h k), (Z.ltb_spec s k); try lia.
  all: cbn [negb fst snd alias heap stack kmap app map region_size].
  all: unwrap_inner.
  all: split; [unfold all_disjoint; each_pair ltac:(unfold disjoint; cbn [fst snd]; lia)|].
  all: split; [each_pair ltac:(unfold inside; cbn [fst snd]; lia)|].
  all: split; [unfold region_size; cbn [fst snd]; repeat f_equal; lia|split; intros; done || lia].
Qed.

(** [RegionAlignment] divides 2^64, so sums that wrap stay aligned. *)
Lemma divide_to_u64 x : (RegionAlignment | x) -> (RegionAlignment | to_u64 x).
Proof.
  intros H. rewrite to_u64_mod, Z.mod_eq by done. apply Z.divide_sub_r; [done|].
  apply Z.divide_mul_l. by exists (2 ^ 43).
Qed.
Lemma aligned_place x y z : (RegionAlignment | x) -> (RegionAlignment | y) -> (RegionAlignment | z) -> aligned (place x y z).
Proof. intros. split; cbn [place fst snd]; auto using divide_to_u64, Z.divide_add_r. Qed.
Lemma aligned_shift r x : aligned r -> (RegionAlignment | x) -> aligned (shift r x).
Proof. intros [H1 H2] H. split; cbn [shift fst snd]; auto using divide_to_u64, Z.divide_add_r. Qed.
Lemma aligned_arrange b r1 r2 x y : aligned r1 -> aligned r2 -> (RegionAlignment | x) -> (RegionAlignment | y) ->
  aligned (arrange b r1 r2 x y).1 /\ aligned (arrange b r1 r2 x y).2.
Proof. destruct b; cbn [arrange fst snd]; auto using aligned_shift. Qed.

Lemma arrange_regions_aligned stack0 kmap0 :
  Forall (fun x => (RegionAlignment | x)) [start; sa; sh; ss; sk; a; h; s; k] ->
  Forall aligned (placed (arrange_regions start sa sh ss sk a h s k stack0 kmap0)).
Proof.
  intros H. rewrite !List.Forall_cons_iff in H. destruct H as (H1 & H2 & H3 & H4 & H5 & H6 & H7 & H8 & H9 & _).
  unfold placed, arrange_regions, arrange.
  destruct (ss =? 0), (sk =? 0), (a <=? h), (a <? s), (h <? s), (a <? k), (h <? k), (s <? k);
    cbn [negb alias heap stack kmap app]; auto 10 using aligned_place, aligned_shift.
Qed.
End Arrange.

(** The draws and the placement together. *)
Lemma place_regions aslr draws start size sa sh ss sk stack0 kmap0 :
  (aslr = true -> good_draws 4 draws) -> 0 <= start -> start + size <= 2 ^ 39 -> sa + sh + ss + sk <= size ->
  0 <= sa -> 0 <= sh -> 0 <= ss -> 0 <= sk -> Forall (fun x => (RegionAlignment | x)) [start; sa; sh; ss; sk] ->
  exists a h s k draws', draw_regions aslr (size - (sa + sh + ss + sk)) draws = Some (a, h, s, k, draws')
    /\ let r := arrange_regions start sa sh ss sk a h s k stack0 kmap0 in
       all_disjoint (placed ss sk r) /\ Forall (fun x => inside x (start, start + size)) (placed ss sk r)
       /\ map region_size (placed ss sk r) = [sa; sh] ++ (if ss =? 0 then [] else [ss]) ++ (if sk =? 0 then [] else [sk])
       /\ Forall aligned (placed ss sk r).
Proof.
  intros Hd H0 H1 H2 Ha Hh Hs Hk Hal.
  destruct (draw_regions_spec aslr (size - (sa + sh + ss + sk)) draws ltac:(lia) Hd) as (a & h & s & k & draws' & E & Hf).
  exists a, h, s, k, draws'. split; [done|]. rewrite !List.Forall_cons_iff in Hf. rewrite !List.Forall_cons_iff in Hal.
  destruct Hf as ((A1 & A2) & (B1 & B2) & (C1 & C2) & (D1 & D2) & _), Hal as (L1 & L2 & L3 & L4 & L5 & _).
  destruct (arrange_regions_disjoint start size (size - (sa + sh + ss + sk)) sa sh ss sk a h s k) with (stack0 := stack0)
    (kmap0 := kmap0) as (K1 & K2 & K3 & _); try lia.
  cbv zeta. split; [done|]. split; [done|]. split; [done|]. apply arrange_regions_aligned. auto 10.
Qed.

(** ** The address space of a process *)

(** The range that the code of the process takes. *)
Definition code_range (as_type : ProgramAddressSpaceType) (code_addr code_size : Z) : Z * Z :=
  match as_type with
  | Is39Bit => (AlignDown code_addr RegionAlignment, AlignUp (code_addr + code_size) RegionAlignment)
  | Is36Bit => (0x8000000, 0x80000000)
  | _ => (0x200000, 0x40000000)
  end.
Definition GB : Z := 2 ^ 30.
Definition region_sizes (as_type : ProgramAddressSpaceType) : list Z :=
  match as_type with
  | Is32Bit => [GB; GB]
  | Is32BitNoMap => [0; 2 * GB]
  | Is36Bit => [6 * GB; 6 * GB]
  | Is39Bit => [64 * GB; 6 * GB; 2 * GB; 64 * GB]
  end.
(** The alias and heap regions; with 39 bits also the stack and kernel-map
    regions, which are the code region in the other spaces. *)
Definition regions_of (as_type : ProgramAddressSpaceType) (l : Layout) : list (Z * Z) :=
  [(alias_region_start l, alias_region_end l); (heap_region_start l, heap_region_end l)] ++
  match as_type with
  | Is39Bit => [(stack_region_start l, stack_region_end l); (kernel_map_region_start l, kernel_map_region_end l)]
  | _ => []
  end.

(** What a successful initialisation leaves. *)
Record initialised (as_type : ProgramAddressSpaceType) (code_addr code_size : Z) (pool : nat) (t : PageTable) : Prop := {
  in_disjoint : all_disjoint (code_range as_type code_addr code_size :: regions_of as_type (layout t));
  in_space : Forall (fun x => inside x (0, 2 ^ GetAddressSpaceWidthFromType as_type)) (regions_of as_type (layout t));
  in_sizes : map region_size (regions_of as_type (layout t)) = region_sizes as_type;
  in_aligned : Forall aligned (regions_of as_type (layout t));
  in_blocks : block_tree 0 (2 ^ GetAddressSpaceWidthFromType as_type) (block_manager t);
  in_fresh : block_manager t = MemoryBlockManager_new 0 (2 ^ GetAddressSpaceWidthFromType as_type);
  in_unmapped : forall i, entry (page_table_impl t) i = unmapped_entry;
  in_entries : num_entries (page_table_impl t) * 4096 = 2 ^ GetAddressSpaceWidthFromType as_type;
  in_heap : current_heap_addr t = heap_region_start (layout t);
  in_end : address_space_end (layout t) = 2 ^ GetAddressSpaceWidthFromType as_type;
  in_pool : memory_pool (layout t) = pool;
}.

Lemma gap_disjoint code start size l : (start + size <= code.1 \/ code.2 <= start) ->
  Forall (fun x => inside x (start, start + size)) l -> all_disjoint l -> all_disjoint (code :: l).
Proof.
  intros Hc Hl Hd. constructor; [|done]. eapply Forall_impl; [done|]. intros x (H1 & H2 & H3). unfold disjoint. cbn in *. lia.
Qed.

Lemma space_bounds w (l : list (Z * Z)) start size : 0 <= start -> start + size <= 2 ^ w ->
  Forall (fun x => inside x (start, start + size)) l -> Forall (fun x => inside x (0, 2 ^ w)) l.
Proof. intros H0 H1 Hl. eapply Forall_impl; [done|]. intros x (? & ? & ?). unfold inside. cbn in *. lia. Qed.

Section Initialize.
Context (t0 : PageTable) (as_type : ProgramAddressSpaceType) (aslr : bool) (code_addr code_size : Z) (pool : nat)
  (draws : list Z).
Context (sp : Spaces) (start size : Z).
Let width := GetAddressSpaceWidthFromType as_type.
Let needed := alias_size sp + heap_size sp + stack_size sp + kmap_size sp.
Hypothesis (Hd : aslr = true -> good_draws 4 draws).
Hypothesis (Hsp : spaces as_type (layout t0) code_addr code_size = Some sp)
  (Halloc : alloc_range (1 <<! width) (process_code sp) (code_region sp).1 = (start, size)).
Hypothesis (Hst : 0 <= start) (Hsize : start + size <= 2 ^ width)
  (Hcode : start + size <= (code_range as_type code_addr code_size).1 \/ (code_range as_type code_addr code_size).2 <= start).
Hypothesis (Hal : Forall (fun x => (RegionAlignment | x)) [start; alias_size sp; heap_size sp; stack_size sp; kmap_size sp])
  (Hpos : Forall (fun x => 0 <= x <= 2 ^ 40) [alias_size sp; heap_size sp; stack_size sp; kmap_size sp]).
Hypothesis (Hregions : region_sizes as_type = [alias_size sp; heap_size sp] ++ (if stack_size sp =? 0 then [] else [stack_size sp])
                                     ++ (if kmap_size sp =? 0 then [] else [kmap_size sp])).
Hypothesis (H39 : match as_type with Is39Bit => stack_size sp <> 0 /\ kmap_size sp <> 0
                                | _ => stack_size sp = 0 /\ kmap_size sp = 0 end).

Lemma width_end : 1 <<! width = 2 ^ width /\ 2 ^ width <= 2 ^ 39 /\ num_entries (Resize width PageBits) * 4096 = 2 ^ width
  /\ 2 ^ width < 2 ^ 64 /\ (4096 | 2 ^ width) /\ 0 < 2 ^ width.
Proof.
  unfold width. destruct as_type; cbn [GetAddressSpaceWidthFromType]; split_and!; try done; try lia;
    [exists (2 ^ 20)|exists (2 ^ 24)|exists (2 ^ 20)|exists (2 ^ 27)]; done.
Qed.

(** The initialisation succeeds exactly when the gap can hold the regions. *)
Lemma initialise_case :
  exists t r draws', InitializeForProcess t0 as_type aslr code_addr code_size pool draws = Some (t, r, draws')
    /\ ((r = RESULT_SUCCESS /\ needed <= size /\ initialised as_type code_addr code_size pool t)
        \/ (r = ERR_OUT_OF_MEMORY /\ size < needed)).
Proof.
  destruct width_end as (We & W39 & Wn & W64 & Wd & Wp).
  rewrite !List.Forall_cons_iff in Hpos. destruct Hpos as (P1 & P2 & P3 & P4 & _).
  unfold InitializeForProcess. rewrite Hsp. cbn [mbind option_bind]. fold width. rewrite Halloc, We.
  unwrap_inner. fold needed. destruct (Z.ltb_spec size needed) as [Hlt|Hge].
  { do 3 eexists. split; [done|]. right. done. }
  unfold needed in *. rewrite to_u64_id by (unfold is_u64; lia).
  destruct (place_regions aslr draws start size (alias_size sp) (heap_size sp) (stack_size sp) (kmap_size sp) (stack0 sp)
    (kmap0 sp)) as (a & h & s & k & draws' & -> & K1 & K2 & K3 & K4); try done; try lia.
  cbn [mbind option_bind]. do 3 eexists. split; [done|]. left. split; [done|]. split; [done|].
  set (r := arrange_regions _ _ _ _ _ _ _ _ _ _ _) in *.
  assert (regions_of as_type (make_layout sp r width (2 ^ width) aslr pool) = placed (stack_size sp) (kmap_size sp) r) as Hr.
  { unfold regions_of, placed, make_layout.
    destruct r as [[] [] [] []], as_type; destruct H39 as [S1 S2]; cbn;
      destruct (Z.eqb_spec (stack_size sp) 0), (Z.eqb_spec (kmap_size sp) 0); done. }
  split; cbn [layout block_manager page_table_impl current_heap_addr]; rewrite ?Hr; try done.
  - eapply gap_disjoint; done.
  - eapply space_bounds; done.
  - congruence.
  - apply new_block_tree; [lia|lia|by exists 0|done].
Qed.
End Initialize.

(** The gaps that the code of a process leaves in a 39-bit space. *)
Definition gaps (code : Z * Z) : Z * Z := (code.1 - 0x8000000, 2 ^ 39 - code.2).

Lemma code_range_39 code_addr code_size : 0x8000000 <= code_addr -> 0 < code_size -> code_addr + code_size <= 2 ^ 39 ->
  let r := code_range Is39Bit code_addr code_size in
  0x8000000 <= r.1 /\ r.1 <= r.2 /\ r.2 <= 2 ^ 39 /\ (RegionAlignment | r.2).
Proof.
  intros H1 H2 H3. cbv zeta. cbn [code_range fst snd]. unfold RegionAlignment.
  rewrite AlignDown_div, AlignUp_div by lia. change (2 * 1024 * 1024) with 0x200000.
  pose proof (Z.div_mod code_addr 0x200000 ltac:(lia)). pose proof (Z.mod_pos_bound code_addr 0x200000 ltac:(lia)).
  pose proof (Z.div_mod (code_addr + code_size + 0x200000 - 1) 0x200000 ltac:(lia)).
  pose proof (Z.mod_pos_bound (code_addr + code_size + 0x200000 - 1) 0x200000 ltac:(lia)).
  split; [lia|]. split; [lia|]. split; [lia|]. apply Z.divide_factor_l.
Qed.

Lemma alloc_range_39 code_addr code_size : 0x8000000 <= code_addr -> 0 < code_size -> code_addr + code_size <= 2 ^ 39 ->
  let code := code_range Is39Bit code_addr code_size in
  exists start size,
    alloc_range (1 <<! 39) (AlignDown code_addr RegionAlignment, AlignUp (code_addr +! code_size) RegionAlignment) 0x8000000
    = (start, size)
    /\ 0 <= start /\ start + size <= 2 ^ 39 /\ (RegionAlignment | start)
    /\ size = Z.max (gaps code).1 (gaps code).2 /\ (start + size <= code.1 \/ code.2 <= start).
Proof.
  intros C1 C2 C3. destruct (code_range_39 _ _ C1 C2 C3) as (R1 & R2 & R3 & R4).
  rewrite (to_u64_id (code_addr + code_size)) by (unfold is_u64; lia). unfold alloc_range, gaps, code_range in *.
  cbn [fst snd] in *. set (x := AlignDown _ _) in *. set (y := AlignUp _ _) in *.
  change (1 <<! 39) with (2 ^ 39). rewrite !to_u64_id by (unfold is_u64; lia).
  destruct (Z.leb_spec (2 ^ 39 - y) (x - 0x8000000)); do 2 eexists; (split; [done|]); split_and!; try lia; try done.
  by exists 64.
Qed.

Lemma InitializeForProcess_spec t0 as_type aslr code_addr code_size pool draws :
  (aslr = true -> good_draws 4 draws) ->
  (as_type = Is39Bit -> 0x8000000 <= code_addr /\ 0 < code_size /\ code_addr + code_size <= 2 ^ 39) ->
  exists t r draws', InitializeForProcess t0 as_type aslr code_addr code_size pool draws = Some (t, r, draws')
    /\ ((r = RESULT_SUCCESS /\ initialised as_type code_addr code_size pool t)
        \/ (r = ERR_OUT_OF_MEMORY /\ as_type = Is39Bit
            /\ (let g := gaps (code_range Is39Bit code_addr code_size) in Z.max g.1 g.2 < 136 * GB))).
Proof.
  intros Hd H39. destruct (decide (as_type = Is39Bit)) as [->|Hn].
  - destruct (H39 eq_refl) as (C1 & C2 & C3).
    destruct (alloc_range_39 _ _ C1 C2 C3) as (start & size & Ha & S0 & S1 & S2 & S3 & S4).
    edestruct (initialise_case t0 Is39Bit aslr code_addr code_size pool draws) with (start := start) (size := size)
      as (t & r & draws' & E & Hc); try done.
    + repeat constructor; try done; [by exists 32768|by exists 3072|by exists 1024|by exists 32768].
    + repeat constructor; done.
    + exists t, r, draws'. split; [done|]. destruct Hc as [(-> & _ & Hi)|[-> Hlt]]; [by left|right].
      split; [done|]. split; [done|]. cbv zeta in S3 |- *. rewrite <- S3. exact Hlt.
  - assert (exists t r draws', InitializeForProcess t0 as_type aslr code_addr code_size pool draws = Some (t, r, draws')
      /\ r = RESULT_SUCCESS /\ initialised as_type code_addr code_size pool t) as (t & r & draws' & E & -> & Hi); [|eauto 10].
    destruct as_type; [| | |done];
    (match goal with |- context [InitializeForProcess _ ?ty] =>
       edestruct (initialise_case t0 ty aslr code_addr code_size pool draws) as (t & r & draws' & E & Hc) end;
      [exact Hd|reflexivity|reflexivity|..|
       exists t, r, draws'; split; [exact E|]; destruct Hc as [(-> & _ & Hi)|[-> Hlt]]; [done|vm_compute in Hlt; done]]);
      try done; try (repeat constructor; done); try (right; done).
    + repeat constructor; [by exists 512|by exists 512|by exists 512|by exists 0|by exists 0].
    + repeat constructor; [by exists 1024|by exists 3072|by exists 3072|by exists 0|by exists 0].
    + repeat constructor; [by exists 512|by exists 0|by exists 1024|by exists 0|by exists 0].
Qed.

(** C14: [PageTable::InitializeForProcess] returns, whatever the random numbers:
    on success the alias, heap, stack and kernel-map regions have the sizes of
    the table, are aligned, lie in the address space and overlap neither each
    other nor the code, every page of the space is free and unmapped, and the
    heap is empty; it fails only in a 39-bit space whose code leaves no gap of
    136 GB. *)
Theorem address_space_layout t0 as_type aslr code_addr code_size pool draws :
  (aslr = true -> good_draws 4 draws) ->
  (as_type = Is39Bit -> 0x8000000 <= code_addr /\ 0 < code_size /\ code_addr + code_size <= 2 ^ 39) ->
  exists t r draws', InitializeForProcess t0 as_type aslr code_addr code_size pool draws = Some (t, r, draws')
    /\ ((r = RESULT_SUCCESS /\ initialised as_type code_addr code_size pool t)
        \/ (r = ERR_OUT_OF_MEMORY /\ as_type = Is39Bit
            /\ (let g := gaps (code_range Is39Bit code_addr code_size) in Z.max g.1 g.2 < 136 * GB))).
Proof. apply InitializeForProcess_spec. Qed.

Lemma address_space_layout_witness :
  let t0 := {| layout := {| address_space_start := 0; address_space_end := 0; heap_region_start := 0; heap_region_end := 0;
                            current_heap_end := 0; alias_region_start := 0; alias_region_end := 0; stack_region_start := 0;
                            stack_region_end := 0; kernel_map_region_start := 0; kernel_map_region_end := 0;
                            code_region_start := 0; code_region_end := 0; alias_code_region_start := 0;
                            alias_code_region_end := 0; max_heap_size := 0; max_physical_memory_size := 0;
                            address_space_width := 0; is_kernel := false; is_aslr_enabled := false; memory_pool := 0 |};
               block_manager := []; current_heap_addr := 0; heap_capacity := 0; physical_memory_usage := 0;
               page_table_impl := {| num_entries := 0; entries := ∅ |} |} in
  (fun x => x.1.2) <$> InitializeForProcess t0 Is39Bit true 0x8000000 0x1234 1%nat [5; 2 ^ 64 - 1; 77; 12; 3] = Some RESULT_SUCCESS
  /\ exists t r draws', InitializeForProcess t0 Is39Bit true 0x8000000 0x1234 1%nat [5; 2 ^ 64 - 1; 77; 12; 3] = Some (t, r, draws')
    /\ ((r = RESULT_SUCCESS /\ initialised Is39Bit 0x8000000 0x1234 1%nat t)
        \/ (r = ERR_OUT_OF_MEMORY /\ Is39Bit = Is39Bit
            /\ (let g := gaps (code_range Is39Bit 0x8000000 0x1234) in Z.max g.1 g.2 < 136 * GB))).
Proof.
  intros t0. split; [vm_compute; reflexivity|].
  apply (address_space_layout t0 Is39Bit true 0x8000000 0x1234 1%nat [5; 2 ^ 64 - 1; 77; 12; 3]).
  - intros _. split; [repeat constructor; unfold is_u64; lia|vm_compute; lia].
  - intros _. lia.
Defined.
