(* ===== verification/PageTableRanges.v ===== *)
(** * Ranges of pages in the block list of a page table

    What the page table asks of its block manager about a range: the blocks
    passed to the callback of [IterateForRange], cut to the range, tile it,
    and [CheckMemoryState] succeeds exactly when all pages of the range have
    the properties asked for. *)

From S2P Require Import Prelude BitUtil KernelObject PageHeap PageBitmap MemoryState MemoryBlockManager MemoryBlockCorrect.
From S2P Require Import MemoryManager PageTable.
From stdpp Require Import base list gmap.
Import MemoryBlockManager.MemoryBlockManager.
Import PageTable.PageTable.
Open Scope Z_scope.
Open Scope c_scope.

(** ** Pages of a tiling *)

Lemma repeat_lookup {A} (x : A) n i : (i < n)%nat -> repeat x n !! i = Some x.
Proof. revert i. induction n as [|n IH]; intros [|i] H; cbn; try lia; [done|]. apply IH. lia. Qed.

Lemma page_at_cons s b t e pos : tiles s (b :: t) e -> s <= pos -> (4096 | pos - s) ->
  page_at s (b :: t) pos
  = if pos <? s + num_pages b * 4096 then Some (page_info b) else page_at (s + num_pages b * 4096) t pos.
Proof.
  intros (_ & Hn & _) Hp [k Hk]. unfold page_at. change (b :: t) with ([b] ++ t). rewrite pages_app, pages_one. unfold block_pages.
  rewrite Hk, Z.div_mul by lia. replace (pos - (s + num_pages b * 4096)) with ((k - num_pages b) * 4096) by lia.
  rewrite Z.div_mul by lia. destruct (Z.ltb_spec pos (s + num_pages b * 4096)).
  - rewrite lookup_app_l by (rewrite repeat_length; lia). apply repeat_lookup. lia.
  - rewrite lookup_app_r by (rewrite repeat_length; lia). rewrite repeat_length. f_equal. lia.
Qed.

(** A property of all pages is one of all blocks. *)
Lemma tiles_forall (P : MemoryBlock -> Prop) t : forall s e, tiles s t e ->
  ((forall pos x, (4096 | pos - s) -> s <= pos < e -> page_at s t pos = Some x -> P x)
   <-> Forall (fun b => P (page_info b)) t).
Proof.
  induction t as [|b t IH]; intros s e Ht.
  { cbn in Ht. split; [constructor|intros; lia]. }
  pose proof Ht as (H1 & H2 & H3). pose proof (tiles_bound _ _ _ H3) as [H4 _]. rewrite List.Forall_cons_iff, <- (IH _ _ H3).
  split.
  - intros H. split.
    + apply (H s); [exists 0; lia|lia|]. erewrite page_at_cons by (first [eassumption|lia|exists 0; lia]).
      destruct (Z.ltb_spec s (s + num_pages b * 4096)); [done|lia].
    + intros pos x [k Hk] Hp Hx. apply (H pos); [exists (k + num_pages b); lia|lia|].
      erewrite page_at_cons by (first [eassumption|lia|exists (k + num_pages b); lia]).
      destruct (Z.ltb_spec pos (s + num_pages b * 4096)); [lia|done].
  - intros [Hb H] pos x Hk Hp. erewrite page_at_cons by (first [eassumption|lia]).
    destruct (Z.ltb_spec pos (s + num_pages b * 4096)); [by intros [= <-]|].
    apply H; [|lia]. destruct Hk as [k Hk]. exists (k - num_pages b). lia.
Qed.

(** The pages of a block. *)
Lemma page_at_block t : forall s e b pos, tiles s t e -> b ∈ t -> addr b <= pos < addr b + num_pages b * 4096 -> (4096 | pos - s) ->
  page_at s t pos = Some (page_info b).
Proof.
  induction t as [|c t IH]; intros s e b pos Ht Hb Hp Hd; [by apply elem_of_nil in Hb|]. pose proof Ht as (H1 & H2 & H3).
  apply elem_of_cons in Hb as [->|Hb].
  - erewrite page_at_cons; [|done|lia|done]. destruct (Z.ltb_spec pos (s + num_pages c * 4096)); [done|lia].
  - pose proof (tiles_addr _ _ _ _ H3 Hb) as [B1 _]. erewrite page_at_cons; [|done|lia|done].
    destruct (Z.ltb_spec pos (s + num_pages c * 4096)); [lia|]. eapply IH; [done..|].
    destruct Hd as [k Hk]. exists (k - num_pages c). lia.
Qed.

Lemma page_at_is_some s e t pos : block_tree s e t -> (4096 | pos) -> s <= pos < e -> exists x, page_at s t pos = Some x.
Proof.
  intros [T1 T2 T3 [q ->] T5] [k ->] Hp. unfold page_at. rewrite <- Z.mul_sub_distr_r, Z.div_mul by lia.
  apply lookup_lt_is_Some_2. apply tiles_pages in T1. lia.
Qed.

(** ** IterateForRange *)

(** The part of a block in [a, e). *)
Definition clip (a e : Z) (b : MemoryBlock) : MemoryBlock :=
  let start := Z.max (addr b) a in
  at_range b start ((Z.min (addr b + num_pages b * 4096) e - start) / 4096).

(** [FindIterator] stops at the block that holds the address. *)
Lemma FindIterator_cons a t : forall s E, tiles s t E -> 0 <= s <= a -> a < E -> E < 2 ^ 64 -> (4096 | s) ->
  exists b l c, FindIterator t a = b :: l /\ tiles c (b :: l) E /\ s <= c <= a /\ a < c + num_pages b * 4096 /\ (4096 | c)
    /\ forall pos, (4096 | pos) -> c <= pos < E -> page_at c (b :: l) pos = page_at s t pos.
Proof.
  induction t as [|b t IH]; intros s E Ht H0 H1 HE Hs; [cbn in Ht; lia|].
  pose proof Ht as (A1 & A2 & A3). pose proof (tiles_bound _ _ _ A3) as [A4 _]. cbn [FindIterator].
  rewrite A1, end_addr_id, to_u64_id by (unfold is_u64; lia).
  destruct (Z.leb_spec s a), (Z.leb_spec a (s + num_pages b * 4096 - 1)); try lia; cbn [andb].
  - exists b, t, s. split; [done|]. split; [done|]. split; [lia|]. split; [lia|]. done.
  - destruct (IH _ E A3) as (b' & l & c & F & B1 & B2 & B3 & B4 & B5); [lia|lia|lia| |].
    { apply Z.divide_add_r; [done|apply Z.divide_factor_r]. }
    exists b', l, c. split; [done|]. split; [done|]. split; [lia|]. split; [lia|]. split; [done|].
    intros pos Hp Hr. erewrite (page_at_cons s b t); [|done|lia|by apply Z.divide_sub_r].
    destruct (Z.ltb_spec pos (s + num_pages b * 4096)); [lia|]. apply B5; done.
Qed.

Section Iterate.
Context (a e : Z) (Ha : 0 <= a) (Haa : (4096 | a)) (Hea : (4096 | e)).

(** What [IterateForRange] passes on, cut to the range. *)
Record range_blocks (s : Z) (t l : list MemoryBlock) (c : Z) : Prop := {
  rb_tiles : tiles c (map (clip a e) l) e;
  rb_page : forall pos, (4096 | pos) -> c <= pos < e -> page_at c (map (clip a e) l) pos = page_at s t pos;
  rb_size : Forall (fun b => GetSizeInRange b a e = num_pages (clip a e b) * 4096
                             /\ GetAddressInRange b a = addr (clip a e b)) l;
}.

Lemma clip_pages b c : addr b = c -> (4096 | c) -> 0 < num_pages b -> Z.max c a < c + num_pages b * 4096 -> Z.max c a < e ->
  0 < num_pages (clip a e b)
  /\ num_pages (clip a e b) * 4096 = Z.min (c + num_pages b * 4096) e - Z.max c a.
Proof using Haa Hea.
  intros <- Hc Hn H1 H2. cbn [clip at_range num_pages].
  assert (4096 | Z.min (addr b + num_pages b * 4096) e - Z.max (addr b) a) as [k Hk].
  { apply Z.divide_sub_r; [destruct (Z.min_spec (addr b + num_pages b * 4096) e) as [[_ ->]|[_ ->]]
                          |destruct (Z.max_spec (addr b) a) as [[_ ->]|[_ ->]]]; try done.
    apply Z.divide_add_r; [done|apply Z.divide_factor_r]. }
  rewrite Hk, Z.div_mul by lia. lia.
Qed.

Lemma size_in_range b c : addr b = c -> (4096 | c) -> 0 <= c -> 0 < num_pages b -> c + num_pages b * 4096 < 2 ^ 64 ->
  Z.max c a < c + num_pages b * 4096 -> Z.max c a < e ->
  GetSizeInRange b a e = num_pages (clip a e b) * 4096 /\ GetAddressInRange b a = addr (clip a e b).
Proof using Ha Haa Hea.
  intros E Hc H0 Hn Hb H1 H2. destruct (clip_pages b c) as [_ ->]; [done..|]. subst c. split.
  - unfold GetSizeInRange, GetEndAddress, GetSize. change PageSize with 4096.
    rewrite (to_u64_id (num_pages b * 4096)) by (unfold is_u64; lia).
    rewrite (to_u64_id (addr b + num_pages b * 4096)) by (unfold is_u64; lia).
    destruct (Z.ltb_spec (addr b) a), (Z.ltb_spec e (addr b + num_pages b * 4096)).
    1: rewrite (to_u64_id (a - addr b)), (to_u64_id (num_pages b * 4096 - (a - addr b))) by (unfold is_u64; lia).
    1: rewrite (to_u64_id (addr b + num_pages b * 4096 - e)), to_u64_id by (unfold is_u64; lia); lia.
    1: rewrite (to_u64_id (a - addr b)), to_u64_id by (unfold is_u64; lia); lia.
    1: rewrite (to_u64_id (addr b + num_pages b * 4096 - e)), to_u64_id by (unfold is_u64; lia); lia.
    lia.
  - unfold GetAddressInRange. cbn [clip at_range addr]. destruct (Z.ltb_spec (addr b) a); lia.
Qed.

Lemma iterate_from_spec E t : forall b c, tiles c (b :: t) E -> 0 <= c -> E < 2 ^ 64 -> (4096 | c) -> e <= E ->
  Z.max c a < c + num_pages b * 4096 -> Z.max c a < e ->
  range_blocks c (b :: t) (iterate_from (b :: t) e) (Z.max c a).
Proof using Ha Haa Hea.
  induction t as [t IH] using (induction_ltof1 _ (@length _)); unfold ltof in IH; intros b c Ht H0 HE Hc He H1 H2.
  pose proof Ht as (A1 & A2 & A3). pose proof (tiles_bound _ _ _ A3) as [A4 _].
  destruct (clip_pages b c A1 Hc A2 H1 H2) as [P1 P2].
  pose proof (size_in_range b c A1 Hc H0 A2 ltac:(lia) H1 H2) as Hs.
  assert (forall pos, (4096 | pos) -> (4096 | pos - c) /\ (4096 | pos - Z.max c a)) as Hd.
  { intros pos Hp. split; apply Z.divide_sub_r; try done. destruct (Z.max_spec c a) as [[_ ->]|[_ ->]]; done. }
  cbn [iterate_from]. unfold GetSize. change PageSize with 4096. rewrite A1.
  rewrite (to_u64_id (num_pages b * 4096)), (to_u64_id (c + num_pages b * 4096)) by (unfold is_u64; lia).
  rewrite !to_u64_id by (unfold is_u64; lia).
  destruct (Z.ltb_spec (c + num_pages b * 4096 - 1) (e - 1)) as [Q|Q].
  - rewrite Z.min_l in P2 by lia. destruct t as [|b' t]; [cbn in A3; lia|].
    assert (4096 | c + num_pages b * 4096) as Hc' by (apply Z.divide_add_r; [done|apply Z.divide_factor_r]).
    destruct (IH t ltac:(cbn; lia) b' (c + num_pages b * 4096) A3 ltac:(lia) HE Hc' He) as [B1 B2 B3];
      [pose proof A3 as (_ & ? & _); lia|lia|].
    rewrite Z.max_l in B1, B2 by lia. set (l := iterate_from (b' :: t) e) in *.
    assert (tiles (Z.max c a) (map (clip a e) (b :: l)) e) as HT.
    { cbn [map tiles]. split_and!; [cbn; lia|lia|]. rewrite P2. replace (Z.max c a + _) with (c + num_pages b * 4096) by lia. done. }
    split; [done| |by constructor]. intros pos Hp Hr. destruct (Hd pos Hp). cbn [map] in *.
    erewrite !page_at_cons by (eassumption || lia). rewrite P2.
    replace (Z.max c a + _) with (c + num_pages b * 4096) by lia.
    destruct (Z.ltb_spec pos (c + num_pages b * 4096)); [done|]. apply B2; [done|lia].
  - rewrite Z.min_r in P2 by lia. assert (tiles (Z.max c a) (map (clip a e) [b]) e) as HT.
    { cbn [map tiles]. split_and!; [cbn; lia|lia|lia]. }
    split; [done| |constructor; [exact Hs|constructor]]. intros pos Hp Hr. destruct (Hd pos Hp). cbn [map] in *.
    erewrite !page_at_cons by (eassumption || lia). rewrite P2.
    destruct (Z.ltb_spec pos (c + num_pages b * 4096)); [|lia].
    destruct (Z.ltb_spec pos (Z.max c a + (e - Z.max c a))); [done|lia].
Qed.

Lemma IterateForRange_spec s E t : block_tree s E t -> s <= a < e -> e <= E ->
  exists l, IterateForRange t a e = Some l /\ range_blocks s t l a.
Proof using Ha Haa Hea.
  intros [T1 T2 T3 T4 T5] Hs He. unfold IterateForRange.
  destruct (FindIterator_cons a t s E) as (b & l & c & -> & B1 & B2 & B3 & B4 & B5); [done|lia|lia|lia|done|].
  exists (iterate_from (b :: l) e). split; [done|].
  destruct (iterate_from_spec E l b c) as [I1 I2 I3]; [done|lia|lia|done|done|lia|lia|].
  rewrite Z.max_r in I1, I2 by lia. split; [done| |done]. intros pos Hp Hr. rewrite I2 by done. apply B5; [done|lia].
Qed.
End Iterate.

(** ** CheckMemoryState *)

Section Check.
Context (state_mask st perm_mask pm attr_mask attr ignore_attr : Z).

(** The masks on one page, and the agreement with the first page. *)
Definition page_matches (x : MemoryBlock) : Prop :=
  state x .& state_mask = st /\ perm x .& perm_mask = pm /\ attribute x .& attr_mask = attr.
Definition page_agrees (first x : MemoryBlock) : Prop :=
  state x = state first /\ perm x = perm first /\ attribute x .| ignore_attr = attribute first .| ignore_attr.

#[global] Instance page_matches_dec x : Decision (page_matches x).
Proof. unfold page_matches. apply _. Defined.
#[global] Instance page_agrees_dec first x : Decision (page_agrees first x).
Proof. unfold page_agrees. apply _. Defined.

Lemma CheckMemoryInfo_spec x :
  CheckMemoryInfo x state_mask st perm_mask pm attr_mask attr
  = if bool_decide (page_matches x) then RESULT_SUCCESS else ERR_INVALID_ADDRESS_STATE.
Proof.
  unfold CheckMemoryInfo, page_matches.
  destruct (Z.eqb_spec (state x .& state_mask) st), (Z.eqb_spec (perm x .& perm_mask) pm),
    (Z.eqb_spec (attribute x .& attr_mask) attr); cbn [negb];
    repeat case_bool_decide; try done; naive_solver.
Qed.

Lemma check_loop_spec first last_addr E l : forall c, tiles c l E -> 0 <= c <= last_addr -> last_addr < E -> E < 2 ^ 64 ->
  check_loop l first last_addr state_mask st perm_mask pm attr_mask attr ignore_attr
  = Some (if forallb (fun x => bool_decide (page_agrees first x /\ page_matches x)) (iterate_from l (last_addr + 1))
          then RESULT_SUCCESS else ERR_INVALID_ADDRESS_STATE).
Proof.
  induction l as [|b l IH]; intros c Ht H0 Hl HE; [cbn in Ht; lia|]. pose proof Ht as (A1 & A2 & A3).
  pose proof (tiles_bound _ _ _ A3) as [A4 _]. cbn [check_loop iterate_from forallb].
  rewrite CheckMemoryInfo_spec. unfold page_agrees, GetLastAddress, GetEndAddress, GetSize. change PageSize with 4096.
  rewrite A1, (to_u64_id (num_pages b * 4096)), (to_u64_id (c + num_pages b * 4096)) by (unfold is_u64; lia).
  rewrite (to_u64_id (c + num_pages b * 4096 - 1)), (to_u64_id (last_addr + 1 - 1)) by (unfold is_u64; lia).
  destruct (Z.eqb_spec (state b) (state first)), (Z.eqb_spec (perm b) (perm first)),
    (Z.eqb_spec (attribute b .| ignore_attr) (attribute first .| ignore_attr)); cbn [negb];
    try (rewrite bool_decide_eq_false_2 by tauto; done).
  destruct (decide (page_matches b)) as [Hm|Hm];
    [rewrite !bool_decide_eq_true_2 by done | rewrite !bool_decide_eq_false_2 by tauto; done].
  cbn [negb andb]. change (RESULT_SUCCESS =? RESULT_SUCCESS) with true. cbn [negb].
  replace (last_addr + 1 - 1) with last_addr by lia.
  destruct (Z.leb_spec last_addr (c + num_pages b * 4096 - 1)), (Z.ltb_spec (c + num_pages b * 4096 - 1) last_addr);
    try lia; [done|]. apply (IH _ A3); lia.
Qed.

(** All pages of a range. *)
Definition all_pages (s : Z) (t : MemoryBlockTree) (a n : Z) (P : MemoryBlock -> Prop) : Prop :=
  forall pos x, (4096 | pos) -> a <= pos < a + n * 4096 -> page_at s t pos = Some x -> P x.

Lemma CheckMemoryState_spec s e t a n : block_tree s e t -> (4096 | a) -> s <= a -> 0 < n -> a + n * 4096 <= e ->
  exists x r, page_at s t a = Some x
    /\ CheckMemoryState t a (n * 4096) state_mask st perm_mask pm attr_mask attr ignore_attr
       = Some (r, (state x, perm x, attribute x .& to_u8 (Z.lnot ignore_attr)))
    /\ ((r = RESULT_SUCCESS /\ all_pages s t a n (fun y => page_agrees x y /\ page_matches y))
        \/ (r = ERR_INVALID_ADDRESS_STATE /\ ~ all_pages s t a n (fun y => page_agrees x y /\ page_matches y))).
Proof.
  intros Ht Ha Hs Hn He. pose proof Ht as [T1 T2 T3 T4 T5]. unfold CheckMemoryState.
  assert (4096 | a + n * 4096) as Hd by (apply Z.divide_add_r; [done|apply Z.divide_factor_r]).
  rewrite (to_u64_id (a + n * 4096)), to_u64_id by (unfold is_u64; lia).
  destruct (IterateForRange_spec a (a + n * 4096) ltac:(lia) Ha Hd s e t Ht) as (l & Hl & [I1 I2 _]); [lia|lia|].
  unfold IterateForRange in Hl.
  destruct (FindIterator_cons a t s e T1) as (b & l' & c & F & B1 & B2 & B3 & B4 & B5); [lia..|done|].
  rewrite F in Hl |- *. injection Hl as <-. rewrite (check_loop_spec b (a + n * 4096 - 1) e (b :: l') c) by (done || lia).
  replace (a + n * 4096 - 1 + 1) with (a + n * 4096) by lia. cbn [mbind option_bind].
  set (l := iterate_from (b :: l') (a + n * 4096)) in *. exists (page_info b).
  assert (all_pages s t a n (fun y => page_agrees (page_info b) y /\ page_matches y)
    <-> Forall (fun y => page_agrees b y /\ page_matches y) l) as Hall.
  { pose proof (tiles_forall (fun y => page_agrees (page_info b) y /\ page_matches y) _ _ _ I1) as HF.
    rewrite List.Forall_map in HF. etransitivity; [|exact HF]. unfold all_pages. split; intros H pos x P1 P2 P3.
    - assert (4096 | pos) as Hp by (destruct P1 as [k Hk], Ha as [q ->]; exists (k + q); lia).
      apply (H pos); [done|lia|]. rewrite <- I2 by (done || lia). done.
    - apply (H pos); [by apply Z.divide_sub_r|lia|]. rewrite I2 by (done || lia). done. }
  eexists. split; [|split; [reflexivity|]].
  - rewrite <- (B5 a) by (done || lia). erewrite page_at_cons; [|done|lia|by apply Z.divide_sub_r].
    destruct (Z.ltb_spec a (c + num_pages b * 4096)); [done|lia].
  - destruct (forallb _ l) eqn:E; [left|right]; (split; [done|]); rewrite Hall.
    + rewrite forallb_forall in E. apply List.Forall_forall. intros x Hx. specialize (E x Hx). by apply bool_decide_eq_true in E.
    + intros H. rewrite <- not_true_iff_false in E. apply E, forallb_forall. intros x Hx.
      rewrite List.Forall_forall in H. apply bool_decide_eq_true, H, Hx.
Qed.
End Check.

(** C13: [PageTable::CheckMemoryState] on a range of the address space never
    reads past the list of blocks; it succeeds exactly when every page of the
    range passes the masks and has the state, permission and attribute of the
    first page, up to the ignored attributes, and fails with
    [ERR_INVALID_ADDRESS_STATE] otherwise; what it writes out are the state,
    permission and attribute of the first page. *)
Theorem check_memory_state_exact s e t a n state_mask st perm_mask pm attr_mask attr ignore_attr :
  block_tree s e t -> (4096 | a) -> s <= a -> 0 < n -> a + n * 4096 <= e ->
  exists x, page_at s t a = Some x
    /\ CheckMemoryState t a (n * 4096) state_mask st perm_mask pm attr_mask attr ignore_attr
       = Some (if forallb (fun i => match page_at s t (a + i * 4096) with
                                    | Some y => bool_decide (page_agrees ignore_attr x y)
                                                && bool_decide (page_matches state_mask st perm_mask pm attr_mask attr y)
                                    | None => false
                                    end) (seqZ 0 n) then RESULT_SUCCESS else ERR_INVALID_ADDRESS_STATE,
               (state x, perm x, attribute x .& to_u8 (Z.lnot ignore_attr))).
Proof.
  intros Ht Ha Hs Hn He.
  destruct (CheckMemoryState_spec state_mask st perm_mask pm attr_mask attr ignore_attr s e t a n Ht Ha Hs Hn He)
    as (x & r & Hx & -> & Hr).
  exists x. split; [done|]. do 2 f_equal.
  match goal with |- r = (if ?b then _ else _) => assert (b = true <-> all_pages s t a n
    (fun y => page_agrees ignore_attr x y /\ page_matches state_mask st perm_mask pm attr_mask attr y)) as Hb end.
  { rewrite forallb_forall. unfold all_pages. split.
    - intros H pos y [k Hk] Hp Hy. destruct Ha as [q ->]. specialize (H (k - q)).
      rewrite <- list_elem_of_In, elem_of_seqZ in H. specialize (H ltac:(lia)).
      replace (q * 4096 + (k - q) * 4096) with pos in H by lia. rewrite Hy, <- bool_decide_and in H.
      by apply bool_decide_eq_true in H.
    - intros H i Hi. rewrite <- list_elem_of_In, elem_of_seqZ in Hi.
      assert (4096 | a + i * 4096) as Hd by (apply Z.divide_add_r; [done|apply Z.divide_factor_r]).
      destruct (page_at_is_some s e t (a + i * 4096) Ht Hd) as [y Hy]; [lia|]. rewrite Hy, <- bool_decide_and.
      apply bool_decide_eq_true, (H (a + i * 4096)); [done|lia|done]. }
  destruct (forallb _ _), Hr as [[-> Hr]|[-> Hr]]; naive_solver.
Qed.

Lemma check_memory_state_exact_witness :
  let t := [MemoryBlock_new 0 2 0 0 0; MemoryBlock_new 0x2000 1 5 3 0; MemoryBlock_new 0x3000 12 5 3 4] in
  exists x, page_at 0 t 0x2000 = Some x
    /\ CheckMemoryState t 0x2000 (2 * 4096) 0xff 5 0 0 0 0 4
       = Some (if forallb (fun i => match page_at 0 t (0x2000 + i * 4096) with
                                    | Some y => bool_decide (page_agrees 4 x y) && bool_decide (page_matches 0xff 5 0 0 0 0 y)
                                    | None => false
                                    end) (seqZ 0 2) then RESULT_SUCCESS else ERR_INVALID_ADDRESS_STATE,
               (state x, perm x, attribute x .& to_u8 (Z.lnot 4))).
Proof.
  intros t. apply (check_memory_state_exact 0 0xf000 t 0x2000 2 0xff 5 0 0 0 0 4); [|by exists 2|lia|lia|lia].
  split; [cbn; lia|cbn; split_and!; done|lia|by exists 0|lia].
Defined.

(** [PageTable::QueryInfo] answers for every address: inside the address
    space it describes a range of whole pages of the space that contains the
    address and whose pages all have the state, permission and attribute it
    gives; outside, the range from the end of the space to the end of memory,
    inaccessible. *)
Theorem query_info_describes t a :
  block_tree 0 (address_space_end (layout t)) (block_manager t) -> address_space_start (layout t) = 0 -> is_u64 a ->
  0 < address_space_end (layout t) -> (4096 | address_space_end (layout t)) ->
  exists i, QueryInfo t a = Some i
    /\ if a <? address_space_end (layout t)
       then info_addr i <= a < info_addr i + info_size i
            /\ 0 <= info_addr i /\ info_addr i + info_size i <= address_space_end (layout t)
            /\ forall pos, (4096 | pos) -> info_addr i <= pos < info_addr i + info_size i ->
                 exists x, page_at 0 (block_manager t) pos = Some x /\ state x = info_state i /\ perm x = info_perm i
                           /\ attribute x = info_attribute i
       else info_addr i = address_space_end (layout t) /\ info_addr i + info_size i = 2 ^ 64
            /\ info_state i = MemoryState_Inaccessible.
Proof.
  intros HT H0 Ha Hpos He. unfold QueryInfo, Contains. set (e := address_space_end (layout t)) in *. rewrite H0.
  pose proof HT as [T1 T2 T3 T4 T5]. unfold is_u64 in Ha. rewrite (to_u64_id (e - 1)) by (unfold is_u64; lia).
  destruct (Z.ltb_spec a e) as [Hlt|Hge].
  - rewrite (to_u64_id (a + 1)), to_u64_id by (unfold is_u64; lia).
    destruct (Z.leb_spec 0 a), (Z.ltb_spec a (a + 1)), (Z.leb_spec (a + 1 - 1) (e - 1)); try lia. cbn [andb negb].
    unfold QueryInfoImpl. destruct (FindIterator_cons a (block_manager t) 0 e T1) as (b & l & c & E & Hb & Hin & Hin' & Hc & Hpg); [lia..|done|].
    pose proof Hb as (B1 & B2 & B3). pose proof (tiles_bound _ _ _ B3) as [B4 _]. rewrite E. cbn [head mbind option_bind]. eexists. split; [done|]. unfold GetMemoryInfo, GetSize.
    cbn [info_addr info_size info_state info_perm info_attribute]. change PageSize with 4096.
    rewrite to_u64_id by (unfold is_u64; lia). split; [lia|]. split; [lia|]. split; [lia|]. intros pos Hp Hr.
    exists (page_info b). split; [|done]. rewrite <- Hpg by (done || lia).
    erewrite page_at_cons; [|done|lia|by apply Z.divide_sub_r]. destruct (Z.ltb_spec pos (c + num_pages b * 4096)); [done|lia].
  - match goal with |- context [negb ?c] => assert (c = false) as -> end.
    { rewrite (to_u64_mod (a + 1)). destruct (Z.leb_spec 0 a); [|done]. destruct (Z.ltb_spec a ((a + 1) mod 2 ^ 64)) as [Hw|]; [|done].
      assert (a + 1 < 2 ^ 64) as Hs by (destruct (Z.eq_dec (a + 1) (2 ^ 64)) as [E|]; [rewrite E, Z.mod_same in Hw; lia|lia]).
      rewrite Z.mod_small, to_u64_id by (unfold is_u64; lia). cbn [andb]. destruct (Z.leb_spec (a + 1 - 1) (e - 1)); [lia|done]. }
    cbn [negb]. eexists. split; [reflexivity|]. cbn [info_addr info_size info_state]. split; [done|]. split; [|done].
    rewrite to_u64_mod. replace (0 - e) with (2 ^ 64 - e + -1 * 2 ^ 64) by lia. rewrite Z.mod_add, Z.mod_small by lia. lia.
Qed.

(** The table of an address space of 16 pages. *)
Definition sixteen_pages : PageTable :=
  {| layout := {| address_space_start := 0; address_space_end := 0x10000; heap_region_start := 0; heap_region_end := 0;
                  current_heap_end := 0; alias_region_start := 0; alias_region_end := 0; stack_region_start := 0;
                  stack_region_end := 0; kernel_map_region_start := 0; kernel_map_region_end := 0; code_region_start := 0;
                  code_region_end := 0; alias_code_region_start := 0; alias_code_region_end := 0; max_heap_size := 0;
                  max_physical_memory_size := 0; address_space_width := 16; is_kernel := false; is_aslr_enabled := false;
                  memory_pool := 0 |};
     block_manager := [MemoryBlock_new 0 2 0 0 0; MemoryBlock_new 0x2000 1 5 3 0; MemoryBlock_new 0x3000 13 0 0 0];
     current_heap_addr := 0; heap_capacity := 0; physical_memory_usage := 0;
     page_table_impl := {| num_entries := 16; entries := ∅ |} |}.

Lemma query_info_describes_witness :
  exists i, QueryInfo sixteen_pages 0x2abc = Some i /\ info_addr i <= 0x2abc < info_addr i + info_size i.
Proof.
  destruct (query_info_describes sixteen_pages 0x2abc) as (i & E & H).
  - split; [cbn; lia|cbn; split_and!; done|lia|by exists 0|cbn; lia].
  - reflexivity.
  - unfold is_u64. lia.
  - cbn. lia.
  - by exists 16.
  - exists i. split; [exact E|]. apply H.
Defined.
