(* ===== verification/PageTableFrames.v ===== *)
(** * The entries of a page table as a map from pages to frames

    Each page of the address space is unmapped or backed by a page of physical
    memory, its frame.  Mapping a page group gives each page of the range a
    frame of the group of its own; unmapping a range collects the frames of
    its pages. *)

From S2P Require Import Prelude BitUtil KernelObject PageHeap PageBitmap PageHeapCorrect PageHeapSpec MemoryManager.
From S2P Require Import MemoryState MemoryBlockManager MemoryBlockCorrect PageTable PageTableRanges.
From stdpp Require Import base list gmap.
Import MemoryBlockManager.MemoryBlockManager.
Import PageTable.PageTable.
Open Scope Z_scope.
Open Scope c_scope.

(** ** Frames of entries *)

(** The physical address behind page [i]. *)
Definition frame (t : CommonPageTable) (i : Z) : option Z :=
  match attributes (entry t i) with
  | Unmapped => None
  | _ => Some (backing_addr (entry t i) +! i * 4096)
  end.

Lemma set_entry_spec t i e : 0 <= i < num_entries t ->
  exists t', set_entry t i e = Some t' /\ num_entries t' = num_entries t
    /\ forall j, entry t' j = if i =? j then e else entry t j.
Proof.
  intros Hi. unfold set_entry. destruct (Z.ltb_spec i (num_entries t)); [|lia]. eexists. split; [done|]. split; [done|].
  intros j. unfold entry. cbn [entries]. destruct (Z.eqb_spec i j) as [->|Hne].
  - by rewrite lookup_insert_eq.
  - by rewrite lookup_insert_ne.
Qed.

Lemma shift_page i : 0 <= i < 2 ^ 36 -> i <<! PageBits = i * 4096.
Proof. intros Hi. change PageBits with 12. rewrite Z.shiftl_mul_pow2, to_u64_id by (unfold is_u64; lia). lia. Qed.

(** The entry written for frame [p] gives [p] back. *)
Lemma backing_frame p i : 0 <= p < 2 ^ 50 -> 0 <= i < 2 ^ 36 -> (p * 4096 -! i * 4096) +! i * 4096 = p * 4096.
Proof.
  intros Hp Hi. rewrite !to_u64_mod, Zplus_mod_idemp_l. replace (p * 4096 - i * 4096 + i * 4096) with (p * 4096) by lia.
  apply Z.mod_small. lia.
Qed.

(** Pages [R] get frames of [F], each its own; nothing else changes. *)
Record maps_new (R : Z -> bool) (F : list Z) (t t' : CommonPageTable) : Prop := {
  mn_size : num_entries t' = num_entries t;
  mn_out : forall i, R i = false -> frame t' i = frame t i;
  mn_in : forall i, R i = true -> exists p, p ∈ F /\ frame t' i = Some (p * 4096);
  mn_inj : forall i j, R i = true -> R j = true -> frame t' i = frame t' j -> i = j;
}.

Lemma maps_new_nil t : maps_new (fun _ => false) [] t t.
Proof. split; done. Qed.

Lemma maps_new_ext R R' F t t' : (forall i, R i = R' i) -> maps_new R F t t' -> maps_new R' F t t'.
Proof.
  intros H [M1 M2 M3 M4]. split; [done|intros i; rewrite <- H; apply M2|intros i; rewrite <- H; apply M3|].
  intros i j. rewrite <- !H. apply M4.
Qed.

Lemma maps_new_app R1 R2 F1 F2 t t1 t2 :
  maps_new R1 F1 t t1 -> maps_new R2 F2 t1 t2 -> (forall i, R1 i = true -> R2 i = false) -> NoDup (F1 ++ F2) ->
  maps_new (fun i => R1 i || R2 i) (F1 ++ F2) t t2.
Proof.
  intros [A1 A2 A3 A4] [B1 B2 B3 B4] Hd Hn.
  assert (forall i, R1 i = true -> frame t2 i = frame t1 i) as Hk by (intros i Hi; apply B2, Hd, Hi).
  assert (forall i j, R1 i = true -> R2 j = true -> frame t2 i <> frame t2 j) as Hx.
  { intros i j Hi Hj. rewrite (Hk i Hi). destruct (A3 i Hi) as (p & Hp & ->), (B3 j Hj) as (q & Hq & ->).
    intros E. assert (p = q) as -> by (injection E; lia). apply NoDup_app in Hn as (_ & Hn & _). by apply (Hn q). }
  split; [congruence| | |].
  - intros i [H1 H2]%orb_false_iff. rewrite B2 by done. by apply A2.
  - intros i Hi. destruct (R1 i) eqn:E; [rewrite (Hk i E); destruct (A3 i E) as (p & Hp & ->)|destruct (B3 i Hi) as (p & Hp & ->)];
      exists p; (split; [apply elem_of_app; auto|done]).
  - intros i j Hi Hj E. destruct (R1 i) eqn:Ei, (R1 j) eqn:Ej; cbn [orb] in *.
    + apply A4; [done..|]. by rewrite <- (Hk i Ei), <- (Hk j Ej).
    + by apply Hx in E.
    + symmetry in E. by apply Hx in E.
    + by apply B4.
Qed.

Lemma map_loop_spec n : forall t base p type, 0 <= base -> base + Z.of_nat n <= num_entries t -> num_entries t <= 2 ^ 36 ->
  0 <= p -> p + Z.of_nat n <= 2 ^ 50 -> type <> Unmapped ->
  exists t', map_loop n t base (p * 4096) type = Some t'
    /\ num_entries t' = num_entries t
    /\ forall i, frame t' i = if in_range base (Z.of_nat n) i then Some ((p + (i - base)) * 4096) else frame t i.
Proof.
  induction n as [|n IH]; intros t base p type Hb Hs Hm Hp Hq Ht; cbn [map_loop].
  { exists t. split; [done|]. split; [done|]. intros i. destruct (in_range base (Z.of_nat 0) i) eqn:E; [|done].
    apply in_range_iff in E. lia. }
  destruct (set_entry_spec t base {| attributes := type; backing_addr := p * 4096 -! (base <<! PageBits) |}) as (t1 & -> & S1 & S2);
    [lia|]. cbn [mbind option_bind]. change PageSize with 4096.
  rewrite (to_u64_id (base + 1)), (to_u64_id (p * 4096 + 4096)) by (unfold is_u64; lia).
  replace (p * 4096 + 4096) with ((p + 1) * 4096) by lia.
  destruct (IH t1 (base + 1) (p + 1) type) as (t' & E & S3 & S4); [lia..|done|].
  exists t'. split; [done|]. split; [lia|]. intros i. rewrite S4.
  destruct (in_range (base + 1) (Z.of_nat n) i) eqn:E1, (in_range base (Z.of_nat (S n)) i) eqn:E2; try done.
  - do 2 f_equal. lia.
  - apply in_range_iff in E1. rewrite <- not_true_iff_false, in_range_iff in E2. lia.
  - apply in_range_iff in E2. rewrite <- not_true_iff_false, in_range_iff in E1. assert (i = base) as -> by lia.
    unfold frame. rewrite S2, Z.eqb_refl, shift_page by lia. cbn [attributes backing_addr]. rewrite backing_frame by lia.
    destruct type; [done|..]; do 2 f_equal; lia.
  - unfold frame. rewrite S2. destruct (Z.eqb_spec base i) as [->|]; [|done].
    rewrite <- not_true_iff_false, in_range_iff in E2. lia.
Qed.

Lemma unmap_loop_spec n : forall t base, 0 <= base -> base + Z.of_nat n <= num_entries t -> num_entries t <= 2 ^ 36 ->
  exists t', unmap_loop n t base Unmapped = Some t' /\ num_entries t' = num_entries t
    /\ forall i, frame t' i = if in_range base (Z.of_nat n) i then None else frame t i.
Proof.
  induction n as [|n IH]; intros t base Hb Hs Hm; cbn [unmap_loop].
  { exists t. split; [done|]. split; [done|]. intros i. destruct (in_range base (Z.of_nat 0) i) eqn:E; [|done].
    apply in_range_iff in E. lia. }
  destruct (set_entry_spec t base {| attributes := Unmapped; backing_addr := 0 |}) as (t1 & -> & S1 & S2); [lia|].
  cbn [mbind option_bind]. rewrite (to_u64_id (base + 1)) by (unfold is_u64; lia).
  destruct (IH t1 (base + 1)) as (t' & E & S3 & S4); [lia..|]. exists t'. split; [done|]. split; [lia|].
  intros i. rewrite S4.
  destruct (in_range (base + 1) (Z.of_nat n) i) eqn:E1, (in_range base (Z.of_nat (S n)) i) eqn:E2; try done.
  - apply in_range_iff in E1. rewrite <- not_true_iff_false, in_range_iff in E2. lia.
  - apply in_range_iff in E2. rewrite <- not_true_iff_false, in_range_iff in E1. assert (i = base) as -> by lia.
    unfold frame. by rewrite S2, Z.eqb_refl.
  - unfold frame. rewrite S2. destruct (Z.eqb_spec base i) as [->|]; [|done].
    rewrite <- not_true_iff_false, in_range_iff in E2. lia.
Qed.

(** ** The two operations on entries *)

Lemma MapMemoryRegion_spec t base n p : 0 <= base -> 0 <= n -> base + n <= num_entries t -> num_entries t <= 2 ^ 36 ->
  0 < p -> p + n <= 2 ^ 50 ->
  exists t', MapMemoryRegion t (base * 4096) (n * 4096) (p * 4096) = Some t' /\ maps_new (in_range base n) (seqZ p n) t t'.
Proof.
  intros Hb Hn Hs Hm Hp Hq. unfold MapMemoryRegion, Memory_MapPages. change PageSize with 4096. rewrite !Z.div_mul by lia.
  destruct (Z.eqb_spec (p * 4096) 0); [lia|].
  destruct (map_loop_spec (Z.to_nat n) t base p Memory) as (t' & E & S1 & S2); [lia..|done|]. exists t'. split; [done|].
  rewrite Z2Nat.id in S2 by lia. split; [done| | |].
  - intros i Hi. by rewrite S2, Hi.
  - intros i Hi. rewrite S2, Hi. exists (p + (i - base)). split; [|done]. apply in_range_iff in Hi. apply elem_of_seqZ. lia.
  - intros i j Hi Hj. rewrite !S2, Hi, Hj. intros E'. injection E'. lia.
Qed.

Lemma UnmapRegion_spec t base n : 0 <= base -> 0 <= n -> base + n <= num_entries t -> num_entries t <= 2 ^ 36 ->
  exists t', UnmapRegion t (base * 4096) (n * 4096) = Some t' /\ num_entries t' = num_entries t
    /\ forall i, frame t' i = if in_range base n i then None else frame t i.
Proof.
  intros Hb Hn Hs Hm. unfold UnmapRegion, Memory_MapPages. change PageSize with 4096. rewrite !Z.div_mul by lia.
  destruct (unmap_loop_spec (Z.to_nat n) t base) as (t' & E & S1 & S2); [lia..|]. rewrite Z2Nat.id in S2 by lia. eauto.
Qed.

(** ** Page groups as lists of frames *)

Definition node_frames (nd : MM.Node) : list Z := seqZ (MM.addr nd / 4096) (MM.num_pages nd).
Definition frames (l : list MM.Node) : list Z := concat (map node_frames l).

(** A node whose frames are not at address 0. *)
Definition mappable (nd : MM.Node) : Prop := node_ok nd /\ 0 < MM.addr nd.

Lemma elem_of_frames l p : p ∈ frames l <-> 0 < cnt l p.
Proof.
  induction l as [|nd l IH]; cbn [frames map concat cnt]; [rewrite elem_of_nil; lia|]. fold (frames l).
  rewrite elem_of_app, IH. unfold node_frames. rewrite elem_of_seqZ. pose proof (cnt_nonneg l p).
  unfold covers, ind. destruct (in_range _ _ p) eqn:E; [apply in_range_iff in E|rewrite <- not_true_iff_false, in_range_iff in E]; lia.
Qed.

Lemma NoDup_frames l : (forall p, cnt l p <= 1) -> NoDup (frames l).
Proof.
  induction l as [|nd l IH]; intros H; cbn [frames map concat]; [constructor|]. fold (frames l). apply NoDup_app.
  split; [apply NoDup_seqZ|]. split.
  - intros p Hp Hl. apply elem_of_frames in Hl. unfold node_frames in Hp. rewrite elem_of_seqZ in Hp.
    specialize (H p). cbn [cnt] in H. unfold covers in H. rewrite (proj2 (in_range_iff _ _ p)) in H by lia. cbn [ind] in H. lia.
  - apply IH. intros p. specialize (H p). cbn [cnt] in H. unfold ind in H. destruct (covers nd p); lia.
Qed.

Lemma length_frames l : Forall node_ok l -> Z.of_nat (length (frames l)) = npages l.
Proof.
  induction 1 as [|nd l (a & _ & _ & Hn & _) Hl IH]; [done|]. cbn [frames map concat npages]. fold (frames l).
  unfold node_frames. rewrite length_app, length_seqZ. lia.
Qed.

Lemma in_range_concat base n m i : 0 <= n -> 0 <= m -> in_range base n i || in_range (base + n) m i = in_range base (n + m) i.
Proof.
  intros Hn Hm. apply eq_true_iff_eq. rewrite orb_true_iff, !in_range_iff. lia.
Qed.
Lemma in_range_disjoint base n m i : in_range base n i = true -> in_range (base + n) m i = false.
Proof. rewrite <- not_true_iff_false, !in_range_iff. lia. Qed.

(** ** The entries of a system *)

Definition entries_of (s : System) : CommonPageTable := page_table_impl (page_table s).
Definition sys_impl (s : System) (t : CommonPageTable) : System :=
  {| page_table := with_impl (page_table s) t; memory_manager := memory_manager s; resource_limit := resource_limit s |}.

Lemma sys_impl_entries s t : entries_of (sys_impl s t) = t.
Proof. done. Qed.
Lemma sys_impl_twice s t t' : sys_impl (sys_impl s t) t' = sys_impl s t'.
Proof. done. Qed.
Lemma sys_impl_id s : sys_impl s (entries_of s) = s.
Proof. destruct s as [[] ? ?]. done. Qed.

Lemma set_impl_eq f s t : f (entries_of s) = Some t -> set_impl f s = Some (sys_impl s t, tt).
Proof. intros E. unfold set_impl, modify_table, entries_of in *. rewrite E. done. Qed.

Lemma bind_eq {A B} (m : M A) (k : A -> M B) s s' a : m s = Some (s', a) -> bind m k s = k a s'.
Proof. intros E. unfold bind. by rewrite E. Qed.

Lemma page_bytes n : 0 <= n < 2 ^ 52 -> n *! PageSize = n * 4096.
Proof. intros H. change PageSize with 4096. apply to_u64_id. unfold is_u64. lia. Qed.

(** [Operate] that maps one run of frames. *)
Lemma Operate_map s base n perm p : 0 <= base -> 0 <= n -> base + n <= num_entries (entries_of s) -> num_entries (entries_of s) <= 2 ^ 36 ->
  0 < p -> p + n <= 2 ^ 50 ->
  exists t', Operate (base * 4096) n perm Op_Map (p * 4096) s = Some (sys_impl s t', RESULT_SUCCESS)
    /\ maps_new (in_range base n) (seqZ p n) (entries_of s) t'.
Proof.
  intros Hb Hn Hs Hm Hp Hq. unfold Operate. rewrite page_bytes by lia.
  destruct (MapMemoryRegion_spec (entries_of s) base n p) as (t' & E & HM); [done..|]. exists t'. split; [|done].
  erewrite bind_eq by (apply set_impl_eq; exact E). done.
Qed.

Lemma Operate_unmap s base n perm : 0 <= base -> 0 <= n -> base + n <= num_entries (entries_of s) -> num_entries (entries_of s) <= 2 ^ 36 ->
  exists t', Operate (base * 4096) n perm Op_Unmap 0 s = Some (sys_impl s t', RESULT_SUCCESS)
    /\ num_entries t' = num_entries (entries_of s)
    /\ forall i, frame t' i = if in_range base n i then None else frame (entries_of s) i.
Proof.
  intros Hb Hn Hs Hm. unfold Operate. rewrite page_bytes by lia.
  destruct (UnmapRegion_spec (entries_of s) base n) as (t' & E & HM); [done..|]. exists t'. split; [|done].
  erewrite bind_eq by (apply set_impl_eq; exact E). done.
Qed.

(** [Operate] on a page group. *)
Lemma Operate_group_map l : forall s base num, Forall mappable l -> (forall p, cnt l p <= 1) ->
  0 <= base -> base + npages l <= num_entries (entries_of s) -> num_entries (entries_of s) <= 2 ^ 36 ->
  exists t', Operate_group (base * 4096) num l Op_MapGroup s = Some (sys_impl s t', RESULT_SUCCESS)
    /\ maps_new (in_range base (npages l)) (frames l) (entries_of s) t'.
Proof.
  induction l as [|nd l IH]; intros s base num Hl H1 Hb Hs Hm; cbn [Operate_group npages frames map concat].
  - exists (entries_of s). rewrite sys_impl_id. split; [done|]. eapply maps_new_ext; [|apply maps_new_nil].
    intros i. symmetry. apply not_true_iff_false. rewrite in_range_iff. lia.
  - apply List.Forall_cons_iff in Hl as [((a & Ea & A1 & A2 & A3) & Hpos) Hl]. cbn [npages] in Hs.
    assert (0 <= npages l) as Hnl.
    { clear -Hl. induction Hl as [|x l ((? & _ & _ & ? & _) & _) _ IHl]; cbn [npages]; lia. }
    rewrite page_bytes by lia.
    destruct (MapMemoryRegion_spec (entries_of s) base (MM.num_pages nd) a) as (t1 & E1 & M1); [lia..|].
    erewrite bind_eq by (apply set_impl_eq; rewrite Ea; exact E1).
    rewrite to_u64_id by (unfold is_u64; lia). replace (base * 4096 + MM.num_pages nd * 4096) with ((base + MM.num_pages nd) * 4096) by lia.
    destruct (IH (sys_impl s t1) (base + MM.num_pages nd) num Hl) as (t2 & E2 & M2).
    + intros p. specialize (H1 p). cbn [cnt] in H1. unfold ind in H1. destruct (covers nd p); lia.
    + lia.
    + rewrite sys_impl_entries, (mn_size _ _ _ _ M1). lia.
    + rewrite sys_impl_entries, (mn_size _ _ _ _ M1). done.
    + exists t2. rewrite E2, sys_impl_twice. split; [done|]. rewrite sys_impl_entries in M2.
      eapply maps_new_ext; [intros i; apply in_range_concat; lia|].
      replace (node_frames nd) with (seqZ a (MM.num_pages nd)) by (unfold node_frames; rewrite Ea, Z.div_mul by lia; done).
      eapply maps_new_app; [done|done|intros i; apply in_range_disjoint|].
      pose proof (NoDup_frames (nd :: l) H1) as Hn. cbn [frames map concat] in Hn. unfold node_frames in Hn at 1.
      rewrite Ea, Z.div_mul in Hn by lia. exact Hn.
Qed.

(** ** Mapping the free blocks of a range *)

(** The frames not used yet by the private [MapPhysicalMemory]: what is left
    of the current node, and the nodes after it. *)
Definition unused (nodes : list MM.Node) (p src : Z) : list Z := seqZ p src ++ frames (tail nodes).

Lemma seqZ_split p n m : 0 <= n <= m -> seqZ p m = seqZ p n ++ seqZ (p + n) (m - n).
Proof.
  intros H. replace m with (n + (m - n)) at 1 by lia. rewrite seqZ_app by lia. done.
Qed.

Lemma map_free_block_spec fuel : forall s base m nodes p src,
  0 <= m <= Z.of_nat fuel -> 0 <= base -> base + m <= num_entries (entries_of s) -> num_entries (entries_of s) <= 2 ^ 36 ->
  Forall mappable (tail nodes) -> 0 < p -> 0 <= src -> p + src <= 2 ^ 50 ->
  m <= Z.of_nat (length (unused nodes p src)) -> NoDup (unused nodes p src) ->
  exists t' nodes' p' src' used,
    map_free_block fuel (base * 4096) m nodes (p * 4096) src s = Some (sys_impl s t', (nodes', p' * 4096, src'))
    /\ maps_new (in_range base m) used (entries_of s) t'
    /\ unused nodes p src = used ++ unused nodes' p' src' /\ Z.of_nat (length used) = m
    /\ Forall mappable (tail nodes') /\ 0 < p' /\ 0 <= src' /\ p' + src' <= 2 ^ 50.
Proof.
  induction fuel as [|fuel IH]; intros s base m nodes p src Hm Hb Hs He Hl Hp Hsrc Hq Hlen Hnd; cbn [map_free_block].
  all: destruct (Z.eqb_spec m 0) as [->|Hm0]; [|try lia].
  1,2: exists (entries_of s), nodes, p, src, []; rewrite sys_impl_id; split; [done|]; split; [|split_and!; done];
    eapply maps_new_ext; [|apply maps_new_nil]; intros i; symmetry; apply not_true_iff_false; rewrite in_range_iff; lia.
  assert (exists nodes1 p1 src1,
    (if src =? 0 then node ← head (tail nodes); Some (tail nodes, MM.addr node, MM.num_pages node)
     else Some (nodes, p * 4096, src)) = Some (nodes1, p1 * 4096, src1)
    /\ unused nodes1 p1 src1 = unused nodes p src /\ Forall mappable (tail nodes1) /\ 0 < p1 /\ 0 < src1 /\ p1 + src1 <= 2 ^ 50)
    as (nodes1 & p1 & src1 & E & Hu & Hl1 & Hp1 & Hs1 & Hq1).
  { destruct (Z.eqb_spec src 0) as [->|]; [|exists nodes, p, src; split_and!; done || lia].
    destruct (tail nodes) as [|nd l] eqn:Et; [unfold unused in Hlen; rewrite Et, length_app, length_seqZ in Hlen; cbn in Hlen; lia|].
    apply List.Forall_cons_iff in Hl as [((a & Ea & A1 & A2 & A3) & Hpos) Hl].
    exists (nd :: l), a, (MM.num_pages nd). cbn [head mbind option_bind tail]. rewrite Ea.
    split; [done|]. split; [|split_and!; [done|lia|lia|lia]]. unfold unused. rewrite Et. cbn [tail frames map concat].
    unfold node_frames. rewrite Ea, Z.div_mul by lia. done. }
  erewrite bind_eq by (unfold lift; rewrite E; reflexivity). cbv beta iota. rewrite <- Hu in *.
  set (k := Z.min src1 m) in *. assert (0 < k <= src1 /\ k <= m) as [Hk Hk'] by lia.
  destruct (Operate_map s base k MemoryPermission_ReadAndWrite p1) as (t1 & E1 & M1); [lia..|].
  erewrite bind_eq by exact E1. rewrite page_bytes by lia. rewrite !to_u64_id by (unfold is_u64; lia).
  replace (base * 4096 + k * 4096) with ((base + k) * 4096) by lia.
  replace (p1 * 4096 + k * 4096) with ((p1 + k) * 4096) by lia.
  assert (unused nodes1 p1 src1 = seqZ p1 k ++ unused nodes1 (p1 + k) (src1 - k)) as Hsplit.
  { unfold unused. rewrite (seqZ_split p1 k src1) by lia. by rewrite app_assoc. }
  rewrite Hsplit in Hlen, Hnd. rewrite length_app, length_seqZ in Hlen. pose proof Hnd as (_ & _ & Hnd')%NoDup_app.
  destruct (IH (sys_impl s t1) (base + k) (m - k) nodes1 (p1 + k) (src1 - k)) as
    (t2 & nodes2 & p2 & src2 & used & E2 & M2 & U2 & L2 & R2); rewrite ?sys_impl_entries, ?(mn_size _ _ _ _ M1); [lia..|done|lia|lia|lia|lia|done|].
  exists t2, nodes2, p2, src2, (seqZ p1 k ++ used). rewrite E2, sys_impl_twice. split; [done|]. split.
  - eapply maps_new_ext; [intros i|eapply maps_new_app; [exact M1|exact M2|intros i; apply in_range_disjoint|]].
    { cbv beta. rewrite in_range_concat by lia. f_equal. lia. }
    rewrite U2, app_assoc in Hnd. apply NoDup_app in Hnd as (Hnd & _). done.
  - rewrite Hsplit, U2, app_assoc. split; [done|]. split; [rewrite length_app, length_seqZ; lia|done].
Qed.

(** The pages of a tiling in a state, and the number of its free pages. *)
Definition state_in (st c : Z) (l : list MemoryBlock) (i : Z) : bool :=
  (c <=? i * 4096) && match page_at c l (i * 4096) with Some x => state x =? st | None => false end.
Fixpoint free_total (l : list MemoryBlock) : Z :=
  match l with
  | [] => 0
  | b :: l => (if state b =? MemoryState_Free then num_pages b else 0) + free_total l
  end.

Lemma state_in_nil st c i : state_in st c [] i = false.
Proof. unfold state_in, page_at. cbn [pages map concat]. rewrite lookup_nil. apply andb_false_r. Qed.
Lemma state_in_cons st c b l e i : tiles (c * 4096) (b :: l) e ->
  state_in st (c * 4096) (b :: l) i
  = ((state b =? st) && in_range c (num_pages b) i) || state_in st ((c + num_pages b) * 4096) l i.
Proof.
  intros Ht. unfold state_in. destruct (Z.leb_spec (c * 4096) (i * 4096)) as [H|H]; cbn [andb].
  - erewrite page_at_cons; [|done|lia|exists (i - c); lia].
    replace (c * 4096 + num_pages b * 4096) with ((c + num_pages b) * 4096) by lia.
    destruct (Z.ltb_spec (i * 4096) ((c + num_pages b) * 4096)), (Z.leb_spec ((c + num_pages b) * 4096) (i * 4096)); try lia;
      cbn [andb]; [rewrite (proj2 (in_range_iff c _ i)) by lia; cbn [page_info at_range state]; by rewrite andb_true_r, orb_false_r|].
    replace (in_range c (num_pages b) i) with false by (symmetry; apply not_true_iff_false; rewrite in_range_iff; lia).
    by rewrite andb_false_r.
  - destruct Ht as (_ & Hn & _). destruct (Z.leb_spec ((c + num_pages b) * 4096) (i * 4096)); [lia|].
    replace (in_range c (num_pages b) i) with false by (symmetry; apply not_true_iff_false; rewrite in_range_iff; lia).
    by rewrite andb_false_r.
Qed.
Lemma state_in_before st c l i : i < c -> state_in st (c * 4096) l i = false.
Proof. intros H. unfold state_in. destruct (Z.leb_spec (c * 4096) (i * 4096)); [lia|done]. Qed.
Lemma free_total_nonneg l : forall c e, tiles c l e -> 0 <= free_total l.
Proof. induction l as [|b l IH]; intros c e Ht; cbn [free_total]; [lia|]. destruct Ht as (_ & H & Ht). apply IH in Ht. destruct (_ =? _); lia. Qed.

Lemma map_free_blocks_spec a e infos : forall s c nodes p src,
  tiles (c * 4096) (map (clip a e) infos) e -> 0 <= c -> e <= num_entries (entries_of s) * 4096 -> num_entries (entries_of s) <= 2 ^ 36 ->
  Forall (fun b => GetSizeInRange b a e = num_pages (clip a e b) * 4096 /\ GetAddressInRange b a = addr (clip a e b)) infos ->
  Forall mappable (tail nodes) -> 0 < p -> 0 <= src -> p + src <= 2 ^ 50 ->
  free_total (map (clip a e) infos) <= Z.of_nat (length (unused nodes p src)) -> NoDup (unused nodes p src) ->
  exists t' used rest, map_free_blocks infos a e nodes (p * 4096) src s = Some (sys_impl s t', tt)
    /\ maps_new (state_in MemoryState_Free (c * 4096) (map (clip a e) infos)) used (entries_of s) t' /\ unused nodes p src = used ++ rest.
Proof.
  induction infos as [|b infos IH]; intros s c nodes p src Ht Hc Hs He Hf Hl Hp Hsrc Hq Hlen Hnd; cbn [map_free_blocks].
  { exists (entries_of s), [], (unused nodes p src). rewrite sys_impl_id. split; [done|]. split; [|done].
    eapply maps_new_ext; [|apply maps_new_nil]. intros i. symmetry. apply state_in_nil. }
  cbn [map free_total] in *. apply List.Forall_cons_iff in Hf as [[F1 F2] Hf]. pose proof Ht as (T1 & T2 & T3).
  pose proof (tiles_bound _ _ _ T3) as [T4 _]. pose proof (free_total_nonneg _ _ _ T3) as Hpos.
  replace (c * 4096 + num_pages (clip a e b) * 4096) with ((c + num_pages (clip a e b)) * 4096) in T3 by lia.
  change (state (clip a e b)) with (state b) in Hlen.
  destruct (Z.eqb_spec (state b) MemoryState_Free) as [Ef|Ef]; cbn [negb].
  - rewrite F1, F2, T1. change PageSize with 4096. rewrite Z.div_mul by lia.
    destruct (map_free_block_spec (Z.to_nat (num_pages (clip a e b))) s c (num_pages (clip a e b)) nodes p src)
      as (t1 & nodes1 & p1 & src1 & used1 & E1 & M1 & U1 & L1 & R1 & R2 & R3 & R4); [lia..|done|lia|lia|lia|lia|done|].
    erewrite bind_eq by exact E1. cbv beta iota. rewrite U1 in Hlen, Hnd. rewrite length_app in Hlen.
    pose proof Hnd as (_ & _ & Hnd')%NoDup_app.
    destruct (IH (sys_impl s t1) (c + num_pages (clip a e b)) nodes1 p1 src1 T3) as (t2 & used2 & rest & E2 & M2 & U2);
      rewrite ?sys_impl_entries, ?(mn_size _ _ _ _ M1); try done; try lia.
    exists t2, (used1 ++ used2), rest. rewrite E2, sys_impl_twice. split; [done|]. split; [|by rewrite U1, U2, app_assoc].
    eapply maps_new_ext; [intros i|eapply maps_new_app; [exact M1|exact M2| |]].
    + cbv beta. erewrite state_in_cons by done. change (state (clip a e b)) with (state b). by rewrite Ef, Z.eqb_refl.
    + intros i Hi. apply in_range_iff in Hi. apply state_in_before. lia.
    + rewrite U2, app_assoc in Hnd. apply NoDup_app in Hnd as (Hnd & _). done.
  - destruct (IH s (c + num_pages (clip a e b)) nodes p src T3) as (t2 & used2 & rest & E2 & M2 & U2); try done; try lia.
    exists t2, used2, rest. split; [done|]. split; [|done]. eapply maps_new_ext; [intros i|exact M2].
    erewrite (state_in_cons _ c) by done. change (state (clip a e b)) with (state b).
    by rewrite (proj2 (Z.eqb_neq _ _) Ef).
Qed.

(** ** Collecting and unmapping frames *)

(** Every frame is a page of physical memory, behind one page only. *)
Record frames_ok (t : CommonPageTable) : Prop := {
  fo_page : forall i x, frame t i = Some x -> exists p, x = p * 4096 /\ 0 <= p < 2 ^ 50 - 1;
  fo_inj : forall i j x, frame t i = Some x -> frame t j = Some x -> i = j;
}.

(** [l] holds exactly the frames of the pages [U], each once. *)
Record collected (t : CommonPageTable) (U : Z -> bool) (l : list MM.Node) : Prop := {
  co_nodes : Forall node_ok l;
  co_once : forall p, cnt l p <= 1;
  co_in : forall p, cnt l p = 1 <-> exists i, U i = true /\ frame t i = Some (p * 4096);
}.

Lemma collected_nil t : collected t (fun _ => false) [].
Proof. split; [constructor|cbn; lia|]. intros p. cbn [cnt]. split; [lia|]. intros (i & Hi & _). done. Qed.

Lemma collected_ext t U U' l : (forall i, U i = U' i) -> collected t U l -> collected t U' l.
Proof. intros H [C1 C2 C3]. split; [done..|]. intros p. rewrite C3. split; intros (i & Hi & Hf); exists i; [rewrite <- H|rewrite H]; done. Qed.

Lemma collected_add t U l i p : frames_ok t -> collected t U l -> U i = false -> frame t i = Some (p * 4096) ->
  collected t (fun j => U j || (j =? i)) (MM.AddBlock l (p * 4096) 1).
Proof.
  intros [Fp Fi] [C1 C2 C3] Hi Hf. destruct (Fp i _ Hf) as (p' & Ep & Hp). assert (p' = p) as -> by lia.
  destruct (AddBlock_spec l p 1 C1) as (A1 & _ & A3); [lia..|].
  assert (cnt l p = 0) as H0.
  { pose proof (cnt_nonneg l p). specialize (C2 p). destruct (Z.eq_dec (cnt l p) 1) as [E|]; [|lia].
    apply C3 in E as (j & Hj & Hfj). rewrite (Fi j i _ Hfj Hf) in Hj. congruence. }
  split; [done| |]; intros q; rewrite A3.
  - destruct (in_range p 1 q) eqn:E; cbn [ind]; [apply in_range_iff in E; assert (q = p) as -> by lia; lia|]. specialize (C2 q). lia.
  - destruct (in_range p 1 q) eqn:E; cbn [ind].
    + apply in_range_iff in E. assert (q = p) as -> by lia. split; [|lia]. intros _. exists i. by rewrite Z.eqb_refl, orb_true_r.
    + rewrite Z.add_0_r, C3. split; intros (j & Hj & Hfj); exists j; (split; [|done]); [by rewrite Hj|].
      apply orb_true_iff in Hj as [Hj| ->%Z.eqb_eq]; [done|].
      rewrite Hf in Hfj. rewrite <- not_true_iff_false, in_range_iff in E. injection Hfj. lia.
Qed.

Lemma GetPhysicalAddr_frame t i x : 0 <= i < num_entries (page_table_impl t) -> num_entries (page_table_impl t) <= 2 ^ 36 ->
  frame (page_table_impl t) i = Some x -> GetPhysicalAddr t (i * 4096) = Some x.
Proof.
  intros Hi Hm Hf. unfold GetPhysicalAddr. change PageBits with 12. rewrite Z.shiftr_div_pow2 by lia.
  change (2 ^ 12) with 4096. rewrite Z.div_mul by lia. destruct (Z.ltb_spec i (num_entries (page_table_impl t))); [|lia].
  unfold frame in Hf. destruct (attributes _); [done|..]; exact Hf.
Qed.

Lemma add_region_loop_spec fuel t t0 : forall base n U l, n = Z.of_nat fuel ->
  0 <= base -> base + n <= num_entries (page_table_impl t) -> num_entries (page_table_impl t) <= 2 ^ 36 -> frames_ok t0 ->
  collected t0 U l -> (forall i, in_range base n i = true -> U i = false) ->
  (forall i, in_range base n i = true -> frame (page_table_impl t) i = frame t0 i /\ frame t0 i <> None) ->
  exists l', add_region_loop fuel t (base * 4096) ((base + n) * 4096) l = Some l'
    /\ collected t0 (fun i => U i || in_range base n i) l'.
Proof.
  induction fuel as [|fuel IH]; intros base n U l -> Hb Hs Hm Hf Hc Hu Ht; cbn [add_region_loop].
  - destruct (Z.ltb_spec (base * 4096) ((base + Z.of_nat 0) * 4096)); [lia|]. exists l. split; [done|].
    eapply collected_ext; [|done]. intros i. replace (in_range base (Z.of_nat 0) i) with false; [by rewrite orb_false_r|].
    symmetry. apply not_true_iff_false. rewrite in_range_iff. lia.
  - destruct (Z.ltb_spec (base * 4096) ((base + Z.of_nat (S fuel)) * 4096)); [|lia].
    assert (in_range base (Z.of_nat (S fuel)) base = true) as H0 by (apply in_range_iff; lia).
    destruct (Ht base H0) as [E1 E2]. destruct (frame t0 base) as [x|] eqn:Ex; [|done].
    rewrite (GetPhysicalAddr_frame t base x) by (done || lia). cbn [mbind option_bind].
    destruct (fo_page _ Hf base x Ex) as (p & -> & Hp). change PageSize with 4096.
    rewrite to_u64_id by (unfold is_u64; lia). replace (base * 4096 + 4096) with ((base + 1) * 4096) by lia.
    replace (base + Z.of_nat (S fuel)) with (base + 1 + Z.of_nat fuel) by lia.
    assert (forall i, in_range (base + 1) (Z.of_nat fuel) i = true -> in_range base (Z.of_nat (S fuel)) i = true /\ i <> base) as Hin.
    { intros i. rewrite !in_range_iff. lia. }
    destruct (IH (base + 1) (Z.of_nat fuel) (fun j => U j || (j =? base)) (MM.AddBlock l (p * 4096) 1)) as (l' & E & C); try done; try lia.
    + apply collected_add; try done. by apply Hu.
    + intros i Hi. destruct (Hin i Hi) as [H1 H2]. rewrite (Hu i H1). by apply Z.eqb_neq.
    + intros i Hi. apply Ht, Hin, Hi.
    + exists l'. split; [done|]. eapply collected_ext; [|done]. intros i. cbv beta. rewrite <- orb_assoc. f_equal.
      apply eq_true_iff_eq. rewrite orb_true_iff, Z.eqb_eq, !in_range_iff. lia.
Qed.

Lemma AddRegionToPages_spec s base n t0 U l : 0 <= n -> 0 <= base -> base + n <= num_entries (entries_of s) ->
  num_entries (entries_of s) <= 2 ^ 36 -> frames_ok t0 -> collected t0 U l -> (forall i, in_range base n i = true -> U i = false) ->
  (forall i, in_range base n i = true -> frame (entries_of s) i = frame t0 i /\ frame t0 i <> None) ->
  exists l', AddRegionToPages (base * 4096) n l s = Some (s, l') /\ collected t0 (fun i => U i || in_range base n i) l'.
Proof.
  intros Hn Hb Hs Hm Hf Hc Hu Ht. unfold AddRegionToPages. rewrite page_bytes, to_u64_id by (unfold is_u64; lia).
  replace (base * 4096 + n * 4096) with ((base + n) * 4096) by lia.
  destruct (add_region_loop_spec (Z.to_nat n) (page_table s) t0 base n U l) as (l' & E & C); try done; [lia|].
  exists l'. split; [|done]. unfold table, gets, bind, lift. cbn [mbind option_bind]. by rewrite E.
Qed.

Lemma unmap_blocks_spec a e t0 infos : forall s c U l,
  tiles (c * 4096) (map (clip a e) infos) e -> 0 <= c -> e <= num_entries (entries_of s) * 4096 -> num_entries (entries_of s) <= 2 ^ 36 ->
  Forall (fun b => GetSizeInRange b a e = num_pages (clip a e b) * 4096 /\ GetAddressInRange b a = addr (clip a e b)) infos ->
  frames_ok t0 -> collected t0 U l -> (forall i, U i = true -> i < c) ->
  (forall i, frame (entries_of s) i = if U i then None else frame t0 i) ->
  (forall i, state_in MemoryState_Normal (c * 4096) (map (clip a e) infos) i = true -> frame t0 i <> None) ->
  exists t' l', unmap_blocks infos a e l s = Some (sys_impl s t', l') /\ num_entries t' = num_entries (entries_of s)
    /\ collected t0 (fun i => U i || state_in MemoryState_Normal (c * 4096) (map (clip a e) infos) i) l'
    /\ forall i, frame t' i
         = if U i || state_in MemoryState_Normal (c * 4096) (map (clip a e) infos) i then None else frame t0 i.
Proof.
  induction infos as [|b infos IH]; intros s c U l Ht Hc Hs Hm Hf Hok Hcol Hu Hfr Hn; cbn [unmap_blocks].
  { exists (entries_of s), l. rewrite sys_impl_id. split; [done|]. split; [done|]. cbn [map]. split.
    - eapply collected_ext; [|done]. intros i. by rewrite state_in_nil, orb_false_r.
    - intros i. by rewrite state_in_nil, orb_false_r. }
  cbn [map] in *. apply List.Forall_cons_iff in Hf as [[F1 F2] Hf]. pose proof Ht as (T1 & T2 & T3).
  pose proof (tiles_bound _ _ _ T3) as [T4 _].
  replace (c * 4096 + num_pages (clip a e b) * 4096) with ((c + num_pages (clip a e b)) * 4096) in T3 by lia.
  set (n := num_pages (clip a e b)) in *. set (infos' := map (clip a e) infos) in *.
  assert (forall i, state_in MemoryState_Normal (c * 4096) (clip a e b :: infos') i
    = ((state b =? MemoryState_Normal) && in_range c n i) || state_in MemoryState_Normal ((c + n) * 4096) infos' i) as Hsi.
  { intros i. erewrite state_in_cons by done. done. }
  destruct (Z.eqb_spec (state b) MemoryState_Normal) as [En|En].
  - rewrite F1, F2, T1. change PageSize with 4096. rewrite Z.div_mul by lia.
    assert (forall i, in_range c n i = true -> U i = false) as Hdis.
    { intros i Hi. apply in_range_iff in Hi. apply not_true_iff_false. intros HU. specialize (Hu i HU). lia. }
    destruct (AddRegionToPages_spec s c n t0 U l) as (l1 & E1 & C1); try done; try lia.
    { intros i Hi. rewrite Hfr, (Hdis i Hi). split; [done|]. apply Hn. by rewrite Hsi, Hi. }
    erewrite bind_eq by exact E1. destruct (Operate_unmap s c n MemoryPermission_None) as (t1 & E2 & N1 & M1); [lia..|].
    erewrite bind_eq by exact E2.
    destruct (IH (sys_impl s t1) (c + n) (fun i => U i || in_range c n i) l1) as (t2 & l2 & E3 & N2 & C2 & M2);
      rewrite ?sys_impl_entries, ?N1; try done; try lia.
    + intros i [HU|HU%in_range_iff]%orb_true_iff; [specialize (Hu i HU); lia|lia].
    + intros i. rewrite M1, Hfr. by destruct (U i), (in_range c n i).
    + intros i Hi. apply Hn. rewrite Hsi, Hi. apply orb_true_r.
    + exists t2, l2. rewrite E3, sys_impl_twice. split; [done|]. split; [rewrite N2; done|]. split.
      * eapply collected_ext; [|exact C2]. intros i. cbv beta. rewrite Hsi, <- orb_assoc. done.
      * intros i. rewrite M2, Hsi, <- orb_assoc. done.
  - destruct (IH s (c + n) U l) as (t2 & l2 & E3 & N2 & C2 & M2); try done; try lia.
    + intros i HU. specialize (Hu i HU). lia.
    + intros i Hi. apply Hn. by rewrite Hsi.
    + exists t2, l2. split; [done|]. split; [done|]. split; [eapply collected_ext; [|exact C2]|]; intros i; rewrite Hsi; [done|apply M2].
Qed.

(** ** Sizes of the mapped part of a range *)

Definition sizes_in (a e : Z) (l : list MemoryBlock) : Prop :=
  Forall (fun b => GetSizeInRange b a e = num_pages (clip a e b) * 4096 /\ GetAddressInRange b a = addr (clip a e b)) l.

Lemma mapped_size_spec a e infos : forall c, tiles c (map (clip a e) infos) e -> 0 <= c -> e < 2 ^ 64 -> sizes_in a e infos ->
  mapped_size_of infos a e = e - c - free_total (map (clip a e) infos) * 4096.
Proof.
  intros c Ht Hc He Hs. unfold mapped_size_of.
  enough (forall n, 0 <= n -> n + (e - c) < 2 ^ 64 ->
    foldl (fun n info => if state info =? MemoryState_Free then n else n +! GetSizeInRange info a e) n infos
    = n + (e - c) - free_total (map (clip a e) infos) * 4096) as H by (rewrite H by lia; lia).
  revert c Ht Hc. induction infos as [|b infos IH]; intros c Ht Hc n Hn Hm; cbn [foldl map free_total]; [cbn in Ht; lia|].
  apply List.Forall_cons_iff in Hs as [[S1 _] Hs]. destruct Ht as (T1 & T2 & T3). cbn [map] in *.
  pose proof (tiles_bound _ _ _ T3) as [T4 _]. change (state (clip a e b)) with (state b).
  destruct (Z.eqb_spec (state b) MemoryState_Free).
  - rewrite (IH Hs _ T3) by lia. lia.
  - rewrite S1, to_u64_id by (unfold is_u64; lia). rewrite (IH Hs _ T3) by lia. lia.
Qed.

Lemma unmap_check_spec a e infos c : tiles c (map (clip a e) infos) e -> 0 <= c -> e < 2 ^ 64 -> sizes_in a e infos ->
  (unmap_check infos a e).1 = ERR_INVALID_ADDRESS_STATE
  \/ unmap_check infos a e = (RESULT_SUCCESS, e - c - free_total (map (clip a e) infos) * 4096)
     /\ Forall (fun b => state b = MemoryState_Free \/ (state b = MemoryState_Normal /\ attribute b = MemoryAttribute_None)) infos.
Proof.
  intros Ht Hc He Hs. unfold unmap_check. set (f := fun _ _ => _).
  assert (forall l n, (foldl f (ERR_INVALID_ADDRESS_STATE, n) l).1 = ERR_INVALID_ADDRESS_STATE) as Herr.
  { intros l. induction l as [|b l IH]; intros n; [done|]. cbn [foldl]. unfold f at 2.
    destruct (state b =? MemoryState_Normal), (attribute b =? MemoryAttribute_None), (state b =? MemoryState_Free);
      cbn [negb]; apply IH. }
  enough (forall n, 0 <= n -> n + (e - c) < 2 ^ 64 ->
    (foldl f (RESULT_SUCCESS, n) infos).1 = ERR_INVALID_ADDRESS_STATE
    \/ foldl f (RESULT_SUCCESS, n) infos = (RESULT_SUCCESS, n + (e - c) - free_total (map (clip a e) infos) * 4096)
       /\ Forall (fun b => state b = MemoryState_Free \/ (state b = MemoryState_Normal /\ attribute b = MemoryAttribute_None)) infos)
    as H by (destruct (H 0) as [H0|H0]; [lia|lia|by left|right; by rewrite Z.add_0_l in H0]).
  revert c Ht Hc. induction infos as [|b infos IH]; intros c Ht Hc n Hn Hm; cbn [foldl map free_total].
  { right. cbn in Ht. split; [f_equal; lia|constructor]. }
  apply List.Forall_cons_iff in Hs as [[S1 _] Hs]. destruct Ht as (T1 & T2 & T3). cbn [map] in *.
  pose proof (tiles_bound _ _ _ T3) as [T4 _]. change (state (clip a e b)) with (state b).
  assert (f (RESULT_SUCCESS, n) b = (ERR_INVALID_ADDRESS_STATE, n)
    \/ (state b = MemoryState_Free /\ f (RESULT_SUCCESS, n) b = (RESULT_SUCCESS, n))
    \/ (state b = MemoryState_Normal /\ attribute b = MemoryAttribute_None
        /\ f (RESULT_SUCCESS, n) b = (RESULT_SUCCESS, n + num_pages (clip a e b) * 4096))) as [Ef|[[E0 Ef]|(E0 & E1 & Ef)]].
  { unfold f. rewrite S1, to_u64_id by (unfold is_u64; lia).
    destruct (Z.eqb_spec (state b) MemoryState_Normal), (Z.eqb_spec (attribute b) MemoryAttribute_None),
      (Z.eqb_spec (state b) MemoryState_Free); cbn [negb]; auto. }
  all: rewrite Ef.
  - left. apply Herr.
  - destruct (IH Hs _ T3 ltac:(lia) n ltac:(lia) ltac:(lia)) as [H|[H HF]]; [by left|right]. rewrite H, E0, Z.eqb_refl.
    split; [f_equal; lia|]. constructor; auto.
  - destruct (IH Hs _ T3 ltac:(lia) (n + num_pages (clip a e b) * 4096) ltac:(lia) ltac:(lia)) as [H|[H HF]]; [by left|right].
    rewrite H, E0. change (MemoryState_Normal =? MemoryState_Free) with false. cbv iota.
    split; [f_equal; lia|]. constructor; auto.
Qed.
