(* ===== verification/PageTableIsolation.v ===== *)
(** * Pages of an address space do not share memory

    The block list, the entries and the heap of physical memory stay
    consistent under the operations of the page table that allocate, free and
    protect memory: a page is unmapped exactly when its block is free, the
    frame behind a mapped page is allocated, and no two pages have the same
    frame. *)

From S2P Require Import Prelude BitUtil KernelObject PageHeap PageBitmap PageHeapCorrect PageHeapSpec MemoryManager.
From S2P Require Import MemoryState MemoryBlockManager MemoryBlockCorrect AddressSpace ResourceLimit.
From S2P Require Import PageTable PageTableInit PageTableRanges PageTableFrames.
From stdpp Require Import base list gmap.
Import MemoryBlockManager.MemoryBlockManager.
Import PageTable.PageTable.
Open Scope Z_scope.
Open Scope c_scope.

(** ** The invariant *)

(** What [MapPhysicalMemory] recognises as free. *)
Definition free_info (x : MemoryBlock) : Prop :=
  HasProperties x MemoryState_Free MemoryPermission_None (MemoryAttribute_None .| MemoryAttribute_IpcAndDeviceMapped) = true.

Section Isolation.
Context (lo hi : Z) (Hlo : 0 < lo < hi) (Hhi : hi <= 2 ^ 49) (Hsz : hi - lo <= 2 ^ 23).

(** The entries, the blocks and the heap agree. *)
Record consistent (t : CommonPageTable) (b : MemoryBlockTree) (h : PageHeap) : Prop := {
  cs_size : num_entries t <= 2 ^ 36;
  cs_blocks : block_tree 0 (num_entries t * 4096) b;
  cs_heap : reachable lo hi h;
  cs_frame : forall i x, frame t i = Some x -> exists p, x = p * 4096 /\ lo <= p < hi /\ free_page h p = false;
  cs_inj : forall i j x, frame t i = Some x -> frame t j = Some x -> i = j;
  cs_page : forall i x, 0 <= i < num_entries t -> page_at 0 b (i * 4096) = Some x ->
    is_u32 (state x) /\ (state x = MemoryState_Free -> free_info x) /\ (state x = MemoryState_Free <-> frame t i = None);
}.

Definition blocks (s : System) : MemoryBlockTree := block_manager (page_table s).
Definition pool (s : System) : nat := memory_pool (layout (page_table s)).

(** The heap of the process is a prefix of its region. *)
Definition heap_ok (t : PageTable) : Prop :=
  exists hs hc he, heap_region_start (layout t) = hs * 4096 /\ current_heap_addr t = hc * 4096
    /\ heap_region_end (layout t) = he * 4096 /\ 0 <= hs <= hc /\ hc <= he /\ he < num_entries (page_table_impl t).

Definition isolated (s : System) : Prop :=
  heap_ok (page_table s) /\ exists h, memory_manager s !! pool s = Some h /\ consistent (entries_of s) (blocks s) h.

Lemma consistent_frames t b h : consistent t b h -> frames_ok t.
Proof using Hlo Hhi.
  intros H. split; [|apply H]. intros i x Hx. destruct (cs_frame _ _ _ H i x Hx) as (p & -> & Hp & _). exists p. split; [done|lia].
Qed.

Lemma consistent_page t b h i : consistent t b h -> 0 <= i < num_entries t ->
  exists x, page_at 0 b (i * 4096) = Some x /\ is_u32 (state x) /\ (state x = MemoryState_Free -> free_info x)
    /\ (state x = MemoryState_Free <-> frame t i = None).
Proof.
  intros H Hi. destruct (page_at_is_some 0 (num_entries t * 4096) b (i * 4096)) as [x Hx]; [apply H|apply Z.divide_factor_r|lia|].
  exists x. split; [done|]. by apply (cs_page _ _ _ H i).
Qed.

Lemma aligned_index pos n : (4096 | pos) -> 0 <= pos < n * 4096 -> exists i, pos = i * 4096 /\ 0 <= i < n.
Proof. intros [i ->] H. exists i. split; [done|lia]. Qed.

(** ** Changes that keep it *)

(** The heap loses pages. *)
Lemma consistent_heap t b h h' : consistent t b h -> reachable lo hi h' ->
  (forall p, free_page h' p = true -> free_page h p = true) -> consistent t b h'.
Proof.
  intros [C1 C2 C3 C4 C5 C6] Hr Hf. split; try done. intros i x Hx. destruct (C4 i x Hx) as (p & -> & Hp & Hn).
  exists p. split; [done|]. split; [done|]. apply not_true_iff_false. intros H. apply Hf in H. congruence.
Qed.

(** Free pages get frames that were free. *)
Lemma consistent_map t b h t' b' h' R F : consistent t b h -> maps_new R F t t' -> block_tree 0 (num_entries t * 4096) b' ->
  reachable lo hi h' -> (forall p, free_page h' p = true -> free_page h p = true) ->
  (forall p, p ∈ F -> lo <= p < hi /\ free_page h p = true /\ free_page h' p = false) ->
  (forall i x, 0 <= i < num_entries t -> page_at 0 b (i * 4096) = Some x ->
     exists x', page_at 0 b' (i * 4096) = Some x'
       /\ if R i then state x' <> MemoryState_Free /\ is_u32 (state x') else x' = x) ->
  consistent t' b' h'.
Proof.
  intros HC HM Hb Hr Hf HF Hp. pose proof HC as [C1 C2 C3 C4 C5 C6]. pose proof HM as [M1 M2 M3 M4].
  assert (forall i j x, R i = true -> R j = false -> frame t' i = Some x -> frame t' j = Some x -> False) as Hx.
  { intros i j x Hi Hj H1 H2. destruct (M3 i Hi) as (p & Hp1 & Hp2). rewrite M2 in H2 by done.
    destruct (C4 j x H2) as (q & -> & Hq & Hn). destruct (HF p Hp1) as (_ & Hfree & _).
    rewrite Hp2 in H1. assert (p = q) as -> by (injection H1; lia). congruence. }
  split; rewrite ?M1; try done.
  - intros i x Hx'. destruct (R i) eqn:Ei.
    + destruct (M3 i Ei) as (p & Hp1 & Hp2). rewrite Hp2 in Hx'. injection Hx' as <-. destruct (HF p Hp1) as (? & _ & ?). eauto.
    + rewrite M2 in Hx' by done. destruct (C4 i x Hx') as (p & -> & Hq & Hn). exists p. split; [done|]. split; [done|].
      apply not_true_iff_false. intros H. apply Hf in H. congruence.
  - intros i j x Hi Hj. destruct (R i) eqn:Ei, (R j) eqn:Ej.
    + apply M4; congruence.
    + exfalso. by apply (Hx i j x).
    + exfalso. by apply (Hx j i x).
    + rewrite M2 in Hi, Hj by done. by apply (C5 i j x).
  - intros i x Hi Hx'. destruct (consistent_page _ _ _ i HC Hi) as (y & Hy & Y1 & Y2 & Y3).
    destruct (Hp i y Hi Hy) as (x' & Hx1 & Hx2). rewrite Hx1 in Hx'. injection Hx' as ->. destruct (R i) eqn:Ei.
    + destruct Hx2 as [Hx2 Hx3]. split; [done|]. split; [done|]. destruct (M3 i Ei) as (p & _ & ->). done.
    + subst y. rewrite M2 by done. done.
Qed.

(** Frames go back to the heap. *)
Lemma consistent_unmap t b h t' b' h' (U : Z -> bool) : consistent t b h -> num_entries t' = num_entries t ->
  (forall i, frame t' i = if U i then None else frame t i) -> block_tree 0 (num_entries t * 4096) b' -> reachable lo hi h' ->
  (forall p, free_page h' p = true -> free_page h p = true \/ exists i, U i = true /\ frame t i = Some (p * 4096)) ->
  (forall i x, 0 <= i < num_entries t -> page_at 0 b (i * 4096) = Some x ->
     exists x', page_at 0 b' (i * 4096) = Some x' /\ (x' = x /\ U i = false \/ free_info x' /\ (U i = true \/ state x = MemoryState_Free))) ->
  consistent t' b' h'.
Proof.
  intros HC Hn Hfr Hb Hr Hf Hp. pose proof HC as [C1 C2 C3 C4 C5 C6].
  assert (forall i x, frame t' i = Some x -> U i = false /\ frame t i = Some x) as Hold.
  { intros i x. rewrite Hfr. by destruct (U i). }
  split; rewrite ?Hn; try done.
  - intros i x [HU Hx]%Hold. destruct (C4 i x Hx) as (p & -> & Hq & Hnf). exists p. split; [done|]. split; [done|].
    apply not_true_iff_false. intros [H|(j & Hj & Hfj)]%Hf; [congruence|]. rewrite (C5 i j _ Hx Hfj) in HU. congruence.
  - intros i j x [_ Hi]%Hold [_ Hj]%Hold. by apply (C5 i j x).
  - intros i x Hi Hx'. destruct (consistent_page _ _ _ i HC Hi) as (y & Hy & Y1 & Y2 & Y3).
    destruct (Hp i y Hi Hy) as (x' & Hx1 & Hx2). rewrite Hx1 in Hx'. injection Hx' as ->. rewrite Hfr.
    destruct Hx2 as [[-> ->]|[Hx2 Hx3]]; [done|].
    assert (state x = MemoryState_Free) as E.
    { unfold free_info, HasProperties in Hx2. apply andb_prop in Hx2 as [[E _]%andb_prop _]. by apply Z.eqb_eq. }
    split; [rewrite E; unfold is_u32; done|]. split; [done|]. split; [intros _|done].
    destruct Hx3 as [->|Hx3]; [done|]. destruct (U i); [done|]. by apply Y3.
Qed.

(** The properties of mapped pages change. *)
Lemma consistent_protect t b h b' : consistent t b h -> block_tree 0 (num_entries t * 4096) b' ->
  (forall i x, 0 <= i < num_entries t -> page_at 0 b (i * 4096) = Some x ->
     exists x', page_at 0 b' (i * 4096) = Some x'
       /\ (x' = x \/ (state x <> MemoryState_Free /\ state x' <> MemoryState_Free /\ is_u32 (state x')))) ->
  consistent t b' h.
Proof.
  intros HC Hb Hp. pose proof HC as [C1 C2 C3 C4 C5 C6]. split; try done. intros i x Hi Hx'.
  destruct (consistent_page _ _ _ i HC Hi) as (y & Hy & Y1 & Y2 & Y3).
  destruct (Hp i y Hi Hy) as (x' & Hx1 & Hx2). rewrite Hx1 in Hx'. injection Hx' as ->.
  destruct Hx2 as [->|(X1 & X2 & X3)]; [done|]. split; [done|]. tauto.
Qed.

(** ** Parts of the operations *)

Definition sys_blocks (s : System) (b : MemoryBlockTree) : System :=
  {| page_table := with_blocks (page_table s) b; memory_manager := memory_manager s; resource_limit := resource_limit s |}.
Definition sys_heap (s : System) (h : PageHeap) : System :=
  {| page_table := page_table s; memory_manager := <[pool s := h]> (memory_manager s); resource_limit := resource_limit s |}.
Definition sys_limit (s : System) (r : option RL.ResourceLimit) : System :=
  {| page_table := page_table s; memory_manager := memory_manager s; resource_limit := r |}.

(** The range of [n] pages from page [base] ends before the address space. *)
Definition range_ok (s : System) (base n : Z) : Prop := 0 <= base /\ 0 < n /\ base + n < num_entries (entries_of s).

Lemma in_range_pages base n i : (base * 4096 <=? i * 4096) && (i * 4096 <? base * 4096 + n * 4096) = in_range base n i.
Proof. apply eq_true_iff_eq. rewrite andb_true_iff, Z.leb_le, Z.ltb_lt, in_range_iff. lia. Qed.

Lemma update_spec s base n st p at_ : block_tree 0 (num_entries (entries_of s) * 4096) (blocks s) -> range_ok s base n ->
  exists b', update (base * 4096) n st p at_ s = Some (sys_blocks s b', tt)
    /\ block_tree 0 (num_entries (entries_of s) * 4096) b'
    /\ forall i x, 0 <= i < num_entries (entries_of s) -> page_at 0 (blocks s) (i * 4096) = Some x ->
         page_at 0 b' (i * 4096) = Some (if in_range base n i then UpdateBlock st p at_ x else x).
Proof.
  intros Ht (Hb & Hn & He). unfold update, set_blocks, modify_table, Update.
  destruct (update_loop_pages 0 (num_entries (entries_of s) * 4096) (blocks s) (base * 4096) n st p at_) with (m := fun _ : MemoryBlock => true)
    as (b' & E & T' & HP); [done|apply Z.divide_factor_r|lia|lia|lia|done|].
  exists b'. unfold blocks in *. rewrite E. split; [done|]. split; [done|]. intros i x Hi Hx.
  destruct (HP (i * 4096)) as (y & Y1 & Y2); [apply Z.divide_factor_r|lia|]. rewrite Hx in Y1. injection Y1 as <-. rewrite Y2.
  by rewrite andb_true_r, in_range_pages.
Qed.

(** What all pages of a range satisfy, by page number. *)
Definition pages_satisfy (s : System) (base n : Z) (P : MemoryBlock -> Prop) : Prop :=
  forall i x, in_range base n i = true -> page_at 0 (blocks s) (i * 4096) = Some x -> P x.

Lemma all_pages_satisfy s base n P : all_pages 0 (blocks s) (base * 4096) n P -> pages_satisfy s base n P.
Proof. intros H i x Hi%in_range_iff Hx. apply (H (i * 4096)); [apply Z.divide_factor_r|lia|done]. Qed.

Lemma checked_spec s base n sm st pm p am a ig k : block_tree 0 (num_entries (entries_of s) * 4096) (blocks s) -> range_ok s base n ->
  (exists x, page_at 0 (blocks s) (base * 4096) = Some x
     /\ pages_satisfy s base n (fun y => page_agrees ig x y /\ page_matches sm st pm p am a y)
     /\ checked (base * 4096) (n * 4096) sm st pm p am a ig k s = k (state x) (perm x) (attribute x .& to_u8 (Z.lnot ig)) s)
  \/ checked (base * 4096) (n * 4096) sm st pm p am a ig k s = Some (s, ERR_INVALID_ADDRESS_STATE).
Proof.
  intros Ht (Hb & Hn & He). unfold checked.
  destruct (CheckMemoryState_spec sm st pm p am a ig 0 (num_entries (entries_of s) * 4096) (blocks s) (base * 4096) n)
    as (x & r & Hx & E & Hr); [done|apply Z.divide_factor_r|lia|lia|lia|].
  unfold table, gets, lift, bind. cbn [mbind option_bind]. fold (blocks s). rewrite E.
  destruct Hr as [[-> Hr]|[-> Hr]]; [left|by right]. exists x. split; [done|]. split; [by apply all_pages_satisfy|done].
Qed.

Lemma checked_ok s base n sm st pm p am a ig k x : block_tree 0 (num_entries (entries_of s) * 4096) (blocks s) -> range_ok s base n ->
  page_at 0 (blocks s) (base * 4096) = Some x -> pages_satisfy s base n (fun y => page_agrees ig x y /\ page_matches sm st pm p am a y) ->
  checked (base * 4096) (n * 4096) sm st pm p am a ig k s = k (state x) (perm x) (attribute x .& to_u8 (Z.lnot ig)) s.
Proof.
  intros Ht (Hb & Hn & He) Hx Hall. unfold checked.
  destruct (CheckMemoryState_spec sm st pm p am a ig 0 (num_entries (entries_of s) * 4096) (blocks s) (base * 4096) n)
    as (x' & r & Hx' & E & Hr); [done|apply Z.divide_factor_r|lia|lia|lia|].
  rewrite Hx in Hx'. injection Hx' as <-. unfold table, gets, lift, bind. cbn [mbind option_bind]. fold (blocks s). rewrite E.
  destruct Hr as [[-> _]|[_ Hr]]; [done|]. exfalso. apply Hr. intros pos y [i ->] Hp Hy. apply (Hall i y); [apply in_range_iff; lia|done].
Qed.

(** The masks of [IsRegionMapped]. *)
Definition unused_page (x : MemoryBlock) : Prop :=
  state x = MemoryState_Free /\ perm x .& MemoryPermission_Mask = MemoryPermission_None
  /\ attribute x .& MemoryAttribute_Mask = MemoryAttribute_None.

Lemma IsRegionMapped_masks s h base n : consistent (entries_of s) (blocks s) h -> range_ok s base n ->
  exists r, IsRegionMapped (base * 4096) (n * 4096) s = Some (s, r) /\ (r = false -> pages_satisfy s base n unused_page).
Proof.
  intros HC (Hb & Hn & He). unfold IsRegionMapped.
  destruct (CheckMemoryState_spec MemoryState_All MemoryState_Free MemoryPermission_Mask MemoryPermission_None MemoryAttribute_Mask
    MemoryAttribute_None MemoryAttribute_IpcAndDeviceMapped 0 (num_entries (entries_of s) * 4096) (blocks s) (base * 4096) n)
    as (x & r & Hx & E & Hr); [apply HC|apply Z.divide_factor_r|lia|lia|lia|].
  unfold table, gets, lift, bind. cbn [mbind option_bind]. fold (blocks s). rewrite E. cbn [mbind option_bind fst].
  eexists. split; [reflexivity|]. destruct Hr as [[-> Hr]|[-> Hr]]; [|done]. intros _. apply all_pages_satisfy in Hr.
  intros i y Hi Hy. destruct (Hr i y Hi Hy) as (_ & Hm & Hm'). apply in_range_iff in Hi.
  destruct (cs_page _ _ _ HC i y ltac:(lia) Hy) as (Hu & _). change MemoryState_All with (Z.ones 32) in Hm.
  rewrite Z.land_ones, Z.mod_small in Hm by (done || lia). done.
Qed.

Lemma IsRegionMapped_spec s h base n : consistent (entries_of s) (blocks s) h -> range_ok s base n ->
  exists r, IsRegionMapped (base * 4096) (n * 4096) s = Some (s, r)
    /\ (r = false -> pages_satisfy s base n (fun x => state x = MemoryState_Free)).
Proof.
  intros HC Hr. destruct (IsRegionMapped_masks s h base n HC Hr) as (r & E & Hm). exists r. split; [done|].
  intros H0 i y Hi Hy. by destruct (Hm H0 i y Hi Hy).
Qed.

(** [pool_allocate]: the pages taken, or the same pages free. *)
Lemma pool_allocate_spec s h m : memory_manager s !! pool s = Some h -> reachable lo hi h -> 0 < m < 2 ^ 60 ->
  exists h' l r, pool_allocate m s = Some (sys_heap s h', (l, r)) /\ reachable lo hi h'
    /\ ((r = RESULT_SUCCESS /\ alloc_inv lo hi h h' l /\ npages l = m)
        \/ (r = ERR_OUT_OF_MEMORY /\ free_count lo hi h < m /\ forall p, free_page h' p = free_page h p)).
Proof using Hlo Hhi Hsz.
  intros Hh Hr Hm. destruct (Allocate_spec lo hi Hlo Hhi Hsz h m Hr Hm) as (h' & l & r & E & Hc).
  exists h', l, r. unfold pool_allocate, MM.Pool_Allocate. fold (pool s). rewrite Hh. cbn [mbind option_bind]. rewrite E.
  split; [done|]. destruct Hc as [(_ & -> & HA & Hn)|(Hlt & -> & Hr' & Hf)]; [split; [apply HA|]; auto|]. split; [done|]. auto.
Qed.

(** What was taken can be mapped. *)
Lemma alloc_frames h h' l : reachable lo hi h -> alloc_inv lo hi h h' l ->
  Forall mappable l /\ (forall p, p ∈ frames l -> lo <= p < hi /\ free_page h p = true /\ free_page h' p = false)
  /\ (forall p, free_page h' p = true -> free_page h p = true).
Proof using Hlo Hhi Hsz.
  intros Hr [A1 A2 A3 A4 A5 A6].
  assert (forall p, p ∈ frames l -> lo <= p < hi /\ free_page h p = true /\ free_page h' p = false) as HF.
  { intros p Hp%elem_of_frames. pose proof (A3 p). assert (cnt l p = 1) as E by lia.
    pose proof (A4 p E) as Hf. split; [by apply (free_in_heap lo hi Hlo Hhi Hsz h)|]. split; [done|].
    by rewrite A5, E, andb_false_r. }
  split; [|split; [done|intros p; rewrite A5; by intros [? _]%andb_prop]].
  apply List.Forall_forall. intros nd Hnd. rewrite List.Forall_forall in A2. pose proof (A2 nd Hnd) as (a & Ea & H0 & Hn & Hm).
  split; [by exists a|]. enough (lo <= a) by lia. apply HF. unfold frames. apply list_elem_of_In, in_concat.
  exists (node_frames nd). split; [by apply in_map|]. unfold node_frames. rewrite <- list_elem_of_In, elem_of_seqZ, Ea, Z.div_mul by lia. lia.
Qed.

(** The resource limit, away from overflow. *)
Definition limits_ok (s : System) : Prop :=
  match resource_limit s with
  | None => True
  | Some r => - 2 ^ 62 <= RL.at_index (RL.current r) 0 < 2 ^ 62 /\ - 2 ^ 62 <= RL.at_index (RL.available r) 0 < 2 ^ 62
  end.

Lemma reserve_spec s amount : limits_ok s -> 0 <= amount < 2 ^ 61 \/ 2 ^ 64 - 2 ^ 61 <= amount < 2 ^ 64 ->
  exists r ok, reserve amount s = Some (sys_limit s r, ok).
Proof.
  intros Hl Ha. unfold reserve. destruct s as [t mm [r|]]; cbn in *; [|exists None, true; done].
  assert (- 2 ^ 61 <= to_s64 amount < 2 ^ 61) as Hs.
  { unfold to_s64. rewrite to_u64_id by (unfold is_u64; lia). destruct (Z.ltb_spec amount (2 ^ 63)); lia. }
  unfold RL.Reserve, add_s64. cbn [RL.ResourceTypeToIndex]. set (am := to_s64 amount) in *.
  set (c := RL.at_index (RL.current r) 0) in *. set (v := RL.at_index (RL.available r) 0) in *.
  set (lim := RL.at_index (RL.limit r) 0) in *.
  destruct (Z.leb_spec (- 2 ^ 63) (c + am)), (Z.ltb_spec (c + am) (2 ^ 63)), (Z.leb_spec (- 2 ^ 63) (v + am)),
    (Z.ltb_spec (v + am) (2 ^ 63)); try lia. cbn [andb mbind option_bind].
  destruct (lim <? c + am); cbn [mbind option_bind]; [destruct (v + am <=? lim); cbn [mbind option_bind]|];
    destruct (c + am <=? lim); cbn [mbind option_bind]; do 2 eexists; reflexivity.
Qed.

Lemma sys_heap_lookup s h h' : memory_manager s !! pool s = Some h -> memory_manager (sys_heap s h') !! pool s = Some h'.
Proof. intros Hh. apply (list_lookup_insert_eq (memory_manager s)). by eapply lookup_lt_Some. Qed.

(** ** Operations *)

(** Mapping and marking the pages of a successful allocation. *)
Lemma map_allocated s h h' l base n num st p at_ : memory_manager s !! pool s = Some h -> consistent (entries_of s) (blocks s) h ->
  range_ok s base n -> pages_satisfy s base n (fun x => state x = MemoryState_Free) ->
  alloc_inv lo hi h h' l -> npages l = n -> st <> MemoryState_Free -> is_u32 st ->
  exists t' b', let s1 := sys_impl (sys_heap s h') t' in
    Operate_group (base * 4096) num l Op_MapGroup (sys_heap s h') = Some (s1, RESULT_SUCCESS)
    /\ update (base * 4096) n st p at_ s1 = Some (sys_blocks s1 b', tt)
    /\ memory_manager s1 !! pool s = Some h' /\ consistent t' b' h' /\ num_entries t' = num_entries (entries_of s).
Proof using Hlo Hhi Hsz.
  intros Hh HC Hr Hfree HA Hn Hst Hu. destruct (alloc_frames h h' l (cs_heap _ _ _ HC) HA) as (L1 & L2 & L3).
  pose proof Hr as (R1 & R2 & R3). pose proof (cs_size _ _ _ HC) as Hsize.
  destruct (Operate_group_map l (sys_heap s h') base num L1 (ai_once _ _ _ _ _ HA)) as (t' & E & HM);
    [lia|change (entries_of (sys_heap s h')) with (entries_of s); lia|done|].
  change (entries_of (sys_heap s h')) with (entries_of s) in *. pose proof (mn_size _ _ _ _ HM) as Hne.
  destruct (update_spec (sys_impl (sys_heap s h') t') base n st p at_) as (b' & EU & TU & PU).
  { rewrite sys_impl_entries, Hne. apply HC. }
  { unfold range_ok. rewrite sys_impl_entries, Hne. done. }
  rewrite sys_impl_entries, Hne in TU, PU. exists t', b'. split; [done|]. split; [done|]. split.
  { by apply (sys_heap_lookup s h h'). }
  split; [|done]. eapply consistent_map; [exact HC|exact HM|done|apply HA|done|done|]. intros i x Hi Hx. rewrite (PU i x Hi Hx).
  eexists. split; [done|]. rewrite Hn. destruct (in_range base n i) eqn:Ei; [|done]. done.
Qed.

Lemma isolated_heap s h h' : isolated s -> memory_manager s !! pool s = Some h -> reachable lo hi h' ->
  (forall p, free_page h' p = true -> free_page h p = true) -> isolated (sys_heap s h').
Proof.
  intros (Hk & h0 & Hh & HC) Hh' Hr Hf. rewrite Hh in Hh'. injection Hh' as ->. split; [done|]. exists h'. split.
  - by apply (sys_heap_lookup s h h').
  - by eapply consistent_heap.
Qed.

Lemma isolated_limit s r : isolated s -> isolated (sys_limit s r).
Proof. done. Qed.

(** Allocating, mapping and marking a free range, as the operations do it. *)
Definition allocate_range (addr n st p : Z) : M Z :=
  group <- pool_allocate n ;;
  CASCADE_CODE ret group.2 ;;
  CASCADE_CODE Operate_group addr n group.1 Op_MapGroup ;;
  update addr n st p MemoryAttribute_None ;;;
  ret RESULT_SUCCESS.

(** The system after an operation that changed entries, blocks and heap
    consistently, and possibly the address of the heap. *)
Lemma isolated_sys s h h' t' b' : isolated s -> memory_manager s !! pool s = Some h -> consistent t' b' h' ->
  num_entries t' = num_entries (entries_of s) -> isolated (sys_blocks (sys_impl (sys_heap s h') t') b').
Proof.
  intros ((hs & hc & he & K) & _) Hh HC Hn. split.
  - exists hs, hc, he. cbn. rewrite Hn. exact K.
  - exists h'. split; [|done]. by apply (sys_heap_lookup s h h').
Qed.

Lemma allocate_range_ok s base n st p : isolated s -> range_ok s base n ->
  pages_satisfy s base n (fun x => state x = MemoryState_Free) -> st <> MemoryState_Free -> is_u32 st ->
  exists s' r, allocate_range (base * 4096) n st p s = Some (s', r) /\ isolated s' /\ layout (page_table s') = layout (page_table s)
    /\ current_heap_addr (page_table s') = current_heap_addr (page_table s).
Proof using Hlo Hhi Hsz.
  intros HI Hr Hfree Hst Hu. pose proof HI as (Hk & h & Hh & HC). pose proof Hr as (R1 & R2 & R3). pose proof (cs_size _ _ _ HC).
  unfold allocate_range. destruct (pool_allocate_spec s h n Hh (cs_heap _ _ _ HC) ltac:(lia)) as (h' & l & r & E & Hr' & Hc).
  erewrite bind_eq by exact E. unfold cascade. erewrite bind_eq by reflexivity. cbn [fst snd].
  destruct Hc as [(-> & HA & Hn)|(-> & _ & Hf)].
  - change (RESULT_SUCCESS =? RESULT_SUCCESS) with true. cbv iota.
    destruct (map_allocated s h h' l base n n st p MemoryAttribute_None) as (t' & b' & E1 & E2 & _ & HC' & Hn'); try done.
    erewrite bind_eq by exact E1. change (RESULT_SUCCESS =? RESULT_SUCCESS) with true. cbv iota. erewrite bind_eq by exact E2.
    do 2 eexists. split; [reflexivity|]. split; [by eapply isolated_sys|done].
  - do 2 eexists. split; [reflexivity|]. split; [|done]. eapply isolated_heap; [done..|]. intros q. by rewrite Hf.
Qed.

Lemma MapProcessCode_ok s base n st p : isolated s -> range_ok s base n -> st <> MemoryState_Free -> is_u32 st ->
  exists s' r, MapProcessCode (base * 4096) n st p s = Some (s', r) /\ isolated s'.
Proof using Hlo Hhi Hsz.
  intros HI Hr Hst Hu. pose proof HI as (_ & h & _ & HC). pose proof Hr as (R1 & R2 & R3). pose proof (cs_size _ _ _ HC).
  unfold MapProcessCode. rewrite page_bytes by lia. erewrite bind_eq by reflexivity.
  destruct (CanContain _ _ _ _); cbn [negb]; [|do 2 eexists; done].
  destruct (IsRegionMapped_spec s h base n HC Hr) as (m & E & Hm). erewrite bind_eq by exact E. destruct m; [do 2 eexists; done|].
  destruct (allocate_range_ok s base n st p HI Hr (Hm eq_refl) Hst Hu) as (s' & r & E' & HI' & _). exists s', r. done.
Qed.

(** The sizes that [SetHeapSize] is given: pages, and not the size the heap
    has. *)
Definition heap_size_ok (s : System) (k : Z) : Prop :=
  0 <= k < 2 ^ 40 /\ heap_region_start (layout (page_table s)) + k * 4096 <> current_heap_addr (page_table s) /\ limits_ok s.

Lemma SetHeapSize_ok s k : isolated s -> heap_size_ok s k ->
  exists s' r, SetHeapSize (k * 4096) s = Some (s', r) /\ isolated s'.
Proof using Hlo Hhi Hsz.
  intros HI (K1 & K2 & K3). pose proof HI as ((hs & hc & he & A1 & A2 & A3 & A4 & A5 & A6) & h & Hh & HC).
  pose proof (cs_size _ _ _ HC) as Hs. change (page_table_impl (page_table s)) with (entries_of s) in A6.
  unfold SetHeapSize, GetHeapSize. erewrite bind_eq by reflexivity. rewrite A1, A2, A3 in *.
  rewrite (to_u64_id (he * 4096 - hs * 4096)), (to_u64_id (hc * 4096 - hs * 4096)) by (unfold is_u64; lia).
  destruct (Z.ltb_spec (he * 4096 - hs * 4096) (k * 4096)); [do 2 eexists; done|].
  set (delta := k * 4096 -! (hc * 4096 - hs * 4096)).
  assert (delta <> 0 /\ (0 <= delta < 2 ^ 61 \/ 2 ^ 64 - 2 ^ 61 <= delta < 2 ^ 64)
    /\ (hc < hs + k /\ delta = (hs + k - hc) * 4096 \/ 2 ^ 50 <= delta / 4096 < 2 ^ 60)) as (D1 & D2 & D3).
  { unfold delta. destruct (Z.lt_ge_cases hc (hs + k)).
    - rewrite to_u64_id by (unfold is_u64; lia). split; [lia|]. split; [lia|]. left. lia.
    - rewrite to_u64_mod. replace (k * 4096 - (hc * 4096 - hs * 4096)) with ((k + hs - hc + 2 ^ 52) * 4096 + -1 * 2 ^ 64) by lia.
      rewrite Z.mod_add, Z.mod_small by lia. split; [lia|]. split; [lia|]. right. rewrite Z.div_mul by lia. lia. }
  destruct (Z.eqb_spec delta 0) as [|_]; [done|].
  destruct (reserve_spec s delta K3 D2) as (rl & ok & ER). erewrite bind_eq by exact ER.
  set (s1 := sys_limit s rl). assert (isolated s1) as HI1 by exact HI.
  destruct ok; cbn [negb]; [|do 2 eexists; done]. change PageSize with 4096.
  destruct D3 as [[Hlt ->]|Hbig].
  - rewrite Z.div_mul by lia. set (n := hs + k - hc) in *.
    assert (range_ok s1 hc n) as Hr by (unfold range_ok; change (entries_of s1) with (entries_of s); lia).
    destruct (pool_allocate_spec s1 h n Hh (cs_heap _ _ _ HC) ltac:(lia)) as (h' & l & r & E & Hr' & Hc).
    erewrite bind_eq by exact E. unfold cascade_val. erewrite bind_eq by reflexivity. cbn [fst snd].
    assert (forall p, free_page h' p = true -> free_page h p = true) as Hle.
    { destruct Hc as [(_ & HA & _)|(_ & _ & Hf)]; [|intros p; by rewrite Hf]. apply (alloc_frames h h' l (cs_heap _ _ _ HC) HA). }
    assert (isolated (sys_heap s1 h')) as HI2 by (eapply isolated_heap; done).
    destruct Hc as [(-> & HA & Hn)|(-> & _ & Hf)]; [|do 2 eexists; done].
    change (RESULT_SUCCESS =? RESULT_SUCCESS) with true. cbv iota.
    destruct (IsRegionMapped_spec (sys_heap s1 h') h' hc n) as (m & E1 & Hm); [apply (consistent_heap _ _ h); done|done|].
    erewrite bind_eq by exact E1. destruct m; [do 2 eexists; done|].
    destruct (map_allocated s1 h h' l hc n n MemoryState_Normal MemoryPermission_ReadAndWrite MemoryAttribute_None)
      as (t' & b' & E2 & E3 & _ & HC' & Hn'); try done; [exact (Hm eq_refl)|].
    erewrite bind_eq by exact E2. change (RESULT_SUCCESS =? RESULT_SUCCESS) with true. cbv iota. erewrite bind_eq by exact E3.
    erewrite bind_eq by reflexivity. do 2 eexists. split; [reflexivity|]. rewrite to_u64_id by (unfold is_u64; lia).
    pose proof (isolated_sys s1 h h' t' b' HI1 Hh HC' Hn') as [_ (h2 & Hh2 & HC2)]. split.
    + exists hs, (hs + k), he. cbn. rewrite Hn'. change (entries_of s1) with (entries_of s). split_and!; done || lia.
    + exists h2. done.
  - destruct (pool_allocate_spec s1 h (delta / 4096) Hh (cs_heap _ _ _ HC) ltac:(lia)) as (h' & l & r & E & Hr' & Hc).
    erewrite bind_eq by exact E. unfold cascade_val. erewrite bind_eq by reflexivity. cbn [fst snd].
    destruct Hc as [(-> & HA & Hn)|(-> & _ & Hf)].
    + exfalso. pose proof (ai_total _ _ _ _ _ HA) as Ht. unfold free_count in Ht.
      pose proof (count_bound (fun q => free_page h (lo + q)) (hi - lo)). pose proof (count_bound (fun q => free_page h' (lo + q)) (hi - lo)). lia.
    + do 2 eexists. split; [reflexivity|]. eapply isolated_heap; [exact HI1|done|done|]. intros q. by rewrite Hf.
Qed.

(** Shrinking the heap fails with [ERR_OUT_OF_MEMORY], after lowering what the
    process has reserved by the difference. *)
Lemma set_heap_size_shrink s k r : isolated s -> limits_ok s -> resource_limit s = Some r ->
  RL.at_index (RL.current r) 0 <= RL.at_index (RL.limit r) 0 -> 0 <= k ->
  heap_region_start (layout (page_table s)) + k * 4096 < current_heap_addr (page_table s) ->
  exists s', SetHeapSize (k * 4096) s = Some (s', Error ERR_OUT_OF_MEMORY)
    /\ resource_limit s' = Some (RL.set_current r 0 (RL.at_index (RL.current r) 0
         - (current_heap_addr (page_table s) - heap_region_start (layout (page_table s)) - k * 4096))).
Proof using Hlo Hhi Hsz.
  intros HI Hl Er Hle Hk Hlt. pose proof HI as ((hs & hc & he & A1 & A2 & A3 & A4 & A5 & A6) & h & Hh & HC).
  pose proof (cs_size _ _ _ HC) as Hs. change (page_table_impl (page_table s)) with (entries_of s) in A6.
  unfold SetHeapSize, GetHeapSize. erewrite bind_eq by reflexivity. rewrite A1, A2, A3 in *.
  rewrite (to_u64_id (he * 4096 - hs * 4096)), (to_u64_id (hc * 4096 - hs * 4096)) by (unfold is_u64; lia).
  destruct (Z.ltb_spec (he * 4096 - hs * 4096) (k * 4096)); [lia|].
  assert (k * 4096 -! (hc * 4096 - hs * 4096) = (k + hs - hc + 2 ^ 52) * 4096) as ->.
  { rewrite to_u64_mod. replace (k * 4096 - (hc * 4096 - hs * 4096)) with ((k + hs - hc + 2 ^ 52) * 4096 + -1 * 2 ^ 64) by lia.
    rewrite Z.mod_add, Z.mod_small by lia. done. }
  destruct (Z.eqb_spec ((k + hs - hc + 2 ^ 52) * 4096) 0); [lia|].
  assert (to_s64 ((k + hs - hc + 2 ^ 52) * 4096) = (k + hs - hc) * 4096) as Eam.
  { unfold to_s64. rewrite to_u64_id by (unfold is_u64; lia). destruct (Z.ltb_spec ((k + hs - hc + 2 ^ 52) * 4096) (2 ^ 63)); lia. }
  set (r' := RL.set_current r 0 (RL.at_index (RL.current r) 0 + (k + hs - hc) * 4096)).
  assert (reserve ((k + hs - hc + 2 ^ 52) * 4096) s = Some (sys_limit s (Some r'), true)) as ER.
  { unfold reserve, limits_ok in *. rewrite Er, Eam in *. unfold RL.Reserve, add_s64. cbn [RL.ResourceTypeToIndex].
    set (c := RL.at_index (RL.current r) 0) in *. set (m := RL.at_index (RL.limit r) 0) in *.
    rewrite (proj2 (Z.leb_le (- 2 ^ 63) (c + (k + hs - hc) * 4096))), (proj2 (Z.ltb_lt (c + (k + hs - hc) * 4096) (2 ^ 63))) by lia.
    cbn [andb mbind option_bind]. rewrite (proj2 (Z.ltb_ge m (c + (k + hs - hc) * 4096))) by lia. cbn [mbind option_bind].
    by rewrite (proj2 (Z.leb_le (c + (k + hs - hc) * 4096) m)) by lia. }
  erewrite bind_eq by exact ER. cbn [negb]. change PageSize with 4096. rewrite Z.div_mul by lia.
  destruct (pool_allocate_spec (sys_limit s (Some r')) h (k + hs - hc + 2 ^ 52) Hh (cs_heap _ _ _ HC) ltac:(lia)) as (h' & l & c & E & _ & Hc).
  erewrite bind_eq by exact E. unfold cascade_val. erewrite bind_eq by reflexivity. cbn [fst snd].
  destruct Hc as [(-> & HA & Hn)|(-> & _ & Hf)].
  - exfalso. pose proof (ai_total _ _ _ _ _ HA) as Ht. unfold free_count in Ht.
    pose proof (count_bound (fun q => free_page h (lo + q)) (hi - lo)). pose proof (count_bound (fun q => free_page h' (lo + q)) (hi - lo)). lia.
  - eexists. split; [reflexivity|]. cbn [sys_heap sys_limit resource_limit]. unfold r'. do 2 f_equal. lia.
Qed.

(** *** Permissions and attributes *)

Lemma protect_ok s base n st p at_ : isolated s -> range_ok s base n ->
  pages_satisfy s base n (fun x => state x <> MemoryState_Free) -> st <> MemoryState_Free -> is_u32 st ->
  exists s', update (base * 4096) n st p at_ s = Some (s', tt) /\ isolated s'.
Proof.
  intros (Hk & h & Hh & HC) Hr Hp Hst Hu. destruct (update_spec s base n st p at_) as (b' & E & T & P); [apply HC|done|].
  exists (sys_blocks s b'). split; [done|]. split; [done|]. exists h. split; [done|]. eapply consistent_protect; [exact HC|exact T|].
  intros i x Hi Hx. eexists. split; [exact (P i x Hi Hx)|]. destruct (in_range base n i) eqn:Ei; [right|by left].
  split; [by apply (Hp i)|done].
Qed.

(** A state with a flag is not free. *)
Lemma flagged_not_free x f : x .& f = f -> f <> 0 -> x <> MemoryState_Free.
Proof. intros H Hf ->. rewrite Z.land_0_l in H. done. Qed.

(** An operation that checks a flag of the states and then updates the range
    to a state that is not free. *)
Lemma checked_protect_ok s base n f pm p am a ig (k : Z -> Z -> Z -> M Z) : isolated s -> range_ok s base n -> f <> 0 ->
  (forall x, page_at 0 (blocks s) (base * 4096) = Some x -> is_u32 (state x) -> state x <> MemoryState_Free ->
     pages_satisfy s base n (fun y => state y <> MemoryState_Free) ->
     exists s' r, k (state x) (perm x) (attribute x .& to_u8 (Z.lnot ig)) s = Some (s', r) /\ isolated s') ->
  exists s' r, checked (base * 4096) (n * 4096) f f pm p am a ig k s = Some (s', r) /\ isolated s'.
Proof.
  intros HI Hr Hf Hk. pose proof HI as (_ & h & _ & HC). pose proof Hr as (R1 & R2 & R3).
  destruct (checked_spec s base n f f pm p am a ig k) as [(x & Hx & Hall & E)|E]; [apply HC|done| |eauto].
  rewrite E. apply Hk; [done| | |].
  - by destruct (cs_page _ _ _ HC base x ltac:(lia) Hx).
  - destruct (Hall base x) as (_ & Hm & _); [apply in_range_iff; lia|done|]. by eapply flagged_not_free.
  - intros i y Hi Hy. destruct (Hall i y Hi Hy) as (_ & Hm & _). by eapply flagged_not_free.
Qed.

Ltac protect HI Hr := let x := fresh "x" in
  intros x ? ? ? ?; cbv beta; change PageSize with 4096; rewrite ?Z.div_mul by lia;
  edestruct protect_ok as (? & E & ?); [exact HI|exact Hr|eassumption| | |erewrite bind_eq by exact E; do 2 eexists; split; [reflexivity|done]].

Lemma SetMemoryAttribute_ok s base n mask value : isolated s -> range_ok s base n ->
  exists s' r, SetMemoryAttribute (base * 4096) (n * 4096) mask value s = Some (s', r) /\ isolated s'.
Proof. intros HI Hr. apply checked_protect_ok; [done..|]. protect HI Hr; done. Qed.

Lemma ReserveTransferMemory_ok s base n p : isolated s -> range_ok s base n ->
  exists s' r, ReserveTransferMemory (base * 4096) (n * 4096) p s = Some (s', r) /\ isolated s'.
Proof. intros HI Hr. apply checked_protect_ok; [done..|]. protect HI Hr; done. Qed.

Lemma ResetTransferMemory_ok s base n : isolated s -> range_ok s base n ->
  exists s' r, ResetTransferMemory (base * 4096) (n * 4096) s = Some (s', r) /\ isolated s'.
Proof. intros HI Hr. apply checked_protect_ok; [done..|]. protect HI Hr; done. Qed.

Lemma SetCodeMemoryPermission_ok s base n p : isolated s -> range_ok s base n ->
  exists s' r, SetCodeMemoryPermission (base * 4096) (n * 4096) p s = Some (s', r) /\ isolated s'.
Proof.
  intros HI Hr. apply checked_protect_ok; [done..|]. intros x Hx Hu Hnf Hall. cbv beta zeta.
  set (st := if negb (p .& MemoryPermission_Write =? MemoryPermission_None) then _ else _).
  assert (st <> MemoryState_Free /\ is_u32 st) as [Hst Hst'].
  { unfold st. destruct (negb _); [|done]. destruct (state x =? MemoryState_Code); [split; [done|unfold is_u32; done]|].
    destruct (state x =? MemoryState_AliasCode); [split; [done|unfold is_u32; done]|done]. }
  destruct ((st =? state x) && (p =? perm x)); [do 2 eexists; done|]. unfold cascade.
  erewrite bind_eq by (destruct (negb (p .& MemoryPermission_Execute =? MemoryPermission_None)); reflexivity). change (RESULT_SUCCESS =? RESULT_SUCCESS) with true. cbv iota.
  change PageSize with 4096. rewrite Z.div_mul by lia.
  destruct (protect_ok s base n st p MemoryAttribute_None HI Hr Hall Hst Hst') as (s' & E & HI'). erewrite bind_eq by exact E.
  do 2 eexists. done.
Qed.

(** *** Physical memory *)

(** The blocks of a range, cut to it. *)
Lemma range_infos s base n : block_tree 0 (num_entries (entries_of s) * 4096) (blocks s) -> range_ok s base n ->
  let a := base * 4096 in let e := (base + n) * 4096 in
  exists infos, IterateForRange (blocks s) a e = Some infos /\ tiles a (map (clip a e) infos) e /\ sizes_in a e infos
    /\ (forall st i x, page_at 0 (blocks s) (i * 4096) = Some x ->
          state_in st a (map (clip a e) infos) i = in_range base n i && (state x =? st))
    /\ (forall st i, state_in st a (map (clip a e) infos) i = true -> in_range base n i = true)
    /\ (forall i x, in_range base n i = true -> page_at 0 (blocks s) (i * 4096) = Some x -> exists b, In b infos /\ page_info b = x).
Proof.
  intros Ht (R1 & R2 & R3) a e.
  destruct (IterateForRange_spec a e ltac:(lia) (Z.divide_factor_r _ _) (Z.divide_factor_r _ _) 0 _ (blocks s) Ht) as (l & E & [I1 I2 I3]);
    [lia|lia|].
  exists l. split; [done|]. split; [done|]. split; [done|].
  assert (forall st i, state_in st a (map (clip a e) l) i = true -> in_range base n i = true) as Hin.
  { intros st i. unfold state_in. destruct (Z.leb_spec a (i * 4096)); [|done]. cbn [andb].
    destruct (page_at a _ (i * 4096)) as [y|] eqn:Ey; [|done]. intros _. unfold page_at in Ey. apply lookup_lt_Some in Ey.
    apply tiles_pages in I1. replace (i * 4096 - a) with ((i - base) * 4096) in Ey by lia. rewrite Z.div_mul in Ey by lia.
    apply in_range_iff. lia. }
  split; [|split; [done|]].
  - intros st i x Hx. destruct (in_range base n i) eqn:Ei; [|apply not_true_iff_false; intros H%Hin; congruence].
    apply in_range_iff in Ei. unfold state_in. destruct (Z.leb_spec a (i * 4096)); [|lia].
    rewrite I2, Hx; [done|apply Z.divide_factor_r|lia].
  - intros i x Hi%in_range_iff Hx.
    apply (proj2 (tiles_forall (fun x => exists b, In b l /\ page_info b = x) _ _ _ I1)) with (i * 4096).
    + apply List.Forall_map, List.Forall_forall. intros b Hb. exists b. done.
    + exists (i - base). lia.
    + lia.
    + rewrite I2; [done|apply Z.divide_factor_r|lia].
Qed.

Lemma free_total_le a e l : tiles a l e -> 0 <= free_total l * 4096 <= e - a.
Proof.
  revert a. induction l as [|b l IH]; intros a Ht; cbn [free_total tiles] in *; [lia|]. destruct Ht as (_ & H1 & H2).
  specialize (IH _ H2). destruct (state b =? MemoryState_Free); lia.
Qed.

Definition sys_usage (s : System) (u : Z) : System :=
  {| page_table := with_usage (page_table s) u; memory_manager := memory_manager s; resource_limit := resource_limit s |}.

Lemma UpdateIf_spec s base n : block_tree 0 (num_entries (entries_of s) * 4096) (blocks s) -> range_ok s base n ->
  exists b', UpdateIf (blocks s) (base * 4096) n MemoryState_Free MemoryPermission_None MemoryAttribute_None
               MemoryState_Normal MemoryPermission_ReadAndWrite MemoryAttribute_None = Some b'
    /\ block_tree 0 (num_entries (entries_of s) * 4096) b'
    /\ forall i x, 0 <= i < num_entries (entries_of s) -> page_at 0 (blocks s) (i * 4096) = Some x ->
         (state x = MemoryState_Free -> free_info x) ->
         page_at 0 b' (i * 4096)
         = Some (if in_range base n i && (state x =? MemoryState_Free)
                 then UpdateBlock MemoryState_Normal MemoryPermission_ReadAndWrite MemoryAttribute_None x else x).
Proof.
  intros Ht (Hb & Hn & He). unfold UpdateIf.
  edestruct (update_loop_pages 0 (num_entries (entries_of s) * 4096) (blocks s) (base * 4096) n) as (b' & E & T' & HP);
    [done|apply Z.divide_factor_r|lia|lia|lia| |].
  2: { exists b'. split; [exact E|]. split; [done|]. intros i x Hi Hx Hf.
    destruct (HP (i * 4096)) as (y & Y1 & Y2); [apply Z.divide_factor_r|lia|]. rewrite Hx in Y1. injection Y1 as <-. rewrite Y2.
    rewrite in_range_pages. do 2 f_equal. destruct (in_range base n i); [|done]. cbn [andb].
    destruct (Z.eqb_spec (state x) MemoryState_Free) as [Ex|Ex]; [by rewrite (Hf Ex)|].
    unfold HasProperties. by rewrite (proj2 (Z.eqb_neq _ _) Ex). }
  done.
Qed.

(** Mapping the free pages of a range to pages that were allocated for them. *)
Lemma map_free_ok s h h' l base n u : isolated s -> memory_manager s !! pool s = Some h -> range_ok s base n ->
  let a := base * 4096 in let e := (base + n) * 4096 in
  forall infos, IterateForRange (blocks s) a e = Some infos -> alloc_inv lo hi h h' l ->
  npages l = free_total (map (clip a e) infos) -> 0 < npages l ->
  exists s', (MapPhysicalMemory_entries l a e ;;;
              modify_table (fun t => Some (with_usage t (physical_memory_usage t +! u))) ;;;
              set_blocks (fun b => UpdateIf b a n MemoryState_Free MemoryPermission_None MemoryAttribute_None
                                     MemoryState_Normal MemoryPermission_ReadAndWrite MemoryAttribute_None)) (sys_heap s h')
             = Some (s', tt) /\ isolated s'.
Proof using Hlo Hhi Hsz.
  intros HI Hh Hr a e infos Einf HA Hn Hpos. pose proof HI as (_ & h0 & Hh0 & HC). rewrite Hh in Hh0. injection Hh0 as <-.
  pose proof Hr as (R1 & R2 & R3). pose proof (cs_size _ _ _ HC) as Hs.
  destruct (range_infos s base n (cs_blocks _ _ _ HC) Hr) as (infos' & E' & T & Z' & HSt & _).
  fold a e in E', T, Z', HSt. rewrite Einf in E'. injection E' as <-.
  destruct (alloc_frames h h' l (cs_heap _ _ _ HC) HA) as (L1 & L2 & L3).
  pose proof (NoDup_frames l (ai_once _ _ _ _ _ HA)) as Hnd.
  pose proof (length_frames l (ai_nodes _ _ _ _ _ HA)) as Hlen.
  destruct l as [|nd l]; [cbn in Hpos; lia|]. pose proof L1 as [((p & Ep & P1 & P2 & P3) & P4) L1']%List.Forall_cons_iff.
  assert (unused (nd :: l) p (MM.num_pages nd) = frames (nd :: l)) as Hun.
  { unfold unused. cbn [tail frames map concat]. unfold node_frames. by rewrite Ep, Z.div_mul by lia. }
  destruct (map_free_blocks_spec a e infos (sys_heap s h') base (nd :: l) p (MM.num_pages nd)) as (t' & used & rest & E1 & M1 & U1);
    change (entries_of (sys_heap s h')) with (entries_of s); rewrite ?Hun; try done; try lia.
  unfold MapPhysicalMemory_entries. change (entries_of (sys_heap s h')) with (entries_of s) in M1.
  pose proof (mn_size _ _ _ _ M1) as Hne. set (s1 := sys_impl (sys_heap s h') t') in *.
  erewrite bind_eq.
  2: { erewrite bind_eq by reflexivity. erewrite bind_eq by reflexivity.
       erewrite bind_eq by (unfold lift; fold (blocks s); change (block_manager (page_table (sys_heap s h'))) with (blocks s);
                            rewrite Einf; reflexivity). rewrite Ep. exact E1. }
  erewrite bind_eq by reflexivity. set (s2 := {| page_table := with_usage _ _ |}).
  destruct (UpdateIf_spec s2 base n) as (b' & EU & TU & PU).
  { change (entries_of s2) with t'. rewrite Hne. apply HC. }
  { unfold range_ok. change (entries_of s2) with t'. rewrite Hne. done. }
  change (entries_of s2) with t' in TU, PU. change (blocks s2) with (blocks s) in EU, PU. rewrite Hne in TU, PU.
  exists (sys_blocks s2 b'). split.
  { unfold set_blocks, modify_table. change (block_manager (page_table s2)) with (blocks s). fold a in EU. rewrite EU. done. }
  assert (consistent t' b' h') as HC'.
  { eapply consistent_map; [exact HC|exact M1|exact TU|apply HA|done| |].
    - intros q Hq. apply L2. rewrite <- Hun, U1. apply elem_of_app. by left.
    - intros i x Hi Hx. rewrite (HSt _ i x Hx). eexists. split; [apply (PU i x Hi Hx)|].
      + intros Ex. by apply (cs_page _ _ _ HC i x Hi Hx).
      + destruct (in_range base n i && (state x =? MemoryState_Free)); done. }
  pose proof HI as ((hs & hc & he & K) & _). split.
  - exists hs, hc, he. cbn. rewrite Hne. exact K.
  - exists h'. split; [|done]. by apply (sys_heap_lookup s h h').
Qed.

(** [MapPhysicalMemory], when the heap has as many pages as the range. *)
Lemma MapPhysicalMemory_ok s h base n : isolated s -> memory_manager s !! pool s = Some h -> range_ok s base n -> limits_ok s ->
  n <= free_count lo hi h -> exists s' r, MapPhysicalMemory (base * 4096) (n * 4096) s = Some (s', r) /\ isolated s'.
Proof using Hlo Hhi Hsz.
  intros HI Hh Hr Hl Hfree. pose proof HI as (_ & h0 & Hh0 & HC). rewrite Hh in Hh0. injection Hh0 as <-.
  pose proof Hr as (R1 & R2 & R3). pose proof (cs_size _ _ _ HC) as Hs.
  destruct (range_infos s base n (cs_blocks _ _ _ HC) Hr) as (infos & E & T & Z' & _).
  unfold MapPhysicalMemory. rewrite to_u64_id by (unfold is_u64; lia).
  replace (base * 4096 + n * 4096) with ((base + n) * 4096) by lia. erewrite bind_eq by reflexivity.
  erewrite bind_eq by (unfold lift; fold (blocks s); rewrite E; reflexivity).
  rewrite (mapped_size_spec _ _ _ _ T ltac:(lia) ltac:(lia) Z'). pose proof (free_total_le _ _ _ T) as HF.
  set (F := free_total _) in *. destruct (Z.eqb_spec ((base + n) * 4096 - base * 4096 - F * 4096) (n * 4096)) as [|Hne];
    [do 2 eexists; done|].
  replace (n * 4096 -! ((base + n) * 4096 - base * 4096 - F * 4096)) with (F * 4096)
    by (rewrite to_u64_id by (unfold is_u64; lia); lia).
  change PageSize with 4096. rewrite !Z.div_mul by lia.
  destruct (reserve_spec s (F * 4096) Hl ltac:(lia)) as (rl & ok & ER). erewrite bind_eq by exact ER.
  destruct ok; cbn [negb]; [|do 2 eexists; split; [reflexivity|exact HI]].
  destruct (pool_allocate_spec (sys_limit s rl) h F Hh (cs_heap _ _ _ HC) ltac:(lia)) as (h' & l & r & EA & Hr' & Hc).
  erewrite bind_eq by exact EA. destruct Hc as [(-> & HA & Hn)|(-> & Hlt & _)]; [|lia].
  unfold cascade. erewrite bind_eq by reflexivity. cbn [fst snd]. change (RESULT_SUCCESS =? RESULT_SUCCESS) with true. cbv iota.
  destruct (map_free_ok (sys_limit s rl) h h' l base n (F * 4096) HI Hh Hr infos E HA Hn ltac:(lia)) as (s' & ES & HI').
  exists s', RESULT_SUCCESS. split; [|done]. revert ES. unfold bind. cbn [mbind option_bind].
  destruct (MapPhysicalMemory_entries _ _ _ _) as [[s1 []]|]; cbn [mbind option_bind]; [|done].
  destruct (modify_table _ s1) as [[s2 []]|]; cbn [mbind option_bind]; [|done]. by intros ->.
Qed.

(** An update to free: the pages are as [MapPhysicalMemory] expects. *)
Lemma freed_info x : free_info (UpdateBlock MemoryState_Free MemoryPermission_None MemoryAttribute_None x).
Proof.
  unfold free_info, HasProperties. cbn [UpdateBlock state perm attribute]. rewrite !Z.eqb_refl. cbn [andb]. apply Z.eqb_eq.
  change MemoryAttribute_None with 0. rewrite !Z.lor_0_l. unfold AttributeIgnoreMask.
  change (MemoryAttribute_IpcLocked .| MemoryAttribute_DeviceShared) with 6.
  change (MemoryAttribute_DontCareMask .| MemoryAttribute_IpcLocked .| MemoryAttribute_DeviceShared) with 0x86.
  change (MemoryAttribute_IpcAndDeviceMapped .| 0x86) with 0x86.
  apply Z.bits_inj'. intros i Hi. rewrite Z.lor_spec, Z.land_spec.
  destruct (Z.testbit 6 i) eqn:E6; [|by rewrite andb_false_r]. rewrite andb_true_r.
  assert (Z.testbit (6 .| 0x86) i = Z.testbit 0x86 i) as H86 by done. rewrite Z.lor_spec, E6 in H86. cbn [orb] in H86.
  rewrite <- H86. apply orb_true_r.
Qed.

(** Giving back the frames that were collected. *)
Lemma pool_free_spec s h l n t U : memory_manager s !! pool s = Some h -> reachable lo hi h -> 0 < n ->
  (forall i x, frame t i = Some x -> exists p, x = p * 4096 /\ lo <= p < hi /\ free_page h p = false) -> collected t U l ->
  exists h' r, pool_free l n s = Some (sys_heap s h', r) /\ reachable lo hi h'
    /\ forall p, free_page h' p = true -> free_page h p = true \/ exists i, U i = true /\ frame t i = Some (p * 4096).
Proof using Hlo Hhi Hsz.
  intros Hh Hr Hn Hf [C1 C2 C3]. destruct (free_nodes_spec lo hi Hlo Hhi Hsz l h Hr C1 C2) as (h' & E & Hr' & Hf').
  { intros p Hp. apply C3 in Hp as (i & _ & Hx). destruct (Hf i _ Hx) as (q & Eq & Hq). assert (q = p) as -> by lia. done. }
  exists h', RESULT_SUCCESS. unfold pool_free, MM.Pool_Free, MM.FreePages. fold (pool s). rewrite Hh. cbn [mbind option_bind].
  destruct (Z.eqb_spec n 0); [lia|]. rewrite E. split; [done|]. split; [done|]. intros p. rewrite Hf'.
  intros [?|?%Z.eqb_eq]%orb_true_iff; [by left|right]. by apply C3.
Qed.

Lemma UnmapMemory_ok s base n infos : isolated s -> range_ok s base n ->
  let a := base * 4096 in let e := (base + n) * 4096 in IterateForRange (blocks s) a e = Some infos ->
  Forall (fun b => state b = MemoryState_Free \/ (state b = MemoryState_Normal /\ attribute b = MemoryAttribute_None)) infos ->
  exists s', UnmapMemory a (n * 4096) s = Some (s', RESULT_SUCCESS) /\ isolated s' /\ resource_limit s' = resource_limit s.
Proof using Hlo Hhi Hsz.
  intros HI Hr a e Einf Hall. pose proof HI as (Hk & h & Hh & HC). pose proof Hr as (R1 & R2 & R3).
  pose proof (cs_size _ _ _ HC) as Hs. unfold UnmapMemory. rewrite to_u64_id by (unfold is_u64; lia).
  replace (a + n * 4096) with e by lia. erewrite bind_eq by reflexivity.
  erewrite bind_eq by (unfold lift; fold (blocks s); rewrite Einf; reflexivity).
  destruct (range_infos s base n (cs_blocks _ _ _ HC) Hr) as (infos' & E' & T & Z' & HSt & Hin & Hblk).
  fold a e in E', T, Z', HSt, Hin.
  rewrite Einf in E'. injection E' as <-.
  set (U := fun i => false || state_in MemoryState_Normal a (map (clip a e) infos) i).
  destruct (unmap_blocks_spec a e (entries_of s) infos s base (fun _ => false) []) as (t' & l & EU & N1 & C1 & M1); try done; try lia.
  { by eapply consistent_frames. }
  { apply collected_nil. }
  { intros i Hi. pose proof (Hin _ i Hi) as Hi'. pose proof Hi' as ?%in_range_iff.
    destruct (consistent_page _ _ _ i HC ltac:(lia)) as (x & Hx & _ & _ & Hff).
    rewrite (HSt _ i x Hx), Hi' in Hi. apply Z.eqb_eq in Hi. rewrite <- Hff, Hi. done. }
  erewrite bind_eq by exact EU. change PageSize with 4096. rewrite Z.div_mul by lia.
  destruct (pool_free_spec (sys_impl s t') h l n (entries_of s) U) as (h' & r & EF & Hr' & Hf'); [done|apply HC|done|apply HC|done|].
  erewrite bind_eq by exact EF. set (s1 := sys_heap (sys_impl s t') h') in *.
  destruct (update_spec s1 base n MemoryState_Free MemoryPermission_None MemoryAttribute_None) as (b' & EB & TB & PB).
  { change (entries_of s1) with t'. rewrite N1. apply HC. }
  { unfold range_ok. change (entries_of s1) with t'. rewrite N1. done. }
  change (entries_of s1) with t' in TB, PB. change (blocks s1) with (blocks s) in PB. rewrite N1 in TB, PB. fold a in EB.
  erewrite bind_eq by exact EB. eexists. split; [reflexivity|]. split; [|done].
  assert (consistent t' b' h') as HC'.
  { eapply (consistent_unmap (entries_of s) (blocks s) h) with (U := U); try done. intros i x Hi Hx. eexists. split; [exact (PB i x Hi Hx)|].
    unfold U. rewrite (HSt _ i x Hx). cbn [orb]. destruct (in_range base n i) eqn:Ei; [right|left; done].
    split; [apply freed_info|]. cbn [andb]. destruct (Hblk i x Ei Hx) as (b & Hb & <-). rewrite List.Forall_forall in Hall.
    destruct (Hall b Hb) as [Hb'|[Hb' _]]; [by right|left]. by apply Z.eqb_eq. }
  pose proof HI as ((hs & hc & he & K) & _). split.
  - exists hs, hc, he. cbn. rewrite N1. exact K.
  - exists h'. split; [|done]. by apply (sys_heap_lookup (sys_impl s t') h h').
Qed.

Lemma UnmapPhysicalMemory_ok s base n : isolated s -> range_ok s base n -> resource_limit s <> None ->
  exists s' r, UnmapPhysicalMemory (base * 4096) (n * 4096) s = Some (s', r) /\ isolated s'.
Proof using Hlo Hhi Hsz.
  intros HI Hr Hl. pose proof HI as (Hk & h & Hh & HC). pose proof Hr as (R1 & R2 & R3). pose proof (cs_size _ _ _ HC) as Hs.
  unfold UnmapPhysicalMemory. rewrite to_u64_id by (unfold is_u64; lia).
  replace (base * 4096 + n * 4096) with ((base + n) * 4096) by lia. erewrite bind_eq by reflexivity.
  destruct (range_infos s base n (cs_blocks _ _ _ HC) Hr) as (infos & E & T & Z' & _).
  erewrite bind_eq by (unfold lift; fold (blocks s); rewrite E; reflexivity).
  destruct (unmap_check_spec _ _ _ _ T ltac:(lia) ltac:(lia) Z') as [Herr|[Hok Hall]].
  { destruct (unmap_check _ _ _) as [r m]. cbn in Herr. subst r. do 2 eexists. done. }
  rewrite Hok. change (RESULT_SUCCESS =? RESULT_SUCCESS) with true. cbn [negb].
  destruct (Z.eqb_spec ((base + n) * 4096 - base * 4096 - free_total (map (clip (base * 4096) ((base + n) * 4096)) infos) * 4096) 0);
    [do 2 eexists; done|].
  destruct (UnmapMemory_ok s base n infos HI Hr E Hall) as (s' & EU & HI' & HL). unfold cascade. erewrite bind_eq by exact EU.
  change (RESULT_SUCCESS =? RESULT_SUCCESS) with true. cbv iota. destruct (resource_limit s) as [rl|] eqn:Erl; [|done].
  erewrite bind_eq by (unfold release; rewrite HL; reflexivity). erewrite bind_eq by reflexivity. do 2 eexists. split; [reflexivity|].
  exact HI'.
Qed.

(** *** Allocation in a region *)

(** The arguments of [AllocateAndMapMemory]. *)
Record region_ok (s : System) (needed align start rn st : Z) : Prop := {
  ro_needed : 0 < needed <= 2 ^ 36;
  ro_align : 0 < align <= 2 ^ 48 /\ (4096 | align);
  ro_start : 0 < start < num_entries (entries_of s) * 4096;
  ro_size : 0 <= rn /\ start + rn * 4096 <= 2 ^ 48;
  ro_state : st <> MemoryState_Free /\ is_u32 st;
}.

Lemma found_area s h needed align start rn st : consistent (entries_of s) (blocks s) h -> region_ok s needed align start rn st ->
  let x := AllocateVirtualMemory (page_table s) start rn needed align in
  x = 0 \/ exists base, x = base * 4096 /\ range_ok s base needed /\ pages_satisfy s base needed (fun y => state y = MemoryState_Free).
Proof.
  intros HC [O1 [O2 O2'] O3 O4 _] x. pose proof (cs_size _ _ _ HC) as Hs. pose proof (cs_blocks _ _ _ HC) as HB.
  set (guard := if is_kernel (layout (page_table s)) then 1 else 4). assert (1 <= guard <= 4) by (unfold guard; destruct (is_kernel _); lia).
  destruct (FindFreeArea_lowest start rn needed align 0 guard ltac:(lia) ltac:(lia) ltac:(lia) ltac:(lia) ltac:(lia) ltac:(lia)
    ltac:(lia) ltac:(lia) ltac:(lia) 0 _ (blocks s) HB ltac:(lia) ltac:(lia)) as [[E _]|[(b & Hb & Hf & H1 & H2 & H3) _]]; [by left|right].
  change (FindFreeArea (blocks s) start rn needed align 0 guard) with x in *. rewrite Z.sub_0_r in H3.
  apply Z.mod_divide in H3; [|lia]. destruct (Z.divide_trans _ _ _ O2' H3) as [base Eb].
  pose proof HB as [T1 T2 T3 T4 T5]. pose proof (tiles_addr _ _ _ _ T1 Hb) as [B1 B2].
  exists base. split; [done|]. split; [unfold range_ok; lia|]. intros i y Hi%in_range_iff Hy.
  rewrite (page_at_block _ _ _ _ _ T1 Hb) in Hy by (lia || (exists i; lia)). by injection Hy as <-.
Qed.

Lemma AllocateAndMapMemory_ok s needed align start rn st p : isolated s -> region_ok s needed align start rn st ->
  exists s' r, AllocateAndMapMemory needed align false start rn st p 0 s = Some (s', r) /\ isolated s'.
Proof using Hlo Hhi Hsz.
  intros HI Ho. pose proof HI as (Hk & h & Hh & HC). unfold AllocateAndMapMemory. erewrite bind_eq by reflexivity.
  destruct (CanContain _ _ _ _); cbn [negb]; [|do 2 eexists; done]. destruct (rn <=? needed); [do 2 eexists; done|].
  destruct (found_area s h needed align start rn st HC Ho) as [->|(base & -> & Hr & Hfree)]; [do 2 eexists; done|].
  destruct (Z.eqb_spec (base * 4096) 0); [do 2 eexists; done|]. pose proof (ro_needed _ _ _ _ _ _ Ho) as Hn0.
  destruct (ro_state _ _ _ _ _ _ Ho) as [Hst Hu].
  destruct (pool_allocate_spec s h needed Hh (cs_heap _ _ _ HC) ltac:(lia)) as (h' & l & r & E & Hr' & Hc).
  unfold cascade_val, cascade. destruct Hc as [(-> & HA & Hn)|(-> & _ & Hf)].
  - destruct (map_allocated s h h' l base needed needed st p MemoryAttribute_None) as (t' & b' & E1 & E2 & _ & HC' & Hn'); try done.
    erewrite bind_eq by (erewrite bind_eq by exact E; exact E1). change (RESULT_SUCCESS =? RESULT_SUCCESS) with true. cbv iota.
    erewrite bind_eq by exact E2. do 2 eexists. split; [reflexivity|]. by eapply isolated_sys.
  - erewrite bind_eq by (erewrite bind_eq by exact E; reflexivity). do 2 eexists. split; [reflexivity|].
    eapply isolated_heap; [exact HI|done|done|]. intros q. by rewrite Hf.
Qed.

(** ** Sequences of operations *)

(** The operations, by page numbers. *)
Inductive Operation :=
  | RunMapProcessCode (base n st p : Z)
  | RunSetHeapSize (k : Z)
  | RunSetHeapCapacity (c : Z)
  | RunMapPhysicalMemory (base n : Z)
  | RunUnmapPhysicalMemory (base n : Z)
  | RunAllocateAndMapMemory (needed align start rn st p : Z)
  | RunSetCodeMemoryPermission (base n p : Z)
  | RunReserveTransferMemory (base n p : Z)
  | RunResetTransferMemory (base n : Z)
  | RunSetMemoryAttribute (base n mask value : Z).

Definition run (o : Operation) (s : System) : option System :=
  match o with
  | RunMapProcessCode base n st p => fst <$> MapProcessCode (base * 4096) n st p s
  | RunSetHeapSize k => fst <$> SetHeapSize (k * 4096) s
  | RunSetHeapCapacity c => fst <$> SetHeapCapacity c s
  | RunMapPhysicalMemory base n => fst <$> MapPhysicalMemory (base * 4096) (n * 4096) s
  | RunUnmapPhysicalMemory base n => fst <$> UnmapPhysicalMemory (base * 4096) (n * 4096) s
  | RunAllocateAndMapMemory needed align start rn st p =>
      fst <$> AllocateAndMapMemory needed align false start rn st p 0 s
  | RunSetCodeMemoryPermission base n p => fst <$> SetCodeMemoryPermission (base * 4096) (n * 4096) p s
  | RunReserveTransferMemory base n p => fst <$> ReserveTransferMemory (base * 4096) (n * 4096) p s
  | RunResetTransferMemory base n => fst <$> ResetTransferMemory (base * 4096) (n * 4096) s
  | RunSetMemoryAttribute base n mask value => fst <$> SetMemoryAttribute (base * 4096) (n * 4096) mask value s
  end.

(** The operations that the theorems are about.  Ranges are not empty and end
    before the last page of the address space; the states of new mappings are
    not [Free]; the counters of the resource limit are below 2^62 in size, and
    [UnmapPhysicalMemory] has a resource limit; [SetHeapSize] is for another
    size than the one the heap has, and below 2^40 pages; the pool has enough
    free pages for [MapPhysicalMemory].  The code checks none of the last three;
    without them the block list or the heap of pages is wrong afterwards, or a
    null pointer is followed: [set_heap_size_empty_block],
    [map_physical_memory_frees_twice]. *)
Definition allowed (o : Operation) (s : System) : Prop :=
  match o with
  | RunMapProcessCode base n st p => range_ok s base n /\ st <> MemoryState_Free /\ is_u32 st
  | RunSetHeapSize k => heap_size_ok s k
  | RunSetHeapCapacity c => True
  | RunMapPhysicalMemory base n =>
      range_ok s base n /\ limits_ok s
      /\ forall h, memory_manager s !! pool s = Some h -> n <= free_count lo hi h
  | RunUnmapPhysicalMemory base n => range_ok s base n /\ resource_limit s <> None
  | RunAllocateAndMapMemory needed align start rn st p => region_ok s needed align start rn st
  | RunSetCodeMemoryPermission base n _ | RunReserveTransferMemory base n _ | RunResetTransferMemory base n
  | RunSetMemoryAttribute base n _ _ => range_ok s base n
  end.

Fixpoint run_all (ops : list Operation) (s : System) : option System :=
  match ops with
  | [] => Some s
  | o :: ops => s' ← run o s; run_all ops s'
  end.
Fixpoint all_allowed (ops : list Operation) (s : System) : Prop :=
  match ops with
  | [] => True
  | o :: ops => allowed o s /\ forall s', run o s = Some s' -> all_allowed ops s'
  end.

Lemma run_isolated o s : isolated s -> allowed o s -> exists s', run o s = Some s' /\ isolated s'.
Proof using Hlo Hhi Hsz.
  intros HI Ha. assert (forall A (m : option (System * A)), (exists s' r, m = Some (s', r) /\ isolated s') ->
    exists s', fst <$> m = Some s' /\ isolated s') as Hfst by (intros A m (s' & r & -> & H); by exists s').
  destruct o; cbn [run allowed] in *; apply Hfst.
  - destruct Ha as (H1 & H2 & H3). by apply MapProcessCode_ok.
  - by apply SetHeapSize_ok.
  - do 2 eexists. split; [reflexivity|]. exact HI.
  - destruct Ha as (H1 & H2 & H3). pose proof HI as (_ & h & Hh & _). by apply (MapPhysicalMemory_ok s h); auto.
  - destruct Ha. by apply UnmapPhysicalMemory_ok.
  - by apply AllocateAndMapMemory_ok.
  - by apply SetCodeMemoryPermission_ok.
  - by apply ReserveTransferMemory_ok.
  - by apply ResetTransferMemory_ok.
  - by apply SetMemoryAttribute_ok.
Qed.

Lemma run_all_isolated ops : forall s, isolated s -> all_allowed ops s -> exists s', run_all ops s = Some s' /\ isolated s'.
Proof using Hlo Hhi Hsz.
  induction ops as [|o ops IH]; intros s HI Ha; cbn [run_all]; [eauto|]. destruct Ha as [Ha Hrest].
  destruct (run_isolated o s HI Ha) as (s' & E & HI'). rewrite E. cbn [mbind option_bind]. apply IH; auto.
Qed.

(** An empty address space. *)
Lemma fresh_isolated s h n : memory_manager s !! pool s = Some h -> reachable lo hi h -> 0 < n <= 2 ^ 36 ->
  blocks s = MemoryBlockManager_new 0 (n * 4096) -> num_entries (entries_of s) = n ->
  (forall i, entry (entries_of s) i = unmapped_entry) -> heap_ok (page_table s) -> isolated s.
Proof.
  intros Hh Hr Hn Hb He Hu Hk. split; [done|]. exists h. split; [done|].
  assert (forall i, frame (entries_of s) i = None) as Hf by (intros i; unfold frame; by rewrite Hu).
  assert (block_tree 0 (n * 4096) (blocks s)) as HT.
  { rewrite Hb. apply new_block_tree; [lia|lia|by exists 0|apply Z.divide_factor_r]. }
  split; rewrite ?He; try done; try lia; try (intros; by rewrite Hf in *).
  intros i x Hi Hx. rewrite Hf. enough (free_info x /\ state x = MemoryState_Free) as [H1 H2].
  { rewrite H2. split; [unfold is_u32; done|]. done. }
  destruct HT as [T1 _ _ _ _].
  apply (proj2 (tiles_forall (fun x => free_info x /\ state x = MemoryState_Free) _ _ _ T1)) with (i * 4096).
  - rewrite Hb. repeat constructor.
  - exists i. lia.
  - lia.
  - done.
Qed.

(** C1: a sequence of allowed operations on a page table whose block list,
    entries and heap agree (mapping process code, growing and shrinking the
    heap, mapping and unmapping physical memory, allocating in a region,
    changing permissions and attributes, reserving transfer memory) returns,
    without a null dereference or a read past the block list, and leaves them in
    agreement: a page is unmapped exactly when its block is free, each mapped
    page has a frame of the pool that is not free in the heap, and no two
    pages share a frame.  [allowed] says which operations these are; it leaves
    out a [MapPhysicalMemory] that runs out of memory, a [SetHeapSize] to the
    size that the heap has, an [UnmapPhysicalMemory] without a resource limit
    and ranges that reach the last page of the address space. *)
Theorem page_table_isolation ops s : isolated s -> all_allowed ops s ->
  exists s', run_all ops s = Some s' /\ isolated s'.
Proof using Hlo Hhi Hsz. intros HI Ha. by apply run_all_isolated. Qed.

(** The heap of a new process is empty. *)
Lemma initialised_heap_ok as_type code_addr code_size pool_ t : initialised as_type code_addr code_size pool_ t ->
  heap_region_end (layout t) < address_space_end (layout t) -> heap_ok t.
Proof.
  intros HI Hend. pose proof (in_entries _ _ _ _ _ HI) as He. rewrite (in_end _ _ _ _ _ HI) in Hend.
  pose proof (in_aligned _ _ _ _ _ HI) as Ha. pose proof (in_space _ _ _ _ _ HI) as Hs. unfold regions_of in Ha, Hs.
  cbn [app] in Ha, Hs. apply List.Forall_cons_iff in Ha as [_ [[[x Hx] [y Hy]] _]%List.Forall_cons_iff].
  apply List.Forall_cons_iff in Hs as [_ [(S1 & S2 & S3) _]%List.Forall_cons_iff]. cbn [fst snd] in *.
  unfold PageTableInit.RegionAlignment in Hx, Hy. exists (x * 512), (x * 512), (y * 512). rewrite (in_heap _ _ _ _ _ HI). split_and!; lia.
Qed.

(** C2: a process that [InitializeForProcess] set up with success, with a heap
    region that ends before the end of the address space, and in the 39-bit
    space with code above 0x8000000, on a pool whose heap is reachable: after a
    sequence of allowed operations, as above without a [MapPhysicalMemory] that
    runs out of memory, a [SetHeapSize] to the size that the heap has, an
    [UnmapPhysicalMemory] without a resource limit and ranges that reach the
    last page, two pages of its address space never have the same frame, and no
    frame of a page is free. *)
Theorem process_memory_isolated t0 as_type aslr code_addr code_size pool_ draws t draws' mm h rl ops :
  (aslr = true -> good_draws 4 draws) ->
  (as_type = PageTableInit.Is39Bit -> 0x8000000 <= code_addr /\ 0 < code_size /\ code_addr + code_size <= 2 ^ 39) ->
  PageTableInit.InitializeForProcess t0 as_type aslr code_addr code_size pool_ draws = Some (t, RESULT_SUCCESS, draws') ->
  heap_region_end (layout t) < address_space_end (layout t) ->
  mm !! pool_ = Some h -> reachable lo hi h ->
  let s := {| page_table := t; memory_manager := mm; resource_limit := rl |} in
  all_allowed ops s ->
  exists s' h', run_all ops s = Some s' /\ memory_manager s' !! pool s' = Some h'
    /\ (forall i j x, frame (entries_of s') i = Some x -> frame (entries_of s') j = Some x -> i = j)
    /\ (forall i x, frame (entries_of s') i = Some x -> exists p, x = p * 4096 /\ lo <= p < hi /\ free_page h' p = false).
Proof using Hlo Hhi Hsz.
  intros Hd Hc E Hend Hmm Hr s Ha.
  destruct (InitializeForProcess_spec t0 as_type aslr code_addr code_size pool_ draws Hd Hc) as (t1 & r1 & d1 & E1 & Hcase).
  rewrite E in E1. injection E1 as <- <- <-. destruct Hcase as [[_ HI]|[? _]]; [|done].
  assert (isolated s) as HIs.
  { apply (fresh_isolated s h (num_entries (page_table_impl t))); try done.
    - unfold s, pool. cbn [page_table memory_manager]. by rewrite (in_pool _ _ _ _ _ HI).
    - pose proof (in_entries _ _ _ _ _ HI) as He. destruct as_type; cbn [PageTableInit.GetAddressSpaceWidthFromType] in He; lia.
    - unfold s, blocks. cbn [page_table]. rewrite (in_fresh _ _ _ _ _ HI), (in_entries _ _ _ _ _ HI). done.
    - apply HI.
    - by eapply initialised_heap_ok. }
  destruct (run_all_isolated ops s HIs Ha) as (s' & E' & _ & h' & Hh' & HC). exists s', h'. split_and!; [done|done|apply HC|apply HC].
Qed.

End Isolation.

(** ** Witnesses *)

(** A small address space on the heap of 4096 pages. *)
Definition sample_layout : Layout :=
  {| address_space_start := 0; address_space_end := 0x100000; heap_region_start := 0x40000; heap_region_end := 0x80000;
     current_heap_end := 0x40000; alias_region_start := 0x80000; alias_region_end := 0xc0000; stack_region_start := 0x10000;
     stack_region_end := 0x40000; kernel_map_region_start := 0x10000; kernel_map_region_end := 0x40000;
     code_region_start := 0x10000; code_region_end := 0x40000; alias_code_region_start := 0x10000;
     alias_code_region_end := 0xe0000; max_heap_size := 0; max_physical_memory_size := 0; address_space_width := 32;
     is_kernel := false; is_aslr_enabled := false; memory_pool := 0 |}.
Definition sample_system : System :=
  {| page_table := {| layout := sample_layout; block_manager := MemoryBlockManager_new 0 0x100000; current_heap_addr := 0x40000;
                      heap_capacity := 0; physical_memory_usage := 0;
                      page_table_impl := {| num_entries := 0x100; entries := ∅ |} |};
     memory_manager := [sample_heap]; resource_limit := None |}.

Lemma sample_isolated : isolated 0x40000 0x41000 sample_system.
Proof.
  apply (fresh_isolated 0x40000 0x41000 sample_system sample_heap 0x100); try done; try lia.
  - apply sample_heap_ok.
  - exists 0x40, 0x40, 0x80. cbn. lia.
Qed.

Lemma page_table_isolation_witness :
  exists s', run_all [RunMapProcessCode 0x10 3 MemoryState_Code MemoryPermission_ReadAndExecute] sample_system = Some s'
    /\ isolated 0x40000 0x41000 s'.
Proof.
  apply (page_table_isolation 0x40000 0x41000 ltac:(lia) ltac:(lia) ltac:(lia)); [exact sample_isolated|].
  split; [|done]. split; [unfold range_ok; cbn; lia|]. split; [done|unfold is_u32; done].
Defined.

(** The page table of a 32-bit process, before and after initialisation. *)
Definition sample_process : option (PageTable * Z * list Z) :=
  PageTableInit.InitializeForProcess (page_table sample_system) PageTableInit.Is32Bit true 0x200000 0x5000 0 [5; 9; 77; 3].

Lemma process_memory_isolated_witness :
  match sample_process with
  | Some (t, _, _) =>
      exists s' h', run_all [RunSetHeapSize 5] {| page_table := t; memory_manager := [sample_heap]; resource_limit := None |} = Some s'
        /\ memory_manager s' !! pool s' = Some h'
        /\ (forall i j x, frame (entries_of s') i = Some x -> frame (entries_of s') j = Some x -> i = j)
        /\ (forall i x, frame (entries_of s') i = Some x -> exists p, x = p * 4096 /\ 0x40000 <= p < 0x41000 /\ free_page h' p = false)
  | None => False
  end.
Proof.
  destruct sample_process as [[[t r] d]|] eqn:E; [|vm_compute in E; discriminate].
  assert (r = RESULT_SUCCESS /\ heap_region_end (layout t) < address_space_end (layout t)
    /\ heap_region_start (layout t) = current_heap_addr t) as (-> & He & Hc).
  { vm_compute in E. injection E as <- <- <-. vm_compute. auto. }
  pose proof (process_memory_isolated 0x40000 0x41000 ltac:(lia) ltac:(lia) ltac:(lia) (page_table sample_system) PageTableInit.Is32Bit
    true 0x200000 0x5000 0 [5; 9; 77; 3] t d [sample_heap] sample_heap None [RunSetHeapSize 5]) as H. cbv zeta in H. apply H; clear H.
  - intros _. split; [repeat constructor; unfold is_u64; lia|vm_compute; lia].
  - discriminate.
  - exact E.
  - exact He.
  - reflexivity.
  - exact (proj1 sample_heap_ok).
  - split; [|intros; exact I]. split; [lia|]. split; [cbn [page_table]; lia|exact I].
Defined.

(** ** Where the guarantees end *)

(** [Allocate] has given the pages back when it fails; the guard of
    [MapPhysicalMemory] gives them back again, so the heap of 4096 pages counts
    more free pages than it has. *)
Definition large_system : System :=
  {| page_table := {| layout := sample_layout; block_manager := MemoryBlockManager_new 0 0x10000000; current_heap_addr := 0x40000;
                      heap_capacity := 0; physical_memory_usage := 0;
                      page_table_impl := {| num_entries := 0x10000; entries := ∅ |} |};
     memory_manager := [sample_heap];
     resource_limit := Some (RL.SetLimitValue RL.ResourceLimit_Create RL.PhysicalMemory 0x100000000).1 |}.

Example map_physical_memory_frees_twice :
  match MapPhysicalMemory 0x1000000 (0x1001 * 4096) large_system with
  | Some (s', r) => r = ERR_OUT_OF_MEMORY /\ map GetNumFreePages (memory_manager s') <> [0x1000]
  | None => False
  end.
Proof. vm_compute. split; [reflexivity|discriminate]. Qed.

(** A first [SetHeapSize] of 0 inserts a block without pages. *)
Example set_heap_size_empty_block :
  match SetHeapSize 0 large_system with
  | Some (s', _) => map (fun b => (addr b, num_pages b)) (blocks s') = [(0, 0x40); (0x40000, 0); (0x40000, 0xffc0)]
  | None => False
  end.
Proof. vm_compute. reflexivity. Qed.
