(* ===== verification/PageTableAlias.v ===== *)
(** * Mapping memory twice and undoing it

    [PageTable::Map] makes a range of the stack region an alias of memory of
    the process, which it locks; [PageTable::Unmap] undoes it.  Unlike the
    operations of [PageTableIsolation.v] these share frames on purpose. *)

From S2P Require Import Prelude BitUtil KernelObject PageHeap PageBitmap PageHeapCorrect PageHeapSpec MemoryManager.
From S2P Require Import MemoryState MemoryBlockManager MemoryBlockCorrect AddressSpace ResourceLimit.
From S2P Require Import PageTable PageTableRanges PageTableFrames PageTableIsolation.
From stdpp Require Import base list gmap.
Import MemoryBlockManager.MemoryBlockManager.
Import PageTable.PageTable.
Open Scope Z_scope.
Open Scope c_scope.

(** ** The frames of a page group in order *)

Lemma frames_app l l' : frames (l ++ l') = frames l ++ frames l'.
Proof. unfold frames. by rewrite map_app, concat_app. Qed.

Lemma frames_AddBlock l a n : Forall node_ok l -> 0 <= a -> 0 < n -> a + n <= 2 ^ 50 ->
  frames (MM.AddBlock l (a * 4096) n) = frames l ++ seqZ a n.
Proof.
  intros Hl Ha Hn Hm. unfold MM.AddBlock. destruct (Z.eqb_spec n 0); [lia|].
  assert (frames (l ++ [{| MM.addr := a * 4096; MM.num_pages := n |}]) = frames l ++ seqZ a n) as Hs.
  { rewrite frames_app. f_equal. cbn [frames map concat]. unfold node_frames. cbn [MM.addr MM.num_pages].
    by rewrite Z.div_mul, app_nil_r by lia. }
  destruct l as [|nd l _] using rev_ind; [exact Hs|]. rewrite last_snoc.
  apply Forall_app in Hl as [Hl (a0 & Ea & H0 & Hn0 & Hm0)%Forall_singleton].
  rewrite page_bytes, to_u64_id by (unfold is_u64; lia).
  destruct (Z.eqb_spec (MM.addr nd + MM.num_pages nd * 4096) (a * 4096)) as [E|]; [|exact Hs].
  assert (a = a0 + MM.num_pages nd) as -> by lia. rewrite removelast_last, to_u64_id by (unfold is_u64; lia).
  rewrite !frames_app, <- app_assoc. f_equal. cbn [frames map concat]. unfold node_frames. cbn [MM.addr MM.num_pages].
  rewrite Ea, Z.div_mul, !app_nil_r by lia. rewrite (Z.add_comm n), seqZ_app by lia. done.
Qed.

(** Pages added one by one. *)
Definition add_pages (l : list MM.Node) (ps : list Z) : list MM.Node := foldl (fun l p => MM.AddBlock l (p * 4096) 1) l ps.

Definition page_numbers (ps : list Z) : Prop := Forall (fun p => 0 < p < 2 ^ 49) ps.

Lemma add_pages_spec ps : forall l, Forall node_ok l -> page_numbers ps ->
  Forall node_ok (add_pages l ps) /\ frames (add_pages l ps) = frames l ++ ps.
Proof.
  induction ps as [|p ps IH]; intros l Hl Hp; cbn [add_pages foldl]; [by rewrite app_nil_r|].
  apply List.Forall_cons_iff in Hp as [Hp Hps]. destruct (AddBlock_spec l p 1 Hl) as (H1 & _); [lia..|].
  destruct (IH _ H1 Hps) as [H2 H3]. split; [done|]. unfold add_pages in H3. rewrite H3, frames_AddBlock by (done || lia).
  rewrite <- app_assoc. done.
Qed.

(** The pages from [base] on have the frames [ps]. *)
Definition backed (t : CommonPageTable) (base : Z) (ps : list Z) : Prop :=
  forall j p, ps !! j = Some p -> frame t (base + Z.of_nat j) = Some (p * 4096).

Lemma add_region_loop_pages ps t : forall base l, 0 <= base -> base + Z.of_nat (length ps) <= num_entries (page_table_impl t) ->
  num_entries (page_table_impl t) <= 2 ^ 36 -> backed (page_table_impl t) base ps ->
  add_region_loop (length ps) t (base * 4096) ((base + Z.of_nat (length ps)) * 4096) l = Some (add_pages l ps).
Proof.
  induction ps as [|p ps IH]; intros base l Hb Hs Hm Hp; cbn [add_region_loop length].
  { destruct (Z.ltb_spec (base * 4096) ((base + Z.of_nat 0) * 4096)); [lia|done]. }
  cbn [length] in Hs. destruct (Z.ltb_spec (base * 4096) ((base + Z.of_nat (S (length ps))) * 4096)); [|lia].
  pose proof (Hp O p eq_refl) as H0. rewrite Z.add_0_r in H0. rewrite (GetPhysicalAddr_frame t base (p * 4096)) by (done || lia).
  cbn [mbind option_bind]. change PageSize with 4096. rewrite to_u64_id by (unfold is_u64; lia).
  replace (base * 4096 + 4096) with ((base + 1) * 4096) by lia.
  replace (base + Z.of_nat (S (length ps))) with (base + 1 + Z.of_nat (length ps)) by lia. apply IH; [lia|lia|done|].
  intros j q Hj. specialize (Hp (S j) q Hj). replace (base + 1 + Z.of_nat j) with (base + Z.of_nat (S j)) by lia. done.
Qed.

Lemma AddRegionToPages_pages s base n ps : n = Z.of_nat (length ps) -> 0 <= base -> base + n <= num_entries (entries_of s) ->
  num_entries (entries_of s) <= 2 ^ 36 -> backed (entries_of s) base ps ->
  AddRegionToPages (base * 4096) n [] s = Some (s, add_pages [] ps).
Proof.
  intros -> Hb Hs Hm Hp. unfold AddRegionToPages. rewrite page_bytes, to_u64_id by (unfold is_u64; lia).
  replace (base * 4096 + Z.of_nat (length ps) * 4096) with ((base + Z.of_nat (length ps)) * 4096) by lia.
  erewrite bind_eq by reflexivity. unfold lift. rewrite Nat2Z.id.
  rewrite (add_region_loop_pages ps (page_table s) base []) by done. done.
Qed.

(** ** Mapping a page group in order *)

Lemma map_nodes_spec l : forall s addr base perm, Forall node_ok l -> page_numbers (frames l) ->
  0 <= base -> base + npages l <= num_entries (entries_of s) -> num_entries (entries_of s) <= 2 ^ 36 ->
  exists t', map_nodes addr (base * 4096) l perm s = Some (sys_impl s t', RESULT_SUCCESS)
    /\ num_entries t' = num_entries (entries_of s) /\ backed t' base (frames l)
    /\ forall i, in_range base (npages l) i = false -> frame t' i = frame (entries_of s) i.
Proof.
  induction l as [|nd l IH]; intros s addr base perm Hl Hp Hb Hs Hm; cbn [map_nodes npages frames map concat].
  { exists (entries_of s). rewrite sys_impl_id. split; [done|]. split; [done|]. split; [|done]. intros j p Hj. done. }
  apply List.Forall_cons_iff in Hl as [(a & Ea & A1 & A2 & A3) Hl]. cbn [npages frames map concat] in Hs, Hp. fold (frames l) in *.
  assert (node_frames nd = seqZ a (MM.num_pages nd)) as Hnf by (unfold node_frames; rewrite Ea, Z.div_mul by lia; done).
  rewrite Hnf in *. apply Forall_app in Hp as [Hp1 Hp2].
  pose proof (length_frames l Hl) as Hlen.
  assert (0 < a) as Ha by (apply (Forall_lookup_1 _ _ O a Hp1); apply lookup_seqZ; lia).
  unfold Operate at 1. rewrite page_bytes by lia. unfold MapMemoryRegion, Memory_MapPages. change PageSize with 4096.
  rewrite Ea, !Z.div_mul by lia. destruct (Z.eqb_spec (a * 4096) 0); [lia|].
  destruct (map_loop_spec (Z.to_nat (MM.num_pages nd)) (entries_of s) base a Memory) as (t1 & E1 & N1 & F1); [lia..|done|].
  rewrite Z2Nat.id in F1 by lia.
  erewrite bind_eq by (erewrite bind_eq by (apply set_impl_eq; exact E1); reflexivity).
  change (RESULT_SUCCESS =? RESULT_SUCCESS) with true. cbv iota. rewrite to_u64_id by (unfold is_u64; lia).
  replace (base * 4096 + MM.num_pages nd * 4096) with ((base + MM.num_pages nd) * 4096) by lia.
  destruct (IH (sys_impl s t1) addr (base + MM.num_pages nd) perm Hl Hp2) as (t2 & E2 & N2 & B2 & F2);
    rewrite ?sys_impl_entries, ?N1; [lia..|]. rewrite sys_impl_entries in N2, F2.
  exists t2. rewrite E2, sys_impl_twice. split; [done|]. split; [congruence|]. split.
  - intros j p [Hj|[Hge Hj]]%lookup_app_Some.
    + apply lookup_seqZ in Hj as [-> Hj]. rewrite F2, F1.
      * rewrite (proj2 (in_range_iff _ _ _)) by lia. do 2 f_equal. lia.
      * apply not_true_iff_false. rewrite in_range_iff. lia.
    + rewrite length_seqZ in Hge, Hj. specialize (B2 _ _ Hj). rewrite <- B2. f_equal. lia.
  - intros i Hi. rewrite <- not_true_iff_false, in_range_iff in Hi. rewrite F2, F1.
    + destruct (in_range base (MM.num_pages nd) i) eqn:Ei; [apply in_range_iff in Ei; lia|done].
    + apply not_true_iff_false. rewrite in_range_iff. lia.
Qed.

(** ** Map and Unmap *)

Lemma IsEqual_refl l : IsEqual l l = true.
Proof. induction l as [|nd l IH]; [done|]. cbn [IsEqual]. by rewrite !Z.eqb_refl. Qed.

(** Trees with the same pages are the same. *)
Lemma block_tree_pages_eq e0 e t t' : e0 = 0 -> block_tree e0 e t -> block_tree e0 e t' ->
  (forall i, 0 <= i * 4096 < e -> page_at 0 t (i * 4096) = page_at 0 t' (i * 4096)) -> t = t'.
Proof.
  intros -> [T1 T2 _ _ _] [T1' T2' _ _ _] Hp. apply (block_tree_canonical t t' 0 e); try done.
  apply list_eq. intros j. pose proof (tiles_pages _ _ _ T1). pose proof (tiles_pages _ _ _ T1').
  destruct (decide (j < length (pages t))%nat) as [Hj|Hj].
  - specialize (Hp (Z.of_nat j) ltac:(lia)). unfold page_at in Hp. rewrite Z.sub_0_r, Z.div_mul, Nat2Z.id in Hp by lia. done.
  - rewrite !lookup_ge_None_2 by lia. done.
Qed.

Section Alias.
Context (lo hi : Z) (Hlo : 0 < lo < hi) (Hhi : hi <= 2 ^ 49) (Hsz : hi - lo <= 2 ^ 23).

(** The frames of a mapped range. *)
Lemma backed_frames t b h n : forall base, consistent lo hi t b h ->
  (forall i, in_range base (Z.of_nat n) i = true -> frame t i <> None) ->
  exists ps, length ps = n /\ page_numbers ps /\ backed t base ps.
Proof using Hlo Hhi.
  induction n as [|n IH]; intros base HC Hf.
  { exists []. split; [done|]. split; [constructor|]. intros j p Hj. done. }
  destruct (IH (base + 1) HC) as (ps & L & P & B).
  { intros i Hi. apply Hf. rewrite in_range_iff in *. lia. }
  destruct (frame t base) as [x|] eqn:Ex; [|exfalso; apply (Hf base); [apply in_range_iff; lia|done]].
  destruct (cs_frame _ _ _ _ _ HC base x Ex) as (p & -> & Hp & _). exists (p :: ps). split; [cbn; lia|]. split.
  - constructor; [lia|done].
  - intros [|j] q Hj; [injection Hj as <-; by rewrite Z.add_0_r|]. specialize (B j q Hj). rewrite <- B. f_equal. lia.
Qed.

(** Values that fit the fields of a block: an 8-bit permission, and an
    attribute without the bit that the masks leave out. *)
Definition narrow (x : MemoryBlock) : Prop := 0 <= perm x < 2 ^ 8 /\ 0 <= attribute x < 2 ^ 7.

Lemma narrow_masks x p a : narrow x -> perm x .& MemoryPermission_Mask = p -> attribute x .& MemoryAttribute_Mask = a ->
  perm x = p /\ attribute x = a.
Proof.
  intros [H1 H2]. change MemoryPermission_Mask with (Z.ones 8). change MemoryAttribute_Mask with (Z.ones 7).
  rewrite !Z.land_ones, !Z.mod_small by lia. done.
Qed.

(** Two updates that restore the properties of a page. *)
Lemma update_restores x st p at_ st' p' : attribute x = 0 -> state x = st' -> perm x = p' ->
  at_ = MemoryAttribute_Locked \/ at_ = MemoryAttribute_None ->
  UpdateBlock st' p' MemoryAttribute_None (UpdateBlock st p at_ x) = x.
Proof.
  intros Ha <- <- Hat. destruct x as [x1 x2 x3 x4 x5 x6 x7 x8]. cbn in Ha. subst x8. unfold UpdateBlock. cbn [addr num_pages state ipc_lock_count device_use_count perm original_perm attribute].
  f_equal. destruct Hat as [->| ->]; reflexivity.
Qed.

(** [s'] is [s] after the [n] pages from [bd] were made an alias of those from
    [bs]. *)
Record aliased (s s' : System) (bs bd n st : Z) (ps : list Z) : Prop := {
  al_size : num_entries (entries_of s') = num_entries (entries_of s);
  al_src : backed (entries_of s') bs ps;
  al_dst : backed (entries_of s') bd ps;
  al_out : forall i, in_range bd n i = false -> frame (entries_of s') i = frame (entries_of s) i;
  al_tree : block_tree 0 (num_entries (entries_of s) * 4096) (blocks s');
  al_page : forall i x, 0 <= i < num_entries (entries_of s) -> page_at 0 (blocks s) (i * 4096) = Some x ->
    page_at 0 (blocks s') (i * 4096)
    = Some (if in_range bd n i then UpdateBlock MemoryState_Stack MemoryPermission_ReadAndWrite MemoryAttribute_None x
            else if in_range bs n i then UpdateBlock st MemoryPermission_None MemoryAttribute_Locked x else x);
  al_rest : memory_manager s' = memory_manager s /\ resource_limit s' = resource_limit s;
}.

(** The pages that [Map] accepts. *)
Record can_alias (s : System) (bs bd n st : Z) : Prop := {
  ca_state : st .& MemoryState_FlagCanAlias = MemoryState_FlagCanAlias;
  ca_src : pages_satisfy s bs n (fun x => state x = st /\ perm x = MemoryPermission_ReadAndWrite /\ attribute x = MemoryAttribute_None);
  ca_dst : pages_satisfy s bd n (fun x => state x = MemoryState_Free /\ perm x = MemoryPermission_None /\ attribute x = MemoryAttribute_None);
}.

Section MapUnmap.
Context (s : System) (h : PageHeap) (bs bd n : Z).
Hypothesis (HC : consistent lo hi (entries_of s) (blocks s) h) (Hrs : range_ok s bs n) (Hrd : range_ok s bd n)
  (Hdis : forall i, in_range bs n i = true -> in_range bd n i = false)
  (Hns : pages_satisfy s bs n narrow) (Hnd : pages_satisfy s bd n narrow).

Lemma page_exists i : 0 <= i < num_entries (entries_of s) -> exists x, page_at 0 (blocks s) (i * 4096) = Some x.
Proof using HC. intros Hi. destruct (consistent_page _ _ _ _ _ i HC Hi) as (x & Hx & _). by exists x. Qed.

Lemma Map_spec : exists s' r, Map (bd * 4096) (bs * 4096) (n * 4096) s = Some (s', r)
  /\ (r = ERR_INVALID_ADDRESS_STATE /\ s' = s
      \/ r = RESULT_SUCCESS /\ exists st ps, n = Z.of_nat (length ps) /\ can_alias s bs bd n st /\ aliased s s' bs bd n st ps).
Proof using Hlo Hhi HC Hrs Hrd Hdis Hns Hnd.
  pose proof Hrs as (S1 & S2 & S3). pose proof Hrd as (D1 & D2 & D3). pose proof (cs_size _ _ _ _ _ HC) as Hm. unfold Map.
  match goal with |- context [checked _ _ ?a ?b ?c ?d ?e ?f ?g ?k] =>
    destruct (checked_spec s bs n a b c d e f g k) as [(x & Hx & Hall & E)|E] end; [apply HC|done| |rewrite E; eauto 10].
  rewrite E. clear E. destruct (IsRegionMapped_masks lo hi s h bd n HC Hrd) as (m & E & Hun). erewrite bind_eq by exact E. clear E.
  destruct m; [do 2 eexists; split; [reflexivity|by left]|]. specialize (Hun eq_refl). set (st := state x) in *.
  assert (can_alias s bs bd n st) as HCA.
  { split.
    - destruct (Hall bs x) as (_ & H1 & _); [apply in_range_iff; lia|done|exact H1].
    - intros i y Hi Hy. destruct (Hall i y Hi Hy) as ((A1 & _) & _ & A2 & A3). split; [exact A1|]. apply narrow_masks; [by apply (Hns i)|done..].
    - intros i y Hi Hy. destruct (Hun i y Hi Hy) as (A1 & A2 & A3). split; [exact A1|]. apply narrow_masks; [by apply (Hnd i)|done..]. }
  assert (forall i, in_range bs n i = true -> frame (entries_of s) i <> None) as Hmapped.
  { intros i Hi. pose proof Hi as ?%in_range_iff. destruct (consistent_page _ _ _ _ _ i HC ltac:(lia)) as (y & Hy & _ & _ & Hf).
    destruct (ca_src _ _ _ _ _ HCA i y Hi Hy) as (Ey & _). rewrite <- Hf, Ey. eapply flagged_not_free; [apply HCA|done]. }
  destruct (backed_frames _ _ h (Z.to_nat n) bs HC) as (ps & L & P & B); [rewrite Z2Nat.id by lia; done|].
  assert (n = Z.of_nat (length ps)) as Hn by lia. change PageSize with 4096. rewrite Z.div_mul by lia.
  erewrite bind_eq by (apply (AddRegionToPages_pages s bs n ps); done || lia).
  destruct (add_pages_spec ps [] (List.Forall_nil _) P) as [O1 O2]. cbn [frames map concat app] in O2.
  pose proof (length_frames _ O1) as O3. rewrite O2 in O3.
  destruct (map_nodes_spec (add_pages [] ps) s (bd * 4096) bd MemoryPermission_ReadAndWrite O1) as (t' & EM & N & Bd & F);
    rewrite ?O2; try done; try lia. rewrite O2 in Bd. rewrite <- O3, <- Hn in F.
  unfold cascade at 1. erewrite bind_eq.
  2: { unfold guarded, cascade. erewrite bind_eq by (erewrite bind_eq by reflexivity; exact EM). reflexivity. }
  change (RESULT_SUCCESS =? RESULT_SUCCESS) with true. cbv iota. set (s1 := sys_impl s t').
  assert (entries_of s1 = t') as E1 by done. assert (blocks s1 = blocks s) as E2 by done.
  destruct (update_spec s1 bs n st MemoryPermission_None MemoryAttribute_Locked) as (b1 & EU1 & T1 & P1);
    unfold range_ok; rewrite ?E1, ?E2, ?N; [apply HC|done|]. rewrite E1, E2, N in *. erewrite bind_eq by exact EU1.
  set (s2 := sys_blocks s1 b1). assert (entries_of s2 = t') as E3 by done. assert (blocks s2 = b1) as E4 by done.
  destruct (update_spec s2 bd n MemoryState_Stack MemoryPermission_ReadAndWrite MemoryAttribute_None) as (b2 & EU2 & T2 & P2);
    unfold range_ok; rewrite ?E3, ?E4, ?N; [done|done|]. rewrite E3, E4, N in *. erewrite bind_eq by exact EU2.
  do 2 eexists. split; [reflexivity|]. right. split; [done|]. exists st, ps. split; [done|]. split; [done|].
  split; try done.
  - intros j p Hj. change (entries_of (sys_blocks s2 b2)) with t'. rewrite F; [by apply B|]. apply Hdis, in_range_iff.
    apply lookup_lt_Some in Hj. lia.
  - intros i y Hi Hy. change (blocks (sys_blocks s2 b2)) with b2. rewrite (P2 i _ Hi (P1 i y Hi Hy)).
    destruct (in_range bd n i) eqn:Ed; [|done]. destruct (in_range bs n i) eqn:Es; [|done]. rewrite (Hdis i Es) in Ed. done.
Qed.

(** The pages of the alias and of its source. *)
Lemma aliased_pages s' st ps : can_alias s bs bd n st -> aliased s s' bs bd n st ps ->
  pages_satisfy s' bs n (fun y => state y = st /\ perm y = MemoryPermission_None /\ attribute y = MemoryAttribute_Locked)
  /\ pages_satisfy s' bd n (fun y => state y = MemoryState_Stack /\ perm y = MemoryPermission_ReadAndWrite
                                     /\ attribute y = MemoryAttribute_None).
Proof using HC Hrs Hrd Hdis.
  intros HCA HA. pose proof Hrs as (S1 & S2 & S3). pose proof Hrd as (D1 & D2 & D3). split; intros i y Hi Hy; pose proof Hi as Hi'%in_range_iff.
  - destruct (page_exists i) as [x Hx]; [lia|]. rewrite (al_page _ _ _ _ _ _ _ HA i x), Hi, (Hdis i Hi) in Hy by (done || lia).
    injection Hy as <-. destruct (ca_src _ _ _ _ _ HCA i x Hi Hx) as (_ & _ & A). cbn [UpdateBlock state perm attribute].
    rewrite A. done.
  - destruct (page_exists i) as [x Hx]; [lia|]. rewrite (al_page _ _ _ _ _ _ _ HA i x), Hi in Hy by (done || lia).
    injection Hy as <-. destruct (ca_dst _ _ _ _ _ HCA i x Hi Hx) as (_ & _ & A). cbn [UpdateBlock state perm attribute].
    rewrite A. done.
Qed.

Lemma pages_first s' b P : 0 < n -> 0 <= b -> pages_satisfy s' b n P -> forall x, page_at 0 (blocks s') (b * 4096) = Some x -> P x.
Proof. intros Hn Hb HP x Hx. apply (HP b x); [apply in_range_iff; lia|done]. Qed.

Lemma Unmap_spec s' st ps : n = Z.of_nat (length ps) -> can_alias s bs bd n st -> aliased s s' bs bd n st ps ->
  exists s'', Unmap (bd * 4096) (bs * 4096) (n * 4096) s' = Some (s'', RESULT_SUCCESS)
    /\ blocks s'' = blocks s /\ (forall i, frame (entries_of s'') i = frame (entries_of s) i)
    /\ memory_manager s'' = memory_manager s /\ resource_limit s'' = resource_limit s.
Proof using HC Hrs Hrd Hdis.
  intros Hn HCA HA. pose proof Hrs as (S1 & S2 & S3). pose proof Hrd as (D1 & D2 & D3). pose proof (cs_size _ _ _ _ _ HC) as Hm.
  destruct (aliased_pages s' st ps HCA HA) as [Qs Qd]. pose proof HA as [A1 A2 A3 A4 A5 A6 [A7 A8]].
  assert (range_ok s' bs n /\ range_ok s' bd n) as [Hrs' Hrd'] by (unfold range_ok; rewrite A1; done).
  destruct (page_exists bs) as [x Hx]; [lia|]. pose proof (A6 bs x ltac:(lia) Hx) as Hx'.
  destruct (page_exists bd) as [z Hz]; [lia|]. pose proof (A6 bd z ltac:(lia) Hz) as Hz'.
  set (x' := if in_range bd n bs then _ else _) in Hx'. set (z' := if in_range bd n bd then _ else _) in Hz'.
  pose proof (pages_first s' bs _ S2 S1 Qs x' Hx') as (X1 & X2 & X3). pose proof (pages_first s' bd _ D2 D1 Qd z' Hz') as (Z1 & Z2 & Z3).
  assert (block_tree 0 (num_entries (entries_of s') * 4096) (blocks s')) as HT by (rewrite A1; done).
  unfold Unmap. rewrite (checked_ok s' bs n _ _ _ _ _ _ _ _ x' HT Hrs' Hx').
  2: { intros i y Hi Hy. destruct (Qs i y Hi Hy) as (Y1 & Y2 & Y3). unfold page_agrees, page_matches.
       rewrite Y1, Y2, Y3, X1, X2, X3. split; [done|]. split; [apply HCA|done]. }
  rewrite (checked_ok s' bd n _ _ _ _ _ _ _ _ z' HT Hrd' Hz').
  2: { intros i y Hi Hy. destruct (Qd i y Hi Hy) as (Y1 & Y2 & Y3). unfold page_agrees, page_matches.
       rewrite Y1, Y2, Y3, Z1, Z2, Z3. done. }
  change PageSize with 4096. rewrite Z.div_mul by lia.
  erewrite bind_eq by (apply (AddRegionToPages_pages s' bs n ps); rewrite ?A1; done || lia).
  erewrite bind_eq by (apply (AddRegionToPages_pages s' bd n ps); rewrite ?A1; done || lia).
  rewrite IsEqual_refl. cbn [negb].
  destruct (Operate_unmap s' bd n MemoryPermission_None) as (t' & EU & N & F); [lia..|rewrite A1; lia|rewrite A1; lia|].
  unfold cascade at 1. erewrite bind_eq.
  2: { unfold guarded, cascade. erewrite bind_eq by (erewrite bind_eq by exact EU; reflexivity). reflexivity. }
  change (RESULT_SUCCESS =? RESULT_SUCCESS) with true. cbv iota. set (s1 := sys_impl s' t').
  assert (entries_of s1 = t') as E1 by done. assert (blocks s1 = blocks s') as E2 by done. rewrite X1.
  destruct (update_spec s1 bs n st MemoryPermission_ReadAndWrite MemoryAttribute_None) as (b1 & EU1 & T1 & P1);
    unfold range_ok; rewrite ?E1, ?E2, ?N, ?A1; [done..|]. rewrite ?E1, ?E2, ?N, ?A1 in T1, P1. erewrite bind_eq by exact EU1.
  set (s2 := sys_blocks s1 b1). assert (entries_of s2 = t') as E3 by done. assert (blocks s2 = b1) as E4 by done.
  destruct (update_spec s2 bd n MemoryState_Free MemoryPermission_None MemoryAttribute_None) as (b2 & EU2 & T2 & P2);
    unfold range_ok; rewrite ?E3, ?E4, ?N, ?A1; [done..|]. rewrite ?E3, ?E4, ?N, ?A1 in T2, P2. erewrite bind_eq by exact EU2.
  eexists. split; [reflexivity|]. split; [|split; [|done]].
  - change (blocks (sys_blocks s2 b2)) with b2. apply (block_tree_pages_eq 0 (num_entries (entries_of s) * 4096)); [done|done|apply HC|].
    intros i Hi. destruct (page_exists i) as [y Hy]; [lia|]. rewrite Hy, (P2 i _ ltac:(lia) (P1 i _ ltac:(lia) (A6 i y ltac:(lia) Hy))).
    f_equal. destruct (in_range bd n i) eqn:Ed, (in_range bs n i) eqn:Es; try done.
    + rewrite (Hdis i Es) in Ed. done.
    + destruct (ca_dst _ _ _ _ _ HCA i y Ed Hy) as (B1 & B2 & B3). apply update_restores; auto.
    + destruct (ca_src _ _ _ _ _ HCA i y Es Hy) as (B1 & B2 & B3). apply update_restores; auto.
  - intros i. change (entries_of (sys_blocks s2 b2)) with t'. rewrite F. destruct (in_range bd n i) eqn:Ed; [|by apply A4].
    pose proof Ed as ?%in_range_iff. destruct (consistent_page _ _ _ _ _ i HC ltac:(lia)) as (y & Hy & _ & _ & Hf).
    destruct (ca_dst _ _ _ _ _ HCA i y Ed Hy) as (B1 & _). symmetry. by apply Hf.
Qed.
End MapUnmap.

(** C3: [PageTable::Map] on two ranges that do not overlap returns; it either
    refuses and changes nothing, or makes each page of the destination an
    alias of the page of the source (the same frame), and then
    [PageTable::Unmap] of the same ranges succeeds and restores the list of
    blocks and the frame of every page. *)
Theorem map_unmap_roundtrip s bs bd n :
  isolated lo hi s -> range_ok s bs n -> range_ok s bd n -> (forall i, in_range bs n i = true -> in_range bd n i = false) ->
  pages_satisfy s bs n narrow -> pages_satisfy s bd n narrow ->
  exists s' r, Map (bd * 4096) (bs * 4096) (n * 4096) s = Some (s', r)
    /\ (r = ERR_INVALID_ADDRESS_STATE /\ s' = s
        \/ r = RESULT_SUCCESS
           /\ (forall j, 0 <= j < n -> frame (entries_of s') (bd + j) = frame (entries_of s) (bs + j)
                                       /\ frame (entries_of s) (bs + j) <> None)
           /\ exists s'', Unmap (bd * 4096) (bs * 4096) (n * 4096) s' = Some (s'', RESULT_SUCCESS)
                /\ blocks s'' = blocks s /\ (forall i, frame (entries_of s'') i = frame (entries_of s) i)
                /\ memory_manager s'' = memory_manager s /\ resource_limit s'' = resource_limit s).
Proof using Hlo Hhi Hsz.
  intros (_ & h & Hh & HC) Hrs Hrd Hdis Hns Hnd.
  destruct (Map_spec s h bs bd n HC Hrs Hrd Hdis Hns Hnd) as (s' & r & E & [[-> ->]|(-> & st & ps & Hn & HCA & HA)]);
    [do 2 eexists; split; [exact E|by left]|].
  do 2 eexists. split; [exact E|]. right. split; [done|]. split; [|by apply (Unmap_spec s h bs bd n HC Hrs Hrd Hdis s' st ps)].
  intros j Hj. destruct (lookup_lt_is_Some_2 ps (Z.to_nat j)) as [p Hp]; [lia|]. rewrite <- (Z2Nat.id j) by lia.
  rewrite (al_dst _ _ _ _ _ _ _ HA _ _ Hp). pose proof (al_src _ _ _ _ _ _ _ HA _ _ Hp) as Hs.
  rewrite (al_out _ _ _ _ _ _ _ HA) in Hs; [by rewrite Hs|]. apply Hdis, in_range_iff. lia.
Qed.
End Alias.

Lemma map_unmap_roundtrip_witness :
  match SetHeapSize 0x4000 sample_system with
  | Some (s, _) =>
      exists s' r, Map (0x20 * 4096) (0x40 * 4096) (2 * 4096) s = Some (s', r)
        /\ (r = ERR_INVALID_ADDRESS_STATE /\ s' = s
            \/ r = RESULT_SUCCESS
               /\ (forall j, 0 <= j < 2 -> frame (entries_of s') (0x20 + j) = frame (entries_of s) (0x40 + j)
                                           /\ frame (entries_of s) (0x40 + j) <> None)
               /\ exists s'', Unmap (0x20 * 4096) (0x40 * 4096) (2 * 4096) s' = Some (s'', RESULT_SUCCESS)
                    /\ blocks s'' = blocks s /\ (forall i, frame (entries_of s'') i = frame (entries_of s) i)
                    /\ memory_manager s'' = memory_manager s /\ resource_limit s'' = resource_limit s)
  | None => False
  end.
Proof.
  destruct (SetHeapSize_ok 0x40000 0x41000 ltac:(lia) ltac:(lia) ltac:(lia) sample_system 4 sample_isolated) as (s & r & E & HI).
  { split; [lia|]. split; [vm_compute; discriminate|exact I]. }
  change (4 * 4096) with 0x4000 in E. rewrite E.
  assert (num_entries (entries_of s) = 0x100 /\ Forall narrow (take 0x44 (pages (blocks s)))) as [Hn Hp].
  { vm_compute in E. injection E as <- _. split; [reflexivity|]. vm_compute. repeat constructor; discriminate. }
  assert (forall b, 0 <= b -> b + 2 <= 0x44 -> pages_satisfy s b 2 narrow) as Hnarrow.
  { intros b Hb1 Hb2 i x Hi%in_range_iff Hx. unfold page_at in Hx. rewrite Z.sub_0_r, Z.div_mul in Hx by lia.
    apply (Forall_lookup_1 _ _ (Z.to_nat i) x Hp). rewrite lookup_take, decide_True by lia. exact Hx. }
  apply (map_unmap_roundtrip 0x40000 0x41000 ltac:(lia) ltac:(lia) ltac:(lia) s 0x40 0x20 2 HI).
  - unfold range_ok. rewrite Hn. lia.
  - unfold range_ok. rewrite Hn. lia.
  - intros i. rewrite <- not_true_iff_false, !in_range_iff. lia.
  - apply Hnarrow; lia.
  - apply Hnarrow; lia.
Defined.
