(* ===== verification/RingBuffer.v ===== *)
(** * The ring buffer between two threads

    [Common::RingBuffer] ([src/src/common/ring_buffer.h]): an array of
    [capacity] slots of [granularity] elements and two 64-bit indices that
    only grow and wrap at [2^64].  One thread pushes, another pops.  [Push]
    and [Pop] are first functions that run alone, then sequences of steps
    (the loads, the copy of each element, the store) of two threads that
    interleave.  A [memcpy] outside of its buffers is undefined and yields
    [None]. *)

From S2P Require Import Prelude.
From stdpp Require Import base list numbers relations.
Open Scope Z_scope.
Open Scope c_scope.

Module RingBuffer.
Section RingBuffer.
Context {T : Type} (T0 : T) (capacity granularity : Z).

Record RingBuffer := { m_read_index : Z; m_write_index : Z; m_data : list T }.

(** The array is not initialised: its first contents are a parameter. *)
Definition RingBuffer_new (garbage : list T) : RingBuffer :=
  {| m_read_index := 0; m_write_index := 0; m_data := garbage |}.

(** The static assertions on the parameters. *)
Definition static_asserts : bool :=
  (capacity <? (2 ^ 64 - 1) / 2 / granularity) && (capacity .& (capacity - 1) =? 0).

(** [memcpy(dst + d, src + s, n)], in elements. *)
Definition copy_elements (dst : list T) (d : Z) (src : list T) (s n : Z) : option (list T) :=
  if (d + n <=? Z.of_nat (length dst)) && (s + n <=? Z.of_nat (length src)) then
    Some (take (Z.to_nat d) dst ++ take (Z.to_nat n) (drop (Z.to_nat s) src) ++ drop (Z.to_nat (d + n)) dst)
  else None.

Definition Push (b : RingBuffer) (new_slots : list T) (slot_count : Z) : option (RingBuffer * Z) :=
  let write_index := m_write_index b in
  let slots_free := to_u64 (capacity + m_read_index b - write_index) in
  let push_count := Z.min slot_count slots_free in
  let pos := write_index mod capacity in
  let first_copy := Z.min (capacity - pos) push_count in
  let second_copy := push_count - first_copy in
  data ← copy_elements (m_data b) (pos * granularity) new_slots 0 (first_copy * granularity);
  data ← copy_elements data 0 new_slots (first_copy * granularity) (second_copy * granularity);
  Some ({| m_read_index := m_read_index b; m_write_index := to_u64 (write_index + push_count); m_data := data |},
        push_count).

(** [Push(const std::vector<T>&)]: the size of the vector is the slot count. *)
Definition Push_vector (b : RingBuffer) (input : list T) : option (RingBuffer * Z) :=
  Push b input (Z.of_nat (length input)).

(** [Pop(void*, size_t)]: also the contents of the output. *)
Definition Pop (b : RingBuffer) (output : list T) (max_slots : Z) : option (RingBuffer * list T * Z) :=
  let read_index := m_read_index b in
  let slots_filled := to_u64 (m_write_index b - read_index) in
  let pop_count := Z.min slots_filled max_slots in
  let pos := read_index mod capacity in
  let first_copy := Z.min (capacity - pos) pop_count in
  let second_copy := pop_count - first_copy in
  out ← copy_elements output 0 (m_data b) (pos * granularity) (first_copy * granularity);
  out ← copy_elements out (first_copy * granularity) (m_data b) 0 (second_copy * granularity);
  Some ({| m_read_index := to_u64 (read_index + pop_count); m_write_index := m_write_index b; m_data := m_data b |},
        out, pop_count).

(** [Pop(size_t)]: a vector of the popped elements. *)
Definition Pop_vector (b : RingBuffer) (max_slots : Z) : option (RingBuffer * list T) :=
  let out := replicate (Z.to_nat (Z.min max_slots capacity * granularity)) T0 in
  '(b, out, count) ← Pop b out (Z.of_nat (length out) / granularity);
  Some (b, take (Z.to_nat (count * granularity)) out).

Definition Size (b : RingBuffer) : Z := to_u64 (m_write_index b - m_read_index b).
Definition Capacity : Z := capacity.

(** ** Two threads

    A writer in [Push] and a reader in [Pop]: after the load of their own
    index, and while they copy, with the number of elements copied. *)
Inductive Writer :=
  | WIdle
  | WLoaded (new_slots : list T) (slot_count write_index : Z)
  | WCopy (new_slots : list T) (write_index push_count copied : Z).

Inductive Reader :=
  | RIdle
  | RLoaded (max_slots read_index : Z)
  | RCopy (read_index pop_count : Z) (out : list T).

(** The buffer, both threads, and the elements pushed and popped so far by
    calls that returned. *)
Record World := { buffer : RingBuffer; writer : Writer; reader : Reader; pushed : list T; popped : list T }.

(** The place in the array of the [copied]-th element of a call that starts
    at [index] and handles [count] slots: the first [memcpy], then the second. *)
Definition copy_place (index count copied : Z) : Z :=
  let pos := index mod capacity in
  let first_copy := Z.min (capacity - pos) count in
  if copied <? first_copy * granularity then pos * granularity + copied else copied - first_copy * granularity.

Definition set_data (b : RingBuffer) (i : Z) (x : T) : RingBuffer :=
  {| m_read_index := m_read_index b; m_write_index := m_write_index b; m_data := <[Z.to_nat i := x]> (m_data b) |}.
Definition store_write_index (b : RingBuffer) (v : Z) : RingBuffer :=
  {| m_read_index := m_read_index b; m_write_index := to_u64 v; m_data := m_data b |}.
Definition store_read_index (b : RingBuffer) (v : Z) : RingBuffer :=
  {| m_read_index := to_u64 v; m_write_index := m_write_index b; m_data := m_data b |}.

Inductive push_step : World -> World -> Prop :=
  | push_load_own b r i o new_slots slot_count :
      0 <= slot_count -> slot_count * granularity <= Z.of_nat (length new_slots) ->
      push_step {| buffer := b; writer := WIdle; reader := r; pushed := i; popped := o |}
        {| buffer := b; writer := WLoaded new_slots slot_count (m_write_index b); reader := r; pushed := i; popped := o |}
  | push_load_other b r i o new_slots slot_count write_index :
      push_step {| buffer := b; writer := WLoaded new_slots slot_count write_index; reader := r; pushed := i; popped := o |}
        {| buffer := b;
           writer := WCopy new_slots write_index (Z.min slot_count (to_u64 (capacity + m_read_index b - write_index))) 0;
           reader := r; pushed := i; popped := o |}
  | push_copy b r i o new_slots write_index push_count copied x :
      copied < push_count * granularity -> new_slots !! Z.to_nat copied = Some x ->
      push_step {| buffer := b; writer := WCopy new_slots write_index push_count copied; reader := r; pushed := i; popped := o |}
        {| buffer := set_data b (copy_place write_index push_count copied) x;
           writer := WCopy new_slots write_index push_count (copied + 1); reader := r; pushed := i; popped := o |}
  | push_store b r i o new_slots write_index push_count :
      push_step {| buffer := b; writer := WCopy new_slots write_index push_count (push_count * granularity);
                   reader := r; pushed := i; popped := o |}
        {| buffer := store_write_index b (write_index + push_count); writer := WIdle; reader := r;
           pushed := i ++ take (Z.to_nat (push_count * granularity)) new_slots; popped := o |}.

Inductive pop_step : World -> World -> Prop :=
  | pop_load_own b w i o max_slots :
      0 <= max_slots ->
      pop_step {| buffer := b; writer := w; reader := RIdle; pushed := i; popped := o |}
        {| buffer := b; writer := w; reader := RLoaded max_slots (m_read_index b); pushed := i; popped := o |}
  | pop_load_other b w i o max_slots read_index :
      pop_step {| buffer := b; writer := w; reader := RLoaded max_slots read_index; pushed := i; popped := o |}
        {| buffer := b; writer := w;
           reader := RCopy read_index (Z.min (to_u64 (m_write_index b - read_index)) max_slots) [];
           pushed := i; popped := o |}
  | pop_copy b w i o read_index pop_count out x :
      Z.of_nat (length out) < pop_count * granularity ->
      m_data b !! Z.to_nat (copy_place read_index pop_count (Z.of_nat (length out))) = Some x ->
      pop_step {| buffer := b; writer := w; reader := RCopy read_index pop_count out; pushed := i; popped := o |}
        {| buffer := b; writer := w; reader := RCopy read_index pop_count (out ++ [x]); pushed := i; popped := o |}
  | pop_store b w i o read_index pop_count out :
      Z.of_nat (length out) = pop_count * granularity ->
      pop_step {| buffer := b; writer := w; reader := RCopy read_index pop_count out; pushed := i; popped := o |}
        {| buffer := store_read_index b (read_index + pop_count); writer := w; reader := RIdle;
           pushed := i; popped := o ++ out |}.

Definition ring_step (x y : World) : Prop := push_step x y \/ pop_step x y.

Definition World_new (garbage : list T) : World :=
  {| buffer := RingBuffer_new garbage; writer := WIdle; reader := RIdle; pushed := []; popped := [] |}.

End RingBuffer.
Arguments RingBuffer : clear implicits.
Arguments World : clear implicits.
End RingBuffer.
Import RingBuffer.

(** ** The buffer as a queue *)

(** A capacity that passes the static assertion is a power of two. *)
Lemma land_pred_pow2 c : 0 < c -> c .& (c - 1) = 0 -> c = 2 ^ Z.log2 c.
Proof.
  intros Hc E. pose proof (Z.log2_spec c Hc) as [Hl Hu]. pose proof (Z.log2_nonneg c).
  destruct (Z.eq_dec c (2 ^ Z.log2 c)) as [|Hne]; [done|]. exfalso.
  assert (Z.testbit (c .& (c - 1)) (Z.log2 c) = true) as Hb; [|rewrite E, Z.bits_0 in Hb; done].
  rewrite Z.land_spec, Z.bit_log2 by done.
  assert (Z.log2 (c - 1) = Z.log2 c) as <- by (apply Z.log2_unique; lia). apply Z.bit_log2.
  pose proof (Z.pow_pos_nonneg 2 (Z.log2 c)). lia.
Qed.

Section Queue.
Context {T : Type} (T0 : T) (C g : Z).
Context (HC : 0 < C) (Hg : 0 < g) (Hstatic : static_asserts C g = true).
Implicit Types (b : RingBuffer T) (d : list T).

(** The number of elements of the array. *)
Let N := C * g.

(** The [i]-th element of an array. *)
Definition cell d (i : Z) : T := nth (Z.to_nat i) d T0.

(** [n] elements of the ring, from the element number [e]. *)
Definition elems d (e : Z) (n : Z) : list T :=
  map (fun j => cell d ((e + Z.of_nat j) mod (C * g))) (seq 0 (Z.to_nat n)).

(** The queue a buffer represents. *)
Definition contents b : list T := elems (m_data b) (m_read_index b * g) (Size b * g).

Record ring_wf b : Prop := {
  wf_data : Z.of_nat (length (m_data b)) = C * g;
  wf_read : is_u64 (m_read_index b);
  wf_write : is_u64 (m_write_index b);
  wf_size : Size b <= C;
}.

Lemma N_bounds : 0 < N < 2 ^ 63 /\ C <= N.
Proof.
  unfold static_asserts in Hstatic. apply andb_prop in Hstatic as [H _]. apply Z.ltb_lt in H.
  assert (C * g < 2 ^ 63); [|unfold N; nia].
  pose proof (Z.mul_div_le ((2 ^ 64 - 1) / 2) g Hg). change ((2 ^ 64 - 1) / 2) with (2 ^ 63 - 1) in *. nia.
Qed.

Lemma C_divides : (C | 2 ^ 64).
Proof.
  pose proof Hstatic as H. unfold static_asserts in H. apply andb_prop in H as [_ H]. apply Z.eqb_eq in H.
  apply land_pred_pow2 in H; [|done]. pose proof N_bounds as [[? HN] HCN].
  exists (2 ^ (64 - Z.log2 C)). rewrite H at 2. pose proof (Z.log2_nonneg C).
  assert (Z.log2 C < 63) by (apply Z.log2_lt_pow2; lia).
  rewrite <- Z.pow_add_r by lia. f_equal. lia.
Qed.

Lemma Size_range b : 0 <= Size b < 2 ^ 64.
Proof. apply to_u64_range. Qed.

(** The write index is [Size] slots after the read index, in the ring. *)
Lemma write_index_slots b : (m_write_index b * g) mod N = (m_read_index b * g + Size b * g) mod N.
Proof.
  unfold Size. rewrite to_u64_mod. destruct C_divides as [q Hq].
  pose proof (Z.div_mod (m_write_index b - m_read_index b) (2 ^ 64) ltac:(lia)) as E.
  set (s := _ mod 2 ^ 64) in *. set (t := _ / 2 ^ 64) in *.
  replace (m_write_index b * g) with (m_read_index b * g + s * g + (q * t) * N); [apply Z.mod_add|]; pose proof N_bounds; [lia|].
  unfold N. rewrite Hq in E. nia.
Qed.

Lemma mod_inj e i j : 0 <= i < N -> 0 <= j < N -> (e + i) mod N = (e + j) mod N -> i = j.
Proof.
  intros Hi Hj E. assert ((i - j) mod N = 0) as Em.
  { replace (i - j) with ((e + i) - (e + j)) by lia. rewrite Zminus_mod, E, Z.sub_diag. by apply Z.mod_0_l; lia. }
  apply Z.mod_divide in Em as [k Hk]; [|lia]. assert (k = 0) by nia. lia.
Qed.

Lemma mod_shift e e' i : e mod N = e' mod N -> (e + i) mod N = (e' + i) mod N.
Proof. intros E. by rewrite <- Z.add_mod_idemp_l, E, Z.add_mod_idemp_l by (pose proof N_bounds; lia). Qed.

(** The two pieces of a copy are consecutive places of the ring. *)
Lemma copy_place_ring index count k : 0 <= count <= C -> 0 <= k < count * g ->
  copy_place C g index count k = (index * g + k) mod N.
Proof.
  intros Hc Hk. unfold copy_place. pose proof N_bounds as [HN _].
  assert ((index mod C) * g = (index * g) mod N) as Ep by (unfold N; by rewrite Z.mul_mod_distr_r by lia).
  rewrite <- Z.mul_min_distr_nonneg_r, Z.mul_sub_distr_r, Ep by lia. fold N.
  rewrite <- Z.add_mod_idemp_l by lia. pose proof (Z.mod_pos_bound (index * g) N ltac:(lia)) as Hp.
  assert (count * g <= N) by (unfold N; nia).
  set (p := (index * g) mod N) in *. destruct (Z.ltb_spec k (Z.min (N - p) (count * g))).
  - rewrite Z.mod_small; lia.
  - apply Z.mod_unique with 1; lia.
Qed.

Lemma length_elems d e n : length (elems d e n) = Z.to_nat n.
Proof. unfold elems. by rewrite length_map, length_seq. Qed.

Lemma elems_ext d d' e e' n : e mod N = e' mod N ->
  (forall j, 0 <= j < n -> cell d ((e + j) mod N) = cell d' ((e + j) mod N)) -> elems d e n = elems d' e' n.
Proof.
  intros E H. unfold elems. apply map_ext_in. intros j Hj%in_seq. fold N.
  rewrite <- (mod_shift e e') by done. apply H. lia.
Qed.

Lemma elems_app d e n m : 0 <= n -> 0 <= m -> elems d e (n + m) = elems d e n ++ elems d (e + n) m.
Proof.
  intros Hn Hm. unfold elems. rewrite Z2Nat.inj_add, seq_app, map_app by done. f_equal.
  rewrite <- (Nat.add_0_r (0 + Z.to_nat n)), <- (fmap_add_seq (0 + Z.to_nat n) 0), <- list_fmap_compose. apply map_ext. intros j. simpl.
  do 2 f_equal. lia.
Qed.

(** The elements of the ring that a list was copied to are that list. *)
Lemma elems_copied d e n src : 0 <= n <= Z.of_nat (length src) ->
  (forall j, 0 <= j < n -> cell d ((e + j) mod N) = cell src j) -> elems d e n = take (Z.to_nat n) src.
Proof.
  intros Hn H. apply list_eq_same_length with (n := Z.to_nat n).
  - rewrite length_take. lia.
  - apply length_elems.
  - intros i x y Hi Hx Hy. rewrite lookup_take_lt in Hy by done. unfold elems in Hx.
    rewrite list_lookup_fmap, lookup_seq_lt in Hx by done. injection Hx as <-. fold N. rewrite H by lia.
    unfold cell. rewrite Nat2Z.id, nth_lookup, Hy. done.
Qed.

(** ** The copies *)

Lemma copy_elements_spec (dst src : list T) p s n :
  0 <= p -> 0 <= s -> 0 <= n -> p + n <= Z.of_nat (length dst) -> s + n <= Z.of_nat (length src) ->
  exists r, copy_elements dst p src s n = Some r /\ length r = length dst
    /\ forall i, 0 <= i -> cell r i = if (p <=? i) && (i <? p + n) then cell src (s + i - p) else cell dst i.
Proof.
  intros Hp Hs Hn Hd Hl. unfold copy_elements.
  rewrite (proj2 (Z.leb_le _ _) Hd), (proj2 (Z.leb_le _ _) Hl). eexists. split; [done|]. split.
  { rewrite !length_app, !length_take, !length_drop. lia. }
  intros i Hi. unfold cell. rewrite !nth_lookup. f_equal.
  destruct (Z.leb_spec p i), (Z.ltb_spec i (p + n)); cbn [andb]; try lia.
  - rewrite lookup_app_r, lookup_app_l; rewrite ?length_app, ?length_take, ?length_drop; [|lia..].
    rewrite lookup_take_lt by lia. rewrite lookup_drop. do 2 f_equal. lia.
  - rewrite lookup_app_r, lookup_app_r; rewrite ?length_app, ?length_take, ?length_drop; [|lia..].
    rewrite lookup_drop. do 2 f_equal. lia.
  - rewrite lookup_app_l; rewrite ?length_take; [|lia]. by rewrite lookup_take_lt by lia.
Qed.

Lemma cell_lookup d d' i : (i < length d)%nat -> (i < length d')%nat -> nth i d T0 = nth i d' T0 -> d !! i = d' !! i.
Proof.
  intros [x Hx]%lookup_lt_is_Some_2 [y Hy]%lookup_lt_is_Some_2. rewrite !nth_lookup, Hx, Hy. simpl. congruence.
Qed.

Lemma cell_insert d i j x : 0 <= i < Z.of_nat (length d) -> 0 <= j ->
  cell (<[Z.to_nat i := x]> d) j = if i =? j then x else cell d j.
Proof.
  intros Hi Hj. unfold cell. rewrite !nth_lookup. destruct (Z.eqb_spec i j) as [->|Hne].
  - by rewrite list_lookup_insert_eq by lia.
  - by rewrite list_lookup_insert_ne by lia.
Qed.

(** The places and the lengths of the two pieces of a copy, in elements. *)
Lemma pieces index n : 0 <= n <= C ->
  let pos := index mod C in
  let first := Z.min (C - pos) n in
  0 <= pos * g < N /\ 0 <= n * g <= N /\ first * g = Z.min (N - pos * g) (n * g)
  /\ forall j, 0 <= j < n * g -> (index * g + j) mod N = if j <? first * g then pos * g + j else j - first * g.
Proof.
  intros Hn pos first. pose proof (Z.mod_pos_bound index C HC) as Hpos. fold pos in Hpos.
  split; [unfold N; nia|]. split; [unfold N; nia|]. split.
  - unfold first. rewrite <- Z.mul_min_distr_nonneg_r by lia. f_equal. unfold N. lia.
  - intros j Hj. by rewrite <- (copy_place_ring index n j).
Qed.

(** The two copies of [Push]: the slots that follow the write index get the
    new elements, the others keep theirs. *)
Lemma push_copies d src index n : Z.of_nat (length d) = N -> 0 <= index -> 0 <= n <= C ->
  n * g <= Z.of_nat (length src) ->
  let pos := index mod C in
  let first := Z.min (C - pos) n in
  exists d1 d2, copy_elements d (pos * g) src 0 (first * g) = Some d1
    /\ copy_elements d1 0 src (first * g) ((n - first) * g) = Some d2
    /\ length d2 = length d
    /\ (forall j, 0 <= j < n * g -> cell d2 ((index * g + j) mod N) = cell src j)
    /\ (forall i, 0 <= i < N -> (forall j, 0 <= j < n * g -> (index * g + j) mod N <> i) -> cell d2 i = cell d i).
Proof.
  intros Hd Hi Hn Hs pos first. destruct (pieces index n Hn) as (Hp & Hng & Hf & Hplace). fold pos first in Hp, Hf, Hplace.
  rewrite Z.mul_sub_distr_r. set (P := pos * g) in *. set (F := first * g) in *. set (M := n * g) in *.
  destruct (copy_elements_spec d src P 0 F) as (d1 & E1 & L1 & H1); [lia..|].
  destruct (copy_elements_spec d1 src 0 F (M - F)) as (d2 & E2 & L2 & H2); [lia..|].
  exists d1, d2. split; [done|]. split; [done|]. split; [lia|]. split.
  - intros j Hj. rewrite Hplace by done. destruct (Z.ltb_spec j F).
    + rewrite H2, H1 by lia. destruct (Z.leb_spec 0 (P + j)), (Z.ltb_spec (P + j) (0 + (M - F))); cbn [andb]; try lia;
      destruct (Z.leb_spec P (P + j)), (Z.ltb_spec (P + j) (P + F)); cbn [andb]; try lia; f_equal; lia.
    + rewrite H2 by lia. destruct (Z.leb_spec 0 (j - F)), (Z.ltb_spec (j - F) (0 + (M - F))); cbn [andb]; try lia. f_equal. lia.
  - intros i Hi' Hout. rewrite H2, H1 by lia.
    destruct (Z.leb_spec 0 i), (Z.ltb_spec i (0 + (M - F))); cbn [andb]; try lia.
    { exfalso. apply (Hout (i + F)); [lia|]. rewrite Hplace by lia. destruct (Z.ltb_spec (i + F) F); lia. }
    destruct (Z.leb_spec P i), (Z.ltb_spec i (P + F)); cbn [andb]; try done.
    exfalso. apply (Hout (i - P)); [lia|]. rewrite Hplace by lia. destruct (Z.ltb_spec (i - P) F); lia.
Qed.

(** The two copies of [Pop]: the output starts with the slots that follow
    the read index. *)
Lemma pop_copies d out index n : Z.of_nat (length d) = N -> 0 <= index -> 0 <= n <= C ->
  n * g <= Z.of_nat (length out) ->
  let pos := index mod C in
  let first := Z.min (C - pos) n in
  exists o1 o2, copy_elements out 0 d (pos * g) (first * g) = Some o1
    /\ copy_elements o1 (first * g) d 0 ((n - first) * g) = Some o2
    /\ length o2 = length out
    /\ take (Z.to_nat (n * g)) o2 = elems d (index * g) (n * g)
    /\ drop (Z.to_nat (n * g)) o2 = drop (Z.to_nat (n * g)) out.
Proof.
  intros Hd Hi Hn Hs pos first. destruct (pieces index n Hn) as (Hp & Hng & Hf & Hplace). fold pos first in Hp, Hf, Hplace.
  rewrite Z.mul_sub_distr_r. set (P := pos * g) in *. set (F := first * g) in *. set (M := n * g) in *.
  destruct (copy_elements_spec out d 0 P F) as (o1 & E1 & L1 & H1); [lia..|].
  destruct (copy_elements_spec o1 d F 0 (M - F)) as (o2 & E2 & L2 & H2); [lia..|].
  exists o1, o2. split; [done|]. split; [done|]. split; [lia|]. split.
  - symmetry. apply elems_copied; [lia|]. intros j Hj. rewrite Hplace by done. rewrite H2, H1 by lia.
    destruct (Z.ltb_spec j F).
    + destruct (Z.leb_spec F j); [lia|]. cbn [andb].
      destruct (Z.leb_spec 0 j), (Z.ltb_spec j (0 + F)); cbn [andb]; try lia. f_equal. lia.
    + destruct (Z.leb_spec F j), (Z.ltb_spec j (F + (M - F))); cbn [andb]; try lia; f_equal; lia.
  - apply list_eq. intros i. rewrite !lookup_drop.
    destruct (decide (Z.to_nat M + i < length out)%nat); [|rewrite !lookup_ge_None_2; [done|lia..]].
    pose proof (H2 (M + Z.of_nat i) ltac:(lia)) as E. rewrite H1 in E by lia.
    destruct (Z.leb_spec F (M + Z.of_nat i)), (Z.ltb_spec (M + Z.of_nat i) (F + (M - F))); cbn [andb] in E; try lia;
    destruct (Z.leb_spec 0 (M + Z.of_nat i)), (Z.ltb_spec (M + Z.of_nat i) (0 + F)); cbn [andb] in E; try lia;
    unfold cell in E; replace (Z.to_nat (M + Z.of_nat i)) with (Z.to_nat M + i)%nat in E by lia;
    (apply cell_lookup; [lia|lia|exact E]).
Qed.

(** ** The operations run alone *)

Lemma free_slots b : ring_wf b -> to_u64 (C + m_read_index b - m_write_index b) = C - Size b.
Proof.
  intros [_ _ _ Hs]. revert Hs. pose proof N_bounds. pose proof (Size_range b). unfold Size in *. rewrite !to_u64_mod in *.
  intros Hs. symmetry. set (t := (m_write_index b - m_read_index b) mod 2 ^ 64) in *.
  apply Z.mod_unique with (- ((m_write_index b - m_read_index b) / 2 ^ 64)); [lia|].
  pose proof (Z.div_mod (m_write_index b - m_read_index b) (2 ^ 64)). unfold t in *. lia.
Qed.

(** Storing an index moves the size. *)
Lemma Size_push b n d : ring_wf b -> 0 <= n <= C - Size b ->
  Size {| m_read_index := m_read_index b; m_write_index := to_u64 (m_write_index b + n); m_data := d |} = Size b + n.
Proof.
  intros [_ _ _ Hs] Hn. revert Hs Hn. pose proof N_bounds. pose proof (Size_range b). unfold Size in *. cbn [m_read_index m_write_index].
  rewrite !to_u64_mod in *. rewrite Zminus_mod_idemp_l. intros. symmetry.
  apply Z.mod_unique with ((m_write_index b - m_read_index b) / 2 ^ 64); [lia|].
  pose proof (Z.div_mod (m_write_index b - m_read_index b) (2 ^ 64)). lia.
Qed.

Lemma Size_pop b n d : ring_wf b -> 0 <= n <= Size b ->
  Size {| m_read_index := to_u64 (m_read_index b + n); m_write_index := m_write_index b; m_data := d |} = Size b - n.
Proof.
  intros [_ _ _ Hs] Hn. revert Hs Hn. pose proof N_bounds. pose proof (Size_range b). unfold Size in *. cbn [m_read_index m_write_index].
  rewrite !to_u64_mod in *. rewrite Zminus_mod_idemp_r. intros. symmetry.
  apply Z.mod_unique with ((m_write_index b - m_read_index b) / 2 ^ 64); [lia|].
  pose proof (Z.div_mod (m_write_index b - m_read_index b) (2 ^ 64)). lia.
Qed.

(** The read index after a pop, in the ring. *)
Lemma read_index_slots i n : (to_u64 (i + n) * g) mod N = (i * g + n * g) mod N.
Proof.
  rewrite to_u64_mod. destruct C_divides as [q Hq]. pose proof (Z.div_mod (i + n) (2 ^ 64) ltac:(lia)) as E.
  set (s := _ mod 2 ^ 64) in *. set (t := _ / 2 ^ 64) in *.
  replace (i * g + n * g) with (s * g + (q * t) * N); [symmetry; apply Z.mod_add|]; pose proof N_bounds; [lia|].
  unfold N. rewrite Hq in E. nia.
Qed.

(** Publishing elements that are in place appends them to the queue. *)
Lemma contents_push b n d src : ring_wf b -> 0 <= n <= C - Size b -> n * g <= Z.of_nat (length src) ->
  Z.of_nat (length d) = N ->
  (forall j, 0 <= j < n * g -> cell d ((m_write_index b * g + j) mod N) = cell src j) ->
  (forall j, 0 <= j < Size b * g -> cell d ((m_read_index b * g + j) mod N) = cell (m_data b) ((m_read_index b * g + j) mod N)) ->
  let b' := {| m_read_index := m_read_index b; m_write_index := to_u64 (m_write_index b + n); m_data := d |} in
  ring_wf b' /\ contents b' = contents b ++ take (Z.to_nat (n * g)) src.
Proof.
  intros Hw Hn Hs Hd Hnew Hold b'. pose proof (Size_push b n d Hw Hn) as HS. fold b' in HS.
  pose proof (Size_range b). split.
  { destruct Hw as [? ? ? ?]. split; [done..|apply to_u64_range|lia]. }
  unfold contents. rewrite HS, Z.mul_add_distr_r, elems_app by nia. f_equal.
  - by apply elems_ext.
  - apply elems_copied; [nia|]. intros j Hj. rewrite <- Hnew by done. f_equal. apply mod_shift. symmetry. exact (write_index_slots b).
Qed.

(** Releasing slots removes them from the front of the queue. *)
Lemma contents_pop b n : ring_wf b -> 0 <= n <= Size b ->
  let b' := {| m_read_index := to_u64 (m_read_index b + n); m_write_index := m_write_index b; m_data := m_data b |} in
  ring_wf b' /\ contents b = elems (m_data b) (m_read_index b * g) (n * g) ++ contents b'.
Proof.
  intros Hw Hn b'. pose proof (Size_pop b n (m_data b) Hw Hn) as HS. fold b' in HS. split.
  { destruct Hw as [? ? ? ?]. split; [done|apply to_u64_range|done|lia]. }
  unfold contents. rewrite HS. replace (Size b * g) with (n * g + (Size b - n) * g) by lia.
  rewrite elems_app by nia. f_equal. apply elems_ext; [|done]. symmetry. apply read_index_slots.
Qed.

(** A slot that is being written is not one of the queue. *)
Lemma write_not_read b i j : ring_wf b -> 0 <= i < (C - Size b) * g -> 0 <= j < Size b * g ->
  (m_write_index b * g + i) mod N <> (m_read_index b * g + j) mod N.
Proof.
  intros Hw Hi Hj. rewrite (mod_shift _ _ i (write_index_slots b)), <- Z.add_assoc.
  intros E%mod_inj; unfold N; nia.
Qed.

Lemma length_contents b : ring_wf b -> Z.of_nat (length (contents b)) = Size b * g.
Proof. intros Hw. unfold contents. rewrite length_elems. pose proof (Size_range b). nia. Qed.

(** [Push], on every input. *)
Lemma Push_spec b src slot_count : ring_wf b -> 0 <= slot_count -> slot_count * g <= Z.of_nat (length src) ->
  let n := Z.min slot_count (C - Size b) in
  exists b', Push C g b src slot_count = Some (b', n) /\ ring_wf b'
    /\ contents b' = contents b ++ take (Z.to_nat (n * g)) src.
Proof.
  intros Hw H0 Hl n. pose proof (Size_range b). pose proof (wf_size b Hw).
  unfold Push. rewrite free_slots by done. fold n.
  destruct (push_copies (m_data b) src (m_write_index b) n) as (d1 & d2 & E1 & E2 & L & Hin & Hout);
    [apply Hw|apply Hw|lia|nia|].
  rewrite E1. cbn [mbind option_bind]. rewrite E2. cbn [mbind option_bind].
  destruct (contents_push b n d2 src) as [Hw' Hc]; [done|lia|nia|rewrite L; apply Hw|done| |eauto].
  intros j Hj. apply Hout; [apply Z.mod_pos_bound; pose proof N_bounds; lia|].
  intros i Hi. apply write_not_read; [done|nia|done].
Qed.

(** [Pop], on every output buffer that is long enough. *)
Lemma Pop_spec b out max_slots : ring_wf b -> 0 <= max_slots ->
  let n := Z.min (Size b) max_slots in
  n * g <= Z.of_nat (length out) ->
  exists b' front, Pop C g b out max_slots = Some (b', front ++ drop (Z.to_nat (n * g)) out, n) /\ ring_wf b'
    /\ length front = Z.to_nat (n * g) /\ contents b = front ++ contents b'.
Proof.
  intros Hw H0 n Hl. pose proof (Size_range b). pose proof (wf_size b Hw). unfold Pop. fold (Size b). fold n.
  destruct (pop_copies (m_data b) out (m_read_index b) n) as (o1 & o2 & E1 & E2 & L & Ht & Hd);
    [apply Hw|apply Hw|lia|done|].
  rewrite E1. cbn [mbind option_bind]. rewrite E2. cbn [mbind option_bind].
  destruct (contents_pop b n) as [Hw' Hc]; [done|lia|]. rewrite <- Ht in Hc.
  eexists _, _. split; [rewrite <- Hd, take_drop; done|]. split; [done|]. split; [|done].
  rewrite length_take. lia.
Qed.

(** ** Two threads *)

Definition writer_ok b (w : Writer) : Prop :=
  match w with
  | WIdle => True
  | WLoaded src slot_count wi => wi = m_write_index b /\ 0 <= slot_count /\ slot_count * g <= Z.of_nat (length src)
  | WCopy src wi n k => wi = m_write_index b /\ 0 <= n <= C - Size b /\ n * g <= Z.of_nat (length src)
      /\ 0 <= k <= n * g /\ (forall j, 0 <= j < k -> cell (m_data b) ((wi * g + j) mod N) = cell src j)
  end.

Definition reader_ok b (r : Reader) : Prop :=
  match r with
  | RIdle => True
  | RLoaded max_slots ri => ri = m_read_index b /\ 0 <= max_slots
  | RCopy ri n out => ri = m_read_index b /\ 0 <= n <= Size b /\ Z.of_nat (length out) <= n * g
      /\ out = elems (m_data b) (ri * g) (Z.of_nat (length out))
  end.

(** What holds of the two threads between any two steps. *)
Record threads_ok (x : World T) : Prop := {
  to_wf : ring_wf (buffer x);
  to_writer : writer_ok (buffer x) (writer x);
  to_reader : reader_ok (buffer x) (reader x);
  to_fifo : pushed x = popped x ++ contents (buffer x);
}.

(** Writing a free slot does not disturb the queue nor what was read of it. *)
Lemma set_data_frame b n k x : ring_wf b -> 0 <= n <= C - Size b -> 0 <= k < n * g ->
  let b' := set_data b (copy_place C g (m_write_index b) n k) x in
  ring_wf b' /\ contents b' = contents b
  /\ (forall i, 0 <= i < N -> cell (m_data b') i
        = if (m_write_index b * g + k) mod N =? i then x else cell (m_data b) i)
  /\ (forall r, reader_ok b r -> reader_ok b' r).
Proof.
  intros Hw Hn Hk b'. pose proof (Size_range b). pose proof (wf_size b Hw). pose proof N_bounds as [HN _].
  assert (forall i, 0 <= i < N -> cell (m_data b') i = if (m_write_index b * g + k) mod N =? i then x else cell (m_data b) i) as Hcell.
  { intros i Hi. unfold b'. cbn [set_data m_data]. rewrite copy_place_ring by lia. apply cell_insert; [|lia].
    rewrite (wf_data b Hw). apply Z.mod_pos_bound. lia. }
  assert (forall m, 0 <= m <= Size b * g -> elems (m_data b') (m_read_index b * g) m = elems (m_data b) (m_read_index b * g) m) as Hel.
  { intros m Hm. apply elems_ext; [done|]. intros j Hj. rewrite Hcell by (apply Z.mod_pos_bound; lia).
    destruct (Z.eqb_spec ((m_write_index b * g + k) mod N) ((m_read_index b * g + j) mod N)) as [E|]; [|done].
    exfalso. revert E. apply write_not_read; [done|nia|nia]. }
  split; [|split; [exact (Hel (Size b * g) ltac:(nia))|split; [done|]]].
  - destruct Hw as [Hd ? ? ?]. split; try done. unfold b'. cbn [set_data m_data]. by rewrite length_insert.
  - intros [| |ri m out]; try done. cbn [reader_ok]. intros (-> & Hm & Hl & E). split; [done|].
    change (Size b') with (Size b). split; [done|]. split; [done|]. rewrite Hel; [done|nia].
Qed.

Lemma push_step_ok x y : threads_ok x -> push_step C g x y -> threads_ok y.
Proof.
  intros [Hw Hwr Hrd Hf] Hs. destruct Hs as [b r i o src cnt H0 Hl|b r i o src cnt wi|b r i o src wi n k e Hk He|b r i o src wi n];
    cbn [buffer writer reader pushed popped writer_ok] in *.
  - by split.
  - destruct Hwr as (-> & H0 & Hl). split; try done. cbn [buffer writer writer_ok]. rewrite free_slots by done.
    pose proof (wf_size b Hw). repeat split; [lia..|nia|lia|nia|]. intros j Hj. lia.
  - destruct Hwr as (-> & Hn & Hl & Hk' & Hd). destruct (set_data_frame b n k e Hw Hn) as (Hw' & Hc & Hcell & Hr); [lia|].
    pose proof N_bounds as [HN _]. split; cbn [buffer writer reader pushed popped writer_ok]; [done| |by apply Hr|by rewrite Hc].
    split; [done|]. split; [done|]. split; [done|]. split; [lia|]. intros j Hj.
    rewrite Hcell by (apply Z.mod_pos_bound; lia). cbn [set_data m_write_index].
    destruct (Z.eqb_spec ((m_write_index b * g + k) mod N) ((m_write_index b * g + j) mod N)) as [E|Hne].
    + apply mod_inj in E as <-; [|unfold N in *; pose proof (Size_range b); nia..]. unfold cell. by rewrite nth_lookup, He.
    + apply Hd. assert (j <> k) by congruence. lia.
  - destruct Hwr as (-> & Hn & Hl & Hk & Hd).
    destruct (contents_push b n (m_data b) src Hw Hn Hl (wf_data b Hw)) as [Hw' Hc]; [done|done|].
    split; cbn [buffer writer reader pushed popped writer_ok]; [done|done| |].
    + destruct r as [| |ri m out]; try done. cbn [reader_ok] in *.
      unfold store_write_index. rewrite (Size_push b n (m_data b) Hw Hn). destruct Hrd as (-> & ? & ? & ?). repeat split; try done; lia.
    + unfold store_write_index. rewrite Hc, Hf. by rewrite app_assoc.
Qed.

Lemma pop_step_ok x y : threads_ok x -> pop_step C g x y -> threads_ok y.
Proof.
  intros [Hw Hwr Hrd Hf] Hs. destruct Hs as [b w i o ms H0|b w i o ms ri|b w i o ri n out e Hk He|b w i o ri n out Hn'];
    cbn [buffer writer reader pushed popped reader_ok] in *.
  - by split.
  - destruct Hrd as (-> & H0). split; try done. cbn [buffer reader reader_ok]. fold (Size b). pose proof (Size_range b).
    repeat split; simpl; [lia..|nia].
  - destruct Hrd as (-> & Hn & Hl & E). pose proof (wf_size b Hw). pose proof N_bounds as [HN _].
    split; try done. cbn [buffer reader reader_ok]. rewrite length_app. cbn [length].
    split; [done|]. split; [done|]. split; [lia|].
    rewrite Nat2Z.inj_add, elems_app, <- E by lia. f_equal. unfold elems. change (Z.to_nat (Z.of_nat 1)) with 1%nat. simpl.
    rewrite copy_place_ring in He by lia. unfold cell. rewrite Z.add_0_r. fold N. by rewrite nth_lookup, He.
  - destruct Hrd as (-> & Hn & Hl & E). destruct (contents_pop b n Hw Hn) as [Hw' Hc]. rewrite Hn' in E. rewrite <- E in Hc.
    pose proof (Size_range b). split; cbn [buffer writer reader pushed popped reader_ok]; [done| |done|].
    + unfold store_read_index. destruct w as [| |src wi m k]; try done. cbn [writer_ok] in *.
      rewrite (Size_pop b n (m_data b) Hw Hn). destruct Hwr as (-> & ? & ? & ? & ?). repeat split; try done; lia.
    + rewrite Hf, Hc. by rewrite app_assoc.
Qed.

Lemma World_new_ok garbage : Z.of_nat (length garbage) = N -> threads_ok (World_new garbage).
Proof.
  intros H. split; [|done|done|]; [|by unfold contents].
  split; cbn; [done|unfold is_u64; lia..|]. change (0 <= C). lia.
Qed.

Lemma ring_reachable_ok garbage x : Z.of_nat (length garbage) = N ->
  rtc (ring_step C g) (World_new garbage) x -> threads_ok x.
Proof.
  intros H. apply (rtc_ind_r (fun x => threads_ok x)); [by apply World_new_ok|].
  intros y z _ [Hs|Hs] Hy; [by eapply push_step_ok|by eapply pop_step_ok].
Qed.

End Queue.

(** ** Theorems *)

(** run alone, the ring buffer is a bounded queue.  [Push] accepts as many slots
    as are free and appends them, [Pop] delivers the oldest slots, at most as
    many as are asked for, and leaves the rest of the output alone; neither
    copies outside of a buffer, whatever the indices are, also when they wrap. *)
Theorem ring_buffer_is_bounded_queue {T} (T0 : T) (C g : Z) (b : RingBuffer T) :
  0 < C -> 0 < g -> static_asserts C g = true -> ring_wf C g b ->
  Z.of_nat (length (contents T0 C g b)) = Size b * g
  /\ (forall new_slots slot_count, 0 <= slot_count -> slot_count * g <= Z.of_nat (length new_slots) ->
        let n := Z.min slot_count (C - Size b) in
        exists b', Push C g b new_slots slot_count = Some (b', n) /\ ring_wf C g b'
          /\ contents T0 C g b' = contents T0 C g b ++ take (Z.to_nat (n * g)) new_slots)
  /\ (forall max_slots, 0 <= max_slots ->
        let n := Z.min (Size b) max_slots in
        forall output, n * g <= Z.of_nat (length output) ->
        exists b' front, Pop C g b output max_slots = Some (b', front ++ drop (Z.to_nat (n * g)) output, n) /\ ring_wf C g b'
          /\ length front = Z.to_nat (n * g) /\ contents T0 C g b = front ++ contents T0 C g b')
  /\ (forall max_slots, 0 <= max_slots ->
        let n := Z.min (Size b) max_slots in
        exists b' front, Pop_vector T0 C g b max_slots = Some (b', front) /\ ring_wf C g b'
          /\ length front = Z.to_nat (n * g) /\ contents T0 C g b = front ++ contents T0 C g b').
Proof.
  intros HC Hg Hst Hw. pose proof (Size_range b) as HS. pose proof (wf_size _ _ b Hw).
  split; [by apply length_contents|]. split; [|split].
  - intros. by apply Push_spec.
  - intros. by apply Pop_spec.
  - intros max_slots Hm n. unfold Pop_vector. rewrite length_replicate.
    replace (Z.of_nat (Z.to_nat (Z.min max_slots C * g)) / g) with (Z.min max_slots C)
      by (rewrite Z2Nat.id by nia; by rewrite Z.div_mul by lia).
    destruct (Pop_spec T0 C g HC Hg Hst b (replicate (Z.to_nat (Z.min max_slots C * g)) T0) (Z.min max_slots C))
      as (b' & front & E & Hw' & Hl & Hc); [done|lia|rewrite length_replicate; nia|].
    rewrite E. cbn [mbind option_bind].
    replace (Z.min (Size b) (Z.min max_slots C)) with n in * by lia.
    exists b', front. rewrite take_app_length' by lia. done.
Qed.

Lemma ring_buffer_is_bounded_queue_witness :
  let b := {| m_read_index := 2 ^ 64 - 1; m_write_index := 1; m_data := [2; 0; 0; 1] |} in
  contents 0 4 1 b = [1; 2] /\ Push 4 1 b [3; 4; 5] 3 = Some ({| m_read_index := 2 ^ 64 - 1; m_write_index := 3; m_data := [2; 3; 4; 1] |}, 2)
  /\ Z.of_nat (length (contents 0 4 1 b)) = Size b * 1.
Proof.
  intros b. split; [reflexivity|]. split; [reflexivity|].
  apply (ring_buffer_is_bounded_queue 0 4 1 b); [lia|lia|reflexivity|].
  split; [reflexivity|cbn; unfold is_u64; lia..|vm_compute; discriminate].
Defined.

(** C26: one thread pushing and one popping may interleave in any way, element by
    element: what was popped is always the beginning of what was pushed, the
    rest is in the buffer, the two threads never touch the same element at
    the same time, and the slots each of them handles are really free or
    filled. *)
Theorem ring_buffer_two_threads {T} (T0 : T) (C g : Z) (garbage : list T) (x : World T) :
  0 < C -> 0 < g -> static_asserts C g = true -> Z.of_nat (length garbage) = C * g ->
  rtc (ring_step C g) (World_new garbage) x ->
  pushed x = popped x ++ contents T0 C g (buffer x)
  /\ (length (contents T0 C g (buffer x)) <= length garbage)%nat
  /\ (forall src wi n k, writer x = WCopy src wi n k -> k < n * g ->
        is_Some (src !! Z.to_nat k) /\ is_Some (m_data (buffer x) !! Z.to_nat (copy_place C g wi n k)))
  /\ (forall ri m out, reader x = RCopy ri m out -> Z.of_nat (length out) < m * g ->
        is_Some (m_data (buffer x) !! Z.to_nat (copy_place C g ri m (Z.of_nat (length out)))))
  /\ (forall src wi n k ri m out, writer x = WCopy src wi n k -> reader x = RCopy ri m out ->
        n + m <= C /\ forall i j, 0 <= i < n * g -> 0 <= j < m * g -> copy_place C g wi n i <> copy_place C g ri m j).
Proof.
  intros HC Hg Hst Hl Hr. destruct (ring_reachable_ok T0 C g HC Hg Hst garbage x Hl Hr) as [Hw Hwr Hrd Hf].
  pose proof (length_contents T0 C g Hg (buffer x) Hw) as Hlen. pose proof (wf_size _ _ _ Hw).
  pose proof (Size_range (buffer x)) as HS. pose proof (N_bounds C g HC Hg Hst) as [HN _]. split; [done|]. split; [nia|].
  assert (forall i, is_Some (m_data (buffer x) !! Z.to_nat (i mod (C * g)))) as Hin.
  { intros i. apply lookup_lt_is_Some_2. pose proof (Z.mod_pos_bound i (C * g) ltac:(lia)). pose proof (wf_data _ _ _ Hw). lia. }
  split; [|split].
  - intros src wi n k E Hk. rewrite E in Hwr. destruct Hwr as (-> & Hn & Hs & Hk' & _).
    split; [apply lookup_lt_is_Some_2; lia|]. rewrite copy_place_ring by (done || lia). done.
  - intros ri m out E Hk. rewrite E in Hrd. destruct Hrd as (-> & Hm & _ & _).
    rewrite copy_place_ring by (done || lia). done.
  - intros src wi n k ri m out Ew Er. rewrite Ew in Hwr. rewrite Er in Hrd.
    destruct Hwr as (-> & Hn & Hs & Hk & _), Hrd as (-> & Hm & _ & _). split; [lia|].
    intros i j Hi Hj. rewrite !copy_place_ring by (done || lia). apply write_not_read; try done; nia.
Qed.

(** A writer and a reader in the middle of their copies, over one slot each. *)
Lemma ring_buffer_two_threads_witness :
  exists x, rtc (ring_step 2 1) (World_new [7; 7]) x /\ popped x = [] /\ pushed x = [1]
    /\ reader x = RCopy 0 1 [] /\ writer x = WCopy [2] 1 1 0
    /\ pushed x = popped x ++ contents 0 2 1 (buffer x).
Proof.
  exists {| buffer := {| m_read_index := 0; m_write_index := 1; m_data := [1; 7] |};
            writer := WCopy [2] 1 1 0; reader := RCopy 0 1 []; pushed := [1]; popped := [] |}.
  assert (rtc (ring_step 2 1) (World_new [7; 7])
    {| buffer := {| m_read_index := 0; m_write_index := 1; m_data := [1; 7] |};
       writer := WCopy [2] 1 1 0; reader := RCopy 0 1 []; pushed := [1]; popped := [] |}) as Hr.
  { eapply rtc_l; [left; apply (push_load_own 2 1 _ _ _ _ [1] 1); simpl; lia|].
    eapply rtc_l; [left; apply push_load_other|].
    eapply rtc_l; [left; apply (push_copy 2 1 _ _ _ _ _ _ _ _ 1); reflexivity|].
    eapply rtc_l; [left; apply (push_store 2 1 _ _ _ _ [1] 0 1)|].
    eapply rtc_l; [right; apply (pop_load_own 2 1 _ _ _ _ 1); lia|].
    eapply rtc_l; [right; apply pop_load_other|].
    eapply rtc_l; [left; apply (push_load_own 2 1 _ _ _ _ [2] 1); simpl; lia|].
    eapply rtc_l; [left; apply push_load_other|]. apply rtc_refl. }
  split; [exact Hr|]. do 4 (split; [reflexivity|]).
  apply (ring_buffer_two_threads 0 2 1 [7; 7] _ ltac:(lia) ltac:(lia) eq_refl eq_refl Hr).
Defined.

(** The vector overload of [Push] takes the number of elements as the number
    of slots: with more than one element per slot it reads past the vector. *)
Lemma push_vector_overreads :
  let b := RingBuffer_new (replicate 8 0) in
  Push_vector 4 2 b [1; 2] = None
  /\ Push 4 2 b [1; 2] 1 = Some ({| m_read_index := 0; m_write_index := 1; m_data := [1; 2; 0; 0; 0; 0; 0; 0] |}, 1).
Proof. split; reflexivity. Qed.
