(* ===== verification/Uint128.v ===== *)
(** * 128-bit products and quotients

    [src/src/common/uint128.cpp]: a product of two 64-bit numbers and the
    division of a 128-bit number by a 32-bit one, from which the emulator
    computes its times.  A [u128] is the pair of its low and high words.  A
    zero divisor is undefined and yields [None]. *)

From S2P Require Import Prelude.
Open Scope Z_scope.
Open Scope c_scope.

Module Uint128.

Definition u128 : Type := Z * Z.

(** The version of [MultiplyAndDivide64] without intrinsics. *)
Definition MultiplyAndDivide64 (a b d : Z) : option Z :=
  if d =? 0 then None
  else
    let diva := a / d in
    let moda := a mod d in
    let divb := b / d in
    let modb := b mod d in
    Some (to_u64 (to_u64 (to_u64 (diva * b) + to_u64 (moda * divb)) + to_u64 (moda * modb) / d)).

Definition Multiply64Into128 (a b : Z) : u128 :=
  let tmp := (a * b) mod 2 ^ 128 in
  (to_u64 tmp, to_u64 (tmp >> 64)).

Definition Divide128On32 (dividend : u128) (divisor : Z) : option (Z * Z) :=
  if divisor =? 0 then None
  else
    let '(low, high) := dividend in
    let remainder := low mod divisor in
    let accum := low / divisor in
    if high =? 0 then Some (accum, remainder)
    else
      let first_segment := to_u64 ((high mod divisor) << 32) in
      let accum := to_u64 (accum + to_u64 ((first_segment / divisor) << 32)) in
      let second_segment := to_u64 ((first_segment mod divisor) << 32) in
      let accum := to_u64 (accum + second_segment / divisor) in
      let remainder := to_u64 (remainder + second_segment mod divisor) in
      if divisor <=? remainder then Some (to_u64 (accum + 1), to_u64 (remainder - divisor))
      else Some (accum, remainder).

End Uint128.
Import Uint128.

(** The number two words stand for. *)
Definition value128 (x : u128) : Z := fst x + 2 ^ 64 * snd x.

Lemma Multiply64Into128_exact a b : is_u64 a -> is_u64 b ->
  let p := Multiply64Into128 a b in is_u64 (fst p) /\ is_u64 (snd p) /\ value128 p = a * b.
Proof.
  intros Ha Hb p. unfold p, Multiply64Into128, value128, is_u64 in *. cbn [fst snd].
  rewrite (Z.mod_small (a * b)) by nia. rewrite !to_u64_mod, Z.shiftr_div_pow2 by lia.
  pose proof (Z.div_mod (a * b) (2 ^ 64) ltac:(lia)). pose proof (Z.mod_pos_bound (a * b) (2 ^ 64) ltac:(lia)).
  assert (0 <= a * b / 2 ^ 64 < 2 ^ 64) as Hd by (split; [apply Z.div_pos; nia|apply Z.div_lt_upper_bound; nia]).
  rewrite (Z.mod_small (a * b / 2 ^ 64)) by lia. lia.
Qed.

(** One digit of the long division: dividing [x * 2^32], for [x < d]. *)
Lemma long_division_digit x d : 0 <= x < d -> d < 2 ^ 32 ->
  let s := to_u64 (x << 32) in
  s = x * 2 ^ 32 /\ 0 <= s / d < 2 ^ 32 /\ 0 <= s mod d < d /\ s = d * (s / d) + s mod d.
Proof.
  intros Hx Hd s. assert (s = x * 2 ^ 32) as Es.
  { unfold s. rewrite Z.shiftl_mul_pow2 by lia. apply to_u64_id. unfold is_u64. nia. }
  split; [done|]. split; [split; [apply Z.div_pos; lia|apply Z.div_lt_upper_bound; nia]|].
  split; [apply Z.mod_pos_bound; lia|]. apply Z.div_mod. lia.
Qed.

Lemma mod_high_word k q : 0 <= q < 2 ^ 64 -> (2 ^ 64 * k + q) mod 2 ^ 64 = q.
Proof. intros Hq. rewrite (Z.mul_comm (2 ^ 64)), Z.add_comm, Z.mod_add, Z.mod_small; lia. Qed.

(** [Divide128On32] is the exact division: none of its intermediate sums is
    lost. *)
Lemma Divide128On32_exact x d : is_u64 (fst x) -> is_u64 (snd x) -> 0 < d < 2 ^ 32 ->
  Divide128On32 x d = Some ((value128 x / d) mod 2 ^ 64, value128 x mod d).
Proof.
  destruct x as [l h]. unfold value128. cbn [fst snd]. intros Hl Hh Hd. unfold is_u64 in *. unfold Divide128On32.
  destruct (Z.eqb_spec d 0); [lia|]. destruct (Z.eqb_spec h 0) as [->|Hne].
  { rewrite Z.mul_0_r, Z.add_0_r, (Z.mod_small (l / d)); [done|]. split; [apply Z.div_pos; lia|]. apply Z.div_lt_upper_bound; nia. }
  pose proof (Z.mod_pos_bound h d ltac:(lia)) as Hhm. pose proof (Z.div_mod h d ltac:(lia)) as Eh.
  destruct (long_division_digit (h mod d) d Hhm ltac:(lia)) as (E1 & B1 & R1 & D1).
  set (s1 := to_u64 ((h mod d) << 32)) in *.
  destruct (long_division_digit (s1 mod d) d R1 ltac:(lia)) as (E2 & B2 & R2 & D2).
  set (s2 := to_u64 ((s1 mod d) << 32)) in *.
  pose proof (Z.div_mod l d ltac:(lia)) as El. pose proof (Z.mod_pos_bound l d ltac:(lia)) as Rl.
  assert (0 <= l / d) as Hq by (apply Z.div_pos; lia).
  (* The whole quotient, less the part of the high word that is out of range. *)
  set (q := l / d + (s1 / d) * 2 ^ 32 + s2 / d). set (r := l mod d + s2 mod d).
  assert (l + 2 ^ 64 * h = d * (2 ^ 64 * (h / d) + q) + r) as E by (unfold q, r; nia).
  assert (q * d + r < 2 ^ 64 * d) as Hlt by (unfold q, r in *; nia).
  assert (q < 2 ^ 64) as Hq64 by (unfold r in *; nia).
  assert (0 <= q) by (unfold q; lia).
  rewrite Z.shiftl_mul_pow2 by lia.
  rewrite (to_u64_id (s1 / d * 2 ^ 32)) by (unfold is_u64; lia).
  rewrite (to_u64_id (l / d + s1 / d * 2 ^ 32)) by (unfold is_u64, q in *; lia).
  fold q. rewrite (to_u64_id q) by (unfold is_u64; lia). fold r. rewrite (to_u64_id r) by (unfold is_u64, r in *; lia).
  destruct (Z.leb_spec d r) as [Hr|Hr].
  - assert (q + 1 < 2 ^ 64) by nia. rewrite !to_u64_id by (unfold is_u64, r in *; lia).
    rewrite <- (Z.div_unique (l + 2 ^ 64 * h) d (2 ^ 64 * (h / d) + (q + 1)) (r - d)) by (unfold r in *; lia).
    rewrite <- (Z.mod_unique (l + 2 ^ 64 * h) d (2 ^ 64 * (h / d) + (q + 1)) (r - d)) by (unfold r in *; lia).
    by rewrite mod_high_word by lia.
  - rewrite <- (Z.div_unique (l + 2 ^ 64 * h) d (2 ^ 64 * (h / d) + q) r) by (unfold r in *; lia).
    rewrite <- (Z.mod_unique (l + 2 ^ 64 * h) d (2 ^ 64 * (h / d) + q) r) by (unfold r in *; lia).
    by rewrite mod_high_word by lia.
Qed.

(** Multiplying two 64-bit numbers and dividing the product by a nonzero 32-bit
    number, through the two words and the long division of [Divide128On32],
    gives the quotient of the true 128-bit product, modulo [2^64], and its
    remainder. *)
Theorem multiply_divide_exact a b d : is_u64 a -> is_u64 b -> 0 < d < 2 ^ 32 ->
  Divide128On32 (Multiply64Into128 a b) d = Some ((a * b / d) mod 2 ^ 64, (a * b) mod d).
Proof.
  intros Ha Hb Hd. destruct (Multiply64Into128_exact a b Ha Hb) as (Hl & Hh & E).
  by rewrite Divide128On32_exact, E.
Qed.

Lemma multiply_divide_exact_witness :
  Divide128On32 (Multiply64Into128 (2 ^ 64 - 1) (2 ^ 64 - 1)) (2 ^ 32 - 1)
  = Some (((2 ^ 64 - 1) * (2 ^ 64 - 1) / (2 ^ 32 - 1)) mod 2 ^ 64, ((2 ^ 64 - 1) * (2 ^ 64 - 1)) mod (2 ^ 32 - 1)).
Proof. apply multiply_divide_exact; unfold is_u64; lia. Defined.

(** The version without intrinsics computes the quotient of the product as
    long as the product of the remainders fits. *)
Lemma MultiplyAndDivide64_exact a b d : is_u64 a -> is_u64 b -> 0 < d -> (a mod d) * (b mod d) < 2 ^ 64 ->
  MultiplyAndDivide64 a b d = Some ((a * b / d) mod 2 ^ 64).
Proof.
  intros Ha Hb Hd Hm. unfold MultiplyAndDivide64. destruct (Z.eqb_spec d 0); [lia|]. f_equal.
  pose proof (Z.div_mod a d ltac:(lia)) as Ea. pose proof (Z.div_mod b d ltac:(lia)) as Eb.
  pose proof (Z.mod_pos_bound a d Hd). pose proof (Z.mod_pos_bound b d Hd).
  set (p := a / d) in *. set (q := a mod d) in *. set (r := b / d) in *. set (s := b mod d) in *.
  rewrite (to_u64_id (q * s)) by (unfold is_u64; nia). rewrite !to_u64_mod, <- Z.add_mod, Z.add_mod_idemp_l by lia.
  f_equal. assert (a * b = q * s + (p * b + q * r) * d) as -> by (rewrite Eb at 1; rewrite Ea at 1; rewrite Eb; ring).
  rewrite Z.div_add by lia. lia.
Qed.

(** Otherwise it is not the quotient, where the version with intrinsics is. *)
Lemma MultiplyAndDivide64_inexact :
  let a := 2 ^ 63 in let b := 2 ^ 63 in let d := 2 ^ 64 - 1 in
  MultiplyAndDivide64 a b d = Some 0 /\ a * b / d = 2 ^ 62.
Proof. split; reflexivity. Qed.
