(* ===== verification/CoreTimingUtil.v ===== *)
(** * Times and cycles

    [src/src/core/core_timing_util.cpp]: conversions between durations and
    cycles of the emulated processor ([BASE_CLOCK_RATE]) or of its clock
    ([CNTFREQ]).  A duration is the [s64] count of its unit.  The divisors are
    nonzero literals, so the quotients are always there. *)

From S2P Require Import Prelude Uint128.
Import Uint128.
Open Scope Z_scope.
Open Scope c_scope.

Module CoreTimingUtil.

Definition BASE_CLOCK_RATE : Z := 1019215872.
Definition CNTFREQ : Z := 19200000.
Definition s64_max : Z := 2 ^ 63 - 1.
Definition MAX_VALUE_TO_MULTIPLY : Z := s64_max / BASE_CLOCK_RATE.

(** [msToCycles] and [usToCycles] are the same code for two units; signed
    division truncates, the products are unsigned. *)
Definition unitToCycles (per_second count : Z) : Z :=
  if MAX_VALUE_TO_MULTIPLY <? to_u64 (Z.quot count per_second) then s64_max
  else if MAX_VALUE_TO_MULTIPLY <? to_u64 count then to_s64 (to_u64 (BASE_CLOCK_RATE * to_u64 (Z.quot count per_second)))
  else to_s64 (to_u64 (BASE_CLOCK_RATE * to_u64 count) / per_second).
Definition msToCycles (ms : Z) : Z := unitToCycles 1000 ms.
Definition usToCycles (us : Z) : Z := unitToCycles 1000000 us.

(** [Divide128On32(Multiply64Into128(a, b), d).first]; the first argument is
    converted to [u64]. *)
Definition scale (a b d : Z) : Z := default 0 (fst <$> Divide128On32 (Multiply64Into128 (to_u64 a) b) d).

Definition nsToCycles (ns : Z) : Z := to_s64 (scale ns BASE_CLOCK_RATE 1000000000).
Definition msToClockCycles (ns : Z) : Z := scale ns CNTFREQ 1000.
Definition usToClockCycles (ns : Z) : Z := scale ns CNTFREQ 1000000.
Definition nsToClockCycles (ns : Z) : Z := scale ns CNTFREQ 1000000000.
Definition CpuCyclesToClockCycles (ticks : Z) : Z := scale ticks CNTFREQ BASE_CLOCK_RATE.
Definition CyclesToMs (cycles : Z) : Z := to_s64 (scale cycles 1000 BASE_CLOCK_RATE).
Definition CyclesToNs (cycles : Z) : Z := to_s64 (scale cycles 1000000000 BASE_CLOCK_RATE).
Definition CyclesToUs (cycles : Z) : Z := to_s64 (scale cycles 1000000 BASE_CLOCK_RATE).

End CoreTimingUtil.
Import CoreTimingUtil.

Lemma scale_exact a b d : is_u64 b -> 0 < d < 2 ^ 32 -> scale a b d = (to_u64 a * b / d) mod 2 ^ 64.
Proof.
  intros Hb Hd. unfold scale. pose proof (to_u64_range a) as Ha.
  destruct (Multiply64Into128_exact (to_u64 a) b Ha Hb) as (Hl & Hh & E).
  by rewrite Divide128On32_exact, E.
Qed.

(** A nonnegative time whose scaled value fits is scaled exactly. *)
Lemma scale_small a b d : is_u64 b -> 0 < d < 2 ^ 32 -> 0 <= a < 2 ^ 64 -> a * b / d < 2 ^ 63 ->
  scale a b d = a * b / d /\ to_s64 (scale a b d) = a * b / d.
Proof.
  intros Hb Hd Ha Hq. unfold is_u64 in Hb. assert (0 <= a * b / d) by (apply Z.div_pos; nia).
  assert (scale a b d = a * b / d) as E by (rewrite scale_exact, to_u64_id, Z.mod_small by (done || unfold is_u64; lia); done).
  split; [done|]. rewrite E. apply to_s64_id. unfold is_s64. lia.
Qed.

Lemma CyclesToNs_exact c : 0 <= c < 2 ^ 63 -> CyclesToNs c = c * 1000000000 / BASE_CLOCK_RATE.
Proof.
  intros Hc. apply scale_small; unfold is_u64, BASE_CLOCK_RATE; zlia.
Qed.

Lemma nsToCycles_exact ns : 0 <= ns < 2 ^ 62 -> nsToCycles ns = ns * BASE_CLOCK_RATE / 1000000000.
Proof.
  intros Hc. apply scale_small; unfold is_u64, BASE_CLOCK_RATE; zlia.
Qed.

Lemma CyclesToNs_mono c c' : 0 <= c <= c' -> c' < 2 ^ 63 -> CyclesToNs c <= CyclesToNs c'.
Proof. intros Hc Hc'. rewrite !CyclesToNs_exact by lia. apply Z.div_le_mono; unfold BASE_CLOCK_RATE; lia. Qed.

(** Ten more cycles than the conversion of a time pass that time. *)
Lemma cycles_reach ns c : 0 <= ns < 2 ^ 62 -> nsToCycles ns + 10 <= c -> c < 2 ^ 63 -> ns <= CyclesToNs c.
Proof.
  intros Hn Hc Hc'. rewrite nsToCycles_exact in Hc by done.
  rewrite CyclesToNs_exact by (split; [pose proof (Z.div_pos (ns * BASE_CLOCK_RATE) 1000000000)|]; unfold BASE_CLOCK_RATE in *; lia).
  unfold BASE_CLOCK_RATE in *. apply Z.div_le_lower_bound; [lia|].
  pose proof (Z.mod_pos_bound (ns * 1019215872) 1000000000 ltac:(lia)).
  pose proof (Z.div_mod (ns * 1019215872) 1000000000 ltac:(lia)). lia.
Qed.

(** Converting a time to cycles and back loses at most one nanosecond and never
    adds one, and converting cycles to a time and back loses at most two
    cycles; both conversions are the exact products rounded down. *)
Theorem cycles_ns_roundtrip :
  (forall ns, 0 <= ns < 2 ^ 62 ->
     nsToCycles ns = ns * BASE_CLOCK_RATE / 1000000000 /\ ns - 1 <= CyclesToNs (nsToCycles ns) <= ns)
  /\ (forall c, 0 <= c < 2 ^ 62 ->
     CyclesToNs c = c * 1000000000 / BASE_CLOCK_RATE /\ c - 2 <= nsToCycles (CyclesToNs c) <= c).
Proof.
  unfold BASE_CLOCK_RATE. split; intros x Hx.
  - pose proof (nsToCycles_exact x Hx) as E. unfold BASE_CLOCK_RATE in E. split; [done|]. rewrite E.
    rewrite CyclesToNs_exact by (split; [apply Z.div_pos; lia|apply Z.div_lt_upper_bound; lia]). unfold BASE_CLOCK_RATE. zlia.
  - pose proof (CyclesToNs_exact x ltac:(lia)) as E. unfold BASE_CLOCK_RATE in E. split; [done|]. rewrite E.
    rewrite nsToCycles_exact by (split; [apply Z.div_pos; lia|apply Z.div_lt_upper_bound; lia]). unfold BASE_CLOCK_RATE. zlia.
Qed.

(** [msToCycles] and [usToCycles] of a nonnegative time: exact while the
    product fits, whole seconds after that, and the largest [s64] at the end. *)
Lemma unitToCycles_spec per_second t : 0 < per_second -> 0 <= t < 2 ^ 63 ->
  unitToCycles per_second t =
    if t <=? MAX_VALUE_TO_MULTIPLY then BASE_CLOCK_RATE * t / per_second
    else if t / per_second <=? MAX_VALUE_TO_MULTIPLY then BASE_CLOCK_RATE * (t / per_second)
    else s64_max.
Proof.
  intros Hp Ht. unfold unitToCycles. rewrite Z.quot_div_nonneg by lia.
  assert (0 <= t / per_second <= t) as Hq by (split; [apply Z.div_pos; lia|apply Z.div_le_upper_bound; nia]).
  rewrite !(to_u64_id (t / per_second)), !(to_u64_id t) by (unfold is_u64; lia).
  change MAX_VALUE_TO_MULTIPLY with 9049478417. unfold BASE_CLOCK_RATE.
  destruct (Z.ltb_spec 9049478417 (t / per_second)), (Z.leb_spec t 9049478417), (Z.ltb_spec 9049478417 t),
    (Z.leb_spec (t / per_second) 9049478417); try lia.
  - rewrite to_u64_id by (unfold is_u64; lia).
    pose proof (Z.div_pos (1019215872 * t) per_second). pose proof (Z.div_le_upper_bound (1019215872 * t) per_second (1019215872 * t)).
    apply to_s64_id. unfold is_s64. nia.
  - rewrite to_u64_id by (unfold is_u64; lia). apply to_s64_id. unfold is_s64. lia.
Qed.

(** A negative time of a second or more becomes the largest number of cycles,
    a shorter one becomes none. *)
Lemma ms_to_cycles_negative : msToCycles (-1000) = s64_max /\ msToCycles (-999) = 0.
Proof. split; reflexivity. Qed.
