(* ===== verification/WallClock.v ===== *)
(** * The clocks of the host

    [Common::WallClock] and its two implementations: [StandardWallClock]
    ([src/src/common/wall_clock.cpp]) over the steady clock of the standard
    library and [NativeClock] ([src/src/common/x64/native_clock.cpp]) over the
    time stamp counter.  The value the steady clock or the counter returns is
    an argument of each call.  [Clock] is the interface core timing reads. *)

From S2P Require Import Prelude Uint128 CoreTimingUtil.
Import Uint128.
From stdpp Require Import base list sorting.
Open Scope Z_scope.
Open Scope c_scope.

Module WallClock.

(** ** [StandardWallClock] *)

Record StandardWallClock := { std_cpu_frequency : Z; std_clock_frequency : Z; start_time : Z }.

(** [current] is [base_timer::now()], in nanoseconds. *)
Definition Std_GetTimeNS (c : StandardWallClock) (current : Z) : Z := current - start_time c.
Definition Std_GetTimeUS (c : StandardWallClock) (current : Z) : Z := Z.quot (current - start_time c) 1000.
Definition Std_GetTimeMS (c : StandardWallClock) (current : Z) : Z := Z.quot (current - start_time c) 1000000.
Definition Std_GetClockCycles (c : StandardWallClock) (current : Z) : Z :=
  CoreTimingUtil.scale (Std_GetTimeNS c current) (std_clock_frequency c) 1000000000.
Definition Std_GetCPUCycles (c : StandardWallClock) (current : Z) : Z :=
  CoreTimingUtil.scale (Std_GetTimeNS c current) (std_cpu_frequency c) 1000000000.

(** ** [NativeClock] *)

Record NativeClock := {
  emulated_cpu_frequency : Z;
  emulated_clock_frequency : Z;
  rtsc_frequency : Z;
  last_measure : Z;
  accumulated_ticks : Z;
}.

Definition set_measure (c : NativeClock) (last accumulated : Z) : NativeClock :=
  {| emulated_cpu_frequency := emulated_cpu_frequency c; emulated_clock_frequency := emulated_clock_frequency c;
     rtsc_frequency := rtsc_frequency c; last_measure := last; accumulated_ticks := accumulated |}.

(** The constructor; [tsc] is [__rdtsc()]. *)
Definition NativeClock_new (cpu clock rtsc tsc : Z) : NativeClock :=
  {| emulated_cpu_frequency := cpu; emulated_clock_frequency := clock; rtsc_frequency := rtsc;
     last_measure := tsc; accumulated_ticks := 0 |}.

(** [~(0x400 - 1)], as a [u64]. *)
Definition inaccuracy_mask : Z := to_u64 (Z.lnot (0x400 - 1)).

Definition GetRTSC (c : NativeClock) (current_measure : Z) : NativeClock * Z :=
  let diff := to_u64 (current_measure - last_measure c) in
  let diff := diff .& to_u64 (Z.lnot (to_u64 (to_s64 diff >> 63))) in
  let last := if last_measure c <? current_measure then current_measure else last_measure c in
  let accumulated := to_u64 (accumulated_ticks c + diff) in
  (set_measure c last accumulated, accumulated .& inaccuracy_mask).

Definition Pause (c : NativeClock) (is_paused : bool) (tsc : Z) : NativeClock :=
  if is_paused then c else set_measure c tsc (accumulated_ticks c).

(** The readings: all scale the counter. *)
Definition scaled_rtsc (factor : NativeClock -> Z) (c : NativeClock) (tsc : Z) : option (NativeClock * Z) :=
  let '(c', rtsc_value) := GetRTSC c tsc in
  v ← MultiplyAndDivide64 rtsc_value (factor c') (rtsc_frequency c'); Some (c', v).
Definition GetTimeNS : NativeClock -> Z -> option (NativeClock * Z) := scaled_rtsc (fun _ => 1000000000).
Definition GetTimeUS : NativeClock -> Z -> option (NativeClock * Z) := scaled_rtsc (fun _ => 1000000).
Definition GetTimeMS : NativeClock -> Z -> option (NativeClock * Z) := scaled_rtsc (fun _ => 1000).
Definition GetClockCycles : NativeClock -> Z -> option (NativeClock * Z) := scaled_rtsc emulated_clock_frequency.
Definition GetCPUCycles : NativeClock -> Z -> option (NativeClock * Z) := scaled_rtsc emulated_cpu_frequency.

(** A use of the clock: readings and pauses, each with the value of the
    counter at that point; the readings in nanoseconds are the result. *)
Inductive Use := ReadNS (tsc : Z) | SetPaused (is_paused : bool) (tsc : Z).

Fixpoint use_clock (c : NativeClock) (uses : list Use) : option (NativeClock * list Z) :=
  match uses with
  | [] => Some (c, [])
  | ReadNS tsc :: uses => '(c, t) ← GetTimeNS c tsc; '(c, ts) ← use_clock c uses; Some (c, t :: ts)
  | SetPaused is_paused tsc :: uses => use_clock (Pause c is_paused tsc) uses
  end.

End WallClock.
Import WallClock.

(** ** The native clock *)

(** The mask of the sign keeps a positive difference and drops a negative one. *)
Lemma mask_diff x : is_u64 x -> x .& to_u64 (Z.lnot (to_u64 (to_s64 x >> 63))) = if x <? 2 ^ 63 then x else 0.
Proof.
  intros Hx. unfold is_u64 in Hx. unfold to_s64. rewrite (to_u64_id x) by done. destruct (Z.ltb_spec x (2 ^ 63)).
  - replace (x >> 63) with 0 by (rewrite Z.shiftr_div_pow2, Z.div_small by lia; done).
    change (to_u64 (Z.lnot (to_u64 0))) with (Z.ones 64). rewrite Z.land_ones, Z.mod_small by lia. done.
  - replace ((x - 2 ^ 64) >> 63) with (-1) by (rewrite Z.shiftr_div_pow2 by lia; zlia).
    change (to_u64 (Z.lnot (to_u64 (-1)))) with 0. apply Z.land_0_r.
Qed.

(** The mask of [GetRTSC] rounds down to a multiple of 1024. *)
Lemma inaccuracy_rounds x : is_u64 x -> x .& inaccuracy_mask = x / 1024 * 1024.
Proof.
  intros Hx. change inaccuracy_mask with (Z.ones 54 << 10). change 1024 with (2 ^ 10).
  rewrite <- (Z.shiftr_div_pow2 x 10), <- (Z.shiftl_mul_pow2 _ 10) by lia.
  apply Z.bits_inj'. intros n Hn. rewrite Z.land_spec. destruct (Z.lt_ge_cases n 10).
  { rewrite !Z.shiftl_spec_low by done. apply andb_false_r. }
  rewrite !Z.shiftl_spec, Z.shiftr_spec by lia. replace (n - 10 + 10) with n by lia.
  destruct (Z.lt_ge_cases n 64); [rewrite Z.ones_spec_low by lia; apply andb_true_r|].
  rewrite (testbit_high 64) by (done || lia). done.
Qed.

(** The counter never goes back, also when the time stamps do. *)
Lemma GetRTSC_spec c tsc M : 0 <= last_measure c < M -> 0 <= tsc < M -> M <= 2 ^ 63 ->
  0 <= accumulated_ticks c -> accumulated_ticks c + M < 2 ^ 64 ->
  let acc := accumulated_ticks c + Z.max 0 (tsc - last_measure c) in
  GetRTSC c tsc = (set_measure c (Z.max (last_measure c) tsc) acc, acc / 1024 * 1024).
Proof.
  intros Hl Ht HM Ha Hb acc. unfold GetRTSC. rewrite mask_diff by apply to_u64_range.
  assert ((if to_u64 (tsc - last_measure c) <? 2 ^ 63 then to_u64 (tsc - last_measure c) else 0)
          = Z.max 0 (tsc - last_measure c)) as ->.
  { rewrite to_u64_mod. destruct (Z.ltb_spec ((tsc - last_measure c) mod 2 ^ 64) (2 ^ 63)); zlia. }
  rewrite to_u64_id by (unfold is_u64; lia). fold acc.
  rewrite inaccuracy_rounds by (unfold is_u64, acc; lia). f_equal. f_equal.
  destruct (Z.ltb_spec (last_measure c) tsc); lia.
Qed.

Definition use_tsc (u : Use) : Z := match u with ReadNS t => t | SetPaused _ t => t end.

(** Every reading from a state is at least a time the state already passed. *)
Lemma use_clock_sorted c uses M :
  0 < rtsc_frequency c <= 2 ^ 34 -> 0 <= last_measure c < M -> M <= 2 ^ 63 -> Forall (fun u => 0 <= use_tsc u < M) uses ->
  0 <= accumulated_ticks c -> accumulated_ticks c + M * (Z.of_nat (length uses) + 1) <= 2 ^ 29 * rtsc_frequency c ->
  exists c' ts, use_clock c uses = Some (c', ts) /\ StronglySorted Z.le ts
    /\ Forall (fun t => accumulated_ticks c / 1024 * 1024 * 1000000000 / rtsc_frequency c <= t) ts.
Proof.
  intros Hf. revert c Hf. induction uses as [|u uses IH]; intros c Hf Hl HM Hu Ha Hb.
  { exists c, []. split; [done|]. split; constructor. }
  inversion Hu as [|? ? Ht Hu']; subst. cbn [length] in Hb.
  rewrite Nat2Z.inj_succ, Z.add_succ_l, Z.mul_succ_r in Hb. assert (0 <= M * (Z.of_nat (length uses) + 1)) by nia. destruct u as [tsc|is_paused tsc]; cbn [use_tsc] in Ht; cbn [use_clock].
  - unfold GetTimeNS, scaled_rtsc. rewrite (GetRTSC_spec c tsc M) by lia.
    set (acc := accumulated_ticks c + Z.max 0 (tsc - last_measure c)).
    assert (accumulated_ticks c <= acc /\ acc <= accumulated_ticks c + M) as Hacc by lia.
    set (r := acc / 1024 * 1024). set (f := rtsc_frequency c) in *. cbn [set_measure rtsc_frequency]. fold f.
    assert (0 <= r <= acc) as Hr by (unfold r; zlia).
    assert (r <= 2 ^ 29 * f) as Hrf by nia.
    rewrite MultiplyAndDivide64_exact; cycle 1; [unfold is_u64; nia|unfold is_u64; lia|lia| |].
    { pose proof (Z.mod_pos_bound r f ltac:(lia)). pose proof (Z.mod_le 1000000000 f ltac:(lia) ltac:(lia)).
      pose proof (Z.mod_pos_bound 1000000000 f ltac:(lia)). nia. }
    assert (0 <= r * 1000000000 / f <= 2 ^ 29 * 1000000000) as Hq.
    { split; [apply Z.div_pos; lia|apply Z.div_le_upper_bound; nia]. }
    rewrite Z.mod_small by lia. cbn [mbind option_bind].
    destruct (IH (set_measure c (Z.max (last_measure c) tsc) acc)) as (c' & ts & E & Hs & Hall);
      cbn [set_measure rtsc_frequency last_measure accumulated_ticks]; try done; try lia.
    cbn [set_measure rtsc_frequency accumulated_ticks] in Hall. fold f r in Hall.
    rewrite E. cbn [mbind option_bind]. exists c', (r * 1000000000 / f :: ts). split; [done|].
    assert (accumulated_ticks c / 1024 * 1024 * 1000000000 / f <= r * 1000000000 / f) as Hle.
    { apply Z.div_le_mono; [lia|]. apply Z.mul_le_mono_nonneg_r; [lia|]. apply Z.mul_le_mono_nonneg_r; [lia|]. apply Z.div_le_mono; lia. }
    split; constructor; try done. eapply Forall_impl; [exact Hall|]. cbn. lia.
  - destruct is_paused; [apply IH; try done; lia|].
    destruct (IH (Pause c false tsc)) as (c' & ts & E & Hs & Hall); cbn; try done; lia || eauto.
Qed.

(** The native clock never goes backwards: whatever the time stamps of the
    processor (also when they decrease, as they may from core to core) and
    however the clock is paused, its readings in nanoseconds are in order. *)
Theorem native_clock_monotone cpu clock rtsc tsc uses M :
  0 < rtsc <= 2 ^ 34 -> M <= 2 ^ 63 -> 0 <= tsc < M -> Forall (fun u => 0 <= use_tsc u < M) uses ->
  M * (Z.of_nat (length uses) + 1) <= 2 ^ 29 * rtsc ->
  exists c' ts, use_clock (NativeClock_new cpu clock rtsc tsc) uses = Some (c', ts) /\ StronglySorted Z.le ts.
Proof.
  intros Hf HM Ht Hu Hb. destruct (use_clock_sorted (NativeClock_new cpu clock rtsc tsc) uses M) as (c' & ts & E & Hs & _);
    cbn; try done; eauto.
Qed.

Lemma native_clock_monotone_witness : exists c' ts,
  use_clock (NativeClock_new 1019215872 19200000 3000000000 5000) [ReadNS 9000000; ReadNS 8000; SetPaused false 4000; ReadNS 9000000]
  = Some (c', ts) /\ StronglySorted Z.le ts.
Proof.
  apply (native_clock_monotone _ _ _ _ _ 10000000); [lia|lia|lia| |simpl; lia].
  repeat constructor; simpl; lia.
Defined.

Example native_clock_readings :
  snd <$> use_clock (NativeClock_new 1019215872 19200000 1000000000 0)
    [ReadNS 5000; ReadNS 3000; SetPaused true 6000; SetPaused false 90000; ReadNS 92000] = Some [4096; 4096; 6144].
Proof. reflexivity. Qed.
