(* ===== verification/CoreTiming.v ===== *)
(** * Core timing

    [Core::Timing::CoreTiming] ([src/src/core/core_timing.cpp], [.h]): a heap
    of events of the emulated machine, the tick counter of the single-core
    mode, and the flags through which other threads control the timer thread
    (the thread itself is in [CoreTimingThread]).

    What the class takes from outside is an interface: the heap algorithms of
    the standard library ([HeapAlgorithms], with the contract the C++ standard
    gives them in [HeapContract]), and the readings of the host clock and the
    liveness of shared pointers at a point of the run ([Host]).  An event type
    is the number of its object; [std::weak_ptr] may be null or expired. *)

From S2P Require Import Prelude CoreTimingUtil.
Import CoreTimingUtil.
From stdpp Require Import base list sorting.
Open Scope Z_scope.
Open Scope c_scope.

(** ** The heap algorithms of the standard library *)

Module Heap.

(** [std::is_heap]: no element compares greater than one below it. *)
Definition is_heap {A} (comp : A -> A -> bool) (l : list A) : Prop :=
  forall i x y, (0 < i)%nat -> l !! ((i - 1) / 2)%nat = Some x -> l !! i = Some y -> comp x y = false.

Class HeapAlgorithms (A : Type) (comp : A -> A -> bool) := {
  push_heap : list A -> list A;
  pop_heap : list A -> list A;
  make_heap : list A -> list A;
}.

Class HeapContract (A : Type) (comp : A -> A -> bool) {H : HeapAlgorithms A comp} : Prop := {
  push_heap_contract l x : is_heap comp l ->
    is_heap comp (push_heap (l ++ [x])) /\ push_heap (l ++ [x]) ≡ₚ l ++ [x];
  pop_heap_contract x l : is_heap comp (x :: l) ->
    exists l', pop_heap (x :: l) = l' ++ [x] /\ is_heap comp l' /\ l' ≡ₚ l;
  make_heap_contract l : is_heap comp (make_heap l) /\ make_heap l ≡ₚ l;
}.
End Heap.
Export Heap.

Module CoreTiming.

Definition MAX_SLICE_LENGTH : Z := 4000.

Record Event := { time : Z; fifo_order : Z; userdata : Z; type : option nat }.

(** [operator>] and [operator<]: by time, then by the order of insertion. *)
Definition event_gt (left right : Event) : bool :=
  (time right <? time left) || ((time left =? time right) && (fifo_order right <? fifo_order left)).
Definition event_lt (left right : Event) : bool :=
  (time left <? time right) || ((time left =? time right) && (fifo_order left <? fifo_order right)).

(** The flags shared with the timer thread, with the state of the two
    [Common::Event]s and whether the thread exists. *)
Record Control := {
  paused : bool; paused_set : bool; wait_set : bool; shutting_down : bool; has_started : bool;
  event_set : bool; pause_event_set : bool; timer_thread : bool;
}.

Record CoreTiming := {
  global_timer : Z; event_queue : list Event; event_fifo_id : Z;
  is_multicore : bool; ticks : Z; downcount : Z; control : Control;
}.

Definition CoreTiming_new : CoreTiming :=
  {| global_timer := 0; event_queue := []; event_fifo_id := 0; is_multicore := false; ticks := 0; downcount := 0;
     control := {| paused := false; paused_set := false; wait_set := false; shutting_down := false;
                   has_started := false; event_set := false; pause_event_set := false; timer_thread := false |} |}.

Definition set_timer (c : CoreTiming) (v : Z) : CoreTiming :=
  {| global_timer := v; event_queue := event_queue c; event_fifo_id := event_fifo_id c;
     is_multicore := is_multicore c; ticks := ticks c; downcount := downcount c; control := control c |}.
Definition set_queue (c : CoreTiming) (q : list Event) (id : Z) : CoreTiming :=
  {| global_timer := global_timer c; event_queue := q; event_fifo_id := id;
     is_multicore := is_multicore c; ticks := ticks c; downcount := downcount c; control := control c |}.
Definition set_ticks (c : CoreTiming) (t d : Z) : CoreTiming :=
  {| global_timer := global_timer c; event_queue := event_queue c; event_fifo_id := event_fifo_id c;
     is_multicore := is_multicore c; ticks := t; downcount := d; control := control c |}.
Definition set_control (c : CoreTiming) (k : Control) : CoreTiming :=
  {| global_timer := global_timer c; event_queue := event_queue c; event_fifo_id := event_fifo_id c;
     is_multicore := is_multicore c; ticks := ticks c; downcount := downcount c; control := k |}.

(** [event.Set()]. *)
Definition event_Set (k : Control) : Control :=
  {| paused := paused k; paused_set := paused_set k; wait_set := wait_set k; shutting_down := shutting_down k;
     has_started := has_started k; event_set := true; pause_event_set := pause_event_set k; timer_thread := timer_thread k |}.

Definition SetMulticore (c : CoreTiming) (b : bool) : CoreTiming :=
  {| global_timer := global_timer c; event_queue := event_queue c; event_fifo_id := event_fifo_id c;
     is_multicore := b; ticks := ticks c; downcount := downcount c; control := control c |}.
Definition IsHostTiming (c : CoreTiming) : bool := is_multicore c.
Definition IsRunning (c : CoreTiming) : bool := negb (paused_set (control c)).
Definition HasStarted (c : CoreTiming) : bool := has_started (control c).
Definition HasPendingEvents (c : CoreTiming) : bool :=
  negb (wait_set (control c) && match event_queue c with [] => true | _ => false end).
Definition GetDowncount (c : CoreTiming) : Z := downcount c.

(** [Initialize]: the lost event, which is never scheduled, is left out. *)
Definition Initialize (c : CoreTiming) : CoreTiming :=
  let k := control c in
  {| global_timer := global_timer c; event_queue := event_queue c; event_fifo_id := 0;
     is_multicore := is_multicore c; ticks := 0; downcount := downcount c;
     control := {| paused := paused k; paused_set := paused_set k; wait_set := wait_set k; shutting_down := false;
                   has_started := has_started k; event_set := event_set k; pause_event_set := pause_event_set k;
                   timer_thread := is_multicore c || timer_thread k |} |}.

Definition ClearPendingEvents (c : CoreTiming) : CoreTiming := set_queue c [] (event_fifo_id c).

Definition AddTicks (c : CoreTiming) (t : Z) : CoreTiming :=
  set_ticks c (to_u64 (ticks c + t)) (to_s64 (downcount c - t)).

Definition ResetTicks (c : CoreTiming) : CoreTiming := set_ticks c (ticks c) MAX_SLICE_LENGTH.

(** [Idle]; the sum with [10U] is signed. *)
Definition Idle (c : CoreTiming) : option CoreTiming :=
  match event_queue c with
  | front :: _ =>
      next_ticks ← add_s64 (nsToCycles (to_s64 (time front))) 10;
      let next_ticks := to_u64 next_ticks in
      Some (if ticks c <? next_ticks then set_ticks c next_ticks (downcount c) else c)
  | [] => Some (set_ticks c (to_u64 (ticks c + 1000)) (downcount c))
  end.

(** ** What the host provides *)
Class Host (W : Type) := {
  clock_ns : W -> Z;       (* [clock->GetTimeNS()] *)
  clock_us : W -> Z;       (* [clock->GetTimeUS()] *)
  clock_cycles : W -> Z;   (* [clock->GetClockCycles()] *)
  clock_cpu : W -> Z;      (* [clock->GetCPUCycles()] *)
  alive : W -> nat -> bool (* whether an event type still has an owner *)
}.

Section Operations.
Context {W : Type} `{Host W} `{!HeapAlgorithms Event event_gt}.
Implicit Types (w : W) (c : CoreTiming).

Definition GetCPUTicks w c : Z := if is_multicore c then clock_cpu w else ticks c.
Definition GetClockTicks w c : Z := if is_multicore c then clock_cycles w else CpuCyclesToClockCycles (ticks c).
Definition GetGlobalTimeNs w c : Z := if is_multicore c then clock_ns w else CyclesToNs (to_s64 (ticks c)).
Definition GetGlobalTimeUs w c : Z := if is_multicore c then clock_us w else CyclesToUs (to_s64 (ticks c)).

(** [type.lock().get()]. *)
Definition lock w (t : option nat) : option nat := id ← t; if alive w id then Some id else None.

(** The event [ScheduleEvent] adds. *)
Definition new_event w c (ns_into_future : Z) (event_type : option nat) (userdata : Z) : option Event :=
  timeout ← add_s64 (GetGlobalTimeNs w c) ns_into_future;
  Some {| time := to_u64 timeout; fifo_order := event_fifo_id c; userdata := userdata; type := event_type |}.

Definition ScheduleEvent w c (ns_into_future : Z) (event_type : option nat) (userdata : Z) : option CoreTiming :=
  e ← new_event w c ns_into_future event_type userdata;
  let c := set_queue c (push_heap (event_queue c ++ [e])) (to_u64 (event_fifo_id c + 1)) in
  Some (set_control c (event_Set (control c))).

(** [std::remove_if], and a new heap when something was removed. *)
Definition remove_events (p : Event -> bool) (q : list Event) : list Event :=
  let kept := List.filter (fun e => negb (p e)) q in
  if (length kept =? length q)%nat then q else make_heap kept.

Definition is_type w (event_type : option nat) (e : Event) : bool := bool_decide (lock w (type e) = event_type).

Definition UnscheduleEvent w c (event_type : option nat) (data : Z) : CoreTiming :=
  set_queue c (remove_events (fun e => is_type w event_type e && (userdata e =? data)) (event_queue c)) (event_fifo_id c).

Definition RemoveEvent w c (event_type : option nat) : CoreTiming :=
  set_queue c (remove_events (is_type w event_type) (event_queue c)) (event_fifo_id c).

(** ** [Advance]

    [global_timer = GetGlobalTimeNs().count()]. *)
Definition read_timer w c : CoreTiming := set_timer c (to_u64 (GetGlobalTimeNs w c)).

(** The test of the loop and the removal of the front. *)
Definition pop_due c : option (Event * CoreTiming) :=
  match event_queue c with
  | front :: _ =>
      if time front <=? global_timer c
      then Some (front, set_queue c (removelast (pop_heap (event_queue c))) (event_fifo_id c))
      else None
  | [] => None
  end.

(** What a callback, or another thread while the lock is released, may do to
    core timing. *)
Inductive TimingOp :=
  | OpSchedule (ns_into_future : Z) (event_type : option nat) (userdata : Z)
  | OpUnschedule (event_type : option nat) (userdata : Z)
  | OpRemove (event_type : option nat)
  | OpAddTicks (ticks : Z)
  | OpResetTicks
  | OpIdle.

Definition run_op w c (op : TimingOp) : option CoreTiming :=
  match op with
  | OpSchedule ns t d => ScheduleEvent w c ns t d
  | OpUnschedule t d => Some (UnscheduleEvent w c t d)
  | OpRemove t => Some (RemoveEvent w c t)
  | OpAddTicks t => Some (AddTicks c t)
  | OpResetTicks => Some (ResetTicks c)
  | OpIdle => Idle c
  end.

Fixpoint run_ops c (ops : list (W * TimingOp)) : option CoreTiming :=
  match ops with
  | [] => Some c
  | (w, op) :: ops => c ← run_op w c op; run_ops c ops
  end.

(** A popped event, how late it was, and the type whose callback was called. *)
Record Fired := { f_event : Event; f_late : Z; f_called : option nat }.

(** What a callback does: operations at points of the run, and the point at
    which it returns. *)
Context (callback : W -> CoreTiming -> nat -> Z -> Z -> list (W * TimingOp) * W).

Fixpoint advance_loop (fuel : nat) w c : option (W * CoreTiming * list Fired) :=
  match fuel with
  | O => None
  | S fuel =>
      match pop_due c with
      | None => Some (w, c, [])
      | Some (evt, c) =>
          let ns_late := to_s64 (to_u64 (global_timer c - time evt)) in
          let called := lock w (type evt) in
          let '(ops, w) := match called with
                           | Some id => callback w c id (userdata evt) ns_late
                           | None => ([], w)
                           end in
          c ← run_ops c ops;
          '(w, c, rest) ← advance_loop fuel w (read_timer w c);
          Some (w, c, {| f_event := evt; f_late := ns_late; f_called := called |} :: rest)
      end
  end.

Definition Advance (fuel : nat) w c : option (W * CoreTiming * list Fired * option Z) :=
  '(w, c, fired) ← advance_loop fuel w (read_timer w c);
  Some (w, c, fired,
        match event_queue c with
        | front :: _ => Some (to_s64 (to_u64 (time front - global_timer c)))
        | [] => None
        end).
End Operations.
End CoreTiming.
