(* ===== verification/CoreTimingCorrect.v ===== *)
(** * Core timing: proofs

    The order of events, the heap as a priority queue, the history of a run
    (any threads calling the operations and [Advance] popping events, each
    under the lock) and [Advance] with its callbacks in single-core mode. *)

From S2P Require Import Prelude CoreTimingUtil CoreTiming.
Import CoreTimingUtil CoreTiming.
From stdpp Require Import base list sorting relations.
Open Scope Z_scope.
Open Scope c_scope.

(** ** The order of events *)

Lemma event_gt_false a b : event_gt a b = false <-> time a < time b \/ (time a = time b /\ fifo_order a <= fifo_order b).
Proof.
  unfold event_gt. destruct (Z.ltb_spec (time b) (time a)), (Z.eqb_spec (time a) (time b)),
    (Z.ltb_spec (fifo_order b) (fifo_order a)); simpl; lia || (split; [done|lia]).
Qed.

Lemma event_lt_true a b : event_lt a b = true <-> time a < time b \/ (time a = time b /\ fifo_order a < fifo_order b).
Proof.
  unfold event_lt. destruct (Z.ltb_spec (time a) (time b)), (Z.eqb_spec (time a) (time b)),
    (Z.ltb_spec (fifo_order a) (fifo_order b)); simpl; lia || (split; [done|lia]).
Qed.

(** [a] fires no later than [b]. *)
Definition ele (a b : Event) : Prop := event_gt a b = false.
#[export] Instance ele_dec : RelDecision ele.
Proof. intros a b. unfold ele. apply _. Defined.
#[export] Instance ele_trans : Transitive ele.
Proof. intros a b c. unfold ele. rewrite !event_gt_false. lia. Qed.
#[export] Instance ele_total : Total ele.
Proof. intros a b. unfold ele. rewrite !event_gt_false. lia. Qed.

(** [a] fires before [b]. *)
Definition elt (a b : Event) : Prop := event_lt a b = true.

Lemma elt_of_ele a b : ele a b -> fifo_order a <> fifo_order b -> elt a b.
Proof. unfold ele, elt. rewrite event_gt_false, event_lt_true. lia. Qed.

(** ** Heaps *)

(** The front of a heap is a least element. *)
Lemma heap_front x l : is_heap event_gt (x :: l) -> Forall (ele x) (x :: l).
Proof.
  intros Hh. apply Forall_lookup. intros i. induction i as [i IH] using lt_wf_ind. intros y Hy.
  destruct (decide (i = 0%nat)) as [->|Hi].
  { injection Hy as <-. unfold ele. rewrite event_gt_false. lia. }
  assert ((i - 1) / 2 < i)%nat as Hlt by (apply Nat.Div0.div_lt_upper_bound; lia).
  destruct (lookup_lt_is_Some_2 (x :: l) ((i - 1) / 2)%nat) as [p Hp].
  { apply lookup_lt_Some in Hy. lia. }
  etrans; [by apply (IH _ Hlt)|]. apply (Hh i p y); [lia|done|done].
Qed.

(** A sorted array is a heap. *)
Lemma sorted_is_heap l : StronglySorted ele l -> is_heap event_gt l.
Proof.
  intros Hs i x y Hi Hx Hy. revert i x y Hi Hx Hy. induction Hs as [|z l Hs IH Hall]; [done|]. intros i x y Hi Hx Hy.
  assert ((i - 1) / 2 < i)%nat as Hlt by (apply Nat.Div0.div_lt_upper_bound; lia).
  destruct i as [|i]; [lia|]. simpl in Hy. destruct ((S i - 1) / 2)%nat as [|j]; simpl in Hx.
  - injection Hx as <-. rewrite Forall_lookup in Hall. by apply (Hall i).
  - clear IH Hall. assert (forall j i x y, (j < i)%nat -> l !! j = Some x -> l !! i = Some y -> ele x y) as H; [|apply (H j i); try done; lia].
    clear -Hs. induction Hs as [|z l Hs IH Hall]; [done|]. intros [|j] [|i] x y Hlt Hx Hy; try lia; simpl in *.
    + injection Hx as <-. rewrite Forall_lookup in Hall. by apply (Hall i).
    + apply (IH j i); try done. lia.
Qed.

(** An implementation of the heap algorithms that meets the contract: it
    keeps the array sorted. *)
#[export] Instance sorting_heap : HeapAlgorithms Event event_gt := {|
  push_heap l := merge_sort ele l;
  pop_heap l := match l with [] => [] | x :: l => merge_sort ele l ++ [x] end;
  make_heap l := merge_sort ele l;
|}.

#[export] Instance sorting_heap_contract : HeapContract Event event_gt.
Proof.
  assert (forall l, is_heap event_gt (merge_sort ele l) /\ merge_sort ele l ≡ₚ l) as H.
  { intros l. split; [apply sorted_is_heap, (StronglySorted_merge_sort ele)|apply merge_sort_Permutation]. }
  split; [intros; apply H| |exact H]. intros x l _. exists (merge_sort ele l). by destruct (H l).
Qed.

Section Correct.
Context {W : Type} `{Host W} `{HeapContract Event event_gt}.
Implicit Types (w : W) (c : CoreTiming).

(** Popping takes a least event and leaves a heap of the others. *)
Lemma pop_due_spec c : is_heap event_gt (event_queue c) ->
  match pop_due c with
  | Some (e, c') => exists q, c' = set_queue c q (event_fifo_id c) /\ is_heap event_gt q /\ event_queue c ≡ₚ e :: q
      /\ Forall (ele e) q /\ time e <= global_timer c
  | None => Forall (fun e => global_timer c < time e) (event_queue c)
  end.
Proof.
  intros Hh. unfold pop_due. destruct (event_queue c) as [|x l] eqn:Eq; [constructor|].
  pose proof (heap_front x l Hh) as Hf. destruct (Z.leb_spec (time x) (global_timer c)).
  - destruct (pop_heap_contract x l Hh) as (l' & -> & Hh' & Hp). exists l'. rewrite removelast_last.
    split; [done|]. split; [done|]. split; [by rewrite Hp|]. split; [|done].
    rewrite Hp. by inversion Hf.
  - eapply Forall_impl; [exact Hf|]. intros e. unfold ele. cbn. rewrite event_gt_false. lia.
Qed.

(** Removing keeps exactly the events that do not match. *)
Lemma remove_events_spec p q : is_heap event_gt q ->
  is_heap event_gt (remove_events p q) /\ remove_events p q ≡ₚ List.filter (fun e => negb (p e)) q.
Proof.
  intros Hh. unfold remove_events. destruct (Nat.eqb_spec (length (List.filter (fun e => negb (p e)) q)) (length q)) as [E|].
  - split; [done|]. clear Hh. induction q as [|x q IH]; [done|]. simpl in *.
    pose proof (List.filter_length_le (fun e => negb (p e)) q). destruct (negb (p x)); simpl in E; [|lia].
    constructor. apply IH. lia.
  - apply make_heap_contract.
Qed.

Lemma filter_split (p : Event -> bool) q : q ≡ₚ List.filter (fun e => negb (p e)) q ++ List.filter p q.
Proof.
  induction q as [|x q IH]; [done|]. simpl. destruct (p x); simpl; [|by constructor].
  rewrite <- Permutation_middle. by constructor.
Qed.

(** ** Histories

    The state, the last reading of the clock, and every event that was fired,
    scheduled and removed so far. *)
Record History := { state : CoreTiming; seen : Z; fired : list Event; scheduled : list Event; removed : list Event }.

Definition op_scheduled w c (op : TimingOp) : list Event :=
  match op with
  | OpSchedule ns t d => match new_event w c ns t d with Some e => [e] | None => [] end
  | _ => []
  end.
Definition op_removed w c (op : TimingOp) : list Event :=
  match op with
  | OpUnschedule t d => List.filter (fun e => is_type w t e && (userdata e =? d)) (event_queue c)
  | OpRemove t => List.filter (is_type w t) (event_queue c)
  | _ => []
  end.

(** What the environment respects: a timeout is not before an event that
    already fired, and counters do not overflow. *)
Definition op_fits w (h : History) (op : TimingOp) : Prop :=
  match op with
  | OpSchedule ns _ _ =>
      let timeout := GetGlobalTimeNs w (state h) + ns in
      0 <= timeout < 2 ^ 63 /\ Forall (fun e => time e <= timeout) (fired h) /\ event_fifo_id (state h) + 1 < 2 ^ 64
  | OpAddTicks t => 0 <= t /\ ticks (state h) + t < 2 ^ 63
  | OpIdle => ticks (state h) + 1000 < 2 ^ 63 /\ Forall (fun e => time e < 2 ^ 62) (event_queue (state h))
  | _ => True
  end.

(** One operation of any thread, or one round of the loop of [Advance] under
    the lock, at a point where the clock has not gone back. *)
Inductive history_step (h : History) : History -> Prop :=
  | hs_op w op c' :
      seen h <= GetGlobalTimeNs w (state h) < 2 ^ 63 -> op_fits w h op -> run_op w (state h) op = Some c' ->
      history_step h {| state := c'; seen := GetGlobalTimeNs w c'; fired := fired h;
                        scheduled := scheduled h ++ op_scheduled w (state h) op;
                        removed := removed h ++ op_removed w (state h) op |}
  | hs_read w :
      seen h <= GetGlobalTimeNs w (state h) < 2 ^ 63 ->
      history_step h {| state := read_timer w (state h); seen := GetGlobalTimeNs w (state h); fired := fired h;
                        scheduled := scheduled h; removed := removed h |}
  | hs_pop w e c' :
      seen h <= GetGlobalTimeNs w (state h) < 2 ^ 63 -> pop_due (read_timer w (state h)) = Some (e, c') ->
      history_step h {| state := c'; seen := GetGlobalTimeNs w (state h); fired := fired h ++ [e];
                        scheduled := scheduled h; removed := removed h |}.

Definition History_new (multicore : bool) : History :=
  {| state := SetMulticore CoreTiming_new multicore; seen := 0; fired := []; scheduled := []; removed := [] |}.

(** The queue and what was fired, for the next number [id]. *)
Record queue_ok (q f : list Event) (id : Z) : Prop := {
  qo_heap : is_heap event_gt q;
  qo_id : Forall (fun e => fifo_order e < id) (f ++ q);
  qo_nodup : NoDup (fifo_order <$> q);
  qo_sorted : StronglySorted elt f;
  qo_after : forall e e', e ∈ f -> e' ∈ q -> elt e e';
}.

Record history_ok (h : History) : Prop := {
  ho_queue : queue_ok (event_queue (state h)) (fired h) (event_fifo_id (state h));
  ho_seen : 0 <= seen h;
  ho_ticks : 0 <= ticks (state h) < 2 ^ 63;
  ho_id : 0 <= event_fifo_id (state h) < 2 ^ 64;
  ho_times : Forall (fun e => 0 <= time e) (event_queue (state h));
  ho_due : Forall (fun e => time e <= seen h) (fired h);
  ho_all : scheduled h ≡ₚ fired h ++ event_queue (state h) ++ removed h;
}.

(** A queue with fewer events, as a heap. *)
Lemma queue_ok_sub q q' r f id : queue_ok q f id -> is_heap event_gt q' -> q ≡ₚ q' ++ r -> queue_ok q' f id.
Proof.
  intros [Hh Hi Hn Hs Ha] Hh' Hp. split; try done.
  - rewrite Hp, !Forall_app in Hi. rewrite Forall_app. tauto.
  - rewrite Hp, fmap_app in Hn. by apply NoDup_app in Hn as [? _].
  - intros e e' He He'. apply Ha; [done|]. rewrite Hp. set_solver.
Qed.

(** A new event, after everything that fired. *)
Lemma queue_ok_push q q' f id e : queue_ok q f id -> is_heap event_gt q' -> q' ≡ₚ q ++ [e] ->
  fifo_order e = id -> Forall (fun e' => time e' <= time e) f -> queue_ok q' f (id + 1).
Proof.
  intros [Hh Hi Hn Hs Ha] Hh' Hp Hid Ht. split; try done.
  - rewrite Hp. rewrite !Forall_app in *. split; [|split]; [eapply Forall_impl; [apply Hi|cbn; lia]..|].
    constructor; [lia|constructor].
  - rewrite Hp, fmap_app. apply NoDup_app. split; [done|]. split; [|apply NoDup_singleton].
    intros i (x & -> & Hx)%list_elem_of_fmap. simpl. rewrite list_elem_of_singleton. rewrite Forall_app, !Forall_forall in Hi. destruct Hi as [_ Hi].
    specialize (Hi x Hx). cbn in Hi. lia.
  - intros x y Hx. rewrite Hp, elem_of_app, list_elem_of_singleton. intros [Hy| ->]; [by apply Ha|].
    unfold elt. rewrite event_lt_true. rewrite Forall_app, !Forall_forall in Hi. destruct Hi as [Hi _].
    rewrite Forall_forall in Ht. specialize (Ht x Hx). specialize (Hi x Hx). cbn in *. lia.
Qed.

(** The least event moves to the end of what was fired. *)
Lemma queue_ok_pop q q' f id e : queue_ok q f id -> is_heap event_gt q' -> q ≡ₚ e :: q' -> Forall (ele e) q' ->
  queue_ok q' (f ++ [e]) id.
Proof.
  intros [Hh Hi Hn Hs Ha] Hh' Hp Hmin. rewrite Hp in Hn. simpl in Hn. apply NoDup_cons in Hn as [Hne Hn].
  assert (e ∈ q) as Heq by (rewrite Hp; set_solver).
  split; try done.
  - by rewrite <- app_assoc, <- Hp.
  - apply StronglySorted_app. split; [|split; [done|repeat constructor]].
    intros x y Hx ->%list_elem_of_singleton. by apply Ha.
  - intros x y. rewrite elem_of_app, list_elem_of_singleton. intros [Hx| ->] Hy.
    + apply Ha; [done|]. rewrite Hp. set_solver.
    + rewrite Forall_forall in Hmin. apply elt_of_ele; [by apply Hmin|]. intros E. apply Hne. rewrite E.
      by apply list_elem_of_fmap_2.
Qed.

(** More ticks are a later time. *)
Lemma time_mono w c t d : 0 <= ticks c <= t -> t < 2 ^ 63 -> GetGlobalTimeNs w c <= GetGlobalTimeNs w (set_ticks c t d).
Proof.
  intros Ht Hb. unfold GetGlobalTimeNs. cbn [set_ticks is_multicore ticks]. destruct (is_multicore c); [done|].
  rewrite !to_s64_id by (unfold is_s64; lia). apply CyclesToNs_mono; lia.
Qed.

(** [Idle] only moves the ticks forward. *)
Lemma Idle_spec c : 0 <= ticks c -> ticks c + 1000 < 2 ^ 63 -> Forall (fun e => 0 <= time e < 2 ^ 62) (event_queue c) ->
  exists t, Idle c = Some (set_ticks c t (downcount c)) /\ ticks c <= t < 2 ^ 63
    /\ match event_queue c with front :: _ => t = Z.max (ticks c) (nsToCycles (time front) + 10) | [] => t = ticks c + 1000 end.
Proof.
  intros Ht Hb Hq. unfold Idle. destruct (event_queue c) as [|e q].
  { exists (ticks c + 1000). rewrite to_u64_id by (unfold is_u64; lia). split; [done|lia]. }
  inversion Hq as [|? ? He _]; subst. rewrite to_s64_id by (unfold is_s64; lia).
  assert (0 <= nsToCycles (time e) < 2 ^ 62 + 2 ^ 61) as Hn.
  { rewrite nsToCycles_exact by lia. unfold BASE_CLOCK_RATE. split; [apply Z.div_pos; lia|apply Z.div_lt_upper_bound; lia]. }
  unfold add_s64. destruct (Z.leb_spec (- 2 ^ 63) (nsToCycles (time e) + 10)), (Z.ltb_spec (nsToCycles (time e) + 10) (2 ^ 63));
    cbn [andb mbind option_bind]; try lia. rewrite to_u64_id by (unfold is_u64; lia).
  destruct (Z.ltb_spec (ticks c) (nsToCycles (time e) + 10)).
  - eexists. split; [done|]. lia.
  - exists (ticks c). split; [by destruct c|]. lia.
Qed.

Lemma new_event_spec w c ns t d : 0 <= GetGlobalTimeNs w c + ns < 2 ^ 63 ->
  new_event w c ns t d = Some {| time := GetGlobalTimeNs w c + ns; fifo_order := event_fifo_id c; userdata := d; type := t |}.
Proof.
  intros Hr. unfold new_event, add_s64.
  destruct (Z.leb_spec (- 2 ^ 63) (GetGlobalTimeNs w c + ns)), (Z.ltb_spec (GetGlobalTimeNs w c + ns) (2 ^ 63));
    cbn [andb mbind option_bind]; try lia. by rewrite to_u64_id by (unfold is_u64; lia).
Qed.

(** What an operation does to a history it fits. *)
Lemma removal_ok w h (p : Event -> bool) : history_ok h -> seen h <= GetGlobalTimeNs w (state h) ->
  history_ok {| state := set_queue (state h) (remove_events p (event_queue (state h))) (event_fifo_id (state h));
                seen := GetGlobalTimeNs w (state h); fired := fired h; scheduled := scheduled h ++ [];
                removed := removed h ++ List.filter p (event_queue (state h)) |}.
Proof.
  intros [Hq Hse Hti Hid Hts Hdue Hall] Hs. destruct (remove_events_spec p (event_queue (state h)) (qo_heap _ _ _ Hq)) as [Hh Hp].
  pose proof (filter_split p (event_queue (state h))) as Hf. rewrite <- Hp in Hf.
  split; cbn [state seen fired scheduled removed set_queue event_queue event_fifo_id ticks]; try done; try lia.
  - by eapply queue_ok_sub.
  - rewrite Hf, Forall_app in Hts. tauto.
  - eapply Forall_impl; [exact Hdue|]. cbn. lia.
  - rewrite app_nil_r, Hall. rewrite Hf at 1. solve_Permutation.
Qed.

Lemma ticks_ok h w t d : history_ok h -> ticks (state h) <= t < 2 ^ 63 -> seen h <= GetGlobalTimeNs w (state h) ->
  history_ok {| state := set_ticks (state h) t d; seen := GetGlobalTimeNs w (set_ticks (state h) t d); fired := fired h;
                scheduled := scheduled h ++ []; removed := removed h ++ [] |}.
Proof.
  intros [Hq Hse Hti Hid Hts Hdue Hall] Ht Hs. pose proof (time_mono w (state h) t d ltac:(lia) ltac:(lia)).
  rewrite !app_nil_r. split; cbn [state seen fired scheduled removed set_ticks event_queue event_fifo_id ticks]; try done; try lia.
  eapply Forall_impl; [exact Hdue|]. cbn. lia.
Qed.

Lemma schedule_ok w h ns t d c' : history_ok h -> seen h <= GetGlobalTimeNs w (state h) -> op_fits w h (OpSchedule ns t d) ->
  ScheduleEvent w (state h) ns t d = Some c' ->
  history_ok {| state := c'; seen := GetGlobalTimeNs w c'; fired := fired h;
                scheduled := scheduled h ++ op_scheduled w (state h) (OpSchedule ns t d); removed := removed h ++ [] |}.
Proof.
  intros [Hq Hse Hti Hid Hts Hdue Hall] Hs (Hr & Hlast & Hfi). unfold ScheduleEvent, op_scheduled.
  rewrite new_event_spec by done. cbn [mbind option_bind]. set (e := {| time := _ |}). intros [= <-].
  destruct (push_heap_contract (event_queue (state h)) e (qo_heap _ _ _ Hq)) as [Hh Hp].
  rewrite to_u64_id by (unfold is_u64; lia).
  split; cbn [state seen fired scheduled removed set_queue set_control event_queue event_fifo_id ticks]; try done; try lia.
  - by eapply queue_ok_push.
  - etrans; [exact Hse|]. done.
  - rewrite Hp, Forall_app. split; [done|]. constructor; [cbn; lia|constructor].
  - eapply Forall_impl; [exact Hdue|]. cbn. intros x Hx. etrans; [exact Hx|]. done.
  - rewrite app_nil_r, Hall, Hp. solve_Permutation.
Qed.

Lemma history_step_ok h h' : history_ok h -> history_step h h' -> history_ok h'.
Proof.
  intros Hok Hs. destruct Hs as [w op c' Hs Hf Hr|w Hs|w e c' Hs Hp].
  - destruct op as [ns t d|t d|t|t| |]; cbn [run_op op_scheduled op_removed] in *.
    + eapply schedule_ok; done || lia.
    + injection Hr as <-. apply (removal_ok w); done || lia.
    + injection Hr as <-. apply (removal_ok w); done || lia.
    + injection Hr as <-. destruct Hf as [Ht Hb]. pose proof (ho_ticks h Hok). unfold AddTicks.
      rewrite to_u64_id by (unfold is_u64; lia). apply ticks_ok; done || lia.
    + injection Hr as <-. pose proof (ho_ticks h Hok). apply ticks_ok; done || lia.
    + destruct Hf as [Hb Hq]. pose proof (ho_ticks h Hok). destruct (Idle_spec (state h)) as (t & E & Ht & _); [lia|done| |].
      { pose proof (ho_times h Hok) as Hnn. rewrite Forall_forall in *. intros x Hx. specialize (Hnn x Hx). specialize (Hq x Hx). cbn in *. lia. }
      rewrite E in Hr. injection Hr as <-. apply ticks_ok; done || lia.
  - destruct Hok as [Hq Hse Hti Hid Hts Hdue Hall]. split; cbn [state seen fired scheduled removed read_timer set_timer event_queue event_fifo_id ticks]; try done; try lia.
    eapply Forall_impl; [exact Hdue|]. cbn. lia.
  - destruct Hok as [Hq Hse Hti Hid Hts Hdue Hall]. pose proof (pop_due_spec (read_timer w (state h)) (qo_heap _ _ _ Hq)) as Hsp.
    rewrite Hp in Hsp. destruct Hsp as (q & -> & Hh & Hpm & Hmin & Ht). cbn [read_timer set_timer event_queue global_timer] in *.
    rewrite to_u64_id in Ht by (unfold is_u64; lia).
    split; cbn [state seen fired scheduled removed read_timer set_timer set_queue event_queue event_fifo_id ticks]; try done; try lia.
    + by eapply queue_ok_pop.
    + rewrite Hpm in Hts. by inversion Hts.
    + rewrite Forall_app. split; [eapply Forall_impl; [exact Hdue|cbn; lia]|]. constructor; [done|constructor].
    + rewrite Hall, Hpm. solve_Permutation.
Qed.

Lemma reachable_history_ok multicore h : rtc history_step (History_new multicore) h -> history_ok h.
Proof.
  apply (rtc_ind_r (fun h => history_ok h)); [|intros; by eapply history_step_ok].
  split; cbn; try lia; try done.
  split; [|constructor|constructor|constructor|by intros ? ? ?%not_elem_of_nil].
  intros i x y Hi Hx. by destruct ((i - 1) / 2)%nat.
Qed.

(** A callback that schedules its event again, a period after the time it was
    due, respects [op_fits]: the timeout is not before the event. *)
Lemma periodic_fits w h e late period : history_ok h -> last (fired h) = Some e ->
  late = seen h - time e -> 0 <= period -> seen h <= GetGlobalTimeNs w (state h) ->
  Forall (fun e' => time e' <= GetGlobalTimeNs w (state h) + (period - late)) (fired h).
Proof.
  intros Hok (f & Ef)%last_Some -> Hp Hs. pose proof (qo_sorted _ _ _ (ho_queue h Hok)) as Hso. rewrite Ef in *.
  apply StronglySorted_app in Hso as (Hlt & _ & _). rewrite Forall_app. split; [|repeat constructor; lia].
  apply Forall_forall. intros x Hx. specialize (Hlt x e Hx ltac:(set_solver)). unfold elt in Hlt. rewrite event_lt_true in Hlt. lia.
Qed.

(** ** [Advance] in single-core mode *)

Context (callback : W -> CoreTiming -> nat -> Z -> Z -> list (W * TimingOp) * W).

(** The operation schedules an event in the future. *)
Definition schedules_later (op : TimingOp) : Prop :=
  match op with OpSchedule ns _ _ => 0 < ns <= 2 ^ 62 | _ => False end.

Context (Hcallback : forall w c id d late, Forall (fun a => schedules_later (snd a)) (fst (callback w c id d late))).

(** A state at a fixed time in single-core mode. *)
Record at_time (now : Z) c : Prop := {
  at_single : is_multicore c = false;
  at_ticks : 0 <= ticks c < 2 ^ 62;
  at_now : now = CyclesToNs (ticks c);
  at_timer : global_timer c = now;
  at_heap : is_heap event_gt (event_queue c);
  at_times : Forall (fun e => 0 <= time e < 2 ^ 63) (event_queue c);
}.

Lemma now_range t : 0 <= t < 2 ^ 62 -> 0 <= CyclesToNs t < 2 ^ 62.
Proof.
  intros Ht. rewrite CyclesToNs_exact by lia. unfold BASE_CLOCK_RATE. split; [apply Z.div_pos; lia|apply Z.div_lt_upper_bound; lia].
Qed.

Lemma global_time w c : is_multicore c = false -> 0 <= ticks c < 2 ^ 62 -> GetGlobalTimeNs w c = CyclesToNs (ticks c).
Proof. intros E Ht. unfold GetGlobalTimeNs. rewrite E, to_s64_id; [done|]. unfold is_s64. lia. Qed.

Lemma run_ops_later now c ops : at_time now c -> Forall (fun a => schedules_later (snd a)) ops ->
  exists c' new, run_ops c ops = Some c' /\ at_time now c'
    /\ event_queue c' ≡ₚ event_queue c ++ new /\ Forall (fun e => now < time e) new.
Proof.
  intros Hat Hops. revert c Hat. induction Hops as [|[w op] ops Hop Hops IH]; intros c Hat.
  { exists c, []. rewrite app_nil_r. split; [done|]. split; [done|]. split; [done|constructor]. }
  destruct op as [ns t d| | | | |]; try done. cbn [snd schedules_later] in Hop.
  destruct Hat as [Hm Ht Hn Hg Hh Hts]. pose proof (now_range _ Ht) as Hr. pose proof (global_time w c Hm Ht) as Eg.
  cbn [run_ops run_op]. unfold ScheduleEvent. rewrite new_event_spec by lia. cbn [mbind option_bind].
  set (e := {| time := GetGlobalTimeNs w c + ns |}).
  destruct (push_heap_contract (event_queue c) e Hh) as [Hh' Hp].
  set (c1 := set_control _ _). destruct (IH c1) as (c' & new & E & Hat' & Hp' & Hnew).
  { split; cbn; try done. rewrite Hp, Forall_app. split; [done|]. constructor; [cbn; lia|constructor]. }
  exists c', (e :: new). split; [done|]. split; [done|]. split.
  - rewrite Hp'. cbn. rewrite Hp. solve_Permutation.
  - constructor; [cbn; lia|done].
Qed.

Lemma read_timer_at now w c : at_time now c -> read_timer w c = c.
Proof.
  intros [Hm Ht Hn Hg Hh Hts]. pose proof (now_range _ Ht). unfold read_timer. rewrite global_time by done.
  rewrite to_u64_id by (unfold is_u64; lia). rewrite <- Hn, <- Hg. by destruct c.
Qed.

Lemma filter_due_none now (l : list Event) : Forall (fun e => now < time e) l ->
  filter (fun e => time e <= now) l = [] /\ filter (fun e => now < time e) l = l.
Proof.
  induction 1 as [|e l He Hl [IH1 IH2]]; [done|]. rewrite filter_cons_False, filter_cons_True by lia. by rewrite IH1, IH2.
Qed.

(** What the loop does, from a state at a fixed time. *)
Record advanced (now : Z) c c' (f : list Fired) : Prop := {
  ad_at : at_time now c';
  ad_due : f_event <$> f ≡ₚ filter (fun e => time e <= now) (event_queue c);
  ad_sorted : StronglySorted ele (f_event <$> f);
  ad_late : Forall (fun x => f_late x = now - time (f_event x)) f;
  ad_called : Forall (fun x => forall id, (forall w, lock w (type (f_event x)) = Some id) -> f_called x = Some id) f;
  ad_rest : Forall (fun e => now < time e) (event_queue c');
  ad_kept : exists new, event_queue c' ≡ₚ filter (fun e => now < time e) (event_queue c) ++ new;
}.

Lemma advance_loop_spec now fuel w c : at_time now c ->
  (length (filter (fun e => time e <= now)%Z (event_queue c)) < fuel)%nat ->
  exists w' c' f, advance_loop callback fuel w c = Some (w', c', f) /\ advanced now c c' f.
Proof.
  revert w c. induction fuel as [|fuel IH]; intros w c Hat Hf; [lia|]. cbn [advance_loop].
  pose proof (pop_due_spec c (at_heap _ _ Hat)) as Hsp. destruct (pop_due c) as [[e c1]|].
  2: { exists w, c, []. split; [done|]. rewrite (at_timer _ _ Hat) in Hsp. destruct (filter_due_none now _ Hsp) as [E1 E2].
       split; try done; try constructor; [by rewrite E1|]. exists []. by rewrite E2, app_nil_r. }
  destruct Hsp as (q & -> & Hh & Hp & Hmin & Ht). rewrite (at_timer _ _ Hat) in Ht.
  set (c1 := set_queue c q (event_fifo_id c)).
  assert (at_time now c1) as Hat1.
  { destruct Hat as [Hm Hti Hn Hg _ Hts]. split; try done. rewrite Hp in Hts. by inversion Hts. }
  set (act := match lock w (type e) with Some id => _ | None => _ end).
  assert (Forall (fun a => schedules_later (snd a)) (fst act)) as Hact.
  { unfold act. destruct (lock w (type e)); [apply Hcallback|constructor]. }
  destruct act as [ops w1]. cbn [fst] in Hact.
  destruct (run_ops_later now c1 ops Hat1 Hact) as (c2 & new & -> & Hat2 & Hp2 & Hnew). cbn [mbind option_bind].
  rewrite (read_timer_at now) by done. cbn [set_queue event_queue] in Hp2.
  destruct (filter_due_none now new Hnew) as [Hn1 Hn2].
  assert (filter (fun e => time e <= now) (event_queue c2) ≡ₚ filter (fun e => time e <= now) q) as Hdue2.
  { rewrite Hp2, filter_app, Hn1, app_nil_r. done. }
  assert (filter (fun e => time e <= now) (event_queue c) ≡ₚ e :: filter (fun e => time e <= now) q) as Hdue.
  { rewrite Hp, filter_cons_True by done. done. }
  destruct (IH w1 c2 Hat2) as (w' & c' & f & -> & [Ha Hd Hs Hl Hc Hr [new' Hk]]).
  { rewrite Hdue2. rewrite Hdue in Hf. simpl in Hf. lia. }
  cbn [mbind option_bind]. exists w', c', ({| f_event := e; f_late := to_s64 (to_u64 (global_timer c1 - time e)); f_called := lock w (type e) |} :: f).
  split; [done|]. split; try done.
  - cbn. by rewrite Hd, Hdue2, Hdue.
  - cbn. constructor; [done|]. rewrite Hd, Hdue2. apply Forall_forall. intros x [_ Hx]%list_elem_of_filter.
    rewrite Forall_forall in Hmin. by apply Hmin.
  - constructor; [|done]. cbn [f_late f_event]. rewrite (at_timer _ _ Hat1). pose proof (at_times _ _ Hat) as Hts.
    rewrite Hp in Hts. inversion Hts as [|? ? He _]; subst. pose proof (now_range _ (at_ticks _ _ Hat)) as Hnr.
    rewrite <- (at_now _ _ Hat) in Hnr. rewrite to_u64_id by (unfold is_u64; lia). apply to_s64_id. unfold is_s64. lia.
  - constructor; [|done]. cbn. auto.
  - exists (new ++ new'). rewrite Hk, Hp2, filter_app, Hn2, Hp, filter_cons_False by lia. by rewrite app_assoc.
Qed.
End Correct.

(** ** Theorems *)

(** C23: whatever threads schedule, unschedule and remove events while [Advance] pops
    them, events fire in the order of their times, and in the order of
    scheduling for equal times; none fires before its time, none fires twice
    and none is lost: what was scheduled is what fired, what waits and what
    was removed.  This holds with any heap algorithms that meet the contract
    of the standard, in both modes. *)
Theorem events_fire_in_order {W} `{Host W} `{HeapContract Event event_gt} (multicore : bool) (h : History) :
  rtc (history_step (W := W)) (History_new multicore) h ->
  StronglySorted (fun a b => event_lt a b = true) (fired h)
  /\ Forall (fun e => time e <= seen h) (fired h)
  /\ (forall e e', e ∈ fired h -> e' ∈ event_queue (state h) -> event_lt e e' = true)
  /\ scheduled h ≡ₚ fired h ++ event_queue (state h) ++ removed h.
Proof.
  intros Hr. destruct (reachable_history_ok multicore h Hr) as [Hq _ _ _ _ Hd Ha].
  split; [apply Hq|]. split; [done|]. split; [apply Hq|done].
Qed.

(** A host whose clock is the point of the run itself. *)
#[local] Instance sample_host : Host Z :=
  {| clock_ns w := w; clock_us w := w / 1000; clock_cycles _ := 0; clock_cpu _ := 0; alive _ _ := true |}.

(** Two events scheduled at 5 and at 3; at 10 the second one fires first. *)
Lemma events_fire_in_order_witness : exists h : History,
  rtc (history_step (W := Z)) (History_new true) h /\ userdata <$> fired h = [8; 7]
  /\ scheduled h ≡ₚ fired h ++ event_queue (state h) ++ removed h.
Proof.
  assert (exists h : History, rtc (history_step (W := Z)) (History_new true) h /\ userdata <$> fired h = [8; 7]) as (h & Hr & E).
  { eexists. split.
    - eapply rtc_l. { apply (hs_op _ 0 (OpSchedule 5 (Some 1%nat) 7)); cbn; [lia|repeat split; try lia; constructor|reflexivity]. }
      eapply rtc_l. { apply (hs_op _ 1 (OpSchedule 2 (Some 2%nat) 8)); cbn; [lia|repeat split; try lia; constructor|reflexivity]. }
      eapply rtc_l. { apply (hs_pop _ 10); cbn; [lia|reflexivity]. }
      eapply rtc_l. { apply (hs_pop _ 10); cbn; [lia|reflexivity]. }
      apply rtc_refl.
    - reflexivity. }
  exists h. split; [exact Hr|]. split; [exact E|]. apply (events_fire_in_order true h Hr).
Defined.

(** in single-core mode [Advance] returns, and fires exactly the events that are
    due, in order, each with its lateness and through its callback, when the
    callbacks schedule only events in the future; the others stay, nothing
    that is left is due, and the result is the time to the next event. *)
Theorem advance_fires_due {W} `{Host W} `{HeapContract Event event_gt}
    (callback : W -> CoreTiming -> nat -> Z -> Z -> list (W * TimingOp) * W) (fuel : nat) (w : W) (c : CoreTiming) :
  (forall w c id d late, Forall (fun a => schedules_later (snd a)) (fst (callback w c id d late))) ->
  is_multicore c = false -> 0 <= ticks c < 2 ^ 62 -> is_heap event_gt (event_queue c) ->
  Forall (fun e => 0 <= time e < 2 ^ 63) (event_queue c) -> (length (event_queue c) < fuel)%nat ->
  let now := CyclesToNs (ticks c) in
  exists w' c' f next, Advance callback fuel w c = Some (w', c', f, next)
    /\ f_event <$> f ≡ₚ filter (fun e => time e <= now) (event_queue c)
    /\ StronglySorted (fun a b => event_gt a b = false) (f_event <$> f)
    /\ Forall (fun x => f_late x = now - time (f_event x)) f
    /\ Forall (fun x => forall id, (forall w, lock w (type (f_event x)) = Some id) -> f_called x = Some id) f
    /\ (exists new, event_queue c' ≡ₚ filter (fun e => now < time e) (event_queue c) ++ new)
    /\ Forall (fun e => now < time e) (event_queue c')
    /\ match next with
       | None => event_queue c' = []
       | Some t => 0 < t /\ exists e, e ∈ event_queue c' /\ t = time e - now /\ Forall (fun e' => time e <= time e') (event_queue c')
       end.
Proof.
  intros Hcb Hm Ht Hh Hts Hf now. unfold Advance. pose proof (now_range _ Ht) as Hnr. fold now in Hnr.
  set (c0 := read_timer w c). assert (at_time now c0) as Hat.
  { split; cbn; try done. rewrite global_time by done. apply to_u64_id. unfold is_u64. fold now. lia. }
  destruct (advance_loop_spec callback Hcb now fuel w c0 Hat) as (w' & c' & f & -> & [Ha Hd Hs Hl Hc Hr Hk]).
  { eapply Nat.le_lt_trans; [apply length_filter|]. exact Hf. }
  cbn [mbind option_bind]. eexists _, _, _, _. split; [done|]. do 6 (split; [done|]).
  destruct (event_queue c') as [|e q] eqn:Eq; [done|]. pose proof (at_times _ _ Ha) as Hts'. rewrite Eq in Hts'.
  inversion Hts' as [|? ? He _]; subst. inversion Hr as [|? ? Hlt _]; subst. rewrite (at_timer _ _ Ha).
  rewrite to_u64_id by (unfold is_u64; lia). rewrite to_s64_id by (unfold is_s64; lia). split; [lia|].
  exists e. split; [left|]. split; [done|]. pose proof (at_heap _ _ Ha) as Hh'. rewrite Eq in Hh'.
  eapply Forall_impl; [apply (heap_front e q Hh')|]. unfold ele. intros x. rewrite event_gt_false. lia.
Qed.

(** An event that schedules itself again and one that is not due yet. *)
Lemma advance_fires_due_witness :
  let c := {| global_timer := 0; event_queue := [{| time := 40; fifo_order := 0; userdata := 7; type := Some 1%nat |};
                                                 {| time := 900; fifo_order := 1; userdata := 8; type := Some 2%nat |}];
              event_fifo_id := 2; is_multicore := false; ticks := 100; downcount := 0; control := control CoreTiming_new |} in
  let callback := fun (w : Z) (_ : CoreTiming) (id : nat) (d _ : Z) => ([(w, OpSchedule 50 (Some id) d)], w) in
  exists w' c' f next, Advance callback 3 0 c = Some (w', c', f, next)
    /\ f_event <$> f ≡ₚ filter (fun e => time e <= CyclesToNs 100) (event_queue c).
Proof.
  intros c callback.
  destruct (advance_fires_due callback 3 0 c) as (w' & c' & f & next & E & Hd & _).
  - intros. repeat constructor; cbn; lia.
  - reflexivity.
  - cbn. lia.
  - apply sorted_is_heap. cbn. repeat constructor.
  - cbn. repeat constructor; cbn; lia.
  - cbn. lia.
  - exists w', c', f, next. done.
Defined.

(** when the cores are idle in single-core mode, [Idle] always moves the ticks far
    enough that the next [Advance] fires the event at the front of the queue:
    waiting for an event always ends. *)
Theorem idle_reaches_next_event {W} `{Host W} `{HeapContract Event event_gt}
    (callback : W -> CoreTiming -> nat -> Z -> Z -> list (W * TimingOp) * W) (w : W) (c : CoreTiming) front q :
  (forall w c id d late, Forall (fun a => schedules_later (snd a)) (fst (callback w c id d late))) ->
  is_multicore c = false -> 0 <= ticks c < 2 ^ 61 -> event_queue c = front :: q -> is_heap event_gt (event_queue c) ->
  Forall (fun e => 0 <= time e < 2 ^ 61) (event_queue c) ->
  exists c1, Idle c = Some c1 /\ ticks c <= ticks c1 /\ event_queue c1 = event_queue c
    /\ exists w' c' f next, Advance callback (S (length (event_queue c))) w c1 = Some (w', c', f, next)
       /\ front ∈ f_event <$> f.
Proof.
  intros Hcb Hm Ht Eq Hh Hts.
  destruct (Idle_spec c) as (t & E & Htt & Hn); [lia|lia|eapply Forall_impl; [exact Hts|cbn; lia]|].
  rewrite Eq in Hn. assert (0 <= time front < 2 ^ 61) as Hfr by (rewrite Eq in Hts; by inversion Hts).
  assert (t < 2 ^ 62) as Htb.
  { rewrite nsToCycles_exact in Hn by lia. unfold BASE_CLOCK_RATE in Hn.
    pose proof (Z.div_lt_upper_bound (time front * 1019215872) 1000000000 (2 ^ 61 + 2 ^ 60) ltac:(lia) ltac:(lia)). lia. }
  exists (set_ticks c t (downcount c)). split; [done|]. split; [cbn; lia|]. split; [done|].
  set (now := CyclesToNs t). pose proof (now_range t ltac:(lia)) as Hnr. fold now in Hnr.
  set (c0 := read_timer w (set_ticks c t (downcount c))). assert (at_time now c0) as Hat.
  { split; cbn; try done; try lia; [|eapply Forall_impl; [exact Hts|cbn; lia]].
    rewrite global_time by (cbn; done || lia). cbn. apply to_u64_id. unfold is_u64. fold now. lia. }
  unfold Advance. fold c0.
  destruct (advance_loop_spec callback Hcb now (S (length (event_queue c))) w c0 Hat) as (w' & c' & f & -> & [_ Hd _ _ _ _ _]).
  { apply Nat.lt_succ_r. apply length_filter. }
  cbn [mbind option_bind]. eexists _, _, _, _. split; [done|]. rewrite Hd. apply list_elem_of_filter. split.
  - apply cycles_reach; lia.
  - cbn. rewrite Eq. left.
Qed.

Lemma idle_reaches_next_event_witness :
  let c := {| global_timer := 0; event_queue := [{| time := 1000000; fifo_order := 0; userdata := 7; type := Some 1%nat |}];
              event_fifo_id := 1; is_multicore := false; ticks := 100; downcount := 0; control := control CoreTiming_new |} in
  let callback := fun (w : Z) (_ : CoreTiming) (_ : nat) (_ _ : Z) => ([], w) in
  exists c1, Idle c = Some c1 /\ ticks c <= ticks c1 /\ event_queue c1 = event_queue c
    /\ exists w' c' f next, Advance callback 2 0 c1 = Some (w', c', f, next)
       /\ {| time := 1000000; fifo_order := 0; userdata := 7; type := Some 1%nat |} ∈ f_event <$> f.
Proof.
  intros c callback. apply (idle_reaches_next_event callback 0 c _ []).
  - intros. constructor.
  - reflexivity.
  - cbn. lia.
  - reflexivity.
  - apply sorted_is_heap. cbn. repeat constructor.
  - cbn. repeat constructor; cbn; lia.
Defined.
