(* ===== verification/CoreTimingThread.v ===== *)
(** * The timer thread and its handshakes

    [CoreTiming::ThreadLoop], [Pause], [SyncPause] and [Shutdown]
    ([src/src/core/core_timing.cpp]) as two threads that interleave: the timer
    thread, with a program point per access to the shared flags, and a thread
    that controls it.  [Common::Event] ([src/src/common/thread.h]) is its flag:
    [Set] raises it, [Wait] blocks until it is raised and lowers it.  Other
    threads may raise [event] at any time, as [ScheduleEvent] does.  [Advance]
    is one step, whose result decides the wait that follows. *)

From S2P Require Import Prelude CoreTimingUtil CoreTiming.
Import CoreTiming.
From stdpp Require Import base relations.

Module CoreTimingThread.

(** [Common::Event]. *)
Definition Event_Set (is_set : bool) : bool := if is_set then is_set else true.
(** [Wait]: [None] while it blocks. *)
Definition Event_Wait (is_set : bool) : option bool := if is_set then Some false else None.
(** [WaitFor]: the flag after it, signalled or timed out. *)
Definition Event_WaitFor (is_set : bool) : bool * bool := if is_set then (false, true) else (is_set, false).

Definition set_paused (k : Control) (b : bool) : Control :=
  {| paused := b; paused_set := paused_set k; wait_set := wait_set k; shutting_down := shutting_down k;
     has_started := has_started k; event_set := event_set k; pause_event_set := pause_event_set k; timer_thread := timer_thread k |}.
Definition set_paused_set (k : Control) (b : bool) : Control :=
  {| paused := paused k; paused_set := b; wait_set := wait_set k; shutting_down := shutting_down k;
     has_started := has_started k; event_set := event_set k; pause_event_set := pause_event_set k; timer_thread := timer_thread k |}.
Definition set_wait_set (k : Control) (b : bool) : Control :=
  {| paused := paused k; paused_set := paused_set k; wait_set := b; shutting_down := shutting_down k;
     has_started := has_started k; event_set := event_set k; pause_event_set := pause_event_set k; timer_thread := timer_thread k |}.
Definition set_shutting_down (k : Control) (b : bool) : Control :=
  {| paused := paused k; paused_set := paused_set k; wait_set := wait_set k; shutting_down := b;
     has_started := has_started k; event_set := event_set k; pause_event_set := pause_event_set k; timer_thread := timer_thread k |}.
Definition set_has_started (k : Control) (b : bool) : Control :=
  {| paused := paused k; paused_set := paused_set k; wait_set := wait_set k; shutting_down := shutting_down k;
     has_started := b; event_set := event_set k; pause_event_set := pause_event_set k; timer_thread := timer_thread k |}.
Definition set_event (k : Control) (b : bool) : Control :=
  {| paused := paused k; paused_set := paused_set k; wait_set := wait_set k; shutting_down := shutting_down k;
     has_started := has_started k; event_set := b; pause_event_set := pause_event_set k; timer_thread := timer_thread k |}.
Definition set_pause_event (k : Control) (b : bool) : Control :=
  {| paused := paused k; paused_set := paused_set k; wait_set := wait_set k; shutting_down := shutting_down k;
     has_started := has_started k; event_set := event_set k; pause_event_set := b; timer_thread := timer_thread k |}.
Definition set_timer_thread (k : Control) (b : bool) : Control :=
  {| paused := paused k; paused_set := paused_set k; wait_set := wait_set k; shutting_down := shutting_down k;
     has_started := has_started k; event_set := event_set k; pause_event_set := pause_event_set k; timer_thread := b |}.

(** ** [ThreadLoop] *)

Inductive TimerPc :=
  | T_start      (* [has_started = true] *)
  | T_outer      (* [while (!shutting_down)] *)
  | T_inner      (* [while (!paused)] *)
  | T_clear      (* [paused_set = false] *)
  | T_advance    (* [Advance()] *)
  | T_wait_for   (* [event.WaitFor(next_time_ns)] *)
  | T_wait_set   (* [wait_set = true] *)
  | T_wait       (* [event.Wait()] *)
  | T_wait_clear (* [wait_set = false] *)
  | T_paused     (* [paused_set = true; clock->Pause(true)] *)
  | T_pause_wait (* [pause_event.Wait(); clock->Pause(false)] *)
  | T_exit.

(** [next_time] is the result of [Advance]; [None] means blocked or gone. *)
Definition timer_step (next_time : option Z) (pc : TimerPc) (k : Control) : option (TimerPc * Control) :=
  match pc with
  | T_start => Some (T_outer, set_has_started k true)
  | T_outer => Some (if negb (shutting_down k) then T_inner else T_exit, k)
  | T_inner => Some (if negb (paused k) then T_clear else T_paused, k)
  | T_clear => Some (T_advance, set_paused_set k false)
  | T_advance =>
      Some (match next_time with Some t => if (0 <? t)%Z then T_wait_for else T_wait_clear | None => T_wait_set end, k)
  | T_wait_for => Some (T_wait_clear, set_event k (fst (Event_WaitFor (event_set k))))
  | T_wait_set => Some (T_wait, set_wait_set k true)
  | T_wait => e ← Event_Wait (event_set k); Some (T_wait_clear, set_event k e)
  | T_wait_clear => Some (T_inner, set_wait_set k false)
  | T_paused => Some (T_pause_wait, set_paused_set k true)
  | T_pause_wait => e ← Event_Wait (pause_event_set k); Some (T_outer, set_pause_event k e)
  | T_exit => None
  end.

(** ** The calls of the controlling thread *)

Inductive CallPc :=
  | H_idle
  (* [Pause] *)
  | P_flag (is_paused : bool) | P_set
  (* [SyncPause]: its test, the two steps of [Pause], the rest *)
  | S_test (is_paused : bool) | S_flag (is_paused : bool) | S_set (is_paused : bool)
  | S_set2 (is_paused : bool) | S_event (is_paused : bool) | S_spin (is_paused : bool)
  (* [Shutdown] *)
  | D_flag | D_shutting_down | D_set | D_event | D_join | D_reset | D_done.

Definition call_step (exited : bool) (pc : CallPc) (k : Control) : option (CallPc * Control) :=
  match pc with
  | H_idle | D_done => None
  | P_flag b => Some (P_set, set_paused k b)
  | P_set => Some (H_idle, set_pause_event k (Event_Set (pause_event_set k)))
  | S_test b => Some (if eqb b (paused k) && eqb (paused_set k) (paused k) then H_idle else S_flag b, k)
  | S_flag b => Some (S_set b, set_paused k b)
  | S_set b =>
      Some (if timer_thread k then (if negb b then S_set2 b else S_event b) else H_idle,
            set_pause_event k (Event_Set (pause_event_set k)))
  | S_set2 b => Some (S_event b, set_pause_event k (Event_Set (pause_event_set k)))
  | S_event b => Some (S_spin b, set_event k (Event_Set (event_set k)))
  | S_spin b => if eqb (paused_set k) b then Some (H_idle, k) else None
  | D_flag => Some (D_shutting_down, set_paused k true)
  | D_shutting_down => Some (D_set, set_shutting_down k true)
  | D_set => Some (D_event, set_pause_event k (Event_Set (pause_event_set k)))
  | D_event => Some (if timer_thread k then D_join else D_reset, set_event k (Event_Set (event_set k)))
  | D_join => if exited then Some (D_reset, k) else None
  | D_reset => Some (D_done, set_has_started (set_timer_thread k false) false)
  end.

(** The first program points of the calls. *)
Definition is_call (pc : CallPc) : bool :=
  match pc with P_flag _ | S_test _ | D_flag => true | _ => false end.
(** The calls without [Pause]. *)
Definition is_sync_call (pc : CallPc) : bool :=
  match pc with S_test _ | D_flag => true | _ => false end.

Record Threads := { timer : TimerPc; caller : CallPc; flags : Control }.

Definition exited (s : Threads) : bool := match timer s with T_exit => true | _ => false end.

Inductive timer_moves : Threads -> Threads -> Prop :=
  | timer_move next_time s pc k : timer_step next_time (timer s) (flags s) = Some (pc, k) ->
      timer_moves s {| timer := pc; caller := caller s; flags := k |}.

(** The caller goes on or starts one of the calls it may make, or another
    thread schedules an event. *)
Inductive others_move (may_call : CallPc -> bool) : Threads -> Threads -> Prop :=
  | caller_move s pc k : call_step (exited s) (caller s) (flags s) = Some (pc, k) ->
      others_move may_call s {| timer := timer s; caller := pc; flags := k |}
  | caller_call s pc : caller s = H_idle -> may_call pc = true ->
      others_move may_call s {| timer := timer s; caller := pc; flags := flags s |}
  | scheduled_event s :
      others_move may_call s {| timer := timer s; caller := caller s; flags := set_event (flags s) (Event_Set (event_set (flags s))) |}.

Definition threads_step (may_call : CallPc -> bool) (s s' : Threads) : Prop :=
  timer_moves s s' \/ others_move may_call s s'.

(** After [Initialize] in multicore mode. *)
Definition Threads_new : Threads :=
  {| timer := T_start; caller := H_idle; flags := control (Initialize (SetMulticore CoreTiming_new true)) |}.

End CoreTimingThread.
Import CoreTimingThread.

(** ** The finite state space

    Properties of one step are checked on every state. *)

Definition all_bools : list bool := [true; false].
Definition all_timers : list TimerPc :=
  [T_start; T_outer; T_inner; T_clear; T_advance; T_wait_for; T_wait_set; T_wait; T_wait_clear; T_paused; T_pause_wait; T_exit].
Definition all_callers : list CallPc :=
  [H_idle; P_set; D_flag; D_shutting_down; D_set; D_event; D_join; D_reset; D_done]
  ++ flat_map (fun f => map f all_bools) [P_flag; S_test; S_flag; S_set; S_set2; S_event; S_spin].
Definition all_controls : list Control :=
  flat_map (fun a => flat_map (fun b => flat_map (fun c => flat_map (fun d =>
  flat_map (fun e => flat_map (fun f => flat_map (fun g => map (fun h =>
    {| paused := a; paused_set := b; wait_set := c; shutting_down := d; has_started := e; event_set := f;
       pause_event_set := g; timer_thread := h |}) all_bools) all_bools) all_bools) all_bools) all_bools) all_bools) all_bools) all_bools.
(** The results of [Advance] that [timer_step] tells apart. *)
Definition all_results : list (option Z) := [Some 1%Z; Some 0%Z; None].

Lemma bools_complete b : In b all_bools.
Proof. destruct b; simpl; tauto. Qed.
Lemma timers_complete t : In t all_timers.
Proof. destruct t; simpl; tauto. Qed.
Lemma callers_complete c : In c all_callers.
Proof. destruct c as [|b| |b|b|b|b|b|b| | | | | | |]; try destruct b; simpl; tauto. Qed.
Lemma controls_complete k : In k all_controls.
Proof.
  destruct k as [a b c d e f g h]. unfold all_controls.
  repeat (apply in_flat_map; eexists; split; [apply bools_complete|]). apply in_map_iff. eauto using bools_complete.
Qed.
Lemma results_complete o : exists o', In o' all_results /\ forall pc k, timer_step o pc k = timer_step o' pc k.
Proof.
  destruct o as [t|]; [destruct (0 <? t)%Z eqn:E|].
  - exists (Some 1%Z). split; [simpl; tauto|]. intros []; try done. cbn. by rewrite E.
  - exists (Some 0%Z). split; [simpl; tauto|]. intros []; try done. cbn. by rewrite E.
  - exists None. split; [simpl; tauto|done].
Qed.

Definition check_all (P : option Z -> Threads -> bool) : bool :=
  forallb (fun k => forallb (fun t => forallb (fun c => forallb (fun o =>
    P o {| timer := t; caller := c; flags := k |}) all_results) all_callers) all_timers) all_controls.

Lemma check_all_sound P : check_all P = true -> forall o s, In o all_results -> P o s = true.
Proof.
  unfold check_all. intros H o [t c k] Ho. rewrite forallb_forall in H. specialize (H k (controls_complete k)).
  rewrite forallb_forall in H. specialize (H t (timers_complete t)). rewrite forallb_forall in H. specialize (H c (callers_complete c)).
  rewrite forallb_forall in H. by apply H.
Qed.

(** ** The invariant *)

Definition is_pc (l : list TimerPc) (t : TimerPc) : bool :=
  existsb (fun x => match x, t with
    | T_start, T_start | T_outer, T_outer | T_inner, T_inner | T_clear, T_clear | T_advance, T_advance
    | T_wait_for, T_wait_for | T_wait_set, T_wait_set | T_wait, T_wait | T_wait_clear, T_wait_clear
    | T_paused, T_paused | T_pause_wait, T_pause_wait | T_exit, T_exit => true
    | _, _ => false end) l.

(** In the body of the inner loop. *)
Definition advancing : TimerPc -> bool := is_pc [T_clear; T_advance; T_wait_for; T_wait_set; T_wait; T_wait_clear].

(** Between calls the timer thread has seen the last one. *)
Definition settled (t : TimerPc) (k : Control) : bool :=
  timer_thread k && negb (shutting_down k) && eqb (paused_set k) (paused k)
  && (if paused k then negb (advancing t) else negb (is_pc [T_paused; T_pause_wait] t)).

(** While it is told to stop, or to go on. *)
Definition stopping (t : TimerPc) (k : Control) : bool :=
  timer_thread k && negb (shutting_down k) && paused k && implb (paused_set k) (negb (advancing t)).
Definition resuming (t : TimerPc) (k : Control) : bool :=
  timer_thread k && negb (shutting_down k) && negb (paused k) && implb (negb (paused_set k)) (negb (is_pc [T_paused; T_pause_wait] t)).

(** A wake-up is pending wherever the thread could block. *)
Definition event_pending (t : TimerPc) (k : Control) : bool :=
  implb (is_pc [T_clear; T_advance; T_wait_set; T_wait] t) (event_set k).
Definition pause_event_pending (l : list TimerPc) (t : TimerPc) (k : Control) : bool :=
  implb (negb (is_pc l t)) (pause_event_set k).

Definition invariant (s : Threads) : bool :=
  let t := timer s in let k := flags s in
  implb (is_pc [T_advance; T_wait_for; T_wait_set; T_wait; T_wait_clear] t) (negb (paused_set k))
  && implb (is_pc [T_pause_wait] t) (paused_set k)
  && implb (is_pc [T_exit] t) (shutting_down k)
  && match caller s with
     | H_idle | S_test _ | D_flag => settled t k
     | S_flag b => settled t k && eqb (paused k) (negb b)
     | S_set true | S_event true => stopping t k
     | S_spin true => stopping t k && event_pending t k
     | S_set false => resuming t k
     | S_set2 false | S_event false | S_spin false =>
         resuming t k && implb (is_pc [T_paused; T_pause_wait] t) (pause_event_set k)
     | D_shutting_down => timer_thread k && paused k
     | D_set => timer_thread k && paused k && shutting_down k
     | D_event => timer_thread k && paused k && shutting_down k && pause_event_pending [T_start; T_outer; T_exit] t k
     | D_join => timer_thread k && paused k && shutting_down k && pause_event_pending [T_start; T_outer; T_exit] t k && event_pending t k
     | D_reset | D_done => is_pc [T_exit] t
     | _ => false
     end.

(** A call that waits for the timer thread, and what it waits for. *)
Definition waiting (c : CallPc) : bool := match c with S_spin _ | D_join => true | _ => false end.
Definition awaited (s : Threads) : bool :=
  match caller s with S_spin b => eqb (paused_set (flags s)) b | D_join => exited s | _ => false end.

(** How many steps of the timer thread the call has to wait, at most. *)
Definition rank (s : Threads) : nat :=
  if awaited s then 0
  else match caller s, timer s with
       | S_spin false, T_start => 5 | S_spin false, T_paused => 5 | S_spin false, T_pause_wait => 4
       | S_spin false, T_outer => 3 | S_spin false, T_inner => 2 | S_spin false, _ => 1
       | _, T_clear => 9 | _, T_advance => 8 | _, T_wait_set => 7 | _, T_wait => 6 | _, T_wait_for => 6 | _, T_wait_clear => 5
       | S_spin true, T_start => 4 | S_spin true, T_outer => 3 | S_spin true, T_inner => 2 | S_spin true, _ => 1
       | _, T_inner => 4 | _, T_paused => 3 | _, T_pause_wait => 2 | _, T_start => 2 | _, _ => 1
       end.

Definition timer_check (o : option Z) (s : Threads) : bool :=
  implb (invariant s)
    match timer_step o (timer s) (flags s) with
    | Some (t, k) =>
        let s' := {| timer := t; caller := caller s; flags := k |} in
        invariant s' && implb (waiting (caller s)) (if awaited s then awaited s' else (rank s' <? rank s)%nat)
    | None => implb (waiting (caller s)) (awaited s)
    end.

Definition others_check (_ : option Z) (s : Threads) : bool :=
  implb (invariant s)
    (match call_step (exited s) (caller s) (flags s) with
     | Some (c, k) => invariant {| timer := timer s; caller := c; flags := k |}
     | None => true
     end
     && (let s' := {| timer := timer s; caller := caller s; flags := set_event (flags s) (Event_Set (event_set (flags s))) |} in
         invariant s' && implb (waiting (caller s)) (Nat.eqb (rank s') (rank s) && implb (awaited s) (awaited s')))).

Lemma timer_checked : check_all timer_check = true.
Proof. vm_compute. reflexivity. Qed.
Lemma others_checked : check_all others_check = true.
Proof. vm_compute. reflexivity. Qed.

(** One step of the timer thread. *)
Lemma timer_moves_ok s s' : invariant s = true -> timer_moves s s' ->
  invariant s' = true /\ caller s' = caller s
  /\ (waiting (caller s) = true -> if awaited s then awaited s' = true else (rank s' < rank s)%nat).
Proof.
  intros Hi Hm. destruct Hm as [o s0 pc k E]. destruct (results_complete o) as (o' & Ho & Eo). rewrite Eo in E.
  pose proof (check_all_sound timer_check timer_checked o' s0 Ho) as H. unfold timer_check in H. rewrite Hi, E in H. cbn in H.
  apply andb_prop in H as [H1 H2]. split; [done|]. split; [done|]. intros Hw. rewrite Hw in H2. cbn in H2.
  destruct (awaited s0); [done|]. by apply Nat.ltb_lt.
Qed.

(** A call never waits for a timer thread that is blocked. *)
Lemma timer_not_blocked s o : invariant s = true -> waiting (caller s) = true -> awaited s = false ->
  is_Some (timer_step o (timer s) (flags s)).
Proof.
  intros Hi Hw Ha. destruct (results_complete o) as (o' & Ho & Eo). rewrite Eo.
  pose proof (check_all_sound timer_check timer_checked o' s Ho) as H. unfold timer_check in H. rewrite Hi in H.
  destruct (timer_step o' (timer s) (flags s)); [eauto|]. cbn in H. by rewrite Hw, Ha in H.
Qed.

Lemma others_checked_at s : invariant s = true ->
  match call_step (exited s) (caller s) (flags s) with
  | Some (c, k) => invariant {| timer := timer s; caller := c; flags := k |} = true
  | None => True
  end
  /\ let s' := {| timer := timer s; caller := caller s; flags := set_event (flags s) (Event_Set (event_set (flags s))) |} in
     invariant s' = true /\ (waiting (caller s) = true -> rank s' = rank s /\ (awaited s = true -> awaited s' = true)).
Proof.
  intros Hi. pose proof (check_all_sound others_check others_checked None s) as H. unfold others_check in H. rewrite Hi in H.
  cbn zeta in H. cbn [implb] in H. specialize (H ltac:(simpl; tauto)).
  apply andb_prop in H as [H1 H2]. apply andb_prop in H2 as [H2 H3]. split.
  { by destruct (call_step _ _ _) as [[c k]|]. }
  split; [done|]. intros Hw. rewrite Hw in H3. cbn [implb] in H3. apply andb_prop in H3 as [H3 H4].
  split; [by apply Nat.eqb_eq|]. intros Ha. by rewrite Ha in H4.
Qed.

Lemma threads_step_ok s s' : invariant s = true -> threads_step is_sync_call s s' -> invariant s' = true.
Proof.
  intros Hi [Ht|Ho]; [by destruct (timer_moves_ok s s' Hi Ht)|].
  destruct Ho as [s pc k E|s pc Ec Hc|s]; [|destruct s as [t c k]; cbn in *; subst; by destruct pc|].
  - destruct (others_checked_at s Hi) as [H _]. by rewrite E in H.
  - by destruct (others_checked_at s Hi) as [_ [H _]].
Qed.

Lemma reachable_invariant s : rtc (threads_step is_sync_call) Threads_new s -> invariant s = true.
Proof.
  apply (rtc_ind_r (fun s => invariant s = true)); [reflexivity|]. intros. by eapply threads_step_ok.
Qed.

(** [n] steps of the timer thread, while other threads schedule events. *)
Inductive timer_run : nat -> Threads -> Threads -> Prop :=
  | timer_run_refl s : timer_run 0 s s
  | timer_run_timer n s s1 s2 : timer_moves s s1 -> timer_run n s1 s2 -> timer_run (S n) s s2
  | timer_run_event n s s2 :
      timer_run n {| timer := timer s; caller := caller s; flags := set_event (flags s) (Event_Set (event_set (flags s))) |} s2 ->
      timer_run n s s2.

(** What the call waits for stays true. *)
Lemma timer_run_awaited n s s' : timer_run n s s' -> invariant s = true -> waiting (caller s) = true ->
  awaited s = true -> awaited s' = true.
Proof.
  induction 1 as [s|n s s1 s2 Ht Hr IH|n s s2 Hr IH]; intros Hi Hw Ha; [done| |].
  - destruct (timer_moves_ok s s1 Hi Ht) as (Hi1 & Ec & Hs). specialize (Hs Hw). rewrite Ha in Hs. apply IH; congruence.
  - destruct (others_checked_at s Hi) as [_ [Hi1 Hs]]. destruct (Hs Hw) as [_ Hs']. apply IH; [done|done|by apply Hs'].
Qed.

Lemma timer_run_rank n s s' : timer_run n s s' -> invariant s = true -> waiting (caller s) = true ->
  awaited s' = true \/ (n + rank s' <= rank s)%nat.
Proof.
  induction 1 as [s|n s s1 s2 Ht Hr IH|n s s2 Hr IH]; intros Hi Hw; [right; lia| |].
  - destruct (timer_moves_ok s s1 Hi Ht) as (Hi1 & Ec & Hs). specialize (Hs Hw). rewrite <- Ec in Hw.
    destruct (awaited s); [left; by eapply timer_run_awaited|]. destruct (IH Hi1 Hw); [by left|right; lia].
  - destruct (others_checked_at s Hi) as [_ [Hi1 Hs]]. destruct (Hs Hw) as [Hs1 _].
    destruct (IH Hi1 Hw); [by left|right; lia].
Qed.

Lemma rank_bound s : waiting (caller s) = true -> awaited s = false -> (1 <= rank s <= 9)%nat.
Proof.
  intros Hw Ha. unfold rank. rewrite Ha. destruct (caller s) as [| | | | | | | |[]| | | | | | |], (timer s); try done; lia.
Qed.

(** ** Schedules

    A run given by the list of its moves. *)
Inductive Move := MTimer (next_time : option Z) | MCaller | MCall (pc : CallPc) | MEvent.

Definition move (may_call : CallPc -> bool) (s : Threads) (m : Move) : option Threads :=
  match m with
  | MTimer o => '(t, k) ← timer_step o (timer s) (flags s); Some {| timer := t; caller := caller s; flags := k |}
  | MCaller => '(c, k) ← call_step (exited s) (caller s) (flags s); Some {| timer := timer s; caller := c; flags := k |}
  | MCall pc => match caller s with
                | H_idle => if may_call pc then Some {| timer := timer s; caller := pc; flags := flags s |} else None
                | _ => None
                end
  | MEvent => Some {| timer := timer s; caller := caller s; flags := set_event (flags s) (Event_Set (event_set (flags s))) |}
  end.

Fixpoint moves (may_call : CallPc -> bool) (s : Threads) (ms : list Move) : option Threads :=
  match ms with
  | [] => Some s
  | m :: ms => s ← move may_call s m; moves may_call s ms
  end.

Lemma moves_reachable may_call ms s s' : moves may_call s ms = Some s' -> rtc (threads_step may_call) s s'.
Proof.
  revert s. induction ms as [|m ms IH]; intros s E; cbn in E; [injection E as <-; apply rtc_refl|].
  destruct (move may_call s m) as [s1|] eqn:Em; [|done]. cbn in E. eapply rtc_l; [|by apply IH].
  destruct m as [o| |pc|]; cbn in Em.
  - left. destruct (timer_step o (timer s) (flags s)) as [[t k]|] eqn:Et; [|done]. injection Em as <-. by eapply timer_move.
  - right. destruct (call_step _ _ _) as [[c k]|] eqn:Ec; [|done]. injection Em as <-. by apply caller_move.
  - right. destruct (caller s) eqn:Ec; try done. destruct (may_call pc) eqn:Ep; [|done]. injection Em as <-. by apply caller_call.
  - right. injection Em as <-. apply scheduled_event.
Qed.

(** ** Theorems *)

(** C24: the pause handshake is exact.  When the timer thread is paused and resumed only
    through [SyncPause], then whenever no call is under way it is in the state
    that was asked for: paused, it is outside of the loop that runs [Advance]
    and stays outside until it is resumed; and [paused_set] agrees with
    [paused], whatever the interleaving of the threads was. *)
Theorem sync_pause_exact s s' : rtc (threads_step is_sync_call) Threads_new s -> caller s = H_idle ->
  paused_set (flags s) = paused (flags s)
  /\ (paused (flags s) = true -> forall n, timer_run n s s' -> advancing (timer s') = false /\ paused_set (flags s') = true).
Proof.
  intros Hr Hc. pose proof (reachable_invariant s Hr) as Hi.
  assert (forall s, invariant s = true -> caller s = H_idle -> paused_set (flags s) = paused (flags s)
            /\ (paused (flags s) = true -> advancing (timer s) = false)) as Hsettled.
  { intros x Hx Ex. unfold invariant in Hx. rewrite Ex in Hx. apply andb_prop in Hx as [_ Hx]. unfold settled in Hx.
    apply andb_prop in Hx as [Hx H2]. apply andb_prop in Hx as [_ H1]. apply eqb_prop in H1. split; [done|].
    intros E. rewrite E in H2. by destruct (advancing (timer x)). }
  split; [by apply Hsettled|]. intros Hp n Hrun. revert Hi Hc Hp. clear Hr.
  induction Hrun as [s|n s s1 s2 Ht Hr IH|n s s2 Hr IH]; intros Hi Hc Hp.
  - destruct (Hsettled s Hi Hc) as [E H]. rewrite E. auto.
  - destruct (timer_moves_ok s s1 Hi Ht) as (Hi1 & Ec & _). apply IH; [done|congruence|].
    destruct Ht as [o s t k E]. cbn in *. destruct (timer s); cbn in E; repeat case_match; simplify_option_eq; done.
  - apply IH; [|done|done]. by destruct (others_checked_at s Hi) as [_ [H _]].
Qed.

Lemma sync_pause_exact_witness :
  exists s, rtc (threads_step is_sync_call) Threads_new s /\ caller s = H_idle /\ timer s = T_pause_wait
    /\ paused_set (flags s) = paused (flags s) /\ advancing (timer s) = false.
Proof.
  assert (exists s, rtc (threads_step is_sync_call) Threads_new s /\ caller s = H_idle /\ timer s = T_pause_wait
    /\ paused (flags s) = true) as (s & Hr & Hc & Ht & Hp).
  { eexists. split; [apply (moves_reachable _ (replicate 6 (MTimer None) ++ [MCall (S_test true)] ++ replicate 4 MCaller
      ++ replicate 4 (MTimer None) ++ [MCaller])); vm_compute; reflexivity|]. repeat split. }
  exists s. split; [exact Hr|]. split; [exact Hc|]. split; [exact Ht|].
  destruct (sync_pause_exact s s Hr Hc) as [E H]. split; [exact E|]. apply (H Hp 0%nat). apply timer_run_refl.
Defined.

(** C25: no wake-up is lost.  While [SyncPause] waits for the timer thread, or [Shutdown]
    joins it, the timer thread is never blocked, and what the call waits for
    has happened after at most nine of its steps, whatever [Advance] returns
    and however many events other threads schedule in the meantime. *)
Theorem handshake_completes s : rtc (threads_step is_sync_call) Threads_new s -> waiting (caller s) = true ->
  (awaited s = false -> forall next_time, is_Some (timer_step next_time (timer s) (flags s)))
  /\ (awaited s = true -> is_Some (call_step (exited s) (caller s) (flags s)))
  /\ (forall n s', timer_run n s s' -> (9 <= n)%nat -> awaited s' = true).
Proof.
  intros Hr Hw. pose proof (reachable_invariant s Hr) as Hi. split; [|split].
  - intros Ha o. by apply timer_not_blocked.
  - unfold awaited. destruct (caller s); try done; cbn; intros ->; eauto.
  - intros n s' Hrun Hn. destruct (awaited s) eqn:Ha; [by eapply timer_run_awaited|].
    destruct (timer_run_rank n s s' Hrun Hi Hw) as [|Hle]; [done|].
    pose proof (rank_bound s Hw Ha). destruct (awaited s') eqn:Ha'; [done|]. exfalso.
    assert (caller s' = caller s) as Ec by (clear -Hrun; induction Hrun as [| ? ? ? ? []|]; done).
    rewrite <- Ec in Hw. pose proof (rank_bound s' Hw Ha'). lia.
Qed.

Lemma handshake_completes_witness :
  exists s, rtc (threads_step is_sync_call) Threads_new s /\ caller s = D_join /\ timer s = T_wait /\ awaited s = false
    /\ is_Some (timer_step None (timer s) (flags s)).
Proof.
  assert (exists s, rtc (threads_step is_sync_call) Threads_new s /\ caller s = D_join /\ timer s = T_wait /\ awaited s = false)
    as (s & Hr & Hc & Ht & Ha).
  { eexists. split; [apply (moves_reachable _ (replicate 6 (MTimer None) ++ [MCall D_flag] ++ replicate 4 MCaller));
      vm_compute; reflexivity|]. repeat split. }
  exists s. split; [exact Hr|]. split; [exact Hc|]. split; [exact Ht|]. split; [exact Ha|].
  apply (handshake_completes s Hr); [|exact Ha]. rewrite Hc. reflexivity.
Defined.

(** With [Pause] the handshake can fail: resumed by [Pause(false)] and then
    paused by [SyncPause(true)], the timer thread may run [Advance] after the
    second call has returned, because [paused_set] was still true from before. *)
Lemma sync_pause_returns_early : exists s s1,
  rtc (threads_step is_call) Threads_new s /\ caller s = H_idle /\ paused (flags s) = true
  /\ timer_run 1 s s1 /\ timer s1 = T_advance.
Proof.
  eexists _, _. split; [apply (moves_reachable _ ([MTimer None; MCall (S_test true)] ++ replicate 4 MCaller
    ++ replicate 5 (MTimer None) ++ [MCaller; MCall (P_flag false); MCaller; MTimer None; MCaller; MCall (S_test true)]
    ++ replicate 5 MCaller)); vm_compute; reflexivity|].
  split; [reflexivity|]. split; [reflexivity|].
  split; [eapply timer_run_timer; [apply (timer_move None); reflexivity|apply timer_run_refl]|reflexivity].
Qed.
