(* ===== verification/StringUtil.v ===== *)
(** * Strings

    The functions of [src/src/common/string_util.cpp] that do not depend on
    the platform, and [src/src/common/hex_util.cpp].  A [std::string] is the
    list of its character codes.  Reading outside of a string and a search
    that never ends (spent fuel) yield [None]. *)

From S2P Require Import Prelude.
From stdpp Require Import base list strings.
Open Scope Z_scope.
Open Scope c_scope.

(** The codes of a literal. *)
Definition chars (s : string) : list Z := map (fun c => Z.of_nat (Ascii.nat_of_ascii c)) (String.list_ascii_of_string s).

Module StringUtil.

(** ** Characters *)

(** [std::tolower] and [std::toupper] in the C locale. *)
Definition tolower (c : Z) : Z := if (65 <=? c) && (c <=? 90) then c + 32 else c.
Definition toupper (c : Z) : Z := if (97 <=? c) && (c <=? 122) then c - 32 else c.
Definition ToLower (str : list Z) : list Z := map tolower str.
Definition ToUpper (str : list Z) : list Z := map toupper str.

(** [std::find_if], as the number of elements before it. *)
Fixpoint find_if (p : Z -> bool) (l : list Z) : nat :=
  match l with
  | [] => 0
  | x :: l => if p x then 0 else S (find_if p l)
  end.

(** [find_last_of], [rfind]: the last position that satisfies [p]. *)
Definition find_last (p : Z -> bool) (l : list Z) : option nat :=
  let n := find_if p (reverse l) in
  if (n <? length l)%nat then Some (length l - 1 - n)%nat else None.

Definition StringFromBuffer (data : list Z) : list Z := take (find_if (Z.eqb 0) data) data.

(** [StringFromFixedZeroTerminatedBuffer]; the buffer has at least [max_len]
    characters or a zero. *)
Fixpoint zero_terminated_len (buffer : list Z) (max_len : nat) : nat :=
  match max_len, buffer with
  | S max_len, c :: buffer => if c =? 0 then 0 else S (zero_terminated_len buffer max_len)
  | _, _ => 0
  end.
Definition StringFromFixedZeroTerminatedBuffer (buffer : list Z) (max_len : nat) : list Z :=
  take (zero_terminated_len buffer max_len) buffer.

Definition is_space (c : Z) : bool := (c =? 32) || (c =? 9) || (c =? 13) || (c =? 10).

Definition StripSpaces (str : list Z) : list Z :=
  let s := find_if (fun c => negb (is_space c)) str in
  match find_last (fun c => negb (is_space c)) str with
  | Some e => take (e - s + 1) (drop s str)
  | None => []
  end.

(** [s.substr(1, s.size() - 2)]: of a single quote nothing is left. *)
Definition StripQuotes (s : list Z) : list Z :=
  match s, last s with
  | c :: s', Some e => if (c =? 34) && (e =? 34) then take (length s - 2) s' else s
  | _, _ => s
  end.

Definition StringFromBool (value : bool) : list Z := if value then chars "True" else chars "False".

(** [SplitPath], without the Windows separators: directory, name, extension. *)
Definition SplitPath (full_path : list Z) : option (list Z * list Z * list Z) :=
  match full_path with
  | [] => None
  | _ =>
      let dir_end := match find_last (Z.eqb 47) full_path with Some i => (i + 1)%nat | None => 0%nat end in
      let fname_end := match find_last (Z.eqb 46) full_path with
                       | Some i => if (i <? dir_end)%nat then length full_path else i
                       | None => length full_path
                       end in
      Some (take dir_end full_path, take (fname_end - dir_end) (drop dir_end full_path), drop fname_end full_path)
  end.

(** ** Splitting *)

(** [std::getline]: the characters before the delimiter, and what follows it. *)
Fixpoint getline (delim : Z) (s : list Z) : list Z * list Z :=
  match s with
  | [] => ([], [])
  | c :: s => if c =? delim then ([], s) else let '(line, rest) := getline delim s in (c :: line, rest)
  end.

(** The loop of [SplitString]: a read at the end of the stream fails. *)
Fixpoint split_loop (fuel : nat) (delim : Z) (s : list Z) : option (list (list Z)) :=
  match fuel with
  | O => None
  | S fuel =>
      match s with
      | [] => Some []
      | _ => let '(line, rest) := getline delim s in lines ← split_loop fuel delim rest; Some (line :: lines)
      end
  end.
Definition SplitString (str : list Z) (delim : Z) : option (list (list Z)) := split_loop (S (length str)) delim str.

(** ** Replacing *)

Fixpoint starts_with (src l : list Z) : bool :=
  match src, l with
  | [], _ => true
  | a :: src, b :: l => (a =? b) && starts_with src l
  | _ :: _, [] => false
  end.

(** [l.find(src, pos)]. *)
Fixpoint find_in (src l : list Z) : option nat :=
  if starts_with src l then Some 0%nat
  else match l with
       | [] => None
       | _ :: l => S <$> find_in src l
       end.
Definition find (result src : list Z) (pos : nat) : option nat := Nat.add pos <$> find_in src (drop pos result).

Fixpoint replace_loop (fuel : nat) (result src dest : list Z) (pos : nat) : option (list Z) :=
  match fuel with
  | O => None
  | S fuel =>
      match find result src pos with
      | None => Some result
      | Some pos =>
          replace_loop fuel (take pos result ++ dest ++ drop (pos + length src) result) src dest (pos + length dest)
      end
  end.
Definition ReplaceAll (result src dest : list Z) : option (list Z) :=
  if decide (src = dest) then Some result else replace_loop (S (length result)) result src dest 0.

(** [TabsToSpaces] for a tab size that is not negative: it looks for a tab
    from the beginning each time. *)
Fixpoint tabs_loop (fuel : nat) (tab_size : nat) (l : list Z) : option (list Z) :=
  match fuel with
  | O => None
  | S fuel =>
      match find l [9] 0 with
      | None => Some l
      | Some i => tabs_loop fuel tab_size (take i l ++ replicate tab_size 32 ++ drop (i + 1) l)
      end
  end.
Definition TabsToSpaces (tab_size : nat) (l : list Z) : option (list Z) := tabs_loop (S (length l)) tab_size l.

(** ** Hexadecimal *)

Definition ToHexNibble (c1 : Z) : Z :=
  if (65 <=? c1) && (c1 <=? 70) then c1 - 55
  else if (97 <=? c1) && (c1 <=? 102) then c1 - 87
  else if (48 <=? c1) && (c1 <=? 57) then c1 - 48
  else 0.

(** One assignment [out[i / 2] = (ToHexNibble(str[i]) << 4) | ToHexNibble(str[i + 1])]. *)
Definition hex_byte (str out : list Z) (i : nat) : option (list Z) :=
  a ← str !! i; b ← str !! S i;
  if (i / 2 <? length out)%nat
  then Some (<[(i / 2)%nat := to_u8 (ToHexNibble a << 4 .| ToHexNibble b)]> out) else None.

(** [for (i = 0; i < limit; i += 2)]. *)
Fixpoint hex_up (n limit : nat) (str out : list Z) (i : nat) : option (list Z) :=
  match n with
  | O => None
  | S n => if (i <? limit)%nat then out ← hex_byte str out i; hex_up n limit str out (i + 2) else Some out
  end.
(** [for (i = limit - 2; i <= limit; i -= 2)], which ends when the index
    wraps around; [m] is the index plus two. *)
Fixpoint hex_down (n : nat) (str out : list Z) (m : nat) : option (list Z) :=
  match n with
  | O => None
  | S n => if (2 <=? m)%nat then out ← hex_byte str out (m - 2); hex_down n str out (m - 2) else Some out
  end.

Definition HexStringToVector (str : list Z) (little_endian : bool) : option (list Z) :=
  let out := replicate (length str / 2) 0 in
  if little_endian then hex_down (S (length str)) str out (length str) else hex_up (S (length str)) (length str) str out 0.

(** [HexStringToArray<Size, le>]. *)
Definition HexStringToArray (Size : nat) (le : bool) (str : list Z) : option (list Z) :=
  let out := replicate Size 0 in
  if le then hex_down (S Size) str out (2 * Size) else hex_up (S Size) (2 * Size) str out 0.

(** [fmt::format] of an octet with two digits. *)
Definition hex_digit (upper : bool) (d : Z) : Z := if d <? 10 then 48 + d else (if upper then 55 else 87) + d.
Definition HexToString (data : list Z) (upper : bool) : list Z :=
  flat_map (fun c => [hex_digit upper (c / 16); hex_digit upper (c mod 16)]) data.

(** The literals [_array16] and [_array32]. *)
Definition array_literal (size : nat) (str : list Z) : option (list Z) :=
  if (length str =? 2 * size)%nat then HexStringToArray size false str else Some (replicate size 0).

End StringUtil.
Import StringUtil.

(** ** Replacing *)

Section Replace.
Context (src dest : list Z).

(** Each occurrence, from the left, becomes [dest]; [skip] characters belong
    to an occurrence already seen. *)
Fixpoint substitute (skip : nat) (l : list Z) : list Z :=
  match l with
  | [] => []
  | x :: l' =>
      match skip with
      | S k => substitute k l'
      | O => if starts_with src (x :: l') then dest ++ substitute (length src - 1) l' else x :: substitute 0 l'
      end
  end.

Lemma substitute_skip k l : substitute k l = substitute 0 (drop k l).
Proof.
  revert k. induction l as [|x l IH]; intros [|k]; try done. simpl. rewrite IH. by destruct (drop k l).
Qed.

Lemma substitute_find l : src <> [] ->
  substitute 0 l = match find_in src l with
                   | None => l
                   | Some k => take k l ++ dest ++ substitute 0 (drop (k + length src) l)
                   end.
Proof.
  intros Hs. induction l as [|x l IH].
  { simpl. destruct src; [done|]. done. }
  cbn [find_in substitute]. destruct (starts_with src (x :: l)).
  - rewrite substitute_skip. simpl. destruct src as [|a src0] eqn:E; [done|]. simpl. by rewrite Nat.sub_0_r.
  - rewrite IH. by destruct (find_in src l) as [k|].
Qed.

Lemma find_in_bound l k : src <> [] -> find_in src l = Some k -> (k + 1 <= length l)%nat.
Proof.
  intros Hs. revert k. induction l as [|x l IH]; intros k; cbn [find_in].
  { destruct src; [done|]. done. }
  destruct (starts_with src (x :: l)); [intros [= <-]; simpl; lia|].
  destruct (find_in src l) as [j|]; [|done]. intros [= <-]. specialize (IH j eq_refl). simpl. lia.
Qed.

Lemma replace_loop_spec fuel pre rest : src <> [] -> (length rest < fuel)%nat ->
  replace_loop fuel (pre ++ rest) src dest (length pre) = Some (pre ++ substitute 0 rest).
Proof.
  intros Hs. revert pre rest. induction fuel as [|fuel IH]; intros pre rest Hf; [lia|]. cbn [replace_loop].
  unfold find. rewrite drop_app_length, (substitute_find rest) by done.
  destruct (find_in src rest) as [k|] eqn:E; [|done]. cbn [fmap option_fmap option_map].
  pose proof (find_in_bound rest k Hs E). assert (1 <= length src)%nat by (destruct src; [done|simpl; lia]).
  replace (take (length pre + k) (pre ++ rest) ++ dest ++ drop (length pre + k + length src) (pre ++ rest))
    with ((pre ++ take k rest ++ dest) ++ drop (k + length src) rest)
    by (rewrite take_app_add, <- Nat.add_assoc, drop_app_add, <- !app_assoc; done).
  replace (length pre + k + length dest)%nat with (length (pre ++ take k rest ++ dest))
    by (rewrite !length_app, length_take; lia).
  rewrite IH by (rewrite length_drop; lia). by rewrite !app_assoc.
Qed.
End Replace.

(** [ReplaceAll] ends and replaces every occurrence from the left. *)
Lemma ReplaceAll_spec l src dest : src <> [] -> src <> dest -> ReplaceAll l src dest = Some (substitute src dest 0 l).
Proof.
  intros Hs Hd. unfold ReplaceAll. rewrite decide_False by done. apply (replace_loop_spec src dest _ [] l); [done|lia].
Qed.

Lemma substitute_char c dest l : substitute [c] dest 0 l = flat_map (fun x => if c =? x then dest else [x]) l.
Proof.
  induction l as [|x l IH]; [done|]. simpl. rewrite andb_true_r. by destruct (c =? x); simpl; rewrite IH.
Qed.

(** ** Splitting *)

Fixpoint join_lines (delim : Z) (lines : list (list Z)) : list Z :=
  match lines with
  | [] => []
  | [l] => l
  | l :: lines => l ++ delim :: join_lines delim lines
  end.

Lemma getline_app delim line rest : Forall (fun c => c <> delim) line -> getline delim (line ++ delim :: rest) = (line, rest).
Proof.
  induction 1 as [|c line Hc Hl IH]; simpl; [by rewrite Z.eqb_refl|]. rewrite IH. by destruct (Z.eqb_spec c delim).
Qed.
Lemma getline_last delim line : Forall (fun c => c <> delim) line -> getline delim line = (line, []).
Proof. induction 1 as [|c line Hc Hl IH]; simpl; [done|]. rewrite IH. by destruct (Z.eqb_spec c delim). Qed.

(** Splitting what was joined gives the lines back, unless the last one is
    empty. *)
Lemma SplitString_join delim lines : Forall (Forall (fun c => c <> delim)) lines -> last lines <> Some [] ->
  SplitString (join_lines delim lines) delim = Some lines.
Proof.
  intros Hl Hne. unfold SplitString. generalize (Nat.lt_succ_diag_r (length (join_lines delim lines))).
  generalize (S (length (join_lines delim lines))). revert Hne. induction Hl as [|l lines Hl Hls IH]; intros Hne fuel Hf.
  { by destruct fuel; [lia|]. }
  destruct fuel as [|fuel]; [lia|]. destruct lines as [|l2 lines].
  - simpl in *. destruct l as [|c l]; [done|]. cbn [split_loop]. rewrite getline_last by done. simpl in Hf. by destruct fuel; [lia|].
  - change (join_lines delim (l :: l2 :: lines)) with (l ++ delim :: join_lines delim (l2 :: lines)) in *.
    rewrite length_app in Hf. cbn [length] in Hf. cbn [split_loop]. rewrite getline_app by done.
    rewrite IH; [by destruct l|by rewrite last_cons_cons in Hne|lia].
Qed.

(** ** Paths *)

Lemma find_last_bound p l i : find_last p l = Some i -> (i < length l)%nat.
Proof. unfold find_last. destruct (Nat.ltb_spec (find_if p (reverse l)) (length l)); [intros [= <-]; lia|done]. Qed.

(** The three parts of a path are the path. *)
Lemma SplitPath_parts path dir name ext : SplitPath path = Some (dir, name, ext) -> dir ++ name ++ ext = path.
Proof.
  destruct path as [|c path]; [done|]. cbn [SplitPath]. set (l := c :: path).
  set (d := match find_last (Z.eqb 47) l with Some i => (i + 1)%nat | None => 0%nat end).
  set (e := match find_last (Z.eqb 46) l with Some i => if (i <? d)%nat then length l else i | None => length l end).
  assert (d <= e)%nat as Hde.
  { assert (d <= length l)%nat as Hd.
    { unfold d. destruct (find_last (Z.eqb 47) l) eqn:E; [apply find_last_bound in E; lia|lia]. }
    unfold e. destruct (find_last (Z.eqb 46) l) as [i|]; [|done]. destruct (Nat.ltb_spec i d); lia. }
  intros [= <- <- <-]. replace (drop e l) with (drop (e - d) (drop d l)) by (rewrite drop_drop; f_equal; lia).
  by rewrite take_drop, take_drop.
Qed.

(** ** Hexadecimal *)

(** The octet the digits [2k] and [2k + 1] stand for. *)
Definition hex_value (str : list Z) (k : nat) : Z :=
  to_u8 (ToHexNibble (nth (2 * k) str 0) << 4 .| ToHexNibble (nth (2 * k + 1) str 0)).

Lemma hex_byte_at str out k : (2 * k + 1 < length str)%nat -> (k < length out)%nat ->
  hex_byte str out (2 * k) = Some (<[k := hex_value str k]> out).
Proof.
  intros Hs Ho. unfold hex_byte, hex_value. rewrite !nth_lookup.
  destruct (lookup_lt_is_Some_2 str (2 * k)) as [a Ha]; [lia|]. destruct (lookup_lt_is_Some_2 str (2 * k + 1)) as [b Hb]; [lia|].
  replace (S (2 * k)) with (2 * k + 1)%nat by lia. rewrite Ha, Hb. cbn [mbind option_bind default].
  rewrite (Nat.mul_comm 2 k), Nat.div_mul by lia. by rewrite (proj2 (Nat.ltb_lt _ _) Ho).
Qed.

Lemma hex_up_spec fuel n str out k : (2 * n <= length str)%nat -> length out = n -> (k <= n)%nat -> (n - k < fuel)%nat ->
  hex_up fuel (2 * n) str out (2 * k) = Some (take k out ++ map (hex_value str) (seq k (n - k))).
Proof.
  intros Hs. revert out k. induction fuel as [|fuel IH]; intros out k Ho Hk Hf; [lia|]. cbn [hex_up].
  destruct (Nat.ltb_spec (2 * k) (2 * n)).
  - rewrite hex_byte_at by lia. cbn [mbind option_bind]. replace (2 * k + 2)%nat with (2 * S k)%nat by lia.
    rewrite IH by (rewrite ?length_insert; lia). f_equal.
    replace (n - k)%nat with (S (n - S k)) by lia. cbn [seq map].
    rewrite (take_S_r _ _ (hex_value str k)) by (apply list_lookup_insert_eq; lia).
    rewrite take_insert_ge by lia. by rewrite <- app_assoc.
  - replace (n - k)%nat with 0%nat by lia. simpl. rewrite app_nil_r, take_ge by lia. done.
Qed.

Lemma hex_down_spec fuel str out k : (2 * k <= length str)%nat -> (k <= length out)%nat -> (k < fuel)%nat ->
  hex_down fuel str out (2 * k) = Some (map (hex_value str) (seq 0 k) ++ drop k out).
Proof.
  revert out k. induction fuel as [|fuel IH]; intros out k Hs Ho Hf; [lia|]. destruct k as [|k]; [done|]. cbn [hex_down].
  destruct (Nat.leb_spec 2 (2 * S k)); [|lia]. replace (2 * S k - 2)%nat with (2 * k)%nat by lia.
  rewrite hex_byte_at by lia. cbn [mbind option_bind]. rewrite IH by (rewrite ?length_insert; lia). f_equal.
  rewrite seq_S, map_app, <- app_assoc. f_equal. simpl.
  rewrite (drop_S _ (hex_value str k)) by (apply list_lookup_insert_eq; lia). f_equal. by rewrite drop_insert_lt by lia.
Qed.

(** On strings of even length both directions read the same octets. *)
Lemma HexStringToVector_spec str n le : length str = (2 * n)%nat ->
  HexStringToVector str le = Some (map (hex_value str) (seq 0 n)).
Proof.
  intros Hs. unfold HexStringToVector. rewrite Hs. replace (2 * n / 2)%nat with n by (rewrite Nat.mul_comm, Nat.div_mul; lia).
  destruct le.
  - rewrite hex_down_spec by (rewrite ?length_replicate; lia). rewrite drop_ge by (rewrite length_replicate; lia). by rewrite app_nil_r.
  - pose proof (hex_up_spec (S (2 * n)) n str (replicate n 0) 0) as E. rewrite Nat.mul_0_r, Nat.sub_0_r in E. apply E; rewrite ?length_replicate; lia.
Qed.

Lemma hex_digit_nibble upper d : 0 <= d < 16 -> ToHexNibble (hex_digit upper d) = d.
Proof.
  intros Hd. unfold ToHexNibble, hex_digit. destruct (Z.ltb_spec d 10), upper;
    repeat (match goal with |- context [?a <=? ?b] => destruct (Z.leb_spec a b) end; cbn [andb]); lia.
Qed.

Lemma length_HexToString bs upper : length (HexToString bs upper) = (2 * length bs)%nat.
Proof. induction bs as [|b bs IH]; [done|]. cbn [HexToString flat_map] in *. rewrite length_app. unfold HexToString in IH. simpl in *. lia. Qed.

Lemma HexToString_values bs upper : bytes bs -> map (hex_value (HexToString bs upper)) (seq 0 (length bs)) = bs.
Proof.
  induction 1 as [|b bs Hb Hbs IH]; [done|]. cbn [length seq map]. f_equal.
  - unfold hex_value. cbn [HexToString flat_map app]. simpl nth. unfold is_byte in Hb. rewrite !hex_digit_nibble by zlia.
    rewrite Z.lor_comm, lor_shiftl_add by zlia. rewrite to_u8_mod, Z.mod_small by zlia. zlia.
  - etrans; [|exact IH]. rewrite <- seq_shift, map_map. apply map_ext. intros k. unfold hex_value.
    replace (2 * S k)%nat with (S (S (2 * k))) by lia. replace (S (S (2 * k)) + 1)%nat with (S (S (2 * k + 1))) by lia. done.
Qed.

(** Reading back a hexadecimal string gives the octets it was written from,
    with either case of letters and either value of [little_endian]. *)
Theorem hex_roundtrip bs upper le : bytes bs -> HexStringToVector (HexToString bs upper) le = Some bs.
Proof. intros Hb. rewrite (HexStringToVector_spec _ (length bs)) by apply length_HexToString. by rewrite HexToString_values. Qed.

(** The flag [little_endian] changes nothing on strings of even length: both
    loops store each octet at the place of its digits. *)
Lemma hex_little_endian_ignored str : Nat.Even (length str) -> HexStringToVector str true = HexStringToVector str false.
Proof. intros [n Hn]. by rewrite !(HexStringToVector_spec str n). Qed.

(** A string of odd length is read, and a vector written, past its end. *)
Lemma hex_odd_length : HexStringToVector (chars "abc") false = None.
Proof. reflexivity. Qed.
