(* ===== verification/ParamPackage.v ===== *)
(** * Parameter packages

    [Common::ParamPackage] ([src/src/common/param_package.cpp], [.h]): a map
    from strings to strings that is written to and read from one string.  The
    map is unordered: the order in which [Serialize] visits it is a parameter,
    some enumeration of its entries.  The [float] overloads are left out. *)

From S2P Require Import Prelude StringUtil.
Import StringUtil.
From stdpp Require Import base list gmap strings.
Open Scope Z_scope.
Open Scope c_scope.

Module ParamPackage.

Definition KEY_VALUE_SEPARATOR : Z := 58.
Definition PARAM_SEPARATOR : Z := 44.
Definition ESCAPE_CHARACTER : Z := 36.
Definition KEY_VALUE_SEPARATOR_ESCAPE : list Z := chars "$0".
Definition PARAM_SEPARATOR_ESCAPE : list Z := chars "$1".
Definition ESCAPE_CHARACTER_ESCAPE : list Z := chars "$2".
Definition EMPTY_PLACEHOLDER : list Z := chars "[empty]".

Abbreviation DataType := (gmap (list Z) (list Z)).

(** [Get] and [Set] for strings, [Has], [Erase], [Clear]. *)
Definition Get (data : DataType) (key default_value : list Z) : list Z := default default_value (data !! key).
Definition Set_ (data : DataType) (key value : list Z) : DataType := <[key := value]> data.
Definition Has (data : DataType) (key : list Z) : bool := bool_decide (is_Some (data !! key)).
Definition Erase (data : DataType) (key : list Z) : DataType := delete key data.
Definition Clear (data : DataType) : DataType := ∅.

(** [std::to_string(int)] and [std::stoi], which throws without a digit and
    out of the range of an [int]. *)
Fixpoint digits (fuel : nat) (n : Z) (acc : list Z) : list Z :=
  match fuel with
  | O => acc
  | S fuel => let acc := 48 + n mod 10 :: acc in if n / 10 =? 0 then acc else digits fuel (n / 10) acc
  end.
Definition to_string (v : Z) : list Z := if v <? 0 then 45 :: digits 10 (- v) [] else digits 10 v [].

Definition is_blank (c : Z) : bool := (c =? 32) || ((9 <=? c) && (c <=? 13)).
Fixpoint skip_blanks (l : list Z) : list Z :=
  match l with
  | c :: l' => if is_blank c then skip_blanks l' else l
  | [] => []
  end.
Fixpoint read_digits (l : list Z) (seen : bool) (acc : Z) : option Z :=
  match l with
  | c :: l' => if (48 <=? c) && (c <=? 57) then read_digits l' true (10 * acc + (c - 48)) else if seen then Some acc else None
  | [] => if seen then Some acc else None
  end.
Definition stoi (l : list Z) : option Z :=
  let l := skip_blanks l in
  v ← match l with
      | 45 :: l' => Z.opp <$> read_digits l' false 0
      | 43 :: l' => read_digits l' false 0
      | _ => read_digits l false 0
      end;
  if (- 2 ^ 31 <=? v) && (v <? 2 ^ 31) then Some v else None.

Definition Get_int (data : DataType) (key : list Z) (default_value : Z) : Z :=
  match data !! key with
  | None => default_value
  | Some s => default default_value (stoi s)
  end.
Definition Set_int (data : DataType) (key : list Z) (value : Z) : DataType := <[key := to_string value]> data.

(** ** Writing *)

Definition escape (part : list Z) : option (list Z) :=
  part ← ReplaceAll part [ESCAPE_CHARACTER] ESCAPE_CHARACTER_ESCAPE;
  part ← ReplaceAll part [PARAM_SEPARATOR] PARAM_SEPARATOR_ESCAPE;
  ReplaceAll part [KEY_VALUE_SEPARATOR] KEY_VALUE_SEPARATOR_ESCAPE.

Fixpoint serialize_pairs (pairs : list (list Z * list Z)) (result : list Z) : option (list Z) :=
  match pairs with
  | [] => Some result
  | (k, v) :: pairs =>
      k ← escape k; v ← escape v;
      serialize_pairs pairs (result ++ k ++ [KEY_VALUE_SEPARATOR] ++ v ++ [PARAM_SEPARATOR])
  end.

(** [Serialize], for the order of [pairs]. *)
Definition Serialize (pairs : list (list Z * list Z)) : option (list Z) :=
  match pairs with
  | [] => Some EMPTY_PLACEHOLDER
  | _ => result ← serialize_pairs pairs []; Some (removelast result)
  end.

(** ** Reading *)

Definition unescape (part : list Z) : option (list Z) :=
  part ← ReplaceAll part KEY_VALUE_SEPARATOR_ESCAPE [KEY_VALUE_SEPARATOR];
  part ← ReplaceAll part PARAM_SEPARATOR_ESCAPE [PARAM_SEPARATOR];
  ReplaceAll part ESCAPE_CHARACTER_ESCAPE [ESCAPE_CHARACTER].

Fixpoint parse_pairs (pairs : list (list Z)) (data : DataType) : option DataType :=
  match pairs with
  | [] => Some data
  | p :: pairs =>
      key_value ← SplitString p KEY_VALUE_SEPARATOR;
      match key_value with
      | [k; v] => k ← unescape k; v ← unescape v; parse_pairs pairs (Set_ data k v)
      | _ => parse_pairs pairs data
      end
  end.

(** The constructor from a string. *)
Definition ParamPackage_parse (serialized : list Z) : option DataType :=
  if decide (serialized = EMPTY_PLACEHOLDER) then Some ∅
  else pairs ← SplitString serialized PARAM_SEPARATOR; parse_pairs pairs ∅.

End ParamPackage.
Import ParamPackage.

(** ** Escapes *)

(** What [escape] writes for a character. *)
Definition esc (c : Z) : list Z :=
  if c =? 36 then [36; 50] else if c =? 44 then [36; 49] else if c =? 58 then [36; 48] else [c].

Lemma escape_spec part : escape part = Some (flat_map esc part).
Proof.
  unfold escape. rewrite ReplaceAll_spec by done. cbn [mbind option_bind]. rewrite ReplaceAll_spec by done. cbn [mbind option_bind].
  rewrite ReplaceAll_spec by done. f_equal. rewrite !substitute_char. induction part as [|c part IH]; [done|].
  cbn [flat_map]. rewrite !flat_map_app, IH. f_equal. unfold esc, ESCAPE_CHARACTER, PARAM_SEPARATOR, KEY_VALUE_SEPARATOR.
  rewrite !(Z.eqb_sym _ c). destruct (Z.eqb_spec c 36) as [->|]; [done|]. cbn [flat_map app]. rewrite (Z.eqb_sym _ c).
  destruct (Z.eqb_spec c 44) as [->|]; [done|]. cbn [flat_map app]. rewrite (Z.eqb_sym _ c). by destruct (Z.eqb_spec c 58) as [->|].
Qed.

(** Undoing one escape [$d] of the character [c]. *)
Lemma substitute_escape d c l (f : Z -> list Z) :
  d <> 36 -> f c = [36; d] ->
  (forall x, x <> c -> f x = [x] \/ exists e, f x = [36; e] /\ e <> d /\ e <> 36) -> (f 36 <> [36]) ->
  substitute [36; d] [c] 0 (flat_map f l) = flat_map (fun x => if x =? c then [c] else f x) l.
Proof.
  intros Hd Hc Hf H36. induction l as [|x l IH]; [done|]. cbn [flat_map]. destruct (Z.eqb_spec x c) as [->|Hne].
  - rewrite Hc. cbn [app substitute starts_with]. rewrite !Z.eqb_refl. cbn [andb length Nat.sub]. by rewrite <- IH.
  - destruct (Hf x Hne) as [E|(e & E & He & He')]; rewrite E; cbn [app substitute starts_with].
    + destruct (Z.eqb_spec 36 x) as [<-|]; [by rewrite E in H36|]. cbn [andb]. by rewrite IH.
    + rewrite Z.eqb_refl. destruct (Z.eqb_spec d e); [lia|]. cbn [andb]. destruct (Z.eqb_spec 36 e); [lia|]. cbn [andb]. by rewrite IH.
Qed.

Lemma unescape_escape part : unescape (flat_map esc part) = Some part.
Proof.
  unfold unescape, KEY_VALUE_SEPARATOR, PARAM_SEPARATOR, ESCAPE_CHARACTER. rewrite ReplaceAll_spec by done. cbn [mbind option_bind]. change KEY_VALUE_SEPARATOR_ESCAPE with [36; 48].
  rewrite (substitute_escape 48 58 part esc); [|done|done| |done].
  2: { intros x Hx. unfold esc. destruct (Z.eqb_spec x 36); [right; by exists 50|]. destruct (Z.eqb_spec x 44); [right; by exists 49|].
       destruct (Z.eqb_spec x 58); [lia|by left]. }
  rewrite ReplaceAll_spec by done. cbn [mbind option_bind]. change PARAM_SEPARATOR_ESCAPE with [36; 49].
  rewrite (substitute_escape 49 44 part); [|done|done| |done].
  2: { intros x Hx. unfold esc. destruct (Z.eqb_spec x 58); [left; by subst|]. destruct (Z.eqb_spec x 36); [right; by exists 50|].
       destruct (Z.eqb_spec x 44); [lia|by left]. }
  rewrite ReplaceAll_spec by done. change ESCAPE_CHARACTER_ESCAPE with [36; 50].
  rewrite (substitute_escape 50 36 part); [|done|done| |done].
  2: { intros x Hx. unfold esc. destruct (Z.eqb_spec x 44); [left; by subst|]. destruct (Z.eqb_spec x 58); [left; by subst|].
       destruct (Z.eqb_spec x 36); [lia|by left]. }
  f_equal. induction part as [|x part IH]; [done|]. cbn [flat_map]. rewrite IH. unfold esc.
  destruct (Z.eqb_spec x 36) as [->|]; [done|]. destruct (Z.eqb_spec x 44) as [->|]; [done|]. by destruct (Z.eqb_spec x 58) as [->|].
Qed.

(** An escaped part has none of the separators. *)
Lemma escaped_no_separator part : Forall (fun c => c <> 58) (flat_map esc part) /\ Forall (fun c => c <> 44) (flat_map esc part).
Proof.
  induction part as [|c part [IH1 IH2]]; [done|]. cbn [flat_map]. rewrite !Forall_app. unfold esc.
  destruct (Z.eqb_spec c 36), (Z.eqb_spec c 44), (Z.eqb_spec c 58); split; split; try done; repeat constructor; lia.
Qed.

Lemma escaped_nil part : flat_map esc part = [] <-> part = [].
Proof.
  destruct part as [|c part]; [done|]. cbn [flat_map]. unfold esc.
  destruct (c =? 36), (c =? 44), (c =? 58); simpl; split; done.
Qed.

(** ** Packages *)

(** The text of an entry. *)
Definition pair_text (p : list Z * list Z) : list Z := flat_map esc (fst p) ++ 58 :: flat_map esc (snd p).

Lemma serialize_pairs_spec pairs result :
  serialize_pairs pairs result = Some (result ++ flat_map (fun p => pair_text p ++ [44]) pairs).
Proof.
  revert result. induction pairs as [|[k v] pairs IH]; intros result; cbn [serialize_pairs flat_map]; [by rewrite app_nil_r|].
  rewrite !escape_spec. cbn [mbind option_bind]. rewrite IH. f_equal. unfold pair_text. cbn [fst snd].
  rewrite <- !app_assoc. done.
Qed.

Lemma removelast_join (pairs : list (list Z * list Z)) :
  removelast (flat_map (fun p => pair_text p ++ [44]) pairs) = join_lines 44 (map pair_text pairs).
Proof.
  induction pairs as [|p pairs IH]; [done|]. destruct pairs as [|p2 pairs].
  { cbn [flat_map map join_lines]. rewrite app_nil_r. apply removelast_last. }
  change (flat_map (fun p => pair_text p ++ [44]) (p :: p2 :: pairs))
    with ((pair_text p ++ [44]) ++ flat_map (fun p => pair_text p ++ [44]) (p2 :: pairs)).
  rewrite removelast_app; [|cbn [flat_map]; unfold pair_text; destruct (flat_map esc (fst p2)); done].
  rewrite IH. cbn [map join_lines]. by rewrite <- app_assoc.
Qed.

Lemma Serialize_spec pairs : pairs <> [] -> Serialize pairs = Some (join_lines 44 (map pair_text pairs)).
Proof. intros Hp. destruct pairs as [|p pairs]; [done|]. cbn [Serialize]. rewrite serialize_pairs_spec. cbn [mbind option_bind]. by rewrite <- removelast_join. Qed.

(** Reading one entry: without a value it is refused. *)
Lemma split_pair p : SplitString (pair_text p) 58
  = Some (if decide (snd p = []) then [flat_map esc (fst p)] else [flat_map esc (fst p); flat_map esc (snd p)]).
Proof.
  destruct p as [k v]. unfold pair_text. cbn [fst snd]. destruct (escaped_no_separator k) as [Hk _], (escaped_no_separator v) as [Hv _].
  destruct (decide (v = [])) as [->|Hne].
  - unfold SplitString. rewrite length_app. cbn [flat_map length split_loop]. rewrite getline_app by done. rewrite Nat.add_comm. simpl.
    by destruct (flat_map esc k).
  - change (flat_map esc k ++ 58 :: flat_map esc v) with (join_lines 58 [flat_map esc k; flat_map esc v]).
    apply SplitString_join; [by repeat constructor|]. cbn [last]. intros E. apply Hne, escaped_nil. congruence.
Qed.

Lemma parse_pairs_spec (pairs : list (list Z * list Z)) (data : DataType) :
  parse_pairs (map pair_text pairs) data
  = Some (foldl (fun m p => if decide (snd p = []) then m else <[fst p := snd p]> m) data pairs).
Proof.
  revert data. induction pairs as [|p pairs IH]; intros data; [done|]. cbn [map parse_pairs foldl].
  rewrite split_pair. cbn [mbind option_bind]. destruct (decide (snd p = [])); [apply IH|].
  rewrite !unescape_escape. cbn [mbind option_bind]. apply IH.
Qed.

(** The entries that were read, whatever their order. *)
Lemma foldl_lookup (pairs : list (list Z * list Z)) (data : DataType) (k : list Z) : NoDup (fst <$> pairs) ->
  foldl (fun m p => if decide (snd p = []) then m else <[fst p := snd p]> m) data pairs !! k
  = match (list_to_map pairs : DataType) !! k with
    | Some v => if decide (v = []) then data !! k else Some v
    | None => data !! k
    end.
Proof.
  revert data. induction pairs as [|[x v] pairs IH]; intros data Hn; [done|]. cbn [fmap list_fmap fst] in Hn.
  apply NoDup_cons in Hn as [Hx Hn]. cbn [foldl fst snd]. rewrite IH by done. rewrite list_to_map_cons.
  destruct (decide (k = x)) as [->|Hk].
  - rewrite lookup_insert_eq, not_elem_of_list_to_map_1 by done. destruct (decide (v = [])); [done|]. by rewrite lookup_insert_eq.
  - rewrite lookup_insert_ne by done. destruct (decide (v = [])); [done|]. by rewrite lookup_insert_ne.
Qed.

Lemma pairs_not_placeholder pairs : pairs <> [] -> join_lines 44 (map pair_text pairs) <> EMPTY_PLACEHOLDER.
Proof.
  intros Hp E. assert (58 ∈ EMPTY_PLACEHOLDER) as Hin; [|apply (bool_decide_spec (58 ∈ EMPTY_PLACEHOLDER)) in Hin; vm_compute in Hin; done].
  rewrite <- E. destruct pairs as [|p pairs]; [done|]. assert (58 ∈ pair_text p) as Hp58 by (unfold pair_text; apply elem_of_app; right; left).
  cbn [map join_lines]. destruct (map pair_text pairs); [done|]. apply elem_of_app. by left.
Qed.

(** C34: reading a serialised package gives the package back, in whatever order its
    entries were written and whatever separators and escapes its keys and
    values contain, but for the entries with an empty value, which are lost. *)
Theorem param_package_roundtrip (m : DataType) (pairs : list (list Z * list Z)) : pairs ≡ₚ map_to_list m ->
  exists s, Serialize pairs = Some s /\ s <> [] /\ ParamPackage_parse s = Some (filter (fun p => snd p <> []) m).
Proof.
  intros Hp. assert (NoDup (fst <$> pairs)) as Hn by (rewrite Hp; apply NoDup_fst_map_to_list).
  assert (list_to_map pairs = m) as Em.
  { rewrite <- (list_to_map_to_list m). by apply list_to_map_proper. }
  destruct (decide (pairs = [])) as [->|Hne].
  { exists EMPTY_PLACEHOLDER. split; [done|]. split; [done|]. rewrite <- Em. done. }
  exists (join_lines 44 (map pair_text pairs)). split; [by apply Serialize_spec|].
  split; [destruct pairs as [|p [|? ?]]; [done|..]; cbn [map join_lines]; unfold pair_text; destruct (flat_map esc (fst p)); done|].
  unfold ParamPackage_parse. rewrite decide_False by (by apply pairs_not_placeholder).
  unfold PARAM_SEPARATOR. rewrite SplitString_join.
  - cbn [mbind option_bind]. rewrite parse_pairs_spec. f_equal. apply map_eq. intros k. rewrite foldl_lookup, Em, map_lookup_filter, lookup_empty by done.
    destruct (m !! k) as [v|]; [|done]. cbn [mbind option_bind snd]. destruct (decide (v = [])) as [->|]; cbn; case_guard; naive_solver.
  - apply Forall_forall. intros l (p & -> & _)%list_elem_of_fmap. unfold pair_text.
    rewrite Forall_app, Forall_cons. split; [apply escaped_no_separator|]. split; [done|]. apply escaped_no_separator.
  - intros E. assert ([] ∈ map pair_text pairs) as (p & E' & _)%list_elem_of_fmap by (by apply last_Some_elem_of).
    unfold pair_text in E'. by destruct (flat_map esc (fst p)).
Qed.

Lemma param_package_roundtrip_witness :
  let m : DataType := {[ chars "jkl" := chars "$$:1:$2$,3" ]} in
  exists s, Serialize (map_to_list m) = Some s /\ s <> [] /\ ParamPackage_parse s = Some (filter (fun p => snd p <> []) m).
Proof. intros m. apply (param_package_roundtrip m). reflexivity. Defined.

(** An empty value is not read back. *)
Lemma empty_value_lost : (s ← Serialize [(chars "key", [])]; ParamPackage_parse s) = Some ∅.
Proof. reflexivity. Qed.

(** ** Numbers *)

Lemma digits_head fuel n acc : (0 < fuel)%nat -> exists d l, digits fuel n acc = 48 + d :: l /\ 0 <= d < 10.
Proof.
  revert n acc. induction fuel as [|fuel IH]; intros n acc Hf; [lia|]. cbn [digits].
  pose proof (Z.mod_pos_bound n 10 ltac:(lia)). destruct (n / 10 =? 0); [eauto|].
  destruct fuel as [|fuel]; [cbn [digits]; eauto|]. apply IH. lia.
Qed.

Lemma read_digit c l seen acc : 0 <= c < 10 -> read_digits (48 + c :: l) seen acc = read_digits l true (10 * acc + c).
Proof.
  intros Hc. cbn [read_digits]. destruct (Z.leb_spec 48 (48 + c)), (Z.leb_spec (48 + c) 57); cbn [andb]; try lia. f_equal. lia.
Qed.

(** Reading the digits of a number gives the number. *)
Lemma read_digits_of fuel n acc seen : 0 <= n < 10 ^ Z.of_nat fuel -> (0 < fuel)%nat ->
  read_digits (digits fuel n acc) seen 0 = read_digits acc true n.
Proof.
  revert n acc. induction fuel as [|fuel IH]; intros n acc Hn Hf; [lia|]. cbn [digits].
  pose proof (Z.mod_pos_bound n 10 ltac:(lia)). pose proof (Z.div_mod n 10 ltac:(lia)).
  rewrite Nat2Z.inj_succ, Z.pow_succ_r in Hn by lia. destruct (Z.eqb_spec (n / 10) 0).
  - rewrite read_digit by lia. f_equal. lia.
  - assert (0 < fuel)%nat by (destruct fuel; [cbn in Hn; zlia|lia]).
    rewrite IH by (done || zlia). rewrite read_digit by lia. f_equal. lia.
Qed.

Lemma stoi_to_string v : - 2 ^ 31 <= v < 2 ^ 31 -> stoi (to_string v) = Some v.
Proof.
  intros Hv. assert (forall n, 0 <= n <= 2 ^ 31 -> read_digits (digits 10 n []) false 0 = Some n) as Hr.
  { intros n Hn. rewrite read_digits_of; [done|cbn; lia|lia]. }
  assert ((- 2 ^ 31 <=? v) && (v <? 2 ^ 31) = true) as Hin by lia.
  unfold stoi, to_string. destruct (Z.ltb_spec v 0).
  - cbn [skip_blanks is_blank Z.eqb orb andb Z.leb]. change (is_blank 45) with false. cbn iota.
    rewrite Hr by lia. cbn [fmap option_fmap option_map mbind option_bind]. rewrite Z.opp_involutive, Hin. done.
  - pose proof (Hr v ltac:(lia)) as E. destruct (digits_head 10 v []) as (d & l & Ed & Hd); [lia|]. rewrite Ed in *.
    assert (d = 0 \/ d = 1 \/ d = 2 \/ d = 3 \/ d = 4 \/ d = 5 \/ d = 6 \/ d = 7 \/ d = 8 \/ d = 9) as Hc by lia.
    destruct_or! Hc; subst d;
      (match type of E with read_digits (?c :: ?l) _ _ = _ =>
         let c' := eval compute in c in change c with c' in *; change (skip_blanks (c' :: l)) with (c' :: l) end);
      cbn beta iota zeta; rewrite E; cbn [mbind option_bind]; rewrite Hin; done.
Qed.

(** A number that was set is read back, also after the package was written
    and read. *)
Theorem package_int_roundtrip (m : DataType) (k : list Z) v default_value : - 2 ^ 31 <= v < 2 ^ 31 ->
  Get_int (Set_int m k v) k default_value = v.
Proof. intros Hv. unfold Get_int, Set_int. rewrite lookup_insert_eq, stoi_to_string by done. done. Qed.

Example stoi_limits : stoi (chars " -2147483648x") = Some (- 2 ^ 31) /\ stoi (chars "2147483648") = None /\ stoi (chars "abc") = None.
Proof. repeat split; reflexivity. Qed.
