(* ===== verification/VfsConcat.v ===== *)
(** * Concatenated files

    [StaticVfsFile] ([src/src/core/file_sys/vfs_static.h]), a file that
    repeats one octet, and [ConcatenatedVfsFile]
    ([src/src/core/file_sys/vfs_concat.cpp]), several files one after the
    other in a multimap from offsets to files, here a list in the order of the
    map.  Stepping before the first element or from the end of an empty map is
    undefined and yields [None], like spent fuel. *)

From S2P Require Import Prelude Octets Vfs.
From stdpp Require Import base list.
Open Scope Z_scope.
Open Scope c_scope.

(** ** StaticVfsFile *)

Module StaticVfs.
Record StaticVfsFile := { value : Z; static_size : Z }.

Definition Read (f : StaticVfsFile) (data : list Z) (length offset : Z) : StaticVfsFile * list Z * Z :=
  let read := Z.min length (to_u64 (static_size f - offset)) in
  (f, store data (replicate (Z.to_nat read) (value f)), read).
Definition ReadByte (f : StaticVfsFile) (offset : Z) : option Z :=
  if offset <? static_size f then Some (value f) else None.
Definition ReadBytes (f : StaticVfsFile) (length offset : Z) : list Z :=
  replicate (Z.to_nat (Z.min length (to_u64 (static_size f - offset)))) (value f).
Definition Resize (f : StaticVfsFile) (new_size : Z) : StaticVfsFile * bool :=
  ({| value := value f; static_size := new_size |}, true).
End StaticVfs.

#[export] Instance static_vfs : VfsFile StaticVfs.StaticVfsFile := {
  GetSize := StaticVfs.static_size;
  Read := StaticVfs.Read
}.

(** A file of either of two kinds. *)
#[export] Instance sum_vfs F G `{VfsFile F} `{VfsFile G} : VfsFile (F + G) := {
  GetSize f := match f with inl f => GetSize f | inr g => GetSize g end;
  Read f data length offset :=
    match f with
    | inl f => let '(f, out, n) := Read f data length offset in (inl f, out, n)
    | inr g => let '(g, out, n) := Read g data length offset in (inr g, out, n)
    end
}.

(** ** ConcatenatedVfsFile *)

Module ConcatVfs.
Section Concat.
Context {F : Type} `{VfsFile F}.

Record ConcatenatedVfsFile := { files : list (Z * F) }.

(** [multimap::emplace]: after the elements with the same key. *)
Fixpoint emplace (k : Z) (f : F) (l : list (Z * F)) : list (Z * F) :=
  match l with
  | [] => [(k, f)]
  | (k', f') :: l' => if k <? k' then (k, f) :: l else (k', f') :: emplace k f l'
  end.

(** The constructor from a vector. *)
Fixpoint emplace_all (next_offset : Z) (files_ : list F) (m : list (Z * F)) : list (Z * F) :=
  match files_ with
  | [] => m
  | f :: files_ => emplace_all (to_u64 (next_offset + GetSize f)) files_ (emplace next_offset f m)
  end.
Definition from_vector (files_ : list F) : ConcatenatedVfsFile := {| files := emplace_all 0 files_ [] |}.

Fixpoint continuous (l : list (Z * F)) : bool :=
  match l with
  | (k, f) :: (((k', _) :: _) as l') => (to_u64 (k + GetSize f) =? k') && continuous l'
  | _ => true
  end.
Definition VerifyConcatenationMapContinuity (l : list (Z * F)) : option bool :=
  match l with
  | [] => None
  | (k, _) :: _ => Some (continuous l && (k =? 0))
  end.

(** [MakeConcatenatedFile(files, name)]: nothing, the file itself, or a
    concatenation. *)
Inductive Made := NoFile | OneFile (f : F) | Joined (c : ConcatenatedVfsFile).
Definition MakeConcatenatedFile (files_ : list F) : Made :=
  match files_ with
  | [] => NoFile
  | [f] => OneFile f
  | _ => Joined (from_vector files_)
  end.

Definition GetSize_ (c : ConcatenatedVfsFile) : Z :=
  match last (files c) with
  | Some (k, f) => to_u64 (k + GetSize f)
  | None => 0
  end.

(** The loop of [Read]: the index of the first element whose key is greater
    than [offset]. *)
Fixpoint upper (offset : Z) (l : list (Z * F)) : nat :=
  match l with
  | [] => 0
  | (k, _) :: l => if offset <? k then 0 else S (upper offset l)
  end.
(** The element before it. *)
Definition find_entry (offset : Z) (l : list (Z * F)) : option nat :=
  match upper offset l with
  | O => None
  | S i => Some i
  end.

Definition set_file (c : ConcatenatedVfsFile) (i : nat) (k : Z) (f : F) : ConcatenatedVfsFile :=
  {| files := <[i := (k, f)]> (files c) |}.

Fixpoint read (fuel : nat) (c : ConcatenatedVfsFile) (data : list Z) (length offset : Z)
    : option (ConcatenatedVfsFile * list Z * Z) :=
  match fuel with
  | O => None
  | S fuel =>
      i ← find_entry offset (files c);
      '(k, f) ← files c !! i;
      if to_u64 (k + GetSize f) <=? offset then Some (c, data, 0)
      else
        let read_in := Z.min (to_u64 (k + GetSize f - offset)) (GetSize f) in
        if read_in <? length then
          let '(f, out, n) := Read f data read_in (to_u64 (offset - k)) in
          '(c, rest, m) ← read fuel (set_file c i k f) (drop (Z.to_nat read_in) out) (length - read_in) (to_u64 (offset + read_in));
          Some (c, take (Z.to_nat read_in) out ++ rest, to_u64 (n + m))
        else
          let '(f, out, n) := Read f data (Z.min read_in length) (to_u64 (offset - k)) in
          Some (set_file c i k f, out, n)
  end.

(** [Read]: every call goes to a later file. *)
Definition Read_ (c : ConcatenatedVfsFile) (data : list Z) (len offset : Z) : option (ConcatenatedVfsFile * list Z * Z) :=
  read (S (length (files c))) c data len offset.
End Concat.
Arguments ConcatenatedVfsFile F : clear implicits.

(** [MakeConcatenatedFile(filler_byte, files, name)]: the gaps of the map are
    filled.  [None] when two files overlap. *)
Section Filler.
Context {F : Type} `{VfsFile F} (filler_byte : Z).

Definition filler (size : Z) : F + StaticVfs.StaticVfsFile :=
  inr {| StaticVfs.value := filler_byte; StaticVfs.static_size := size |}.

Fixpoint fill (l : list (Z * F)) : option (list (Z * (F + StaticVfs.StaticVfsFile))) :=
  match l with
  | (k, f) :: (((k', _) :: _) as l') =>
      let end_ := to_u64 (k + GetSize f) in
      if end_ =? k' then rest ← fill l'; Some ((k, inl f) :: rest)
      else if end_ <? k' then rest ← fill l'; Some ((k, inl f) :: (end_, filler (k' - end_)) :: rest)
      else None
  | [(k, f)] => Some [(k, inl f)]
  | [] => Some []
  end.

Definition MakeConcatenatedFile_filled (files_ : list (Z * F)) : option (@Made (F + StaticVfs.StaticVfsFile)) :=
  match files_ with
  | [] => Some NoFile
  | [(_, f)] => Some (OneFile (inl f))
  | (k, _) :: _ =>
      l ← fill files_;
      Some (Joined {| files := if k =? 0 then l else emplace 0 (filler k) l |})
  end.
End Filler.
End ConcatVfs.
Import ConcatVfs.

(** A file whose reads are total, for the interface. *)
#[export] Instance concat_vfs F `{VfsFile F} : VfsFile (ConcatenatedVfsFile F) := {
  GetSize := GetSize_;
  Read c data len offset := default (c, data, 0) (Read_ c data len offset)
}.

(** ** Contracts *)

Definition static_good (f : StaticVfs.StaticVfsFile) (c : list Z) : Prop :=
  0 <= StaticVfs.static_size f < 2 ^ 64 /\ c = replicate (Z.to_nat (StaticVfs.static_size f)) (StaticVfs.value f).

#[export] Instance static_trimming : Trimming StaticVfs.StaticVfsFile static_good.
Proof.
  split.
  - intros f c [Hs ->]. rewrite length_replicate. simpl. lia.
  - intros f c data len offset [Hs ->] Hl Hd Ho n. unfold n. clear n. rewrite length_replicate in Ho |- *.
    exists f. split; [|done]. simpl. unfold StaticVfs.Read. rewrite to_u64_id by (unfold is_u64; lia).
    rewrite Z2Nat.id by lia. f_equal. f_equal. f_equal. unfold part. rewrite drop_replicate, take_replicate. f_equal. lia.
Qed.

Definition sum_good {F G} (goodF : F -> list Z -> Prop) (goodG : G -> list Z -> Prop) (f : F + G) (c : list Z) : Prop :=
  match f with inl f => goodF f c | inr g => goodG g c end.

#[export] Instance sum_trimming F G `{HF : Trimming F goodF} `{HG : Trimming G goodG} : Trimming (F + G) (sum_good goodF goodG).
Proof.
  split; intros [f|g] c; simpl.
  - apply trim_size.
  - apply trim_size.
  - intros data len offset Hg Hl Hd Ho. destruct (trim_read f c data len offset Hg Hl Hd Ho) as (f' & E & Hg').
    rewrite E. by exists (inl f').
  - intros data len offset Hg Hl Hd Ho. destruct (trim_read g c data len offset Hg Hl Hd Ho) as (g' & E & Hg').
    rewrite E. by exists (inr g').
Qed.

(** ** The concatenation *)

Section Correct.
Context {F : Type} `{HT : Trimming F good}.

(** The files of a map, from the offset [k] on, one after the other. *)
Inductive placed : Z -> list (Z * F) -> list Z -> Prop :=
  | placed_nil k : placed k [] []
  | placed_cons k f c l rest : good f c -> placed (k + Z.of_nat (length c)) l rest -> placed k ((k, f) :: l) (c ++ rest).

Definition concat_good (m : ConcatenatedVfsFile F) (c : list Z) : Prop :=
  placed 0 (files m) c /\ files m <> [] /\ Z.of_nat (length c) < 2 ^ 64.

Lemma placed_upper k l c offset : placed k l c -> offset < k -> upper offset l = 0%nat.
Proof. intros Hp Ho. inversion Hp; subst; simpl; [done|]. by rewrite (proj2 (Z.ltb_lt _ _) Ho). Qed.

(** The element [find_entry] takes holds the offset. *)
Lemma placed_find k l c offset : placed k l c -> k <= offset < k + Z.of_nat (length c) ->
  exists l1 f ci l2 r1 r2, l = l1 ++ (k + Z.of_nat (length r1), f) :: l2 /\ c = r1 ++ ci ++ r2 /\ good f ci
    /\ find_entry offset l = Some (length l1)
    /\ Z.of_nat (length r1) <= offset - k < Z.of_nat (length r1) + Z.of_nat (length ci)
    /\ (forall f', good f' ci -> placed k (l1 ++ (k + Z.of_nat (length r1), f') :: l2) c).
Proof.
  induction 1 as [k|k f c l rest Hg Hp IH]; intros Ho; [simpl in Ho; lia|]. rewrite length_app in Ho.
  destruct (Z.lt_ge_cases offset (k + Z.of_nat (length c))) as [Hin|Hout].
  - exists [], f, c, l, [], rest. cbn [app length]. rewrite Z.add_0_r.
    split; [done|]. split; [done|]. split; [done|]. split; [|split; [lia|]].
    + unfold find_entry. cbn [upper]. destruct (Z.ltb_spec offset k); [lia|]. by rewrite (placed_upper _ _ _ _ Hp Hin).
    + intros f' Hg'. by constructor.
  - destruct IH as (l1 & f0 & ci & l2 & r1 & r2 & -> & -> & Hg0 & Hf & Hr & Hset); [lia|].
    exists ((k, f) :: l1), f0, ci, l2, (c ++ r1), r2. rewrite length_app.
    replace (k + Z.of_nat (length c + length r1)) with (k + Z.of_nat (length c) + Z.of_nat (length r1)) by lia.
    split; [done|]. split; [by rewrite <- app_assoc|]. split; [done|]. split; [|split; [lia|]].
    + unfold find_entry in *. cbn [upper length]. destruct (Z.ltb_spec offset k); [lia|].
      destruct (upper offset _) as [|i]; [done|]. by injection Hf as ->.
    + intros f' Hg'. cbn [app]. constructor; [done|by apply Hset].
Qed.

(** At the end the last file is found, and nothing is read. *)
Lemma placed_last k l c : placed k l c -> l <> [] ->
  exists l1 k' f ci, l = l1 ++ [(k', f)] /\ good f ci /\ k' + Z.of_nat (length ci) = k + Z.of_nat (length c)
    /\ find_entry (k + Z.of_nat (length c)) l = Some (length l1).
Proof.
  induction 1 as [k|k f c l rest Hg Hp IH]; intros Hne; [done|]. destruct l as [|x l].
  - inversion Hp; subst. exists [], k, f, c. rewrite app_nil_r. unfold find_entry. cbn [upper].
    destruct (Z.ltb_spec (k + Z.of_nat (length c)) k); [lia|]. done.
  - destruct IH as (l1 & k' & f' & ci & E & Hg' & Hk & Hf); [done|]. exists ((k, f) :: l1), k', f', ci.
    rewrite E in *. rewrite length_app. split; [done|]. split; [done|]. split; [lia|]. unfold find_entry in *. cbn [upper length].
    replace (k + Z.of_nat (length c + length rest)) with (k + Z.of_nat (length c) + Z.of_nat (length rest)) by lia.
    destruct (Z.ltb_spec (k + Z.of_nat (length c) + Z.of_nat (length rest)) k); [lia|].
    destruct (upper _ _) as [|i]; [done|]. by injection Hf as ->.
Qed.

Lemma concat_size m c : concat_good m c -> GetSize_ m = Z.of_nat (length c).
Proof.
  intros (Hp & Hne & Hc). destruct (placed_last 0 _ c Hp Hne) as (l1 & k' & f & ci & E & Hg & Hk & _).
  unfold GetSize_. rewrite E, last_snoc. destruct (trim_size f ci Hg) as [-> _]. rewrite Hk. apply to_u64_id. unfold is_u64. lia.
Qed.

(** Only the keys decide which file is read. *)
Lemma upper_keys offset (l l' : list (Z * F)) : map fst l = map fst l' -> upper offset l = upper offset l'.
Proof.
  revert l'. induction l as [|[k f] l IH]; intros [|[k' f'] l'] E; try done. injection E as -> E. cbn [upper]. by rewrite (IH l').
Qed.

Lemma upper_app offset (l1 l2 : list (Z * F)) : (forall p, p ∈ l1 -> fst p <= offset) -> upper offset (l1 ++ l2) = (length l1 + upper offset l2)%nat.
Proof.
  induction l1 as [|[k f] l1 IH]; intros Hl; [done|]. cbn [app upper length].
  destruct (Z.ltb_spec offset k); [specialize (Hl (k, f) ltac:(left)); simpl in Hl; lia|].
  rewrite IH by (intros p Hp; apply Hl; by right). done.
Qed.

Lemma placed_keys k l c : placed k l c -> forall p, p ∈ l -> k <= fst p <= k + Z.of_nat (length c).
Proof.
  induction 1 as [k|k f c l rest Hg Hp IH]; intros p; [by intros ?%not_elem_of_nil|]. rewrite length_app.
  intros [->|Hin]%elem_of_cons; [simpl; lia|]. specialize (IH p Hin). lia.
Qed.

Lemma placed_split k l c : placed k l c -> forall l1 k' f l2, l = l1 ++ (k', f) :: l2 ->
  exists c1 cf c2, c = c1 ++ cf ++ c2 /\ good f cf /\ k' = k + Z.of_nat (length c1)
    /\ placed k l1 c1 /\ placed (k' + Z.of_nat (length cf)) l2 c2.
Proof.
  induction 1 as [k|k f c l rest Hg Hp IH]; intros l1 k' f' l2 E; [by destruct l1|].
  destruct l1 as [|p l1]; cbn [app] in E.
  - simplify_eq. exists [], c, rest. cbn [length app]. rewrite Z.add_0_r. repeat split; try done. constructor.
  - simplify_eq. destruct (IH l1 k' f' l2 eq_refl) as (c1 & cf & c2 & -> & Hg' & -> & Hp1 & Hp2).
    exists (c ++ c1), cf, c2. rewrite length_app, <- app_assoc. repeat split; try done; [lia|by constructor].
Qed.

(** After the end of a file comes a later one, if there is one. *)
Lemma upper_next k l1 k' f l2 c ci :
  placed k (l1 ++ (k', f) :: l2) c -> good f ci -> 0 < Z.of_nat (length ci) ->
  k' + Z.of_nat (length ci) < k + Z.of_nat (length c) ->
  (S (length l1) < upper (k' + Z.of_nat (length ci)) (l1 ++ (k', f) :: l2))%nat.
Proof.
  intros Hp Hg Hi Hlt. destruct (placed_split _ _ _ Hp l1 _ f l2 eq_refl) as (c1 & cf & c2 & -> & Hg' & -> & Hp1 & Hp2).
  assert (Hlen : length cf = length ci).
  { destruct (trim_size f ci Hg) as [E1 _], (trim_size f cf Hg') as [E2 _]. lia. }
  rewrite Hlen in Hp2. rewrite !length_app in Hlt.
  rewrite upper_app; [|intros p Hin; pose proof (placed_keys _ _ _ Hp1 p Hin); lia].
  cbn [upper]. destruct (Z.ltb_spec (k + Z.of_nat (length c1) + Z.of_nat (length ci)) (k + Z.of_nat (length c1))); [lia|].
  destruct l2 as [|[k2 f2] l2]; inversion Hp2; subst; [simpl in Hlt; lia|]. cbn [upper].
  rewrite Z.ltb_irrefl. lia.
Qed.

Lemma upper_le offset (l : list (Z * F)) : (upper offset l <= length l)%nat.
Proof. induction l as [|[k f] l IH]; cbn [upper length]; [lia|]. case_match; lia. Qed.

(** At the end of the concatenation nothing is read. *)
Lemma read_end fuel m c data len : concat_good m c ->
  read (S fuel) m data len (Z.of_nat (length c)) = Some (m, data, 0).
Proof.
  intros (Hp & Hne & Hc). destruct (placed_last 0 _ c Hp Hne) as (l1 & k' & f & ci & E & Hg & Hk & Hf).
  cbn [read]. rewrite Z.add_0_l in Hf. rewrite Hf. cbn [mbind option_bind]. rewrite E. rewrite list_lookup_middle by done.
  cbn [mbind option_bind]. destruct (trim_size f ci Hg) as [-> _]. rewrite Hk.
  rewrite to_u64_id by (unfold is_u64; lia). by rewrite Z.leb_refl.
Qed.

(** Inside it, the file [f] with contents [ci] at the offset [k] is found. *)
Record found (m : ConcatenatedVfsFile F) (c : list Z) (offset : Z) (l1 : list (Z * F)) (k : Z) (f : F) (ci : list Z) (l2 : list (Z * F)) : Prop := {
  found_files : files m = l1 ++ (k, f) :: l2;
  found_good : good f ci;
  found_entry : find_entry offset (files m) = Some (length l1);
  found_range : 0 <= k <= offset /\ offset < k + Z.of_nat (length ci) <= Z.of_nat (length c);
  found_part a n : 0 <= a -> 0 <= n -> a + n <= Z.of_nat (length ci) -> part c (k + a) n = part ci a n;
  found_set f' : good f' ci ->
    concat_good (set_file m (length l1) k f') c /\ files (set_file m (length l1) k f') = l1 ++ (k, f') :: l2
}.

Lemma concat_found m c offset : concat_good m c -> 0 <= offset < Z.of_nat (length c) ->
  exists l1 k f ci l2, found m c offset l1 k f ci l2.
Proof.
  intros (Hp & Hne & Hc) Ho. destruct (placed_find 0 _ c offset Hp) as (l1 & f & ci & l2 & r1 & r2 & E & Ec & Hg & Hf & Hr & Hset); [lia|].
  exists l1, (Z.of_nat (length r1)), f, ci, l2. rewrite Z.add_0_l in *.
  assert (length c = (length r1 + (length ci + length r2))%nat) as Hlc by (by rewrite Ec, !length_app).
  split; [done..|lia| |].
  - intros a n Ha Hn Hi. rewrite Ec. by apply part_middle.
  - intros f' Hg'. assert (Ef : files (set_file m (length l1) (Z.of_nat (length r1)) f') = l1 ++ (Z.of_nat (length r1), f') :: l2).
    { unfold set_file. cbn [files]. rewrite E. by rewrite <- (Nat.add_0_r (length l1)), insert_app_r. }
    split; [|done]. unfold concat_good. rewrite Ef. split; [by apply Hset|]. split; [by destruct l1|done].
Qed.

(** The fuel covers the files from the found one on. *)
Definition enough (fuel : nat) (m : ConcatenatedVfsFile F) (c : list Z) (offset : Z) : Prop :=
  (length (files m) - upper offset (files m) + (if Z.ltb offset (Z.of_nat (length c)) then 2 else 1) <= fuel)%nat.

Lemma enough_next fuel m c offset l1 k f ci l2 f' : concat_good m c -> found m c offset l1 k f ci l2 -> good f' ci ->
  enough (S fuel) m c offset -> enough fuel (set_file m (length l1) k f') c (k + Z.of_nat (length ci)).
Proof.
  intros Hm Hf Hg' He. unfold enough in *. destruct (found_set _ _ _ _ _ _ _ _ Hf f' Hg') as [Hm' Ef].
  pose proof (found_range _ _ _ _ _ _ _ _ Hf) as [Hr1 Hr2]. pose proof (found_entry _ _ _ _ _ _ _ _ Hf) as He'.
  rewrite (proj2 (Z.ltb_lt offset _)) in He by lia.
  unfold find_entry in He'. destruct (upper offset (files m)) as [|i] eqn:Hu; [done|]. injection He' as ->.
  assert (length (files m) = length (l1 ++ (k, f') :: l2)) as Hlen by (rewrite (found_files _ _ _ _ _ _ _ _ Hf), !length_app; done).
  rewrite Ef. rewrite <- Hlen. pose proof (upper_le (k + Z.of_nat (length ci)) (l1 ++ (k, f') :: l2)).
  destruct (Z.ltb_spec (k + Z.of_nat (length ci)) (Z.of_nat (length c))) as [Hlt|Hge].
  - destruct Hm' as [Hp' _]. rewrite Ef in Hp'. pose proof (upper_next 0 l1 k f' l2 c ci Hp' Hg'). lia.
  - destruct Hm' as [Hp' _]. rewrite Ef in Hp'. rewrite <- (app_nil_r (l1 ++ _)), upper_app; [lia|].
    intros p Hin. pose proof (placed_keys _ _ _ Hp' p Hin). lia.
Qed.

Lemma read_spec fuel m c data len offset :
  concat_good m c -> 0 <= len < 2 ^ 64 -> (Z.to_nat len <= length data)%nat -> 0 <= offset <= Z.of_nat (length c) ->
  enough fuel m c offset ->
  let n := Z.min len (Z.of_nat (length c) - offset) in
  exists m', read fuel m data len offset = Some (m', store data (part c offset n), n) /\ concat_good m' c.
Proof.
  revert m data len offset. induction fuel as [|fuel IH]; intros m data len offset Hm Hl Hd Ho He n;
    [unfold enough in He; case_match; lia|].
  unfold n; clear n. destruct (Z.eq_dec offset (Z.of_nat (length c))) as [->|Hne].
  { exists m. rewrite read_end by done. rewrite Z.sub_diag, Z.min_r by lia. unfold part. done. }
  destruct (concat_found m c offset Hm) as (l1 & k & f & ci & l2 & Hf); [lia|].
  pose proof (found_range _ _ _ _ _ _ _ _ Hf) as [Hr1 Hr2]. pose proof Hm as (_ & _ & Hc).
  pose proof (found_good _ _ _ _ _ _ _ _ Hf) as Hg. destruct (trim_size f ci Hg) as [Hsz _].
  cbn [read]. rewrite (found_entry _ _ _ _ _ _ _ _ Hf). cbn [mbind option_bind]. rewrite (found_files _ _ _ _ _ _ _ _ Hf).
  rewrite list_lookup_middle by done. cbn [mbind option_bind]. rewrite Hsz, !to_u64_id by (unfold is_u64; lia).
  destruct (Z.leb_spec (k + Z.of_nat (length ci)) offset); [lia|].
  rewrite (Z.min_l (_ - offset)) by lia. set (read_in := k + Z.of_nat (length ci) - offset) in *.
  assert (forall n, 0 <= n <= read_in -> part ci (offset - k) n = part c offset n) as Hpart.
  { intros n Hn. rewrite <- (found_part _ _ _ _ _ _ _ _ Hf) by lia. f_equal. lia. }
  destruct (Z.ltb_spec read_in len).
  - destruct (trim_read f ci data read_in (offset - k) Hg) as (f' & -> & Hg'); [lia..|].
    rewrite (Z.min_l read_in) by lia. rewrite Hpart by lia.
    assert (length (part c offset read_in) = Z.to_nat read_in) as Hlen by (apply length_part; lia).
    destruct (found_set _ _ _ _ _ _ _ _ Hf f' Hg') as [Hm' _].
    destruct (IH (set_file m (length l1) k f') (drop (Z.to_nat read_in) (store data (part c offset read_in))) (len - read_in) (offset + read_in))
      as (m' & -> & Hm''); [done|lia|rewrite length_drop_store by done; lia|lia| |].
    { replace (offset + read_in) with (k + Z.of_nat (length ci)) by lia. by eapply enough_next. }
    exists m'. split; [|done]. cbn [mbind option_bind]. rewrite store_part, part_app by (done || lia).
    rewrite to_u64_id by (unfold is_u64; lia).
    replace (read_in + Z.min (len - read_in) (Z.of_nat (length c) - (offset + read_in)))
      with (Z.min len (Z.of_nat (length c) - offset)) by lia. done.
  - rewrite (Z.min_r read_in) by lia. destruct (trim_read f ci data len (offset - k) Hg) as (f' & -> & Hg'); [lia..|].
    rewrite !Z.min_l by lia. rewrite Hpart by lia. exists (set_file m (length l1) k f'). split; [done|].
    by apply (found_set _ _ _ _ _ _ _ _ Hf).
Qed.

Lemma concat_read m c data len offset :
  concat_good m c -> 0 <= len < 2 ^ 64 -> (Z.to_nat len <= length data)%nat -> 0 <= offset <= Z.of_nat (length c) ->
  let n := Z.min len (Z.of_nat (length c) - offset) in
  exists m', Read_ m data len offset = Some (m', store data (part c offset n), n) /\ concat_good m' c.
Proof.
  intros Hm Hl Hd Ho. apply read_spec; try done. unfold enough.
  destruct (Z.ltb_spec offset (Z.of_nat (length c))) as [Hlt|Hge]; [|lia].
  destruct (concat_found m c offset Hm) as (l1 & k & f & ci & l2 & Hf); [lia|].
  pose proof (found_entry _ _ _ _ _ _ _ _ Hf) as E. unfold find_entry in E. pose proof (upper_le offset (files m)).
  destruct (upper offset (files m)); [done|lia].
Qed.
End Correct.

(** A concatenation of trimming files is one itself. *)
#[export] Instance concat_trimming F `{HT : Trimming F good} : Trimming (ConcatenatedVfsFile F) (concat_good (good := good)).
Proof.
  split.
  - intros m c Hm. split; [by apply concat_size|apply Hm].
  - intros m c data len offset Hm Hl Hd Ho n. destruct (concat_read m c data len offset Hm Hl Hd Ho) as (m' & E & Hm').
    exists m'. split; [|done]. cbn [Read concat_vfs]. by rewrite E.
Qed.

(** ** The two ways to make one *)

Section Make.
Context {F : Type} `{HT : Trimming F good}.

Lemma emplace_end k (f : F) l : (forall p, p ∈ l -> fst p <= k) -> emplace k f l = l ++ [(k, f)].
Proof.
  induction l as [|[k' f'] l IH]; intros Hl; [done|]. cbn [emplace app].
  destruct (Z.ltb_spec k k'); [specialize (Hl (k', f') ltac:(left)); simpl in Hl; lia|].
  rewrite IH; [done|]. intros p Hp. apply Hl. by right.
Qed.

Lemma placed_snoc k l c f cf : placed (good := good) k l c -> good f cf ->
  placed (good := good) k (l ++ [(k + Z.of_nat (length c), f)]) (c ++ cf).
Proof.
  induction 1 as [k|k f' c l rest Hg Hp IH]; intros Hf; cbn [app length].
  - rewrite Z.add_0_r, <- (app_nil_r cf). constructor; [done|constructor].
  - rewrite <- app_assoc. constructor; [done|]. rewrite length_app.
    replace (k + Z.of_nat (length c + length rest)) with (k + Z.of_nat (length c) + Z.of_nat (length rest)) by lia. by apply IH.
Qed.

Lemma emplace_all_placed fs cs l c : Forall2 good fs cs -> placed (good := good) 0 l c ->
  Z.of_nat (length c + length (concat cs)) < 2 ^ 64 ->
  placed (good := good) 0 (emplace_all (Z.of_nat (length c)) fs l) (c ++ concat cs).
Proof.
  intros H2. revert l c. induction H2 as [|f cf fs cs Hg H2 IH]; intros l c Hp Hl; cbn [emplace_all concat] in *.
  - by rewrite app_nil_r.
  - rewrite length_app in Hl. destruct (trim_size f cf Hg) as [-> _]. rewrite to_u64_id by (unfold is_u64; lia).
    rewrite emplace_end; [|intros p Hin; pose proof (placed_keys _ _ _ Hp p Hin); lia].
    rewrite app_assoc, <- Nat2Z.inj_add, <- length_app. apply IH; [|rewrite length_app; lia].
    apply (placed_snoc 0 l c f cf Hp Hg).
Qed.

Lemma emplace_all_ne fs o l : fs ++ map snd l <> [] -> emplace_all (F := F) o fs l <> [].
Proof.
  revert o l. induction fs as [|f fs IH]; intros o l Hne; cbn [emplace_all]; [by destruct l|]. apply IH.
  destruct fs; [|done]. destruct l as [|[k' f'] l]; cbn [emplace]; [done|]. by case_match.
Qed.

(** The files of a vector, one after the other. *)
Lemma from_vector_good fs cs : Forall2 good fs cs -> fs <> [] -> Z.of_nat (length (concat cs)) < 2 ^ 64 ->
  concat_good (good := good) (from_vector fs) (concat cs).
Proof.
  intros H2 Hne Hl. split; [|split; [|done]].
  - apply (emplace_all_placed fs cs [] [] H2); [constructor|done].
  - apply emplace_all_ne. by destruct fs.
Qed.

(** The contract of the map: the files at their offsets from the position
    [e] on, [b] in between. *)
Inductive laid (b : Z) : Z -> list (Z * F) -> list Z -> Prop :=
  | laid_nil e : laid b e [] []
  | laid_cons e k f c l rest : e <= k -> good f c -> laid b (k + Z.of_nat (length c)) l rest ->
      laid b e ((k, f) :: l) (replicate (Z.to_nat (k - e)) b ++ c ++ rest).

Abbreviation placed_filled := (placed (good := sum_good good static_good)).

Lemma filler_placed b k size l c : 0 <= size < 2 ^ 64 -> placed_filled (k + size) l c ->
  placed_filled k ((k, filler b size) :: l) (replicate (Z.to_nat size) b ++ c).
Proof.
  intros Hs Hp. constructor; [by split|]. by rewrite length_replicate, Z2Nat.id by lia.
Qed.

Lemma fill_placed b l : forall k f c rest, 0 <= k -> good f c -> laid b (k + Z.of_nat (length c)) l rest ->
  k + Z.of_nat (length c + length rest) < 2 ^ 64 ->
  exists l', fill b ((k, f) :: l) = Some ((k, inl f) :: l') /\ placed_filled k ((k, inl f) :: l') (c ++ rest).
Proof.
  induction l as [|[k' f'] l IH]; intros k f c rest Hk Hg Hl Hlen.
  - inversion Hl; subst. exists []. split; [done|]. constructor; [done|constructor].
  - inversion Hl as [|e k0 f0 c' l0 rest' Hle Hg' Hl' E1 E2 E3]; subst. rewrite !length_app, length_replicate in Hlen.
    cbn [fill]. destruct (trim_size f c Hg) as [-> _]. rewrite to_u64_id by (unfold is_u64; lia).
    destruct (IH k' f' c' rest') as (l' & E & Hp); [lia|done|done|lia|]. cbn [fill] in E. rewrite E. cbn [mbind option_bind].
    destruct (Z.eqb_spec (k + Z.of_nat (length c)) k') as [Hz|Hz].
    + eexists. split; [done|]. constructor; [done|]. by rewrite Hz, Z.sub_diag.
    + rewrite (proj2 (Z.ltb_lt _ _)) by lia. eexists. split; [done|]. constructor; [done|]. apply filler_placed; [lia|].
      by rewrite Zplus_minus.
Qed.

Lemma placed_continuous k l c : placed_filled k l c -> 0 <= k -> k + Z.of_nat (length c) < 2 ^ 64 -> continuous l = true.
Proof.
  induction 1 as [k|k f c l rest Hg Hp IH]; intros Hk Hl; [done|]. rewrite length_app in Hl.
  destruct l as [|[k' f'] l]; [done|]. specialize (IH ltac:(lia) ltac:(lia)). cbn [continuous] in IH |- *. rewrite IH.
  destruct (trim_size f c Hg) as [-> _]. rewrite to_u64_id by (unfold is_u64; lia). inversion Hp; subst. by rewrite Z.eqb_refl.
Qed.

Lemma filled_good b l c : laid b 0 l c -> (2 <= length l)%nat -> Z.of_nat (length c) < 2 ^ 64 ->
  exists m, MakeConcatenatedFile_filled b l = Some (Joined m) /\ concat_good (good := sum_good good static_good) m c
    /\ VerifyConcatenationMapContinuity (files m) = Some true.
Proof.
  intros Hl H2 Hc. inversion Hl as [e|e k f cf l0 rest Hle Hg Hl']; subst; [simpl in H2; lia|]. clear Hl. rename Hl' into Hl, l0 into l.
  assert (Hlen := Hc). rewrite !length_app, length_replicate, Z.sub_0_r in Hlen.
  destruct (fill_placed b l k f cf rest Hle Hg Hl) as (l' & E & Hp); [lia|].
  destruct l as [|p l]; [simpl in H2; lia|]. unfold MakeConcatenatedFile_filled. rewrite E. cbn [mbind option_bind].
  eexists. split; [done|]. rewrite Z.sub_0_r in *.
  assert (placed_filled 0 (if k =? 0 then (k, inl f) :: l' else emplace 0 (filler b k) ((k, inl f) :: l'))
    (replicate (Z.to_nat k) b ++ cf ++ rest)) as Hp0.
  { destruct (Z.eqb_spec k 0) as [->|Hk]; [done|]. cbn [emplace]. rewrite (proj2 (Z.ltb_lt 0 k)) by lia. apply filler_placed; [lia|done]. }
  split; [split; [done|split; [|done]]|].
  - cbn [files emplace]. by repeat case_match.
  - cbn [files]. pose proof (placed_continuous _ _ _ Hp0 ltac:(lia) ltac:(lia)) as Hct. unfold VerifyConcatenationMapContinuity.
    destruct (Z.eqb_spec k 0) as [->|Hk]; [by rewrite Hct|]. cbn [emplace] in *. rewrite (proj2 (Z.ltb_lt 0 k)) in * by lia. by rewrite Hct.
Qed.

(** C31: a map of at least two files that do not overlap, laid out at their
    offsets with the filler octet before, between and up to the last of them,
    becomes a concatenated file whose map is continuous from 0 (the
    constructor's assertion) and whose size is the size of the layout; a read
    at any offset of it terminates and returns exactly the octets of the
    layout, across however many files and gaps the request spans. *)
Theorem concat_reads_layout b l c data len offset :
  laid b 0 l c -> (2 <= length l)%nat -> Z.of_nat (length c) < 2 ^ 64 ->
  0 <= len < 2 ^ 64 -> (Z.to_nat len <= length data)%nat -> 0 <= offset <= Z.of_nat (length c) ->
  let n := Z.min len (Z.of_nat (length c) - offset) in
  exists m m', MakeConcatenatedFile_filled b l = Some (Joined m)
    /\ VerifyConcatenationMapContinuity (files m) = Some true
    /\ GetSize_ m = Z.of_nat (length c)
    /\ Read_ m data len offset = Some (m', store data (part c offset n), n).
Proof.
  intros Hl H2 Hc Hlen Hd Ho n. destruct (filled_good b l c Hl H2 Hc) as (m & E & Hm & Hv).
  destruct (concat_read m c data len offset Hm Hlen Hd Ho) as (m' & Er & _).
  exists m, m'. split; [done|]. split; [done|]. split; [by apply concat_size|done].
Qed.

(** The files of a vector: the contents are concatenated. *)
Theorem concat_reads_vector fs cs data len offset :
  Forall2 good fs cs -> fs <> [] -> Z.of_nat (length (concat cs)) < 2 ^ 64 ->
  0 <= len < 2 ^ 64 -> (Z.to_nat len <= length data)%nat -> 0 <= offset <= Z.of_nat (length (concat cs)) ->
  let n := Z.min len (Z.of_nat (length (concat cs)) - offset) in
  exists m', Read_ (from_vector fs) data len offset = Some (m', store data (part (concat cs) offset n), n).
Proof.
  intros H2 Hne Hc Hlen Hd Ho n. destruct (concat_read _ _ data len offset (from_vector_good fs cs H2 Hne Hc) Hlen Hd Ho) as (m' & E & _).
  by exists m'.
Qed.
End Make.

(** Two files of two octets at 1 and 5, read from 2 on. *)
Definition two_files : list (Z * VectorVfs.VectorVfsFile) :=
  [(1, {| VectorVfs.data := [10; 11] |}); (5, {| VectorVfs.data := [20; 21] |})].

Lemma concat_reads_layout_witness : exists m m',
  MakeConcatenatedFile_filled 0 two_files = Some (Joined m)
  /\ VerifyConcatenationMapContinuity (files m) = Some true /\ GetSize_ m = 7
  /\ Read_ m [9; 9; 9; 9] 4 2 = Some (m', [11; 0; 0; 20], 4).
Proof.
  apply (concat_reads_layout (good := vector_good) 0 two_files [0; 10; 11; 0; 0; 20; 21] [9; 9; 9; 9] 4 2).
  - apply (laid_cons (good := vector_good) 0 0 1 _ [10; 11] _ [0; 0; 20; 21]); [lia|by split|].
    apply (laid_cons (good := vector_good) 0 3 5 _ [20; 21] _ []); [lia|by split|constructor].
  - simpl; lia.
  - done.
  - lia.
  - simpl; lia.
  - simpl; lia.
Defined.

(** A single file is returned as it is: the octets before its offset are not
    filled, and its contents appear at 0. *)
Lemma single_file_not_padded {F} `{VfsFile F} b k (f : F) : MakeConcatenatedFile_filled b [(k, f)] = Some (OneFile (inl f)).
Proof. done. Qed.
