(* ===== verification/PartitionFilesystem.v ===== *)
(** * Partition file systems

    The constructor of [PartitionFilesystem]
    ([src/src/core/file_sys/partition_filesystem.cpp]), the parser of PFS0 and
    HFS0 images, over the virtual files: every file of the image becomes an
    [OffsetVfsFile] window.  The windows share the underlying file in the
    source; here each holds the file as the parser left it, which is the same
    for files that keep the [Trimming] contract.  [None]: an access outside
    the metadata, or a loop that does not end within its fuel. *)

From S2P Require Import Prelude Octets Vfs StringUtil.
From stdpp Require Import base list gmap strings.
Open Scope Z_scope.
Open Scope c_scope.

Module Pfs.
Inductive ResultStatus := Success | ErrorBadPFSHeader | ErrorIncorrectPFSFileSize.

Record Header := { magic : Z; num_entries : Z; strtab_size : Z }.
Record FSEntry := { entry_offset : Z; entry_size : Z; entry_strtab_offset : Z }.

Definition MakeMagic (a b c d : Z) : Z := a .| (b << 8) .| (c << 16) .| (d << 24).
Definition HFS0 : Z := MakeMagic 72 70 83 48.
Definition PFS0 : Z := MakeMagic 80 70 83 48.
Definition HasValidMagicValue (h : Header) : bool := (magic h =? HFS0) || (magic h =? PFS0).

Definition sizeof_Header : Z := 16.
Definition sizeof_FSEntry : Z := 20.
Definition sizeof_PFSEntry : Z := 24.
Definition sizeof_HFSEntry : Z := 64.

(** The packed little-endian structures. *)
Definition field (bs : list Z) (offset n : Z) : Z := le_val (part bs offset n).
Definition header_of (bs : list Z) : Header :=
  {| magic := field bs 0 4; num_entries := field bs 4 4; strtab_size := field bs 8 4 |}.
Definition entry_of (bs : list Z) : FSEntry :=
  {| entry_offset := field bs 0 8; entry_size := field bs 8 8; entry_strtab_offset := field bs 16 4 |}.

(** [memcpy] of [n] octets at [offset] of a vector, and a zero-terminated
    string that starts there. *)
Definition slice (v : list Z) (offset n : Z) : option (list Z) :=
  if offset + n <=? Z.of_nat (length v) then Some (part v offset n) else None.
Definition c_string (v : list Z) (offset : Z) : option (list Z) :=
  let rest := drop (Z.to_nat offset) v in
  let n := StringUtil.find_if (Z.eqb 0) rest in
  if (n <? length rest)%nat then Some (take n rest) else None.

Section Pfs.
Context {F : Type} `{VfsFile F}.

Record PartitionFilesystem := {
  status : ResultStatus;
  pfs_header : Header;
  is_hfs : bool;
  content_offset : Z;
  offsets : gmap (list Z) Z;
  sizes : gmap (list Z) Z;
  pfs_files : list (OffsetVfs.OffsetVfsFile F * list Z)
}.

(** [VfsFile::ReadObject]. *)
Definition ReadObject (f : F) (sizeof offset : Z) : F * list Z * Z :=
  Vfs.Read f (replicate (Z.to_nat sizeof) 0) sizeof offset.

Definition fail (s : ResultStatus) (h : Header) (hfs : bool) : PartitionFilesystem :=
  {| status := s; pfs_header := h; is_hfs := hfs; content_offset := 0; offsets := ∅; sizes := ∅; pfs_files := [] |}.

Definition add_file (fs : PartitionFilesystem) (file : F) (e : FSEntry) (name : list Z) : PartitionFilesystem :=
  let at_ := to_u64 (content_offset fs + entry_offset e) in
  {| status := status fs; pfs_header := pfs_header fs; is_hfs := is_hfs fs; content_offset := content_offset fs;
     offsets := <[name := at_]> (offsets fs);
     sizes := <[name := entry_size e]> (sizes fs);
     pfs_files := pfs_files fs ++
       [({| OffsetVfs.file := file; OffsetVfs.offset := at_; OffsetVfs.size := entry_size e |}, name)] |}.

(** The body of the loop, and [for (u16 i = 0; i < num_entries; i++)]. *)
Definition read_entry (file : F) (file_data : list Z) (size strtab_offset i : Z) (fs : PartitionFilesystem)
    : option PartitionFilesystem :=
  bs ← slice file_data (sizeof_Header + i * size) sizeof_FSEntry;
  let e := entry_of bs in
  name ← c_string file_data (strtab_offset + entry_strtab_offset e);
  Some (add_file fs file e name).
Fixpoint entries_loop (fuel : nat) (file : F) (file_data : list Z) (size strtab_offset i : Z) (fs : PartitionFilesystem)
    : option PartitionFilesystem :=
  match fuel with
  | O => None
  | S fuel =>
      if i <? num_entries (pfs_header fs) then
        fs ← read_entry file file_data size strtab_offset i fs;
        entries_loop fuel file file_data size strtab_offset (to_u16 (i + 1)) fs
      else Some fs
  end.

Definition Construct (file : F) : option PartitionFilesystem :=
  if GetSize file <? sizeof_Header then Some (fail ErrorBadPFSHeader (header_of []) false)
  else
    let '(file, bs, n) := ReadObject file sizeof_Header 0 in
    let h := header_of bs in
    if negb (n =? sizeof_Header) then Some (fail ErrorBadPFSHeader h false)
    else if negb (HasValidMagicValue h) then Some (fail ErrorBadPFSHeader h false)
    else
      let hfs := magic h =? HFS0 in
      let size := if hfs then sizeof_HFSEntry else sizeof_PFSEntry in
      let metadata_size := sizeof_Header + num_entries h * size + strtab_size h in
      let '(file, file_data) := ReadBytes file metadata_size 0 in
      if negb (Z.of_nat (length file_data) =? metadata_size) then Some (fail ErrorIncorrectPFSFileSize h hfs)
      else
        let strtab_offset := sizeof_Header + num_entries h * size in
        entries_loop (Z.to_nat (2 ^ 16)) file file_data size strtab_offset 0
          {| status := Success; pfs_header := h; is_hfs := hfs; content_offset := strtab_offset + strtab_size h;
             offsets := ∅; sizes := ∅; pfs_files := [] |}.

Definition GetFileOffsets (fs : PartitionFilesystem) : gmap (list Z) Z := offsets fs.
Definition GetFileSizes (fs : PartitionFilesystem) : gmap (list Z) Z := sizes fs.
Definition GetFiles (fs : PartitionFilesystem) : list (OffsetVfs.OffsetVfsFile F * list Z) := pfs_files fs.
Definition GetName (fs : PartitionFilesystem) : list Z :=
  if is_hfs fs then StringUtil.chars "HFS0"%string else StringUtil.chars "PFS0"%string.
End Pfs.
Arguments PartitionFilesystem F : clear implicits.
End Pfs.
Import Pfs.

(** ** The contract: images *)

(** A file of an image: the name, the contents and the rest of its entry (the
    padding, and for HFS0 the hash fields). *)
Record ImageFile := { file_name : list Z; contents : list Z; entry_tail : list Z }.

Definition all_contents (l : list ImageFile) : list Z := flat_map contents l.
Definition strtab (l : list ImageFile) : list Z := flat_map (fun e => file_name e ++ [0]) l.
Definition entry_octets (o s : Z) (e : ImageFile) : list Z :=
  le_bytes 8 o ++ le_bytes 8 (Z.of_nat (length (contents e))) ++ le_bytes 4 s ++ entry_tail e.
Fixpoint entries (o s : Z) (l : list ImageFile) : list Z :=
  match l with
  | [] => []
  | e :: l => entry_octets o s e
      ++ entries (o + Z.of_nat (length (contents e))) (s + Z.of_nat (length (file_name e ++ [0]))) l
  end.
Definition header_octets (hfs : bool) (padding : list Z) (l : list ImageFile) : list Z :=
  le_bytes 4 (if hfs then HFS0 else PFS0) ++ le_bytes 4 (Z.of_nat (length l)) ++ le_bytes 4 (Z.of_nat (length (strtab l))) ++ padding.
Definition metadata (hfs : bool) (padding : list Z) (l : list ImageFile) : list Z :=
  header_octets hfs padding l ++ entries 0 0 l ++ strtab l.
Definition image (hfs : bool) (padding : list Z) (l : list ImageFile) : list Z :=
  metadata hfs padding l ++ all_contents l.

Definition size_of (hfs : bool) : Z := if hfs then sizeof_HFSEntry else sizeof_PFSEntry.

(** What an image can hold: names without a zero octet, at most 65535 files,
    a name table of at most 2^32 octets. *)
Record image_ok (hfs : bool) (padding : list Z) (l : list ImageFile) : Prop := {
  ok_padding : length padding = 4%nat;
  ok_tails : Forall (fun e => sizeof_FSEntry + Z.of_nat (length (entry_tail e)) = size_of hfs) l;
  ok_names : Forall (fun e => Forall (fun c => c <> 0) (file_name e)) l;
  ok_count : Z.of_nat (length l) < 2 ^ 16;
  ok_strtab : Z.of_nat (length (strtab l)) < 2 ^ 32;
  ok_total : Z.of_nat (length (image hfs padding l)) < 2 ^ 64
}.

Lemma entries_app o s l1 l2 : entries o s (l1 ++ l2)
  = entries o s l1 ++ entries (o + Z.of_nat (length (all_contents l1))) (s + Z.of_nat (length (strtab l1))) l2.
Proof.
  revert o s. induction l1 as [|e l1 IH]; intros o s; cbn [entries app]; [by rewrite !Z.add_0_r|].
  rewrite IH, <- app_assoc. cbn [all_contents strtab flat_map]. rewrite !length_app. cbn [length].
  do 2 f_equal. f_equal; unfold all_contents, strtab; lia.
Qed.

Lemma length_entries o s l size : Forall (fun e => sizeof_FSEntry + Z.of_nat (length (entry_tail e)) = size) l ->
  Z.of_nat (length (entries o s l)) = Z.of_nat (length l) * size.
Proof.
  intros Ht. revert o s. induction Ht as [|e l He Ht IH]; intros o s; [done|]. cbn [entries length].
  unfold entry_octets. rewrite !length_app, !length_le_bytes, !Nat2Z.inj_add, IH. unfold sizeof_FSEntry in He. lia.
Qed.

Lemma field_exact a k v c o n : o = Z.of_nat (length a) -> n = Z.of_nat k -> 0 <= v < 256 ^ Z.of_nat k ->
  field (a ++ le_bytes k v ++ c) o n = v.
Proof.
  intros Ho Hn Hv. unfold field. rewrite part_exact by (by rewrite ?length_le_bytes). rewrite le_val_bytes. by apply Z.mod_small.
Qed.

Lemma entry_of_octets o s e : 0 <= o < 2 ^ 64 -> 0 <= s < 2 ^ 32 -> Z.of_nat (length (contents e)) < 2 ^ 64 ->
  entry_of (part (entry_octets o s e) 0 sizeof_FSEntry)
  = {| entry_offset := o; entry_size := Z.of_nat (length (contents e)); entry_strtab_offset := s |}.
Proof.
  intros Ho Hs Hc. unfold entry_octets.
  replace (le_bytes 8 o ++ le_bytes 8 (Z.of_nat (length (contents e))) ++ le_bytes 4 s ++ entry_tail e)
    with ([] ++ (le_bytes 8 o ++ le_bytes 8 (Z.of_nat (length (contents e))) ++ le_bytes 4 s) ++ entry_tail e) by (by rewrite <- !app_assoc).
  rewrite part_exact by (rewrite ?length_app, ?length_le_bytes; done).
  unfold entry_of. f_equal.
  - by apply (field_exact [] 8 o _).
  - apply (field_exact (le_bytes 8 o) 8); [by rewrite length_le_bytes|done|lia].
  - rewrite app_assoc. rewrite <- (app_nil_r (le_bytes 4 s)). apply (field_exact _ 4); [by rewrite length_app, !length_le_bytes|done|lia].
Qed.

Lemma c_string_at a name c : Forall (fun x => x <> 0) name -> forall o, o = Z.of_nat (length a) ->
  c_string (a ++ name ++ 0 :: c) o = Some name.
Proof.
  intros Hn o ->. unfold c_string. rewrite Nat2Z.id, drop_app_length.
  assert (StringUtil.find_if (Z.eqb 0) (name ++ 0 :: c) = length name) as ->.
  { induction Hn as [|x name Hx Hn IH]; [done|]. cbn [app StringUtil.find_if length]. destruct (Z.eqb_spec 0 x); [lia|]. by rewrite IH. }
  rewrite length_app. cbn [length]. rewrite (proj2 (Nat.ltb_lt _ _)) by lia. by rewrite take_app_length.
Qed.

Section Correct.
Context {F : Type} `{HT : Trimming F good} (hfs : bool) (padding : list Z) (l : list ImageFile).
Context (Hok : image_ok hfs padding l).

Let data := metadata hfs padding l.
Let strtab_offset := sizeof_Header + Z.of_nat (length l) * size_of hfs.

Lemma length_header : length (header_octets hfs padding l) = 16%nat.
Proof. unfold header_octets. rewrite !length_app, !length_le_bytes. by rewrite (ok_padding _ _ _ Hok). Qed.

Lemma length_metadata : Z.of_nat (length data) = strtab_offset + Z.of_nat (length (strtab l)).
Proof.
  unfold data, metadata, strtab_offset. rewrite !length_app, length_header, !Nat2Z.inj_add.
  rewrite (length_entries 0 0 l _ (ok_tails _ _ _ Hok)). unfold sizeof_Header. lia.
Qed.

(** What the loop makes of a file [e] that follows the files [l1]. *)
Definition entry_for (l1 : list ImageFile) (e : ImageFile) : FSEntry :=
  {| entry_offset := Z.of_nat (length (all_contents l1)); entry_size := Z.of_nat (length (contents e));
     entry_strtab_offset := Z.of_nat (length (strtab l1)) |}.

Lemma sizes_below l1 e l2 : l = l1 ++ e :: l2 ->
  Z.of_nat (length (all_contents l1)) + Z.of_nat (length (contents e)) <= Z.of_nat (length (all_contents l))
  /\ Z.of_nat (length (strtab l1)) < 2 ^ 32.
Proof.
  intros E. pose proof (ok_strtab _ _ _ Hok) as Hs. revert Hs. rewrite E. unfold all_contents, strtab.
  rewrite !flat_map_app. cbn [flat_map]. rewrite !length_app. lia.
Qed.

Lemma total_split : Z.of_nat (length (image hfs padding l)) = Z.of_nat (length data) + Z.of_nat (length (all_contents l)).
Proof. unfold image. rewrite length_app. unfold data. lia. Qed.

Lemma slice_entry l1 e l2 : l = l1 ++ e :: l2 ->
  slice data (sizeof_Header + Z.of_nat (length l1) * size_of hfs) sizeof_FSEntry
  = Some (part (entry_octets (Z.of_nat (length (all_contents l1))) (Z.of_nat (length (strtab l1))) e) 0 sizeof_FSEntry).
Proof.
  intros E. set (ent := entry_octets _ _ e). pose proof (ok_tails _ _ _ Hok) as Ht.
  assert (exists pre post, data = pre ++ ent ++ post /\ pre = header_octets hfs padding l ++ entries 0 0 l1) as (pre & post & Hdata & Hpre).
  { eexists _, _. split; [|done]. unfold data, metadata. rewrite E at 2. rewrite entries_app. cbn [entries]. by rewrite <- !app_assoc. }
  rewrite E in Ht. apply Forall_app in Ht as [Ht1 _].
  assert (Z.of_nat (length pre) = sizeof_Header + Z.of_nat (length l1) * size_of hfs) as Hl.
  { rewrite Hpre, length_app, length_header, Nat2Z.inj_add, (length_entries 0 0 l1 _ Ht1). unfold sizeof_Header. lia. }
  assert (sizeof_FSEntry <= Z.of_nat (length ent)) as Hent.
  { unfold ent, entry_octets, sizeof_FSEntry. rewrite !length_app, !length_le_bytes. lia. }
  unfold slice. rewrite Hdata, <- Hl, !length_app. rewrite (proj2 (Z.leb_le _ _)) by lia.
  rewrite <- (Z.add_0_r (Z.of_nat (length pre))), part_middle by (unfold sizeof_FSEntry in *; lia). done.
Qed.

Lemma name_at l1 e l2 : l = l1 ++ e :: l2 ->
  c_string data (strtab_offset + Z.of_nat (length (strtab l1))) = Some (file_name e).
Proof.
  intros E. pose proof (ok_names _ _ _ Hok) as Hn. rewrite E in Hn. apply Forall_app in Hn as [_ Hn]. apply Forall_cons in Hn as [Hn _].
  assert (strtab l = strtab l1 ++ file_name e ++ 0 :: strtab l2) as Hs.
  { rewrite E. unfold strtab. rewrite flat_map_app. cbn [flat_map]. by rewrite <- app_assoc. }
  assert (data = (header_octets hfs padding l ++ entries 0 0 l ++ strtab l1) ++ file_name e ++ 0 :: strtab l2) as ->.
  { unfold data, metadata. rewrite Hs. by rewrite <- !app_assoc. }
  apply c_string_at; [done|]. rewrite !length_app, length_header, !Nat2Z.inj_add, (length_entries 0 0 l _ (ok_tails _ _ _ Hok)).
  unfold strtab_offset, sizeof_Header. lia.
Qed.

Lemma read_entry_at (file : F) fs l1 e l2 : l = l1 ++ e :: l2 ->
  read_entry file data (size_of hfs) strtab_offset (Z.of_nat (length l1)) fs = Some (add_file fs file (entry_for l1 e) (file_name e)).
Proof.
  intros E. pose proof (ok_total _ _ _ Hok) as Htot. rewrite total_split in Htot. destruct (sizes_below _ _ _ E) as [Hb1 Hb2].
  unfold read_entry. rewrite (slice_entry _ _ _ E). cbn [mbind option_bind]. rewrite entry_of_octets by lia. cbn [entry_strtab_offset].
  by rewrite (name_at _ _ _ E).
Qed.

(** The file system after the files [l1]. *)
Fixpoint files_of (file : F) (l1 rest : list ImageFile) (fs : PartitionFilesystem F) : PartitionFilesystem F :=
  match rest with
  | [] => fs
  | e :: rest => files_of file (l1 ++ [e]) rest (add_file fs file (entry_for l1 e) (file_name e))
  end.

Lemma entries_loop_spec fuel (file : F) l1 rest fs : l = l1 ++ rest -> num_entries (pfs_header fs) = Z.of_nat (length l) ->
  (length rest < fuel)%nat ->
  entries_loop fuel file data (size_of hfs) strtab_offset (Z.of_nat (length l1)) fs = Some (files_of file l1 rest fs).
Proof.
  revert fuel l1 fs. induction rest as [|e rest IH]; intros [|fuel] l1 fs E Hn Hf; try (simpl in Hf; lia); cbn [entries_loop]; rewrite Hn.
  - rewrite app_nil_r in E. rewrite E, Z.ltb_irrefl. done.
  - rewrite (proj2 (Z.ltb_lt _ _)) by (rewrite E, length_app; simpl; lia). rewrite (read_entry_at file fs _ _ _ E). cbn [mbind option_bind files_of].
    pose proof (ok_count _ _ _ Hok) as Hc. assert (length l = (length l1 + S (length rest))%nat) as Hl by (by rewrite E, length_app).
    rewrite to_u16_id by (unfold is_u16; lia).
    replace (Z.of_nat (length l1) + 1) with (Z.of_nat (length (l1 ++ [e]))) by (rewrite length_app; simpl; lia).
    apply IH; [by rewrite <- app_assoc|done|simpl in Hf; lia].
Qed.

(** A window of the file system shows a file of the image. *)
Definition shows (w : OffsetVfs.OffsetVfsFile F * list Z) (e : ImageFile) : Prop :=
  snd w = file_name e /\ offset_good good (fst w) (contents e).

Lemma shows_entry (file : F) fs l1 e rest : good file (image hfs padding l) -> content_offset fs = Z.of_nat (length data) ->
  l = l1 ++ e :: rest -> exists w, pfs_files (add_file fs file (entry_for l1 e) (file_name e)) = pfs_files fs ++ [w] /\ shows w e.
Proof.
  intros Hg Hco E. eexists. split; [done|]. split; [done|]. cbn [fst]. pose proof (ok_total _ _ _ Hok) as Htot.
  destruct (sizes_below _ _ _ E) as [Hb _]. pose proof total_split as Hsp. rewrite Hco. cbn [entry_for entry_offset entry_size].
  rewrite to_u64_id by (unfold is_u64; lia). exists (image hfs padding l). cbn [OffsetVfs.file OffsetVfs.offset OffsetVfs.size].
  split; [done|]. split; [lia|]. split; [lia|]. split; [lia|].
  assert (image hfs padding l = (data ++ all_contents l1) ++ contents e ++ all_contents rest) as ->.
  { unfold image. fold data. rewrite E at 1. unfold all_contents. rewrite flat_map_app. cbn [flat_map]. by rewrite <- app_assoc. }
  symmetry. apply part_exact; [rewrite length_app; lia|done].
Qed.

Lemma files_of_shows (file : F) l1 rest fs : good file (image hfs padding l) -> content_offset fs = Z.of_nat (length data) ->
  l = l1 ++ rest -> Forall2 shows (pfs_files fs) l1 -> Forall2 shows (pfs_files (files_of file l1 rest fs)) l.
Proof.
  intros Hg. revert l1 fs. induction rest as [|e rest IH]; intros l1 fs Hco E Hs; cbn [files_of].
  - by rewrite E, app_nil_r.
  - apply IH; [done|by rewrite <- app_assoc|]. destruct (shows_entry file fs l1 e rest Hg Hco E) as (w & -> & Hw).
    apply Forall2_app; [done|]. constructor; [done|constructor].
Qed.

(** The two maps agree with the windows, when no name occurs twice. *)
Definition maps_agree (fs : PartitionFilesystem F) : Prop :=
  forall w, w ∈ pfs_files fs ->
    offsets fs !! snd w = Some (OffsetVfs.offset (fst w)) /\ sizes fs !! snd w = Some (OffsetVfs.size (fst w)).

Lemma add_file_agree fs (file : F) e name : (forall w, w ∈ pfs_files fs -> snd w <> name) ->
  maps_agree fs -> maps_agree (add_file fs file e name).
Proof.
  intros Hnew Hm w. cbn [pfs_files add_file]. rewrite elem_of_app, list_elem_of_singleton. cbn [offsets sizes add_file].
  intros [Hw| ->]; [|by rewrite !lookup_insert_eq]. specialize (Hnew w Hw). rewrite !lookup_insert_ne by congruence. by apply Hm.
Qed.

Lemma files_of_agree (file : F) l1 rest fs : NoDup (map file_name (l1 ++ rest)) -> map snd (pfs_files fs) = map file_name l1 ->
  maps_agree fs -> maps_agree (files_of file l1 rest fs).
Proof.
  revert l1 fs. induction rest as [|e rest IH]; intros l1 fs Hnd Hmap Hm; cbn [files_of]; [done|]. apply IH.
  - by rewrite <- app_assoc.
  - cbn [pfs_files add_file]. rewrite !map_app. by rewrite Hmap.
  - apply add_file_agree; [|done]. intros w Hw Heq. rewrite map_app in Hnd. apply NoDup_app in Hnd as (_ & Hd & _).
    apply (Hd (file_name e)); [|cbn [map]; left]. rewrite <- Hmap, <- Heq. by apply list_elem_of_fmap_2.
Qed.
End Correct.

Lemma files_of_fixed {F} `{VfsFile F} (file : F) l1 rest fs :
  status (files_of file l1 rest fs) = status fs /\ pfs_header (files_of file l1 rest fs) = pfs_header fs
  /\ is_hfs (files_of file l1 rest fs) = is_hfs fs.
Proof. revert l1 fs. induction rest as [|e rest IH]; intros l1 fs; [done|]. cbn [files_of]. by rewrite !(proj1 (IH _ _)), !(proj1 (proj2 (IH _ _))), !(proj2 (proj2 (IH _ _))). Qed.

Lemma header_of_image hfs padding l : image_ok hfs padding l ->
  header_of (header_octets hfs padding l)
  = {| magic := if hfs then HFS0 else PFS0; num_entries := Z.of_nat (length l); strtab_size := Z.of_nat (length (strtab l)) |}.
Proof.
  intros Hok. pose proof (ok_count _ _ _ Hok). pose proof (ok_strtab _ _ _ Hok). unfold header_of, header_octets. f_equal.
  - apply (field_exact [] 4); [done|done|]. by destruct hfs.
  - apply (field_exact (le_bytes 4 _) 4); [by rewrite length_le_bytes|done|lia].
  - rewrite (app_assoc (le_bytes 4 _) (le_bytes 4 _)). apply (field_exact _ 4); [by rewrite length_app, !length_le_bytes|done|lia].
Qed.

Lemma image_header_part hfs padding l : image_ok hfs padding l ->
  part (image hfs padding l) 0 sizeof_Header = header_octets hfs padding l.
Proof.
  intros Hok. unfold image, metadata. rewrite <- !app_assoc. apply (part_exact []); [done|]. by rewrite length_header.
Qed.
Lemma image_metadata_part hfs padding l :
  part (image hfs padding l) 0 (Z.of_nat (length (metadata hfs padding l))) = metadata hfs padding l.
Proof. by apply (part_exact []). Qed.

(** C30: the parser inverts the image: for every list of at most 65535 files
    with names without a zero octet, a PFS0 or HFS0 image of them is accepted
    ([Success], with the right kind and count), the files come out in the
    order of the image, each with its name and as a window on the image that
    holds exactly its contents; when no name occurs twice, the offset and size
    maps have every file under its name. *)
Theorem pfs_roundtrip {F} `{HT : Trimming F good} (file : F) hfs padding l :
  image_ok hfs padding l -> good file (image hfs padding l) ->
  exists fs, Construct file = Some fs /\ status fs = Success /\ is_hfs fs = hfs
    /\ num_entries (pfs_header fs) = Z.of_nat (length l)
    /\ Forall2 (shows (good := good)) (GetFiles fs) l
    /\ (NoDup (map file_name l) -> maps_agree fs).
Proof.
  intros Hok Hg. pose proof (length_header hfs padding l Hok) as Hlh. pose proof (length_metadata hfs padding l Hok) as Hlm.
  pose proof (total_split hfs padding l) as Hsp. pose proof (ok_total _ _ _ Hok) as Htot.
  assert (16 <= Z.of_nat (length (metadata hfs padding l))) as H16 by (unfold metadata; rewrite length_app; lia).
  unfold Construct. destruct (trim_size file _ Hg) as [-> _]. unfold sizeof_Header at 1.
  rewrite (proj2 (Z.ltb_ge _ _)) by lia. unfold ReadObject.
  destruct (trim_read file _ (replicate (Z.to_nat sizeof_Header) 0) sizeof_Header 0 Hg) as (f1 & -> & Hg1);
    [unfold sizeof_Header; lia|by rewrite length_replicate|lia|].
  rewrite Z.min_l by (unfold sizeof_Header; lia). rewrite (image_header_part _ _ _ Hok).
  rewrite store_zeros by done. rewrite (header_of_image _ _ _ Hok), Z.eqb_refl.
  assert (HasValidMagicValue {| magic := if hfs then HFS0 else PFS0; num_entries := Z.of_nat (length l); strtab_size := Z.of_nat (length (strtab l)) |} = true)
    as -> by (by destruct hfs). cbn [negb magic num_entries strtab_size].
  assert (((if hfs then HFS0 else PFS0) =? HFS0) = hfs) as -> by (by destruct hfs). fold (size_of hfs). rewrite <- Hlm.
  destruct (trim_read_bytes f1 _ (Z.of_nat (length (metadata hfs padding l))) 0 Hg1) as (f2 & -> & Hg2); [lia..|].
  rewrite Z.min_l by lia. rewrite image_metadata_part. rewrite Z.eqb_refl. cbn [negb].
  rewrite (entries_loop_spec hfs padding l Hok _ f2 [] l) by (try done; pose proof (ok_count _ _ _ Hok); lia).
  eexists. split; [done|]. destruct (files_of_fixed f2 [] l {| status := Success; pfs_header := {| magic := if hfs then HFS0 else PFS0; num_entries := Z.of_nat (length l);
    strtab_size := Z.of_nat (length (strtab l)) |}; is_hfs := hfs; content_offset := Z.of_nat (length (metadata hfs padding l)); offsets := ∅; sizes := ∅; pfs_files := [] |}) as (-> & -> & ->).
  split; [done|]. split; [done|]. split; [done|]. split.
  - by apply (files_of_shows hfs padding l Hok).
  - intros Hnd. apply files_of_agree; [done|done|]. intros w Hw. by apply not_elem_of_nil in Hw.
Qed.

(** An HFS0 image of two files. *)
Definition two_images : list ImageFile :=
  [{| file_name := StringUtil.chars "a"%string; contents := [1; 2; 3]; entry_tail := replicate 44 0 |};
   {| file_name := StringUtil.chars "bc"%string; contents := [4]; entry_tail := replicate 44 7 |}].

Lemma pfs_roundtrip_witness : exists fs : PartitionFilesystem VectorVfs.VectorVfsFile,
  Construct {| VectorVfs.data := image true (replicate 4 0) two_images |} = Some fs /\ status fs = Success
  /\ is_hfs fs = true /\ num_entries (pfs_header fs) = 2
  /\ Forall2 (shows (good := vector_good)) (GetFiles fs) two_images
  /\ (NoDup (map file_name two_images) -> maps_agree fs).
Proof.
  apply (pfs_roundtrip (good := vector_good) {| VectorVfs.data := image true (replicate 4 0) two_images |} true (replicate 4 0) two_images); [|split; [done|vm_compute; done]].
  constructor; try (by vm_compute); repeat constructor; by vm_compute.
Defined.

(** ** Errors *)

(** The three ways an image is rejected, each without files. *)
Theorem pfs_rejects {F} `{HT : Trimming F good} (file : F) c : good file c -> bytes c ->
  let h := header_of (part c 0 sizeof_Header) in
  let rejected s := exists fs, Construct file = Some fs /\ status fs = s /\ GetFiles fs = [] in
  (Z.of_nat (length c) < sizeof_Header -> rejected ErrorBadPFSHeader)
  /\ (sizeof_Header <= Z.of_nat (length c) -> HasValidMagicValue h = false -> rejected ErrorBadPFSHeader)
  /\ (sizeof_Header <= Z.of_nat (length c) -> HasValidMagicValue h = true ->
      Z.of_nat (length c) < sizeof_Header + num_entries h * size_of (magic h =? HFS0) + strtab_size h ->
      rejected ErrorIncorrectPFSFileSize).
Proof.
  intros Hg Hb h rejected. unfold rejected, Construct. destruct (trim_size file c Hg) as [-> Hc].
  split; [intros Hlt; rewrite (proj2 (Z.ltb_lt _ _) Hlt); eauto|].
  assert (sizeof_Header <= Z.of_nat (length c) -> exists f1, good f1 c /\
    ReadObject file sizeof_Header 0 = (f1, part c 0 sizeof_Header, sizeof_Header)) as Hread.
  { intros Hle. unfold ReadObject. destruct (trim_read file c (replicate (Z.to_nat sizeof_Header) 0) sizeof_Header 0 Hg) as (f1 & -> & Hg1);
      [unfold sizeof_Header; lia|by rewrite length_replicate|lia|].
    exists f1. rewrite Z.min_l by lia. rewrite store_zeros; [done|]. apply length_part; unfold sizeof_Header in *; lia. }
  split; intros Hle Hm; rewrite (proj2 (Z.ltb_ge _ _) Hle); destruct (Hread Hle) as (f1 & Hg1 & ->); rewrite Z.eqb_refl;
    cbn [negb]; fold h; rewrite Hm; cbn [negb]; [eauto|].
  intros Hlt. fold (size_of (magic h =? HFS0)). set (size := _ + _ + strtab_size h) in *.
  assert (size < 2 ^ 64) as H64.
  { assert (forall o, 0 <= o -> o + 4 <= 16 -> 0 <= field (part c 0 sizeof_Header) o 4 < 2 ^ 32) as Hf.
    { intros o Ho1 Ho2. unfold field. rewrite part_part by (unfold sizeof_Header; lia).
      pose proof (le_val_range (part c (0 + o) 4)) as Hv. rewrite length_part in Hv by (unfold sizeof_Header in *; lia).
      apply Hv. apply Forall_take, Forall_drop, Hb. }
    pose proof (Hf 4 ltac:(lia) ltac:(lia)). pose proof (Hf 8 ltac:(lia) ltac:(lia)).
    unfold size, h, header_of, size_of, sizeof_Header in *. cbn [num_entries strtab_size magic]. unfold sizeof_HFSEntry, sizeof_PFSEntry. destruct (_ =? HFS0); lia. }
  destruct (trim_read_bytes f1 c size 0 Hg1) as (f2 & -> & Hg2); [lia..|]. rewrite Z.min_r by lia.
  rewrite length_part by lia. rewrite (proj2 (Z.eqb_neq _ _)) by lia. cbn [negb]. eauto.
Qed.

(** The counter of the loop has 16 bits and the count 32: the loop over more
    than 65535 entries does not end. *)
Lemma many_entries_never_end {F} `{VfsFile F} fuel (file : F) data size strtab_offset i fs :
  2 ^ 16 <= num_entries (pfs_header fs) -> i < 2 ^ 16 -> entries_loop fuel file data size strtab_offset i fs = None.
Proof.
  revert i fs. induction fuel as [|fuel IH]; intros i fs Hn Hi; [done|]. cbn [entries_loop]. rewrite (proj2 (Z.ltb_lt _ _)) by lia.
  unfold read_entry. destruct (slice _ _ _) as [bs|]; [|done]. cbn [mbind option_bind]. destruct (c_string _ _) as [name|]; [|done].
  cbn [mbind option_bind]. apply IH; [done|]. pose proof (to_u16_range (i + 1)) as Hr. unfold is_u16 in Hr. lia.
Qed.

(** The offset of a name is not checked against the metadata: the string is
    looked for past its end. *)
Lemma name_past_the_end : exists data : list Z, Z.of_nat (length data) = 16 + 24 /\ bytes data
  /\ (let h := header_of data in HasValidMagicValue h = true /\ num_entries h = 1 /\ strtab_size h = 0)
  /\ Construct {| VectorVfs.data := data |} = None.
Proof.
  exists (le_bytes 4 PFS0 ++ le_bytes 4 1 ++ replicate 8 0 ++ replicate 24 0). vm_compute.
  repeat split; repeat constructor; done.
Qed.
