(* ===== verification/NcaPatch.v ===== *)
(** * Patched archives

    [BKTR] ([src/src/core/file_sys/nca_patch.cpp]): a file put together from
    a base archive and a patch by a table of relocations, the patch encrypted
    in counter mode with a counter that changes from subsection to subsection.
    The tables are lists of buckets; the constructor ends every bucket with a
    sentinel.  [None]: an access outside a table, a failed assertion, or spent
    fuel.  The globals of the AES tables are passed along, because every
    encrypted read makes a cipher of its own. *)

From S2P Require Import Prelude Octets AesTables AesSpec AesCore AesCorrect AesModes AesModesCorrect.
From S2P Require Import AesStreamCorrect MdStream Padding Cipher CipherCorrect Vfs AesUtil EncryptionLayers.
From Stdlib Require Import Sorting.Sorted.
From stdpp Require Import base list.
Open Scope Z_scope.
Open Scope c_scope.
Import Aes Modes Cipher AesUtil.

Module Bktr.

Record RelocationEntry := { address_patch : Z; address_source : Z; from_patch : Z }.
Record SubsectionEntry := { sub_address_patch : Z; ctr : Z }.

(** [RelocationBucket] and [SubsectionBucket]; [RelocationBlock] and
    [SubsectionBlock]. *)
Record Bucket (E : Type) := { number_entries : Z; end_offset : Z; entries : list E }.
Arguments number_entries {E}. Arguments end_offset {E}. Arguments entries {E}.
Record Block := { number_buckets : Z; size : Z; base_offsets : list Z }.

(** [ConvertRelocationBucketRaw], [ConvertSubsectionBucketRaw], on the fields
    of the raw bucket, whose array has a fixed length: [None] when the count
    goes past its end. *)
Definition ConvertBucketRaw {E} (raw : Bucket E) : option (Bucket E) :=
  if number_entries raw <=? Z.of_nat (length (entries raw)) then
    Some {| number_entries := number_entries raw; end_offset := end_offset raw;
            entries := take (Z.to_nat (number_entries raw)) (entries raw) |}
  else None.

(** ** Search *)

Section Search.
Context {E : Type} (address : E -> Z).

(** The binary search; [UNREACHABLE] at its end. *)
Fixpoint search_loop (fuel : nat) (bucket : Bucket E) (offset low high : Z) : option Z :=
  match fuel with
  | O => None
  | S fuel =>
      if low <=? high then
        let mid := to_u64 (low + high) / 2 in
        e ← entries bucket !! Z.to_nat mid;
        if offset <? address e then search_loop fuel bucket offset low (to_u64 (mid - 1))
        else if mid =? to_u32 (number_entries bucket - 1) then Some mid
        else
          e' ← entries bucket !! Z.to_nat (mid + 1);
          if offset <? address e' then Some mid else search_loop fuel bucket offset (mid + 1) high
      else None
  end.

Definition search_buckets (offset : Z) (block : Block) (buckets : list (Bucket E)) : option (nat * Z) :=
  let bucket_id :=
    length (filter (fun b => b <= offset) (take (Z.to_nat (number_buckets block - 1)) (drop 1 (base_offsets block)))) in
  bucket ← buckets !! bucket_id;
  if number_entries bucket =? 1 then Some (bucket_id, 0)
  else
    i ← search_loop (S (length (entries bucket))) bucket offset 0 (to_u32 (number_entries bucket - 1));
    Some (bucket_id, i).

Definition SearchBucketEntry (Subsection : bool) (offset : Z) (block : Block) (buckets : list (Bucket E)) : option (nat * Z) :=
  if number_buckets block =? 0 then None
  else if Subsection then
    let last := Z.to_nat (number_buckets block - 1) in
    last_bucket ← buckets !! last;
    e ← entries last_bucket !! Z.to_nat (number_entries last_bucket);
    if address e <=? offset then Some (last, number_entries last_bucket)
    else search_buckets offset block buckets
  else if offset <=? size block then search_buckets offset block buckets else None.

(** [GetRelocationEntry] and [GetSubsectionEntry]; [GetNextRelocationEntry]
    and [GetNextSubsectionEntry]. *)
Definition GetEntry (Subsection : bool) (offset : Z) (block : Block) (buckets : list (Bucket E)) : option E :=
  '(b, i) ← SearchBucketEntry Subsection offset block buckets;
  bucket ← buckets !! b;
  entries bucket !! Z.to_nat i.
Definition GetNextEntry (Subsection : bool) (offset : Z) (block : Block) (buckets : list (Bucket E)) : option E :=
  '(b, i) ← SearchBucketEntry Subsection offset block buckets;
  bucket ← buckets !! b;
  if i + 1 <? Z.of_nat (length (entries bucket)) then entries bucket !! Z.to_nat (i + 1)
  else bucket' ← buckets !! S b; entries bucket' !! 0%nat.
End Search.

(** ** Construction *)

Definition push_back {E} (e : E) (bucket : Bucket E) : Bucket E :=
  {| number_entries := number_entries bucket; end_offset := end_offset bucket; entries := entries bucket ++ [e] |}.

Fixpoint push_relocations (n i : nat) (block : Block) (buckets : list (Bucket RelocationEntry))
    : option (list (Bucket RelocationEntry)) :=
  match n with
  | O => Some buckets
  | S n =>
      a ← base_offsets block !! S i;
      b ← buckets !! i;
      push_relocations n (S i) block
        (<[i := push_back {| address_patch := a; address_source := 0; from_patch := 0 |} b]> buckets)
  end.
Fixpoint push_subsections (n i : nat) (buckets : list (Bucket SubsectionEntry)) : option (list (Bucket SubsectionEntry)) :=
  match n with
  | O => Some buckets
  | S n =>
      b' ← buckets !! S i;
      e ← entries b' !! 0%nat;
      b ← buckets !! i;
      push_subsections n (S i) (<[i := push_back {| sub_address_patch := sub_address_patch e; ctr := ctr e |} b]> buckets)
  end.

Section File.
Context {F G : Type} `{VfsFile F} `{VfsFile G}.

Record BKTR := {
  relocation : Block;
  relocation_buckets : list (Bucket RelocationEntry);
  subsection : Block;
  subsection_buckets : list (Bucket SubsectionEntry);
  base_romfs : F;
  bktr_romfs : G;
  encrypted : bool;
  key : list Z;
  base_offset : Z;
  ivfc_offset : Z;
  section_ctr : list Z
}.

Definition BKTR_new (base_romfs_ : F) (bktr_romfs_ : G) (relocation_ : Block)
    (relocation_buckets_ : list (Bucket RelocationEntry)) (subsection_ : Block)
    (subsection_buckets_ : list (Bucket SubsectionEntry)) (is_encrypted_ : bool) (key_ : list Z)
    (base_offset_ ivfc_offset_ : Z) (section_ctr_ : list Z) : option BKTR :=
  rb ← push_relocations (Z.to_nat (to_u32 (number_buckets relocation_ - 1))) 0 relocation_ relocation_buckets_;
  sb ← push_subsections (Z.to_nat (to_u32 (number_buckets subsection_ - 1))) 0 subsection_buckets_;
  back ← last rb;
  let rb := <[(length rb - 1)%nat := push_back {| address_patch := size relocation_; address_source := 0; from_patch := 0 |} back]> rb in
  Some {| relocation := relocation_; relocation_buckets := rb; subsection := subsection_; subsection_buckets := sb;
          base_romfs := base_romfs_; bktr_romfs := bktr_romfs_; encrypted := is_encrypted_; key := key_;
          base_offset := base_offset_; ivfc_offset := ivfc_offset_; section_ctr := section_ctr_ |}.

Definition set_base (b : BKTR) (f : F) : BKTR :=
  {| relocation := relocation b; relocation_buckets := relocation_buckets b; subsection := subsection b;
     subsection_buckets := subsection_buckets b; base_romfs := f; bktr_romfs := bktr_romfs b; encrypted := encrypted b;
     key := key b; base_offset := base_offset b; ivfc_offset := ivfc_offset b; section_ctr := section_ctr b |}.
Definition set_patch (b : BKTR) (f : G) : BKTR :=
  {| relocation := relocation b; relocation_buckets := relocation_buckets b; subsection := subsection b;
     subsection_buckets := subsection_buckets b; base_romfs := base_romfs b; bktr_romfs := f; encrypted := encrypted b;
     key := key b; base_offset := base_offset b; ivfc_offset := ivfc_offset b; section_ctr := section_ctr b |}.

(** The counter block: the three loops of [Read]. *)
Definition counter_block (section_ctr_ : list Z) (subsection_ctr offset_iv : Z) : list Z :=
  let iv := for_up 8 0 (fun i iv => upd iv i (section_ctr_.[8 - i - 1])) (replicate 16 0) in
  let iv := for_up 8 0 (fun i iv => upd iv (0xF - i) ((offset_iv >> (8 * i)) .& 0xFF)) iv in
  for_up 4 0 (fun i iv => upd iv (0x7 - i) ((subsection_ctr >> (8 * i)) .& 0xFF)) iv.

(** ** Read *)

Definition Outcome : Type := option (aes_globals * BKTR * list Z * Z).

(** Two reads, one after the other, into one buffer. *)
Definition in_two (rec : aes_globals -> BKTR -> list Z -> Z -> Z -> Outcome)
    (g : aes_globals) (b : BKTR) (data : list Z) (length partition offset : Z) : Outcome :=
  '(g, b, out, n) ← rec g b data partition offset;
  '(g, b, rest, m) ← rec g b (drop (Z.to_nat partition) out) (to_u64 (length - partition)) (to_u64 (offset + partition));
  Some (g, b, take (Z.to_nat partition) out ++ rest, to_u64 (n + m)).

(** From [const auto block_offset] on: one subsection. *)
Definition read_section (rec : aes_globals -> BKTR -> list Z -> Z -> Z -> Outcome)
    (g : aes_globals) (b : BKTR) (cipher : AESCipher) (data : list Z) (length offset section_offset : Z) : Outcome :=
  let block_offset := section_offset .& 0xF in
  if negb (block_offset =? 0) then
    let '(f, block) := ReadBytes (bktr_romfs b) 0x10 (section_offset - block_offset) in
    let '(cipher, block) := Transcode (tabs g) cipher block block true Decrypt in
    let b := set_patch b f in
    if to_u64 (length + block_offset) <? 0x10 then
      let n := Z.min length (Z.of_nat (List.length block)) in
      Some (g, b, store data (part block block_offset n), n)
    else
      let read := 0x10 - block_offset in
      let data := store data (part block block_offset read) in
      '(g, b, rest, m) ← rec g b (drop (Z.to_nat read) data) (to_u64 (length - read)) (to_u64 (offset + read));
      Some (g, b, take (Z.to_nat read) data ++ rest, to_u64 (read + m))
  else
    let '(f, data, raw_read) := Vfs.Read (bktr_romfs b) data length section_offset in
    let '(cipher, out) := Transcode (tabs g) cipher (take (Z.to_nat raw_read) data) data true Decrypt in
    Some (g, set_patch b f, out, raw_read).

(** From [if (!encrypted)] on: the patch, in the clear and encrypted. *)
Definition read_patch (rec : aes_globals -> BKTR -> list Z -> Z -> Z -> Outcome)
    (g : aes_globals) (b : BKTR) (data : list Z) (length offset section_offset : Z) : Outcome :=
  if negb (encrypted b) then
    let '(f, out, n) := Vfs.Read (bktr_romfs b) data length section_offset in Some (g, set_patch b f, out, n)
  else
    s ← GetEntry sub_address_patch true section_offset (subsection b) (subsection_buckets b);
    let '(g, cipher, ok) := AESCipher_new g (key b) CTR in
    let iv := counter_block (section_ctr b) (ctr s) (to_u64 (section_offset + base_offset b) >> 4) in
    let '(cipher, ok') := SetIV cipher iv in
    next ← GetNextEntry sub_address_patch true section_offset (subsection b) (subsection_buckets b);
    if negb (ok && ok') then None
    else if sub_address_patch next <? to_u64 (section_offset + length) then
      in_two rec g b data length (to_u64 (sub_address_patch next - section_offset)) offset
    else read_section rec g b cipher data length offset section_offset.

Fixpoint read (fuel : nat) (g : aes_globals) (b : BKTR) (data : list Z) (length offset : Z) : Outcome :=
  match fuel with
  | O => None
  | S fuel =>
      if size (relocation b) <=? offset then Some (g, b, data, 0)
      else
        r ← GetEntry address_patch false offset (relocation b) (relocation_buckets b);
        let section_offset := to_u64 (offset - address_patch r + address_source r) in
        next ← GetNextEntry address_patch false offset (relocation b) (relocation_buckets b);
        if address_patch next <? to_u64 (offset + length) then
          in_two (read fuel) g b data length (to_u64 (address_patch next - offset)) offset
        else if from_patch r =? 0 then
          if section_offset <? ivfc_offset b then None
          else
            let '(f, out, n) := Vfs.Read (base_romfs b) data length (section_offset - ivfc_offset b) in
            Some (g, set_base b f, out, n)
        else read_patch (read fuel) g b data length offset section_offset
  end.

(** [Read]: every call within it is for fewer octets. *)
Definition Read (g : aes_globals) (b : BKTR) (data : list Z) (length offset : Z) : Outcome :=
  read (S (Z.to_nat length)) g b data length offset.

Definition GetSize_ (b : BKTR) : Z := size (relocation b).
End File.
Arguments BKTR F G : clear implicits.
End Bktr.
Import Bktr.

(** ** Tables *)

Section Tables.
Context {E : Type} (address : E -> Z).

(** The address of entry [j] of a bucket. *)
Definition addr (b : Bucket E) (j : nat) : Z := default 0 (address <$> entries b !! j).

(** A bucket in order, [n] entries and at least one sentinel. *)
Record bucket_ok (b : Bucket E) (n : nat) : Prop := {
  bk_count : number_entries b = Z.of_nat n /\ (1 <= n)%nat /\ number_entries b < 2 ^ 32;
  bk_length : (n < length (entries b))%nat;
  bk_order j : (S j < length (entries b))%nat -> addr b j < addr b (S j)
}.

Lemma lookup_addr b j : (j < length (entries b))%nat -> exists e, entries b !! j = Some e /\ address e = addr b j.
Proof. intros [e He]%lookup_lt_is_Some_2. exists e. unfold addr. by rewrite He. Qed.

Lemma addr_mono b n i j : bucket_ok b n -> (i <= j)%nat -> (j < length (entries b))%nat -> addr b i <= addr b j.
Proof.
  intros Hb Hij. induction Hij as [|j Hij IH]; intros Hj; [lia|]. pose proof (bk_order _ _ Hb j Hj). specialize (IH ltac:(lia)). lia.
Qed.

Lemma search_loop_spec b n offset : bucket_ok b n -> offset < addr b n ->
  forall fuel low high, (low <= high)%nat -> (high < n)%nat -> addr b low <= offset -> offset < addr b (S high) ->
  (high - low < fuel)%nat ->
  exists i, search_loop address fuel b offset (Z.of_nat low) (Z.of_nat high) = Some (Z.of_nat i)
    /\ (i < n)%nat /\ addr b i <= offset < addr b (S i).
Proof.
  intros Hb Hn. destruct (bk_count _ _ Hb) as (Hnum & Hn1 & Hn32). rewrite Hnum in Hn32. pose proof (bk_length _ _ Hb) as Hlen.
  induction fuel as [|fuel IH]; intros low high Hlh Hh Hlow Hhigh Hf; [lia|]. cbn [search_loop].
  rewrite (proj2 (Z.leb_le _ _)) by lia. rewrite (to_u64_id (Z.of_nat low + Z.of_nat high)) by (unfold is_u64; lia).
  assert (exists mid, (Z.of_nat low + Z.of_nat high) / 2 = Z.of_nat mid /\ (low <= mid <= high)%nat) as (mid & -> & Hmid).
  { exists (Z.to_nat ((Z.of_nat low + Z.of_nat high) / 2)). split; zify; zlia. }
  rewrite Nat2Z.id. destruct (lookup_addr b mid) as (e & -> & Ee); [lia|]. cbn [mbind option_bind]. rewrite Ee.
  destruct (Z.ltb_spec offset (addr b mid)) as [Hgt|Hle].
  - assert (low <> mid) by (intros ->; lia). rewrite to_u64_id by (unfold is_u64; lia).
    replace (Z.of_nat mid - 1) with (Z.of_nat (mid - 1)) by lia. apply IH; try lia. by replace (S (mid - 1)) with mid by lia.
  - rewrite to_u32_id by (unfold is_u32; lia). rewrite Hnum. destruct (Z.eqb_spec (Z.of_nat mid) (Z.of_nat n - 1)) as [Hm|Hm].
    { exists mid. split; [done|]. replace (S mid) with n by lia. lia. }
    replace (Z.of_nat mid + 1) with (Z.of_nat (S mid)) by lia. rewrite Nat2Z.id.
    destruct (lookup_addr b (S mid)) as (e' & -> & Ee'); [lia|]. cbn [mbind option_bind]. rewrite Ee'.
    destruct (Z.ltb_spec offset (addr b (S mid))) as [Hgt'|Hle']; [exists mid; split; [done|lia]|].
    assert (mid <> high) by (intros ->; lia). apply IH; lia.
Qed.

(** The offsets not above [offset] come first in an increasing list. *)
Lemma count_sorted (l : list Z) offset : StronglySorted Z.lt l ->
  let k := length (filter (fun b => b <= offset) l) in
  (forall j x, (j < k)%nat -> l !! j = Some x -> x <= offset) /\ (forall j x, (k <= j)%nat -> l !! j = Some x -> offset < x).
Proof.
  induction 1 as [|y l Hl [IH1 IH2] Hy]; [by split; intros|]. rewrite filter_cons. destruct (decide (y <= offset)) as [Hle|Hgt].
  - cbn [length]. split; intros [|j] x Hj Hx; try lia; [by injection Hx as <-| |]; simpl in Hx; [eapply IH1|eapply IH2]; try exact Hx; lia.
  - split; intros j x Hj Hx.
    + exfalso. assert (filter (fun b => b <= offset) l = []) as E0.
      { clear - Hy Hgt. induction Hy as [|z l Hz Hy IH]; [done|]. rewrite filter_cons. destruct (decide (z <= offset)); [lia|done]. } rewrite E0 in Hj. simpl in Hj. lia.
    + destruct j as [|j]; simpl in Hx; [injection Hx as <-; lia|]. rewrite Forall_lookup in Hy. specialize (Hy j x Hx). lia.
Qed.

(** The buckets of a table: in order, each ended by the first address of the
    next one (which is its base offset); a table of subsections ends with two
    sentinels.  It covers the offsets from [lo] to [hi]. *)
Record table_ok (Subsection : bool) (block : Block) (buckets : list (Bucket E)) (lo hi : Z) : Prop := {
  tb_count : number_buckets block = Z.of_nat (length buckets);
  tb_some : buckets <> [];
  tb_offsets : (length buckets <= length (base_offsets block))%nat
    /\ StronglySorted Z.lt (take (length buckets - 1) (drop 1 (base_offsets block)));
  tb_bucket i b : buckets !! i = Some b -> exists n, bucket_ok b n
    /\ length (entries b) = (n + if Subsection && (S i =? length buckets)%nat then 2 else 1)%nat
    /\ (i = 0%nat -> addr b 0 = lo) /\ (i <> 0%nat -> base_offsets block !! i = Some (addr b 0))
    /\ (S i <> length buckets -> base_offsets block !! S i = Some (addr b n))
    /\ (S i = length buckets -> addr b (length (entries b) - 1) = hi);
  tb_range i b e : buckets !! i = Some b -> e ∈ entries b -> lo <= address e <= hi
}.

(** What a search has to find: the two neighbours around [offset]. *)
Definition around (buckets : list (Bucket E)) (offset : Z) (e e' : E) : Prop :=
  exists i b j, buckets !! i = Some b /\ entries b !! j = Some e /\ entries b !! S j = Some e'
    /\ address e <= offset < address e'.

Lemma around_range Subsection block buckets lo hi offset e e' : table_ok Subsection block buckets lo hi ->
  around buckets offset e e' -> lo <= address e <= offset /\ offset < address e' <= hi.
Proof.
  intros Hok (i & b & j & Eb & Ee & Ee' & Hr). apply list_elem_of_lookup_2 in Ee, Ee'.
  pose proof (tb_range _ _ _ _ _ Hok i b e Eb Ee). pose proof (tb_range _ _ _ _ _ Hok i b e' Eb Ee'). lia.
Qed.

Section Ok.
Context (Subsection : bool) (block : Block) (buckets : list (Bucket E)) (lo hi : Z).
Context (Hok : table_ok Subsection block buckets lo hi).

(** The bucket the count selects. *)
Lemma search_buckets_spec offset : lo <= offset ->
  (forall b n, buckets !! (length buckets - 1)%nat = Some b -> bucket_ok b n -> offset < addr b n) ->
  exists k b i, search_buckets address offset block buckets = Some (k, Z.of_nat i) /\ buckets !! k = Some b
    /\ (S i < length (entries b))%nat /\ addr b i <= offset < addr b (S i).
Proof.
  intros Hlo Hlast. unfold search_buckets. rewrite (tb_count _ _ _ _ _ Hok). destruct (tb_offsets _ _ _ _ _ Hok) as [Hlb Hsort].
  replace (Z.to_nat (Z.of_nat (length buckets) - 1)) with (length buckets - 1)%nat by lia.
  set (offs := take _ (drop 1 _)) in *. destruct (count_sorted offs offset Hsort) as [Hc1 Hc2]. set (k := length (filter _ offs)) in *.
  assert (length offs = (length buckets - 1)%nat) as Hlo' by (unfold offs; rewrite length_take, length_drop; lia).
  assert (0 < length buckets)%nat as H0 by (pose proof (tb_some _ _ _ _ _ Hok); destruct buckets; simpl; [done|lia]).
  assert (k <= length offs)%nat as Hk by apply length_filter.
  assert (forall j, (j < length offs)%nat -> offs !! j = base_offsets block !! S j) as Hoffs.
  { intros j Hj. unfold offs. rewrite lookup_take_lt, lookup_drop by lia. done. }
  destruct (lookup_lt_is_Some_2 buckets k ltac:(lia)) as [b Eb]. rewrite Eb. cbn [mbind option_bind].
  destruct (tb_bucket _ _ _ _ _ Hok k b Eb) as (n & Hb & Hlen & Hf0 & Hf & Hs & _).
  assert (addr b 0 <= offset) as Hstart.
  { destruct k as [|k']; [by rewrite Hf0|]. apply (Hc1 k'); [lia|]. rewrite Hoffs by lia. by apply Hf. }
  assert (offset < addr b n) as Hend.
  { destruct (decide (S k = length buckets)) as [Hl|Hl].
    - apply (Hlast b n); [|done]. replace (length buckets - 1)%nat with k by lia. done.
    - apply (Hc2 k); [lia|]. rewrite Hoffs by lia. by apply Hs. }
  destruct (bk_count _ _ Hb) as (Hnum & Hn1 & Hn32). rewrite Hnum in *. pose proof (bk_length _ _ Hb) as Hbl.
  destruct (Z.eqb_spec (Z.of_nat n) 1) as [H1|H1].
  - exists k, b, 0%nat. replace n with 1%nat in * by lia. split; [done|]. split; [done|]. split; [lia|done].
  - rewrite to_u32_id by (unfold is_u32; lia). replace (Z.of_nat n - 1) with (Z.of_nat (n - 1)) by lia.
    destruct (search_loop_spec b n offset Hb Hend (S (length (entries b))) 0 (n - 1)) as (i & E1 & Hi & Hr); try lia.
    { by replace (S (n - 1)) with n by lia. }
    change (Z.of_nat 0) with 0 in E1. rewrite E1. exists k, b, i. split; [done|]. split; [done|]. split; [lia|done].
Qed.

Lemma last_bucket : exists b n, buckets !! (length buckets - 1)%nat = Some b /\ bucket_ok b n
  /\ length (entries b) = (n + if Subsection then 2 else 1)%nat /\ addr b (length (entries b) - 1) = hi.
Proof.
  assert (0 < length buckets)%nat as H0 by (pose proof (tb_some _ _ _ _ _ Hok); destruct buckets; simpl; [done|lia]).
  destruct (lookup_lt_is_Some_2 buckets (length buckets - 1) ltac:(lia)) as [b Eb].
  destruct (tb_bucket _ _ _ _ _ Hok _ b Eb) as (n & Hb & Hlen & _ & _ & _ & Hhi). exists b, n.
  replace (S (length buckets - 1)) with (length buckets) in * by lia. rewrite Nat.eqb_refl, andb_true_r in Hlen. eauto.
Qed.

Lemma bucket_ok_unique b n m : bucket_ok b n -> bucket_ok b m -> n = m.
Proof. intros H1 H2. destruct (bk_count _ _ H1) as [E1 _], (bk_count _ _ H2) as [E2 _]. lia. Qed.

(** The search finds the entry that holds the offset. *)
Lemma search_spec offset : lo <= offset < hi -> (Subsection = false -> hi <= size block) ->
  exists k b i, SearchBucketEntry address Subsection offset block buckets = Some (k, Z.of_nat i) /\ buckets !! k = Some b
    /\ (S i < length (entries b))%nat /\ addr b i <= offset < addr b (S i).
Proof.
  intros Ho Hsize. pose proof (search_buckets_spec offset) as Hsb. destruct last_bucket as (bl & n & El & Hbl & Hlen & Hhi).
  assert (forall b m, buckets !! (length buckets - 1)%nat = Some b -> bucket_ok b m -> b = bl /\ m = n) as Hu.
  { intros b m Eb Hb. rewrite El in Eb. injection Eb as <-. split; [done|by eapply bucket_ok_unique]. }
  unfold SearchBucketEntry. rewrite (tb_count _ _ _ _ _ Hok). destruct (Z.eqb_spec (Z.of_nat (length buckets)) 0) as [Hz|Hz].
  { destruct buckets; [by destruct (tb_some _ _ _ _ _ Hok)|simpl in Hz; lia]. }
  replace (Z.to_nat (Z.of_nat (length buckets) - 1)) with (length buckets - 1)%nat by lia.
  destruct Subsection.
  - rewrite El. cbn [mbind option_bind]. destruct (bk_count _ _ Hbl) as (Hnum & _). rewrite Hnum, Nat2Z.id.
    destruct (lookup_addr bl n) as (e & -> & Ee); [lia|]. cbn [mbind option_bind]. rewrite Ee.
    destruct (Z.leb_spec (addr bl n) offset) as [Hle|Hgt].
    + exists (length buckets - 1)%nat, bl, n. rewrite Hlen in Hhi. replace (n + 2 - 1)%nat with (S n) in Hhi by lia.
      split; [done|]. split; [done|]. split; [lia|]. lia.
    + apply Hsb; [lia|]. intros b m Eb Hb. by destruct (Hu b m Eb Hb) as [-> ->].
  - specialize (Hsize eq_refl). rewrite (proj2 (Z.leb_le _ _)) by lia. apply Hsb; [lia|].
    intros b m Eb Hb. destruct (Hu b m Eb Hb) as [-> ->]. rewrite Hlen in Hhi. replace (n + 1 - 1)%nat with n in Hhi by lia. lia.
Qed.

Lemma entries_around offset : lo <= offset < hi -> (Subsection = false -> hi <= size block) ->
  exists e e', GetEntry address Subsection offset block buckets = Some e
    /\ GetNextEntry address Subsection offset block buckets = Some e' /\ around buckets offset e e'.
Proof.
  intros Ho Hs. destruct (search_spec offset Ho Hs) as (k & b & i & Es & Eb & Hi & Hr).
  destruct (lookup_addr b i) as (e & Ee & Ae); [lia|]. destruct (lookup_addr b (S i)) as (e' & Ee' & Ae'); [lia|].
  exists e, e'. unfold GetEntry, GetNextEntry. rewrite Es. cbn [mbind option_bind]. rewrite Eb. cbn [mbind option_bind].
  rewrite Nat2Z.id, Ee. split; [done|]. rewrite (proj2 (Z.ltb_lt _ _)) by lia.
  replace (Z.to_nat (Z.of_nat i + 1)) with (S i) by lia. split; [done|]. exists k, b, i. by rewrite Ae, Ae'.
Qed.
End Ok.
End Tables.

(** ** The counter block *)

(** The upper half of the counter of a subsection. *)
Definition counter_high (section_ctr_ : list Z) (subsection_ctr : Z) : Z :=
  be_val (rev (drop 4 section_ctr_)) * 2 ^ 32 + subsection_ctr.

(** The loops, for any octets. *)
Lemma counter_loops z0 z1 z2 z3 z4 z5 z6 z7 (f h : Z -> Z) :
  for_up 4 0 (fun i iv => upd iv (0x7 - i) (f i)) (for_up 8 0 (fun i iv => upd iv (0xF - i) (h i))
    (for_up 8 0 (fun i iv => upd iv i ([z0; z1; z2; z3; z4; z5; z6; z7].[8 - i - 1])) (replicate 16 0)))
  = [z7; z6; z5; z4] ++ [f 3; f 2; f 1; f 0] ++ [h 7; h 6; h 5; h 4; h 3; h 2; h 1; h 0].
Proof. reflexivity. Qed.

Lemma octet_shift v k : 0 <= k -> (v >> (8 * k)) .& 0xFF = (v / 256 ^ k) mod 256.
Proof. intros Hk. fold (to_u8 (v >> (8 * k))). rewrite to_u8_mod, Z.shiftr_div_pow2, Z.pow_mul_r by lia. done. Qed.

Lemma be_octets_4 v (f : Z -> Z) : (forall k, 0 <= k -> f k = (v / 256 ^ k) mod 256) -> [f 3; f 2; f 1; f 0] = be_bytes 4 v.
Proof. intros Hf. rewrite !Hf by lia. unfold be_bytes. cbn [le_bytes rev app]. rewrite !Z.div_div, Z.div_1_r by lia. done. Qed.
Lemma be_octets_8 v (f : Z -> Z) : (forall k, 0 <= k -> f k = (v / 256 ^ k) mod 256) ->
  [f 7; f 6; f 5; f 4; f 3; f 2; f 1; f 0] = be_bytes 8 v.
Proof. intros Hf. rewrite !Hf by lia. unfold be_bytes. cbn [le_bytes rev app]. rewrite !Z.div_div, Z.div_1_r by lia. done. Qed.

Lemma be_bytes_add n m a b : 0 <= b < 256 ^ Z.of_nat n -> be_bytes (n + m) (a * 256 ^ Z.of_nat n + b) = be_bytes m a ++ be_bytes n b.
Proof.
  intros Hb. rewrite be_bytes_split, Z.div_add_l, (Z.div_small b), Z.add_0_r by lia. f_equal.
  rewrite <- be_bytes_mod, Z.add_comm, Z.mod_add, Z.mod_small by lia. done.
Qed.

Lemma counter_block_be section_ctr_ c off : length section_ctr_ = 8%nat -> bytes section_ctr_ ->
  0 <= c < 2 ^ 32 -> 0 <= off < 2 ^ 64 ->
  counter_block section_ctr_ c (off >> 4) = be_bytes 16 (counter_high section_ctr_ c * 2 ^ 64 + off / 16).
Proof.
  intros Hl Hb Hc Ho. do 8 (destruct section_ctr_ as [|? section_ctr_]; [done|]). destruct section_ctr_; [|done].
  unfold counter_block. rewrite counter_loops. unfold counter_high. change (2 ^ 64) with (256 ^ Z.of_nat 8).
  change 16%nat with (8 + 8)%nat. rewrite (be_bytes_add 8 8) by (change (256 ^ Z.of_nat 8) with (2 ^ 64); zlia).
  change (be_bytes 8 (_ * 2 ^ 32 + c)) with (be_bytes (4 + 4) (be_val (rev (drop 4 [z; z0; z1; z2; z3; z4; z5; z6])) * 256 ^ Z.of_nat 4 + c)).
  rewrite (be_bytes_add 4 4) by done. rewrite <- app_assoc. f_equal; [|f_equal].
  - cbn [drop]. change [z6; z5; z4; z3] with (rev [z3; z4; z5; z6]). symmetry. apply (be_bytes_val (rev [z3; z4; z5; z6])).
    apply Forall_rev. apply (Forall_drop _ 4 _ Hb).
  - apply (be_octets_4 c (fun i => (c >> (8 * i)) .& 0xFF)). intros k Hk. by apply octet_shift.
  - replace (off / 16) with (off >> 4) by (by rewrite Z.shiftr_div_pow2 by lia).
    apply (be_octets_8 (off >> 4) (fun i => ((off >> 4) >> (8 * i)) .& 0xFF)). intros k Hk. by apply octet_shift.
Qed.

(** ** Decryption *)

(** A cipher with the counter [v]. *)
Lemma ctr_cipher_decrypts g k v : aes_ready g -> bytes k -> length k = 16%nat ->
  exists c c', AESCipher_new g k CTR = (aes_init_tables g, c, true) /\ SetIV c (be_bytes 16 v) = (c', true)
    /\ forall src dest ip, bytes src -> (length src <= length dest)%nat ->
       exists c'', Transcode (tabs (aes_init_tables g)) c' src dest ip Decrypt
         = (c'', store dest (ctr_spec (aes_encrypt 4 k) v src)).
Proof.
  intros Hg Hk Hl. destruct (new_ctr g k Hg Hk Hl) as (ce & cd & En & HE).
  set (c := {| encryption_context := _; decryption_context := _ |}) in En.
  assert (ctr_idle ce aes_128_ctr_info (encryption_context c)) as He by done.
  assert (ctr_idle cd aes_128_ctr_info (decryption_context c)) as Hd by done.
  destruct (set_iv_ctr ce _ (be_bytes 16 v) He) as (e & Ee & _ & _); [apply length_be_bytes|].
  destruct (set_iv_ctr cd _ (be_bytes 16 v) Hd) as (d & Ed & (Hi & Hc & _) & Eid); [apply length_be_bytes|].
  exists c, {| encryption_context := e; decryption_context := d |}. split; [exact En|]. split.
  - unfold SetIV. rewrite Ee. cbn [negb Z.eqb]. by rewrite Ed.
  - intros src dest ip Hs Hlen. unfold Transcode. cbn [decryption_context].
    destruct (transcode_ctr (tabs (aes_init_tables g)) cd aes_128_ctr_info v eq_refl eq_refl eq_refl d src dest ip Hi Hc Eid Hs Hlen) as (d' & -> & _).
    eexists. f_equal. f_equal. exact (ctr_xor_spec _ _ _ _ _ _ HE).
Qed.

Lemma lookup_part c a n i : 0 <= a -> (i < Z.to_nat n)%nat -> part c a n !! i = c !! (Z.to_nat a + i)%nat.
Proof. intros Ha Hi. unfold part. rewrite lookup_take_lt, lookup_drop by done. done. Qed.

(** The octet of the key stream at position [x] of the patch. *)
Definition stream (k : list Z) (hi bo x : Z) : Z := (aes_encrypt 4 k (be_bytes 16 (hi * 2 ^ 64 + (x + bo) / 16))).[x mod 16].

(** Decrypting [m] octets from an aligned place [a] on gives the plaintext
    wherever the key stream is the one of the counter. *)
Lemma decrypted_part k hi bo raw plain a m o n :
  0 <= a -> a mod 16 = 0 -> bo mod 16 = 0 -> 0 <= o -> 0 <= n -> o + n <= m -> a + m <= Z.of_nat (length raw) ->
  length plain = length raw ->
  (forall x p, a + o <= x < a + o + n -> plain !! Z.to_nat x = Some p -> raw !! Z.to_nat x = Some (Z.lxor p (stream k hi bo x))) ->
  part (ctr_spec (aes_encrypt 4 k) (hi * 2 ^ 64 + (a + bo) / 16) (part raw a m)) o n = part plain (a + o) n.
Proof.
  intros Ha Hal Hbo Ho Hn Hon Hin Hlen Hx.
  assert (length (part raw a m) = Z.to_nat m) as Hlr by (apply length_part; lia).
  apply list_eq_same_length with (n := Z.to_nat n).
  - apply length_part; lia.
  - unfold ctr_spec. apply length_part; rewrite ?length_imap, ?Hlr; lia.
  - intros i x y Hi. rewrite !lookup_part by lia. unfold ctr_spec. rewrite list_lookup_imap, lookup_part by lia.
    replace (Z.to_nat a + (Z.to_nat o + i))%nat with (Z.to_nat (a + o + Z.of_nat i)) by lia.
    replace (Z.to_nat (a + o) + i)%nat with (Z.to_nat (a + o + Z.of_nat i)) by lia.
    intros Hl Hp. rewrite (Hx (a + o + Z.of_nat i) y) in Hl by (lia || done). injection Hl as <-.
    assert ((a + o + Z.of_nat i + bo) / 16 = (a + bo) / 16 + Z.of_nat ((Z.to_nat o + i) / 16)
      /\ (a + o + Z.of_nat i) mod 16 = Z.of_nat ((Z.to_nat o + i) mod 16)) as [E1 E2] by (split; zify; zlia).
    unfold stream. rewrite E1, E2, <- Z.add_assoc, Z.lxor_assoc, Z.lxor_nilpotent. by rewrite Z.lxor_0_r.
Qed.

(** ** Reads *)

Section Reads.
Context {F G : Type} `{HF : Trimming F goodF} `{HG : Trimming G goodG}.
Context (base plain raw c : list Z).

(** The patched file [c]: between two neighbours of the relocation table it
    holds the octets of the base or of the (decrypted) patch from the source
    address on; the patch holds [raw], which is [plain] under the key stream
    of the subsection each octet lies in. *)
Record encrypted_ok (b : BKTR F G) : Prop := {
  en_length : length plain = length raw;
  en_bytes : bytes raw;
  en_key : bytes (key b) /\ length (key b) = 16%nat;
  en_ctr : bytes (section_ctr b) /\ length (section_ctr b) = 8%nat;
  en_base : 0 <= base_offset b /\ base_offset b mod 16 = 0 /\ base_offset b + Z.of_nat (length raw) < 2 ^ 64;
  en_table : exists hi, Z.of_nat (length raw) <= hi < 2 ^ 64
    /\ table_ok sub_address_patch true (subsection b) (subsection_buckets b) 0 hi;
  en_stream x s s' p : around sub_address_patch (subsection_buckets b) x s s' -> plain !! Z.to_nat x = Some p ->
    0 <= ctr s < 2 ^ 32
    /\ raw !! Z.to_nat x = Some (Z.lxor p (stream (key b) (counter_high (section_ctr b) (ctr s)) (base_offset b) x))
}.

Record bktr_ok (b : BKTR F G) : Prop := {
  bo_table : table_ok address_patch false (relocation b) (relocation_buckets b) 0 (size (relocation b));
  bo_size : size (relocation b) = Z.of_nat (length c) /\ Z.of_nat (length c) < 2 ^ 64;
  bo_base : goodF (base_romfs b) base;
  bo_patch : goodG (bktr_romfs b) raw;
  bo_ivfc : 0 <= ivfc_offset b;
  bo_source offset r r' : around address_patch (relocation_buckets b) offset r r' ->
    let n := address_patch r' - address_patch r in
    0 <= address_source r
    /\ (from_patch r = 0 -> ivfc_offset b <= address_source r /\ address_source r + n < 2 ^ 64
         /\ address_source r - ivfc_offset b + n <= Z.of_nat (length base)
         /\ part c (address_patch r) n = part base (address_source r - ivfc_offset b) n)
    /\ (from_patch r <> 0 -> address_source r + n <= Z.of_nat (length raw)
         /\ part c (address_patch r) n = part plain (address_source r) n);
  bo_clear : encrypted b = false -> plain = raw;
  bo_encrypted : encrypted b = true -> encrypted_ok b
}.

Lemma set_base_ok b f : bktr_ok b -> goodF f base -> bktr_ok (set_base b f).
Proof. intros [] Hf. split; try done. intros He. by destruct (bo_encrypted0 He). Qed.
Lemma set_patch_ok b f : bktr_ok b -> goodG f raw -> bktr_ok (set_patch b f).
Proof. intros [] Hf. split; try done. intros He. by destruct (bo_encrypted0 He). Qed.

(** A reader that serves every request for fewer than [m] octets. *)
Definition serves (rec : aes_globals -> BKTR F G -> list Z -> Z -> Z -> Outcome) (m : nat) : Prop :=
  forall g b data len offset, aes_ready g -> bktr_ok b -> 0 <= len -> (Z.to_nat len < m)%nat -> offset + len < 2 ^ 64 ->
  (Z.to_nat len <= length data)%nat -> 0 <= offset <= Z.of_nat (length c) ->
  let n := Z.min len (Z.of_nat (length c) - offset) in
  exists g' b', rec g b data len offset = Some (g', b', store data (part c offset n), n) /\ aes_ready g' /\ bktr_ok b'.

Lemma in_two_spec rec m g b data len k offset : serves rec m -> aes_ready g -> bktr_ok b ->
  0 < k < len -> (Z.to_nat len <= m)%nat -> offset + len < 2 ^ 64 -> (Z.to_nat len <= length data)%nat ->
  0 <= offset -> offset + k <= Z.of_nat (length c) ->
  let n := Z.min len (Z.of_nat (length c) - offset) in
  exists g' b', in_two rec g b data len k offset = Some (g', b', store data (part c offset n), n) /\ aes_ready g' /\ bktr_ok b'.
Proof.
  intros Hrec Hg Hb Hk Hm H64 Hd Ho Hin n. unfold in_two. destruct (bo_size b Hb) as [_ Hc].
  destruct (Hrec g b data k offset Hg Hb) as (g1 & b1 & -> & Hg1 & Hb1); [lia..|].
  cbn [mbind option_bind]. rewrite Z.min_l by lia. rewrite !to_u64_id by (unfold is_u64; lia).
  assert (length (part c offset k) = Z.to_nat k) as Hl by (apply length_part; lia).
  destruct (Hrec g1 b1 (drop (Z.to_nat k) (store data (part c offset k))) (len - k) (offset + k) Hg1 Hb1) as (g2 & b2 & -> & Hg2 & Hb2);
    [lia|lia|lia|rewrite length_drop_store by done; lia|lia|].
  cbn [mbind option_bind]. exists g2, b2. split; [|done]. rewrite store_part, part_app by (done || lia).
  rewrite to_u64_id by (unfold is_u64; lia). unfold n.
  replace (k + Z.min (len - k) (Z.of_nat (length c) - (offset + k))) with (Z.min len (Z.of_nat (length c) - offset)) by lia. done.
Qed.

(** A request that lies in one stretch of the patch: the octets of [c] are
    those of the plaintext from [so] on. *)
Record in_patch (len offset so : Z) : Prop := {
  ip_len : 0 <= len;
  ip_offset : 0 <= offset /\ offset + len <= Z.of_nat (length c);
  ip_so : 0 <= so < Z.of_nat (length raw) /\ so + len <= Z.of_nat (length raw);
  ip_part n : 0 <= n <= len -> part c offset n = part plain so n
}.

(** The octets of a stretch within one subsection. *)
Lemma decrypted_here b s s' so a m o n : encrypted_ok b -> around sub_address_patch (subsection_buckets b) so s s' ->
  0 <= a -> a mod 16 = 0 -> a + o = so -> 0 <= o < 16 -> 0 <= n -> o + n <= m -> a + m <= Z.of_nat (length raw) ->
  so + n <= sub_address_patch s' ->
  part (ctr_spec (aes_encrypt 4 (key b)) (counter_high (section_ctr b) (ctr s) * 2 ^ 64 + (so + base_offset b) / 16) (part raw a m)) o n
  = part plain so n.
Proof.
  intros He (i & bk & j & Eb & Es & Es' & Hr) Ha Hal Hso Ho Hn Hon Hin Hend. destruct (en_base b He) as (Hb0 & Hb16 & _).
  replace ((so + base_offset b) / 16) with ((a + base_offset b) / 16) by (subst so; zlia).
  rewrite <- Hso. apply decrypted_part; try done; [lia|apply (en_length b He)|].
  intros x p Hx Hp. apply (en_stream b He x s s' p); [|done]. exists i, bk, j. split; [done|]. split; [done|]. split; [done|]. lia.
Qed.

Lemma store_store data (x y : list Z) : length x = length y -> store (store data x) y = store data y.
Proof. intros E. unfold store. by rewrite <- E, drop_app_length. Qed.

Lemma part_whole x n : length x = Z.to_nat n -> part x 0 n = x.
Proof. intros E. unfold part. cbn [drop Z.to_nat]. apply take_ge. lia. Qed.

Lemma bytes_part x a n : bytes x -> bytes (part x a n).
Proof. intros Hx. apply Forall_take, Forall_drop, Hx. Qed.

Lemma read_patch_clear rec g b data len offset so : bktr_ok b -> aes_ready g -> in_patch len offset so -> encrypted b = false ->
  (Z.to_nat len <= length data)%nat ->
  exists b', read_patch rec g b data len offset so = Some (g, b', store data (part c offset len), len) /\ bktr_ok b'.
Proof.
  intros Hb Hg Hp He Hd. destruct Hp as [Hl Ho Hso Hpart]. unfold read_patch. rewrite He. cbn [negb].
  destruct (trim_size _ _ (bo_patch b Hb)) as [_ H64].
  destruct (trim_read (bktr_romfs b) raw data len so (bo_patch b Hb)) as (f & -> & Hf); [lia..|].
  rewrite Z.min_l by lia. eexists. split; [|by apply set_patch_ok]. by rewrite Hpart, (bo_clear b Hb He) by lia.
Qed.

(** The block of an unaligned offset. *)
Lemma read_block b so : bktr_ok b -> encrypted_ok b -> 0 <= so < Z.of_nat (length raw) ->
  let a := so - so mod 16 in let m := Z.min 16 (Z.of_nat (length raw) - a) in
  exists f, ReadBytes (bktr_romfs b) 16 a = (f, part raw a m) /\ goodG f raw /\ length (part raw a m) = Z.to_nat m
    /\ 0 <= a /\ a mod 16 = 0 /\ so mod 16 < m /\ a + m <= Z.of_nat (length raw).
Proof.
  intros Hb He Hso a m. assert (0 <= a /\ a mod 16 = 0 /\ a <= so < a + 16) as (Ha0 & Ha & Has) by (unfold a; zlia).
  destruct (trim_read_bytes (bktr_romfs b) raw 16 a (bo_patch b Hb)) as (f & E & Hf); [lia..|].
  exists f. split; [exact E|]. split; [done|]. split; [apply length_part; unfold m; lia|]. unfold m. repeat split; unfold a in *; lia.
Qed.

(** A cipher that decrypts at the counter of the offset [so] in the
    subsection [s]. *)
Definition deciphers (g : aes_globals) (b : BKTR F G) (s : SubsectionEntry) (so : Z) (k : AESCipher) : Prop :=
  forall src dest ip, bytes src -> (length src <= length dest)%nat ->
  exists k', Transcode (tabs g) k src dest ip Decrypt
    = (k', store dest (ctr_spec (aes_encrypt 4 (key b)) (counter_high (section_ctr b) (ctr s) * 2 ^ 64 + (so + base_offset b) / 16) src)).

(** The prologue of an encrypted read: the subsection and the cipher. *)
Lemma subsection_cipher g b so : aes_ready g -> encrypted_ok b -> 0 <= so < Z.of_nat (length raw) ->
  exists s s' k k', GetEntry sub_address_patch true so (subsection b) (subsection_buckets b) = Some s
    /\ GetNextEntry sub_address_patch true so (subsection b) (subsection_buckets b) = Some s'
    /\ around sub_address_patch (subsection_buckets b) so s s' /\ sub_address_patch s' < 2 ^ 64
    /\ AESCipher_new g (key b) CTR = (aes_init_tables g, k, true)
    /\ SetIV k (counter_block (section_ctr b) (ctr s) (to_u64 (so + base_offset b) >> 4)) = (k', true)
    /\ deciphers (aes_init_tables g) b s so k'.
Proof.
  intros Hg He Hso. destruct (en_table b He) as (hi & Hhi & Htab). destruct (en_base b He) as (Hb0 & Hb16 & Hb64).
  destruct (en_key b He) as [Hk Hkl]. destruct (en_ctr b He) as [Hc Hcl].
  destruct (entries_around sub_address_patch true _ _ 0 hi Htab so) as (s & s' & Es & Es' & Har); [lia|done|].
  destruct (around_range _ _ _ _ _ _ _ _ _ Htab Har) as [_ Hr].
  assert (0 <= ctr s < 2 ^ 32) as Hctr.
  { destruct (lookup_lt_is_Some_2 plain (Z.to_nat so)) as [p Hp]; [rewrite (en_length b He); lia|]. by apply (en_stream b He so s s' p). }
  destruct (ctr_cipher_decrypts g (key b) (counter_high (section_ctr b) (ctr s) * 2 ^ 64 + (so + base_offset b) / 16) Hg Hk Hkl)
    as (k & k' & En & Eiv & Ht).
  exists s, s', k, k'. rewrite to_u64_id by (unfold is_u64; lia). rewrite counter_block_be by (done || lia).
  split; [done|]. split; [done|]. split; [done|]. split; [lia|]. split; [done|]. split; [done|]. exact Ht.
Qed.

Section Subsection.
Context (rec : aes_globals -> BKTR F G -> list Z -> Z -> Z -> Outcome (F := F) (G := G)) (m : nat) (g : aes_globals) (b : BKTR F G).
Context (data : list Z) (len offset so : Z) (s s' : SubsectionEntry) (k : AESCipher).
Context (Hrec : serves rec m) (Hg : aes_ready g) (Hb : bktr_ok b) (He : encrypted_ok b) (Hp : in_patch len offset so).
Context (Hm : (Z.to_nat len <= m)%nat) (Hd : (Z.to_nat len <= length data)%nat).
Context (Har : around sub_address_patch (subsection_buckets b) so s s') (Hend : so + len <= sub_address_patch s').
Context (Hk : deciphers g b s so k).

Lemma read_section_aligned : so mod 16 = 0 ->
  exists b', read_section rec g b k data len offset so = Some (g, b', store data (part c offset len), len) /\ bktr_ok b'.
Proof.
  intros Hal. destruct Hp as [Hl Ho Hso Hpart]. unfold read_section. destruct (trim_size _ _ (bo_patch b Hb)) as [_ H64].
  change 0xF with (Z.ones 4). rewrite Z.land_ones by lia. change (2 ^ 4) with 16. rewrite Hal. cbn [negb Z.eqb].
  destruct (trim_read (bktr_romfs b) raw data len so (bo_patch b Hb)) as (f & -> & Hf); [lia..|]. rewrite Z.min_l by lia.
  assert (length (part raw so len) = Z.to_nat len) as Hlp by (apply length_part; lia).
  assert (take (Z.to_nat len) (store data (part raw so len)) = part raw so len) as -> by (by apply take_app_length').
  destruct (Hk (part raw so len) (store data (part raw so len)) true) as (k' & ->);
    [apply bytes_part, (en_bytes b He)|unfold store; rewrite length_app; lia|].
  eexists. split; [|by apply set_patch_ok].
  rewrite store_store by (unfold ctr_spec; by rewrite length_imap). rewrite Hpart by lia.
  rewrite <- (decrypted_here b s s' so so len 0 len) by (done || lia).
  rewrite part_whole; [done|]. unfold ctr_spec. by rewrite length_imap.
Qed.

Lemma read_section_unaligned : so mod 16 <> 0 ->
  exists g' b', read_section rec g b k data len offset so = Some (g', b', store data (part c offset len), len)
    /\ aes_ready g' /\ bktr_ok b'.
Proof.
  intros Hal. destruct Hp as [Hl Ho Hso Hpart]. unfold read_section. destruct (trim_size _ _ (bo_patch b Hb)) as [_ H64].
  destruct (bo_size b Hb) as [_ Hc64].
  change 0xF with (Z.ones 4). rewrite Z.land_ones by lia. change (2 ^ 4) with 16. rewrite (proj2 (Z.eqb_neq _ _) Hal). cbn [negb].
  destruct (read_block b so Hb He) as (f & -> & Hf & Hlp & Ha0 & Ha & Hsm & Ham); [lia|].
  set (a := so - so mod 16) in *. set (w := Z.min 16 _) in *. set (o := so mod 16) in *.
  assert (0 <= o < 16 /\ a + o = so) as (Ho16 & Hao) by (unfold o, a; zlia).
  destruct (Hk (part raw a w) (part raw a w) true) as (k' & ->); [apply bytes_part, (en_bytes b He)|done|].
  set (block := store _ (ctr_spec _ _ _)).
  assert (block = ctr_spec (aes_encrypt 4 (key b)) (counter_high (section_ctr b) (ctr s) * 2 ^ 64 + (so + base_offset b) / 16) (part raw a w)) as Eblock.
  { unfold block, store. rewrite drop_ge, app_nil_r; [done|]. unfold ctr_spec. by rewrite length_imap. }
  assert (forall n, 0 <= n <= len -> o + n <= w -> part block o n = part c offset n) as Hblk.
  { intros n Hn Hw. rewrite Hpart by done. rewrite Eblock. apply (decrypted_here b s s'); done || lia. }
  assert (length block = Z.to_nat w) as Hlb by (rewrite Eblock; unfold ctr_spec; by rewrite length_imap).
  rewrite (to_u64_id (len + o)) by (unfold is_u64; lia). destruct (Z.ltb_spec (len + o) 16) as [Hs|Hs].
  - rewrite Hlb, Z.min_l, Hblk by lia. eexists _, _. split; [done|]. split; [done|by apply set_patch_ok].
  - rewrite Hblk by lia. rewrite !to_u64_id by (unfold is_u64; lia).
    assert (length (part c offset (16 - o)) = Z.to_nat (16 - o)) as Hl2 by (apply length_part; lia).
    destruct (Hrec g (set_patch b f) (drop (Z.to_nat (16 - o)) (store data (part c offset (16 - o)))) (len - (16 - o)) (offset + (16 - o)) Hg)
      as (g' & b' & -> & Hg' & Hb'); [by apply set_patch_ok|lia|lia|lia|rewrite length_drop_store by done; lia|lia|].
    cbn [mbind option_bind]. exists g', b'. split; [|done]. rewrite Z.min_l by lia. rewrite store_part, part_app by (done || lia).
    rewrite to_u64_id by (unfold is_u64; lia). by replace (16 - o + (len - (16 - o))) with len by lia.
Qed.
End Subsection.

Lemma read_patch_encrypted rec m g b data len offset so : serves rec m -> aes_ready g -> bktr_ok b -> in_patch len offset so ->
  encrypted b = true -> (Z.to_nat len <= m)%nat -> (Z.to_nat len <= length data)%nat ->
  exists g' b', read_patch rec g b data len offset so = Some (g', b', store data (part c offset len), len) /\ aes_ready g' /\ bktr_ok b'.
Proof.
  intros Hrec Hg Hb Hp Henc Hm Hd. destruct (Hp) as [Hl Ho Hso Hpart]. pose proof (bo_encrypted b Hb Henc) as He.
  destruct (trim_size _ _ (bo_patch b Hb)) as [_ H64]. destruct (bo_size b Hb) as [_ Hc64].
  destruct (subsection_cipher g b so Hg He) as (s & s' & k & k' & Es & Es' & Har & Hs64 & En & Eiv & Hk); [lia|].
  assert (so < sub_address_patch s') as Hgt by (destruct Har as (? & ? & ? & ? & ? & ? & ?); lia).
  assert (aes_ready (aes_init_tables g)) as Hg1 by (by apply init_tables).
  unfold read_patch. rewrite Henc, Es. cbn [negb mbind option_bind]. rewrite En, Eiv, Es'. cbn [andb negb mbind option_bind].
  rewrite (to_u64_id (so + len)) by (unfold is_u64; lia). destruct (Z.ltb_spec (sub_address_patch s') (so + len)) as [Hsplit|Hend].
  { rewrite to_u64_id by (unfold is_u64; lia).
    destruct (in_two_spec rec m (aes_init_tables g) b data len (sub_address_patch s' - so) offset Hrec Hg1 Hb) as (g' & b' & E & Hg' & Hb'); [lia..|].
    rewrite Z.min_l in E by lia. eauto. }
  destruct (Z.eq_dec (so mod 16) 0) as [Hal|Hal].
  - destruct (read_section_aligned rec m (aes_init_tables g) b data len offset so s s' k') as (b' & -> & Hb'); try done. eauto.
  - by apply (read_section_unaligned rec m _ b data len offset so s s').
Qed.

(** Every reader of the recursion serves the requests its fuel covers. *)
Lemma read_serves fuel : serves (read fuel) fuel.
Proof.
  induction fuel as [|fuel IH]; intros g b data len offset Hg Hb Hl Hf H64 Hd Ho n; [lia|]. unfold n; clear n. cbn [read].
  destruct (bo_size b Hb) as [Hsize Hc]. rewrite Hsize. destruct (Z.leb_spec (Z.of_nat (length c)) offset) as [Hge|Hlt].
  { exists g, b. replace offset with (Z.of_nat (length c)) by lia. by rewrite Z.sub_diag, Z.min_r by lia. }
  pose proof (bo_table b Hb) as Htab.
  destruct (entries_around address_patch false _ _ 0 _ Htab offset) as (r & r' & Er & Er' & Har); [lia|done|].
  destruct (around_range _ _ _ _ _ _ _ _ _ Htab Har) as [Hr Hr']. rewrite Hsize in Hr'.
  destruct (bo_source b Hb offset r r' Har) as (Hs0 & Hbase & Hpatch).
  rewrite Er, Er'. cbn [mbind option_bind]. rewrite (to_u64_id (offset + len)) by (unfold is_u64; lia).
  destruct (Z.ltb_spec (address_patch r') (offset + len)) as [Hsplit|Hin].
  { rewrite to_u64_id by (unfold is_u64; lia). apply (in_two_spec (read fuel) fuel); try done; lia. }
  set (d := offset - address_patch r). assert (0 <= d) as Hd0 by (unfold d; lia). rewrite Z.min_l by lia.
  destruct (Z.eqb_spec (from_patch r) 0) as [Hz|Hz].
  - destruct (Hbase Hz) as (Hi & Hs64 & Hlen & Hpart). rewrite to_u64_id by (unfold is_u64, d; lia).
    rewrite (proj2 (Z.ltb_ge _ _)) by lia. destruct (trim_read (base_romfs b) base data len (d + address_source r - ivfc_offset b) (bo_base b Hb))
      as (f & -> & Hfb); [lia|done|lia|].
    rewrite Z.min_l by lia. exists g, (set_base b f). split; [|split; [done|by apply set_base_ok]].
    replace (d + address_source r - ivfc_offset b) with (address_source r - ivfc_offset b + d) by lia.
    pose proof (bo_ivfc b Hb). rewrite <- (part_part base (address_source r - ivfc_offset b) (address_patch r' - address_patch r)) by lia.
    rewrite <- Hpart, part_part by lia. by replace (address_patch r + d) with offset by lia.
  - destruct (Hpatch Hz) as (Hlen & Hpart). destruct (trim_size _ _ (bo_patch b Hb)) as [_ Hr64].
    rewrite to_u64_id by (unfold is_u64; lia).
    assert (in_patch len offset (d + address_source r)) as Hip.
    { split; [done|lia|lia|]. intros n Hn. replace (d + address_source r) with (address_source r + d) by lia.
      rewrite <- (part_part plain (address_source r) (address_patch r' - address_patch r)) by lia.
      rewrite <- Hpart, part_part by lia. by replace (address_patch r + d) with offset by lia. }
    destruct (encrypted b) eqn:Hen; [apply (read_patch_encrypted (read fuel) fuel); try done; lia|].
    destruct (read_patch_clear (read fuel) g b data len offset (d + address_source r) Hb Hg Hip Hen Hd) as (b' & -> & Hb'). eauto.
Qed.
End Reads.

(** C29: a read of a patched archive terminates and returns the octets of the
    patched file: those of the base archive and of the patch, each from the
    source address of the relocation that holds the offset, the patch
    decrypted under the counter of the subsection each octet lies in, at any
    alignment and across any number of relocations and subsections; at the end
    of the file the request is cut, and no assertion fails. *)
Theorem bktr_reads_patched {F G} `{HF : Trimming F goodF} `{HG : Trimming G goodG}
    base plain raw c g (b : BKTR F G) data len offset :
  aes_ready g -> bktr_ok (goodF := goodF) (goodG := goodG) base plain raw c b ->
  0 <= len -> offset + len < 2 ^ 64 -> (Z.to_nat len <= length data)%nat -> 0 <= offset <= Z.of_nat (length c) ->
  let n := Z.min len (Z.of_nat (length c) - offset) in
  exists g' b', Bktr.Read g b data len offset = Some (g', b', store data (part c offset n), n)
    /\ aes_ready g' /\ bktr_ok (goodF := goodF) (goodG := goodG) base plain raw c b'.
Proof.
  intros Hg Hb Hl H64 Hd Ho n.
  exact (read_serves base plain raw c (S (Z.to_nat len)) g b data len offset Hg Hb Hl (Nat.lt_succ_diag_r _) H64 Hd Ho).
Qed.

(** ** Construction *)

Lemma addr_push {E} (address : E -> Z) b e j : addr address (push_back e b) j
  = if (j <? length (entries b))%nat then addr address b j else if (j =? length (entries b))%nat then address e else 0.
Proof.
  unfold addr, push_back. cbn [entries]. destruct (Nat.ltb_spec j (length (entries b))) as [Hj|Hj]; [by rewrite lookup_app_l by done|].
  rewrite lookup_app_r by done. destruct (Nat.eqb_spec j (length (entries b))) as [->|Hne]; [by rewrite Nat.sub_diag|].
  rewrite (lookup_ge_None_2 [e]) by (simpl; lia). done.
Qed.

(** A bucket as it is read: as many entries as it says, in order, all before
    the address [next]. *)
Record raw_bucket_ok {E} (address : E -> Z) (b : Bucket E) (next : Z) : Prop := {
  rb_count : number_entries b = Z.of_nat (length (entries b)) /\ (1 <= length (entries b))%nat /\ number_entries b < 2 ^ 32;
  rb_order j : (S j < length (entries b))%nat -> addr address b j < addr address b (S j);
  rb_next : addr address b (length (entries b) - 1) < next
}.

Lemma push_back_ok {E} (address : E -> Z) b e : raw_bucket_ok address b (address e) ->
  bucket_ok address (push_back e b) (length (entries b)) /\ length (entries (push_back e b)) = S (length (entries b))
  /\ addr address (push_back e b) 0 = addr address b 0 /\ addr address (push_back e b) (length (entries b)) = address e.
Proof.
  intros [(Hn & H1 & H32) Hord Hnext].
  assert (length (entries (push_back e b)) = S (length (entries b))) as Hl by (unfold push_back; simpl; rewrite length_app; simpl; lia).
  rewrite !addr_push, Nat.ltb_irrefl, Nat.eqb_refl. rewrite (proj2 (Nat.ltb_lt 0 _)) by lia. split; [|done].
  split; [done|lia|]. intros j Hj. rewrite Hl in Hj. rewrite !addr_push. rewrite (proj2 (Nat.ltb_lt j _)) by lia.
  destruct (Nat.ltb_spec (S j) (length (entries b))) as [Hs|Hs]; [by apply Hord|].
  rewrite (proj2 (Nat.eqb_eq _ _)) by lia. by replace j with (length (entries b) - 1)%nat by lia.
Qed.

(** The sentinel of a relocation bucket. *)
Definition sentinel (a : Z) : RelocationEntry := {| address_patch := a; address_source := 0; from_patch := 0 |}.

Lemma push_relocations_spec n : forall i block buckets, (i + n < length (base_offsets block))%nat -> (i + n <= length buckets)%nat ->
  exists out, push_relocations n i block buckets = Some out /\ length out = length buckets
    /\ forall j, out !! j = if (i <=? j)%nat && (j <? i + n)%nat
                            then b ← buckets !! j; a ← base_offsets block !! S j; Some (push_back (sentinel a) b) else buckets !! j.
Proof.
  induction n as [|n IH]; intros i block buckets Hb Hl; cbn [push_relocations].
  - exists buckets. split; [done|]. split; [done|]. intros j. destruct (Nat.leb_spec i j), (Nat.ltb_spec j (i + 0)); try done. lia.
  - destruct (lookup_lt_is_Some_2 (base_offsets block) (S i) ltac:(lia)) as [a Ea]. destruct (lookup_lt_is_Some_2 buckets i ltac:(lia)) as [b Eb].
    rewrite Ea, Eb. cbn [mbind option_bind].
    destruct (IH (S i) block (<[i := push_back (sentinel a) b]> buckets)) as (out & E & Hlo & Hout); [lia|rewrite length_insert; lia|].
    exists out. split; [exact E|]. split; [by rewrite Hlo, length_insert|]. intros j. rewrite Hout. destruct (decide (j = i)) as [->|Hne].
    + rewrite (proj2 (Nat.leb_gt (S i) i)) by lia. cbn [andb]. rewrite list_lookup_insert_eq by lia.
      rewrite Nat.leb_refl, (proj2 (Nat.ltb_lt _ _)) by lia. cbn [andb]. by rewrite Eb, Ea.
    + rewrite list_lookup_insert_ne by done.
      destruct (Nat.leb_spec (S i) j), (Nat.leb_spec i j), (Nat.ltb_spec j (S i + n)), (Nat.ltb_spec j (i + S n)); try done; lia.
Qed.

Lemma push_subsections_spec n : forall i buckets, (i + n < length buckets)%nat ->
  (forall j b, buckets !! j = Some b -> entries b <> []) ->
  exists out, push_subsections n i buckets = Some out /\ length out = length buckets
    /\ forall j, out !! j = if (i <=? j)%nat && (j <? i + n)%nat
                            then b ← buckets !! j; b' ← buckets !! S j; e ← entries b' !! 0%nat; Some (push_back e b) else buckets !! j.
Proof.
  induction n as [|n IH]; intros i buckets Hl Hne; cbn [push_subsections].
  - exists buckets. split; [done|]. split; [done|]. intros j. destruct (Nat.leb_spec i j), (Nat.ltb_spec j (i + 0)); try done. lia.
  - destruct (lookup_lt_is_Some_2 buckets i ltac:(lia)) as [b Eb]. destruct (lookup_lt_is_Some_2 buckets (S i) ltac:(lia)) as [b' Eb'].
    destruct (entries b') as [|[p k] l] eqn:El; [by destruct (Hne _ _ Eb')|].
    rewrite Eb', Eb. cbn [mbind option_bind]. rewrite El. cbn [lookup list_lookup mbind option_bind sub_address_patch ctr].
    destruct (IH (S i) (<[i := push_back {| sub_address_patch := p; ctr := k |} b]> buckets)) as (out & E & Hlo & Hout).
    { rewrite length_insert. lia. }
    { intros j x. destruct (decide (j = i)) as [->|Hn]; [|rewrite list_lookup_insert_ne by done; apply Hne].
      rewrite list_lookup_insert_eq by lia. intros [= <-]. unfold push_back. simpl. by destruct (entries b). }
    exists out. split; [exact E|]. split; [by rewrite Hlo, length_insert|]. intros j. rewrite Hout. destruct (decide (j = i)) as [->|Hn].
    + rewrite (proj2 (Nat.leb_gt (S i) i)) by lia. cbn [andb]. rewrite list_lookup_insert_eq by lia.
      rewrite Nat.leb_refl, (proj2 (Nat.ltb_lt _ _)) by lia. cbn [andb]. rewrite Eb. cbn [mbind option_bind]. rewrite Eb'. cbn [mbind option_bind].
      by rewrite El.
    + rewrite (list_lookup_insert_ne _ _ j) by done. destruct (Nat.leb_spec (S i) j) as [H1|H1].
      * rewrite list_lookup_insert_ne by lia.
        destruct (Nat.leb_spec i j), (Nat.ltb_spec j (S i + n)), (Nat.ltb_spec j (i + S n)); try done; lia.
      * destruct (Nat.leb_spec i j), (Nat.ltb_spec j (S i + n)), (Nat.ltb_spec j (i + S n)); try done; lia.
Qed.

(** A relocation table as it is read. *)
Definition next_address (block : Block) (n i : nat) : Z :=
  if (S i =? n)%nat then size block else default 0 (base_offsets block !! S i).
Record relocations_ok (block : Block) (buckets : list (Bucket RelocationEntry)) : Prop := {
  ro_count : number_buckets block = Z.of_nat (length buckets) /\ number_buckets block < 2 ^ 32;
  ro_some : buckets <> [];
  ro_offsets : (length buckets <= length (base_offsets block))%nat
    /\ StronglySorted Z.lt (take (length buckets - 1) (drop 1 (base_offsets block)));
  ro_bucket i b : buckets !! i = Some b -> raw_bucket_ok address_patch b (next_address block (length buckets) i)
    /\ (i = 0%nat -> addr address_patch b 0 = 0) /\ (i <> 0%nat -> base_offsets block !! i = Some (addr address_patch b 0));
  ro_range i b e : buckets !! i = Some b -> e ∈ entries b -> 0 <= address_patch e <= size block
}.

(** Every bucket with its sentinel. *)
Definition closed (block : Block) (buckets : list (Bucket RelocationEntry)) : list (Bucket RelocationEntry) :=
  imap (fun i => push_back (sentinel (next_address block (length buckets) i))) buckets.

Lemma closed_table block buckets : relocations_ok block buckets -> 0 <= size block ->
  table_ok address_patch false block (closed block buckets) 0 (size block).
Proof.
  intros Hr Hs0. destruct (ro_count _ _ Hr) as [Hc H32].
  assert (length (closed block buckets) = length buckets) as Hl by (unfold closed; by rewrite length_imap).
  assert (forall i x, closed block buckets !! i = Some x -> exists b, buckets !! i = Some b
    /\ x = push_back (sentinel (next_address block (length buckets) i)) b) as Hlook.
  { intros i x. unfold closed. rewrite list_lookup_imap. intros (b & Eb & Ex)%fmap_Some. by exists b. }
  split; rewrite ?Hl; try done; [|apply (ro_offsets _ _ Hr)| |].
  - unfold closed. pose proof (ro_some _ _ Hr). by destruct buckets.
  - intros i x Hx. destruct (Hlook i x Hx) as (b & Eb & ->). destruct (ro_bucket _ _ Hr i b Eb) as (Hb & H0 & Hn0).
    destruct (push_back_ok address_patch b (sentinel (next_address block (length buckets) i)) Hb) as (Hok & Hlen & Ha0 & Han).
    exists (length (entries b)). cbn [andb]. rewrite Hlen, Ha0. split; [done|]. split; [lia|]. split; [done|]. split; [done|].
    replace (S (length (entries b)) - 1)%nat with (length (entries b)) by lia. rewrite Han. cbn [sentinel address_patch]. unfold next_address.
    split; intros Hi; [rewrite (proj2 (Nat.eqb_neq _ _) Hi)|by rewrite (proj2 (Nat.eqb_eq _ _) Hi)].
    destruct (lookup_lt_is_Some_2 (base_offsets block) (S i)) as [a ->]; [|done].
    apply lookup_lt_Some in Eb. destruct (ro_offsets _ _ Hr). lia.
  - intros i x e Hx He. destruct (Hlook i x Hx) as (b & Eb & ->). unfold push_back in He. cbn [entries] in He.
    apply elem_of_app in He as [He|He%list_elem_of_singleton]; [by apply (ro_range _ _ Hr i b)|subst e].
    cbn [sentinel address_patch]. unfold next_address. destruct (Nat.eqb_spec (S i) (length buckets)) as [Hi|Hi]; [lia|].
    destruct (lookup_lt_is_Some_2 buckets (S i)) as [b' Eb']; [apply lookup_lt_Some in Eb; lia|].
    destruct (ro_bucket _ _ Hr (S i) b' Eb') as ([(_ & Hn1 & _) _ _] & _ & Hb'). rewrite (Hb' ltac:(done)). cbn [default].
    destruct (lookup_addr address_patch b' 0) as (e & Ee & Ae); [lia|]. rewrite <- Ae. apply (ro_range _ _ Hr (S i) b' e Eb'). by eapply list_elem_of_lookup_2.
Qed.

(** A subsection table as it is handed over: the last bucket already has its
    two sentinels. *)
Record subsections_ok (block : Block) (buckets : list (Bucket SubsectionEntry)) (hi : Z) : Prop := {
  su_count : number_buckets block = Z.of_nat (length buckets) /\ number_buckets block < 2 ^ 32;
  su_some : buckets <> [];
  su_offsets : (length buckets <= length (base_offsets block))%nat
    /\ StronglySorted Z.lt (take (length buckets - 1) (drop 1 (base_offsets block)));
  su_first i b : buckets !! i = Some b -> (1 <= length (entries b))%nat /\ (i = 0%nat -> addr sub_address_patch b 0 = 0)
    /\ (i <> 0%nat -> base_offsets block !! i = Some (addr sub_address_patch b 0));
  su_bucket i b : buckets !! i = Some b -> S i <> length buckets ->
    raw_bucket_ok sub_address_patch b (default 0 (base_offsets block !! S i));
  su_last b : last buckets = Some b -> exists n, bucket_ok sub_address_patch b n /\ length (entries b) = (n + 2)%nat
    /\ addr sub_address_patch b (S n) = hi;
  su_range i b e : buckets !! i = Some b -> e ∈ entries b -> 0 <= sub_address_patch e <= hi
}.

Lemma closed_subsections block buckets hi : subsections_ok block buckets hi ->
  exists out, push_subsections (Z.to_nat (to_u32 (number_buckets block - 1))) 0 buckets = Some out
    /\ table_ok sub_address_patch true block out 0 hi.
Proof.
  intros Hs. destruct (su_count _ _ _ Hs) as [Hc H32].
  assert (0 < length buckets)%nat as H0 by (pose proof (su_some _ _ _ Hs); destruct buckets; simpl; [done|lia]).
  rewrite to_u32_id by (unfold is_u32; lia). replace (Z.to_nat (number_buckets block - 1)) with (length buckets - 1)%nat by lia.
  destruct (push_subsections_spec (length buckets - 1) 0 buckets) as (out & E & Hl & Hout); [lia| |].
  { intros j b Eb. destruct (su_first _ _ _ Hs j b Eb) as [Hn _]. by destruct (entries b); [simpl in Hn; lia|]. }
  exists out. split; [exact E|].
  assert (forall i x, out !! i = Some x -> exists b, buckets !! i = Some b /\ (S i = length buckets -> x = b)
    /\ (S i <> length buckets -> exists e, e ∈ flat_map entries buckets /\ base_offsets block !! S i = Some (sub_address_patch e) /\ x = push_back e b)) as Hlook.
  { intros i x. rewrite Hout. cbn [Nat.leb andb]. destruct (Nat.ltb_spec i (0 + (length buckets - 1))) as [Hi|Hi].
    - intros (b & Eb & (b' & Eb' & (e & Ee & [= <-])%bind_Some)%bind_Some)%bind_Some. exists b. split; [done|]. split; [lia|]. intros _.
      exists e. destruct (su_first _ _ _ Hs (S i) b' Eb') as (_ & _ & Hb'). rewrite (Hb' ltac:(done)). unfold addr. rewrite Ee. split; [|done].
      apply list_elem_of_In, in_flat_map. exists b'. split; apply list_elem_of_In; by eapply list_elem_of_lookup_2.
    - intros Eb. exists x. split; [done|]. split; [done|]. pose proof (lookup_lt_Some _ _ _ Eb). lia. }
  split; rewrite ?Hl; try done; [by destruct out; simpl in *; [lia|]|apply (su_offsets _ _ _ Hs)| |].
  - intros i x Hx. destruct (Hlook i x Hx) as (b & Eb & Hlast & Hpush). destruct (su_first _ _ _ Hs i b Eb) as (Hn1 & Hf0 & Hf).
    cbn [andb]. destruct (Nat.eqb_spec (S i) (length buckets)) as [Hi|Hi].
    + rewrite (Hlast Hi). destruct (su_last _ _ _ Hs b) as (n & Hb & Hlen & Hhi).
      { rewrite last_lookup. replace (pred (length buckets)) with i by lia. done. }
      exists n. split; [done|]. split; [done|]. split; [done|]. split; [done|]. split; [done|]. intros _. rewrite Hlen. by replace (n + 2 - 1)%nat with (S n) by lia.
    + destruct (Hpush Hi) as (e & _ & He & ->). pose proof (su_bucket _ _ _ Hs i b Eb Hi) as Hb. rewrite He in Hb. cbn [default] in Hb.
      destruct (push_back_ok sub_address_patch b e Hb) as (Hok & Hlen & Ha0 & Han).
      exists (length (entries b)). rewrite Hlen, Ha0, Han. split; [done|]. split; [lia|]. done.
  - intros i x e Hx He. destruct (Hlook i x Hx) as (b & Eb & Hlast & Hpush). destruct (decide (S i = length buckets)) as [Hi|Hi].
    + rewrite (Hlast Hi) in He. by apply (su_range _ _ _ Hs i b).
    + destruct (Hpush Hi) as (e' & Hin & _ & ->). unfold push_back in He. cbn [entries] in He.
      apply elem_of_app in He as [He|He%list_elem_of_singleton]; [by apply (su_range _ _ _ Hs i b)|subst e].
      apply list_elem_of_In, in_flat_map in Hin as (b' & Hb' & He'). apply list_elem_of_In, list_elem_of_lookup in Hb' as [i' Hb'].
      apply (su_range _ _ _ Hs i' b' e' Hb'). by apply list_elem_of_In.
Qed.

(** The constructor closes both tables: its searches find every offset. *)
Theorem BKTR_new_tables {F G} `{VfsFile F} `{VfsFile G} (f : F) (p : G) rel rb sub sb hi enc k bo ivfc sc :
  relocations_ok rel rb -> 0 <= size rel -> subsections_ok sub sb hi ->
  exists b, BKTR_new f p rel rb sub sb enc k bo ivfc sc = Some b
    /\ relocation b = rel /\ relocation_buckets b = closed rel rb
    /\ table_ok address_patch false (relocation b) (relocation_buckets b) 0 (size (relocation b))
    /\ table_ok sub_address_patch true (subsection b) (subsection_buckets b) 0 hi.
Proof.
  intros Hr Hs0 Hsub. destruct (ro_count _ _ Hr) as [Hc H32]. destruct (ro_offsets _ _ Hr) as [Hlo _].
  assert (0 < length rb)%nat as Hrb0 by (pose proof (ro_some _ _ Hr); destruct rb; simpl; [done|lia]).
  destruct (push_relocations_spec (length rb - 1) 0 rel rb) as (out & E & Hl & Hout); [lia..|].
  destruct (closed_subsections sub sb hi Hsub) as (sout & Es & Hst).
  unfold BKTR_new. rewrite (to_u32_id (number_buckets rel - 1)) by (unfold is_u32; lia).
  replace (Z.to_nat (number_buckets rel - 1)) with (length rb - 1)%nat by lia. rewrite E, Es. cbn [mbind option_bind].
  destruct (lookup_lt_is_Some_2 rb (length rb - 1) ltac:(lia)) as [back Eback].
  assert (out !! (length rb - 1)%nat = Some back) as Eo.
  { rewrite Hout, (proj2 (Nat.ltb_ge _ _)), andb_false_r by lia. done. }
  rewrite last_lookup, Hl. replace (pred (length rb)) with (length rb - 1)%nat by lia. rewrite Eo. cbn [mbind option_bind].
  eexists. split; [done|]. cbn [relocation relocation_buckets subsection subsection_buckets]. split; [done|].
  assert (<[(length rb - 1)%nat := push_back (sentinel (size rel)) back]> out = closed rel rb) as Hclosed.
  { apply list_eq. intros i. unfold closed. rewrite list_lookup_imap. destruct (decide (i = length rb - 1)%nat) as [->|Hi].
    - rewrite list_lookup_insert_eq by lia. rewrite Eback. cbn [fmap option_fmap option_map]. unfold next_address.
      by rewrite (proj2 (Nat.eqb_eq _ _)) by lia.
    - rewrite list_lookup_insert_ne by done. rewrite Hout. cbn [Nat.leb andb]. destruct (Nat.ltb_spec i (0 + (length rb - 1))) as [Hlt|Hge].
      + destruct (rb !! i) as [b|]; [|done]. cbn [mbind option_bind fmap option_fmap option_map]. unfold next_address.
        rewrite (proj2 (Nat.eqb_neq _ _)) by lia. destruct (lookup_lt_is_Some_2 (base_offsets rel) (S i) ltac:(lia)) as [a ->]. done.
      + by rewrite (lookup_ge_None_2 rb) by lia. }
  change {| address_patch := size rel; address_source := 0; from_patch := 0 |} with (sentinel (size rel)). rewrite Hclosed.
  split; [done|]. split; [by apply closed_table|done].
Qed.

(** ** A patched archive *)

Definition sample_base : list Z := sample_text 40.
Definition sample_plain : list Z := sample_text 48.
Definition sample_ctr : list Z := [1; 2; 3; 4; 5; 6; 7; 8].
Definition sample_raw : list Z :=
  imap (fun x p => Z.lxor p (stream (take 16 sample_key) (counter_high sample_ctr (if (x <? 20)%nat then 5 else 7)) 32 (Z.of_nat x))) sample_plain.
Definition sample_relocations : list (Bucket RelocationEntry) :=
  [{| number_entries := 2; end_offset := 20;
      entries := [{| address_patch := 0; address_source := 8; from_patch := 0 |};
                  {| address_patch := 6; address_source := 3; from_patch := 1 |}] |};
   {| number_entries := 1; end_offset := 30; entries := [{| address_patch := 20; address_source := 2; from_patch := 0 |}] |}].
Definition sample_subsections : list (Bucket SubsectionEntry) :=
  [{| number_entries := 1; end_offset := 20;
      entries := [{| sub_address_patch := 0; ctr := 5 |}; {| sub_address_patch := 20; ctr := 7 |}; {| sub_address_patch := 48; ctr := 0 |}] |}].
Definition sample_patched : list Z := part sample_base 6 6 ++ part sample_plain 3 14 ++ part sample_base 0 10.
Definition sample_bktr : BKTR VectorVfs.VectorVfsFile VectorVfs.VectorVfsFile :=
  {| relocation := {| number_buckets := 2; size := 30; base_offsets := [0; 20] |};
     relocation_buckets := closed {| number_buckets := 2; size := 30; base_offsets := [0; 20] |} sample_relocations;
     subsection := {| number_buckets := 1; size := 48; base_offsets := [0] |}; subsection_buckets := sample_subsections;
     base_romfs := {| VectorVfs.data := sample_base |}; bktr_romfs := {| VectorVfs.data := sample_raw |};
     encrypted := true; key := take 16 sample_key; base_offset := 32; ivfc_offset := 2; section_ctr := sample_ctr |}.

Lemma sample_bktr_new :
  BKTR_new {| VectorVfs.data := sample_base |} {| VectorVfs.data := sample_raw |}
    {| number_buckets := 2; size := 30; base_offsets := [0; 20] |} sample_relocations
    {| number_buckets := 1; size := 48; base_offsets := [0] |} sample_subsections true (take 16 sample_key) 32 2 sample_ctr
  = Some sample_bktr.
Proof. reflexivity. Qed.

Lemma sample_relocations_ok : relocations_ok {| number_buckets := 2; size := 30; base_offsets := [0; 20] |} sample_relocations.
Proof.
  split; [done|done| | |].
  - split; [simpl; lia|]. repeat constructor.
  - intros [|[|i]] b Eb; try done; injection Eb as <-; (split; [|done]); (split; [simpl; lia| |reflexivity]);
      intros [|j] Hj; simpl in Hj; try lia; reflexivity.
  - intros [|[|i]] b e Eb He; try done; injection Eb as <-; cbn [entries] in He; repeat (apply elem_of_cons in He as [->|He]);
      try (by apply elem_of_nil in He); simpl; lia.
Qed.

Lemma sample_subsections_ok : subsections_ok {| number_buckets := 1; size := 48; base_offsets := [0] |} sample_subsections 48.
Proof.
  split; [done|done| | | | |].
  - split; [simpl; lia|]. constructor.
  - intros [|i] b Eb; try done. injection Eb as <-. by repeat split; simpl; lia.
  - by intros [|i] b Eb Hi.
  - intros b [= <-]. exists 1%nat. split; [|done]. split; [simpl; lia|simpl; lia|]. intros [|[|j]] Hj; simpl in Hj; try lia; reflexivity.
  - intros [|i] b e Eb He; try done; injection Eb as <-; cbn [entries] in He; repeat (apply elem_of_cons in He as [->|He]);
      try (by apply elem_of_nil in He); simpl; lia.
Qed.

Lemma sample_encrypted_ok : encrypted_ok sample_plain sample_raw sample_bktr.
Proof.
  assert (length sample_raw = 48%nat) as Hlr by (unfold sample_raw; rewrite length_imap; apply length_sample_text).
  split.
  - by rewrite Hlr.
  - by_eval.
  - split; [by_eval|done].
  - split; [by_eval|done].
  - rewrite Hlr. simpl. lia.
  - exists 48. rewrite Hlr. split; [lia|]. destruct (closed_subsections _ _ _ sample_subsections_ok) as (out & [= <-] & Htab). exact Htab.
  - intros x s s' p (i & b & j & Eb & Es & Es' & Hr) Hp. destruct i as [|i]; [|done]. injection Eb as <-.
    destruct j as [|[|j]]; try done; injection Es as <-; injection Es' as <-; simpl in Hr; cbn [ctr]; (split; [lia|]);
      unfold sample_raw; rewrite list_lookup_imap, Hp; cbn [fmap option_fmap option_map]; rewrite Z2Nat.id by lia;
      [rewrite (proj2 (Nat.ltb_lt _ _)) by lia|rewrite (proj2 (Nat.ltb_ge _ _)) by lia]; done.
Qed.

Lemma sample_bktr_ok : bktr_ok (goodF := vector_good) (goodG := vector_good) sample_base sample_plain sample_raw sample_patched sample_bktr.
Proof.
  assert (length sample_raw = 48%nat) as Hlr by (unfold sample_raw; rewrite length_imap; apply length_sample_text).
  split.
  - apply (closed_table _ _ sample_relocations_ok). simpl. lia.
  - by split.
  - by split.
  - split; [done|]. rewrite Hlr. done.
  - simpl. lia.
  - intros offset r r' (i & b & j & Eb & Er & Er' & Hr).
    destruct i as [|[|i]]; [| |done]; injection Eb as <-; destruct j as [|[|j]]; try done; injection Er as <-; injection Er' as <-;
      (split; [simpl; lia|]); split; intros Hz; try done; rewrite ?Hlr; (split; [simpl; lia|]); try reflexivity;
      repeat (split; [vm_compute; (reflexivity || done)|]); reflexivity.
  - done.
  - intros _. apply sample_encrypted_ok.
Qed.

Lemma bktr_reads_patched_witness :
  BKTR_new {| VectorVfs.data := sample_base |} {| VectorVfs.data := sample_raw |}
    {| number_buckets := 2; size := 30; base_offsets := [0; 20] |} sample_relocations
    {| number_buckets := 1; size := 48; base_offsets := [0] |} sample_subsections true (take 16 sample_key) 32 2 sample_ctr
  = Some sample_bktr
  /\ exists g' b', Bktr.Read aes_globals0 sample_bktr (replicate 40 0) 40 4
      = Some (g', b', store (replicate 40 0) (part sample_patched 4 26), 26)
     /\ aes_ready g'
     /\ bktr_ok (goodF := vector_good) (goodG := vector_good) sample_base sample_plain sample_raw sample_patched b'.
Proof.
  split; [exact sample_bktr_new|].
  apply (bktr_reads_patched (goodF := vector_good) (goodG := vector_good) sample_base sample_plain sample_raw sample_patched
    aes_globals0 sample_bktr (replicate 40 0) 40 4).
  - left. reflexivity.
  - exact sample_bktr_ok.
  - lia.
  - reflexivity.
  - rewrite length_replicate. reflexivity.
  - split; [lia|discriminate].
Defined.

(** The count of a bucket is not checked against the array it was read into. *)
Lemma bucket_count_unchecked {E} (raw : Bucket E) :
  Z.of_nat (length (entries raw)) < number_entries raw -> ConvertBucketRaw raw = None.
Proof. intros Hn. unfold ConvertBucketRaw. by rewrite (proj2 (Z.leb_gt _ _)) by lia. Qed.
