(* ===== verification/SlabHeap.v ===== *)
(** * Slab heaps

    [SlabHeapImpl] and [SlabHeapBase]
    ([src/src/core/hle/kernel/memory/slab_heap.h]): objects of one size, the
    free ones in a list threaded through their first words.  A pointer is its
    address, [0] the null pointer; [next] holds the first words of the
    objects.  The operations are modelled twice: run alone, and as threads
    that interleave at every access to shared memory.  The assertions of this
    program only log.  Objects are at least as large as a pointer, as the
    kernel objects are, so that their first words do not overlap.  [None]: a
    division by zero, a write through a null pointer or a read of a word never
    written. *)

From S2P Require Import Prelude.
From stdpp Require Import base list gmap fin_sets.
Open Scope Z_scope.
Open Scope c_scope.

(** ** Run alone *)

Module SlabHeap.
Record SlabHeapImpl := { head : Z; next : gmap Z Z; obj_size : Z }.
Record SlabHeapBase := { impl : SlabHeapImpl; peak : Z; start : Z; end_ : Z }.

(** A heap as it is constructed, over memory with the words [m]. *)
Definition SlabHeapImpl_new (m : gmap Z Z) : SlabHeapImpl := {| head := 0; next := m; obj_size := 0 |}.

Definition Initialize (h : SlabHeapImpl) (size : Z) : SlabHeapImpl :=
  {| head := head h; next := next h; obj_size := size |}.

(** Without other threads the exchange succeeds in the end. *)
Definition Allocate (h : SlabHeapImpl) : option (SlabHeapImpl * Z) :=
  let ret := head h in
  if ret =? 0 then Some (h, 0)
  else n ← next h !! ret; Some ({| head := n; next := next h; obj_size := obj_size h |}, ret).
Definition Free (h : SlabHeapImpl) (obj : Z) : SlabHeapImpl :=
  {| head := obj; next := <[obj := head h]> (next h); obj_size := obj_size h |}.

Definition set_impl (b : SlabHeapBase) (h : SlabHeapImpl) : SlabHeapBase :=
  {| impl := h; peak := peak b; start := start b; end_ := end_ b |}.
Definition Contains (b : SlabHeapBase) (addr : Z) : bool := (start b <=? addr) && (addr <? end_ b).
Definition GetObjectSize (b : SlabHeapBase) : Z := obj_size (impl b).
Definition GetSlabHeapSize (b : SlabHeapBase) : Z := (end_ b - start b) / GetObjectSize b.
Definition GetObjectIndexImpl (b : SlabHeapBase) (obj : Z) : Z := to_u64 (obj - start b) / GetObjectSize b.
Definition GetPeakIndex (b : SlabHeapBase) : Z := GetObjectIndexImpl b (peak b).

Definition AllocateImpl (b : SlabHeapBase) : option (SlabHeapBase * Z) :=
  '(h, p) ← Allocate (impl b); Some (set_impl b h, p).
Definition FreeImpl (b : SlabHeapBase) (obj : Z) : option SlabHeapBase :=
  if obj =? 0 then None else Some (set_impl b (Free (impl b) obj)).

(** The loop of [InitializeImpl], with [n] objects left. *)
Fixpoint free_all (n : nat) (cur size : Z) (h : SlabHeapImpl) : SlabHeapImpl :=
  match n with
  | O => h
  | S n => let cur := to_u64 (cur - size) in free_all n cur size (Free h cur)
  end.
Definition InitializeImpl (b : SlabHeapBase) (size memory memory_size : Z) : option SlabHeapBase :=
  if size =? 0 then None
  else
    let h := Initialize (impl b) size in
    let num_obj := memory_size / size in
    let e := to_u64 (memory + num_obj * size) in
    if (memory =? 0) && (0 <? num_obj) then None
    else Some {| impl := free_all (Z.to_nat num_obj) e size h; peak := memory; start := memory; end_ := e |}.
End SlabHeap.
Import SlabHeap.

(** ** The free list *)

(** [chain m p l]: from [p] on, the words lead through [l] to null. *)
Inductive chain (m : gmap Z Z) : Z -> list Z -> Prop :=
  | chain_nil : chain m 0 []
  | chain_cons p n l : p <> 0 -> m !! p = Some n -> chain m n l -> chain m p (p :: l).

Lemma chain_write m p l a v : chain m p l -> a ∉ l -> chain (<[a := v]> m) p l.
Proof.
  induction 1 as [|p n l Hp Hm Hc IH]; intros Ha; [constructor|]. apply not_elem_of_cons in Ha as [Hne Ha].
  econstructor; [done| |by apply IH]. by rewrite lookup_insert_ne.
Qed.

Lemma chain_push m p l a : chain m p l -> a ∉ l -> a <> 0 -> chain (<[a := p]> m) a (a :: l).
Proof. intros Hc Ha H0. econstructor; [done|by rewrite lookup_insert_eq|by apply chain_write]. Qed.

Lemma chain_head m p l : chain m p l -> (p = 0 /\ l = []) \/ exists n l', l = p :: l' /\ p <> 0 /\ m !! p = Some n /\ chain m n l'.
Proof. inversion 1; subst; [by left|]. right. eauto 10. Qed.

Lemma take_one (A B L : gset Z) h : h ∉ L -> {[h]} ∪ L = A ∖ B -> L = A ∖ ({[h]} ∪ B).
Proof. intros Hh E. apply set_eq. intros x. destruct (decide (x = h)) as [->|Hx]; set_solver. Qed.
Lemma put_one (A B L : gset Z) p : p ∈ A -> p ∈ B -> L = A ∖ B -> {[p]} ∪ L = A ∖ (B ∖ {[p]}).
Proof. intros HA HB ->. apply set_eq. intros x. destruct (decide (x = p)) as [->|Hx]; set_solver. Qed.

(** The objects of a heap. *)
Definition objects (base size : Z) (n : nat) : gset Z := list_to_set (map (fun i => base + Z.of_nat i * size) (seq 0 n)).

Lemma elem_of_objects base size n p : p ∈ objects base size n <-> exists i, p = base + Z.of_nat i * size /\ (i < n)%nat.
Proof.
  unfold objects. rewrite elem_of_list_to_set. rewrite list_elem_of_fmap. setoid_rewrite elem_of_seq. split; intros (i & -> & Hi); exists i; split; lia || done.
Qed.

Definition object_list (base size : Z) (n : nat) : list Z := map (fun i => base + Z.of_nat i * size) (seq 0 n).

Lemma object_list_S base size n : object_list base size (S n) = object_list base size n ++ [base + Z.of_nat n * size].
Proof. unfold object_list. rewrite seq_S, map_app. done. Qed.

Lemma elem_of_object_list base size n p : p ∈ object_list base size n <-> p ∈ objects base size n.
Proof. unfold objects. by rewrite elem_of_list_to_set. Qed.

Lemma NoDup_object_list base size n : 0 < size -> NoDup (object_list base size n).
Proof. intros Hs. apply NoDup_fmap_2_strong; [|apply NoDup_seq]. intros i j _ _ E. nia. Qed.

Lemma free_all_chain base size n : forall h l, 0 < base -> 0 < size -> base + Z.of_nat n * size < 2 ^ 64 ->
  chain (next h) (head h) l -> (forall p, p ∈ l -> base + Z.of_nat n * size <= p) ->
  let h' := free_all n (base + Z.of_nat n * size) size h in
  chain (next h') (head h') (object_list base size n ++ l) /\ obj_size h' = obj_size h.
Proof.
  induction n as [|n IH]; intros h l Hb Hs H64 Hc Hl; [done|]. cbn [free_all].
  replace (base + Z.of_nat (S n) * size - size) with (base + Z.of_nat n * size) by lia.
  rewrite to_u64_id by (unfold is_u64; lia). rewrite object_list_S, <- app_assoc.
  destruct (IH (Free h (base + Z.of_nat n * size)) ([base + Z.of_nat n * size] ++ l)) as [Hc' Hs']; [lia..| | |done].
  - cbn [Free head next app]. apply chain_push; [done| |lia]. intros Hin. specialize (Hl _ Hin). lia.
  - cbn [app]. intros p [->|Hp]%elem_of_cons; [lia|]. specialize (Hl p Hp). lia.
Qed.

(** ** Run alone: exactly the objects that are not in use *)

Section Alone.
Context (base size : Z) (n : nat).

(** The heap holds the objects that are not in [used]. *)
Record slab_ok (b : SlabHeapBase) (used : gset Z) : Prop := {
  sl_free : exists l, chain (next (impl b)) (head (impl b)) l /\ NoDup l /\ (list_to_set l : gset Z) = objects base size n ∖ used;
  sl_used : used ⊆ objects base size n;
  sl_range : start b = base /\ end_ b = base + Z.of_nat n * size
}.

(** What a client that frees only what it has can reach. *)
Inductive slab_run (b0 : SlabHeapBase) : SlabHeapBase -> gset Z -> Prop :=
  | run_init : slab_run b0 b0 ∅
  | run_alloc b used b' p : slab_run b0 b used -> AllocateImpl b = Some (b', p) ->
      slab_run b0 b' (if p =? 0 then used else {[p]} ∪ used)
  | run_free b used p b' : slab_run b0 b used -> p ∈ used -> FreeImpl b p = Some b' -> slab_run b0 b' (used ∖ {[p]}).

Lemma allocate_ok b used : slab_ok b used ->
  exists b' p, AllocateImpl b = Some (b', p) /\ (p = 0 <-> used = objects base size n) /\ (p <> 0 -> p ∈ objects base size n ∖ used)
    /\ slab_ok b' (if p =? 0 then used else {[p]} ∪ used).
Proof.
  intros [(l & Hc & Hnd & Hl) Hu Hr]. unfold AllocateImpl, Allocate.
  destruct (chain_head _ _ _ Hc) as [[H0 ->]|(q & l' & -> & Hne & Hq & Hc')].
  - rewrite H0. cbn [Z.eqb mbind option_bind]. eexists _, 0. split; [done|]. split; [|split; [done|]].
    + split; [|done]. intros _. apply set_eq. intros x. destruct (decide (x ∈ used)); set_solver.
    + cbn [Z.eqb]. split; [|done|done]. exists []. split; [|done]. simpl. rewrite H0. constructor.
  - rewrite (proj2 (Z.eqb_neq _ _) Hne), Hq. cbn [mbind option_bind]. eexists _, _. split; [done|].
    assert (head (impl b) ∈ objects base size n ∖ used) as Hin by (rewrite <- Hl; set_solver).
    split; [|split; [done|]].
    + split; [done|]. intros ->. set_solver.
    + rewrite (proj2 (Z.eqb_neq _ _) Hne). apply NoDup_cons in Hnd as [Hni Hnd]. split; [|set_solver|done].
      exists l'. split; [done|]. split; [done|]. apply take_one; [by rewrite elem_of_list_to_set|exact Hl].
Qed.

Context (Hbase : 0 < base) (Hsize : 0 < size) (H64 : base + Z.of_nat n * size < 2 ^ 64).

Lemma initialize_ok b m memory_size : head (impl b) = 0 -> next (impl b) = m -> memory_size / size = Z.of_nat n ->
  exists b', InitializeImpl b size base memory_size = Some b' /\ slab_ok b' ∅ /\ GetObjectSize b' = size.
Proof.
  intros Hh Hm Hn. unfold InitializeImpl. rewrite (proj2 (Z.eqb_neq base 0)), (proj2 (Z.eqb_neq size 0)) by lia. cbn [andb].
  unfold Initialize. rewrite Hh. rewrite Hn, Nat2Z.id. rewrite to_u64_id by (unfold is_u64; lia).
  set (h := {| head := 0; next := next (impl b); obj_size := size |}).
  destruct (free_all_chain base size n h [] Hbase Hsize H64) as [Hc Hs]; [constructor|by intros p ?%not_elem_of_nil|]. rewrite app_nil_r in Hc.
  eexists. split; [done|]. split; [|exact Hs]. split; [|done..]. exists (object_list base size n). split; [exact Hc|].
  split; [by apply NoDup_object_list|]. unfold objects. fold (object_list base size n). set_solver.
Qed.

Lemma object_range p : p ∈ objects base size n -> 0 < p /\ base <= p < base + Z.of_nat n * size.
Proof. intros (i & -> & Hi)%elem_of_objects. nia. Qed.

Lemma free_ok b used p : slab_ok b used -> p ∈ used ->
  exists b', FreeImpl b p = Some b' /\ slab_ok b' (used ∖ {[p]}) /\ exists b'', AllocateImpl b' = Some (b'', p).
Proof.
  intros [(l & Hc & Hnd & Hl) Hu (Hs & He)] Hp. unfold FreeImpl.
  destruct (object_range p ltac:(set_solver)) as [H0 Hr]. rewrite (proj2 (Z.eqb_neq p 0)) by lia.
  assert (p ∉ l) as Hpl by (rewrite <- (elem_of_list_to_set (C := gset Z)); set_solver).
  eexists. split; [done|]. split.
  - split; [|set_solver|done]. exists (p :: l). split; [apply chain_push; [done|done|lia]|]. split; [by constructor|].
    cbn [list_to_set]. apply put_one; [set_solver|done|exact Hl].
  - unfold AllocateImpl, Allocate. cbn [impl set_impl Free head next]. rewrite (proj2 (Z.eqb_neq p 0)) by lia. rewrite lookup_insert_eq. eauto.
Qed.
End Alone.

(** Run alone, a heap over [n] objects hands out, after any sequence of calls
    of a client that frees only what it has, an object of the heap that is not
    in use, and null exactly when all [n] are; a freed object is the next one
    handed out. *)
Theorem slab_heap_exact base size n memory_size b : 0 < base -> 0 < size -> base + Z.of_nat n * size < 2 ^ 64 ->
  memory_size / size = Z.of_nat n -> head (impl b) = 0 ->
  exists b0, InitializeImpl b size base memory_size = Some b0
    /\ forall b' used, slab_run b0 b' used ->
       used ⊆ objects base size n
       /\ (exists b'' p, AllocateImpl b' = Some (b'', p) /\ (p = 0 <-> used = objects base size n)
             /\ (p <> 0 -> p ∈ objects base size n ∖ used))
       /\ (forall p, p ∈ used -> exists b'', FreeImpl b' p = Some b'' /\ exists b3, AllocateImpl b'' = Some (b3, p)).
Proof.
  intros Hb Hs H64 Hn Hh. destruct (initialize_ok base size n Hb Hs H64 b _ memory_size Hh eq_refl Hn) as (b0 & E & Hok & _).
  exists b0. split; [exact E|]. intros b' used Hrun. assert (slab_ok base size n b' used) as Hok'.
  { induction Hrun as [|b1 used b2 p Hrun IH Ea|b1 used p b2 Hrun IH Hp Ef]; [done| |].
    - destruct (allocate_ok base size n b1 used IH) as (b3 & q & Ea' & _ & _ & Hok'). by simplify_eq.
    - destruct (free_ok base size n Hb Hs H64 b1 used p IH Hp) as (b3 & Ef' & Hok' & _). by simplify_eq. }
  split; [apply Hok'|]. split.
  - destruct (allocate_ok base size n b' used Hok') as (b'' & p & Ea & H0 & Hp & _). eauto.
  - intros p Hp. destruct (free_ok base size n Hb Hs H64 b' used p Hok' Hp) as (b'' & Ef & _ & Ha). eauto.
Qed.

(** ** Threads *)

(** What the threads share: the head, the first words, and the objects that
    clients hold. *)
Record Shared := { s_head : Z; s_next : gmap Z Z; s_used : gset Z }.

(** A thread: idle, in [Allocate] before the test of [ret] and before the
    exchange, in [Free] before [node->next = cur_head] and before the
    exchange. *)
Inductive Thread := Idle | A_check (ret : Z) | A_cas (ret n : Z) | F_link (node cur : Z) | F_cas (node cur : Z).

(** The steps.  A weak exchange may also fail when the head has not changed.
    A client may write to the objects it holds, also to their first words. *)
Inductive tstep : Shared -> Thread -> Shared -> Thread -> Prop :=
  | alloc_load s : tstep s Idle s (A_check (s_head s))
  | alloc_null s : tstep s (A_check 0) s Idle
  | alloc_next s r n : r <> 0 -> s_next s !! r = Some n -> tstep s (A_check r) s (A_cas r n)
  | alloc_done s r n : s_head s = r ->
      tstep s (A_cas r n) {| s_head := n; s_next := s_next s; s_used := {[r]} ∪ s_used s |} Idle
  | alloc_retry s r n : tstep s (A_cas r n) s (A_check (s_head s))
  | free_load s p : p ∈ s_used s ->
      tstep s Idle {| s_head := s_head s; s_next := s_next s; s_used := s_used s ∖ {[p]} |} (F_link p (s_head s))
  | free_link s p cur :
      tstep s (F_link p cur) {| s_head := s_head s; s_next := <[p := cur]> (s_next s); s_used := s_used s |} (F_cas p cur)
  | free_done s p cur : s_head s = cur ->
      tstep s (F_cas p cur) {| s_head := p; s_next := s_next s; s_used := s_used s |} Idle
  | free_retry s p cur : tstep s (F_cas p cur) s (F_link p (s_head s))
  | client_write s p v : p ∈ s_used s ->
      tstep s Idle {| s_head := s_head s; s_next := <[p := v]> (s_next s); s_used := s_used s |} Idle.

Definition allocating (t : Thread) : bool := match t with A_check _ | A_cas _ _ => true | _ => false end.
Definition freeing (t : Thread) : list Z := match t with F_link p _ | F_cas p _ => [p] | _ => [] end.

Inductive step : Shared * list Thread -> Shared * list Thread -> Prop :=
  | step_thread s s' ts i t t' : ts !! i = Some t -> tstep s t s' t' -> step (s, ts) (s', <[i := t']> ts).

(** No two threads are in [Allocate] at the same time. *)
Definition lone_allocator (ts : list Thread) : Prop :=
  forall i j t u, ts !! i = Some t -> ts !! j = Some u -> allocating t = true -> allocating u = true -> i = j.

Inductive lone_run (c0 : Shared * list Thread) : Shared * list Thread -> Prop :=
  | lone_start : lone_run c0 c0
  | lone_step c s' ts' : lone_run c0 c -> step c (s', ts') -> lone_allocator ts' -> lone_run c0 (s', ts').

(** The objects are the free ones [l], the ones in use and the ones on their
    way back, each once; what a thread remembers still holds. *)
Definition remembers (m : gmap Z Z) (l : list Z) (t : Thread) : Prop :=
  match t with
  | A_check r => r = 0 \/ (r ∈ l)
  | A_cas r n => (r ∈ l) /\ m !! r = Some n
  | F_cas p cur => m !! p = Some cur
  | _ => True
  end.
Record parts (objs : gset Z) (s : Shared) (ts : list Thread) (l : list Z) : Prop := {
  pt_chain : chain (s_next s) (s_head s) l;
  pt_nodup : NoDup (l ++ flat_map freeing ts);
  pt_used p : p ∈ s_used s -> (p ∉ l) /\ (p ∉ flat_map freeing ts);
  pt_all p : (p ∈ objs) <-> (p ∈ l) \/ (p ∈ s_used s) \/ (p ∈ flat_map freeing ts);
  pt_remembers : Forall (remembers (s_next s) l) ts
}.

Lemma parts_perm objs s ts ts' l : ts ≡ₚ ts' -> parts objs s ts l -> parts objs s ts' l.
Proof.
  intros Hp [Hc Hn Hu Ha Hr]. assert (flat_map freeing ts ≡ₚ flat_map freeing ts') as Hf by (by apply Permutation_flat_map).
  split; [done|by rewrite <- Hf| | |by rewrite <- Hp]; intros p; rewrite <- Hf; auto.
Qed.

Lemma remembers_write m l a v t : a ∉ l -> a ∉ freeing t -> remembers m l t -> remembers (<[a := v]> m) l t.
Proof.
  intros Hl Hf. destruct t; simpl in *; try done.
  - intros [Hr Hm]. split; [done|]. rewrite lookup_insert_ne; [done|]. by intros ->.
  - intros Hm. rewrite lookup_insert_ne; [done|]. intros ->. apply Hf. left.
Qed.
Lemma remembers_cons m l a t : remembers m l t -> remembers m (a :: l) t.
Proof. destruct t; simpl; try done; rewrite elem_of_cons; naive_solver. Qed.
Lemma remembers_idle m l l' t : allocating t = false -> remembers m l t -> remembers m l' t.
Proof. by destruct t. Qed.

Lemma freeing_in t ts p : t ∈ ts -> p ∈ freeing t -> p ∈ flat_map freeing ts.
Proof. intros Ht Hp. apply list_elem_of_In, in_flat_map. exists t. split; by apply list_elem_of_In. Qed.

Lemma head_remembered objs s ts l : parts objs s ts l -> s_head s = 0 \/ s_head s ∈ l.
Proof. intros Hp. destruct (chain_head _ _ _ (pt_chain _ _ _ _ Hp)) as [[-> _]|(q & l' & -> & _)]; [by left|right; left]. Qed.

(** A thread that only changes what it remembers. *)
Lemma parts_local objs s t t' others l : parts objs s (t :: others) l -> freeing t' = freeing t -> remembers (s_next s) l t' ->
  parts objs s (t' :: others) l.
Proof.
  intros [Hc Hn Hu Ha Hr] Hf Ht. apply Forall_cons in Hr as [_ Hr]. split; cbn [flat_map]; rewrite ?Hf; try done. by constructor.
Qed.

(** The exchange of [Allocate]. *)
Lemma parts_take objs s r n others l : parts objs s (A_cas r n :: others) l -> s_head s = r ->
  Forall (fun u => allocating u = false) others ->
  exists l', parts objs {| s_head := n; s_next := s_next s; s_used := {[r]} ∪ s_used s |} (Idle :: others) l'.
Proof.
  intros [Hc Hn Hu Ha Hr] Hh Hlone. cbn [flat_map freeing app] in *. apply Forall_cons in Hr as [[Hin Hrn] Hr].
  destruct (chain_head _ _ _ Hc) as [[Hz ->]|(q & l' & -> & Hne & Hq & Hc')]; [by apply not_elem_of_nil in Hin|].
  rewrite Hh in *. rewrite Hrn in Hq. injection Hq as <-. exists l'. apply NoDup_cons in Hn as [Hnr Hn]. split; try done; cbn [s_used s_next flat_map freeing app].
  - intros p. rewrite elem_of_union, elem_of_singleton. intros [->|Hp]; [by apply not_elem_of_app in Hnr|].
    destruct (Hu p Hp) as [H1 H2]. split; [|done]. by apply not_elem_of_cons in H1 as [_ H1].
  - intros p. rewrite Ha, elem_of_cons, elem_of_union, elem_of_singleton. naive_solver.
  - constructor; [done|]. rewrite Forall_forall in Hr, Hlone |- *. intros u Hin'. eapply remembers_idle; [by apply Hlone|by apply Hr].
Qed.

(** An object on its way back. *)
Lemma parts_give objs s p others l : parts objs s (Idle :: others) l -> p ∈ s_used s ->
  parts objs {| s_head := s_head s; s_next := s_next s; s_used := s_used s ∖ {[p]} |} (F_link p (s_head s) :: others) l.
Proof.
  intros [Hc Hn Hu Ha Hr] Hp. cbn [flat_map freeing app] in *. apply Forall_cons in Hr as [_ Hr].
  destruct (Hu p Hp) as [Hp1 Hp2]. split; try done; cbn [flat_map freeing app s_used].
  - rewrite NoDup_app in Hn |- *. destruct Hn as (Hn1 & Hn2 & Hn3). split; [done|]. split; [|by constructor].
    intros x Hx. rewrite not_elem_of_cons. split; [by intros ->|by apply Hn2].
  - intros q. rewrite elem_of_difference, elem_of_singleton. intros [Hq Hne]. rewrite not_elem_of_cons. destruct (Hu q Hq). done.
  - intros q. rewrite Ha, elem_of_difference, elem_of_singleton, elem_of_cons. destruct (decide (q = p)) as [->|]; naive_solver.
  - by constructor.
Qed.

(** A write to an object that is not in the list. *)
Lemma parts_write objs s t t' others l p v : parts objs s (t :: others) l -> p ∉ l -> p ∉ flat_map freeing others ->
  freeing t' = freeing t -> remembers (<[p := v]> (s_next s)) l t' ->
  parts objs {| s_head := s_head s; s_next := <[p := v]> (s_next s); s_used := s_used s |} (t' :: others) l.
Proof.
  intros [Hc Hn Hu Ha Hr] Hp Ho Hf Ht. apply Forall_cons in Hr as [_ Hr]. split; cbn [flat_map s_used s_next s_head]; rewrite ?Hf; try done.
  - by apply chain_write.
  - constructor; [done|]. rewrite Forall_forall in Hr |- *. intros u Hin. apply remembers_write; [done| |by apply Hr].
    intros Hpu. apply Ho. by apply (freeing_in u).
Qed.

(** The exchange of [Free]. *)
Lemma parts_push objs s p cur others l : parts objs s (F_cas p cur :: others) l -> s_head s = cur -> p <> 0 ->
  parts objs {| s_head := p; s_next := s_next s; s_used := s_used s |} (Idle :: others) (p :: l).
Proof.
  intros [Hc Hn Hu Ha Hr] Hh H0. cbn [flat_map freeing app] in *. apply Forall_cons in Hr as [Ht Hr]. rewrite NoDup_app, NoDup_cons in Hn.
  destruct Hn as (Hn1 & Hn2 & Hn3 & Hn4). split; cbn [flat_map freeing app s_used s_next s_head].
  - econstructor; [done|exact Ht|by rewrite <- Hh].
  - constructor.
    + rewrite not_elem_of_app. split; [|done]. intros Hin. specialize (Hn2 p Hin). apply Hn2. left.
    + rewrite NoDup_app. split; [done|]. split; [|done]. intros x Hx. specialize (Hn2 x Hx). by apply not_elem_of_cons in Hn2 as [_ Hn2].
  - intros q Hq. destruct (Hu q Hq) as [H1 H2]. rewrite not_elem_of_cons in H2 |- *. naive_solver.
  - intros q. rewrite Ha, !elem_of_cons. naive_solver.
  - constructor; [done|]. eapply Forall_impl; [exact Hr|]. intros u. apply remembers_cons.
Qed.

(** Every step of a thread keeps the parts, when no other thread allocates
    while it does. *)
Lemma tstep_parts objs s t s' t' others l : parts objs s (t :: others) l -> 0 ∉ objs -> tstep s t s' t' ->
  (allocating t = true -> Forall (fun u => allocating u = false) others) ->
  exists l', parts objs s' (t' :: others) l'.
Proof.
  intros Hp H0 Hstep Hlone. pose proof (head_remembered _ _ _ _ Hp) as Hhead. pose proof (pt_remembers _ _ _ _ Hp) as Hr.
  apply Forall_cons in Hr as [Ht _]. pose proof (pt_nodup _ _ _ _ Hp) as Hn. pose proof (pt_all _ _ _ _ Hp) as Ha.
  destruct Hstep as [s|s|s r n Hr0 Hrn|s r n Hh|s r n|s p Hu|s p cur|s p cur Hh|s p cur|s p v Hu].
  - exists l. by apply (parts_local objs s Idle).
  - exists l. by apply (parts_local objs s (A_check 0)).
  - exists l. apply (parts_local objs s (A_check r)); [done|done|]. destruct Ht as [->|Ht]; [done|by split].
  - apply parts_take with l; [done|done|by apply Hlone].
  - exists l. by apply (parts_local objs s (A_cas r n)).
  - exists l. by apply parts_give.
  - exists l. cbn [flat_map freeing app] in Hn. rewrite NoDup_app, NoDup_cons in Hn. destruct Hn as (_ & Hn2 & Hn3 & _).
    apply (parts_write objs s (F_link p cur)); [done| |done|done|].
    + intros Hin. apply (Hn2 p Hin). left.
    + simpl. by rewrite lookup_insert_eq.
  - exists (p :: l). apply parts_push with cur; [done|done|]. intros ->. apply H0, Ha. right. right. left.
  - exists l. by apply (parts_local objs s (F_cas p cur)).
  - exists l. destruct (pt_used _ _ _ _ Hp p Hu) as [H1 H2]. by apply (parts_write objs s Idle).
Qed.

Lemma lone_others ts i t : lone_allocator ts -> ts !! i = Some t -> allocating t = true ->
  Forall (fun u => allocating u = false) (delete i ts).
Proof.
  intros Hl Ht Ha. rewrite Forall_lookup. intros j u Hu. destruct (allocating u) eqn:E; [|done]. exfalso.
  destruct (decide (j < i)%nat) as [Hji|Hji].
  - rewrite list_lookup_delete_lt in Hu by done. specialize (Hl i j t u Ht Hu Ha E). lia.
  - rewrite list_lookup_delete_ge in Hu by lia. specialize (Hl i (S j) t u Ht Hu Ha E). lia.
Qed.

Lemma insert_perm (ts : list Thread) i t t' : ts !! i = Some t -> <[i := t']> ts ≡ₚ t' :: delete i ts.
Proof.
  intros Ht. rewrite (delete_Permutation (<[i := t']> ts) i t').
  - assert (delete i (<[i := t']> ts) = delete i ts) as ->; [|done]. clear Ht. revert i. induction ts as [|u ts IH]; intros [|i]; try done.
    cbn. f_equal. apply IH.
  - apply list_lookup_insert_eq. by eapply lookup_lt_Some.
Qed.

Lemma lone_run_parts objs s0 ts0 s ts : 0 ∉ objs -> (exists l, parts objs s0 ts0 l) -> lone_allocator ts0 ->
  lone_run (s0, ts0) (s, ts) -> (exists l, parts objs s ts l) /\ lone_allocator ts.
Proof.
  intros H0 Hp0 Hl0 Hrun. remember (s, ts) as c eqn:Ec. revert s ts Ec.
  induction Hrun as [|c s' ts' Hrun IH Hstep Hl]; intros s ts [= -> ->]; [done|]. split; [|done].
  destruct c as [s1 ts1]. destruct (IH s1 ts1 eq_refl) as [[l Hp] Hl1]. inversion Hstep as [? ? ? i t t' Ht Hts]; subst.
  apply (parts_perm _ _ _ (t :: delete i ts1)) in Hp; [|by apply delete_Permutation].
  destruct (tstep_parts objs s1 t s t' (delete i ts1) l Hp H0 Hts) as [l' Hp'].
  - intros Ha. by apply lone_others with t.
  - exists l'. eapply parts_perm; [|exact Hp']. symmetry. by apply insert_perm with t.
Qed.

(** C22: with at most one thread in [Allocate] at a time and any number in
    [Free], interleaved at every access to shared memory and with clients that
    overwrite the objects they hold, the list always consists of exactly the
    objects of the heap that nobody holds or is giving back, each once, and an
    exchange of [Allocate] that succeeds hands out one of these. *)
Theorem slab_lone_allocator base size n memory_size b b0 k s ts : 0 < base -> 0 < size -> base + Z.of_nat n * size < 2 ^ 64 ->
  memory_size / size = Z.of_nat n -> head (impl b) = 0 -> InitializeImpl b size base memory_size = Some b0 ->
  lone_run ({| s_head := head (impl b0); s_next := next (impl b0); s_used := ∅ |}, replicate k Idle) (s, ts) ->
  (exists l, chain (s_next s) (s_head s) l /\ NoDup (l ++ flat_map freeing ts)
     /\ (forall p, p ∈ s_used s -> p ∉ l ++ flat_map freeing ts)
     /\ (forall p, (p ∈ objects base size n) <-> (p ∈ l) \/ (p ∈ s_used s) \/ (p ∈ flat_map freeing ts)))
  /\ forall i r m, ts !! i = Some (A_cas r m) -> s_head s = r ->
       (r ∈ objects base size n) /\ (r ∉ s_used s) /\ r ∉ flat_map freeing ts.
Proof.
  intros Hb Hs H64 Hn Hh Hinit Hrun.
  destruct (initialize_ok base size n Hb Hs H64 b _ memory_size Hh eq_refl Hn) as (b1 & E & Hok & _). rewrite Hinit in E. injection E as <-.
  assert (flat_map freeing (replicate k Idle) = []) as Hnil by (clear; by induction k).
  edestruct (lone_run_parts (objects base size n)) as [[l Hp] Hl]; [| | |exact Hrun|].
  - intros (i & E & Hi)%elem_of_objects. nia.
  - destruct (sl_free _ _ _ _ _ Hok) as (l & Hc & Hnd & Hl). exists l. split; cbn [s_head s_next s_used]; rewrite ?Hnil; try done.
    + by rewrite app_nil_r.
    + intros p. rewrite <- (elem_of_list_to_set (C := gset Z)), Hl. set_solver.
    + by apply Forall_replicate.
  - intros i j t u Ht Hu Ha _. apply lookup_replicate in Ht as [-> _]. done.
  - split.
    + exists l. split; [apply Hp|]. split; [apply Hp|]. split; [|apply Hp]. intros p Hu. rewrite not_elem_of_app. by apply Hp.
    + intros i r m Ht Hr. pose proof (pt_remembers _ _ _ _ Hp) as Hrem. rewrite Forall_lookup in Hrem. destruct (Hrem i _ Ht) as [Hin _].
      split; [apply Hp; by left|]. split; [intros Hu; by destruct (pt_used _ _ _ _ Hp r Hu)|].
      pose proof (pt_nodup _ _ _ _ Hp) as Hnd. apply NoDup_app in Hnd as (_ & Hd & _). by apply Hd.
Qed.

(** ** Two threads in [Allocate] *)

(** Two objects at 16 and 24, and three idle threads. *)
Definition two_slots : SlabHeapBase :=
  default {| impl := SlabHeapImpl_new ∅; peak := 0; start := 0; end_ := 0 |}
    (InitializeImpl {| impl := SlabHeapImpl_new ∅; peak := 0; start := 0; end_ := 0 |} 8 16 16).
Definition shared (b : SlabHeapBase) : Shared := {| s_head := head (impl b); s_next := next (impl b); s_used := ∅ |}.

Lemma slab_lone_allocator_witness :
  let b := {| impl := SlabHeapImpl_new ∅; peak := 0; start := 0; end_ := 0 |} in
  let s := {| s_head := 24; s_next := next (impl two_slots); s_used := {[16]} ∪ ∅ |} in
  (exists l, chain (s_next s) (s_head s) l /\ NoDup (l ++ flat_map freeing [Idle; Idle; Idle])
     /\ (forall p, p ∈ s_used s -> p ∉ l ++ flat_map freeing [Idle; Idle; Idle])
     /\ (forall p, (p ∈ objects 16 8 2) <-> (p ∈ l) \/ (p ∈ s_used s) \/ (p ∈ flat_map freeing [Idle; Idle; Idle])))
  /\ forall i r m, [Idle; Idle; Idle] !! i = Some (A_cas r m) -> s_head s = r ->
       (r ∈ objects 16 8 2) /\ (r ∉ s_used s) /\ r ∉ flat_map freeing [Idle; Idle; Idle].
Proof.
  intros b s. apply (slab_lone_allocator 16 8 2 16 b two_slots 3 s [Idle; Idle; Idle]); try done.
  set (c0 := (_, replicate 3 Idle)). set (s0 := shared two_slots).
  assert (forall u, lone_allocator [u; Idle; Idle]) as Hl.
  { intros u i j t v Ht Hv Ha Hb. destruct i as [|[|[|i]]], j as [|[|[|j]]]; simpl in *; simplify_eq; done. }
  assert (lone_run c0 (s0, [A_check 16; Idle; Idle])) as H1.
  { exact (lone_step c0 c0 _ _ (lone_start c0) (step_thread s0 s0 (replicate 3 Idle) 0 Idle _ eq_refl (alloc_load s0)) (Hl _)). }
  assert (lone_run c0 (s0, [A_cas 16 24; Idle; Idle])) as H2.
  { exact (lone_step c0 _ _ _ H1 (step_thread s0 s0 [A_check 16; Idle; Idle] 0 (A_check 16) _ eq_refl (alloc_next s0 16 24 ltac:(done) eq_refl)) (Hl _)). }
  exact (lone_step c0 _ _ _ H2 (step_thread s0 s [A_cas 16 24; Idle; Idle] 0 (A_cas 16 24) Idle eq_refl (alloc_done s0 16 24 eq_refl)) (Hl _)).
Defined.

(** With two threads in [Allocate] the exchange can succeed although the
    words it relies on are out of date: the first thread has read 16 and its
    successor 24; the second one takes both objects and gives 16 back; the
    exchange of the first then makes 24, which is in use, the head of the
    list. *)
Lemma two_allocators_hand_out_twice : exists s ts,
  rtc step (shared two_slots, [Idle; Idle]) (s, ts) /\ s_head s = 24 /\ (24 ∈ s_used s) /\ ts = [Idle; Idle].
Proof.
  eexists _, _. split.
  - eapply rtc_l; [eapply (step_thread _ _ _ 0 Idle); [reflexivity|apply alloc_load]|].
    eapply rtc_l; [eapply (step_thread _ _ _ 0 (A_check 16)); [reflexivity|by apply (alloc_next _ 16 24)]|].
    eapply rtc_l; [eapply (step_thread _ _ _ 1 Idle); [reflexivity|apply alloc_load]|].
    eapply rtc_l; [eapply (step_thread _ _ _ 1 (A_check 16)); [reflexivity|by apply (alloc_next _ 16 24)]|].
    eapply rtc_l; [eapply (step_thread _ _ _ 1 (A_cas 16 24)); [reflexivity|by apply alloc_done]|].
    eapply rtc_l; [eapply (step_thread _ _ _ 1 Idle); [reflexivity|apply alloc_load]|].
    eapply rtc_l; [eapply (step_thread _ _ _ 1 (A_check 24)); [reflexivity|by apply (alloc_next _ 24 0)]|].
    eapply rtc_l; [eapply (step_thread _ _ _ 1 (A_cas 24 0)); [reflexivity|by apply alloc_done]|].
    eapply rtc_l; [eapply (step_thread _ _ _ 1 Idle); [reflexivity|apply (free_load _ 16); set_solver]|].
    eapply rtc_l; [eapply (step_thread _ _ _ 1 (F_link 16 0)); [reflexivity|apply free_link]|].
    eapply rtc_l; [eapply (step_thread _ _ _ 1 (F_cas 16 0)); [reflexivity|by apply free_done]|].
    eapply rtc_l; [eapply (step_thread _ _ _ 0 (A_cas 16 24)); [reflexivity|by apply alloc_done]|].
    apply rtc_refl.
  - split; [done|]. split; [cbn [s_used]; set_solver|done].
Qed.
