(* ===== verification/MacroInterpreter.v ===== *)
(** * The macro interpreter

    [MacroInterpreterImpl] ([src/src/video_core/macro/macro_interpreter.cpp])
    runs the macros that a program uploads to the GPU: eight registers, a
    stream of parameters, methods sent to the 3D engine, branches and exits
    with a delay slot.  The engine is an interface, [Maxwell3D].  The
    assertions of this program only log, so execution goes on after them.
    [None]: an access outside the code, the registers or the parameters, an
    operation that C++ leaves undefined, or spent fuel. *)

From S2P Require Import Prelude.
From stdpp Require Import base list.
Open Scope Z_scope.
Open Scope c_scope.

(** What the interpreter needs of the engine. *)
Class Maxwell3D (G : Type) := {
  CallMethodFromMME : G -> Z -> Z -> G;
  GetRegisterValue : G -> Z -> Z
}.

Module Macro.

(** ** Opcodes *)

(** [BitField<position, bits, u32>]; the signed [BitField<14, 18, s32>]. *)
Definition bits (raw position n : Z) : Z := (raw >> position) .& Z.ones n.
Definition operation (raw : Z) : Z := bits raw 0 3.
Definition result_operation (raw : Z) : Z := bits raw 4 3.
Definition branch_condition (raw : Z) : Z := bits raw 4 1.
Definition branch_annul (raw : Z) : bool := negb (bits raw 5 1 =? 0).
Definition is_exit (raw : Z) : bool := negb (bits raw 7 1 =? 0).
Definition dst (raw : Z) : Z := bits raw 8 3.
Definition src_a (raw : Z) : Z := bits raw 11 3.
Definition src_b (raw : Z) : Z := bits raw 14 3.
Definition immediate (raw : Z) : Z := (if raw <? 2 ^ 31 then raw else raw - 2 ^ 32) >> 14.
Definition alu_operation (raw : Z) : Z := bits raw 17 5.
Definition bf_src_bit (raw : Z) : Z := bits raw 17 5.
Definition bf_size (raw : Z) : Z := bits raw 22 5.
Definition bf_dst_bit (raw : Z) : Z := bits raw 27 5.

(** [(1 << bf_size) - 1] on [int]: out of range for a size of 31. *)
Definition GetBitfieldMask (raw : Z) : option Z :=
  if bf_size raw =? 31 then None else Some (2 ^ bf_size raw - 1).
Definition GetBranchTarget (raw : Z) : Z := immediate raw * 4.

(** The fields of [MethodAddress]. *)
Definition address (raw : Z) : Z := bits raw 0 12.
Definition increment (raw : Z) : Z := bits raw 12 6.
Definition assign_address (raw v : Z) : Z := (raw .& (0xFFFFFFFF .^ 0xFFF)) .| (v .& 0xFFF).

Section Interpreter.
Context {G : Type} `{Maxwell3D G}.

(** The state of the interpreter, the program counters apart, with the
    engine it drives. *)
Record Core := {
  registers : list Z;
  method_address : Z;
  next_parameter_index : Z;
  carry_flag : bool;
  maxwell3d : G
}.
Record State := { core : Core; pc : Z; delayed_pc : option Z }.

(** The code and the parameters of the macro. *)
Context (code parameters : list Z).

Definition with_registers (c : Core) (r : list Z) : Core :=
  {| registers := r; method_address := method_address c; next_parameter_index := next_parameter_index c;
     carry_flag := carry_flag c; maxwell3d := maxwell3d c |}.
Definition with_carry (c : Core) (b : bool) : Core :=
  {| registers := registers c; method_address := method_address c; next_parameter_index := next_parameter_index c;
     carry_flag := b; maxwell3d := maxwell3d c |}.

Definition GetRegister (c : Core) (register_id : Z) : option Z := registers c !! Z.to_nat register_id.
Definition SetRegister (c : Core) (register_id value : Z) : option Core :=
  if register_id =? 0 then Some c
  else if register_id <? Z.of_nat (length (registers c))
       then Some (with_registers c (<[Z.to_nat register_id := value]> (registers c))) else None.
Definition SetMethodAddress (c : Core) (a : Z) : Core :=
  {| registers := registers c; method_address := a; next_parameter_index := next_parameter_index c;
     carry_flag := carry_flag c; maxwell3d := maxwell3d c |}.
Definition Send (c : Core) (value : Z) : Core :=
  let a := method_address c in
  {| registers := registers c; method_address := assign_address a (address a + increment a);
     next_parameter_index := next_parameter_index c; carry_flag := carry_flag c;
     maxwell3d := CallMethodFromMME (maxwell3d c) (address a) value |}.
Definition Read (c : Core) (method : Z) : Z := GetRegisterValue (maxwell3d c) method.
Definition FetchParameter (c : Core) : option (Core * Z) :=
  v ← parameters !! Z.to_nat (next_parameter_index c);
  Some ({| registers := registers c; method_address := method_address c;
           next_parameter_index := to_u32 (next_parameter_index c + 1); carry_flag := carry_flag c;
           maxwell3d := maxwell3d c |}, v).

(** [GetALUResult]: the new carry flag, if it is set, and the result. *)
Definition alu (op a b : Z) (carry : bool) : option bool * Z :=
  match op with
  | 0 => let r := a + b in (Some (0xFFFFFFFF <? r), to_u32 r)
  | 1 => let r := a + b + (if carry then 1 else 0) in (Some (0xFFFFFFFF <? r), to_u32 r)
  | 2 => let r := to_u64 (a - b) in (Some (r <? 0x100000000), to_u32 r)
  | 3 => let r := to_u64 (a - b - (if carry then 0 else 1)) in (Some (r <? 0x100000000), to_u32 r)
  | 8 => (None, a .^ b)
  | 9 => (None, a .| b)
  | 10 => (None, a .& b)
  | 11 => (None, a .& (0xFFFFFFFF .^ b))
  | 12 => (None, 0xFFFFFFFF .^ (a .& b))
  | _ => (None, 0)
  end.
Definition GetALUResult (c : Core) (op a b : Z) : Core * Z :=
  match alu op a b (carry_flag c) with
  | (Some f, r) => (with_carry c f, r)
  | (None, r) => (c, r)
  end.

Definition ProcessResult (c : Core) (op reg result : Z) : option Core :=
  match op with
  | 0 => '(c, v) ← FetchParameter c; SetRegister c reg v
  | 1 => SetRegister c reg result
  | 2 => c ← SetRegister c reg result; Some (SetMethodAddress c result)
  | 3 => '(c, v) ← FetchParameter c; c ← SetRegister c reg v; Some (Send c result)
  | 4 => c ← SetRegister c reg result; Some (Send c result)
  | 5 => '(c, v) ← FetchParameter c; c ← SetRegister c reg v; Some (SetMethodAddress c result)
  | 6 => c ← SetRegister c reg result; '(c, v) ← FetchParameter (SetMethodAddress c result); Some (Send c v)
  | _ => c ← SetRegister c reg result; Some (Send (SetMethodAddress c result) ((result >> 12) .& 0x3F))
  end.

Definition EvaluateBranchCondition (cond value : Z) : bool := if cond =? 0 then value =? 0 else negb (value =? 0).

Definition GetOpcode (pc : Z) : option Z := code !! Z.to_nat (pc / 4).

(** The cases of the switch of [Step] but for branches. *)
Definition execute (c : Core) (raw : Z) : option Core :=
  match operation raw with
  | 0 =>
      a ← GetRegister c (src_a raw); b ← GetRegister c (src_b raw);
      let '(c, r) := GetALUResult c (alu_operation raw) a b in
      ProcessResult c (result_operation raw) (dst raw) r
  | 1 =>
      a ← GetRegister c (src_a raw);
      ProcessResult c (result_operation raw) (dst raw) (to_u32 (a + immediate raw))
  | 2 =>
      d ← GetRegister c (src_a raw); s ← GetRegister c (src_b raw); m ← GetBitfieldMask raw;
      let s := (s >> bf_src_bit raw) .& m in
      let d := d .& (0xFFFFFFFF .^ to_u32 (m << bf_dst_bit raw)) in
      ProcessResult c (result_operation raw) (dst raw) (d .| to_u32 (s << bf_dst_bit raw))
  | 3 =>
      d ← GetRegister c (src_a raw); s ← GetRegister c (src_b raw); m ← GetBitfieldMask raw;
      if 32 <=? d then None
      else ProcessResult c (result_operation raw) (dst raw) (to_u32 (((s >> d) .& m) << bf_dst_bit raw))
  | 4 =>
      d ← GetRegister c (src_a raw); s ← GetRegister c (src_b raw); m ← GetBitfieldMask raw;
      if 32 <=? d then None
      else ProcessResult c (result_operation raw) (dst raw) (to_u32 (((s >> bf_src_bit raw) .& m) << d))
  | 5 =>
      a ← GetRegister c (src_a raw);
      ProcessResult c (result_operation raw) (dst raw) (Read c (to_u32 (a + immediate raw)))
  | _ => Some c
  end.

(** [Step]: the state and whether to keep running. *)
Fixpoint Step (fuel : nat) (is_delay_slot : bool) (s : State) : option (State * bool) :=
  match fuel with
  | O => None
  | S fuel =>
      let base_address := pc s in
      raw ← GetOpcode (pc s);
      let npc := match delayed_pc s with Some d => d | None => to_u32 (pc s + 4) end in
      let s := {| core := core s; pc := npc; delayed_pc := None |} in
      let finish (s : State) :=
        if is_exit raw && negb is_delay_slot then '(s, _) ← Step fuel true s; Some (s, false)
        else Some (s, true) in
      if operation raw =? 7 then
        v ← GetRegister (core s) (src_a raw);
        if EvaluateBranchCondition (branch_condition raw) v then
          let target := to_u32 (base_address + GetBranchTarget raw) in
          if branch_annul raw then Some ({| core := core s; pc := target; delayed_pc := None |}, true)
          else Step fuel true {| core := core s; pc := npc; delayed_pc := Some target |}
        else finish s
      else
        c ← execute (core s) raw;
        finish {| core := c; pc := npc; delayed_pc := None |}
  end.

(** The loop of [Execute], and [Execute] with [Reset]. *)
Fixpoint exec_loop (fuel : nat) (s : State) : option State :=
  match fuel with
  | O => None
  | S fuel =>
      match Step (S fuel) false s with
      | Some (s, keep_executing) => if keep_executing : bool then exec_loop fuel s else Some s
      | None => None
      end
  end.
Definition Reset (g : G) : State :=
  {| core := {| registers := replicate 8 0; method_address := 0; next_parameter_index := 1; carry_flag := false; maxwell3d := g |};
     pc := 0; delayed_pc := None |}.
Definition start (g : G) : option State :=
  p ← parameters !! 0%nat;
  let s := Reset g in
  Some {| core := with_registers (core s) (<[1%nat := p]> (registers (core s))); pc := pc s; delayed_pc := delayed_pc s |}.
Definition Execute (fuel : nat) (g : G) : option State := s ← start g; exec_loop fuel s.
End Interpreter.
Arguments Core G : clear implicits.
Arguments State G : clear implicits.
End Macro.
Import Macro.

(** ** Delay slots without recursion

    An intermediate form of the interpreter, with the same [execute], on the
    way to the machine of [MacroMachine]: the address [m_pc] of the instruction
    and [m_npc] of the one after it, which a taken branch changes, in place of
    the recursion of [Step].  [m_slot]: the instruction is in a delay slot.
    [m_last]: execution ends after it. *)

Section Machine.
Context {G : Type} `{Maxwell3D G} (code parameters : list Z).

Record Machine := { m_core : Core G; m_pc : Z; m_npc : Z; m_slot : bool; m_last : bool }.

(** One instruction: halted ([inl]) or running ([inr]). *)
Definition mstep (m : Machine) : option (Core G + Machine) :=
  raw ← code !! Z.to_nat (m_pc m / 4);
  let target := to_u32 (m_pc m + 4 * immediate raw) in
  let next c := inr {| m_core := c; m_pc := m_npc m; m_npc := to_u32 (m_npc m + 4); m_slot := false; m_last := false |} in
  let finish c :=
    if m_last m then inl c
    else if is_exit raw && negb (m_slot m) then
      inr {| m_core := c; m_pc := m_npc m; m_npc := to_u32 (m_npc m + 4); m_slot := true; m_last := true |}
    else next c in
  if operation raw =? 7 then
    v ← GetRegister (m_core m) (src_a raw);
    Some (if EvaluateBranchCondition (branch_condition raw) v then
            if negb (branch_annul raw) then
              inr {| m_core := m_core m; m_pc := m_npc m; m_npc := target; m_slot := true; m_last := m_last m |}
            else if m_last m then inl (m_core m)
            else inr {| m_core := m_core m; m_pc := target; m_npc := to_u32 (target + 4); m_slot := false; m_last := false |}
          else finish (m_core m))
  else c ← execute parameters (m_core m) raw; Some (finish c).

Fixpoint mrun (n : nat) (m : Machine) : option (Core G) :=
  match n with
  | O => None
  | S n => r ← mstep m; match r with inl c => Some c | inr m => mrun n m end
  end.

Lemma mrun_mono n k m c : mrun n m = Some c -> (n <= k)%nat -> mrun k m = Some c.
Proof.
  revert k m. induction n as [|n IH]; intros k m Hr Hk; [done|]. destruct k as [|k]; [lia|]. cbn [mrun] in *.
  destruct (mstep m) as [[c'|m']|]; cbn [mbind option_bind] in *; [done| |done]. apply IH; [done|lia].
Qed.

(** A state of the interpreter as a state of the machine. *)
Definition next_pc (s : State G) : Z := match delayed_pc s with Some d => d | None => to_u32 (pc s + 4) end.
Definition machine (s : State G) (slot last : bool) : Machine :=
  {| m_core := core s; m_pc := pc s; m_npc := next_pc s; m_slot := slot; m_last := last |}.

(** One level of [Step] is one instruction of the machine: it goes on at the
    next instruction or at a target, or runs the delay slot of an exit or of a
    branch. *)
Inductive one_level (fuel : nat) (slot : bool) (s : State G) : Prop :=
  | level_stuck : Step code parameters (S fuel) slot s = None -> (forall last, mstep (machine s slot last) = None) -> one_level fuel slot s
  | level_next s1 : delayed_pc s1 = None -> Step code parameters (S fuel) slot s = Some (s1, true) ->
      mstep (machine s slot false) = Some (inr (machine s1 false false)) -> mstep (machine s slot true) = Some (inl (core s1)) ->
      one_level fuel slot s
  | level_exit s1 : slot = false -> Step code parameters (S fuel) slot s = ('(s2, _) ← Step code parameters fuel true s1; Some (s2, false)) ->
      mstep (machine s slot false) = Some (inr (machine s1 true true)) -> one_level fuel slot s
  | level_branch s1 : Step code parameters (S fuel) slot s = Step code parameters fuel true s1 ->
      (forall last, mstep (machine s slot last) = Some (inr (machine s1 true last))) -> one_level fuel slot s.

Ltac open_level E :=
  unfold mstep, machine; cbn [Step m_pc m_core m_last m_slot]; unfold GetOpcode; rewrite E; cbn [mbind option_bind core].

Lemma Step_one_level fuel slot s : one_level fuel slot s.
Proof.
  destruct (code !! Z.to_nat (pc s / 4)) as [raw|] eqn:Eraw.
  2: { apply level_stuck; [cbn [Step]; unfold GetOpcode; by rewrite Eraw|]. intros last. unfold mstep. cbn [machine m_pc]. by rewrite Eraw. }
  destruct (operation raw =? 7) eqn:Eop.
  - destruct (GetRegister (core s) (src_a raw)) as [v|] eqn:Ev.
    2: { apply level_stuck; [|intros last]; open_level Eraw; rewrite Eop, Ev; done. }
    destruct (EvaluateBranchCondition (branch_condition raw) v) eqn:Ec; [destruct (branch_annul raw) eqn:Ea|].
    + apply (level_next _ _ _ {| core := core s; pc := to_u32 (pc s + GetBranchTarget raw); delayed_pc := None |}); [done|..];
        open_level Eraw; rewrite Eop, Ev; cbn [mbind option_bind]; rewrite Ec, Ea; cbn [negb]; [done| |done].
      unfold next_pc, GetBranchTarget. cbn [pc delayed_pc core]. by rewrite (Z.mul_comm 4).
    + apply (level_branch _ _ _ {| core := core s; pc := next_pc s; delayed_pc := Some (to_u32 (pc s + GetBranchTarget raw)) |}); [|intros last];
        open_level Eraw; rewrite Eop, Ev; cbn [mbind option_bind]; rewrite Ec, Ea; cbn [negb]; [done|].
      unfold GetBranchTarget. cbn [next_pc pc delayed_pc core]. by rewrite (Z.mul_comm 4).
    + set (s1 := {| core := core s; pc := next_pc s; delayed_pc := None |}). destruct (is_exit raw && negb slot) eqn:Ex.
      * apply andb_true_iff in Ex as [Ex Hs]. destruct slot; [done|].
        apply (level_exit _ _ _ s1); [done|..]; open_level Eraw; rewrite Eop, Ev; cbn [mbind option_bind]; rewrite Ec, Ex; done.
      * apply (level_next _ _ _ s1); [done|..]; open_level Eraw; rewrite Eop, Ev; cbn [mbind option_bind]; rewrite Ec, ?Ex; done.
  - destruct (execute parameters (core s) raw) as [c|] eqn:Ee.
    2: { apply level_stuck; [|intros last]; open_level Eraw; rewrite Eop, Ee; done. }
    set (s1 := {| core := c; pc := next_pc s; delayed_pc := None |}). destruct (is_exit raw && negb slot) eqn:Ex.
    + apply andb_true_iff in Ex as [Ex Hs]. destruct slot; [done|].
      apply (level_exit _ _ _ s1); [done|..]; open_level Eraw; rewrite Eop, Ee; cbn [mbind option_bind]; rewrite Ex; done.
    + apply (level_next _ _ _ s1); [done|..]; open_level Eraw; rewrite Eop, Ee; cbn [mbind option_bind]; rewrite ?Ex; done.
Qed.

(** A call of [Step] runs the machine for some instructions: until it halts,
    or to the instruction the interpreter goes on with. *)
Lemma Step_sound fuel : forall slot last s s' keep, Step code parameters fuel slot s = Some (s', keep) ->
  (slot = false -> last = false) ->
  delayed_pc s' = None /\ exists k, forall n, mrun (S k + n) (machine s slot last)
    = if last || negb keep then Some (core s') else mrun n (machine s' false false).
Proof.
  induction fuel as [|fuel IH]; intros slot last s s' keep Hs Hslot; [done|].
  destruct (Step_one_level fuel slot s) as [E|s1 Hd E Hf Ht|s1 -> E Hf|s1 E Hm]; rewrite E in Hs; [done|..].
  - injection Hs as <- <-. split; [done|]. exists 0%nat. intros n. cbn [Nat.add mrun]. destruct last; [by rewrite Ht|by rewrite Hf].
  - rewrite (Hslot eq_refl) in *. destruct (Step code parameters fuel true s1) as [[s2 b]|] eqn:E2; [|done]. cbn in Hs. injection Hs as -> <-.
    destruct (IH true true s1 s' b E2 ltac:(done)) as [Hd (k & Hk)]. split; [done|]. exists (S k). intros n.
    change (S (S k) + n)%nat with (S (S k + n)). cbn [mrun]. rewrite Hf. cbn [mbind option_bind]. exact (Hk n).
  - destruct (IH true last s1 s' keep Hs ltac:(done)) as [Hd (k & Hk)]. split; [done|]. exists (S k). intros n.
    change (S (S k) + n)%nat with (S (S k + n)). cbn [mrun]. rewrite Hm. cbn [mbind option_bind]. exact (Hk n).
Qed.

(** When the machine halts, [Step] returns. *)
Lemma Step_complete fuel : forall n slot last s c, (n <= fuel)%nat -> mrun n (machine s slot last) = Some c ->
  (slot = false -> last = false) -> exists s' keep, Step code parameters fuel slot s = Some (s', keep).
Proof.
  induction fuel as [|fuel IH]; intros [|n] slot last s c Hn Hr Hslot; try done; [lia|]. cbn [mrun] in Hr.
  destruct (Step_one_level fuel slot s) as [E Hm|s1 Hd E Hf Ht|s1 -> E Hf|s1 E Hm]; rewrite E.
  - by rewrite Hm in Hr.
  - eauto.
  - rewrite (Hslot eq_refl), Hf in Hr. cbn [mbind option_bind] in Hr. destruct (IH n true true s1 c ltac:(lia) Hr ltac:(done)) as (s2 & b & ->). cbn. eauto.
  - rewrite Hm in Hr. cbn [mbind option_bind] in Hr. apply (IH n true last s1 c); [lia|done|done].
Qed.

Lemma exec_loop_sound fuel : forall s s', exec_loop code parameters fuel s = Some s' ->
  exists n, mrun n (machine s false false) = Some (core s').
Proof.
  induction fuel as [|fuel IH]; intros s s' Hs; [done|]. cbn [exec_loop] in Hs.
  destruct (Step code parameters (S fuel) false s) as [[s1 keep]|] eqn:E; [|done].
  destruct (Step_sound _ false false _ _ _ E ltac:(done)) as [_ (k & Hk)]. destruct keep.
  - destruct (IH s1 s' Hs) as [n Hn]. exists (S k + n)%nat. by rewrite Hk.
  - injection Hs as <-. exists (S k + 0)%nat. by rewrite Hk.
Qed.

Lemma exec_loop_complete fuel : forall n s c, (n <= fuel)%nat -> mrun n (machine s false false) = Some c ->
  exists s', exec_loop code parameters fuel s = Some s' /\ core s' = c.
Proof.
  induction fuel as [|fuel IH]; intros n s c Hn Hr; [by replace n with 0%nat in Hr by lia|]. cbn [exec_loop].
  destruct (Step_complete (S fuel) n false false s c Hn Hr ltac:(done)) as (s1 & keep & E). rewrite E.
  destruct (Step_sound _ false false _ _ _ E ltac:(done)) as [_ (k & Hk)]. destruct keep; cbn [orb negb] in Hk.
  - destruct (Nat.le_gt_cases (S k) n) as [Hle|Hlt].
    + apply (IH (n - S k)%nat); [lia|]. rewrite <- Hk. by replace (S k + (n - S k))%nat with n by lia.
    + exfalso. specialize (Hk 0%nat). rewrite (mrun_mono n _ _ c Hr) in Hk by lia. done.
  - exists s1. split; [done|]. specialize (Hk n). rewrite (mrun_mono n _ _ c Hr) in Hk by lia. by injection Hk.
Qed.
End Machine.

(** The recursion of [Step] for the delay slots comes to the same as the two
    addresses, whatever the single instructions do. *)
Lemma macro_execute_unrolled {G} `{Maxwell3D G} code parameters (g : G) s c : start parameters g = Some s ->
  (exists fuel s', Execute code parameters fuel g = Some s' /\ core s' = c)
  <-> (exists n, mrun code parameters n {| m_core := core s; m_pc := 0; m_npc := 4; m_slot := false; m_last := false |} = Some c).
Proof.
  intros Hs. unfold Execute. rewrite Hs. cbn [mbind option_bind].
  assert (machine s false false = {| m_core := core s; m_pc := 0; m_npc := 4; m_slot := false; m_last := false |}) as <-.
  { unfold start in Hs. destruct (parameters !! 0%nat); [|done]. by injection Hs as <-. }
  split.
  - intros (fuel & s' & He & <-). by apply (exec_loop_sound _ _ fuel).
  - intros [n Hn]. exists n. by apply (exec_loop_complete _ _ n n).
Qed.

(** ** Arithmetic *)

(** Two words, low first, added with [Add] and [AddWithCarry], and subtracted
    with [Subtract] and [SubtractWithBorrow], are the sum and the difference of
    the 64-bit numbers. *)
Theorem multiword_arithmetic a0 a1 b0 b1 carry : is_u32 a0 -> is_u32 a1 -> is_u32 b0 -> is_u32 b1 ->
  (exists c lo hi c', alu 0 a0 b0 carry = (Some c, lo) /\ alu 1 a1 b1 c = (Some c', hi)
     /\ lo + 2 ^ 32 * hi = to_u64 ((a0 + 2 ^ 32 * a1) + (b0 + 2 ^ 32 * b1)))
  /\ (exists c lo hi c', alu 2 a0 b0 carry = (Some c, lo) /\ alu 3 a1 b1 c = (Some c', hi)
     /\ lo + 2 ^ 32 * hi = to_u64 ((a0 + 2 ^ 32 * a1) - (b0 + 2 ^ 32 * b1))).
Proof.
  unfold is_u32. intros Ha0 Ha1 Hb0 Hb1. split; eexists _, _, _, _; (split; [reflexivity|]); (split; [reflexivity|]);
    rewrite ?to_u32_mod, ?to_u64_mod.
  - destruct (Z.ltb_spec 0xFFFFFFFF (a0 + b0)); zlia.
  - destruct (Z.ltb_spec ((a0 - b0) mod 2 ^ 64) 0x100000000); zlia.
Qed.

(** ** Widths *)

Lemma land_u32 a b : is_u32 a -> is_u32 (a .& b).
Proof.
  intros Ha. assert (to_u32 (a .& b) = a .& b) as <-; [|apply to_u32_range].
  unfold to_u32. rewrite <- Z.land_assoc, (Z.land_comm b), Z.land_assoc. fold (to_u32 a). by rewrite to_u32_id.
Qed.
Lemma lor_u32 a b : is_u32 a -> is_u32 b -> is_u32 (a .| b).
Proof.
  intros Ha Hb. assert (to_u32 (a .| b) = a .| b) as <-; [|apply to_u32_range].
  unfold to_u32. rewrite Z.land_lor_distr_l. fold (to_u32 a) (to_u32 b). by rewrite !to_u32_id.
Qed.

Lemma macro_bits_bound raw p n : 0 <= n -> 0 <= bits raw p n < 2 ^ n.
Proof. intros Hn. unfold bits. rewrite Z.land_ones by done. apply Z.mod_pos_bound. lia. Qed.

Section Widths.
Context {G : Type} `{Maxwell3D G} (code parameters : list Z).
Context (Hengine : forall (g : G) m, is_u32 (GetRegisterValue g m)) (Hparameters : Forall is_u32 parameters).

(** Eight words, the first of them 0, and a method address of 32 bits. *)
Record core_ok (c : Core G) : Prop := {
  co_length : length (registers c) = 8%nat;
  co_words : Forall is_u32 (registers c);
  co_zero : registers c !! 0%nat = Some 0;
  co_method : is_u32 (method_address c)
}.

Lemma get_register_u32 c r v : core_ok c -> GetRegister c r = Some v -> is_u32 v.
Proof. intros Hc Hv. pose proof (co_words c Hc) as Hw. rewrite Forall_lookup in Hw. by eapply Hw. Qed.

Lemma set_register_ok c r v : core_ok c -> is_u32 v -> 0 <= r < 8 -> exists c', SetRegister c r v = Some c' /\ core_ok c'.
Proof.
  intros [Hl Hw H0 Hm] Hv Hr. unfold SetRegister. destruct (Z.eqb_spec r 0) as [->|Hne]; [eauto using Build_core_ok|].
  rewrite Hl. rewrite (proj2 (Z.ltb_lt _ _)) by lia. eexists. split; [done|]. split; cbn [registers with_registers method_address]; try done.
  - by rewrite length_insert.
  - by apply Forall_insert.
  - rewrite list_lookup_insert_ne by lia. done.
Qed.

Lemma fetch_ok c c' v : core_ok c -> FetchParameter parameters c = Some (c', v) -> core_ok c' /\ is_u32 v.
Proof.
  intros [] Hf. unfold FetchParameter in Hf. destruct (parameters !! _) as [p|] eqn:Ep; [|done]. injection Hf as <- <-.
  split; [done|]. rewrite Forall_lookup in Hparameters. by eapply Hparameters.
Qed.

Lemma send_ok c v : core_ok c -> core_ok (Send c v).
Proof.
  intros [Hl Hw H0 Hm]. split; try done. cbn [Send method_address]. apply lor_u32; [by apply land_u32|].
  unfold is_u32. pose proof (macro_bits_bound (address (method_address c) + increment (method_address c)) 0 12) as Hb.
  unfold bits in Hb. rewrite Z.shiftr_0_r in Hb. change 0xFFF with (Z.ones 12). lia.
Qed.

Lemma process_result_ok c op r v c' : core_ok c -> is_u32 v -> 0 <= r < 8 -> ProcessResult parameters c op r v = Some c' -> core_ok c'.
Proof.
  intros Hc Hv Hr. assert (forall c, core_ok c -> core_ok (SetMethodAddress c v)) as Hma by (intros ? []; by split).
  destruct (set_register_ok c r v Hc Hv Hr) as (c1 & E1 & Hc1).
  assert (forall c2 p, FetchParameter parameters c = Some (c2, p) -> exists c3, SetRegister c2 r p = Some c3 /\ core_ok c3) as Hfetch.
  { intros c2 p Hf. destruct (fetch_ok c c2 p Hc Hf) as [Hc2 Hp]. by apply set_register_ok. }
  unfold ProcessResult. rewrite ?E1. cbn [mbind option_bind]. intros Hp.
  destruct op as [|[[p|p|]|[p|p|]|]|p]; try destruct p;
    repeat match goal with
    | Hq : context [FetchParameter parameters c] |- _ => destruct (FetchParameter parameters c) as [[c2 w]|] eqn:Ef; [|done];
        destruct (Hfetch c2 w eq_refl) as (c3 & E3 & Hc3); cbn [mbind option_bind] in Hq; rewrite E3 in Hq; cbn [mbind option_bind] in Hq
    | Hq : context [FetchParameter parameters (SetMethodAddress c1 v)] |- _ =>
        destruct (FetchParameter parameters (SetMethodAddress c1 v)) as [[c2 w]|] eqn:Ef; [|done];
        destruct (fetch_ok _ _ _ (Hma c1 Hc1) Ef) as [Hc2 _]; cbn [mbind option_bind] in Hq
    end; simplify_eq; auto using send_ok.
Qed.

Lemma alu_u32 op a b carry : is_u32 a -> is_u32 b -> is_u32 (snd (alu op a b carry)).
Proof.
  intros Ha Hb. assert (is_u32 0xFFFFFFFF) as Hm by (by split). unfold alu.
  repeat case_match; simpl; auto using to_u32_range, lxor_u32, land_u32, lor_u32; by split.
Qed.

Lemma alu_result_ok c op a b c' r : core_ok c -> is_u32 a -> is_u32 b -> GetALUResult c op a b = (c', r) -> core_ok c' /\ is_u32 r.
Proof.
  intros Hc Ha Hb E. unfold GetALUResult in E. pose proof (alu_u32 op a b (carry_flag c) Ha Hb) as Hr.
  destruct (alu op a b (carry_flag c)) as [[f|] r0]; injection E as <- <-; split; try done. by destruct Hc.
Qed.

Lemma execute_ok c raw c' : core_ok c -> execute parameters c raw = Some c' -> core_ok c'.
Proof.
  intros Hc He. assert (0 <= dst raw < 8) as Hd by (apply macro_bits_bound; lia). unfold execute in He.
  destruct (GetRegister c (src_a raw)) as [a|] eqn:Ea; [pose proof (get_register_u32 c _ a Hc Ea) as Ha|];
    (destruct (GetRegister c (src_b raw)) as [b|] eqn:Eb; [pose proof (get_register_u32 c _ b Hc Eb) as Hb|]);
    (destruct (GetBitfieldMask raw) as [m|]); cbn [mbind option_bind] in He;
    repeat case_match; simplify_eq; try done;
    try (match goal with E : GetALUResult _ _ _ _ = _ |- _ => destruct (alu_result_ok _ _ _ _ _ _ Hc Ha Hb E) as [Hc1 Hr] end);
    eapply process_result_ok; try exact He; try done; try apply to_u32_range; try apply Hengine;
    apply lor_u32; [by apply land_u32|apply to_u32_range].
Qed.

Lemma macro_step_ok fuel : forall slot s s' k, core_ok (core s) -> Step code parameters fuel slot s = Some (s', k) -> core_ok (core s').
Proof.
  induction fuel as [|fuel IH]; intros slot s s' k Hc Hs; [done|]. cbn [Step] in Hs.
  destruct (GetOpcode code (pc s)) as [raw|]; [|done]. cbn [mbind option_bind core] in Hs.
  destruct (operation raw =? 7).
  - destruct (GetRegister (core s) (src_a raw)) as [v|]; [|done]. cbn [mbind option_bind] in Hs.
    destruct (EvaluateBranchCondition _ v); [destruct (branch_annul raw); [by injection Hs as <- <-|by eapply IH; [|exact Hs]]|].
    destruct (is_exit raw && negb slot); [|by injection Hs as <- <-].
    destruct (Step code parameters fuel true _) as [[s2 b]|] eqn:E2; [|done]. injection Hs as <- <-. by eapply IH; [|exact E2].
  - destruct (execute parameters (core s) raw) as [c|] eqn:Ee; [|done]. cbn [mbind option_bind] in Hs. pose proof (execute_ok _ _ _ Hc Ee) as Hc'.
    destruct (is_exit raw && negb slot); [|by injection Hs as <- <-].
    destruct (Step code parameters fuel true _) as [[s2 b]|] eqn:E2; [|done]. injection Hs as <- <-. by eapply IH; [|exact E2].
Qed.

(** Whatever the macro does, there are eight registers of 32 bits, the first
    is 0, and the method address has 32 bits. *)
Theorem macro_registers_ok fuel (g : G) s : Execute code parameters fuel g = Some s -> core_ok (core s).
Proof.
  unfold Execute, start. destruct (parameters !! 0%nat) as [p|] eqn:Ep; [|done]. cbn [mbind option_bind].
  assert (core_ok (with_registers (core (Reset g)) (<[1%nat := p]> (registers (core (Reset g)))))) as H0.
  { assert (is_u32 0) by (by split). split; try done. rewrite Forall_lookup in Hparameters.
    apply Forall_insert; [by apply Forall_replicate|by eapply Hparameters]. }
  revert H0. generalize (with_registers (core (Reset g)) (<[1%nat := p]> (registers (core (Reset g))))). generalize (pc (Reset g)) (delayed_pc (Reset g)).
  intros a d c Hc. set (s0 := {| core := c; pc := a; delayed_pc := d |}). assert (core_ok (core s0)) as Hc0 by exact Hc. clearbody s0. clear - Hc0 Hengine Hparameters.
  revert s0 Hc0. induction fuel as [|fuel IH]; intros s0 Hc0 He; [done|]. cbn [exec_loop] in He.
  destruct (Step code parameters (S fuel) false s0) as [[s1 keep]|] eqn:E; [|done]. pose proof (macro_step_ok _ _ _ _ _ Hc0 E) as Hc1.
  destruct keep; [by apply (IH s1)|by injection He as <-].
Qed.
End Widths.

(** ** A macro *)

(** An engine that records the methods it is sent. *)
#[local] Instance recording : Maxwell3D (list (Z * Z)) := {
  CallMethodFromMME g m v := g ++ [(m, v)];
  GetRegisterValue g m := 0
}.

(** [mov maddr r1; parm r2, send r1; exit; send r2]: the parameters are a
    method address and a value, which is sent to three methods. *)
Definition sample_code : list Z :=
  [1 + 2 * 16 + 1 * 2 ^ 11;
   1 + 3 * 16 + 2 * 2 ^ 8 + 1 * 2 ^ 11;
   1 + 4 * 16 + 128 + 3 * 2 ^ 8 + 2 * 2 ^ 11;
   1 + 4 * 16 + 4 * 2 ^ 8 + 2 * 2 ^ 11 + 5 * 2 ^ 14].

(** The value after the method address, and one more from the delay slot. *)
Example sample_macro_sends : (maxwell3d ∘ core) <$> Execute sample_code [0x1100; 7] 9 [] = Some [(0x100, 0x1100); (0x101, 7); (0x102, 12)].
Proof. reflexivity. Qed.

(** A bit field of 31 bits: [(1 << 31) - 1] is out of range for [int]. *)
Lemma mask_of_31_bits raw : bf_size raw = 31 -> GetBitfieldMask raw = None.
Proof. intros E. unfold GetBitfieldMask. by rewrite E. Qed.

(** A shift by a register is undefined for the values from 32 on. *)
Lemma shift_by_register_undefined {G} `{Maxwell3D G} parameters (c : Core G) raw d :
  operation raw = 3 \/ operation raw = 4 -> GetRegister c (src_a raw) = Some d -> 32 <= d -> execute parameters c raw = None.
Proof.
  intros Hop Hd H32. unfold execute. rewrite Hd. destruct Hop as [-> | ->]; cbn [mbind option_bind];
    (destruct (GetRegister c (src_b raw)); [|done]); cbn [mbind option_bind]; (destruct (GetBitfieldMask raw); [|done]); cbn [mbind option_bind];
    by rewrite (proj2 (Z.leb_le _ _)) by lia.
Qed.
