(* ===== verification/IpsLayer.v ===== *)
(** * IPS patches

    [PatchIPS] ([src/src/core/file_sys/ips_layer.cpp]): a file with the
    records of an IPS or IPS32 patch applied, over the virtual files.  The
    result is the patched data, [Null] where the function returns a null
    pointer; [None]: a write outside of the data, or spent fuel. *)

From S2P Require Import Prelude Octets MdStream Sha256 Vfs StringUtil.
From stdpp Require Import base list strings.
Open Scope Z_scope.
Open Scope c_scope.

Module Ips.
Inductive IPSFileType := IPS | IPS32 | Error.
Inductive Result := Null | Patched (data : list Z).

Definition IdentifyMagic (magic : list Z) : IPSFileType :=
  if negb (length magic =? 5)%nat then Error
  else if decide (magic = StringUtil.chars "PATCH"%string) then IPS
  else if decide (magic = StringUtil.chars "IPS32"%string) then IPS32
  else Error.

Definition IsEOF (type : IPSFileType) (data : list Z) : bool :=
  match type with
  | IPS => bool_decide (data = StringUtil.chars "EOF"%string)
  | IPS32 => bool_decide (data = StringUtil.chars "EEOF"%string)
  | Error => false
  end.

Definition offset_size (type : IPSFileType) : Z := match type with IPS => 3 | _ => 4 end.

Definition real_offset (type : IPSFileType) (temp : list Z) : Z :=
  match type with
  | IPS32 => to_u32 (((temp.[0]) << 24) .| ((temp.[1]) << 16) .| ((temp.[2]) << 8) .| (temp.[3]))
  | _ => ((temp.[0]) << 16) .| ((temp.[1]) << 8) .| (temp.[2])
  end.

(** The size of a record is cut at the end of the data. *)
Definition cut (data : list Z) (at_ n : Z) : Z :=
  if Z.of_nat (length data) <? to_u32 (at_ + n) then to_u16 (to_u64 (Z.of_nat (length data) - at_)) else n.

(** [memset] and the copy of [Read] into the data. *)
Definition write_at (data : list Z) (at_ : Z) (src : list Z) : option (list Z) :=
  if at_ + Z.of_nat (length src) <=? Z.of_nat (length data) then Some (memcpy data (Z.to_nat at_) src) else None.

Section Patch.
Context {F : Type} `{VfsFile F}.

(** [ReadObject] of a [u16] and [swap16]: the octets read, and the value. *)
Definition read_u16 (ips : F) (offset : Z) : F * option Z :=
  let '(ips, bs, n) := Vfs.Read ips [0; 0] 2 offset in
  (ips, if n =? 2 then Some (be_val bs) else None).

(** A record of the second kind: a run of one octet. *)
Definition rle_record (ips : F) (at_ offset : Z) (data : list Z) : F * option (option (list Z * Z)) :=
  let '(ips, rle_size) := read_u16 ips offset in
  match rle_size with
  | None => (ips, Some None)
  | Some rle_size =>
      let '(ips, b) := Vfs.ReadByte ips (offset + 2) in
      match b with
      | None => (ips, Some None)
      | Some b =>
          (ips, d ← write_at data at_ (replicate (Z.to_nat (cut data at_ rle_size)) b); Some (Some (d, offset + 3)))
      end
  end.

(** A record of the first kind: the octets themselves. *)
Definition data_record (ips : F) (at_ data_size offset : Z) (data : list Z) : F * option (option (list Z * Z)) :=
  let read := cut data at_ data_size in
  let '(ips, out, n) := Vfs.Read ips (replicate (Z.to_nat read) 0) read offset in
  (ips, d ← write_at data at_ (take (Z.to_nat n) out);
        Some (if n =? data_size then Some (d, offset + data_size) else None)).

(** The size and the rest of a record. *)
Definition read_record (ips : F) (at_ offset : Z) (data : list Z) : F * option (option (list Z * Z)) :=
  let '(ips, data_size) := read_u16 ips offset in
  match data_size with
  | None => (ips, Some None)
  | Some data_size =>
      if data_size =? 0 then rle_record ips at_ (offset + 2) data
      else data_record ips at_ data_size (offset + 2) data
  end.

Fixpoint patch_loop (fuel : nat) (type : IPSFileType) (ips : F) (temp : list Z) (offset : Z) (data : list Z)
    : option Result :=
  match fuel with
  | O => None
  | S fuel =>
      let '(ips, temp, n) := Vfs.Read ips temp (offset_size type) offset in
      if negb (n =? offset_size type) then Some (if IsEOF type temp then Patched data else Null)
      else if IsEOF type temp then Some (Patched data)
      else
        let offset := offset + offset_size type in
        let '(ips, r) := read_record ips (real_offset type temp) offset data in
        r ← r;
        match r with
        | None => Some Null
        | Some (data, offset) => patch_loop fuel type ips temp offset data
        end
  end.

(** A record has at least five octets. *)
Definition PatchIPS {D} `{VfsFile D} (in_ : D) (ips : F) : option Result :=
  let '(ips, magic) := ReadBytes ips 5 0 in
  match IdentifyMagic magic with
  | Error => Some Null
  | type =>
      let '(_, in_data) := ReadAllBytes in_ in
      patch_loop (S (Z.to_nat (GetSize ips))) type ips (replicate (Z.to_nat (offset_size type)) 0) 5 in_data
  end.
End Patch.
End Ips.
Import Ips.

(** ** The contract: records *)

Inductive Record := Data (at_ : Z) (octets : list Z) | Rle (at_ n octet : Z).

Definition record_at (r : Record) : Z := match r with Data a _ | Rle a _ _ => a end.
Definition record_octets (r : Record) : list Z := match r with Data _ l => l | Rle _ n b => replicate (Z.to_nat n) b end.

(** What a record does to the data. *)
Definition apply_record (data : list Z) (r : Record) : list Z := memcpy data (Z.to_nat (record_at r)) (record_octets r).

(** The octets of a record in a patch, and a patch. *)
Definition encode_rest (r : Record) : list Z :=
  match r with
  | Data _ l => be_bytes 2 (Z.of_nat (length l)) ++ l
  | Rle _ n b => be_bytes 2 0 ++ be_bytes 2 n ++ [b]
  end.
Definition encode_record (type : IPSFileType) (r : Record) : list Z :=
  be_bytes (Z.to_nat (offset_size type)) (record_at r) ++ encode_rest r.
Definition magic_of (type : IPSFileType) : list Z :=
  match type with IPS => StringUtil.chars "PATCH"%string | _ => StringUtil.chars "IPS32"%string end.
Definition eof_of (type : IPSFileType) : list Z :=
  match type with IPS => StringUtil.chars "EOF"%string | _ => StringUtil.chars "EEOF"%string end.
Definition encode (type : IPSFileType) (rs : list Record) : list Z :=
  magic_of type ++ flat_map (encode_record type) rs ++ eof_of type.

(** The records before the first one whose offset reads as the mark of the
    end. *)
Fixpoint before_mark (type : IPSFileType) (rs : list Record) : list Record :=
  match rs with
  | [] => []
  | r :: rs => if record_at r =? be_val (eof_of type) then [] else r :: before_mark type rs
  end.

(** A record that fits in data of [size] octets; a record of the first kind
    without octets would read as one of the second. *)
Record fits (type : IPSFileType) (size : Z) (r : Record) : Prop := {
  ft_at : 0 <= record_at r < 256 ^ offset_size type;
  ft_size : match r with Data _ l => l <> [] | Rle _ _ _ => True end /\ Z.of_nat (length (record_octets r)) < 2 ^ 16;
  ft_rle : match r with Rle _ n _ => 0 <= n | _ => True end;
  ft_end : record_at r + Z.of_nat (length (record_octets r)) <= size
}.

Lemma length_apply data r : record_at r + Z.of_nat (length (record_octets r)) <= Z.of_nat (length data) -> 0 <= record_at r ->
  length (apply_record data r) = length data.
Proof. intros Hr H0. unfold apply_record. apply length_memcpy. lia. Qed.

Lemma real_offset_val type temp : type <> Error -> bytes temp -> length temp = Z.to_nat (offset_size type) ->
  real_offset type temp = be_val temp.
Proof.
  intros Ht Hb Hl. destruct type; [| |done]; cbn in Hl; repeat (destruct temp as [|? temp]; [done|]); destruct temp; try done.
  - rewrite <- (Z.add_0_r (be_val _)). destruct (or_be_val 0 z z0 z1) as [E _]; [by constructor|].
    rewrite be_val_cons, Z.mul_0_r in E. exact E.
  - destruct (or_be_val z z0 z1 z2 Hb) as [E Hu]. unfold real_offset. rewrite to_u32_id by exact Hu. exact E.
Qed.

Lemma real_offset_be type v : type <> Error -> 0 <= v < 256 ^ offset_size type ->
  real_offset type (be_bytes (Z.to_nat (offset_size type)) v) = v.
Proof.
  intros Ht Hv. assert (0 <= offset_size type) by (by destruct type).
  rewrite real_offset_val; [|done|apply bytes_be_bytes|apply length_be_bytes].
  rewrite be_val_bytes, Z2Nat.id by done. by apply Z.mod_small.
Qed.

(** The octets of an offset are not the mark of the end. *)
Lemma IsEOF_eof type temp : type <> Error -> IsEOF type temp = bool_decide (temp = eof_of type).
Proof. by destruct type. Qed.

Lemma be_bytes_not_eof type v : type <> Error -> 0 <= v < 256 ^ offset_size type -> v <> be_val (eof_of type) ->
  IsEOF type (be_bytes (Z.to_nat (offset_size type)) v) = false.
Proof.
  intros Ht Hv Hne. rewrite IsEOF_eof by done. apply bool_decide_eq_false. intros E. apply Hne. rewrite <- E.
  rewrite be_val_bytes, Z2Nat.id, Z.mod_small; [done|exact Hv|by destruct type].
Qed.

Lemma cut_inside data at_ n : 0 <= at_ < 2 ^ 32 -> 0 <= n -> at_ + n <= Z.of_nat (length data) -> Z.of_nat (length data) < 2 ^ 32 ->
  cut data at_ n = n.
Proof. intros. unfold cut. rewrite to_u32_id by (unfold is_u32; lia). by rewrite (proj2 (Z.ltb_ge _ _)) by lia. Qed.

Section Loop.
Context {F : Type} `{HT : Trimming F good}.

(** A request for octets that follow what was read. *)
Lemma read_next (f : F) (c pre mid post data : list Z) (len offset : Z) : good f c -> c = pre ++ mid ++ post ->
  offset = Z.of_nat (length pre) -> len = Z.of_nat (length mid) -> length data = length mid ->
  exists f', Read f data len offset = (f', mid, len) /\ good f' c.
Proof.
  intros Hg -> -> -> Hd. destruct (trim_size _ _ Hg) as [_ H64]. rewrite !length_app in H64.
  destruct (trim_read f _ data (Z.of_nat (length mid)) (Z.of_nat (length pre)) Hg) as (f' & E & Hg');
    [lia|lia|rewrite !length_app; lia|].
  rewrite !length_app in E. rewrite Z.min_l, part_exact in E by (done || lia).
  exists f'. split; [|done]. rewrite E. unfold store. by rewrite drop_ge, app_nil_r by lia.
Qed.

Lemma read_u16_next (f : F) c pre v post offset : good f c -> c = pre ++ be_bytes 2 v ++ post ->
  offset = Z.of_nat (length pre) -> 0 <= v < 2 ^ 16 -> exists f', read_u16 f offset = (f', Some v) /\ good f' c.
Proof.
  intros Hg Hc Ho Hv. destruct (read_next f c pre _ post [0; 0] 2 offset Hg Hc Ho) as (f' & E & Hg'); [done..|].
  exists f'. split; [|done]. unfold read_u16. rewrite E. cbn [Z.eqb Pos.eqb]. rewrite be_val_bytes, Z.mod_small; done.
Qed.

Lemma read_byte_next (f : F) c pre b post offset : good f c -> c = pre ++ [b] ++ post ->
  offset = Z.of_nat (length pre) -> exists f', ReadByte f offset = (f', Some b) /\ good f' c.
Proof.
  intros Hg Hc Ho. destruct (read_next f c pre _ post [0] 1 offset Hg Hc Ho) as (f' & E & Hg'); [done..|].
  exists f'. split; [|done]. unfold ReadByte. by rewrite E.
Qed.

Lemma write_record data r : 0 <= record_at r -> record_at r + Z.of_nat (length (record_octets r)) <= Z.of_nat (length data) ->
  write_at data (record_at r) (record_octets r) = Some (apply_record data r).
Proof. intros H0 H1. unfold write_at. by rewrite (proj2 (Z.leb_le _ _)) by lia. Qed.

(** The two kinds of record, from the octets that follow the first size. *)
Lemma rle_record_applies (f : F) type c pre a n b post data : good f c -> c = pre ++ (be_bytes 2 n ++ [b]) ++ post ->
  fits type (Z.of_nat (length data)) (Rle a n b) -> a < 2 ^ 32 -> Z.of_nat (length data) < 2 ^ 32 ->
  exists f', rle_record f a (Z.of_nat (length pre)) data
    = (f', Some (Some (apply_record data (Rle a n b), Z.of_nat (length pre) + 3))) /\ good f' c.
Proof.
  intros Hg -> [Ha [_ Hs] Hn He] Ha32 Hd. cbn in Ha, Hs, Hn, He. rewrite length_replicate in Hs, He.
  unfold rle_record. destruct (read_u16_next f _ pre n ([b] ++ post) (Z.of_nat (length pre)) Hg) as (f1 & -> & Hg1); [by rewrite <- app_assoc|done|lia|].
  destruct (read_byte_next f1 _ (pre ++ be_bytes 2 n) b post (Z.of_nat (length pre) + 2) Hg1) as (f2 & -> & Hg2);
    [by rewrite <- !app_assoc|rewrite length_app, length_be_bytes; lia|].
  rewrite cut_inside by lia. exists f2. split; [|done].
  pose proof (write_record data (Rle a n b)) as Hw. cbn in Hw. rewrite length_replicate in Hw. by rewrite Hw by lia.
Qed.

Lemma data_record_applies (f : F) type c pre a l post data : good f c -> c = pre ++ l ++ post ->
  fits type (Z.of_nat (length data)) (Data a l) -> a < 2 ^ 32 -> Z.of_nat (length data) < 2 ^ 32 ->
  exists f', data_record f a (Z.of_nat (length l)) (Z.of_nat (length pre)) data
    = (f', Some (Some (apply_record data (Data a l), Z.of_nat (length pre) + Z.of_nat (length l)))) /\ good f' c.
Proof.
  intros Hg Hc [Ha [_ Hs] _ He] Ha32 Hd. cbn in Ha, Hs, He. unfold data_record.
  rewrite cut_inside by lia. rewrite Nat2Z.id.
  destruct (read_next f c pre l post (replicate (length l) 0) (Z.of_nat (length l)) (Z.of_nat (length pre)) Hg Hc) as (f1 & -> & Hg1);
    [done|done|apply length_replicate|].
  rewrite Nat2Z.id, take_ge, Z.eqb_refl by lia. exists f1. split; [|done].
  pose proof (write_record data (Data a l)) as Hw. cbn in Hw. by rewrite Hw by lia.
Qed.
Lemma length_octets type size r : fits type size r -> record_at r < 2 ^ 32.
Proof. intros [Ha _ _ _]. destruct type; cbn in Ha; lia. Qed.

Lemma read_record_applies (f : F) type c pre r post data : good f c -> c = pre ++ encode_rest r ++ post ->
  fits type (Z.of_nat (length data)) r -> Z.of_nat (length data) < 2 ^ 32 ->
  exists f', read_record f (record_at r) (Z.of_nat (length pre)) data
    = (f', Some (Some (apply_record data r, Z.of_nat (length (pre ++ encode_rest r))))) /\ good f' c.
Proof.
  intros Hg Hc Hf Hd. pose proof (length_octets _ _ _ Hf) as H32. pose proof Hf as [_ [Hl Hs] _ _]. unfold read_record.
  rewrite length_app. destruct r as [a l|a n b]; cbn [record_at record_octets] in Hl, Hs, H32 |- *; unfold encode_rest in *.
  - destruct (read_u16_next f c pre (Z.of_nat (length l)) (l ++ post) (Z.of_nat (length pre)) Hg) as (f1 & -> & Hg1);
      [by rewrite Hc, <- app_assoc|done|lia|].
    rewrite (proj2 (Z.eqb_neq _ 0)) by (destruct l; [done|cbn; lia]).
    destruct (data_record_applies f1 type c (pre ++ be_bytes 2 (Z.of_nat (length l))) a l post data Hg1) as (f2 & E & Hg2);
      [by rewrite Hc, <- !app_assoc|done..|].
    rewrite length_app, length_be_bytes, Nat2Z.inj_add in E. exists f2. split; [|done]. change 2 with (Z.of_nat 2).
    rewrite E, length_app, length_be_bytes. do 4 f_equal. lia.
  - destruct (read_u16_next f c pre 0 ((be_bytes 2 n ++ [b]) ++ post) (Z.of_nat (length pre)) Hg) as (f1 & -> & Hg1);
      [by rewrite Hc, <- !app_assoc|done|done|]. cbn [Z.eqb].
    destruct (rle_record_applies f1 type c (pre ++ be_bytes 2 0) a n b post data Hg1) as (f2 & E & Hg2);
      [by rewrite Hc, <- !app_assoc|done..|].
    rewrite length_app, length_be_bytes, Nat2Z.inj_add in E. exists f2. split; [|done]. change 2 with (Z.of_nat 2).
    rewrite E, !length_app, !length_be_bytes. do 4 f_equal. cbn [length]. lia.
Qed.

(** One turn of the loop at a record, and at the mark of the end. *)
Lemma patch_loop_record fuel type (f : F) c pre r post temp data :
  type <> Error -> good f c -> c = pre ++ encode_record type r ++ post -> length temp = Z.to_nat (offset_size type) ->
  fits type (Z.of_nat (length data)) r -> record_at r <> be_val (eof_of type) -> Z.of_nat (length data) < 2 ^ 32 ->
  exists f' temp', good f' c /\ length temp' = Z.to_nat (offset_size type)
    /\ patch_loop (S fuel) type f temp (Z.of_nat (length pre)) data
       = patch_loop fuel type f' temp' (Z.of_nat (length (pre ++ encode_record type r))) (apply_record data r).
Proof.
  intros Ht Hg Hc Hl Hf Hne Hd. pose proof Hf as [Ha _ _ _]. assert (0 <= offset_size type) as Ho by (by destruct type).
  unfold encode_record in *. set (o := be_bytes (Z.to_nat (offset_size type)) (record_at r)) in *.
  assert (length o = Z.to_nat (offset_size type)) as Hlo by apply length_be_bytes.
  destruct (read_next f c pre o (encode_rest r ++ post) temp (offset_size type) (Z.of_nat (length pre)) Hg) as (f1 & E1 & Hg1);
    [by rewrite Hc, <- app_assoc|done|lia|lia|].
  destruct (read_record_applies f1 type c (pre ++ o) r post data Hg1) as (f2 & E2 & Hg2); [by rewrite Hc, <- !app_assoc|done..|].
  exists f2, o. split; [done|]. split; [done|]. cbn [patch_loop]. rewrite E1, Z.eqb_refl. cbn [negb]. subst o.
  rewrite be_bytes_not_eof, real_offset_be by done.
  rewrite length_app, length_be_bytes, Nat2Z.inj_add, Z2Nat.id in E2 by done. by rewrite E2, <- app_assoc.
Qed.

Lemma patch_loop_eof fuel type (f : F) c pre post temp data :
  type <> Error -> good f c -> c = pre ++ eof_of type ++ post -> length temp = Z.to_nat (offset_size type) ->
  patch_loop (S fuel) type f temp (Z.of_nat (length pre)) data = Some (Patched data).
Proof.
  intros Ht Hg Hc Hl.
  destruct (read_next f c pre (eof_of type) post temp (offset_size type) (Z.of_nat (length pre)) Hg Hc) as (f1 & E1 & _);
    [done|by destruct type|rewrite Hl; by destruct type|].
  cbn [patch_loop]. rewrite E1, Z.eqb_refl. cbn [negb]. by rewrite IsEOF_eof, bool_decide_true.
Qed.

Lemma mark_bytes type : type <> Error -> be_bytes (Z.to_nat (offset_size type)) (be_val (eof_of type)) = eof_of type.
Proof. by destruct type. Qed.

Lemma patch_loop_applies type c post : type <> Error -> forall rs fuel (f : F) pre temp data,
  good f c -> c = pre ++ flat_map (encode_record type) rs ++ eof_of type ++ post ->
  length temp = Z.to_nat (offset_size type) -> Forall (fits type (Z.of_nat (length data))) rs ->
  Z.of_nat (length data) < 2 ^ 32 -> (length rs < fuel)%nat ->
  patch_loop fuel type f temp (Z.of_nat (length pre)) data = Some (Patched (foldl apply_record data (before_mark type rs))).
Proof.
  intros Ht. induction rs as [|r rs IH]; intros fuel f pre temp data Hg Hc Hl Hf Hd Hfuel;
    (destruct fuel as [|fuel]; [cbn in Hfuel; lia|]).
  - by apply patch_loop_eof with c post.
  - apply Forall_cons in Hf as [Hr Hf]. cbn [flat_map before_mark] in Hc |- *. rewrite <- app_assoc in Hc.
    destruct (Z.eqb_spec (record_at r) (be_val (eof_of type))) as [Em|Em].
    { unfold encode_record at 1 in Hc. rewrite Em, mark_bytes, <- app_assoc in Hc by done. by eapply patch_loop_eof. }
    destruct (patch_loop_record fuel type f c pre r _ temp data Ht Hg Hc Hl Hr Em Hd) as (f' & temp' & Hg' & Hl' & ->).
    pose proof Hr as [Ha _ _ He]. assert (length (apply_record data r) = length data) as Hla by (apply length_apply; lia).
    cbn [foldl]. apply IH; [done|by rewrite <- app_assoc|done|by rewrite Hla|by rewrite Hla|cbn in Hfuel; lia].
Qed.
End Loop.

(** There are fewer records than octets. *)
Lemma length_records type rs : (length rs <= length (flat_map (encode_record type) rs))%nat.
Proof.
  induction rs as [|r rs IH]; [done|]. cbn [flat_map length]. rewrite length_app. unfold encode_record at 1.
  rewrite length_app, length_be_bytes. assert (3 <= offset_size type) by (by destruct type). lia.
Qed.

Lemma magic_known type : type <> Error -> IdentifyMagic (magic_of type) = type.
Proof. by destruct type. Qed.

(** C32: [PatchIPS] applies a patch: for every list of records that lie in the
    data, those of the first kind with at least one octet, the image of the
    patch (magic, records, the mark of the end, and whatever follows) is
    accepted and the result is the data with the octets of the records, in
    order, for both kinds of record and both formats, over any virtual files and
    data below 4 GB.  A record whose offset reads as the mark of the end (0x454F46
    or 0x45454F46) ends the patch: it and the records after it are not applied. *)
Theorem ips_applies_records {F} `{HT : Trimming F good} {D} `{HTD : Trimming D goodD}
    (ips : F) (in_ : D) (type : IPSFileType) (data post : list Z) (rs : list Record) :
  type <> Error -> good ips (encode type rs ++ post) -> goodD in_ data -> Z.of_nat (length data) < 2 ^ 32 ->
  Forall (fits type (Z.of_nat (length data))) rs ->
  PatchIPS in_ ips = Some (Patched (foldl apply_record data (before_mark type rs))).
Proof.
  intros Ht Hg HgD Hd Hf. destruct (trim_size _ _ Hg) as [Hsz H64]. destruct (trim_size _ _ HgD) as [HszD _].
  unfold PatchIPS, ReadAllBytes. rewrite HszD. set (c := encode type rs ++ post) in *.
  assert (c = magic_of type ++ flat_map (encode_record type) rs ++ eof_of type ++ post) as Hc
    by (unfold c, encode; by rewrite <- !app_assoc).
  assert (length (magic_of type) = 5%nat) as Hm by (by destruct type).
  destruct (trim_read_bytes ips c 5 0 Hg) as (f1 & E1 & Hg1); [lia|lia|].
  destruct (trim_read_bytes in_ data (Z.of_nat (length data)) 0 HgD) as (d1 & E2 & _); [lia|lia|].
  rewrite E1, E2. rewrite Z.min_l, Hc by (rewrite Hc, length_app, Hm; lia).
  pose proof (part_exact [] (magic_of type) (flat_map (encode_record type) rs ++ eof_of type ++ post) 0 5) as Hp.
  cbn [app] in Hp. rewrite Hp, magic_known by (done || by rewrite Hm).
  assert (part data 0 (Z.min (Z.of_nat (length data)) (Z.of_nat (length data) - 0)) = data) as ->
    by (unfold part; rewrite drop_0; apply take_ge; lia).
  destruct (trim_size _ _ Hg1) as [-> _].
  assert (patch_loop (S (Z.to_nat (Z.of_nat (length c)))) type f1 (replicate (Z.to_nat (offset_size type)) 0)
    (Z.of_nat (length (magic_of type))) data = Some (Patched (foldl apply_record data (before_mark type rs)))) as E.
  { apply (patch_loop_applies type c post Ht); [done|done|apply length_replicate|done|done|].
    pose proof (length_records type rs). rewrite Hc, !length_app. lia. }
  rewrite Hm in E. by destruct type.
Qed.

(** A patch of both kinds of record on eight octets, over vectors. *)
Definition sample_records : list Record := [Data 1 [10; 11]; Rle 5 3 9].
Definition sample_in : VectorVfs.VectorVfsFile := {| VectorVfs.data := [0; 1; 2; 3; 4; 5; 6; 7] |}.
Definition vector_of (c : list Z) : VectorVfs.VectorVfsFile := {| VectorVfs.data := c |}.

Lemma sample_fits : Forall (fits IPS32 8) sample_records.
Proof.
  do 2 (apply Forall_cons; split; [split; [cbn; lia|split; [done|vm_compute; reflexivity]|done|vm_compute; discriminate]|]).
  apply Forall_nil_2.
Qed.

Lemma ips_applies_records_witness :
  Forall (fits IPS32 8) sample_records
  /\ PatchIPS sample_in (vector_of (encode IPS32 sample_records ++ [255])) = Some (Patched [0; 10; 11; 3; 4; 9; 9; 9]).
Proof.
  split; [exact sample_fits|].
  apply (ips_applies_records (good := vector_good) (goodD := vector_good)
    (vector_of (encode IPS32 sample_records ++ [255])) sample_in IPS32 [0; 1; 2; 3; 4; 5; 6; 7] [255] sample_records);
    [discriminate|split; [reflexivity|vm_compute; reflexivity]|split; [reflexivity|vm_compute; reflexivity]|vm_compute; reflexivity
    |exact sample_fits].
Defined.

(** ** Records outside of the data *)

(** A record whose offset lies past the end of the data: the size is cut to a
    difference that has wrapped around, and the run is written outside. *)
Lemma ips_offset_past_the_end :
  cut [0; 1; 2; 3; 4; 5; 6; 7] 16 1 = 65528
  /\ PatchIPS sample_in (vector_of (encode IPS [Rle 16 1 9])) = None.
Proof. by vm_compute. Qed.

(** Of two records that cross the end of the data by one octet, the run is cut
    and the other makes the patch fail. *)
Lemma ips_crossing_records :
  PatchIPS sample_in (vector_of (encode IPS [Rle 6 3 9])) = Some (Patched [0; 1; 2; 3; 4; 5; 9; 9])
  /\ PatchIPS sample_in (vector_of (encode IPS [Data 6 [9; 9; 9]])) = Some Null.
Proof. by vm_compute. Qed.

(** A patch that stops before the mark of the end is rejected. *)
Lemma ips_truncated :
  map (fun n => PatchIPS sample_in (vector_of (take n (encode IPS sample_records)))) (seq 0 (length (encode IPS sample_records)))
  = replicate (length (encode IPS sample_records)) (Some Null).
Proof. by vm_compute. Qed.

(** ** The mark of the end *)

(** A record at the offset that reads as the mark is not applied, nor is what
    follows. *)
Lemma ips_record_at_mark :
  be_val (eof_of IPS) = 0x454F46
  /\ PatchIPS sample_in (vector_of (encode IPS [Data 1 [10]; Data 0x454F46 [11]; Data 2 [12]])) = Some (Patched [0; 10; 2; 3; 4; 5; 6; 7]).
Proof. by vm_compute. Qed.
