(* ===== verification/Scheduler.v ===== *)
(** * The global scheduler

    [GlobalScheduler] ([src/src/core/hle/kernel/scheduler.cpp]) and the
    operations of [Thread] ([src/src/core/hle/kernel/thread.cpp]) that change
    where a thread is queued: a multi-level queue of scheduled threads and one
    of suggested threads per core.  A thread is named by its address; of its
    fields the ones that matter for scheduling are kept here, the ones for
    mutexes in [Mutex].  The operations run under the scheduler lock.  The
    assertions of this program only log.  [None]: an access outside of a
    container, a null pointer, an undefined shift or spent fuel. *)

From S2P Require Import Prelude BitUtil MultiLevelQueue KernelObject.
From stdpp Require Import base list gmap.
Open Scope Z_scope.
Open Scope c_scope.

#[local] Abbreviation MultiLevelQueue := Mlq.MultiLevelQueue.

Module Sched.

(** ** Threads *)

Inductive ThreadStatus :=
  | Running | Ready | Paused | WaitHLEEvent | WaitSleep | WaitIPC | WaitSynch | WaitMutex | WaitCondVar | WaitArb
  | Dormant | Dead.
#[export] Instance ThreadStatus_eq_dec : EqDecision ThreadStatus.
Proof. solve_decision. Defined.

(** [ThreadSchedStatus], [ThreadSchedFlags] and [ThreadSchedMasks]. *)
Definition SchedStatus_None : Z := 0.
Definition SchedStatus_Paused : Z := 1.
Definition SchedStatus_Runnable : Z := 2.
Definition SchedStatus_Exited : Z := 3.
Definition ThreadPauseFlag : Z := 1 << 5.
Definition LowMask : Z := 0x000F.
Definition HighMask : Z := 0xFFF0.

Definition THREADPRIO_MAX_CORE_MIGRATION : Z := 2.
Definition THREADPRIO_COUNT : Z := 64.
Definition THREADPROCESSORID_DONT_UPDATE : Z := -3.
Definition min_regular_priority : Z := 2.

Record Thread := {
  current_priority : Z;
  status : ThreadStatus;
  scheduling_state : Z;
  pausing_state : Z;
  processor_id : Z;
  ideal_core : Z;
  affinity_mask : Z;
  ideal_core_override : Z;
  affinity_mask_override : Z;
  affinity_override_count : Z;
  last_running_ticks : Z;
  yield_count : Z;
  will_be_terminated : bool
}.

Definition with_priority (t : Thread) (p : Z) : Thread :=
  {| current_priority := p; status := status t; scheduling_state := scheduling_state t; pausing_state := pausing_state t;
     processor_id := processor_id t; ideal_core := ideal_core t; affinity_mask := affinity_mask t;
     ideal_core_override := ideal_core_override t; affinity_mask_override := affinity_mask_override t;
     affinity_override_count := affinity_override_count t; last_running_ticks := last_running_ticks t;
     yield_count := yield_count t; will_be_terminated := will_be_terminated t |}.
Definition with_status (t : Thread) (st : ThreadStatus) : Thread :=
  {| current_priority := current_priority t; status := st; scheduling_state := scheduling_state t;
     pausing_state := pausing_state t; processor_id := processor_id t; ideal_core := ideal_core t;
     affinity_mask := affinity_mask t; ideal_core_override := ideal_core_override t;
     affinity_mask_override := affinity_mask_override t; affinity_override_count := affinity_override_count t;
     last_running_ticks := last_running_ticks t; yield_count := yield_count t; will_be_terminated := will_be_terminated t |}.
Definition with_states (t : Thread) (scheduling pausing : Z) : Thread :=
  {| current_priority := current_priority t; status := status t; scheduling_state := scheduling; pausing_state := pausing;
     processor_id := processor_id t; ideal_core := ideal_core t; affinity_mask := affinity_mask t;
     ideal_core_override := ideal_core_override t; affinity_mask_override := affinity_mask_override t;
     affinity_override_count := affinity_override_count t; last_running_ticks := last_running_ticks t;
     yield_count := yield_count t; will_be_terminated := will_be_terminated t |}.
Definition with_core (t : Thread) (pid ideal mask : Z) : Thread :=
  {| current_priority := current_priority t; status := status t; scheduling_state := scheduling_state t;
     pausing_state := pausing_state t; processor_id := pid; ideal_core := ideal; affinity_mask := mask;
     ideal_core_override := ideal_core_override t; affinity_mask_override := affinity_mask_override t;
     affinity_override_count := affinity_override_count t; last_running_ticks := last_running_ticks t;
     yield_count := yield_count t; will_be_terminated := will_be_terminated t |}.
Definition with_override (t : Thread) (core mask : Z) : Thread :=
  {| current_priority := current_priority t; status := status t; scheduling_state := scheduling_state t;
     pausing_state := pausing_state t; processor_id := processor_id t; ideal_core := ideal_core t;
     affinity_mask := affinity_mask t; ideal_core_override := core; affinity_mask_override := mask;
     affinity_override_count := affinity_override_count t; last_running_ticks := last_running_ticks t;
     yield_count := yield_count t; will_be_terminated := will_be_terminated t |}.
Definition with_yield_count (t : Thread) (n : Z) : Thread :=
  {| current_priority := current_priority t; status := status t; scheduling_state := scheduling_state t;
     pausing_state := pausing_state t; processor_id := processor_id t; ideal_core := ideal_core t;
     affinity_mask := affinity_mask t; ideal_core_override := ideal_core_override t;
     affinity_mask_override := affinity_mask_override t; affinity_override_count := affinity_override_count t;
     last_running_ticks := last_running_ticks t; yield_count := n; will_be_terminated := will_be_terminated t |}.
Definition SetProcessorID (t : Thread) (pid : Z) : Thread := with_core t pid (ideal_core t) (affinity_mask t).

Definition GetSchedulingStatus (t : Thread) : Z := scheduling_state t .& LowMask.
Definition IsRunnable (t : Thread) : bool := scheduling_state t =? SchedStatus_Runnable.
Definition IsPendingTermination (t : Thread) : bool := will_be_terminated t || (GetSchedulingStatus t =? SchedStatus_Exited).

(** [((mask >> core) & 1) != 0]. *)
Definition allows (mask core : Z) : bool := negb ((mask >> core) .& 1 =? 0).

(** ** The queues *)

Record GlobalScheduler := {
  threads : gmap Z Thread;
  scheduled_queue : list (MultiLevelQueue Z);
  suggested_queue : list (MultiLevelQueue Z);
  is_reselection_pending : bool
}.

Definition with_threads (s : GlobalScheduler) (m : gmap Z Thread) : GlobalScheduler :=
  {| threads := m; scheduled_queue := scheduled_queue s; suggested_queue := suggested_queue s;
     is_reselection_pending := is_reselection_pending s |}.
Definition set_thread (s : GlobalScheduler) (t : Z) (th : Thread) : GlobalScheduler := with_threads s (<[t := th]> (threads s)).
Definition with_scheduled (s : GlobalScheduler) (l : list (MultiLevelQueue Z)) : GlobalScheduler :=
  {| threads := threads s; scheduled_queue := l; suggested_queue := suggested_queue s;
     is_reselection_pending := is_reselection_pending s |}.
Definition with_suggested (s : GlobalScheduler) (l : list (MultiLevelQueue Z)) : GlobalScheduler :=
  {| threads := threads s; scheduled_queue := scheduled_queue s; suggested_queue := l;
     is_reselection_pending := is_reselection_pending s |}.
Definition SetReselectionPending (s : GlobalScheduler) : GlobalScheduler :=
  {| threads := threads s; scheduled_queue := scheduled_queue s; suggested_queue := suggested_queue s;
     is_reselection_pending := true |}.

Definition on_scheduled (s : GlobalScheduler) (core : Z) (f : MultiLevelQueue Z -> MultiLevelQueue Z) : option GlobalScheduler :=
  q ← scheduled_queue s !! Z.to_nat core; Some (with_scheduled s (<[Z.to_nat core := f q]> (scheduled_queue s))).
Definition on_suggested (s : GlobalScheduler) (core : Z) (f : MultiLevelQueue Z -> MultiLevelQueue Z) : option GlobalScheduler :=
  q ← suggested_queue s !! Z.to_nat core; Some (with_suggested s (<[Z.to_nat core := f q]> (suggested_queue s))).

Definition Suggest (priority core t : Z) (s : GlobalScheduler) : option GlobalScheduler :=
  on_suggested s core (fun q => Mlq.add q t priority true).
Definition Unsuggest (priority core t : Z) (s : GlobalScheduler) : option GlobalScheduler :=
  on_suggested s core (fun q => Mlq.remove q t priority).
Definition Schedule (priority core t : Z) (s : GlobalScheduler) : option GlobalScheduler :=
  on_scheduled s core (fun q => Mlq.add q t priority true).
Definition SchedulePrepend (priority core t : Z) (s : GlobalScheduler) : option GlobalScheduler :=
  on_scheduled s core (fun q => Mlq.add q t priority false).
Definition Reschedule (priority core t : Z) (s : GlobalScheduler) : option GlobalScheduler :=
  on_scheduled s core (fun q => Mlq.add (Mlq.remove q t priority) t priority true).
Definition Unschedule (priority core t : Z) (s : GlobalScheduler) : option GlobalScheduler :=
  on_scheduled s core (fun q => Mlq.remove q t priority).

Definition when (b : bool) (f : GlobalScheduler -> option GlobalScheduler) (s : GlobalScheduler) : option GlobalScheduler :=
  if b then f s else Some s.

(** [for (core = 0; core < NUM_CPU_CORES; core++)]. *)
Definition for_cores (f : Z -> GlobalScheduler -> option GlobalScheduler) (s : GlobalScheduler) : option GlobalScheduler :=
  s ← f 0 s; s ← f 1 s; s ← f 2 s; f 3 s.

Definition IncrementYieldCount (s : GlobalScheduler) (t : Z) : option GlobalScheduler :=
  th ← threads s !! t; Some (set_thread s t (with_yield_count th (to_u64 (yield_count th + 1)))).

Definition TransferToCore (priority destination_core t : Z) (s : GlobalScheduler) : option GlobalScheduler :=
  th ← threads s !! t;
  let schedulable := current_priority th <? THREADPRIO_COUNT in
  let source_core := processor_id th in
  if (source_core =? destination_core) || negb schedulable then Some s
  else
    let s := set_thread s t (SetProcessorID th destination_core) in
    s ← when (0 <=? source_core) (Unschedule priority source_core t) s;
    s ← when (0 <=? destination_core) (fun s => s ← Unsuggest priority destination_core t s; Schedule priority destination_core t s) s;
    when (0 <=? source_core) (Suggest priority source_core t) s.

(** ** Construction *)

Definition GlobalScheduler_new : GlobalScheduler :=
  {| threads := ∅; scheduled_queue := replicate 4 (Mlq.MultiLevelQueue_new 64);
     suggested_queue := replicate 4 (Mlq.MultiLevelQueue_new 64); is_reselection_pending := false |}.

Definition THREADPRIO_LOWEST : Z := 63.
Definition THREADPROCESSORID_MAX : Z := 4.

(** The scheduling fields of [Thread::Create] for a thread that is not an idle
    thread, or the error. *)
Definition Create (priority processor_id : Z) : Thread + Z :=
  if THREADPRIO_LOWEST <? priority then inr ERR_INVALID_THREAD_PRIORITY
  else if THREADPROCESSORID_MAX <? processor_id then inr ERR_INVALID_PROCESSOR_ID
  else inl
    {| current_priority := priority; status := Dormant; scheduling_state := 0; pausing_state := 0;
       processor_id := processor_id; ideal_core := processor_id; affinity_mask := to_u64 (1 << processor_id);
       ideal_core_override := -1; affinity_mask_override := 1; affinity_override_count := 0;
       last_running_ticks := 0; yield_count := 0; will_be_terminated := false |}.

(** ** Changes of a thread *)

(** The cores that the thread is not assigned to and may run on. *)
Definition suggestible (th : Thread) (core : Z) : bool :=
  negb (core =? to_u32 (processor_id th)) && allows (affinity_mask th) core.

Definition AdjustSchedulingOnStatus (s : GlobalScheduler) (t old_flags : Z) : option GlobalScheduler :=
  th ← threads s !! t;
  if old_flags =? scheduling_state th then Some s
  else
    let p := current_priority th in
    s ← (if old_flags =? SchedStatus_Runnable then
           s ← when (0 <=? processor_id th) (Unschedule p (processor_id th) t) s;
           for_cores (fun core => when (suggestible th core) (Unsuggest p core t)) s
         else if scheduling_state th =? SchedStatus_Runnable then
           s ← when (0 <=? processor_id th) (Schedule p (processor_id th) t) s;
           for_cores (fun core => when (suggestible th core) (Suggest p core t)) s
         else Some s);
    Some (SetReselectionPending s).

(** [current]: the thread that runs on the core that executes this. *)
Definition AdjustSchedulingOnPriority (current : Z) (s : GlobalScheduler) (t old_priority : Z) : option GlobalScheduler :=
  th ← threads s !! t;
  if negb (scheduling_state th =? SchedStatus_Runnable) then Some s
  else
    let p := current_priority th in
    s ← when (0 <=? processor_id th) (Unschedule old_priority (processor_id th) t) s;
    s ← for_cores (fun core => when (suggestible th core) (Unsuggest old_priority core t)) s;
    s ← when (0 <=? processor_id th)
          (if t =? current then SchedulePrepend p (processor_id th) t else Schedule p (processor_id th) t) s;
    s ← for_cores (fun core => when (suggestible th core) (Suggest p core t)) s;
    s ← IncrementYieldCount s t;
    Some (SetReselectionPending s).

Definition AdjustSchedulingOnAffinity (s : GlobalScheduler) (t old_affinity_mask old_core : Z) : option GlobalScheduler :=
  th ← threads s !! t;
  if negb (scheduling_state th =? SchedStatus_Runnable) || (THREADPRIO_COUNT <=? current_priority th) then Some s
  else
    let p := current_priority th in
    s ← for_cores (fun core => when (allows old_affinity_mask core)
          (if core =? to_u32 old_core then Unschedule p core t else Unsuggest p core t)) s;
    s ← for_cores (fun core => when (allows (affinity_mask th) core)
          (if core =? to_u32 (processor_id th) then Schedule p core t else Suggest p core t)) s;
    s ← IncrementYieldCount s t;
    Some (SetReselectionPending s).

Definition SetSchedulingStatus (s : GlobalScheduler) (t new_status : Z) : option GlobalScheduler :=
  th ← threads s !! t;
  AdjustSchedulingOnStatus (set_thread s t (with_states th ((scheduling_state th .& HighMask) .| new_status) (pausing_state th)))
    t (scheduling_state th).

Definition sched_status_of (st : ThreadStatus) : Z :=
  match st with
  | Ready | Running => SchedStatus_Runnable
  | Dormant => SchedStatus_None
  | Dead => SchedStatus_Exited
  | _ => SchedStatus_Paused
  end.
Definition SetStatus (s : GlobalScheduler) (t : Z) (new_status : ThreadStatus) : option GlobalScheduler :=
  th ← threads s !! t;
  if decide (new_status = status th) then Some s
  else
    s ← SetSchedulingStatus s t (sched_status_of new_status);
    th ← threads s !! t;
    Some (set_thread s t (with_status th new_status)).

(** The waiting threads, and the ones not yet started, become ready. *)
Definition ResumeFromWait (s : GlobalScheduler) (t : Z) : option GlobalScheduler :=
  th ← threads s !! t;
  match status th with
  | Ready | Running | Dead => Some s
  | _ => SetStatus s t Ready
  end.
Definition OnWakeUp (s : GlobalScheduler) (t : Z) : option GlobalScheduler := SetStatus s t Ready.
Definition Start (s : GlobalScheduler) (t : Z) : option GlobalScheduler := SetStatus s t Ready.

Definition AddSchedulingFlag (s : GlobalScheduler) (t flag : Z) : option GlobalScheduler :=
  th ← threads s !! t;
  let pausing := pausing_state th .| flag in
  AdjustSchedulingOnStatus (set_thread s t (with_states th (GetSchedulingStatus th .| pausing) pausing)) t (scheduling_state th).
Definition RemoveSchedulingFlag (s : GlobalScheduler) (t flag : Z) : option GlobalScheduler :=
  th ← threads s !! t;
  let pausing := pausing_state th .& (0xFFFFFFFF .^ flag) in
  AdjustSchedulingOnStatus (set_thread s t (with_states th (GetSchedulingStatus th .| pausing) pausing)) t (scheduling_state th).

Definition SetActivity (s : GlobalScheduler) (t : Z) (pause : bool) : option (GlobalScheduler * Z) :=
  th ← threads s !! t;
  let st := GetSchedulingStatus th in
  if negb (st =? SchedStatus_Runnable) && negb (st =? SchedStatus_Paused) then Some (s, ERR_INVALID_STATE)
  else if IsPendingTermination th then Some (s, RESULT_SUCCESS)
  else if pause then
    if negb (pausing_state th .& ThreadPauseFlag =? 0) then Some (s, ERR_INVALID_STATE)
    else s ← AddSchedulingFlag s t ThreadPauseFlag; Some (s, RESULT_SUCCESS)
  else if pausing_state th .& ThreadPauseFlag =? 0 then Some (s, ERR_INVALID_STATE)
  else s ← RemoveSchedulingFlag s t ThreadPauseFlag; Some (s, RESULT_SUCCESS).

Definition SetCurrentPriority (current : Z) (s : GlobalScheduler) (t new_priority : Z) : option GlobalScheduler :=
  th ← threads s !! t;
  AdjustSchedulingOnPriority current (set_thread s t (with_priority th new_priority)) t (current_priority th).

(** [HighestSetCore( mask, NUM_CPU_CORES )]. *)
Definition HighestSetCore (mask : Z) : Z :=
  if allows mask 3 then 3 else if allows mask 2 then 2 else if allows mask 1 then 1 else if allows mask 0 then 0 else -1.

Definition SetCoreAndAffinityMask (s : GlobalScheduler) (t new_core new_affinity_mask : Z) : option (GlobalScheduler * Z) :=
  th ← threads s !! t;
  let use_override := negb (affinity_override_count th =? 0) in
  let update := new_core =? THREADPROCESSORID_DONT_UPDATE in
  let new_core := if update then (if use_override then ideal_core_override th else ideal_core th) else new_core in
  refuse ← (if update then bit ← shl1 new_core; Some (new_affinity_mask .& bit =? 0) else Some false);
  if refuse : bool then Some (s, ERR_INVALID_COMBINATION)
  else if use_override then Some (set_thread s t (with_override th new_core new_affinity_mask), RESULT_SUCCESS)
  else
    let old_affinity_mask := affinity_mask th in
    let old_core := processor_id th in
    let pid :=
      if old_affinity_mask =? new_affinity_mask then old_core
      else if (0 <=? old_core) && negb (allows new_affinity_mask old_core)
           then (if new_core <? 0 then HighestSetCore new_affinity_mask else new_core)
           else old_core in
    let s := set_thread s t (with_core th pid new_core new_affinity_mask) in
    s ← (if old_affinity_mask =? new_affinity_mask then Some s
         else AdjustSchedulingOnAffinity s t old_affinity_mask old_core);
    Some (s, RESULT_SUCCESS).

(** ** Loops over a queue *)

(** [for (auto& thread : queue)]: [f] goes on with a new accumulator or stops
    with a result.  [early]: the iterator moves before the body. *)
Fixpoint scan {A R} (early : bool) (fuel : nat) (q : MultiLevelQueue Z) (i : Mlq.iterator)
    (f : A -> Z -> option (A + R)) (acc : A) : option (A + R) :=
  if Mlq.IsEnd 64 i then Some (inl acc)
  else
    match fuel with
    | O => None
    | S fuel =>
        t ← Mlq.deref q i;
        _ ← (if early then Mlq.incr 64 q i else Some i);
        r ← f acc t;
        match r with
        | inr r => Some (inr r)
        | inl acc => i ← Mlq.incr 64 q i; scan early fuel q i f acc
        end
    end.
Definition scan_queue {A R} (early : bool) (q : MultiLevelQueue Z) (f : A -> Z -> option (A + R)) (acc : A) : option (A + R) :=
  scan early (S (length (concat (Mlq.levels q)))) q (Mlq.cbegin 64 q 0) f acc.

(** [queue.empty() ? nullptr : queue.front()]. *)
Definition top (q : MultiLevelQueue Z) : option Z := if Mlq.empty q then None else Mlq.front 64 q 0.
Definition top_of (s : GlobalScheduler) (core : Z) : option (option Z) := q ← scheduled_queue s !! Z.to_nat core; Some (top q).
Definition tops (s : GlobalScheduler) : list (option Z) := map top (scheduled_queue s).

(** The priority of a thread that may be null is below [bound]. *)
Definition above (s : GlobalScheduler) (t : option Z) (bound : Z) : option bool :=
  match t with
  | None => Some false
  | Some t => th ← threads s !! t; Some (current_priority th <? bound)
  end.

(** ** Yields *)

Definition AskForReselectionOrMarkRedundant (s : GlobalScheduler) (current_thread : Z) (winner : option Z)
    : option (GlobalScheduler * bool) :=
  if decide (winner = Some current_thread) then s ← IncrementYieldCount s current_thread; Some (s, true)
  else Some (SetReselectionPending s, false).

Definition ask_from (host core_id : Z) (s : GlobalScheduler) (current_thread : Z) (winner : option Z)
    : option (GlobalScheduler * bool) :=
  AskForReselectionOrMarkRedundant (if host =? core_id then s else SetReselectionPending s) current_thread winner.

(** [host]: [GetCurrentHostThreadID()]. *)
Definition YieldThread (host : Z) (s : GlobalScheduler) (t : Z) : option (GlobalScheduler * bool) :=
  th ← threads s !! t;
  if negb (IsRunnable th) then Some (SetReselectionPending s, false)
  else
    let core_id := to_u32 (processor_id th) in
    s ← Reschedule (current_priority th) core_id t s;
    q ← scheduled_queue s !! Z.to_nat core_id;
    ask_from host core_id s t (Mlq.front 64 q 0).

Definition balance_body (s : GlobalScheduler) (priority : Z) (next : Z) (acc : unit) (t : Z) : option (unit + Z) :=
  th ← threads s !! t;
  let source_core := processor_id th in
  skip ← (if 0 <=? source_core then
            c ← tops s !! Z.to_nat source_core;
            high ← above s c min_regular_priority;
            Some (bool_decide (c = Some t) || high)
          else Some false);
  if skip : bool then Some (inl tt)
  else
    nth ← threads s !! next;
    Some (if ((last_running_ticks th <=? last_running_ticks nth) || (current_priority nth <? current_priority th))
             && (current_priority th <=? priority)
          then inr t else inl tt).

Definition YieldThreadAndBalanceLoad (host : Z) (s : GlobalScheduler) (t : Z) : option (GlobalScheduler * bool) :=
  th ← threads s !! t;
  if negb (IsRunnable th) then Some (SetReselectionPending s, false)
  else
    let core_id := to_u32 (processor_id th) in
    let priority := current_priority th in
    s ← Reschedule priority core_id t s;
    q ← scheduled_queue s !! Z.to_nat core_id;
    next ← Mlq.front 64 q priority;
    g ← suggested_queue s !! Z.to_nat core_id;
    r ← scan_queue false g (balance_body s priority next) tt;
    match r with
    | inr winner =>
        s ← (if winner =? t then Some s
             else wth ← threads s !! winner; TransferToCore (current_priority wth) core_id winner s);
        ask_from host core_id s t (Some winner)
    | inl _ => ask_from host core_id s t (Some next)
    end.

Definition wait_body (s : GlobalScheduler) (acc : unit) (t : Z) : option (unit + option Z) :=
  th ← threads s !! t;
  let source_core := processor_id th in
  if source_core <? 0 then Some (inl tt)
  else
    c ← tops s !! Z.to_nat source_core;
    if decide (c = Some t) then Some (inl tt)
    else high ← above s c min_regular_priority; Some (inr (if high : bool then None else Some t)).

Definition YieldThreadAndWaitForLoadBalancing (host : Z) (s : GlobalScheduler) (t : Z) : option (GlobalScheduler * bool) :=
  th ← threads s !! t;
  if negb (IsRunnable th) then Some (SetReselectionPending s, false)
  else
    let core_id := to_u32 (processor_id th) in
    s ← TransferToCore (current_priority th) (-1) t s;
    q ← scheduled_queue s !! Z.to_nat core_id;
    if Mlq.empty q then
      g ← suggested_queue s !! Z.to_nat core_id;
      r ← scan_queue false g (wait_body s) tt;
      match r with
      | inr (Some winner) =>
          s ← (if winner =? t then Some s
               else wth ← threads s !! winner; TransferToCore (current_priority wth) core_id winner s);
          ask_from host core_id s t (Some winner)
      | _ => ask_from host core_id s t (Some t)
      end
    else ask_from host core_id s t (Mlq.front 64 q 0).

(** ** Preemption *)

Definition preempt_body (s : GlobalScheduler) (current : option Z) (skip : Z -> bool) (acc : unit) (t : Z)
    : option (unit + option Z) :=
  th ← threads s !! t;
  let source_core := processor_id th in
  let decide_on (_ : unit) : option (unit + option Z) :=
    match current with
    | None => Some (inl tt)
    | Some c => cth ← threads s !! c;
        Some (if last_running_ticks th <=? last_running_ticks cth then inr (Some t) else inl tt)
    end in
  if skip (current_priority th) then Some (inl tt)
  else if 0 <=? source_core then
    next ← top_of s source_core;
    high ← above s next 2;
    if high : bool then Some (inr None)
    else if decide (next = Some t) then Some (inl tt)
    else decide_on tt
  else decide_on tt.
Definition preempt_scan (s : GlobalScheduler) (core : Z) (current : option Z) (skip : Z -> bool) : option (option Z) :=
  g ← suggested_queue s !! Z.to_nat core;
  r ← scan_queue false g (preempt_body s current skip) tt;
  Some (match r with inr w => w | inl _ => None end).

Definition preemption_priorities : list Z := [59; 59; 59; 62].

(** The rotation of one level, with the counts of its first threads. *)
Definition count_front (s : GlobalScheduler) (core priority : Z) : option GlobalScheduler :=
  q ← scheduled_queue s !! Z.to_nat core;
  if 1 <? Mlq.size_at q priority then t ← Mlq.front 64 q priority; IncrementYieldCount s t else Some s.
Definition rotate (s : GlobalScheduler) (core priority : Z) : option GlobalScheduler :=
  q ← scheduled_queue s !! Z.to_nat core;
  if 0 <? Mlq.size_at q priority then
    s ← count_front s core priority;
    s ← on_scheduled s core (fun q => Mlq.yield q priority 1);
    count_front s core priority
  else Some s.

(** The thread [winner] moves to the core. *)
Definition take_winner (s : GlobalScheduler) (core : Z) (winner : option Z) : option GlobalScheduler :=
  match winner with
  | None => Some s
  | Some w => wth ← threads s !! w; TransferToCore (current_priority wth) core w s
  end.
(** [winner->GetPriority() <= current_thread->GetPriority() ? winner : current_thread]. *)
Definition better (s : GlobalScheduler) (current winner : option Z) : option (option Z) :=
  match winner, current with
  | None, _ => Some current
  | Some w, None => None
  | Some w, Some c =>
      wth ← threads s !! w; cth ← threads s !! c;
      Some (if current_priority wth <=? current_priority cth then winner else current)
  end.

Definition preempt_core (core : Z) (s : GlobalScheduler) : option GlobalScheduler :=
  priority ← preemption_priorities !! Z.to_nat core;
  s ← rotate s core priority;
  current ← top_of s core;
  winner ← preempt_scan s core current (fun p => negb (p =? priority));
  s ← take_winner s core winner;
  current ← better s current winner;
  low ← above s current (priority + 1);
  s ← (if decide (current = None) then Some s
       else if low : bool then Some s
       else
         w ← preempt_scan s core current (fun p => p <? priority);
         take_winner s core (match w with Some _ => w | None => winner end));
  Some (SetReselectionPending s).
Definition PreemptThreads (s : GlobalScheduler) : option GlobalScheduler := for_cores preempt_core s.

(** ** Selection *)

(** The fields of the scheduler of a core that selection uses. *)
Record Scheduler := {
  selected_thread_set : option Z;
  current_thread : option Z;
  is_context_switch_pending : bool;
  idle_selection_count : Z
}.
Definition update_thread (thread : option Z) (sched : Scheduler) : Scheduler :=
  let idle := if decide (thread = selected_thread_set sched) then idle_selection_count sched
              else match thread with None => to_u64 (idle_selection_count sched + 1) | Some _ => idle_selection_count sched end in
  {| selected_thread_set := thread; current_thread := current_thread sched;
     is_context_switch_pending := is_context_switch_pending sched || negb (bool_decide (thread = current_thread sched));
     idle_selection_count := idle |}.

(** Step 2: a thread to move ([inr (Some t)]), none ([inr None]), or the cores
    of the threads that run there first. *)
Definition suggest_body (s : GlobalScheduler) (top_threads : list (option Z)) (candidates : list Z) (t : Z)
    : option (list Z + option Z * list Z) :=
  th ← threads s !! t;
  let suggested_core_id := processor_id th in
  top_thread ← (if 0 <=? suggested_core_id then top_threads !! Z.to_nat suggested_core_id else Some None);
  if decide (top_thread = Some t) then
    if (length candidates <? 4)%nat then Some (inl (candidates ++ [suggested_core_id])) else None
  else
    high ← above s top_thread THREADPRIO_MAX_CORE_MIGRATION;
    Some (inr (if high : bool then None else Some t, candidates)).

(** [auto it = queue.begin(); it++]: the second thread of a queue. *)
Definition second (q : MultiLevelQueue Z) : option (option Z) :=
  i ← Mlq.incr 64 q (Mlq.cbegin 64 q 0);
  if Mlq.IsEnd 64 i then Some None else t ← Mlq.deref q i; Some (Some t).

(** Step 3: the first thread of a core that has another one. *)
Fixpoint from_other (s : GlobalScheduler) (core_id : Z) (top_threads : list (option Z)) (candidates : list Z)
    : option (GlobalScheduler * list (option Z) * option Z) :=
  match candidates with
  | [] => Some (s, top_threads, None)
  | c :: candidates =>
      suggested ← top_threads !! Z.to_nat c;
      q ← scheduled_queue s !! Z.to_nat c;
      next ← second q;
      match next, suggested with
      | None, _ => from_other s core_id top_threads candidates
      | Some n, None => None
      | Some n, Some t =>
          th ← threads s !! t;
          s ← TransferToCore (current_priority th) core_id t s;
          Some (s, <[Z.to_nat c := Some n]> top_threads, Some t)
      end
  end.

Definition fill_core (s : GlobalScheduler) (core_id : Z) (top_threads : list (option Z))
    : option (GlobalScheduler * list (option Z)) :=
  g ← suggested_queue s !! Z.to_nat core_id;
  if Mlq.empty g then Some (s, top_threads)
  else
    r ← scan_queue true g (suggest_body s top_threads) [];
    let '(suggested, candidates) := match r with inr (t, c) => (t, c) | inl c => (None, c) end in
    '(s, top_threads, suggested) ←
      match suggested with
      | Some t => th ← threads s !! t; s ← TransferToCore (current_priority th) core_id t s; Some (s, top_threads, Some t)
      | None => from_other s core_id top_threads candidates
      end;
    Some (s, <[Z.to_nat core_id := suggested]> top_threads).

(** [CountTrailingZeroes32]. *)
Definition CountTrailingZeroes32 (value : Z) : Z := if value =? 0 then 32 else CountTrailingZeroes64 value.

Fixpoint idle_loop (fuel : nat) (s : GlobalScheduler) (top_threads : list (option Z)) (idle_cores : Z)
    : option (GlobalScheduler * list (option Z)) :=
  if idle_cores =? 0 then Some (s, top_threads)
  else
    match fuel with
    | O => None
    | S fuel =>
        let core_id := CountTrailingZeroes32 idle_cores in
        '(s, top_threads) ← fill_core s core_id top_threads;
        idle_loop fuel s top_threads (idle_cores .& (0xFFFFFFFF .^ (1 << core_id)))
    end.

Definition idle_mask (top_threads : list (option Z)) : Z :=
  foldr Z.lor 0 (imap (fun core t => match t with None => 1 << Z.of_nat core | Some _ => 0 end) top_threads).

(** The threads, the schedulers of the cores and the cores that must switch. *)
Definition SelectThreads (s : GlobalScheduler) (cores : list Scheduler) : option (GlobalScheduler * list Scheduler * Z) :=
  if negb (is_reselection_pending s) then Some (s, cores, 0)
  else
    '(s, top_threads) ← idle_loop 5 s (tops s) (idle_mask (tops s));
    let cores := zip_with update_thread top_threads cores in
    Some (s, cores, foldr Z.lor 0 (imap (fun core c => if is_context_switch_pending c then 1 << Z.of_nat core else 0) cores)).
End Sched.
Import Sched.
