(* ===== verification/SchedulerQueues.v ===== *)
(** * The queues of the scheduler as maps

    A multi-level queue of threads stands for a map from threads to their
    priorities, [rep]; the operations of [Scheduler] on one queue are updates
    of the map at one key, and the loops over a queue visit its threads in the
    order of their priorities. *)

From S2P Require Import Prelude BitUtil MultiLevelQueue Scheduler.
From stdpp Require Import base list gmap.
Open Scope Z_scope.
Import Mlq.
#[local] Abbreviation queue := (MultiLevelQueue Z).
#[local] Abbreviation okq := (ok 64).
Implicit Types (q : queue) (M : gmap Z Z) (t p : Z).

Lemma depth64 : 0 < 64 <= 64.
Proof. done. Qed.

Record rep (q : queue) (M : gmap Z Z) : Prop := {
  rep_ok : okq q;
  rep_mem p t : 0 <= p < 64 -> (t ∈ level q p) <-> M !! t = Some p;
  rep_nodup p : 0 <= p < 64 -> NoDup (level q p);
  rep_range t p : M !! t = Some p -> 0 <= p < 64
}.

Lemma level_add q t p b p' : okq q -> 0 <= p < 64 -> 0 <= p' < 64 ->
  level (add q t p b) p' = if p =? p' then (if b then level q p ++ [t] else t :: level q p) else level q p'.
Proof. intros Hq Hp Hp'. unfold add. by rewrite (level_set_level 64 depth64) by (done || lia). Qed.

Lemma rep_add q M t p b : rep q M -> M !! t = None -> 0 <= p < 64 -> rep (add q t p b) (<[t := p]> M).
Proof.
  intros [Ho Hm Hn Hr] Ht Hp. split.
  - apply add_ok; [exact depth64|done|lia].
  - intros p' t' Hp'. rewrite level_add by done. destruct (Z.eqb_spec p p') as [<-|Hne].
    + assert ((t' ∈ if b then level q p ++ [t] else t :: level q p) <-> t' = t \/ t' ∈ level q p) as ->
        by (destruct b; [rewrite elem_of_app, list_elem_of_singleton|rewrite elem_of_cons]; tauto).
      rewrite Hm by done. destruct (decide (t' = t)) as [->|Ht']; [rewrite lookup_insert_eq; naive_solver|].
      rewrite lookup_insert_ne by done. naive_solver.
    + rewrite Hm by done. destruct (decide (t' = t)) as [->|Ht']; [rewrite lookup_insert_eq, Ht; naive_solver|].
      by rewrite lookup_insert_ne by done.
  - intros p' Hp'. rewrite level_add by done. destruct (Z.eqb_spec p p') as [<-|Hne]; [|by apply Hn].
    assert (t ∉ level q p) as Hni by (rewrite Hm, Ht by done; naive_solver).
    destruct b; [|by constructor; [|apply Hn]]. rewrite NoDup_app. split; [by apply Hn|]. split; [|apply NoDup_singleton].
    intros x Hx ->%list_elem_of_singleton. done.
  - intros t' p'. destruct (decide (t' = t)) as [->|Ht']; [rewrite lookup_insert_eq; naive_solver|].
    rewrite lookup_insert_ne by done. apply Hr.
Qed.

(** Erasing the first occurrence of an element that occurs once. *)
Lemma erase_member (l : list Z) t : NoDup l -> t ∈ l ->
  NoDup (erase l (ListIterateTo l t)) /\ forall x, (x ∈ erase l (ListIterateTo l t)) <-> x ∈ l /\ x <> t.
Proof.
  intros Hn Ht. destruct (ListIterateTo_spec 64 depth64 l t) as [[_ H]|(Hl & Hx & _)]; [done|]. unfold erase.
  set (i := ListIterateTo l t) in *. pose proof (take_drop_middle l i t Hx) as E. rewrite <- E in Hn.
  rewrite NoDup_app, NoDup_cons in Hn. destruct Hn as (Hn1 & Hn2 & Hn3 & Hn4). split.
  - rewrite NoDup_app. split; [done|]. split; [|done]. intros x Hx' Hx2. apply (Hn2 x Hx'). by right.
  - intros x. rewrite <- E at 3. rewrite !elem_of_app, elem_of_cons. split.
    + intros [H|H]; (split; [tauto|]); intros ->; [apply (Hn2 t H); left|done].
    + naive_solver.
Qed.

Lemma remove_level q t p : okq q -> 0 <= p < 64 -> t ∈ level q p ->
  remove q t p = set_level q p (erase (level q p) (ListIterateTo (level q p) t))
    (clear_if_empty (erase (level q p) (ListIterateTo (level q p) t)) (used_priorities q) p).
Proof.
  intros Hq Hp Ht. unfold remove. destruct (ListIterateTo_spec 64 depth64 (level q p) t) as [[_ H]|(Hl & _)]; [done|].
  by rewrite (proj2 (Nat.eqb_neq _ _)) by lia.
Qed.

Lemma rep_remove q M t p : rep q M -> M !! t = Some p -> rep (remove q t p) (delete t M).
Proof.
  intros [Ho Hm Hn Hr] Ht. pose proof (Hr t p Ht) as Hp. assert (t ∈ level q p) as Hin by (by apply Hm).
  destruct (erase_member (level q p) t (Hn p Hp) Hin) as [Hn' Hm'].
  assert (forall p', 0 <= p' < 64 -> level (remove q t p) p' = if p =? p' then erase (level q p) (ListIterateTo (level q p) t) else level q p') as HL
    by (intros p' Hp'; rewrite remove_level by done; by rewrite (level_set_level 64 depth64) by (done || lia)).
  split.
  - apply remove_ok; [exact depth64|done|lia].
  - intros p' t' Hp'. rewrite HL by done. destruct (Z.eqb_spec p p') as [<-|Hne].
    + rewrite Hm', Hm by done. destruct (decide (t' = t)) as [->|Ht']; [rewrite lookup_delete_eq; naive_solver|].
      rewrite lookup_delete_ne by done. naive_solver.
    + rewrite Hm by done. destruct (decide (t' = t)) as [->|Ht']; [rewrite lookup_delete_eq, Ht; naive_solver|].
      by rewrite lookup_delete_ne by done.
  - intros p' Hp'. rewrite HL by done. destruct (Z.eqb_spec p p'); [done|by apply Hn].
  - intros t' p' [_ H]%lookup_delete_Some. by apply (Hr t').
Qed.

Lemma rep_readd q M t p b : rep q M -> M !! t = Some p -> rep (add (remove q t p) t p b) M.
Proof.
  intros Hq Ht. rewrite <- (insert_delete_id M t p Ht). apply rep_add; [by apply rep_remove|
    by rewrite lookup_delete_eq|by apply (rep_range q M Hq t)].
Qed.

(** Rotating a level. *)
Lemma rep_yield q M p n : rep q M -> 0 <= p < 64 -> rep (yield q p n) M.
Proof.
  intros [Ho Hm Hn Hr] Hp. assert (forall p', 0 <= p' < 64 -> level (yield q p n) p' ≡ₚ level q p') as HL.
  { intros p' Hp'. unfold yield. rewrite (level_set_level 64 depth64) by (done || lia). destruct (Z.eqb_spec p p') as [<-|]; [|done].
    unfold ListShiftForward. case_match; [done|]. rewrite Permutation_app_comm. by rewrite take_drop. }
  split; [apply yield_ok; (exact depth64 || lia || done)| | |done].
  - intros p' t Hp'. by rewrite (HL p' Hp'), Hm.
  - intros p' Hp'. rewrite (HL p' Hp'). by apply Hn.
Qed.

(** ** Reading a queue *)

Lemma elem_of_from q M t : rep q M -> (t ∈ from q 0) <-> is_Some (M !! t).
Proof.
  intros [Ho Hm Hn Hr]. unfold from. cbn [Z.to_nat]. rewrite drop_0. rewrite list_elem_of_In, in_concat. split.
  - intros (l & Hl & Ht). apply list_elem_of_In, list_elem_of_lookup in Hl as [i Hi]. pose proof (lookup_lt_Some _ _ _ Hi) as Hlt.
    rewrite (ok_levels 64 q Ho) in Hlt. exists (Z.of_nat i). apply Hm; [lia|]. unfold level. rewrite Nat2Z.id, nth_lookup, Hi.
    by apply list_elem_of_In.
  - intros [p Hp]. pose proof (Hr t p Hp) as Hrange. apply Hm in Hp; [|done]. exists (level q p). split; [|by apply list_elem_of_In].
    unfold level. apply nth_In. rewrite (ok_levels 64 q Ho). lia.
Qed.

Lemma NoDup_from q M : rep q M -> NoDup (from q 0).
Proof.
  intros Hq. pose proof Hq as [Ho Hm Hn Hr]. assert (forall n k, 64 - k = Z.of_nat n -> 0 <= k -> NoDup (from q k) /\ forall t, t ∈ from q k -> exists p, k <= p < 64 /\ t ∈ level q p) as H.
  { induction n as [|n IH]; intros k Hk H0.
    - assert (from q k = []) as ->; [|split; [constructor|intros t Ht; by apply not_elem_of_nil in Ht]]. unfold from.
      rewrite drop_ge; [done|]. rewrite (ok_levels 64 q Ho). lia.
    - rewrite from_step by done. destruct (IH (k + 1)) as [IH1 IH2]; [lia|lia|]. split.
      + rewrite NoDup_app. split; [apply Hn; lia|]. split; [|done]. intros t Ht Ht2. destruct (IH2 t Ht2) as (p & Hp & Hp2).
        apply Hm in Ht; [|lia]. apply Hm in Hp2; [|lia]. rewrite Ht in Hp2. injection Hp2. lia.
      + intros t [Ht|Ht]%elem_of_app; [exists k; split; [lia|done]|]. destruct (IH2 t Ht) as (p & Hp & Hp2). exists p. split; [lia|done]. }
  by apply (H 64%nat 0).
Qed.

Lemma empty_from q : okq q -> empty q = true <-> from q 0 = [].
Proof.
  intros Hq. unfold empty. rewrite Z.eqb_eq. rewrite <- (masked_0 64 q Hq). split; [intros E; by apply (masked_zero 64 depth64 q 0 Hq ltac:(lia))|].
  intros E. destruct (Z.eq_dec (masked q 0) 0) as [|Hne]; [done|]. destruct (masked_next 64 depth64 q 0 Hq ltac:(lia) Hne) as (Hp & Hu & Hf & _).
  rewrite Hf, from_step in E by lia. by destruct (level q (CountTrailingZeroes64 (masked q 0))).
Qed.

Lemma top_from q : okq q -> Sched.top q = head (from q 0).
Proof.
  intros Hq. unfold Sched.top. destruct (empty q) eqn:E; [apply (empty_from q Hq) in E; by rewrite E|].
  apply front_spec; [exact depth64|done|lia|]. intros Hf. apply (empty_from q Hq) in Hf. congruence.
Qed.

(** ** Loops *)

(** A loop over a list that may stop. *)
Fixpoint fold_break {A R} (f : A -> Z -> option (A + R)) (acc : A) (l : list Z) : option (A + R) :=
  match l with
  | [] => Some (inl acc)
  | t :: l => r ← f acc t; match r with inr r => Some (inr r) | inl acc => fold_break f acc l end
  end.

Lemma scan_spec {A R} early fuel q (f : A -> Z -> option (A + R)) : okq q -> level q 63 = [] -> forall p i acc,
  0 <= p < 64 -> (i < length (level q p))%nat -> (length (drop i (level q p) ++ from q (p + 1)) <= fuel)%nat ->
  Sched.scan early fuel q {| it := i; current_priority := p |} f acc = fold_break f acc (drop i (level q p) ++ from q (p + 1)).
Proof.
  intros Hq H63. induction fuel as [|fuel IH]; intros p i acc Hp Hi Hf; cbn [Sched.scan];
    unfold IsEnd at 1; cbn [current_priority]; rewrite (proj2 (Z.eqb_neq p 64)) by lia.
  { rewrite length_app, length_drop in Hf. lia. }
  destruct (lookup_lt_is_Some_2 _ _ Hi) as [x Hx]. rewrite (drop_S _ _ _ Hx) in Hf |- *. cbn [app length fold_break] in Hf |- *.
  assert (p < 63) as Hp63. { destruct (Z.eq_dec p 63) as [->|]; [by rewrite H63 in Hx|lia]. }
  unfold deref. cbn [current_priority it]. rewrite Hx. cbn [mbind option_bind].
  destruct (incr_spec 64 depth64 q p i Hq Hp Hp63 Hi) as (j & E & Hj). rewrite E.
  destruct early; cbn [mbind option_bind]; (destruct (f acc x) as [[acc'|r]|]; cbn [mbind option_bind]; [|done|done]);
    (destruct Hj as [(p' & i' & -> & Hp' & Hi' & Ed)|[Hend Ed]]; rewrite Ed in Hf |- *;
       [apply IH; [done|done|lia]|destruct fuel; cbn [Sched.scan fold_break]; by rewrite Hend]).
Qed.

Lemma scan_queue_spec {A R} early q (f : A -> Z -> option (A + R)) acc : okq q -> level q 63 = [] ->
  Sched.scan_queue early q f acc = fold_break f acc (from q 0).
Proof.
  intros Hq H63. unfold Sched.scan_queue, cbegin. rewrite (highest_masked 64 q 0 Hq) by lia.
  destruct (Z.eqb_spec (masked q 0) 0) as [E|E].
  - rewrite Z.eqb_refl, (masked_zero 64 depth64 q 0 Hq ltac:(lia) E). cbn [Sched.scan fold_break]. unfold IsEnd. cbn [cend current_priority]. by rewrite Z.eqb_refl.
  - destruct (masked_next 64 depth64 q 0 Hq ltac:(lia) E) as (Hp & Hu & Hf & _). set (p := CountTrailingZeroes64 (masked q 0)) in *.
    rewrite (proj2 (Z.eqb_neq p 64)) by lia. rewrite (scan_spec early _ q f Hq H63 p 0 acc); [|lia|by apply nonempty_length|].
    + rewrite drop_0, Hf, (from_step q p) by lia. done.
    + rewrite drop_0, <- (from_step q p) by lia. rewrite <- Hf, from_0. lia.
Qed.

(** The result of a loop comes from its body at some thread of the list, or
    the body went on with every thread. *)
Lemma fold_break_total {A R} (P : A -> Prop) (Q : R -> Prop) (f : A -> Z -> option (A + R)) l :
  (forall acc t, P acc -> t ∈ l -> exists r, f acc t = Some r /\ match r with inl acc => P acc | inr r => Q r end) ->
  forall acc, P acc -> exists r, fold_break f acc l = Some r /\ match r with inl acc => P acc | inr r => Q r end.
Proof.
  intros Hf. induction l as [|t l IH]; intros acc Ha; [by exists (inl acc)|]. cbn [fold_break].
  destruct (Hf acc t Ha ltac:(left)) as ([acc'|r] & -> & Hr); cbn [mbind option_bind]; [|by exists (inr r)].
  apply IH; [|done]. intros a t' Ha' Ht'. apply Hf; [done|by right].
Qed.

(** The second thread of a queue. *)
Lemma second_spec q : okq q -> level q 63 = [] -> from q 0 <> [] -> Sched.second q = Some (head (tail (from q 0))).
Proof.
  intros Hq H63 Hne. unfold Sched.second, cbegin. rewrite (highest_masked 64 q 0 Hq) by lia.
  destruct (Z.eqb_spec (masked q 0) 0) as [E|E]; [by destruct Hne; apply (masked_zero 64 depth64 q 0 Hq)|].
  destruct (masked_next 64 depth64 q 0 Hq ltac:(lia) E) as (Hp & Hu & Hf & _). set (p := CountTrailingZeroes64 (masked q 0)) in *.
  rewrite (proj2 (Z.eqb_neq p 64)) by lia. apply nonempty_length in Hu.
  assert (p < 63) as Hp63. { destruct (Z.eq_dec p 63) as [Ep|]; [rewrite Ep, H63 in Hu; cbn in Hu; lia|lia]. }
  destruct (incr_spec 64 depth64 q p 0 Hq ltac:(lia) Hp63 Hu) as (j & -> & Hj). cbn [mbind option_bind].
  assert (tail (from q 0) = drop 1 (level q p) ++ from q (p + 1)) as ->.
  { rewrite Hf, (from_step q p) by lia. destruct (level q p); [cbn in Hu; lia|done]. }
  destruct Hj as [(p' & i' & -> & Hp' & Hi' & ->)|[-> ->]]; [|done].
  unfold IsEnd. cbn [current_priority]. rewrite (proj2 (Z.eqb_neq p' 64)) by lia.
  destruct (lookup_lt_is_Some_2 _ _ Hi') as [x Hx]. unfold deref. cbn [current_priority it]. rewrite Hx, (drop_S _ _ _ Hx). done.
Qed.

(** ** The order of a queue under changes *)

Lemma filter_absent (l : list Z) t : t ∉ l -> filter (fun x => x <> t) l = l.
Proof.
  induction l as [|x l IH]; intros Ht; [done|]. apply not_elem_of_cons in Ht as [Hx Ht]. rewrite filter_cons_True by congruence. by rewrite IH.
Qed.

Lemma erase_filter (l : list Z) t : NoDup l -> erase l (ListIterateTo l t) = filter (fun x => x <> t) l.
Proof.
  induction l as [|x l IH]; intros Hn; [done|]. apply NoDup_cons in Hn as [Hx Hn]. cbn [ListIterateTo]. case_decide as Hd.
  - subst x. unfold erase. cbn [take drop app]. rewrite drop_0, filter_cons_False by tauto. by rewrite filter_absent.
  - rewrite filter_cons_True by done. unfold erase in *. cbn [take drop app]. by rewrite IH.
Qed.

Lemma from_levels q q' (g : list Z -> list Z) : okq q -> okq q' -> (forall a b, g (a ++ b) = g a ++ g b) -> g [] = [] ->
  (forall p, 0 <= p < 64 -> level q' p = g (level q p)) -> from q' 0 = g (from q 0).
Proof.
  intros Hq Hq' Hg Hnil Hl. assert (forall n k, 64 - k = Z.of_nat n -> 0 <= k -> from q' k = g (from q k)) as H; [|by apply (H 64%nat)].
  induction n as [|n IH]; intros k Hk H0.
  - assert (forall r : queue, okq r -> from r k = []) as E by (intros r Hr; unfold from; rewrite drop_ge; [done|]; rewrite (ok_levels 64 r Hr); lia).
    by rewrite !E.
  - rewrite (from_step q'), (from_step q), Hg, Hl, IH by lia. done.
Qed.

Lemma from_remove q M t p : rep q M -> M !! t = Some p -> from (remove q t p) 0 = filter (fun x => x <> t) (from q 0).
Proof.
  intros Hq Ht. pose proof (rep_remove q M t p Hq Ht) as Hq'. destruct Hq as [Ho Hm Hn Hr]. pose proof (Hr t p Ht) as Hp.
  apply (from_levels q (remove q t p) (filter (fun x => x <> t))); [done|apply (rep_ok _ _ Hq')|intros; apply filter_app|done|].
  intros p' Hp'. rewrite remove_level by (done || by apply Hm). rewrite (level_set_level 64 depth64) by (done || lia). destruct (Z.eqb_spec p p') as [<-|Hne].
  - by apply erase_filter, Hn.
  - symmetry. apply filter_absent. rewrite Hm by done. congruence.
Qed.

Lemma from_add_empty q t p : okq q -> 0 <= p < 64 -> from q 0 = [] -> from (add q t p true) 0 = [t].
Proof.
  intros Hq Hp He. assert (forall p', 0 <= p' < 64 -> level q p' = []) as Hl.
  { intros p' Hp'. assert (forall k, 0 <= k -> from q 0 = [] -> from q k = [] /\ forall j, 0 <= j < k -> level q j = []) as H.
    { intros k Hk E. replace k with (Z.of_nat (Z.to_nat k)) by lia. induction (Z.to_nat k) as [|n [IH1 IH2]]; [split; [done|lia]|].
      rewrite from_step in IH1 by lia. apply app_nil in IH1 as [IH1 IH3]. replace (Z.of_nat (S n)) with (Z.of_nat n + 1) by lia. split; [done|].
      intros j Hj. destruct (Z.eq_dec j (Z.of_nat n)) as [->|]; [done|]. apply IH2. lia. }
    apply (H 64); [lia|done|done]. }
  pose proof (add_ok 64 depth64 q t p true Hq ltac:(lia)) as Hq'.
  rewrite (from_skip _ 0 p) by (lia || (intros j Hj; rewrite level_add by (done || lia); rewrite (proj2 (Z.eqb_neq _ _)) by lia; apply Hl; lia)).
  rewrite from_step, level_add, Z.eqb_refl, Hl by (done || lia). cbn [app]. f_equal.
  rewrite (from_skip _ (p + 1) 64).
  - unfold from. rewrite drop_ge; [done|]. rewrite (ok_levels 64 _ Hq'). lia.
  - lia.
  - intros j Hj. rewrite level_add by (done || lia). rewrite (proj2 (Z.eqb_neq _ _)) by lia. apply Hl. lia.
Qed.

(** The first thread has the best priority. *)
Lemma head_best q M t p u p' : rep q M -> head (from q 0) = Some t -> M !! t = Some p -> M !! u = Some p' -> p <= p'.
Proof.
  intros [Ho Hm Hn Hr] Hh Ht Hu. destruct (Z.le_gt_cases p p') as [|Hlt]; [done|]. exfalso. pose proof (Hr _ _ Ht). pose proof (Hr _ _ Hu).
  assert (forall k, 0 <= k <= p -> (forall j, 0 <= j < k -> level q j = []) -> from q k = from q 0) as Hskip by (intros k Hk Hj; symmetry; apply from_skip; [lia|done]).
  assert (forall j, 0 <= j < p -> level q j = []) as Hempty.
  { intros j Hj. destruct (level q j) as [|x l] eqn:El; [done|]. exfalso.
    assert (exists j0, 0 <= j0 < p /\ level q j0 <> [] /\ forall i, 0 <= i < j0 -> level q i = []) as (j0 & Hj0 & Hne & Hbefore).
    { assert (level q j <> []) as Hne by (by rewrite El). clear El Hm Hn Hr Hh Hskip. assert (0 <= j) as Hj0 by lia. revert Hne Hj. pattern j. apply Zlt_0_ind; [|exact Hj0]. clear j Hj0. intros j IH Hj0 Hne Hj.
      destruct (decide (Forall (fun i => level q (Z.of_nat i) = []) (seq 0 (Z.to_nat j)))) as [Hall|Hex].
      - exists j. split; [lia|]. split; [done|]. intros i Hi. rewrite Forall_forall in Hall. rewrite <- (Z2Nat.id i) by lia. apply Hall, elem_of_seq. lia.
      - apply not_Forall_Exists in Hex; [|intros i; apply _]. apply Exists_exists in Hex as (i & Hi & Hne'). apply elem_of_seq in Hi.
        apply (IH (Z.of_nat i)); [lia|done|lia]. }
    rewrite <- (Hskip j0) in Hh by (done || lia). rewrite from_step in Hh by lia. destruct (level q j0) as [|y l0] eqn:Ey; [done|]. cbn in Hh. injection Hh as ->.
    assert (M !! t = Some j0) as Ht' by (apply Hm; [lia|]; rewrite Ey; left). rewrite Ht in Ht'. injection Ht'. lia. }
  apply Hm in Hu; [|done]. rewrite Hempty in Hu by lia. by apply not_elem_of_nil in Hu.
Qed.
