(* ===== verification/SchedulerCorrect.v ===== *)
(** * The queues of the scheduler hold the runnable threads

    The invariant of [Scheduler]: a thread is in the scheduled queue of a core,
    at its priority and once, exactly when it is runnable and assigned to the
    core, and in the suggested queue exactly when it is runnable, allowed on
    the core and not assigned to it.  Every operation keeps it, and returns;
    selection gives each core the first thread of its queue. *)

From S2P Require Import Prelude BitUtil KernelObject MultiLevelQueue Scheduler SchedulerQueues.
From stdpp Require Import base list gmap.
Open Scope Z_scope.
Import Sched.
Implicit Types (s : GlobalScheduler) (th : Thread) (ths : gmap Z Thread) (t p c : Z).

(** ** Where a thread belongs *)

Definition place (pid p c : Z) : option Z := if pid =? c then Some p else None.
Definition hint (pid mask p c : Z) : option Z := if negb (pid =? c) && allows mask c then Some p else None.
Definition runs (c : Z) (th : Thread) : option Z :=
  if IsRunnable th then place (processor_id th) (current_priority th) c else None.
Definition hints (c : Z) (th : Thread) : option Z :=
  if IsRunnable th then hint (processor_id th) (affinity_mask th) (current_priority th) c else None.

(** Below the lowest priority, since a loop over a queue must not step past a
    thread of priority 63. *)
Record thread_ok (th : Thread) : Prop := {
  to_priority : 0 <= current_priority th < 63;
  to_pid : -1 <= processor_id th < 4;
  to_allowed : 0 <= processor_id th -> allows (affinity_mask th) (processor_id th) = true;
  to_ideal : -1 <= ideal_core th < 4;
  to_override : affinity_override_count th = 0
}.

Record sched_ok (s : GlobalScheduler) : Prop := {
  so_scheduled : length (scheduled_queue s) = 4%nat;
  so_suggested : length (suggested_queue s) = 4%nat;
  so_runs c : 0 <= c < 4 -> exists q, scheduled_queue s !! Z.to_nat c = Some q /\ rep q (omap (runs c) (threads s));
  so_hints c : 0 <= c < 4 -> exists q, suggested_queue s !! Z.to_nat c = Some q /\ rep q (omap (hints c) (threads s));
  so_threads t th : threads s !! t = Some th -> thread_ok th
}.

(** ** One thread between its queues *)

Definition put (t : Z) (x : option Z) (M : gmap Z Z) : gmap Z Z := partial_alter (fun _ => x) t M.

Lemma put_insert (f : Thread -> option Z) ths t th : omap f (<[t := th]> ths) = put t (f th) (omap f ths).
Proof.
  apply map_eq. intros u. rewrite lookup_omap. unfold put. destruct (decide (u = t)) as [->|Hne].
  - by rewrite lookup_insert_eq, lookup_partial_alter_eq.
  - by rewrite lookup_insert_ne, lookup_partial_alter_ne, lookup_omap by done.
Qed.
Lemma put_id (f : Thread -> option Z) ths t th : ths !! t = Some th -> put t (f th) (omap f ths) = omap f ths.
Proof. intros Ht. rewrite <- put_insert. by rewrite insert_id. Qed.

Lemma rep_put_add q M t p b : rep q (put t None M) -> 0 <= p < 64 -> rep (Mlq.add q t p b) (put t (Some p) M).
Proof.
  intros Hq Hp. assert (put t (Some p) M = <[t := p]> (put t None M)) as ->.
  { apply map_eq. intros u. unfold put. destruct (decide (u = t)) as [->|]; [by rewrite lookup_partial_alter_eq, lookup_insert_eq|].
    by rewrite lookup_insert_ne, !lookup_partial_alter_ne by done. }
  apply rep_add; [done|apply lookup_partial_alter_eq|done].
Qed.
Lemma rep_put_remove q M t p : rep q (put t (Some p) M) -> rep (Mlq.remove q t p) (put t None M).
Proof.
  intros Hq. assert (put t None M = delete t (put t (Some p) M)) as ->.
  { apply map_eq. intros u. unfold put. destruct (decide (u = t)) as [->|]; [by rewrite lookup_partial_alter_eq, lookup_delete_eq|].
    by rewrite lookup_delete_ne, !lookup_partial_alter_ne by done. }
  apply rep_remove; [done|apply lookup_partial_alter_eq].
Qed.

(** The queues hold the threads of [ths], but [t] as [xs] and [xg] say. *)
Record queues_at (s : GlobalScheduler) (ths : gmap Z Thread) (t : Z) (xs xg : Z -> option Z) : Prop := {
  qa_scheduled : length (scheduled_queue s) = 4%nat;
  qa_suggested : length (suggested_queue s) = 4%nat;
  qa_runs c : 0 <= c < 4 -> exists q, scheduled_queue s !! Z.to_nat c = Some q /\ rep q (put t (xs c) (omap (runs c) ths));
  qa_hints c : 0 <= c < 4 -> exists q, suggested_queue s !! Z.to_nat c = Some q /\ rep q (put t (xg c) (omap (hints c) ths))
}.

Lemma queues_ext s ths t xs xg xs' xg' : queues_at s ths t xs xg -> (forall c, 0 <= c < 4 -> xs c = xs' c) ->
  (forall c, 0 <= c < 4 -> xg c = xg' c) -> queues_at s ths t xs' xg'.
Proof.
  intros [H1 H2 H3 H4] Hs Hg. split; [done|done|intros c Hc; rewrite <- Hs by done; by apply H3|intros c Hc; rewrite <- Hg by done; by apply H4].
Qed.
Lemma queues_threads s ths t xs xg m : queues_at s ths t xs xg -> queues_at (with_threads s m) ths t xs xg.
Proof. intros []. by split. Qed.
Lemma queues_pending s ths t xs xg : queues_at s ths t xs xg -> queues_at (SetReselectionPending s) ths t xs xg.
Proof. intros []. by split. Qed.

Lemma ok_queues s t th : sched_ok s -> threads s !! t = Some th -> queues_at s (threads s) t (fun c => runs c th) (fun c => hints c th).
Proof.
  intros [H1 H2 H3 H4 _] Ht. split; [done|done|..]; intros c Hc; [rewrite (put_id (runs c) _ t th Ht)|rewrite (put_id (hints c) _ t th Ht)]; auto.
Qed.
Lemma queues_ok s ths t th : queues_at s ths t (fun c => runs c th) (fun c => hints c th) -> threads s = <[t := th]> ths ->
  (forall u uh, ths !! u = Some uh -> thread_ok uh) -> thread_ok th -> sched_ok s.
Proof.
  intros [H1 H2 H3 H4] Et Hths Hth. split; [done|done|..].
  - intros c Hc. rewrite Et, put_insert. auto.
  - intros c Hc. rewrite Et, put_insert. auto.
  - intros u uh. rewrite Et. destruct (decide (u = t)) as [->|]; [rewrite lookup_insert_eq; naive_solver|].
    rewrite lookup_insert_ne by done. apply Hths.
Qed.

(** ** The operations on one queue *)

Definition upd (x : Z -> option Z) (c : Z) (v : option Z) : Z -> option Z := fun c' => if c' =? c then v else x c'.

Lemma on_scheduled_at s ths t xs xg c f v : queues_at s ths t xs xg -> 0 <= c < 4 ->
  (forall q M, rep q (put t (xs c) M) -> rep (f q) (put t v M)) ->
  exists s', on_scheduled s c f = Some s' /\ queues_at s' ths t (upd xs c v) xg /\ threads s' = threads s.
Proof.
  intros [H1 H2 H3 H4] Hc Hf. unfold on_scheduled. destruct (H3 c Hc) as (q & Eq & Hq). rewrite Eq. eexists. split; [done|]. split; [|done].
  split; cbn [with_scheduled scheduled_queue suggested_queue]; [by rewrite length_insert|done| |done].
  intros c' Hc'. unfold upd. destruct (Z.eqb_spec c' c) as [->|Hne]; [rewrite list_lookup_insert_eq by lia; eauto|].
  rewrite list_lookup_insert_ne by lia. by apply H3.
Qed.
Lemma on_suggested_at s ths t xs xg c f v : queues_at s ths t xs xg -> 0 <= c < 4 ->
  (forall q M, rep q (put t (xg c) M) -> rep (f q) (put t v M)) ->
  exists s', on_suggested s c f = Some s' /\ queues_at s' ths t xs (upd xg c v) /\ threads s' = threads s.
Proof.
  intros [H1 H2 H3 H4] Hc Hf. unfold on_suggested. destruct (H4 c Hc) as (q & Eq & Hq). rewrite Eq. eexists. split; [done|]. split; [|done].
  split; cbn [with_suggested scheduled_queue suggested_queue]; [done|by rewrite length_insert|done|].
  intros c' Hc'. unfold upd. destruct (Z.eqb_spec c' c) as [->|Hne]; [rewrite list_lookup_insert_eq by lia; eauto|].
  rewrite list_lookup_insert_ne by lia. by apply H4.
Qed.

Section Moves.
Context (ths : gmap Z Thread) (t : Z).

(** [op] moves [t] from [xs], [xg] to [xs'], [xg'] and changes no thread. *)
Definition moves (op : GlobalScheduler -> option GlobalScheduler) (xs xg xs' xg' : Z -> option Z) : Prop :=
  forall s, queues_at s ths t xs xg -> exists s', op s = Some s' /\ queues_at s' ths t xs' xg' /\ threads s' = threads s.

Lemma moves_schedule p c xs xg (front : bool) : 0 <= p < 64 -> 0 <= c < 4 -> xs c = None ->
  moves (if front then SchedulePrepend p c t else Schedule p c t) xs xg (upd xs c (Some p)) xg.
Proof.
  intros Hp Hc Hx s Hs. unfold SchedulePrepend, Schedule.
  destruct front; apply on_scheduled_at; try done; intros q M; rewrite Hx; intros Hq; by apply rep_put_add.
Qed.
Lemma moves_unschedule p c xs xg : 0 <= c < 4 -> xs c = Some p -> moves (Unschedule p c t) xs xg (upd xs c None) xg.
Proof. intros Hc Hx s Hs. apply on_scheduled_at; try done. intros q M. rewrite Hx. apply rep_put_remove. Qed.
Lemma moves_suggest p c xs xg : 0 <= p < 64 -> 0 <= c < 4 -> xg c = None -> moves (Suggest p c t) xs xg xs (upd xg c (Some p)).
Proof. intros Hp Hc Hx s Hs. apply on_suggested_at; try done. intros q M. rewrite Hx. intros Hq. by apply rep_put_add. Qed.
Lemma moves_unsuggest p c xs xg : 0 <= c < 4 -> xg c = Some p -> moves (Unsuggest p c t) xs xg xs (upd xg c None).
Proof. intros Hc Hx s Hs. apply on_suggested_at; try done. intros q M. rewrite Hx. apply rep_put_remove. Qed.

Lemma moves_ext op xs xg xs' xg' ys yg : moves op xs xg xs' xg' -> (forall c, 0 <= c < 4 -> xs' c = ys c) ->
  (forall c, 0 <= c < 4 -> xg' c = yg c) -> moves op xs xg ys yg.
Proof. intros Hm Hs Hg s Hq. destruct (Hm s Hq) as (s' & E & Hq' & Et). exists s'. split; [done|]. split; [by eapply queues_ext|done]. Qed.

Lemma moves_when b op xs xg xs' xg' : (b = true -> moves op xs xg xs' xg') ->
  (b = false -> (forall c, 0 <= c < 4 -> xs c = xs' c) /\ forall c, 0 <= c < 4 -> xg c = xg' c) -> moves (when b op) xs xg xs' xg'.
Proof.
  intros Ht Hf s Hs. unfold when. destruct b; [by apply Ht|]. destruct (Hf eq_refl). exists s. split; [done|]. split; [by eapply queues_ext|done].
Qed.

Lemma moves_then op1 op2 xs xg ys yg zs zg : moves op1 xs xg ys yg -> moves op2 ys yg zs zg ->
  moves (fun s => s ← op1 s; op2 s) xs xg zs zg.
Proof.
  intros H1 H2 s Hs. destruct (H1 s Hs) as (s1 & -> & Hs1 & E1). cbn [mbind option_bind].
  destruct (H2 s1 Hs1) as (s2 & -> & Hs2 & E2).
  exists s2. split; [done|]. split; [done|congruence].
Qed.

(** A loop over the cores, from one function to another core by core. *)
Definition upto (k : Z) (x y : Z -> option Z) : Z -> option Z := fun c => if c <? k then y c else x c.
Lemma moves_for_cores f xs xg ys yg :
  (forall c, 0 <= c < 4 -> forall us ug, us c = xs c -> ug c = xg c -> moves (f c) us ug (upd us c (ys c)) (upd ug c (yg c))) ->
  moves (for_cores f) xs xg ys yg.
Proof.
  intros Hf. assert (forall c, 0 <= c < 4 -> moves (f c) (upto c xs ys) (upto c xg yg) (upto (c + 1) xs ys) (upto (c + 1) xg yg)) as H.
  { intros c Hc. eapply moves_ext; [apply Hf; [done|unfold upto; by rewrite Z.ltb_irrefl..]|..]; intros c' Hc'; unfold upd, upto;
      (destruct (Z.eqb_spec c' c) as [->|Hne]; [by rewrite (proj2 (Z.ltb_lt c (c + 1))) by lia|]);
      destruct (Z.ltb_spec c' c), (Z.ltb_spec c' (c + 1)); done || lia. }
  intros s Hs. unfold for_cores.
  assert (queues_at s ths t (upto 0 xs ys) (upto 0 xg yg)) as H0.
  { eapply queues_ext; [exact Hs|..]; intros c Hc; unfold upto; destruct (Z.ltb_spec c 0); done || lia. }
  destruct (H 0 ltac:(lia) s H0) as (s1 & -> & H1 & E1). destruct (H 1 ltac:(lia) s1 H1) as (s2 & E & H2 & E2). cbn [mbind option_bind]. rewrite E.
  destruct (H 2 ltac:(lia) s2 H2) as (s3 & E' & H3 & E3). cbn [mbind option_bind]. rewrite E'.
  destruct (H 3 ltac:(lia) s3 H3) as (s4 & E'' & H4 & E4). cbn [mbind option_bind]. rewrite E''. exists s4. split; [done|]. split; [|congruence].
  eapply queues_ext; [exact H4|..]; intros c Hc; unfold upto; destruct (Z.ltb_spec c (3 + 1)); done || lia.
Qed.
End Moves.

(** ** Leaving and entering all queues *)

Definition nowhere : Z -> option Z := fun _ => None.

Lemma u32_core c pid : 0 <= c < 4 -> -1 <= pid < 4 -> (c =? to_u32 pid) = (pid =? c).
Proof.
  intros Hc Hp. rewrite to_u32_mod. destruct (Z.eqb_spec pid c) as [->|Hne]; [apply Z.eqb_eq; by rewrite Z.mod_small by lia|].
  apply Z.eqb_neq. destruct (Z.eq_dec pid (-1)) as [->|]; [zlia|]. rewrite Z.mod_small by lia. lia.
Qed.

Section AllQueues.
Context (ths : gmap Z Thread) (t : Z).

Ltac core_cases :=
  intros; unfold upd, place, hint, nowhere in *;
  repeat match goal with |- context [?a =? ?b] => destruct (Z.eqb_spec a b) end;
  cbn [negb andb] in *; subst; try done; try lia.

Lemma moves_leave th p : 0 <= p < 64 -> -1 <= processor_id th < 4 ->
  moves ths t (fun s => s ← when (0 <=? processor_id th) (Unschedule p (processor_id th) t) s;
                        for_cores (fun c => when (suggestible th c) (Unsuggest p c t)) s)
    (place (processor_id th) p) (hint (processor_id th) (affinity_mask th) p) nowhere nowhere.
Proof.
  intros Hp Hpid. set (pid := processor_id th) in *. apply (moves_then _ _ _ _ _ _ nowhere (hint pid (affinity_mask th) p)).
  - apply moves_when; [intros H0%Z.leb_le|intros H0%Z.leb_gt; split; core_cases].
    eapply moves_ext; [apply moves_unschedule; [lia|unfold place; by rewrite Z.eqb_refl]|core_cases|done].
  - apply moves_for_cores. intros c Hc us ug Hus Hug. unfold suggestible. rewrite u32_core by done. fold pid.
    apply moves_when; [intros E|intros E; split; core_cases].
    + eapply moves_ext; [apply moves_unsuggest; [done|rewrite Hug; unfold hint; by rewrite E]|core_cases; done|done].
    + rewrite Hug. unfold hint. by rewrite E.
Qed.

Lemma moves_enter th p front : 0 <= p < 64 -> -1 <= processor_id th < 4 ->
  moves ths t (fun s => s ← when (0 <=? processor_id th) (if (front : bool) then SchedulePrepend p (processor_id th) t
                                                          else Schedule p (processor_id th) t) s;
                        for_cores (fun c => when (suggestible th c) (Suggest p c t)) s)
    nowhere nowhere (place (processor_id th) p) (hint (processor_id th) (affinity_mask th) p).
Proof.
  intros Hp Hpid. set (pid := processor_id th) in *. apply (moves_then _ _ _ _ _ _ (place pid p) nowhere).
  - apply moves_when; [intros H0%Z.leb_le|intros H0%Z.leb_gt; split; core_cases].
    eapply moves_ext; [apply moves_schedule; [done|lia|done]|core_cases|done].
  - apply moves_for_cores. intros c Hc us ug Hus Hug. unfold suggestible. rewrite u32_core by done. fold pid.
    apply moves_when; [intros E|intros E; split; core_cases].
    + eapply moves_ext; [apply moves_suggest; [done|done|by rewrite Hug]|core_cases; done|intros c' Hc'; unfold upd, hint; by rewrite E].
    + rewrite Hug. unfold hint. by rewrite E.
Qed.

(** The two loops of [AdjustSchedulingOnAffinity], for a thread that is allowed
    on the core it is assigned to. *)
Lemma moves_leave_mask pid mask p : 0 <= p < 64 -> -1 <= pid < 4 -> (0 <= pid -> allows mask pid = true) ->
  moves ths t (for_cores (fun c => when (allows mask c) (if c =? to_u32 pid then Unschedule p c t else Unsuggest p c t)))
    (place pid p) (hint pid mask p) nowhere nowhere.
Proof.
  intros Hp Hpid Ha. apply moves_for_cores. intros c Hc us ug Hus Hug. rewrite u32_core by done.
  apply moves_when; intros E; (destruct (Z.eqb_spec pid c) as [->|Hne]).
  - eapply moves_ext; [apply moves_unschedule; [done|rewrite Hus; unfold place; by rewrite Z.eqb_refl]|done|].
    core_cases. rewrite Hug. unfold hint. by rewrite Z.eqb_refl.
  - eapply moves_ext; [apply moves_unsuggest; [done|rewrite Hug; unfold hint; by rewrite (proj2 (Z.eqb_neq pid c)), E by done]| |done].
    core_cases. rewrite Hus. unfold place. by rewrite (proj2 (Z.eqb_neq pid c)).
  - rewrite Ha in E by lia. done.
  - split; core_cases; [rewrite Hus; unfold place; by rewrite (proj2 (Z.eqb_neq pid c))|rewrite Hug; unfold hint; by rewrite E, andb_false_r].
Qed.
Lemma moves_enter_mask pid mask p : 0 <= p < 64 -> -1 <= pid < 4 -> (0 <= pid -> allows mask pid = true) ->
  moves ths t (for_cores (fun c => when (allows mask c) (if c =? to_u32 pid then Schedule p c t else Suggest p c t)))
    nowhere nowhere (place pid p) (hint pid mask p).
Proof.
  intros Hp Hpid Ha. apply moves_for_cores. intros c Hc us ug Hus Hug. rewrite u32_core by done.
  apply moves_when; intros E; (destruct (Z.eqb_spec pid c) as [->|Hne]).
  - eapply moves_ext; [apply (moves_schedule ths t p c us ug false); [done|done|by rewrite Hus]|..]; unfold place, hint; rewrite Z.eqb_refl; core_cases.
  - eapply moves_ext; [apply moves_suggest; [done|done|by rewrite Hug]|..]; unfold place, hint; rewrite (proj2 (Z.eqb_neq pid c)), ?E by done; core_cases.
  - rewrite Ha in E by lia. done.
  - split; unfold place, hint; rewrite (proj2 (Z.eqb_neq pid c)), ?E, ?andb_false_r by done; core_cases.
Qed.

(** [TransferToCore]. *)
Lemma moves_transfer src dst mask p : 0 <= p < 64 -> -1 <= src < 4 -> -1 <= dst < 4 -> src <> dst ->
  (0 <= src -> allows mask src = true) -> (0 <= dst -> allows mask dst = true) ->
  moves ths t (fun s =>
    s ← when (0 <=? src) (Unschedule p src t) s;
    s ← when (0 <=? dst) (fun s => s ← Unsuggest p dst t s; Schedule p dst t s) s;
    when (0 <=? src) (Suggest p src t) s)
    (place src p) (hint src mask p) (place dst p) (hint dst mask p).
Proof.
  intros Hp Hs Hd Hne Has Had. apply (moves_then _ _ _ _ _ _ nowhere (hint src mask p)).
  { apply moves_when; [intros H0%Z.leb_le|intros H0%Z.leb_gt; split; core_cases].
    eapply moves_ext; [apply moves_unschedule; [lia|unfold place; by rewrite Z.eqb_refl]|core_cases|done]. }
  set (yg := fun c => if c =? dst then None else hint src mask p c).
  apply (moves_then _ _ _ _ _ _ (place dst p) yg).
  - apply moves_when; [intros H0%Z.leb_le|intros H0%Z.leb_gt; split; subst yg; core_cases].
    apply (moves_then _ _ _ _ _ _ nowhere yg).
    + eapply moves_ext; [apply moves_unsuggest; [lia|unfold hint; rewrite Had by lia; by rewrite (proj2 (Z.eqb_neq src dst))]|done|done].
    + eapply moves_ext; [apply (moves_schedule ths t p dst nowhere yg false); [done|lia|done]|core_cases|done].
  - assert (forall c, 0 <= c < 4 -> upd yg src (if 0 <=? src then Some p else yg src) c = hint dst mask p c) as Hg.
    { intros c Hc. unfold upd, yg, hint. destruct (Z.eqb_spec c src) as [->|]; [rewrite (proj2 (Z.leb_le 0 src)) by lia|].
      - rewrite (proj2 (Z.eqb_neq dst src)), Has by (lia || done). done.
      - destruct (Z.eqb_spec c dst) as [->|]; [by rewrite Z.eqb_refl|].
        rewrite (proj2 (Z.eqb_neq src c)), (proj2 (Z.eqb_neq dst c)) by lia. done. }
    apply moves_when; intros H0.
    + rewrite H0 in Hg. apply Z.leb_le in H0. eapply moves_ext; [apply moves_suggest; [done|lia|]|done|exact Hg].
      unfold yg, hint. rewrite Z.eqb_refl. by destruct (src =? dst).
    + rewrite H0 in Hg. split; [done|]. intros c Hc. rewrite <- Hg by done. unfold upd. by destruct (Z.eqb_spec c src) as [->|].
Qed.
End AllQueues.

(** ** The operations on a thread *)

Lemma IsRunnable_state th : IsRunnable th = (scheduling_state th =? SchedStatus_Runnable).
Proof. done. Qed.

Lemma runs_runnable th : IsRunnable th = true -> forall c, runs c th = place (processor_id th) (current_priority th) c.
Proof. intros H c. unfold runs. by rewrite H. Qed.
Lemma hints_runnable th : IsRunnable th = true -> forall c, hints c th = hint (processor_id th) (affinity_mask th) (current_priority th) c.
Proof. intros H c. unfold hints. by rewrite H. Qed.
Lemma runs_not th : IsRunnable th = false -> forall c, runs c th = None.
Proof. intros H c. unfold runs. by rewrite H. Qed.
Lemma hints_not th : IsRunnable th = false -> forall c, hints c th = None.
Proof. intros H c. unfold hints. by rewrite H. Qed.

(** A thread that changes: its old place in the queues, its new one. *)
Lemma queues_start s t th th' xs xg : sched_ok s -> threads s !! t = Some th -> (forall c, runs c th = xs c) -> (forall c, hints c th = xg c) ->
  queues_at (set_thread s t th') (threads s) t xs xg.
Proof. intros Hs Ht Hx Hg. apply queues_threads. eapply queues_ext; [by apply ok_queues|intros; apply Hx|intros; apply Hg]. Qed.
Lemma queues_end s ths t th xs xg : queues_at s ths t xs xg -> threads s = <[t := th]> ths ->
  (forall u uh, ths !! u = Some uh -> thread_ok uh) -> thread_ok th -> (forall c, runs c th = xs c) -> (forall c, hints c th = xg c) -> sched_ok s.
Proof. intros Hq Et Hu Hth Hx Hg. eapply queues_ok; [eapply queues_ext; [exact Hq|..]|exact Et|done|done]; intros; by rewrite ?Hx, ?Hg. Qed.

(** The threads but for the field of yields. *)
Definition but_yields (ths : gmap Z Thread) (t : Z) (th : Thread) (s : GlobalScheduler) : Prop :=
  exists n, threads s = <[t := with_yield_count th n]> ths.

Lemma thread_ok_yields th n : thread_ok th -> thread_ok (with_yield_count th n).
Proof. intros []. by split. Qed.

Lemma lookup_set_thread s t th : threads (set_thread s t th) !! t = Some th.
Proof. apply lookup_insert_eq. Qed.

Lemma adjust_status_ok s t th st ps : sched_ok s -> threads s !! t = Some th ->
  exists s', AdjustSchedulingOnStatus (set_thread s t (with_states th st ps)) t (scheduling_state th) = Some s'
    /\ sched_ok s' /\ threads s' = <[t := with_states th st ps]> (threads s).
Proof.
  intros Hs Ht. pose proof (so_threads s Hs t th Ht) as [Hp Hpid Ha Hi Ho]. set (th' := with_states th st ps).
  assert (thread_ok th') as Hok' by (by split). unfold AdjustSchedulingOnStatus.
  rewrite lookup_set_thread. cbn [mbind option_bind]. change (scheduling_state th') with st.
  change (current_priority th') with (current_priority th). change (processor_id th') with (processor_id th).
  destruct (Z.eqb_spec (scheduling_state th) st) as [E|Hne].
  { eexists. split; [done|]. split; [|done]. eapply (queues_end _ (threads s) t th'); [by apply queues_start with th|done|by apply so_threads|done|..];
      intros c; unfold runs, hints, IsRunnable; cbn [th' with_states scheduling_state]; by rewrite E. }
  destruct (Z.eqb_spec (scheduling_state th) SchedStatus_Runnable) as [Er|Er].
  - assert (IsRunnable th = true) as Hr by (by apply Z.eqb_eq). assert (IsRunnable th' = false) as Hr' by (apply Z.eqb_neq; cbn; congruence).
    destruct (moves_leave (threads s) t th' (current_priority th) ltac:(lia) Hpid (set_thread s t th')) as (s1 & E1 & Hq1 & Et1).
    { eapply queues_start; [done|exact Ht|intros c; by rewrite runs_runnable|intros c; by rewrite hints_runnable]. }
    cbn beta in E1. change (processor_id th') with (processor_id th) in E1. rewrite E1. eexists. split; [done|]. split; [|exact Et1].
    eapply (queues_end _ (threads s) t th'); [by apply queues_pending|exact Et1|by apply so_threads|done|..]; intros c; by rewrite ?runs_not, ?hints_not.
  - assert (IsRunnable th = false) as Hr by (by apply Z.eqb_neq). destruct (Z.eqb_spec st SchedStatus_Runnable) as [Er'|Er'].
    + assert (IsRunnable th' = true) as Hr' by (by apply Z.eqb_eq).
      destruct (moves_enter (threads s) t th' (current_priority th) false ltac:(lia) Hpid (set_thread s t th')) as (s1 & E1 & Hq1 & Et1).
      { eapply queues_start; [done|exact Ht|intros c; by rewrite runs_not|intros c; by rewrite hints_not]. }
      cbn beta in E1. change (processor_id th') with (processor_id th) in E1. rewrite E1. eexists. split; [done|]. split; [|exact Et1].
      eapply (queues_end _ (threads s) t th'); [by apply queues_pending|exact Et1|by apply so_threads|done|..]; intros c; by rewrite ?runs_runnable, ?hints_runnable.
    + assert (IsRunnable th' = false) as Hr' by (by apply Z.eqb_neq). eexists. split; [done|]. split; [|done].
      eapply (queues_end _ (threads s) t th' nowhere nowhere); [apply queues_pending, queues_start with th; [done|done|by apply runs_not|by apply hints_not]
        |done|by apply so_threads|done|by apply runs_not|by apply hints_not].
Qed.

Lemma increment_yields s t th : threads s !! t = Some th ->
  IncrementYieldCount s t = Some (set_thread s t (with_yield_count th (to_u64 (yield_count th + 1)))).
Proof. intros Ht. unfold IncrementYieldCount. by rewrite Ht. Qed.

(** [IncrementYieldCount] and [SetReselectionPending] at the end of an
    operation. *)
Lemma finish_yields s ths t th xs xg : queues_at s ths t xs xg -> threads s = <[t := th]> ths ->
  (forall u uh, ths !! u = Some uh -> thread_ok uh) -> thread_ok th -> (forall c, runs c th = xs c) -> (forall c, hints c th = xg c) ->
  exists s', (s ← IncrementYieldCount s t; Some (SetReselectionPending s)) = Some s' /\ sched_ok s' /\ but_yields ths t th s'.
Proof.
  intros Hq Et Hu Hth Hx Hg. rewrite (increment_yields s t th) by (by rewrite Et, lookup_insert_eq). cbn [mbind option_bind].
  set (n := to_u64 _). eexists. split; [done|]. split.
  - eapply (queues_end _ ths t (with_yield_count th n)); [by apply queues_pending, queues_threads| |done|by apply thread_ok_yields|done|done].
    cbn [SetReselectionPending set_thread with_threads threads]. by rewrite Et, insert_insert_eq.
  - exists n. cbn [SetReselectionPending set_thread with_threads threads]. by rewrite Et, insert_insert_eq.
Qed.

Lemma adjust_priority_ok current s t th p : sched_ok s -> threads s !! t = Some th -> 0 <= p < 63 ->
  exists s', SetCurrentPriority current s t p = Some s' /\ sched_ok s'
    /\ exists n, threads s' = <[t := with_yield_count (with_priority th p) n]> (threads s).
Proof.
  intros Hs Ht Hp. pose proof (so_threads s Hs t th Ht) as [Hp0 Hpid Ha Hi Ho]. set (th' := with_priority th p).
  assert (thread_ok th') as Hok' by (by split). unfold SetCurrentPriority. rewrite Ht. cbn [mbind option_bind]. fold th'.
  unfold AdjustSchedulingOnPriority. rewrite lookup_set_thread. cbn [mbind option_bind].
  change (scheduling_state th') with (scheduling_state th). change (processor_id th') with (processor_id th). change (current_priority th') with p.
  rewrite <- IsRunnable_state. destruct (IsRunnable th) eqn:Er; cbn [negb].
  2: { eexists. split; [done|]. split; [|by exists (yield_count th); destruct th].
       eapply (queues_end _ (threads s) t th' nowhere nowhere); [apply queues_start with th; [done|done|by apply runs_not|by apply hints_not]
         |done|by apply so_threads|done|by apply runs_not|by apply hints_not]. }
  destruct (moves_leave (threads s) t th' (current_priority th) ltac:(lia) Hpid (set_thread s t th')) as (s1 & E1 & Hq1 & Et1).
  { eapply queues_start; [done|exact Ht|intros c; by rewrite runs_runnable|intros c; by rewrite hints_runnable]. }
  cbn beta in E1. change (processor_id th') with (processor_id th) in E1.
  destruct (when _ _ (set_thread s t th')) as [s0|]; [|done]. cbn [mbind option_bind] in E1 |- *. rewrite E1. cbn [mbind option_bind].
  destruct (moves_enter (threads s) t th' p (t =? current) ltac:(lia) Hpid s1 Hq1) as (s2 & E2 & Hq2 & Et2).
  cbn beta in E2. change (processor_id th') with (processor_id th) in E2.
  destruct (when _ _ s1) as [s0'|]; [|done]. cbn [mbind option_bind] in E2 |- *. rewrite E2. cbn [mbind option_bind].
  apply (finish_yields s2 (threads s) t th' _ _ Hq2); [by rewrite Et2, Et1|by apply so_threads|done|..]; intros c; by rewrite ?runs_runnable, ?hints_runnable.
Qed.

(** ** Status, activity and affinity *)

Lemma set_status_ok s t th st : sched_ok s -> threads s !! t = Some th ->
  exists s' x, SetStatus s t st = Some s' /\ sched_ok s'
    /\ threads s' = <[t := with_status (with_states th x (pausing_state th)) st]> (threads s).
Proof.
  intros Hs Ht. unfold SetStatus. rewrite Ht. cbn [mbind option_bind]. destruct (decide (st = status th)) as [->|Hne].
  { exists s, (scheduling_state th). split; [done|]. split; [done|]. rewrite insert_id; [done|]. rewrite Ht. by destruct th. }
  unfold SetSchedulingStatus. rewrite Ht. cbn [mbind option_bind]. set (x := _ .| _).
  destruct (adjust_status_ok s t th x (pausing_state th) Hs Ht) as (s1 & -> & Hs1 & Et1). cbn [mbind option_bind].
  rewrite Et1, lookup_insert_eq. cbn [mbind option_bind]. exists (set_thread s1 t (with_status (with_states th x (pausing_state th)) st)), x.
  split; [done|]. assert (threads s1 !! t = Some (with_states th x (pausing_state th))) as Ht1 by (by rewrite Et1, lookup_insert_eq).
  split; [|cbn [set_thread with_threads threads]; by rewrite Et1, insert_insert_eq].
  eapply queues_end; [by apply (queues_start s1 t (with_states th x (pausing_state th)))|done|by apply so_threads| |done|done].
  pose proof (so_threads s1 Hs1 t _ Ht1) as []. by split.
Qed.

Lemma set_activity_ok s t th pause : sched_ok s -> threads s !! t = Some th ->
  exists s' r x y, SetActivity s t pause = Some (s', r) /\ sched_ok s' /\ threads s' = <[t := with_states th x y]> (threads s).
Proof.
  intros Hs Ht. assert (threads s = <[t := with_states th (scheduling_state th) (pausing_state th)]> (threads s)) as Eid
    by (rewrite insert_id; [done|]; rewrite Ht; by destruct th).
  unfold SetActivity. rewrite Ht. cbn [mbind option_bind].
  destruct (_ && _); [eauto 10|]. destruct (IsPendingTermination th); [eauto 10|].
  unfold AddSchedulingFlag, RemoveSchedulingFlag. rewrite Ht. cbn [mbind option_bind].
  destruct pause; destruct (pausing_state th .& ThreadPauseFlag =? 0); cbn [negb]; try solve [eauto 10];
    match goal with |- context [AdjustSchedulingOnStatus (set_thread s t (with_states th ?a ?b)) t _] =>
      destruct (adjust_status_ok s t th a b Hs Ht) as (s1 & -> & Hs1 & Et1) end; cbn [mbind option_bind]; eauto 10.
Qed.

Lemma adjust_affinity_ok s t th pid ideal mask : sched_ok s -> threads s !! t = Some th ->
  -1 <= pid < 4 -> (0 <= pid -> allows mask pid = true) -> -1 <= ideal < 4 ->
  exists s', AdjustSchedulingOnAffinity (set_thread s t (with_core th pid ideal mask)) t (affinity_mask th) (processor_id th) = Some s'
    /\ sched_ok s' /\ exists n, threads s' = <[t := with_yield_count (with_core th pid ideal mask) n]> (threads s).
Proof.
  intros Hs Ht Hpid Ha Hi. pose proof (so_threads s Hs t th Ht) as [Hp Hpid0 Ha0 Hi0 Ho]. set (th' := with_core th pid ideal mask).
  assert (thread_ok th') as Hok' by (by split). unfold AdjustSchedulingOnAffinity. rewrite lookup_set_thread. cbn [mbind option_bind].
  change (scheduling_state th') with (scheduling_state th). change (processor_id th') with pid. change (affinity_mask th') with mask.
  change (current_priority th') with (current_priority th).
  rewrite <- IsRunnable_state. destruct (IsRunnable th) eqn:Er; cbn [negb orb].
  2: { eexists. split; [done|]. split; [|by exists (yield_count th); destruct th].
       eapply (queues_end _ (threads s) t th' nowhere nowhere); [apply queues_start with th; [done|done|by apply runs_not|by apply hints_not]
         |done|by apply so_threads|done|by apply runs_not|by apply hints_not]. }
  rewrite (proj2 (Z.leb_gt THREADPRIO_COUNT _)) by (unfold THREADPRIO_COUNT; lia).
  destruct (moves_leave_mask (threads s) t (processor_id th) (affinity_mask th) (current_priority th) ltac:(lia) Hpid0 Ha0 (set_thread s t th')) as (s1 & E1 & Hq1 & Et1).
  { eapply queues_start; [done|exact Ht|intros c; by rewrite runs_runnable|intros c; by rewrite hints_runnable]. }
  rewrite E1. cbn [mbind option_bind].
  destruct (moves_enter_mask (threads s) t pid mask (current_priority th) ltac:(lia) Hpid Ha s1 Hq1) as (s2 & -> & Hq2 & Et2). cbn [mbind option_bind].
  apply (finish_yields s2 (threads s) t th' _ _ Hq2); [by rewrite Et2, Et1|by apply so_threads|done|..]; intros c; by rewrite ?runs_runnable, ?hints_runnable.
Qed.

(** A mask of cores, and a core it allows or none. *)
Definition affinity_request (new_core mask : Z) : Prop :=
  new_core = -1 \/ new_core = THREADPROCESSORID_DONT_UPDATE \/ (0 <= new_core < 4 /\ allows mask new_core = true).

Lemma highest_set_core mask : -1 <= HighestSetCore mask < 4 /\ (0 <= HighestSetCore mask -> allows mask (HighestSetCore mask) = true).
Proof. unfold HighestSetCore. repeat (case_match; [split; [lia|done]|]). split; [lia|]. lia. Qed.

Lemma allows_testbit mask c : 0 <= c -> allows mask c = Z.testbit mask c.
Proof.
  intros Hc. unfold allows. change 1 with (Z.ones 1). rewrite Z.land_ones, Z.shiftr_div_pow2, <- Z.testbit_spec' by lia. by destruct (Z.testbit mask c).
Qed.
Lemma bit_allowed mask c : 0 <= c -> (mask .& 2 ^ c =? 0) = false -> allows mask c = true.
Proof.
  intros Hc Hm. rewrite allows_testbit by done. destruct (Z.testbit mask c) eqn:E; [done|]. apply Z.eqb_neq in Hm. destruct Hm.
  apply Z.bits_inj'. intros i Hi. rewrite Z.land_spec, testbit_pow2, Z.bits_0 by done.
  destruct (Z.eqb_spec i c) as [->|]; [by rewrite E|apply andb_false_r].
Qed.

Lemma set_affinity_ok s t th new_core mask : sched_ok s -> threads s !! t = Some th -> affinity_request new_core mask ->
  (new_core = THREADPROCESSORID_DONT_UPDATE -> 0 <= ideal_core th) ->
  exists s' r pid ideal m n, SetCoreAndAffinityMask s t new_core mask = Some (s', r) /\ sched_ok s'
    /\ threads s' = <[t := with_yield_count (with_core th pid ideal m) n]> (threads s).
Proof.
  intros Hs Ht Hreq Hupd. pose proof (so_threads s Hs t th Ht) as [Hp Hpid Ha Hi Ho].
  assert (threads s = <[t := with_yield_count (with_core th (processor_id th) (ideal_core th) (affinity_mask th)) (yield_count th)]> (threads s)) as Eid
    by (rewrite insert_id; [done|]; rewrite Ht; by destruct th).
  unfold SetCoreAndAffinityMask. rewrite Ht. cbn [mbind option_bind]. rewrite Ho. cbn [Z.eqb negb].
  set (update := new_core =? THREADPROCESSORID_DONT_UPDATE). set (core := if update then ideal_core th else new_core).
  assert (exists b, (if update then bit ← shl1 core; Some (mask .& bit =? 0) else Some false) = Some b
    /\ (b = false -> -1 <= core < 4 /\ (0 <= core -> allows mask core = true))) as (b & -> & Hb).
  { subst core update. destruct (Z.eqb_spec new_core THREADPROCESSORID_DONT_UPDATE) as [->|Hne].
    - specialize (Hupd eq_refl). rewrite shl1_some by lia. eexists. split; [done|]. intros Hb. split; [lia|]. intros _. by apply bit_allowed; [lia|].
    - eexists. split; [done|]. intros _. destruct Hreq as [->|[->|[Hc Hm]]]; [split; lia|done|split; [lia|done]]. }
  cbn [mbind option_bind]. destruct b; [eauto 12|]. destruct (Hb eq_refl) as [Hcore Hallow].
  destruct (Z.eqb_spec (affinity_mask th) mask) as [<-|Hne].
  - eexists _, _, (processor_id th), core, (affinity_mask th), (yield_count th). split; [done|]. split; [|by destruct th].
    eapply queues_end; [by apply (queues_start s t th)|done|by apply so_threads| |done|done]. by split.
  - set (pid := if _ && _ then _ else _).
    destruct (adjust_affinity_ok s t th pid core mask Hs Ht) as (s1 & E1 & Hs1 & n & Et1); [| |done|].
    + subst pid. destruct (_ && _); [|done]. case_match; [apply highest_set_core|lia].
    + subst pid. destruct ((0 <=? processor_id th) && negb (allows mask (processor_id th))) eqn:E.
      * case_match; [apply highest_set_core|done].
      * intros H0. rewrite (proj2 (Z.leb_le _ _)) in E by done. by apply negb_false_iff in E.
    + rewrite E1. cbn [mbind option_bind]. eauto 12.
Qed.

(** ** Reading the queues *)

Definition scheduled_on s c t : Prop := exists th, threads s !! t = Some th /\ IsRunnable th = true /\ processor_id th = c.
Definition suggested_on s c t : Prop :=
  exists th, threads s !! t = Some th /\ IsRunnable th = true /\ processor_id th <> c /\ allows (affinity_mask th) c = true.

Lemma no_lowest q M : rep q M -> (forall t p, M !! t = Some p -> p < 63) -> Mlq.level q 63 = [].
Proof.
  intros Hq HM. destruct (Mlq.level q 63) as [|t l] eqn:E; [done|]. exfalso.
  assert (M !! t = Some 63) as Ht by (apply (rep_mem q M Hq); [lia|]; rewrite E; left). specialize (HM t 63 Ht). lia.
Qed.

Record readable (q : Mlq.MultiLevelQueue Z) (P : Z -> Prop) : Prop := {
  rd_ok : ok 64 q;
  rd_63 : Mlq.level q 63 = [];
  rd_in t : (t ∈ from q 0) <-> P t;
  rd_nodup : NoDup (from q 0)
}.

Lemma omap_readable s (f : Thread -> option Z) q (P : Z -> Prop) : sched_ok s -> rep q (omap f (threads s)) ->
  (forall th p, f th = Some p -> p = current_priority th) ->
  (forall t, P t <-> exists th, threads s !! t = Some th /\ is_Some (f th)) -> readable q P.
Proof.
  intros Hs Hq Hf HP. split; [by apply (rep_ok q _ Hq)| | |by eapply NoDup_from].
  - apply (no_lowest q _ Hq). intros t p Ht. apply lookup_omap_Some in Ht as (th & E & Ht). rewrite (Hf _ _ E).
    apply (to_priority th), (so_threads s Hs t th Ht).
  - intros t. rewrite (elem_of_from q _ t Hq), HP. rewrite lookup_omap. destruct (threads s !! t) as [th|]; cbn; [naive_solver|].
    split; [by intros []|naive_solver].
Qed.

Lemma read_scheduled s c : sched_ok s -> 0 <= c < 4 -> exists q, scheduled_queue s !! Z.to_nat c = Some q /\ readable q (scheduled_on s c).
Proof.
  intros Hs Hc. destruct (so_runs s Hs c Hc) as (q & E & Hq). exists q. split; [done|]. apply (omap_readable s (runs c)); [done|done|..].
  - intros th p. unfold runs, place. destruct (IsRunnable th); [|done]. case_match; naive_solver.
  - intros t. unfold scheduled_on, runs, place. split; intros (th & Ht & H); exists th; (split; [done|]).
    + destruct H as [-> ->]. rewrite Z.eqb_refl. eauto.
    + destruct (IsRunnable th); [|by destruct H]. destruct (Z.eqb_spec (processor_id th) c); [done|by destruct H].
Qed.
Lemma read_suggested s c : sched_ok s -> 0 <= c < 4 -> exists q, suggested_queue s !! Z.to_nat c = Some q /\ readable q (suggested_on s c).
Proof.
  intros Hs Hc. destruct (so_hints s Hs c Hc) as (q & E & Hq). exists q. split; [done|]. apply (omap_readable s (hints c)); [done|done|..].
  - intros th p. unfold hints, hint. destruct (IsRunnable th); [|done]. case_match; naive_solver.
  - intros t. unfold suggested_on, hints, hint. split; intros (th & Ht & H); exists th; (split; [done|]).
    + destruct H as (-> & Hne & ->). rewrite (proj2 (Z.eqb_neq _ _)) by done. cbn. eauto.
    + destruct (IsRunnable th); [|by destruct H]. destruct (Z.eqb_spec (processor_id th) c); [by destruct H|].
      destruct (allows (affinity_mask th) c); [done|by destruct H].
Qed.

(** The first thread of a queue. *)
Definition first_of s c (x : option Z) : Prop := match x with Some t => scheduled_on s c t | None => forall t, ~ scheduled_on s c t end.

Lemma top_first s c q : readable q (scheduled_on s c) -> first_of s c (top q).
Proof.
  intros [Ho _ Hin _]. rewrite top_from by done. destruct (from q 0) as [|t l]; cbn.
  - intros t Ht. apply Hin in Ht. by apply not_elem_of_nil in Ht.
  - apply Hin. left.
Qed.
Lemma lookup_tops s c : sched_ok s -> 0 <= c < 4 -> exists x, tops s !! Z.to_nat c = Some x /\ top_of s c = Some x /\ first_of s c x.
Proof.
  intros Hs Hc. destruct (read_scheduled s c Hs Hc) as (q & E & Hq). exists (top q). unfold tops, top_of.
  rewrite list_lookup_fmap, E. split; [done|]. split; [done|]. by apply top_first.
Qed.
Lemma above_total s c x bound : first_of s c x -> exists b, above s x bound = Some b.
Proof. destruct x as [t|]; [|by exists false]. intros (th & Ht & _). unfold above. rewrite Ht. eauto. Qed.

(** ** Moves between cores *)

Definition same_threads s s' : Prop := dom (threads s') = dom (threads s).
Lemma same_insert s s' t th th' : threads s !! t = Some th -> threads s' = <[t := th']> (threads s) -> same_threads s s'.
Proof. intros Ht E. unfold same_threads. rewrite E, dom_insert_L. apply elem_of_dom_2 in Ht. set_solver. Qed.
Lemma same_lookup s s' t : same_threads s s' -> is_Some (threads s !! t) -> is_Some (threads s' !! t).
Proof. unfold same_threads. intros E. rewrite <- !elem_of_dom. by rewrite E. Qed.

Lemma transfer_to_core_ok s t th dst : sched_ok s -> threads s !! t = Some th -> IsRunnable th = true -> -1 <= dst < 4 ->
  (0 <= dst -> allows (affinity_mask th) dst = true) ->
  exists s', TransferToCore (current_priority th) dst t s = Some s' /\ sched_ok s' /\ threads s' = <[t := SetProcessorID th dst]> (threads s).
Proof.
  intros Hs Ht Hr Hd Had. pose proof (so_threads s Hs t th Ht) as [Hp Hpid Ha Hi Ho]. unfold TransferToCore. rewrite Ht. cbn [mbind option_bind].
  rewrite (proj2 (Z.ltb_lt _ THREADPRIO_COUNT)) by (unfold THREADPRIO_COUNT; lia). cbn [negb].
  destruct (Z.eqb_spec (processor_id th) dst) as [<-|Hne]; cbn [orb].
  { exists s. split; [done|]. split; [done|]. rewrite insert_id; [done|]. rewrite Ht. by destruct th. }
  set (th' := SetProcessorID th dst).
  destruct (moves_transfer (threads s) t (processor_id th) dst (affinity_mask th) (current_priority th) ltac:(lia) Hpid Hd Hne Ha Had (set_thread s t th'))
    as (s1 & E1 & Hq1 & Et1).
  { eapply queues_start; [done|exact Ht|intros c; by rewrite runs_runnable|intros c; by rewrite hints_runnable]. }
  exists s1. split; [exact E1|]. split; [|exact Et1].
  eapply (queues_end s1 (threads s) t th'); [exact Hq1|exact Et1|by apply so_threads|by split|..]; intros c; [rewrite runs_runnable|rewrite hints_runnable]; done.
Qed.

Lemma reschedule_ok s t th : sched_ok s -> threads s !! t = Some th -> IsRunnable th = true -> 0 <= processor_id th ->
  exists s', Reschedule (current_priority th) (processor_id th) t s = Some s' /\ sched_ok s' /\ threads s' = threads s.
Proof.
  intros Hs Ht Hr H0. pose proof (so_threads s Hs t th Ht) as [Hp Hpid Ha Hi Ho].
  destruct (on_scheduled_at s (threads s) t (fun c => runs c th) (fun c => hints c th) (processor_id th)
    (fun q => Mlq.add (Mlq.remove q t (current_priority th)) t (current_priority th) true) (Some (current_priority th))) as (s1 & E1 & Hq1 & Et1).
  - by apply ok_queues.
  - lia.
  - intros q M. rewrite runs_runnable by done. unfold place. rewrite Z.eqb_refl. intros Hq. apply rep_readd; [done|apply lookup_partial_alter_eq].
  - exists s1. split; [exact E1|]. split; [|done]. eapply (queues_end s1 (threads s) t th); [exact Hq1|by rewrite Et1, insert_id|by apply so_threads|by split| |done].
    intros c. unfold upd. destruct (Z.eqb_spec c (processor_id th)) as [->|]; [|done]. rewrite runs_runnable by done. unfold place. by rewrite Z.eqb_refl.
Qed.

Lemma pending_ok s : sched_ok s -> sched_ok (SetReselectionPending s).
Proof. intros []. by split. Qed.
Lemma increment_ok s t : sched_ok s -> is_Some (threads s !! t) -> exists s', IncrementYieldCount s t = Some s' /\ sched_ok s' /\ same_threads s s'.
Proof.
  intros Hs [th Ht]. rewrite (increment_yields s t th Ht). set (n := to_u64 _). eexists. split; [done|]. split; [|by eapply same_insert].
  eapply queues_end; [by apply (queues_start s t th)|done|by apply so_threads|by apply thread_ok_yields, (so_threads s Hs t)|done|done].
Qed.
Lemma ask_ok host core s t w : sched_ok s -> is_Some (threads s !! t) -> exists s' b, ask_from host core s t w = Some (s', b) /\ sched_ok s' /\ same_threads s s'.
Proof.
  intros Hs Ht. unfold ask_from, AskForReselectionOrMarkRedundant.
  assert (exists s1, (if host =? core then s else SetReselectionPending s) = s1 /\ sched_ok s1 /\ threads s1 = threads s) as (s1 & -> & Hs1 & E1)
    by (case_match; eexists; (split; [done|]); auto using pending_ok).
  case_decide.
  - destruct (increment_ok s1 t Hs1) as (s2 & -> & Hs2 & Hd2); [by rewrite E1|]. cbn. exists s2, true. split; [done|]. split; [done|].
    unfold same_threads in *. by rewrite Hd2, E1.
  - eexists _, _. split; [done|]. split; [by apply pending_ok|]. unfold same_threads. cbn. by rewrite E1.
Qed.

(** ** Yields *)

Lemma same_refl s s' : threads s' = threads s -> same_threads s s'.
Proof. intros E. unfold same_threads. by rewrite E. Qed.
Lemma same_trans s1 s2 s3 : same_threads s1 s2 -> same_threads s2 s3 -> same_threads s1 s3.
Proof. unfold same_threads. congruence. Qed.

(** A suggested thread moves to the core. *)
Lemma take_suggested s c w : sched_ok s -> 0 <= c < 4 -> suggested_on s c w ->
  exists s', (wth ← threads s !! w; TransferToCore (current_priority wth) c w s) = Some s' /\ sched_ok s' /\ same_threads s s'
    /\ scheduled_on s' c w.
Proof.
  intros Hs Hc (wth & Hw & Hr & _ & Ha). rewrite Hw. cbn [mbind option_bind].
  destruct (transfer_to_core_ok s w wth c Hs Hw Hr ltac:(lia) ltac:(done)) as (s' & -> & Hs' & E). exists s'. split; [done|]. split; [done|].
  split; [by eapply same_insert|]. exists (SetProcessorID wth c). by rewrite E, lookup_insert_eq.
Qed.
Lemma take_other s c w t : sched_ok s -> 0 <= c < 4 -> suggested_on s c w ->
  exists s', (if w =? t then Some s else wth ← threads s !! w; TransferToCore (current_priority wth) c w s) = Some s' /\ sched_ok s' /\ same_threads s s'.
Proof.
  intros Hs Hc Hw. destruct (w =? t); [exists s; split; [done|]; split; [done|by apply same_refl]|].
  destruct (take_suggested s c w Hs Hc Hw) as (s' & E & Hs' & Hd & _). eauto.
Qed.

(** A loop over a suggested queue whose body returns, with threads of the
    queue as its results. *)
Lemma scan_suggested {A R} early s c g (f : A -> Z -> option (A + R)) (P : A -> Prop) (Q : R -> Prop) acc :
  readable g (suggested_on s c) -> P acc ->
  (forall acc t, P acc -> suggested_on s c t -> exists r, f acc t = Some r /\ match r with inl acc => P acc | inr r => Q r end) ->
  exists r, scan_queue early g f acc = Some r /\ match r with inl acc => P acc | inr r => Q r end.
Proof.
  intros [Ho H63 Hin _] Ha Hf. rewrite scan_queue_spec by done. apply fold_break_total; [|done]. intros a t Ht Hg. apply Hf; [done|by apply Hin].
Qed.

Lemma pid_core s t th : sched_ok s -> threads s !! t = Some th -> 0 <= processor_id th -> to_u32 (processor_id th) = processor_id th /\ 0 <= processor_id th < 4.
Proof. intros Hs Ht H0. pose proof (so_threads s Hs t th Ht) as [_ Hpid _ _ _]. split; [apply to_u32_id; unfold is_u32; lia|lia]. Qed.

Section Yields.
Context (host : Z) (s : GlobalScheduler) (t : Z) (th : Thread) (Hs : sched_ok s) (Ht : threads s !! t = Some th)
  (Hrun : IsRunnable th = true -> 0 <= processor_id th).

Definition yields_ok (r : option (GlobalScheduler * bool)) : Prop := exists s' b, r = Some (s', b) /\ sched_ok s' /\ same_threads s s'.

Lemma yields_not_runnable : yields_ok (Some (SetReselectionPending s, false)).
Proof. eexists _, _. split; [done|]. split; [by apply pending_ok|by apply same_refl]. Qed.
Lemma yields_ask c s1 w : sched_ok s1 -> same_threads s s1 -> yields_ok (ask_from host c s1 t w).
Proof.
  intros Hs1 Hd. destruct (ask_ok host c s1 t w Hs1) as (s2 & b & E & Hs2 & Hd2); [by eapply same_lookup|].
  exists s2, b. split; [done|]. split; [done|by eapply same_trans].
Qed.

Lemma yield_thread_ok : yields_ok (YieldThread host s t).
Proof.
  unfold YieldThread. rewrite Ht. cbn [mbind option_bind]. destruct (IsRunnable th) eqn:Er; [|apply yields_not_runnable].
  destruct (pid_core s t th Hs Ht (Hrun eq_refl)) as [-> Hc]. cbn [negb].
  destruct (reschedule_ok s t th Hs Ht Er (Hrun eq_refl)) as (s1 & -> & Hs1 & E1). cbn [mbind option_bind].
  destruct (read_scheduled s1 (processor_id th) Hs1 Hc) as (q & -> & _). cbn [mbind option_bind]. apply yields_ask; [done|by apply same_refl].
Qed.

Lemma balance_body_ok s1 priority next c u : sched_ok s1 -> is_Some (threads s1 !! next) -> suggested_on s1 c u ->
  exists r, balance_body s1 priority next tt u = Some r /\ match r with inl _ => True | inr w => w = u end.
Proof.
  intros Hs1 [nth Hn] (uh & Hu & _ & _ & _). unfold balance_body. rewrite Hu. cbn [mbind option_bind].
  assert (exists b, (if 0 <=? processor_id uh then c0 ← tops s1 !! Z.to_nat (processor_id uh); high ← above s1 c0 min_regular_priority;
    Some (bool_decide (c0 = Some u) || high) else Some false) = Some b) as [b ->].
  { destruct (Z.leb_spec 0 (processor_id uh)); [|eauto]. destruct (pid_core s1 u uh Hs1 Hu ltac:(done)) as [_ Hc'].
    destruct (lookup_tops s1 (processor_id uh) Hs1 Hc') as (x & -> & _ & Hx). cbn [mbind option_bind].
    destruct (above_total s1 _ x min_regular_priority Hx) as [b ->]. cbn. eauto. }
  cbn [mbind option_bind]. destruct b; [by exists (inl tt)|]. rewrite Hn. cbn [mbind option_bind]. case_match; by eexists.
Qed.

Lemma front_scheduled s1 c q p u : readable q (scheduled_on s1 c) -> 0 <= p < 64 -> u ∈ Mlq.level q p -> exists x, Mlq.front 64 q p = Some x /\ scheduled_on s1 c x.
Proof.
  intros [Ho _ Hin _] Hp Hu. assert (from q p <> []) as Hne. { rewrite from_step by lia. by destruct (Mlq.level q p); [apply not_elem_of_nil in Hu|]. }
  rewrite (front_spec 64 depth64 q p Ho Hp Hne). destruct (from q p) as [|x l] eqn:E; [done|]. exists x. split; [done|]. apply Hin.
  unfold from in *. rewrite list_elem_of_In. change (Z.to_nat 0) with 0%nat. rewrite drop_0. apply in_concat.
  assert (In x (concat (drop (Z.to_nat p) (Mlq.levels q)))) as Hx by (rewrite E; by left). apply in_concat in Hx as (l' & Hl & Hx). exists l'. split; [|done].
  apply list_elem_of_In in Hl. apply list_elem_of_In. rewrite <- (take_drop (Z.to_nat p)). apply elem_of_app. by right.
Qed.

Lemma yield_balance_ok : yields_ok (YieldThreadAndBalanceLoad host s t).
Proof.
  unfold YieldThreadAndBalanceLoad. rewrite Ht. cbn [mbind option_bind]. destruct (IsRunnable th) eqn:Er; [|apply yields_not_runnable].
  destruct (pid_core s t th Hs Ht (Hrun eq_refl)) as [-> Hc]. cbn [negb]. pose proof (to_priority th (so_threads s Hs t th Ht)) as Hp.
  destruct (reschedule_ok s t th Hs Ht Er (Hrun eq_refl)) as (s1 & -> & Hs1 & E1). cbn [mbind option_bind].
  destruct (read_scheduled s1 (processor_id th) Hs1 Hc) as (q & Eq & Hq). rewrite Eq. cbn [mbind option_bind].
  assert (t ∈ Mlq.level q (current_priority th)) as Hin.
  { destruct (so_runs s1 Hs1 (processor_id th) Hc) as (q' & Eq' & Hq'). rewrite Eq in Eq'. injection Eq' as <-. apply (rep_mem q _ Hq'); [lia|].
    rewrite lookup_omap, E1, Ht. cbn. rewrite runs_runnable by done. unfold place. by rewrite Z.eqb_refl. }
  destruct (front_scheduled s1 _ q (current_priority th) t Hq ltac:(lia) Hin) as (next & -> & (nth & Hn & _)). cbn [mbind option_bind].
  destruct (read_suggested s1 (processor_id th) Hs1 Hc) as (g & -> & Hg). cbn [mbind option_bind].
  destruct (scan_suggested false s1 (processor_id th) g (balance_body s1 (current_priority th) next) (fun _ => True) (suggested_on s1 (processor_id th)) tt Hg I)
    as (r & -> & Hr).
  { intros [] u _ Hu. destruct (balance_body_ok s1 (current_priority th) next _ u Hs1 ltac:(eauto) Hu) as ([[]|w] & E & Hw); (eexists; split; [exact E|]); [done|by subst]. }
  cbn [mbind option_bind]. destruct r as [_|w]; [apply yields_ask; [done|by apply same_refl]|].
  destruct (take_other s1 (processor_id th) w t Hs1 Hc Hr) as (s2 & -> & Hs2 & Hd2). cbn [mbind option_bind]. apply yields_ask; [done|].
  eapply same_trans; [by apply same_refl|done].
Qed.

Lemma wait_body_ok s1 c u : sched_ok s1 -> suggested_on s1 c u ->
  exists r, wait_body s1 tt u = Some r /\ match r with inl _ => True | inr w => w = None \/ w = Some u end.
Proof.
  intros Hs1 (uh & Hu & _ & _ & _). unfold wait_body. rewrite Hu. cbn [mbind option_bind]. destruct (Z.ltb_spec (processor_id uh) 0); [by exists (inl tt)|].
  destruct (pid_core s1 u uh Hs1 Hu ltac:(done)) as [_ Hc']. destruct (lookup_tops s1 (processor_id uh) Hs1 Hc') as (x & -> & _ & Hx). cbn [mbind option_bind].
  case_decide; [by exists (inl tt)|]. destruct (above_total s1 _ x min_regular_priority Hx) as [b ->]. cbn.
  destruct b; (eexists; split; [reflexivity|]); cbn; [by left|by right].
Qed.

Lemma yield_wait_ok : yields_ok (YieldThreadAndWaitForLoadBalancing host s t).
Proof.
  unfold YieldThreadAndWaitForLoadBalancing. rewrite Ht. cbn [mbind option_bind]. destruct (IsRunnable th) eqn:Er; [|apply yields_not_runnable].
  destruct (pid_core s t th Hs Ht (Hrun eq_refl)) as [-> Hc]. cbn [negb].
  destruct (transfer_to_core_ok s t th (-1) Hs Ht Er ltac:(lia) ltac:(lia)) as (s1 & -> & Hs1 & E1). cbn [mbind option_bind].
  assert (same_threads s s1) as Hd1 by (by eapply same_insert).
  destruct (read_scheduled s1 (processor_id th) Hs1 Hc) as (q & -> & Hq). cbn [mbind option_bind]. case_match; [|by apply yields_ask].
  destruct (read_suggested s1 (processor_id th) Hs1 Hc) as (g & -> & Hg). cbn [mbind option_bind].
  destruct (scan_suggested false s1 (processor_id th) g (wait_body s1) (fun _ => True)
    (fun w => match w with None => True | Some w => suggested_on s1 (processor_id th) w end) tt Hg I) as (r & -> & Hr).
  { intros [] u _ Hu. destruct (wait_body_ok s1 _ u Hs1 Hu) as ([[]|w] & E & Hw); (eexists; split; [exact E|]); [done|]. by destruct Hw as [-> | ->]. }
  cbn [mbind option_bind]. destruct r as [_|[w|]]; [by apply yields_ask| |by apply yields_ask].
  destruct (take_other s1 (processor_id th) w t Hs1 Hc Hr) as (s2 & -> & Hs2 & Hd2). cbn [mbind option_bind]. apply yields_ask; [done|by eapply same_trans].
Qed.
End Yields.

(** ** Preemption *)

Lemma yield_level_ok s c p : sched_ok s -> 0 <= c < 4 -> 0 <= p < 64 ->
  exists s', on_scheduled s c (fun q => Mlq.yield q p 1) = Some s' /\ sched_ok s' /\ threads s' = threads s.
Proof.
  intros [H1 H2 H3 H4 H5] Hc Hp. unfold on_scheduled. destruct (H3 c Hc) as (q & Eq & Hq). rewrite Eq. eexists. split; [done|]. split; [|done].
  split; cbn [with_scheduled scheduled_queue suggested_queue threads]; [by rewrite length_insert|done| |done|done].
  intros c' Hc'. destruct (Z.eq_dec c' c) as [->|Hne]; [rewrite list_lookup_insert_eq by lia; eauto using rep_yield|].
  rewrite list_lookup_insert_ne by lia. by apply H3.
Qed.

Lemma count_front_ok s c p : sched_ok s -> 0 <= c < 4 -> 0 <= p < 64 -> exists s', count_front s c p = Some s' /\ sched_ok s' /\ same_threads s s'.
Proof.
  intros Hs Hc Hp. unfold count_front. destruct (read_scheduled s c Hs Hc) as (q & -> & Hq). cbn [mbind option_bind].
  destruct (Z.ltb_spec 1 (Mlq.size_at q p)) as [Hsz|]; [|exists s; split; [done|]; split; [done|by apply same_refl]].
  unfold Mlq.size_at in Hsz. destruct (Mlq.level q p) as [|u l] eqn:El; [cbn in Hsz; lia|].
  destruct (front_scheduled s c q p u Hq Hp) as (x & -> & (xh & Hx & _)); [rewrite El; left|]. cbn [mbind option_bind]. apply increment_ok; [done|eauto].
Qed.

Lemma rotate_ok s c p : sched_ok s -> 0 <= c < 4 -> 0 <= p < 64 -> exists s', rotate s c p = Some s' /\ sched_ok s' /\ same_threads s s'.
Proof.
  intros Hs Hc Hp. unfold rotate. destruct (read_scheduled s c Hs Hc) as (q & -> & _). cbn [mbind option_bind].
  case_match; [|exists s; split; [done|]; split; [done|by apply same_refl]].
  destruct (count_front_ok s c p Hs Hc Hp) as (s1 & -> & Hs1 & Hd1). cbn [mbind option_bind].
  destruct (yield_level_ok s1 c p Hs1 Hc Hp) as (s2 & -> & Hs2 & E2). cbn [mbind option_bind].
  destruct (count_front_ok s2 c p Hs2 Hc Hp) as (s3 & -> & Hs3 & Hd3). exists s3. split; [done|]. split; [done|].
  eapply same_trans; [done|]. eapply same_trans; [by apply same_refl|done].
Qed.

(** A thread or none, known to the scheduler. *)
Definition known s (x : option Z) : Prop := match x with Some t => is_Some (threads s !! t) | None => True end.
Lemma known_above s x bound : known s x -> exists b, above s x bound = Some b.
Proof. destruct x as [t|]; [|by exists false]. intros [th Ht]. unfold above. rewrite Ht. eauto. Qed.
Lemma known_same s s' x : same_threads s s' -> known s x -> known s' x.
Proof. destruct x; [|done]. apply same_lookup. Qed.
Lemma first_known s c x : first_of s c x -> known s x.
Proof. destruct x; [|done]. intros (th & Ht & _). exists th. exact Ht. Qed.

Definition suggested_or_none s c (x : option Z) : Prop := match x with Some t => suggested_on s c t | None => True end.

Lemma preempt_body_ok s c current skip u : sched_ok s -> known s current -> suggested_on s c u ->
  exists r, preempt_body s current skip tt u = Some r /\
    match r with inl _ => True | inr w => suggested_or_none s c w /\ (current = None -> w = None) end.
Proof.
  intros Hs Hcur Hsug. pose proof Hsug as (uh & Hu & _). unfold preempt_body. rewrite Hu. cbn [mbind option_bind].
  destruct (skip (current_priority uh)); [by exists (inl tt)|].
  assert (exists r, match current with
    | None => Some (inl tt)
    | Some c => cth ← threads s !! c; Some (if last_running_ticks uh <=? last_running_ticks cth then inr (Some u) else inl tt)
    end = Some r /\ match r with inl _ => True | inr w => suggested_or_none s c w /\ (current = None -> w = None) end) as Hdec.
  { destruct current as [x|]; [|by exists (inl tt)]. destruct Hcur as [xh Hx]. rewrite Hx. cbn [mbind option_bind]. case_match; by eexists. }
  destruct (Z.leb_spec 0 (processor_id uh)); [|done]. destruct (pid_core s u uh Hs Hu ltac:(done)) as [_ Hc'].
  destruct (lookup_tops s (processor_id uh) Hs Hc') as (x & _ & -> & Hx). cbn [mbind option_bind].
  destruct (above_total s _ x 2 Hx) as [b ->]. cbn [mbind option_bind]. destruct b; [by eexists|]. case_decide; [by exists (inl tt)|done].
Qed.

Lemma preempt_scan_ok s c current skip : sched_ok s -> 0 <= c < 4 -> known s current ->
  exists w, preempt_scan s c current skip = Some w /\ suggested_or_none s c w /\ (current = None -> w = None).
Proof.
  intros Hs Hc Hcur. unfold preempt_scan. destruct (read_suggested s c Hs Hc) as (g & -> & Hg). cbn [mbind option_bind].
  destruct (scan_suggested false s c g (preempt_body s current skip) (fun _ => True)
    (fun w => suggested_or_none s c w /\ (current = None -> w = None)) tt Hg I) as (r & -> & Hr).
  { intros [] u _ Hu. by apply preempt_body_ok. }
  cbn [mbind option_bind]. destruct r as [_|w]; eexists; (split; [done|]); done.
Qed.

Lemma take_winner_ok s c w : sched_ok s -> 0 <= c < 4 -> suggested_or_none s c w \/ (exists x, w = Some x /\ scheduled_on s c x) ->
  exists s', take_winner s c w = Some s' /\ sched_ok s' /\ same_threads s s' /\ forall x, w = Some x -> scheduled_on s' c x.
Proof.
  intros Hs Hc Hw. unfold take_winner. destruct w as [x|]; [|exists s; split; [done|]; split; [done|]; split; [by apply same_refl|done]].
  destruct Hw as [Hw|(y & [= <-] & (xh & Hx & Hr & Hp))].
  - destruct (take_suggested s c x Hs Hc Hw) as (s' & E & Hs' & Hd & Hx). exists s'. split; [done|]. split; [done|]. split; [done|]. by intros ? [= <-].
  - rewrite Hx. cbn [mbind option_bind]. unfold TransferToCore. rewrite Hx. cbn [mbind option_bind]. rewrite Hp, Z.eqb_refl. cbn [orb].
    exists s. split; [done|]. split; [done|]. split; [by apply same_refl|]. intros ? [= <-]. by exists xh.
Qed.

Lemma preempt_core_ok s c : sched_ok s -> 0 <= c < 4 -> exists s', preempt_core c s = Some s' /\ sched_ok s' /\ same_threads s s'.
Proof.
  intros Hs Hc. unfold preempt_core. assert (exists p, preemption_priorities !! Z.to_nat c = Some p /\ 0 <= p < 63) as (p & -> & Hp).
  { assert (c = 0 \/ c = 1 \/ c = 2 \/ c = 3) as [-> |[-> |[-> | ->]]] by lia; eexists; (split; [reflexivity|lia]). }
  cbn [mbind option_bind]. destruct (rotate_ok s c p Hs Hc ltac:(lia)) as (s1 & -> & Hs1 & Hd1). cbn [mbind option_bind].
  destruct (lookup_tops s1 c Hs1 Hc) as (cur & _ & -> & Hcur). apply first_known in Hcur. cbn [mbind option_bind].
  destruct (preempt_scan_ok s1 c cur (fun x => negb (x =? p)) Hs1 Hc Hcur) as (w & -> & Hw & Hnone). cbn [mbind option_bind].
  destruct (take_winner_ok s1 c w Hs1 Hc (or_introl Hw)) as (s2 & -> & Hs2 & Hd2 & Hw2). cbn [mbind option_bind].
  assert (exists cur', better s2 cur w = Some cur' /\ known s2 cur') as (cur' & -> & Hcur').
  { apply (known_same s1 s2) in Hcur; [|done]. unfold better. destruct w as [x|]; [|by exists cur]. destruct (Hw2 x eq_refl) as (xh & Hx & _).
    destruct cur as [y|]; [|by discriminate Hnone]. destruct Hcur as [yh Hy]. rewrite Hx, Hy. cbn [mbind option_bind]. case_match; eexists; (split; [done|]); eexists; done. }
  cbn [mbind option_bind]. destruct (known_above s2 cur' (p + 1) Hcur') as [b ->]. cbn [mbind option_bind].
  assert (same_threads s s2) as Hd by (by eapply same_trans).
  assert (forall s3, sched_ok s3 -> same_threads s2 s3 -> exists s', Some (SetReselectionPending s3) = Some s' /\ sched_ok s' /\ same_threads s s') as Hend.
  { intros s3 Hs3 Hd3. eexists. split; [done|]. split; [by apply pending_ok|]. eapply same_trans; [by eapply same_trans|by apply same_refl]. }
  case_decide; [by apply Hend; [|apply same_refl]|]. destruct b; [by apply Hend; [|apply same_refl]|].
  destruct (preempt_scan_ok s2 c cur' (fun x => x <? p) Hs2 Hc Hcur') as (w' & -> & Hw' & _). cbn [mbind option_bind].
  destruct (take_winner_ok s2 c (match w' with Some _ => w' | None => w end) Hs2 Hc) as (s3 & -> & Hs3 & Hd3 & _).
  { destruct w' as [x|]; [by left|]. destruct w as [x|]; [|by left]. right. eauto. }
  by apply Hend.
Qed.

Lemma preempt_threads_ok s : sched_ok s -> exists s', PreemptThreads s = Some s' /\ sched_ok s' /\ same_threads s s'.
Proof.
  intros Hs. unfold PreemptThreads, for_cores.
  destruct (preempt_core_ok s 0 Hs ltac:(lia)) as (s1 & -> & Hs1 & Hd1). cbn [mbind option_bind].
  destruct (preempt_core_ok s1 1 Hs1 ltac:(lia)) as (s2 & -> & Hs2 & Hd2). cbn [mbind option_bind].
  destruct (preempt_core_ok s2 2 Hs2 ltac:(lia)) as (s3 & -> & Hs3 & Hd3). cbn [mbind option_bind].
  destruct (preempt_core_ok s3 3 Hs3 ltac:(lia)) as (s4 & -> & Hs4 & Hd4). exists s4. split; [done|]. split; [done|]. unfold same_threads in *. congruence.
Qed.
