(* ===== verification/SchedulerSelect.v ===== *)
(** * Selection of threads

    [SelectThreads] of [Scheduler] keeps the invariant of the queues, never
    writes past its array of candidates, and gives every core the first thread
    of its queue. *)

From S2P Require Import Prelude BitUtil KernelObject MultiLevelQueue Scheduler SchedulerQueues SchedulerCorrect.
From stdpp Require Import base list gmap.
Open Scope Z_scope.
Import Sched.
Implicit Types (s : GlobalScheduler) (th : Thread) (t p c : Z).

(** ** The scheduled queues after a transfer *)

Lemma on_scheduled_lookup s c f s' i : on_scheduled s c f = Some s' ->
  scheduled_queue s' !! i = if (i =? Z.to_nat c)%nat then f <$> scheduled_queue s !! i else scheduled_queue s !! i.
Proof.
  unfold on_scheduled. destruct (scheduled_queue s !! Z.to_nat c) as [q|] eqn:Eq; [|done]. intros [= <-]. cbn [with_scheduled scheduled_queue].
  destruct (Nat.eqb_spec i (Z.to_nat c)) as [->|Hne]; [|by rewrite list_lookup_insert_ne].
  rewrite Eq. apply list_lookup_insert_eq. by eapply lookup_lt_Some.
Qed.
Lemma on_suggested_scheduled s c f s' : on_suggested s c f = Some s' -> scheduled_queue s' = scheduled_queue s.
Proof. unfold on_suggested. destruct (suggested_queue s !! Z.to_nat c); [|done]. by intros [= <-]. Qed.

Lemma transfer_scheduled s t th dst s' i : threads s !! t = Some th -> current_priority th < 64 -> processor_id th <> dst -> 0 <= dst < 4 ->
  TransferToCore (current_priority th) dst t s = Some s' ->
  scheduled_queue s' !! i =
    if (i =? Z.to_nat dst)%nat then (fun q => Mlq.add q t (current_priority th) true) <$>
      (if (0 <=? processor_id th) && (i =? Z.to_nat (processor_id th))%nat then (fun q => Mlq.remove q t (current_priority th)) <$> scheduled_queue s !! i
       else scheduled_queue s !! i)
    else if (0 <=? processor_id th) && (i =? Z.to_nat (processor_id th))%nat
         then (fun q => Mlq.remove q t (current_priority th)) <$> scheduled_queue s !! i else scheduled_queue s !! i.
Proof.
  intros Ht Hp Hne Hd E. unfold TransferToCore in E. rewrite Ht in E. cbn [mbind option_bind] in E.
  rewrite (proj2 (Z.ltb_lt _ THREADPRIO_COUNT)), (proj2 (Z.eqb_neq _ dst)) in E by done. cbn [negb orb] in E.
  set (s0 := set_thread s t (SetProcessorID th dst)) in E. set (p := current_priority th) in *. set (src := processor_id th) in *.
  unfold when in E. rewrite (proj2 (Z.leb_le 0 dst)) in E by lia.
  assert (exists s1, (if 0 <=? src then Unschedule p src t s0 else Some s0) = Some s1 /\ scheduled_queue s1 !! i
    = if (0 <=? src) && (i =? Z.to_nat src)%nat then (fun q => Mlq.remove q t p) <$> scheduled_queue s !! i else scheduled_queue s !! i) as (s1 & E1 & H1).
  { destruct (0 <=? src); cbn [andb]; [|by exists s0]. destruct (Unschedule p src t s0) as [s1|] eqn:Eu; [|done]. exists s1. split; [done|].
    by rewrite (on_scheduled_lookup _ _ _ _ i Eu). }
  rewrite E1 in E. cbn [mbind option_bind] in E. destruct (Unsuggest p dst t s1) as [s2|] eqn:E2; [|done]. cbn [mbind option_bind] in E.
  apply on_suggested_scheduled in E2. destruct (Schedule p dst t s2) as [s3|] eqn:E3; [|done]. cbn [mbind option_bind] in E.
  pose proof (on_scheduled_lookup _ _ _ _ i E3) as H3. rewrite E2, H1 in H3.
  assert (scheduled_queue s' = scheduled_queue s3) as ->; [|exact H3].
  destruct (0 <=? src); [by apply on_suggested_scheduled in E|by injection E as <-].
Qed.

(** ** The first threads *)

Lemma lookup_top s c q : scheduled_queue s !! Z.to_nat c = Some q -> ok 64 q -> tops s !! Z.to_nat c = Some (head (from q 0)).
Proof. intros E Ho. unfold tops. rewrite list_lookup_fmap, E. cbn. by rewrite top_from. Qed.

Lemma length_tops s : sched_ok s -> length (tops s) = 4%nat.
Proof. intros Hs. unfold tops. rewrite length_map. apply (so_scheduled s Hs). Qed.

Lemma head_filter (l : list Z) t : head l <> Some t -> head (filter (fun x => x <> t) l) = head l.
Proof. destruct l as [|x l]; [done|]. cbn. intros H. by rewrite decide_True by congruence. Qed.
Lemma head_filter_first (l : list Z) t : NoDup (t :: l) -> head (filter (fun x => x <> t) (t :: l)) = head l.
Proof. intros [Ht _]%NoDup_cons. rewrite filter_cons_False by tauto. by rewrite filter_absent. Qed.

(** A suggested thread moves to an idle core: it is first there, and on its
    own core the first thread of the rest. *)
Lemma take_idle s c t th : sched_ok s -> 0 <= c < 4 -> tops s !! Z.to_nat c = Some None -> threads s !! t = Some th -> suggested_on s c t ->
  exists s', TransferToCore (current_priority th) c t s = Some s' /\ sched_ok s' /\ threads s' = <[t := SetProcessorID th c]> (threads s) /\
  forall i q, scheduled_queue s !! i = Some q ->
    tops s' !! i = Some (if (i =? Z.to_nat c)%nat then Some t
      else if (0 <=? processor_id th) && (i =? Z.to_nat (processor_id th))%nat then head (filter (fun x => x <> t) (from q 0)) else head (from q 0)).
Proof.
  intros Hs Hc Htop Ht (th' & Ht' & Hr & Hne & Ha). rewrite Ht in Ht'. injection Ht' as <-. pose proof (so_threads s Hs t th Ht) as [Hp Hpid Hpa _ _].
  destruct (transfer_to_core_ok s t th c Hs Ht Hr ltac:(lia) ltac:(done)) as (s' & E & Hs' & Et). exists s'. split; [done|]. split; [done|].
  split; [done|]. intros i q Hq. pose proof (lookup_lt_Some _ _ _ Hq) as Hlt. rewrite (so_scheduled s Hs) in Hlt.
  destruct (so_runs s Hs (Z.of_nat i) ltac:(lia)) as (q' & Eq' & Hrep). rewrite Nat2Z.id, Hq in Eq'. injection Eq' as <-.
  pose proof (transfer_scheduled s t th c s' i Ht ltac:(lia) Hne Hc E) as Hl. rewrite Hq in Hl. unfold tops. rewrite list_lookup_fmap.
  destruct (Nat.eqb_spec i (Z.to_nat c)) as [->|Hic].
  - assert ((0 <=? processor_id th) && (Z.to_nat c =? Z.to_nat (processor_id th))%nat = false) as E0.
    { destruct (Z.leb_spec 0 (processor_id th)); [|done]. apply Nat.eqb_neq. lia. }
    rewrite E0 in Hl. rewrite Hl. cbn [fmap option_fmap option_map]. f_equal. rewrite (lookup_top s c q Hq (rep_ok _ _ Hrep)) in Htop. injection Htop as Htop.
    rewrite top_from by (apply add_ok; [exact depth64|apply (rep_ok _ _ Hrep)|lia]).
    rewrite from_add_empty; [done|apply (rep_ok _ _ Hrep)|lia|by destruct (from q 0)].
  - destruct ((0 <=? processor_id th) && (i =? Z.to_nat (processor_id th))%nat) eqn:Ei; rewrite Hl; cbn [fmap option_fmap option_map]; f_equal.
    + apply andb_true_iff in Ei as [H0%Z.leb_le Hi%Nat.eqb_eq]. assert (omap (runs (Z.of_nat i)) (threads s) !! t = Some (current_priority th)) as Hm.
      { rewrite lookup_omap, Ht. cbn. rewrite runs_runnable by done. unfold place. rewrite (proj2 (Z.eqb_eq _ _)) by lia. done. }
      rewrite top_from by (apply (rep_ok _ _ (rep_remove _ _ _ _ Hrep Hm))). by rewrite (from_remove _ _ _ _ Hrep Hm).
    + by rewrite top_from by apply (rep_ok _ _ Hrep).
Qed.

(** ** Filling an idle core *)

Lemma fold_break_prefix {A R} (P : list Z -> A -> Prop) (Q : R -> Prop) (f : A -> Z -> option (A + R)) l :
  (forall pre t post acc, l = pre ++ t :: post -> P pre acc ->
     exists r, f acc t = Some r /\ match r with inl acc => P (pre ++ [t]) acc | inr r => Q r end) ->
  forall rest pre acc, l = pre ++ rest -> P pre acc ->
    exists r, fold_break f acc rest = Some r /\ match r with inl acc => P l acc | inr r => Q r end.
Proof.
  intros Hf. induction rest as [|t rest IH]; intros pre acc El Ha; [exists (inl acc); rewrite El, app_nil_r; done|]. cbn [fold_break].
  destruct (Hf pre t rest acc El Ha) as ([acc'|r] & -> & Hr); cbn [mbind option_bind]; [|by exists (inr r)].
  apply (IH (pre ++ [t])); [by rewrite <- app_assoc|done].
Qed.

(** A candidate for a move to core [c0]: the first thread of another core. *)
Definition candidate s c0 t c : Prop := 0 <= c < 4 /\ tops s !! Z.to_nat c = Some (Some t) /\ suggested_on s c0 t.

Lemma candidates_distinct s c0 ts cs : Forall2 (candidate s c0) ts cs -> NoDup ts -> NoDup cs.
Proof.
  induction 1 as [|t c ts cs Hc HF IH]; intros Hn; [constructor|]. apply NoDup_cons in Hn as [Ht Hn]. constructor; [|by apply IH].
  intros Hin. apply list_elem_of_lookup in Hin as [i Hi]. destruct (Forall2_lookup_r _ _ _ _ _ HF Hi) as (t' & Ht' & (_ & Et' & _)).
  destruct Hc as (_ & Et & _). rewrite Et in Et'. injection Et' as <-. apply Ht. by eapply list_elem_of_lookup_2.
Qed.
Lemma candidates_few s c0 ts cs : Forall2 (candidate s c0) ts cs -> NoDup ts -> (length cs <= 4)%nat.
Proof.
  intros HF Hn. change 4%nat with (length [0; 1; 2; 3]). apply submseteq_length, NoDup_submseteq; [by eapply candidates_distinct|].
  intros c Hin. apply list_elem_of_lookup in Hin as [i Hi]. destruct (Forall2_lookup_r _ _ _ _ _ HF Hi) as (t & _ & (Hc & _)).
  assert (c = 0 \/ c = 1 \/ c = 2 \/ c = 3) as [-> |[-> |[-> | ->]]] by lia; set_solver.
Qed.

(** A thread that runs first on a core, and one of them of a priority too high
    for a migration. *)
Definition first_on s t : Prop := exists i, tops s !! i = Some (Some t).
Definition high_runs s : Prop := exists t th, first_on s t /\ threads s !! t = Some th /\ current_priority th < THREADPRIO_MAX_CORE_MIGRATION.

(** What Step 2 finds. *)
Definition found s c0 (r : option Z * list Z) : Prop :=
  (exists ts, Forall2 (candidate s c0) ts (snd r)) /\
  match fst r with
  | None => high_runs s
  | Some t => suggested_on s c0 t /\ forall th, threads s !! t = Some th -> 0 <= processor_id th -> tops s !! Z.to_nat (processor_id th) <> Some (Some t)
  end.

Lemma suggest_scan_ok s c0 g : sched_ok s -> readable g (suggested_on s c0) ->
  exists r, scan_queue true g (suggest_body s (tops s)) [] = Some r
    /\ match r with inl cs => Forall2 (candidate s c0) (from g 0) cs | inr r => found s c0 r end.
Proof.
  intros Hs [Ho H63 Hin Hnd]. rewrite scan_queue_spec by done.
  enough (forall pre t post acc, from g 0 = pre ++ t :: post -> Forall2 (candidate s c0) pre acc -> exists r, suggest_body s (tops s) acc t = Some r
    /\ match r with inl acc => Forall2 (candidate s c0) (pre ++ [t]) acc | inr r => found s c0 r end) as Hbody.
  { destruct (fold_break_prefix _ _ _ _ Hbody (from g 0) [] [] eq_refl ltac:(constructor)) as (r & -> & Hr).
    by exists r. }
  intros pre t post cs El HF. assert (suggested_on s c0 t) as Hsug by (apply Hin; rewrite El; set_solver).
  pose proof Hsug as (th & Ht & _). unfold suggest_body. rewrite Ht. cbn [mbind option_bind].
  assert (exists x, (if 0 <=? processor_id th then tops s !! Z.to_nat (processor_id th) else Some None) = Some x /\ known s x
    /\ (0 <= processor_id th -> 0 <= processor_id th < 4 /\ tops s !! Z.to_nat (processor_id th) = Some x) /\ (processor_id th < 0 -> x = None)) as (x & -> & Hx & Hpos & Hneg).
  { destruct (Z.leb_spec 0 (processor_id th)) as [H0|]; [|exists None; split; [done|]; split; [done|]; split; [lia|done]].
    destruct (pid_core s t th Hs Ht H0) as [_ Hc]. destruct (lookup_tops s (processor_id th) Hs Hc) as (x & E & _ & Hx). exists x.
    split; [done|]. split; [by eapply first_known|]. split; [done|lia]. }
  cbn [mbind option_bind]. case_decide as Hd.
  - subst x. destruct (Z.le_gt_cases 0 (processor_id th)) as [H0|Hlt]; [|by discriminate (Hneg Hlt)]. destruct (Hpos H0) as [Hc Etop].
    assert (Forall2 (candidate s c0) (pre ++ [t]) (cs ++ [processor_id th])) as HF' by (apply Forall2_app; [done|]; constructor; [done|constructor]).
    assert (NoDup (pre ++ [t])) as Hn'. { rewrite El in Hnd. replace (pre ++ t :: post) with ((pre ++ [t]) ++ post) in Hnd by (by rewrite <- app_assoc). by apply NoDup_app in Hnd as [? _]. }
    pose proof (candidates_few s c0 _ _ HF' Hn') as Hfew. rewrite length_app in Hfew. cbn [length] in Hfew.
    rewrite (proj2 (Nat.ltb_lt _ _)) by lia. by eexists.
  - destruct (known_above s x THREADPRIO_MAX_CORE_MIGRATION Hx) as [b Eb]. rewrite Eb. cbn [mbind option_bind]. eexists. split; [done|]. split; [by exists pre|].
    destruct b.
    { destruct x as [u|]; [|done]. destruct (Z.le_gt_cases 0 (processor_id th)) as [H0|Hlt]; [|by discriminate (Hneg Hlt)]. destruct (Hpos H0) as [_ Etop].
      unfold above in Eb. destruct (threads s !! u) as [uh|] eqn:Eu; [|done]. injection Eb as Eb%Z.ltb_lt. exists u, uh. split; [by eexists|done]. }
    split; [done|]. intros th' Ht' H0. rewrite Ht in Ht'. injection Ht' as <-. destruct (Hpos H0) as [_ ->]. congruence.
Qed.

(** Work moves to idle cores only: a thread keeps its fields except for its
    core, which may become an idle core that it is allowed on; what ran first
    somewhere still does, and a core with threads keeps one. *)
Record balanced s (s' : GlobalScheduler) : Prop := {
  ba_moved t th : threads s !! t = Some th -> threads s' !! t = Some th
    \/ exists c, 0 <= c < 4 /\ tops s !! Z.to_nat c = Some None /\ IsRunnable th = true /\ allows (affinity_mask th) c = true
         /\ threads s' !! t = Some (SetProcessorID th c);
  ba_dom : same_threads s s';
  ba_first t : first_on s t -> first_on s' t;
  ba_busy i : tops s' !! i = Some None -> tops s !! i = Some None
}.

Lemma balanced_refl s : balanced s s.
Proof. split; [by left|by apply same_refl|done|done]. Qed.
Lemma balanced_trans s1 s2 s3 : balanced s1 s2 -> balanced s2 s3 -> balanced s1 s3.
Proof.
  intros [M1 D1 F1 B1] [M2 D2 F2 B2]. split; [|by eapply same_trans|by eauto|by eauto]. intros t th Ht.
  destruct (M1 t th Ht) as [H|(c & Hc & Hi & Hr & Ha & H)]; destruct (M2 t _ H) as [H'|(c' & Hc' & Hi' & Hr' & Ha' & H')];
    [by left|right; exists c'; by auto|right; by exists c|right; exists c'; by auto].
Qed.

(** A core with nothing to run: a thread of high priority runs somewhere, or
    every thread that may run on the core already runs first on another. *)
Definition served s c : Prop :=
  high_runs s \/ forall t th, threads s !! t = Some th -> IsRunnable th = true -> allows (affinity_mask th) c = true -> first_on s t.

Lemma served_later s s' c : balanced s s' -> served s c -> served s' c.
Proof.
  intros [M D F B] [(t & th & Hf & Ht & Hp)|H]; [left|right].
  - destruct (M t th Ht) as [E|(c' & _ & _ & _ & _ & E)]; [exists t, th|exists t, (SetProcessorID th c')]; by auto.
  - intros t th Ht Hr Ha. destruct (same_lookup s' s t) as [th0 Ht0]; [by symmetry|by eexists|]. apply F, (H t th0); [done|..];
      (destruct (M t th0 Ht0) as [E|(c' & _ & _ & Hr0 & _ & E)]; rewrite Ht in E; injection E as ->; done).
Qed.

(** The state and the first threads after a move to the idle core [c]. *)
Definition filled s c (s' : GlobalScheduler) (tt' : list (option Z)) : Prop :=
  sched_ok s' /\ balanced s s' /\ tt' = tops s' /\ (tops s' !! Z.to_nat c = Some None -> served s' c) /\
  forall i, i <> Z.to_nat c -> tops s !! i = Some None -> tops s' !! i = Some None.

Lemma lookup_queue s i : sched_ok s -> (i < 4)%nat -> exists q, scheduled_queue s !! i = Some q /\ readable q (scheduled_on s (Z.of_nat i)) /\ tops s !! i = Some (head (from q 0)).
Proof.
  intros Hs Hi. destruct (read_scheduled s (Z.of_nat i) Hs ltac:(lia)) as (q & E & Hq). exists q. pose proof (lookup_top s (Z.of_nat i) q E (rd_ok _ _ Hq)) as Et.
  rewrite Nat2Z.id in E, Et. done.
Qed.

(** On an idle core the suggested threads are all that may run there. *)
Lemma served_suggested s c : sched_ok s -> 0 <= c < 4 -> tops s !! Z.to_nat c = Some None ->
  (high_runs s \/ forall t, suggested_on s c t -> first_on s t) -> served s c.
Proof.
  intros Hs Hc Hidle [H|H]; [by left|right]. intros t th Ht Hr Ha. apply H. exists th. split; [done|]. split; [done|]. split; [|done]. intros Ep.
  destruct (lookup_tops s c Hs Hc) as (x & Ex & _ & Hx). rewrite Hidle in Ex. injection Ex as <-. apply (Hx t). by exists th.
Qed.

Lemma filled_nothing s c : sched_ok s -> 0 <= c < 4 -> tops s !! Z.to_nat c = Some None ->
  (high_runs s \/ forall t, suggested_on s c t -> first_on s t) -> filled s c s (<[Z.to_nat c := None]> (tops s)).
Proof.
  intros Hs Hc E Hw. split; [done|]. split; [by apply balanced_refl|]. split; [by rewrite list_insert_id|]. split; [|done]. intros _. by apply served_suggested.
Qed.

(** A thread that moves to an idle core and leaves a thread on its own. *)
Lemma filled_move s c t th s' i0 x : sched_ok s -> sched_ok s' -> 0 <= c < 4 -> tops s !! Z.to_nat c = Some None -> threads s !! t = Some th ->
  suggested_on s c t -> threads s' = <[t := SetProcessorID th c]> (threads s) ->
  i0 <> Z.to_nat c -> tops s !! i0 = Some x \/ (exists n, x = Some n) /\ tops s !! i0 = Some (Some t) ->
  <[Z.to_nat c := Some t]> (<[i0 := x]> (tops s)) = tops s' -> filled s c s' (tops s').
Proof.
  intros Hs Hs' Hc Hidle Ht (th' & Ht' & Hr & Hne & Ha) Et Hi0 Hx Etops. rewrite Ht in Ht'. injection Ht' as <-.
  assert (tops s' !! Z.to_nat c = Some (Some t)) as Ec.
  { rewrite <- Etops. apply list_lookup_insert_eq. rewrite length_insert, length_tops by done. lia. }
  assert (tops s' !! i0 = Some x) as E0.
  { rewrite <- Etops, list_lookup_insert_ne by done. apply list_lookup_insert_eq. destruct Hx as [H|[_ H]]; by eapply lookup_lt_Some. }
  assert (forall i, i <> Z.to_nat c -> i <> i0 -> tops s' !! i = tops s !! i) as Ei by (intros i ? ?; by rewrite <- Etops, !list_lookup_insert_ne).
  split; [done|]. split; [split|].
  - intros u uh Hu. rewrite Et. destruct (decide (u = t)) as [->|]; [right|left; by rewrite lookup_insert_ne].
    rewrite Ht in Hu. injection Hu as <-. exists c. by rewrite lookup_insert_eq.
  - by eapply same_insert.
  - intros u [i Hu]. destruct (decide (i = Z.to_nat c)) as [->|Hic]; [congruence|]. destruct (decide (i = i0)) as [->|Hii]; [|exists i; by rewrite Ei].
    destruct Hx as [Hx|[_ Hx]]; [exists i0|exists (Z.to_nat c)]; congruence.
  - intros i Hn. destruct (decide (i = Z.to_nat c)) as [->|Hic]; [congruence|]. destruct (decide (i = i0)) as [->|Hii]; [|by rewrite <- Ei].
    destruct Hx as [Hx|[[n ->] Hx]]; congruence.
  - split; [done|]. split; [congruence|]. intros i Hic Hn. destruct (decide (i = i0)) as [->|Hii]; [|by rewrite Ei]. destruct Hx as [Hx|[_ Hx]]; congruence.
Qed.

(** The new list of first threads, from the change at the core of the thread. *)
Lemma filled_tops s c t th s' i0 x : sched_ok s -> sched_ok s' -> 0 <= c < 4 -> (i0 < 4)%nat ->
  (forall i q, scheduled_queue s !! i = Some q -> tops s' !! i = Some (if (i =? Z.to_nat c)%nat then Some t
      else if (0 <=? processor_id th) && (i =? Z.to_nat (processor_id th))%nat then head (filter (fun x => x <> t) (from q 0)) else head (from q 0))) ->
  (forall i q, scheduled_queue s !! i = Some q -> i <> Z.to_nat c ->
     (if (0 <=? processor_id th) && (i =? Z.to_nat (processor_id th))%nat then head (filter (fun x => x <> t) (from q 0)) else head (from q 0))
     = if (i =? i0)%nat then x else head (from q 0)) ->
  i0 <> Z.to_nat c -> <[Z.to_nat c := Some t]> (<[i0 := x]> (tops s)) = tops s'.
Proof.
  intros Hs Hs' Hc Hi0 Hnew Heq Hne. apply list_eq. intros i. destruct (Nat.lt_ge_cases i 4) as [Hi|Hi].
  - destruct (lookup_queue s i Hs Hi) as (q & E & Hq & Et). rewrite (Hnew i q E). destruct (Nat.eqb_spec i (Z.to_nat c)) as [->|Hic].
    + rewrite list_lookup_insert_eq; [done|]. rewrite length_insert, length_tops by done. lia.
    + rewrite list_lookup_insert_ne by done. rewrite (Heq i q E Hic). destruct (Nat.eqb_spec i i0) as [->|Hii].
      * rewrite list_lookup_insert_eq; [done|]. rewrite length_tops by done. lia.
      * by rewrite list_lookup_insert_ne.
  - rewrite !lookup_ge_None_2; [done| |]; rewrite ?length_insert, length_tops by done; lia.
Qed.

(** Step 3: of the candidates, the first that leaves a thread on its core. *)
Lemma from_other_ok s c ts cs : sched_ok s -> 0 <= c < 4 -> tops s !! Z.to_nat c = Some None -> Forall2 (candidate s c) ts cs ->
  (high_runs s \/ forall t, suggested_on s c t -> first_on s t) ->
  exists s' tt' x, from_other s c (tops s) cs = Some (s', tt', x) /\ filled s c s' (<[Z.to_nat c := x]> tt').
Proof.
  intros Hs Hc Hidle HF Hw. induction HF as [|t ci ts cs (Hci & Etop & Hsug) HF IH]; cbn [from_other].
  { exists s, (tops s), None. split; [done|]. by apply filled_nothing. }
  rewrite Etop. cbn [mbind option_bind]. destruct (lookup_queue s (Z.to_nat ci) Hs ltac:(lia)) as (q & Eq & Hq & Et). rewrite Eq. cbn [mbind option_bind].
  rewrite Etop in Et. injection Et as Et. destruct (from q 0) as [|h l] eqn:Ef; [done|]. injection Et as <-.
  pose proof Hq as [Ho H63 Hin Hnd]. rewrite second_spec by (done || by rewrite Ef). rewrite Ef. cbn [mbind option_bind tail].
  destruct l as [|n l]; cbn [head]; [done|]. pose proof Hsug as (th & Ht & _ & Hpne & _). rewrite Ht. cbn [mbind option_bind].
  assert (processor_id th = ci) as Epid.
  { assert (t ∈ from q 0) as Hh by (rewrite Ef; left). apply Hin in Hh as (th' & Ht' & _ & Hp'). rewrite Ht in Ht'. injection Ht' as <-. rewrite Hp'. lia. }
  destruct (take_idle s c t th Hs Hc Hidle Ht Hsug) as (s' & -> & Hs' & Eth & Hnew). cbn [mbind option_bind].
  assert (Z.to_nat ci <> Z.to_nat c) as Hnc by lia. exists s', (<[Z.to_nat ci := Some n]> (tops s)), (Some t). split; [done|].
  assert (forall i q0, scheduled_queue s !! i = Some q0 -> i <> Z.to_nat c ->
     (if (0 <=? processor_id th) && (i =? Z.to_nat (processor_id th))%nat then head (filter (fun x => x <> t) (from q0 0)) else head (from q0 0))
     = if (i =? Z.to_nat ci)%nat then Some n else head (from q0 0)) as Heq.
  { intros i q0 Hq0 Hi. rewrite Epid, (proj2 (Z.leb_le 0 ci)) by lia. cbn [andb]. destruct (Nat.eqb_spec i (Z.to_nat ci)) as [->|]; [|done].
    rewrite Eq in Hq0. injection Hq0 as <-. rewrite Ef in Hnd |- *. by apply head_filter_first. }
  pose proof (filled_tops s c t th s' (Z.to_nat ci) (Some n) Hs Hs' Hc ltac:(lia) Hnew Heq Hnc) as Etops. rewrite Etops.
  apply (filled_move s c t th s' (Z.to_nat ci) (Some n)); try done. right. split; [by exists n|done].
Qed.

(** Step 2 or 3 for an idle core. *)
Lemma fill_core_ok s c : sched_ok s -> 0 <= c < 4 -> tops s !! Z.to_nat c = Some None ->
  exists s' tt', fill_core s c (tops s) = Some (s', tt') /\ filled s c s' tt'.
Proof.
  intros Hs Hc Hidle. unfold fill_core. destruct (read_suggested s c Hs Hc) as (g & -> & Hg). cbn [mbind option_bind].
  destruct (Mlq.empty g) eqn:Eg.
  { exists s, (tops s). split; [done|]. rewrite <- (list_insert_id (tops s) (Z.to_nat c) None) at 1 by done. apply filled_nothing; [done|done|done|]. right.
    intros t Ht. apply (rd_in _ _ Hg) in Ht. rewrite (proj1 (empty_from g (rd_ok _ _ Hg)) Eg) in Ht. by apply not_elem_of_nil in Ht. }
  destruct (suggest_scan_ok s c g Hs Hg) as (r & -> & Hr). cbn [mbind option_bind].
  assert (exists x cs ts, match r with inr (t, c) => (t, c) | inl c => (None, c) end = (x, cs) /\ Forall2 (candidate s c) ts cs
    /\ match x with
       | None => high_runs s \/ forall t, suggested_on s c t -> first_on s t
       | Some t => suggested_on s c t /\ forall th, threads s !! t = Some th -> 0 <= processor_id th -> tops s !! Z.to_nat (processor_id th) <> Some (Some t)
       end) as (x & cs & ts & -> & HF & Hx).
  { destruct r as [cs|[x cs]].
    - exists None, cs, (from g 0). split; [done|]. split; [done|]. right. intros t Ht. apply (rd_in _ _ Hg), list_elem_of_lookup in Ht as [i Hi].
      destruct (Forall2_lookup_l _ _ _ _ _ Hr Hi) as (ci & _ & _ & Etop & _). by eexists.
    - destruct Hr as [[ts HF] Hx]. exists x, cs, ts. split; [done|]. split; [done|]. destruct x; [done|by left]. }
  destruct x as [t|].
  - destruct Hx as [Hsug Hnot]. pose proof Hsug as (th & Ht & _ & Hpne & _). specialize (Hnot th Ht). rewrite Ht. cbn [mbind option_bind].
    destruct (take_idle s c t th Hs Hc Hidle Ht Hsug) as (s' & -> & Hs' & Eth & Hnew). cbn [mbind option_bind]. eexists _, _. split; [done|].
    assert (forall i q, scheduled_queue s !! i = Some q -> i <> Z.to_nat c ->
     (if (0 <=? processor_id th) && (i =? Z.to_nat (processor_id th))%nat then head (filter (fun x => x <> t) (from q 0)) else head (from q 0)) = head (from q 0)) as Heq.
    { intros i q Eq Hi. destruct ((0 <=? processor_id th) && (i =? Z.to_nat (processor_id th))%nat) eqn:E; [|done].
      apply andb_true_iff in E as [H0%Z.leb_le ->%Nat.eqb_eq]. apply head_filter. specialize (Hnot H0).
      destruct (pid_core s t th Hs Ht H0) as [_ Hpc]. destruct (lookup_queue s (Z.to_nat (processor_id th)) Hs ltac:(lia)) as (q' & Eq' & _ & Et).
      rewrite Eq in Eq'. injection Eq' as <-. rewrite Et in Hnot. congruence. }
    set (i0 := if (Z.to_nat c =? 0)%nat then 1%nat else 0%nat). assert (i0 <> Z.to_nat c /\ (i0 < 4)%nat) as [Hi0 Hi4] by (subst i0; destruct (Nat.eqb_spec (Z.to_nat c) 0); lia).
    destruct (lookup_queue s i0 Hs Hi4) as (q0 & E0 & _ & Et0).
    assert (<[Z.to_nat c := Some t]> (<[i0 := head (from q0 0)]> (tops s)) = tops s') as Etops.
    { apply (filled_tops s c t th s' i0 (head (from q0 0)) Hs Hs' Hc Hi4 Hnew); [|done].
      intros i q Eq Hi. rewrite (Heq i q Eq Hi). destruct (Nat.eqb_spec i i0) as [->|]; [|done]. congruence. }
    rewrite <- (list_insert_id (tops s) i0 _ Et0) at 1. rewrite Etops. by apply (filled_move s c t th s' i0 (head (from q0 0))); auto.
  - destruct (from_other_ok s c ts cs Hs Hc Hidle HF Hx) as (s' & tt' & x & -> & Hf). cbn [mbind option_bind]. eauto.
Qed.

(** ** All cores *)

Definition idle_step (idle : Z) : Z := idle .& (0xFFFFFFFF .^ (1 << CountTrailingZeroes32 idle)).
Definition idle_count (idle : Z) : nat := length (filter (fun c => Z.testbit idle c = true) [0; 1; 2; 3]).

(** The cores of a mask, from the lowest bit on. *)
Definition idle_facts (idle : Z) : bool :=
  let c := CountTrailingZeroes32 idle in
  (0 <=? c) && (c <? 4) && Z.testbit idle c && (0 <=? idle_step idle) && (idle_step idle <? 16)
  && (idle_count (idle_step idle) <? idle_count idle)%nat && negb (Z.testbit (idle_step idle) c)
  && forallb (fun i => Bool.eqb (Z.testbit (idle_step idle) i) (Z.testbit idle i && negb (i =? c))) [0; 1; 2; 3].
Lemma idle_masks : forallb (fun n => idle_facts (Z.of_nat n)) (seq 1 15) = true.
Proof. by vm_compute. Qed.
Lemma idle_mask_facts idle : 0 < idle < 16 -> idle_facts idle = true.
Proof.
  intros Hi. pose proof idle_masks as H. rewrite forallb_forall in H. rewrite <- (Z2Nat.id idle) by lia. apply H, in_seq. lia.
Qed.

Lemma idle_step_bits idle i : 0 < idle < 16 -> 0 <= i < 4 ->
  Z.testbit (idle_step idle) i = Z.testbit idle i && negb (i =? CountTrailingZeroes32 idle).
Proof.
  intros Hi Hb. pose proof (idle_mask_facts idle Hi) as HF. unfold idle_facts in HF. apply andb_true_iff in HF as [_ HF]. rewrite forallb_forall in HF.
  apply Bool.eqb_prop, HF. assert (i = 0 \/ i = 1 \/ i = 2 \/ i = 3) as [-> |[-> |[-> | ->]]] by lia; cbn; tauto.
Qed.

Lemma idle_loop_ok fuel : forall s idle, sched_ok s -> 0 <= idle < 16 -> (idle_count idle < fuel)%nat ->
  (forall c, 0 <= c < 4 -> Z.testbit idle c = true -> tops s !! Z.to_nat c = Some None) ->
  exists s', idle_loop fuel s (tops s) idle = Some (s', tops s') /\ sched_ok s' /\ balanced s s'
    /\ forall c, 0 <= c < 4 -> Z.testbit idle c = true -> tops s' !! Z.to_nat c = Some None -> served s' c.
Proof.
  induction fuel as [|fuel IH]; intros s idle Hs Hi Hf Hidle; [lia|]. cbn [idle_loop].
  destruct (Z.eqb_spec idle 0) as [->|Hne].
  { exists s. split; [done|]. split; [done|]. split; [apply balanced_refl|]. intros c _ Hb. by rewrite Z.bits_0 in Hb. }
  pose proof (idle_mask_facts idle ltac:(lia)) as HF. unfold idle_facts in HF. set (c := CountTrailingZeroes32 idle) in *.
  repeat match goal with H : _ && _ = true |- _ => apply andb_true_iff in H as [H ?] end. fold c in Hidle.
  repeat match goal with H : (_ <=? _) = true |- _ => apply Z.leb_le in H | H : (_ <? _) = true |- _ => apply Z.ltb_lt in H | H : (_ <? _)%nat = true |- _ => apply Nat.ltb_lt in H end.
  destruct (fill_core_ok s c Hs ltac:(lia) (Hidle c ltac:(lia) ltac:(done))) as (s1 & tt1 & -> & (Hs1 & Hb1 & -> & Hserved & Hkeep)). cbn [mbind option_bind].
  change (idle .& (0xFFFFFFFF .^ (1 << c))) with (idle_step idle).
  destruct (IH s1 (idle_step idle) Hs1 ltac:(lia) ltac:(lia)) as (s' & -> & Hs' & Hb' & Hsv').
  - intros c' Hc' Hbit. rewrite idle_step_bits in Hbit by lia. apply andb_true_iff in Hbit as [Hbit Hcc%negb_true_iff%Z.eqb_neq].
    apply Hkeep; [fold c in Hcc; lia|by apply Hidle].
  - exists s'. split; [done|]. split; [done|]. split; [by eapply balanced_trans|]. intros c' Hc' Hbit Hn. destruct (decide (c' = c)) as [->|Hcc].
    + apply (served_later s1); [done|]. apply Hserved, (ba_busy _ _ Hb'), Hn.
    + apply Hsv'; [done| |done]. rewrite idle_step_bits, Hbit by lia. by apply negb_true_iff, Z.eqb_neq.
Qed.

Lemma idle_mask_ok (l : list (option Z)) : length l = 4%nat ->
  0 <= idle_mask l < 16 /\ (idle_count (idle_mask l) < 5)%nat /\ forall c, 0 <= c < 4 -> Z.testbit (idle_mask l) c = true <-> l !! Z.to_nat c = Some None.
Proof.
  intros Hl. do 4 (destruct l as [|? l]; [done|]). destruct l; [|done]. repeat match goal with x : option Z |- _ => destruct x end;
    (split; [by vm_compute|]; split; [vm_compute; lia|]; intros c Hc;
     assert (c = 0 \/ c = 1 \/ c = 2 \/ c = 3) as [-> |[-> |[-> | ->]]] by lia; split; intros Hb; first [reflexivity|discriminate Hb]).
Qed.

(** The mask of the cores that must switch. *)
Lemma pending_mask (l : list Scheduler) c sc : length l = 4%nat -> 0 <= c < 4 -> l !! Z.to_nat c = Some sc ->
  Z.testbit (foldr Z.lor 0 (imap (fun core x => if is_context_switch_pending x then 1 << Z.of_nat core else 0) l)) c = is_context_switch_pending sc.
Proof.
  intros Hl Hc E. destruct l as [|a [|b [|d [|e [|]]]]]; try done. cbn [imap foldr compose].
  assert (c = 0 \/ c = 1 \/ c = 2 \/ c = 3) as [-> |[-> |[-> | ->]]] by lia; injection E as <-;
    destruct (is_context_switch_pending a), (is_context_switch_pending b), (is_context_switch_pending d), (is_context_switch_pending e); reflexivity.
Qed.

(** What the scheduler of a core knows after selection. *)
Definition selected_ok s c (sc sc' : Scheduler) : Prop :=
  match selected_thread_set sc' with
  | None => forall t, ~ scheduled_on s c t
  | Some t => scheduled_on s c t /\ forall u th uh, threads s !! t = Some th -> threads s !! u = Some uh -> scheduled_on s c u -> current_priority th <= current_priority uh
  end
  /\ current_thread sc' = current_thread sc
  /\ (is_context_switch_pending sc' = true <-> is_context_switch_pending sc = true \/ selected_thread_set sc' <> current_thread sc').

Lemma first_best s c q t : sched_ok s -> 0 <= c < 4 -> scheduled_queue s !! Z.to_nat c = Some q -> head (from q 0) = Some t ->
  forall u th uh, threads s !! t = Some th -> threads s !! u = Some uh -> scheduled_on s c u -> current_priority th <= current_priority uh.
Proof.
  intros Hs Hc Eq Hh u th uh Ht Hu (uh' & Hu' & Hru & Hpu). rewrite Hu in Hu'. injection Hu' as <-.
  destruct (so_runs s Hs c Hc) as (q' & Eq' & Hrep). rewrite Eq in Eq'. injection Eq' as <-.
  destruct (read_scheduled s c Hs Hc) as (q' & Eq' & Hrd). rewrite Eq in Eq'. injection Eq' as <-.
  assert (scheduled_on s c t) as (th' & Ht' & Hrt & Hpt) by (apply (rd_in _ _ Hrd); destruct (from q 0); [done|]; injection Hh as ->; left).
  rewrite Ht in Ht'. injection Ht' as <-.
  apply (head_best q _ t _ u _ Hrep Hh); rewrite lookup_omap, ?Ht, ?Hu; cbn; rewrite runs_runnable by done; unfold place; rewrite ?Hpt, ?Hpu, Z.eqb_refl; done.
Qed.

(** What a selection does to the threads and the cores. *)
Definition selects (cores : list Scheduler) t : Prop := exists i sc, cores !! i = Some sc /\ selected_thread_set sc = Some t.

Record selection s (cores : list Scheduler) (s' : GlobalScheduler) (cores' : list Scheduler) (mask : Z) : Prop := {
  se_cores c : 0 <= c < 4 -> exists sc sc', cores !! Z.to_nat c = Some sc /\ cores' !! Z.to_nat c = Some sc'
    /\ selected_ok s' c sc sc' /\ Z.testbit mask c = is_context_switch_pending sc';
  se_moved t th : threads s !! t = Some th -> threads s' !! t = Some th
    \/ exists c, 0 <= c < 4 /\ (forall u, ~ scheduled_on s c u) /\ IsRunnable th = true /\ allows (affinity_mask th) c = true
         /\ threads s' !! t = Some (SetProcessorID th c);
  se_dom : same_threads s s';
  se_first c t : 0 <= c < 4 -> top_of s c = Some (Some t) -> selects cores' t;
  se_idle c sc : 0 <= c < 4 -> cores' !! Z.to_nat c = Some sc -> selected_thread_set sc = None ->
    (forall u, ~ scheduled_on s c u)
    /\ ((exists t th, selects cores' t /\ threads s' !! t = Some th /\ current_priority th < THREADPRIO_MAX_CORE_MIGRATION)
        \/ forall t th, threads s' !! t = Some th -> IsRunnable th = true -> allows (affinity_mask th) c = true -> selects cores' t)
}.

Lemma idle_none s c : sched_ok s -> 0 <= c < 4 -> tops s !! Z.to_nat c = Some None -> forall u, ~ scheduled_on s c u.
Proof. intros Hs Hc E. destruct (lookup_tops s c Hs Hc) as (x & Ex & _ & Hx). rewrite E in Ex. by injection Ex as <-. Qed.

Lemma select_cores s' cores c : sched_ok s' -> length cores = 4%nat -> 0 <= c < 4 ->
  let cores' := zip_with update_thread (tops s') cores in
  exists sc sc', cores !! Z.to_nat c = Some sc /\ cores' !! Z.to_nat c = Some sc' /\ selected_ok s' c sc sc'
    /\ Z.testbit (foldr Z.lor 0 (imap (fun core x => if is_context_switch_pending x then 1 << Z.of_nat core else 0) cores')) c = is_context_switch_pending sc'.
Proof.
  intros Hs' Hl Hc cores'. destruct (lookup_lt_is_Some_2 cores (Z.to_nat c) ltac:(lia)) as [sc Esc].
  destruct (lookup_queue s' (Z.to_nat c) Hs' ltac:(lia)) as (q & Eq & Hq & Et). rewrite Z2Nat.id in Hq by lia.
  assert (zip_with update_thread (tops s') cores !! Z.to_nat c = Some (update_thread (head (from q 0)) sc)) as Ez by (by rewrite lookup_zip_with, Et, Esc).
  exists sc, (update_thread (head (from q 0)) sc). split; [done|]. split; [done|]. split.
  - split; cbn [update_thread selected_thread_set current_thread is_context_switch_pending].
    + destruct (head (from q 0)) as [t|] eqn:Eh.
      * split; [|by apply (first_best s' c q)]. apply (rd_in _ _ Hq). destruct (from q 0); [done|]. injection Eh as ->. left.
      * intros t Ht. apply (rd_in _ _ Hq) in Ht. destruct (from q 0); [by apply not_elem_of_nil in Ht|done].
    + split; [done|]. rewrite orb_true_iff, negb_true_iff, bool_decide_eq_false. done.
  - apply pending_mask; [|done|done]. unfold cores'. rewrite length_zip_with, length_tops by done. lia.
Qed.

Lemma select_threads_ok s cores : sched_ok s -> length cores = 4%nat -> is_reselection_pending s = true ->
  exists s' cores' mask, SelectThreads s cores = Some (s', cores', mask) /\ sched_ok s' /\ selection s cores s' cores' mask.
Proof.
  intros Hs Hl Hp. unfold SelectThreads. rewrite Hp. cbn [negb]. destruct (idle_mask_ok (tops s) (length_tops s Hs)) as (Hi & Hcnt & Hbits).
  destruct (idle_loop_ok 5 s (idle_mask (tops s)) Hs Hi Hcnt ltac:(intros; by apply Hbits)) as (s' & -> & Hs' & Hb & Hsv). cbn [mbind option_bind].
  eexists _, _, _. split; [done|]. split; [done|]. set (cores' := zip_with update_thread (tops s') cores).
  assert (forall t, first_on s' t -> selects cores' t) as Hsel.
  { intros t [i E]. pose proof (lookup_lt_Some _ _ _ E) as Hlt. rewrite length_tops, <- Hl in Hlt by done. apply lookup_lt_is_Some_2 in Hlt as [sc Esc].
    exists i, (update_thread (Some t) sc). unfold cores'. by rewrite lookup_zip_with, E, Esc. }
  split.
  - intros c Hc. by apply select_cores.
  - intros t th Ht. destruct (ba_moved _ _ Hb t th Ht) as [E|(c & Hc & Hn & H)]; [by left|right]. exists c. split; [done|]. split; [by apply idle_none|done].
  - apply Hb.
  - intros c t Hc E. apply Hsel, (ba_first _ _ Hb). exists (Z.to_nat c). destruct (lookup_tops s c Hs Hc) as (x & Ex & Ex' & _). congruence.
  - intros c sc Hc Esc Hnone. assert (tops s' !! Z.to_nat c = Some None) as En.
    { unfold cores' in Esc. rewrite lookup_zip_with in Esc. destruct (tops s' !! Z.to_nat c) as [x|]; [|done]. destruct (cores !! Z.to_nat c); [|done].
      injection Esc as <-. cbn in Hnone. congruence. }
    pose proof (ba_busy _ _ Hb _ En) as En0. split; [by apply idle_none|]. destruct (Hsv c Hc) as [(t & th & Hf & H)|H]; [by apply Hbits|done| |].
    + left. exists t, th. auto.
    + right. intros t th Ht Hr Ha. by apply Hsel, (H t th).
Qed.

(** ** What a kernel can do with its scheduler *)

Inductive Request :=
  | Do_create (t priority processor_id : Z)
  | Do_status (t : Z) (st : ThreadStatus)
  | Do_resume (t : Z)
  | Do_activity (t : Z) (pause : bool)
  | Do_priority (current t p : Z)
  | Do_affinity (t core mask : Z)
  | Do_yield (host t : Z)
  | Do_yield_balance (host t : Z)
  | Do_yield_wait (host t : Z)
  | Do_preempt
  | Do_select (cores : list Scheduler).

Definition perform (r : Request) (s : GlobalScheduler) : option GlobalScheduler :=
  match r with
  | Do_create t p pid => match Create p pid with inl th => Some (set_thread s t th) | inr _ => Some s end
  | Do_status t st => SetStatus s t st
  | Do_resume t => ResumeFromWait s t
  | Do_activity t pause => fst <$> SetActivity s t pause
  | Do_priority current t p => SetCurrentPriority current s t p
  | Do_affinity t core mask => fst <$> SetCoreAndAffinityMask s t core mask
  | Do_yield host t => fst <$> YieldThread host s t
  | Do_yield_balance host t => fst <$> YieldThreadAndBalanceLoad host s t
  | Do_yield_wait host t => fst <$> YieldThreadAndWaitForLoadBalancing host s t
  | Do_preempt => PreemptThreads s
  | Do_select cores => (fun r => fst (fst r)) <$> SelectThreads s cores
  end.

(** The requests that the theorems are about: threads exist, priorities are
    above the lowest, cores exist and masks allow them, and only a thread that
    is on a core yields.  The code refuses neither the lowest priority nor the
    processor 4 nor a thread without ideal core; see the departures below. *)
Definition allowed (r : Request) (s : GlobalScheduler) : Prop :=
  match r with
  | Do_create t p pid => threads s !! t = None /\ 0 <= p < 63 /\ 0 <= pid < 4
  | Do_status t _ | Do_resume t | Do_activity t _ => is_Some (threads s !! t)
  | Do_priority _ t p => is_Some (threads s !! t) /\ 0 <= p < 63
  | Do_affinity t core mask => affinity_request core mask
      /\ exists th, threads s !! t = Some th /\ (core = THREADPROCESSORID_DONT_UPDATE -> 0 <= ideal_core th)
  | Do_yield _ t | Do_yield_balance _ t | Do_yield_wait _ t =>
      exists th, threads s !! t = Some th /\ (IsRunnable th = true -> 0 <= processor_id th)
  | Do_preempt => True
  | Do_select cores => length cores = 4%nat
  end.

Inductive sched_run : GlobalScheduler -> Prop :=
  | run_new : sched_run GlobalScheduler_new
  | run_request s r s' : sched_run s -> allowed r s -> perform r s = Some s' -> sched_run s'.

Lemma rep_new : rep (Mlq.MultiLevelQueue_new 64) ∅.
Proof.
  assert (forall p, 0 <= p < 64 -> Mlq.level (Mlq.MultiLevelQueue_new (T := Z) 64) p = []) as Hl.
  { intros p Hp. unfold Mlq.level, Mlq.MultiLevelQueue_new. cbn [Mlq.levels]. by rewrite nth_lookup, lookup_replicate_2 by lia. }
  split; [apply new_ok; exact depth64| | |by intros t p ?%lookup_empty_Some].
  - intros p t Hp. rewrite Hl by done. split; [by intros ?%not_elem_of_nil|by intros ?%lookup_empty_Some].
  - intros p Hp. rewrite Hl by done. constructor.
Qed.
Lemma new_sched_ok : sched_ok GlobalScheduler_new.
Proof.
  split; [done|done|..].
  - intros c Hc. exists (Mlq.MultiLevelQueue_new 64). split; [cbn [GlobalScheduler_new scheduled_queue]; apply lookup_replicate_2; lia|].
    cbn [GlobalScheduler_new threads]. rewrite omap_empty. apply rep_new.
  - intros c Hc. exists (Mlq.MultiLevelQueue_new 64). split; [cbn [GlobalScheduler_new suggested_queue]; apply lookup_replicate_2; lia|].
    cbn [GlobalScheduler_new threads]. rewrite omap_empty. apply rep_new.
  - intros t th H. cbn [GlobalScheduler_new threads] in H. by apply lookup_empty_Some in H.
Qed.

Lemma create_ok s t p pid : sched_ok s -> threads s !! t = None -> 0 <= p < 63 -> 0 <= pid < 4 ->
  exists th, Create p pid = inl th /\ sched_ok (set_thread s t th).
Proof.
  intros Hs Ht Hp Hpid. unfold Create. unfold THREADPRIO_LOWEST, THREADPROCESSORID_MAX. rewrite (proj2 (Z.ltb_ge 63 p)), (proj2 (Z.ltb_ge 4 pid)) by lia.
  eexists. split; [done|]. set (th := {| current_priority := p |}).
  assert (forall f : Thread -> option Z, f th = None -> omap f (<[t := th]> (threads s)) = omap f (threads s)) as Hom.
  { intros f Hf. rewrite put_insert, Hf. apply map_eq. intros u. unfold put. destruct (decide (u = t)) as [->|]; [|by rewrite lookup_partial_alter_ne].
    by rewrite lookup_partial_alter_eq, lookup_omap, Ht. }
  destruct Hs as [H1 H2 H3 H4 H5]. split; [done|done|..].
  - intros c Hc. cbn [set_thread with_threads threads]. rewrite Hom by done. by apply H3.
  - intros c Hc. cbn [set_thread with_threads threads]. rewrite Hom by done. by apply H4.
  - intros u uh. cbn [set_thread with_threads threads]. destruct (decide (u = t)) as [->|]; [|rewrite lookup_insert_ne by done; apply H5].
    rewrite lookup_insert_eq. intros [= <-]. split; cbn [th current_priority processor_id ideal_core affinity_override_count affinity_mask]; [lia|lia| |lia|done].
    intros _. assert (pid = 0 \/ pid = 1 \/ pid = 2 \/ pid = 3) as [-> |[-> |[-> | ->]]] by lia; reflexivity.
Qed.

Lemma perform_ok r s : sched_ok s -> allowed r s -> exists s', perform r s = Some s' /\ sched_ok s'.
Proof.
  intros Hs Ha. destruct r; cbn [perform allowed] in *.
  - destruct Ha as (Ht & Hp & Hpid). destruct (create_ok s t _ _ Hs Ht Hp Hpid) as (th & -> & Hok). eauto.
  - destruct Ha as [th Ht]. destruct (set_status_ok s t th st Hs Ht) as (s' & x & E & Hs' & _). eauto.
  - destruct Ha as [th Ht]. unfold ResumeFromWait. rewrite Ht. cbn [mbind option_bind].
    destruct (set_status_ok s t th Ready Hs Ht) as (s' & x & E & Hs' & _). destruct (status th); eauto.
  - destruct Ha as [th Ht]. destruct (set_activity_ok s t th pause Hs Ht) as (s' & r & x & y & -> & Hs' & _). cbn. eauto.
  - destruct Ha as [[th Ht] Hp]. destruct (adjust_priority_ok current s t th p Hs Ht Hp) as (s' & E & Hs' & _). eauto.
  - destruct Ha as (Hreq & th & Ht & Hu). destruct (set_affinity_ok s t th _ _ Hs Ht Hreq Hu) as (s' & r & ? & ? & ? & ? & -> & Hs' & _). cbn. eauto.
  - destruct Ha as (th & Ht & Hr). destruct (yield_thread_ok host s t th Hs Ht Hr) as (s' & b & -> & Hs' & _). cbn. eauto.
  - destruct Ha as (th & Ht & Hr). destruct (yield_balance_ok host s t th Hs Ht Hr) as (s' & b & -> & Hs' & _). cbn. eauto.
  - destruct Ha as (th & Ht & Hr). destruct (yield_wait_ok host s t th Hs Ht Hr) as (s' & b & -> & Hs' & _). cbn. eauto.
  - destruct (preempt_threads_ok s Hs) as (s' & E & Hs' & _). eauto.
  - destruct (is_reselection_pending s) eqn:Ep.
    + destruct (select_threads_ok s cores Hs Ha Ep) as (s' & cores' & mask & -> & Hs' & _). cbn. eauto.
    + unfold SelectThreads. rewrite Ep. cbn. eauto.
Qed.

Lemma sched_run_ok s : sched_run s -> sched_ok s.
Proof.
  induction 1 as [|s r s' Hrun IH Ha E]; [apply new_sched_ok|]. destruct (perform_ok r s IH Ha) as (s2 & E2 & H2). by rewrite E in E2; injection E2 as ->.
Qed.

(** C6: in every state of the scheduler that the allowed creations, changes of
    status, activity, priority and affinity, yields of the three kinds,
    preemptions and selections can reach, a thread is in the scheduled queue of
    a core at a priority exactly when it is runnable, assigned to the core and
    has the priority, in the suggested queue exactly when it is runnable,
    allowed on the core, not assigned to it and has the priority, and at most
    once in each; and every further allowed operation returns.  Allowed are the
    priorities 0 to 62, the processors 0 to 3, masks with no core or with
    one that they contain, [THREADPROCESSORID_DONT_UPDATE] for threads with an ideal core
    and yields of threads that, when runnable, are assigned to a core.  The
    code also takes the priority 63, the processor 4 and
    [THREADPROCESSORID_DONT_UPDATE] without an ideal core, and is then
    undefined: [lowest_priority_undefined], [create_accepts_processor_4],
    [affinity_shift_negative]. *)
Theorem scheduler_queues_exact s : sched_run s ->
  (forall c p t, 0 <= c < 4 -> 0 <= p < 64 -> exists q g,
     scheduled_queue s !! Z.to_nat c = Some q /\ suggested_queue s !! Z.to_nat c = Some g
     /\ NoDup (Mlq.level q p) /\ NoDup (Mlq.level g p)
     /\ ((t ∈ Mlq.level q p) <-> exists th, threads s !! t = Some th /\ IsRunnable th = true /\ processor_id th = c /\ current_priority th = p)
     /\ ((t ∈ Mlq.level g p) <-> exists th, threads s !! t = Some th /\ IsRunnable th = true /\ processor_id th <> c
           /\ allows (affinity_mask th) c = true /\ current_priority th = p))
  /\ forall r, allowed r s -> is_Some (perform r s).
Proof.
  intros Hrun. pose proof (sched_run_ok s Hrun) as Hs. split.
  - intros c p t Hc Hp. destruct (so_runs s Hs c Hc) as (q & Eq & Hq). destruct (so_hints s Hs c Hc) as (g & Eg & Hg). exists q, g.
    split; [done|]. split; [done|]. split; [by apply (rep_nodup _ _ Hq)|]. split; [by apply (rep_nodup _ _ Hg)|].
    rewrite (rep_mem _ _ Hq), (rep_mem _ _ Hg), !lookup_omap by done. split.
    + unfold runs, place. destruct (threads s !! t) as [th|]; cbn; [|split; [done|by intros (? & ? & _)]].
      destruct (IsRunnable th) eqn:Er; [|split; [done|intros (x & [= <-] & Hx & _); congruence]].
      destruct (Z.eqb_spec (processor_id th) c) as [<-|Hne]; [|split; [done|by intros (x & [= <-] & _ & Hx & _)]].
      split; [intros [= <-]; by exists th|by intros (x & [= <-] & _ & _ & ->)].
    + unfold hints, hint. destruct (threads s !! t) as [th|]; cbn; [|split; [done|by intros (? & ? & _)]].
      destruct (IsRunnable th) eqn:Er; [|split; [done|intros (x & [= <-] & Hx & _); congruence]].
      destruct (Z.eqb_spec (processor_id th) c) as [<-|Hne]; cbn; [split; [done|by intros (x & [= <-] & _ & Hx & _)]|].
      destruct (allows (affinity_mask th) c) eqn:Ea; [|split; [done|intros (x & [= <-] & _ & _ & Hx & _); congruence]].
      split; [intros [= <-]; by exists th|by intros (x & [= <-] & _ & _ & _ & ->)].
  - intros r Ha. destruct (perform_ok r s Hs Ha) as (s' & E & _). eauto.
Qed.

(** C7: on a reachable scheduler of threads with the priorities 0 to 62 and the
    four schedulers of the cores, [SelectThreads] changes nothing when no
    reselection is pending; otherwise it returns and
    - moves threads only to cores that no thread was assigned to, and only
      runnable threads that are allowed there, and changes nothing else of them;
    - gives every core a runnable thread that is now assigned to it with the
      best priority of those assigned to it, or none when there is none, so that
      no thread is selected for two cores, and marks exactly the cores whose
      thread changes, or was already to change, for a context switch;
    - still selects, for some core, each thread that was first in the queue of
      its core;
    - leaves a core without thread only if the core had none and either a thread
      of a priority below 2 is selected, which stops the migration, or every
      runnable thread that is allowed on the core is selected for another. *)
Theorem select_threads_first s cores : sched_run s -> length cores = 4%nat ->
  (is_reselection_pending s = false -> SelectThreads s cores = Some (s, cores, 0)) /\
  (is_reselection_pending s = true -> exists s' cores' mask,
     SelectThreads s cores = Some (s', cores', mask) /\ sched_run s' /\ selection s cores s' cores' mask).
Proof.
  intros Hrun Hl. split; intros Hp; [unfold SelectThreads; by rewrite Hp|].
  destruct (select_threads_ok s cores (sched_run_ok s Hrun) Hl Hp) as (s' & cores' & mask & E & _ & H).
  exists s', cores', mask. split; [done|]. split; [|done]. apply (run_request s (Do_select cores)); [done|exact Hl|]. cbn [perform]. by rewrite E.
Qed.

(** Two threads on core 0, one of them also allowed on core 2. *)
Definition sample_requests : list Request :=
  [Do_create 10 44 0; Do_create 11 30 0; Do_status 10 Ready; Do_status 11 Ready; Do_affinity 10 (-1) 5].
Definition sample_sched : option GlobalScheduler := foldl (fun o r => s ← o; perform r s) (Some GlobalScheduler_new) sample_requests.
Definition sample_cores : list Scheduler :=
  replicate 4 {| selected_thread_set := None; current_thread := None; is_context_switch_pending := false; idle_selection_count := 0 |}.

Lemma sample_sched_run : exists s, sample_sched = Some s /\ sched_run s /\ is_reselection_pending s = true.
Proof.
  eexists. split; [reflexivity|]. split; [|reflexivity].
  eapply (run_request _ (Do_affinity 10 (-1) 5)); [eapply (run_request _ (Do_status 11 Ready)); [eapply (run_request _ (Do_status 10 Ready));
    [eapply (run_request _ (Do_create 11 30 0)); [eapply (run_request _ (Do_create 10 44 0)); [apply run_new|..]|..]|..]|..]|..];
    first [reflexivity | split; [reflexivity|lia] | by eexists | split; [by left|by eexists]].
Qed.

Lemma scheduler_queues_exact_witness : exists s, sample_sched = Some s /\ sched_run s /\ is_Some (perform Do_preempt s).
Proof.
  destruct sample_sched_run as (s & E & Hrun & _). exists s. split; [exact E|]. split; [exact Hrun|].
  destruct (scheduler_queues_exact s Hrun) as [_ H]. exact (H Do_preempt I).
Defined.

Lemma select_threads_first_witness : exists s s' cores' mask, sample_sched = Some s /\ SelectThreads s sample_cores = Some (s', cores', mask).
Proof.
  destruct sample_sched_run as (s & E & Hrun & Hp). exists s.
  destruct (proj2 (select_threads_first s sample_cores Hrun eq_refl) Hp) as (s' & cores' & mask & Es & _). exists s', cores', mask. split; [exact E|exact Es].
Defined.

(** The thread of priority 44 moves to core 2, which was idle. *)
Example sample_selection : (s ← sample_sched; r ← SelectThreads s sample_cores; Some (map selected_thread_set (snd (fst r)), snd r))
  = Some ([Some 11; None; Some 10; None], 5).
Proof. by vm_compute. Qed.

(** ** Departures *)

(** [SetCoreAndAffinityMask] with the core left as it is, of a thread without
    an ideal core, shifts by -1. *)
Lemma affinity_shift_negative : (s ← sample_sched; SetCoreAndAffinityMask s 10 THREADPROCESSORID_DONT_UPDATE 5) = None.
Proof. by vm_compute. Qed.

(** [Thread::Create] accepts the processor 4, for which there is no queue. *)
Lemma create_accepts_processor_4 : exists th, Create 44 4 = inl th /\ SetStatus (set_thread GlobalScheduler_new 10 th) 10 Ready = None.
Proof. eexists. split; [reflexivity|]. by vm_compute. Qed.

(** A suggested thread of the lowest priority: the loop over the queue steps
    past priority 63. *)
Lemma lowest_priority_undefined :
  (s ← foldl (fun o r => s ← o; perform r s) (Some GlobalScheduler_new) [Do_create 10 63 0; Do_status 10 Ready; Do_affinity 10 (-1) 5];
   SelectThreads s sample_cores) = None.
Proof. by vm_compute. Qed.
