(* ===== verification/Mutex.v ===== *)
(** * Mutexes and priority inheritance

    [Mutex] ([src/src/core/hle/kernel/mutex.cpp]) and the part of [Thread]
    ([src/src/core/hle/kernel/thread.cpp]) that lends the priority of a waiting
    thread to the owner of the lock, over the scheduler of [Scheduler]; with
    the lists of the threads that wait for condition variables
    ([src/src/core/hle/kernel/process.cpp]), which are ordered by priority
    too.  The threads are those of one process.  [current] is the thread that
    runs on the core that executes an operation.  [None]: a null pointer, an
    iterator outside of its list, an undefined operation of the scheduler, or
    spent fuel. *)

From S2P Require Import Prelude KernelObject Scheduler.
From stdpp Require Import base list gmap.
Open Scope Z_scope.
Open Scope c_scope.
Import Sched.

Module Mutex.

(** The fields of a thread that the scheduler does not use. *)
Record Waiter := {
  nominal_priority : Z;
  lock_owner : option Z;
  wait_mutex_threads : list Z;
  mutex_wait_address : Z;
  condvar_wait_address : Z;
  wait_handle : Z;
  signaling_result : Z
}.

Definition with_nominal (w : Waiter) (p : Z) : Waiter :=
  {| nominal_priority := p; lock_owner := lock_owner w; wait_mutex_threads := wait_mutex_threads w;
     mutex_wait_address := mutex_wait_address w; condvar_wait_address := condvar_wait_address w;
     wait_handle := wait_handle w; signaling_result := signaling_result w |}.
Definition SetLockOwner (w : Waiter) (o : option Z) : Waiter :=
  {| nominal_priority := nominal_priority w; lock_owner := o; wait_mutex_threads := wait_mutex_threads w;
     mutex_wait_address := mutex_wait_address w; condvar_wait_address := condvar_wait_address w;
     wait_handle := wait_handle w; signaling_result := signaling_result w |}.
Definition with_waiters (w : Waiter) (l : list Z) : Waiter :=
  {| nominal_priority := nominal_priority w; lock_owner := lock_owner w; wait_mutex_threads := l;
     mutex_wait_address := mutex_wait_address w; condvar_wait_address := condvar_wait_address w;
     wait_handle := wait_handle w; signaling_result := signaling_result w |}.
(** [SetMutexWaitAddress] and [SetWaitHandle]. *)
Definition with_wait (w : Waiter) (address handle : Z) : Waiter :=
  {| nominal_priority := nominal_priority w; lock_owner := lock_owner w; wait_mutex_threads := wait_mutex_threads w;
     mutex_wait_address := address; condvar_wait_address := condvar_wait_address w;
     wait_handle := handle; signaling_result := signaling_result w |}.
Definition SetSynchronizationResults (w : Waiter) (result : Z) : Waiter :=
  {| nominal_priority := nominal_priority w; lock_owner := lock_owner w; wait_mutex_threads := wait_mutex_threads w;
     mutex_wait_address := mutex_wait_address w; condvar_wait_address := condvar_wait_address w;
     wait_handle := wait_handle w; signaling_result := result |}.

Definition SetCondVarWaitAddress (w : Waiter) (address : Z) : Waiter :=
  {| nominal_priority := nominal_priority w; lock_owner := lock_owner w; wait_mutex_threads := wait_mutex_threads w;
     mutex_wait_address := mutex_wait_address w; condvar_wait_address := address;
     wait_handle := wait_handle w; signaling_result := signaling_result w |}.

(** The scheduler, the threads, the lists of [Process] and guest memory. *)
Record Kernel := {
  sched : GlobalScheduler;
  waits : gmap Z Waiter;
  cond_var_threads : gmap Z (list Z);
  memory : gmap Z Z
}.
Definition with_sched (k : Kernel) (s : GlobalScheduler) : Kernel :=
  {| sched := s; waits := waits k; cond_var_threads := cond_var_threads k; memory := memory k |}.
Definition set_wait (k : Kernel) (t : Z) (w : Waiter) : Kernel :=
  {| sched := sched k; waits := <[t := w]> (waits k); cond_var_threads := cond_var_threads k; memory := memory k |}.
Definition set_condvar (k : Kernel) (address : Z) (l : list Z) : Kernel :=
  {| sched := sched k; waits := waits k; cond_var_threads := <[address := l]> (cond_var_threads k); memory := memory k |}.
Definition Read32 (k : Kernel) (address : Z) : Z := default 0 (memory k !! address).
Definition Write32 (k : Kernel) (address v : Z) : Kernel :=
  {| sched := sched k; waits := waits k; cond_var_threads := cond_var_threads k; memory := <[address := v]> (memory k) |}.

(** [thread->GetPriority()] for a thread that exists. *)
Definition GetPriority (k : Kernel) (t : Z) : Z := from_option current_priority 0 (threads (sched k) !! t).

(** Before the first thread of a lower priority. *)
Fixpoint insert_before (k : Kernel) (l : list Z) (t : Z) : list Z :=
  match l with
  | [] => [t]
  | x :: l' => if GetPriority k t <? GetPriority k x then t :: l else x :: insert_before k l' t
  end.
(** [list.erase( find( list, t ) )] *)
Fixpoint erase_first (l : list Z) (t : Z) : option (list Z) :=
  match l with
  | [] => None
  | x :: l => if x =? t then Some l else l ← erase_first l t; Some (x :: l)
  end.

(** A kernel without threads, and the creation of a thread, or the error. *)
Definition Kernel_new : Kernel := {| sched := GlobalScheduler_new; waits := ∅; cond_var_threads := ∅; memory := ∅ |}.
Definition CreateThread (k : Kernel) (t priority processor_id : Z) : Kernel + Z :=
  match Create priority processor_id with
  | inl th =>
      inl (set_wait (with_sched k (set_thread (sched k) t th)) t
        {| nominal_priority := priority; lock_owner := None; wait_mutex_threads := []; mutex_wait_address := 0;
           condvar_wait_address := 0; wait_handle := 0; signaling_result := RESULT_SUCCESS |})
  | inr e => inr e
  end.

(** ** Condition variables *)

Definition condvar_list (k : Kernel) (address : Z) : list Z := default [] (cond_var_threads k !! address).
Definition InsertConditionVariableThread (k : Kernel) (t : Z) : option Kernel :=
  w ← waits k !! t;
  let a := condvar_wait_address w in
  Some (set_condvar k a (insert_before k (condvar_list k a) t)).
Definition RemoveConditionVariableThread (k : Kernel) (t : Z) : option Kernel :=
  w ← waits k !! t;
  let a := condvar_wait_address w in
  Some (set_condvar k a (default (condvar_list k a) (erase_first (condvar_list k a) t))).
Definition GetConditionVariableThreads (k : Kernel) (address : Z) : list Z := condvar_list k address.

(** ** Inheritance *)

(** [AddMutexWaiter] and [RemoveMutexWaiter] of [this], with [UpdatePriority]
    as an argument. *)
Definition add_waiter (update : Kernel -> Z -> option Kernel) (k : Kernel) (this t : Z) : option Kernel :=
  w ← waits k !! t;
  if decide (lock_owner w = Some this) then Some k
  else
    o ← waits k !! this;
    let k := set_wait k this (with_waiters o (insert_before k (wait_mutex_threads o) t)) in
    w ← waits k !! t;
    update (set_wait k t (SetLockOwner w (Some this))) this.
Definition remove_waiter (update : Kernel -> Z -> option Kernel) (k : Kernel) (this t : Z) : option Kernel :=
  o ← waits k !! this;
  l ← erase_first (wait_mutex_threads o) t;
  let k := set_wait k this (with_waiters o l) in
  w ← waits k !! t;
  update (set_wait k t (SetLockOwner w None)) this.

Definition inherited (k : Kernel) (w : Waiter) : Z :=
  match wait_mutex_threads w with
  | [] => nominal_priority w
  | x :: _ => if GetPriority k x <? nominal_priority w then GetPriority k x else nominal_priority w
  end.

Section Inheritance.
Context (current : Z).

Fixpoint UpdatePriority (fuel : nat) (k : Kernel) (t : Z) : option Kernel :=
  match fuel with
  | O => None
  | S fuel =>
      w ← waits k !! t;
      th ← threads (sched k) !! t;
      let new_priority := inherited k w in
      if new_priority =? current_priority th then Some k
      else
        let waiting := bool_decide (status th = WaitCondVar) in
        k ← (if waiting then RemoveConditionVariableThread k t else Some k);
        s ← SetCurrentPriority current (sched k) t new_priority;
        let k := with_sched k s in
        k ← (if waiting then InsertConditionVariableThread k t else Some k);
        match lock_owner w with
        | None => Some k
        | Some old_owner =>
            k ← remove_waiter (UpdatePriority fuel) k old_owner t;
            k ← add_waiter (UpdatePriority fuel) k old_owner t;
            w ← waits k !! t;
            o ← lock_owner w;
            UpdatePriority fuel k o
        end
  end.

(** A chain of owners has as many threads as there are, at most. *)
Definition update_priority (k : Kernel) (t : Z) : option Kernel := UpdatePriority (S (size (waits k))) k t.
Definition AddMutexWaiter (k : Kernel) (this t : Z) : option Kernel := add_waiter update_priority k this t.
Definition RemoveMutexWaiter (k : Kernel) (this t : Z) : option Kernel := remove_waiter update_priority k this t.

Definition SetPriority (k : Kernel) (t priority : Z) : option Kernel :=
  w ← waits k !! t; update_priority (set_wait k t (with_nominal w priority)) t.

(** ** Mutexes *)

Definition MutexHasWaitersFlag : Z := 0x40000000.

Fixpoint highest_loop (k : Kernel) (mutex_addr : Z) (l : list Z) (highest : option Z) (num_waiters : Z) : option (option Z * Z) :=
  match l with
  | [] => Some (highest, num_waiters)
  | t :: l =>
      w ← waits k !! t;
      if negb (mutex_wait_address w =? mutex_addr) then highest_loop k mutex_addr l highest num_waiters
      else
        highest_loop k mutex_addr l
          (match highest with
           | None => Some t
           | Some h => if GetPriority k t <? GetPriority k h then Some t else highest
           end) (num_waiters + 1)
  end.
Definition GetHighestPriorityMutexWaitingThread (k : Kernel) (current_thread mutex_addr : Z) : option (option Z * Z) :=
  w ← waits k !! current_thread; highest_loop k mutex_addr (wait_mutex_threads w) None 0.

Fixpoint transfer_loop (k : Kernel) (mutex_addr current_thread new_owner : Z) (l : list Z) : option Kernel :=
  match l with
  | [] => Some k
  | t :: l =>
      w ← waits k !! t;
      if negb (mutex_wait_address w =? mutex_addr) then transfer_loop k mutex_addr current_thread new_owner l
      else
        k ← RemoveMutexWaiter k current_thread t;
        k ← (if new_owner =? t then Some k else AddMutexWaiter k new_owner t);
        transfer_loop k mutex_addr current_thread new_owner l
  end.
Definition TransferMutexOwnership (k : Kernel) (mutex_addr current_thread new_owner : Z) : option Kernel :=
  k ← RemoveMutexWaiter k current_thread new_owner;
  w ← waits k !! current_thread;
  transfer_loop k mutex_addr current_thread new_owner (wait_mutex_threads w).

(** The first critical section of [TryAcquire], for the thread [this] that
    runs; [get] is the lookup of the handle table.  The boolean: the thread
    waits, and goes on with [TryAcquire_finish] when it runs again. *)
Definition TryAcquire (get : Z -> option Z) (k : Kernel) (this address holding_thread_handle requesting_thread_handle : Z)
    : option (Kernel * Z * bool) :=
  if negb (address mod 4 =? 0) then Some (k, ERR_INVALID_ADDRESS, false)
  else
    w ← waits k !! this;
    let k := set_wait k this (SetSynchronizationResults w RESULT_SUCCESS) in
    let addr_value := Read32 k address in
    if negb (addr_value =? holding_thread_handle .| MutexHasWaitersFlag) then Some (k, RESULT_SUCCESS, false)
    else
      match get holding_thread_handle with
      | None => Some (k, ERR_INVALID_HANDLE, false)
      | Some holding_thread =>
          w ← waits k !! this;
          let k := set_wait k this (with_wait w address requesting_thread_handle) in
          s ← SetStatus (sched k) this WaitMutex;
          k ← AddMutexWaiter (with_sched k s) holding_thread this;
          Some (k, RESULT_SUCCESS, true)
      end.
Definition TryAcquire_finish (k : Kernel) (this : Z) : option (Kernel * Z) :=
  w ← waits k !! this;
  k ← match lock_owner w with None => Some k | Some owner => RemoveMutexWaiter k owner this end;
  w ← waits k !! this;
  Some (k, signaling_result w).

Definition Unlock (k : Kernel) (owner address : Z) : option (Kernel * Z * option Z) :=
  if negb (address mod 4 =? 0) then Some (k, ERR_INVALID_ADDRESS, None)
  else
    '(new_owner, num_waiters) ← GetHighestPriorityMutexWaitingThread k owner address;
    match new_owner with
    | None => Some (Write32 k address 0, RESULT_SUCCESS, None)
    | Some new_owner =>
        k ← TransferMutexOwnership k address owner new_owner;
        w ← waits k !! new_owner;
        let mutex_value := if 2 <=? num_waiters then wait_handle w .| MutexHasWaitersFlag else wait_handle w in
        let k := set_wait k new_owner (SetLockOwner (SetSynchronizationResults w RESULT_SUCCESS) None) in
        s ← ResumeFromWait (sched k) new_owner;
        Some (Write32 (with_sched k s) address mutex_value, RESULT_SUCCESS, Some new_owner)
    end.
Definition Release (k : Kernel) (this address : Z) : option (Kernel * Z) :=
  '(k, result, new_owner) ← Unlock k this address;
  k ← match new_owner with
      | Some n => if result =? RESULT_SUCCESS then Some k
                  else w ← waits k !! n; Some (set_wait k n (SetSynchronizationResults w result))
      | None => Some k
      end;
  Some (k, result).
End Inheritance.
End Mutex.
