(* ===== verification/MutexCorrect.v ===== *)
(** * Priority inheritance

    In every state of [Mutex] in which threads do not wait in a circle, a
    thread runs with the best priority of the threads that wait for it, and
    the lists of waiting threads are ordered by priority; [UpdatePriority],
    which takes threads out of the lists and puts them back on its way along
    the chain of owners, returns and establishes this again. *)

From S2P Require Import Prelude KernelObject Scheduler SchedulerQueues SchedulerCorrect Mutex.
From stdpp Require Import base list gmap.
From Stdlib Require Import Sorting.Sorted.
Open Scope Z_scope.
Import Sched Mutex.
Implicit Types (k : Kernel) (w : Waiter) (t o u : Z) (l : list Z).

(** ** Owners *)

(** The number of owners above a thread. *)
Inductive depth k : Z -> nat -> Prop :=
  | depth_root t w : waits k !! t = Some w -> lock_owner w = None -> depth k t 0
  | depth_next t w o n : waits k !! t = Some w -> lock_owner w = Some o -> depth k o n -> depth k t (S n).

(** [u] is [t], its owner, the owner of that, ... *)
Inductive waits_for k : Z -> Z -> Prop :=
  | waits_for_refl t : waits_for k t t
  | waits_for_next t w o u : waits k !! t = Some w -> lock_owner w = Some o -> waits_for k o u -> waits_for k t u.

Lemma depth_det k t n m : depth k t n -> depth k t m -> n = m.
Proof.
  intros Hn. revert m. induction Hn as [t w Hw Ho|t w o n Hw Ho Hd IH]; intros m Hm; inversion Hm; subst; simplify_eq; [done|]. f_equal. by apply IH.
Qed.
Lemma depth_above k t u n : depth k t n -> waits_for k t u -> exists m, depth k u m /\ (m <= n)%nat.
Proof.
  intros Hd Ha. revert n Hd. induction Ha as [t|t w o u Hw Ho Ha IH]; intros n Hd; [eauto|]. inversion Hd; subst; simplify_eq.
  destruct (IH _ ltac:(done)) as (m & Hm & Hle). exists m. split; [done|lia].
Qed.
Lemma owner_not_below k t w o n : waits k !! t = Some w -> lock_owner w = Some o -> depth k t n -> ~ waits_for k o t.
Proof.
  intros Hw Ho Hd Ha. inversion Hd; subst; simplify_eq. match goal with H : depth k o _ |- _ => destruct (depth_above _ _ _ _ H Ha) as (m & Hm & Hle) end.
  pose proof (depth_det _ _ _ _ Hd Hm). lia.
Qed.

(** A chain of owners has no thread twice. *)
Lemma depth_chain k t n : depth k t n -> exists l, length l = S n /\ NoDup l /\ forall u, u ∈ l -> u ∈ dom (waits k) /\ exists m, depth k u m /\ (m <= n)%nat.
Proof.
  induction 1 as [t w Hw Ho|t w o n Hw Ho Hd (l & Hl & Hn & Hin)].
  - exists [t]. split; [done|]. split; [apply NoDup_singleton|]. intros u ->%list_elem_of_singleton. split; [by eapply elem_of_dom_2|]. exists 0%nat. split; [by eapply depth_root|done].
  - assert (depth k t (S n)) as Ht by (by eapply depth_next). exists (t :: l). split; [cbn; lia|]. split.
    + constructor; [|done]. intros Hin'. destruct (Hin t Hin') as [_ (m & Hm & Hle)]. pose proof (depth_det _ _ _ _ Ht Hm). lia.
    + intros u [->|Hu]%elem_of_cons; [split; [by eapply elem_of_dom_2|eauto]|]. destruct (Hin u Hu) as [Hdom (m & Hm & Hle)]. split; [done|]. exists m. split; [done|lia].
Qed.
Lemma depth_bound k t n : depth k t n -> (n < size (waits k))%nat.
Proof.
  intros Hd. destruct (depth_chain k t n Hd) as (l & Hl & Hn & Hin). rewrite <- (size_dom (D := gset Z)).
  assert (size (list_to_set l : gset Z) <= size (dom (waits k)))%nat as Hs.
  { apply subseteq_size. intros u Hu. apply elem_of_list_to_set in Hu. by apply Hin. }
  rewrite size_list_to_set in Hs by done. lia.
Qed.

(** ** The invariant *)

Definition sorted k l : Prop := StronglySorted (fun x y => GetPriority k x <= GetPriority k y) l.

Record shape_ok k : Prop := {
  mo_sched : sched_ok (sched k);
  mo_dom t : is_Some (waits k !! t) <-> is_Some (threads (sched k) !! t);
  mo_waiters o wo t : waits k !! o = Some wo -> (t ∈ wait_mutex_threads wo) <-> exists w, waits k !! t = Some w /\ lock_owner w = Some o;
  mo_nodup o wo : waits k !! o = Some wo -> NoDup (wait_mutex_threads wo);
  mo_owner t w o : waits k !! t = Some w -> lock_owner w = Some o -> is_Some (waits k !! o);
  mo_nominal t w : waits k !! t = Some w -> 0 <= nominal_priority w < 63;
  mo_depth t : is_Some (waits k !! t) -> exists n, depth k t n
}.

(** Lists in order, and inherited priorities for all threads but [x]. *)
Record inherit_ok k (x : option Z) : Prop := {
  mi_shape : shape_ok k;
  mi_sorted o wo : waits k !! o = Some wo -> sorted k (wait_mutex_threads wo);
  mi_inherit t w : Some t <> x -> waits k !! t = Some w -> GetPriority k t = inherited k w
}.

Lemma priority_of k t th : threads (sched k) !! t = Some th -> GetPriority k t = current_priority th.
Proof. intros H. unfold GetPriority. by rewrite H. Qed.
Lemma priority_range k t : shape_ok k -> is_Some (waits k !! t) -> 0 <= GetPriority k t < 63.
Proof.
  intros Hs Ht. apply (mo_dom k Hs) in Ht as [th Ht]. rewrite (priority_of k t th Ht). apply (to_priority th), (so_threads _ (mo_sched k Hs) t th Ht).
Qed.
Lemma waiter_known k o wo t : shape_ok k -> waits k !! o = Some wo -> t ∈ wait_mutex_threads wo -> is_Some (waits k !! t).
Proof. intros Hs Ho Ht. apply (mo_waiters k Hs o wo t Ho) in Ht as (w & Hw & _). eauto. Qed.
Lemma inherited_range k t w : shape_ok k -> waits k !! t = Some w -> 0 <= inherited k w < 63.
Proof.
  intros Hs Hw. pose proof (mo_nominal k Hs t w Hw). unfold inherited. destruct (wait_mutex_threads w) as [|x l] eqn:E; [lia|].
  pose proof (priority_range k x Hs (waiter_known k t w x Hs Hw ltac:(rewrite E; left))). destruct (_ <? _); lia.
Qed.

(** ** Lists *)

Lemma sorted_ext k k' l : (forall x, x ∈ l -> GetPriority k' x = GetPriority k x) -> sorted k l -> sorted k' l.
Proof.
  intros He Hs. induction Hs as [|x l Hs IH HF]; [constructor|]. constructor; [apply IH; intros y Hy; apply He; by right|].
  rewrite Forall_forall in HF |- *. intros y Hy. rewrite !He by (left || by right). by apply HF.
Qed.
Lemma sorted_filter k l t : sorted k l -> sorted k (filter (fun x => x <> t) l).
Proof.
  induction 1 as [|x l Hs IH HF]; [constructor|]. rewrite filter_cons. case_decide; [|done]. constructor; [done|].
  rewrite Forall_forall in HF |- *. intros y [_ Hy]%list_elem_of_filter. by apply HF.
Qed.
Lemma insert_before_perm k l t : insert_before k l t ≡ₚ t :: l.
Proof. induction l as [|x l IH]; [done|]. cbn. case_match; [done|]. rewrite IH. apply Permutation_swap. Qed.
Lemma insert_before_sorted k l t : sorted k l -> sorted k (insert_before k l t).
Proof.
  induction 1 as [|x l Hs IH HF]; [by repeat constructor|]. cbn. destruct (Z.ltb_spec (GetPriority k t) (GetPriority k x)) as [Hlt|Hge].
  - constructor; [by constructor|]. constructor; [lia|]. eapply Forall_impl; [exact HF|]. cbn. lia.
  - constructor; [done|]. rewrite Forall_forall in HF |- *. intros y Hy. rewrite (insert_before_perm k l t) in Hy.
    apply elem_of_cons in Hy as [->|Hy]; [lia|by apply HF].
Qed.
Lemma erase_first_filter l t : NoDup l -> t ∈ l -> erase_first l t = Some (filter (fun x => x <> t) l).
Proof.
  induction l as [|x l IH]; intros Hn Ht; [by apply not_elem_of_nil in Ht|]. apply NoDup_cons in Hn as [Hx Hn]. cbn [erase_first].
  destruct (Z.eqb_spec x t) as [->|Hne]; [rewrite filter_cons_False by tauto; by rewrite filter_absent|].
  apply elem_of_cons in Ht as [->|Ht]; [done|]. rewrite IH by done. by rewrite filter_cons_True.
Qed.

(** ** Graphs *)

(** The same thread but for the order of its waiting threads; the same thread
    of the scheduler but for its priority and the count of yields. *)
Definition like (w w' : Waiter) : Prop := with_waiters w [] = with_waiters w' [] /\ wait_mutex_threads w ≡ₚ wait_mutex_threads w'.
Definition like_thread (th th' : Thread) : Prop := with_yield_count (with_priority th 0) 0 = with_yield_count (with_priority th' 0) 0.
Definition same_waits k k' : Prop := forall t, option_Forall2 like (waits k !! t) (waits k' !! t).
Definition same_sched k k' : Prop := forall t, option_Forall2 like_thread (threads (sched k) !! t) (threads (sched k') !! t).
Definition same_graph k k' : Prop := same_waits k k' /\ same_sched k k' /\ memory k' = memory k.

#[export] Instance like_equiv : Equivalence like.
Proof.
  split; [by intros w|intros w w' [E Hp]; by split|]. intros a b c [E1 H1] [E2 H2]. split; [congruence|by etrans].
Qed.
#[export] Instance same_graph_equiv : PreOrder same_graph.
Proof.
  split; [intros k; split; [|split; [|done]]; intros t; apply option_Forall2_refl; [intros w; reflexivity|by intros w]|].
  intros a b c (H1 & H2 & H3) (K1 & K2 & K3). split; [|split; [|congruence]]; intros t; specialize (H1 t); specialize (H2 t); specialize (K1 t); specialize (K2 t).
  - destruct H1 as [x y Hxy|]; inversion K1; subst; constructor. by etrans.
  - destruct H2 as [x y Hxy|]; inversion K2; subst; constructor. unfold like_thread in *. congruence.
Qed.

Lemma same_lookup_waits k k' t w' : same_waits k k' -> waits k' !! t = Some w' -> exists w, waits k !! t = Some w /\ like w w'.
Proof. intros H Hw'. specialize (H t). rewrite Hw' in H. inversion H as [w ? Hl E1 E2|]; subst. eauto. Qed.
Lemma same_lookup_waits_l k k' t w : same_waits k k' -> waits k !! t = Some w -> exists w', waits k' !! t = Some w' /\ like w w'.
Proof. intros H Hw. specialize (H t). rewrite Hw in H. inversion H as [? w' Hl E1 E2|]; subst. eauto. Qed.
Lemma like_owner w w' : like w w' -> lock_owner w' = lock_owner w.
Proof. intros [E _]. by injection E. Qed.
Lemma like_nominal w w' : like w w' -> nominal_priority w' = nominal_priority w.
Proof. intros [E _]. by injection E. Qed.

Lemma depth_same k k' t n : same_waits k k' -> depth k t n -> depth k' t n.
Proof.
  intros Hs. induction 1 as [t w Hw Ho|t w o n Hw Ho Hd IH]; destruct (same_lookup_waits_l _ _ _ _ Hs Hw) as (w' & Hw' & Hl); pose proof (like_owner _ _ Hl) as E.
  - apply depth_root with w'; [done|congruence].
  - apply depth_next with w' o; [done|congruence|done].
Qed.

(** ** Detaching a thread from its owner *)

Definition detach k o wo t w : Kernel :=
  set_wait (set_wait k o (with_waiters wo (filter (fun x => x <> t) (wait_mutex_threads wo)))) t (SetLockOwner w None).

Section Detach.
Context k o wo t w (Hs : shape_ok k) (Ho : waits k !! o = Some wo) (Ht : waits k !! t = Some w) (Hot : lock_owner w = Some o) (Hne : o <> t).

Lemma detach_lookup u wu : waits (detach k o wo t w) !! u = Some wu <->
  (u = t /\ wu = SetLockOwner w None) \/ (u = o /\ wu = with_waiters wo (filter (fun x => x <> t) (wait_mutex_threads wo))) \/ (u <> t /\ u <> o /\ waits k !! u = Some wu).
Proof.
  unfold detach, set_wait. cbn [waits]. destruct (decide (u = t)) as [->|Hut]; [rewrite lookup_insert_eq; naive_solver|]. rewrite lookup_insert_ne by done.
  destruct (decide (u = o)) as [->|Huo]; [rewrite lookup_insert_eq; naive_solver|]. rewrite lookup_insert_ne by done. naive_solver.
Qed.
Lemma detach_some u : is_Some (waits (detach k o wo t w) !! u) <-> is_Some (waits k !! u).
Proof.
  unfold detach, set_wait. cbn [waits]. rewrite !lookup_insert_is_Some'. split; [intros [<-|[<-|?]]; eauto|]. auto.
Qed.
Lemma detach_priority u : GetPriority (detach k o wo t w) u = GetPriority k u.
Proof. done. Qed.

Lemma detach_depth u n : depth k u n -> exists m, depth (detach k o wo t w) u m /\ (m <= n)%nat.
Proof.
  induction 1 as [u wu Hu Hr|u wu v n Hu Hr Hd (m & IH & Hle)]; (destruct (decide (u = t)) as [->|Hut];
    [exists 0%nat; split; [apply depth_root with (SetLockOwner w None); [apply detach_lookup; by left|done]|lia]|]);
    (destruct (decide (u = o)) as [->|Huo]; [simplify_eq; set (wu := with_waiters wo (filter (fun x => x <> t) (wait_mutex_threads wo)));
       assert (waits (detach k o wo t w) !! o = Some wu) as Eo by (apply detach_lookup; right; by left)|
       assert (waits (detach k o wo t w) !! u = Some wu) as Eo by (apply detach_lookup; by right; right)]).
  - exists 0%nat. split; [by apply depth_root with wu|lia].
  - exists 0%nat. split; [by apply depth_root with wu|lia].
  - exists (S m). split; [by apply depth_next with wu v|lia].
  - exists (S m). split; [by apply depth_next with wu v|lia].
Qed.

Lemma detach_shape : shape_ok (detach k o wo t w).
Proof.
  split.
  - apply (mo_sched k Hs).
  - intros u. rewrite detach_some. apply (mo_dom k Hs).
  - assert (forall u, (exists wu, waits (detach k o wo t w) !! u = Some wu /\ lock_owner wu = Some o) <-> u <> t /\ exists wu, waits k !! u = Some wu /\ lock_owner wu = Some o) as Hin.
    { intros u. split.
      - intros (wu & [(-> & ->)|[(-> & ->)|(H1 & H2 & H3)]]%detach_lookup & Hl); [done| |naive_solver]. split; [done|]. by exists wo.
      - intros (Hut & wu & Hu & Hl). destruct (decide (u = o)) as [->|Huo]; [|exists wu; rewrite detach_lookup; naive_solver].
        simplify_eq. exists (with_waiters wo (filter (fun x => x <> t) (wait_mutex_threads wo))). rewrite detach_lookup. naive_solver. }
    assert (forall v u, v <> o -> (exists wu, waits (detach k o wo t w) !! u = Some wu /\ lock_owner wu = Some v) <-> exists wu, waits k !! u = Some wu /\ lock_owner wu = Some v) as Hother.
    { intros v u Hv. split.
      - intros (wu & [(-> & ->)|[(-> & ->)|(H1 & H2 & H3)]]%detach_lookup & Hl); [done|by exists wo|eauto].
      - intros (wu & Hu & Hl). destruct (decide (u = t)) as [->|Hut]; [simplify_eq|].
        destruct (decide (u = o)) as [->|Huo]; [|exists wu; rewrite detach_lookup; naive_solver].
        simplify_eq. exists (with_waiters wo (filter (fun x => x <> t) (wait_mutex_threads wo))). rewrite detach_lookup. naive_solver. }
    intros v wv u [(-> & ->)|[(-> & ->)|(H1 & H2 & H3)]]%detach_lookup.
    + rewrite Hother by done. apply (mo_waiters k Hs t w u Ht).
    + rewrite Hin. cbn [with_waiters wait_mutex_threads]. rewrite list_elem_of_filter. by rewrite (mo_waiters k Hs o wo u Ho).
    + rewrite Hother by done. by apply (mo_waiters k Hs v wv).
  - intros v wv [(-> & ->)|[(-> & ->)|(H1 & H2 & H3)]]%detach_lookup; [exact (mo_nodup k Hs t w Ht)|cbn; by apply NoDup_filter, (mo_nodup k Hs o)|by apply (mo_nodup k Hs v)].
  - intros v wv x Hv Hx. rewrite detach_some. apply detach_lookup in Hv as [(-> & ->)|[(-> & ->)|(H1 & H2 & H3)]]; [done|by apply (mo_owner k Hs o wo)|by apply (mo_owner k Hs v wv)].
  - intros v wv [(-> & ->)|[(-> & ->)|(H1 & H2 & H3)]]%detach_lookup; [by apply (mo_nominal k Hs t w)|by apply (mo_nominal k Hs o wo)|by apply (mo_nominal k Hs v wv)].
  - intros u Hu. apply detach_some in Hu. destruct (mo_depth k Hs u Hu) as [n Hn]. destruct (detach_depth u n Hn) as (m & Hm & _). eauto.
Qed.

(** With the other lists in order, and the other priorities inherited. *)
Lemma detach_inherit :
  (forall v wv, waits k !! v = Some wv -> sorted k (filter (fun x => x <> t) (wait_mutex_threads wv))) ->
  (forall u wu, u <> o -> waits k !! u = Some wu -> GetPriority k u = inherited k wu) -> inherit_ok (detach k o wo t w) (Some o).
Proof.
  intros Hsort Hinh. split; [exact detach_shape|..].
  - intros v wv Hv. apply sorted_ext with k; [done|]. apply detach_lookup in Hv as [(-> & ->)|[(-> & ->)|(H1 & H2 & H3)]].
    + specialize (Hsort t w Ht). cbn [SetLockOwner wait_mutex_threads]. rewrite filter_absent in Hsort; [done|].
      rewrite (mo_waiters k Hs t w t Ht). intros (w' & Hw' & Hl). congruence.
    + exact (Hsort o wo Ho).
    + specialize (Hsort v wv H3). rewrite filter_absent in Hsort; [done|]. rewrite (mo_waiters k Hs v wv t H3). intros (w' & Hw' & Hl). congruence.
  - intros u wu Hu Hwu. apply detach_lookup in Hwu as [(-> & ->)|[(-> & ->)|(H1 & H2 & H3)]]; [|done|by apply Hinh].
    change (inherited (detach k o wo t w) (SetLockOwner w None)) with (inherited k w). by apply Hinh.
Qed.
End Detach.

(** ** Attaching a thread to an owner *)

Definition attach k o wo t w : Kernel :=
  set_wait (set_wait k o (with_waiters wo (insert_before k (wait_mutex_threads wo) t))) t (SetLockOwner w (Some o)).

Section Attach.
Context k o wo t w (Hs : shape_ok k) (Ho : waits k !! o = Some wo) (Ht : waits k !! t = Some w) (Hot : lock_owner w = None) (Hnot : ~ waits_for k o t).

Lemma attach_ne : o <> t.
Proof. intros ->. apply Hnot. constructor. Qed.

Lemma attach_lookup u wu : waits (attach k o wo t w) !! u = Some wu <->
  (u = t /\ wu = SetLockOwner w (Some o)) \/ (u = o /\ wu = with_waiters wo (insert_before k (wait_mutex_threads wo) t)) \/ (u <> t /\ u <> o /\ waits k !! u = Some wu).
Proof.
  pose proof attach_ne as Hne. unfold attach, set_wait. cbn [waits]. destruct (decide (u = t)) as [->|Hut]; [rewrite lookup_insert_eq; naive_solver|]. rewrite lookup_insert_ne by done.
  destruct (decide (u = o)) as [->|Huo]; [rewrite lookup_insert_eq; naive_solver|]. rewrite lookup_insert_ne by done. naive_solver.
Qed.
Lemma attach_some u : is_Some (waits (attach k o wo t w) !! u) <-> is_Some (waits k !! u).
Proof.
  unfold attach, set_wait. cbn [waits]. rewrite !lookup_insert_is_Some'. split; [intros [<-|[<-|?]]; eauto|]. auto.
Qed.

(** The owners of a thread other than [t] stay. *)
Lemma attach_owner u wu v : u <> t -> waits k !! u = Some wu -> lock_owner wu = v -> exists wu', waits (attach k o wo t w) !! u = Some wu' /\ lock_owner wu' = v.
Proof.
  intros Hut Hu Hv. destruct (decide (u = o)) as [->|Huo].
  - simplify_eq. exists (with_waiters wo (insert_before k (wait_mutex_threads wo) t)). rewrite attach_lookup. naive_solver.
  - exists wu. rewrite attach_lookup. naive_solver.
Qed.
Lemma attach_depth_above u n : depth k u n -> ~ waits_for k u t -> depth (attach k o wo t w) u n.
Proof.
  induction 1 as [u wu Hu Hr|u wu v n Hu Hr Hd IH]; intros Ha; (assert (u <> t) as Hut by (intros ->; apply Ha; constructor));
    destruct (attach_owner u wu _ Hut Hu Hr) as (wu' & Hu' & Hr').
  - by apply depth_root with wu'.
  - apply depth_next with wu' v; [done|done|]. apply IH. intros Hv. apply Ha. by apply waits_for_next with wu v.
Qed.
Lemma attach_depth u n : depth k u n -> exists m, depth (attach k o wo t w) u m.
Proof.
  destruct (mo_depth k Hs o ltac:(eauto)) as [mo Hmo]. pose proof (attach_depth_above o mo Hmo Hnot) as Hmo'.
  assert (exists wt, waits (attach k o wo t w) !! t = Some wt /\ lock_owner wt = Some o) as (wt & Ht' & Hl')
    by (exists (SetLockOwner w (Some o)); rewrite attach_lookup; naive_solver).
  induction 1 as [u wu Hu Hr|u wu v n Hu Hr Hd (m & IH)]; (destruct (decide (u = t)) as [->|Hut]; [exists (S mo); by apply depth_next with wt o|]);
    destruct (attach_owner u wu _ Hut Hu Hr) as (wu' & Hu' & Hr').
  - exists 0%nat. by apply depth_root with wu'.
  - exists (S m). by apply depth_next with wu' v.
Qed.

Lemma attach_shape : shape_ok (attach k o wo t w).
Proof.
  pose proof attach_ne as Hne. split.
  - apply (mo_sched k Hs).
  - intros u. rewrite attach_some. apply (mo_dom k Hs).
  - assert (forall v u, (exists wu, waits (attach k o wo t w) !! u = Some wu /\ lock_owner wu = Some v)
      <-> (u = t /\ v = o) \/ exists wu, waits k !! u = Some wu /\ lock_owner wu = Some v) as Hin.
    { intros v u. split.
      - intros (wu & [(-> & ->)|[(-> & ->)|(H1 & H2 & H3)]]%attach_lookup & Hl); [left; by injection Hl|right; by exists wo|right; eauto].
      - intros [[-> ->]|(wu & Hu & Hl)]; [exists (SetLockOwner w (Some o)); rewrite attach_lookup; naive_solver|].
        destruct (decide (u = t)) as [->|Hut]; [simplify_eq|]. by apply (attach_owner u wu). }
    intros v wv u Hv. rewrite Hin. apply attach_lookup in Hv as [(-> & ->)|[(-> & ->)|(H1 & H2 & H3)]].
    + cbn [SetLockOwner wait_mutex_threads]. rewrite (mo_waiters k Hs t w u Ht). naive_solver.
    + cbn [with_waiters wait_mutex_threads]. rewrite insert_before_perm, elem_of_cons, (mo_waiters k Hs o wo u Ho). naive_solver.
    + rewrite (mo_waiters k Hs v wv u H3). naive_solver.
  - intros v wv [(-> & ->)|[(-> & ->)|(H1 & H2 & H3)]]%attach_lookup; [exact (mo_nodup k Hs t w Ht)| |by apply (mo_nodup k Hs v)].
    cbn [with_waiters wait_mutex_threads]. rewrite insert_before_perm. constructor; [|by apply (mo_nodup k Hs o)].
    rewrite (mo_waiters k Hs o wo t Ho). intros (w' & Hw' & Hl). congruence.
  - intros v wv x Hv Hx. rewrite attach_some. apply attach_lookup in Hv as [(-> & ->)|[(-> & ->)|(H1 & H2 & H3)]]; [injection Hx as <-; eauto|by apply (mo_owner k Hs o wo)|by apply (mo_owner k Hs v wv)].
  - intros v wv [(-> & ->)|[(-> & ->)|(H1 & H2 & H3)]]%attach_lookup; [by apply (mo_nominal k Hs t w)|by apply (mo_nominal k Hs o wo)|by apply (mo_nominal k Hs v wv)].
  - intros u Hu. apply attach_some in Hu. destruct (mo_depth k Hs u Hu) as [n Hn]. by apply (attach_depth u n).
Qed.

Lemma attach_inherit : inherit_ok k None -> inherit_ok (attach k o wo t w) (Some o).
Proof.
  intros [_ Hsort Hinh]. split; [exact attach_shape|..].
  - intros v wv Hv. apply sorted_ext with k; [done|]. apply attach_lookup in Hv as [(-> & ->)|[(-> & ->)|(H1 & H2 & H3)]];
      [exact (Hsort t w Ht)|apply insert_before_sorted; exact (Hsort o wo Ho)|exact (Hsort v wv H3)].
  - intros u wu Hu Hwu. apply attach_lookup in Hwu as [(-> & ->)|[(-> & ->)|(H1 & H2 & H3)]]; [exact (Hinh t w ltac:(done) Ht)|done|exact (Hinh u wu ltac:(done) H3)].
Qed.
End Attach.

(** ** [UpdatePriority] *)

Section Update.
Context (current : Z).
Abbreviation Update := (UpdatePriority current).

Lemma update_stable fuel k t : inherit_ok k None -> is_Some (waits k !! t) -> Update (S fuel) k t = Some k.
Proof.
  intros Hk [w Hw]. cbn [UpdatePriority]. rewrite Hw. cbn [mbind option_bind]. destruct (proj1 (mo_dom k (mi_shape _ _ Hk) t) ltac:(eauto)) as [th Hth].
  rewrite Hth. cbn [mbind option_bind]. pose proof (mi_inherit k None Hk t w ltac:(done) Hw) as E. rewrite (priority_of k t th Hth) in E.
  rewrite <- E, Z.eqb_refl. done.
Qed.

(** The change of the priority itself, with the lists of the condition
    variables around it. *)
Lemma priority_step k t w th p (waiting : bool) : shape_ok k -> waits k !! t = Some w -> threads (sched k) !! t = Some th -> 0 <= p < 63 ->
  exists k', (k ← (if waiting then RemoveConditionVariableThread k t else Some k);
              s ← SetCurrentPriority current (sched k) t p;
              let k := with_sched k s in
              if waiting then InsertConditionVariableThread k t else Some k) = Some k'
    /\ waits k' = waits k /\ memory k' = memory k /\ sched_ok (sched k') /\ same_sched k k'
    /\ GetPriority k' t = p /\ forall u, u <> t -> GetPriority k' u = GetPriority k u.
Proof.
  intros Hs Hw Hth Hp. assert (exists k1, (if waiting then RemoveConditionVariableThread k t else Some k) = Some k1 /\ waits k1 = waits k /\ sched k1 = sched k /\ memory k1 = memory k)
    as (k1 & -> & Ew1 & Es1 & Em1) by (destruct waiting; [unfold RemoveConditionVariableThread; rewrite Hw; cbn|]; by eexists).
  cbn [mbind option_bind]. rewrite Es1. destruct (adjust_priority_ok current (sched k) t th p (mo_sched k Hs) Hth Hp) as (s & -> & Hs' & n & Et). cbn [mbind option_bind].
  assert (exists k2, (if waiting then InsertConditionVariableThread (with_sched k1 s) t else Some (with_sched k1 s)) = Some k2 /\ waits k2 = waits k /\ sched k2 = s /\ memory k2 = memory k)
    as (k2 & E2 & Ew2 & Es2 & Em2) by (destruct waiting; [unfold InsertConditionVariableThread; cbn [waits with_sched]; rewrite Ew1, Hw; cbn|]; by eexists).
  exists k2. split; [exact E2|]. split; [done|]. split; [done|]. rewrite Es2. split; [done|]. split; [|split].
  - intros u. rewrite Es2, Et. destruct (decide (u = t)) as [->|]; [rewrite lookup_insert_eq, Hth; by constructor|].
    rewrite lookup_insert_ne by done. apply option_Forall2_refl. by intros x.
  - unfold GetPriority. by rewrite Es2, Et, lookup_insert_eq.
  - intros u Hu. unfold GetPriority. by rewrite Es2, Et, lookup_insert_ne.
Qed.

Lemma inherited_ext k k' w : (forall x, x ∈ wait_mutex_threads w -> GetPriority k' x = GetPriority k x) -> inherited k' w = inherited k w.
Proof. intros H. unfold inherited. destruct (wait_mutex_threads w) as [|x l]; [done|]. by rewrite H by left. Qed.

(** The state after the change: all but the owner have what they inherit, and
    the lists without [t] are in order. *)
Lemma after_step k t w k' : inherit_ok k (Some t) -> waits k !! t = Some w -> waits k' = waits k -> sched_ok (sched k') -> same_sched k k' ->
  GetPriority k' t = inherited k w -> (forall u, u <> t -> GetPriority k' u = GetPriority k u) ->
  shape_ok k' /\ (forall v wv, waits k' !! v = Some wv -> sorted k' (filter (fun x => x <> t) (wait_mutex_threads wv)))
  /\ forall u wu, lock_owner w <> Some u -> waits k' !! u = Some wu -> GetPriority k' u = inherited k' wu.
Proof.
  intros [Hs Hsort Hinh] Hw Ew Hsok Hsame Hpt Hpu. split; [|split].
  - assert (same_waits k k') as Hwaits by (intros u; rewrite Ew; apply option_Forall2_refl; intros x; reflexivity).
    destruct Hs. split; rewrite ?Ew; try done.
    + intros u. rewrite mo_dom0. specialize (Hsame u). destruct Hsame; [split; eauto|done].
    + intros u Hu. destruct (mo_depth0 u Hu) as [n Hn]. exists n. by apply (depth_same k k').
  - intros v wv Hv. rewrite Ew in Hv. apply sorted_ext with k; [|by apply sorted_filter, (Hsort v)]. intros x [Hx _]%list_elem_of_filter. by apply Hpu.
  - intros u wu Hu Hwu. rewrite Ew in Hwu. assert (t ∉ wait_mutex_threads wu) as Hni.
    { rewrite (mo_waiters k Hs u wu t Hwu). intros (w' & Hw' & Hl). congruence. }
    rewrite (inherited_ext k k') by (intros x Hx; apply Hpu; by intros ->). destruct (decide (u = t)) as [->|Hut]; [by simplify_eq|].
    rewrite Hpu by done. apply Hinh; [congruence|done].
Qed.

Lemma like_attach_detach wo t l : wait_mutex_threads wo ≡ₚ t :: l -> like wo (with_waiters wo (t :: l)).
Proof. intros H. by split. Qed.

Lemma filter_perm l t : NoDup l -> t ∈ l -> l ≡ₚ t :: filter (fun x => x <> t) l.
Proof.
  intros Hn Ht. apply NoDup_Permutation; [done|constructor; [rewrite list_elem_of_filter; tauto|by apply NoDup_filter]|].
  intros x. rewrite elem_of_cons, list_elem_of_filter. destruct (decide (x = t)) as [->|]; tauto.
Qed.

Lemma remove_is_detach update k o wo t w : shape_ok k -> waits k !! o = Some wo -> waits k !! t = Some w -> lock_owner w = Some o -> o <> t ->
  remove_waiter update k o t = update (detach k o wo t w) o.
Proof.
  intros Hs Ho Ht Hl Hne. unfold remove_waiter. rewrite Ho. cbn [mbind option_bind].
  rewrite erase_first_filter; [|by apply (mo_nodup k Hs o)|apply (mo_waiters k Hs o wo t Ho); eauto]. cbn [mbind option_bind set_wait waits].
  rewrite lookup_insert_ne, Ht by done. done.
Qed.
Lemma add_is_attach update k o wo t w : waits k !! o = Some wo -> waits k !! t = Some w -> lock_owner w = None -> o <> t ->
  add_waiter update k o t = update (attach k o wo t w) o.
Proof.
  intros Ho Ht Hl Hne. unfold add_waiter. rewrite Ht. cbn [mbind option_bind]. rewrite Hl. rewrite decide_False by done. rewrite Ho.
  cbn [mbind option_bind set_wait waits]. rewrite lookup_insert_ne, Ht by done. done.
Qed.

(** The graph of a state with [t] detached, updated and attached again. *)
Lemma reattach_graph k o wo t w k4 wo4 w4 : shape_ok k -> waits k !! o = Some wo -> waits k !! t = Some w -> lock_owner w = Some o -> o <> t ->
  same_graph (detach k o wo t w) k4 -> waits k4 !! o = Some wo4 -> waits k4 !! t = Some w4 -> same_graph k (attach k4 o wo4 t w4).
Proof.
  intros Hs Ho Ht Hl Hne (Hw & Hsch & Hm) Ho4 Ht4. split; [|split; [exact Hsch|exact Hm]]. intros u.
  assert (same_waits (detach k o wo t w) k4) as Hwaits by done. specialize (Hw u). unfold attach, set_wait. cbn [waits].
  destruct (decide (u = t)) as [->|Hut].
  - rewrite lookup_insert_eq, Ht. constructor. unfold detach, set_wait in Hw. cbn [waits] in Hw. rewrite lookup_insert_eq, Ht4 in Hw. inversion Hw as [? ? [E HP]|]; subst.
    split; [|exact HP]. destruct w, w4. cbn in *. simplify_eq. done.
  - rewrite lookup_insert_ne by done. destruct (decide (u = o)) as [->|Huo].
    + rewrite lookup_insert_eq, Ho. constructor. unfold detach, set_wait in Hw. cbn [waits] in Hw. rewrite lookup_insert_ne, lookup_insert_eq, Ho4 in Hw by done.
      inversion Hw as [? ? [E HP]|]; subst. cbn [with_waiters wait_mutex_threads] in HP. split; [destruct wo, wo4; cbn in *; by simplify_eq|].
      cbn [with_waiters wait_mutex_threads]. rewrite insert_before_perm, <- HP. apply filter_perm; [by apply (mo_nodup k Hs o)|]. apply (mo_waiters k Hs o wo t Ho). eauto.
    + rewrite lookup_insert_ne by done. unfold detach, set_wait in Hw. cbn [waits] in Hw. by rewrite !lookup_insert_ne in Hw by done.
Qed.

Lemma waits_for_detach k o wo t w u v : waits k !! o = Some wo -> waits k !! t = Some w -> o <> t ->
  waits_for (detach k o wo t w) u v -> waits_for k u v.
Proof.
  intros Ho Ht Hne. induction 1 as [u|u wu x v Hu Hx Ha IH]; [constructor|].
  apply (detach_lookup k o wo t w Hne) in Hu as [(-> & ->)|[(-> & ->)|(H1 & H2 & H3)]]; [done|by apply waits_for_next with wo x|by apply waits_for_next with wu x].
Qed.
Lemma waits_for_same k k' u v : same_waits k k' -> waits_for k' u v -> waits_for k u v.
Proof.
  intros Hs. induction 1 as [u|u wu x v Hu Hx Ha IH]; [constructor|]. destruct (same_lookup_waits _ _ _ _ Hs Hu) as (w & Hw & Hl).
  apply waits_for_next with w x; [done|by rewrite <- (like_owner _ _ Hl)|done].
Qed.

(** [UpdatePriority] of a thread whose priority may be off: it returns, all
    threads have what they inherit, and nothing else changes. *)
Lemma update_priority_ok fuel : forall n k t, (n < fuel)%nat -> inherit_ok k (Some t) -> depth k t n ->
  exists k', Update fuel k t = Some k' /\ inherit_ok k' None /\ same_graph k k'.
Proof.
  induction fuel as [|fuel IH]; intros n k t Hn Hk Hd; [lia|]. pose proof Hk as [Hs Hsort Hinh].
  assert (is_Some (waits k !! t)) as [w Hw] by (inversion Hd; eauto). destruct (proj1 (mo_dom k Hs t) ltac:(eauto)) as [th Hth].
  cbn [UpdatePriority]. rewrite Hw. cbn [mbind option_bind]. rewrite Hth. cbn [mbind option_bind].
  destruct (Z.eqb_spec (inherited k w) (current_priority th)) as [E|Hchange].
  { exists k. split; [done|]. split; [|reflexivity]. split; [done|done|]. intros u wu _ Hu. destruct (decide (u = t)) as [->|Hut]; [|apply Hinh; [congruence|done]].
    simplify_eq. by rewrite (priority_of k t th Hth). }
  destruct (priority_step k t w th (inherited k w) (bool_decide (status th = WaitCondVar)) Hs Hw Hth (inherited_range k t w Hs Hw))
    as (k2 & E2 & Ew2 & Em2 & Hso2 & Hsame2 & Hpt & Hpu).
  destruct (after_step k t w k2 Hk Hw Ew2 Hso2 Hsame2 Hpt Hpu) as (Hs2 & Hsort2 & Hinh2).
  assert (same_graph k k2) as Hg2 by (split; [intros u; rewrite Ew2; apply option_Forall2_refl; intros x; reflexivity|by split]).
  destruct (if bool_decide _ then RemoveConditionVariableThread k t else Some k) as [ka|]; [|done]. cbn [mbind option_bind] in E2 |- *.
  destruct (SetCurrentPriority current (sched ka) t (inherited k w)) as [sa|]; [|done]. cbn [mbind option_bind] in E2 |- *. rewrite E2. cbn [mbind option_bind]. clear E2 ka sa.
  destruct (lock_owner w) as [o|] eqn:Hl.
  2: { exists k2. split; [done|]. split; [|done]. split; [done| |intros u wu _ Hu; by apply Hinh2].
       intros v wv Hv. specialize (Hsort2 v wv Hv). rewrite filter_absent in Hsort2; [done|]. rewrite (mo_waiters k2 Hs2 v wv t Hv). intros (w' & Hw' & Hl'). rewrite Ew2 in Hw'. congruence. }
  assert (o <> t) as Hne. { intros ->. apply (owner_not_below k t w t n Hw Hl Hd). constructor. }
  assert (waits k2 !! t = Some w) as Hw2 by (by rewrite Ew2). destruct (mo_owner k Hs t w o Hw Hl) as [wo Ho]. assert (waits k2 !! o = Some wo) as Ho2 by (by rewrite Ew2).
  inversion Hd as [|? ? ? m ? ? Hdo]; subst; simplify_eq. assert (depth k2 o m) as Hdo2 by (apply (depth_same k k2); [apply Hg2|done]).
  rewrite (remove_is_detach _ k2 o wo t w Hs2 Ho2 Hw2 Hl Hne).
  assert (inherit_ok (detach k2 o wo t w) (Some o)) as Hk3 by (apply detach_inherit; try done; intros u wu Hu; apply Hinh2; congruence).
  destruct (detach_depth k2 o wo t w Ho2 Hne o m Hdo2) as (m3 & Hd3 & Hle3).
  destruct (IH m3 (detach k2 o wo t w) o ltac:(lia) Hk3 Hd3) as (k4 & -> & Hk4 & Hg4). cbn [mbind option_bind].
  destruct (same_lookup_waits_l _ k4 t (SetLockOwner w None) (proj1 Hg4)) as (w4 & Hw4 & Hlike4); [apply detach_lookup; [done|by left]|].
  destruct (same_lookup_waits_l _ k4 o (with_waiters wo (filter (fun x => x <> t) (wait_mutex_threads wo))) (proj1 Hg4)) as (wo4 & Ho4 & Hlikeo); [apply detach_lookup; [done|right; by left]|].
  pose proof (like_owner _ _ Hlike4) as Hl4. cbn in Hl4. rewrite (add_is_attach _ k4 o wo4 t w4 Ho4 Hw4 Hl4 Hne).
  assert (~ waits_for k4 o t) as Hnot4.
  { intros Ha. apply (owner_not_below k2 t w o (S m) Hw2 Hl); [by apply depth_next with w o|]. apply (waits_for_detach k2 o wo t w); [done|done|done|]. by apply (waits_for_same _ k4); [apply Hg4|]. }
  assert (inherit_ok (attach k4 o wo4 t w4) (Some o)) as Hk5 by (apply attach_inherit; try done; apply Hk4).
  assert (depth (attach k4 o wo4 t w4) o m3) as Hd5 by (apply attach_depth_above; try done; apply (depth_same (detach k2 o wo t w)); [apply Hg4|done]).
  destruct (IH m3 _ o ltac:(lia) Hk5 Hd5) as (k6 & -> & Hk6 & Hg6). cbn [mbind option_bind].
  destruct (same_lookup_waits_l _ k6 t (SetLockOwner w4 (Some o)) (proj1 Hg6)) as (w6 & Hw6 & Hlike6); [rewrite attach_lookup by done; by left|].
  rewrite Hw6. cbn [mbind option_bind]. rewrite (like_owner _ _ Hlike6). cbn [SetLockOwner lock_owner mbind option_bind].
  destruct fuel as [|fuel]; [lia|]. rewrite (update_stable fuel k6 o Hk6) by (apply (mo_owner k6 (mi_shape _ _ Hk6) t w6); [done|by rewrite (like_owner _ _ Hlike6)]).
  exists k6. split; [done|]. split; [done|]. etrans; [exact Hg2|]. etrans; [|exact Hg6]. by apply (reattach_graph k2 o wo t w k4 wo4 w4).
Qed.
End Update.

(** ** The operations on waiting threads *)

Definition owner_of k t : option Z := waits k !! t ≫= lock_owner.

(** The same but for owners and waiting threads. *)
Definition fixed (w : Waiter) : Waiter := SetLockOwner (with_waiters w []) None.
Definition same_fixed k k' : Prop := (forall t, fixed <$> waits k' !! t = fixed <$> waits k !! t) /\ same_sched k k' /\ memory k' = memory k.
#[export] Instance same_fixed_preorder : PreOrder same_fixed.
Proof.
  split; [intros k; split; [done|]; split; [intros t; apply option_Forall2_refl; by intros|done]|].
  intros a b c (H1 & H2 & H3) (K1 & K2 & K3). split; [intros t; by rewrite K1, H1|]. split; [|congruence]. intros t. specialize (H2 t). specialize (K2 t).
  destruct H2 as [x y Hxy|]; inversion K2; subst; constructor. unfold like_thread in *. congruence.
Qed.
Lemma graph_fixed k k' : same_graph k k' -> same_fixed k k'.
Proof.
  intros (H1 & H2 & H3). split; [|done]. intros t. specialize (H1 t). destruct H1 as [w w' [E _]|]; [|done]. cbn. f_equal. unfold fixed. by rewrite E.
Qed.
Lemma graph_owner k k' t : same_graph k k' -> owner_of k' t = owner_of k t.
Proof. intros (H1 & _). unfold owner_of. specialize (H1 t). destruct H1 as [w w' Hl|]; [|done]. cbn. by apply like_owner. Qed.
Lemma fixed_some k k' t : same_fixed k k' -> is_Some (waits k' !! t) <-> is_Some (waits k !! t).
Proof. intros (H & _). specialize (H t). destruct (waits k' !! t), (waits k !! t); try done; split; eauto. Qed.
Lemma fixed_lookup k k' t w : same_fixed k k' -> waits k !! t = Some w -> exists w', waits k' !! t = Some w' /\ fixed w' = fixed w.
Proof. intros (H & _) Hw. specialize (H t). rewrite Hw in H. destruct (waits k' !! t) as [w'|]; [|done]. cbn in H. exists w'. split; [done|congruence]. Qed.

Lemma detach_fixed k o wo t w : waits k !! o = Some wo -> waits k !! t = Some w -> o <> t -> same_fixed k (detach k o wo t w).
Proof.
  intros Ho Ht Hne. split; [|split; [intros u; apply option_Forall2_refl; by intros|done]]. intros u. unfold detach, set_wait. cbn [waits].
  destruct (decide (u = t)) as [->|]; [by rewrite lookup_insert_eq, Ht|]. rewrite lookup_insert_ne by done.
  destruct (decide (u = o)) as [->|]; [by rewrite lookup_insert_eq, Ho|]. by rewrite lookup_insert_ne.
Qed.
Lemma attach_fixed k o wo t w : waits k !! o = Some wo -> waits k !! t = Some w -> o <> t -> same_fixed k (attach k o wo t w).
Proof.
  intros Ho Ht Hne. split; [|split; [intros u; apply option_Forall2_refl; by intros|done]]. intros u. unfold attach, set_wait. cbn [waits].
  destruct (decide (u = t)) as [->|]; [by rewrite lookup_insert_eq, Ht|]. rewrite lookup_insert_ne by done.
  destruct (decide (u = o)) as [->|]; [by rewrite lookup_insert_eq, Ho|]. by rewrite lookup_insert_ne.
Qed.
Lemma detach_owner k o wo t w u : waits k !! o = Some wo -> o <> t -> owner_of (detach k o wo t w) u = if u =? t then None else owner_of k u.
Proof.
  intros Ho Hne. unfold owner_of, detach, set_wait. cbn [waits]. destruct (Z.eqb_spec u t) as [->|]; [by rewrite lookup_insert_eq|].
  rewrite lookup_insert_ne by done. destruct (decide (u = o)) as [->|]; [by rewrite lookup_insert_eq, Ho|]. by rewrite lookup_insert_ne.
Qed.
Lemma attach_owner_of k o wo t w u : waits k !! o = Some wo -> o <> t -> owner_of (attach k o wo t w) u = if u =? t then Some o else owner_of k u.
Proof.
  intros Ho Hne. unfold owner_of, attach, set_wait. cbn [waits]. destruct (Z.eqb_spec u t) as [->|]; [by rewrite lookup_insert_eq|].
  rewrite lookup_insert_ne by done. destruct (decide (u = o)) as [->|]; [by rewrite lookup_insert_eq, Ho|]. by rewrite lookup_insert_ne.
Qed.

(** ** Changes that keep the graph *)

Lemma shape_set k t w w' : shape_ok k -> waits k !! t = Some w -> lock_owner w' = lock_owner w -> wait_mutex_threads w' = wait_mutex_threads w ->
  0 <= nominal_priority w' < 63 -> shape_ok (set_wait k t w').
Proof.
  intros Hs Hw Hl Hq Hn. assert (forall u wu, waits (set_wait k t w') !! u = Some wu -> exists wu0, waits k !! u = Some wu0
    /\ lock_owner wu = lock_owner wu0 /\ wait_mutex_threads wu = wait_mutex_threads wu0 /\ 0 <= nominal_priority wu < 63) as Hto.
  { intros u wu. cbn [set_wait waits]. destruct (decide (u = t)) as [->|]; [rewrite lookup_insert_eq; intros [= <-]; eauto 10|].
    rewrite lookup_insert_ne by done. intros Hu. pose proof (mo_nominal k Hs u wu Hu). eauto 10. }
  assert (forall u wu0, waits k !! u = Some wu0 -> exists wu, waits (set_wait k t w') !! u = Some wu /\ lock_owner wu = lock_owner wu0) as Hfrom.
  { intros u wu0 Hu. cbn [set_wait waits]. destruct (decide (u = t)) as [->|]; [rewrite lookup_insert_eq; simplify_eq; eauto|]. rewrite lookup_insert_ne by done. eauto. }
  split.
  - apply (mo_sched k Hs).
  - intros u. rewrite <- (mo_dom k Hs u). split; [intros [wu Hu]; destruct (Hto u wu Hu) as (? & ? & _)|intros [wu Hu]; destruct (Hfrom u wu Hu) as (? & ? & _)]; eauto.
  - intros o wo u Ho. destruct (Hto o wo Ho) as (wo0 & Ho0 & _ & -> & _). rewrite (mo_waiters k Hs o wo0 u Ho0). split.
    + intros (wu & Hu & E). destruct (Hfrom u wu Hu) as (wu' & Hu' & E'). exists wu'. split; [done|congruence].
    + intros (wu & Hu & E). destruct (Hto u wu Hu) as (wu' & Hu' & E' & _). exists wu'. split; [done|congruence].
  - intros o wo Ho. destruct (Hto o wo Ho) as (wo0 & Ho0 & _ & -> & _). by apply (mo_nodup k Hs o).
  - intros u wu o Hu E. destruct (Hto u wu Hu) as (wu0 & Hu0 & E0 & _). destruct (mo_owner k Hs u wu0 o Hu0 ltac:(congruence)) as [wo Ho].
    destruct (Hfrom o wo Ho) as (? & ? & _). eauto.
  - intros u wu Hu. by destruct (Hto u wu Hu) as (? & ? & ? & ? & ?).
  - intros u [wu Hu]. destruct (Hto u wu Hu) as (wu0 & Hu0 & _). destruct (mo_depth k Hs u ltac:(eauto)) as [n Hd]. exists n.
    clear Hu Hu0 wu wu0. induction Hd as [u wu Hu E|u wu o n Hu E Hd IH]; destruct (Hfrom u wu Hu) as (wu' & Hu' & E').
    + apply depth_root with wu'; [done|congruence].
    + apply depth_next with wu' o; [done|congruence|done].
Qed.

Lemma inherit_set k t w w' : inherit_ok k None -> waits k !! t = Some w -> lock_owner w' = lock_owner w -> wait_mutex_threads w' = wait_mutex_threads w ->
  0 <= nominal_priority w' < 63 -> inherit_ok (set_wait k t w') (if nominal_priority w' =? nominal_priority w then None else Some t).
Proof.
  intros Hk Hw Hl Hq Hn. split; [by apply (shape_set k t w w'); [apply Hk|..]|..].
  - intros o wo. cbn [set_wait waits]. intros Ho. apply sorted_ext with k; [done|]. destruct (decide (o = t)) as [->|].
    + rewrite lookup_insert_eq in Ho. injection Ho as <-. rewrite Hq. by apply (mi_sorted k None Hk t).
    + rewrite lookup_insert_ne in Ho by done. by apply (mi_sorted k None Hk o).
  - intros u wu Hu. cbn [set_wait waits]. change (GetPriority (set_wait k t w') u) with (GetPriority k u). destruct (decide (u = t)) as [->|].
    + rewrite lookup_insert_eq. intros [= <-]. destruct (Z.eqb_spec (nominal_priority w') (nominal_priority w)) as [E|]; [|done].
      rewrite (mi_inherit k None Hk t w) by done. unfold inherited. by rewrite Hq, E.
    + rewrite lookup_insert_ne by done. intros Hwu. by rewrite (mi_inherit k None Hk u wu).
Qed.
Lemma inherit_set_same k t w w' : inherit_ok k None -> waits k !! t = Some w -> lock_owner w' = lock_owner w -> wait_mutex_threads w' = wait_mutex_threads w ->
  nominal_priority w' = nominal_priority w -> inherit_ok (set_wait k t w') None.
Proof.
  intros Hk Hw Hl Hq Hn. pose proof (inherit_set k t w w' Hk Hw Hl Hq) as H. rewrite Hn, Z.eqb_refl in H. apply H, (mo_nominal k (mi_shape _ _ Hk) t w Hw).
Qed.
Lemma owner_set k t w w' u : waits k !! t = Some w -> lock_owner w' = lock_owner w -> owner_of (set_wait k t w') u = owner_of k u.
Proof. intros Hw Hl. unfold owner_of. cbn [set_wait waits]. destruct (decide (u = t)) as [->|]; [by rewrite lookup_insert_eq, Hw|by rewrite lookup_insert_ne]. Qed.

Lemma inherit_with_sched k s x : inherit_ok k x -> sched_ok s -> (forall u, current_priority <$> threads s !! u = current_priority <$> threads (sched k) !! u) ->
  inherit_ok (with_sched k s) x.
Proof.
  intros Hk Hs Hp. assert (forall u, GetPriority (with_sched k s) u = GetPriority k u) as Hpr.
  { intros u. unfold GetPriority. cbn [with_sched sched]. specialize (Hp u). destruct (threads s !! u), (threads (sched k) !! u); cbn in *; congruence. }
  destruct Hk as [Hsh Hsort Hinh]. split.
  - destruct Hsh. split; try done.
    + intros u. cbn [with_sched sched waits]. rewrite mo_dom0. specialize (Hp u). destruct (threads s !! u), (threads (sched k) !! u); try done; split; eauto.
    + intros u Hu. destruct (mo_depth0 u Hu) as [n Hn]. exists n. apply (depth_same k); [|done]. intros v. apply option_Forall2_refl. intros ?. reflexivity.
  - intros o wo Ho. apply sorted_ext with k; [by intros; apply Hpr|by apply (Hsort o)].
  - intros u wu Hu Hwu. rewrite Hpr. rewrite (inherited_ext k) by (by intros; apply Hpr). by apply Hinh.
Qed.

Section Operations.
Context (current : Z).

Lemma update_ok k t : inherit_ok k (Some t) -> is_Some (waits k !! t) -> exists k', update_priority current k t = Some k' /\ inherit_ok k' None /\ same_graph k k'.
Proof.
  intros Hk Ht. destruct (mo_depth k (mi_shape _ _ Hk) t Ht) as [n Hn]. pose proof (depth_bound k t n Hn).
  apply (update_priority_ok current (S (size (waits k))) n k t); [lia|done|done].
Qed.

Lemma remove_mutex_waiter_ok k o t : inherit_ok k None -> owner_of k t = Some o ->
  exists k', RemoveMutexWaiter current k o t = Some k' /\ inherit_ok k' None /\ same_fixed k k' /\ forall u, owner_of k' u = if u =? t then None else owner_of k u.
Proof.
  intros Hk Hl. pose proof (mi_shape _ _ Hk) as Hs. unfold owner_of in Hl. destruct (waits k !! t) as [w|] eqn:Hw; [|done]. cbn in Hl.
  destruct (mo_owner k Hs t w o Hw Hl) as [wo Ho]. destruct (mo_depth k Hs t ltac:(eauto)) as [n Hn].
  assert (o <> t) as Hne by (intros ->; apply (owner_not_below k t w t n Hw Hl Hn); constructor).
  unfold RemoveMutexWaiter. rewrite (remove_is_detach _ k o wo t w Hs Ho Hw Hl Hne).
  assert (inherit_ok (detach k o wo t w) (Some o)) as Hk1.
  { apply detach_inherit; try done; [intros v wv Hv; by apply sorted_filter, (mi_sorted k None Hk v)|intros u wu _ Hu; by apply (mi_inherit k None Hk)]. }
  destruct (update_ok _ o Hk1) as (k' & E & Hk' & Hg); [apply detach_some; eauto|]. exists k'. split; [done|]. split; [done|]. split.
  - etrans; [by apply (detach_fixed k o wo t w)|by apply graph_fixed].
  - intros u. rewrite (graph_owner _ _ u Hg). by apply detach_owner.
Qed.

Lemma add_waiter_ok k o t : inherit_ok k None -> is_Some (waits k !! o) -> is_Some (waits k !! t) -> owner_of k t = None -> ~ waits_for k o t ->
  exists k', AddMutexWaiter current k o t = Some k' /\ inherit_ok k' None /\ same_fixed k k' /\ forall u, owner_of k' u = if u =? t then Some o else owner_of k u.
Proof.
  intros Hk [wo Ho] [w Hw] Hl Hnot. unfold owner_of in Hl. rewrite Hw in Hl. cbn in Hl. assert (o <> t) as Hne by (intros ->; apply Hnot; constructor).
  unfold AddMutexWaiter. rewrite (add_is_attach _ k o wo t w Ho Hw Hl Hne). pose proof (mi_shape _ _ Hk) as Hs.
  destruct (update_ok (attach k o wo t w) o) as (k' & E & Hk' & Hg); [by apply attach_inherit|rewrite attach_some by done; eauto|].
  exists k'. split; [done|]. split; [done|]. split.
  - etrans; [by apply (attach_fixed k o wo t w)|by apply graph_fixed].
  - intros u. rewrite (graph_owner _ _ u Hg). by apply attach_owner_of.
Qed.

Lemma set_priority_ok k t p : inherit_ok k None -> is_Some (waits k !! t) -> 0 <= p < 63 ->
  exists k', SetPriority current k t p = Some k' /\ inherit_ok k' None /\ forall u, owner_of k' u = owner_of k u.
Proof.
  intros Hk [w Hw] Hp. unfold SetPriority. rewrite Hw. cbn [mbind option_bind].
  assert (inherit_ok (set_wait k t (with_nominal w p)) (Some t)) as Hk1.
  { pose proof (inherit_set k t w (with_nominal w p) Hk Hw eq_refl eq_refl Hp) as H. destruct (_ =? _); [|done]. destruct H as [H1 H2 H3]. split; [done|done|]. intros u wu _. by apply H3. }
  destruct (update_ok _ t Hk1) as (k' & E & Hk' & Hg); [cbn; rewrite lookup_insert_eq; eauto|]. exists k'. split; [done|]. split; [done|].
  intros u. rewrite (graph_owner _ _ u Hg). by apply owner_set with w.
Qed.

(** A change of status. *)
Lemma status_ok k t th st s x : inherit_ok k None -> threads (sched k) !! t = Some th -> sched_ok s ->
  threads s = <[t := with_status (with_states th x (pausing_state th)) st]> (threads (sched k)) -> inherit_ok (with_sched k s) None.
Proof.
  intros Hk Ht Hs E. apply inherit_with_sched; [done|done|]. intros u. rewrite E. destruct (decide (u = t)) as [->|]; [by rewrite lookup_insert_eq, Ht|by rewrite lookup_insert_ne].
Qed.
End Operations.
