(* ===== verification/MutexSpec.v ===== *)
(** * Mutexes hand over in order of priority

    The operations of [Mutex] on every state that they can reach: a thread
    runs with the best nominal priority of the threads that wait for it,
    directly or not, and [Unlock] hands a mutex to the first waiting thread
    and lets the others wait for that one. *)

From S2P Require Import Prelude KernelObject MultiLevelQueue Scheduler SchedulerQueues SchedulerCorrect SchedulerSelect Mutex MutexCorrect.
From stdpp Require Import base list gmap.
From Stdlib Require Import Sorting.Sorted.
Open Scope Z_scope.
Import Sched Mutex.
Implicit Types (k : Kernel) (w : Waiter) (t o u : Z) (l : list Z).

(** ** Unlocking *)

Definition at_addr k (addr t : Z) : bool := match waits k !! t with Some w => mutex_wait_address w =? addr | None => false end.

Lemma at_addr_fixed k k' addr t : same_fixed k k' -> at_addr k' addr t = at_addr k addr t.
Proof.
  intros (H & _). specialize (H t). unfold at_addr. destruct (waits k' !! t) as [w'|], (waits k !! t) as [w|]; try done. cbn in H.
  assert (mutex_wait_address w' = mutex_wait_address w) as -> by (by injection H). done.
Qed.

(** Only the threads matter. *)
Lemma inherit_ext k k' x : sched k' = sched k -> waits k' = waits k -> inherit_ok k x -> inherit_ok k' x.
Proof.
  destruct k, k'. cbn. intros -> -> [[] Hsort Hinh]. split; [|done|done]. split; try done. intros t Ht. destruct (mo_depth t Ht) as [n Hn]. exists n.
  eapply depth_same; [|exact Hn]. intros u. apply option_Forall2_refl. intros ?. reflexivity.
Qed.

Section Unlock.
Context (current : Z).

(** The loop of [TransferMutexOwnership] from the owner [c] to [n]. *)
Lemma transfer_loop_ok addr c n l : forall k, inherit_ok k None -> NoDup l -> is_Some (waits k !! n) -> owner_of k n = None -> n ∉ l ->
  (forall t, t ∈ l -> owner_of k t = Some c) ->
  exists k', transfer_loop current k addr c n l = Some k' /\ inherit_ok k' None /\ same_fixed k k'
    /\ forall u, owner_of k' u = if bool_decide (u ∈ l) && at_addr k addr u then Some n else owner_of k u.
Proof.
  induction l as [|t l IH]; intros k Hk Hn Hkn Hon Hnl Hl; [by exists k|]. apply NoDup_cons in Hn as [Ht Hn]. apply not_elem_of_cons in Hnl as [Hnt Hnl].
  assert (forall u, u <> t -> bool_decide (u ∈ t :: l) = bool_decide (u ∈ l)) as Hbd by (intros u Hu; apply bool_decide_ext; set_solver).
  pose proof (Hl t ltac:(left)) as Hot. assert (is_Some (waits k !! t)) as [w Hw] by (unfold owner_of in Hot; destruct (waits k !! t); [eauto|done]).
  cbn [transfer_loop]. rewrite Hw. cbn [mbind option_bind]. destruct (Z.eqb_spec (mutex_wait_address w) addr) as [Ea|Ea]; cbn [negb].
  2: { destruct (IH k Hk Hn Hkn Hon Hnl) as (k' & -> & Hk' & Hf & Ho); [intros u Hu; apply Hl; by right|]. exists k'. split; [done|]. split; [done|]. split; [done|].
       intros u. rewrite Ho. destruct (decide (u = t)) as [->|Hu]; [|by rewrite Hbd]. rewrite (bool_decide_false (t ∈ l)) by done.
       assert (at_addr k addr t = false) as -> by (unfold at_addr; rewrite Hw; by apply Z.eqb_neq). by rewrite !andb_false_r. }
  destruct (remove_mutex_waiter_ok current k c t Hk Hot) as (k1 & -> & Hk1 & Hf1 & Ho1). cbn [mbind option_bind]. rewrite (proj2 (Z.eqb_neq n t)) by done.
  destruct (add_waiter_ok current k1 n t Hk1) as (k2 & -> & Hk2 & Hf2 & Ho2); [by apply (fixed_some k k1)|apply (fixed_some k k1); [done|eauto]|rewrite Ho1; by rewrite Z.eqb_refl| |].
  { intros Ha. inversion Ha as [|? wn o ? Hwn Hlo]; subst; [done|]. specialize (Ho1 n). rewrite (proj2 (Z.eqb_neq n t)), Hon in Ho1 by done. unfold owner_of in Ho1. rewrite Hwn in Ho1. cbn in Ho1. congruence. }
  cbn [mbind option_bind]. assert (same_fixed k k2) as Hf12 by (by etrans).
  assert (forall u, u <> t -> owner_of k2 u = owner_of k u) as Hout by (intros u Hu; rewrite Ho2, Ho1; by rewrite (proj2 (Z.eqb_neq u t))).
  destruct (IH k2 Hk2 Hn) as (k' & -> & Hk' & Hf & Ho); [by apply (fixed_some k k2)|by rewrite Hout|done|intros u Hu; rewrite Hout by (intros ->; done); apply Hl; by right|].
  exists k'. split; [done|]. split; [done|]. split; [by etrans|]. intros u. rewrite Ho, (at_addr_fixed k k2) by done. destruct (decide (u = t)) as [->|Hu]; [|by rewrite Hbd, Hout].
  rewrite (bool_decide_false (t ∈ l)), (bool_decide_true (t ∈ t :: l)) by (done || left). unfold at_addr. rewrite Hw, Ea, Z.eqb_refl. cbn [andb]. rewrite Ho2. by rewrite Z.eqb_refl.
Qed.

(** The search for the waiting thread with the best priority in an ordered
    list: the first one. *)
Lemma highest_loop_spec k addr l : (forall t, t ∈ l -> is_Some (waits k !! t)) -> sorted k l -> forall h n,
  match h with Some x => Forall (fun y => GetPriority k x <= GetPriority k y) l | None => True end ->
  highest_loop k addr l h n = Some (match h with Some x => Some x | None => head (filter (fun t => at_addr k addr t = true) l) end,
    n + Z.of_nat (length (filter (fun t => at_addr k addr t = true) l))).
Proof.
  induction l as [|t l IH]; intros Hin Hs h n Hh; [destruct h; cbn; by rewrite Z.add_0_r|]. destruct (Hin t ltac:(left)) as [w Hw].
  apply StronglySorted_inv in Hs as [Hs HF]. cbn [highest_loop]. rewrite Hw. cbn [mbind option_bind].
  assert (at_addr k addr t = (mutex_wait_address w =? addr)) as Eat by (unfold at_addr; by rewrite Hw).
  destruct (Z.eqb_spec (mutex_wait_address w) addr) as [Ea|Ea]; cbn [negb].
  - rewrite filter_cons_True by (by rewrite Eat). destruct h as [x|].
    + apply Forall_cons in Hh as [Hx Hh]. rewrite (proj2 (Z.ltb_ge _ _)) by lia. rewrite IH; [|intros u Hu; apply Hin; by right|done|done]. cbn [length]. do 2 f_equal. lia.
    + rewrite IH; [|intros u Hu; apply Hin; by right|done|done]. cbn [length head]. do 2 f_equal. lia.
  - rewrite filter_cons_False by (by rewrite Eat). apply IH; [intros u Hu; apply Hin; by right|done|]. destruct h; [|done]. by apply Forall_cons in Hh as [_ Hh].
Qed.

Lemma sorted_head k t l : sorted k (t :: l) -> forall u, u ∈ t :: l -> GetPriority k t <= GetPriority k u.
Proof. intros [_ HF]%StronglySorted_inv u [->|Hu]%elem_of_cons; [lia|]. rewrite Forall_forall in HF. by apply HF. Qed.
Lemma sorted_filter_bool k (f : Z -> bool) l : sorted k l -> sorted k (filter (fun x => f x = true) l).
Proof.
  induction 1 as [|x l Hs IH HF]; [constructor|]. rewrite filter_cons. case_decide; [|done]. constructor; [done|].
  rewrite Forall_forall in HF |- *. intros y [_ Hy]%list_elem_of_filter. by apply HF.
Qed.

Definition waiting_for k wo addr : list Z := filter (fun t => at_addr k addr t = true) (wait_mutex_threads wo).

(** The state after a mutex has been handed to [n]. *)
Record handed_over k (address n : Z) (rest : list Z) (k' : Kernel) : Prop := {
  ho_best u : u ∈ n :: rest -> GetPriority k n <= GetPriority k u;
  ho_owner : owner_of k' n = None;
  ho_rest u : u ∈ rest -> owner_of k' u = Some n;
  ho_others u : u ∉ n :: rest -> owner_of k' u = owner_of k u;
  ho_memory : exists w, waits k !! n = Some w /\ memory k' = <[address := if decide (rest = []) then wait_handle w else wait_handle w .| MutexHasWaitersFlag]> (memory k);
  ho_result : exists w, waits k' !! n = Some w /\ signaling_result w = RESULT_SUCCESS;
  ho_woken th : threads (sched k) !! n = Some th -> status th = WaitMutex -> exists th', threads (sched k') !! n = Some th' /\ status th' = Ready
}.

(** The threads that wait for [owner] at an address. *)
Lemma waiting_for_spec k owner wo address u : shape_ok k -> waits k !! owner = Some wo ->
  u ∈ waiting_for k wo address <-> at_addr k address u = true /\ owner_of k u = Some owner.
Proof.
  intros Hs Hwo. unfold waiting_for. rewrite list_elem_of_filter, (mo_waiters k Hs owner wo u Hwo). unfold owner_of.
  destruct (waits k !! u) as [wu|]; cbn; [naive_solver|]. split; [by intros (_ & ? & ? & _)|by intros [_ ?]].
Qed.

(** [TransferMutexOwnership] lets go of [n] and lets the others at the address
    wait for it. *)
Lemma transfer_ownership_ok k owner wo address n : inherit_ok k None -> waits k !! owner = Some wo -> owner_of k n = Some owner ->
  exists k', TransferMutexOwnership current k address owner n = Some k' /\ inherit_ok k' None /\ same_fixed k k' /\ owner_of k' n = None
    /\ forall u, u <> n -> owner_of k' u = if bool_decide (owner_of k u = Some owner) && at_addr k address u then Some n else owner_of k u.
Proof.
  intros Hk Hwo Hno. unfold TransferMutexOwnership. destruct (remove_mutex_waiter_ok current k owner n Hk Hno) as (k1 & -> & Hk1 & Hf1 & Ho1). cbn [mbind option_bind].
  destruct (fixed_lookup k k1 owner wo Hf1 Hwo) as (wo1 & Hwo1 & _). rewrite Hwo1. cbn [mbind option_bind]. pose proof (mi_shape _ _ Hk1) as Hs1.
  assert (forall u, u ∈ wait_mutex_threads wo1 <-> owner_of k u = Some owner /\ u <> n) as Hin1.
  { intros u. rewrite (mo_waiters k1 Hs1 owner wo1 u Hwo1). specialize (Ho1 u). unfold owner_of at 1 in Ho1. destruct (Z.eqb_spec u n) as [Eu|Hun].
    - subst u. destruct (waits k1 !! n) as [w1|]; cbn in Ho1; split; [intros (? & [= <-] & ?); congruence|by intros [_ ?]|by intros (? & ? & _)|by intros [_ ?]].
    - rewrite <- Ho1. destruct (waits k1 !! u) as [w1|]; cbn; [|split; [by intros (? & ? & _)|by intros [? _]]]. naive_solver. }
  assert (is_Some (waits k !! n)) as Hn by (unfold owner_of in Hno; destruct (waits k !! n); [eauto|done]).
  destruct (transfer_loop_ok address owner n (wait_mutex_threads wo1) k1 Hk1) as (k2 & -> & Hk2 & Hf2 & Ho2).
  { by apply (mo_nodup k1 Hs1 owner). } { by apply (fixed_some k k1). } { rewrite Ho1. by rewrite Z.eqb_refl. } { intros H%Hin1. by destruct H. }
  { intros t [H1 H2]%Hin1. rewrite Ho1. by rewrite (proj2 (Z.eqb_neq t n)). }
  exists k2. split; [done|]. split; [done|]. split; [by etrans|]. split.
  - rewrite Ho2, bool_decide_false by (intros H%Hin1; by destruct H). cbn. rewrite Ho1. by rewrite Z.eqb_refl.
  - intros u Hu. rewrite Ho2, (at_addr_fixed k k1), Ho1, (proj2 (Z.eqb_neq u n)) by done.
    rewrite (bool_decide_ext (u ∈ wait_mutex_threads wo1) (owner_of k u = Some owner)); [done|]. rewrite Hin1. tauto.
Qed.

(** [ResumeFromWait] wakes a thread that waits for a mutex. *)
Lemma resume_ok k n th : inherit_ok k None -> threads (sched k) !! n = Some th ->
  exists s, ResumeFromWait (sched k) n = Some s /\ inherit_ok (with_sched k s) None
    /\ (status th = WaitMutex -> exists th', threads s !! n = Some th' /\ status th' = Ready).
Proof.
  intros Hk Hth. unfold ResumeFromWait. rewrite Hth. cbn [mbind option_bind]. pose proof (mo_sched k (mi_shape _ _ Hk)) as Hsk.
  destruct (set_status_ok (sched k) n th Ready Hsk Hth) as (s & x & E & Hsok & Et).
  assert (inherit_ok (with_sched k (sched k)) None) as Hsame by (by apply inherit_with_sched).
  destruct (status th) eqn:Est; try (by exists (sched k)); (exists s; split; [done|]; split; [by apply (status_ok k n th Ready s x)|];
    intros _; rewrite Et, lookup_insert_eq; by eexists).
Qed.

Lemma unlock_ok k owner wo address : inherit_ok k None -> waits k !! owner = Some wo -> address mod 4 = 0 ->
  match waiting_for k wo address with
  | [] => Unlock current k owner address = Some (Write32 k address 0, RESULT_SUCCESS, None)
  | n :: rest => exists k', Unlock current k owner address = Some (k', RESULT_SUCCESS, Some n) /\ inherit_ok k' None /\ handed_over k address n rest k'
  end.
Proof.
  intros Hk Hwo Ha. pose proof (mi_shape _ _ Hk) as Hs. unfold Unlock. rewrite Ha. cbn [Z.eqb negb]. unfold GetHighestPriorityMutexWaitingThread. rewrite Hwo. cbn [mbind option_bind].
  rewrite (highest_loop_spec k address (wait_mutex_threads wo)); [|intros t Ht; by apply (waiter_known k owner wo)|by apply (mi_sorted k None Hk owner)|done].
  fold (waiting_for k wo address). cbn [mbind option_bind]. pose proof (sorted_filter_bool k (at_addr k address) _ (mi_sorted k None Hk owner wo Hwo)) as Hsorted. fold (waiting_for k wo address) in Hsorted.
  assert (NoDup (waiting_for k wo address)) as Hnd by (by apply NoDup_filter, (mo_nodup k Hs owner)).
  pose proof (fun u => waiting_for_spec k owner wo address u Hs Hwo) as Hin.
  destruct (waiting_for k wo address) as [|n rest]; cbn [head]; [done|]. pose proof (proj1 (Hin n) ltac:(left)) as [Hna Hno]. apply NoDup_cons in Hnd as [Hnr Hnd].
  destruct (transfer_ownership_ok k owner wo address n Hk Hwo Hno) as (k2 & -> & Hk2 & Hf & Hon2 & Ho2). cbn [mbind option_bind].
  assert (is_Some (waits k !! n)) as [wn Hwn] by (unfold owner_of in Hno; destruct (waits k !! n); [eauto|done]).
  destruct (fixed_lookup k k2 n wn Hf Hwn) as (w2 & Hw2 & Efix). rewrite Hw2. cbn [mbind option_bind].
  assert (lock_owner w2 = None) as Hl2 by (unfold owner_of in Hon2; by rewrite Hw2 in Hon2).
  set (w3 := SetLockOwner (SetSynchronizationResults w2 RESULT_SUCCESS) None). set (k3 := set_wait k2 n w3).
  assert (inherit_ok k3 None) as Hk3 by (apply (inherit_set_same k2 n w2); try done; by rewrite Hl2).
  destruct (proj1 (mo_dom k2 (mi_shape _ _ Hk2) n) ltac:(eauto)) as [th2 Hth2].
  destruct (resume_ok k3 n th2 Hk3 Hth2) as (s & -> & Hk4 & Hwoken). cbn [mbind option_bind].
  eexists. split; [reflexivity|]. split; [by eapply inherit_ext; [..|exact Hk4]|].
  assert (forall v u, owner_of (Write32 (with_sched k3 s) address v) u = owner_of k2 u) as Hown.
  { intros v u. change (owner_of k3 u = owner_of k2 u). apply owner_set with w2; [done|by rewrite Hl2]. }
  split.
  - by apply sorted_head.
  - by rewrite Hown.
  - intros u Hu. destruct (proj1 (Hin u) ltac:(by right)) as [Hua Huo]. rewrite Hown, Ho2 by (by intros ->). by rewrite bool_decide_true, Hua.
  - intros u Hu. rewrite Hown, Ho2 by (intros ->; apply Hu; left). destruct (bool_decide (owner_of k u = Some owner)) eqn:Eb; [|done]. apply bool_decide_eq_true in Eb.
    destruct (at_addr k address u) eqn:Eu; [|done]. by destruct Hu; apply Hin.
  - exists wn. split; [done|]. cbn [Write32 memory with_sched]. change (memory k3) with (memory k2). destruct Hf as (_ & _ & ->). f_equal.
    assert (wait_handle w2 = wait_handle wn) as -> by (by injection Efix). destruct rest as [|r rest]; [done|]. rewrite decide_False by done. cbn [length]. rewrite (proj2 (Z.leb_le 2 _)) by lia. done.
  - exists w3. split; [|done]. cbn [Write32 waits with_sched k3 set_wait]. apply lookup_insert_eq.
  - intros th Hth Hst. cbn [Write32 sched with_sched]. apply Hwoken. destruct Hf as (_ & Hsch & _). specialize (Hsch n). rewrite Hth, Hth2 in Hsch. inversion Hsch as [? ? El|]; subst.
    pose proof (f_equal status El) as Est. cbn in Est. congruence.
Qed.
End Unlock.

(** ** Reachable states *)

Section Create.
Context k t p pid (Hk : inherit_ok k None) (Ht : waits k !! t = None) (Hp : 0 <= p < 63) (Hpid : 0 <= pid < 4).

Lemma create_waits_depth w u n : depth k u n -> depth (set_wait k t w) u n.
Proof.
  induction 1 as [u wu Hu Hl|u wu o n Hu Hl Hd IH]; [apply depth_root with wu|apply depth_next with wu o]; try done;
    cbn [set_wait waits]; (rewrite lookup_insert_ne; [done|]); congruence.
Qed.

Lemma create_thread_ok : exists k', CreateThread k t p pid = inl k' /\ inherit_ok k' None.
Proof.
  pose proof (mi_shape _ _ Hk) as Hs. assert (threads (sched k) !! t = None) as Hth.
  { apply eq_None_not_Some. rewrite <- (mo_dom k Hs t). rewrite Ht. by intros [? ?]. }
  destruct (create_ok (sched k) t p pid (mo_sched k Hs) Hth Hp Hpid) as (th & E & Hok). unfold CreateThread. rewrite E.
  assert (current_priority th = p) as Ecp by (unfold Create in E; destruct (_ <? _); [done|]; destruct (_ <? _); [done|]; by injection E as <-).
  set (w := {| nominal_priority := p |}). eexists. split; [done|]. set (k' := set_wait _ _ _).
  assert (forall u wu, waits k' !! u = Some wu -> (u = t /\ wu = w) \/ (u <> t /\ waits k !! u = Some wu)) as Hto.
  { intros u wu. cbn [k' set_wait with_sched waits]. destruct (decide (u = t)) as [->|]; [rewrite lookup_insert_eq; intros [= <-]; by left|rewrite lookup_insert_ne by done; by right]. }
  assert (forall u wu, waits k !! u = Some wu -> u <> t /\ waits k' !! u = Some wu) as Hfrom.
  { intros u wu Hu. assert (u <> t) by congruence. split; [done|]. cbn [k' set_wait with_sched waits]. by rewrite lookup_insert_ne. }
  assert (forall u, u <> t -> GetPriority k' u = GetPriority k u) as Hpr by (intros u Hu; unfold GetPriority; cbn; by rewrite lookup_insert_ne).
  assert (forall o wo u, waits k !! o = Some wo -> u ∈ wait_mutex_threads wo -> u <> t) as Hold by (intros o wo u Ho Hu ->; destruct (waiter_known k o wo t Hs Ho Hu); congruence).
  split; [split|..].
  - exact Hok.
  - intros u. cbn. rewrite !lookup_insert_is_Some'. by rewrite (mo_dom k Hs u).
  - intros o wo u Ho. assert ((exists wu, waits k' !! u = Some wu /\ lock_owner wu = Some o) <-> exists wu, waits k !! u = Some wu /\ lock_owner wu = Some o) as ->.
    { split; [intros (wu & [[-> ->]|[_ Hu]]%Hto & E2); [done|eauto]|intros (wu & Hu & E2); exists wu; split; [by apply Hfrom|done]]. }
    destruct (Hto o wo Ho) as [[-> ->]|[_ Ho0]]; [|by apply (mo_waiters k Hs)]. split; [by intros ?%not_elem_of_nil|].
    intros (wu & Hu & E2). destruct (mo_owner k Hs u wu t Hu E2). congruence.
  - intros o wo [[-> ->]|[_ Ho]]%Hto; [constructor|by apply (mo_nodup k Hs o)].
  - intros u wu o [[-> ->]|[_ Hu]]%Hto E2; [done|]. destruct (mo_owner k Hs u wu o Hu E2) as [wo Ho]. destruct (Hfrom o wo Ho). eauto.
  - intros u wu [[-> ->]|[_ Hu]]%Hto; [exact Hp|by apply (mo_nominal k Hs u)].
  - intros u [wu [[-> ->]|[_ Hu]]%Hto]; [exists 0%nat; apply depth_root with w; [by apply lookup_insert_eq|done]|].
    destruct (mo_depth k Hs u ltac:(eauto)) as [n Hn]. exists n. apply (depth_same (set_wait k t w)); [intros v; apply option_Forall2_refl; intros ?; reflexivity|by apply create_waits_depth].
  - intros o wo [[-> ->]|[_ Ho]]%Hto; [constructor|]. apply sorted_ext with k; [|by apply (mi_sorted k None Hk o)]. intros u Hu. apply Hpr. by apply (Hold o wo).
  - intros u wu _ [[-> ->]|[Hu Hwu]]%Hto; [unfold GetPriority; cbn; rewrite lookup_insert_eq; exact Ecp|].
    rewrite Hpr, (mi_inherit k None Hk u wu) by done. unfold inherited. pose proof (Hold u wu) as H. destruct (wait_mutex_threads wu) as [|x l]; [done|].
    rewrite Hpr; [done|]. apply H; [done|left].
Qed.
End Create.

Lemma waits_for_owners k k' t u : (forall v, owner_of k' v = owner_of k v) -> waits_for k' t u -> waits_for k t u.
Proof.
  intros Ho. induction 1 as [t|t w o u Hw E Ha IH]; [constructor|]. specialize (Ho t). unfold owner_of in Ho. rewrite Hw in Ho. cbn in Ho. rewrite E in Ho.
  destruct (waits k !! t) as [wk|] eqn:Ek; [|done]. by apply waits_for_next with wk o.
Qed.

Section Acquire.
Context (current : Z).

Lemma try_acquire_ok get k this address holding requesting : inherit_ok k None -> is_Some (waits k !! this) -> owner_of k this = None ->
  (forall h, get holding = Some h -> is_Some (waits k !! h) /\ ~ waits_for k h this) ->
  exists k' r b, TryAcquire current get k this address holding requesting = Some (k', r, b) /\ inherit_ok k' None
    /\ (b = true -> exists h, get holding = Some h /\ owner_of k' this = Some h).
Proof.
  intros Hk [w Hw] Hown Hget. unfold TryAcquire. case_match; [by exists k, ERR_INVALID_ADDRESS, false|]. rewrite Hw. cbn [mbind option_bind].
  set (k1 := set_wait k this (SetSynchronizationResults w RESULT_SUCCESS)). assert (inherit_ok k1 None) as Hk1 by (by apply (inherit_set_same k this w)).
  case_match; [by exists k1, RESULT_SUCCESS, false|]. destruct (get holding) as [h|] eqn:Eh; [|by exists k1, ERR_INVALID_HANDLE, false].
  destruct (Hget h eq_refl) as [Hh Hnot]. assert (waits k1 !! this = Some (SetSynchronizationResults w RESULT_SUCCESS)) as Hw1 by apply lookup_insert_eq.
  rewrite Hw1. cbn [mbind option_bind]. set (w2 := with_wait _ address requesting). set (k2 := set_wait k1 this w2).
  assert (inherit_ok k2 None) as Hk2 by (by apply (inherit_set_same k1 this _ w2 Hk1 Hw1)).
  assert (forall u, owner_of k2 u = owner_of k u) as Ho2.
  { intros u. etrans; [by apply (owner_set k1 this (SetSynchronizationResults w RESULT_SUCCESS))|by apply (owner_set k this w)]. }
  assert (forall u, is_Some (waits k !! u) -> is_Some (waits k2 !! u)) as Hsome by (intros u Hu; cbn; rewrite !lookup_insert_is_Some'; auto).
  destruct (proj1 (mo_dom k2 (mi_shape _ _ Hk2) this) ltac:(eauto)) as [th Hth].
  destruct (set_status_ok (sched k2) this th WaitMutex (mo_sched k2 (mi_shape _ _ Hk2)) Hth) as (s & x & -> & Hs & Et). cbn [mbind option_bind].
  assert (inherit_ok (with_sched k2 s) None) as Hk3 by (by apply (status_ok k2 this th WaitMutex s x)).
  destruct (add_waiter_ok current (with_sched k2 s) h this Hk3) as (k' & -> & Hk' & _ & Ho'); [by apply Hsome|apply Hsome; eauto|by rewrite <- Hown, <- Ho2| |].
  - intros Ha. apply Hnot. by apply (waits_for_owners k (with_sched k2 s)).
  - exists k', RESULT_SUCCESS, true. split; [done|]. split; [done|]. intros _. exists h. split; [done|]. rewrite Ho'. by rewrite Z.eqb_refl.
Qed.

Lemma finish_ok k this : inherit_ok k None -> is_Some (waits k !! this) ->
  exists k' r, TryAcquire_finish current k this = Some (k', r) /\ inherit_ok k' None /\ owner_of k' this = None.
Proof.
  intros Hk [w Hw]. unfold TryAcquire_finish. rewrite Hw. cbn [mbind option_bind]. destruct (lock_owner w) as [o|] eqn:El.
  - destruct (remove_mutex_waiter_ok current k o this Hk) as (k' & -> & Hk' & Hf & Ho); [unfold owner_of; by rewrite Hw|]. cbn [mbind option_bind].
    destruct (proj2 (fixed_some k k' this Hf) ltac:(eauto)) as [w' Hw']. rewrite Hw'. cbn [mbind option_bind]. do 2 eexists. split; [done|]. split; [done|]. rewrite Ho. by rewrite Z.eqb_refl.
  - cbn [mbind option_bind]. rewrite Hw. cbn [mbind option_bind]. exists k, (signaling_result w). split; [done|]. split; [done|]. unfold owner_of. by rewrite Hw.
Qed.

Lemma release_ok k this address : inherit_ok k None -> is_Some (waits k !! this) -> exists k' r, Release current k this address = Some (k', r) /\ inherit_ok k' None.
Proof.
  intros Hk [w Hw]. unfold Release. destruct (Z.eqb_spec (address mod 4) 0) as [Ea|Ea].
  - pose proof (unlock_ok current k this w address Hk Hw Ea) as H. destruct (waiting_for k w address) as [|n rest].
    + rewrite H. cbn. do 2 eexists. split; [done|]. by eapply inherit_ext; [..|exact Hk].
    + destruct H as (k' & -> & Hk' & _). cbn. by exists k', RESULT_SUCCESS.
  - unfold Unlock. rewrite (proj2 (Z.eqb_neq _ _) Ea). cbn. by exists k, ERR_INVALID_ADDRESS.
Qed.
End Acquire.

(** What the threads of a process do; [KR_store] is a write of the guest. *)
Inductive KRequest :=
  | KR_create (t priority processor_id : Z)
  | KR_status (t : Z) (st : ThreadStatus)
  | KR_priority (current t priority : Z)
  | KR_acquire (current : Z) (get : Z -> option Z) (this address holding requesting : Z)
  | KR_finish (current this : Z)
  | KR_release (current this address : Z)
  | KR_condvar_address (t address : Z)
  | KR_condvar_insert (t : Z)
  | KR_condvar_remove (t : Z)
  | KR_store (address value : Z).

Definition k_perform (r : KRequest) k : option Kernel :=
  match r with
  | KR_create t p pid => match CreateThread k t p pid with inl k => Some k | inr _ => Some k end
  | KR_status t st => s ← SetStatus (sched k) t st; Some (with_sched k s)
  | KR_priority current t p => SetPriority current k t p
  | KR_acquire current get this address holding requesting => (fun r => fst (fst r)) <$> TryAcquire current get k this address holding requesting
  | KR_finish current this => fst <$> TryAcquire_finish current k this
  | KR_release current this address => fst <$> Release current k this address
  | KR_condvar_address t address => w ← waits k !! t; Some (set_wait k t (SetCondVarWaitAddress w address))
  | KR_condvar_insert t => InsertConditionVariableThread k t
  | KR_condvar_remove t => RemoveConditionVariableThread k t
  | KR_store address value => Some (Write32 k address value)
  end.

(** The requests that the theorems are about: threads exist, priorities are
    above the lowest, a thread that asks for a mutex does not wait for another
    one, and its holder does not wait for the thread, directly or not.  The
    code does not refuse a request that closes such a circle; see
    [deadlock_keeps_priority]. *)
Definition k_allowed (r : KRequest) k : Prop :=
  match r with
  | KR_create t p pid => waits k !! t = None /\ 0 <= p < 63 /\ 0 <= pid < 4
  | KR_status t _ | KR_finish _ t | KR_release _ t _ | KR_condvar_address t _ | KR_condvar_insert t | KR_condvar_remove t => is_Some (waits k !! t)
  | KR_priority _ t p => is_Some (waits k !! t) /\ 0 <= p < 63
  | KR_acquire _ get this _ holding _ => is_Some (waits k !! this) /\ owner_of k this = None
      /\ forall h, get holding = Some h -> is_Some (waits k !! h) /\ ~ waits_for k h this
  | KR_store _ _ => True
  end.

Inductive kernel_run : Kernel -> Prop :=
  | kernel_run_new : kernel_run Kernel_new
  | kernel_run_request k r k' : kernel_run k -> k_allowed r k -> k_perform r k = Some k' -> kernel_run k'.

Lemma new_kernel_ok : inherit_ok Kernel_new None.
Proof.
  assert (forall t w, waits Kernel_new !! t = Some w -> False) as H by (intros t w Hw; cbn in Hw; by apply lookup_empty_Some in Hw).
  split; [split|..]; try (intros; exfalso; eauto; fail).
  - exact new_sched_ok.
  - intros t. split; intros [x Hx]; cbn in Hx; by apply lookup_empty_Some in Hx.
  - intros t [x Hx]. by apply H in Hx.
Qed.

Lemma k_perform_ok r k : inherit_ok k None -> k_allowed r k -> exists k', k_perform r k = Some k' /\ inherit_ok k' None.
Proof.
  intros Hk Ha. destruct r; cbn [k_perform k_allowed] in *.
  - destruct Ha as (Ht & Hp & Hpid). destruct (create_thread_ok k t _ _ Hk Ht Hp Hpid) as (k' & -> & Hk'). eauto.
  - destruct (proj1 (mo_dom k (mi_shape _ _ Hk) t) Ha) as [th Hth].
    destruct (set_status_ok (sched k) t th st (mo_sched k (mi_shape _ _ Hk)) Hth) as (s & x & -> & Hs & Et). cbn. eexists. split; [done|]. by apply (status_ok k t th st s x).
  - destruct Ha as [Ht Hp]. destruct (set_priority_ok current k t _ Hk Ht Hp) as (k' & -> & Hk' & _). eauto.
  - destruct Ha as (Ht & Ho & Hg). destruct (try_acquire_ok current get k this address holding requesting Hk Ht Ho Hg) as (k' & r & b & -> & Hk' & _). cbn. eauto.
  - destruct (finish_ok current k this Hk Ha) as (k' & r & -> & Hk' & _). cbn. eauto.
  - destruct (release_ok current k this address Hk Ha) as (k' & r & -> & Hk'). cbn. eauto.
  - destruct Ha as [w Hw]. rewrite Hw. cbn [mbind option_bind]. eexists. split; [done|]. by apply (inherit_set_same k t w).
  - destruct Ha as [w Hw]. unfold InsertConditionVariableThread. rewrite Hw. cbn. eexists. split; [done|]. by eapply inherit_ext; [..|exact Hk].
  - destruct Ha as [w Hw]. unfold RemoveConditionVariableThread. rewrite Hw. cbn. eexists. split; [done|]. by eapply inherit_ext; [..|exact Hk].
  - eexists. split; [done|]. by eapply inherit_ext; [..|exact Hk].
Qed.

Lemma kernel_run_ok k : kernel_run k -> inherit_ok k None.
Proof.
  induction 1 as [|k r k' Hrun IH Ha E]; [apply new_kernel_ok|]. destruct (k_perform_ok r k IH Ha) as (k2 & E2 & H2). by rewrite E in E2; injection E2 as ->.
Qed.

(** ** The best priority of all that wait *)

Section Best.
Context k (Hk : inherit_ok k None).

Lemma inherited_waiter t w x : waits k !! t = Some w -> x ∈ wait_mutex_threads w -> inherited k w <= GetPriority k x.
Proof.
  intros Hw Hx. pose proof (mi_sorted k None Hk t w Hw) as Hs. unfold inherited. destruct (wait_mutex_threads w) as [|y l]; [by apply not_elem_of_nil in Hx|].
  pose proof (sorted_head k y l Hs x Hx). destruct (Z.ltb_spec (GetPriority k y) (nominal_priority w)); lia.
Qed.
Lemma inherited_nominal w : inherited k w <= nominal_priority w.
Proof. unfold inherited. destruct (wait_mutex_threads w) as [|y l]; [lia|]. destruct (Z.ltb_spec (GetPriority k y) (nominal_priority w)); lia. Qed.

Lemma waits_for_priority u t : waits_for k u t -> GetPriority k t <= GetPriority k u.
Proof.
  induction 1 as [t|u w o t Hu Ho Ha IH]; [lia|]. destruct (mo_owner k (mi_shape _ _ Hk) u w o Hu Ho) as [wo Hwo].
  pose proof (mi_inherit k None Hk o wo ltac:(done) Hwo). pose proof (inherited_waiter o wo u Hwo (proj2 (mo_waiters k (mi_shape _ _ Hk) o wo u Hwo) ltac:(eauto))). lia.
Qed.
Lemma waits_for_snoc u t w o : waits_for k u t -> waits k !! t = Some w -> lock_owner w = Some o -> waits_for k u o.
Proof. induction 1 as [t|u wu v t Hu Hv Ha IH]; intros Hw Ho; [by apply waits_for_next with w o; [..|constructor]|apply waits_for_next with wu v; auto]. Qed.

Lemma lender m : forall t n, depth k t n -> (size (waits k) - n <= m)%nat -> exists u wu, waits_for k u t /\ waits k !! u = Some wu /\ GetPriority k t = nominal_priority wu.
Proof.
  induction m as [|m IH]; intros t n Hd Hm; [pose proof (depth_bound k t n Hd); lia|].
  assert (exists w, waits k !! t = Some w) as [w Hw] by (inversion Hd; eauto).
  pose proof (mi_inherit k None Hk t w ltac:(done) Hw) as E. unfold inherited in E. destruct (wait_mutex_threads w) as [|x l] eqn:El; [exists t, w; split; [constructor|done]|].
  destruct (_ <? _); [|exists t, w; split; [constructor|done]].
  destruct (proj1 (mo_waiters k (mi_shape _ _ Hk) t w x Hw)) as (wx & Hx & Hl); [rewrite El; left|].
  destruct (IH x (S n)) as (u & wu & Ha & Hu & Eu); [by apply depth_next with wx t|lia|]. exists u, wu. split; [by apply waits_for_snoc with x wx|]. split; [done|congruence].
Qed.
End Best.

(** C8: in every state that creations, changes of priority and status, locking
    and unlocking of mutexes, waiting for condition variables and writes of the
    guest can reach without a deadlock, a thread runs with the best nominal
    priority of the threads that wait for it, directly or through others, itself
    included; the threads that wait for a thread are in order of priority; and
    every further operation of that kind returns: the mutual recursion of
    [UpdatePriority], [RemoveMutexWaiter] and [AddMutexWaiter] ends within the
    number of threads.  The operations are for threads that exist, priorities 0
    to 62 and processors 0 to 3; a thread asks for a mutex only when it does not
    wait for one, and never for one whose holder waits for it, directly or not.
    The code does not refuse the last, and a circle of threads can keep a
    priority that none of them has: [deadlock_keeps_priority]. *)
Theorem priority_inheritance k : kernel_run k ->
  (forall t, is_Some (waits k !! t) ->
     (exists u wu, waits_for k u t /\ waits k !! u = Some wu /\ GetPriority k t = nominal_priority wu)
     /\ forall u wu, waits_for k u t -> waits k !! u = Some wu -> GetPriority k t <= nominal_priority wu)
  /\ (forall o wo, waits k !! o = Some wo -> StronglySorted (fun x y => GetPriority k x <= GetPriority k y) (wait_mutex_threads wo))
  /\ forall r, k_allowed r k -> is_Some (k_perform r k).
Proof.
  intros Hrun. pose proof (kernel_run_ok k Hrun) as Hk. split; [|split].
  - intros t Ht. destruct (mo_depth k (mi_shape _ _ Hk) t Ht) as [n Hn]. split; [by apply (lender k Hk (size (waits k)) t n Hn); lia|].
    intros u wu Ha Hu. pose proof (waits_for_priority k Hk u t Ha). pose proof (mi_inherit k None Hk u wu ltac:(done) Hu). pose proof (inherited_nominal k wu). lia.
  - intros o wo Ho. exact (mi_sorted k None Hk o wo Ho).
  - intros r Ha. destruct (k_perform_ok r k Hk Ha) as (k' & E & _). eauto.
Qed.

(** C9: [Unlock] of an aligned address in a reachable state returns: without
    threads that wait for the owner at the address it clears the guest word;
    otherwise the first of them, which none of the others precedes in
    priority, gets the mutex, wakes up with success, the others wait for it
    from then on, the owners of all other threads are unchanged, and the guest
    word is its handle, with the flag when others wait. *)
Theorem unlock_hands_over current k owner wo address : kernel_run k -> waits k !! owner = Some wo -> address mod 4 = 0 ->
  match waiting_for k wo address with
  | [] => Unlock current k owner address = Some (Write32 k address 0, RESULT_SUCCESS, None)
  | n :: rest => exists k', Unlock current k owner address = Some (k', RESULT_SUCCESS, Some n) /\ handed_over k address n rest k'
  end.
Proof.
  intros Hrun Hwo Ha. pose proof (unlock_ok current k owner wo address (kernel_run_ok k Hrun) Hwo Ha) as H.
  destruct (waiting_for k wo address) as [|n rest]; [done|]. destruct H as (k' & E & _ & H). eauto.
Qed.

(** ** Three threads and a mutex *)

(** Thread 10 holds the mutex at 0x1000; the threads 11 and then 12, of better
    priorities, ask for it.  A handle is the number of its thread. *)
Definition sample_locks : list KRequest :=
  [KR_create 10 44 0; KR_create 11 30 1; KR_create 12 20 2; KR_store 0x1000 (Z.lor 10 MutexHasWaitersFlag);
   KR_acquire 11 Some 11 0x1000 10 11; KR_acquire 12 Some 12 0x1000 10 12].
Definition sample_kernel : option Kernel := foldl (fun (st : option Kernel) r => k ← st; k_perform r k) (Some Kernel_new) sample_locks.

Lemma root_waits_for_none k h t : owner_of k h = None -> h <> t -> ~ waits_for k h t.
Proof. intros Ho Hne Ha. inversion Ha as [|? w o ? Hw El]; subst; [done|]. unfold owner_of in Ho. rewrite Hw in Ho. cbn in Ho. congruence. Qed.

Lemma sample_kernel_run : exists k wo, sample_kernel = Some k /\ kernel_run k /\ waits k !! 10 = Some wo /\ waiting_for k wo 0x1000 = [12; 11].
Proof.
  eexists. eexists. split; [vm_compute; reflexivity|]. split; [|split; [vm_compute; reflexivity|vm_compute; reflexivity]].
  eapply (kernel_run_request _ (KR_acquire 12 Some 12 0x1000 10 12)); [eapply (kernel_run_request _ (KR_acquire 11 Some 11 0x1000 10 11));
    [eapply (kernel_run_request _ (KR_store 0x1000 (Z.lor 10 MutexHasWaitersFlag))); [eapply (kernel_run_request _ (KR_create 12 20 2)); [eapply (kernel_run_request _ (KR_create 11 30 1));
      [eapply (kernel_run_request _ (KR_create 10 44 0)); [apply kernel_run_new|..]|..]|..]|..]|..]|..];
    first [vm_compute; reflexivity | split; [vm_compute; reflexivity|lia] | exact I
      | split; [by vm_compute; eexists|]; split; [vm_compute; reflexivity|]; intros h [= <-]; split; [by vm_compute; eexists|]; apply root_waits_for_none; [vm_compute; reflexivity|lia]].
Qed.

Lemma priority_inheritance_witness : exists k, sample_kernel = Some k /\ kernel_run k /\ is_Some (k_perform (KR_release 10 10 0x1000) k).
Proof.
  destruct sample_kernel_run as (k & wo & E & Hrun & Hw & _). exists k. split; [exact E|]. split; [exact Hrun|].
  destruct (priority_inheritance k Hrun) as (_ & _ & H). apply (H (KR_release 10 10 0x1000)). exists wo. exact Hw.
Defined.

Lemma unlock_hands_over_witness : exists k wo k', sample_kernel = Some k /\ waits k !! 10 = Some wo
  /\ Unlock 10 k 10 0x1000 = Some (k', RESULT_SUCCESS, Some 12) /\ handed_over k 0x1000 12 [11] k'.
Proof.
  destruct sample_kernel_run as (k & wo & E & Hrun & Hw & Hl). exists k, wo.
  pose proof (unlock_hands_over 10 k 10 wo 0x1000 Hrun Hw eq_refl) as H. rewrite Hl in H. destruct H as (k' & Hu & Hh).
  exists k'. split; [exact E|]. split; [exact Hw|]. split; [exact Hu|exact Hh].
Defined.

(** Thread 10 runs with priority 20 until it lets go; then 12 holds the mutex
    and 11 waits for it. *)
Example sample_inheritance : (k ← sample_kernel; '(k', _) ← Release 10 k 10 0x1000;
    Some (map (GetPriority k) [10; 11; 12], map (GetPriority k') [10; 11; 12], map (owner_of k') [10; 11; 12], Read32 k' 0x1000))
  = Some ([20; 30; 20], [44; 30; 20], [None; Some 12; None], Z.lor 12 MutexHasWaitersFlag).
Proof. by vm_compute. Qed.

(** ** Departures *)

(** The threads 10 and 11 wait for each other.  Thread 11, whose priority 30
    both had, gets the priority 50: both keep 30, which is the nominal priority
    of no thread. *)
Lemma deadlock_keeps_priority :
  (k ← foldl (fun (st : option Kernel) r => k ← st; k_perform r k) (Some Kernel_new)
     [KR_create 10 44 0; KR_create 11 30 1; KR_store 0x1000 (Z.lor 10 MutexHasWaitersFlag); KR_store 0x2000 (Z.lor 11 MutexHasWaitersFlag);
      KR_acquire 11 Some 11 0x1000 10 11; KR_acquire 10 Some 10 0x2000 11 10; KR_priority 12 11 50];
   Some (map (owner_of k) [10; 11], map (GetPriority k) [10; 11], map (fun t => nominal_priority <$> waits k !! t) [10; 11]))
  = Some ([Some 11; Some 10], [30; 30], [Some 44; Some 50]).
Proof. by vm_compute. Qed.
