(* ===== verification/AddressArbiter.v ===== *)
(** * Address arbiters and timed waits

    [AddressArbiter] ([src/src/core/hle/kernel/address_arbiter.cpp]) with the
    two system calls that use it ([svc.cpp]) and [TimeManager]
    ([time_manager.cpp]), over the threads of [Scheduler].  A call of
    [WaitForAddress] is three steps: up to the point where the thread sleeps,
    the removal of its time event after it woke up, and the end; [frame] is
    where the call is, with its local variable.  The global handle of a thread
    is the number of the thread.  The exclusive monitor is the one of the CPU
    back end: an exclusive write fails exactly when another core wrote to the
    word since the exclusive read, and the values that other cores write there
    in the course of one operation are the list [races].  [None]: overflow of
    a signed integer, a null pointer, or an undefined operation of the
    scheduler. *)

From S2P Require Import Prelude KernelObject HandleTable Scheduler Mutex.
From stdpp Require Import base list gmap.
Open Scope Z_scope.
Open Scope c_scope.
Import Sched.

Module Arbiter.

Inductive Frame := F_none | F_wait (event_handle : Z) | F_woken.
#[export] Instance Frame_eq_dec : EqDecision Frame.
Proof. solve_decision. Defined.

(** The fields of a thread that arbiters use. *)
Record Waiter := {
  arb_wait_address : Z;
  waiting_for_arbitration : bool;
  signaling_result : Z;
  frame : Frame
}.
Definition SetArbiterWaitAddress (w : Waiter) (address : Z) : Waiter :=
  {| arb_wait_address := address; waiting_for_arbitration := waiting_for_arbitration w; signaling_result := signaling_result w; frame := frame w |}.
Definition WaitForArbitration (w : Waiter) (set : bool) : Waiter :=
  {| arb_wait_address := arb_wait_address w; waiting_for_arbitration := set; signaling_result := signaling_result w; frame := frame w |}.
Definition SetSynchronizationResults (w : Waiter) (result : Z) : Waiter :=
  {| arb_wait_address := arb_wait_address w; waiting_for_arbitration := waiting_for_arbitration w; signaling_result := result; frame := frame w |}.
Definition with_frame (w : Waiter) (f : Frame) : Waiter :=
  {| arb_wait_address := arb_wait_address w; waiting_for_arbitration := waiting_for_arbitration w; signaling_result := signaling_result w; frame := f |}.

(** The scheduler, the threads, the arbiter, the time manager with the time
    events that core timing has, and the words of guest memory that exist. *)
Record State := {
  sched : GlobalScheduler;
  waiters : gmap Z Waiter;
  arb_threads : gmap Z (list Z);
  time_events : list Z;
  cancelled_events : gmap Z bool;
  memory : gmap Z Z
}.
Definition with_sched (s : State) (g : GlobalScheduler) : State :=
  {| sched := g; waiters := waiters s; arb_threads := arb_threads s; time_events := time_events s; cancelled_events := cancelled_events s; memory := memory s |}.
Definition set_waiter (s : State) (t : Z) (w : Waiter) : State :=
  {| sched := sched s; waiters := <[t := w]> (waiters s); arb_threads := arb_threads s; time_events := time_events s;
     cancelled_events := cancelled_events s; memory := memory s |}.
Definition set_list (s : State) (address : Z) (l : list Z) : State :=
  {| sched := sched s; waiters := waiters s; arb_threads := <[address := l]> (arb_threads s); time_events := time_events s;
     cancelled_events := cancelled_events s; memory := memory s |}.
Definition with_events (s : State) (l : list Z) (c : gmap Z bool) : State :=
  {| sched := sched s; waiters := waiters s; arb_threads := arb_threads s; time_events := l; cancelled_events := c; memory := memory s |}.
Definition with_memory (s : State) (m : gmap Z Z) : State :=
  {| sched := sched s; waiters := waiters s; arb_threads := arb_threads s; time_events := time_events s; cancelled_events := cancelled_events s; memory := m |}.

Definition GetPriority (s : State) (t : Z) : Z := from_option current_priority 0 (threads (sched s) !! t).
Definition State_new : State :=
  {| sched := GlobalScheduler_new; waiters := ∅; arb_threads := ∅; time_events := []; cancelled_events := ∅; memory := ∅ |}.
Definition CreateThread (s : State) (t priority processor_id : Z) : State + Z :=
  match Create priority processor_id with
  | inl th => inl (set_waiter (with_sched s (set_thread (sched s) t th)) t
      {| arb_wait_address := 0; waiting_for_arbitration := false; signaling_result := RESULT_SUCCESS; frame := F_none |})
  | inr e => inr e
  end.

(** ** Signed words *)

(** [static_cast<s32>] and the value of a signed operation that must not
    overflow. *)
Definition to_s32 (x : Z) : Z := let y := to_u32 x in if y <? 2 ^ 31 then y else y - 2 ^ 32.
Definition s32 (x : Z) : option Z := if (- 2 ^ 31 <=? x) && (x <? 2 ^ 31) then Some x else None.

(** ** Time events *)

Definition ScheduleTimeEvent (s : State) (t nanoseconds : Z) : State * Z :=
  let h := if 0 <? nanoseconds then t else HandleTable.InvalidHandle in
  let events := if 0 <? nanoseconds then time_events s ++ [t] else time_events s in
  (with_events s events (<[h := false]> (cancelled_events s)), h).
Definition UnscheduleTimeEvent (s : State) (event_handle : Z) : State :=
  if event_handle =? HandleTable.InvalidHandle then s
  else with_events s (filter (fun h => h <> event_handle) (time_events s)) (<[event_handle := true]> (cancelled_events s)).
Definition CancelTimeEvent (s : State) (t : Z) : State := UnscheduleTimeEvent s t.
(** The callback of the event type. *)
Definition TimeManagerCallback (s : State) (h : Z) : option State :=
  if default false (cancelled_events s !! h) then Some s
  else g ← OnWakeUp (sched s) h; Some (with_sched s g).

(** ** The lists of waiting threads *)

Definition list_at (s : State) (address : Z) : list Z := default [] (arb_threads s !! address).
Definition GetThreadsWaitingOnAddress (s : State) (address : Z) : list Z := list_at s address.

Fixpoint insert_at (s : State) (l : list Z) (t : Z) : list Z :=
  match l with
  | [] => [t]
  | x :: l' => if GetPriority s t <=? GetPriority s x then t :: l else x :: insert_at s l' t
  end.
Definition InsertThread (s : State) (t : Z) : option State :=
  w ← waiters s !! t;
  let a := arb_wait_address w in
  Some (set_list s a (insert_at s (list_at s a) t)).
Definition RemoveThread (s : State) (t : Z) : option State :=
  w ← waiters s !! t;
  let a := arb_wait_address w in
  Some (set_list s a (default (list_at s a) (Mutex.erase_first (list_at s a) t))).
Definition HandleWakeupThread (s : State) (t : Z) : option State :=
  s ← RemoveThread s t; w ← waiters s !! t; Some (set_waiter s t (SetArbiterWaitAddress w 0)).

(** ** Signals *)

Definition wake_one (s : State) (t : Z) : option State :=
  w ← waiters s !! t;
  s ← RemoveThread (set_waiter s t (SetSynchronizationResults w RESULT_SUCCESS)) t;
  w ← waiters s !! t;
  let s := set_waiter s t (WaitForArbitration w false) in
  g ← ResumeFromWait (sched s) t;
  Some (with_sched s g).
Fixpoint wake_loop (s : State) (l : list Z) : option State :=
  match l with
  | [] => Some s
  | t :: l => s ← wake_one s t; wake_loop s l
  end.
Definition last_to_wake (num_to_wake : Z) (size : nat) : nat := if 0 <? num_to_wake then Nat.min size (Z.to_nat num_to_wake) else size.
Definition WakeThreads (s : State) (l : list Z) (num_to_wake : Z) : option State :=
  wake_loop s (take (last_to_wake num_to_wake (length l)) l).

Definition SignalToAddressOnly (s : State) (address num_to_wake : Z) : option (State * Z) :=
  s ← WakeThreads s (GetThreadsWaitingOnAddress s address) num_to_wake; Some (s, RESULT_SUCCESS).

(** [do { v = ExclusiveRead32( address ); ... } while (!ExclusiveWrite32( address, f( v ) ))]:
    [f] gives the value to write, or [None] for the return from the loop.  The
    boolean: the loop wrote. *)
Fixpoint exclusive (f : Z -> option (option Z)) (m : gmap Z Z) (address : Z) (races : list Z) : option (gmap Z Z * bool) :=
  v ← m !! address;
  r ← f v;
  match r, races with
  | None, _ => Some (m, false)
  | Some v, [] => Some (<[address := v]> m, true)
  | Some _, x :: races => exclusive f (<[address := x]> m) address races
  end.

Definition increment_if (value v : Z) : option (option Z) := Some (if v =? to_u32 value then Some (to_u32 (v + 1)) else None).
Definition IncrementAndSignalToAddressIfEqual (s : State) (address value num_to_wake : Z) (races : list Z) : option (State * Z) :=
  match memory s !! address with
  | None => Some (s, ERR_INVALID_ADDRESS_STATE)
  | Some _ =>
      '(m, wrote) ← exclusive (increment_if value) (memory s) address races;
      let s := with_memory s m in
      if wrote : bool then SignalToAddressOnly s address num_to_wake else Some (s, ERR_INVALID_STATE)
  end.

Definition modify_if (value num_to_wake : Z) (waiting : nat) (v : Z) : option (option Z) :=
  if negb (to_s32 v =? value) then Some None
  else
    u ← (if num_to_wake <=? 0 then (if (waiting =? 0)%nat then s32 (value + 1) else s32 (value - 1))
         else if (waiting =? 0)%nat then s32 (value + 1)
         else if Z.of_nat waiting <=? to_u32 num_to_wake then s32 (value - 1)
         else Some value);
    Some (Some (to_u32 u)).
Definition ModifyByWaitingCountAndSignalToAddressIfEqual (s : State) (address value num_to_wake : Z) (races : list Z) : option (State * Z) :=
  match memory s !! address with
  | None => Some (s, ERR_INVALID_ADDRESS_STATE)
  | Some _ =>
      let waiting_threads := GetThreadsWaitingOnAddress s address in
      '(m, wrote) ← exclusive (modify_if value num_to_wake (length waiting_threads)) (memory s) address races;
      let s := with_memory s m in
      if wrote : bool then s ← WakeThreads s waiting_threads num_to_wake; Some (s, RESULT_SUCCESS)
      else Some (s, ERR_INVALID_STATE)
  end.

Definition SignalToAddress (s : State) (address ty value num_to_wake : Z) (races : list Z) : option (State * Z) :=
  if ty =? 0 then SignalToAddressOnly s address num_to_wake
  else if ty =? 1 then IncrementAndSignalToAddressIfEqual s address value num_to_wake races
  else if ty =? 2 then ModifyByWaitingCountAndSignalToAddressIfEqual s address value num_to_wake races
  else Some (s, ERR_INVALID_ENUM_VALUE).

(** ** Waits *)

(** The end of the section under [SchedulerLockAndSleep]: the thread goes to
    sleep, and the destructor of the lock schedules the time event. *)
Definition block (s : State) (this address timeout : Z) : option State :=
  w ← waiters s !! this;
  s ← InsertThread (set_waiter s this (SetArbiterWaitAddress w address)) this;
  g ← SetStatus (sched s) this WaitArb;
  w ← waiters s !! this;
  let w := WaitForArbitration w true in
  let '(s, event_handle) := ScheduleTimeEvent (set_waiter (with_sched s g) this w) this timeout in
  Some (set_waiter s this (with_frame w (F_wait event_handle))).

Definition decrement_value (should_decrement : bool) (v : Z) : option (option Z) :=
  u ← (if should_decrement then s32 (to_s32 v - 1) else Some (to_s32 v)); Some (Some (to_u32 u)).

(** A result, or [None] for a thread that sleeps. *)
Definition WaitForAddressIfLessThan (s : State) (this address value timeout : Z) (should_decrement : bool) (races : list Z)
    : option (State * option Z) :=
  th ← threads (sched s) !! this;
  if IsPendingTermination th then Some (s, Some ERR_THREAD_TERMINATING)
  else
    match memory s !! address with
    | None => Some (s, Some ERR_INVALID_ADDRESS_STATE)
    | Some v =>
        if value <=? to_s32 v then Some (s, Some ERR_INVALID_STATE)
        else
          w ← waiters s !! this;
          let s := set_waiter s this (SetSynchronizationResults w RESULT_TIMEOUT) in
          '(m, _) ← exclusive (decrement_value should_decrement) (memory s) address races;
          let s := with_memory s m in
          if timeout =? 0 then Some (s, Some RESULT_TIMEOUT)
          else s ← block s this address timeout; Some (s, None)
    end.

Definition WaitForAddressIfEqual (s : State) (this address value timeout : Z) : option (State * option Z) :=
  th ← threads (sched s) !! this;
  if IsPendingTermination th then Some (s, Some ERR_THREAD_TERMINATING)
  else
    match memory s !! address with
    | None => Some (s, Some ERR_INVALID_ADDRESS_STATE)
    | Some v =>
        if negb (to_s32 v =? value) then Some (s, Some ERR_INVALID_STATE)
        else if timeout =? 0 then Some (s, Some RESULT_TIMEOUT)
        else
          w ← waiters s !! this;
          s ← block (set_waiter s this (SetSynchronizationResults w RESULT_TIMEOUT)) this address timeout;
          Some (s, None)
    end.

Definition WaitForAddress (s : State) (this address ty value timeout : Z) (races : list Z) : option (State * option Z) :=
  if ty =? 0 then WaitForAddressIfLessThan s this address value timeout false races
  else if ty =? 1 then WaitForAddressIfLessThan s this address value timeout true races
  else if ty =? 2 then WaitForAddressIfEqual s this address value timeout
  else Some (s, Some ERR_INVALID_ENUM_VALUE).

(** After the thread woke up. *)
Definition wait_unschedule (s : State) (this : Z) : option State :=
  w ← waiters s !! this;
  match frame w with
  | F_wait event_handle =>
      let s := UnscheduleTimeEvent s event_handle in
      Some (set_waiter s this (with_frame w F_woken))
  | _ => None
  end.
Definition wait_finish (s : State) (this : Z) : option (State * Z) :=
  w ← waiters s !! this;
  s ← (if waiting_for_arbitration w then
         s ← RemoveThread s this; Some (set_waiter s this (WaitForArbitration w false))
       else Some s);
  w ← waiters s !! this;
  Some (set_waiter s this (with_frame w F_none), signaling_result w).

(** ** System calls *)

Definition KERNEL_REGION_VADDR : Z := 0xFFFFFF8000000000.
Definition KERNEL_REGION_SIZE : Z := 0x7FFFE00000.
Definition KERNEL_REGION_END : Z := KERNEL_REGION_VADDR + KERNEL_REGION_SIZE.
Definition IsKernelVirtualAddress (vaddr : Z) : bool := (KERNEL_REGION_VADDR <=? vaddr) && (vaddr <? KERNEL_REGION_END).
Definition IsWordAligned (value : Z) : bool := value .& 3 =? 0.

Definition svc_WaitForAddress (s : State) (this address ty value timeout : Z) (races : list Z) : option (State * option Z) :=
  if IsKernelVirtualAddress address then Some (s, Some ERR_INVALID_ADDRESS_STATE)
  else if negb (IsWordAligned address) then Some (s, Some ERR_INVALID_ADDRESS)
  else WaitForAddress s this address ty value timeout races.
Definition svc_SignalToAddress (s : State) (address ty value num_to_wake : Z) (races : list Z) : option (State * Z) :=
  if IsKernelVirtualAddress address then Some (s, ERR_INVALID_ADDRESS_STATE)
  else if negb (IsWordAligned address) then Some (s, ERR_INVALID_ADDRESS)
  else SignalToAddress s address ty value num_to_wake races.
End Arbiter.
