(* ===== verification/AddressArbiterCorrect.v ===== *)
(** * Address arbiters lose no thread

    The operations of [AddressArbiter] on every state they can reach: a thread
    that sleeps is in the list of its address, a thread with a timeout has its
    time event as long as it sleeps and no longer than its call lasts, and a
    signal wakes exactly the first threads of the list. *)

From S2P Require Import Prelude KernelObject HandleTable Scheduler SchedulerQueues SchedulerCorrect SchedulerSelect Mutex MutexCorrect AddressArbiter.
From stdpp Require Import base list gmap.
Open Scope Z_scope.
Open Scope c_scope.
Import Sched Arbiter.
Implicit Types (s : State) (w : Arbiter.Waiter) (t u a : Z) (l : list Z).

(** ** The invariant *)

(** A thread; [E]: it has a time event; [C]: its entry of [cancelled_events]. *)
Record waiter_ok t (th : Thread) w (E : Prop) (C : option bool) : Prop := {
  wo_handle : t <> HandleTable.InvalidHandle;
  wo_timeout : waiting_for_arbitration w = true -> signaling_result w = RESULT_TIMEOUT;
  wo_idle : frame w = F_none -> waiting_for_arbitration w = false;
  wo_success : frame w <> F_none -> waiting_for_arbitration w = false -> signaling_result w = RESULT_SUCCESS;
  wo_event : E -> frame w = F_wait t;
  wo_wait h : frame w = F_wait h -> h = HandleTable.InvalidHandle \/ (h = t /\ C = Some false);
  wo_asleep : status th = WaitArb -> waiting_for_arbitration w = true /\ exists h, frame w = F_wait h /\ (h = t -> E)
}.

Record arb_ok s : Prop := {
  ao_sched : sched_ok (sched s);
  ao_dom t : is_Some (waiters s !! t) <-> is_Some (threads (sched s) !! t);
  ao_list a t : t ∈ list_at s a <-> exists w, waiters s !! t = Some w /\ waiting_for_arbitration w = true /\ arb_wait_address w = a;
  ao_nodup a : NoDup (list_at s a);
  ao_events : NoDup (time_events s);
  ao_known t : t ∈ time_events s -> is_Some (waiters s !! t);
  ao_waiter t th w : threads (sched s) !! t = Some th -> waiters s !! t = Some w -> waiter_ok t th w (t ∈ time_events s) (cancelled_events s !! t);
  ao_word a v : memory s !! a = Some v -> is_u32 v
}.

Lemma waiter_ok_ext t th w (E E' : Prop) C : (E <-> E') -> waiter_ok t th w E C -> waiter_ok t th w E' C.
Proof. intros HE []. split; try done; [tauto|]. intros Hst. destruct (wo_asleep0 Hst) as (H1 & h & H2 & H3). split; [done|]. exists h. split; [done|tauto]. Qed.

(** A change of one thread, of its place in the lists and of its time event. *)
Lemma arb_update s s' t w w' th th' : arb_ok s -> waiters s !! t = Some w -> threads (sched s) !! t = Some th ->
  sched_ok (sched s') -> threads (sched s') = <[t := th']> (threads (sched s)) -> waiters s' = <[t := w']> (waiters s) ->
  (forall a, NoDup (list_at s' a)) ->
  (forall a u, u ∈ list_at s' a <-> (u = t /\ waiting_for_arbitration w' = true /\ arb_wait_address w' = a) \/ (u <> t /\ u ∈ list_at s a)) ->
  NoDup (time_events s') -> (forall u, u <> t -> u ∈ time_events s' <-> u ∈ time_events s) ->
  (forall u, u <> t -> u <> HandleTable.InvalidHandle -> cancelled_events s' !! u = cancelled_events s !! u) ->
  (forall a v, memory s' !! a = Some v -> is_u32 v) ->
  waiter_ok t th' w' (t ∈ time_events s') (cancelled_events s' !! t) -> arb_ok s'.
Proof.
  intros Hs Hw Hth Hg Et Ew Hnd Hl Hev Heu Hc Hm Hok. split; [done|..|done].
  - intros u. rewrite Et, Ew, !lookup_insert_is_Some', (ao_dom s Hs u). done.
  - intros a u. rewrite Hl, Ew. destruct (decide (u = t)) as [->|Hu].
    + rewrite lookup_insert_eq. split; [intros [(_ & H1 & H2)|[? _]]; [by exists w'|done]|intros (w2 & [= <-] & H1 & H2); by left].
    + rewrite lookup_insert_ne by done. rewrite (ao_list s Hs a u). split; [by intros [[? _]|[_ H]]|by right].
  - done.
  - done.
  - intros u Hu. rewrite Ew. destruct (decide (u = t)) as [->|Hne]; [rewrite lookup_insert_eq; eauto|]. rewrite lookup_insert_ne by done. apply (ao_known s Hs). by apply Heu.
  - intros u uh wu. rewrite Et, Ew. destruct (decide (u = t)) as [->|Hu]; [rewrite !lookup_insert_eq; by intros [= <-] [= <-]|].
    rewrite !lookup_insert_ne by done. intros Huh Hwu. pose proof (ao_waiter s Hs u uh wu Huh Hwu) as Hu'. rewrite Hc; [|done|apply (wo_handle _ _ _ _ _ Hu')].
    apply (waiter_ok_ext u uh wu (u ∈ time_events s)); [|done]. symmetry. by apply Heu.
Qed.

Lemma arb_memory s m : arb_ok s -> (forall a v, m !! a = Some v -> is_u32 v) -> arb_ok (with_memory s m).
Proof. intros [] Hm. by split. Qed.

(** ** Lists *)

Lemma list_at_set s a l b : list_at (set_list s a l) b = if decide (b = a) then l else list_at s b.
Proof. unfold list_at. cbn [set_list arb_threads]. case_decide; subst; [by rewrite lookup_insert_eq|by rewrite lookup_insert_ne]. Qed.
Lemma insert_at_perm s l t : insert_at s l t ≡ₚ t :: l.
Proof. induction l as [|x l IH]; [done|]. cbn. case_match; [done|]. rewrite IH. apply Permutation_swap. Qed.

Lemma thread_of s t w : arb_ok s -> waiters s !! t = Some w -> exists th, threads (sched s) !! t = Some th.
Proof. intros Hs Hw. apply (ao_dom s Hs t). eauto. Qed.

(** A thread that waits leaves its list. *)
Lemma remove_effect s s0 t w : arb_ok s -> waiters s !! t = Some w -> waiting_for_arbitration w = true -> arb_threads s0 = arb_threads s ->
  (exists w0, waiters s0 !! t = Some w0 /\ arb_wait_address w0 = arb_wait_address w) ->
  RemoveThread s0 t = Some (set_list s0 (arb_wait_address w) (filter (fun x => x <> t) (list_at s (arb_wait_address w)))).
Proof.
  intros Hs Hw Hwt El (w0 & Hw0 & Ea). unfold RemoveThread. rewrite Hw0. cbn [mbind option_bind]. rewrite Ea.
  assert (forall a, list_at s0 a = list_at s a) as Hla by (intros a; unfold list_at; by rewrite El).
  rewrite Hla, erase_first_filter; [done|apply (ao_nodup s Hs)|]. apply (ao_list s Hs). eauto.
Qed.

Lemma removed_lists s t w a0 : arb_ok s -> waiters s !! t = Some w -> arb_wait_address w = a0 ->
  forall a u, u ∈ (if decide (a = a0) then filter (fun x => x <> t) (list_at s a0) else list_at s a) <-> u <> t /\ u ∈ list_at s a.
Proof.
  intros Hs Hw Ea a u. case_decide as Hd; [subst a a0; by rewrite list_elem_of_filter|]. split; [|by intros [_ ?]]. intros Hu. split; [|done]. intros ->.
  apply (ao_list s Hs) in Hu as (w2 & H1 & _ & H2). congruence.
Qed.

(** ** Waking up *)

Lemma resume_wakes g t th : sched_ok g -> threads g !! t = Some th ->
  exists g' th', ResumeFromWait g t = Some g' /\ sched_ok g' /\ threads g' = <[t := th']> (threads g) /\ status th' <> WaitArb /\ (status th = WaitArb -> status th' = Ready).
Proof.
  intros Hg Ht. unfold ResumeFromWait. rewrite Ht. cbn [mbind option_bind]. destruct (set_status_ok g t th Ready Hg Ht) as (g' & x & E & Hg' & Et).
  destruct (status th) eqn:Est; try (exists g', (with_status (with_states th x (pausing_state th)) Ready); split; [exact E|]; by split_and!);
    (exists g, th; split; [done|]; split; [done|]; split; [by rewrite insert_id|]; by rewrite Est).
Qed.

Definition woken w : Arbiter.Waiter := WaitForArbitration (SetSynchronizationResults w RESULT_SUCCESS) false.

Lemma wake_one_ok s t w th : arb_ok s -> waiters s !! t = Some w -> waiting_for_arbitration w = true -> threads (sched s) !! t = Some th ->
  exists s' th', wake_one s t = Some s' /\ arb_ok s' /\ waiters s' = <[t := woken w]> (waiters s) /\ threads (sched s') = <[t := th']> (threads (sched s))
    /\ (status th = WaitArb -> status th' = Ready) /\ time_events s' = time_events s /\ memory s' = memory s
    /\ forall a, list_at s' a = if decide (a = arb_wait_address w) then filter (fun x => x <> t) (list_at s (arb_wait_address w)) else list_at s a.
Proof.
  intros Hs Hw Hwt Hth. unfold wake_one. rewrite Hw. cbn [mbind option_bind].
  rewrite (remove_effect s _ t w Hs Hw Hwt); [|done|eexists; split; [by apply lookup_insert_eq|done]]. cbn [mbind option_bind set_list waiters set_waiter]. rewrite lookup_insert_eq. cbn [mbind option_bind].
  destruct (resume_wakes (sched s) t th (ao_sched s Hs) Hth) as (g & th' & E & Hg & Et & Hne & Hwake). cbn [sched set_waiter set_list]. rewrite E. cbn [mbind option_bind].
  eexists _, th'. split; [reflexivity|]. set (s' := with_sched _ g).
  assert (waiters s' = <[t := woken w]> (waiters s)) as Ew by (cbn; by rewrite insert_insert_eq).
  assert (forall a, list_at s' a = if decide (a = arb_wait_address w) then filter (fun x => x <> t) (list_at s (arb_wait_address w)) else list_at s a) as Hl.
  { intros a. change (list_at s' a) with (list_at (set_list s (arb_wait_address w) (filter (fun x => x <> t) (list_at s (arb_wait_address w)))) a). by rewrite list_at_set. }
  split; [|by split_and!]. pose proof (ao_waiter s Hs t th w Hth Hw) as [H1 H2 H3 H4 H5 H6 H7].
  apply (arb_update s s' t w (woken w) th th'); try done.
  - intros a. rewrite Hl. case_decide; [apply NoDup_filter|]; apply (ao_nodup s Hs).
  - intros a u. rewrite Hl, (removed_lists s t w (arb_wait_address w) Hs Hw eq_refl). cbn. naive_solver.
  - apply (ao_events s Hs).
  - apply (ao_word s Hs).
Qed.

(** The first [n] threads of a list wake up. *)
Record signalled s s' (address : Z) (n : nat) (m : gmap Z Z) : Prop := {
  sg_list : list_at s' address = drop n (list_at s address);
  sg_others a : a <> address -> list_at s' a = list_at s a;
  sg_woken u : u ∈ take n (list_at s address) -> exists w, waiters s !! u = Some w /\ waiters s' !! u = Some (woken w)
    /\ forall th, threads (sched s) !! u = Some th -> status th = WaitArb -> exists th', threads (sched s') !! u = Some th' /\ status th' = Ready;
  sg_rest u : u ∉ take n (list_at s address) -> waiters s' !! u = waiters s !! u /\ threads (sched s') !! u = threads (sched s) !! u;
  sg_events : time_events s' = time_events s;
  sg_memory : memory s' = m
}.

Lemma wake_loop_ok address n : forall s, arb_ok s -> (n <= length (list_at s address))%nat ->
  exists s', wake_loop s (take n (list_at s address)) = Some s' /\ arb_ok s' /\ signalled s s' address n (memory s).
Proof.
  induction n as [|n IH]; intros s Hs Hn.
  - exists s. split; [done|]. split; [done|]. split; try done. intros u Hu. by apply not_elem_of_nil in Hu.
  - destruct (list_at s address) as [|t l] eqn:El; [cbn in Hn; lia|]. cbn [take wake_loop].
    assert (t ∈ list_at s address) as Hin by (rewrite El; left). apply (ao_list s Hs) in Hin as (w & Hw & Hwt & Ha). destruct (thread_of s t w Hs Hw) as [th Hth].
    destruct (wake_one_ok s t w th Hs Hw Hwt Hth) as (s1 & th1 & -> & Hs1 & Ew & Et & Hwake & Eev & Em & Hl). cbn [mbind option_bind].
    pose proof (ao_nodup s Hs address) as Hnd. rewrite El in Hnd. apply NoDup_cons in Hnd as [Htl Hnd].
    assert (list_at s1 address = l) as El1. { rewrite Hl, Ha, decide_True, El by done. rewrite filter_cons_False by tauto. by apply filter_absent. }
    destruct (IH s1 Hs1) as (s' & E & Hs' & [H1 H2 H3 H4 H5 H6]); [rewrite El1; cbn in Hn; lia|]. rewrite El1 in E, H1, H3, H4.
    assert (t ∉ take n l) as Htn by (intros H; apply Htl; rewrite <- (take_drop n l); apply elem_of_app; by left).
    exists s'. split; [done|]. split; [done|]. rewrite Em in H6. split; try done; rewrite ?El; cbn [take drop].
    + done.
    + intros a Hne. rewrite H2, Hl, decide_False by congruence. done.
    + intros u [->|Hu]%elem_of_cons.
      * exists w. split; [done|]. destruct (H4 t Htn) as [-> ->]. rewrite Ew, Et, !lookup_insert_eq. split; [done|]. intros th0 [= <-]%(eq_trans (eq_sym Hth)) Hst. eauto.
      * assert (u <> t) as Hut by (by intros ->). destruct (H3 u Hu) as (wu & Hwu & Hwu' & Hst). rewrite Ew, lookup_insert_ne in Hwu by done. exists wu. split; [done|]. split; [done|].
        intros uh Huh. apply Hst. by rewrite Et, lookup_insert_ne.
    + intros u [Hut Hu]%not_elem_of_cons. destruct (H4 u Hu) as [-> ->]. by rewrite Ew, Et, !lookup_insert_ne.
    + congruence.
Qed.
Lemma wake_threads_ok s s0 address num : arb_ok s0 -> arb_threads s0 = arb_threads s ->
  exists s', WakeThreads s0 (GetThreadsWaitingOnAddress s address) num = Some s' /\ arb_ok s'
    /\ signalled s0 s' address (last_to_wake num (length (list_at s address))) (memory s0).
Proof.
  intros Hs E. unfold WakeThreads, GetThreadsWaitingOnAddress. assert (list_at s address = list_at s0 address) as -> by (unfold list_at; by rewrite E).
  apply wake_loop_ok; [done|]. unfold last_to_wake. case_match; lia.
Qed.

(** ** Exclusive accesses *)

Lemma exclusive_if f (p : Z -> bool) n a races : forall (m : gmap Z Z) v, m !! a = Some v -> (forall x, x ∈ v :: races -> (p v = false -> x = v) -> f x = Some (if p x then Some n else None)) ->
  if forallb p (v :: races) then exclusive f m a races = Some (<[a := n]> m, true)
  else exists x, x ∈ v :: races /\ p x = false /\ exclusive f m a races = Some (<[a := x]> m, false).
Proof.
  induction races as [|x races IH]; intros m v Hm Hf; cbn [forallb exclusive]; rewrite Hm; cbn [mbind option_bind]; rewrite (Hf v ltac:(left) ltac:(done)); destruct (p v) eqn:Ev; cbn [andb mbind option_bind].
  - done.
  - exists v. split; [left|]. split; [done|]. by rewrite insert_id.
  - specialize (IH (<[a := x]> m) x ltac:(apply lookup_insert_eq) ltac:(intros y Hy _; apply Hf; [by right|congruence])). cbn [forallb] in IH. rewrite insert_insert_eq in IH.
    destruct (p x && forallb p races); [done|]. destruct IH as (y & Hy & Hp & ->). exists y. split; [by right|]. split; [done|]. by rewrite insert_insert_eq.
  - exists v. split; [left|]. split; [done|]. by rewrite insert_id.
Qed.
Lemma exclusive_always f (g : Z -> Z) a races : forall (m : gmap Z Z) v, m !! a = Some v -> (forall x, x ∈ v :: races -> f x = Some (Some (g x))) ->
  exists x, x ∈ v :: races /\ exclusive f m a races = Some (<[a := g x]> m, true).
Proof.
  induction races as [|x races IH]; intros m v Hm Hf; cbn [exclusive]; rewrite Hm; cbn [mbind option_bind]; rewrite (Hf v ltac:(left)); cbn [mbind option_bind].
  - exists v. split; [left|done].
  - destruct (IH (<[a := x]> m) x ltac:(apply lookup_insert_eq) ltac:(intros y Hy; apply Hf; by right)) as (y & Hy & ->). exists y. split; [by right|]. by rewrite insert_insert_eq.
Qed.

(** The loop meets a value that its operation is undefined for. *)
Lemma exclusive_bad f (bad : Z -> bool) a races : forall (m : gmap Z Z) v, m !! a = Some v -> (forall x, x ∈ v :: races -> if bad x then f x = None else exists y, f x = Some (Some y)) ->
  existsb bad (v :: races) = true -> exclusive f m a races = None.
Proof.
  induction races as [|x races IH]; intros m v Hm Hf Hb; cbn [existsb exclusive] in *; rewrite Hm; cbn [mbind option_bind]; pose proof (Hf v ltac:(left)) as Hv;
    (destruct (bad v); [by rewrite Hv|]); destruct Hv as [y ->]; [done|]. cbn [mbind option_bind orb] in *.
  apply (IH _ x); [apply lookup_insert_eq|intros z Hz; apply Hf; by right|done].
Qed.

Lemma to_s32_eq v value : is_u32 v -> - 2 ^ 31 <= value < 2 ^ 31 -> (to_s32 v =? value) = (v =? to_u32 value).
Proof.
  intros Hv Hr. unfold to_s32. rewrite (to_u32_id v) by done. rewrite to_u32_mod. unfold is_u32 in Hv.
  assert (value mod 2 ^ 32 = if value <? 0 then value + 2 ^ 32 else value) as ->.
  { destruct (Z.ltb_spec value 0); [symmetry; apply (Z.mod_unique _ _ (-1)); lia|apply Z.mod_small; lia]. }
  apply eq_iff_eq_true. rewrite !Z.eqb_eq. destruct (Z.ltb_spec v (2 ^ 31)), (Z.ltb_spec value 0); lia.
Qed.
Definition fits_s32 (x : Z) : bool := (- 2 ^ 31 <=? x) && (x <? 2 ^ 31).
Lemma s32_some x : - 2 ^ 31 <= x < 2 ^ 31 -> s32 x = Some x.
Proof. intros H. unfold s32. rewrite (proj2 (Z.leb_le _ _)), (proj2 (Z.ltb_lt _ _)) by lia. done. Qed.

(** ** Signals *)

(** What a signal adds to the word, with [waiting] threads in the list. *)
Definition delta (ty num_to_wake : Z) (waiting : nat) : Z :=
  if ty =? 1 then 1 else if (waiting =? 0)%nat then 1 else if (num_to_wake <=? 0) || (Z.of_nat waiting <=? num_to_wake) then -1 else 0.

Lemma increment_if_spec value x : increment_if value x = Some (if x =? to_u32 value then Some (to_u32 (value + 1)) else None).
Proof.
  unfold increment_if. destruct (Z.eqb_spec x (to_u32 value)) as [->|]; [|done]. do 2 f_equal. rewrite !to_u32_mod. by rewrite Zplus_mod_idemp_l.
Qed.
Lemma modify_if_spec value num waiting x : is_u32 x -> - 2 ^ 31 <= value < 2 ^ 31 -> num < 2 ^ 31 ->
  modify_if value num waiting x = if x =? to_u32 value then u ← s32 (value + delta 2 num waiting); Some (Some (to_u32 u)) else Some None.
Proof.
  intros Hx Hv Hn. unfold modify_if. rewrite to_s32_eq by (done || lia). destruct (x =? to_u32 value); cbn [negb]; [|done]. unfold delta. cbn [Z.eqb].
  destruct (waiting =? 0)%nat; [by destruct (num <=? 0)|]. destruct (Z.leb_spec num 0) as [Hle|Hgt]; cbn [orb]; [done|]. rewrite to_u32_id by (unfold is_u32; lia).
  destruct (Z.of_nat waiting <=? num); [done|]. by rewrite Z.add_0_r, s32_some.
Qed.

(** The addition of [ModifyByWaitingCountAndSignalToAddressIfEqual] overflows:
    the word that is read first is the value, and the value plus the change is
    not a signed word. *)
Definition signal_overflows s (address ty value num_to_wake : Z) : bool :=
  negb (IsKernelVirtualAddress address) && IsWordAligned address && (ty =? 2)
  && match memory s !! address with
     | Some v => (v =? to_u32 value) && negb (fits_s32 (value + delta 2 num_to_wake (length (list_at s address))))
     | None => false
     end.

(** The result of [svc_SignalToAddress]. *)
Definition signal_spec s (address ty value num_to_wake : Z) (races : list Z) s' (r : Z) : Prop :=
  let n := last_to_wake num_to_wake (length (list_at s address)) in
  if IsKernelVirtualAddress address then r = ERR_INVALID_ADDRESS_STATE /\ s' = s
  else if negb (IsWordAligned address) then r = ERR_INVALID_ADDRESS /\ s' = s
  else if ty =? 0 then r = RESULT_SUCCESS /\ signalled s s' address n (memory s)
  else if negb ((ty =? 1) || (ty =? 2)) then r = ERR_INVALID_ENUM_VALUE /\ s' = s
  else
    match memory s !! address with
    | None => r = ERR_INVALID_ADDRESS_STATE /\ s' = s
    | Some v =>
        if forallb (fun x => x =? to_u32 value) (v :: races)
        then r = RESULT_SUCCESS
          /\ signalled s s' address n (<[address := to_u32 (value + delta ty num_to_wake (length (list_at s address)))]> (memory s))
        else r = ERR_INVALID_STATE
          /\ exists x, x ∈ v :: races /\ x <> to_u32 value /\ s' = with_memory s (<[address := x]> (memory s))
    end.

Lemma word_store s address x : arb_ok s -> is_u32 x -> arb_ok (with_memory s (<[address := x]> (memory s))).
Proof. intros Hs Hx. apply arb_memory; [done|]. intros a v. destruct (decide (a = address)) as [->|]; [rewrite lookup_insert_eq; by intros [= <-]|rewrite lookup_insert_ne by done; apply (ao_word s Hs)]. Qed.

Lemma signal_ok s address ty value num races : arb_ok s -> Forall is_u32 races -> - 2 ^ 31 <= num < 2 ^ 31 -> - 2 ^ 31 <= value < 2 ^ 31 -> signal_overflows s address ty value num = false ->
  exists s' r, svc_SignalToAddress s address ty value num races = Some (s', r) /\ arb_ok s' /\ signal_spec s address ty value num races s' r.
Proof.
  intros Hs Hr Hn Hv Hov. unfold svc_SignalToAddress, signal_spec. unfold signal_overflows in Hov. destruct (IsKernelVirtualAddress address); [by exists s, ERR_INVALID_ADDRESS_STATE|].
  destruct (IsWordAligned address); cbn [negb andb] in Hov |- *; [|by exists s, ERR_INVALID_ADDRESS]. unfold SignalToAddress. destruct (ty =? 0).
  { unfold SignalToAddressOnly. destruct (wake_threads_ok s s address num Hs eq_refl) as (s' & -> & Hs' & Hsig). cbn. by exists s', RESULT_SUCCESS. }
  destruct (memory s !! address) as [v|] eqn:Em.
  2: { unfold IncrementAndSignalToAddressIfEqual, ModifyByWaitingCountAndSignalToAddressIfEqual. rewrite Em.
       destruct (ty =? 1); cbn [orb negb]; [by exists s, ERR_INVALID_ADDRESS_STATE|]. destruct (ty =? 2); cbn [negb]; [by exists s, ERR_INVALID_ADDRESS_STATE|by exists s, ERR_INVALID_ENUM_VALUE]. }
  assert (forall x, x ∈ v :: races -> is_u32 x) as Hu by (intros x [->|Hx]%elem_of_cons; [by apply (ao_word s Hs address)|rewrite Forall_forall in Hr; auto]).
  assert (exists f : Z -> option (option Z), (forall x, x ∈ v :: races -> ((v =? to_u32 value) = false -> x = v) -> f x = Some (if x =? to_u32 value then Some (to_u32 (value + delta ty num (length (list_at s address)))) else None)) /\
    ((ty =? 1) || (ty =? 2) = true -> (if ty =? 1 then IncrementAndSignalToAddressIfEqual s address value num races
     else if ty =? 2 then ModifyByWaitingCountAndSignalToAddressIfEqual s address value num races else Some (s, ERR_INVALID_ENUM_VALUE)) =
     ('(m, wrote) ← exclusive f (memory s) address races; let s1 := with_memory s m in
      if wrote : bool then s2 ← WakeThreads s1 (GetThreadsWaitingOnAddress s address) num; Some (s2, RESULT_SUCCESS) else Some (s1, ERR_INVALID_STATE)))) as (f & Hf & Ebody).
  { destruct (Z.eqb_spec ty 1) as [->|H1]; [|destruct (Z.eqb_spec ty 2) as [->|H2]].
    - exists (increment_if value). split; [intros x _ _; apply increment_if_spec|]. intros _. unfold IncrementAndSignalToAddressIfEqual. by rewrite Em.
    - exists (modify_if value num (length (list_at s address))). split.
      { intros x Hx Hvx. rewrite modify_if_spec by (auto; lia). destruct (x =? to_u32 value) eqn:Ex; [|done]. destruct (v =? to_u32 value) eqn:Evv; [|by rewrite Hvx, Evv in Ex].
        cbn [andb] in Hov. apply negb_false_iff in Hov. unfold s32. fold (fits_s32 (value + delta 2 num (length (list_at s address)))). by rewrite Hov. }
      intros _. unfold ModifyByWaitingCountAndSignalToAddressIfEqual. by rewrite Em.
    - exists (fun x => Some (if x =? to_u32 value then Some (to_u32 (value + delta ty num (length (list_at s address)))) else None)). split; [done|]. done. }
  destruct ((ty =? 1) || (ty =? 2)) eqn:Ety; cbn [negb].
  2: { apply orb_false_iff in Ety as [-> ->]. by exists s, ERR_INVALID_ENUM_VALUE. }
  rewrite Ebody by done. clear Ebody. pose proof (exclusive_if f (fun x => x =? to_u32 value) _ address races (memory s) v Em Hf) as Hex.
  destruct (forallb (fun x => x =? to_u32 value) (v :: races)).
  - rewrite Hex. cbn [mbind option_bind]. set (s1 := with_memory s _). assert (arb_ok s1) as Hs1 by (apply word_store; [done|apply to_u32_range]).
    destruct (wake_threads_ok s s1 address num Hs1 eq_refl) as (s' & -> & Hs' & [G1 G2 G3 G4 G5 G6]). cbn. exists s', RESULT_SUCCESS. by split_and!.
  - destruct Hex as (x & Hx & Hne & ->). cbn [mbind option_bind]. eexists _, ERR_INVALID_STATE. split; [done|]. split; [apply word_store; auto|]. split; [done|].
    exists x. split; [done|]. split; [by apply Z.eqb_neq|done].
Qed.

Lemma signal_overflow_undefined s address ty value num races : arb_ok s -> - 2 ^ 31 <= num < 2 ^ 31 -> - 2 ^ 31 <= value < 2 ^ 31 ->
  signal_overflows s address ty value num = true -> svc_SignalToAddress s address ty value num races = None.
Proof.
  intros Hs Hn Hv Hov. unfold signal_overflows in Hov. destruct (memory s !! address) as [v|] eqn:Em; [|by rewrite andb_false_r in Hov].
  apply andb_true_iff in Hov as [[[Hk%negb_true_iff Hal]%andb_true_iff ->%Z.eqb_eq]%andb_true_iff [Hval Hfit%negb_true_iff]%andb_true_iff].
  unfold svc_SignalToAddress, SignalToAddress, ModifyByWaitingCountAndSignalToAddressIfEqual. rewrite Hk, Hal, Em. cbn [negb Z.eqb].
  unfold GetThreadsWaitingOnAddress. set (n := length (list_at s address)) in *.
  assert (modify_if value num n v = None) as E.
  { rewrite modify_if_spec, Hval by (lia || by apply (ao_word s Hs address)). unfold s32. fold (fits_s32 (value + delta 2 num n)). by rewrite Hfit. }
  destruct races; cbn [exclusive]; rewrite Em; cbn [mbind option_bind]; by rewrite E.
Qed.

(** ** Waits *)

Lemma idle_thread s t th w : arb_ok s -> threads (sched s) !! t = Some th -> waiters s !! t = Some w -> frame w = F_none ->
  waiting_for_arbitration w = false /\ (t ∉ time_events s) /\ (forall a, t ∉ list_at s a) /\ status th <> WaitArb.
Proof.
  intros Hs Hth Hw Hf. pose proof (ao_waiter s Hs t th w Hth Hw) as [H1 H2 H3 H4 H5 H6 H7]. split; [auto|]. split; [intros H; specialize (H5 H); congruence|]. split.
  - intros a (w2 & E & E2 & _)%((ao_list s Hs)). rewrite Hw in E. injection E as <-. specialize (H3 Hf). congruence.
  - intros Hst. destruct (H7 Hst) as (_ & h & E & _). congruence.
Qed.

Lemma result_ok s t w r : arb_ok s -> waiters s !! t = Some w -> frame w = F_none -> arb_ok (set_waiter s t (SetSynchronizationResults w r)).
Proof.
  intros Hs Hw Hf. destruct (thread_of s t w Hs Hw) as [th Hth]. destruct (idle_thread s t th w Hs Hth Hw Hf) as (Hwt & Hev & Hl & Hst).
  pose proof (ao_waiter s Hs t th w Hth Hw) as [H1 H2 H3 H4 H5 H6 H7].
  apply (arb_update s _ t w (SetSynchronizationResults w r) th th); try done.
  - apply (ao_sched s Hs).
  - cbn. by rewrite insert_id.
  - intros a. apply (ao_nodup s Hs).
  - intros a u. change (list_at (set_waiter s t (SetSynchronizationResults w r)) a) with (list_at s a). cbn. rewrite Hwt. split; [|by intros [(? & ? & _)|[_ ?]]].
    intros Hu. right. split; [|done]. intros ->. by apply (Hl a).
  - apply (ao_events s Hs).
  - apply (ao_word s Hs).
  - split; cbn; try done; try (intros; congruence).
Qed.

Lemma block_ok s t w address timeout : arb_ok s -> waiters s !! t = Some w -> frame w = F_none -> signaling_result w = RESULT_TIMEOUT ->
  exists s' w', block s t address timeout = Some s' /\ arb_ok s' /\ waiters s' !! t = Some w' /\ waiting_for_arbitration w' = true /\ arb_wait_address w' = address
    /\ memory s' = memory s /\ (exists th, threads (sched s') !! t = Some th /\ status th = WaitArb) /\ (0 < timeout -> t ∈ time_events s').
Proof.
  intros Hs Hw Hf Hres. destruct (thread_of s t w Hs Hw) as [th Hth]. destruct (idle_thread s t th w Hs Hth Hw Hf) as (Hwt & Hev & Hl & Hst).
  pose proof (ao_waiter s Hs t th w Hth Hw) as [H1 H2 H3 H4 H5 H6 H7].
  unfold block. rewrite Hw. cbn [mbind option_bind]. unfold InsertThread. cbn [set_waiter waiters]. rewrite lookup_insert_eq. cbn [mbind option_bind SetArbiterWaitAddress arb_wait_address set_list sched].
  change (sched (set_waiter s t (SetArbiterWaitAddress w address))) with (sched s). destruct (set_status_ok (sched s) t th WaitArb (ao_sched s Hs) Hth) as (g & x & -> & Hg & Et). cbn [mbind option_bind waiters set_list set_waiter]. rewrite lookup_insert_eq. cbn [mbind option_bind].
  set (l := insert_at _ _ t). unfold ScheduleTimeEvent. set (h := if 0 <? timeout then t else HandleTable.InvalidHandle). set (w' := with_frame _ (F_wait h)).
  eexists _, w'. split; [reflexivity|]. set (s' := set_waiter _ t w').
  assert (waiters s' = <[t := w']> (waiters s)) as Ew by (cbn; by rewrite !insert_insert_eq).
  assert (l ≡ₚ t :: list_at s address) as Hperm by apply insert_at_perm.
  assert (forall a, list_at s' a = if decide (a = address) then l else list_at s a) as Hls by (intros a; by rewrite <- list_at_set).
  assert (time_events s' = if 0 <? timeout then time_events s ++ [t] else time_events s) as Eev by done.
  assert (cancelled_events s' = <[h := false]> (cancelled_events s)) as Ec by done.
  split; [|split; [by rewrite Ew, lookup_insert_eq|]; split; [done|]; split; [done|]; split; [done|]; split].
  2: { cbn. rewrite Et, lookup_insert_eq. eauto. }
  2: { intros Hto. rewrite Eev, (proj2 (Z.ltb_lt 0 timeout)) by done. apply elem_of_app. right. by left. }
  apply (arb_update s s' t w w' th (with_status (with_states th x (pausing_state th)) WaitArb)); try done.
  - intros a. rewrite Hls. case_decide; [|apply (ao_nodup s Hs)]. rewrite Hperm. constructor; [apply Hl|apply (ao_nodup s Hs)].
  - intros a u. rewrite Hls. cbn. case_decide as Ha.
    + subst a. rewrite Hperm, elem_of_cons. destruct (decide (u = t)) as [->|]; naive_solver.
    + split; [|intros [(_ & _ & ?)|[_ ?]]; [congruence|done]]. intros Hu. right. split; [|done]. intros ->. by apply (Hl a).
  - rewrite Eev. destruct (0 <? timeout); [|apply (ao_events s Hs)]. apply NoDup_app. split; [apply (ao_events s Hs)|]. split; [|apply NoDup_singleton]. intros u Hu ->%list_elem_of_singleton. done.
  - intros u Hu. rewrite Eev. destruct (0 <? timeout); [|done]. rewrite elem_of_app, list_elem_of_singleton. tauto.
  - intros u Hu Hu0. rewrite Ec. unfold h. rewrite lookup_insert_ne; [done|]. destruct (0 <? timeout); congruence.
  - apply (ao_word s Hs).
  - rewrite Eev, Ec. unfold h. split; cbn; try done.
    + unfold h. destruct (0 <? timeout); [done|]. intros H. by apply Hev in H.
    + intros h' [= <-]. unfold h. destruct (0 <? timeout); [right; by rewrite lookup_insert_eq|by left].
    + intros _. split; [done|]. exists h. split; [done|]. unfold h. destruct (0 <? timeout); [|congruence]. intros _. apply elem_of_app. right. by left.
Qed.

(** A time event whose thread is in its call wakes it. *)
Lemma timer_ok s t : arb_ok s -> t ∈ time_events s -> exists s', TimeManagerCallback (with_events s (filter (fun h => h <> t) (time_events s)) (cancelled_events s)) t = Some s'
  /\ arb_ok s' /\ waiters s' = waiters s /\ exists th, threads (sched s') !! t = Some th /\ status th = Ready.
Proof.
  intros Hs Hev. destruct (ao_known s Hs t Hev) as [w Hw]. destruct (thread_of s t w Hs Hw) as [th Hth]. pose proof (ao_waiter s Hs t th w Hth Hw) as [H1 H2 H3 H4 H5 H6 H7].
  unfold TimeManagerCallback. cbn [with_events cancelled_events]. destruct (H6 t (H5 Hev)) as [?|[_ ->]]; [done|]. cbn [default from_option id]. unfold OnWakeUp. cbn [sched with_events].
  destruct (set_status_ok (sched s) t th Ready (ao_sched s Hs) Hth) as (g & x & -> & Hg & Et). cbn [mbind option_bind]. eexists. split; [reflexivity|].
  split; [|split; [done|]; cbn; rewrite Et, lookup_insert_eq; eauto].
  set (s' := with_sched _ g). apply (arb_update s s' t w w th (with_status (with_states th x (pausing_state th)) Ready)); try done.
  - cbn. by rewrite insert_id.
  - intros a. apply (ao_nodup s Hs).
  - intros a u. change (list_at s' a) with (list_at s a). destruct (decide (u = t)) as [->|]; [|naive_solver]. rewrite (ao_list s Hs a t). split; [intros (w2 & E & ?); rewrite Hw in E; injection E as <-; by left|].
    intros [(_ & ? & ?)|[? _]]; [eauto|done].
  - cbn. apply NoDup_filter, (ao_events s Hs).
  - intros u Hu. cbn. rewrite list_elem_of_filter. tauto.
  - apply (ao_word s Hs).
  - split; cbn; try done. by intros [? _]%list_elem_of_filter.
Qed.

Lemma to_s32_range x : - 2 ^ 31 <= to_s32 x < 2 ^ 31.
Proof. unfold to_s32. pose proof (to_u32_range x) as H. unfold is_u32 in H. destruct (Z.ltb_spec (to_u32 x) (2 ^ 31)); lia. Qed.

(** A call that does not return leaves the thread asleep in the list of its
    address. *)
Definition asleep_at s' t address timeout : Prop :=
  (t ∈ list_at s' address) /\ (exists th, threads (sched s') !! t = Some th /\ status th = WaitArb) /\ (0 < timeout -> t ∈ time_events s').

Lemma block_asleep s t w address timeout : arb_ok s -> waiters s !! t = Some w -> frame w = F_none -> signaling_result w = RESULT_TIMEOUT ->
  exists s', block s t address timeout = Some s' /\ arb_ok s' /\ memory s' = memory s /\ asleep_at s' t address timeout.
Proof.
  intros Hs Hw Hf Hr. destruct (block_ok s t w address timeout Hs Hw Hf Hr) as (s' & w' & E & Hs' & Hw' & Hwt & Ha & Em & Hst & Hev). exists s'. split; [done|]. split; [done|]. split; [done|].
  split; [|done]. apply (ao_list s' Hs'). eauto.
Qed.

Lemma less_than_ok s t th w address value timeout dec races v : arb_ok s -> threads (sched s) !! t = Some th -> waiters s !! t = Some w -> frame w = F_none ->
  memory s !! address = Some v -> (dec = true -> negb (IsPendingTermination th) && (to_s32 v <? value) && existsb (fun x => to_s32 x =? - 2 ^ 31) (v :: races) = false) ->
  exists s' r, WaitForAddressIfLessThan s t address value timeout dec races = Some (s', r) /\ arb_ok s' /\ (r = None -> asleep_at s' t address timeout).
Proof.
  intros Hs Hth Hw Hf Em Hdec. unfold WaitForAddressIfLessThan. rewrite Hth, Em. cbn [mbind option_bind]. destruct (IsPendingTermination th); [by exists s, (Some ERR_THREAD_TERMINATING)|].
  destruct (Z.leb_spec value (to_s32 v)) as [|Hlt]; [by exists s, (Some ERR_INVALID_STATE)|]. rewrite Hw. cbn [mbind option_bind].
  set (s1 := set_waiter s t (SetSynchronizationResults w RESULT_TIMEOUT)). assert (arb_ok s1) as Hs1 by (by apply result_ok).
  destruct (exclusive_always (decrement_value dec) (fun x => to_u32 (to_s32 x - if dec then 1 else 0)) address races (memory s1) v Em) as (x & Hx & ->).
  { intros x Hx. unfold decrement_value. destruct dec; [|cbn; by rewrite Z.sub_0_r]. specialize (Hdec eq_refl). rewrite (proj2 (Z.ltb_lt _ _) Hlt) in Hdec. cbn [negb andb] in Hdec.
    assert (to_s32 x <> - 2 ^ 31) by (intros E; apply not_true_iff_false in Hdec; apply Hdec, existsb_exists; exists x; split; [by apply list_elem_of_In|by apply Z.eqb_eq]).
    pose proof (to_s32_range x). rewrite s32_some by lia. done. }
  cbn [mbind option_bind]. set (s2 := with_memory s1 _). assert (arb_ok s2) as Hs2 by (apply word_store; [done|apply to_u32_range]).
  destruct (timeout =? 0); [by exists s2, (Some RESULT_TIMEOUT)|].
  destruct (block_asleep s2 t (SetSynchronizationResults w RESULT_TIMEOUT) address timeout Hs2) as (s' & -> & Hs' & _ & Ha); [apply lookup_insert_eq|done|done|]. by exists s', None.
Qed.

(** [DecrementAndWaitIfLessThan] decrements the smallest signed word. *)
Definition wait_overflows s (t address ty value : Z) (races : list Z) : bool :=
  negb (IsKernelVirtualAddress address) && IsWordAligned address && (ty =? 1)
  && match threads (sched s) !! t, memory s !! address with
     | Some th, Some v => negb (IsPendingTermination th) && (to_s32 v <? value) && existsb (fun x => to_s32 x =? - 2 ^ 31) (v :: races)
     | _, _ => false
     end.

Lemma wait_overflow_undefined s t w address ty value timeout races : arb_ok s -> waiters s !! t = Some w ->
  wait_overflows s t address ty value races = true -> svc_WaitForAddress s t address ty value timeout races = None.
Proof.
  intros Hs Hw Hov. unfold wait_overflows in Hov. destruct (thread_of s t w Hs Hw) as [th Hth]. rewrite Hth in Hov. destruct (memory s !! address) as [v|] eqn:Em; [|by rewrite andb_false_r in Hov].
  apply andb_true_iff in Hov as [[[Hk%negb_true_iff Hal]%andb_true_iff ->%Z.eqb_eq]%andb_true_iff [[Hp%negb_true_iff Hlt%Z.ltb_lt]%andb_true_iff Hb]%andb_true_iff].
  unfold svc_WaitForAddress, WaitForAddress, WaitForAddressIfLessThan. rewrite Hk, Hal. cbn [negb Z.eqb]. rewrite Hth, Em. cbn [mbind option_bind]. rewrite Hp, (proj2 (Z.leb_gt _ _)), Hw by done.
  cbn [mbind option_bind]. rewrite (exclusive_bad _ (fun x => to_s32 x =? - 2 ^ 31) _ _ _ v); [done|done| |done].
  intros x _. unfold decrement_value. pose proof (to_s32_range x). destruct (Z.eqb_spec (to_s32 x) (- 2 ^ 31)) as [->|]; [done|]. rewrite s32_some by lia. eauto.
Qed.

Lemma wait_ok s t w address ty value timeout races : arb_ok s -> waiters s !! t = Some w -> frame w = F_none ->
  wait_overflows s t address ty value races = false ->
  exists s' r, svc_WaitForAddress s t address ty value timeout races = Some (s', r) /\ arb_ok s' /\ (r = None -> asleep_at s' t address timeout).
Proof.
  intros Hs Hw Hf Hov. destruct (thread_of s t w Hs Hw) as [th Hth]. unfold svc_WaitForAddress. unfold wait_overflows in Hov. rewrite Hth in Hov. destruct (IsKernelVirtualAddress address); [by exists s, (Some ERR_INVALID_ADDRESS_STATE)|].
  destruct (IsWordAligned address); cbn [negb andb] in Hov |- *; [|by exists s, (Some ERR_INVALID_ADDRESS)]. unfold WaitForAddress. destruct (memory s !! address) as [v|] eqn:Em.
  2: { unfold WaitForAddressIfLessThan, WaitForAddressIfEqual. rewrite Hth, Em. cbn [mbind option_bind].
       destruct (IsPendingTermination th), (ty =? 0), (ty =? 1), (ty =? 2); do 2 eexists; by split_and!. }
  destruct (ty =? 0); [by apply (less_than_ok s t th w _ _ _ _ _ v)|]. destruct (Z.eqb_spec ty 1) as [->|]; [by apply (less_than_ok s t th w _ _ _ _ _ v); auto|].
  destruct (ty =? 2); [|by exists s, (Some ERR_INVALID_ENUM_VALUE)]. unfold WaitForAddressIfEqual. rewrite Hth, Em. cbn [mbind option_bind].
  destruct (IsPendingTermination th); [by exists s, (Some ERR_THREAD_TERMINATING)|]. destruct (negb (to_s32 v =? value)); [by exists s, (Some ERR_INVALID_STATE)|].
  destruct (timeout =? 0); [by exists s, (Some RESULT_TIMEOUT)|]. rewrite Hw. cbn [mbind option_bind].
  destruct (block_asleep (set_waiter s t (SetSynchronizationResults w RESULT_TIMEOUT)) t (SetSynchronizationResults w RESULT_TIMEOUT) address timeout) as (s' & -> & Hs' & _ & Ha);
    [by apply result_ok|apply lookup_insert_eq|done|done|]. by exists s', None.
Qed.

Lemma unschedule_ok s t th w h : arb_ok s -> threads (sched s) !! t = Some th -> status th <> WaitArb -> waiters s !! t = Some w -> frame w = F_wait h ->
  exists s', wait_unschedule s t = Some s' /\ arb_ok s' /\ (t ∉ time_events s').
Proof.
  intros Hs Hth Hst Hw Hf. pose proof (ao_waiter s Hs t th w Hth Hw) as [H1 H2 H3 H4 H5 H6 H7]. unfold wait_unschedule. rewrite Hw. cbn [mbind option_bind]. rewrite Hf.
  eexists. split; [reflexivity|]. set (s' := set_waiter _ t _).
  assert (waiters s' = <[t := with_frame w F_woken]> (waiters s) /\ sched s' = sched s /\ arb_threads s' = arb_threads s /\ memory s' = memory s
    /\ NoDup (time_events s') /\ (forall u, u ∈ time_events s' <-> u <> t /\ u ∈ time_events s) /\ forall u, u <> t -> cancelled_events s' !! u = cancelled_events s !! u) as (Ew & Eg & El & Em & Hnd & Hin & Hc).
  { destruct (H6 h Hf) as [->|[-> Hc0]]; subst s'; unfold UnscheduleTimeEvent.
    - cbn. split_and!; try done; [apply (ao_events s Hs)|]. intros u. split; [|by intros [_ ?]]. intros Hu. split; [|done]. intros ->. specialize (H5 Hu). congruence.
    - rewrite (proj2 (Z.eqb_neq t HandleTable.InvalidHandle)) by done. cbn. split_and!; try done; [apply NoDup_filter, (ao_events s Hs)|intros u; by rewrite list_elem_of_filter|intros u Hu; by rewrite lookup_insert_ne]. }
  assert (forall a, list_at s' a = list_at s a) as Hl by (intros a; unfold list_at; by rewrite El).
  assert (t ∉ time_events s') as Hnot by (intros [? _]%Hin; done). split; [|done].
  apply (arb_update s s' t w (with_frame w F_woken) th th); try done.
  - rewrite Eg. apply (ao_sched s Hs).
  - rewrite Eg. by rewrite insert_id.
  - intros a. rewrite Hl. apply (ao_nodup s Hs).
  - intros a u. rewrite Hl. cbn. destruct (decide (u = t)) as [->|]; [|naive_solver]. rewrite (ao_list s Hs a t). split; [intros (w2 & E & ?); rewrite Hw in E; injection E as <-; by left|].
    intros [(_ & ? & ?)|[? _]]; [eauto|done].
  - intros u Hu. rewrite Hin. tauto.
  - intros u Hu _. by apply Hc.
  - rewrite Em. apply (ao_word s Hs).
  - split; cbn; try done. intros _ Hwt. apply H4; [congruence|done].
Qed.

Lemma wait_finish_ok s t w : arb_ok s -> waiters s !! t = Some w -> frame w = F_woken ->
  exists s', wait_finish s t = Some (s', if waiting_for_arbitration w then RESULT_TIMEOUT else RESULT_SUCCESS) /\ arb_ok s' /\ forall a, t ∉ list_at s' a.
Proof.
  intros Hs Hw Hf. destruct (thread_of s t w Hs Hw) as [th Hth]. pose proof (ao_waiter s Hs t th w Hth Hw) as [H1 H2 H3 H4 H5 H6 H7].
  assert (t ∉ time_events s) as Hev by (intros H; specialize (H5 H); congruence). assert (status th <> WaitArb) as Hst by (intros H; destruct (H7 H) as (_ & ? & ? & _); congruence).
  set (w' := with_frame (WaitForArbitration w false) F_none).
  assert (exists s', wait_finish s t = Some (s', signaling_result w) /\ waiters s' = <[t := w']> (waiters s) /\ sched s' = sched s /\ time_events s' = time_events s
    /\ cancelled_events s' = cancelled_events s /\ memory s' = memory s /\ (forall a, NoDup (list_at s' a)) /\ forall a u, u ∈ list_at s' a <-> u <> t /\ u ∈ list_at s a) as (s' & E & Ew & Eg & Eev & Ec & Em & Hnd & Hl).
  { unfold wait_finish. rewrite Hw. cbn [mbind option_bind]. destruct (waiting_for_arbitration w) eqn:Hwt.
    - rewrite (remove_effect s s t w Hs Hw Hwt eq_refl) by eauto. cbn [mbind option_bind set_list set_waiter waiters]. rewrite lookup_insert_eq. cbn [mbind option_bind].
      set (s' := set_waiter (set_waiter (set_list s (arb_wait_address w) (filter (fun x => x <> t) (list_at s (arb_wait_address w)))) t (WaitForArbitration w false)) t w'). exists s'. split; [done|].
      assert (forall a, list_at s' a = if decide (a = arb_wait_address w) then filter (fun x => x <> t) (list_at s (arb_wait_address w)) else list_at s a) as Hl by (intros a; by rewrite <- list_at_set).
      split_and!; try done; [cbn; by rewrite insert_insert_eq| |]; intros a; [rewrite Hl; case_decide; [apply NoDup_filter|]; apply (ao_nodup s Hs)|intros u; rewrite Hl; by apply removed_lists with w].
    - cbn [mbind option_bind]. rewrite Hw. cbn [mbind option_bind]. eexists. split; [reflexivity|]. split_and!; try done.
      + cbn. f_equal. unfold w', with_frame, WaitForArbitration. cbn. by rewrite Hwt.
      + intros a. apply (ao_nodup s Hs).
      + intros a u. split; [|by intros [_ ?]]. intros Hu. split; [|done]. intros ->. apply (ao_list s Hs) in Hu as (w2 & E2 & E3 & _). congruence. }
  exists s'. assert (signaling_result w = if waiting_for_arbitration w then RESULT_TIMEOUT else RESULT_SUCCESS) as <-. { destruct (waiting_for_arbitration w); [auto|]. apply H4; [congruence|done]. }
  split; [done|]. split; [|intros a [? _]%Hl; done]. apply (arb_update s s' t w w' th th); try done.
  - rewrite Eg. apply (ao_sched s Hs).
  - rewrite Eg. by rewrite insert_id.
  - intros a u. rewrite Hl. cbn. naive_solver.
  - rewrite Eev. apply (ao_events s Hs).
  - intros u _. by rewrite Eev.
  - intros u _ _. by rewrite Ec.
  - rewrite Em. apply (ao_word s Hs).
  - rewrite Eev. split; cbn; try done.
Qed.

(** ** Reachable states *)

Lemma arb_create_ok s t p pid : arb_ok s -> waiters s !! t = None -> t <> HandleTable.InvalidHandle -> 0 <= p < 63 -> 0 <= pid < 4 ->
  exists s', Arbiter.CreateThread s t p pid = inl s' /\ arb_ok s'.
Proof.
  intros Hs Hw Ht Hp Hpid. assert (threads (sched s) !! t = None) as Hth by (apply eq_None_not_Some; rewrite <- (ao_dom s Hs t), Hw; by intros [? ?]).
  destruct (create_ok (sched s) t p pid (ao_sched s Hs) Hth Hp Hpid) as (th & E & Hok). unfold Arbiter.CreateThread. rewrite E.
  assert (status th = Dormant) as Est by (unfold Create in E; destruct (_ <? _); [done|]; destruct (_ <? _); [done|]; by injection E as <-).
  set (w := {| signaling_result := RESULT_SUCCESS |}). eexists. split; [done|]. set (s' := set_waiter _ t w).
  assert (t ∉ time_events s) as Hev by (intros H; destruct (ao_known s Hs t H); congruence). split; [done|..].
  - intros u. cbn. rewrite !lookup_insert_is_Some'. by rewrite (ao_dom s Hs u).
  - intros a u. change (list_at s' a) with (list_at s a). cbn. rewrite (ao_list s Hs a u). destruct (decide (u = t)) as [->|]; [|by rewrite lookup_insert_ne].
    rewrite lookup_insert_eq, Hw. split; [by intros (? & ? & _)|intros (? & [= <-] & ? & _); done].
  - exact (ao_nodup s Hs).
  - exact (ao_events s Hs).
  - intros u Hu. cbn in *. rewrite lookup_insert_is_Some'. right. by apply (ao_known s Hs).
  - intros u uh wu. cbn. destruct (decide (u = t)) as [->|]; [|rewrite !lookup_insert_ne by done; by apply (ao_waiter s Hs)].
    rewrite !lookup_insert_eq. intros [= <-] [= <-]. split; cbn; try done. by rewrite Est.
  - exact (ao_word s Hs).
Qed.

(** A thread that is in no call starts, or goes on. *)
Lemma arb_start_ok s t w : arb_ok s -> waiters s !! t = Some w -> frame w = F_none -> exists g, Start (sched s) t = Some g /\ arb_ok (with_sched s g).
Proof.
  intros Hs Hw Hf. destruct (thread_of s t w Hs Hw) as [th Hth]. destruct (idle_thread s t th w Hs Hth Hw Hf) as (Hwt & Hev & Hl & Hst).
  destruct (set_status_ok (sched s) t th Ready (ao_sched s Hs) Hth) as (g & x & E & Hg & Et). exists g. split; [done|].
  pose proof (ao_waiter s Hs t th w Hth Hw) as [H1 H2 H3 H4 H5 H6 H7].
  apply (arb_update s _ t w w th (with_status (with_states th x (pausing_state th)) Ready)); try done.
  - cbn. by rewrite insert_id.
  - exact (ao_nodup s Hs).
  - intros a u. change (list_at (with_sched s g) a) with (list_at s a). rewrite Hwt. split; [|by intros [(_ & ? & _)|[_ ?]]]. intros Hu. right. split; [|done]. intros ->. by apply (Hl a).
  - exact (ao_events s Hs).
  - exact (ao_word s Hs).
Qed.

(** What can happen; [AR_timer] is core timing that fires a time event. *)
Inductive ARequest :=
  | AR_create (t priority processor_id : Z)
  | AR_start (t : Z)
  | AR_store (address value : Z)
  | AR_signal (address ty value num_to_wake : Z) (races : list Z)
  | AR_wait (t address ty value timeout : Z) (races : list Z)
  | AR_unschedule (t : Z)
  | AR_finish (t : Z)
  | AR_timer (h : Z).

Definition a_perform (r : ARequest) s : option State :=
  match r with
  | AR_create t p pid => match Arbiter.CreateThread s t p pid with inl s => Some s | inr _ => Some s end
  | AR_start t => g ← Start (sched s) t; Some (with_sched s g)
  | AR_store address v => Some (with_memory s (<[address := v]> (memory s)))
  | AR_signal address ty value num races => fst <$> svc_SignalToAddress s address ty value num races
  | AR_wait t address ty value timeout races => fst <$> svc_WaitForAddress s t address ty value timeout races
  | AR_unschedule t => wait_unschedule s t
  | AR_finish t => fst <$> wait_finish s t
  | AR_timer h => TimeManagerCallback (with_events s (filter (fun x => x <> h) (time_events s)) (cancelled_events s)) h
  end.

(** A thread calls when it is in no call, and goes on with a call when it does
    not sleep; the arguments of the calls have their types. *)
Definition a_allowed (r : ARequest) s : Prop :=
  match r with
  | AR_create t p pid => waiters s !! t = None /\ t <> HandleTable.InvalidHandle /\ 0 <= p < 63 /\ 0 <= pid < 4
  | AR_start t => exists w, waiters s !! t = Some w /\ frame w = F_none
  | AR_store _ v => is_u32 v
  | AR_signal _ ty value num races => Forall is_u32 races /\ - 2 ^ 31 <= num < 2 ^ 31 /\ - 2 ^ 31 <= value < 2 ^ 31
  | AR_wait t _ _ _ _ _ => exists w, waiters s !! t = Some w /\ frame w = F_none
  | AR_unschedule t => (exists w h, waiters s !! t = Some w /\ frame w = F_wait h) /\ exists th, threads (sched s) !! t = Some th /\ status th <> WaitArb
  | AR_finish t => exists w, waiters s !! t = Some w /\ frame w = F_woken
  | AR_timer h => h ∈ time_events s
  end.

(** The requests whose signed arithmetic overflows. *)
Definition a_overflows (r : ARequest) s : bool :=
  match r with
  | AR_signal address ty value num _ => signal_overflows s address ty value num
  | AR_wait t address ty value _ races => wait_overflows s t address ty value races
  | _ => false
  end.

Inductive arb_run : State -> Prop :=
  | arb_run_new : arb_run State_new
  | arb_run_request s r s' : arb_run s -> a_allowed r s -> a_perform r s = Some s' -> arb_run s'.

Lemma new_arb_ok : arb_ok State_new.
Proof.
  split; [exact new_sched_ok|..].
  - intros t. split; intros [x Hx]; cbn in Hx; by apply lookup_empty_Some in Hx.
  - intros a t. split; [intros H; by apply not_elem_of_nil in H|intros (w & Hw & _); cbn in Hw; by apply lookup_empty_Some in Hw].
  - intros a. constructor.
  - constructor.
  - intros t H. by apply not_elem_of_nil in H.
  - intros t th w _ Hw. cbn in Hw. by apply lookup_empty_Some in Hw.
  - intros a v Hv. cbn in Hv. by apply lookup_empty_Some in Hv.
Qed.

Lemma a_overflow_undefined r s : arb_ok s -> a_allowed r s -> a_overflows r s = true -> a_perform r s = None.
Proof.
  intros Hs Ha Ho. destruct r; cbn [a_perform a_allowed a_overflows] in *; try done.
  - destruct Ha as (_ & H2 & H3). by rewrite signal_overflow_undefined.
  - destruct Ha as (w & Hw & _). by rewrite (wait_overflow_undefined s t w).
Qed.

Lemma a_perform_ok r s : arb_ok s -> a_allowed r s -> a_overflows r s = false -> exists s', a_perform r s = Some s' /\ arb_ok s'.
Proof.
  intros Hs Ha Hov. destruct r; cbn [a_perform a_allowed a_overflows] in *.
  - destruct Ha as (H1 & H2 & H3 & H4). destruct (arb_create_ok s t _ _ Hs H1 H2 H3 H4) as (s' & -> & Hs'). eauto.
  - destruct Ha as (w & Hw & Hf). destruct (arb_start_ok s t w Hs Hw Hf) as (g & -> & Hs'). cbn. eauto.
  - eexists. split; [done|]. by apply word_store.
  - destruct Ha as (H1 & H2 & H3). destruct (signal_ok s address ty value num_to_wake races Hs H1 H2 H3 Hov) as (s' & r & -> & Hs' & _). cbn. eauto.
  - destruct Ha as (w & Hw & Hf). destruct (wait_ok s t w address ty value timeout races Hs Hw Hf Hov) as (s' & r & -> & Hs' & _). cbn. eauto.
  - destruct Ha as ((w & h & Hw & Hf) & th & Hth & Hst). destruct (unschedule_ok s t th w h Hs Hth Hst Hw Hf) as (s' & -> & Hs' & _). eauto.
  - destruct Ha as (w & Hw & Hf). destruct (wait_finish_ok s t w Hs Hw Hf) as (s' & -> & Hs' & _). cbn. eauto.
  - destruct (timer_ok s h Hs Ha) as (s' & -> & Hs' & _). eauto.
Qed.
Lemma arb_run_ok s : arb_run s -> arb_ok s.
Proof.
  induction 1 as [|s r s' Hrun IH Ha E]; [apply new_arb_ok|].
  destruct (a_overflows r s) eqn:Eo; [by rewrite a_overflow_undefined in E|]. destruct (a_perform_ok r s IH Ha Eo) as (s2 & E2 & H2). by rewrite E in E2; injection E2 as ->.
Qed.

(** C11: in every state that creations, stores of the guest, signals, waits and
    time events can reach, in any order and with other cores that write to the
    words in between: a thread that sleeps in [WaitForAddress] is in the list
    of its address and in no other one, once, so that a signal finds it, and
    has its time event when the call has a timeout; a time event belongs to a
    thread that is in its call, so that it never wakes another wait; a call
    that ends returns success exactly when a signal took the thread out of the
    list, the timeout otherwise; and every further operation returns, except
    for exactly those whose signed arithmetic overflows, which is undefined:
    the decrement of -2^31 by [WaitForAddress], the increment of 2^31 - 1 or
    decrement of -2^31 by [SignalToAddress] that modifies by the number of
    waiting threads.  Threads have priorities 0 to 62 and processors 0 to 3. *)
Theorem arbiter_loses_no_thread s : arb_run s ->
  (forall t th w, threads (sched s) !! t = Some th -> waiters s !! t = Some w -> status th = WaitArb ->
     (forall a, t ∈ list_at s a <-> a = arb_wait_address w) /\ NoDup (list_at s (arb_wait_address w))
     /\ (frame w = F_wait t -> t ∈ time_events s) /\ (frame w = F_wait t \/ frame w = F_wait HandleTable.InvalidHandle))
  /\ (forall t, t ∈ time_events s -> exists w, waiters s !! t = Some w /\ frame w = F_wait t)
  /\ (forall t w, waiters s !! t = Some w -> frame w = F_woken -> exists s',
        wait_finish s t = Some (s', if waiting_for_arbitration w then RESULT_TIMEOUT else RESULT_SUCCESS) /\ forall a, t ∉ list_at s' a)
  /\ forall r, a_allowed r s -> (a_perform r s = None <-> a_overflows r s = true).
Proof.
  intros Hrun. pose proof (arb_run_ok s Hrun) as Hs. split; [|split; [|split]].
  - intros t th w Hth Hw Hst. pose proof (ao_waiter s Hs t th w Hth Hw) as [H1 H2 H3 H4 H5 H6 H7]. destruct (H7 Hst) as (Hwt & h & Hf & Hev). split; [|split; [apply (ao_nodup s Hs)|split]].
    + intros a. rewrite (ao_list s Hs a t). split; [intros (w2 & E & _ & Ha); congruence|intros ->; eauto].
    + intros E. apply Hev. congruence.
    + destruct (H6 h Hf) as [->|[-> _]]; auto.
  - intros t Ht. destruct (ao_known s Hs t Ht) as [w Hw]. destruct (thread_of s t w Hs Hw) as [th Hth]. exists w. split; [done|]. by apply (wo_event _ _ _ _ _ (ao_waiter s Hs t th w Hth Hw)).
  - intros t w Hw Hf. destruct (wait_finish_ok s t w Hs Hw Hf) as (s' & E & _ & Hl). eauto.
  - intros r Ha. destruct (a_overflows r s) eqn:Eo; [by rewrite (a_overflow_undefined r s)|]. by destruct (a_perform_ok r s Hs Ha Eo) as (s' & -> & _).
Qed.

(** C12: [SignalToAddress] with signed words for the value and the number of
    threads, on every reachable state, is undefined exactly when it modifies
    the word by the number of waiting threads, the word is the value, and the
    value plus the change overflows; otherwise it returns.  It refuses kernel
    addresses, unaligned addresses, unknown types and, for the types that look
    at the word, addresses without memory and words that differ from the value,
    also when another core changes the word in between; then nothing but that
    word has changed.  Otherwise it wakes exactly the first threads of the list
    of the address, as many as asked for or all, each with success, leaves the
    others in place, and the word becomes the value plus one for the increment,
    or, by the number of waiting threads, plus one, minus one or the same. *)
Theorem signal_wakes_first s address ty value num races : arb_run s -> Forall is_u32 races -> - 2 ^ 31 <= num < 2 ^ 31 -> - 2 ^ 31 <= value < 2 ^ 31 ->
  if signal_overflows s address ty value num then svc_SignalToAddress s address ty value num races = None
  else exists s' r, svc_SignalToAddress s address ty value num races = Some (s', r) /\ signal_spec s address ty value num races s' r.
Proof.
  intros Hrun H1 H2 H3. pose proof (arb_run_ok s Hrun) as Hs. destruct (signal_overflows s address ty value num) eqn:Eo; [by apply signal_overflow_undefined|].
  destruct (signal_ok s address ty value num races Hs H1 H2 H3 Eo) as (s' & r & E & _ & H). eauto.
Qed.

(** ** Two threads at an address *)

Definition sample_waits : list ARequest :=
  [AR_create 10 44 0; AR_create 11 44 1; AR_store 0x1000 5; AR_wait 10 0x1000 2 5 1000 []; AR_wait 11 0x1000 1 6 (-1) [5]].
Definition sample_arbiter : option State := foldl (fun (st : option State) r => s ← st; a_perform r s) (Some State_new) sample_waits.

Lemma sample_arbiter_run : exists s, sample_arbiter = Some s /\ arb_run s /\ signal_overflows s 0x1000 2 4 1 = false.
Proof.
  eexists. split; [vm_compute; reflexivity|]. split; [|vm_compute; reflexivity].
  eapply (arb_run_request _ (AR_wait 11 0x1000 1 6 (-1) [5])); [eapply (arb_run_request _ (AR_wait 10 0x1000 2 5 1000 [])); [eapply (arb_run_request _ (AR_store 0x1000 5));
    [eapply (arb_run_request _ (AR_create 11 44 1)); [eapply (arb_run_request _ (AR_create 10 44 0)); [apply arb_run_new|..]|..]|..]|..]|..];
    try match goal with |- a_perform _ _ = _ => vm_compute; reflexivity end.
  - split; [reflexivity|]. split; [discriminate|lia].
  - split; [vm_compute; reflexivity|]. split; [discriminate|lia].
  - cbn [a_allowed]. unfold is_u32. lia.
  - eexists. split; [vm_compute; reflexivity|reflexivity].
  - eexists. split; [vm_compute; reflexivity|reflexivity].
Qed.

Lemma arbiter_loses_no_thread_witness : exists s, sample_arbiter = Some s /\ arb_run s /\ a_perform (AR_signal 0x1000 2 4 1 []) s <> None.
Proof.
  destruct sample_arbiter_run as (s & E & Hrun & Ho). exists s. split; [exact E|]. split; [exact Hrun|].
  destruct (arbiter_loses_no_thread s Hrun) as (_ & _ & _ & H). specialize (H (AR_signal 0x1000 2 4 1 [])). cbn [a_overflows] in H. rewrite Ho in H.
  intros Hn. apply H in Hn; [discriminate Hn|]. split; [constructor|]. split; lia.
Defined.

Lemma signal_wakes_first_witness : exists s s' r, sample_arbiter = Some s /\ svc_SignalToAddress s 0x1000 2 4 1 [4] = Some (s', r) /\ signal_spec s 0x1000 2 4 1 [4] s' r.
Proof.
  destruct sample_arbiter_run as (s & E & Hrun & Ho). exists s.
  pose proof (signal_wakes_first s 0x1000 2 4 1 [4] Hrun ltac:(repeat constructor; unfold is_u32; lia) ltac:(lia) ltac:(lia)) as H. rewrite Ho in H.
  destruct H as (s' & r & Es & Hspec). exists s', r. split; [exact E|]. split; [exact Es|exact Hspec].
Defined.

(** The thread that came last is the first of those of its priority. *)
Example equal_priorities_last_first : (s ← sample_arbiter; '(s', r) ← svc_SignalToAddress s 0x1000 2 4 1 [4]; Some (list_at s 0x1000, list_at s' 0x1000, memory s' !! 0x1000, r))
  = Some ([11; 10], [10], Some 4, RESULT_SUCCESS).
Proof. by vm_compute. Qed.

(** ** Departures *)

(** Thread 11 of the sample asked for a wait while the word is below 6.  When
    another core writes 7 after the test, the word is decremented all the same
    and the thread sleeps. *)
Lemma decrement_without_test :
  (s ← foldl (fun (st : option State) r => s ← st; a_perform r s) (Some State_new) [AR_create 11 44 1; AR_store 0x1000 5];
   '(s', r) ← svc_WaitForAddress s 11 0x1000 1 6 (-1) [7]; Some (memory s' !! 0x1000, r)) = Some (Some 6, None).
Proof. by vm_compute. Qed.

(** The smallest word is decremented below the range of its type. *)
Lemma decrement_undefined :
  (s ← foldl (fun (st : option State) r => s ← st; a_perform r s) (Some State_new) [AR_create 11 44 1; AR_store 0x1000 (2 ^ 31)];
   svc_WaitForAddress s 11 0x1000 1 6 (-1) []) = None.
Proof. by vm_compute. Qed.

(** Without threads that wait, the largest value plus one is not a signed
    word. *)
Lemma modify_overflow_undefined :
  (s ← foldl (fun (st : option State) r => s ← st; a_perform r s) (Some State_new) [AR_store 0x1000 (2 ^ 31 - 1)];
   svc_SignalToAddress s 0x1000 2 (2 ^ 31 - 1) 1 []) = None.
Proof. by vm_compute. Qed.
