(* ===== verification/Synchronization.v ===== *)
(** * Waiting for kernel objects

    [Synchronization] ([src/src/core/hle/kernel/synchronization.cpp]), the
    waiting threads of [SynchronizationObject] ([synchronization_object.cpp]),
    events ([readable_event.cpp], [writable_event.cpp]) and
    [Thread::CancelWait], over the threads of [Scheduler].  What runs under the
    scheduler lock is one step.  [WaitFor] is three steps: up to the point
    where the thread sleeps, the part without the lock after it woke up, and
    the end; [Signal] of an event is three steps, since it tests and sets the
    flag without the lock.  [frame] and [signallers] are where the calls are.
    Objects are the ones that [IsSignaled] by their flag.  The time event of a
    wait is the step [WaitFor_timeout]; that it does not outlive the call is
    shown with [AddressArbiter].  [None]: a null pointer or an undefined
    operation of the scheduler. *)

From S2P Require Import Prelude KernelObject HandleTable Scheduler Mutex.
From stdpp Require Import base list gmap.
Open Scope Z_scope.
Open Scope c_scope.
Import Sched.

Module Sync.

Record SynchronizationObject := { is_signaled : bool; waiting_threads : list Z }.
Definition set_signaled (o : SynchronizationObject) (b : bool) : SynchronizationObject := {| is_signaled := b; waiting_threads := waiting_threads o |}.
Definition with_waiting (o : SynchronizationObject) (l : list Z) : SynchronizationObject := {| is_signaled := is_signaled o; waiting_threads := l |}.

Definition AddWaitingThread (o : SynchronizationObject) (t : Z) : SynchronizationObject :=
  if decide (t ∈ waiting_threads o) then o else with_waiting o (waiting_threads o ++ [t]).
Definition RemoveWaitingThread (o : SynchronizationObject) (t : Z) : SynchronizationObject :=
  with_waiting o (default (waiting_threads o) (Mutex.erase_first (waiting_threads o) t)).
Definition ClearWaitingThreads (o : SynchronizationObject) : SynchronizationObject := with_waiting o [].

(** A call of [WaitFor] and its argument. *)
Inductive Frame := F_none | F_wait (sync_objects : list Z) | F_woken (sync_objects : list Z).

(** The fields of a thread that synchronisation uses. *)
Record Waiter := {
  signaling_object : option Z;
  signaling_result : Z;
  is_waiting_on_sync : bool;
  is_sync_cancelled : bool;
  frame : Frame
}.
Definition SetSynchronizationResults (w : Waiter) (object : option Z) (result : Z) : Waiter :=
  {| signaling_object := object; signaling_result := result; is_waiting_on_sync := is_waiting_on_sync w;
     is_sync_cancelled := is_sync_cancelled w; frame := frame w |}.
Definition SetWaitingSync (w : Waiter) (b : bool) : Waiter :=
  {| signaling_object := signaling_object w; signaling_result := signaling_result w; is_waiting_on_sync := b;
     is_sync_cancelled := is_sync_cancelled w; frame := frame w |}.
Definition SetSyncCancelled (w : Waiter) (b : bool) : Waiter :=
  {| signaling_object := signaling_object w; signaling_result := signaling_result w; is_waiting_on_sync := is_waiting_on_sync w;
     is_sync_cancelled := b; frame := frame w |}.
Definition with_frame (w : Waiter) (f : Frame) : Waiter :=
  {| signaling_object := signaling_object w; signaling_result := signaling_result w; is_waiting_on_sync := is_waiting_on_sync w;
     is_sync_cancelled := is_sync_cancelled w; frame := f |}.

(** The steps of [ReadableEvent::Signal]: after the test of the flag, after
    the flag has been set. *)
Inductive SignalStep := S_set | S_object.
#[export] Instance SignalStep_eq_dec : EqDecision SignalStep.
Proof. solve_decision. Defined.

Record State := {
  sched : GlobalScheduler;
  waiters : gmap Z Waiter;
  objects : gmap Z SynchronizationObject;
  signallers : gmap Z (Z * SignalStep)
}.
Definition with_sched (s : State) (g : GlobalScheduler) : State :=
  {| sched := g; waiters := waiters s; objects := objects s; signallers := signallers s |}.
Definition set_waiter (s : State) (t : Z) (w : Waiter) : State :=
  {| sched := sched s; waiters := <[t := w]> (waiters s); objects := objects s; signallers := signallers s |}.
Definition set_object (s : State) (o : Z) (x : SynchronizationObject) : State :=
  {| sched := sched s; waiters := waiters s; objects := <[o := x]> (objects s); signallers := signallers s |}.
Definition with_signallers (s : State) (m : gmap Z (Z * SignalStep)) : State :=
  {| sched := sched s; waiters := waiters s; objects := objects s; signallers := m |}.

Definition State_new : State := {| sched := GlobalScheduler_new; waiters := ∅; objects := ∅; signallers := ∅ |}.
Definition CreateThread (s : State) (t priority processor_id : Z) : State + Z :=
  match Create priority processor_id with
  | inl th => inl (set_waiter (with_sched s (set_thread (sched s) t th)) t
      {| signaling_object := None; signaling_result := RESULT_SUCCESS; is_waiting_on_sync := false; is_sync_cancelled := false; frame := F_none |})
  | inr e => inr e
  end.
(** [CreateEventPair]: the readable event. *)
Definition CreateEvent (s : State) (o : Z) : State := set_object s o {| is_signaled := false; waiting_threads := [] |}.

(** ** Signals *)

Definition signal_thread (s : State) (o t : Z) : option State :=
  th ← threads (sched s) !! t;
  if GetSchedulingStatus th =? SchedStatus_Paused then
    w ← waiters s !! t;
    let s := set_waiter s t (SetSynchronizationResults w (Some o) RESULT_SUCCESS) in
    g ← ResumeFromWait (sched s) t;
    Some (with_sched s g)
  else Some s.
Fixpoint signal_loop (s : State) (o : Z) (l : list Z) : option State :=
  match l with
  | [] => Some s
  | t :: l => s ← signal_thread s o t; signal_loop s o l
  end.
Definition SignalObject (s : State) (o : Z) : option State :=
  x ← objects s !! o;
  if is_signaled x then
    s ← signal_loop s o (waiting_threads x);
    x ← objects s !! o;
    Some (set_object s o (ClearWaitingThreads x))
  else Some s.

(** [ReadableEvent::Signal] of the object [o] by the host thread [c]. *)
Definition Signal_begin (s : State) (c o : Z) : option State :=
  x ← objects s !! o;
  Some (if is_signaled x then s else with_signallers s (<[c := (o, S_set)]> (signallers s))).
Definition Signal_set (s : State) (c : Z) : option State :=
  '(o, _) ← signallers s !! c;
  x ← objects s !! o;
  Some (with_signallers (set_object s o (set_signaled x true)) (<[c := (o, S_object)]> (signallers s))).
Definition Signal_object (s : State) (c : Z) : option State :=
  '(o, _) ← signallers s !! c;
  s ← SignalObject s o;
  Some (with_signallers s (delete c (signallers s))).
Definition Clear (s : State) (o : Z) : option State := x ← objects s !! o; Some (set_object s o (set_signaled x false)).
Definition Reset (s : State) (o : Z) : option (State * Z) :=
  x ← objects s !! o;
  if negb (is_signaled x) then Some (s, ERR_INVALID_STATE)
  else s ← Clear s o; Some (s, RESULT_SUCCESS).

(** ** Waits *)

(** The index of the first signaled object. *)
Fixpoint find_signaled (s : State) (l : list Z) (i : Z) : option (option Z) :=
  match l with
  | [] => Some None
  | o :: l => x ← objects s !! o; if is_signaled x then Some (Some i) else find_signaled s l (i + 1)
  end.
Fixpoint on_objects (f : SynchronizationObject -> SynchronizationObject) (l : list Z) (s : State) : option State :=
  match l with
  | [] => Some s
  | o :: l => x ← objects s !! o; on_objects f l (set_object s o (f x))
  end.

(** The result and the index, or [None] for a thread that sleeps. *)
Definition WaitFor (s : State) (this : Z) (sync_objects : list Z) (nano_seconds : Z) : option (State * option (Z * Z)) :=
  found ← find_signaled s sync_objects 0;
  match found with
  | Some index => Some (s, Some (RESULT_SUCCESS, index))
  | None =>
      if nano_seconds =? 0 then Some (s, Some (RESULT_TIMEOUT, HandleTable.InvalidHandle))
      else
        th ← threads (sched s) !! this;
        if IsPendingTermination th then Some (s, Some (ERR_THREAD_TERMINATING, HandleTable.InvalidHandle))
        else
          w ← waiters s !! this;
          if is_sync_cancelled w
          then Some (set_waiter s this (SetSyncCancelled w false), Some (ERR_SYNCHRONIZATION_CANCELED, HandleTable.InvalidHandle))
          else
            s ← on_objects (fun x => AddWaitingThread x this) sync_objects s;
            let w := with_frame (SetSynchronizationResults w None RESULT_TIMEOUT) (F_wait sync_objects) in
            g ← SetStatus (sched s) this WaitSynch;
            Some (set_waiter (with_sched s g) this (SetWaitingSync w true), None)
  end.
(** The callback of the time event. *)
Definition WaitFor_timeout (s : State) (this : Z) : option State := g ← OnWakeUp (sched s) this; Some (with_sched s g).
Definition WaitFor_woken (s : State) (this : Z) : option State :=
  w ← waiters s !! this;
  match frame w with
  | F_wait l => Some (set_waiter s this (with_frame (SetWaitingSync w false) (F_woken l)))
  | _ => None
  end.

Fixpoint index_of (o : Z) (l : list Z) (i : Z) : Z :=
  match l with
  | [] => i
  | x :: l => if x =? o then i else index_of o l (i + 1)
  end.
Definition WaitFor_finish (s : State) (this : Z) : option (State * (Z * Z)) :=
  w ← waiters s !! this;
  match frame w with
  | F_woken l =>
      s ← on_objects (fun x => RemoveWaitingThread x this) l s;
      let index := match signaling_object w with Some o => to_u32 (index_of o l 0) | None => to_u32 (-1) end in
      Some (set_waiter s this (with_frame w F_none), (signaling_result w, index))
  | _ => None
  end.

Definition CancelWait (s : State) (t : Z) : option State :=
  th ← threads (sched s) !! t;
  w ← waiters s !! t;
  if negb (GetSchedulingStatus th =? SchedStatus_Paused) || negb (is_waiting_on_sync w) then Some (set_waiter s t (SetSyncCancelled w true))
  else
    let w := SetSynchronizationResults (SetSyncCancelled w false) None ERR_SYNCHRONIZATION_CANCELED in
    g ← SetStatus (sched s) t Ready;
    Some (set_waiter (with_sched s g) t w).
End Sync.
