(* ===== verification/SynchronizationCorrect.v ===== *)
(** * No lost wake-ups

    The operations of [Synchronization] on every state they can reach, with
    signals, clears, waits, timeouts and cancellations of any threads
    interleaved at the points where the code does not hold the scheduler lock:
    no thread sleeps on a signaled object unless a signal of the object is
    under way, which wakes it. *)

From S2P Require Import Prelude KernelObject HandleTable Scheduler SchedulerQueues SchedulerCorrect SchedulerSelect Mutex MutexCorrect Synchronization.
From stdpp Require Import base list gmap.
Open Scope Z_scope.
Open Scope c_scope.
Import Sched Sync.
Implicit Types (s : State) (w : Sync.Waiter) (t u o c : Z) (l : list Z).

(** ** Status and scheduling state *)

Definition consistent (th : Thread) : Prop := GetSchedulingStatus th = sched_status_of (status th).

Lemma low_status x st : ((x .& HighMask) .| sched_status_of st) .& LowMask = sched_status_of st.
Proof. rewrite Z.land_lor_distr_l, <- Z.land_assoc. change (HighMask .& LowMask) with 0. rewrite Z.land_0_r, Z.lor_0_l. by destruct st. Qed.

Lemma status_exact g t th st : sched_ok g -> threads g !! t = Some th -> consistent th ->
  exists g' th', SetStatus g t st = Some g' /\ sched_ok g' /\ threads g' = <[t := th']> (threads g) /\ status th' = st /\ consistent th'.
Proof.
  intros Hg Ht Hc. destruct (set_status_ok g t th st Hg Ht) as (g' & x & E & Hg' & Et). exists g'. destruct (decide (st = status th)) as [->|Hne].
  - exists th. unfold SetStatus in E. rewrite Ht in E. cbn [mbind option_bind] in E. rewrite decide_True in E by done. injection E as <-. split; [unfold SetStatus; rewrite Ht; cbn; by rewrite decide_True|].
    split; [done|]. by rewrite insert_id.
  - eexists. split; [done|]. split; [done|]. split; [exact Et|]. split; [done|]. unfold SetStatus in E. rewrite Ht in E. cbn [mbind option_bind] in E. rewrite decide_False in E by done.
    unfold SetSchedulingStatus in E. rewrite Ht in E. cbn [mbind option_bind] in E.
    destruct (adjust_status_ok g t th ((scheduling_state th .& HighMask) .| sched_status_of st) (pausing_state th) Hg Ht) as (g1 & E1 & _ & Et1). rewrite E1 in E. cbn [mbind option_bind] in E.
    rewrite Et1, lookup_insert_eq in E. cbn [mbind option_bind] in E. injection E as <-. cbn [set_thread with_threads threads] in Et. rewrite Et1, insert_insert_eq in Et.
    apply (f_equal (fun m : gmap Z Thread => m !! t)) in Et. rewrite !lookup_insert_eq in Et. injection Et as E2. unfold consistent, GetSchedulingStatus. cbn. rewrite <- E2. apply low_status.
Qed.
Lemma resume_exact g t th : sched_ok g -> threads g !! t = Some th -> consistent th ->
  exists g' th', ResumeFromWait g t = Some g' /\ sched_ok g' /\ threads g' = <[t := th']> (threads g) /\ consistent th' /\ status th' <> WaitSynch /\ (status th = WaitSynch -> status th' = Ready).
Proof.
  intros Hg Ht Hc. unfold ResumeFromWait. rewrite Ht. cbn [mbind option_bind]. destruct (status_exact g t th Ready Hg Ht Hc) as (g' & th' & E & Hg' & Et & Est & Hc').
  destruct (status th) eqn:Ests; try (exists g', th'; split; [exact E|]; split_and!; try done; congruence);
    (exists g, th; split; [done|]; split; [done|]; split; [by rewrite insert_id|]; split_and!; try done; congruence).
Qed.

(** ** The invariant *)

Definition waits_on w : list Z := match frame w with F_none => [] | F_wait l | F_woken l => l end.

(** An object that a sleeping thread waits for. *)
Definition sleeps_on (O : gmap Z SynchronizationObject) (S : gmap Z (Z * SignalStep)) t o : Prop :=
  exists x, O !! o = Some x /\ (t ∈ waiting_threads x) /\ (is_signaled x = true -> exists c, S !! c = Some (o, S_object)).

Record thread_sync t (th : Thread) w (O : gmap Z SynchronizationObject) (S : gmap Z (Z * SignalStep)) : Prop := {
  ts_state : consistent th;
  ts_flag : is_waiting_on_sync w = true <-> exists l, frame w = F_wait l;
  ts_asleep : status th = WaitSynch -> exists l, frame w = F_wait l /\ signaling_object w = None /\ forall o, o ∈ l -> sleeps_on O S t o;
  ts_object o : frame w <> F_none -> signaling_object w = Some o -> (o ∈ waits_on w) /\ signaling_result w = RESULT_SUCCESS;
  ts_none : frame w <> F_none -> signaling_object w = None -> signaling_result w = RESULT_TIMEOUT \/ signaling_result w = ERR_SYNCHRONIZATION_CANCELED
}.

Record sync_ok s : Prop := {
  ss_sched : sched_ok (sched s);
  ss_dom t : is_Some (waiters s !! t) <-> is_Some (threads (sched s) !! t);
  ss_list o x t : objects s !! o = Some x -> t ∈ waiting_threads x -> exists w, waiters s !! t = Some w /\ o ∈ waits_on w;
  ss_nodup o x : objects s !! o = Some x -> NoDup (waiting_threads x);
  ss_known t w o : waiters s !! t = Some w -> o ∈ waits_on w -> is_Some (objects s !! o);
  ss_signaller c o st : signallers s !! c = Some (o, st) -> is_Some (objects s !! o);
  ss_thread t th w : threads (sched s) !! t = Some th -> waiters s !! t = Some w -> thread_sync t th w (objects s) (signallers s)
}.

Lemma sync_thread s t w : sync_ok s -> waiters s !! t = Some w -> exists th, threads (sched s) !! t = Some th.
Proof. intros Hs Hw. apply (ss_dom s Hs t). eauto. Qed.

(** The same objects for the threads other than [t]. *)
Definition like_object t (x x' : SynchronizationObject) : Prop :=
  is_signaled x' = is_signaled x /\ NoDup (waiting_threads x') /\ forall u, u <> t -> u ∈ waiting_threads x' <-> u ∈ waiting_threads x.

Lemma sleeps_like O O' S t u o x x' : u <> t -> O !! o = Some x -> O' !! o = Some x' -> like_object t x x' -> sleeps_on O S u o -> sleeps_on O' S u o.
Proof. intros Hu Hx Hx' (E & _ & Hin) (y & Hy & Hm & Hs). simplify_eq. exists x'. split; [done|]. split; [by apply Hin|]. by rewrite E. Qed.

(** A change of one thread and of its place in the lists. *)
Lemma sync_update s s' t w w' th th' : sync_ok s -> waiters s !! t = Some w -> threads (sched s) !! t = Some th ->
  sched_ok (sched s') -> threads (sched s') = <[t := th']> (threads (sched s)) -> waiters s' = <[t := w']> (waiters s) -> signallers s' = signallers s ->
  (forall o x, objects s !! o = Some x -> exists x', objects s' !! o = Some x' /\ like_object t x x' /\ (t ∈ waiting_threads x' -> o ∈ waits_on w')) ->
  (forall o, is_Some (objects s' !! o) -> is_Some (objects s !! o)) -> (forall o, o ∈ waits_on w' -> is_Some (objects s !! o)) ->
  thread_sync t th' w' (objects s') (signallers s') -> sync_ok s'.
Proof.
  intros Hs Hw Hth Hg Et Ew ES Ho Ho' Hk Hok.
  assert (forall o, is_Some (objects s !! o) -> is_Some (objects s' !! o)) as Hsome by (intros o [x Hx]; destruct (Ho o x Hx) as (x' & ? & _); eauto).
  assert (forall o x', objects s' !! o = Some x' -> exists x, objects s !! o = Some x /\ like_object t x x' /\ (t ∈ waiting_threads x' -> o ∈ waits_on w')) as Hback.
  { intros o x' Hx'. destruct (Ho' o ltac:(eauto)) as [x Hx]. destruct (Ho o x Hx) as (y & Hy & H). simplify_eq. eauto. }
  split; [done|..].
  - intros u. rewrite Et, Ew, !lookup_insert_is_Some', (ss_dom s Hs u). done.
  - intros o x' u Hx' Hu. destruct (Hback o x' Hx') as (x & Hx & (_ & _ & Hin) & Hl). rewrite Ew. destruct (decide (u = t)) as [->|Hne]; [rewrite lookup_insert_eq; eauto|].
    rewrite lookup_insert_ne by done. apply (ss_list s Hs o x u Hx). by apply Hin.
  - intros o x' Hx'. by destruct (Hback o x' Hx') as (x & Hx & (_ & ? & _) & _).
  - intros u wu o. rewrite Ew. destruct (decide (u = t)) as [->|Hne]; [rewrite lookup_insert_eq; intros [= <-] Hu; apply Hsome; auto|]. rewrite lookup_insert_ne by done.
    intros Hwu Hu. apply Hsome. by apply (ss_known s Hs u wu).
  - intros c o st. rewrite ES. intros Hc. apply Hsome. by apply (ss_signaller s Hs c o st).
  - intros u uh wu. rewrite Et, Ew. destruct (decide (u = t)) as [->|Hne]; [rewrite !lookup_insert_eq; by intros [= <-] [= <-]|]. rewrite !lookup_insert_ne by done.
    intros Huh Hwu. pose proof (ss_thread s Hs u uh wu Huh Hwu) as [H1 H2 H3 H4 H5]. split; try done. intros Hst. destruct (H3 Hst) as (l & Hf & Hso & Hl). exists l. split; [done|]. split; [done|].
    intros o Hol. pose proof (Hl o Hol) as Hsl. destruct Hsl as (x & Hx & ?). destruct (Ho o x Hx) as (x' & Hx' & Hlike & _). rewrite ES. by apply (sleeps_like (objects s) _ _ t u o x x'); [..|apply Hl].
Qed.

(** A change of a thread that keeps its lists. *)
Lemma sync_update_thread s g t w w' th th' : sync_ok s -> waiters s !! t = Some w -> threads (sched s) !! t = Some th ->
  sched_ok g -> threads g = <[t := th']> (threads (sched s)) -> waits_on w' = waits_on w -> thread_sync t th' w' (objects s) (signallers s) ->
  sync_ok (set_waiter (with_sched s g) t w').
Proof.
  intros Hs Hw Hth Hg Et Ewo Hok. apply (sync_update s _ t w w' th th'); try done.
  - intros o x Hx. exists x. split; [done|]. split; [split; [done|]; split; [by apply (ss_nodup s Hs o)|done]|]. intros Ht. destruct (ss_list s Hs o x t Hx Ht) as (w2 & E & Hin). simplify_eq. by rewrite Ewo.
  - intros o Ho. rewrite Ewo in Ho. by apply (ss_known s Hs t w).
Qed.

(** ** Signals *)

(** What a signal of [o] does to a thread [t] of its list. *)
Definition signal_woken s s' o t : Prop :=
  forall th, threads (sched s) !! t = Some th -> status th = WaitSynch -> exists th' w', threads (sched s') !! t = Some th' /\ waiters s' !! t = Some w'
    /\ status th' = Ready /\ signaling_object w' = Some o /\ signaling_result w' = RESULT_SUCCESS.

Lemma signal_thread_ok s o t w th : sync_ok s -> waiters s !! t = Some w -> threads (sched s) !! t = Some th -> o ∈ waits_on w ->
  exists s', signal_thread s o t = Some s' /\ sync_ok s' /\ objects s' = objects s /\ signallers s' = signallers s /\ signal_woken s s' o t
    /\ (forall th', threads (sched s') !! t = Some th' -> status th' <> WaitSynch)
    /\ (exists w', waiters s' !! t = Some w' /\ waits_on w' = waits_on w) /\ forall u, u <> t -> waiters s' !! u = waiters s !! u /\ threads (sched s') !! u = threads (sched s) !! u.
Proof.
  intros Hs Hw Hth Ho. pose proof (ss_thread s Hs t th w Hth Hw) as [H1 H2 H3 H4 H5]. unfold signal_thread. rewrite Hth. cbn [mbind option_bind].
  destruct (Z.eqb_spec (GetSchedulingStatus th) SchedStatus_Paused) as [Ep|Ep].
  - rewrite Hw. cbn [mbind option_bind]. destruct (resume_exact (sched s) t th (ss_sched s Hs) Hth H1) as (g & th' & E & Hg & Et & Hc & Hne & Hr). cbn [sched set_waiter]. rewrite E. cbn [mbind option_bind].
    set (w' := SetSynchronizationResults w (Some o) RESULT_SUCCESS). exists (set_waiter (with_sched s g) t w'). split; [done|].
    assert (threads g !! t = Some th') as Ht' by (by rewrite Et, lookup_insert_eq).
    split; [|split_and!; try done].
    + apply (sync_update_thread s g t w w' th th'); try done. split; try done. by intros o' _ [= <-].
    + intros th0 E0 Hst. rewrite Hth in E0. injection E0 as <-. exists th', w'. cbn. rewrite lookup_insert_eq. split_and!; try done. by apply Hr.
    + cbn. intros th2. rewrite Ht'. by intros [= <-].
    + exists w'. cbn. by rewrite lookup_insert_eq.
    + intros u Hu. cbn. by rewrite Et, !lookup_insert_ne.
  - assert (status th <> WaitSynch) as Hst by (intros E; apply Ep; rewrite H1, E; done). exists s. split; [done|]. split_and!; try done.
    + intros th0 E0 ?. congruence.
    + intros th'. rewrite Hth. by intros [= <-].
    + eauto.
Qed.

Lemma signal_loop_ok o l : forall s, NoDup l -> sync_ok s -> (forall t, t ∈ l -> exists w, waiters s !! t = Some w /\ o ∈ waits_on w) ->
  exists s', signal_loop s o l = Some s' /\ sync_ok s' /\ objects s' = objects s /\ signallers s' = signallers s /\ (forall t, t ∈ l -> signal_woken s s' o t)
    /\ (forall t th', t ∈ l -> threads (sched s') !! t = Some th' -> status th' <> WaitSynch)
    /\ forall u, u ∉ l -> waiters s' !! u = waiters s !! u /\ threads (sched s') !! u = threads (sched s) !! u.
Proof.
  induction l as [|t l IH]; intros s Hn Hs Hl.
  - exists s. split; [done|]. split_and!; try done; [intros t Ht|intros t th' Ht]; by apply not_elem_of_nil in Ht.
  - apply NoDup_cons in Hn as [Htl Hn]. destruct (Hl t ltac:(left)) as (w & Hw & Ho). destruct (sync_thread s t w Hs Hw) as [th Hth]. cbn [signal_loop].
    destruct (signal_thread_ok s o t w th Hs Hw Hth Ho) as (s1 & -> & Hs1 & Eo & Es & Hwk & Hst & (w1 & Hw1 & _) & Hu). cbn [mbind option_bind].
    destruct (IH s1 Hn Hs1) as (s' & -> & Hs' & Eo' & Es' & Hwk' & Hst' & Hu'). { intros u Hul. assert (u <> t) as Hut by (by intros ->). destruct (Hu u Hut) as [-> _]. apply Hl. by right. }
    exists s'. split; [done|]. split; [done|]. split; [congruence|]. split; [congruence|]. destruct (Hu' t Htl) as [Et1 Et2]. split; [|split].
    + intros u [->|Hul]%elem_of_cons.
      * intros th0 H0 Hs0. rewrite Et1, Et2. by apply (Hwk th0).
      * assert (u <> t) as Hut by (by intros ->). intros th0 H0 Hs0. apply (Hwk' u Hul th0); [|done]. by rewrite (proj2 (Hu u Hut)).
    + intros u th' [->|Hul]%elem_of_cons; [rewrite Et2; apply Hst|by apply Hst'].
    + intros u [Hut Hul]%not_elem_of_cons. destruct (Hu' u Hul) as [-> ->]. by apply Hu.
Qed.

(** Changes of one object: its flag, or an empty list. *)
Lemma sync_object s o x x' S' : sync_ok s -> objects s !! o = Some x -> NoDup (waiting_threads x') -> (forall t, t ∈ waiting_threads x' -> t ∈ waiting_threads x) ->
  (forall c o2 st, S' !! c = Some (o2, st) -> o2 = o \/ exists st', signallers s !! c = Some (o2, st')) ->
  (forall t th, threads (sched s) !! t = Some th -> status th = WaitSynch -> t ∈ waiting_threads x -> t ∈ waiting_threads x' /\ (is_signaled x' = true -> exists c, S' !! c = Some (o, S_object))) ->
  (forall o2 c, o2 <> o -> signallers s !! c = Some (o2, S_object) -> exists c', S' !! c' = Some (o2, S_object)) ->
  sync_ok (with_signallers (set_object s o x') S').
Proof.
  intros Hs Hx Hnd Hsub HS Hasl HS'. assert (forall o2, is_Some (<[o := x']> (objects s) !! o2) <-> is_Some (objects s !! o2)) as Hsome.
  { intros o2. rewrite lookup_insert_is_Some'. split; [intros [<-|?]; eauto|auto]. }
  split; try apply Hs; cbn.
  - intros o2 y t. destruct (decide (o2 = o)) as [->|Hne]; [rewrite lookup_insert_eq; intros [= <-] Ht; apply (ss_list s Hs o x); auto|rewrite lookup_insert_ne by done; apply (ss_list s Hs)].
  - intros o2 y. destruct (decide (o2 = o)) as [->|Hne]; [rewrite lookup_insert_eq; by intros [= <-]|rewrite lookup_insert_ne by done; apply (ss_nodup s Hs)].
  - intros t w o2 Hw Ho. apply Hsome. by apply (ss_known s Hs t w).
  - intros c o2 st Hc. apply Hsome. destruct (HS c o2 st Hc) as [->|(st' & ?)]; [eauto|by apply (ss_signaller s Hs c o2 st')].
  - intros t th w Hth Hw. pose proof (ss_thread s Hs t th w Hth Hw) as [H1 H2 H3 H4 H5]. split; try done. intros Hst. destruct (H3 Hst) as (l & Hf & Hso & Hl). exists l. split; [done|]. split; [done|].
    intros o2 Ho2. destruct (Hl o2 Ho2) as (y & Hy & Hin & Hsig). destruct (decide (o2 = o)) as [->|Hne].
    + simplify_eq. destruct (Hasl t th Hth Hst Hin) as [Hin' Hsig']. exists x'. by rewrite lookup_insert_eq.
    + exists y. rewrite lookup_insert_ne by done. split; [done|]. split; [done|]. intros Hy'. destruct (Hsig Hy') as [c Hc]. by apply (HS' o2 c).
Qed.

Lemma signal_object_ok s c o x : sync_ok s -> signallers s !! c = Some (o, S_object) -> objects s !! o = Some x ->
  exists s', Signal_object s c = Some s' /\ sync_ok s'
    /\ (is_signaled x = true -> forall t th w, threads (sched s) !! t = Some th -> waiters s !! t = Some w -> status th = WaitSynch -> o ∈ waits_on w -> signal_woken s s' o t).
Proof.
  intros Hs Hc Hx. unfold Signal_object, SignalObject. rewrite Hc. cbn [mbind option_bind]. rewrite Hx. cbn [mbind option_bind].
  assert (forall c' o2 st, delete c (signallers s) !! c' = Some (o2, st) -> o2 = o \/ exists st', signallers s !! c' = Some (o2, st')) as HS.
  { intros c' o2 st [_ H]%lookup_delete_Some. eauto. }
  assert (forall o2 c', o2 <> o -> signallers s !! c' = Some (o2, S_object) -> exists c2, delete c (signallers s) !! c2 = Some (o2, S_object)) as HS'.
  { intros o2 c' Hne H. exists c'. rewrite lookup_delete_ne; [done|]. intros ->. congruence. }
  destruct (is_signaled x) eqn:Esig.
  - destruct (signal_loop_ok o (waiting_threads x) s (ss_nodup s Hs o x Hx) Hs (fun t => ss_list s Hs o x t Hx)) as (s1 & -> & Hs1 & Eo & Es & Hwk & Hst & Hu). cbn [mbind option_bind].
    rewrite Eo, Hx. cbn [mbind option_bind set_object signallers]. eexists. split; [reflexivity|]. rewrite Es. split.
    + apply (sync_object s1 o x (ClearWaitingThreads x)); try done; rewrite ?Eo, ?Es; try done; [constructor|intros t Ht; by apply not_elem_of_nil in Ht|].
      intros t th Hth Hsy Ht. by destruct (Hst t th Ht Hth).
    + intros _ t th w Hth Hw Hsy Ho. destruct (ts_asleep _ _ _ _ _ (ss_thread s Hs t th w Hth Hw) Hsy) as (l & Hf & _ & Hl). unfold waits_on in Ho. rewrite Hf in Ho.
      destruct (Hl o Ho) as (y & Hy & Hin & _). simplify_eq. by apply Hwk.
  - eexists. split; [reflexivity|]. split; [|done]. assert (with_signallers s (delete c (signallers s)) = with_signallers (set_object s o x) (delete c (signallers s))) as ->.
    { unfold with_signallers, set_object. cbn. by rewrite (insert_id (objects s)). }
    apply (sync_object s o x x); try done; [by apply (ss_nodup s Hs o)|]. intros t th _ _ Ht. split; [done|congruence].
Qed.
Lemma signal_begin_ok s c o x : sync_ok s -> signallers s !! c = None -> objects s !! o = Some x -> exists s', Signal_begin s c o = Some s' /\ sync_ok s'.
Proof.
  intros Hs Hc Hx. unfold Signal_begin. rewrite Hx. cbn. eexists. split; [done|]. destruct (is_signaled x) eqn:Esig; [done|].
  assert (with_signallers s (<[c := (o, S_set)]> (signallers s)) = with_signallers (set_object s o x) (<[c := (o, S_set)]> (signallers s))) as ->.
  { unfold with_signallers, set_object. cbn. by rewrite (insert_id (objects s)). }
  apply (sync_object s o x x); try done.
  - by apply (ss_nodup s Hs o).
  - intros c' o2 st. destruct (decide (c' = c)) as [->|]; [rewrite lookup_insert_eq; intros [= <- <-]; by left|rewrite lookup_insert_ne by done; eauto].
  - intros t th _ _ Ht. split; [done|congruence].
  - intros o2 c' _ H. exists c'. rewrite lookup_insert_ne; [done|congruence].
Qed.
Lemma signal_set_ok s c o : sync_ok s -> signallers s !! c = Some (o, S_set) -> exists s', Signal_set s c = Some s' /\ sync_ok s'.
Proof.
  intros Hs Hc. destruct (ss_signaller s Hs c o S_set Hc) as [x Hx]. unfold Signal_set. rewrite Hc. cbn [mbind option_bind]. rewrite Hx. cbn [mbind option_bind]. eexists. split; [done|].
  apply (sync_object s o x (set_signaled x true)); try done.
  - exact (ss_nodup s Hs o x Hx).
  - intros c' o2 st. destruct (decide (c' = c)) as [->|]; [rewrite lookup_insert_eq; intros [= <- <-]; by left|rewrite lookup_insert_ne by done; eauto].
  - intros t th _ _ Ht. split; [done|]. intros _. exists c. by rewrite lookup_insert_eq.
  - intros o2 c' Hne H. exists c'. rewrite lookup_insert_ne; [done|congruence].
Qed.
Lemma clear_event_ok s o x : sync_ok s -> objects s !! o = Some x -> exists s', Clear s o = Some s' /\ sync_ok s'.
Proof.
  intros Hs Hx. unfold Clear. rewrite Hx. cbn. eexists. split; [done|].
  apply (sync_object s o x (set_signaled x false) (signallers s)); try done; [exact (ss_nodup s Hs o x Hx)|eauto|eauto].
Qed.

(** ** Waits *)

Lemma find_signaled_spec s l : (forall o, o ∈ l -> is_Some (objects s !! o)) -> forall i,
  exists r, find_signaled s l i = Some r /\ match r with
    | Some j => exists n o x, j = i + Z.of_nat n /\ l !! n = Some o /\ objects s !! o = Some x /\ is_signaled x = true
    | None => forall o x, o ∈ l -> objects s !! o = Some x -> is_signaled x = false
    end.
Proof.
  induction l as [|o l IH]; intros Hl i; [exists None; split; [done|]; intros o x Ho; by apply not_elem_of_nil in Ho|]. destruct (Hl o ltac:(left)) as [x Hx]. cbn [find_signaled]. rewrite Hx. cbn [mbind option_bind].
  destruct (is_signaled x) eqn:Ex; [exists (Some i); split; [done|]; exists 0%nat, o, x; split; [lia|done]|].
  destruct (IH ltac:(intros u Hu; apply Hl; by right) (i + 1)) as (r & -> & Hr). exists r. split; [done|]. destruct r as [j|].
  - destruct Hr as (n & o2 & y & -> & H). exists (S n), o2, y. split; [lia|done].
  - intros o2 y [->|Ho]%elem_of_cons Hy; [congruence|by apply (Hr o2)].
Qed.

(** A change of each object of a list that is done once or more. *)
Lemma on_objects_spec f l : (forall x, NoDup (waiting_threads x) -> f (f x) = f x) -> (forall x, NoDup (waiting_threads x) -> NoDup (waiting_threads (f x))) -> forall s,
  (forall o, o ∈ l -> is_Some (objects s !! o)) -> (forall o x, objects s !! o = Some x -> NoDup (waiting_threads x)) ->
  exists s', on_objects f l s = Some s' /\ sched s' = sched s /\ waiters s' = waiters s /\ signallers s' = signallers s
    /\ forall o, objects s' !! o = if decide (o ∈ l) then f <$> objects s !! o else objects s !! o.
Proof.
  intros Hid Hnd. induction l as [|o l IH]; intros s Hl Hn; [exists s; split_and!; try done|]. destruct (Hl o ltac:(left)) as [x Hx]. cbn [on_objects]. rewrite Hx. cbn [mbind option_bind].
  destruct (IH (set_object s o (f x))) as (s' & -> & E1 & E2 & E3 & E4).
  { intros u Hu. cbn. rewrite lookup_insert_is_Some'. right. apply Hl. by right. }
  { intros u y. cbn. destruct (decide (u = o)) as [->|]; [rewrite lookup_insert_eq; intros [= <-]; apply Hnd; by apply (Hn o)|rewrite lookup_insert_ne by done; apply Hn]. }
  exists s'. split_and!; try done. intros u. rewrite E4. cbn [set_object objects]. destruct (decide (u = o)) as [->|Hu].
  - rewrite lookup_insert_eq, (decide_True (P := o ∈ o :: l)) by left. rewrite Hx. cbn. destruct (decide (o ∈ l)); [|done]. f_equal. apply Hid. by apply (Hn o).
  - rewrite lookup_insert_ne by done. destruct (decide (u ∈ l)) as [Hul|Hul]; [by rewrite decide_True by (by right)|]. rewrite decide_False; [done|]. intros [?|?]%elem_of_cons; done.
Qed.

Lemma add_idem t x : AddWaitingThread (AddWaitingThread x t) t = AddWaitingThread x t.
Proof. unfold AddWaitingThread. destruct (decide (t ∈ waiting_threads x)) as [H|H]; [by rewrite decide_True|]. rewrite decide_True; [done|]. cbn. apply elem_of_app. right. by left. Qed.
Lemma add_like t x : NoDup (waiting_threads x) -> like_object t x (AddWaitingThread x t) /\ t ∈ waiting_threads (AddWaitingThread x t).
Proof.
  intros Hn. unfold AddWaitingThread. destruct (decide (t ∈ waiting_threads x)) as [H|H]; [by split|]. split; [split; [done|]; split|cbn; apply elem_of_app; right; by left].
  - cbn. apply NoDup_app. split; [done|]. split; [|apply NoDup_singleton]. intros u Hu ->%list_elem_of_singleton. done.
  - intros u Hu. cbn. rewrite elem_of_app, list_elem_of_singleton. tauto.
Qed.
Lemma erase_first_absent l t : t ∉ l -> Mutex.erase_first l t = None.
Proof. induction l as [|x l IH]; [done|]. intros [Hx Ht]%not_elem_of_cons. cbn. rewrite (proj2 (Z.eqb_neq x t)) by done. by rewrite IH. Qed.
Lemma remove_filter t x : NoDup (waiting_threads x) -> waiting_threads (RemoveWaitingThread x t) = filter (fun u => u <> t) (waiting_threads x).
Proof.
  intros Hn. cbn. destruct (decide (t ∈ waiting_threads x)) as [H|H]; [by rewrite erase_first_filter|]. rewrite erase_first_absent by done. cbn. symmetry. by apply filter_absent.
Qed.
Lemma remove_nodup t x : NoDup (waiting_threads x) -> NoDup (waiting_threads (RemoveWaitingThread x t)).
Proof. intros Hn. rewrite remove_filter by done. by apply NoDup_filter. Qed.
Lemma remove_idem t x : NoDup (waiting_threads x) -> RemoveWaitingThread (RemoveWaitingThread x t) t = RemoveWaitingThread x t.
Proof.
  intros Hn. unfold RemoveWaitingThread at 1. rewrite erase_first_absent; [by destruct x|]. rewrite remove_filter by done. intros [? _]%list_elem_of_filter. done.
Qed.

Lemma idle_lists s t w o x : sync_ok s -> waiters s !! t = Some w -> frame w = F_none -> objects s !! o = Some x -> t ∉ waiting_threads x.
Proof. intros Hs Hw Hf Hx Ht. destruct (ss_list s Hs o x t Hx Ht) as (w2 & E & H). simplify_eq. unfold waits_on in H. rewrite Hf in H. by apply not_elem_of_nil in H. Qed.

Lemma wait_for_ok s t w l nano : sync_ok s -> waiters s !! t = Some w -> frame w = F_none -> (forall o, o ∈ l -> is_Some (objects s !! o)) ->
  exists s' r, WaitFor s t l nano = Some (s', r) /\ sync_ok s'.
Proof.
  intros Hs Hw Hf Hl. destruct (sync_thread s t w Hs Hw) as [th Hth]. pose proof (ss_thread s Hs t th w Hth Hw) as [H1 H2 H3 H4 H5].
  assert (status th <> WaitSynch) as Hst by (intros E; destruct (H3 E) as (? & ? & _); congruence).
  unfold WaitFor. destruct (find_signaled_spec s l Hl 0) as (r & -> & Hr). cbn [mbind option_bind]. destruct r as [i|]; [by do 2 eexists|].
  destruct (nano =? 0); [by do 2 eexists|]. rewrite Hth. cbn [mbind option_bind]. destruct (IsPendingTermination th); [by do 2 eexists|]. rewrite Hw. cbn [mbind option_bind].
  destruct (is_sync_cancelled w).
  { eexists _, _. split; [done|]. apply (sync_update_thread s (sched s) t w (SetSyncCancelled w false) th th); try done; [apply (ss_sched s Hs)|by rewrite insert_id]. }
  destruct (on_objects_spec (fun x => AddWaitingThread x t) l (fun x _ => add_idem t x) (fun x Hn => proj1 (proj2 (proj1 (add_like t x Hn)))) s Hl (ss_nodup s Hs)) as (s1 & -> & E1 & E2 & E3 & E4).
  cbn [mbind option_bind]. rewrite E1. destruct (status_exact (sched s) t th WaitSynch (ss_sched s Hs) Hth H1) as (g & th' & -> & Hg & Et & Est & Hc). cbn [mbind option_bind].
  set (w' := SetWaitingSync _ true). eexists _, None. split; [done|]. apply (sync_update s _ t w w' th th'); try done; cbn [set_waiter with_sched waiters objects signallers sched].
  - by rewrite E2.
  - intros o x Hx. rewrite E4. pose proof (add_like t x (ss_nodup s Hs o x Hx)) as [Hlike _]. destruct (decide (o ∈ l)) as [Ho|Ho]; [rewrite Hx; cbn; exists (AddWaitingThread x t); by split_and!|].
    exists x. split; [done|]. split; [split; [done|]; split; [by apply (ss_nodup s Hs o)|done]|]. intros Ht. by destruct (idle_lists s t w o x Hs Hw Hf Hx).
  - intros o. rewrite E4. destruct (decide (o ∈ l)); [intros _; by apply Hl|done].
  - split; try done.
    + cbn. split; [eauto|done].
    + intros _. exists l. split; [done|]. split; [done|]. intros o Ho. destruct (Hl o Ho) as [x Hx]. exists (AddWaitingThread x t). rewrite E4, decide_True, Hx by done. split; [done|].
      pose proof (add_like t x (ss_nodup s Hs o x Hx)) as [(Esig & _) Hin]. split; [done|]. rewrite Esig, (Hr o x Ho Hx). done.
    + intros _ _. by left.
Qed.

Lemma sync_wake_ok s t w w' : sync_ok s -> waiters s !! t = Some w -> waits_on w' = waits_on w -> is_waiting_on_sync w' = is_waiting_on_sync w -> frame w' = frame w ->
  (frame w' <> F_none -> signaling_object w' = None -> signaling_result w' = RESULT_TIMEOUT \/ signaling_result w' = ERR_SYNCHRONIZATION_CANCELED) ->
  (forall o, signaling_object w' = Some o -> signaling_object w = Some o /\ signaling_result w' = signaling_result w) ->
  exists g, SetStatus (sched s) t Ready = Some g /\ sync_ok (set_waiter (with_sched s g) t w').
Proof.
  intros Hs Hw Ewo Efl Ef Hn Hso. destruct (sync_thread s t w Hs Hw) as [th Hth]. pose proof (ss_thread s Hs t th w Hth Hw) as [H1 H2 H3 H4 H5].
  destruct (status_exact (sched s) t th Ready (ss_sched s Hs) Hth H1) as (g & th' & E & Hg & Et & Est & Hc). exists g. split; [done|].
  apply (sync_update_thread s g t w w' th th'); try done. split; try done.
  - by rewrite Efl, Ef.
  - congruence.
  - intros o Hf Hs'. rewrite Ef in Hf. destruct (Hso o Hs') as [Hso' ->]. rewrite Ewo. by apply H4.
Qed.
Lemma timeout_ok s t w : sync_ok s -> waiters s !! t = Some w -> exists s', WaitFor_timeout s t = Some s' /\ sync_ok s'.
Proof.
  intros Hs Hw. destruct (sync_thread s t w Hs Hw) as [th Hth]. pose proof (ss_thread s Hs t th w Hth Hw) as [H1 H2 H3 H4 H5].
  destruct (sync_wake_ok s t w w Hs Hw) as (g & E & Hs'); try done. unfold WaitFor_timeout, OnWakeUp. rewrite E. cbn. eexists. split; [done|].
  assert (with_sched s g = set_waiter (with_sched s g) t w) as ->; [|done]. unfold with_sched, set_waiter. cbn. by rewrite (insert_id (waiters s)).
Qed.
Lemma cancel_wait_ok s t w : sync_ok s -> waiters s !! t = Some w -> exists s', CancelWait s t = Some s' /\ sync_ok s'.
Proof.
  intros Hs Hw. destruct (sync_thread s t w Hs Hw) as [th Hth]. pose proof (ss_thread s Hs t th w Hth Hw) as [H1 H2 H3 H4 H5]. unfold CancelWait. rewrite Hth, Hw. cbn [mbind option_bind]. case_match.
  - eexists. split; [done|]. apply (sync_update_thread s (sched s) t w (SetSyncCancelled w true) th th); try done; [apply (ss_sched s Hs)|by rewrite insert_id].
  - set (w' := SetSynchronizationResults _ _ _). destruct (sync_wake_ok s t w w' Hs Hw) as (g & -> & Hs'); try done; [intros _ _; by right|]. cbn. eauto.
Qed.
Lemma woken_ok s t th w l : sync_ok s -> threads (sched s) !! t = Some th -> status th <> WaitSynch -> waiters s !! t = Some w -> frame w = F_wait l -> exists s', WaitFor_woken s t = Some s' /\ sync_ok s'.
Proof.
  intros Hs Hth Hst Hw Hf. pose proof (ss_thread s Hs t th w Hth Hw) as [H1 H2 H3 H4 H5]. unfold WaitFor_woken. rewrite Hw. cbn [mbind option_bind]. rewrite Hf. eexists. split; [done|].
  set (w' := with_frame _ _). assert (waits_on w' = waits_on w) as Ewo by (unfold waits_on; cbn; by rewrite Hf). assert (frame w <> F_none) as Hf' by congruence.
  apply (sync_update_thread s (sched s) t w w' th th); try done; [apply (ss_sched s Hs)|by rewrite insert_id|]. split; try done.
  - cbn. split; [done|]. by intros [? ?].
  - intros o _ Hso. rewrite Ewo. by apply H4.
  - intros _. by apply H5.
Qed.

Lemma index_of_spec o l : o ∈ l -> forall i, exists n, index_of o l i = i + Z.of_nat n /\ l !! n = Some o.
Proof.
  induction l as [|x l IH]; intros Ho i; [by apply not_elem_of_nil in Ho|]. cbn. destruct (Z.eqb_spec x o) as [->|Hne]; [exists 0%nat; split; [lia|done]|].
  apply elem_of_cons in Ho as [->|Ho]; [done|]. destruct (IH Ho (i + 1)) as (n & -> & Hn). exists (S n). split; [lia|done].
Qed.

(** The result of a wait: success and the index of the object that woke the
    thread, or the timeout or the cancellation. *)
Definition wait_result w l (r i : Z) : Prop :=
  match signaling_object w with
  | Some o => r = RESULT_SUCCESS /\ (Z.of_nat (length l) < 2 ^ 32 -> l !! Z.to_nat i = Some o)
  | None => (r = RESULT_TIMEOUT \/ r = ERR_SYNCHRONIZATION_CANCELED) /\ i = 0xFFFFFFFF
  end.

Lemma wait_for_finish_ok s t w l : sync_ok s -> waiters s !! t = Some w -> frame w = F_woken l ->
  exists s' r i, WaitFor_finish s t = Some (s', (r, i)) /\ sync_ok s' /\ wait_result w l r i /\ forall o x, objects s' !! o = Some x -> t ∉ waiting_threads x.
Proof.
  intros Hs Hw Hf. destruct (sync_thread s t w Hs Hw) as [th Hth]. pose proof (ss_thread s Hs t th w Hth Hw) as [H1 H2 H3 H4 H5]. assert (frame w <> F_none) as Hf' by congruence.
  assert (forall o, o ∈ l -> is_Some (objects s !! o)) as Hl by (intros o Ho; apply (ss_known s Hs t w o Hw); unfold waits_on; by rewrite Hf).
  unfold WaitFor_finish. rewrite Hw. cbn [mbind option_bind]. rewrite Hf.
  destruct (on_objects_spec (fun x => RemoveWaitingThread x t) l (remove_idem t) (remove_nodup t) s Hl (ss_nodup s Hs)) as (s1 & -> & E1 & E2 & E3 & E4). cbn [mbind option_bind].
  assert (forall o x, objects s !! o = Some x -> exists x', objects s1 !! o = Some x' /\ like_object t x x' /\ t ∉ waiting_threads x') as Ho.
  { intros o x Hx. pose proof (ss_nodup s Hs o x Hx) as Hn. rewrite E4. destruct (decide (o ∈ l)) as [Hol|Hol].
    - rewrite Hx. cbn. exists (RemoveWaitingThread x t). split; [done|]. unfold like_object. rewrite remove_filter by done. split; [split; [done|]; split; [by apply NoDup_filter|]|].
      + intros u Hu. rewrite list_elem_of_filter. tauto.
      + by intros [? _]%list_elem_of_filter.
    - exists x. split; [done|]. split; [by split|]. intros Ht. destruct (ss_list s Hs o x t Hx Ht) as (w2 & E & Hin). simplify_eq. unfold waits_on in Hin. by rewrite Hf in Hin. }
  eexists _, _, _. split; [reflexivity|]. split; [|split].
  - apply (sync_update s _ t w (with_frame w F_none) th th); try done; cbn [set_waiter waiters objects signallers sched].
    + rewrite E1. apply (ss_sched s Hs).
    + rewrite E1. by rewrite insert_id.
    + by rewrite E2.
    + intros o x Hx. destruct (Ho o x Hx) as (x' & Hx' & Hlike & Hnot). exists x'. by split_and!.
    + intros o. rewrite E4. case_decide; [intros _; by apply Hl|done].
    + intros o H. by apply not_elem_of_nil in H.
    + split; try done.
      * cbn. rewrite H2, Hf. split; [by intros [? ?]|by intros [? ?]].
      * intros Hst. destruct (H3 Hst) as (? & ? & _). congruence.
  - unfold wait_result. destruct (signaling_object w) as [o|] eqn:Eso; [|split; [by apply H5|done]]. destruct (H4 o Hf' eq_refl) as [Hin ->]. split; [done|]. intros Hlen.
    unfold waits_on in Hin. rewrite Hf in Hin. destruct (index_of_spec o l Hin 0) as (n & -> & Hn). pose proof (lookup_lt_Some l n o Hn). rewrite to_u32_id by (unfold is_u32; lia). by rewrite Z.add_0_l, Nat2Z.id.
  - intros o x'. cbn [set_waiter objects]. intros Hx'. assert (is_Some (objects s !! o)) as [x Hx] by (specialize (E4 o); rewrite Hx' in E4; destruct (decide (o ∈ l)); [by apply Hl|rewrite <- E4; eauto]).
    destruct (Ho o x Hx) as (y & Hy & _ & Hnot). congruence.
Qed.

(** ** Reachable states *)

Lemma sync_create_ok s t p pid : sync_ok s -> waiters s !! t = None -> 0 <= p < 63 -> 0 <= pid < 4 -> exists s', Sync.CreateThread s t p pid = inl s' /\ sync_ok s'.
Proof.
  intros Hs Hw Hp Hpid. assert (threads (sched s) !! t = None) as Hth by (apply eq_None_not_Some; rewrite <- (ss_dom s Hs t), Hw; by intros [? ?]).
  destruct (create_ok (sched s) t p pid (ss_sched s Hs) Hth Hp Hpid) as (th & E & Hok). unfold Sync.CreateThread. rewrite E.
  assert (status th = Dormant /\ consistent th) as [Est Hc] by (unfold Create in E; destruct (_ <? _); [done|]; destruct (_ <? _); [done|]; by injection E as <-).
  set (w := {| signaling_object := None |}). eexists. split; [done|]. split; try apply Hs; cbn; [done|..].
  - intros u. rewrite !lookup_insert_is_Some'. by rewrite (ss_dom s Hs u).
  - intros o x u Hx Hu. destruct (ss_list s Hs o x u Hx Hu) as (wu & Hwu & ?). exists wu. rewrite lookup_insert_ne; [done|congruence].
  - intros u wu o. destruct (decide (u = t)) as [->|]; [rewrite lookup_insert_eq; intros [= <-] H; by apply not_elem_of_nil in H|rewrite lookup_insert_ne by done; apply (ss_known s Hs)].
  - intros u uh wu. destruct (decide (u = t)) as [->|]; [|rewrite !lookup_insert_ne by done; by apply (ss_thread s Hs)].
    rewrite !lookup_insert_eq. intros [= <-] [= <-]. split; try done; [split; [done|by intros [? ?]]|by rewrite Est].
Qed.
Lemma sync_event_ok s o : sync_ok s -> objects s !! o = None -> sync_ok (CreateEvent s o).
Proof.
  intros Hs Ho. split; try apply Hs; cbn.
  - intros o2 x t. destruct (decide (o2 = o)) as [->|]; [rewrite lookup_insert_eq; intros [= <-] H; by apply not_elem_of_nil in H|rewrite lookup_insert_ne by done; apply (ss_list s Hs)].
  - intros o2 x. destruct (decide (o2 = o)) as [->|]; [rewrite lookup_insert_eq; intros [= <-]; constructor|rewrite lookup_insert_ne by done; apply (ss_nodup s Hs)].
  - intros t w o2 Hw H. rewrite lookup_insert_is_Some'. right. by apply (ss_known s Hs t w).
  - intros c o2 st H. rewrite lookup_insert_is_Some'. right. by apply (ss_signaller s Hs c o2 st).
  - intros t th w Hth Hw. pose proof (ss_thread s Hs t th w Hth Hw) as [H1 H2 H3 H4 H5]. split; try done. intros Hst. destruct (H3 Hst) as (l & Hf & Hso & Hl). exists l. split; [done|]. split; [done|].
    intros o2 Ho2. destruct (Hl o2 Ho2) as (x & Hx & ?). exists x. rewrite lookup_insert_ne; [done|congruence].
Qed.

(** What can happen, in any order. *)
Inductive SRequest :=
  | SR_create (t priority processor_id : Z)
  | SR_event (o : Z)
  | SR_signal_begin (c o : Z)
  | SR_signal_set (c : Z)
  | SR_signal_object (c : Z)
  | SR_clear (o : Z)
  | SR_reset (o : Z)
  | SR_wait (t : Z) (sync_objects : list Z) (nano_seconds : Z)
  | SR_timeout (t : Z)
  | SR_woken (t : Z)
  | SR_finish (t : Z)
  | SR_cancel (t : Z).

Definition s_perform (r : SRequest) s : option State :=
  match r with
  | SR_create t p pid => match Sync.CreateThread s t p pid with inl s => Some s | inr _ => Some s end
  | SR_event o => Some (CreateEvent s o)
  | SR_signal_begin c o => Signal_begin s c o
  | SR_signal_set c => Signal_set s c
  | SR_signal_object c => Signal_object s c
  | SR_clear o => Clear s o
  | SR_reset o => fst <$> Reset s o
  | SR_wait t l nano => fst <$> WaitFor s t l nano
  | SR_timeout t => WaitFor_timeout s t
  | SR_woken t => WaitFor_woken s t
  | SR_finish t => fst <$> WaitFor_finish s t
  | SR_cancel t => CancelWait s t
  end.

(** A host thread signals one object at a time; a thread waits when it is in no
    call, its time event belongs to its call, and it goes on when it does not
    sleep. *)
Definition s_allowed (r : SRequest) s : Prop :=
  match r with
  | SR_create t p pid => waiters s !! t = None /\ 0 <= p < 63 /\ 0 <= pid < 4
  | SR_event o => objects s !! o = None
  | SR_signal_begin c o => signallers s !! c = None /\ is_Some (objects s !! o)
  | SR_signal_set c => exists o, signallers s !! c = Some (o, S_set)
  | SR_signal_object c => exists o, signallers s !! c = Some (o, S_object)
  | SR_clear o | SR_reset o => is_Some (objects s !! o)
  | SR_wait t l _ => (exists w, waiters s !! t = Some w /\ frame w = F_none) /\ forall o, o ∈ l -> is_Some (objects s !! o)
  | SR_timeout t => exists w l, waiters s !! t = Some w /\ frame w = F_wait l
  | SR_woken t => (exists w l, waiters s !! t = Some w /\ frame w = F_wait l) /\ exists th, threads (sched s) !! t = Some th /\ status th <> WaitSynch
  | SR_finish t => exists w l, waiters s !! t = Some w /\ frame w = F_woken l
  | SR_cancel t => is_Some (waiters s !! t)
  end.

Inductive sync_run : State -> Prop :=
  | sync_run_new : sync_run State_new
  | sync_run_request s r s' : sync_run s -> s_allowed r s -> s_perform r s = Some s' -> sync_run s'.

Lemma new_sync_ok : sync_ok State_new.
Proof.
  split; [exact new_sched_ok|..]; cbn.
  - intros t. split; intros [x Hx]; by apply lookup_empty_Some in Hx.
  - intros o x t Hx. by apply lookup_empty_Some in Hx.
  - intros o x Hx. by apply lookup_empty_Some in Hx.
  - intros t w o Hw. by apply lookup_empty_Some in Hw.
  - intros c o st Hc. by apply lookup_empty_Some in Hc.
  - intros t th w _ Hw. by apply lookup_empty_Some in Hw.
Qed.

Lemma s_perform_ok r s : sync_ok s -> s_allowed r s -> exists s', s_perform r s = Some s' /\ sync_ok s'.
Proof.
  intros Hs Ha. destruct r; cbn [s_perform s_allowed] in *.
  - destruct Ha as (H1 & H2 & H3). destruct (sync_create_ok s t _ _ Hs H1 H2 H3) as (s' & -> & Hs'). eauto.
  - eexists. split; [done|]. by apply sync_event_ok.
  - destruct Ha as [Hc [x Hx]]. by apply (signal_begin_ok s c o x).
  - destruct Ha as [o Hc]. by apply (signal_set_ok s c o).
  - destruct Ha as [o Hc]. destruct (ss_signaller s Hs c o S_object Hc) as [x Hx]. destruct (signal_object_ok s c o x Hs Hc Hx) as (s' & E & Hs' & _). eauto.
  - destruct Ha as [x Hx]. by apply (clear_event_ok s o x).
  - destruct Ha as [x Hx]. unfold Reset. rewrite Hx. cbn [mbind option_bind]. destruct (is_signaled x); cbn [negb]; [|cbn; eauto]. destruct (clear_event_ok s o x Hs Hx) as (s' & -> & Hs'). cbn. eauto.
  - destruct Ha as [(w & Hw & Hf) Hl]. destruct (wait_for_ok s t w sync_objects nano_seconds Hs Hw Hf Hl) as (s' & r & -> & Hs'). cbn. eauto.
  - destruct Ha as (w & l & Hw & _). by apply (timeout_ok s t w).
  - destruct Ha as [(w & l & Hw & Hf) (th & Hth & Hst)]. by apply (woken_ok s t th w l).
  - destruct Ha as (w & l & Hw & Hf). destruct (wait_for_finish_ok s t w l Hs Hw Hf) as (s' & r & i & -> & Hs' & _). cbn. eauto.
  - destruct Ha as [w Hw]. by apply (cancel_wait_ok s t w).
Qed.
Lemma sync_run_ok s : sync_run s -> sync_ok s.
Proof.
  induction 1 as [|s r s' Hrun IH Ha E]; [apply new_sync_ok|]. destruct (s_perform_ok r s IH Ha) as (s2 & E2 & H2). by rewrite E in E2; injection E2 as ->.
Qed.

(** C10: in every interleaving of waits for any objects, signals, clears,
    resets, timeouts and cancellations, split where the code does not hold the
    scheduler lock: a thread that sleeps in [WaitFor] is in the list of every
    object it waits for, and none of these is signaled unless a signal of it is
    about to run [SignalObject]; that step then returns and wakes every thread
    that sleeps on the object with success and this object; a call that ends
    returns success with the index of the object that woke the thread, or the
    timeout or the cancellation, and leaves the thread in no list; and every
    further operation returns. *)
Theorem no_lost_wakeup s : sync_run s ->
  (forall t th w, threads (sched s) !! t = Some th -> waiters s !! t = Some w -> status th = WaitSynch ->
     exists l, frame w = F_wait l /\ forall o, o ∈ l -> exists x, objects s !! o = Some x /\ (t ∈ waiting_threads x)
       /\ (is_signaled x = true -> exists c, signallers s !! c = Some (o, S_object)))
  /\ (forall c o x, signallers s !! c = Some (o, S_object) -> objects s !! o = Some x -> is_signaled x = true ->
        exists s', Signal_object s c = Some s' /\ forall t th w l, threads (sched s) !! t = Some th -> waiters s !! t = Some w -> status th = WaitSynch ->
          frame w = F_wait l -> o ∈ l -> exists th' w', threads (sched s') !! t = Some th' /\ waiters s' !! t = Some w'
            /\ status th' = Ready /\ signaling_object w' = Some o /\ signaling_result w' = RESULT_SUCCESS)
  /\ (forall t w l, waiters s !! t = Some w -> frame w = F_woken l ->
        exists s' r i, WaitFor_finish s t = Some (s', (r, i)) /\ wait_result w l r i /\ forall o x, objects s' !! o = Some x -> t ∉ waiting_threads x)
  /\ forall r, s_allowed r s -> is_Some (s_perform r s).
Proof.
  intros Hrun. pose proof (sync_run_ok s Hrun) as Hs. split; [|split; [|split]].
  - intros t th w Hth Hw Hst. destruct (ts_asleep _ _ _ _ _ (ss_thread s Hs t th w Hth Hw) Hst) as (l & Hf & _ & Hl). eauto.
  - intros c o x Hc Hx Hsig. destruct (signal_object_ok s c o x Hs Hc Hx) as (s' & E & _ & Hwk). exists s'. split; [done|]. intros t th w l Hth Hw Hst Hf Ho.
    assert (o ∈ waits_on w) as Hin by (unfold waits_on; by rewrite Hf). exact (Hwk Hsig t th w Hth Hw Hst Hin th Hth Hst).
  - intros t w l Hw Hf. destruct (wait_for_finish_ok s t w l Hs Hw Hf) as (s' & r & i & E & _ & Hr & Hl). eauto 10.
  - intros r Ha. destruct (s_perform_ok r s Hs Ha) as (s' & E & _). eauto.
Qed.

(** ** A thread that waits for two events *)

Definition sample_sync : list SRequest :=
  [SR_create 10 44 0; SR_event 1; SR_event 2; SR_signal_begin 7 2; SR_wait 10 [1; 2] (-1); SR_signal_set 7].
Definition run_sync (l : list SRequest) : option State := foldl (fun (st : option State) r => s ← st; s_perform r s) (Some State_new) l.

Lemma sample_sync_run : exists s, run_sync sample_sync = Some s /\ sync_run s.
Proof.
  eexists. split; [vm_compute; reflexivity|].
  eapply (sync_run_request _ (SR_signal_set 7)); [eapply (sync_run_request _ (SR_wait 10 [1; 2] (-1))); [eapply (sync_run_request _ (SR_signal_begin 7 2)); [eapply (sync_run_request _ (SR_event 2));
    [eapply (sync_run_request _ (SR_event 1)); [eapply (sync_run_request _ (SR_create 10 44 0)); [apply sync_run_new|..]|..]|..]|..]|..]|..];
    try match goal with |- s_perform _ _ = _ => vm_compute; reflexivity end.
  - split; [reflexivity|lia].
  - vm_compute. reflexivity.
  - vm_compute. reflexivity.
  - split; [vm_compute; reflexivity|]. eexists. vm_compute. reflexivity.
  - split; [eexists; split; [vm_compute; reflexivity|reflexivity]|]. intros o [->|[->|[]%not_elem_of_nil]%elem_of_cons]%elem_of_cons; eexists; vm_compute; reflexivity.
  - eexists. vm_compute. reflexivity.
Qed.

Lemma no_lost_wakeup_witness : exists s, run_sync sample_sync = Some s /\ sync_run s /\ is_Some (s_perform (SR_clear 1) s).
Proof.
  destruct sample_sync_run as (s & E & Hrun). exists s. split; [exact E|]. split; [exact Hrun|]. destruct (no_lost_wakeup s Hrun) as (_ & _ & _ & H). apply (H (SR_clear 1)).
  assert (run_sync sample_sync ≫= (fun s => objects s !! 1) = Some {| is_signaled := false; waiting_threads := [10] |}) as Ho by (vm_compute; reflexivity).
  rewrite E in Ho. exists {| is_signaled := false; waiting_threads := [10] |}. exact Ho.
Defined.

Example sample_wakeup : (s ← run_sync (sample_sync ++ [SR_signal_object 7; SR_woken 10]); snd <$> WaitFor_finish s 10) = Some (RESULT_SUCCESS, 1).
Proof. by vm_compute. Qed.

(** ** A departure *)

(** A signal that is followed by a clear before it holds the scheduler lock
    wakes nobody. *)
Lemma cleared_signal_wakes_nobody :
  (s ← run_sync (sample_sync ++ [SR_clear 2; SR_signal_object 7]); status <$> threads (sched s) !! 10) = Some WaitSynch.
Proof. by vm_compute. Qed.
