(* ===== verification/MacroMachine.v ===== *)
(** * Macros on an abstract machine

    What a macro means, apart from the interpreter: a machine with seven
    registers and a zero register, a queue of parameters, a method with its
    increment, a carry, and two program counters for the delay slots.  The
    instructions are decoded once, into constructors; arithmetic is on
    integers, the bit operations are stated bit by bit, and the results go
    where a table says.  [MacroInterpreterImpl] refines the machine.

    The machine calls invalid what the program asserts not to happen: a branch
    in a delay slot, encodings without an operation, parameters that are left
    over; and what the program leaves undefined: a bit field of 31 bits and
    shifts by 32 and more. *)

From S2P Require Import Prelude MacroInterpreter.
From stdpp Require Import base list.
Open Scope Z_scope.
Open Scope c_scope.
Import Macro.

(** ** Instructions *)

Inductive AluOp := Add | AddWithCarry | Subtract | SubtractWithBorrow | Xor | Or | And | AndNot | Nand.

(** How the value of an instruction is computed; [a] and [b] are registers. *)
Inductive Compute :=
  | Alu (op : AluOp) (a b : Z)
  | AddImmediate (a imm : Z)
  | ExtractInsert (a b src size dst : Z)
  | ExtractShiftLeftImmediate (a b size dst : Z)
  | ExtractShiftLeftRegister (a b src size : Z)
  | ReadMethod (a imm : Z).

(** Where it goes: the register takes the value or a parameter, the method may
    be set to the value, and one of three things may be sent. *)
Inductive Source := From_value | From_parameter | From_increment.
Record Target := { takes_parameter : bool; sets_method : bool; sends : option Source }.

Inductive Instruction :=
  | Operate (c : Compute) (t : Target) (dst : Z)
  | Branch (not_zero annul : bool) (a offset : Z).

Definition field (raw p n : Z) : Z := raw / 2 ^ p mod 2 ^ n.
(** The upper 18 bits, signed. *)
Definition signed_immediate (raw : Z) : Z := let v := raw / 2 ^ 14 in if v <? 2 ^ 17 then v else v - 2 ^ 18.

Definition decode_alu (n : Z) : option AluOp :=
  match n with
  | 0 => Some Add | 1 => Some AddWithCarry | 2 => Some Subtract | 3 => Some SubtractWithBorrow
  | 8 => Some Xor | 9 => Some Or | 10 => Some And | 11 => Some AndNot | 12 => Some Nand
  | _ => None
  end.
Definition decode_target (n : Z) : Target :=
  match n with
  | 0 => {| takes_parameter := true; sets_method := false; sends := None |}
  | 1 => {| takes_parameter := false; sets_method := false; sends := None |}
  | 2 => {| takes_parameter := false; sets_method := true; sends := None |}
  | 3 => {| takes_parameter := true; sets_method := false; sends := Some From_value |}
  | 4 => {| takes_parameter := false; sets_method := false; sends := Some From_value |}
  | 5 => {| takes_parameter := true; sets_method := true; sends := None |}
  | 6 => {| takes_parameter := false; sets_method := true; sends := Some From_parameter |}
  | _ => {| takes_parameter := false; sets_method := true; sends := Some From_increment |}
  end.
Definition decode_compute (raw : Z) : option Compute :=
  let a := field raw 11 3 in
  let b := field raw 14 3 in
  let size := field raw 22 5 in
  match field raw 0 3 with
  | 0 => op ← decode_alu (field raw 17 5); Some (Alu op a b)
  | 1 => Some (AddImmediate a (signed_immediate raw))
  | 2 => if size =? 31 then None else Some (ExtractInsert a b (field raw 17 5) size (field raw 27 5))
  | 3 => if size =? 31 then None else Some (ExtractShiftLeftImmediate a b size (field raw 27 5))
  | 4 => if size =? 31 then None else Some (ExtractShiftLeftRegister a b (field raw 17 5) size)
  | 5 => Some (ReadMethod a (signed_immediate raw))
  | _ => None
  end.
Definition decode (raw : Z) : option Instruction :=
  if field raw 0 3 =? 7
  then Some (Branch (field raw 4 1 =? 1) (field raw 5 1 =? 1) (field raw 11 3) (signed_immediate raw))
  else c ← decode_compute raw; Some (Operate c (decode_target (field raw 4 3)) (field raw 8 3)).
Definition exits (raw : Z) : bool := field raw 7 1 =? 1.

(** ** Values *)

(** The word of 32 bits whose bit [i] is [f i]. *)
Fixpoint word_of (n : nat) (f : Z -> bool) : Z :=
  match n with
  | O => 0
  | S n => Z.lor (word_of n f) (if f (Z.of_nat n) then 2 ^ Z.of_nat n else 0)
  end.
Definition word (f : Z -> bool) : Z := word_of 32 f.
Definition bitwise (f : bool -> bool -> bool) (a b : Z) : Z := word (fun i => f (Z.testbit a i) (Z.testbit b i)).

(** The value, and the carry if it changes.  The carry of a subtraction is set
    when there is no borrow. *)
Definition alu_value (op : AluOp) (a b : Z) (carry : bool) : option bool * Z :=
  let sum x := (Some (2 ^ 32 <=? x), x mod 2 ^ 32) in
  let difference x := (Some (0 <=? x), x mod 2 ^ 32) in
  match op with
  | Add => sum (a + b)
  | AddWithCarry => sum (a + b + (if carry then 1 else 0))
  | Subtract => difference (a - b)
  | SubtractWithBorrow => difference (a - b - (if carry then 0 else 1))
  | Xor => (None, bitwise xorb a b)
  | Or => (None, bitwise orb a b)
  | And => (None, bitwise andb a b)
  | AndNot => (None, bitwise (fun x y => x && negb y) a b)
  | Nand => (None, bitwise (fun x y => negb (x && y)) a b)
  end.

(** Bit [i] of the field of [size] bits at [src] of [v], placed at [dst]. *)
Definition placed (v src size dst i : Z) : bool := (dst <=? i) && (i <? dst + size) && Z.testbit v (src + (i - dst)).

(** ** The machine *)

Section Machine.
Context {G : Type} `{Maxwell3D G}.

Record Arch := {
  regs : list Z;
  method : Z;
  step : Z;
  queue : list Z;
  carry : bool;
  engine : G
}.
Definition reg (s : Arch) (r : Z) : Z := if r =? 0 then 0 else nth (Z.to_nat r) (regs s) 0.

Definition compute (s : Arch) (c : Compute) : option (option bool * Z) :=
  match c with
  | Alu op a b => Some (alu_value op (reg s a) (reg s b) (carry s))
  | AddImmediate a imm => Some (None, (reg s a + imm) mod 2 ^ 32)
  | ExtractInsert a b src size dst =>
      Some (None, word (fun i => if (dst <=? i) && (i <? dst + size) then placed (reg s b) src size dst i else Z.testbit (reg s a) i))
  | ExtractShiftLeftImmediate a b size dst =>
      if 32 <=? reg s a then None else Some (None, word (placed (reg s b) (reg s a) size dst))
  | ExtractShiftLeftRegister a b src size =>
      if 32 <=? reg s a then None else Some (None, word (placed (reg s b) src size (reg s a)))
  | ReadMethod a imm => Some (None, GetRegisterValue (engine s) ((reg s a + imm) mod 2 ^ 32))
  end.

Definition needs_parameter (t : Target) : bool :=
  takes_parameter t || match sends t with Some From_parameter => true | _ => false end.

(** [None]: there is no parameter left. *)
Definition deliver (s : Arch) (t : Target) (dst v : Z) (new_carry : option bool) : option Arch :=
  '(p, rest) ← (if needs_parameter t then match queue s with [] => None | p :: rest => Some (p, rest) end else Some (0, queue s));
  let '(m, inc) := if sets_method t then (v mod 2 ^ 12, v / 2 ^ 12 mod 2 ^ 6) else (method s, step s) in
  let out := match sends t with
             | None => None
             | Some From_value => Some v
             | Some From_parameter => Some p
             | Some From_increment => Some (v / 2 ^ 12 mod 2 ^ 6)
             end in
  Some {| regs := if dst =? 0 then regs s else <[Z.to_nat dst := if takes_parameter t then p else v]> (regs s);
          method := match out with None => m | Some _ => (m + inc) mod 2 ^ 12 end;
          step := inc; queue := rest; carry := default (carry s) new_carry;
          engine := match out with None => engine s | Some x => CallMethodFromMME (engine s) m x end |}.

(** The instruction at [c_pc] and the one after it at [c_npc]; [c_slot]: it is
    in a delay slot; [c_last]: the macro ends with it. *)
Record Cpu := { c_arch : Arch; c_pc : Z; c_npc : Z; c_slot : bool; c_last : bool }.
Inductive Outcome := Go (m : Cpu) | Halt (s : Arch) | Invalid | Fault.

Context (code : list Z).

Definition after (m : Cpu) (raw : Z) (s : Arch) : Outcome :=
  if c_last m then (if decide (queue s = []) then Halt s else Invalid)
  else
    let ends := exits raw && negb (c_slot m) in
    Go {| c_arch := s; c_pc := c_npc m; c_npc := (c_npc m + 4) mod 2 ^ 32; c_slot := ends; c_last := ends |}.

Definition cycle (m : Cpu) : Outcome :=
  match code !! Z.to_nat (c_pc m / 4) with
  | None => Fault
  | Some raw =>
      match decode raw with
      | None => Invalid
      | Some (Branch not_zero annul a offset) =>
          let target := (c_pc m + 4 * offset) mod 2 ^ 32 in
          if c_slot m then Invalid
          else if Bool.eqb (reg (c_arch m) a =? 0) not_zero then after m raw (c_arch m)
          else if annul then
            Go {| c_arch := c_arch m; c_pc := target; c_npc := (target + 4) mod 2 ^ 32; c_slot := false; c_last := false |}
          else Go {| c_arch := c_arch m; c_pc := c_npc m; c_npc := target; c_slot := true; c_last := false |}
      | Some (Operate c t dst) =>
          match compute (c_arch m) c with
          | None => Invalid
          | Some (new_carry, v) =>
              match deliver (c_arch m) t dst v new_carry with None => Fault | Some s => after m raw s end
          end
      end
  end.

Fixpoint cycles (n : nat) (m : Cpu) : Outcome :=
  match n with
  | O => Go m
  | S n => match cycle m with Go m => cycles n m | o => o end
  end.

(** A macro starts with its first parameter in register 1. *)
Definition boot (g : G) (p : Z) (rest : list Z) : Cpu :=
  {| c_arch := {| regs := [0; p; 0; 0; 0; 0; 0; 0]; method := 0; step := 0; queue := rest; carry := false; engine := g |};
     c_pc := 0; c_npc := 4; c_slot := false; c_last := false |}.
End Machine.
Arguments Arch G : clear implicits.
Arguments Cpu G : clear implicits.
Arguments Outcome G : clear implicits.

(** ** Words and fields *)

Lemma testbit_word_of n f i : 0 <= i -> Z.testbit (word_of n f) i = (i <? Z.of_nat n) && f i.
Proof.
  intros Hi. induction n as [|n IH]; cbn [word_of]; [rewrite Z.bits_0; by destruct (Z.ltb_spec i (Z.of_nat 0)); [lia|]|].
  rewrite Z.lor_spec, IH. destruct (Z.eq_dec i (Z.of_nat n)) as [->|Hne].
  - rewrite (proj2 (Z.ltb_ge _ _)), (proj2 (Z.ltb_lt _ _)) by lia. cbn [andb orb]. destruct (f (Z.of_nat n)); [apply Z.pow2_bits_true; lia|apply Z.bits_0].
  - assert (Z.testbit (if f (Z.of_nat n) then 2 ^ Z.of_nat n else 0) i = false) as ->
      by (destruct (f (Z.of_nat n)); [apply Z.pow2_bits_false; lia|apply Z.bits_0]).
    rewrite orb_false_r. f_equal. apply eq_iff_eq_true. rewrite !Z.ltb_lt. lia.
Qed.
Lemma testbit_u32 x i : is_u32 x -> 32 <= i -> Z.testbit x i = false.
Proof. intros Hx Hi. rewrite <- (to_u32_id x Hx). unfold to_u32. rewrite Z.land_spec. change 0xFFFFFFFF with (Z.ones 32). rewrite Z.ones_spec_high by lia. apply andb_false_r. Qed.
Lemma word_unique x f : is_u32 x -> (forall i, 0 <= i < 32 -> Z.testbit x i = f i) -> x = word f.
Proof.
  intros Hx Hf. apply Z.bits_inj'. intros i Hi. unfold word. rewrite testbit_word_of by done. destruct (Z.ltb_spec i (Z.of_nat 32)); cbn [andb].
  - apply Hf. lia.
  - apply testbit_u32; [done|lia].
Qed.
Lemma testbit_ones32 i : 0 <= i < 32 -> Z.testbit 0xFFFFFFFF i = true.
Proof. intros Hi. change 0xFFFFFFFF with (Z.ones 32). by apply Z.ones_spec_low. Qed.
Lemma testbit_to_u32 x i : 0 <= i < 32 -> Z.testbit (to_u32 x) i = Z.testbit x i.
Proof. intros Hi. unfold to_u32. rewrite Z.land_spec, testbit_ones32 by done. apply andb_true_r. Qed.

Lemma bits_field raw p n : 0 <= p -> 0 <= n -> bits raw p n = field raw p n.
Proof. intros Hp Hn. unfold bits, field. by rewrite Z.land_ones, Z.shiftr_div_pow2. Qed.
Lemma field_bound raw p n : 0 <= n -> 0 <= field raw p n < 2 ^ n.
Proof. intros Hn. apply Z.mod_pos_bound. lia. Qed.
Lemma immediate_signed raw : is_u32 raw -> immediate raw = signed_immediate raw.
Proof.
  unfold is_u32. intros Hr. unfold immediate, signed_immediate. cbv zeta. rewrite Z.shiftr_div_pow2 by lia.
  destruct (Z.ltb_spec raw (2 ^ 31)), (Z.ltb_spec (raw / 2 ^ 14) (2 ^ 17)); zlia.
Qed.
Lemma flag_field raw p : 0 <= p -> negb (bits raw p 1 =? 0) = (field raw p 1 =? 1).
Proof.
  intros Hp. rewrite bits_field by lia. pose proof (field_bound raw p 1 ltac:(lia)) as Hb. assert (field raw p 1 = 0 \/ field raw p 1 = 1) as [-> | ->] by lia; done.
Qed.

(** ** Values *)

Lemma alu_value_spec n op a b carry : decode_alu n = Some op -> is_u32 a -> is_u32 b -> alu n a b carry = alu_value op a b carry.
Proof.
  intros Hop Ha Hb. assert (is_u32 0xFFFFFFFF) as Hm by (by split).
  assert (forall x, 0 <= x < 2 ^ 33 -> (0xFFFFFFFF <? x) = (2 ^ 32 <=? x)) as Hs by (intros x Hx; apply eq_iff_eq_true; rewrite Z.ltb_lt, Z.leb_le; lia).
  assert (forall x, - 2 ^ 33 <= x < 2 ^ 32 -> (to_u64 x <? 0x100000000) = (0 <=? x) /\ to_u32 (to_u64 x) = x mod 2 ^ 32) as Hd.
  { intros x Hx. rewrite to_u32_mod, to_u64_mod. split; [apply eq_iff_eq_true; rewrite Z.ltb_lt, Z.leb_le; zlia|zlia]. }
  assert (0 <= a < 2 ^ 32 /\ 0 <= b < 2 ^ 32) as [Hra Hrb] by (split; assumption).
  unfold decode_alu in Hop. repeat case_match; simplify_eq; cbn [alu alu_value]; rewrite ?to_u32_mod, ?Hs by (lia || destruct carry; lia); try done;
    try (match goal with |- context [to_u64 ?x] => destruct (Hd x) as [-> E]; [destruct carry; lia|] end; rewrite to_u32_mod in E; by rewrite E);
    f_equal; apply word_unique; auto using lxor_u32, land_u32, lor_u32; intros i Hi; rewrite ?Z.lxor_spec, ?Z.land_spec, ?Z.lor_spec, ?Z.lxor_spec, ?Z.land_spec, ?testbit_ones32; try done.
Qed.

(** Bit [i] of a masked and shifted field. *)
Lemma testbit_placed v src size dst i : is_u32 v -> 0 <= src -> 0 <= size -> 0 <= dst -> 0 <= i < 32 ->
  Z.testbit (to_u32 (((v >> src) .& (2 ^ size - 1)) << dst)) i = placed v src size dst i.
Proof.
  intros Hv Hs Hz Hd Hi. rewrite testbit_to_u32 by done. unfold placed. replace (2 ^ size - 1) with (Z.ones size) by (rewrite Z.ones_equiv; lia).
  destruct (Z.leb_spec dst i) as [Hle|Hgt]; cbn [andb]; [|by rewrite Z.shiftl_spec, Z.testbit_neg_r by lia].
  rewrite Z.shiftl_spec, Z.land_spec, Z.shiftr_spec, Z.testbit_ones_nonneg by lia. rewrite andb_comm, Z.add_comm. f_equal. apply eq_iff_eq_true. rewrite !Z.ltb_lt. lia.
Qed.
Lemma placed_word v src size dst : is_u32 v -> 0 <= src -> 0 <= size -> 0 <= dst ->
  to_u32 (((v >> src) .& (2 ^ size - 1)) << dst) = word (placed v src size dst).
Proof. intros. apply word_unique; [apply to_u32_range|]. intros i Hi. by apply testbit_placed. Qed.
Lemma insert_word d v src size dst : is_u32 d -> is_u32 v -> 0 <= src -> 0 <= size -> 0 <= dst ->
  (d .& (0xFFFFFFFF .^ to_u32 ((2 ^ size - 1) << dst))) .| to_u32 (((v >> src) .& (2 ^ size - 1)) << dst)
  = word (fun i => if (dst <=? i) && (i <? dst + size) then placed v src size dst i else Z.testbit d i).
Proof.
  intros Hd Hv Hs Hz Hdst. apply word_unique; [apply lor_u32; [by apply land_u32|apply to_u32_range]|]. intros i Hi.
  rewrite Z.lor_spec, Z.land_spec, Z.lxor_spec, testbit_ones32, testbit_placed by (done || lia).
  assert (Z.testbit (to_u32 ((2 ^ size - 1) << dst)) i = (dst <=? i) && (i <? dst + size)) as ->.
  { rewrite testbit_to_u32 by done. replace (2 ^ size - 1) with (Z.ones size) by (rewrite Z.ones_equiv; lia).
    destruct (Z.leb_spec dst i) as [Hle|Hgt]; cbn [andb]; [|by rewrite Z.shiftl_spec, Z.testbit_neg_r by lia].
    rewrite Z.shiftl_spec, Z.testbit_ones_nonneg by lia. apply eq_iff_eq_true. rewrite !Z.ltb_lt. lia. }
  unfold placed. destruct ((dst <=? i) && (i <? dst + size)); cbn [xorb andb]; [by rewrite andb_false_r|by rewrite andb_true_r, orb_false_r].
Qed.

Section Refinement.
Context {G : Type} `{Maxwell3D G} (code parameters : list Z).
Context (Hengine : forall (g : G) m, is_u32 (GetRegisterValue g m)).
Context (Hcode : Forall is_u32 code) (Hparameters : Forall is_u32 parameters) (Hlength : Z.of_nat (length parameters) < 2 ^ 32).

(** What the machine sees of the interpreter. *)
Definition abs (c : Core G) : Arch G :=
  {| regs := registers c; method := field (method_address c) 0 12; step := field (method_address c) 12 6;
     queue := drop (Z.to_nat (next_parameter_index c)) parameters; carry := carry_flag c; engine := maxwell3d c |}.
Definition good (c : Core G) : Prop := core_ok c /\ 0 <= next_parameter_index c.

Definition set_carry (c : Core G) (nc : option bool) : Core G := match nc with Some f => with_carry c f | None => c end.

Lemma get_reg c r : core_ok c -> 0 <= r < 8 -> GetRegister c r = Some (reg (abs c) r) /\ is_u32 (reg (abs c) r).
Proof.
  intros Hc Hr. unfold GetRegister, reg. cbn [abs regs]. destruct (Z.eqb_spec r 0) as [->|Hne]; [split; [apply (co_zero c Hc)|by split]|].
  destruct (lookup_lt_is_Some_2 (registers c) (Z.to_nat r)) as [v Hv]; [rewrite (co_length c Hc); lia|].
  rewrite (nth_lookup_Some _ _ _ _ Hv). split; [done|]. by apply (get_register_u32 c r v Hc).
Qed.

Lemma compute_spec c raw cc : core_ok c -> is_u32 raw -> decode_compute raw = Some cc ->
  match compute (abs c) cc with
  | Some (nc, v) => execute parameters c raw = ProcessResult parameters (set_carry c nc) (field raw 4 3) (field raw 8 3) v /\ is_u32 v
  | None => True
  end.
Proof.
  intros Hc Hraw Hdec.
  destruct (get_reg c (field raw 11 3) Hc (field_bound raw 11 3 ltac:(lia))) as [Ea Ha].
  destruct (get_reg c (field raw 14 3) Hc (field_bound raw 14 3 ltac:(lia))) as [Eb Hb].
  pose proof (field_bound raw 17 5 ltac:(lia)) as B17. pose proof (field_bound raw 22 5 ltac:(lia)) as B22. pose proof (field_bound raw 27 5 ltac:(lia)) as B27.
  assert (forall x, is_u32 (x mod 2 ^ 32)) as Hmod by (intros x; rewrite <- to_u32_mod; apply to_u32_range).
  assert (forall f, is_u32 (word f)) as Hword.
  { intros f. rewrite <- (word_unique (to_u32 (word f)) f); [apply to_u32_range|apply to_u32_range|]. intros i Hi. rewrite testbit_to_u32 by done.
    unfold word. rewrite testbit_word_of by lia. by rewrite (proj2 (Z.ltb_lt _ _)) by lia. }
  unfold execute, operation, result_operation, dst, src_a, src_b, alu_operation, bf_src_bit, bf_size, bf_dst_bit, GetBitfieldMask, bf_size.
  rewrite !bits_field, (immediate_signed raw Hraw), Ea, Eb by lia. unfold decode_compute in Hdec.
  pose proof (field_bound raw 0 3 ltac:(lia)) as B0. set (a := reg (abs c) (field raw 11 3)) in *. set (b := reg (abs c) (field raw 14 3)) in *.
  assert (field raw 0 3 = 0 \/ field raw 0 3 = 1 \/ field raw 0 3 = 2 \/ field raw 0 3 = 3 \/ field raw 0 3 = 4 \/ field raw 0 3 = 5 \/ field raw 0 3 = 6 \/ field raw 0 3 = 7)
    as [E|[E|[E|[E|[E|[E|[E|E]]]]]]] by lia; rewrite E in *; try done; cbn [mbind option_bind].
  - destruct (decode_alu (field raw 17 5)) as [op|] eqn:Eop; [|done]. injection Hdec as <-. cbn [compute]. fold a b.
    unfold GetALUResult. change (carry (abs c)) with (carry_flag c). rewrite (alu_value_spec _ op a b (carry_flag c) Eop Ha Hb).
    pose proof (alu_u32 (field raw 17 5) a b (carry_flag c) Ha Hb) as Hu. rewrite (alu_value_spec _ op a b (carry_flag c) Eop Ha Hb) in Hu.
    by destruct (alu_value op a b (carry_flag c)) as [[f|] v].
  - injection Hdec as <-. cbn [compute]. fold a. rewrite to_u32_mod. by split.
  - destruct (Z.eqb_spec (field raw 22 5) 31); [done|]. injection Hdec as <-. cbn [compute mbind option_bind]. fold a b. rewrite insert_word by (done || lia). by split.
  - destruct (Z.eqb_spec (field raw 22 5) 31); [done|]. injection Hdec as <-. cbn [compute mbind option_bind]. fold a b. destruct (32 <=? a) eqn:E32; [done|].
    unfold is_u32 in Ha. rewrite placed_word by (done || lia). by split.
  - destruct (Z.eqb_spec (field raw 22 5) 31); [done|]. injection Hdec as <-. cbn [compute mbind option_bind]. fold a b. destruct (32 <=? a) eqn:E32; [done|].
    unfold is_u32 in Ha. rewrite placed_word by (done || lia). by split.
  - injection Hdec as <-. cbn [compute]. fold a. unfold Read. rewrite to_u32_mod. split; [done|apply Hengine].
Qed.

(** ** Results *)

Lemma assign_fields a v : field (assign_address a v) 0 12 = v mod 2 ^ 12 /\ field (assign_address a v) 12 6 = field a 12 6.
Proof.
  unfold field, assign_address. split.
  - rewrite Z.div_1_r, <- !Z.land_ones by lia. apply Z.bits_inj'. intros i Hi. rewrite !Z.land_spec, Z.lor_spec, !Z.land_spec.
    change 0xFFF with (Z.ones 12). rewrite Z.testbit_ones_nonneg by lia. destruct (Z.ltb_spec i 12); [|by rewrite !andb_false_r].
    change (0xFFFFFFFF .^ Z.ones 12) with (Z.ones 20 << 12). rewrite Z.shiftl_spec, (Z.testbit_neg_r _ (i - 12)) by lia. by rewrite !andb_true_r, andb_false_r.
  - rewrite <- !Z.shiftr_div_pow2, <- !Z.land_ones by lia. apply Z.bits_inj'. intros i Hi. rewrite !Z.land_spec, !Z.shiftr_spec, Z.lor_spec, !Z.land_spec by done.
    rewrite Z.testbit_ones_nonneg by lia. destruct (Z.ltb_spec i 6); [|by rewrite !andb_false_r]. change 0xFFF with (Z.ones 12).
    rewrite (Z.ones_spec_high 12) by lia. change (0xFFFFFFFF .^ Z.ones 12) with (Z.ones 20 << 12). rewrite Z.shiftl_spec, Z.ones_spec_low by lia.
    by rewrite !andb_true_r, andb_false_r, orb_false_r.
Qed.

Lemma abs_send c x : abs (Send c x) =
  {| regs := registers c; method := (method (abs c) + step (abs c)) mod 2 ^ 12; step := step (abs c); queue := queue (abs c); carry := carry_flag c;
     engine := CallMethodFromMME (maxwell3d c) (method (abs c)) x |}.
Proof.
  unfold abs, Send. cbn [registers method_address next_parameter_index carry_flag maxwell3d method step queue].
  destruct (assign_fields (method_address c) (address (method_address c) + increment (method_address c))) as [-> ->].
  unfold address, increment. by rewrite !bits_field by lia.
Qed.

Definition put (c : Core G) (r x : Z) : Core G := with_registers c (if r =? 0 then registers c else <[Z.to_nat r := x]> (registers c)).
Lemma set_register_put c r x : length (registers c) = 8%nat -> 0 <= r < 8 -> SetRegister c r x = Some (put c r x).
Proof.
  intros Hl Hr. unfold SetRegister, put. destruct (Z.eqb_spec r 0) as [->|]; [by destruct c|]. rewrite Hl. by rewrite (proj2 (Z.ltb_lt _ _)) by lia.
Qed.

(** The next parameter, and the interpreter after it was taken. *)
Definition advanced (c : Core G) : Core G :=
  {| registers := registers c; method_address := method_address c; next_parameter_index := next_parameter_index c + 1;
     carry_flag := carry_flag c; maxwell3d := maxwell3d c |}.
Lemma fetch_queue c : 0 <= next_parameter_index c ->
  match queue (abs c) with
  | [] => FetchParameter parameters c = None
  | p :: rest => FetchParameter parameters c = Some (advanced c, p) /\ drop (Z.to_nat (next_parameter_index c + 1)) parameters = rest
  end.
Proof using Hlength.
  intros Hi. cbn [abs queue]. unfold FetchParameter. destruct (parameters !! Z.to_nat (next_parameter_index c)) as [p|] eqn:Ep.
  - rewrite (drop_S _ _ _ Ep). cbn [mbind option_bind]. pose proof (lookup_lt_Some _ _ _ Ep). rewrite to_u32_id by (unfold is_u32; lia).
    split; [done|]. f_equal. lia.
  - apply lookup_ge_None in Ep. by rewrite drop_ge.
Qed.

Lemma deliver_spec c op r v nc : good c -> is_u32 v -> 0 <= op < 8 -> 0 <= r < 8 ->
  match deliver (abs c) (decode_target op) r v nc with
  | None => ProcessResult parameters (set_carry c nc) op r v = None
  | Some s => exists c', ProcessResult parameters (set_carry c nc) op r v = Some c' /\ abs c' = s /\ good c'
  end.
Proof using Hlength Hparameters.
  intros [Hc Hi] Hv Hop Hr. assert (core_ok (set_carry c nc)) as Hc1 by (destruct nc; [by destruct Hc|done]).
  assert (abs (set_carry c nc) = {| regs := regs (abs c); method := method (abs c); step := step (abs c); queue := queue (abs c);
    carry := default (carry (abs c)) nc; engine := engine (abs c) |}) as Eabs by (by destruct nc).
  assert (0 <= next_parameter_index (set_carry c nc)) as Hi1 by (by destruct nc). clear Hc Hi. set (d := set_carry c nc) in *. clearbody d.
  assert (deliver (abs c) (decode_target op) r v nc = deliver (abs d) (decode_target op) r v None) as -> by (by rewrite Eabs). clear Eabs.
  assert (forall c', ProcessResult parameters d op r v = Some c' -> 0 <= next_parameter_index c' -> abs c' = abs c' /\ good c') as Hgood.
  { intros c' E Hn. split; [done|]. split; [|done]. by eapply process_result_ok. }
  pose proof (fetch_queue d Hi1) as Hq. pose proof (fun x => set_register_put d r x (co_length d Hc1) Hr) as Hset.
  pose proof (fun x => set_register_put (advanced d) r x (co_length d Hc1) Hr) as Hset'.
  assert (forall x, FetchParameter parameters (SetMethodAddress (put d r x) v) = ('(c2, p) ← FetchParameter parameters d; Some (SetMethodAddress (put c2 r x) v, p))) as Hf6.
  { intros x. unfold FetchParameter. cbn. by destruct (parameters !! _). }
  assert (forall x, field x 0 12 = x mod 2 ^ 12) as Hf0 by (intros x; unfold field; by rewrite Z.div_1_r).
  assert (op = 0 \/ op = 1 \/ op = 2 \/ op = 3 \/ op = 4 \/ op = 5 \/ op = 6 \/ op = 7) as [-> |[-> |[-> |[-> |[-> |[-> |[-> | ->]]]]]]] by lia;
    unfold deliver; cbn [decode_target needs_parameter takes_parameter sends sets_method orb mbind option_bind]; unfold ProcessResult in *;
    rewrite ?Hset in *; cbn [mbind option_bind] in *;
    try (destruct (queue (abs d)) as [|p rest] eqn:Eq; cbn [mbind option_bind]; [rewrite ?Hf6, Hq; done|]; destruct Hq as [Hq Hrest]);
    rewrite ?Hf6, ?Hq in *; cbn [mbind option_bind] in *; rewrite ?Hset' in *; cbn [mbind option_bind] in *;
    (eexists; split; [reflexivity|]; split; [|apply Hgood; [reflexivity|cbn; lia]]); rewrite ?abs_send; unfold abs;
    cbn [registers method_address next_parameter_index carry_flag maxwell3d method step queue put with_registers SetMethodAddress advanced regs carry engine default from_option];
    rewrite ?Hf0, ?Hrest; try done.
  rewrite Z.shiftr_div_pow2 by lia. change 63 with (Z.ones 6). by rewrite Z.land_ones by lia.
Qed.

(** ** Cycles *)

Definition abs_cpu (m : Machine (G := G)) : Cpu G :=
  {| c_arch := abs (m_core m); c_pc := m_pc m; c_npc := m_npc m; c_slot := m_slot m; c_last := m_last m |}.
Definition fit (m : Machine (G := G)) : Prop := good (m_core m) /\ (m_last m = true -> m_slot m = true).

(** The end of an instruction that leaves [c]. *)
Definition finish (m : Machine (G := G)) (raw : Z) (c : Core G) : Core G + Machine (G := G) :=
  if m_last m then inl c
  else
    let ends := is_exit raw && negb (m_slot m) in
    inr {| m_core := c; m_pc := m_npc m; m_npc := to_u32 (m_npc m + 4); m_slot := ends; m_last := ends |}.

Lemma finish_spec m raw c : good c ->
  match after (abs_cpu m) raw (abs c) with
  | Halt s => finish m raw c = inl c /\ abs c = s
  | Go m' => exists m1, finish m raw c = inr m1 /\ abs_cpu m1 = m' /\ fit m1
  | Invalid => True
  | Fault => False
  end.
Proof.
  intros Hg. unfold after, finish. cbn [abs_cpu c_last c_slot c_npc]. destruct (m_last m); [by case_decide|].
  assert (exits raw = is_exit raw) as -> by (unfold exits, is_exit; by rewrite flag_field by lia).
  eexists. split; [reflexivity|]. unfold abs_cpu. cbn [m_core m_pc m_npc m_slot m_last]. rewrite to_u32_mod. split; [done|]. by split.
Qed.

Lemma mstep_operate m raw : code !! Z.to_nat (m_pc m / 4) = Some raw -> field raw 0 3 <> 7 ->
  mstep code parameters m = (c ← execute parameters (m_core m) raw; Some (finish m raw c)).
Proof.
  intros Eraw Hop. unfold mstep. rewrite Eraw. cbn [mbind option_bind]. unfold operation at 1. rewrite bits_field, (proj2 (Z.eqb_neq _ 7)) by (done || lia).
  destruct (execute parameters (m_core m) raw) as [c|]; cbn [mbind option_bind]; [|done]. unfold finish. destruct (m_last m); [done|]. by destruct (is_exit raw && negb (m_slot m)).
Qed.
Lemma mstep_branch m raw v : code !! Z.to_nat (m_pc m / 4) = Some raw -> field raw 0 3 = 7 -> m_last m = false ->
  GetRegister (m_core m) (field raw 11 3) = Some v ->
  mstep code parameters m = Some (
    if Bool.eqb (v =? 0) (field raw 4 1 =? 1) then finish m raw (m_core m)
    else
      let target := to_u32 (m_pc m + 4 * immediate raw) in
      if field raw 5 1 =? 1
      then inr {| m_core := m_core m; m_pc := target; m_npc := to_u32 (target + 4); m_slot := false; m_last := false |}
      else inr {| m_core := m_core m; m_pc := m_npc m; m_npc := target; m_slot := true; m_last := false |}).
Proof.
  intros Eraw Hop Hl Hv. unfold mstep. rewrite Eraw. cbn [mbind option_bind]. unfold operation at 1, src_a. rewrite !bits_field, Hop, Z.eqb_refl, Hv by lia. cbn [mbind option_bind]. f_equal.
  unfold branch_annul, branch_condition. rewrite flag_field, bits_field, Hl by lia. unfold finish. rewrite Hl.
  pose proof (field_bound raw 4 1 ltac:(lia)) as Hb. assert (field raw 4 1 = 0 \/ field raw 4 1 = 1) as [-> | ->] by lia;
    destruct (v =? 0) eqn:Ev; cbn [EvaluateBranchCondition Z.eqb Bool.eqb negb]; unfold EvaluateBranchCondition; cbn [Z.eqb]; rewrite ?Ev; cbn [negb];
    destruct (field raw 5 1 =? 1); try done; by destruct (is_exit raw && negb (m_slot m)).
Qed.

Lemma cycle_spec m : fit m ->
  match cycle code (abs_cpu m) with
  | Fault => mstep code parameters m = None
  | Invalid => True
  | Halt s => exists c, mstep code parameters m = Some (inl c) /\ abs c = s
  | Go m' => exists m1, mstep code parameters m = Some (inr m1) /\ abs_cpu m1 = m' /\ fit m1
  end.
Proof using Hcode Hengine Hlength Hparameters.
  intros [[Hc Hi] Hlast]. unfold cycle. cbn [abs_cpu c_pc c_slot c_arch c_npc]. destruct (code !! Z.to_nat (m_pc m / 4)) as [raw|] eqn:Eraw; [|unfold mstep; by rewrite Eraw].
  assert (is_u32 raw) as Hraw by (rewrite Forall_lookup in Hcode; by eapply Hcode). unfold decode. destruct (Z.eqb_spec (field raw 0 3) 7) as [E7|E7].
  - destruct (m_slot m) eqn:Es; [done|]. assert (m_last m = false) as Hl by (destruct (m_last m); [by specialize (Hlast eq_refl)|done]).
    destruct (get_reg (m_core m) (field raw 11 3) Hc (field_bound raw 11 3 ltac:(lia))) as [Ev _].
    rewrite (mstep_branch m raw _ Eraw E7 Hl Ev), (immediate_signed raw Hraw). cbv zeta. rewrite !to_u32_mod. destruct (Bool.eqb _ _).
    + pose proof (finish_spec m raw (m_core m) (conj Hc Hi)) as Hf. unfold finish in *. rewrite Hl in *. unfold after in *. cbn [abs_cpu c_last c_slot c_npc] in *. rewrite Hl, Es in *. destruct Hf as (m1 & E1 & E2 & E3). exists m1. by rewrite E1.
    + destruct (field raw 5 1 =? 1); (eexists; split; [reflexivity|]; split; [done|by split]).
  - rewrite (mstep_operate m raw Eraw E7). destruct (decode_compute raw) as [cc|] eqn:Ecc; [|done]. cbn [mbind option_bind].
    pose proof (compute_spec (m_core m) raw cc Hc Hraw Ecc) as Hcomp. destruct (compute (abs (m_core m)) cc) as [[nc v]|]; [|done]. destruct Hcomp as [-> Hv].
    pose proof (deliver_spec (m_core m) (field raw 4 3) (field raw 8 3) v nc (conj Hc Hi) Hv (field_bound raw 4 3 ltac:(lia)) (field_bound raw 8 3 ltac:(lia))) as Hdel.
    destruct (deliver _ _ _ _ _) as [s|]; [|by rewrite Hdel]. destruct Hdel as (c' & -> & <- & Hg). cbn [mbind option_bind].
    pose proof (finish_spec m raw c' Hg) as Hf. unfold abs_cpu in Hf at 1. destruct (after _ raw (abs c')) as [m'|s| |]; [..|done].
    + destruct Hf as (m1 & -> & E2 & E3). by exists m1.
    + destruct Hf as [-> <-]. by exists c'.
    + done.
Qed.

Lemma cycles_spec n : forall m, fit m ->
  match cycles code n (abs_cpu m) with
  | Halt s => exists c, mrun code parameters n m = Some c /\ abs c = s
  | Go _ => mrun code parameters n m = None
  | Invalid => True
  | Fault => forall k, mrun code parameters k m = None
  end.
Proof using Hcode Hengine Hlength Hparameters.
  induction n as [|n IH]; intros m Hm; [done|]. cbn [cycles mrun]. pose proof (cycle_spec m Hm) as Hs. destruct (cycle code (abs_cpu m)) as [m'|s| |].
  - destruct Hs as (m1 & E & <- & Hm1). specialize (IH m1 Hm1). rewrite E. cbn [mbind option_bind].
    destruct (cycles code n (abs_cpu m1)); [done|done|done|]. intros [|k]; [done|]. cbn [mrun]. rewrite E. apply IH.
  - destruct Hs as (c & -> & <-). by exists c.
  - done.
  - intros [|k]; [done|]. cbn [mrun]. by rewrite Hs.
Qed.
End Refinement.

(** C33: the interpreter runs a macro as the machine does, for code and
    parameters that are words, at least one and fewer than 2^32 parameters, and
    an engine whose registers hold words.  When the machine halts, [Execute]
    returns, with the registers, method, increment, remaining parameters, carry
    and engine that the machine has: so every arithmetic, bit-field, read, move,
    fetch and send instruction, branches, annulled branches and the delay slots
    of branches and exits do what the machine says.  When [Execute] returns, the
    machine has halted in the same state or has come to something invalid: a
    branch in a delay slot, an encoding without an operation, a bit field of 31
    bits, a shift by 32 or more, or parameters left over at the end. *)
Theorem macro_execute_is_machine {G} `{Maxwell3D G} code p rest (g : G) :
  (forall (g : G) m, is_u32 (GetRegisterValue g m)) -> Forall is_u32 code -> Forall is_u32 (p :: rest) -> Z.of_nat (length (p :: rest)) < 2 ^ 32 ->
  (forall n s, cycles code n (boot g p rest) = Halt s ->
     exists fuel s', Execute code (p :: rest) fuel g = Some s' /\ abs (p :: rest) (core s') = s)
  /\ (forall fuel s', Execute code (p :: rest) fuel g = Some s' ->
     exists n, cycles code n (boot g p rest) = Halt (abs (p :: rest) (core s')) \/ cycles code n (boot g p rest) = Invalid).
Proof.
  intros Hengine Hcode Hparameters Hlength. destruct (start (p :: rest) g) as [s0|] eqn:Es; [|done].
  set (m0 := {| m_core := core s0; m_pc := 0; m_npc := 4; m_slot := false; m_last := false |}).
  assert (abs_cpu (p :: rest) m0 = boot g p rest /\ fit m0) as [<- Hfit].
  { injection Es as <-. split; [done|]. split; [|done]. assert (is_u32 0) as H0 by (by split). apply Forall_cons in Hparameters as [Hp _].
    split; [split; [done|cbn; repeat (constructor; [done|]); constructor|done|done]|cbn; lia]. }
  pose proof (fun c => macro_execute_unrolled code (p :: rest) g s0 c Es) as Hex. fold m0 in Hex.
  pose proof (fun n => cycles_spec code (p :: rest) Hengine Hcode Hparameters Hlength n m0 Hfit) as Hc. split.
  - intros n s E. specialize (Hc n). rewrite E in Hc. destruct Hc as (c & Er & <-). destruct (proj2 (Hex c) (ex_intro _ n Er)) as (fuel & s' & E' & <-). by exists fuel, s'.
  - intros fuel s' E. destruct (proj1 (Hex (core s'))) as [n Hn]; [by exists fuel, s'|]. exists n. specialize (Hc n).
    destruct (cycles code n (abs_cpu (p :: rest) m0)) as [m|s| |]; [congruence| |by right|by rewrite Hc in Hn]. destruct Hc as (c & Er & <-). left. congruence.
Qed.

(** ** A macro *)

(** An engine that records the methods it is sent. *)
#[local] Instance recorder : Maxwell3D (list (Z * Z)) := {
  CallMethodFromMME g m v := g ++ [(m, v)];
  GetRegisterValue g m := 0
}.

Lemma macro_execute_is_machine_witness : exists s fuel s',
  cycles sample_code 4 (boot ([] : list (Z * Z)) 0x1100 [7]) = Halt s
  /\ engine s = [(0x100, 0x1100); (0x101, 7); (0x102, 12)]
  /\ Execute sample_code [0x1100; 7] fuel ([] : list (Z * Z)) = Some s' /\ abs [0x1100; 7] (core s') = s.
Proof.
  eexists.
  destruct (macro_execute_is_machine sample_code 0x1100 [7] ([] : list (Z * Z))) as [HM _];
    [intros; split; vm_compute; congruence|repeat constructor; vm_compute; congruence|repeat constructor; vm_compute; congruence|vm_compute; reflexivity|].
  destruct (HM 4%nat _ ltac:(vm_compute; reflexivity)) as (fuel & s' & E & Ea).
  exists fuel, s'. split; [vm_compute; reflexivity|]. split; [|split; [exact E|exact Ea]]. vm_compute. reflexivity.
Defined.

(** A taken branch in the delay slot of a taken branch: the program asserts
    that this does not happen and goes on; the machine calls it invalid. *)
Definition branch_in_slot : list Z := [7 + 2 * 2 ^ 14; 7 + 1 * 2 ^ 14; 1 + 16 + 128; 1 + 16].
Lemma branch_in_slot_invalid :
  cycles branch_in_slot 2 (boot ([] : list (Z * Z)) 0 []) = Invalid
  /\ is_Some (Execute branch_in_slot [0] 9 ([] : list (Z * Z))).
Proof. split; [by vm_compute|]. vm_compute. eauto. Qed.
